(* ===== verification/_CoqProject ===== *)
-Q . S2P
Prelude.v
SchedTypes.v
Core.v
Frame.v
Wrr.v
CoreWake.v
WakeQ.v
CoreAtomics.v
CorePolicy.v
PolicyTyped.v
CoreSyscalls.v
CoreSched.v
WrrSched.v
RtBandwidth.v
RtQueue.v
RtPush.v
RtPushTasks.v
RtGroups.v
FairMath.v
FairPelt.v
FairQueue.v
FairInv.v
FairOps.v
FairSched.v
FairFrame.v
FairBusiest.v
FairBalance.v
FairMove.v
FairBalanceInv.v
FairSelect.v
FairBandwidth.v
FairQuota.v
FairLimits.v
FairShares.v
FairHload.v
FairLeaf.v
FairGroups.v
NohzLoad.v
Nohz.v
NumaStats.v
NumaMigrate.v
NumaBooks.v
NumaPlace.v
NumaFaults.v
NumaGroups.v
NumaScan.v
Rotation.v
Ptree.v
CString.v
Mybash.v
ShellHistory.v
ShellParse.v
ShellMain.v
HttpServer.v
Rotationd.v
