(* ===== verification/Prelude.v ===== *)
(** * A verification of the Systems repository

    The repository holds five programs around the Linux kernel: a weighted
    round-robin scheduling class added to the kernel's scheduler, a set of
    system calls on device rotation with the daemon that feeds them, a system
    call that lists the process tree, a shell, and a web server.  Each is
    translated function by function into executable definitions; the theorems
    are about those definitions.

    ** Scheduler (src/scheduler/schedulers)

    - [SchedTypes]: the data of sched.h and isched.h.  A pointer to a
      [task_struct] is a task id and a pointer to a run queue is a CPU number;
      [kernel] is the store both index.  Also the helpers of sched.h, the
      clocks and [resched_curr] of core.c.  Calls to code that has no state
      here (cgroup accounting, interrupts, cpufreq) are appended to [log].
    - [Core]: the queue operations of core.c ([enqueue_task], [dequeue_task],
      [check_preempt_curr], [set_task_cpu], [move_queued_task],
      [__set_cpus_allowed_ptr], [check_class_changed]).  The function pointers of
      [struct sched_class] are the type class [QueueOps].  [Frame]: what the
      core routines leave alone, as an equivalence with its hint database.
    - [CoreWake]: wakeup in core.c ([try_to_wake_up] down to
      [ttwu_do_activate], with the choice of a CPU).  Whatever CPU a class
      proposes, the task ends on, or is pending for, one it may use.
    - [WakeQ]: the wake queues of core.c, an access to shared memory at a time,
      for any number of contexts.  No wakeup is lost, no task is used without a
      reference, and [wake_up_q] ends.  [CoreAtomics]: the [cmpxchg] loops on the
      flags of a task; they are single updates, those of [SchedTypes].
    - [CorePolicy]: fork, nice values, priority inheritance and policy changes.
      [PolicyTyped]: policy, priorities, class and weight of every task stay
      consistent through all of them; the weight tables match.
    - [CoreSyscalls]: the scheduling system calls, their permission checks and
      round trips.
    - [CoreSched]: [__schedule], [context_switch], the tick, yielding and CPU
      removal.  [rq->curr] and [on_cpu] agree on every CPU; the shortcut of
      [pick_next_task] is equivalent to the walk over the classes.
    - [Wrr]: all of wrr.c.  Invariant: ring, [nrRunning] and [totalWeight] of
      every CPU agree through every operation, also when core.c moves a task.
      Every queued task is on the ring of its own CPU.  Fairness: one round of
      ticks gives each task of a ring of SCHED_WRR tasks [weight] times the time
      slice.  CPU selection, the two system calls, and two results on what
      does not happen ([pullTaskWrr] never pulls; tasks with another policy are
      never time-sliced).  [WrrSched]: the class inside [__schedule], wakeup,
      [set_user_nice] and [rt_mutex_setprio].
    - [RtBandwidth]: the bandwidth control of rt.c.  Budgets are conserved by
      borrowing, and therefore a CPU that goes offline always gets back what it
      lent; a queue is throttled when it has overrun what it could borrow.
    - [RtQueue]: the priority array of rt.c.  Bitmap, lists, counts, cached
      highest priority and the count in the run queue agree ([rt_wf]); enqueue,
      dequeue, requeue and save/restore are described list by list.
    - [RtPush]: pushing, pulling and picking of rt.c, and the tick, priority and
      hotplug operations.  [pick_next_task_rt] answers with the first task of
      the highest priority; a push target is suitable whatever other CPUs do
      while [double_lock_balance] has dropped a lock; the scan for overloaded CPUs
      ends.  [RtPushTasks]: [push_rt_tasks] returns and keeps all queues well
      formed, as long as other CPUs queue no further pushable task meanwhile.
    - [RtGroups]: the limits of task groups in rt.c and the cgroup operations of
      core.c, with CONFIG_RT_GROUP_SCHED.  Through every creation, removal, change
      of a limit and move of a task, children share what their group has and all
      groups together keep to the global limit, as the code computes ratios and,
      while no runtime is so long that they wrap, in shares of time.
    - [FairMath], [FairPelt], [FairQueue]: the fair class of fair.c: weights and
      the division by a reciprocal, virtual time and the timeline, load
      tracking, and the operations of the class.  The red-black tree is the list
      of its nodes in order, justified by the walk of [__enqueue_entity] on
      trees of any shape.  [FairInv], [FairOps] and [FairSched]: timeline, counts,
      weights and buddies agree through every operation; the picked entity is
      not unfair to the leftmost one; the tick preempts a task whose slice is
      used up, and the slices fit in one period.  [FairFrame]: the operations of
      the class keep to what core.c lets a class change.
    - [FairSelect]: the choice of a CPU for a task in fair.c.  It ends and
      answers with the previous CPU, the waking CPU or one the task may use; the
      idlest CPU of a group is idle, or least loaded.
    - [FairBusiest]: the statistics of load balancing, the imbalance and its
      bounds, the busiest queue.  [FairBalance]: [load_balance], the walks over
      the domains, idle and active balancing.  [FairMove]: the invariant while
      tasks are between two queues; what other CPUs do when the locks are
      dropped is a parameter that keeps it.  [FairBalanceInv]: balancing ends, no
      [BUG_ON] fires, and no task is lost, duplicated or misplaced.
    - [FairBandwidth]: bandwidth control of task groups in fair.c and its control
      files in core.c, with CONFIG_CFS_BANDWIDTH: the pool of a group, slices,
      throttling up and down the tree, the two timers.  [FairQuota]: no operation
      creates time, so a group runs for at most what it has; the overuse while
      the period timer hands time out is bounded; alone the timer ends after one
      round.  [FairLimits]: limits read back as written, and no group gets more
      than a group it lies in, as long as quotas are below 2^43 microseconds.
    - [FairShares]: the shares and loads of task groups with
      CONFIG_FAIR_GROUP_SCHED: weights and loads of the entities of a group and
      their bounds.  [FairHload]: the hierarchical load of a task, equivalent to
      its recursive definition.  [FairLeaf]: the list of the queues of a CPU and
      the pass over it; every queue comes before its parent, so one pass
      propagates everything, as long as no enqueue stops early.  [FairGroups]: the
      life of a group; its sum stays the sum of the contributions of its CPUs.
    - [NohzLoad], [Nohz]: CPUs without a tick, with CONFIG_NO_HZ_COMMON, in fair.c
      and core.c.  Missed ticks leave the load indices between the loads that were
      there; mask, counts and flags of idle CPUs agree; balancing on behalf of
      others ends and keeps every task.
    - [NumaStats], [NumaMigrate], [NumaFaults], [NumaScan]: NUMA balancing in
      fair.c and core.c, with CONFIG_NUMA_BALANCING: fault statistics, weights of
      nodes and the scan period (which stays between its limits and adapts in the
      right direction); the search for a CPU, moving and swapping; faults,
      placement and groups of tasks; the scan of an address space (which unmaps
      exactly what lies between two scan offsets).  [NumaBooks], [NumaPlace]: every
      attempt to move a task keeps queues, counts and references in order.
      [NumaGroups]: a group's statistics are the sums of those of its members, and
      it is not freed under them.

    The configuration is CONFIG_SMP, CONFIG_SCHEDSTATS, CONFIG_POSIX_TIMERS and
    64 bits, without group scheduling, NUMA balancing, NO_HZ and hrtick;
    CONFIG_PREEMPT and, in the fair class, CONFIG_SCHED_DEBUG are left open.  [RtGroups], [FairBandwidth] and the files after it, [NohzLoad],
    [Nohz] and the Numa files are about the options they name, with a state that
    extends [kernel].  A
    failed [BUG_ON] is [None], and the theorems show that it does not happen.

    ** Rotation (src/synchronizer)

    - [Rotation]: rotation.c.  Every critical section is a function on the
      state; processes blocked in [rotevt_wait] are part of it, and a step
      relation interleaves the calls.  The window is the last samples, events
      trigger and wake their sleepers exactly when the window demands it, window
      and id map are in order in every reachable state, and so are queues and
      waiting processes in every run that frees no event under a woken waiter;
      destroying an event under one is shown to reach a use after free.
    - [Rotationd]: rotationd.c, with the sensor library as arguments, tied to
      the kernel side: the window holds the last readings.

    ** Process tree (src/ptree)

    - [Ptree]: the system call of ptree.c computes the breadth-first listing.

    ** Shell (src/mybash) and web server (src/tcp)

    - [CString]: the functions of <string.h> both use, on byte arrays.
    - [Mybash]: funcs.c and shell.c over an explicit heap, on which undefined
      accesses, failed asserts and exhausted memory are outcomes.
      [ShellHistory], [ShellParse] and [ShellMain]: the ring of remembered
      commands refines a bounded list, parsing gives the words of the line, and
      every line leaves the heap with the history only.
    - [HttpServer]: http-server.c as a sequence of actions; no file outside the
      web root has any influence on them, the status lines, complete transfers, and the inputs
      that overflow a buffer.

    ** Integers, loops and fuel

    Fixed-width integers are [Z] with the wrap-around written out ([u16],
    [u32], [u64], [s32], [s64]).  Loops over lists are structural.  Those with
    fuel: [Ptree.bfs_loop] (the theorem shows the call returns), [strtok] loops
    (one round per byte), [Mybash.prompt_loop] (one round per byte of input),
    [RtBandwidth.avg_loop] (as many rounds as periods have passed, shown to be
    enough),
    [RtPush.rto_scan] (two rounds, shown to be enough),
    [RtPush.push_rt_tasks] (one round per pushable task, shown to be enough),
    [FairMath.shrink] (64 rounds for a 64-bit factor, shown to be enough),
    [FairBalance.detach_loop] (as many rounds as [loop_max] leaves),
    [FairBalance.redo] and [FairBalance.more_balance] (bounds from the number of
    CPUs and [sysctl_sched_nr_migrate]) and [FairSelect.idlest_walk] (from the
    size and the depth of the domains), all shown to be enough; the walks over
    the groups of [FairBandwidth] ([tg_levels], the depth of the tree) and
    [FairBandwidth.refill_rounds] (any number of rounds for the bounds, one shown
    to be enough without interference); [RtGroups.tg_walk] (the number of groups,
    shown to be enough) and the walks of [FairShares], [FairHload], [FairLeaf] and
    [FairGroups] (the depth of the tree, an assumption of their theorems);
    [NumaScan.scan_vma] (the pages a scan may look at, shown to be enough);
    [CoreAtomics.fetch_or_loop] and [CoreAtomics.set_nr_if_polling_loop] (shown to
    be enough when one round is undisturbed); the retry loops of core.c ([CoreWake.fallback_loop],
    [CorePolicy.setscheduler_loop], [CoreSyscalls.affinity_loop],
    [CoreSched.pick_again], [CoreSched.migrate_loop]) and
    [FairQueue.pick_next_task_fair], whose fuel is an argument because they
    retry as long as other CPUs interfere.

    ** Not modelled

    Of fair.c: the virtual time of entities of groups below the root.  Of core.c:
    boot-time setup, preemption entry points and hrtick.  The deadline class and
    everything else that is not in the repository, vendored headers and the test
    programs.  Other CPUs appear as steps of a
    relation or as a parameter, not as a memory model.

    This file is the prelude of the library: record update, machine integers,
    error numbers, linked lists, sums and the shared tactics. *)

From Stdlib Require Export ZArith Lia.
From stdpp Require Export functions.
From stdpp Require Export prelude gmap.

#[global] Open Scope Z_scope.

(** ** Field update of records

    C code writes [rq->wrr.nrRunning = 0]; the model writes
    [rq <| wrr ::= fun w => w <| nrRunning := 0 |> |>].  A record takes part by
    giving its eta-expansion as a [Settable] instance; the setter of each of
    its projections is then derived by [solve_setter]. *)

Class Settable (R : Type) := eta_of : R -> R.
Class Setter {R E : Type} (proj : R -> E) := upd : (E -> E) -> R -> R.
Arguments upd {R E} proj {_} f r /.

Ltac solve_setter :=
  match goal with
  | |- @Setter ?R ?E ?proj =>
      let s := constr:(_ : Settable R) in
      let s := eval hnf in s in
      let f := fresh "f" in
      let r := fresh "r" in
      intros f r;
      let b := eval cbv beta in (s r) in
      let b := eval pattern (proj r) in b in
      match b with
      | ?g _ => let t := eval cbv beta in (g (f (proj r))) in exact t
      end
  end.

#[export] Hint Extern 0 (Setter _) => solve_setter : typeclass_instances.

Declare Scope record_scope.
#[global] Open Scope record_scope.
#[warnings="-postfix-notation-not-level-1"]
Notation "x <| proj ::= f |>" := (upd proj f x)
  (at level 12, f at level 99, left associativity) : record_scope.
#[warnings="-postfix-notation-not-level-1"]
Notation "x <| proj := v |>" := (upd proj (fun _ => v) x)
  (at level 12, v at level 99, left associativity) : record_scope.

(** ** Machine integers

    A [w]-bit unsigned value is a [Z] in [0, 2^w); a signed one is a [Z] in
    [-2^(w-1), 2^(w-1)).  Arithmetic is done in [Z] and wrapped where C wraps
    (unsigned arithmetic, conversions, and the signed conversions that the
    kernel compiles with -fno-strict-overflow). *)

Definition wrapU (w x : Z) : Z := x mod 2 ^ w.
Definition wrapS (w x : Z) : Z := (x + 2 ^ (w - 1)) mod 2 ^ w - 2 ^ (w - 1).

Definition u16 (x : Z) : Z := wrapU 16 x.
Definition u32 (x : Z) : Z := wrapU 32 x.
Definition u64 (x : Z) : Z := wrapU 64 x.
Definition s32 (x : Z) : Z := wrapS 32 x.
Definition s64 (x : Z) : Z := wrapS 64 x.

Definition inU (w x : Z) : Prop := 0 <= x < 2 ^ w.
Definition inS (w x : Z) : Prop := - 2 ^ (w - 1) <= x < 2 ^ (w - 1).

Definition UINT_MAX : Z := 4294967295.
Definition U64_MAX : Z := 18446744073709551615.
Definition INT_MAX : Z := 2147483647.
Definition INT_MIN : Z := -2147483648.

Section Wrap.
Context (w : Z) (Hw : 0 < w).

Lemma wrapU_range x : inU w (wrapU w x).
Proof using Hw. apply Z.mod_pos_bound, Z.pow_pos_nonneg; lia. Qed.

Lemma wrapU_id x : inU w x -> wrapU w x = x.
Proof. apply Z.mod_small. Qed.

Lemma wrapU_add_l a b : wrapU w (wrapU w a + b) = wrapU w (a + b).
Proof. apply Zplus_mod_idemp_l. Qed.

Lemma wrapU_add_r a b : wrapU w (a + wrapU w b) = wrapU w (a + b).
Proof. apply Zplus_mod_idemp_r. Qed.

Lemma wrapU_sub_l a b : wrapU w (wrapU w a - b) = wrapU w (a - b).
Proof. apply Zminus_mod_idemp_l. Qed.

Lemma wrapU_sub_r a b : wrapU w (a - wrapU w b) = wrapU w (a - b).
Proof. apply Zminus_mod_idemp_r. Qed.

Lemma wrapU_wrapU a : wrapU w (wrapU w a) = wrapU w a.
Proof. apply Zmod_mod. Qed.

Lemma pow2_half : 2 ^ w = 2 * 2 ^ (w - 1).
Proof using Hw. rewrite <- Z.pow_succ_r by lia. f_equal; lia. Qed.

Lemma wrapS_range x : inS w (wrapS w x).
Proof using Hw.
  unfold inS, wrapS.
  pose proof (Z.mod_pos_bound (x + 2 ^ (w - 1)) (2 ^ w)
                ltac:(apply Z.pow_pos_nonneg; lia)).
  pose proof pow2_half. lia.
Qed.

Lemma wrapS_id x : inS w x -> wrapS w x = x.
Proof using Hw.
  unfold inS, wrapS. intros Hx. pose proof pow2_half.
  rewrite Z.mod_small by lia. lia.
Qed.

(** A signed reading of an unsigned word, by the sign bit. *)
Lemma wrapS_of_U x :
  inU w x -> wrapS w x = if decide (x < 2 ^ (w - 1)) then x else x - 2 ^ w.
Proof using Hw.
  unfold inU, wrapS. intros Hx. pose proof pow2_half.
  case_decide.
  - rewrite Z.mod_small by lia. lia.
  - rewrite <- (Z_mod_plus_full _ (-1)), Z.mod_small by lia. lia.
Qed.

(** Reading a wrapped word as signed is wrapping it as signed. *)
Lemma wrapS_wrapU x : wrapS w (wrapU w x) = wrapS w x.
Proof. unfold wrapS, wrapU. by rewrite Zplus_mod_idemp_l. Qed.
Lemma wrapU_wrapS x : wrapU w (wrapS w x) = wrapU w x.
Proof.
  unfold wrapS, wrapU. rewrite Zminus_mod_idemp_l. f_equal. lia.
Qed.
End Wrap.

Lemma u32_range x : 0 <= u32 x < 2 ^ 32.
Proof. by apply wrapU_range. Qed.
Lemma u64_range x : 0 <= u64 x < 2 ^ 64.
Proof. by apply wrapU_range. Qed.
Lemma s32_range x : - 2 ^ 31 <= s32 x < 2 ^ 31.
Proof. by apply (wrapS_range 32). Qed.
Lemma s64_range x : - 2 ^ 63 <= s64 x < 2 ^ 63.
Proof. by apply (wrapS_range 64). Qed.
Lemma u16_id x : 0 <= x < 2 ^ 16 -> u16 x = x.
Proof. by apply wrapU_id. Qed.
Lemma u32_id x : 0 <= x < 2 ^ 32 -> u32 x = x.
Proof. by apply wrapU_id. Qed.
Lemma u64_id x : 0 <= x < 2 ^ 64 -> u64 x = x.
Proof. by apply wrapU_id. Qed.
Lemma s32_id x : - 2 ^ 31 <= x < 2 ^ 31 -> s32 x = x.
Proof. by apply (wrapS_id 32). Qed.
Lemma u64_le x : 0 <= x -> u64 x <= x.
Proof. intros Hx. unfold u64, wrapU. apply Z.mod_le; lia. Qed.
Lemma u64_neg x : - 2 ^ 64 <= x < 0 -> u64 x = 2 ^ 64 + x.
Proof. intros Hx. unfold u64, wrapU. symmetry. apply (Z.mod_unique _ _ (-1)); lia. Qed.
Lemma s64_id x : - 2 ^ 63 <= x < 2 ^ 63 -> s64 x = x.
Proof. by apply (wrapS_id 64). Qed.
Lemma u32_add_l a b : u32 (u32 a + b) = u32 (a + b).
Proof. apply wrapU_add_l. Qed.
Lemma u32_add_r a b : u32 (a + u32 b) = u32 (a + b).
Proof. apply wrapU_add_r. Qed.
Lemma u32_sub_l a b : u32 (u32 a - b) = u32 (a - b).
Proof. apply wrapU_sub_l. Qed.
Lemma u32_sub_r a b : u32 (a - u32 b) = u32 (a - b).
Proof. apply wrapU_sub_r. Qed.
Lemma u32_u32 a : u32 (u32 a) = u32 a.
Proof. apply wrapU_wrapU. Qed.
Lemma u64_add_l a b : u64 (u64 a + b) = u64 (a + b).
Proof. apply wrapU_add_l. Qed.
Lemma u64_add_r a b : u64 (a + u64 b) = u64 (a + b).
Proof. apply wrapU_add_r. Qed.
Lemma u64_sub_l a b : u64 (u64 a - b) = u64 (a - b).
Proof. apply wrapU_sub_l. Qed.
Lemma u64_sub_r a b : u64 (a - u64 b) = u64 (a - b).
Proof. apply wrapU_sub_r. Qed.
Lemma u64_u64 a : u64 (u64 a) = u64 a.
Proof. apply wrapU_wrapU. Qed.

Lemma s32_u32 a : s32 (u32 a) = s32 a.
Proof. apply wrapS_wrapU. Qed.
Lemma s64_u64 a : s64 (u64 a) = s64 a.
Proof. apply wrapS_wrapU. Qed.
Lemma u64_s64 a : u64 (s64 a) = u64 a.
Proof. apply wrapU_wrapS. Qed.

Lemma s64_sub_u64 a b : s64 (a - u64 b) = s64 (a - b).
Proof.
  unfold s64, u64, wrapS, wrapU. f_equal.
  replace (a - b mod 2 ^ 64 + 2 ^ (64 - 1)) with (a + 2 ^ (64 - 1) - b mod 2 ^ 64) by lia.
  rewrite Zminus_mod_idemp_r. f_equal. lia.
Qed.
Lemma s64_s64_sub a b : s64 (s64 a - b) = s64 (a - b).
Proof.
  unfold s64, wrapS. f_equal.
  replace ((a + 2 ^ (64 - 1)) mod 2 ^ 64 - 2 ^ (64 - 1) - b + 2 ^ (64 - 1))
    with ((a + 2 ^ (64 - 1)) mod 2 ^ 64 - b) by lia.
  rewrite Zminus_mod_idemp_l. f_equal. lia.
Qed.

Create Rewrite HintDb wrap.
#[export] Hint Rewrite u32_add_l u32_add_r u32_sub_l u32_sub_r u32_u32
  u64_add_l u64_add_r u64_sub_l u64_sub_r u64_u64 : wrap.

#[global] Opaque u16 u32 u64 s32 s64.

(** ** Error numbers (asm-generic/errno-base.h) *)

Definition EPERM : Z := 1.
Definition ESRCH : Z := 3.
Definition E2BIG : Z := 7.
Definition EAGAIN : Z := 11.
Definition ENOMEM : Z := 12.
Definition EACCES : Z := 13.
Definition EFAULT : Z := 14.
Definition EBUSY : Z := 16.
Definition EINVAL : Z := 22.
Definition EFBIG : Z := 27.
Definition ENOSPC : Z := 28.
Definition ERESTARTSYS : Z := 512.

(** ** Linux linked lists

    A [struct list_head] ring is the Rocq list of the ids of the structures
    linked on it, first entry first; a node is on at most one ring. *)

Definition list_add (p : Z) (l : list Z) : list Z := p :: l.
Definition list_add_tail (p : Z) (l : list Z) : list Z := l ++ [p].
Definition list_del (p : Z) (l : list Z) : list Z := filter (fun q => q <> p) l.
Definition list_move (p : Z) (l : list Z) : list Z := list_add p (list_del p l).
Definition list_move_tail (p : Z) (l : list Z) : list Z := list_add_tail p (list_del p l).

Lemma list_del_notin p l : p ∉ l -> list_del p l = l.
Proof.
  unfold list_del. induction l as [|x l IH]; intros Hp; [done|].
  apply not_elem_of_cons in Hp as [? ?].
  rewrite filter_cons_True by done. by rewrite IH.
Qed.

Lemma list_del_app p l1 l2 : list_del p (l1 ++ l2) = list_del p l1 ++ list_del p l2.
Proof. apply (filter_app (fun q => q <> p)). Qed.

Lemma list_del_head p l : p ∉ l -> list_del p (p :: l) = l.
Proof.
  intros Hp. unfold list_del. rewrite filter_cons_False by (intros ?; done).
  by apply list_del_notin.
Qed.

Lemma elem_of_list_del p q l : q ∈ list_del p l <-> q ∈ l /\ q <> p.
Proof. unfold list_del. rewrite list_elem_of_filter. naive_solver. Qed.

Lemma NoDup_list_del p l : NoDup l -> NoDup (list_del p l).
Proof. apply NoDup_filter. Qed.

Lemma NoDup_list_add p l : p ∉ l -> NoDup l -> NoDup (list_add p l).
Proof. by constructor. Qed.

Lemma NoDup_list_add_tail p l : p ∉ l -> NoDup l -> NoDup (list_add_tail p l).
Proof.
  intros Hp Hl. apply NoDup_app. split_and!; [done| |apply NoDup_singleton].
  set_solver.
Qed.

Lemma list_del_Permutation p l : NoDup l -> p ∈ l -> l ≡ₚ p :: list_del p l.
Proof.
  intros Hnd [l1 [l2 ->]]%list_elem_of_split.
  apply NoDup_app in Hnd as (H1 & Hd & [H2 H3]%NoDup_cons).
  assert (p ∉ l1) by (intros ?; eapply Hd; set_solver).
  rewrite list_del_app, list_del_head, (list_del_notin p l1) by done.
  symmetry. apply Permutation_middle.
Qed.

Create HintDb lists.
#[export] Hint Resolve NoDup_list_del NoDup_list_add NoDup_list_add_tail : lists.

(** ** Sums over lists *)

Definition sum_of {A : Type} (f : A -> Z) (l : list A) : Z :=
  foldr (fun x s => f x + s) 0 l.

Lemma sum_of_app {A} (f : A -> Z) l1 l2 :
  sum_of f (l1 ++ l2) = sum_of f l1 + sum_of f l2.
Proof. unfold sum_of. induction l1; simpl; lia. Qed.

Lemma sum_of_Permutation {A} (f : A -> Z) l1 l2 :
  l1 ≡ₚ l2 -> sum_of f l1 = sum_of f l2.
Proof. unfold sum_of. induction 1; simpl; lia. Qed.

Lemma sum_of_ext {A} (f g : A -> Z) l :
  (forall x, x ∈ l -> f x = g x) -> sum_of f l = sum_of g l.
Proof.
  unfold sum_of. induction l as [|a l IH]; intros Hfg; [done|]. simpl.
  rewrite (Hfg a), IH by set_solver. done.
Qed.

Lemma sum_of_nonneg {A} (f : A -> Z) l :
  (forall x, x ∈ l -> 0 <= f x) -> 0 <= sum_of f l.
Proof.
  unfold sum_of. induction l as [|a l IH]; intros Hf; simpl; [lia|].
  pose proof (Hf a ltac:(set_solver)).
  specialize (IH ltac:(intros; apply Hf; set_solver)). lia.
Qed.

Lemma sum_of_zero {A} (f : A -> Z) l : (forall x, x ∈ l -> f x = 0) -> sum_of f l = 0.
Proof.
  intros Hf. rewrite (sum_of_ext f (fun _ => 0) l Hf). clear Hf. induction l; [done|exact IHl].
Qed.

(** Changing the summand of one element. *)
Lemma sum_of_upd {A} (f g : A -> Z) l x :
  NoDup l -> x ∈ l -> (forall y, y <> x -> g y = f y) ->
  sum_of g l = sum_of f l - f x + g x.
Proof.
  unfold sum_of. induction 1 as [|a l Ha Hnd IH]; intros Hx Hg; [set_solver|]. simpl.
  apply elem_of_cons in Hx as [->|Hx].
  - assert (Heq : forall y, y ∈ l -> g y = f y) by (intros; apply Hg; set_solver).
    fold (sum_of g l). fold (sum_of f l). rewrite (sum_of_ext g f l Heq). lia.
  - rewrite IH by done. rewrite (Hg a) by (intros ->; done). lia.
Qed.

Lemma sum_of_le {A} (f : A -> Z) l x :
  (forall y, y ∈ l -> 0 <= f y) -> x ∈ l -> f x <= sum_of f l.
Proof.
  unfold sum_of. induction l as [|a l IH]; intros Hf Hx; [set_solver|]. simpl.
  pose proof (Hf a ltac:(set_solver)).
  pose proof (sum_of_nonneg f l ltac:(intros; apply Hf; set_solver)) as Hn. unfold sum_of in Hn.
  apply elem_of_cons in Hx as [->|Hx]; [lia|].
  specialize (IH ltac:(intros; apply Hf; set_solver) Hx). lia.
Qed.

Lemma sum_of_mono {A} (f g : A -> Z) l : (forall x, x ∈ l -> f x <= g x) -> sum_of f l <= sum_of g l.
Proof.
  unfold sum_of. induction l as [|a l IH]; intros Hfg; [done|]. simpl.
  pose proof (Hfg a ltac:(set_solver)). specialize (IH ltac:(intros; apply Hfg; set_solver)). lia.
Qed.

Lemma sum_of_scale {A} (f : A -> Z) m l : sum_of (fun x => m * f x) l = m * sum_of f l.
Proof. unfold sum_of. induction l as [|a l IH]; simpl; [lia|]. rewrite IH. lia. Qed.

(** ** Tactics *)

(** Case analysis on a boolean or decidable test of the goal or a hypothesis. *)
Ltac cases :=
  repeat match goal with
  | |- context [ if ?b then _ else _ ] => destruct b eqn:?
  | H : context [ if ?b then _ else _ ] |- _ => destruct b eqn:?
  end.

(** Turns boolean comparisons in the hypotheses into propositions. *)
Ltac zbool :=
  repeat match goal with
  | H : (_ && _)%bool = true |- _ => apply andb_prop in H as [? ?]
  | H : (_ =? _) = true |- _ => apply Z.eqb_eq in H
  | H : (_ =? _) = false |- _ => apply Z.eqb_neq in H
  | H : (_ <? _) = true |- _ => apply Z.ltb_lt in H
  | H : (_ <? _) = false |- _ => apply Z.ltb_ge in H
  | H : (_ <=? _) = true |- _ => apply Z.leb_le in H
  | H : (_ <=? _) = false |- _ => apply Z.leb_gt in H
  | H : negb _ = true |- _ => apply negb_true_iff in H
  | H : negb _ = false |- _ => apply negb_false_iff in H
  end.
