(* ===== verification/SchedTypes.v ===== *)
(** * Scheduler data model

    The task, run-queue and machine state that wrr.c, rt.c and core.c share,
    with the helpers of sched.h and the clock and reschedule primitives of
    core.c.  Pointers to [struct task_struct] are task ids and pointers to
    [struct rq] are CPU numbers; the [kernel] record is the store both index.

    The modelled configuration is CONFIG_SMP=y, CONFIG_SCHEDSTATS=y,
    CONFIG_POSIX_TIMERS=y and CONFIG_64BIT=y, with CONFIG_SCHED_DEBUG (open
    in the fair class), CONFIG_NO_HZ_COMMON, CONFIG_NUMA_BALANCING, CONFIG_SCHED_HRTICK,
    CONFIG_FAIR_GROUP_SCHED, CONFIG_CFS_BANDWIDTH, CONFIG_RT_GROUP_SCHED, CONFIG_IRQ_TIME_ACCOUNTING and
    CONFIG_PARAVIRT_TIME_ACCOUNTING off and every CPU in the default root
    domain.  A call to a routine outside the repository that only acts on state
    the model does not have (cgroup accounting, IPIs, cpufreq) is appended to
    [log] with its arguments. *)

From S2P Require Import Prelude.

(** ** Scheduling classes and policies *)

Inductive sched_class := stop_sched_class | dl_sched_class | rt_sched_class
  | wrrSchedClass | fair_sched_class | idle_sched_class
  | fake_sched_class (* of the task core.c uses to empty a run queue *).

#[export] Instance sched_class_eq_dec : EqDecision sched_class.
Proof. solve_decision. Defined.

(** [class->next]: dl.c and stop_task.c are not in the repository, their links
    are the kernel's documented order; rt.c and wrr.c set the two links around
    the new class. *)
Definition class_next (c : sched_class) : option sched_class :=
  match c with
  | stop_sched_class => Some dl_sched_class
  | dl_sched_class => Some rt_sched_class
  | rt_sched_class => Some wrrSchedClass
  | wrrSchedClass => Some fair_sched_class
  | fair_sched_class => Some idle_sched_class
  | idle_sched_class => None
  | fake_sched_class => None
  end.

Definition SCHED_NORMAL : Z := 0.
Definition SCHED_FIFO : Z := 1.
Definition SCHED_RR : Z := 2.
Definition SCHED_BATCH : Z := 3.
Definition SCHED_IDLE : Z := 5.
Definition SCHED_DEADLINE : Z := 6.
Definition SCHED_WRR : Z := 7.

Definition MAX_DL_PRIO : Z := 0.
Definition MAX_RT_PRIO : Z := 100.
Definition MAX_USER_RT_PRIO : Z := 100.
Definition MAX_PRIO : Z := 140.
Definition DEFAULT_PRIO : Z := 120.

Definition idle_policy (policy : Z) : bool := policy =? SCHED_IDLE.
Definition fair_policy (policy : Z) : bool :=
  (policy =? SCHED_NORMAL) || (policy =? SCHED_BATCH).
Definition rt_policy (policy : Z) : bool :=
  (policy =? SCHED_FIFO) || (policy =? SCHED_RR).
Definition wrrPolicy (policy : Z) : bool := policy =? SCHED_WRR.
Definition dl_policy (policy : Z) : bool := policy =? SCHED_DEADLINE.
Definition valid_policy (policy : Z) : bool :=
  idle_policy policy || fair_policy policy || rt_policy policy ||
  dl_policy policy || wrrPolicy policy.

Definition rt_prio (prio : Z) : bool := prio <? MAX_RT_PRIO.
Definition dl_prio (prio : Z) : bool := prio <? MAX_DL_PRIO.

(** {de,en}queue flags *)
Definition DEQUEUE_SLEEP : Z := 1.
Definition DEQUEUE_SAVE : Z := 2.
Definition DEQUEUE_MOVE : Z := 4.
Definition DEQUEUE_NOCLOCK : Z := 8.
Definition ENQUEUE_WAKEUP : Z := 1.
Definition ENQUEUE_RESTORE : Z := 2.
Definition ENQUEUE_MOVE : Z := 4.
Definition ENQUEUE_NOCLOCK : Z := 8.
Definition ENQUEUE_HEAD : Z := 16.
Definition ENQUEUE_REPLENISH : Z := 32.
Definition ENQUEUE_MIGRATED : Z := 64.
(** wake flags *)
Definition WF_SYNC : Z := 1.
Definition WF_FORK : Z := 2.
Definition WF_MIGRATED : Z := 4.

(** [flags & bit] as a C condition. *)
Definition has_flag (flags bit : Z) : bool := negb (Z.land flags bit =? 0).

Definition RUNTIME_INF : Z := U64_MAX.
Definition RLIM_INFINITY : Z := U64_MAX.
Definition USEC_PER_SEC : Z := 1000000.
Definition DIV_ROUND_UP (n d : Z) : Z := u64 (n + d - 1) / d.
Definition TASK_ON_RQ_QUEUED : Z := 1.
Definition TASK_ON_RQ_MIGRATING : Z := 2.
Definition RQCF_REQ_SKIP : Z := 1.
Definition RQCF_ACT_SKIP : Z := 2.

(** ** Tasks *)

Record load_weight := mkLoad { lw_weight : Z; lw_inv_weight : Z }.
#[export] Instance eta_load_weight : Settable load_weight :=
  fun r => mkLoad (lw_weight r) (lw_inv_weight r).

Definition SCHED_FIXEDPOINT_SHIFT : Z := 10.
Definition SCHED_CAPACITY_SHIFT : Z := SCHED_FIXEDPOINT_SHIFT.
Definition SCHED_CAPACITY_SCALE : Z := Z.shiftl 1 SCHED_CAPACITY_SHIFT.
Definition scale_load (w : Z) : Z := Z.shiftl w SCHED_FIXEDPOINT_SHIFT.
Definition scale_load_down (w : Z) : Z := Z.shiftr w SCHED_FIXEDPOINT_SHIFT.
Definition NICE_0_LOAD_SHIFT : Z := SCHED_FIXEDPOINT_SHIFT + SCHED_FIXEDPOINT_SHIFT.
Definition NICE_0_LOAD : Z := Z.shiftl 1 NICE_0_LOAD_SHIFT.

Definition WMULT_CONST : Z := UINT_MAX. (* ~0U *)

(** Caches the reciprocal of a weight. *)
Definition __update_inv_weight (lw : load_weight) : load_weight :=
  if negb (lw_inv_weight lw =? 0) then lw
  else
    let w := scale_load_down (lw_weight lw) in
    lw <| lw_inv_weight := if WMULT_CONST <=? w then 1
                           else if w =? 0 then WMULT_CONST
                           else WMULT_CONST / w |>.

Lemma update_inv_idem lw : __update_inv_weight (__update_inv_weight lw) = __update_inv_weight lw.
Proof.
  destruct lw as [w i]. unfold __update_inv_weight. cbn. destruct (Z.eqb_spec i 0) as [->|Hi]; cbn.
  2:{ by destruct (Z.eqb_spec i 0). }
  set (d := scale_load_down w). destruct (Z.leb_spec WMULT_CONST d); [done|].
  destruct (Z.eqb_spec d 0); [done|]. destruct (Z.eqb_spec (WMULT_CONST / d) 0) as [Hz|]; [|done].
  apply Z.div_small_iff in Hz; [|done]. unfold WMULT_CONST, UINT_MAX in *. lia.
Qed.

(** [struct sched_avg], the load tracking of an entity or a queue. *)
Record sched_avg := mkAvg {
  last_update_time : Z;
  load_sum : Z;
  util_sum : Z;
  period_contrib : Z;
  load_avg : Z;
  util_avg : Z }.
#[export] Instance eta_sched_avg : Settable sched_avg :=
  fun r => mkAvg (last_update_time r) (load_sum r) (util_sum r)
    (period_contrib r) (load_avg r) (util_avg r).

(** The fields of [struct sched_statistics] that core.c and fair.c use;
    [exec_max] is a field of [sched_entity]. *)
Record sched_statistics := mkStats {
  wait_start : Z;
  wait_max : Z;
  wait_count : Z;
  wait_sum : Z;
  iowait_count : Z;
  iowait_sum : Z;
  sleep_start : Z;
  sleep_max : Z;
  sum_sleep_runtime : Z;
  block_start : Z;
  block_max : Z;
  slice_max : Z;
  nr_wakeups : Z;
  nr_wakeups_sync : Z;
  nr_wakeups_migrate : Z;
  nr_wakeups_local : Z;
  nr_wakeups_remote : Z;
  nr_wakeups_affine : Z;
  nr_wakeups_affine_attempts : Z;
  nr_failed_migrations_affine : Z;
  nr_failed_migrations_running : Z;
  nr_failed_migrations_hot : Z;
  nr_forced_migrations : Z }.
#[export] Instance eta_sched_statistics : Settable sched_statistics :=
  fun r => mkStats (wait_start r) (wait_max r) (wait_count r) (wait_sum r)
    (iowait_count r) (iowait_sum r) (sleep_start r) (sleep_max r)
    (sum_sleep_runtime r) (block_start r) (block_max r) (slice_max r)
    (nr_wakeups r) (nr_wakeups_sync r) (nr_wakeups_migrate r)
    (nr_wakeups_local r) (nr_wakeups_remote r) (nr_wakeups_affine r)
    (nr_wakeups_affine_attempts r) (nr_failed_migrations_affine r)
    (nr_failed_migrations_running r) (nr_failed_migrations_hot r) (nr_forced_migrations r).

Definition zero_avg : sched_avg := mkAvg 0 0 0 0 0 0.
Definition zero_stats : sched_statistics := mkStats 0 0 0 0 0 0 0 0 0 0 0 0 0 0 0 0 0 0 0 0 0 0 0.

Record sched_entity := mkSe {
  se_load : load_weight;
  se_on_rq : Z;
  exec_start : Z;
  sum_exec_runtime : Z;
  vruntime : Z;
  prev_sum_exec_runtime : Z;
  nr_migrations : Z;
  exec_max : Z; (* statistics.exec_max *)
  statistics : sched_statistics;
  se_avg : sched_avg }.
#[export] Instance eta_sched_entity : Settable sched_entity :=
  fun r => mkSe (se_load r) (se_on_rq r) (exec_start r) (sum_exec_runtime r)
    (vruntime r) (prev_sum_exec_runtime r) (nr_migrations r) (exec_max r)
    (statistics r) (se_avg r).

Record sched_rt_entity := mkRtSe {
  rt_timeout : Z;
  watchdog_stamp : Z;
  rt_time_slice : Z;
  rt_on_rq : bool;
  rt_on_list : bool }.
#[export] Instance eta_sched_rt_entity : Settable sched_rt_entity :=
  fun r => mkRtSe (rt_timeout r) (watchdog_stamp r) (rt_time_slice r)
    (rt_on_rq r) (rt_on_list r).

(** [struct schedWrrEntity]; the [runList] node is the task's id on the ring
    [wrr_list] of a run queue. *)
Record schedWrrEntity := mkWrrSe {
  weight : Z;
  timeSlice : Z;
  wrr_timeout : Z }.
#[export] Instance eta_schedWrrEntity : Settable schedWrrEntity :=
  fun r => mkWrrSe (weight r) (timeSlice r) (wrr_timeout r).

Record task_struct := mkTask {
  state : Z;
  flags : Z;
  on_cpu : bool;
  task_cpu : Z;
  wake_cpu : Z;
  on_rq : Z;
  prio : Z;
  static_prio : Z;
  normal_prio_f : Z;
  rt_priority : Z;
  class_of : sched_class;
  se : sched_entity;
  rt_se : sched_rt_entity;
  wrr_se : schedWrrEntity;
  policy : Z;
  nr_cpus_allowed : Z;
  cpus_allowed : gset Z;
  sched_reset_on_fork : bool;
  sched_exp : Z;            (* cputime_expires.sched_exp *)
  rlim_rttime_cur : Z;      (* task_rlimit(p, RLIMIT_RTTIME) *)
  rlim_rttime_max : Z;      (* task_rlimit_max(p, RLIMIT_RTTIME) *)
  need_resched : bool;      (* TIF_NEED_RESCHED *)
  polling : bool;           (* TIF_POLLING_NRFLAG *)
  sched_contributes_to_load : bool;
  sched_remote_wakeup : bool;
  in_iowait : bool;
  pi_top_task : option Z;
  mm : bool;                (* p->mm is not NULL *)
  dl_boosted : bool;        (* dl.dl_boosted *)
  nvcsw : Z;
  nivcsw : Z;
  rlim_nice : Z;            (* task_rlimit(p, RLIMIT_NICE) *)
  rlim_rtprio : Z;          (* task_rlimit(p, RLIMIT_RTPRIO) *)
  cred_uid : Z;
  cred_euid : Z;
  wakee_flips : Z;
  wakee_flip_decay_ts : Z;
  last_wakee : option Z }.
#[export] Instance eta_task_struct : Settable task_struct :=
  fun r => mkTask (state r) (flags r) (on_cpu r) (task_cpu r) (wake_cpu r) (on_rq r)
    (prio r) (static_prio r) (normal_prio_f r) (rt_priority r) (class_of r)
    (se r) (rt_se r) (wrr_se r) (policy r) (nr_cpus_allowed r) (cpus_allowed r)
    (sched_reset_on_fork r) (sched_exp r) (rlim_rttime_cur r)
    (rlim_rttime_max r) (need_resched r) (polling r)
    (sched_contributes_to_load r) (sched_remote_wakeup r) (in_iowait r)
    (pi_top_task r) (mm r) (dl_boosted r) (nvcsw r) (nivcsw r) (rlim_nice r)
    (rlim_rtprio r) (cred_uid r) (cred_euid r) (wakee_flips r)
    (wakee_flip_decay_ts r) (last_wakee r).

(** ** Run queues *)

Record wrrRq := mkWrrRq {
  nrRunning : Z;
  totalWeight : Z;
  wrr_list : list Z (* the ring [rq] of [runList] nodes *) }.
#[export] Instance eta_wrrRq : Settable wrrRq :=
  fun r => mkWrrRq (nrRunning r) (totalWeight r) (wrr_list r).

(** [struct rt_prio_array]: [bitmap] is the bit vector as a [Z], [queue] the
    array of rings indexed by priority. *)
Record rt_prio_array := mkRtArray {
  bitmap : Z;
  queue : Z -> list Z }.
#[export] Instance eta_rt_prio_array : Settable rt_prio_array :=
  fun r => mkRtArray (bitmap r) (queue r).

Record rt_rq := mkRtRq {
  active : rt_prio_array;
  rt_nr_running : Z;
  rr_nr_running : Z;
  highest_prio_curr : Z;
  highest_prio_next : Z;
  rt_nr_migratory : Z;
  rt_nr_total : Z;
  overloaded : bool;
  pushable_tasks : list (Z * Z); (* plist: (node prio, task), ordered *)
  rt_queued : bool;
  rt_throttled : bool;
  rt_time : Z;
  rt_runtime : Z }.
#[export] Instance eta_rt_rq : Settable rt_rq :=
  fun r => mkRtRq (active r) (rt_nr_running r) (rr_nr_running r)
    (highest_prio_curr r) (highest_prio_next r) (rt_nr_migratory r)
    (rt_nr_total r) (overloaded r) (pushable_tasks r) (rt_queued r)
    (rt_throttled r) (rt_time r) (rt_runtime r).

(** [struct cfs_rq] without group scheduling: an entity is a task.  The
    red-black tree [tasks_timeline] is the list of its nodes in order. *)
Record cfs_rq := mkCfsRq {
  cfs_load : load_weight;
  cfs_nr_running : Z;
  h_nr_running : Z;
  exec_clock : Z;
  min_vruntime : Z;
  tasks_timeline : list Z;
  cfs_curr : option Z;
  cfs_next : option Z;
  cfs_last : option Z;
  cfs_skip : option Z;
  cfs_avg : sched_avg;
  runnable_load_sum : Z;
  runnable_load_avg : Z;
  removed_load_avg : Z;
  removed_util_avg : Z }.
#[export] Instance eta_cfs_rq : Settable cfs_rq :=
  fun r => mkCfsRq (cfs_load r) (cfs_nr_running r) (h_nr_running r)
    (exec_clock r) (min_vruntime r) (tasks_timeline r) (cfs_curr r)
    (cfs_next r) (cfs_last r) (cfs_skip r) (cfs_avg r) (runnable_load_sum r)
    (runnable_load_avg r) (removed_load_avg r) (removed_util_avg r).

(** The functions queued on [rq->balance_callback]. *)
Inductive balance_cb := push_rt_tasks_cb | pull_rt_task_cb.
#[export] Instance balance_cb_eq_dec : EqDecision balance_cb.
Proof. solve_decision. Defined.

Record rq := mkRq {
  nr_running : Z;
  cpu_load : list Z;        (* cpu_load[CPU_LOAD_IDX_MAX] *)
  rq_load : load_weight;
  nr_load_updates : Z;
  cfs : cfs_rq;
  rt : rt_rq;
  dl_nr_running : Z;
  wrr : wrrRq;
  nr_uninterruptible : Z;
  curr : Z;
  idle : Z;
  stop : option Z;
  clock_update_flags : Z;
  clock : Z;
  clock_task : Z;
  rq_cpu : Z;
  online : bool;
  nr_switches : Z;
  rt_avg : Z;
  age_stamp : Z;
  nr_iowait : Z;
  balance_callbacks : list balance_cb; (* the list at balance_callback *)
  idle_balance : bool;
  cfs_tasks : list Z;
  idle_stamp : Z;
  avg_idle : Z;
  max_idle_balance_cost : Z;
  yld_count : Z;
  sched_count : Z;
  ttwu_count : Z;
  ttwu_local : Z;
  wake_list : list Z;       (* the lock-less list, last added first *)
  rq_sd : option Z;         (* sd: the lowest domain *)
  cpu_capacity : Z;
  cpu_capacity_orig : Z;
  active_balance : bool;
  push_cpu : Z;
  next_balance : Z }.
#[export] Instance eta_rq : Settable rq :=
  fun r => mkRq (nr_running r) (cpu_load r) (rq_load r) (nr_load_updates r) (cfs r) (rt r) (dl_nr_running r)
    (wrr r) (nr_uninterruptible r) (curr r) (idle r) (stop r)
    (clock_update_flags r) (clock r) (clock_task r) (rq_cpu r) (online r)
    (nr_switches r) (rt_avg r) (age_stamp r) (nr_iowait r)
    (balance_callbacks r) (idle_balance r) (cfs_tasks r) (idle_stamp r)
    (avg_idle r) (max_idle_balance_cost r) (yld_count r) (sched_count r)
    (ttwu_count r) (ttwu_local r) (wake_list r) (rq_sd r) (cpu_capacity r)
    (cpu_capacity_orig r) (active_balance r) (push_cpu r) (next_balance r).

(** What a class answers to [pick_next_task]. *)
Inductive picked := RETRY_TASK | NULL_TASK | TASK (p : Z).

(** ** The machine *)

Record root_domain := mkRd {
  overload : bool;
  span : gset Z;
  rd_online : gset Z;
  rto_count : Z;
  rto_mask : gset Z;
  rto_loop : Z;
  rto_cpu : Z;
  rto_loop_next : Z;
  rto_loop_start : Z;
  max_cpu_capacity : Z }.
#[export] Instance eta_root_domain : Settable root_domain :=
  fun r => mkRd (overload r) (span r) (rd_online r) (rto_count r) (rto_mask r) (rto_loop r)
    (rto_cpu r) (rto_loop_next r) (rto_loop_start r) (max_cpu_capacity r).

(** ** Scheduling domains

    Pointers to domains, groups and group capacities are numbers.  The ring of
    groups at [sd->groups] is the list of its elements from there on.  The
    masks [span] and [cpumask] are sets of CPUs. *)

Inductive cpu_idle_type := CPU_IDLE | CPU_NOT_IDLE | CPU_NEWLY_IDLE.
#[export] Instance cpu_idle_type_eq_dec : EqDecision cpu_idle_type.
Proof. solve_decision. Defined.

Record sched_group_capacity := mkSgc {
  sgc_capacity : Z;
  min_capacity : Z;
  next_update : Z;
  sgc_imbalance : bool;
  sgc_cpumask : gset Z }.
#[export] Instance eta_sched_group_capacity : Settable sched_group_capacity :=
  fun r => mkSgc (sgc_capacity r) (min_capacity r) (next_update r) (sgc_imbalance r) (sgc_cpumask r).

Record sched_group := mkSg {
  group_weight : Z;
  sgc : Z;
  asym_prefer_cpu : Z;
  sched_group_span : gset Z }.

(** The counters of a domain; the arrays are indexed by [cpu_idle_type]. *)
Record sd_statistics := mkSdStats {
  lb_count : cpu_idle_type -> Z;
  lb_failed : cpu_idle_type -> Z;
  lb_balanced : cpu_idle_type -> Z;
  lb_imbalance : cpu_idle_type -> Z;
  lb_gained : cpu_idle_type -> Z;
  lb_hot_gained : cpu_idle_type -> Z;
  lb_nobusyg : cpu_idle_type -> Z;
  lb_nobusyq : cpu_idle_type -> Z;
  alb_count : Z;
  alb_failed : Z;
  alb_pushed : Z;
  ttwu_move_affine : Z }.
#[export] Instance eta_sd_statistics : Settable sd_statistics :=
  fun r => mkSdStats (lb_count r) (lb_failed r) (lb_balanced r) (lb_imbalance r) (lb_gained r)
    (lb_hot_gained r) (lb_nobusyg r) (lb_nobusyq r) (alb_count r) (alb_failed r) (alb_pushed r)
    (ttwu_move_affine r).

Record sched_domain := mkSd {
  sd_parent : option Z;
  sd_child : option Z;
  sd_groups : list Z;
  min_interval : Z;
  max_interval : Z;
  busy_factor : Z;
  imbalance_pct : Z;
  cache_nice_tries : Z;
  busy_idx : Z;
  idle_idx : Z;
  newidle_idx : Z;
  wake_idx : Z;
  forkexec_idx : Z;
  smt_gain : Z;
  sd_flags : Z;
  last_balance : Z;
  balance_interval : Z;
  nr_balance_failed : Z;
  max_newidle_lb_cost : Z;
  next_decay_max_lb_cost : Z;
  avg_scan_cost : Z;
  sd_stats : sd_statistics;
  span_weight : Z;
  sched_domain_span : gset Z }.
#[export] Instance eta_sched_domain : Settable sched_domain :=
  fun r => mkSd (sd_parent r) (sd_child r) (sd_groups r) (min_interval r) (max_interval r)
    (busy_factor r) (imbalance_pct r) (cache_nice_tries r) (busy_idx r) (idle_idx r) (newidle_idx r)
    (wake_idx r) (forkexec_idx r) (smt_gain r) (sd_flags r) (last_balance r) (balance_interval r)
    (nr_balance_failed r) (max_newidle_lb_cost r) (next_decay_max_lb_cost r) (avg_scan_cost r)
    (sd_stats r) (span_weight r) (sched_domain_span r).

Record rt_bandwidth := mkRtB {
  rt_period : Z;
  rt_b_runtime : Z;
  rt_period_active : bool }.
#[export] Instance eta_rt_bandwidth : Settable rt_bandwidth :=
  fun r => mkRtB (rt_period r) (rt_b_runtime r) (rt_period_active r).

Inductive ext_call :=
  | account_group_exec_runtime (p delta : Z)
  | cpuacct_charge (p delta : Z)
  | smp_send_reschedule (cpu : Z)
  | cpufreq_update_util (cpu : Z)
  | cpupri_set (cpu prio : Z)
  | irq_work_queue_on (cpu : Z)
  | sched_info_queued (cpu p : Z)
  | sched_info_dequeued (cpu p : Z)
  | perf_event_task_migrate (p : Z)
  | perf_event_task_tick
  | wq_worker_waking_up (p cpu : Z)
  | delayacct_blkio_start
  | delayacct_blkio_end (p : Z)
  | ttwu_wake_remote (cpu : Z)
  | calc_global_load_tick (cpu : Z)
  | trigger_load_balance (cpu : Z)
  | raise_SCHED_SOFTIRQ
  | stop_one_cpu_nowait (cpu : Z) (* with active_load_balance_cpu_stop *)
  | task_dead (p : Z)
  | hrtimer_start_period.

Record kernel := mkKernel {
  tasks : Z -> task_struct;
  rqs : Z -> rq;
  this_cpu : Z;               (* smp_processor_id() *)
  preempt_count : Z;
  nr_cpu_ids : Z;
  cpu_online_mask : gset Z;
  cpu_active_mask : gset Z;
  cpu_possible_mask : gset Z;
  sched_clock : Z -> Z;       (* sched_clock_cpu(cpu) *)
  jiffies : Z;
  schedstat_enabled : bool;
  rd : root_domain;
  def_rt_bandwidth : rt_bandwidth;
  sysctl_sched_rt_period : Z;
  sysctl_sched_rt_runtime : Z;
  sysctl_sched_rr_timeslice : Z;
  sched_rr_timeslice : Z;
  feat_RT_RUNTIME_SHARE : bool;
  feat_RT_PUSH_IPI : bool;
  log : list ext_call;
  domains : Z -> sched_domain;
  groups : Z -> sched_group;
  group_caps : Z -> sched_group_capacity;
  max_load_balance_interval : Z;
  has_idle_cores : Z -> bool }.  (* of [struct sched_domain_shared], by its number *)
#[export] Instance eta_kernel : Settable kernel :=
  fun r => mkKernel (tasks r) (rqs r) (this_cpu r) (preempt_count r)
    (nr_cpu_ids r) (cpu_online_mask r) (cpu_active_mask r) (cpu_possible_mask r) (sched_clock r)
    (jiffies r) (schedstat_enabled r) (rd r) (def_rt_bandwidth r)
    (sysctl_sched_rt_period r) (sysctl_sched_rt_runtime r)
    (sysctl_sched_rr_timeslice r) (sched_rr_timeslice r)
    (feat_RT_RUNTIME_SHARE r) (feat_RT_PUSH_IPI r) (log r) (domains r) (groups r)
    (group_caps r) (max_load_balance_interval r) (has_idle_cores r).

Definition upd_task (p : Z) (f : task_struct -> task_struct) (k : kernel) : kernel :=
  k <| tasks ::= alter f p |>.
Definition upd_rq (c : Z) (f : rq -> rq) (k : kernel) : kernel :=
  k <| rqs ::= alter f c |>.
Definition upd_se (p : Z) (f : sched_entity -> sched_entity) (k : kernel) : kernel :=
  upd_task p (fun t => t <| se ::= f |>) k.
Definition upd_stat (p : Z) (f : sched_statistics -> sched_statistics) (k : kernel) : kernel :=
  upd_se p (fun s => s <| statistics ::= f |>) k.
Definition call (e : ext_call) (k : kernel) : kernel := k <| log ::= fun l => l ++ [e] |>.

#[global] Arguments upd_task : simpl never.
#[global] Arguments upd_rq : simpl never.
#[global] Arguments upd_se : simpl never.
#[global] Arguments upd_stat : simpl never.
#[global] Arguments call : simpl never.

(** [current], the task running on this CPU. *)
Definition current (k : kernel) : Z := curr (rqs k (this_cpu k)).

(** [for_each_cpu (i, mask)] visits the CPUs of the mask in ascending order. *)
Definition for_each_cpu (k : kernel) (mask : gset Z) : list Z :=
  filter (fun i => i ∈ mask) (seqZ 0 (nr_cpu_ids k)).

Definition cpumask_weight (mask : gset Z) : Z := Z.of_nat (size mask).

(** ** Task states and flags (include/linux/sched.h) *)

Definition TASK_RUNNING : Z := 0.
Definition TASK_INTERRUPTIBLE : Z := 1.
Definition TASK_UNINTERRUPTIBLE : Z := 2.
Definition TASK_NORMAL : Z := Z.lor TASK_INTERRUPTIBLE TASK_UNINTERRUPTIBLE.
Definition TASK_DEAD : Z := 128.            (* 0x0080 *)
Definition TASK_WAKING : Z := 512.          (* 0x0200 *)
Definition TASK_NOLOAD : Z := 1024.         (* 0x0400 *)
Definition TASK_NEW : Z := 2048.            (* 0x0800 *)
Definition PF_IDLE : Z := 2.
Definition PF_WQ_WORKER : Z := 32.          (* 0x00000020 *)
Definition PF_FROZEN : Z := 65536.          (* 0x00010000 *)
Definition PF_KTHREAD : Z := 2097152.       (* 0x00200000 *)
Definition PF_NO_SETAFFINITY : Z := 67108864. (* 0x04000000 *)

Definition task_contributes_to_load (t : task_struct) : bool :=
  has_flag (state t) TASK_UNINTERRUPTIBLE && negb (has_flag (flags t) PF_FROZEN) &&
  negb (has_flag (state t) TASK_NOLOAD).

(** ** Helpers of sched.h *)

Definition task_has_rt_policy (t : task_struct) : bool := rt_policy (policy t).
Definition task_has_dl_policy (t : task_struct) : bool := dl_policy (policy t).
Definition taskHasWrrPolicy (t : task_struct) : bool := wrrPolicy (policy t).
Definition rt_task (t : task_struct) : bool := rt_prio (prio t).
Definition dl_task (t : task_struct) : bool := dl_prio (prio t).

Definition rq_clock_task (k : kernel) (c : Z) : Z := clock_task (rqs k c).

Definition rq_clock_skip_update (c : Z) (skip : bool) (k : kernel) : kernel :=
  upd_rq c (fun r => r <| clock_update_flags ::= fun f =>
    if skip then Z.lor f RQCF_REQ_SKIP
    else Z.land f (u32 (Z.lnot RQCF_REQ_SKIP)) |>) k.

Definition task_current (k : kernel) (c p : Z) : bool := curr (rqs k c) =? p.
Definition task_running (k : kernel) (p : Z) : bool := on_cpu (tasks k p).
Definition task_on_rq_queued (k : kernel) (p : Z) : bool :=
  on_rq (tasks k p) =? TASK_ON_RQ_QUEUED.
Definition task_on_rq_migrating (k : kernel) (p : Z) : bool :=
  on_rq (tasks k p) =? TASK_ON_RQ_MIGRATING.

Definition add_nr_running (c count : Z) (k : kernel) : kernel :=
  let prev_nr := nr_running (rqs k c) in
  let k := upd_rq c (fun r => r <| nr_running := u32 (prev_nr + count) |>) k in
  if (prev_nr <? 2) && (2 <=? nr_running (rqs k c)) then
    if negb (overload (rd k)) then k <| rd ::= fun d => d <| overload := true |> |>
    else k
  else k.

Definition sub_nr_running (c count : Z) (k : kernel) : kernel :=
  upd_rq c (fun r => r <| nr_running ::= fun n => u32 (n - count) |>) k.

(** [head->next] is set for a queued callback unless it is the last of the
    list; queueing the last one again links it a second time at the front. *)
Definition queue_balance_callback (c : Z) (cb : balance_cb) (k : kernel) : kernel :=
  upd_rq c (fun r => r <| balance_callbacks ::= fun l =>
    if bool_decide (cb ∈ removelast l) then l else cb :: l |>) k.

Definition __set_task_cpu (p cpu : Z) (k : kernel) : kernel :=
  upd_task p (fun t => t <| task_cpu := cpu |> <| wake_cpu := cpu |>) k.

(** ** Clocks and rescheduling (core.c) *)

Definition update_rq_clock_task (c delta : Z) (k : kernel) : kernel :=
  upd_rq c (fun r => r <| clock_task ::= fun x => u64 (x + delta) |>) k.

Definition update_rq_clock (c : Z) (k : kernel) : kernel :=
  let r := rqs k c in
  if has_flag (clock_update_flags r) RQCF_ACT_SKIP then k
  else
    let delta := s64 (sched_clock k (rq_cpu r) - clock r) in
    if delta <? 0 then k
    else
      update_rq_clock_task c delta
        (upd_rq c (fun r => r <| clock ::= fun x => u64 (x + delta) |>) k).

Definition set_tsk_need_resched (p : Z) (k : kernel) : kernel :=
  upd_task p (fun t => t <| need_resched := true |>) k.

(** Returns the state and whether the task was not polling. *)
Definition set_nr_and_not_polling (p : Z) (k : kernel) : kernel * bool :=
  (set_tsk_need_resched p k, negb (polling (tasks k p))).

(** Sets TIF_NEED_RESCHED of a polling task and tells whether it polls. *)
Definition set_nr_if_polling (p : Z) (k : kernel) : kernel * bool :=
  if polling (tasks k p) then (set_tsk_need_resched p k, true) else (k, false).

Definition is_idle_task (k : kernel) (p : Z) : bool := has_flag (flags (tasks k p)) PF_IDLE.

Definition rq_clock (k : kernel) (c : Z) : Z := clock (rqs k c).

Definition resched_curr (c : Z) (k : kernel) : kernel :=
  let p := curr (rqs k c) in
  if need_resched (tasks k p) then k
  else
    let cpu := rq_cpu (rqs k c) in
    if cpu =? this_cpu k then set_tsk_need_resched p k
    else
      let '(k, not_polling) := set_nr_and_not_polling p k in
      if not_polling then call (smp_send_reschedule cpu) k else k.

(** ** A small machine, for the examples: two CPUs, all queues empty.  Task
    [p] has weight [p], a slice of [10 * p] ticks, and the given class,
    policy and priority. *)

Definition demo_task (cls : sched_class) (pol pr : Z) (p : Z) : task_struct :=
  {| state := 0; flags := 0; on_cpu := false; task_cpu := 0; wake_cpu := 0;
     on_rq := 1; prio := pr; static_prio := 120; normal_prio_f := pr;
     rt_priority := if pr <? 100 then 99 - pr else 0; class_of := cls;
     se := mkSe (mkLoad 1048576 4194304) 0 0 0 0 0 0 0 zero_stats zero_avg;
     rt_se := mkRtSe 0 0 10 false false;
     wrr_se := mkWrrSe p (10 * p) 0; policy := pol; nr_cpus_allowed := 2;
     cpus_allowed := {[0; 1]}; sched_reset_on_fork := false; sched_exp := 0;
     rlim_rttime_cur := U64_MAX; rlim_rttime_max := U64_MAX;
     need_resched := false; polling := false;
     sched_contributes_to_load := false; sched_remote_wakeup := false;
     in_iowait := false; pi_top_task := None; mm := true; dl_boosted := false;
     nvcsw := 0; nivcsw := 0; rlim_nice := 20; rlim_rtprio := 0;
     cred_uid := 1000; cred_euid := 1000; wakee_flips := 0; wakee_flip_decay_ts := 0;
     last_wakee := None |}.

Definition demo_rt_rq : rt_rq :=
  {| active := mkRtArray (2 ^ 100) (fun _ => []); rt_nr_running := 0;
     rr_nr_running := 0; highest_prio_curr := 100; highest_prio_next := 100;
     rt_nr_migratory := 0; rt_nr_total := 0; overloaded := false;
     pushable_tasks := []; rt_queued := false; rt_throttled := false;
     rt_time := 0; rt_runtime := 950000000 |}.

Definition demo_cfs_rq : cfs_rq :=
  {| cfs_load := mkLoad 0 0; cfs_nr_running := 0; h_nr_running := 0;
     exec_clock := 0; min_vruntime := u64 (- 2 ^ 20); tasks_timeline := [];
     cfs_curr := None; cfs_next := None; cfs_last := None; cfs_skip := None;
     cfs_avg := zero_avg; runnable_load_sum := 0; runnable_load_avg := 0;
     removed_load_avg := 0; removed_util_avg := 0 |}.

Definition demo_rq (c : Z) : rq :=
  {| nr_running := 0; cpu_load := [0; 0; 0; 0; 0]; rq_load := mkLoad 0 0;
     nr_load_updates := 0; cfs := demo_cfs_rq; rt := demo_rt_rq;
     dl_nr_running := 0; wrr := mkWrrRq 0 0 []; nr_uninterruptible := 0;
     curr := 0; idle := 0; stop := None; clock_update_flags := 0; clock := 0;
     clock_task := 0; rq_cpu := c; online := true; nr_switches := 0;
     rt_avg := 0; age_stamp := 0; nr_iowait := 0; balance_callbacks := [];
     idle_balance := false; cfs_tasks := []; idle_stamp := 0; avg_idle := 0;
     max_idle_balance_cost := 500000; yld_count := 0; sched_count := 0;
     ttwu_count := 0; ttwu_local := 0; wake_list := []; rq_sd := Some c;
     cpu_capacity := 1024; cpu_capacity_orig := 1024; active_balance := false;
     push_cpu := 0; next_balance := 0 |}.

(** One domain over both CPUs, seen by CPU [c], with a group for each. *)
Definition demo_domain (c : Z) : sched_domain :=
  let z := fun _ => 0 in
  {| sd_parent := None; sd_child := None; sd_groups := [c; 1 - c]; min_interval := 1;
     max_interval := 4; busy_factor := 32; imbalance_pct := 125; cache_nice_tries := 1;
     busy_idx := 2; idle_idx := 1; newidle_idx := 0; wake_idx := 0; forkexec_idx := 0;
     smt_gain := 0; sd_flags := 4735; last_balance := 0; balance_interval := 1;
     nr_balance_failed := 0; max_newidle_lb_cost := 0; next_decay_max_lb_cost := 0;
     avg_scan_cost := 0; sd_stats := mkSdStats z z z z z z z z 0 0 0 0; span_weight := 2;
     sched_domain_span := {[0; 1]} |}.

Definition demo_kernel (cls : sched_class) (pol pr : Z) : kernel :=
  {| tasks := demo_task cls pol pr; rqs := demo_rq; this_cpu := 0;
     preempt_count := 0; nr_cpu_ids := 2; cpu_online_mask := {[0; 1]};
     cpu_active_mask := {[0; 1]}; cpu_possible_mask := {[0; 1]}; sched_clock := fun _ => 1000; jiffies := 0;
     schedstat_enabled := true; rd := mkRd false {[0; 1]} {[0; 1]} 0 ∅ 0 (-1) 0 0 1024;
     def_rt_bandwidth := mkRtB 1000000000 950000000 false;
     sysctl_sched_rt_period := 1000000; sysctl_sched_rt_runtime := 950000;
     sysctl_sched_rr_timeslice := 100; sched_rr_timeslice := 10;
     feat_RT_RUNTIME_SHARE := true; feat_RT_PUSH_IPI := true; log := [];
     domains := demo_domain; groups c := mkSg 1 c c {[c]};
     group_caps c := mkSgc 1024 1024 0 false {[c]}; max_load_balance_interval := 10;
     has_idle_cores _ := false |}.

(** ** Frame lemmas *)

Lemma tasks_upd_task p f k q :
  tasks (upd_task p f k) q = if decide (p = q) then f (tasks k p) else tasks k q.
Proof.
  unfold upd_task. simpl. case_decide; subst.
  - apply fn_lookup_alter.
  - by apply fn_lookup_alter_ne.
Qed.

Lemma rqs_upd_rq c f k d :
  rqs (upd_rq c f k) d = if decide (c = d) then f (rqs k c) else rqs k d.
Proof.
  unfold upd_rq. simpl. case_decide; subst.
  - apply fn_lookup_alter.
  - by apply fn_lookup_alter_ne.
Qed.

Lemma rqs_upd_task p f k : rqs (upd_task p f k) = rqs k.
Proof. done. Qed.
Lemma tasks_upd_rq c f k : tasks (upd_rq c f k) = tasks k.
Proof. done. Qed.
Lemma tasks_call e k : tasks (call e k) = tasks k.
Proof. done. Qed.
Lemma rqs_call e k : rqs (call e k) = rqs k.
Proof. done. Qed.

Create Rewrite HintDb kst.
#[export] Hint Rewrite tasks_upd_task rqs_upd_rq rqs_upd_task tasks_upd_rq
  tasks_call rqs_call : kst.

(** Normalises the lookups of an updated kernel state. *)
Ltac ksimpl := autorewrite with kst; simpl.
Ltac ksimpl_in H := autorewrite with kst in H; simpl in H.

Lemma upd_task_eq p f k : tasks (upd_task p f k) p = f (tasks k p).
Proof. ksimpl. by rewrite decide_True. Qed.
Lemma upd_task_ne p q f k : p <> q -> tasks (upd_task p f k) q = tasks k q.
Proof. intros. ksimpl. by rewrite decide_False. Qed.
Lemma upd_rq_eq c f k : rqs (upd_rq c f k) c = f (rqs k c).
Proof. ksimpl. by rewrite decide_True. Qed.
Lemma upd_rq_ne c d f k : c <> d -> rqs (upd_rq c f k) d = rqs k d.
Proof. intros. ksimpl. by rewrite decide_False. Qed.
