(* ===== verification/Core.v ===== *)
(** * The core scheduler's queue operations (core.c)

    core.c calls the scheduling classes through the function pointers of
    [struct sched_class]; here the calls it makes on queued tasks are the
    fields of [QueueOps], indexed by the class.  [Wrr] gives the entries of the
    WRR class; [RtPush] writes out the dispatch to the real-time class, whose
    operations can fail a [BUG_ON]; the other classes stay parameters. *)

From S2P Require Import Prelude SchedTypes.

Class QueueOps := {
  op_enqueue_task : sched_class -> Z -> Z -> Z -> kernel -> kernel;
  op_dequeue_task : sched_class -> Z -> Z -> Z -> kernel -> kernel;
  op_check_preempt_curr : sched_class -> Z -> Z -> Z -> kernel -> kernel;
  op_put_prev_task : sched_class -> Z -> Z -> kernel -> kernel;
  op_set_curr_task : sched_class -> Z -> kernel -> kernel;
  op_migrate_task_rq : sched_class -> option (Z -> kernel -> kernel);
  op_set_cpus_allowed : sched_class -> Z -> gset Z -> kernel -> kernel }.

Class SwitchOps := {
  op_switched_from : sched_class -> option (Z -> Z -> kernel -> kernel);
  op_switched_to : sched_class -> Z -> Z -> kernel -> kernel;
  op_prio_changed : sched_class -> Z -> Z -> Z -> kernel -> kernel }.

(** The calls core.c makes on placing, waking, forking and picking tasks, and
    the functions queued as balance callbacks. *)
Class ClassOps := {
  op_select_task_rq : sched_class -> Z -> Z -> Z -> Z -> kernel -> kernel * Z;
  op_task_woken : sched_class -> option (Z -> Z -> kernel -> kernel);
  op_task_fork : sched_class -> option (Z -> kernel -> kernel);
  op_task_dead : sched_class -> option (Z -> kernel -> kernel);
  op_task_tick : sched_class -> Z -> Z -> Z -> kernel -> kernel;
  op_pick_next_task : sched_class -> Z -> Z -> kernel -> kernel * picked;
  op_yield_task : sched_class -> Z -> kernel -> kernel;
  op_yield_to_task : sched_class -> option (Z -> Z -> bool -> kernel -> kernel * bool);
  op_get_rr_interval : sched_class -> option (Z -> Z -> kernel -> Z);
  op_rq_online : sched_class -> option (Z -> kernel -> kernel);
  op_rq_offline : sched_class -> option (Z -> kernel -> kernel);
  op_balance : balance_cb -> Z -> kernel -> kernel }.

Section Balance.
Context `{ClassOps}.

Definition __balance_callback (c : Z) (k : kernel) : kernel :=
  let head := balance_callbacks (rqs k c) in
  let k := upd_rq c (fun r => r <| balance_callbacks := [] |>) k in
  foldl (fun k func => op_balance func c k) k head.

Definition balance_callback (c : Z) (k : kernel) : kernel :=
  match balance_callbacks (rqs k c) with
  | [] => k
  | _ => __balance_callback c k
  end.
End Balance.

Section Queue.
Context `{QueueOps}.

Definition enqueue_task (c p flags : Z) (k : kernel) : kernel :=
  let k := if has_flag flags ENQUEUE_NOCLOCK then k else update_rq_clock c k in
  let k := if has_flag flags ENQUEUE_RESTORE then k
           else call (sched_info_queued c p) k in
  op_enqueue_task (class_of (tasks k p)) c p flags k.

Definition dequeue_task (c p flags : Z) (k : kernel) : kernel :=
  let k := if has_flag flags DEQUEUE_NOCLOCK then k else update_rq_clock c k in
  let k := if has_flag flags DEQUEUE_SAVE then k
           else call (sched_info_dequeued c p) k in
  op_dequeue_task (class_of (tasks k p)) c p flags k.

Definition activate_task (c p flags : Z) (k : kernel) : kernel :=
  let k := if task_contributes_to_load (tasks k p)
           then upd_rq c (fun r => r <| nr_uninterruptible ::= fun n => u64 (n - 1) |>) k
           else k in
  enqueue_task c p flags k.

Definition deactivate_task (c p flags : Z) (k : kernel) : kernel :=
  let k := if task_contributes_to_load (tasks k p)
           then upd_rq c (fun r => r <| nr_uninterruptible ::= fun n => u64 (n + 1) |>) k
           else k in
  dequeue_task c p flags k.

Definition put_prev_task (c p : Z) (k : kernel) : kernel :=
  op_put_prev_task (class_of (tasks k p)) c p k.

Definition set_curr_task (c p : Z) (k : kernel) : kernel :=
  op_set_curr_task (class_of (tasks k p)) c k.

(** The walk of [for_each_class] in [check_preempt_curr]: whether the class
    [pc] of the woken task is met before the class [cc] of the current one. *)
Fixpoint class_walk (fuel : nat) (cls : option sched_class)
    (cc pc : sched_class) : bool :=
  match fuel, cls with
  | S n, Some x =>
      if decide (x = cc) then false
      else if decide (x = pc) then true
      else class_walk n (class_next x) cc pc
  | _, _ => false
  end.

Definition class_above (cc pc : sched_class) : bool :=
  class_walk 6 (Some stop_sched_class) cc pc.

Definition check_preempt_curr (c p flags : Z) (k : kernel) : kernel :=
  let pc := class_of (tasks k p) in
  let cc := class_of (tasks k (curr (rqs k c))) in
  let k := if decide (pc = cc) then op_check_preempt_curr cc c p flags k
           else if class_above cc pc then resched_curr c k
           else k in
  let cur := curr (rqs k c) in
  if task_on_rq_queued k cur && need_resched (tasks k cur)
  then rq_clock_skip_update c true k else k.

Definition is_per_cpu_kthread (t : task_struct) : bool :=
  if negb (has_flag (flags t) PF_KTHREAD) then false
  else if negb (nr_cpus_allowed t =? 1) then false
  else true.

Definition is_cpu_allowed (k : kernel) (p cpu : Z) : bool :=
  let t := tasks k p in
  if negb (bool_decide (cpu ∈ cpus_allowed t)) then false
  else if is_per_cpu_kthread t then bool_decide (cpu ∈ cpu_online_mask k)
  else bool_decide (cpu ∈ cpu_active_mask k).

Definition set_task_cpu (p new_cpu : Z) (k : kernel) : kernel :=
  let k :=
    if negb (task_cpu (tasks k p) =? new_cpu) then
      let k := match op_migrate_task_rq (class_of (tasks k p)) with
               | Some f => f p k
               | None => k
               end in
      let k := upd_task p (fun t => t <| se ::= fun s =>
                 s <| nr_migrations ::= fun n => u64 (n + 1) |> |>) k in
      call (perf_event_task_migrate p) k
    else k in
  __set_task_cpu p new_cpu k.

(** [None] is the [BUG_ON(task_cpu(p) != new_cpu)]. *)
Definition move_queued_task (c p new_cpu : Z) (k : kernel) : option kernel :=
  let k := upd_task p (fun t => t <| on_rq := TASK_ON_RQ_MIGRATING |>) k in
  let k := dequeue_task c p DEQUEUE_NOCLOCK k in
  let k := set_task_cpu p new_cpu k in
  if negb (task_cpu (tasks k p) =? new_cpu) then None
  else
    let k := enqueue_task new_cpu p 0 k in
    let k := upd_task p (fun t => t <| on_rq := TASK_ON_RQ_QUEUED |>) k in
    Some (check_preempt_curr new_cpu p 0 k).

Definition __migrate_task (c p dest_cpu : Z) (k : kernel) : option kernel :=
  if negb (is_cpu_allowed k p dest_cpu) then Some k
  else move_queued_task c p dest_cpu (update_rq_clock c k).

(** The body of [migration_cpu_stop] once [sched_ttwu_pending] has run. *)
Definition migration_cpu_stop (p dest_cpu : Z) (k : kernel) : option kernel :=
  let c := this_cpu k in
  if task_cpu (tasks k p) =? c then
    if task_on_rq_queued k p then __migrate_task c p dest_cpu k
    else Some (upd_task p (fun t => t <| wake_cpu := dest_cpu |>) k)
  else Some k.

Definition set_cpus_allowed_common (p : Z) (new_mask : gset Z) (k : kernel) : kernel :=
  upd_task p (fun t => t <| cpus_allowed := new_mask |>
                         <| nr_cpus_allowed := cpumask_weight new_mask |>) k.

Definition do_set_cpus_allowed (p : Z) (new_mask : gset Z) (k : kernel) : kernel :=
  let c := task_cpu (tasks k p) in
  let queued := task_on_rq_queued k p in
  let running := task_current k c p in
  let k := if queued
           then dequeue_task c p (Z.lor DEQUEUE_SAVE DEQUEUE_NOCLOCK) k else k in
  let k := if running then put_prev_task c p k else k in
  let k := op_set_cpus_allowed (class_of (tasks k p)) p new_mask k in
  let k := if queued
           then enqueue_task c p (Z.lor ENQUEUE_RESTORE ENQUEUE_NOCLOCK) k else k in
  if running then set_curr_task c p k else k.

(** [cpumask_any_and]: the first CPU of the intersection. *)
Definition cpumask_any_and (k : kernel) (m1 m2 : gset Z) : Z :=
  default (nr_cpu_ids k) (head (for_each_cpu k (m1 ∩ m2))).

Definition __set_cpus_allowed_ptr (p : Z) (new_mask : gset Z) (check : bool)
    (k : kernel) : option (kernel * Z) :=
  let c := task_cpu (tasks k p) in
  let k := update_rq_clock c k in
  let t := tasks k p in
  let cpu_valid_mask := if has_flag (flags t) PF_KTHREAD
                        then cpu_online_mask k else cpu_active_mask k in
  if check && has_flag (flags t) PF_NO_SETAFFINITY then Some (k, - EINVAL)
  else if bool_decide (cpus_allowed t = new_mask) then Some (k, 0)
  else if bool_decide (new_mask ∩ cpu_valid_mask = ∅) then Some (k, - EINVAL)
  else
    let k := do_set_cpus_allowed p new_mask k in
    if bool_decide (task_cpu (tasks k p) ∈ new_mask) then Some (k, 0)
    else
      let dest_cpu := cpumask_any_and k cpu_valid_mask new_mask in
      if task_running k p || (state (tasks k p) =? TASK_WAKING) then
        (* stop_one_cpu runs the migration on the task's CPU *)
        match migration_cpu_stop p dest_cpu (k <| this_cpu := c |>) with
        | Some k' => Some (k' <| this_cpu := this_cpu k |>, 0)
        | None => None
        end
      else if task_on_rq_queued k p then
        match move_queued_task c p dest_cpu k with
        | Some k' => Some (k', 0)
        | None => None
        end
      else Some (k, 0).
End Queue.

Section Switch.
Context `{SwitchOps}.

Definition check_class_changed (c p : Z) (prev_class : sched_class)
    (oldprio : Z) (k : kernel) : kernel :=
  let cls := class_of (tasks k p) in
  if negb (bool_decide (prev_class = cls)) then
    let k := match op_switched_from prev_class with
             | Some f => f c p k
             | None => k
             end in
    op_switched_to (class_of (tasks k p)) c p k
  else if negb (oldprio =? prio (tasks k p)) || dl_task (tasks k p) then
    op_prio_changed cls c p oldprio k
  else k.
End Switch.
