(* ===== verification/Frame.v ===== *)
(** * What the scheduling classes leave alone

    The core scheduler relies on the operations of the classes changing only
    the classes' own state.  [core_equiv] relates two states that agree on
    everything else: each task up to its scheduling entities (but for the load
    weight, up to caching its reciprocal) and its reschedule flag, each run queue up to its class queues,
    clocks and statistics, and the machine.  A client reads a field [f] of an equivalent state with [ce_task]
    or [ce_rq], which ask that [f] does not look at the erased part. *)

From S2P Require Import Prelude SchedTypes Core.

Definition null_se (l : load_weight) : sched_entity :=
  mkSe l 0 0 0 0 0 0 0 zero_stats zero_avg.
Definition null_rt_se : sched_rt_entity := mkRtSe 0 0 0 false false.
Definition null_wrr_se : schedWrrEntity := mkWrrSe 0 0 0.

Definition core_task (t : task_struct) : task_struct :=
  t <| se ::= fun s => null_se (__update_inv_weight (se_load s)) |> <| rt_se := null_rt_se |> <| wrr_se := null_wrr_se |>
    <| need_resched := false |> <| sched_exp := 0 |>
    <| wakee_flips := 0 |> <| wakee_flip_decay_ts := 0 |> <| last_wakee := None |>.

Definition core_rq (r : rq) : rq :=
  r <| nr_running := 0 |> <| cpu_load := [] |> <| rq_load := mkLoad 0 0 |>
    <| nr_load_updates := 0 |> <| cfs := demo_cfs_rq |> <| rt := demo_rt_rq |>
    <| dl_nr_running := 0 |> <| wrr := mkWrrRq 0 0 [] |>
    <| clock_update_flags := 0 |> <| clock := 0 |> <| clock_task := 0 |>
    <| rt_avg := 0 |> <| age_stamp := 0 |> <| balance_callbacks := [] |>
    <| cfs_tasks := [] |> <| yld_count := 0 |> <| sched_count := 0 |>
    <| ttwu_count := 0 |> <| ttwu_local := 0 |>.

Definition core_glob (k : kernel) :=
  (this_cpu k, nr_cpu_ids k, cpu_online_mask k, cpu_active_mask k, cpu_possible_mask k,
   schedstat_enabled k, sysctl_sched_rt_runtime k, span (rd k), groups k).

(** A domain as it was built, without its counters. *)
Definition sd_shape (sd : sched_domain) :=
  (sd_parent sd, sd_child sd, sd_groups sd, sched_domain_span sd, span_weight sd).

Definition core_equiv (k k' : kernel) : Prop :=
  (forall p, core_task (tasks k p) = core_task (tasks k' p)) /\
  (forall c, core_rq (rqs k c) = core_rq (rqs k' c)) /\
  (core_glob k = core_glob k' /\ forall d, sd_shape (domains k d) = sd_shape (domains k' d)).

Notation "k ≡c k'" := (core_equiv k k') (at level 70).

#[export] Instance core_equiv_equivalence : Equivalence core_equiv.
Proof.
  split; [done| |].
  - intros k k' (?&?&?&?). by split_and!.
  - intros k1 k2 k3 (A&B&C&D) (A'&B'&C'&D'). split_and!; intros; congruence.
Qed.

(** Reading through the equivalence. *)
Lemma ce_task {A} (f : task_struct -> A) k k' p :
  k ≡c k' -> (forall t, f (core_task t) = f t) -> f (tasks k p) = f (tasks k' p).
Proof. intros (E&_&_) Hf. by rewrite <- (Hf (tasks k p)), E, Hf. Qed.

Lemma ce_rq {A} (f : rq -> A) k k' c :
  k ≡c k' -> (forall r, f (core_rq r) = f r) -> f (rqs k c) = f (rqs k' c).
Proof. intros (_&E&_) Hf. by rewrite <- (Hf (rqs k c)), E, Hf. Qed.

Lemma ce_glob k k' : k ≡c k' ->
  this_cpu k = this_cpu k' /\ nr_cpu_ids k = nr_cpu_ids k' /\
  cpu_online_mask k = cpu_online_mask k' /\ cpu_active_mask k = cpu_active_mask k' /\
  cpu_possible_mask k = cpu_possible_mask k' /\ schedstat_enabled k = schedstat_enabled k' /\
  sysctl_sched_rt_runtime k = sysctl_sched_rt_runtime k' /\ span (rd k) = span (rd k') /\
  groups k = groups k'.
Proof. intros (_&_&E&_). unfold core_glob in E. by injection E. Qed.

(** ** Updates of the erased part *)

Create HintDb cframe.
#[export] Hint Constants Opaque : cframe.

Lemma core_upd_task p f k :
  (forall t, core_task (f t) = core_task t) -> upd_task p f k ≡c k.
Proof. intros Hf. split_and!; try done. intros q. ksimpl. case_decide; subst; auto. Qed.

Lemma core_upd_rq c f k :
  (forall r, core_rq (f r) = core_rq r) -> upd_rq c f k ≡c k.
Proof. intros Hf. split_and!; try done. intros d. ksimpl. case_decide; subst; auto. Qed.

Lemma core_call e k : call e k ≡c k.
Proof. done. Qed.

(** Two states stay equivalent when the same field is written in both. *)
Lemma core_task_congr p f k k' :
  (forall t t', core_task t = core_task t' -> core_task (f t) = core_task (f t')) ->
  k ≡c k' -> upd_task p f k ≡c upd_task p f k'.
Proof.
  intros Hf (E1&E2&E3&E4). split_and!; try done.
  intros q. ksimpl. case_decide; subst; auto.
Qed.

Lemma core_rq_congr c f k k' :
  (forall r r', core_rq r = core_rq r' -> core_rq (f r) = core_rq (f r')) ->
  k ≡c k' -> upd_rq c f k ≡c upd_rq c f k'.
Proof.
  intros Hf (E1&E2&E3&E4). split_and!; try done.
  intros d. ksimpl. case_decide; subst; auto.
Qed.

Ltac core_back :=
  cbv zeta;
  repeat match goal with
  | |- ?k ≡c ?k => reflexivity
  | |- context [if ?b then _ else _] => destruct b
  | |- upd_rq ?c ?f ?k' ≡c ?k => transitivity k'; [by apply core_upd_rq|]
  | |- upd_task ?c ?f ?k' ≡c ?k => transitivity k'; [by apply core_upd_task|]
  | |- call ?e ?k' ≡c ?k => transitivity k'; [done|]
  | |- _ ≡c ?k => etransitivity; [solve [eauto with cframe nocore typeclass_instances]|]
  | |- _ => done
  end.

Lemma core_clock c k : update_rq_clock c k ≡c k.
Proof. unfold update_rq_clock, update_rq_clock_task. core_back. Qed.

Lemma core_resched c k : resched_curr c k ≡c k.
Proof. unfold resched_curr, set_nr_and_not_polling, set_tsk_need_resched. core_back. Qed.

Lemma core_skip c b k : rq_clock_skip_update c b k ≡c k.
Proof. unfold rq_clock_skip_update. core_back. Qed.

Lemma core_add_nr c n k : add_nr_running c n k ≡c k.
Proof. unfold add_nr_running. cases; by apply core_upd_rq. Qed.

Lemma core_sub_nr c n k : sub_nr_running c n k ≡c k.
Proof. unfold sub_nr_running. core_back. Qed.

#[export] Hint Resolve core_call core_clock core_resched core_skip core_add_nr core_sub_nr : cframe.

(** ** What the core scheduler asks of the classes *)

Class QueueFrame `{QueueOps} : Prop := {
  frame_enqueue cls c p fl k : op_enqueue_task cls c p fl k ≡c k;
  frame_dequeue cls c p fl k : op_dequeue_task cls c p fl k ≡c k;
  frame_check cls c p fl k : op_check_preempt_curr cls c p fl k ≡c k;
  frame_put_prev cls c p k : op_put_prev_task cls c p k ≡c k;
  frame_set_curr cls c k : op_set_curr_task cls c k ≡c k;
  frame_migrate cls f p k : op_migrate_task_rq cls = Some f -> f p k ≡c k;
  frame_allowed cls p m k : op_set_cpus_allowed cls p m k ≡c set_cpus_allowed_common p m k }.

Section Frame.
Context `{QueueFrame}.

Lemma core_enqueue c p fl k : enqueue_task c p fl k ≡c k.
Proof. unfold enqueue_task. cbv zeta. rewrite frame_enqueue. core_back. Qed.

Lemma core_dequeue c p fl k : dequeue_task c p fl k ≡c k.
Proof. unfold dequeue_task. cbv zeta. rewrite frame_dequeue. core_back. Qed.

Lemma core_put_prev c p k : put_prev_task c p k ≡c k.
Proof. apply frame_put_prev. Qed.

Lemma core_set_curr c p k : set_curr_task c p k ≡c k.
Proof. apply frame_set_curr. Qed.

Lemma core_check_preempt c p fl k : check_preempt_curr c p fl k ≡c k.
Proof.
  unfold check_preempt_curr. cbv zeta.
  set (k1 := if decide _ then _ else _).
  assert (E : k1 ≡c k) by (unfold k1; case_decide; [apply frame_check|core_back]).
  cases; [|done]. by rewrite core_skip.
Qed.

(** [set_task_cpu] moves the task and nothing else. *)
Lemma core_set_task_cpu p cpu k : set_task_cpu p cpu k ≡c __set_task_cpu p cpu k.
Proof.
  unfold set_task_cpu. cbv zeta. apply core_task_congr.
  { intros t t' E. exact (f_equal (fun t => t <| task_cpu := cpu |> <| wake_cpu := cpu |>) E). }
  cases; [|done]. rewrite core_call, core_upd_task by done.
  destruct (op_migrate_task_rq _) as [f|] eqn:E; [by eapply frame_migrate|done].
Qed.
End Frame.

#[export] Hint Resolve core_enqueue core_dequeue core_put_prev core_set_curr core_check_preempt : cframe.
