(* ===== verification/Wrr.v ===== *)
(** * The weighted round-robin scheduling class (wrr.c)

    [wrrRq] keeps the ring of queued tasks of a CPU with their number and
    total weight; the running task stays at the head of the ring and goes to
    the tail when its time slice, [weight * WRR_TIMESLICE] ticks, is used up.
    The theorems: the counters of every run queue stay in step with its ring
    through every operation of the class, one round of ticks serves every
    task in proportion to its weight, CPU selection picks a least loaded CPU,
    and what the two system calls and [pullTaskWrr] do. *)

From S2P Require Import Prelude SchedTypes Core.

(** [WRR_TIMESLICE] and the bound of [struct wrr_info] come from
    <linux/sched/wrr.h>, HZ from the kernel configuration. *)
Class WrrConfig := { WRR_TIMESLICE : Z; MAX_CPUS : Z; HZ : Z }.


Definition SD_BALANCE_WAKE : Z := 16. (* 0x0010 *)
Definition SD_BALANCE_FORK : Z := 8.  (* 0x0008 *)

(** ** Operations on the ring of a run queue *)

Definition upd_wrr (c : Z) (f : wrrRq -> wrrRq) (k : kernel) : kernel :=
  upd_rq c (fun r => r <| wrr ::= f |>) k.
Definition upd_wse (p : Z) (f : schedWrrEntity -> schedWrrEntity) (k : kernel) : kernel :=
  upd_task p (fun t => t <| wrr_se ::= f |>) k.

#[global] Arguments upd_wrr : simpl never.
#[global] Arguments upd_wse : simpl never.

Definition initWrrRq (c : Z) (k : kernel) : kernel :=
  upd_wrr c (fun w => w <| nrRunning := 0 |> <| totalWeight := 0 |>
                        <| wrr_list := [] |>) k.

Definition updateCurrWrr (c : Z) (k : kernel) : kernel :=
  let p := curr (rqs k c) in
  let t := tasks k p in
  if negb (bool_decide (class_of t = wrrSchedClass)) then k
  else
    let deltaExec := u64 (rq_clock_task k c - exec_start (se t)) in
    if s64 deltaExec <=? 0 then k
    else
      let k := if schedstat_enabled k
               then upd_se p (fun s => s <| exec_max ::= fun m => Z.max m deltaExec |>) k
               else k in
      let k := upd_se p (fun s => s <| sum_exec_runtime ::= fun x => u64 (x + deltaExec) |>) k in
      let k := call (account_group_exec_runtime p deltaExec) k in
      let k := upd_se p (fun s => s <| exec_start := rq_clock_task k c |>) k in
      call (cpuacct_charge p deltaExec) k.

Definition checkPreemtCurrWrr (c p flags : Z) (k : kernel) : kernel := k.

Definition enqueueTaskWrr (c p flags : Z) (k : kernel) : kernel :=
  let k := if has_flag flags ENQUEUE_WAKEUP
           then upd_wse p (fun w => w <| wrr_timeout := 0 |>) k else k in
  let k := if has_flag flags ENQUEUE_HEAD
           then upd_wrr c (fun w => w <| wrr_list ::= list_add p |>) k
           else upd_wrr c (fun w => w <| wrr_list ::= list_add_tail p |>) k in
  let k := upd_wrr c (fun w => w <| nrRunning ::= fun n => u32 (n + 1) |>) k in
  let k := upd_wrr c (fun w => w <| totalWeight ::= fun x =>
             u32 (x + weight (wrr_se (tasks k p))) |>) k in
  add_nr_running c 1 k.

(** The node of [p], if linked, is on the ring of [rq]: the core scheduler
    calls the class with [rq = task_rq(p)]. *)
Definition dequeueTaskWrr (c p flags : Z) (k : kernel) : kernel :=
  if nrRunning (wrr (rqs k c)) =? 0 then k
  else
    let k := updateCurrWrr c k in
    let k := upd_wrr c (fun w => w <| wrr_list ::= list_del p |>) k in
    let k := upd_wrr c (fun w => w <| totalWeight ::= fun x =>
               u32 (x - weight (wrr_se (tasks k p))) |>) k in
    let k := upd_wrr c (fun w => w <| nrRunning ::= fun n => u32 (n - 1) |>) k in
    sub_nr_running c 1 k.

Definition putPrevTaskWrr (c p : Z) (k : kernel) : kernel := updateCurrWrr c k.

(** [None]: the ring is empty although [nrRunning] is not zero, and
    [list_first_entry] yields the list head itself taken as an entity. *)
Definition pickNextTaskWrr (c prev : Z) (k : kernel) : option (kernel * option Z) :=
  if nrRunning (wrr (rqs k c)) =? 0 then Some (k, None)
  else
    let k := putPrevTaskWrr c prev k in
    match wrr_list (wrr (rqs k c)) with
    | [] => None
    | p :: _ => Some (upd_se p (fun s => s <| exec_start := rq_clock_task k c |>) k, Some p)
    end.

Definition setCurrTaskWrr (c : Z) (k : kernel) : kernel :=
  upd_se (curr (rqs k c)) (fun s => s <| exec_start := rq_clock_task k c |>) k.

Definition requeueTaskWrr (c p : Z) (head : bool) (k : kernel) : kernel :=
  if head then upd_wrr c (fun w => w <| wrr_list ::= list_move p |>) k
  else upd_wrr c (fun w => w <| wrr_list ::= list_move_tail p |>) k.

Definition yieldTaskWrr (c : Z) (k : kernel) : kernel :=
  requeueTaskWrr c (curr (rqs k c)) false k.

(** [runList.prev != runList.next] for the node of [p]: the node is linked
    and is not the only one on its ring. *)
Definition not_alone (p : Z) (l : list Z) : bool :=
  bool_decide (p ∈ l) && (2 <=? Z.of_nat (length l)).

Definition switchedToWrr `{QueueOps} (c p : Z) (k : kernel) : kernel :=
  if task_on_rq_queued k p then
    if curr (rqs k c) =? p then resched_curr c k
    else check_preempt_curr c p 0 k
  else k.

Definition prioChangedWrr (c p oldprio : Z) (k : kernel) : kernel := k.

Section Tick.
Context `{WrrConfig}.

Definition watchdog (c p : Z) (k : kernel) : kernel :=
  let soft := rlim_rttime_cur (tasks k p) in
  let hard := rlim_rttime_cur (tasks k p) in
  if negb (soft =? RLIM_INFINITY) then
    let k := upd_wse p (fun w => w <| wrr_timeout ::= fun x => u64 (x + 1) |>) k in
    let next := DIV_ROUND_UP (Z.min soft hard) (USEC_PER_SEC / HZ) in
    if next <? wrr_timeout (wrr_se (tasks k p))
    then upd_task p (fun t => t <| sched_exp := sum_exec_runtime (se t) |>) k
    else k
  else k.

Definition taskTickWrr (c p queued : Z) (k : kernel) : kernel :=
  let k := updateCurrWrr c k in
  let k := watchdog c p k in
  if negb (policy (tasks k p) =? SCHED_WRR) then k
  else
    let k := upd_wse p (fun w => w <| timeSlice ::= fun n => u32 (n - 1) |>) k in
    if negb (timeSlice (wrr_se (tasks k p)) =? 0) then k
    else
      let k := upd_wse p (fun w => w <| timeSlice := u32 (weight w * WRR_TIMESLICE) |>) k in
      if not_alone p (wrr_list (wrr (rqs k c))) then
        resched_curr c (requeueTaskWrr c p false k)
      else k.

Definition getRrIntervalWrr (c p : Z) (k : kernel) : Z :=
  if policy (tasks k p) =? SCHED_WRR
  then u32 (weight (wrr_se (tasks k p)) * WRR_TIMESLICE) else 0.
End Tick.

(** ** CPU selection and balancing *)

(** One iteration of the loop of [findLowestWeightCpu] on [(minWeight, res)]. *)
Definition lowest_step (k : kernel) (acc : Z * Z) (i : Z) : Z * Z :=
  if totalWeight (wrr (rqs k i)) <? acc.1
  then (totalWeight (wrr (rqs k i)), i) else acc.

Definition findLowestWeightCpu (k : kernel) : Z :=
  (foldl (lowest_step k) (UINT_MAX, -1) (for_each_cpu k (cpu_online_mask k))).2.

Definition selectTaskRqWrr (p cpu sd_flag flags : Z) (k : kernel) : Z :=
  if negb (sd_flag =? SD_BALANCE_WAKE) && negb (sd_flag =? SD_BALANCE_FORK)
  then cpu else findLowestWeightCpu k.

(** One iteration of the loop of [pullTaskWrr] on [(maxWeight, targetCpu)].
    [maxWeight] is an [int]; compared with the [unsigned int] total weight it
    is converted to [unsigned int] first. *)
Definition pull_step (k : kernel) (thisCpu : Z) (acc : Z * option Z) (i : Z) : Z * option Z :=
  let w := wrr (rqs k i) in
  if negb (i =? thisCpu) && (2 <=? nrRunning w) && (u32 acc.1 <? totalWeight w)
  then (s32 (totalWeight w), Some i) else acc.

(** The task [list_for_each_entry] stops at. *)
Definition pullable (k : kernel) (thisCpu tsk : Z) : bool :=
  let t := tasks k tsk in
  task_running k tsk && (policy t =? SCHED_WRR) && negb (on_rq t =? 0) &&
  bool_decide (thisCpu ∈ cpus_allowed t).

(** [thisRq] is the value of the local variable of that name, which the
    function never assigns; [None] is a use of the unassigned [targetCpu]. *)
Definition pullTaskWrr `{QueueOps} (thisRq : Z) (k : kernel) : option kernel :=
  let thisCpu := this_cpu k in
  let k := k <| preempt_count ::= Z.succ |> in
  if negb (bool_decide (thisCpu ∈ cpu_active_mask k)) then Some k
  else
    let '(maxWeight, targetCpu) :=
      foldl (pull_step k thisCpu) (-1, None) (for_each_cpu k (cpu_online_mask k)) in
    if maxWeight =? -1 then Some k
    else
      match targetCpu with
      | None => None
      | Some target =>
          match list_find (fun tsk => pullable k thisCpu tsk = true)
                  (wrr_list (wrr (rqs k target))) with
          | Some (_, tsk) =>
              Some (activate_task thisRq tsk 0
                     (set_task_cpu tsk thisCpu
                       (deactivate_task target tsk 0 k)))
          | None => Some k
          end
      end.

(** ** System calls *)

Record wrr_info := mkWrrInfo {
  num_cpus : Z;
  info_nr_running : list Z;
  info_total_weight : list Z }.

(** [get_wrr_info]: [info] is whether the user pointer is not NULL, [copy_ok]
    whether [copy_to_user] copies the whole buffer; [None] is a write past the
    end of the arrays of the buffer. *)
Definition get_wrr_info `{WrrConfig} (info copy_ok : bool) (k : kernel)
    : option (Z * option wrr_info) :=
  if negb info then Some (- EINVAL, None)
  else
    let cpus := for_each_cpu k (cpu_online_mask k) in
    if MAX_CPUS <? Z.of_nat (length cpus) then None
    else
      let buff := mkWrrInfo (Z.of_nat (length cpus))
        (map (fun i => s32 (nrRunning (wrr (rqs k i)))) cpus)
        (map (fun i => s32 (totalWeight (wrr (rqs k i)))) cpus) in
      if copy_ok then Some (0, Some buff) else Some (- EFAULT, None).

Definition set_wrr_weight (w : Z) (k : kernel) : kernel * Z :=
  let p := current k in
  if w <? 1 then (k, - EINVAL)
  else if negb (bool_decide (class_of (tasks k p) = wrrSchedClass)) then (k, - EACCES)
  else
    let c := task_cpu (tasks k p) in
    let k := update_rq_clock c k in
    let k := upd_wrr c (fun r => r <| totalWeight ::= fun x =>
               u32 (x - weight (wrr_se (tasks k p))) |>) k in
    let k := upd_wrr c (fun r => r <| totalWeight ::= fun x => u32 (x + w) |>) k in
    (upd_wse p (fun e => e <| weight := w |>) k, 0).

(** ** The invariant of the run queues *)

Definition task_weight (k : kernel) (p : Z) : Z := weight (wrr_se (tasks k p)).
Definition ring (k : kernel) (c : Z) : list Z := wrr_list (wrr (rqs k c)).

(** The counters of a run queue agree with its ring. *)
Definition wrr_ok (k : kernel) (c : Z) : Prop :=
  NoDup (ring k c) /\
  nrRunning (wrr (rqs k c)) = u32 (Z.of_nat (length (ring k c))) /\
  totalWeight (wrr (rqs k c)) = u32 (sum_of (task_weight k) (ring k c)).

Definition wrr_wf (k : kernel) : Prop :=
  (forall c, wrr_ok k c) /\
  (forall c d p, p ∈ ring k c -> p ∈ ring k d -> c = d).

(** What the class keeps of a task, and states that agree on it. *)
Definition wview (t : task_struct) : Z * Z * Z * sched_class :=
  (weight (wrr_se t), timeSlice (wrr_se t), policy t, class_of t).

Definition wrr_equiv (k k' : kernel) : Prop :=
  (forall c, wrr (rqs k c) = wrr (rqs k' c)) /\
  (forall p, wview (tasks k p) = wview (tasks k' p)).

Notation "k ≡w k'" := (wrr_equiv k k') (at level 70).

#[export] Instance wrr_equiv_equivalence : Equivalence wrr_equiv.
Proof.
  split.
  - by intros k.
  - intros k1 k2 [? ?]. by split.
  - intros k1 k2 k3 [E1 E2] [F1 F2]. split; intros; by etransitivity; [apply E1 || apply E2|].
Qed.

#[export] Instance ring_proper : Proper (wrr_equiv ==> eq ==> eq) ring.
Proof. intros k k' [E _] c ? <-. unfold ring. by rewrite E. Qed.

#[export] Instance task_weight_proper : Proper (wrr_equiv ==> eq ==> eq) task_weight.
Proof. intros k k' [_ E] p ? <-. unfold task_weight. specialize (E p). by injection E. Qed.

#[export] Instance wrr_ok_proper : Proper (wrr_equiv ==> eq ==> iff) wrr_ok.
Proof.
  intros k k' E c ? <-. unfold wrr_ok.
  rewrite (ring_proper k k' E c c eq_refl), (proj1 E c).
  rewrite (sum_of_ext (task_weight k) (task_weight k')); [done|].
  intros p _. by apply task_weight_proper.
Qed.

#[export] Instance wrr_wf_proper : Proper (wrr_equiv ==> iff) wrr_wf.
Proof. intros k k' E. unfold wrr_wf. by setoid_rewrite E. Qed.

(** ** Operations that the class's state does not depend on *)

Create HintDb wrr.

Lemma upd_task_equiv p f k :
  (forall t, wview (f t) = wview t) -> upd_task p f k ≡w k.
Proof.
  intros Hf. split; [done|]. intros q. ksimpl. case_decide; subst; auto.
Qed.

Lemma upd_rq_equiv c f k :
  (forall r, wrr (f r) = wrr r) -> upd_rq c f k ≡w k.
Proof.
  intros Hf. split; [|done]. intros d. ksimpl. case_decide; subst; auto.
Qed.

Lemma upd_se_equiv p f k : upd_se p f k ≡w k.
Proof. by apply upd_task_equiv. Qed.

Lemma call_equiv e k : call e k ≡w k.
Proof. by split. Qed.

#[export] Hint Resolve upd_se_equiv call_equiv : wrr.
#[export] Hint Extern 1 (upd_task _ _ _ ≡w _) => apply upd_task_equiv; intros; reflexivity : wrr.
#[export] Hint Extern 1 (upd_rq _ _ _ ≡w _) => apply upd_rq_equiv; intros; reflexivity : wrr.

(** Peels the updates of a state one by one. *)
Ltac wrr_frame :=
  cases; repeat (first [ reflexivity | solve [eauto with wrr]
    | etransitivity; [solve [eauto with wrr]|] ]).

Lemma updateCurrWrr_equiv c k : updateCurrWrr c k ≡w k.
Proof. unfold updateCurrWrr. wrr_frame. Qed.

Lemma update_rq_clock_equiv c k : update_rq_clock c k ≡w k.
Proof. unfold update_rq_clock, update_rq_clock_task. wrr_frame. Qed.

Lemma resched_curr_equiv c k : resched_curr c k ≡w k.
Proof. unfold resched_curr, set_nr_and_not_polling, set_tsk_need_resched. wrr_frame. Qed.

Lemma rq_clock_skip_update_equiv c b k : rq_clock_skip_update c b k ≡w k.
Proof. unfold rq_clock_skip_update. wrr_frame. Qed.

Lemma add_nr_running_equiv c n k : add_nr_running c n k ≡w k.
Proof.
  unfold add_nr_running. cases; try (eauto with wrr; fail).
  transitivity (upd_rq c (fun r => r <| nr_running := u32 (nr_running (rqs k c) + n) |>) k);
    [by split|eauto with wrr].
Qed.

Lemma sub_nr_running_equiv c n k : sub_nr_running c n k ≡w k.
Proof. unfold sub_nr_running. wrr_frame. Qed.

Lemma watchdog_equiv `{WrrConfig} c p k : watchdog c p k ≡w k.
Proof. unfold watchdog, upd_wse. wrr_frame. Qed.

#[export] Hint Resolve updateCurrWrr_equiv update_rq_clock_equiv resched_curr_equiv
  rq_clock_skip_update_equiv add_nr_running_equiv sub_nr_running_equiv
  watchdog_equiv : wrr.

(** ** Operations that leave a field of the tasks and one of the run queues alone *)

Definition same_of {A B} (f : task_struct -> A) (g : rq -> B) (k k' : kernel) : Prop :=
  (forall p, f (tasks k p) = f (tasks k' p)) /\ (forall c, g (rqs k c) = g (rqs k' c)).

Notation "k ≡[ f | g ] k'" := (same_of f g k k') (at level 70, f at level 60, g at level 60).

(** No field of the run queues at all. *)
Definition no_field (r : rq) : unit := tt.

#[export] Instance same_of_equivalence {A B} (f : task_struct -> A) (g : rq -> B) :
  Equivalence (same_of f g).
Proof.
  split.
  - by intros k.
  - intros k1 k2 [? ?]. by split.
  - intros k1 k2 k3 [E1 E2] [F1 F2]. split; intros; by etransitivity; [apply E1 || apply E2|].
Qed.

Section Fields.
Context {A B : Type} (f : task_struct -> A) (g : rq -> B).

Lemma same_upd_task p h k : (forall t, f (h t) = f t) -> upd_task p h k ≡[f | g] k.
Proof. intros Hf. split; [|done]. intros q. ksimpl. case_decide; subst; auto. Qed.

Lemma same_upd_rq c h k : (forall r, g (h r) = g r) -> upd_rq c h k ≡[f | g] k.
Proof. intros Hg. split; [done|]. intros d. ksimpl. case_decide; subst; auto. Qed.

Lemma same_call e k : call e k ≡[f | g] k.
Proof. by split. Qed.
End Fields.

#[export] Hint Resolve same_call : wrr.
#[export] Hint Extern 1 (upd_task _ _ _ ≡[_ | _] _) => apply same_upd_task; intros; reflexivity : wrr.
#[export] Hint Extern 1 (upd_se _ _ _ ≡[_ | _] _) => apply same_upd_task; intros; reflexivity : wrr.
#[export] Hint Extern 1 (upd_wse _ _ _ ≡[_ | _] _) => apply same_upd_task; intros; reflexivity : wrr.
#[export] Hint Extern 1 (upd_rq _ _ _ ≡[_ | _] _) => apply same_upd_rq; intros; reflexivity : wrr.
#[export] Hint Extern 1 (upd_wrr _ _ _ ≡[_ | _] _) => apply same_upd_rq; intros; reflexivity : wrr.

(** The CPU of every task; the task a CPU runs and who is to be rescheduled. *)
Lemma homes_upd_task p h k q : (forall t, task_cpu (h t) = task_cpu t) ->
  task_cpu (tasks (upd_task p h k) q) = task_cpu (tasks k q).
Proof. intros Hh. by apply (same_upd_task task_cpu no_field p h k). Qed.
Lemma homes_updateCurr c k : updateCurrWrr c k ≡[task_cpu | no_field] k.
Proof. unfold updateCurrWrr. wrr_frame. Qed.
Lemma homes_clock c k : update_rq_clock c k ≡[task_cpu | no_field] k.
Proof. unfold update_rq_clock, update_rq_clock_task. wrr_frame. Qed.
Lemma homes_resched c k : resched_curr c k ≡[task_cpu | no_field] k.
Proof. unfold resched_curr, set_nr_and_not_polling, set_tsk_need_resched. wrr_frame. Qed.
Lemma homes_add_nr c n k : add_nr_running c n k ≡[task_cpu | no_field] k.
Proof. unfold add_nr_running. split; [by cases|done]. Qed.
Lemma homes_watchdog `{WrrConfig} c p k : watchdog c p k ≡[task_cpu | no_field] k.
Proof. unfold watchdog. wrr_frame. Qed.

#[export] Hint Resolve homes_updateCurr homes_clock homes_resched homes_add_nr homes_watchdog : wrr.

Lemma homes_enqueue c p fl k : enqueueTaskWrr c p fl k ≡[task_cpu | no_field] k.
Proof. unfold enqueueTaskWrr. wrr_frame. Qed.
Lemma homes_dequeue c p fl k : dequeueTaskWrr c p fl k ≡[task_cpu | no_field] k.
Proof. unfold dequeueTaskWrr, sub_nr_running. wrr_frame. Qed.
Lemma homes_requeue c p b k : requeueTaskWrr c p b k ≡[task_cpu | no_field] k.
Proof. unfold requeueTaskWrr. wrr_frame. Qed.
#[export] Hint Resolve homes_enqueue homes_dequeue homes_requeue : wrr.
Lemma homes_tick `{WrrConfig} c p q k : taskTickWrr c p q k ≡[task_cpu | no_field] k.
Proof. unfold taskTickWrr. wrr_frame. Qed.

Lemma flags_updateCurr c k : updateCurrWrr c k ≡[need_resched | curr] k.
Proof. unfold updateCurrWrr. wrr_frame. Qed.
Lemma flags_watchdog `{WrrConfig} c p k : watchdog c p k ≡[need_resched | curr] k.
Proof. unfold watchdog. wrr_frame. Qed.
Lemma flags_requeue c p b k : requeueTaskWrr c p b k ≡[need_resched | curr] k.
Proof. unfold requeueTaskWrr. wrr_frame. Qed.
#[export] Hint Resolve flags_updateCurr flags_watchdog flags_requeue : wrr.

(** ** What each operation does to the run queues *)

Lemma wrr_upd_wrr c f k d :
  wrr (rqs (upd_wrr c f k) d) = if decide (c = d) then f (wrr (rqs k c)) else wrr (rqs k d).
Proof. unfold upd_wrr. ksimpl. by case_decide. Qed.

Lemma ring_upd_wrr c f k d :
  ring (upd_wrr c f k) d =
  if decide (c = d) then wrr_list (f (wrr (rqs k c))) else ring k d.
Proof. unfold ring. rewrite wrr_upd_wrr. by case_decide. Qed.

Lemma upd_wrr_congr c f g k k' :
  k ≡w k' -> (forall w, f w = g w) -> upd_wrr c f k ≡w upd_wrr c g k'.
Proof.
  intros [E1 E2] Hfg. split; [|done]. intros d. rewrite !wrr_upd_wrr, !E1, Hfg. done.
Qed.

Lemma upd_wrr_fuse c f g k : upd_wrr c g (upd_wrr c f k) ≡w upd_wrr c (fun w => g (f w)) k.
Proof.
  split; [|done]. intros d. rewrite !wrr_upd_wrr. by repeat case_decide.
Qed.

(** The class's part of a state after an update of a ring, in one step. *)
Definition enqueued (c p fl : Z) (k : kernel) : kernel :=
  upd_wrr c (fun w => mkWrrRq (u32 (nrRunning w + 1))
    (u32 (totalWeight w + task_weight k p))
    (if has_flag fl ENQUEUE_HEAD then list_add p (wrr_list w)
     else list_add_tail p (wrr_list w))) k.

Definition dequeued (c p : Z) (k : kernel) : kernel :=
  upd_wrr c (fun w => mkWrrRq (u32 (nrRunning w - 1))
    (u32 (totalWeight w - task_weight k p)) (list_del p (wrr_list w))) k.

Lemma enqueueTaskWrr_effect c p fl k : enqueueTaskWrr c p fl k ≡w enqueued c p fl k.
Proof.
  unfold enqueueTaskWrr, enqueued.
  rewrite add_nr_running_equiv.
  set (k1 := if has_flag fl ENQUEUE_WAKEUP then _ else k).
  assert (E : k1 ≡w k) by (unfold k1, upd_wse; wrr_frame).
  destruct (has_flag fl ENQUEUE_HEAD); rewrite !upd_wrr_fuse;
    apply upd_wrr_congr; try done; intros w; simpl;
    by rewrite <- (task_weight_proper _ _ E p p eq_refl).
Qed.

Lemma dequeueTaskWrr_effect c p fl k :
  nrRunning (wrr (rqs k c)) <> 0 -> dequeueTaskWrr c p fl k ≡w dequeued c p k.
Proof.
  intros Hn. unfold dequeueTaskWrr, dequeued.
  rewrite (proj2 (Z.eqb_neq _ _) Hn), sub_nr_running_equiv, !upd_wrr_fuse.
  pose proof (updateCurrWrr_equiv c k) as E.
  apply upd_wrr_congr; [done|]. intros w. simpl.
  by rewrite <- (task_weight_proper _ _ E p p eq_refl).
Qed.

Lemma requeueTaskWrr_effect c p b k :
  requeueTaskWrr c p b k ≡w
  upd_wrr c (fun w => mkWrrRq (nrRunning w) (totalWeight w)
    (if b then list_move p (wrr_list w) else list_move_tail p (wrr_list w))) k.
Proof. unfold requeueTaskWrr. by destruct b. Qed.

(** ** Preservation of the invariant *)

(** A ring is replaced by a consistent one whose new members were on none. *)
Lemma wrr_wf_upd c f k :
  wrr_wf k ->
  (let w := f (wrr (rqs k c)) in
   NoDup (wrr_list w) /\
   nrRunning w = u32 (Z.of_nat (length (wrr_list w))) /\
   totalWeight w = u32 (sum_of (task_weight k) (wrr_list w)) /\
   (forall p, p ∈ wrr_list w -> p ∈ ring k c \/ forall d, p ∉ ring k d)) ->
  wrr_wf (upd_wrr c f k).
Proof.
  intros [Hok Hdis] (Hnd & Hnr & Htw & Hnew). split.
  - intros d. destruct (Hok d) as (H1 & H2 & H3).
    unfold wrr_ok. rewrite ring_upd_wrr, wrr_upd_wrr.
    case_decide; subst; (split; [done|]; split; [done|]); assumption.
  - intros d e p. rewrite !ring_upd_wrr. repeat case_decide; subst; auto.
    + intros [?|Hn]%Hnew Hp; [eauto|by destruct (Hn e)].
    + intros Hp [?|Hn]%Hnew; [eauto|by destruct (Hn d)].
    + eauto.
Qed.

Lemma wrr_ok_parts k c :
  wrr_wf k -> NoDup (ring k c) /\
  nrRunning (wrr (rqs k c)) = u32 (Z.of_nat (length (ring k c))) /\
  totalWeight (wrr (rqs k c)) = u32 (sum_of (task_weight k) (ring k c)).
Proof. intros [Hok _]. apply Hok. Qed.

Lemma enqueued_wf c p fl k :
  wrr_wf k -> (forall d, p ∉ ring k d) -> wrr_wf (enqueued c p fl k).
Proof.
  intros Hwf Hp. destruct (wrr_ok_parts k c Hwf) as (Hnd & Hnr & Htw).
  pose proof (Hp c) as Hpc.
  apply wrr_wf_upd; [done|]. simpl. fold (ring k c) in *. unfold ring in *.
  rewrite Hnr, Htw. autorewrite with wrap.
  destruct (has_flag fl ENQUEUE_HEAD); unfold list_add, list_add_tail; split_and!;
    auto with lists.
  - simpl. f_equal. lia.
  - simpl. f_equal. lia.
  - intros q [->|?]%elem_of_cons; auto.
  - by apply NoDup_list_add_tail.
  - rewrite length_app. simpl. f_equal. lia.
  - rewrite sum_of_app. simpl. f_equal. lia.
  - intros q [?|Hq%list_elem_of_singleton]%elem_of_app; subst; auto.
Qed.

Lemma dequeued_wf c p k : wrr_wf k -> p ∈ ring k c -> wrr_wf (dequeued c p k).
Proof.
  intros Hwf Hp. destruct (wrr_ok_parts k c Hwf) as (Hnd & Hnr & Htw).
  pose proof (list_del_Permutation p _ Hnd Hp) as Hperm.
  apply wrr_wf_upd; [done|]. simpl. unfold ring in *.
  rewrite Hnr, Htw, (sum_of_Permutation _ _ _ Hperm). autorewrite with wrap.
  split_and!; auto with lists.
  - apply Permutation_length in Hperm. rewrite Hperm. simpl length. f_equal. lia.
  - simpl. f_equal. lia.
  - intros q [? _]%elem_of_list_del. auto.
Qed.

(** Moving a queued task to an end of its ring keeps the invariant. *)
Lemma moved_wf c p (b : bool) k :
  wrr_wf k -> p ∈ ring k c -> wrr_wf (requeueTaskWrr c p b k).
Proof.
  intros Hwf Hp. destruct (wrr_ok_parts k c Hwf) as (Hnd & Hnr & Htw).
  pose proof (list_del_Permutation p _ Hnd Hp) as Hperm.
  rewrite requeueTaskWrr_effect. apply wrr_wf_upd; [done|]. simpl. unfold ring in *.
  set (l' := if b then _ else _).
  assert (Hl' : l' ≡ₚ wrr_list (wrr (rqs k c))).
  { unfold l'. destruct b; rewrite Hperm at 2; [done|].
    symmetry. apply Permutation_cons_append. }
  rewrite Hnr, Htw, (sum_of_Permutation _ _ _ Hl'), (Permutation_length Hl').
  split_and!; try done; [by rewrite Hl'|].
  intros q. rewrite Hl'. auto.
Qed.

Lemma upd_weight_wf p w c k :
  wrr_wf k -> p ∈ ring k c ->
  wrr_wf (upd_wse p (fun e => e <| weight := w |>)
    (upd_wrr c (fun r => r <| totalWeight := u32 (totalWeight r - task_weight k p + w) |>) k)).
Proof.
  intros [Hok Hdis] Hp. set (k' := upd_wse _ _ _).
  assert (Hring : forall d, ring k' d = ring k d).
  { intros d. unfold k', upd_wse, ring. ksimpl. fold (ring k d).
    change (ring (upd_wrr c (fun r => r <| totalWeight := u32 (totalWeight r - task_weight k p + w) |>) k) d = ring k d).
    rewrite ring_upd_wrr. case_decide; subst; done. }
  assert (Hw : forall q, task_weight k' q = if decide (p = q) then w else task_weight k q).
  { intros q. unfold k', upd_wse, task_weight. ksimpl. case_decide; done. }
  split; [|by setoid_rewrite Hring].
  intros d. destruct (Hok d) as (Hnd & Hnr & Htw).
  unfold wrr_ok. rewrite Hring.
  assert (Hwrr : wrr (rqs k' d) =
    if decide (c = d) then wrr (rqs k c) <| totalWeight := u32 (totalWeight (wrr (rqs k c)) - task_weight k p + w) |>
    else wrr (rqs k d)).
  { unfold k', upd_wse. rewrite rqs_upd_task, wrr_upd_wrr. done. }
  rewrite Hwrr. case_decide as Hcd; simpl; subst; (split; [done|]; split; [done|]).
  - pose proof (list_del_Permutation p _ Hnd Hp) as Hperm.
    rewrite Htw, !(sum_of_Permutation _ _ _ Hperm). simpl.
    rewrite Hw, decide_True by done.
    rewrite (sum_of_ext (task_weight k') (task_weight k) (list_del p _)).
    2:{ intros q [_ ?]%elem_of_list_del. rewrite Hw. by rewrite decide_False by congruence. }
    autorewrite with wrap.
    replace (u32 (task_weight k p + sum_of (task_weight k) (list_del p (ring k d))) - task_weight k p + w)
      with (u32 (task_weight k p + sum_of (task_weight k) (list_del p (ring k d))) - (task_weight k p - w)) by lia.
    autorewrite with wrap. f_equal. lia.
  - rewrite Htw. f_equal. apply sum_of_ext. intros q Hq. rewrite Hw.
    rewrite decide_False; [done|]. intros ->. by destruct Hcd; eauto.
Qed.

(** ** The class in the core scheduler

    [WrrPlugged] is the initializer of [wrrSchedClass] together with what the
    class relies on from the others: their operations leave its state alone. *)

Class WrrPlugged `{QueueOps} : Prop := {
  plug_enqueue : op_enqueue_task wrrSchedClass = enqueueTaskWrr;
  plug_dequeue : op_dequeue_task wrrSchedClass = dequeueTaskWrr;
  plug_check_preempt : op_check_preempt_curr wrrSchedClass = checkPreemtCurrWrr;
  plug_put_prev : op_put_prev_task wrrSchedClass = putPrevTaskWrr;
  plug_set_curr : op_set_curr_task wrrSchedClass = setCurrTaskWrr;
  plug_migrate : op_migrate_task_rq wrrSchedClass = None;
  plug_cpus_allowed : op_set_cpus_allowed wrrSchedClass = set_cpus_allowed_common;
  frame_check_preempt cls c p fl k :
    cls <> wrrSchedClass -> op_check_preempt_curr cls c p fl k ≡w k;
  frame_check_preempt_cpu cls c p fl k :
    cls <> wrrSchedClass -> op_check_preempt_curr cls c p fl k ≡[task_cpu | no_field] k }.

Section Plugged.
Context `{WrrPlugged}.

Lemma check_preempt_curr_equiv c p fl k : check_preempt_curr c p fl k ≡w k.
Proof.
  unfold check_preempt_curr.
  set (k1 := if decide _ then _ else _).
  assert (E : k1 ≡w k).
  { unfold k1. case_decide; [|wrr_frame].
    destruct (decide (class_of (tasks k (curr (rqs k c))) = wrrSchedClass)) as [->|Hn].
    - by rewrite plug_check_preempt.
    - by apply frame_check_preempt. }
  cases; [|done]. by rewrite rq_clock_skip_update_equiv.
Qed.

Lemma switchedToWrr_equiv c p k : switchedToWrr c p k ≡w k.
Proof.
  unfold switchedToWrr. cases; [eauto with wrr|apply check_preempt_curr_equiv|done].
Qed.

Lemma class_of_equiv k k' p : k ≡w k' -> class_of (tasks k p) = class_of (tasks k' p).
Proof. intros [_ E]. specialize (E p). by injection E. Qed.

Lemma dequeue_task_wrr c p fl k :
  class_of (tasks k p) = wrrSchedClass -> nrRunning (wrr (rqs k c)) <> 0 ->
  dequeue_task c p fl k ≡w dequeued c p k.
Proof.
  intros Hcls Hn. unfold dequeue_task.
  set (k1 := if has_flag fl DEQUEUE_NOCLOCK then _ else _).
  assert (E1 : k1 ≡w k) by (unfold k1; wrr_frame).
  set (k2 := if has_flag fl DEQUEUE_SAVE then _ else _).
  assert (E2 : k2 ≡w k) by (unfold k2; cases; [done|by rewrite call_equiv]).
  rewrite (class_of_equiv _ _ p E2), Hcls, plug_dequeue, dequeueTaskWrr_effect.
  - apply upd_wrr_congr; [done|]. intros w.
    by rewrite (task_weight_proper _ _ E2 p p eq_refl).
  - by rewrite (proj1 E2 c).
Qed.

Lemma enqueue_task_wrr c p fl k :
  class_of (tasks k p) = wrrSchedClass ->
  enqueue_task c p fl k ≡w enqueued c p fl k.
Proof.
  intros Hcls. unfold enqueue_task.
  set (k1 := if has_flag fl ENQUEUE_NOCLOCK then _ else _).
  assert (E1 : k1 ≡w k) by (unfold k1; wrr_frame).
  set (k2 := if has_flag fl ENQUEUE_RESTORE then _ else _).
  assert (E2 : k2 ≡w k) by (unfold k2; cases; [done|by rewrite call_equiv]).
  rewrite (class_of_equiv _ _ p E2), Hcls, plug_enqueue, enqueueTaskWrr_effect.
  apply upd_wrr_congr; [done|]. intros w.
  by rewrite (task_weight_proper _ _ E2 p p eq_refl).
Qed.

Lemma set_task_cpu_wrr p d k :
  class_of (tasks k p) = wrrSchedClass ->
  set_task_cpu p d k ≡w k /\
  forall q, task_cpu (tasks (set_task_cpu p d k) q) = if decide (q = p) then d else task_cpu (tasks k q).
Proof.
  intros Hcls. unfold set_task_cpu, __set_task_cpu. rewrite Hcls, plug_migrate. split.
  - cases; wrr_frame.
  - intros q. cases; ksimpl; repeat case_decide; by subst.
Qed.

Lemma homes_check_preempt c p fl k : check_preempt_curr c p fl k ≡[task_cpu | no_field] k.
Proof.
  unfold check_preempt_curr. set (k1 := if decide _ then _ else _).
  assert (E : k1 ≡[task_cpu | no_field] k).
  { unfold k1. case_decide; [|wrr_frame].
    destruct (decide (class_of (tasks k (curr (rqs k c))) = wrrSchedClass)) as [->|Hn].
    - by rewrite plug_check_preempt.
    - by apply frame_check_preempt_cpu. }
  cases; [|done]. rewrite <- E. unfold rq_clock_skip_update. wrr_frame.
Qed.

Lemma homes_switched_to c p k : switchedToWrr c p k ≡[task_cpu | no_field] k.
Proof. unfold switchedToWrr. cases; [wrr_frame|apply homes_check_preempt|done]. Qed.

(** The queue operations of core.c on a task of the class. *)
Lemma homes_enqueue_task c p fl k : class_of (tasks k p) = wrrSchedClass ->
  enqueue_task c p fl k ≡[task_cpu | no_field] k.
Proof.
  intros Hcls. unfold enqueue_task. set (k1 := if has_flag fl ENQUEUE_NOCLOCK then _ else _).
  set (k2 := if has_flag fl ENQUEUE_RESTORE then _ else _).
  assert (E2 : k2 ≡w k) by (unfold k2, k1; wrr_frame).
  rewrite (class_of_equiv _ _ p E2), Hcls, plug_enqueue, homes_enqueue. unfold k2, k1. wrr_frame.
Qed.

Lemma homes_dequeue_task c p fl k : class_of (tasks k p) = wrrSchedClass ->
  dequeue_task c p fl k ≡[task_cpu | no_field] k.
Proof.
  intros Hcls. unfold dequeue_task. set (k1 := if has_flag fl DEQUEUE_NOCLOCK then _ else _).
  set (k2 := if has_flag fl DEQUEUE_SAVE then _ else _).
  assert (E2 : k2 ≡w k) by (unfold k2, k1; wrr_frame).
  rewrite (class_of_equiv _ _ p E2), Hcls, plug_dequeue, homes_dequeue. unfold k2, k1. wrr_frame.
Qed.
End Plugged.

(** Moving a queued task of the class to another CPU ([move_queued_task]
    of core.c over the operations of the class) takes it off its ring, appends
    it to the ring of the new CPU and keeps the invariant. *)
Theorem move_queued_task_wrr `{WrrPlugged} c d p k :
  wrr_wf k -> class_of (tasks k p) = wrrSchedClass -> p ∈ ring k c -> c <> d ->
  Z.of_nat (length (ring k c)) < 2 ^ 32 ->
  exists k', move_queued_task c p d k = Some k' /\ wrr_wf k' /\
    ring k' c = list_del p (ring k c) /\ ring k' d = ring k d ++ [p] /\
    (forall e, e <> c -> e <> d -> ring k' e = ring k e) /\
    (forall q, task_cpu (tasks k' q) = if decide (q = p) then d else task_cpu (tasks k q)) /\
    task_weight k' p = task_weight k p.
Proof.
  intros Hwf Hcls Hp Hcd Hlen. destruct (wrr_ok_parts k c Hwf) as (Hnd & Hnr & _).
  unfold move_queued_task.
  set (k1 := upd_task p _ k).
  assert (E1 : k1 ≡w k) by (apply upd_task_equiv; done).
  set (k2 := dequeue_task c p _ k1).
  assert (E2 : k2 ≡w dequeued c p k).
  { unfold k2. rewrite dequeue_task_wrr.
    - apply upd_wrr_congr; [done|]. intros w. by rewrite (task_weight_proper _ _ E1 p p eq_refl).
    - by rewrite (class_of_equiv _ _ p E1).
    - rewrite (proj1 E1 c), Hnr, u32_id by lia.
      intros Hz. destruct (ring k c); [set_solver|simpl in Hz; lia]. }
  assert (Hcls2 : class_of (tasks k2 p) = wrrSchedClass) by by rewrite (class_of_equiv _ _ p E2).
  destruct (set_task_cpu_wrr p d k2 Hcls2) as [E3 T3].
  rewrite (T3 p), decide_True, Z.eqb_refl by done. cbn [negb]. eexists. split; [done|].
  set (k3 := set_task_cpu p d k2) in *.
  set (k4 := enqueue_task d p 0 k3).
  assert (E4 : k4 ≡w enqueued d p 0 (dequeued c p k)).
  { unfold k4. rewrite enqueue_task_wrr by by rewrite (class_of_equiv _ _ p E3).
    assert (E : k3 ≡w dequeued c p k) by by rewrite E3.
    apply upd_wrr_congr; [done|]. intros w. by rewrite (task_weight_proper _ _ E p p eq_refl). }
  set (k5 := check_preempt_curr d p 0 _).
  assert (E5 : k5 ≡w enqueued d p 0 (dequeued c p k)).
  { unfold k5. rewrite check_preempt_curr_equiv, upd_task_equiv by done. done. }
  assert (T5 : forall q, task_cpu (tasks k5 q) = if decide (q = p) then d else task_cpu (tasks k q)).
  { intros q. unfold k5. rewrite (proj1 (homes_check_preempt _ _ _ _) q).
    rewrite (homes_upd_task p _ k4) by done. unfold k4.
    rewrite (proj1 (homes_enqueue_task d p 0 k3 ltac:(by rewrite (class_of_equiv _ _ p E3))) q).
    unfold k3. rewrite T3. case_decide; [done|]. unfold k2.
    rewrite (proj1 (homes_dequeue_task c p _ k1 ltac:(by rewrite (class_of_equiv _ _ p E1))) q).
    unfold k1. by rewrite (homes_upd_task p _ k). }
  rewrite (ring_proper _ _ E5 c c eq_refl), (ring_proper _ _ E5 d d eq_refl).
  unfold enqueued, dequeued.
  rewrite !ring_upd_wrr, (decide_False (P := d = c)), !decide_True by congruence.
  split_and!; [| | | |exact T5|].
  - rewrite E5. apply enqueued_wf; [by apply dequeued_wf|].
    intros e. unfold dequeued. rewrite ring_upd_wrr. case_decide as Hce.
    + simpl. intros [_ ?]%elem_of_list_del. done.
    + intros Hpe. destruct Hwf as [_ Hdis]. apply Hce. eauto.
  - done.
  - cbn [wrr_list]. rewrite wrr_upd_wrr, decide_False by congruence. done.
  - intros e He1 He2. rewrite (ring_proper _ _ E5 e e eq_refl). unfold enqueued, dequeued.
    by rewrite !ring_upd_wrr, !decide_False by congruence.
  - by rewrite (task_weight_proper _ _ E5 p p eq_refl).
Qed.

(** Every queued task is on the ring of the CPU that [task_cpu] names. *)
Definition wrr_placed (k : kernel) : Prop :=
  forall c p, p ∈ ring k c -> task_cpu (tasks k p) = c.

(** Steps of the class: its operations under the core scheduler's calling
    conditions (a task is enqueued on [task_rq(p)] when it is on no queue), a
    move of a queued task by [move_queued_task], and any step of the rest of the
    kernel, which leaves the rings and the CPUs of queued tasks alone. *)
Inductive wrr_step `{WrrConfig, QueueOps} : kernel -> kernel -> Prop :=
  | step_enqueue c p fl k :
      (forall d, p ∉ ring k d) -> task_cpu (tasks k p) = c -> wrr_step k (enqueueTaskWrr c p fl k)
  | step_dequeue c p fl k :
      p ∈ ring k c -> nrRunning (wrr (rqs k c)) <> 0 ->
      wrr_step k (dequeueTaskWrr c p fl k)
  | step_pick c prev k k' r :
      pickNextTaskWrr c prev k = Some (k', r) -> wrr_step k k'
  | step_put_prev c p k : wrr_step k (putPrevTaskWrr c p k)
  | step_set_curr c k : wrr_step k (setCurrTaskWrr c k)
  | step_tick c p q k : wrr_step k (taskTickWrr c p q k)
  | step_yield c k : curr (rqs k c) ∈ ring k c -> wrr_step k (yieldTaskWrr c k)
  | step_switched_to c p k : wrr_step k (switchedToWrr c p k)
  | step_set_weight w c k : current k ∈ ring k c -> wrr_step k (set_wrr_weight w k).1
  | step_pull thisRq k k' : pullTaskWrr thisRq k = Some k' -> wrr_step k k'
  | step_move c d p k k' :
      class_of (tasks k p) = wrrSchedClass -> p ∈ ring k c -> c <> d ->
      Z.of_nat (length (ring k c)) < 2 ^ 32 -> move_queued_task c p d k = Some k' -> wrr_step k k'
  | step_other k k' : k ≡w k' ->
      (forall c p, p ∈ ring k c -> task_cpu (tasks k' p) = task_cpu (tasks k p)) -> wrr_step k k'.

(** A step that keeps the CPU of every task and queues at most a task that is
    on its own CPU's ring. *)
Lemma placed_step k k' : k' ≡[task_cpu | no_field] k ->
  (forall c p, p ∈ ring k' c -> p ∈ ring k c \/ task_cpu (tasks k p) = c) -> wrr_placed k -> wrr_placed k'.
Proof.
  intros [E _] Hr Hp c p Hin. rewrite E. destruct (Hr c p Hin) as [?|?]; [by apply Hp|done].
Qed.

Lemma placed_same k k' : k' ≡w k -> k' ≡[task_cpu | no_field] k -> wrr_placed k -> wrr_placed k'.
Proof.
  intros E Eh. apply placed_step; [done|]. intros c p. rewrite (ring_proper _ _ E c c eq_refl). by left.
Qed.

(** ** Ticks *)

Definition slice (k : kernel) (p : Z) : Z := timeSlice (wrr_se (tasks k p)).
Definition set_slice (p n : Z) (k : kernel) : kernel :=
  upd_wse p (fun w => w <| timeSlice := n |>) k.

Lemma slice_equiv k k' p : k ≡w k' -> slice k p = slice k' p.
Proof. intros [_ E]. specialize (E p). by injection E. Qed.

Lemma policy_equiv k k' p : k ≡w k' -> policy (tasks k p) = policy (tasks k' p).
Proof. intros [_ E]. specialize (E p). by injection E. Qed.

Lemma set_slice_congr p n k k' : k ≡w k' -> set_slice p n k ≡w set_slice p n k'.
Proof.
  intros [E1 E2]. split; [done|]. intros q. unfold set_slice, upd_wse. ksimpl.
  pose proof (E2 q). case_decide; subst; [|done].
  unfold wview in *. simpl. congruence.
Qed.

Lemma set_slice_fuse p n m k : set_slice p n (set_slice p m k) ≡w set_slice p n k.
Proof.
  split; [done|]. intros q. unfold set_slice, upd_wse. ksimpl. by repeat case_decide.
Qed.

Lemma slice_set_slice p n k q :
  slice (set_slice p n k) q = if decide (p = q) then n else slice k q.
Proof. unfold slice, set_slice, upd_wse. ksimpl. by case_decide. Qed.

Lemma weight_set_slice p n k q : task_weight (set_slice p n k) q = task_weight k q.
Proof. unfold task_weight, set_slice, upd_wse. ksimpl. case_decide; by subst. Qed.

Lemma policy_set_slice p n k q : policy (tasks (set_slice p n k) q) = policy (tasks k q).
Proof. unfold set_slice, upd_wse. ksimpl. case_decide; by subst. Qed.

(** The invariant depends on a task only through its weight. *)
Lemma wrr_wf_weights k k' :
  (forall c, wrr (rqs k c) = wrr (rqs k' c)) ->
  (forall p, task_weight k p = task_weight k' p) -> wrr_wf k -> wrr_wf k'.
Proof.
  intros E1 E2 [Hok Hdis].
  assert (Hr : forall c, ring k' c = ring k c) by (intros; unfold ring; by rewrite E1).
  split.
  - intros c. destruct (Hok c) as (? & ? & Htw). unfold wrr_ok. rewrite Hr, <- E1.
    split_and!; try done. rewrite Htw. f_equal. by apply sum_of_ext.
  - intros c d p. rewrite !Hr. eauto.
Qed.

Section TickEffect.
Context `{WrrConfig}.

(** A tick of a SCHED_WRR task, in the three cases of the code. *)
Definition ticked (c p : Z) (k : kernel) : kernel :=
  let n := u32 (slice k p - 1) in
  if decide (n <> 0) then set_slice p n k
  else
    let k := set_slice p (u32 (task_weight k p * WRR_TIMESLICE)) k in
    if not_alone p (ring k c) then requeueTaskWrr c p false k else k.

Lemma taskTickWrr_effect c p q k :
  policy (tasks k p) = SCHED_WRR -> taskTickWrr c p q k ≡w ticked c p k.
Proof.
  intros Hpol. unfold taskTickWrr, ticked.
  set (k1 := watchdog c p (updateCurrWrr c k)).
  assert (E : k1 ≡w k) by (unfold k1; by rewrite watchdog_equiv, updateCurrWrr_equiv).
  rewrite (policy_equiv _ _ p E), Hpol. cbn [negb Z.eqb SCHED_WRR Pos.eqb].
  change (upd_wse p _ k1) with (upd_wse p (fun w => w <| timeSlice := u32 (timeSlice w - 1) |>) k1).
  set (k2 := upd_wse p _ k1).
  assert (E2 : k2 ≡w set_slice p (u32 (slice k p - 1)) k).
  { rewrite <- (set_slice_congr _ _ _ _ E), <- (slice_equiv _ _ p E).
    split; [done|]. intros x. unfold k2, set_slice, upd_wse. ksimpl.
    unfold slice. by case_decide; subst. }
  change (timeSlice (wrr_se (tasks k2 p))) with (slice k2 p).
  rewrite (slice_equiv _ _ p E2), slice_set_slice, decide_True by done.
  destruct (Z.eqb_spec (u32 (slice k p - 1)) 0) as [Hz|Hz]; cbn [negb].
  2:{ by rewrite decide_True. }
  rewrite decide_False by auto.
  set (k3 := upd_wse p _ k2).
  assert (E3 : k3 ≡w set_slice p (u32 (task_weight k p * WRR_TIMESLICE)) k).
  { rewrite <- (set_slice_fuse p _ (u32 (slice k p - 1)) k), <- (set_slice_congr _ _ _ _ E2).
    rewrite <- (weight_set_slice p (u32 (slice k p - 1)) k p),
      <- (task_weight_proper _ _ E2 p p eq_refl).
    split; [done|]. intros x. unfold k3, set_slice, upd_wse. ksimpl.
    unfold task_weight. by case_decide; subst. }
  change (wrr_list (wrr (rqs k3 c))) with (ring k3 c).
  rewrite (ring_proper _ _ E3 c c eq_refl).
  destruct (not_alone _ _); [|done].
  rewrite resched_curr_equiv, !requeueTaskWrr_effect. by apply upd_wrr_congr.
Qed.

Lemma taskTickWrr_other c p q k :
  policy (tasks k p) <> SCHED_WRR -> taskTickWrr c p q k ≡w k.
Proof.
  intros Hpol. unfold taskTickWrr.
  set (k1 := watchdog c p (updateCurrWrr c k)).
  assert (E : k1 ≡w k) by (unfold k1; by rewrite watchdog_equiv, updateCurrWrr_equiv).
  rewrite (policy_equiv _ _ p E), (proj2 (Z.eqb_neq _ _) Hpol). done.
Qed.

Lemma taskTickWrr_wf c p q k : wrr_wf k -> wrr_wf (taskTickWrr c p q k).
Proof.
  intros Hwf. destruct (decide (policy (tasks k p) = SCHED_WRR)) as [Hp|Hp].
  2:{ by rewrite taskTickWrr_other. }
  rewrite taskTickWrr_effect by done. unfold ticked.
  assert (Hs : forall n, wrr_wf (set_slice p n k)).
  { intros n. eapply wrr_wf_weights; [..|exact Hwf]; [done|].
    intros x. by rewrite weight_set_slice. }
  case_decide; [apply Hs|].
  destruct (not_alone _ _) eqn:Ha; [|apply Hs].
  apply moved_wf; [apply Hs|]. unfold not_alone in Ha.
  apply andb_prop in Ha as [Ha _]. by apply bool_decide_eq_true in Ha.
Qed.
End TickEffect.

(** ** Balancing *)

Lemma pull_loop_idle k thisCpu l :
  (forall i, inU 32 (totalWeight (wrr (rqs k i)))) ->
  foldl (pull_step k thisCpu) (-1, None) l = (-1, None).
Proof.
  intros Hr. induction l as [|i l IH]; [done|]. simpl.
  unfold pull_step at 2. simpl.
  replace (u32 (-1) <? totalWeight (wrr (rqs k i))) with false.
  - by rewrite andb_false_r.
  - symmetry. apply Z.ltb_ge. destruct (Hr i). change (u32 (-1)) with UINT_MAX.
    unfold UINT_MAX. lia.
Qed.

Lemma wrr_wf_range k : wrr_wf k -> forall i, inU 32 (totalWeight (wrr (rqs k i))).
Proof. intros Hwf i. destruct (wrr_ok_parts k i Hwf) as (_ & _ & ->). apply u32_range. Qed.

Lemma pullTaskWrr_idle `{QueueOps} thisRq k :
  (forall i, inU 32 (totalWeight (wrr (rqs k i)))) ->
  pullTaskWrr thisRq k = Some (k <| preempt_count ::= Z.succ |>).
Proof.
  intros Hr. unfold pullTaskWrr. destruct (negb _); [done|].
  by rewrite pull_loop_idle.
Qed.

(** ** Changing a weight *)

Lemma set_weight_congr p w k k' :
  k ≡w k' -> upd_wse p (fun e => e <| weight := w |>) k ≡w
             upd_wse p (fun e => e <| weight := w |>) k'.
Proof.
  intros [E1 E2]. split; [done|]. intros q. unfold upd_wse. ksimpl.
  pose proof (E2 q). case_decide; subst; [|done]. unfold wview in *. simpl. congruence.
Qed.

(** The accepted call, with the two updates of the total weight in one. *)
Definition reweighted (p c w : Z) (k : kernel) : kernel :=
  upd_wse p (fun e => e <| weight := w |>)
    (upd_wrr c (fun r => r <| totalWeight := u32 (totalWeight r - task_weight k p + w) |>) k).

Lemma set_wrr_weight_effect w k :
  1 <= w -> class_of (tasks k (current k)) = wrrSchedClass ->
  (set_wrr_weight w k).2 = 0 /\
  (set_wrr_weight w k).1 ≡w reweighted (current k) (task_cpu (tasks k (current k))) w k.
Proof.
  intros Hw Hcls. unfold set_wrr_weight, reweighted.
  replace (w <? 1) with false by (symmetry; apply Z.ltb_ge; lia).
  rewrite bool_decide_eq_true_2 by done. cbn [negb fst snd]. split; [done|].
  apply set_weight_congr. rewrite upd_wrr_fuse.
  pose proof (update_rq_clock_equiv (task_cpu (tasks k (current k))) k) as E.
  apply upd_wrr_congr; [done|]. intros r. simpl.
  change (weight (wrr_se (tasks (update_rq_clock ?c k) ?p)))
    with (task_weight (update_rq_clock c k) p).
  rewrite (task_weight_proper _ _ E _ _ eq_refl). autorewrite with wrap. done.
Qed.

Lemma set_wrr_weight_wf w k :
  current k ∈ ring k (task_cpu (tasks k (current k))) ->
  wrr_wf k -> wrr_wf (set_wrr_weight w k).1.
Proof.
  intros Hc Hwf. destruct (decide (1 <= w)) as [Hw|Hw].
  2:{ unfold set_wrr_weight. by replace (w <? 1) with true by (symmetry; apply Z.ltb_lt; lia). }
  destruct (decide (class_of (tasks k (current k)) = wrrSchedClass)) as [Hcls|Hcls].
  2:{ unfold set_wrr_weight. rewrite bool_decide_eq_false_2 by done. by destruct (w <? 1). }
  rewrite (proj2 (set_wrr_weight_effect w k Hw Hcls)). by apply upd_weight_wf.
Qed.

(** None of these puts a task on a ring. *)
Lemma requeue_members c p b k d x : p ∈ ring k c -> x ∈ ring (requeueTaskWrr c p b k) d -> x ∈ ring k d.
Proof.
  intros Hp. rewrite (ring_proper _ _ (requeueTaskWrr_effect c p b k) d d eq_refl), ring_upd_wrr.
  case_decide as Hd; [|done]. subst d. cbn [wrr_list]. fold (ring k c).
  unfold list_move, list_move_tail, list_add, list_add_tail. destruct b; intros Hx.
  - apply elem_of_cons in Hx as [->|[? _]%elem_of_list_del]; done.
  - apply elem_of_app in Hx as [[? _]%elem_of_list_del|Hx%list_elem_of_singleton]; by subst.
Qed.

Lemma taskTickWrr_members `{WrrConfig} c p q k d x : x ∈ ring (taskTickWrr c p q k) d -> x ∈ ring k d.
Proof.
  destruct (decide (policy (tasks k p) = SCHED_WRR)) as [Hp|Hp].
  2:{ by rewrite (ring_proper _ _ (taskTickWrr_other c p q k Hp) d d eq_refl). }
  rewrite (ring_proper _ _ (taskTickWrr_effect c p q k Hp) d d eq_refl). unfold ticked.
  case_decide; [done|]. destruct (not_alone _ _) eqn:Ha; [|done].
  unfold not_alone in Ha. apply andb_prop in Ha as [Ha%bool_decide_eq_true _].
  by apply (requeue_members c p false).
Qed.

Lemma set_wrr_weight_members w k d x : x ∈ ring (set_wrr_weight w k).1 d -> x ∈ ring k d.
Proof.
  destruct (decide (1 <= w)) as [Hw|Hw].
  2:{ unfold set_wrr_weight. by replace (w <? 1) with true by (symmetry; apply Z.ltb_lt; lia). }
  destruct (decide (class_of (tasks k (current k)) = wrrSchedClass)) as [Hcls|Hcls].
  2:{ unfold set_wrr_weight. rewrite bool_decide_eq_false_2 by done. by destruct (w <? 1). }
  rewrite (ring_proper _ _ (proj2 (set_wrr_weight_effect w k Hw Hcls)) d d eq_refl).
  unfold reweighted, upd_wse, ring. rewrite rqs_upd_task, wrr_upd_wrr. by case_decide; subst.
Qed.

(** The loop of [findLowestWeightCpu] over a prefix of the CPUs. *)
Lemma lowest_loop k l m r :
  let '(m', r') := foldl (lowest_step k) (m, r) l in
  m' <= m /\ (forall i, i ∈ l -> m' <= totalWeight (wrr (rqs k i))) /\
  ((m', r') = (m, r) \/ (r' ∈ l /\ totalWeight (wrr (rqs k r')) = m' /\ m' < m)).
Proof.
  revert m r. induction l as [|i l IH]; intros m r; simpl.
  { split_and!; [lia|set_solver|by left]. }
  unfold lowest_step at 2. simpl.
  destruct (Z.ltb_spec (totalWeight (wrr (rqs k i))) m) as [Hlt|Hge].
  - specialize (IH (totalWeight (wrr (rqs k i))) i).
    destruct (foldl _ _ l) as [m' r']. destruct IH as (H1 & H2 & H3).
    split_and!; [lia| |right].
    + intros j [->|?]%elem_of_cons; auto.
    + destruct H3 as [?|(? & ? & ?)]; simplify_eq; [set_solver|].
      split_and!; [set_solver|done|lia].
  - specialize (IH m r). destruct (foldl _ _ l) as [m' r']. destruct IH as (H1 & H2 & H3).
    split_and!; [lia| |].
    + intros j [->|?]%elem_of_cons; [lia|auto].
    + destruct H3 as [?|(? & ? & ?)]; [by left|right; set_solver].
Qed.

(** ** A round of ticks *)

Section Round.
Context `{WrrConfig}.

(** One timer tick on a CPU that only has tasks of the class: the tick is
    charged to the current task, and if it asks for rescheduling, the class picks
    the next task and the CPU switches to it, as [__schedule] does.  Yields the
    task that ran. *)
Definition wrr_tick_once (c : Z) (k : kernel) : option (kernel * Z) :=
  let p := curr (rqs k c) in
  let k := taskTickWrr c p 0 k in
  if need_resched (tasks k p) then
    match pickNextTaskWrr c p k with
    | Some (k, Some next) =>
        let k := upd_task p (fun t => t <| need_resched := false |>) k in
        Some (upd_rq c (fun r => r <| curr := next |>) k, p)
    | _ => None
    end
  else Some (k, p).

Fixpoint wrr_serve (n : nat) (c : Z) (k : kernel) : option (kernel * list Z) :=
  match n with
  | O => Some (k, [])
  | S n =>
      '(k1, p) ← wrr_tick_once c k;
      '(k2, ps) ← wrr_serve n c k1;
      Some (k2, p :: ps)
  end.

Lemma wrr_serve_app n m c k k1 l1 k2 l2 :
  wrr_serve n c k = Some (k1, l1) -> wrr_serve m c k1 = Some (k2, l2) ->
  wrr_serve (n + m) c k = Some (k2, l1 ++ l2).
Proof.
  revert k l1. induction n as [|n IH]; intros k l1 H1 H2; simpl in *; simplify_eq; [done|].
  destruct (wrr_tick_once c k) as [[k' p]|]; simplify_eq/=.
  destruct (wrr_serve n c k') as [[k'' l]|] eqn:E; simplify_eq/=.
  by rewrite (IH _ _ E H2).
Qed.

(** The parts of a state that rounds depend on. *)
Definition same_tasks (k k' : kernel) : Prop :=
  forall q, task_weight k' q = task_weight k q /\ policy (tasks k' q) = policy (tasks k q).

Lemma same_tasks_equiv k k' : k' ≡w k -> same_tasks k k'.
Proof.
  intros E q. split; [by apply task_weight_proper|by apply policy_equiv].
Qed.

(** The task that runs after a tick of [p], the head of the ring [p :: rest]. *)
Definition runs_next (k : kernel) (p : Z) (rest : list Z) : Z :=
  if decide (u32 (slice k p - 1) <> 0) then p else default p (head rest).

(** A tick in the two cases that matter to a round. *)
Definition tick_post (c p : Z) (rest : list Z) (k k' : kernel) : Prop :=
  nrRunning (wrr (rqs k' c)) = nrRunning (wrr (rqs k c)) /\ same_tasks k k' /\
  if decide (u32 (slice k p - 1) <> 0)
  then ring k' c = p :: rest /\
       (forall q, slice k' q = if decide (p = q) then u32 (slice k p - 1) else slice k q)
  else ring k' c = rest ++ [p] /\
       (forall q, slice k' q = if decide (p = q) then u32 (task_weight k p * WRR_TIMESLICE)
                               else slice k q).

Lemma same_set_slice p n k : same_tasks k (set_slice p n k).
Proof. intros q. by rewrite weight_set_slice, policy_set_slice. Qed.

Lemma not_alone_cons p rest : not_alone p (p :: rest) = bool_decide (rest <> []).
Proof.
  unfold not_alone. rewrite bool_decide_eq_true_2 by set_solver. destruct rest as [|r rest]; [done|].
  rewrite bool_decide_eq_true_2 by done. apply Z.leb_le. simpl. lia.
Qed.

Lemma ticked_post c p rest k :
  ring k c = p :: rest -> p ∉ rest -> tick_post c p rest k (ticked c p k).
Proof.
  intros Hring Hp. unfold tick_post, ticked. case_decide.
  { split_and!; [done|apply same_set_slice|done|apply slice_set_slice]. }
  set (k1 := set_slice p _ k).
  change (ring k1 c) with (ring k c). rewrite Hring, not_alone_cons.
  destruct rest as [|r rest].
  - split_and!; [done|apply same_set_slice|done|apply slice_set_slice].
  - rewrite bool_decide_eq_true_2 by done. unfold requeueTaskWrr. split_and!.
    + rewrite wrr_upd_wrr, decide_True by done. done.
    + apply same_set_slice.
    + rewrite ring_upd_wrr, decide_True by done.
      change (list_move_tail p (ring k c) = (r :: rest) ++ [p]).
      rewrite Hring. unfold list_move_tail. by rewrite list_del_head.
    + apply slice_set_slice.
Qed.

Lemma tick_post_equiv c p rest k k1' k2' :
  k1' ≡w k2' -> tick_post c p rest k k2' -> tick_post c p rest k k1'.
Proof.
  intros E' (Hn & Ht & Hpost). unfold tick_post.
  rewrite (proj1 E' c), (ring_proper _ _ E' c c eq_refl).
  split; [done|]. split.
  - intros q. rewrite (task_weight_proper _ _ E' q q eq_refl), (policy_equiv _ _ q E'). apply Ht.
  - destruct (decide _); destruct Hpost as [Hr Hs]; (split; [done|]); intros q;
      by rewrite (slice_equiv _ _ q E'), Hs.
Qed.

(** Marking the current task. *)
Lemma resched_curr_flags c k q :
  need_resched (tasks (resched_curr c k) q) = (need_resched (tasks k q) || bool_decide (q = curr (rqs k c)))%bool /\
  curr (rqs (resched_curr c k) c) = curr (rqs k c).
Proof.
  unfold resched_curr, set_nr_and_not_polling, set_tsk_need_resched.
  destruct (need_resched (tasks k (curr (rqs k c)))) eqn:E; [|split; [|by cases]].
  - split; [|done]. case_bool_decide; subst; by rewrite ?E, ?orb_true_r, ?orb_false_r.
  - assert (Hq : forall k1, tasks k1 = tasks (set_tsk_need_resched (curr (rqs k c)) k) ->
      need_resched (tasks k1 q) = (need_resched (tasks k q) || bool_decide (q = curr (rqs k c)))%bool).
    { intros k1 ->. unfold set_tsk_need_resched. rewrite tasks_upd_task.
      case_decide; case_bool_decide; subst; by rewrite ?orb_true_r, ?orb_false_r. }
    cases; by apply Hq.
Qed.

(** A tick asks for rescheduling exactly when the slice of the current task is
    used up and another task is queued. *)
Lemma taskTickWrr_flags c p rest q k :
  curr (rqs k c) = p -> ring k c = p :: rest -> policy (tasks k p) = SCHED_WRR ->
  curr (rqs (taskTickWrr c p q k) c) = p /\
  forall x, need_resched (tasks (taskTickWrr c p q k) x) =
    (need_resched (tasks k x) || bool_decide (x = p /\ u32 (slice k p - 1) = 0 /\ rest <> []))%bool.
Proof.
  intros Hc Hr Hpol. unfold taskTickWrr.
  set (k1 := watchdog c p (updateCurrWrr c k)).
  assert (E : k1 ≡w k) by (unfold k1; by rewrite watchdog_equiv, updateCurrWrr_equiv).
  assert (F : k1 ≡[need_resched | curr] k) by (unfold k1; wrr_frame).
  rewrite (policy_equiv _ _ p E), Hpol. cbn [negb Z.eqb SCHED_WRR Pos.eqb].
  set (k2 := upd_wse p _ k1).
  assert (F2 : k2 ≡[need_resched | curr] k) by (rewrite <- F; apply same_upd_task; done).
  assert (S2 : timeSlice (wrr_se (tasks k2 p)) = u32 (slice k p - 1)).
  { unfold k2, upd_wse. rewrite upd_task_eq. cbn.
    change (u32 (slice k1 p - 1) = u32 (slice k p - 1)). by rewrite (slice_equiv _ _ p E). }
  rewrite S2. destruct (Z.eqb_spec (u32 (slice k p - 1)) 0) as [Hz|Hz]; cbn [negb].
  2:{ split; [by rewrite (proj2 F2 c)|]. intros x. rewrite (proj1 F2 x), bool_decide_eq_false_2 by tauto.
      by rewrite orb_false_r. }
  set (k3 := upd_wse p _ k2).
  assert (F3 : k3 ≡[need_resched | curr] k) by (rewrite <- F2; apply same_upd_task; done).
  assert (R3 : wrr_list (wrr (rqs k3 c)) = p :: rest).
  { change (ring k1 c = p :: rest). by rewrite (ring_proper _ _ E c c eq_refl). }
  rewrite R3, not_alone_cons. destruct (decide (rest = [])) as [->|Hne].
  - rewrite bool_decide_eq_false_2 by tauto. split; [by rewrite (proj2 F3 c)|]. intros x.
    rewrite (proj1 F3 x), bool_decide_eq_false_2 by tauto. by rewrite orb_false_r.
  - rewrite bool_decide_eq_true_2 by done. set (k4 := requeueTaskWrr c p false k3).
    assert (F4 : k4 ≡[need_resched | curr] k) by (rewrite <- F3; apply flags_requeue).
    assert (C4 : curr (rqs k4 c) = p) by by rewrite (proj2 F4 c).
    split; [by rewrite (proj2 (resched_curr_flags c k4 p))|]. intros x.
    rewrite (proj1 (resched_curr_flags c k4 x)), (proj1 F4 x), C4. f_equal.
    apply bool_decide_ext. tauto.
Qed.

Lemma pick_post c prev k p rest :
  ring k c = p :: rest -> nrRunning (wrr (rqs k c)) <> 0 ->
  exists k', pickNextTaskWrr c prev k = Some (k', Some p) /\ k' ≡w k /\ k' ≡[need_resched | curr] k.
Proof.
  intros Hr Hn. unfold pickNextTaskWrr, putPrevTaskWrr. rewrite (proj2 (Z.eqb_neq _ _) Hn).
  set (k1 := updateCurrWrr c k). change (wrr_list (wrr (rqs k1 c))) with (ring k1 c).
  assert (E1 : k1 ≡w k) by apply updateCurrWrr_equiv.
  rewrite (ring_proper _ _ E1 c c eq_refl), Hr. eexists. split; [done|]. split.
  - by rewrite upd_se_equiv.
  - unfold k1. wrr_frame.
Qed.

(** One tick: what it does to the class, which task runs next, and that no task
    is left marked. *)
Lemma wrr_tick_once_post c k p rest :
  curr (rqs k c) = p -> ring k c = p :: rest -> p ∉ rest -> nrRunning (wrr (rqs k c)) <> 0 ->
  policy (tasks k p) = SCHED_WRR -> (forall q, q ∈ p :: rest -> need_resched (tasks k q) = false) ->
  exists k', wrr_tick_once c k = Some (k', p) /\ tick_post c p rest k k' /\
    curr (rqs k' c) = runs_next k p rest /\
    (forall q, q ∈ p :: rest -> need_resched (tasks k' q) = false).
Proof.
  intros Hc Hring Hp Hn Hpol Hnr. unfold wrr_tick_once. rewrite Hc.
  destruct (taskTickWrr_flags c p rest 0 k Hc Hring Hpol) as [Hc1 Hf1].
  set (k1 := taskTickWrr c p 0 k) in *.
  assert (Hpost : tick_post c p rest k k1).
  { eapply tick_post_equiv; [by apply taskTickWrr_effect|by apply ticked_post]. }
  rewrite Hf1, Hnr by set_solver. cbn [orb].
  destruct (bool_decide _) eqn:Eb.
  - apply bool_decide_eq_true in Eb as (_ & Hz & Hne). destruct rest as [|r rest]; [done|].
    pose proof Hpost as (Hn1 & _ & Hr1). rewrite decide_False in Hr1 by tauto. destruct Hr1 as [Hr1 _].
    destruct (pick_post c p k1 r (rest ++ [p])) as (k2 & -> & E2 & F2); [done|by rewrite Hn1|].
    eexists. split; [done|]. split; [|split].
    + eapply tick_post_equiv; [|exact Hpost]. rewrite upd_rq_equiv, upd_task_equiv by done. done.
    + rewrite upd_rq_eq. cbn. unfold runs_next. by rewrite decide_False by tauto.
    + intros q Hq. rewrite tasks_upd_rq, tasks_upd_task. destruct (decide (p = q)) as [|Hpq]; [reflexivity|].
      rewrite (proj1 F2 q), Hf1, Hnr by done. cbn [orb]. apply bool_decide_eq_false_2. intros [-> _]. by apply Hpq.
  - apply bool_decide_eq_false in Eb. exists k1. split; [done|]. split; [done|]. split.
    + rewrite Hc1. unfold runs_next. destruct (decide (u32 (slice k p - 1) <> 0)) as [Hd|Hd]; [done|]. destruct rest as [|r rest]; [done|].
      destruct Eb. split_and!; [done|by destruct (decide (u32 (slice k p - 1) = 0))|done].
    + intros q Hq. rewrite Hf1, Hnr by done. cbn [orb]. apply bool_decide_eq_false_2.
      intros (-> & ? & ?). by apply Eb.
Qed.

(** [n] ticks use up the slice of the task at the head. *)
Definition slice_post (c p : Z) (rest : list Z) (k k' : kernel) : Prop :=
  nrRunning (wrr (rqs k' c)) = nrRunning (wrr (rqs k c)) /\ same_tasks k k' /\
  ring k' c = rest ++ [p] /\
  (forall q, slice k' q = if decide (p = q) then u32 (task_weight k p * WRR_TIMESLICE)
                          else slice k q) /\
  curr (rqs k' c) = default p (head rest) /\
  (forall q, q ∈ p :: rest -> need_resched (tasks k' q) = false).

Lemma wrr_serve_slice n c k p rest :
  slice k p = Z.of_nat (S n) -> Z.of_nat (S n) < 2 ^ 32 ->
  curr (rqs k c) = p -> ring k c = p :: rest -> p ∉ rest -> nrRunning (wrr (rqs k c)) <> 0 ->
  policy (tasks k p) = SCHED_WRR -> (forall q, q ∈ p :: rest -> need_resched (tasks k q) = false) ->
  exists k', wrr_serve (S n) c k = Some (k', replicate (S n) p) /\ slice_post c p rest k k'.
Proof.
  revert k. induction n as [|n IH]; intros k Hs Hlt Hc Hring Hp Hn Hpol Hnr0;
    destruct (wrr_tick_once_post c k p rest) as (k1 & Ht & (Hnr & Hst & Hpost) & Hc1 & Hf1); try done;
    cbn [wrr_serve]; rewrite Ht; cbn [mbind option_bind]; unfold runs_next in Hc1.
  - assert (Hz : ~ (u32 (slice k p - 1) <> 0)).
    { intros Hf. apply Hf. rewrite Hs. by apply u32_id. }
    rewrite decide_False in Hpost by done. rewrite decide_False in Hc1 by done.
    exists k1. split; [done|]. destruct Hpost. by split_and!.
  - assert (Hz : u32 (slice k p - 1) <> 0) by (rewrite Hs, u32_id; lia).
    rewrite decide_True in Hpost by done. rewrite decide_True in Hc1 by done.
    destruct Hpost as [Hr1 Hs1].
    destruct (IH k1) as (k2 & Hk2 & Hn2 & Hst2 & Hr2 & Hs2 & Hc2 & Hf2); try done.
    { rewrite Hs1, decide_True, Hs, u32_id by (done || lia). lia. }
    { lia. }
    { by rewrite Hnr. }
    { by rewrite (proj2 (Hst p)). }
    cbn [wrr_serve] in Hk2. rewrite Hk2. cbn [mbind option_bind].
    exists k2. split; [done|]. split_and!; try done.
    + by rewrite Hn2.
    + intros q. destruct (Hst q) as [<- <-]. apply Hst2.
    + intros q. rewrite Hs2, Hs1, (proj1 (Hst p)). by case_decide.
Qed.

(** A task that takes part in a round. *)
Definition rr_task (k : kernel) (p : Z) : Prop :=
  policy (tasks k p) = SCHED_WRR /\
  slice k p = task_weight k p * WRR_TIMESLICE /\
  0 < task_weight k p * WRR_TIMESLICE < 2 ^ 32 /\
  need_resched (tasks k p) = false.

Definition share (k : kernel) (p : Z) : nat := Z.to_nat (task_weight k p * WRR_TIMESLICE).

Lemma slice_post_rr c p rest k k' q :
  slice_post c p rest k k' -> q ∈ p :: rest -> rr_task k p -> rr_task k q ->
  rr_task k' q /\ slice k' q = slice k q.
Proof.
  intros (_ & Hst & _ & Hs & _ & Hf) Hq (_ & _ & Hp3 & _) (Hq1 & Hq2 & Hq3 & _). unfold rr_task.
  rewrite (Hf q Hq). destruct (Hst q) as [-> ->]. rewrite Hs. case_decide; subst; [|done].
  by rewrite u32_id by lia.
Qed.

Lemma wrr_serve_round c todo served k :
  ring k c = todo ++ served -> NoDup (todo ++ served) ->
  nrRunning (wrr (rqs k c)) <> 0 -> head (ring k c) = Some (curr (rqs k c)) ->
  (forall p, p ∈ todo ++ served -> rr_task k p) ->
  exists k', wrr_serve (sum_list_with (share k) todo) c k =
               Some (k', mjoin ((fun p => replicate (share k p) p) <$> todo)) /\
    ring k' c = served ++ todo /\ head (ring k' c) = Some (curr (rqs k' c)) /\
    (forall p, p ∈ todo ++ served -> rr_task k' p /\ slice k' p = slice k p).
Proof.
  revert served k. induction todo as [|p todo IH]; intros served k Hr Hnd Hn Hcur Hrr.
  { exists k. rewrite app_nil_r. split_and!; auto. }
  destruct (Hrr p ltac:(set_solver)) as (Hp1 & Hp2 & Hp3 & Hp4).
  assert (Hsh : exists n, share k p = S n) by (exists (pred (share k p)); unfold share; lia).
  destruct Hsh as [n Hsh].
  apply NoDup_cons in Hnd as [Hpn Hnd].
  rewrite Hr in Hcur. cbn in Hcur. injection Hcur as Hcur.
  destruct (wrr_serve_slice n c k p (todo ++ served)) as (k1 & Hk1 & Hpost); try done.
  { rewrite <- Hsh. unfold share. lia. }
  { rewrite <- Hsh. unfold share. lia. }
  { intros q Hq. by apply Hrr. }
  pose proof Hpost as (Hn1 & Hst & Hr1 & _ & Hc1 & _).
  assert (Hrr1 : forall q, q ∈ (p :: todo) ++ served -> rr_task k1 q /\ slice k1 q = slice k q).
  { intros q Hq. eapply slice_post_rr; [exact Hpost|done| |by apply Hrr]. apply Hrr. set_solver. }
  destruct (IH (served ++ [p]) k1) as (k2 & Hk2 & Hr2 & Hcur2 & Hrr2).
  { by rewrite Hr1, app_assoc. }
  { rewrite app_assoc. apply NoDup_list_add_tail; [done|done]. }
  { by rewrite Hn1. }
  { rewrite Hr1, Hc1. by destruct (todo ++ served). }
  { intros q Hq. apply Hrr1. set_solver. }
  assert (Hshare : forall q, share k1 q = share k q)
    by (intros q; unfold share; by rewrite (proj1 (Hst q))).
  exists k2. split_and!; [| |done|].
  - simpl. rewrite Hsh. eapply wrr_serve_app; [exact Hk1|].
    replace (sum_list_with (share k) todo) with (sum_list_with (share k1) todo)
      by (clear -Hshare; induction todo as [|a t IH]; simpl; [done|by rewrite Hshare, IH]).
    rewrite Hk2. do 3 f_equal. apply list_fmap_ext. intros; by rewrite Hshare.
  - rewrite Hr2. by rewrite <- app_assoc.
  - intros q Hq. destruct (Hrr2 q) as [? ->]; [set_solver|].
    split; [done|]. by apply Hrr1.
Qed.
End Round.

(** ** Examples: two tasks of weights 1 and 2 on CPU 0 *)

Definition demo_config : WrrConfig := {| WRR_TIMESLICE := 10; MAX_CPUS := 8; HZ := 100 |}.

(** The class in a kernel whose other classes do nothing. *)
Definition demo_ops : QueueOps := {|
  op_enqueue_task cls := if decide (cls = wrrSchedClass) then enqueueTaskWrr else fun _ _ _ k => k;
  op_dequeue_task cls := if decide (cls = wrrSchedClass) then dequeueTaskWrr else fun _ _ _ k => k;
  op_check_preempt_curr cls := fun _ _ _ k => k;
  op_put_prev_task cls := if decide (cls = wrrSchedClass) then putPrevTaskWrr else fun _ _ k => k;
  op_set_curr_task cls := if decide (cls = wrrSchedClass) then setCurrTaskWrr else fun _ k => k;
  op_migrate_task_rq cls := None;
  op_set_cpus_allowed cls := set_cpus_allowed_common |}.

Lemma demo_plugged : @WrrPlugged demo_ops.
Proof. by split. Qed.

Definition demo0 : kernel := demo_kernel wrrSchedClass SCHED_WRR 120.
Definition demo1 : kernel := enqueueTaskWrr 0 1 0 demo0.
Definition demo2 : kernel := enqueueTaskWrr 0 2 0 demo1.

Lemma demo0_wf : wrr_wf demo0.
Proof.
  split; [|intros ???; unfold ring; simpl; set_solver].
  intros c. split_and!; [apply NoDup_nil_2|by vm_compute..].
Qed.

Lemma demo0_placed : wrr_placed demo0.
Proof. intros c q Hq. by apply elem_of_nil in Hq. Qed.

Lemma demo1_fresh d : 1 ∉ ring demo0 d.
Proof. unfold ring. simpl. set_solver. Qed.

Lemma demo2_fresh d : 2 ∉ ring demo1 d.
Proof.
  unfold demo1.
  rewrite (ring_proper _ _ (enqueueTaskWrr_effect 0 1 0 demo0) d d eq_refl).
  unfold enqueued. rewrite ring_upd_wrr. case_decide; unfold ring; simpl; set_solver.
Qed.

Lemma demo2_wf : wrr_wf demo2.
Proof.
  unfold demo2. rewrite enqueueTaskWrr_effect. apply enqueued_wf; [|apply demo2_fresh].
  unfold demo1. rewrite enqueueTaskWrr_effect. apply enqueued_wf; [|apply demo1_fresh].
  apply demo0_wf.
Qed.

Lemma demo2_ring : ring demo2 0 = [1; 2].
Proof. by vm_compute. Qed.

(** ** Every step keeps the invariant *)

Section Invariant.
Context `{WrrConfig, WrrPlugged}.

Lemma wrr_step_wf k k' : wrr_step k k' -> wrr_wf k -> wrr_placed k -> wrr_wf k'.
Proof.
  intros Hstep Hwf Hpl.
  destruct Hstep as [c p fl k|c p fl k|c prev k k' r Hpick|c p k|c k|c p q k|c k Hc
    |c p k|w c k Hc|thisRq k k' Hpull|c d p k k' Hcls Hp Hcd Hlen Hm|k k' E].
  - rewrite enqueueTaskWrr_effect. by apply enqueued_wf.
  - rewrite dequeueTaskWrr_effect by done. by apply dequeued_wf.
  - unfold pickNextTaskWrr, putPrevTaskWrr in Hpick. cases; [by simplify_eq|].
    case_match; simplify_eq. by rewrite upd_se_equiv, updateCurrWrr_equiv.
  - unfold putPrevTaskWrr. by rewrite updateCurrWrr_equiv.
  - unfold setCurrTaskWrr. by rewrite upd_se_equiv.
  - by apply taskTickWrr_wf.
  - by apply moved_wf.
  - by rewrite switchedToWrr_equiv.
  - apply set_wrr_weight_wf; [|done]. by rewrite (Hpl c).
  - rewrite pullTaskWrr_idle in Hpull by by apply wrr_wf_range.
    simplify_eq. done.
  - destruct (move_queued_task_wrr c d p k Hwf Hcls Hp Hcd Hlen) as (k1 & E & W & _).
    rewrite Hm in E. by injection E as <-.
  - by rewrite <- E.
Qed.

Lemma wrr_step_placed k k' : wrr_step k k' -> wrr_wf k -> wrr_placed k -> wrr_placed k'.
Proof.
  intros Hstep Hwf Hpl.
  destruct Hstep as [c p fl k Hf Hc|c p fl k Hp Hn|c prev k k' r Hpick|c p k|c k|c p q k|c k Hc
    |c p k|w c k Hc|thisRq k k' Hpull|c d p k k' Hcls Hp Hcd Hlen Hm|k k' E Ec].
  - apply (placed_step k); [wrr_frame| |done]. intros d q.
    rewrite (ring_proper _ _ (enqueueTaskWrr_effect c p fl k) d d eq_refl). unfold enqueued.
    rewrite ring_upd_wrr. case_decide as Hd; [|by left]. subst d. cbn [wrr_list].
    destruct (has_flag fl ENQUEUE_HEAD); unfold list_add, list_add_tail; fold (ring k c); intros Hq;
      (assert (q ∈ ring k c \/ q = p) as [? | ->] by set_solver; [by left|by right]).
  - apply (placed_step k); [wrr_frame| |done]. intros d q.
    rewrite (ring_proper _ _ (dequeueTaskWrr_effect c p fl k Hn) d d eq_refl). unfold dequeued.
    rewrite ring_upd_wrr. case_decide as Hd; [|by left]. subst d. cbn [wrr_list].
    intros [? _]%elem_of_list_del. by left.
  - unfold pickNextTaskWrr, putPrevTaskWrr in Hpick. cases; [by simplify_eq|]. case_match; simplify_eq.
    apply (placed_same k); [by rewrite upd_se_equiv, updateCurrWrr_equiv|wrr_frame|done].
  - apply (placed_same k); [apply updateCurrWrr_equiv|apply homes_updateCurr|done].
  - apply (placed_same k); [apply upd_se_equiv|unfold setCurrTaskWrr; wrr_frame|done].
  - apply (placed_step k); [apply homes_tick| |done]. intros d x Hx. left.
    by apply (taskTickWrr_members c p q).
  - apply (placed_step k); [apply homes_requeue| |done]. intros d x Hx. left.
    by apply (requeue_members c (curr (rqs k c)) false).
  - apply (placed_same k); [apply switchedToWrr_equiv|apply homes_switched_to|done].
  - apply (placed_step k); [|intros d x Hx; left; by apply (set_wrr_weight_members w)|done].
    unfold set_wrr_weight. cases; cbn [fst]; wrr_frame.
  - rewrite pullTaskWrr_idle in Hpull by by apply wrr_wf_range. by simplify_eq.
  - destruct (move_queued_task_wrr c d p k Hwf Hcls Hp Hcd Hlen) as (k1 & E & _ & Rc & Rd & Ro & T & _).
    rewrite Hm in E. injection E as <-. intros e q. rewrite T.
    destruct (decide (e = c)) as [->|Hec]; [|destruct (decide (e = d)) as [->|Hed]].
    + rewrite Rc. intros [Hq Hqp]%elem_of_list_del. rewrite decide_False by done. by apply Hpl.
    + rewrite Rd. case_decide as Hqp; [done|]. intros Hq. apply Hpl. set_solver.
    + rewrite Ro by done. intros Hq. rewrite decide_False; [by apply Hpl|]. intros ->.
      destruct Hwf as [_ Hdis]. by destruct Hec; eapply Hdis.
  - intros c p. rewrite <- (ring_proper _ _ E c c eq_refl). intros Hp. rewrite (Ec c p Hp). by apply Hpl.
Qed.
End Invariant.

(** ** Theorems *)

(** C1: every step of the class, under the conditions on which the core
    scheduler calls it, every move of a queued task to another CPU by core.c and
    every step of the rest of the kernel keep the run-queue invariant: each ring
    has no duplicates, no task is on two rings, [nrRunning] and [totalWeight] are
    the number and the total weight of the tasks on the ring, modulo 2^32, and
    each queued task is on the ring of the CPU that its [task_cpu] names. *)
Theorem wrr_invariant `{WrrConfig, WrrPlugged} k k' :
  rtc wrr_step k k' -> wrr_wf k -> wrr_placed k -> wrr_wf k' /\ wrr_placed k'.
Proof.
  induction 1 as [|k1 k2 k3 Hstep _ IH]; [done|]. intros Hwf Hpl.
  enough (wrr_wf k2 /\ wrr_placed k2) as [? ?] by by apply IH. clear IH.
  split; [by apply (wrr_step_wf k1)|by apply (wrr_step_placed k1)].
Qed.

(** The witness of C1 enqueues two tasks, lets one of them tick and moves the
    other to CPU 1. *)
Lemma wrr_invariant_witness :
  exists k', @move_queued_task demo_ops 0 2 1 (@taskTickWrr demo_config 0 1 0 demo2) = Some k' /\
    wrr_wf k' /\ wrr_placed k' /\ ring k' 1 = [2].
Proof.
  destruct (@move_queued_task_wrr demo_ops demo_plugged 0 1 2 (@taskTickWrr demo_config 0 1 0 demo2))
    as (k' & Hk' & _ & _ & Hr & _).
  - apply taskTickWrr_wf, demo2_wf.
  - by vm_compute.
  - apply (bool_decide_unpack _). by vm_compute.
  - done.
  - by vm_compute.
  - exists k'. split; [exact Hk'|].
    destruct (@wrr_invariant demo_config demo_ops demo_plugged demo0 k') as [W P].
    + apply (rtc_l _ _ demo1); [apply step_enqueue; [apply demo1_fresh|by vm_compute]|].
      apply (rtc_l _ _ demo2); [apply step_enqueue; [apply demo2_fresh|by vm_compute]|].
      apply (rtc_l _ _ (@taskTickWrr demo_config 0 1 0 demo2)); [apply step_tick|].
      apply rtc_once, (step_move 0 1 2); [by vm_compute| |done|by vm_compute|exact Hk'].
      clear. apply (bool_decide_unpack _). by vm_compute.
    + apply demo0_wf.
    + apply demo0_placed.
    + split; [exact W|]. split; [exact P|]. rewrite Hr. clear. vm_compute. reflexivity.
Defined.

(** C2: one round of the class is fair in proportion to the weights.  On a CPU
    that runs the head of its ring, whose ring holds only SCHED_WRR tasks with
    full time slices, none of them marked for rescheduling, the next
    [sum of weight * WRR_TIMESLICE] ticks go to the tasks in ring order, each
    getting exactly [weight * WRR_TIMESLICE] consecutive ticks; the CPU switches
    only when a tick asks for it, and the round ends in a state like the one it
    began in. *)
Theorem wrr_round_fair `{WrrConfig} c k :
  wrr_wf k -> Z.of_nat (length (ring k c)) < 2 ^ 32 ->
  head (ring k c) = Some (curr (rqs k c)) ->
  (forall p, p ∈ ring k c -> rr_task k p) ->
  exists k',
    wrr_serve (sum_list_with (share k) (ring k c)) c k =
      Some (k', mjoin ((fun p => replicate (share k p) p) <$> ring k c)) /\
    ring k' c = ring k c /\ curr (rqs k' c) = curr (rqs k c) /\
    (forall p, p ∈ ring k c -> rr_task k' p /\ slice k' p = slice k p).
Proof.
  intros Hwf Hlen Hcur Hrr. destruct (wrr_ok_parts k c Hwf) as (Hnd & Hnr & _).
  destruct (wrr_serve_round c (ring k c) [] k) as (k' & Hk' & Hr' & Hc' & Hs').
  - by rewrite app_nil_r.
  - by rewrite app_nil_r.
  - rewrite Hnr, u32_id by lia. destruct (ring k c); simpl; [done|lia].
  - done.
  - intros p. rewrite app_nil_r. auto.
  - exists k'. rewrite app_nil_r in Hs'. cbn in Hr'. rewrite Hr', Hcur in Hc'. injection Hc' as Hc'. auto.
Qed.

(** Task 1 runs on CPU 0, task 2 is queued behind it. *)
Definition demo_running : kernel := upd_rq 0 (fun r => r <| curr := 1 |>) demo2.

Lemma wrr_round_fair_witness :
  exists k', @wrr_serve demo_config 30 0 demo_running =
    Some (k', replicate 10 1 ++ replicate 20 2).
Proof.
  assert (E : demo_running ≡w demo2) by (by apply upd_rq_equiv).
  assert (Hr : ring demo_running 0 = [1; 2]) by (by vm_compute).
  destruct (@wrr_round_fair demo_config 0 demo_running) as (k' & Hk' & _).
  - rewrite E. exact demo2_wf.
  - rewrite Hr. simpl. lia.
  - by vm_compute.
  - rewrite Hr. intros p Hp.
    assert (p = 1 \/ p = 2) as [-> | ->] by set_solver; vm_compute; auto.
  - exists k'. rewrite Hr in Hk'. exact Hk'.
Defined.

(** on wakeup and fork the class places a task on an online CPU whose
    total weight is least among the online CPUs (or reports -1 when every one
    is saturated at UINT_MAX); for any other reason it keeps the given CPU. *)
Theorem selectTaskRqWrr_lowest p cpu sd_flag fl k :
  let r := selectTaskRqWrr p cpu sd_flag fl k in
  let cpus := for_each_cpu k (cpu_online_mask k) in
  let w i := totalWeight (wrr (rqs k i)) in
  if decide (sd_flag = SD_BALANCE_WAKE \/ sd_flag = SD_BALANCE_FORK) then
    (r ∈ cpus /\ w r < UINT_MAX /\ forall i, i ∈ cpus -> w r <= w i) \/
    (r = -1 /\ forall i, i ∈ cpus -> UINT_MAX <= w i)
  else r = cpu.
Proof.
  simpl. unfold selectTaskRqWrr.
  case_decide as Hsd; cases; zbool; try (destruct Hsd; congruence); try tauto.
  - unfold findLowestWeightCpu.
    pose proof (lowest_loop k (for_each_cpu k (cpu_online_mask k)) UINT_MAX (-1)) as HL.
    destruct (foldl _ _ _) as [m r]. simpl. destruct HL as (_ & Hmin & [?|(? & <- & ?)]).
    + simplify_eq. right. auto.
    + left. auto.
  - apply andb_false_iff in Heqb as [Hb|Hb]; zbool; tauto.
Qed.

(** [pullTaskWrr] never pulls a task.  [maxWeight] starts at -1 and is
    compared as an unsigned number with the total weights, so the search loop
    never records a target; the only effect of the call is that [get_cpu]
    leaves preemption disabled once more. *)
Theorem pullTaskWrr_never_pulls `{QueueOps} thisRq k :
  wrr_wf k ->
  pullTaskWrr thisRq k = Some (k <| preempt_count ::= Z.succ |>).
Proof. intros Hwf. by apply pullTaskWrr_idle, wrr_wf_range. Qed.

Lemma pullTaskWrr_never_pulls_witness :
  @pullTaskWrr demo_ops 0 demo2 = Some (demo2 <| preempt_count ::= Z.succ |>).
Proof. exact (@pullTaskWrr_never_pulls demo_ops 0 demo2 demo2_wf). Defined.

Lemma move_queued_task_wrr_witness :
  exists k', @move_queued_task demo_ops 0 1 1 demo2 = Some k' /\ wrr_wf k' /\
    ring k' 0 = [2] /\ ring k' 1 = [1].
Proof.
  destruct (@move_queued_task_wrr demo_ops demo_plugged 0 1 1 demo2 demo2_wf)
    as (k' & Hk' & Hwf & H0 & H1 & _); [by vm_compute|..].
  - rewrite demo2_ring. set_solver.
  - done.
  - rewrite demo2_ring. simpl. lia.
  - exists k'. rewrite H0, H1, demo2_ring. split_and!; try done; by vm_compute.
Defined.

(** [set_wrr_weight] rejects weights below one and callers of another
    class without any effect, and otherwise gives the caller the new weight
    and moves the total weight of its run queue by the difference. *)
Theorem set_wrr_weight_spec w k :
  let p := current k in
  let c := task_cpu (tasks k p) in
  let '(k', ret) := set_wrr_weight w k in
  if decide (w < 1) then ret = - EINVAL /\ k' = k
  else if decide (class_of (tasks k p) <> wrrSchedClass) then ret = - EACCES /\ k' = k
  else ret = 0 /\ task_weight k' p = w /\
       (forall q, q <> p -> task_weight k' q = task_weight k q) /\
       (forall d, ring k' d = ring k d) /\
       totalWeight (wrr (rqs k' c)) =
         u32 (totalWeight (wrr (rqs k c)) - task_weight k p + w).
Proof.
  simpl. destruct (set_wrr_weight w k) as [k' ret] eqn:Heq. case_decide as Hw.
  { unfold set_wrr_weight in Heq. rewrite (proj2 (Z.ltb_lt _ _) Hw) in Heq. by simplify_eq. }
  assert (Hw1 : (w <? 1) = false) by (apply Z.ltb_ge; lia).
  case_decide as Hcls.
  { unfold set_wrr_weight in Heq. rewrite Hw1, bool_decide_eq_false_2 in Heq by done.
    cbn [negb] in Heq. by simplify_eq. }
  destruct (decide (class_of (tasks k (current k)) = wrrSchedClass)) as [Hc|]; [|done].
  destruct (set_wrr_weight_effect w k) as [Hret E]; [lia|done|].
  rewrite Heq in Hret, E. simpl in Hret, E. split; [done|].
  rewrite (proj1 E _), (task_weight_proper _ _ E _ _ eq_refl).
  split_and!.
  - unfold reweighted, task_weight, upd_wse. ksimpl. by rewrite decide_True.
  - intros q Hq. rewrite (task_weight_proper _ _ E _ _ eq_refl).
    unfold reweighted, task_weight, upd_wse. ksimpl. by rewrite decide_False.
  - intros d. rewrite (ring_proper _ _ E _ _ eq_refl). unfold reweighted, upd_wse, ring.
    rewrite rqs_upd_task, wrr_upd_wrr. by case_decide; subst.
  - unfold reweighted, upd_wse. rewrite rqs_upd_task, wrr_upd_wrr, decide_True by done. done.
Qed.

(** A task of the class whose policy is not SCHED_WRR is never
    time-sliced: its ticks leave every ring, slice and weight as they were.
    [sched_fork] and [__setscheduler] of core.c put SCHED_NORMAL tasks in this
    class, so such a task keeps the head of the ring until it gives up the CPU. *)
Theorem taskTickWrr_ignores_other_policies `{WrrConfig} c p q k :
  policy (tasks k p) <> SCHED_WRR ->
  forall d x, ring (taskTickWrr c p q k) d = ring k d /\
              slice (taskTickWrr c p q k) x = slice k x.
Proof.
  intros Hpol d x. pose proof (taskTickWrr_other c p q k Hpol) as E.
  split; [by apply ring_proper|by apply slice_equiv].
Qed.

Lemma taskTickWrr_ignores_other_policies_witness :
  ring (@taskTickWrr demo_config 0 1 0 (demo_kernel wrrSchedClass SCHED_NORMAL 120)) 0 = [].
Proof.
  refine (proj1 (@taskTickWrr_ignores_other_policies demo_config 0 1 0
    (demo_kernel wrrSchedClass SCHED_NORMAL 120) _ 0 0)).
  vm_compute. discriminate.
Defined.
