(* ===== verification/CoreWake.v ===== *)
(** * Wakeup, fork and placement (core.c)

    The paths of core.c on which a task becomes runnable: placement of a task
    on a CPU ([select_task_rq] with its fallback), [try_to_wake_up] with the
    local, remote and queued variants, and fork.  Two outcomes besides an answer
    are values: the [BUG] of the fallback and the wait for a task that another
    CPU is still switching away from. *)

From S2P Require Import Prelude SchedTypes Core Frame Wrr.

(** What the wakeup code reads of the machine and of code outside the
    repository: topology, cpusets, sched features and the workqueue hooks. *)
Class WakeEnv := {
  cpumask_of_node : Z -> option (gset Z); (* of a CPU; [None]: no node *)
  CONFIG_CPUSETS : bool;
  cpuset_cpus_allowed_fallback : Z -> kernel -> kernel;
  sd_llc_id : Z -> Z;
  feat_TTWU_QUEUE : bool;
  domain_spans : Z -> list (gset Z);      (* the domains of a CPU, upwards *)
  wq_worker_sleeping : kernel -> Z -> option Z;
  signal_pending_state : kernel -> Z -> Z -> bool }.

(** The load-tracking functions of fair.c that core.c calls on any task. *)
Class LoadOps := {
  init_entity_runnable_average : Z -> kernel -> kernel;
  post_init_entity_util_avg : Z -> kernel -> kernel;
  cpu_load_update_active : Z -> kernel -> kernel }.

(** ** Placement *)

Section Wake.
Context `{QueueOps} `{ClassOps} `{WakeEnv} `{LoadOps}.

Inductive fallback_state := fb_cpuset | fb_possible | fb_fail.

(** The endless loop of [select_fallback_rq]: each round that finds no CPU
    moves to the next state, and the third one fails, so three rounds are all
    there are. *)
Fixpoint fallback_loop (fuel : nat) (st : fallback_state) (p : Z) (k : kernel)
    : option (kernel * Z) :=
  match fuel with
  | O => None
  | S n =>
      match list_find (fun c => is_cpu_allowed k p c = true)
              (for_each_cpu k (cpus_allowed (tasks k p))) with
      | Some (_, dest_cpu) => Some (k, dest_cpu)
      | None =>
          match st with
          | fb_cpuset =>
              if CONFIG_CPUSETS
              then fallback_loop n fb_possible p (cpuset_cpus_allowed_fallback p k)
              else fallback_loop n fb_fail p (do_set_cpus_allowed p (cpu_possible_mask k) k)
          | fb_possible =>
              fallback_loop n fb_fail p (do_set_cpus_allowed p (cpu_possible_mask k) k)
          | fb_fail => None
          end
      end
  end.

(** [None] is the [BUG] of a machine without any usable CPU. *)
Definition select_fallback_rq (cpu p : Z) (k : kernel) : option (kernel * Z) :=
  let in_node :=
    match cpumask_of_node cpu with
    | Some nodemask =>
        list_find (fun c => c ∈ cpu_active_mask k /\ c ∈ cpus_allowed (tasks k p))
          (for_each_cpu k nodemask)
    | None => None
    end in
  match in_node with
  | Some (_, dest_cpu) => Some (k, dest_cpu)
  | None => fallback_loop 3 fb_cpuset p k
  end.

Definition cpumask_any (k : kernel) (mask : gset Z) : Z :=
  default (nr_cpu_ids k) (head (for_each_cpu k mask)).

Definition select_task_rq (p cpu sd_flags wake_flags : Z) (k : kernel)
    : option (kernel * Z) :=
  let '(k, cpu) :=
    if 1 <? nr_cpus_allowed (tasks k p)
    then op_select_task_rq (class_of (tasks k p)) p cpu sd_flags wake_flags k
    else (k, cpumask_any k (cpus_allowed (tasks k p))) in
  if negb (is_cpu_allowed k p cpu)
  then select_fallback_rq (task_cpu (tasks k p)) p k
  else Some (k, cpu).

(** ** Waking a task *)

(** Returns the new average. *)
Definition update_avg (avg sample : Z) : Z :=
  let diff := s64 (sample - avg) in
  u64 (avg + Z.shiftr diff 3).

Definition ttwu_stat (p cpu wake_flags : Z) (k : kernel) : kernel :=
  if negb (schedstat_enabled k) then k
  else
    let c := this_cpu k in
    let k :=
      if cpu =? rq_cpu (rqs k c) then
        upd_stat p (fun s => s <| nr_wakeups_local ::= fun n => u64 (n + 1) |>)
          (upd_rq c (fun r => r <| ttwu_local ::= fun n => u32 (n + 1) |>) k)
      else
        let k := upd_stat p (fun s => s <| nr_wakeups_remote ::= fun n => u64 (n + 1) |>) k in
        match list_find (fun span => cpu ∈ span) (domain_spans (rq_cpu (rqs k c))) with
        | Some _ => call (ttwu_wake_remote cpu) k
        | None => k
        end in
    let k := if has_flag wake_flags WF_MIGRATED
             then upd_stat p (fun s => s <| nr_wakeups_migrate ::= fun n => u64 (n + 1) |>) k
             else k in
    let k := upd_rq c (fun r => r <| ttwu_count ::= fun n => u32 (n + 1) |>) k in
    let k := upd_stat p (fun s => s <| nr_wakeups ::= fun n => u64 (n + 1) |>) k in
    if has_flag wake_flags WF_SYNC
    then upd_stat p (fun s => s <| nr_wakeups_sync ::= fun n => u64 (n + 1) |>) k
    else k.

Definition ttwu_activate (c p en_flags : Z) (k : kernel) : kernel :=
  let k := activate_task c p en_flags k in
  let k := upd_task p (fun t => t <| on_rq := TASK_ON_RQ_QUEUED |>) k in
  if has_flag (flags (tasks k p)) PF_WQ_WORKER
  then call (wq_worker_waking_up p (rq_cpu (rqs k c))) k else k.

Definition ttwu_do_wakeup (c p wake_flags : Z) (k : kernel) : kernel :=
  let k := check_preempt_curr c p wake_flags k in
  let k := upd_task p (fun t => t <| state := TASK_RUNNING |>) k in
  let k := match op_task_woken (class_of (tasks k p)) with
           | Some task_woken => task_woken c p k
           | None => k
           end in
  if negb (idle_stamp (rqs k c) =? 0) then
    let delta := u64 (rq_clock k c - idle_stamp (rqs k c)) in
    let max := u64 (2 * max_idle_balance_cost (rqs k c)) in
    let k := upd_rq c (fun r => r <| avg_idle ::= fun a => update_avg a delta |>) k in
    let k := if max <? avg_idle (rqs k c)
             then upd_rq c (fun r => r <| avg_idle := max |>) k else k in
    upd_rq c (fun r => r <| idle_stamp := 0 |>) k
  else k.

Definition ttwu_do_activate (c p wake_flags : Z) (k : kernel) : kernel :=
  let en_flags := Z.lor ENQUEUE_WAKEUP ENQUEUE_NOCLOCK in
  let k := if sched_contributes_to_load (tasks k p)
           then upd_rq c (fun r => r <| nr_uninterruptible ::= fun n => u64 (n - 1) |>) k
           else k in
  let en_flags := if has_flag wake_flags WF_MIGRATED
                  then Z.lor en_flags ENQUEUE_MIGRATED else en_flags in
  ttwu_do_wakeup c p wake_flags (ttwu_activate c p en_flags k).

(** Returns the state and whether the task was queued. *)
Definition ttwu_remote (p wake_flags : Z) (k : kernel) : kernel * bool :=
  let c := task_cpu (tasks k p) in
  if task_on_rq_queued k p
  then (ttwu_do_wakeup c p wake_flags (update_rq_clock c k), true)
  else (k, false).

Definition sched_ttwu_pending (k : kernel) : kernel :=
  let c := this_cpu k in
  match wake_list (rqs k c) with
  | [] => k
  | llist =>
      let k := upd_rq c (fun r => r <| wake_list := [] |>) k in
      let k := update_rq_clock c k in
      foldl (fun k p =>
        ttwu_do_activate c p
          (if sched_remote_wakeup (tasks k p) then WF_MIGRATED else 0) k) k llist
  end.

(** [scheduler_ipi] without CONFIG_NO_HZ_COMMON: nobody kicks idle balancing. *)
Definition scheduler_ipi (k : kernel) : kernel :=
  match wake_list (rqs k (this_cpu k)) with
  | [] => k
  | _ => sched_ttwu_pending k
  end.

Definition ttwu_queue_remote (p cpu wake_flags : Z) (k : kernel) : kernel :=
  let k := upd_task p (fun t =>
             t <| sched_remote_wakeup := has_flag wake_flags WF_MIGRATED |>) k in
  let was_empty := bool_decide (wake_list (rqs k cpu) = []) in
  let k := upd_rq cpu (fun r => r <| wake_list ::= cons p |>) k in
  if was_empty then
    let '(k, polls) := set_nr_if_polling (idle (rqs k cpu)) k in
    if negb polls then call (smp_send_reschedule cpu) k else k
  else k.

Definition wake_up_if_idle (cpu : Z) (k : kernel) : kernel :=
  if negb (is_idle_task k (curr (rqs k cpu))) then k
  else
    let '(k, polls) := set_nr_if_polling (idle (rqs k cpu)) k in
    if polls then k
    else if is_idle_task k (curr (rqs k cpu)) then call (smp_send_reschedule cpu) k
    else k.

Definition cpus_share_cache (this that : Z) : bool := sd_llc_id this =? sd_llc_id that.

Definition ttwu_queue (p cpu wake_flags : Z) (k : kernel) : kernel :=
  if feat_TTWU_QUEUE && negb (cpus_share_cache (this_cpu k) cpu)
  then ttwu_queue_remote p cpu wake_flags k
  else ttwu_do_activate cpu p wake_flags (update_rq_clock cpu k).

(** [Waits]: the task is still [on_cpu], and the caller spins until the CPU
    that is switching away from it is done. *)
Inductive wakeup := Woken (k : kernel) (success : bool) | Waits | Bug.

Definition wake_iowait (c p : Z) (k : kernel) : kernel :=
  if in_iowait (tasks k p) then
    upd_rq c (fun r => r <| nr_iowait ::= fun n => s32 (n - 1) |>)
      (call (delayacct_blkio_end p) k)
  else k.

Definition try_to_wake_up (p st wake_flags : Z) (k : kernel) : wakeup :=
  if negb (has_flag (state (tasks k p)) st) then Woken k false
  else
    let cpu := task_cpu (tasks k p) in
    let '(k, done) := if negb (on_rq (tasks k p) =? 0)
                      then ttwu_remote p wake_flags k else (k, false) in
    if done then Woken (ttwu_stat p cpu wake_flags k) true
    else if on_cpu (tasks k p) then Waits
    else
      let k := upd_task p (fun t =>
                 t <| sched_contributes_to_load := task_contributes_to_load t |>) k in
      let k := upd_task p (fun t => t <| state := TASK_WAKING |>) k in
      let k := wake_iowait (task_cpu (tasks k p)) p k in
      match select_task_rq p (wake_cpu (tasks k p)) SD_BALANCE_WAKE wake_flags k with
      | None => Bug
      | Some (k, cpu) =>
          let '(k, wake_flags) :=
            if negb (task_cpu (tasks k p) =? cpu)
            then (set_task_cpu p cpu k, Z.lor wake_flags WF_MIGRATED)
            else (k, wake_flags) in
          let k := ttwu_queue p cpu wake_flags k in
          Woken (ttwu_stat p cpu wake_flags k) true
      end.

(** [pi_lock] is free: without contention the run-queue lock is not dropped. *)
Definition try_to_wake_up_local (p : Z) (k : kernel) : kernel :=
  let c := task_cpu (tasks k p) in
  if negb (c =? this_cpu k) || (p =? current k) then k
  else if negb (has_flag (state (tasks k p)) TASK_NORMAL) then k
  else
    let k :=
      if negb (task_on_rq_queued k p)
      then ttwu_activate c p (Z.lor ENQUEUE_WAKEUP ENQUEUE_NOCLOCK) (wake_iowait c p k)
      else k in
    ttwu_stat p (this_cpu k) 0 (ttwu_do_wakeup c p 0 k).

Definition wake_up_process (p : Z) (k : kernel) : wakeup := try_to_wake_up p TASK_NORMAL 0 k.
Definition wake_up_state (p st : Z) (k : kernel) : wakeup := try_to_wake_up p st 0 k.
End Wake.

(** ** Placement always finds an allowed CPU *)

Lemma ce_allowed k k' p c : k ≡c k' -> is_cpu_allowed k p c = is_cpu_allowed k' p c.
Proof.
  intros E. destruct (ce_glob _ _ E) as (_&_&Eo&Ea&_). unfold is_cpu_allowed, is_per_cpu_kthread.
  rewrite (ce_task cpus_allowed _ _ p E), (ce_task flags _ _ p E),
    (ce_task nr_cpus_allowed _ _ p E) by done. by rewrite Eo, Ea.
Qed.

Lemma ce_for_each k k' m : k ≡c k' -> for_each_cpu k m = for_each_cpu k' m.
Proof. intros E. unfold for_each_cpu. by destruct (ce_glob _ _ E) as (_&->&_). Qed.

Lemma allowed_of_active k p c :
  cpu_active_mask k ⊆ cpu_online_mask k -> c ∈ cpu_active_mask k ->
  c ∈ cpus_allowed (tasks k p) -> is_cpu_allowed k p c = true.
Proof.
  intros Hon Ha Hc. unfold is_cpu_allowed. rewrite bool_decide_true by done. cbn [negb].
  destruct (is_per_cpu_kthread _); apply bool_decide_true; [by apply Hon|done].
Qed.

Lemma allowed_congr p m k k' :
  k ≡c k' -> set_cpus_allowed_common p m k ≡c set_cpus_allowed_common p m k'.
Proof.
  apply core_task_congr. intros t t' E.
  exact (f_equal (fun t => t <| cpus_allowed := m |> <| nr_cpus_allowed := cpumask_weight m |>) E).
Qed.

Lemma do_set_cpus_allowed_effect `{QueueFrame} p m k :
  do_set_cpus_allowed p m k ≡c set_cpus_allowed_common p m k.
Proof.
  unfold do_set_cpus_allowed. cbv zeta.
  set (c := task_cpu _). set (queued := task_on_rq_queued k p).
  set (running := task_current k c p).
  set (k1 := if queued then dequeue_task _ _ _ k else k).
  assert (E1 : k1 ≡c k) by (unfold k1; core_back).
  set (k2 := if running then put_prev_task _ _ k1 else k1).
  assert (E2 : k2 ≡c k) by (unfold k2; destruct running; [rewrite core_put_prev|]; done).
  set (k3 := op_set_cpus_allowed _ p m k2).
  assert (E3 : k3 ≡c set_cpus_allowed_common p m k)
    by (unfold k3; rewrite frame_allowed; by apply allowed_congr).
  destruct running, queued; rewrite ?core_set_curr, ?core_enqueue; done.
Qed.

(** What placement asks of the classes and of the cpuset code: they choose a
    CPU without moving tasks, and the cpuset fallback changes only the mask. *)
Class WakeLaws `{ClassOps} `{WakeEnv} : Prop := {
  law_select cls p cpu sd fl k : (op_select_task_rq cls p cpu sd fl k).1 ≡c k;
  law_cpuset p k : exists m, cpuset_cpus_allowed_fallback p k ≡c set_cpus_allowed_common p m k }.

(** A CPU that every task can be forced onto. *)
Definition usable_cpu (k : kernel) : Prop :=
  cpu_active_mask k ⊆ cpu_online_mask k /\
  exists c, c ∈ cpu_active_mask k /\ c ∈ cpu_possible_mask k /\ 0 <= c < nr_cpu_ids k.

Lemma usable_equiv k k' : k ≡c k' -> usable_cpu k -> usable_cpu k'.
Proof. intros E. unfold usable_cpu. by destruct (ce_glob _ _ E) as (_&->&->&->&->&_). Qed.

(** What placement may change of the state it starts in. *)
Definition replaced (p : Z) (k k' : kernel) : Prop :=
  k' ≡c k \/ exists m, k' ≡c set_cpus_allowed_common p m k.

Lemma set_allowed_twice p m m' k :
  set_cpus_allowed_common p m' (set_cpus_allowed_common p m k) ≡c set_cpus_allowed_common p m' k.
Proof.
  unfold set_cpus_allowed_common. split_and!; [|done..].
  intros q. ksimpl. repeat case_decide; subst; try done.
Qed.

Lemma replaced_set p m k1 k2 k :
  replaced p k k1 -> k2 ≡c set_cpus_allowed_common p m k1 -> replaced p k k2.
Proof.
  intros [E|(m' & E)] E2; right; exists m; rewrite E2, (allowed_congr p m _ _ E); [done|].
  apply set_allowed_twice.
Qed.

Lemma replaced_usable p k k' : replaced p k k' -> usable_cpu k -> usable_cpu k'.
Proof. intros [E|(m & E)] U; by eapply (usable_equiv _ k'); [symmetry; exact E|]. Qed.

Lemma find_allowed k p :
  match list_find (fun c => is_cpu_allowed k p c = true)
          (for_each_cpu k (cpus_allowed (tasks k p))) with
  | Some (_, c) => is_cpu_allowed k p c = true
  | None => forall c, c ∈ cpus_allowed (tasks k p) -> 0 <= c < nr_cpu_ids k ->
      is_cpu_allowed k p c = false
  end.
Proof.
  case_match eqn:E.
  - destruct p0 as [i c]. by apply list_find_Some in E as (_ & ? & _).
  - intros c Hc Hr. apply list_find_None in E. rewrite Forall_forall in E.
    destruct (is_cpu_allowed k p c) eqn:Ea; [|done]. destruct (E c); [|done].
    unfold for_each_cpu. apply list_elem_of_filter. rewrite elem_of_seqZ. split; [done|lia].
Qed.

Section Placement.
Context `{QueueFrame} `{ClassOps} `{WakeEnv} `{!WakeLaws} `{LoadOps}.

Definition rounds_left (st : fallback_state) : nat :=
  match st with fb_cpuset => 3 | fb_possible => 2 | fb_fail => 1 end.

Definition placed_by (p : Z) (k0 : kernel) (r : option (kernel * Z)) : Prop :=
  exists k' c, r = Some (k', c) /\ is_cpu_allowed k' p c = true /\ replaced p k0 k'.

Lemma replaced_forced p k0 k :
  replaced p k0 k -> replaced p k0 (do_set_cpus_allowed p (cpu_possible_mask k) k).
Proof. intros R. eapply replaced_set; [done|apply do_set_cpus_allowed_effect]. Qed.

Lemma forced_mask p k :
  let k' := do_set_cpus_allowed p (cpu_possible_mask k) k in
  cpus_allowed (tasks k' p) = cpu_possible_mask k'.
Proof.
  intros k'. pose proof (do_set_cpus_allowed_effect p (cpu_possible_mask k) k) as E. fold k' in E.
  rewrite (ce_task cpus_allowed _ _ p E) by done. destruct (ce_glob _ _ E) as (_&_&_&_&->&_).
  unfold set_cpus_allowed_common. by rewrite upd_task_eq.
Qed.

Lemma fallback_loop_spec p k0 fuel : forall st k,
  usable_cpu k0 -> replaced p k0 k -> (rounds_left st <= fuel)%nat ->
  (st = fb_fail -> cpus_allowed (tasks k p) = cpu_possible_mask k) ->
  placed_by p k0 (fallback_loop fuel st p k).
Proof.
  induction fuel as [|n IH]; intros st k U R Hf Hfail; [destruct st; simpl in Hf; lia|].
  cbn [fallback_loop]. pose proof (find_allowed k p) as Hfind.
  destruct (list_find _ _) as [[i c]|]; [by exists k, c|].
  destruct st; simpl in Hf.
  - destruct CONFIG_CPUSETS.
    + apply IH; try done; [|simpl; lia]. destruct (law_cpuset p k) as [m E].
      by eapply replaced_set.
    + apply IH; [done|by apply replaced_forced|simpl; lia|intros _; apply forced_mask].
  - apply IH; [done|by apply replaced_forced|simpl; lia|intros _; apply forced_mask].
  - destruct (replaced_usable _ _ _ R U) as (Hon & c & Ha & Hp & Hr).
    rewrite Hfail in Hfind by done. specialize (Hfind c Hp Hr).
    rewrite allowed_of_active in Hfind; [done|done|done|]. by rewrite Hfail.
Qed.

Lemma select_fallback_spec cpu p k :
  usable_cpu k -> placed_by p k (select_fallback_rq cpu p k).
Proof.
  intros U. unfold select_fallback_rq.
  assert (L : placed_by p k (fallback_loop 3 fb_cpuset p k))
    by (apply fallback_loop_spec; [done|by left|simpl; lia|done]).
  destruct (cpumask_of_node cpu) as [nodemask|]; [|done].
  destruct (list_find _ _) as [[i c]|] eqn:E; [|done].
  apply list_find_Some in E as (_ & [Ha Hc] & _). exists k, c. split_and!; [done| |by left].
  by apply allowed_of_active; [apply U|..].
Qed.

Lemma select_task_rq_spec p cpu sd fl k :
  usable_cpu k -> placed_by p k (select_task_rq p cpu sd fl k).
Proof.
  intros U. unfold select_task_rq.
  destruct (if 1 <? nr_cpus_allowed (tasks k p) then _ else _) as [k1 c] eqn:E.
  assert (E1 : k1 ≡c k).
  { destruct (1 <? _); [|by simplify_eq].
    replace k1 with (op_select_task_rq (class_of (tasks k p)) p cpu sd fl k).1 by by rewrite E.
    apply law_select. }
  destruct (is_cpu_allowed k1 p c) eqn:Ha; cbn [negb]; [exists k1, c; split_and!; [done..|by left]|].
  destruct (select_fallback_spec (task_cpu (tasks k1 p)) p k1) as (k2 & d & -> & Hd & R).
  { by eapply usable_equiv; [symmetry|]. }
  exists k2, d. split_and!; try done.
  destruct R as [E2|(m & E2)]; [left; by rewrite E2|right; exists m].
  rewrite E2. by apply allowed_congr.
Qed.
End Placement.

(** ** Woken tasks become runnable *)

(** The task is queued on a CPU it may use; with [TASK_RUNNING], runnable. *)
Definition queued_ok (k : kernel) (p : Z) : Prop :=
  on_rq (tasks k p) = TASK_ON_RQ_QUEUED /\
  is_cpu_allowed k p (task_cpu (tasks k p)) = true.
Definition runnable (k : kernel) (p : Z) : Prop :=
  state (tasks k p) = TASK_RUNNING /\ queued_ok k p.

(** A [task_woken] hook may move tasks that are not running to other CPUs they
    are allowed on, and changes nothing else the core scheduler looks at. *)
Definition relocated (k k' : kernel) : Prop :=
  (forall q, core_task (tasks k' q) <| task_cpu := 0 |> <| wake_cpu := 0 |> =
             core_task (tasks k q) <| task_cpu := 0 |> <| wake_cpu := 0 |>) /\
  (forall q, task_cpu (tasks k' q) = task_cpu (tasks k q) \/
             is_cpu_allowed k' q (task_cpu (tasks k' q)) = true) /\
  (forall q, on_cpu (tasks k q) = true -> task_cpu (tasks k' q) = task_cpu (tasks k q)) /\
  (forall c, curr (rqs k' c) = curr (rqs k c) /\ idle (rqs k' c) = idle (rqs k c)) /\
  core_glob k' = core_glob k.

Class WokenLaws `{ClassOps} : Prop :=
  law_woken cls f c p k : op_task_woken cls = Some f -> relocated k (f c p k).

Lemma queued_ok_equiv k k' p : k ≡c k' -> queued_ok k p -> queued_ok k' p.
Proof.
  intros E [H1 H2]. split.
  - by rewrite <- (ce_task on_rq _ _ p E).
  - by rewrite <- (ce_task task_cpu _ _ p E), <- (ce_allowed _ _ p _ E).
Qed.

Lemma runnable_equiv k k' p : k ≡c k' -> runnable k p -> runnable k' p.
Proof.
  intros E [H1 H2]. split; [by rewrite <- (ce_task state _ _ p E)|by eapply queued_ok_equiv].
Qed.

Lemma relocated_field {A} (f : task_struct -> A) k k' q :
  relocated k k' -> (forall t, f (core_task t <| task_cpu := 0 |> <| wake_cpu := 0 |>) = f t) ->
  f (tasks k' q) = f (tasks k q).
Proof. intros (E&_) Hf. by rewrite <- Hf, E, Hf. Qed.

Lemma relocated_allowed k k' p c : relocated k k' -> is_cpu_allowed k' p c = is_cpu_allowed k p c.
Proof.
  intros R. pose proof R as (_&_&_&_&E). unfold core_glob in E. injection E as _ _ Eo Ea _ _ _ _ _.
  unfold is_cpu_allowed, is_per_cpu_kthread.
  rewrite (relocated_field cpus_allowed _ _ p R), (relocated_field flags _ _ p R),
    (relocated_field nr_cpus_allowed _ _ p R) by done. by rewrite Eo, Ea.
Qed.

Lemma relocated_runnable k k' p : relocated k k' -> runnable k p -> runnable k' p.
Proof.
  intros R (H1 & H2 & H3). unfold runnable, queued_ok. split_and!.
  - by rewrite (relocated_field state _ _ p R).
  - by rewrite (relocated_field on_rq _ _ p R).
  - pose proof R as (_&Hc&_&_&_). destruct (Hc p) as [->|]; [|done].
    by rewrite (relocated_allowed _ _ p _ R).
Qed.

Lemma is_cpu_allowed_upd p f k q c :
  (forall t, cpus_allowed (f t) = cpus_allowed t /\ nr_cpus_allowed (f t) = nr_cpus_allowed t /\
             flags (f t) = flags t) ->
  is_cpu_allowed (upd_task p f k) q c = is_cpu_allowed k q c.
Proof.
  intros Hf. unfold is_cpu_allowed, is_per_cpu_kthread. ksimpl. case_decide; [subst|done].
  by destruct (Hf (tasks k q)) as (->&->&->).
Qed.

Section Wakeup.
Context `{QueueFrame} `{ClassOps} `{!WokenLaws} `{WakeEnv}.

Lemma ttwu_do_wakeup_runnable c q fl k p :
  queued_ok k p -> p = q \/ state (tasks k p) = TASK_RUNNING ->
  runnable (ttwu_do_wakeup c q fl k) p.
Proof.
  intros Hq Hs. unfold ttwu_do_wakeup. cbv zeta.
  set (k1 := check_preempt_curr c q fl k).
  assert (E1 : k1 ≡c k) by apply core_check_preempt.
  set (k2 := upd_task q _ k1).
  assert (R2 : runnable k2 p).
  { pose proof (queued_ok_equiv _ _ p (symmetry E1) Hq) as [Ho Ha].
    unfold k2, runnable, queued_ok. rewrite is_cpu_allowed_upd by done. ksimpl.
    case_decide; subst; simpl; [done|]. split; [|done].
    destruct Hs as [->|Hs]; [done|]. by rewrite (ce_task state _ _ p E1). }
  destruct (op_task_woken _) as [f|] eqn:E.
  - pose proof (relocated_runnable _ _ p (law_woken _ _ c q k2 E) R2). cases; done.
  - cases; done.
Qed.

Lemma activate_core c p fl k :
  activate_task c p fl k ≡c (if task_contributes_to_load (tasks k p)
    then upd_rq c (fun r => r <| nr_uninterruptible ::= fun n => u64 (n - 1) |>) k else k).
Proof. unfold activate_task. by rewrite core_enqueue. Qed.

Lemma ttwu_activate_queued c q fl k p :
  is_cpu_allowed k p (task_cpu (tasks k p)) = true ->
  p = q \/ on_rq (tasks k p) = TASK_ON_RQ_QUEUED ->
  queued_ok (ttwu_activate c q fl k) p /\ state (tasks (ttwu_activate c q fl k) p) = state (tasks k p).
Proof.
  intros Ha Ho. unfold ttwu_activate. cbv zeta. set (k1 := activate_task c q fl k).
  pose proof (activate_core c q fl k) as E1. fold k1 in E1.
  assert (Hf1 : forall (A : Type) (f : task_struct -> A), (forall t, f (core_task t) = f t) ->
            f (tasks k1 p) = f (tasks k p)).
  { intros A f Hf. rewrite (ce_task f _ _ p E1 Hf). by cases. }
  assert (Ha1 : is_cpu_allowed k1 p (task_cpu (tasks k p)) = true)
    by (rewrite (ce_allowed _ _ p _ E1); by cases).
  set (k2 := upd_task q _ k1).
  assert (R : queued_ok k2 p /\ state (tasks k2 p) = state (tasks k p)).
  { unfold k2, queued_ok. rewrite is_cpu_allowed_upd by done. ksimpl.
    rewrite <- (Hf1 _ state) by done.
    case_decide; subst; cbn; [rewrite (Hf1 _ task_cpu) by done; done|].
    rewrite (Hf1 _ task_cpu) by done. rewrite (Hf1 _ on_rq) by done. by destruct Ho as [->|]. }
  by cases.
Qed.

Lemma ttwu_do_activate_runnable c q fl k p :
  is_cpu_allowed k p (task_cpu (tasks k p)) = true -> p = q \/ runnable k p ->
  runnable (ttwu_do_activate c q fl k) p.
Proof.
  intros Ha Hp. unfold ttwu_do_activate. cbv zeta.
  set (k1 := if sched_contributes_to_load _ then _ else k).
  set (fl' := if has_flag fl _ then _ else _).
  assert (E : tasks k1 = tasks k /\ is_cpu_allowed k1 p (task_cpu (tasks k p)) = true)
    by (unfold k1; by cases).
  destruct E as [Et Ea].
  destruct (ttwu_activate_queued c q fl' k1 p) as [Hq Hs].
  - by rewrite Et.
  - rewrite Et. destruct Hp as [|(_&?&_)]; auto.
  - apply ttwu_do_wakeup_runnable; [done|]. destruct Hp as [|(Hr&_)]; [by left|right].
    by rewrite Hs, Et.
Qed.

(** Where a task is, and whether it may be there, survives wakeups of others. *)
Definition drift (k k' : kernel) : Prop :=
  (forall p c, is_cpu_allowed k' p c = is_cpu_allowed k p c) /\
  (forall p, task_cpu (tasks k' p) = task_cpu (tasks k p) \/
             is_cpu_allowed k' p (task_cpu (tasks k' p)) = true).

#[local] Instance drift_preorder : PreOrder drift.
Proof.
  split; [by split; auto|]. intros k1 k2 k3 [A1 A2] [B1 B2]. split; intros p.
  - intros c. by rewrite B1.
  - destruct (B2 p) as [->|]; [|by right]. destruct (A2 p) as [->|Ha]; [by left|right].
    by rewrite B1.
Qed.

Lemma drift_equiv k k' : k' ≡c k -> drift k k'.
Proof.
  intros E. split; intros p; [intros c; by apply ce_allowed|left; by apply (ce_task task_cpu)].
Qed.

Lemma drift_upd p f k :
  (forall t, cpus_allowed (f t) = cpus_allowed t /\ nr_cpus_allowed (f t) = nr_cpus_allowed t /\
             flags (f t) = flags t /\ task_cpu (f t) = task_cpu t) ->
  drift k (upd_task p f k).
Proof.
  intros Hf. split; intros q.
  - intros c. apply is_cpu_allowed_upd. intros t. by destruct (Hf t) as (?&?&?&?).
  - left. ksimpl. case_decide; [subst; apply Hf|done].
Qed.

Lemma drift_activate c q fl k : drift k (ttwu_do_activate c q fl k).
Proof.
  unfold ttwu_do_activate, ttwu_activate. cbv zeta.
  set (k1 := if sched_contributes_to_load _ then _ else k).
  assert (drift k k1) by (unfold k1; cases; by split; [|left]).
  set (k2 := activate_task c q _ k1).
  assert (drift k1 k2).
  { pose proof (activate_core c q (if has_flag fl WF_MIGRATED
       then Z.lor (Z.lor ENQUEUE_WAKEUP ENQUEUE_NOCLOCK) ENQUEUE_MIGRATED
       else Z.lor ENQUEUE_WAKEUP ENQUEUE_NOCLOCK) k1) as E.
    etransitivity; [|by apply drift_equiv]. cases; by split; [|left]. }
  set (k3 := upd_task q _ k2).
  assert (drift k2 k3) by by apply drift_upd.
  set (k4 := if has_flag _ PF_WQ_WORKER then _ else _).
  assert (drift k3 k4) by (unfold k4; cases; by split; [|left]).
  transitivity k4; [by do 3 (etransitivity; [|eassumption])|].
  unfold ttwu_do_wakeup. cbv zeta.
  set (k5 := check_preempt_curr c q fl k4).
  assert (drift k4 k5) by (apply drift_equiv, core_check_preempt).
  set (k6 := upd_task q _ k5).
  assert (drift k5 k6) by by apply drift_upd.
  set (k7 := match op_task_woken _ with Some f => f c q k6 | None => k6 end).
  assert (drift k6 k7).
  { unfold k7. destruct (op_task_woken _) as [f|] eqn:E; [|reflexivity].
    pose proof (law_woken _ _ c q k6 E) as R. split; [intros; by apply relocated_allowed|apply R]. }
  transitivity k7; [by do 2 (etransitivity; [|eassumption])|]. cases; by split; [|left].
Qed.

Lemma pending_runnable c l p : forall k,
  is_cpu_allowed k p (task_cpu (tasks k p)) = true -> p ∈ l \/ runnable k p ->
  runnable (foldl (fun k q => ttwu_do_activate c q
    (if sched_remote_wakeup (tasks k q) then WF_MIGRATED else 0) k) k l) p.
Proof.
  induction l as [|q l IH]; intros k Ha Hp; cbn [foldl]; [set_solver|].
  set (k' := ttwu_do_activate c q _ k). apply IH.
  - destruct (drift_activate c q (if sched_remote_wakeup (tasks k q) then WF_MIGRATED else 0) k)
      as [A B]. fold k' in A, B. destruct (B p) as [->|]; [by rewrite A|done].
  - destruct Hp as [[->|]%elem_of_cons|]; [right|by left|right];
      apply ttwu_do_activate_runnable; auto.
Qed.
End Wakeup.

Lemma ttwu_stat_core `{WakeEnv} p cpu fl k : ttwu_stat p cpu fl k ≡c k.
Proof.
  unfold ttwu_stat, upd_stat, upd_se. cbv zeta. destruct (schedstat_enabled k); [|done]. cbn [negb].
  destruct (cpu =? _); [|destruct (list_find _ _)]; core_back.
Qed.

Lemma ttwu_queue_remote_spec p cpu fl k :
  is_cpu_allowed k p cpu = true -> task_cpu (tasks k p) = cpu ->
  let k' := ttwu_queue_remote p cpu fl k in
  is_cpu_allowed k' p cpu = true /\ task_cpu (tasks k' p) = cpu /\
  wake_list (rqs k' cpu) = p :: wake_list (rqs k cpu) /\
  (wake_list (rqs k cpu) = [] -> polling (tasks k (idle (rqs k cpu))) = false ->
    log k' = log k ++ [smp_send_reschedule cpu]).
Proof.
  intros Ha Hc k'.
  set (k1 := upd_task p (fun t => t <| sched_remote_wakeup := has_flag fl WF_MIGRATED |>) k).
  set (k2 := upd_rq cpu (fun r => r <| wake_list ::= cons p |>) k1).
  assert (A2 : is_cpu_allowed k2 p cpu = true /\ task_cpu (tasks k2 p) = cpu).
  { split; [transitivity (is_cpu_allowed k1 p cpu); [done|]; unfold k1; by rewrite is_cpu_allowed_upd|].
    unfold k2, k1. ksimpl. by rewrite decide_True. }
  assert (W2 : wake_list (rqs k2 cpu) = p :: wake_list (rqs k cpu))
    by (unfold k2; rewrite upd_rq_eq; done).
  assert (Hi : idle (rqs k2 cpu) = idle (rqs k cpu)) by (unfold k2; by rewrite upd_rq_eq).
  assert (Hpoll : polling (tasks k2 (idle (rqs k cpu))) = polling (tasks k (idle (rqs k cpu)))).
  { unfold k2, k1; ksimpl. case_decide as Hpi; [by rewrite <- Hpi|done]. }
  unfold k', ttwu_queue_remote. fold k1. cbv zeta. fold k2. unfold set_nr_if_polling, set_tsk_need_resched.
  rewrite Hi, Hpoll. destruct (bool_decide (wake_list (rqs k1 cpu) = [])) eqn:Eb.
  2:{ split_and!; try done; try apply A2. intros He. by rewrite bool_decide_true in Eb. }
  destruct (polling (tasks k (idle (rqs k cpu)))); cbn [negb]; split_and!; try done; try apply A2.
  - rewrite is_cpu_allowed_upd by done. apply A2.
  - rewrite tasks_upd_task. case_decide as Hd; [rewrite Hd|]; apply A2.
Qed.

Section Wakeups.
Context `{QueueFrame} `{ClassOps} `{!WokenLaws} `{WakeEnv} `{!WakeLaws} `{LoadOps}.

(** The state in which a task is handed to the queue of the chosen CPU. *)
Lemma chosen_cpu p k cpu :
  is_cpu_allowed k p cpu = true ->
  let k' := if negb (task_cpu (tasks k p) =? cpu) then set_task_cpu p cpu k else k in
  is_cpu_allowed k' p cpu = true /\ task_cpu (tasks k' p) = cpu.
Proof.
  intros Ha. destruct (task_cpu (tasks k p) =? cpu) eqn:E; cbn [negb]; cbv zeta; [split; [done|lia]|].
  pose proof (core_set_task_cpu p cpu k) as E1. split.
  - rewrite (ce_allowed _ _ p _ E1). unfold __set_task_cpu. by rewrite is_cpu_allowed_upd.
  - rewrite (ce_task task_cpu _ _ p E1) by done. unfold __set_task_cpu. by rewrite upd_task_eq.
Qed.

Lemma sched_ttwu_pending_runnable k p :
  p ∈ wake_list (rqs k (this_cpu k)) -> is_cpu_allowed k p (task_cpu (tasks k p)) = true ->
  runnable (sched_ttwu_pending k) p.
Proof.
  intros Hp Ha. unfold sched_ttwu_pending. cbv zeta.
  destruct (wake_list _) as [|q l]; [set_solver|]. apply pending_runnable; [|by left].
  set (k1 := upd_rq _ _ k). pose proof (core_clock (this_cpu k) k1) as E.
  by rewrite (ce_task task_cpu _ _ p E), (ce_allowed _ _ p _ E).
Qed.

Definition delivered (k : kernel) (p : Z) : Prop :=
  runnable k p \/
  (p ∈ wake_list (rqs k (task_cpu (tasks k p))) /\
   runnable (sched_ttwu_pending (k <| this_cpu := task_cpu (tasks k p) |>)) p).

Lemma ttwu_queue_delivers p cpu fl k :
  is_cpu_allowed k p cpu = true -> task_cpu (tasks k p) = cpu ->
  delivered (ttwu_stat p cpu fl (ttwu_queue p cpu fl k)) p.
Proof.
  intros Ha Hc. unfold ttwu_queue. case_match.
  - destruct (ttwu_queue_remote_spec p cpu fl k Ha Hc) as (A & C & W & _).
    set (k1 := ttwu_queue_remote p cpu fl k) in *.
    pose proof (ttwu_stat_core p cpu fl k1) as E. set (k2 := ttwu_stat p cpu fl k1) in *.
    right. rewrite (ce_task task_cpu _ _ p E), C by done.
    rewrite (ce_rq wake_list _ _ cpu E), W by done. split; [set_solver|].
    apply sched_ttwu_pending_runnable.
    + change (p ∈ wake_list (rqs k2 cpu)). rewrite (ce_rq wake_list _ _ cpu E), W by done.
      set_solver.
    + change (is_cpu_allowed k2 p (task_cpu (tasks k2 p)) = true).
      by rewrite (ce_task task_cpu _ _ p E), C, (ce_allowed _ _ p _ E).
  - left. eapply runnable_equiv; [symmetry; apply ttwu_stat_core|].
    apply ttwu_do_activate_runnable; [|by left].
    pose proof (core_clock cpu k) as E. rewrite (ce_allowed _ _ p _ E).
    by rewrite (ce_task task_cpu _ _ p E), Hc.
Qed.

(** C6: waking a task that sleeps in a state of the mask succeeds whatever CPU
    its class asks for: the task ends up runnable on a CPU it is allowed to
    use, or on the wake list of such a CPU, which makes it runnable when it
    handles its pending wakeups.  A task still queued becomes runnable in place,
    and one in another state is left alone. *)
Theorem try_to_wake_up_delivers p st fl k :
  usable_cpu k ->
  (on_rq (tasks k p) = 0 /\ on_cpu (tasks k p) = false) \/ queued_ok k p ->
  if has_flag (state (tasks k p)) st
  then exists k', try_to_wake_up p st fl k = Woken k' true /\ delivered k' p
  else try_to_wake_up p st fl k = Woken k false.
Proof.
  intros U Hp. unfold try_to_wake_up. destruct (has_flag _ st) eqn:Hst; cbn [negb]; [|done].
  destruct Hp as [[Ho Hc]|Hq].
  - rewrite Ho. cbn [Z.eqb negb]. rewrite Hc.
    set (k2 := wake_iowait _ p _).
    assert (U2 : usable_cpu k2) by (unfold k2, wake_iowait; by cases).
    destruct (select_task_rq_spec p (wake_cpu (tasks k2 p)) SD_BALANCE_WAKE fl k2 U2)
      as (k3 & cpu & -> & Ha & _).
    destruct (chosen_cpu p k3 cpu Ha) as [Ha4 Hc4].
    destruct (negb (task_cpu (tasks k3 p) =? cpu)); eexists; (split; [done|]);
      by apply ttwu_queue_delivers.
  - pose proof Hq as [Ho _]. rewrite Ho. cbn [Z.eqb negb TASK_ON_RQ_QUEUED].
    unfold ttwu_remote, task_on_rq_queued. rewrite Ho. cbn [Z.eqb TASK_ON_RQ_QUEUED].
    eexists. split; [done|]. left. eapply runnable_equiv; [symmetry; apply ttwu_stat_core|].
    apply ttwu_do_wakeup_runnable; [|by left].
    eapply queued_ok_equiv; [symmetry; apply core_clock|done].
Qed.
End Wakeups.

(** ** The weighted round-robin class keeps to its own state *)

Lemma core_updateCurrWrr c k : updateCurrWrr c k ≡c k.
Proof. unfold updateCurrWrr, upd_se. core_back. Qed.

Lemma core_enqueueWrr c p fl k : enqueueTaskWrr c p fl k ≡c k.
Proof. unfold enqueueTaskWrr, upd_wrr, upd_wse. cbv zeta. rewrite core_add_nr. core_back. Qed.

Lemma core_dequeueWrr c p fl k : dequeueTaskWrr c p fl k ≡c k.
Proof.
  unfold dequeueTaskWrr, upd_wrr. cbv zeta. destruct (_ =? 0); [done|].
  rewrite core_sub_nr, !core_upd_rq by done. apply core_updateCurrWrr.
Qed.

Lemma core_setCurrWrr c k : setCurrTaskWrr c k ≡c k.
Proof. unfold setCurrTaskWrr, upd_se. core_back. Qed.

(** ** Examples: the machine of [Wrr] with the class plugged in *)

(** The answer of [pickNextTaskWrr] in the shape of the interface. *)
Definition pickWrr (c prev : Z) (k : kernel) : kernel * picked :=
  match pickNextTaskWrr c prev k with
  | Some (k', Some p) => (k', TASK p)
  | Some (k', None) => (k', NULL_TASK)
  | None => (k, NULL_TASK)
  end.

(** The other classes are empty, but for the idle class. *)
Definition demo_class_ops : ClassOps := {|
  op_select_task_rq cls p cpu sd fl k :=
    if decide (cls = wrrSchedClass) then (k, selectTaskRqWrr p cpu sd fl k) else (k, cpu);
  op_task_woken cls := None;
  op_task_fork cls := None;
  op_task_dead cls := None;
  op_task_tick cls :=
    if decide (cls = wrrSchedClass) then @taskTickWrr demo_config else fun _ _ _ k => k;
  op_pick_next_task cls :=
    if decide (cls = wrrSchedClass) then pickWrr
    else if decide (cls = idle_sched_class) then fun c _ k => (k, TASK (idle (rqs k c)))
    else fun _ _ k => (k, NULL_TASK);
  op_yield_task cls := if decide (cls = wrrSchedClass) then yieldTaskWrr else fun _ k => k;
  op_yield_to_task cls := None;
  op_get_rr_interval cls :=
    if decide (cls = wrrSchedClass) then Some (@getRrIntervalWrr demo_config) else None;
  op_rq_online cls := None;
  op_rq_offline cls := None;
  op_balance cb c k := k |}.

Definition demo_wake_env : WakeEnv := {|
  cpumask_of_node c := Some {[0; 1]};
  CONFIG_CPUSETS := true;
  cpuset_cpus_allowed_fallback p k := set_cpus_allowed_common p (cpu_possible_mask k) k;
  sd_llc_id c := c;
  feat_TTWU_QUEUE := true;
  domain_spans c := [{[0; 1]}];
  wq_worker_sleeping k p := None;
  signal_pending_state k st p := false |}.

Definition demo_load_ops : LoadOps := {|
  init_entity_runnable_average p k := k;
  post_init_entity_util_avg p k := k;
  cpu_load_update_active c k := k |}.

Lemma demo_frame : @QueueFrame demo_ops.
Proof.
  split; intros cls; cbn.
  - intros. case_decide; [apply core_enqueueWrr|done].
  - intros. case_decide; [apply core_dequeueWrr|done].
  - done.
  - intros. case_decide; [apply core_updateCurrWrr|done].
  - intros. case_decide; [apply core_setCurrWrr|done].
  - done.
  - done.
Qed.

Lemma demo_woken : @WokenLaws demo_class_ops.
Proof. by intros ?????. Qed.

Lemma demo_wake_laws : @WakeLaws demo_class_ops demo_wake_env.
Proof.
  split; intros; cbn; [by case_decide|]. exists (cpu_possible_mask k). done.
Qed.

(** Task 3 sleeps interruptibly on CPU 0; CPU 1 carries no weight, and the two
    CPUs share no cache, so it is woken through the wake list of CPU 1. *)
Definition demo_sleeper : kernel :=
  upd_task 3 (fun t => t <| state := TASK_INTERRUPTIBLE |> <| on_rq := 0 |>) demo2.

Lemma demo_sleeper_usable : usable_cpu demo_sleeper.
Proof.
  split; [done|]. exists 0. by split_and!.
Qed.

Lemma try_to_wake_up_delivers_witness :
  exists k', @try_to_wake_up demo_ops demo_class_ops demo_wake_env 3 TASK_NORMAL 0 demo_sleeper
    = Woken k' true /\ @delivered demo_ops demo_class_ops k' 3.
Proof.
  exact (@try_to_wake_up_delivers demo_ops demo_frame demo_class_ops demo_woken demo_wake_env
    demo_wake_laws 3 TASK_NORMAL 0 demo_sleeper demo_sleeper_usable
    (or_introl (conj eq_refl eq_refl))).
Defined.
