(* ===== verification/WakeQ.v ===== *)
(** * Wake queues (wake_q_add and wake_up_q in core.c)

    A context that holds a lock collects the tasks to be woken in a list of its
    own and wakes them when the lock is dropped.  The list is threaded through
    the [wake_q] node inside each task, which all contexts share: whoever changes
    the node from NULL with [cmpxchg] owns it, everyone else relies on the
    owner's wakeup.  Here every access to shared memory is one action, and the
    actions of any number of contexts interleave.

    Theorems: after any interleaving, a task for which [wake_q_add] was called is
    woken later, or still in the list of a context that will wake it, and lists,
    nodes and references are never corrupted; [wake_up_q] ends after a known
    number of its own actions and wakes the tasks of its list in order. *)

From S2P Require Import Prelude.

(** [WAKE_Q_TAIL] and the address of the node of a task. *)
Inductive wake_q_ptr := NULL | WAKE_Q_TAIL | node_of (t : Z).
#[export] Instance wake_q_ptr_eq_dec : EqDecision wake_q_ptr.
Proof. solve_decision. Defined.

(** What [head->lastp] points to: [head->first] of the context's own head, or
    the [next] field of the node of a task. *)
Inductive wake_q_loc := at_first | at_next (t : Z).

(** Where a context is, with the values of its local variables: outside, before
    an action of [wake_q_add] or of [wake_up_q], done with its head, or at a NULL
    [node] that it is about to use. *)
Inductive wake_pc :=
  | Outside
  | AddGrab (t : Z) | AddGet (t : Z) | AddLink (t : Z) | AddLast (t : Z)
  | WakeFirst | WakeNext (node : wake_q_ptr) | WakeClear (t : Z) (node : wake_q_ptr)
  | WakeCall (t : Z) (node : wake_q_ptr) | WakePut (t : Z) (node : wake_q_ptr)
  | Finished | Oops.

#[export] Instance wake_pc_eq_dec : EqDecision wake_pc.
Proof. solve_decision. Defined.

Inductive wake_event := Request (t : Z) | Wake (t : Z).

(** [first] and [lastp] are indexed by the context, [next] and [usage] by the
    task.  [others] counts the references that are not due to wake queues;
    [history] has the latest event first. *)
Record wake_state := mkWakeState {
  next : Z -> wake_q_ptr;
  usage : Z -> Z;
  first : Z -> wake_q_ptr;
  lastp : Z -> wake_q_loc;
  pc : Z -> wake_pc;
  others : Z -> Z;
  history : list wake_event }.
#[export] Instance eta_wake_state : Settable wake_state :=
  fun r => mkWakeState (next r) (usage r) (first r) (lastp r) (pc r) (others r) (history r).

(** Heads as WAKE_Q declares them, no task queued anywhere. *)
Definition wake_init : wake_state :=
  mkWakeState (fun _ => NULL) (fun _ => 1) (fun _ => WAKE_Q_TAIL) (fun _ => at_first)
    (fun _ => Outside) (fun _ => 1) [].

(** ** The two functions, an action at a time *)

Definition get_task_struct (t : Z) (s : wake_state) : wake_state := s <| usage ::= alter Z.succ t |>.
Definition put_task_struct (t : Z) (s : wake_state) : wake_state := s <| usage ::= alter Z.pred t |>.

(** [*head->lastp = node]. *)
Definition store_lastp (c : Z) (node : wake_q_ptr) (s : wake_state) : wake_state :=
  match lastp s c with
  | at_first => s <| first ::= <[c := node]> |>
  | at_next t => s <| next ::= <[t := node]> |>
  end.

(** The action of [wake_q_add] at which context [c] is. *)
Definition wake_q_add (c : Z) (s : wake_state) : wake_state :=
  match pc s c with
  | AddGrab t =>
      let s1 := s <| history ::= cons (Request t) |> in
      if decide (next s t = NULL)
      then s1 <| next ::= <[t := WAKE_Q_TAIL]> |> <| pc ::= <[c := AddGet t]> |>
      else s1 <| pc ::= <[c := Outside]> |>
  | AddGet t => get_task_struct t s <| pc ::= <[c := AddLink t]> |>
  | AddLink t => store_lastp c (node_of t) s <| pc ::= <[c := AddLast t]> |>
  | AddLast t => s <| lastp ::= <[c := at_next t]> |> <| pc ::= <[c := Outside]> |>
  | _ => s
  end.

(** The action of [wake_up_q] at which context [c] is.  The call of
    [wake_up_process] is an event of the history. *)
Definition wake_up_q (c : Z) (s : wake_state) : wake_state :=
  match pc s c with
  | WakeFirst => s <| pc ::= <[c := WakeNext (first s c)]> |>
  | WakeNext WAKE_Q_TAIL => s <| pc ::= <[c := Finished]> |>
  | WakeNext NULL => s <| pc ::= <[c := Oops]> |>
  | WakeNext (node_of t) => s <| pc ::= <[c := WakeClear t (next s t)]> |>
  | WakeClear t node => s <| next ::= <[t := NULL]> |> <| pc ::= <[c := WakeCall t node]> |>
  | WakeCall t node => s <| history ::= cons (Wake t) |> <| pc ::= <[c := WakePut t node]> |>
  | WakePut t node => put_task_struct t s <| pc ::= <[c := WakeNext node]> |>
  | _ => s
  end.

(** A context is inside one of the two at a time. *)
Definition advance (c : Z) (s : wake_state) : wake_state :=
  match pc s c with
  | AddGrab _ | AddGet _ | AddLink _ | AddLast _ => wake_q_add c s
  | _ => wake_up_q c s
  end.

(** ** Interleaving

    The contexts [cs] call the functions; a head is not used again after
    [wake_up_q] unless it is initialised.  Other parts of the kernel take and
    drop references, but somebody holds one on the task passed to [wake_q_add] from
    the call until the queue has its own, as the function asks of its callers. *)

(** Context [c] is inside [wake_q_add] for [t] and has not yet taken a reference. *)
Definition unreferenced (s : wake_state) (c t : Z) : Prop := pc s c = AddGrab t \/ pc s c = AddGet t.
#[export] Instance unreferenced_dec s c t : Decision (unreferenced s c t).
Proof. unfold unreferenced. apply _. Defined.

Inductive wake_label := Run (c : Z) | Call (c : Z) | Elsewhere.
#[export] Instance wake_label_eq_dec : EqDecision wake_label.
Proof. solve_decision. Defined.

Inductive wake_step (cs : list Z) : wake_label -> wake_state -> wake_state -> Prop :=
  | step_run c s : c ∈ cs -> wake_step cs (Run c) s (advance c s)
  | step_call_add c t s : c ∈ cs -> pc s c = Outside -> 0 < others s t ->
      wake_step cs (Call c) s (s <| pc ::= <[c := AddGrab t]> |>)
  | step_call_wake c s : c ∈ cs -> pc s c = Outside ->
      wake_step cs (Call c) s (s <| pc ::= <[c := WakeFirst]> |>)
  | step_new_head c s : c ∈ cs -> pc s c = Finished ->
      wake_step cs (Call c) s (s <| first ::= <[c := WAKE_Q_TAIL]> |> <| lastp ::= <[c := at_first]> |>
                                 <| pc ::= <[c := Outside]> |>)
  | step_get t s :
      wake_step cs Elsewhere s (get_task_struct t s <| others ::= alter Z.succ t |>)
  | step_put t s : 0 < others s t -> (forall c, c ∈ cs -> unreferenced s c t -> 1 < others s t) ->
      wake_step cs Elsewhere s (put_task_struct t s <| others ::= alter Z.pred t |>).

Inductive wake_run (cs : list Z) : list wake_label -> wake_state -> wake_state -> Prop :=
  | run_nil s : wake_run cs [] s s
  | run_cons lab labs s s1 s2 : wake_step cs lab s s1 -> wake_run cs labs s1 s2 ->
      wake_run cs (lab :: labs) s s2.

(** ** Lists in memory *)

(** The nodes of the tasks [l], from [p] on, ended by the tail mark. *)
Fixpoint linked (nx : Z -> wake_q_ptr) (p : wake_q_ptr) (l : list Z) : Prop :=
  match l with
  | [] => p = WAKE_Q_TAIL
  | t :: l => p = node_of t /\ linked nx (nx t) l
  end.

Definition last_loc (l : list Z) : wake_q_loc :=
  match last l with Some t => at_next t | None => at_first end.

Lemma linked_frame nx nx' p l : (forall t, t ∈ l -> nx' t = nx t) -> linked nx p l -> linked nx' p l.
Proof.
  revert p. induction l as [|t l IH]; intros p Hf Hl; [done|]. destruct Hl as [-> Hl].
  split; [done|]. rewrite Hf by set_solver. apply IH; [set_solver|done].
Qed.

Lemma linked_set nx t p0 p l : t ∉ l -> linked nx p l -> linked (<[t := p0]> nx) p l.
Proof. intros Ht. apply linked_frame. intros u Hu. apply fn_lookup_insert_ne. set_solver. Qed.

(** Hanging a node that ends in the tail mark behind the last one. *)
Lemma linked_snoc nx p l x t : NoDup (l ++ [x; t]) -> nx t = WAKE_Q_TAIL ->
  linked nx p (l ++ [x]) -> linked (<[x := node_of t]> nx) p (l ++ [x; t]).
Proof.
  revert p. induction l as [|y l IH]; intros p Hnd Ht Hl; cbn in Hnd |- *.
  - destruct Hl as [-> _]. rewrite fn_lookup_insert. split_and!; [done..|].
    rewrite fn_lookup_insert_ne; [done|]. apply NoDup_cons in Hnd as [Hx _]. set_solver.
  - destruct Hl as [-> Hl]. apply NoDup_cons in Hnd as [Hy Hnd].
    split; [done|]. rewrite fn_lookup_insert_ne by set_solver. by apply IH.
Qed.

Lemma last_loc_snoc l x : last_loc (l ++ [x]) = at_next x.
Proof. unfold last_loc. by rewrite last_snoc. Qed.

(** ** The invariant

    [q] gives, for each context, the tasks whose nodes it owns, in the order in
    which it will wake them.  How memory reflects this depends on where the
    context is. *)

Definition shape (s : wake_state) (c : Z) (l : list Z) : Prop :=
  match pc s c with
  | Outside | AddGrab _ | WakeFirst => linked (next s) (first s c) l /\ lastp s c = last_loc l
  | AddGet t | AddLink t => exists l0, l = l0 ++ [t] /\ linked (next s) (first s c) l0 /\
      lastp s c = last_loc l0 /\ next s t = WAKE_Q_TAIL
  | AddLast t => exists l0, l = l0 ++ [t] /\ linked (next s) (first s c) l
  | WakeNext node | WakeCall _ node | WakePut _ node => linked (next s) node l
  | WakeClear t node => exists l0, l = t :: l0 /\ linked (next s) node l0
  | Finished => l = []
  | Oops => False
  end.

(** How many references context [c] holds on [t]. *)
Definition held (p : wake_pc) (l : list Z) (t : Z) : Z :=
  (if decide (t ∈ l) then 1 else 0) +
  match p with
  | AddGet u => if decide (u = t) then -1 else 0
  | WakeCall u _ | WakePut u _ => if decide (u = t) then 1 else 0
  | _ => 0
  end.

(** A context that will wake [t]. *)
Definition will_wake (cs : list Z) (s : wake_state) (q : Z -> list Z) (t : Z) : Prop :=
  exists c, c ∈ cs /\ (t ∈ q c \/ exists node, pc s c = WakeCall t node).

Record wake_inv (cs : list Z) (s : wake_state) (q : Z -> list Z) : Prop := mkWakeInv {
  wi_nodup : forall c, NoDup (q c);
  wi_owner : forall c d t, t ∈ q c -> t ∈ q d -> c = d;
  wi_cs : forall c t, t ∈ q c -> c ∈ cs;
  wi_null : forall t, next s t = NULL <-> forall c, t ∉ q c;
  wi_shape : forall c, c ∈ cs -> shape s c (q c);
  wi_refs : forall t, usage s t = others s t + sum_of (fun c => held (pc s c) (q c) t) cs;
  wi_others : forall t, 0 <= others s t;
  wi_callers : forall c t, c ∈ cs -> unreferenced s c t -> 0 < others s t;
  wi_hist : forall l1 t l2, history s = l1 ++ Request t :: l2 -> Wake t ∈ l1 \/ will_wake cs s q t }.

(** What an action of context [c] does to the tasks it owns. *)
Definition owned (c : Z) (s : wake_state) (q : Z -> list Z) : Z -> list Z :=
  match pc s c with
  | AddGrab t => if decide (next s t = NULL) then <[c := q c ++ [t]]> q else q
  | WakeClear t _ => <[c := tail (q c)]> q
  | _ => q
  end.

Lemma shape_frame s s' c l :
  pc s' c = pc s c -> first s' c = first s c -> lastp s' c = lastp s c ->
  (forall t, t ∈ l -> next s' t = next s t) -> shape s c l -> shape s' c l.
Proof.
  unfold shape. intros -> -> -> Hn.
  destruct (pc s c); try done;
    try (intros [? ?]; split; [|done]; by eapply linked_frame);
    try (by apply linked_frame);
    intros (l0 & -> & H); exists l0; (split; [done|]).
  - destruct H as (H1 & ? & ?). split_and!; [|done|rewrite Hn by set_solver; done].
    eapply linked_frame; [|done]. intros; apply Hn; set_solver.
  - destruct H as (H1 & ? & ?). split_and!; [|done|rewrite Hn by set_solver; done].
    eapply linked_frame; [|done]. intros; apply Hn; set_solver.
  - by eapply linked_frame.
  - eapply linked_frame; [|done]. intros; apply Hn; set_solver.
Qed.

(** The references when one context changes what it holds. *)
Lemma refs_upd cs c (f g : Z -> Z) d : NoDup cs -> c ∈ cs ->
  (forall x, x <> c -> g x = f x) -> g c = f c + d -> sum_of g cs = sum_of f cs + d.
Proof. intros Hnd Hc Hfg Hg. rewrite (sum_of_upd f g cs c) by done. lia. Qed.

(** The history when one event is added at its head. *)
Lemma hist_cons (P Q : Z -> Prop) e h :
  (forall l1 t l2, h = l1 ++ Request t :: l2 -> Wake t ∈ l1 \/ P t) ->
  (forall t, P t -> e = Wake t \/ Q t) -> (forall t, e = Request t -> Q t) ->
  forall l1 t l2, e :: h = l1 ++ Request t :: l2 -> Wake t ∈ l1 \/ Q t.
Proof.
  intros Hh HP He l1 t l2 E. destruct l1 as [|e1 l1]; injection E as -> E.
  - right. by apply He.
  - destruct (Hh _ _ _ E) as [?|[->|?]%HP]; [left; set_solver|left; set_solver|by right].
Qed.

Section Preserved.
Context (cs : list Z) (Hcs : NoDup cs).

(** An action of context [c] that leaves the others alone. *)
Record local_step (c : Z) (s s' : wake_state) (q q' : Z -> list Z) : Prop := mkLocalStep {
  ls_pc : forall d, d <> c -> pc s' d = pc s d;
  ls_first : forall d, d <> c -> first s' d = first s d;
  ls_lastp : forall d, d <> c -> lastp s' d = lastp s d;
  ls_q : forall d, d <> c -> q' d = q d;
  ls_next : forall d t, d <> c -> t ∈ q d -> next s' t = next s t;
  ls_nodup : NoDup (q' c);
  ls_new : forall t, t ∈ q' c -> t ∈ q c \/ forall d, t ∉ q d;
  ls_null : forall t, next s' t = NULL <-> forall d, t ∉ q' d;
  ls_shape : shape s' c (q' c);
  ls_others : others s' = others s;
  ls_caller : forall t, unreferenced s' c t -> 0 < others s t;
  ls_refs : forall t, usage s' t = usage s t + (held (pc s' c) (q' c) t - held (pc s c) (q c) t) }.

Lemma local_step_inv c s s' q q' : c ∈ cs -> wake_inv cs s q -> local_step c s s' q q' ->
  (forall l1 t l2, history s' = l1 ++ Request t :: l2 -> Wake t ∈ l1 \/ will_wake cs s' q' t) ->
  wake_inv cs s' q'.
Proof using Hcs.
  intros Hc [I1 I2 I3 I4 I5 I6 I7 I9 I8] [L1 L2 L3 L4 L5 L6 L7 L8 L9 L10 L12 L11] Hh. split; try done.
  - intros d. destruct (decide (d = c)) as [->|Hd]; [done|]. by rewrite L4.
  - intros d e t Hd He. destruct (decide (d = c)) as [->|Hdc], (decide (e = c)) as [->|Hec].
    + done.
    + rewrite L4 in He by done. destruct (L7 t Hd) as [H|H]; [by eapply I2|by destruct (H e)].
    + rewrite L4 in Hd by done. destruct (L7 t He) as [H|H]; [by eapply I2|by destruct (H d)].
    + rewrite L4 in Hd, He by done. by eapply I2.
  - intros d t Hd. destruct (decide (d = c)) as [->|Hdc]; [done|]. rewrite L4 in Hd by done. by eapply I3.
  - intros d Hd. destruct (decide (d = c)) as [->|Hdc]; [done|]. rewrite L4 by done.
    apply (shape_frame s); auto. intros t Ht. by apply (L5 d).
  - intros t. rewrite L11, I6, L10.
    rewrite (refs_upd cs c (fun d => held (pc s d) (q d) t) (fun d => held (pc s' d) (q' d) t)
               (held (pc s' c) (q' c) t - held (pc s c) (q c) t)); [lia|done|done| |lia].
    intros d Hd. by rewrite L1, L4.
  - by rewrite L10.
  - intros d t Hd Hu. rewrite L10. destruct (decide (d = c)) as [->|Hdc]; [by apply L12|].
    apply (I9 d); [done|]. unfold unreferenced in *. by rewrite L1 in Hu.
Qed.

(** An action that does not touch who owns what. *)
Lemma same_owner_inv c s s' q : c ∈ cs -> wake_inv cs s q ->
  (forall d, d <> c -> pc s' d = pc s d /\ first s' d = first s d /\ lastp s' d = lastp s d) ->
  (forall d t, d <> c -> t ∈ q d -> next s' t = next s t) ->
  (forall t, next s' t = NULL <-> next s t = NULL) -> shape s' c (q c) -> others s' = others s ->
  (forall t, unreferenced s' c t -> 0 < others s t) ->
  (forall t, usage s' t = usage s t + (held (pc s' c) (q c) t - held (pc s c) (q c) t)) ->
  (forall l1 t l2, history s' = l1 ++ Request t :: l2 -> Wake t ∈ l1 \/ will_wake cs s' q t) ->
  wake_inv cs s' q.
Proof using Hcs.
  intros Hc I Hd Hn Hz Hs Ho Hu Hr Hh. eapply local_step_inv; [exact Hc|exact I| |done].
  split; try done; try (intros; by apply Hd); try (intros; by left).
  - apply I.
  - intros t. rewrite Hz. apply I.
Qed.

(** ... and adds no event, and is not the call of [wake_up_process]. *)
Lemma same_hist c s s' q : wake_inv cs s q -> history s' = history s ->
  (forall d, d <> c -> pc s' d = pc s d) -> (forall t node, pc s c <> WakeCall t node) ->
  forall l1 t l2, history s' = l1 ++ Request t :: l2 -> Wake t ∈ l1 \/ will_wake cs s' q t.
Proof.
  intros I -> Hpc Hno l1 t l2 E. destruct (wi_hist _ _ _ I _ _ _ E) as [?|(d & Hd & Hw)]; [by left|right].
  exists d. split; [done|]. destruct Hw as [?|[node Hw]]; [by left|right; exists node].
  rewrite Hpc; [done|]. intros ->. by eapply Hno.
Qed.

End Preserved.

(** Looks up functions that were updated at a point. *)
Ltac at_point := repeat first
  [ rewrite fn_lookup_insert | rewrite fn_lookup_insert_ne by done
  | rewrite fn_lookup_alter | rewrite fn_lookup_alter_ne by done ].

(** The context is not about to take a reference, unless it was. *)
Ltac caller :=
  match goal with
  | I : wake_inv ?cs ?s _, Hc : ?c ∈ ?cs |- forall t, unreferenced _ _ t -> 0 < others ?s t =>
      let u := fresh "u" in let Hu := fresh "Hu" in
      intros u Hu; apply (wi_callers _ _ _ I c u Hc); revert Hu;
      unfold unreferenced; cbn; at_point; intros [?|?]; simplify_eq; by auto
  end.

Section Actions.
Context (cs : list Z) (Hcs : NoDup cs) (c : Z) (Hc : c ∈ cs) (s : wake_state) (q : Z -> list Z)
  (I : wake_inv cs s q).

(** An action that only moves [c] on. *)
Lemma move_inv p : shape (s <| pc ::= <[c := p]> |>) c (q c) ->
  (forall t, p = AddGrab t \/ p = AddGet t -> 0 < others s t) ->
  (forall t, held p (q c) t = held (pc s c) (q c) t) -> (forall t node, pc s c <> WakeCall t node) ->
  wake_inv cs (s <| pc ::= <[c := p]> |>) q.
Proof using I Hcs Hc.
  intros Hs Hu Hh Hw. apply (same_owner_inv cs Hcs c s); try done; try caller.
  - intros d Hd. cbn. by at_point.
  - intros t. unfold unreferenced at 1. cbn. at_point. apply Hu.
  - intros t. cbn. at_point. rewrite Hh. lia.
  - apply (same_hist cs c s); try done. intros d Hd. cbn. by at_point.
Qed.

(** The [cmpxchg]: the node of a task that nobody owns is taken. *)
Lemma grab_inv t : pc s c = AddGrab t -> wake_inv cs (advance c s) (owned c s q).
Proof using I Hcs Hc.
  intros Hpc. pose proof (wi_shape _ _ _ I c Hc) as Hs. unfold shape in Hs. rewrite Hpc in Hs.
  destruct Hs as [Hl Hlast].
  unfold advance, wake_q_add, owned. rewrite Hpc. case_decide as Hnull.
  - pose proof (proj1 (wi_null _ _ _ I t) Hnull) as Hfree.
    eapply (local_step_inv cs Hcs c s); [done|done| |].
    + split; try caller; cbn; try (intros; by at_point).
      * intros d u Hd Hu. rewrite fn_lookup_insert_ne; [done|]. intros <-. by destruct (Hfree d).
      * at_point. apply NoDup_app. split_and!; [apply I|intros u Hu; specialize (Hfree c); set_solver|].
        apply NoDup_singleton.
      * intros u. at_point. intros [?|Hu]%elem_of_app; [by left|right].
        by apply list_elem_of_singleton in Hu as ->.
      * intros u. destruct (decide (u = t)) as [->|Hu]; at_point.
        -- split; [done|]. intros H. destruct (H c). at_point. set_solver.
        -- rewrite (wi_null _ _ _ I). apply forall_proper. intros d.
           destruct (decide (d = c)) as [->|Hd]; at_point; set_solver.
      * unfold shape. cbn. at_point. exists (q c). split_and!; [done| |done|done].
        by apply linked_set.
      * intros u. at_point. unfold held. rewrite Hpc. specialize (Hfree c).
        destruct (decide (t = u)) as [->|Hu].
        -- rewrite decide_True by set_solver. rewrite decide_False by done. lia.
        -- destruct (decide (u ∈ q c)) as [Hin|Hin];
             [rewrite decide_True by set_solver|rewrite decide_False by set_solver]; lia.
    + cbn. eapply hist_cons; [apply (wi_hist _ _ _ I)| |].
      * intros u (d & Hd & Hw). right. exists d. split; [done|]. cbn.
        destruct (decide (d = c)) as [->|Hdc]; at_point; [|done]. left.
        rewrite Hpc in Hw. destruct Hw as [Hw|[node Hw]]; [set_solver|done].
      * intros u [= <-]. exists c. split; [done|]. left. at_point. set_solver.
  - apply (same_owner_inv cs Hcs c s); try done; try caller; cbn.
    + intros d Hd. by at_point.
    + unfold shape. cbn. by at_point.
    + intros u. at_point. rewrite Hpc. unfold held. lia.
    + eapply hist_cons; [apply (wi_hist _ _ _ I)| |].
      * intros u (d & Hd & Hw). right. exists d. split; [done|]. cbn.
        destruct (decide (d = c)) as [->|Hdc]; at_point; [|done].
        rewrite Hpc in Hw. destruct Hw as [Hw|[node Hw]]; [by left|done].
      * intros u [= <-]. assert (Hx : ~ forall d, t ∉ q d) by (by rewrite <- (wi_null _ _ _ I)).
        destruct (decide (Exists (fun d => t ∈ q d) cs)) as [(d & Hd & Ht)%Exists_exists|Hno].
        -- exists d. split; [done|by left].
        -- destruct Hx. intros d Ht. apply Hno, Exists_exists. exists d.
           split; [by eapply I|done].
Qed.

(** The other actions of [wake_q_add]: the reference, the link, the last node. *)
Lemma get_inv t : pc s c = AddGet t -> wake_inv cs (advance c s) q.
Proof using I Hcs Hc.
  intros Hpc. pose proof (wi_shape _ _ _ I c Hc) as Hs. unfold shape in Hs. rewrite Hpc in Hs.
  unfold advance, wake_q_add, get_task_struct. rewrite Hpc. apply (same_owner_inv cs Hcs c s); try done; try caller.
  - intros d Hd. cbn. by at_point.
  - unfold shape. cbn. by at_point.
  - intros u. cbn. at_point. rewrite Hpc. unfold held. destruct (decide (t = u)) as [->|Hu]; at_point; lia.
  - apply (same_hist cs c s); try done; [|by rewrite Hpc]. intros d Hd. cbn. by at_point.
Qed.

Lemma link_inv t : pc s c = AddLink t -> wake_inv cs (advance c s) q.
Proof using I Hcs Hc.
  intros Hpc. pose proof (wi_shape _ _ _ I c Hc) as Hs. pose proof (wi_nodup _ _ _ I c) as Hnd.
  unfold shape in Hs. rewrite Hpc in Hs. destruct Hs as (l0 & El & Hl & Hlast & Ht).
  unfold advance, wake_q_add, store_lastp. rewrite Hpc, Hlast.
  destruct l0 as [|x l0 _] using rev_ind; cbn [last_loc last].
  - apply (same_owner_inv cs Hcs c s); try done; try caller.
    + intros d Hd. cbn. by at_point.
    + unfold shape. cbn. at_point. exists []. by rewrite El.
    + intros u. cbn. at_point. rewrite Hpc. unfold held. lia.
    + apply (same_hist cs c s); try done; [|by rewrite Hpc]. intros d Hd. cbn. by at_point.
  - rewrite last_loc_snoc. rewrite El, <- app_assoc in Hnd. cbn in Hnd.
    assert (Hx : x ∈ q c) by (rewrite El; set_solver).
    apply (same_owner_inv cs Hcs c s); try done; try caller.
    + intros d Hd. cbn. by at_point.
    + intros d u Hd Hu. cbn. rewrite fn_lookup_insert_ne; [done|]. intros ->. by eapply Hd, I.
    + intros u. cbn. destruct (decide (u = x)) as [->|Hu]; at_point; [|done].
      rewrite (wi_null _ _ _ I). split; [done|]. intros H. by destruct (H c).
    + unfold shape. cbn. at_point. exists (l0 ++ [x]). split; [done|].
      rewrite El, <- app_assoc. cbn. by apply linked_snoc.
    + intros u. cbn. at_point. rewrite Hpc. unfold held. lia.
    + apply (same_hist cs c s); try done; [|by rewrite Hpc]. intros d Hd. cbn. by at_point.
Qed.

Lemma last_inv t : pc s c = AddLast t -> wake_inv cs (advance c s) q.
Proof using I Hcs Hc.
  intros Hpc. pose proof (wi_shape _ _ _ I c Hc) as Hs. unfold shape in Hs. rewrite Hpc in Hs.
  destruct Hs as (l0 & El & Hl).
  unfold advance, wake_q_add. rewrite Hpc. apply (same_owner_inv cs Hcs c s); try done; try caller.
  - intros d Hd. cbn. by at_point.
  - unfold shape. cbn. at_point. split; [done|]. by rewrite El, last_loc_snoc.
  - intros u. cbn. at_point. rewrite Hpc. unfold held. lia.
  - apply (same_hist cs c s); try done; [|by rewrite Hpc]. intros d Hd. cbn. by at_point.
Qed.

(** The actions of [wake_up_q].  Clearing the node gives the task up. *)
Lemma clear_inv t node : pc s c = WakeClear t node -> wake_inv cs (advance c s) (owned c s q).
Proof using I Hcs Hc.
  intros Hpc. pose proof (wi_shape _ _ _ I c Hc) as Hs. pose proof (wi_nodup _ _ _ I c) as Hnd.
  unfold shape in Hs. rewrite Hpc in Hs. destruct Hs as (l0 & El & Hl).
  rewrite El in Hnd. apply NoDup_cons in Hnd as [Htl Hnd].
  unfold advance, wake_up_q, owned. rewrite Hpc, El. cbn [tail].
  assert (Hown : forall d, t ∈ q d -> d = c) by (intros d Hd; eapply I; [done|rewrite El; set_solver]).
  eapply (local_step_inv cs Hcs c s); [done|done| |].
  - split; try caller; cbn; try (intros; by at_point).
    + intros d u Hd Hu. rewrite fn_lookup_insert_ne; [done|]. intros <-. by apply Hd, Hown.
    + intros u. at_point. intros Hu. left. rewrite El. set_solver.
    + intros u. destruct (decide (u = t)) as [->|Hu]; at_point.
      * split; [|done]. intros _ d. destruct (decide (d = c)) as [->|Hd]; at_point; [done|].
        intros H. by apply Hd, Hown.
      * rewrite (wi_null _ _ _ I). apply forall_proper. intros d.
        destruct (decide (d = c)) as [->|Hd]; at_point; [|done]. rewrite El. set_solver.
    + unfold shape. cbn. at_point. by apply linked_set.
    + intros u. at_point. unfold held. rewrite Hpc, El. destruct (decide (t = u)) as [->|Hu].
      * rewrite (decide_False (P := u ∈ l0)), (decide_True (P := u ∈ u :: l0)) by set_solver. lia.
      * destruct (decide (u ∈ l0)) as [Hin|Hin];
          [rewrite decide_True by set_solver|rewrite decide_False by set_solver]; lia.
  - cbn. intros l1 u l2 E. destruct (wi_hist _ _ _ I _ _ _ E) as [?|(d & Hd & Hw)]; [by left|right].
    exists d. split; [done|]. cbn. destruct (decide (d = c)) as [->|Hdc]; at_point; [|done].
    rewrite Hpc, El in Hw. destruct Hw as [[->|?]%elem_of_cons|[? ?]]; [right; by eexists|by left|done].
Qed.

Lemma call_inv t node : pc s c = WakeCall t node -> wake_inv cs (advance c s) q.
Proof using I Hcs Hc.
  intros Hpc. pose proof (wi_shape _ _ _ I c Hc) as Hs. unfold shape in Hs. rewrite Hpc in Hs.
  unfold advance, wake_up_q. rewrite Hpc. apply (same_owner_inv cs Hcs c s); try done; try caller.
  - intros d Hd. cbn. by at_point.
  - unfold shape. cbn. by at_point.
  - intros u. cbn. at_point. rewrite Hpc. unfold held. lia.
  - cbn. eapply hist_cons; [apply (wi_hist _ _ _ I)| |done].
    intros u (d & Hd & Hw). destruct (decide (d = c)) as [->|Hdc].
    + rewrite Hpc in Hw. destruct Hw as [Hw|[? [= -> ?]]]; [right; exists c; by split; [|left]|by left].
    + right. exists d. split; [done|]. cbn. by at_point.
Qed.

Lemma put_inv t node : pc s c = WakePut t node -> wake_inv cs (advance c s) q.
Proof using I Hcs Hc.
  intros Hpc. pose proof (wi_shape _ _ _ I c Hc) as Hs. unfold shape in Hs. rewrite Hpc in Hs.
  unfold advance, wake_up_q, put_task_struct. rewrite Hpc. apply (same_owner_inv cs Hcs c s); try done; try caller.
  - intros d Hd. cbn. by at_point.
  - unfold shape. cbn. by at_point.
  - intros u. cbn. at_point. rewrite Hpc. unfold held. destruct (decide (t = u)) as [->|Hu]; at_point; lia.
  - apply (same_hist cs c s); try done; [|by rewrite Hpc]. intros d Hd. cbn. by at_point.
Qed.

(** Every action keeps the invariant. *)
Lemma advance_inv : wake_inv cs (advance c s) (owned c s q).
Proof using I Hcs Hc.
  pose proof (wi_shape _ _ _ I c Hc) as Hs. unfold shape in Hs.
  destruct (pc s c) as [|t|t|t|t| |n|t n|t n|t n| |] eqn:Hpc;
    [|by eapply grab_inv|unfold owned; rewrite Hpc..].
  - unfold advance, wake_up_q, owned. by rewrite Hpc.
  - by eapply get_inv.
  - by eapply link_inv.
  - by eapply last_inv.
  - unfold advance, wake_up_q. rewrite Hpc. apply move_inv; [|by intros ? [?|?]|by rewrite Hpc|by rewrite Hpc].
    unfold shape. cbn. at_point. apply Hs.
  - unfold advance, wake_up_q. rewrite Hpc. destruct n as [| |t]; destruct (q c) as [|u l] eqn:El; try done.
    + by destruct Hs.
    + apply move_inv; [|by intros ? [?|?]|by rewrite Hpc|by rewrite Hpc]. unfold shape. cbn. by at_point.
    + by destruct Hs.
    + destruct Hs as [[= <-] Hs]. apply move_inv; [|by intros ? [?|?]|by rewrite Hpc|by rewrite Hpc].
      unfold shape. cbn. at_point. by exists l.
  - pose proof (clear_inv _ _ Hpc) as H. unfold owned in H. by rewrite Hpc in H.
  - by eapply call_inv.
  - by eapply put_inv.
  - unfold advance, wake_up_q. by rewrite Hpc.
  - done.
Qed.
End Actions.

(** ** Every interleaving *)

Lemma wake_inv_init cs : wake_inv cs wake_init (fun _ => []).
Proof.
  split; cbn; try done; try set_solver.
  - intros _. constructor.
  - intros t. rewrite sum_of_zero; [done|]. intros c _. unfold held. by rewrite decide_False by set_solver.
  - intros l1 t l2 E. by destruct l1.
Qed.

(** References taken and dropped elsewhere. *)
Lemma elsewhere_inv cs s q t (f : Z -> Z) : wake_inv cs s q -> 0 <= f (others s t) ->
  (forall c, c ∈ cs -> unreferenced s c t -> 0 < f (others s t)) ->
  f (usage s t) - usage s t = f (others s t) - others s t ->
  wake_inv cs (s <| usage ::= alter f t |> <| others ::= alter f t |>) q.
Proof.
  intros [I1 I2 I3 I4 I5 I6 I7 I9 I8] Hf Hu Hd. split; try done; cbn.
  - intros u. specialize (I6 u). destruct (decide (t = u)) as [->|Hne]; at_point; [|done]. lia.
  - intros u. destruct (decide (t = u)) as [->|Hne]; by at_point.
  - intros c u Hc Hcu. destruct (decide (t = u)) as [->|Hne]; at_point; [by apply (Hu c)|by apply (I9 c)].
Qed.

(** The tasks each context owns after a step. *)
Definition owned_after (lab : wake_label) (s : wake_state) (q : Z -> list Z) : Z -> list Z :=
  match lab with Run c => owned c s q | _ => q end.

Lemma wake_step_inv cs lab s s' q : NoDup cs -> wake_step cs lab s s' -> wake_inv cs s q ->
  wake_inv cs s' (owned_after lab s q).
Proof.
  intros Hcs Hs I. destruct Hs as [c s Hc|c t s Hc Hpc Ho|c s Hc Hpc|c s Hc Hpc|t s|t s Ho Hu]; cbn [owned_after].
  - by apply advance_inv.
  - pose proof (wi_shape _ _ _ I c Hc) as Hs. unfold shape in Hs. rewrite Hpc in Hs.
    apply move_inv; try done; try (by rewrite Hpc); [unfold shape; cbn; by at_point|].
    intros u [?|?]; by simplify_eq.
  - pose proof (wi_shape _ _ _ I c Hc) as Hs. unfold shape in Hs. rewrite Hpc in Hs.
    apply move_inv; try done; try (by rewrite Hpc); [unfold shape; cbn; by at_point|].
    intros u [?|?]; by simplify_eq.
  - pose proof (wi_shape _ _ _ I c Hc) as Hs. unfold shape in Hs. rewrite Hpc in Hs.
    apply (same_owner_inv cs Hcs c s); try done; try caller.
    + intros d Hd. cbn. by at_point.
    + unfold shape. cbn. at_point. by rewrite Hs.
    + intros u. cbn. at_point. rewrite Hpc. unfold held. lia.
    + apply (same_hist cs c s); try done; [|by rewrite Hpc]. intros d Hd. cbn. by at_point.
  - pose proof (wi_others _ _ _ I t). apply elsewhere_inv; [done|lia|lia|lia].
  - apply elsewhere_inv; [done|lia| |lia]. intros c Hc Hcu. specialize (Hu c Hc Hcu). lia.
Qed.

Lemma wake_run_inv cs labs s s' q : NoDup cs -> wake_run cs labs s s' -> wake_inv cs s q ->
  exists q', wake_inv cs s' q'.
Proof.
  intros Hcs Hr. revert q. induction Hr as [s|lab labs s s1 s2 H1 _ IH]; intros q I; [by exists q|].
  eapply IH, wake_step_inv; done.
Qed.

(** The tasks whose memory the next action of [c] reads or writes, or which it
    hands to [wake_up_process]. *)
Definition touches (s : wake_state) (c : Z) : list Z :=
  match pc s c with
  | AddGrab t | AddGet t => [t]
  | AddLink _ => match lastp s c with at_next t => [t] | at_first => [] end
  | WakeNext (node_of t) => [t]
  | WakeClear t _ | WakeCall t _ | WakePut t _ => [t]
  | _ => []
  end.

(** No context holds less than nothing. *)
Lemma held_nonneg cs s q c t : wake_inv cs s q -> c ∈ cs -> 0 <= held (pc s c) (q c) t.
Proof.
  intros I Hc. pose proof (wi_shape _ _ _ I c Hc) as Hs. unfold shape in Hs. unfold held.
  destruct (pc s c) as [| |u| | | | | | | | |] eqn:E; cases; try lia.
  destruct Hs as (l0 & El & _). destruct (decide (u = t)) as [->|]; [|lia]. destruct n. rewrite El. set_solver.
Qed.

(** A reference keeps the task, whoever holds it. *)
Lemma others_alive cs s q t : wake_inv cs s q -> others s t <= usage s t.
Proof.
  intros I. rewrite (wi_refs _ _ _ I).
  pose proof (sum_of_nonneg (fun d => held (pc s d) (q d) t) cs) as H0. cbn in H0.
  enough (0 <= sum_of (fun d => held (pc s d) (q d) t) cs) by lia. apply H0. intros d Hd. by eapply held_nonneg.
Qed.

Lemma held_alive cs s q c t : NoDup cs -> wake_inv cs s q -> c ∈ cs -> 0 < held (pc s c) (q c) t ->
  0 < usage s t.
Proof.
  intros Hcs I Hc Hh. rewrite (wi_refs _ _ _ I). pose proof (wi_others _ _ _ I t).
  pose proof (sum_of_le (fun d => held (pc s d) (q d) t) cs c) as H0. cbn in H0.
  enough (held (pc s c) (q c) t <= sum_of (fun d => held (pc s d) (q d) t) cs) by lia.
  apply H0; [|done]. intros d Hd. by eapply held_nonneg.
Qed.

Lemma touches_alive cs s q c t : NoDup cs -> wake_inv cs s q -> c ∈ cs -> t ∈ touches s c -> 0 < usage s t.
Proof.
  intros Hcs I Hc Ht. unfold touches in Ht.
  destruct (decide (unreferenced s c t)) as [Hu|Hu].
  { pose proof (wi_callers _ _ _ I c t Hc Hu). pose proof (others_alive cs s q t I). lia. }
  apply (held_alive cs s q c); [done..|].
  pose proof (wi_shape _ _ _ I c Hc) as Hs. unfold shape in Hs. unfold held. unfold unreferenced in Hu.
  destruct (pc s c) as [|u|u|u| | |[| |u]|u n|u n|u n| |] eqn:E; try set_solver.
  - destruct Hs as (l0 & El & _ & Hl & _). rewrite Hl in Ht.
    destruct l0 as [|x l0 _] using rev_ind; cbn in Ht; [set_solver|]. rewrite last_loc_snoc in Ht.
    rewrite decide_True; [lia|]. rewrite El. set_solver.
  - destruct (q c) as [|x l]; [done|]. destruct Hs as [[= ->] _]. rewrite decide_True by set_solver. lia.
  - destruct Hs as (l0 & -> & _). rewrite decide_True by set_solver. lia.
  - rewrite (decide_True (P := u = t)) by set_solver. cases; lia.
  - rewrite (decide_True (P := u = t)) by set_solver. cases; lia.
Qed.

(** Memory and program counter say that context [c] is going to call
    [wake_up_process] for [t], if it runs on to the end of its [wake_up_q]: [t] is
    in the list that [wake_up_q] walks or is about to be linked into it, or the
    call for [t] is next. *)
Definition owns (s : wake_state) (c t : Z) : Prop :=
  match pc s c with
  | Outside | AddGrab _ | WakeFirst | AddLast _ => exists l, linked (next s) (first s c) l /\ t ∈ l
  | AddGet u | AddLink u => t = u \/ exists l, linked (next s) (first s c) l /\ t ∈ l
  | WakeNext node | WakePut _ node => exists l, linked (next s) node l /\ t ∈ l
  | WakeClear u node | WakeCall u node => t = u \/ exists l, linked (next s) node l /\ t ∈ l
  | Finished | Oops => False
  end.

Lemma will_wake_owns cs s q t : wake_inv cs s q -> will_wake cs s q t -> exists c, c ∈ cs /\ owns s c t.
Proof.
  intros I (c & Hc & Hw). exists c. split; [done|].
  pose proof (wi_shape _ _ _ I c Hc) as Hs. unfold shape in Hs. unfold owns.
  destruct Hw as [Hq|[node Hw]]; [|rewrite Hw; by left].
  destruct (pc s c) as [|u|u|u|u| |n|u n|u n|u n| |] eqn:E; try (by exists (q c));
    try (exists (q c); by destruct Hs).
  - destruct Hs as (l0 & El & Hl & _). rewrite El in Hq. apply elem_of_app in Hq as [Hq|Hq]; [|left; set_solver].
    right. by exists l0.
  - destruct Hs as (l0 & El & Hl & _). rewrite El in Hq. apply elem_of_app in Hq as [Hq|Hq]; [|left; set_solver].
    right. by exists l0.
  - destruct Hs as (l0 & El & Hl). by exists (q c).
  - destruct Hs as (l0 & El & Hl). rewrite El in Hq. apply elem_of_cons in Hq as [->|Hq]; [by left|].
    right. by exists l0.
  - right. by exists (q c).
  - rewrite Hs in Hq. set_solver.
  - done.
Qed.

(** When all heads are used up, nobody owns a node or holds a reference. *)
Lemma all_finished cs s q : wake_inv cs s q -> (forall c, c ∈ cs -> pc s c = Finished) ->
  (forall c, q c = []) /\ forall t, sum_of (fun c => held (pc s c) (q c) t) cs = 0.
Proof.
  intros I Hf. assert (Hq : forall c, q c = []).
  { intros c. destruct (q c) as [|t l] eqn:E; [done|].
    assert (Hc : c ∈ cs) by (apply (wi_cs _ _ _ I c t); rewrite E; set_solver).
    pose proof (wi_shape _ _ _ I c Hc) as Hs. unfold shape in Hs. rewrite Hf, E in Hs by done. done. }
  split; [done|]. intros t. apply sum_of_zero. intros c Hc. rewrite Hf, Hq by done.
  unfold held. by rewrite decide_False by set_solver.
Qed.

(** C7: However the calls of [wake_q_add] and [wake_up_q] of any number of contexts
    interleave, provided somebody holds a reference on a task while it is passed to
    [wake_q_add], no context follows a NULL node and every task whose memory is
    read or written has a reference at that moment; a task for which [wake_q_add]
    reached its cmpxchg has been woken since, or is in the list that some context
    has still to walk; and when all heads have been used up, every such task has
    been woken since the last request, can be queued again, and every reference
    taken has been dropped. *)
Theorem wake_q_no_lost_wakeup cs labs s : NoDup cs -> wake_run cs labs wake_init s ->
  (forall c, c ∈ cs -> pc s c <> Oops /\ forall t, t ∈ touches s c -> 0 < usage s t) /\
  (forall l1 t l2, history s = l1 ++ Request t :: l2 ->
     Wake t ∈ l1 \/ exists c, c ∈ cs /\ owns s c t) /\
  ((forall c, c ∈ cs -> pc s c = Finished) -> forall t,
     next s t = NULL /\ usage s t = others s t /\
     forall l1 l2, history s = l1 ++ Request t :: l2 -> Wake t ∈ l1).
Proof.
  intros Hcs Hr. destruct (wake_run_inv cs labs _ s _ Hcs Hr (wake_inv_init cs)) as [q I]. split_and!.
  - intros c Hc. split; [|intros t; by apply (touches_alive cs s q)].
    intros E. pose proof (wi_shape _ _ _ I c Hc) as Hs. unfold shape in Hs. by rewrite E in Hs.
  - intros l1 t l2 E. destruct (wi_hist _ _ _ I _ _ _ E) as [?|Hw]; [by left|right].
    by apply (will_wake_owns cs s q).
  - intros Hf t. destruct (all_finished _ _ _ I Hf) as [Hq Hsum]. split_and!.
    + apply (wi_null _ _ _ I). intros c. rewrite Hq. set_solver.
    + rewrite (wi_refs _ _ _ I), Hsum. lia.
    + intros l1 l2 E. destruct (wi_hist _ _ _ I _ _ _ E) as [?|(c & Hc & [Ht|[node Hw]])]; [done|..].
      * rewrite Hq in Ht. set_solver.
      * by rewrite Hf in Hw.
Qed.

(** ** [wake_up_q] ends *)

Definition waking (p : wake_pc) : Prop :=
  match p with
  | WakeFirst | WakeNext _ | WakeClear _ _ | WakeCall _ _ | WakePut _ _ | Finished => True
  | _ => False
  end.

(** The actions [wake_up_q] has left, and the tasks it has still to wake. *)
Definition actions_left (p : wake_pc) (l : list Z) : nat :=
  match p with
  | WakeFirst => 4 * length l + 2
  | WakeNext _ => 4 * length l + 1
  | WakeClear _ _ => 4 * length l
  | WakeCall _ _ => 4 * length l + 3
  | WakePut _ _ => 4 * length l + 2
  | _ => 0
  end%nat.

Definition to_wake (p : wake_pc) (l : list Z) : list Z :=
  match p with WakeCall t _ => t :: l | _ => l end.

(** The actions of [c] in a run. *)
Definition actions_of (c : Z) (labs : list wake_label) : nat :=
  length (filter (fun lab => lab = Run c) labs).

Lemma actions_of_cons c lab labs : actions_of c (lab :: labs) = (actions_of c [lab] + actions_of c labs)%nat.
Proof. unfold actions_of. rewrite (filter_app _ [lab] labs). apply length_app. Qed.

Lemma linked_inj nx p l l' : linked nx p l -> linked nx p l' -> l = l'.
Proof.
  revert p l'. induction l as [|t l IH]; intros p [|t' l'] H H'; cbn in *.
  - done.
  - destruct H' as [? _]. congruence.
  - destruct H as [? _]. congruence.
  - destruct H as [-> H], H' as [[= <-] H']. f_equal. by eapply IH.
Qed.

(** What a step does to a context that is waking: an action of its own uses up
    one of those left, and [d] are the tasks it wakes. *)
Lemma own_action cs c s q : c ∈ cs -> wake_inv cs s q -> waking (pc s c) ->
  exists d, waking (pc (advance c s) c) /\
    actions_left (pc (advance c s) c) (owned c s q c) = (actions_left (pc s c) (q c) - 1)%nat /\
    to_wake (pc s c) (q c) = d ++ to_wake (pc (advance c s) c) (owned c s q c) /\
    history (advance c s) = reverse (Wake <$> d) ++ history s.
Proof.
  intros Hc I Hw. pose proof (wi_shape _ _ _ I c Hc) as Hs. unfold shape in Hs.
  unfold advance, wake_up_q, owned.
  destruct (pc s c) as [| | | | | |n|t n|t n|t n| |] eqn:Hpc; try done.
  - exists []. cbn. at_point. cbn. split_and!; [done|lia|done|done].
  - destruct (q c) as [|u l] eqn:El; cbn in Hs.
    + subst n. exists []. cbn. by at_point.
    + destruct Hs as [-> Hs]. exists []. cbn. at_point. cbn. split_and!; [done|lia|done|done].
  - destruct Hs as (l0 & El & _). exists []. cbn. at_point. rewrite El. cbn. split_and!; [done|lia|done|done].
  - exists [t]. cbn. at_point. cbn. split_and!; [done|lia|done|done].
  - exists []. cbn. at_point. cbn. split_and!; [done|lia|done|done].
  - exists []. rewrite Hpc. by cbn.
Qed.

(** A step of someone else does not. *)
Lemma advance_pc_ne c d s : d <> c -> pc (advance d s) c = pc s c.
Proof.
  intros Hd. unfold advance, wake_q_add, wake_up_q, store_lastp, get_task_struct, put_task_struct.
  repeat case_match; cbn; by at_point.
Qed.

Lemma owned_ne c d s q : d <> c -> owned d s q c = q c.
Proof. intros Hd. unfold owned. repeat case_match; by at_point. Qed.

(** The history only grows. *)
Lemma advance_grows c s : exists h, history (advance c s) = h ++ history s.
Proof.
  unfold advance, wake_q_add, wake_up_q, store_lastp, get_task_struct, put_task_struct.
  repeat case_match; cbn; first [by exists [] | by eexists [_]].
Qed.

Lemma wake_step_other cs lab s s' c q : wake_step cs lab s s' -> lab <> Run c -> lab <> Call c ->
  pc s' c = pc s c /\ owned_after lab s q c = q c /\ exists h, history s' = h ++ history s.
Proof.
  intros Hs Hr Hca. destruct Hs as [d s Hd|d t s Hd Hpc Ho|d s Hd Hpc|d s Hd Hpc|t s|t s Ho Hu]; cbn;
    try (assert (d <> c) by congruence; at_point); split_and!; try done; try (by exists []).
  - by apply advance_pc_ne.
  - by apply owned_ne.
  - apply advance_grows.
Qed.

Lemma waking_progress cs labs s s' c q : NoDup cs -> c ∈ cs -> wake_run cs labs s s' -> Call c ∉ labs ->
  wake_inv cs s q -> waking (pc s c) ->
  exists q' d h, wake_inv cs s' q' /\ waking (pc s' c) /\
    actions_left (pc s' c) (q' c) = (actions_left (pc s c) (q c) - actions_of c labs)%nat /\
    to_wake (pc s c) (q c) = d ++ to_wake (pc s' c) (q' c) /\
    history s' = h ++ history s /\ sublist (reverse (Wake <$> d)) h.
Proof.
  intros Hcs Hc Hr. revert q. induction Hr as [s|lab labs s s1 s2 H1 _ IH]; intros q Hca I Hw.
  - exists q, [], []. split_and!; [done|done|cbn; lia|done|done|constructor].
  - assert (I1 := wake_step_inv _ _ _ _ _ Hcs H1 I).
    assert (Hmid : exists d1 h1, waking (pc s1 c) /\
      actions_left (pc s1 c) (owned_after lab s q c) = (actions_left (pc s c) (q c) - actions_of c [lab])%nat /\
      to_wake (pc s c) (q c) = d1 ++ to_wake (pc s1 c) (owned_after lab s q c) /\
      history s1 = h1 ++ history s /\ sublist (reverse (Wake <$> d1)) h1).
    { destruct (decide (lab = Run c)) as [->|Hl].
      - inversion H1; subst. destruct (own_action cs c s q) as (d1 & ? & ? & ? & ?); [done..|].
        exists d1, (reverse (Wake <$> d1)). split_and!; try done.
        unfold actions_of. by rewrite filter_cons_True.
      - destruct (wake_step_other _ _ _ _ c q H1 Hl) as (E1 & E2 & h1 & E3); [set_solver|].
        exists [], h1. rewrite E1, E2. split_and!; try done; [|apply sublist_nil_l].
        unfold actions_of. rewrite filter_cons_False by done. cbn. lia. }
    destruct Hmid as (d1 & h1 & W1 & A1 & T1 & E1 & S1).
    destruct (IH (owned_after lab s q) ltac:(set_solver) I1 W1) as (q' & d & h & I' & W' & A' & T' & E' & S').
    exists q', (d1 ++ d), (h ++ h1). split_and!; try done.
    + rewrite A', A1, (actions_of_cons c lab labs). lia.
    + rewrite T1, T'. by rewrite app_assoc.
    + rewrite E', E1. by rewrite app_assoc.
    + rewrite fmap_app, reverse_app. by apply sublist_app.
Qed.

(** [wake_up_q] ends: whatever other contexts do meanwhile, four actions per
    queued task and two more finish it, and it has then called
    [wake_up_process] for all tasks of the list, in the order of the list. *)
Theorem wake_up_q_wakes_all cs labs0 labs s s' c l : NoDup cs -> c ∈ cs ->
  wake_run cs labs0 wake_init s -> pc s c = WakeFirst -> linked (next s) (first s c) l ->
  wake_run cs labs s s' -> Call c ∉ labs -> (4 * length l + 2 <= actions_of c labs)%nat ->
  pc s' c = Finished /\
  exists h, history s' = h ++ history s /\ sublist (reverse (Wake <$> l)) h.
Proof.
  intros Hcs Hc Hr0 Hpc Hl Hr Hca Hn.
  destruct (wake_run_inv cs labs0 _ s _ Hcs Hr0 (wake_inv_init cs)) as [q I].
  pose proof (wi_shape _ _ _ I c Hc) as Hs. unfold shape in Hs. rewrite Hpc in Hs.
  assert (Hq : q c = l) by (eapply linked_inj; [apply Hs|done]).
  destruct (waking_progress _ _ _ _ _ q Hcs Hc Hr Hca I) as (q' & d & h & I' & W & A & T & E & S);
    [by rewrite Hpc|]. rewrite Hpc, Hq in A, T. cbn in A, T.
  pose proof (wi_shape _ _ _ I' c Hc) as Hs'. unfold shape in Hs'.
  assert (Hf : pc s' c = Finished).
  { destruct (pc s' c); cbn in W, A; try done; try lia. destruct Hs' as (l0 & El & _). rewrite El in A.
    cbn in A. lia. }
  split; [done|]. exists h. split; [done|]. rewrite Hf in Hs', T. cbn in T.
  rewrite Hs', app_nil_r in T. by rewrite T.
Qed.

(** ** Schedules, for concrete runs *)

Inductive wake_choice := do_run (c : Z) | do_add (c t : Z) | do_wake (c : Z).

Definition choice_label (a : wake_choice) : wake_label :=
  match a with do_run c => Run c | do_add c _ | do_wake c => Call c end.

Definition choose (a : wake_choice) (s : wake_state) : wake_state :=
  match a with
  | do_run c => advance c s
  | do_add c t => s <| pc ::= <[c := AddGrab t]> |>
  | do_wake c => s <| pc ::= <[c := WakeFirst]> |>
  end.

Fixpoint choices_ok (cs : list Z) (l : list wake_choice) (s : wake_state) : bool :=
  match l with
  | [] => true
  | a :: l =>
      match a with
      | do_run c => bool_decide (c ∈ cs)
      | do_add c t => bool_decide (c ∈ cs) && bool_decide (pc s c = Outside) && (0 <? others s t)
      | do_wake c => bool_decide (c ∈ cs) && bool_decide (pc s c = Outside)
      end && choices_ok cs l (choose a s)
  end.

Definition schedule_run (l : list wake_choice) (s : wake_state) : wake_state :=
  foldl (fun s a => choose a s) s l.

Lemma schedule_run_ok cs l s : choices_ok cs l s = true ->
  wake_run cs (choice_label <$> l) s (schedule_run l s).
Proof.
  revert s. induction l as [|a l IH]; intros s Hok; [constructor|]. cbn in Hok.
  apply andb_prop in Hok as [Ha Hok]. apply run_cons with (choose a s); [|by apply IH].
  destruct a as [c|c t|c]; cbn in *; zbool;
    repeat match goal with H : bool_decide _ = true |- _ => apply bool_decide_eq_true in H end;
    by constructor.
Qed.

(** Context 1 grabs task 7 before context 2 asks for it; both also queue a task
    of their own, and the actions alternate. *)
Definition demo_choices : list wake_choice :=
  [do_add 1 7; do_run 1; do_add 2 7; do_run 2; do_run 1; do_run 1; do_run 1;
   do_add 2 8; do_add 1 9; do_run 1; do_run 2; do_run 1; do_run 2; do_run 1; do_run 2; do_run 1; do_run 2].
Definition demo_wake : list wake_choice :=
  [do_wake 1; do_wake 2] ++ concat (replicate 10 [do_run 1; do_run 2]).

(** Both contexts run to the end: task 7 is woken once, by its owner, after
    both requests. *)
Example wake_q_no_lost_wakeup_witness :
  let s := schedule_run (demo_choices ++ demo_wake) wake_init in
  (pc s 1 = Finished /\ pc s 2 = Finished /\
   history s = [Wake 9; Wake 8; Wake 7; Request 8; Request 9; Request 7; Request 7]) /\
  (next s 7 = NULL /\ usage s 7 = others s 7 /\
   forall l1 l2, history s = l1 ++ Request 7 :: l2 -> Wake 7 ∈ l1).
Proof.
  intros s. split; [by vm_compute|].
  apply (wake_q_no_lost_wakeup [1; 2] (choice_label <$> (demo_choices ++ demo_wake)) s).
  - apply (bool_decide_unpack _). by vm_compute.
  - by apply schedule_run_ok; vm_compute.
  - intros c [->|[->|[]%elem_of_nil]%elem_of_cons]%elem_of_cons; by vm_compute.
Defined.

(** The list of context 1 has two tasks; ten actions wake both. *)
Example wake_up_q_wakes_all_witness :
  let s := schedule_run (demo_choices ++ [do_wake 1]) wake_init in
  let s' := schedule_run (concat (replicate 10 [do_run 1; do_run 2])) s in
  linked (next s) (first s 1) [7; 9] /\
  (pc s' 1 = Finished /\ exists h, history s' = h ++ history s /\ sublist [Wake 9; Wake 7] h).
Proof.
  intros s s'. assert (Hl : linked (next s) (first s 1) [7; 9]) by (by vm_compute).
  split; [done|].
  apply (wake_up_q_wakes_all [1; 2] (choice_label <$> (demo_choices ++ [do_wake 1]))
           (choice_label <$> concat (replicate 10 [do_run 1; do_run 2])) s s' 1 [7; 9]).
  - apply (bool_decide_unpack _). by vm_compute.
  - by left.
  - by apply schedule_run_ok; vm_compute.
  - by vm_compute.
  - done.
  - by apply schedule_run_ok; vm_compute.
  - apply (bool_decide_unpack _). by vm_compute.
  - vm_compute. lia.
Defined.
