(* ===== verification/CoreAtomics.v ===== *)
(** * Compare-and-exchange loops of core.c on the flags of a task

    [resched_curr] and remote wakeups set TIF_NEED_RESCHED of a task while other
    CPUs change the other flags in the same word.  [SchedTypes] has the effect of
    [set_nr_and_not_polling] and [set_nr_if_polling] as one update; here are their
    loops, on the word, with arbitrary changes by others between any two
    accesses.

    Theorems: the loops end at the latest when one round is left undisturbed, no
    change of another CPU is lost, and what they do at their last access is the
    single update of [SchedTypes]. *)

From S2P Require Import Prelude SchedTypes.

Section Loops.

(** The bits of the two flags, which the architecture chooses, and what other
    CPUs do to the word before access number [i]. *)
Context (NR POLLING : Z) (HNR : 0 <= NR) (HPOLL : 0 <= POLLING) (Hbits : NR <> POLLING).
Context (env : nat -> Z -> Z).

Definition _TIF_NEED_RESCHED : Z := Z.shiftl 1 NR.
Definition _TIF_POLLING_NRFLAG : Z := Z.shiftl 1 POLLING.

(** [cmpxchg] as access number [i]: the word afterwards and the value found. *)
Definition cmpxchg (i : nat) (ptr old new : Z) : Z * Z :=
  let found := env i ptr in
  if found =? old then (new, found) else (found, found).

(** The loop of [fetch_or]: the word after the last access and the result. *)
Fixpoint fetch_or_loop (fuel : nat) (i : nat) (ptr val mask : Z) : option (Z * Z) :=
  match fuel with
  | O => None
  | S fuel =>
      let '(ptr, old) := cmpxchg i ptr val (Z.lor val mask) in
      if old =? val then Some (ptr, old) else fetch_or_loop fuel (S i) ptr old mask
  end.

Definition fetch_or (fuel : nat) (ptr mask : Z) : option (Z * Z) :=
  let ptr := env 0 ptr in
  fetch_or_loop fuel 1 ptr ptr mask.

Definition set_nr_and_not_polling_word (fuel : nat) (flags : Z) : option (Z * bool) :=
  '(flags, old) ← fetch_or fuel flags _TIF_NEED_RESCHED;
  Some (flags, Z.land old _TIF_POLLING_NRFLAG =? 0).

Fixpoint set_nr_if_polling_loop (fuel : nat) (i : nat) (flags val : Z) : option (Z * bool) :=
  if Z.land val _TIF_POLLING_NRFLAG =? 0 then Some (flags, false)
  else if negb (Z.land val _TIF_NEED_RESCHED =? 0) then Some (flags, true)
  else
    match fuel with
    | O => None
    | S fuel =>
        let '(flags, old) := cmpxchg i flags val (Z.lor val _TIF_NEED_RESCHED) in
        if old =? val then Some (flags, true) else set_nr_if_polling_loop fuel (S i) flags old
    end.

Definition set_nr_if_polling_word (fuel : nat) (flags : Z) : option (Z * bool) :=
  let flags := env 0 flags in
  set_nr_if_polling_loop fuel 1 flags flags.

(** ** What the loops do *)

(** The word as others leave it before access [i] when no access before it has
    written: [before w i]. *)
Fixpoint before (w : Z) (i : nat) : Z :=
  match i with O => env 0 w | S j => env (S j) (before w j) end.

Arguments before : simpl never.

Lemma cmpxchg_before w i val new :
  cmpxchg (S i) (before w i) val new =
    if before w (S i) =? val then (new, before w (S i)) else (before w (S i), before w (S i)).
Proof. reflexivity. Qed.

Lemma fetch_or_loop_spec fuel w i mask r : fetch_or_loop fuel (S i) (before w i) (before w i) mask = Some r ->
  exists j, (i < j <= i + fuel)%nat /\ r = (Z.lor (before w j) mask, before w j).
Proof.
  revert i. induction fuel as [|fuel IH]; intros i; cbn [fetch_or_loop]; [done|].
  rewrite cmpxchg_before. destruct (before w (S i) =? before w i) eqn:E.
  - rewrite E. intros <-%Some_inj. exists (S i). split; [lia|]. apply Z.eqb_eq in E. by rewrite E.
  - rewrite E. intros H. destruct (IH _ H) as (j & Hj & ->). exists j. split; [lia|done].
Qed.

(** A round that nobody disturbs is the last. *)
Lemma fetch_or_loop_ends fuel w i mask j : (i <= j < i + fuel)%nat -> before w (S j) = before w j ->
  is_Some (fetch_or_loop fuel (S i) (before w i) (before w i) mask).
Proof.
  revert i. induction fuel as [|fuel IH]; intros i Hj Hq; [lia|]. cbn [fetch_or_loop].
  rewrite cmpxchg_before. destruct (before w (S i) =? before w i) eqn:E; rewrite E; [by eexists|].
  apply IH; [|done]. apply Z.eqb_neq in E. destruct (decide (j = i)) as [->|]; [done|lia].
Qed.

(** [fetch_or] ends when others leave it one round, at most [fuel] accesses in;
    it is then a single update of the word as the others had left it. *)
Theorem fetch_or_atomic fuel w mask j : (j < fuel)%nat -> before w (S j) = before w j ->
  exists i, (0 < i <= fuel)%nat /\ fetch_or fuel w mask = Some (Z.lor (before w i) mask, before w i).
Proof.
  intros Hj Hq. unfold fetch_or. change (env 0 w) with (before w 0).
  destruct (fetch_or_loop_ends fuel w 0 mask j ltac:(lia) Hq) as [r Hr].
  destruct (fetch_or_loop_spec _ _ _ _ _ Hr) as (i & Hi & ->). exists i. split; [lia|done].
Qed.

(** ** The flags in the word *)

Lemma land_bit w b : 0 <= b -> (Z.land w (Z.shiftl 1 b) =? 0) = negb (Z.testbit w b).
Proof.
  intros Hb. destruct (Z.testbit w b) eqn:E; cbn.
  - apply Z.eqb_neq. intros H. apply (f_equal (fun x => Z.testbit x b)) in H.
    rewrite Z.land_spec, E, Z.bits_0, Z.shiftl_spec, Z.sub_diag in H by done. done.
  - apply Z.eqb_eq, Z.bits_inj'. intros n Hn. rewrite Z.land_spec, Z.bits_0, Z.shiftl_1_l, Z.pow2_bits_eqb by done.
    destruct (Z.eqb_spec b n) as [<-|]; [by rewrite E|by rewrite andb_false_r].
Qed.

Lemma lor_bit w b n : 0 <= b -> 0 <= n -> Z.testbit (Z.lor w (Z.shiftl 1 b)) n = Z.testbit w n || (b =? n).
Proof. intros Hb Hn. by rewrite Z.lor_spec, Z.shiftl_1_l, Z.pow2_bits_eqb. Qed.

(** The word of a task, as far as the two flags go. *)
Definition word_of (t : task_struct) (w : Z) : Prop :=
  Z.testbit w NR = need_resched t /\ Z.testbit w POLLING = polling t.

Lemma word_of_nr t w : word_of t w ->
  word_of (t <| need_resched := true |>) (Z.lor w _TIF_NEED_RESCHED).
Proof using HNR HPOLL Hbits.
  intros [H1 H2]. unfold _TIF_NEED_RESCHED. split; rewrite lor_bit by done; cbn.
  - by rewrite Z.eqb_refl, orb_true_r.
  - rewrite H2. apply Z.eqb_neq in Hbits. by rewrite Hbits, orb_false_r.
Qed.

(** [set_nr_and_not_polling] is the update of [SchedTypes] at one access: whatever
    task the word stands for just before, the word written stands for the updated
    task and the answer is the same; no other bit changes. *)
Theorem set_nr_and_not_polling_refines fuel w j : (j < fuel)%nat -> before w (S j) = before w j ->
  exists (i : nat) (w' : Z) (b : bool), (0 < i <= fuel)%nat /\ set_nr_and_not_polling_word fuel w = Some (w', b) /\
    (forall n, 0 <= n -> n <> NR -> Z.testbit w' n = Z.testbit (before w i) n) /\
    forall k p, word_of (tasks k p) (before w i) ->
      b = snd (set_nr_and_not_polling p k) /\ word_of (tasks (fst (set_nr_and_not_polling p k)) p) w'.
Proof using HNR HPOLL Hbits.
  intros Hj Hq. unfold set_nr_and_not_polling_word.
  destruct (fetch_or_atomic fuel w _TIF_NEED_RESCHED j Hj Hq) as (i & Hi & ->). cbn.
  do 3 eexists. split; [exact Hi|]. split; [done|]. split.
  - intros n Hn Hne. unfold _TIF_NEED_RESCHED. rewrite lor_bit by done.
    rewrite (proj2 (Z.eqb_neq NR n)) by done. apply orb_false_r.
  - intros k p Hw. split.
    + unfold _TIF_POLLING_NRFLAG. rewrite land_bit by done. by rewrite (proj2 Hw).
    + unfold set_tsk_need_resched. rewrite upd_task_eq. by apply word_of_nr.
Qed.

(** [set_nr_if_polling]: when it answers, the word at that moment has both flags
    or, for the answer false, does not poll; nothing but TIF_NEED_RESCHED was
    written. *)
Lemma set_nr_if_polling_loop_spec fuel w i w' b :
  set_nr_if_polling_loop fuel (S i) (before w i) (before w i) = Some (w', b) ->
  exists j, (i <= j <= i + fuel)%nat /\ b = Z.testbit (before w j) POLLING /\
    w' = if b then Z.lor (before w j) _TIF_NEED_RESCHED else before w j.
Proof using HNR HPOLL Hbits.
  revert i. induction fuel as [|fuel IH]; intros i; cbn [set_nr_if_polling_loop];
    unfold _TIF_POLLING_NRFLAG; fold _TIF_NEED_RESCHED; rewrite (land_bit (before w i) POLLING) by done;
    destruct (Z.testbit (before w i) POLLING) eqn:Ep; cbn [negb];
    try (intros [= <- <-]; exists i; rewrite Ep; split_and!; [lia|lia|done|done]);
    unfold _TIF_NEED_RESCHED at 1; rewrite (land_bit (before w i) NR) by done;
    destruct (Z.testbit (before w i) NR) eqn:En; cbn [negb].
  1,3: intros [= <- <-]; exists i; rewrite Ep; split_and!; [lia|lia|done|].
  1,2: apply Z.bits_inj'; intros n Hn; unfold _TIF_NEED_RESCHED; rewrite lor_bit by done;
       destruct (Z.eqb_spec NR n) as [<-|]; [by rewrite En|by rewrite orb_false_r].
  - done.
  - rewrite cmpxchg_before. destruct (before w (S i) =? before w i) eqn:E; rewrite E.
    + intros [= <- <-]. apply Z.eqb_eq in E. exists (S i). rewrite E, Ep. split_and!; [lia|lia|done|done].
    + intros H. destruct (IH _ H) as (j & Hj & Hb & Hw). exists j. split_and!; [lia|lia|done|done].
Qed.

Lemma set_nr_if_polling_loop_ends fuel w i j : (i <= j < i + fuel)%nat -> before w (S j) = before w j ->
  is_Some (set_nr_if_polling_loop fuel (S i) (before w i) (before w i)).
Proof.
  revert i. induction fuel as [|fuel IH]; intros i Hj Hq; [lia|]. cbn [set_nr_if_polling_loop].
  cases; try (by eexists). rewrite cmpxchg_before. destruct (before w (S i) =? before w i) eqn:E; rewrite E;
    [by eexists|].
  apply IH; [|done]. apply Z.eqb_neq in E. destruct (decide (j = i)) as [->|]; [done|lia].
Qed.

Theorem set_nr_if_polling_refines fuel w j : (j < fuel)%nat -> before w (S j) = before w j ->
  exists (i : nat) (w' : Z) (b : bool), (i <= fuel)%nat /\ set_nr_if_polling_word fuel w = Some (w', b) /\
    forall k p, word_of (tasks k p) (before w i) ->
      b = snd (set_nr_if_polling p k) /\ word_of (tasks (fst (set_nr_if_polling p k)) p) w'.
Proof using HNR HPOLL Hbits.
  intros Hj Hq. unfold set_nr_if_polling_word. change (env 0 w) with (before w 0).
  destruct (set_nr_if_polling_loop_ends fuel w 0 j ltac:(lia) Hq) as [[w' b] Hr].
  destruct (set_nr_if_polling_loop_spec _ _ _ _ _ Hr) as (i & Hi & Hb & Hw'). exists i, w', b.
  split_and!; [lia|done|]. intros k p Hw. destruct (id Hw) as [_ H2]. rewrite H2 in Hb.
  unfold set_nr_if_polling. destruct (polling (tasks k p)) eqn:Ep; subst b; cbn; (split; [done|]); rewrite Hw'.
  - unfold set_tsk_need_resched. rewrite upd_task_eq. by apply word_of_nr.
  - done.
Qed.

End Loops.

(** Bit 3 is TIF_NEED_RESCHED, bit 7 TIF_POLLING_NRFLAG.  Another CPU sets bit 0
    before the first [cmpxchg], which fails, and then leaves the word alone. *)
Example set_nr_if_polling_retries :
  let env i w := if decide (i = 1%nat) then Z.lor w 1 else w in
  set_nr_if_polling_word 3 7 env 2 128 = Some (137, true) /\
  set_nr_if_polling_word 3 7 env 1 128 = None /\
  set_nr_if_polling_word 3 7 env 0 0 = Some (0, false).
Proof. by vm_compute. Qed.
