(* ===== verification/CorePolicy.v ===== *)
(** * Priorities, policies and fork (core.c)

    How core.c keeps the priority, the policy and the class of a task in step:
    the weight tables, fork, priority inheritance, nice values and the
    [sched_setscheduler] family.  The deadline class's parameter functions,
    credentials' capabilities, the security module and the pid table are
    parameters. *)

From S2P Require Import Prelude SchedTypes Core Wrr CoreWake.

(** ** Weights *)

Definition WEIGHT_IDLEPRIO : Z := 3.
Definition WMULT_IDLEPRIO : Z := 1431655765.
Definition NICE_TO_PRIO (nice : Z) : Z := nice + DEFAULT_PRIO.
Definition PRIO_TO_NICE (prio : Z) : Z := prio - DEFAULT_PRIO.
Definition MIN_NICE : Z := -20.
Definition MAX_NICE : Z := 19.
Definition NICE_WIDTH : Z := MAX_NICE - MIN_NICE + 1.

Definition sched_prio_to_weight : list Z :=
  [ 88761; 71755; 56483; 46273; 36291;
    29154; 23254; 18705; 14949; 11916;
    9548; 7620; 6100; 4904; 3906;
    3121; 2501; 1991; 1586; 1277;
    1024; 820; 655; 526; 423;
    335; 272; 215; 172; 137;
    110; 87; 70; 56; 45;
    36; 29; 23; 18; 15 ].

Definition sched_prio_to_wmult : list Z :=
  [ 48388; 59856; 76040; 92818; 118348;
    147320; 184698; 229616; 287308; 360437;
    449829; 563644; 704093; 875809; 1099582;
    1376151; 1717300; 2157191; 2708050; 3363326;
    4194304; 5237765; 6557202; 8165337; 10153587;
    12820798; 15790321; 19976592; 24970740; 31350126;
    39045157; 49367440; 61356676; 76695844; 95443717;
    119304647; 148102320; 186737708; 238609294; 286331153 ].

(** [None] is an index outside a table. *)
Definition weight_of_prio (static_prio : Z) : option load_weight :=
  let prio := static_prio - MAX_RT_PRIO in
  if prio <? 0 then None
  else match sched_prio_to_weight !! Z.to_nat prio, sched_prio_to_wmult !! Z.to_nat prio with
       | Some w, Some m => Some (mkLoad (scale_load w) m)
       | _, _ => None
       end.

(** An index outside the tables leaves the weight as it was: the theorems
    about weights show that it does not occur. *)
Definition set_load_weight_of (t : task_struct) : task_struct :=
  if idle_policy (policy t)
  then t <| se ::= fun s => s <| se_load := mkLoad (scale_load WEIGHT_IDLEPRIO) WMULT_IDLEPRIO |> |>
  else match weight_of_prio (static_prio t) with
       | Some l => t <| se ::= fun s => s <| se_load := l |> |>
       | None => t
       end.

Definition set_load_weight (p : Z) (k : kernel) : kernel := upd_task p set_load_weight_of k.

(** ** Priorities *)

Definition __normal_prio (t : task_struct) : Z := static_prio t.

Definition normal_prio (t : task_struct) : Z :=
  if task_has_dl_policy t then MAX_DL_PRIO - 1
  else if task_has_rt_policy t then MAX_RT_PRIO - 1 - rt_priority t
  else __normal_prio t.

(** Returns the task with its [normal_prio] updated, and the priority. *)
Definition effective_prio (t : task_struct) : task_struct * Z :=
  let t := t <| normal_prio_f := normal_prio t |> in
  if negb (rt_prio (prio t)) then (t, normal_prio_f t) else (t, prio t).

Definition task_curr (k : kernel) (p : Z) : bool := curr (rqs k (task_cpu (tasks k p))) =? p.
Definition task_nice (t : task_struct) : Z := PRIO_TO_NICE (static_prio t).

Definition __rt_effective_prio (k : kernel) (pi_task : option Z) (pr : Z) : Z :=
  match pi_task with
  | Some q => Z.min pr (prio (tasks k q))
  | None => pr
  end.

(** [rt_mutex_get_top_task] is the field [pi_top_task]. *)
Definition rt_effective_prio (k : kernel) (p pr : Z) : Z :=
  __rt_effective_prio k (pi_top_task (tasks k p)) pr.

(** ** Fork *)

Definition __sched_fork (p : Z) (k : kernel) : kernel :=
  let slice := sched_rr_timeslice k in
  upd_task p (fun t =>
    t <| on_rq := 0 |>
      <| se ::= fun s => s <| se_on_rq := 0 |> <| exec_start := 0 |>
           <| sum_exec_runtime := 0 |> <| prev_sum_exec_runtime := 0 |>
           <| nr_migrations := 0 |> <| vruntime := 0 |>
           <| exec_max := 0 |> <| statistics := zero_stats |> |>
      <| rt_se ::= fun r => r <| rt_timeout := 0 |> <| rt_time_slice := slice |>
           <| rt_on_rq := false |> <| rt_on_list := false |> |>) k.

Section Fork.
Context `{QueueOps} `{ClassOps} `{WakeEnv} `{LoadOps}.

(** What [sched_reset_on_fork] does to the child. *)
Definition reset_child (t : task_struct) : task_struct :=
  let t :=
    if task_has_dl_policy t || task_has_rt_policy t
    then t <| policy := SCHED_WRR |> <| static_prio := NICE_TO_PRIO 0 |>
           <| rt_priority := 0 |>
    else if PRIO_TO_NICE (static_prio t) <? 0
    then t <| static_prio := NICE_TO_PRIO 0 |>
    else t in
  let t := t <| prio := __normal_prio t |> <| normal_prio_f := __normal_prio t |> in
  let t := set_load_weight_of t in
  t <| sched_reset_on_fork := false |>.

(** [p] is the copy of the current task that fork has made. *)
Definition sched_fork (p : Z) (k : kernel) : kernel * Z :=
  let cpu := this_cpu k in
  let k := __sched_fork p k in
  let k := upd_task p (fun t => t <| state := TASK_NEW |>) k in
  let k := upd_task p (fun t => t <| prio := normal_prio_f (tasks k (current k)) |>) k in
  let k := if sched_reset_on_fork (tasks k p) then upd_task p reset_child k else k in
  if dl_prio (prio (tasks k p)) then (k, - EAGAIN)
  else
    let cls := if rt_prio (prio (tasks k p)) then rt_sched_class else wrrSchedClass in
    let k := upd_task p (fun t => t <| class_of := cls |>) k in
    let k := init_entity_runnable_average p k in
    let k := __set_task_cpu p cpu k in
    let k := match op_task_fork (class_of (tasks k p)) with
             | Some task_fork => task_fork p k
             | None => k
             end in
    let k := upd_task p (fun t => t <| on_cpu := false |>) k in
    (k, 0).

(** [None] is the [BUG] of the fallback in [select_task_rq]. *)
Definition wake_up_new_task (p : Z) (k : kernel) : option kernel :=
  let k := upd_task p (fun t => t <| state := TASK_RUNNING |>) k in
  match select_task_rq p (task_cpu (tasks k p)) SD_BALANCE_FORK 0 k with
  | None => None
  | Some (k, cpu) =>
      let k := __set_task_cpu p cpu k in
      let c := task_cpu (tasks k p) in
      let k := update_rq_clock c k in
      let k := post_init_entity_util_avg p k in
      let k := activate_task c p ENQUEUE_NOCLOCK k in
      let k := upd_task p (fun t => t <| on_rq := TASK_ON_RQ_QUEUED |>) k in
      let k := check_preempt_curr c p WF_FORK k in
      Some (match op_task_woken (class_of (tasks k p)) with
            | Some task_woken => task_woken c p k
            | None => k
            end)
  end.
End Fork.

Definition BW_SHIFT : Z := 20.
Definition BW_UNIT : Z := 2 ^ BW_SHIFT.

Definition to_ratio (period runtime : Z) : Z :=
  if runtime =? RUNTIME_INF then BW_UNIT
  else if period =? 0 then 0
  else u64 (Z.shiftl runtime BW_SHIFT) / period.

(** ** Priority inheritance and nice values *)

(** [struct sched_attr] of the user interface. *)
Record sched_attr := mkAttr {
  sa_size : Z;
  sched_policy : Z;
  sched_flags : Z;
  sched_nice : Z;
  sched_priority : Z;
  sched_runtime : Z;
  sched_deadline : Z;
  sched_period : Z }.
#[export] Instance eta_sched_attr : Settable sched_attr :=
  fun r => mkAttr (sa_size r) (sched_policy r) (sched_flags r) (sched_nice r)
    (sched_priority r) (sched_runtime r) (sched_deadline r) (sched_period r).

(** deadline.c, rtmutex.c, credentials, the security module and the pid table;
    [before_lock] is what other CPUs do between the checks of
    [__sched_setscheduler] and the moment the run-queue lock is taken. *)
Class PolicyEnv := {
  dl_entity_preempt : kernel -> Z -> Z -> bool;
  __setparam_dl : Z -> sched_attr -> kernel -> kernel;
  __getparam_dl : kernel -> Z -> sched_attr -> sched_attr;
  __checkparam_dl : sched_attr -> bool;
  dl_param_changed : kernel -> Z -> sched_attr -> bool;
  sched_dl_overflow : Z -> Z -> sched_attr -> kernel -> kernel * bool;
  rd_dl_bw : kernel -> Z;
  rt_mutex_adjust_pi : Z -> kernel -> kernel;
  capable_sys_nice : kernel -> bool;
  security_task_setscheduler : kernel -> Z -> Z;
  security_task_getscheduler : kernel -> Z -> Z;
  security_task_setnice : kernel -> Z -> Z -> Z;
  find_task_by_vpid : kernel -> Z -> option Z;
  cpuset_cpus_allowed : kernel -> Z -> gset Z;
  in_interrupt : kernel -> bool;
  before_lock : kernel -> kernel }.

Section Prio.
Context `{QueueOps} `{SwitchOps} `{ClassOps} `{PolicyEnv}.

(** The class change of [rt_mutex_setprio]: the task with its new class and
    the queue flags. *)
Definition boosted (k : kernel) (p : Z) (pi_task : option Z) (pr oldprio queue_flag : Z)
    : task_struct * Z :=
  let t := tasks k p in
  if dl_prio pr then
    let boost := negb (dl_prio (normal_prio_f t)) ||
                 match pi_task with Some q => dl_entity_preempt k q p | None => false end in
    (t <| dl_boosted := boost |> <| class_of := dl_sched_class |>,
     if boost then Z.lor queue_flag ENQUEUE_REPLENISH else queue_flag)
  else if rt_prio pr then
    let t := if dl_prio oldprio then t <| dl_boosted := false |> else t in
    (t <| class_of := rt_sched_class |>,
     if oldprio <? pr then Z.lor queue_flag ENQUEUE_HEAD else queue_flag)
  else
    let t := if dl_prio oldprio then t <| dl_boosted := false |> else t in
    let t := if rt_prio oldprio
             then t <| rt_se ::= fun r => r <| rt_timeout := 0 |> |> else t in
    (t <| class_of := fair_sched_class |>, queue_flag).

Definition rt_mutex_setprio (p : Z) (pi_task : option Z) (k : kernel) : kernel :=
  let pr := __rt_effective_prio k pi_task (normal_prio_f (tasks k p)) in
  if bool_decide (pi_top_task (tasks k p) = pi_task) && (pr =? prio (tasks k p)) &&
     negb (dl_prio pr)
  then k
  else
    let c := task_cpu (tasks k p) in
    let k := update_rq_clock c k in
    let k := upd_task p (fun t => t <| pi_top_task := pi_task |>) k in
    if ((pr =? prio (tasks k p)) && negb (dl_prio pr)) || (p =? idle (rqs k c))
    then balance_callback c k
    else
      let oldprio := prio (tasks k p) in
      let queue_flag := Z.lor DEQUEUE_SAVE (Z.lor DEQUEUE_MOVE DEQUEUE_NOCLOCK) in
      let queue_flag := if oldprio =? pr
                        then Z.land queue_flag (Z.lnot DEQUEUE_MOVE) else queue_flag in
      let prev_class := class_of (tasks k p) in
      let queued := task_on_rq_queued k p in
      let running := task_current k c p in
      let k := if queued then dequeue_task c p queue_flag k else k in
      let k := if running then put_prev_task c p k else k in
      let '(t, queue_flag) := boosted k p pi_task pr oldprio queue_flag in
      let k := upd_task p (fun _ => t <| prio := pr |>) k in
      let k := if queued then enqueue_task c p queue_flag k else k in
      let k := if running then set_curr_task c p k else k in
      let k := check_class_changed c p prev_class oldprio k in
      balance_callback c k.

Definition set_user_nice (p nice : Z) (k : kernel) : kernel :=
  if (task_nice (tasks k p) =? nice) || (nice <? MIN_NICE) || (MAX_NICE <? nice) then k
  else
    let c := task_cpu (tasks k p) in
    let k := update_rq_clock c k in
    if task_has_dl_policy (tasks k p) || task_has_rt_policy (tasks k p)
    then upd_task p (fun t => t <| static_prio := NICE_TO_PRIO nice |>) k
    else
      let queued := task_on_rq_queued k p in
      let running := task_current k c p in
      let k := if queued
               then dequeue_task c p (Z.lor DEQUEUE_SAVE DEQUEUE_NOCLOCK) k else k in
      let k := if running then put_prev_task c p k else k in
      let k := upd_task p (fun t => t <| static_prio := NICE_TO_PRIO nice |>) k in
      let k := set_load_weight p k in
      let old_prio := prio (tasks k p) in
      let '(t, new_prio) := effective_prio (tasks k p) in
      let k := upd_task p (fun _ => t <| prio := new_prio |>) k in
      let delta := new_prio - old_prio in
      let k :=
        if queued then
          let k := enqueue_task c p (Z.lor ENQUEUE_RESTORE ENQUEUE_NOCLOCK) k in
          if (delta <? 0) || ((0 <? delta) && task_running k p)
          then resched_curr c k else k
        else k in
      if running then set_curr_task c p k else k.

(** [nice_to_rlimit] of <linux/sched/prio.h>. *)
Definition nice_to_rlimit (nice : Z) : Z := MAX_NICE - nice + 1.

Definition can_nice (k : kernel) (p nice : Z) : bool :=
  (nice_to_rlimit nice <=? rlim_nice (tasks k p)) || capable_sys_nice k.

Definition clamp (x lo hi : Z) : Z := Z.min (Z.max x lo) hi.

Definition sys_nice (increment : Z) (k : kernel) : kernel * Z :=
  let p := current k in
  let increment := clamp increment (- NICE_WIDTH) NICE_WIDTH in
  let nice := task_nice (tasks k p) + increment in
  let nice := clamp nice MIN_NICE MAX_NICE in
  if (increment <? 0) && negb (can_nice k p nice) then (k, - EPERM)
  else
    let retval := security_task_setnice k p nice in
    if negb (retval =? 0) then (k, retval)
    else (set_user_nice p nice k, 0).

Definition idle_cpu (k : kernel) (cpu : Z) : bool :=
  let r := rqs k cpu in
  (curr r =? idle r) && (nr_running r =? 0) && bool_decide (wake_list r = []).
End Prio.

(** ** Setting the policy *)

Definition SETPARAM_POLICY : Z := -1.
Definition SCHED_RESET_ON_FORK : Z := 1073741824. (* 0x40000000 *)
Definition SCHED_FLAG_RESET_ON_FORK : Z := 1.
Definition SCHED_FLAG_RECLAIM : Z := 2.

(** How the call ends: with a result, in [BUG_ON], or by still rechecking
    when the fuel runs out. *)
Inductive setsched := Ret (k : kernel) (retval : Z) | BugOn | Rechecks.

Section Setscheduler.
Context `{QueueOps} `{SwitchOps} `{ClassOps} `{PolicyEnv}.

Definition __setscheduler_params (p : Z) (attr : sched_attr) (k : kernel) : kernel :=
  let pol := s32 (sched_policy attr) in
  let pol := if pol =? SETPARAM_POLICY then policy (tasks k p) else pol in
  let k := upd_task p (fun t => t <| policy := pol |>) k in
  let k := if dl_policy pol then __setparam_dl p attr k
           else if fair_policy pol
           then upd_task p (fun t => t <| static_prio := NICE_TO_PRIO (sched_nice attr) |>) k
           else k in
  let k := upd_task p (fun t => t <| rt_priority := sched_priority attr |>) k in
  let k := upd_task p (fun t => t <| normal_prio_f := normal_prio t |>) k in
  set_load_weight p k.

Definition class_of_prio (pr : Z) : sched_class :=
  if dl_prio pr then dl_sched_class
  else if rt_prio pr then rt_sched_class
  else wrrSchedClass.

Definition __setscheduler (p : Z) (attr : sched_attr) (keep_boost : bool) (k : kernel) : kernel :=
  let k := __setscheduler_params p attr k in
  let k := upd_task p (fun t => t <| prio := normal_prio t |>) k in
  let k := if keep_boost
           then upd_task p (fun t => t <| prio := rt_effective_prio k p (prio t) |>) k else k in
  upd_task p (fun t => t <| class_of := class_of_prio (prio t) |>) k.

Definition check_same_owner (k : kernel) (p : Z) : bool :=
  let euid := cred_euid (tasks k (current k)) in
  (euid =? cred_euid (tasks k p)) || (euid =? cred_uid (tasks k p)).

(** The checks on the caller's rights when it lacks CAP_SYS_NICE: whether the
    call is refused with [-EPERM]. *)
Definition unprivileged_refused (k : kernel) (p pol : Z) (attr : sched_attr)
    (reset_on_fork : bool) : bool :=
  let t := tasks k p in
  (fair_policy pol && (sched_nice attr <? task_nice t) && negb (can_nice k p (sched_nice attr))) ||
  (rt_policy pol &&
    ((negb (pol =? policy t) && (rlim_rtprio t =? 0)) ||
     ((rt_priority t <? sched_priority attr) && (rlim_rtprio t <? sched_priority attr)))) ||
  dl_policy pol ||
  (idle_policy (policy t) && negb (idle_policy pol) && negb (can_nice k p (task_nice t))) ||
  negb (check_same_owner k p) ||
  (sched_reset_on_fork t && negb reset_on_fork).

(** The part before the run-queue lock is taken: an error, or the policy to
    set, the policy found if it is to be kept, and the fork flag. *)
Definition setscheduler_checks (k : kernel) (p pol : Z) (attr : sched_attr) (user : bool)
    : Z + (Z * Z * bool) :=
  let t := tasks k p in
  let keep := pol <? 0 in
  let reset_on_fork := if keep then sched_reset_on_fork t
                       else has_flag (sched_flags attr) SCHED_FLAG_RESET_ON_FORK in
  let oldpolicy := if keep then policy t else -1 in
  let pol' := if keep then policy t else pol in
  if negb keep && negb (valid_policy pol) then inl (- EINVAL)
  else if negb (Z.land (sched_flags attr)
                 (Z.lnot (Z.lor SCHED_FLAG_RESET_ON_FORK SCHED_FLAG_RECLAIM)) =? 0)
  then inl (- EINVAL)
  else if (mm t && (MAX_USER_RT_PRIO - 1 <? sched_priority attr)) ||
          (negb (mm t) && (MAX_RT_PRIO - 1 <? sched_priority attr))
  then inl (- EINVAL)
  else if (dl_policy pol' && negb (__checkparam_dl attr)) ||
          xorb (rt_policy pol') (negb (sched_priority attr =? 0))
  then inl (- EINVAL)
  else if user && negb (capable_sys_nice k) &&
          unprivileged_refused k p pol' attr reset_on_fork
  then inl (- EPERM)
  else
    let retval := security_task_setscheduler k p in
    if user && negb (retval =? 0) then inl retval
    else inr (pol', oldpolicy, reset_on_fork).

Definition dl_bandwidth_enabled (k : kernel) : bool := 0 <=? sysctl_sched_rt_runtime k.

(** The change itself, once every check has passed. *)
Definition setscheduler_commit (p : Z) (attr : sched_attr) (pi reset_on_fork : bool)
    (k : kernel) : kernel :=
  let c := task_cpu (tasks k p) in
  let newprio := if dl_policy (sched_policy attr) then MAX_DL_PRIO - 1
                 else s32 (MAX_RT_PRIO - 1 - sched_priority attr) in
  let k := upd_task p (fun t => t <| sched_reset_on_fork := reset_on_fork |>) k in
  let oldprio := prio (tasks k p) in
  let queue_flags := Z.lor DEQUEUE_SAVE (Z.lor DEQUEUE_MOVE DEQUEUE_NOCLOCK) in
  let queue_flags := if pi && (rt_effective_prio k p newprio =? oldprio)
                     then Z.land queue_flags (Z.lnot DEQUEUE_MOVE) else queue_flags in
  let queued := task_on_rq_queued k p in
  let running := task_current k c p in
  let k := if queued then dequeue_task c p queue_flags k else k in
  let k := if running then put_prev_task c p k else k in
  let prev_class := class_of (tasks k p) in
  let k := __setscheduler p attr pi k in
  let k :=
    if queued then
      let queue_flags := if oldprio <? prio (tasks k p)
                         then Z.lor queue_flags ENQUEUE_HEAD else queue_flags in
      enqueue_task c p queue_flags k
    else k in
  let k := if running then set_curr_task c p k else k in
  let k := check_class_changed c p prev_class oldprio k in
  let k := if pi then rt_mutex_adjust_pi p k else k in
  balance_callback c k.

(** The part with the run-queue lock held; [None] goes back to the checks. *)
Definition setscheduler_locked (p pol oldpolicy : Z) (reset_on_fork : bool)
    (attr : sched_attr) (user pi : bool) (k : kernel) : option (kernel * Z) :=
  let c := task_cpu (tasks k p) in
  let k := update_rq_clock c k in
  let t := tasks k p in
  if bool_decide (stop (rqs k c) = Some p) then Some (k, - EINVAL)
  else if (pol =? policy t) &&
          negb ((fair_policy pol && negb (sched_nice attr =? task_nice t)) ||
                (rt_policy pol && negb (sched_priority attr =? rt_priority t)) ||
                (dl_policy pol && dl_param_changed k p attr))
  then Some (upd_task p (fun t => t <| sched_reset_on_fork := reset_on_fork |>) k, 0)
  else if user && dl_bandwidth_enabled k && dl_policy pol &&
          (negb (bool_decide (span (rd k) ⊆ cpus_allowed t)) || (rd_dl_bw k =? 0))
  then Some (k, - EPERM)
  else if negb (oldpolicy =? -1) && negb (oldpolicy =? policy t) then None
  else
    let '(k, overflow) := if dl_policy pol || dl_task t
                          then sched_dl_overflow p pol attr k else (k, false) in
    if overflow then Some (k, - EBUSY)
    else Some (setscheduler_commit p attr pi reset_on_fork k, 0).

(** Each round checks, waits for the lock and changes; a round goes back to
    the checks when the policy that was to be kept has changed meanwhile. *)
Fixpoint setscheduler_loop (fuel : nat) (p pol : Z) (attr : sched_attr) (user pi : bool)
    (k : kernel) : setsched :=
  match fuel with
  | O => Rechecks
  | S n =>
      match setscheduler_checks k p pol attr user with
      | inl e => Ret k e
      | inr (pol', oldpolicy, reset_on_fork) =>
          let k := before_lock k in
          match setscheduler_locked p pol' oldpolicy reset_on_fork attr user pi k with
          | Some (k, r) => Ret k r
          | None => setscheduler_loop n p (-1) attr user pi (update_rq_clock (task_cpu (tasks k p)) k)
          end
      end
  end.

Definition __sched_setscheduler (fuel : nat) (p : Z) (attr : sched_attr) (user pi : bool)
    (k : kernel) : setsched :=
  if pi && in_interrupt k then BugOn
  else setscheduler_loop fuel p (s32 (sched_policy attr)) attr user pi k.

Definition _sched_setscheduler (fuel : nat) (p pol pr : Z) (check : bool) (k : kernel) : setsched :=
  let reset := negb (pol =? SETPARAM_POLICY) && has_flag pol SCHED_RESET_ON_FORK in
  let pol' := if reset then Z.land pol (Z.lnot SCHED_RESET_ON_FORK) else pol in
  let attr := mkAttr 0 (u32 pol') (if reset then SCHED_FLAG_RESET_ON_FORK else 0)
                (PRIO_TO_NICE (static_prio (tasks k p))) (u32 pr) 0 0 0 in
  __sched_setscheduler fuel p attr check true k.

Definition sched_setscheduler (fuel : nat) (p pol pr : Z) (k : kernel) : setsched :=
  _sched_setscheduler fuel p pol pr true k.
Definition sched_setattr (fuel : nat) (p : Z) (attr : sched_attr) (k : kernel) : setsched :=
  __sched_setscheduler fuel p attr true true k.
Definition sched_setscheduler_nocheck (fuel : nat) (p pol pr : Z) (k : kernel) : setsched :=
  _sched_setscheduler fuel p pol pr false k.

Definition sched_set_stop_task (fuel : nat) (cpu : Z) (stopper : option Z) (k : kernel)
    : setsched :=
  let old_stop := stop (rqs k cpu) in
  let r := match stopper with
           | Some p =>
               match sched_setscheduler_nocheck fuel p SCHED_FIFO (MAX_RT_PRIO - 1) k with
               | Ret k _ => Ret (upd_task p (fun t => t <| class_of := stop_sched_class |>) k) 0
               | r => r
               end
           | None => Ret k 0
           end in
  match r with
  | Ret k _ =>
      let k := upd_rq cpu (fun r => r <| stop := stopper |>) k in
      Ret (match old_stop with
           | Some q => upd_task q (fun t => t <| class_of := rt_sched_class |>) k
           | None => k
           end) 0
  | r => r
  end.
End Setscheduler.
