(* ===== verification/PolicyTyped.v ===== *)
(** * Policy, priority and class stay in step (core.c)

    [typed] says which combinations of policy, static, real-time, normal and
    effective priority, class and load weight a task can have.  Every operation
    of [CorePolicy] keeps it: setting the policy, nice values, fork and priority
    inheritance. *)

From S2P Require Import Prelude SchedTypes Core Frame Wrr CoreWake CorePolicy.

(** ** The weight tables *)

Definition level_ok (nice : Z) : bool :=
  match weight_of_prio (NICE_TO_PRIO nice) with
  | Some l => let w := scale_load_down (lw_weight l) in
      (lw_weight l =? scale_load w) && (15 <=? w) && (w <=? 88761) &&
      (Z.abs (w * lw_inv_weight l - 2 ^ 32) <? w)
  | None => false
  end.

Definition step_ok (nice : Z) : bool :=
  match weight_of_prio (NICE_TO_PRIO nice), weight_of_prio (NICE_TO_PRIO (nice + 1)) with
  | Some l, Some l' => (120 * lw_weight l' <=? 100 * lw_weight l) &&
                       (100 * lw_weight l <=? 128 * lw_weight l')
  | _, _ => false
  end.

Lemma on_levels (f : Z -> bool) lo n nice :
  forallb f (seqZ lo n) = true -> lo <= nice < lo + n -> f nice = true.
Proof. rewrite forallb_forall. intros Hf Hr. apply Hf, list_elem_of_In, elem_of_seqZ. lia. Qed.

Lemma all_levels_ok nice : MIN_NICE <= nice <= MAX_NICE -> level_ok nice = true.
Proof.
  intros Hr. apply (on_levels _ MIN_NICE 40); [by vm_compute|unfold MIN_NICE, MAX_NICE in *; lia].
Qed.

Lemma all_steps_ok nice : MIN_NICE <= nice < MAX_NICE -> step_ok nice = true.
Proof.
  intros Hr. apply (on_levels _ MIN_NICE 39); [by vm_compute|unfold MIN_NICE, MAX_NICE in *; lia].
Qed.

Lemma weight_of_level nice : MIN_NICE <= nice <= MAX_NICE ->
  exists l, weight_of_prio (NICE_TO_PRIO nice) = Some l /\ __update_inv_weight l = l.
Proof.
  intros Hr%all_levels_ok. unfold level_ok in Hr. case_match; [|done]. eexists. split; [done|].
  unfold __update_inv_weight. destruct (Z.eqb_spec (lw_inv_weight l) 0) as [E|]; [|done].
  rewrite E in Hr. zbool. lia.
Qed.

(** The two weight tables fit each other and the nice levels: every level
    has a weight, the second table holds its 32-bit reciprocal with an error
    below one, and each level weighs between 1.20 and 1.28 times as much as the
    next nicer one, which makes one level worth about 10% of the CPU. *)
Theorem weight_tables_match nice :
  MIN_NICE <= nice <= MAX_NICE ->
  exists w inv, weight_of_prio (NICE_TO_PRIO nice) = Some (mkLoad (scale_load w) inv) /\
    15 <= w <= 88761 /\ Z.abs (w * inv - 2 ^ 32) < w /\
    (nice < MAX_NICE -> exists w' inv',
      weight_of_prio (NICE_TO_PRIO (nice + 1)) = Some (mkLoad (scale_load w') inv') /\
      120 * scale_load w' <= 100 * scale_load w <= 128 * scale_load w').
Proof.
  intros Hr. pose proof (all_levels_ok nice Hr) as Hl. unfold level_ok in Hl.
  destruct (weight_of_prio (NICE_TO_PRIO nice)) as [[W inv]|] eqn:E; [|done].
  cbn [lw_weight lw_inv_weight] in Hl. set (w := scale_load_down W) in *. clearbody w.
  zbool. subst W. exists w, inv. split_and!; [done|lia..|]. intros Hn.
  pose proof (all_steps_ok nice ltac:(lia)) as Hs. unfold step_ok in Hs. rewrite E in Hs.
  pose proof (all_levels_ok (nice + 1) ltac:(lia)) as Hl'. unfold level_ok in Hl'.
  destruct (weight_of_prio (NICE_TO_PRIO (nice + 1))) as [[W' inv']|]; [|done].
  cbn [lw_weight lw_inv_weight] in Hs, Hl'. set (w' := scale_load_down W') in *. clearbody w'.
  zbool. subst W'. exists w', inv'. split; [done|lia].
Qed.

Lemma weight_tables_match_witness :
  exists w inv, weight_of_prio (NICE_TO_PRIO 0) = Some (mkLoad (scale_load w) inv) /\
    Z.abs (w * inv - 2 ^ 32) < w.
Proof.
  destruct (weight_tables_match 0) as (w & inv & E & _ & Ha & _); [by vm_compute|]. by exists w, inv.
Defined.

(** ** Well-typed tasks *)

Definition special_class (cls : sched_class) : bool :=
  bool_decide (cls = stop_sched_class) || bool_decide (cls = idle_sched_class) ||
  bool_decide (cls = fake_sched_class).

(** The class goes with the effective priority; both [wrrSchedClass] and
    [fair_sched_class] serve the priorities beyond the real-time range. *)
Definition class_fits (pr : Z) (cls : sched_class) : Prop :=
  special_class cls = true \/
  (if dl_prio pr then cls = dl_sched_class
   else if rt_prio pr then cls = rt_sched_class
   else cls = wrrSchedClass \/ cls = fair_sched_class).

(** The load weight of a task that is not real-time is the one of its nice
    value; a real-time task's is brought up to date when it leaves the class. *)
Definition weight_fits (pol sp : Z) (l : load_weight) : Prop :=
  dl_policy pol || rt_policy pol = false ->
  if idle_policy pol
  then __update_inv_weight l = mkLoad (scale_load WEIGHT_IDLEPRIO) WMULT_IDLEPRIO
  else weight_of_prio sp = Some (__update_inv_weight l).

Definition policy_prio (pol sp rp : Z) : Z :=
  if dl_policy pol then MAX_DL_PRIO - 1
  else if rt_policy pol then MAX_RT_PRIO - 1 - rp
  else sp.

Definition rt_range (pol rp : Z) : Prop :=
  if rt_policy pol then 1 <= rp < MAX_RT_PRIO else rp = 0.

Definition typed (t : task_struct) : Prop :=
  valid_policy (policy t) = true /\
  MAX_RT_PRIO <= static_prio t < MAX_PRIO /\
  rt_range (policy t) (rt_priority t) /\
  normal_prio_f t = policy_prio (policy t) (static_prio t) (rt_priority t) /\
  prio t <= normal_prio_f t /\
  class_fits (prio t) (class_of t) /\
  weight_fits (policy t) (static_prio t) (se_load (se t)).

(** [typed] reads seven fields. *)
Definition pview (t : task_struct) :=
  (policy t, static_prio t, rt_priority t, normal_prio_f t, prio t, class_of t,
   __update_inv_weight (se_load (se t))).

Lemma typed_view t t' : pview t = pview t' -> typed t -> typed t'.
Proof.
  unfold pview. intros [= E1 E2 E3 E4 E5 E6 E7]. unfold typed.
  unfold weight_fits. by rewrite E1, E2, E3, E4, E5, E6, E7.
Qed.

Lemma pview_core t : pview (core_task t) = pview t.
Proof. unfold pview. cbn. by rewrite update_inv_idem. Qed.

Lemma normal_prio_eq t : normal_prio t = policy_prio (policy t) (static_prio t) (rt_priority t).
Proof. done. Qed.

Definition all_typed (k : kernel) : Prop := forall p, typed (tasks k p).

Lemma all_typed_view k k' :
  (forall p, pview (tasks k p) = pview (tasks k' p)) -> all_typed k -> all_typed k'.
Proof. intros E Ht p. apply (typed_view (tasks k p)); [apply E|apply Ht]. Qed.

Lemma all_typed_equiv k k' : k ≡c k' -> all_typed k -> all_typed k'.
Proof. intros E. apply all_typed_view. intros p. apply (ce_task pview); [done|apply pview_core]. Qed.

Lemma all_typed_relocated k k' : relocated k k' -> all_typed k -> all_typed k'.
Proof. intros R. apply all_typed_view. intros p. symmetry. apply (relocated_field pview); [done|]. intros t.
  rewrite <- (pview_core t). unfold pview. cbn. done. Qed.

Lemma all_typed_upd p f k : all_typed k -> typed (f (tasks k p)) -> all_typed (upd_task p f k).
Proof.
  intros Ht Hf q. rewrite tasks_upd_task. case_decide; [done|apply Ht].
Qed.

(** What the policy code asks of the classes, of deadline.c and of rtmutex.c. *)
Class PolicyLaws `{SwitchOps} `{ClassOps} `{PolicyEnv} `{LoadOps} : Prop := {
  law_init_average p k : init_entity_runnable_average p k ≡c k;
  law_switched_from cls f c p k : op_switched_from cls = Some f -> f c p k ≡c k;
  law_switched_to cls c p k : op_switched_to cls c p k ≡c k;
  law_prio_changed cls c p o k : op_prio_changed cls c p o k ≡c k;
  law_balance cb c k : relocated k (op_balance cb c k);
  law_setparam_dl p a k : __setparam_dl p a k ≡c k;
  law_dl_overflow p pol a k : (sched_dl_overflow p pol a k).1 ≡c k;
  law_task_fork cls f p k : op_task_fork cls = Some f -> f p k ≡c k;
  law_adjust_pi p k : all_typed k -> all_typed (rt_mutex_adjust_pi p k);
  law_before_lock k : all_typed k -> all_typed (before_lock k) }.

Section Typed.
Context `{QueueFrame} `{SwitchOps} `{ClassOps} `{PolicyEnv} `{LoadOps} `{!PolicyLaws}.

Lemma core_class_changed c p cls o k : check_class_changed c p cls o k ≡c k.
Proof.
  unfold check_class_changed. cbv zeta. cases; [|apply law_prio_changed|done].
  rewrite law_switched_to. destruct (op_switched_from cls) as [f|] eqn:E; [|done].
  by eapply law_switched_from.
Qed.

Lemma typed_balance c k : all_typed k -> all_typed (balance_callback c k).
Proof.
  intros Ht. unfold balance_callback, __balance_callback. destruct (balance_callbacks _) as [|cb l]; [done|].
  cbv zeta. generalize (cb :: l). clear cb l. intros l.
  assert (Ht1 : all_typed (upd_rq c (fun r => r <| balance_callbacks := [] |>) k)) by done.
  revert Ht1. generalize (upd_rq c (fun r => r <| balance_callbacks := [] |>) k). clear k Ht.
  induction l as [|cb l IH]; intros k Ht; [done|]. cbn [foldl]. apply IH.
  eapply all_typed_relocated; [apply law_balance|done].
Qed.

Lemma weight_set t :
  MAX_RT_PRIO <= static_prio t < MAX_PRIO ->
  weight_fits (policy t) (static_prio t) (se_load (se (set_load_weight_of t))).
Proof.
  intros Hs _. unfold set_load_weight_of. destruct (idle_policy (policy t)); [done|].
  destruct (weight_of_level (PRIO_TO_NICE (static_prio t))) as (l & El & Ei).
  { unfold PRIO_TO_NICE, MIN_NICE, MAX_NICE, DEFAULT_PRIO, MAX_RT_PRIO, MAX_PRIO in *. lia. }
  replace (NICE_TO_PRIO (PRIO_TO_NICE (static_prio t))) with (static_prio t) in El
    by (unfold NICE_TO_PRIO, PRIO_TO_NICE; lia).
  rewrite El. cbn. by rewrite Ei.
Qed.

(** Only the load weight changes. *)
Lemma set_load_weight_fields t :
  let t' := set_load_weight_of t in
  policy t' = policy t /\ static_prio t' = static_prio t /\ rt_priority t' = rt_priority t /\
  normal_prio_f t' = normal_prio_f t /\ prio t' = prio t /\ class_of t' = class_of t.
Proof. unfold set_load_weight_of. by repeat case_match. Qed.

Ltac typed_back :=
  repeat match goal with
  | |- all_typed (if ?b then _ else _) => destruct b
  | |- all_typed (balance_callback _ _) => apply typed_balance
  | |- all_typed (check_class_changed _ _ _ _ ?k) =>
      apply (all_typed_equiv k); [symmetry; apply core_class_changed|]
  | |- all_typed (set_curr_task _ _ ?k) =>
      apply (all_typed_equiv k); [symmetry; apply core_set_curr|]
  | |- all_typed (put_prev_task _ _ ?k) =>
      apply (all_typed_equiv k); [symmetry; apply core_put_prev|]
  | |- all_typed (enqueue_task _ _ _ ?k) =>
      apply (all_typed_equiv k); [symmetry; apply core_enqueue|]
  | |- all_typed (dequeue_task _ _ _ ?k) =>
      apply (all_typed_equiv k); [symmetry; apply core_dequeue|]
  | |- all_typed (resched_curr _ ?k) =>
      apply (all_typed_equiv k); [symmetry; apply core_resched|]
  | |- all_typed (update_rq_clock _ ?k) =>
      apply (all_typed_equiv k); [symmetry; apply core_clock|]
  end; try done.

(** *** Nice values *)

Definition reniced (nice : Z) (t : task_struct) : task_struct :=
  let t := set_load_weight_of (t <| static_prio := NICE_TO_PRIO nice |>) in
  (effective_prio t).1 <| prio := (effective_prio t).2 |>.

Lemma nice_range nice :
  MIN_NICE <= nice <= MAX_NICE -> MAX_RT_PRIO <= NICE_TO_PRIO nice < MAX_PRIO.
Proof. unfold MIN_NICE, MAX_NICE, MAX_RT_PRIO, MAX_PRIO, NICE_TO_PRIO, DEFAULT_PRIO. lia. Qed.

Lemma rt_prio_out pr : MAX_RT_PRIO <= pr -> rt_prio pr = false /\ dl_prio pr = false.
Proof. unfold rt_prio, dl_prio, MAX_RT_PRIO, MAX_DL_PRIO. lia. Qed.

Lemma reniced_typed nice t :
  typed t -> task_has_dl_policy t || task_has_rt_policy t = false ->
  MIN_NICE <= nice <= MAX_NICE -> typed (reniced nice t).
Proof.
  intros (Hv & _ & Hr & Hn & Hle & Hc & _) Hp Hnice%nice_range. unfold reniced. cbv zeta.
  set (t1 := t <| static_prio := NICE_TO_PRIO nice |>).
  pose proof (weight_set t1 Hnice) as Hw.
  destruct (set_load_weight_fields t1) as (E1 & E2 & E3 & E4 & E5 & E6).
  set (t2 := set_load_weight_of t1) in *. clearbody t2. cbn in E1, E2, E3, E4, E5, E6.
  apply orb_false_elim in Hp as [Hdl Hrt]. unfold task_has_dl_policy, task_has_rt_policy in *.
  assert (En : policy_prio (policy t) (NICE_TO_PRIO nice) (rt_priority t) = NICE_TO_PRIO nice)
    by (unfold policy_prio; by rewrite Hdl, Hrt).
  destruct (rt_prio_out (NICE_TO_PRIO nice)) as [Ha Hb]; [lia|].
  unfold effective_prio. cbn. rewrite normal_prio_eq, E1, E2, E3, E5, En.
  unfold class_fits in Hc. destruct (rt_prio (prio t)) eqn:Erp; cbn [negb fst snd];
    (split_and!; cbn; rewrite ?E1, ?E2, ?E3, ?E5, ?E6; try done; try lia).
  - unfold rt_prio in Erp. lia.
  - unfold class_fits. by rewrite Erp.
  - unfold class_fits. rewrite Ha, Hb. destruct Hc as [|Hc]; [by left|right].
    destruct (dl_prio (prio t)) eqn:Ed; [|done].
    unfold dl_prio, MAX_DL_PRIO, rt_prio, MAX_RT_PRIO in *. lia.
Qed.

Lemma set_user_nice_typed p nice k : all_typed k -> all_typed (set_user_nice p nice k).
Proof.
  intros Ht. unfold set_user_nice. destruct (_ || _) eqn:Hout; [done|]. cbv zeta.
  apply orb_false_elim in Hout as [[_ Hlo]%orb_false_elim Hhi].
  assert (Hr : MIN_NICE <= nice <= MAX_NICE) by lia.
  set (k1 := update_rq_clock _ k). assert (Ht1 : all_typed k1) by (unfold k1; typed_back).
  destruct (task_has_dl_policy _ || _) eqn:Hp.
  - apply all_typed_upd; [done|]. destruct (Ht1 p) as (Hv & _ & Hrp & Hn & Hle & Hc & _).
    unfold task_has_dl_policy, task_has_rt_policy in Hp.
    split_and!; cbn; try done; try by apply nice_range.
    + rewrite Hn. unfold policy_prio. by destruct (dl_policy _), (rt_policy _).
    + intros Hc'. congruence.
  - set (k2 := if task_current _ _ _ then put_prev_task _ _ _ else _).
    assert (Ht2 : all_typed k2) by (unfold k2; typed_back).
    assert (Hp2 : policy (tasks k2 p) = policy (tasks k1 p)).
    { unfold k2. destruct (task_current _ _ _), (task_on_rq_queued _ _);
        rewrite ?(ce_task policy _ _ p (core_put_prev _ _ _)) by done;
        rewrite ?(ce_task policy _ _ p (core_dequeue _ _ _ _)) by done; done. }
    destruct (effective_prio _) as [t np] eqn:Ee.
    set (k3 := upd_task p (fun _ => t <| prio := np |>) _).
    assert (Ht3 : all_typed k3).
    { intros q. unfold k3, set_load_weight. rewrite !tasks_upd_task.
      destruct (decide (p = q)) as [<-|]; [|apply Ht2].
      unfold set_load_weight in Ee. rewrite !upd_task_eq in Ee.
      assert (Hre : typed (reniced nice (tasks k2 p))).
      { apply reniced_typed; [apply Ht2| |done].
        unfold task_has_dl_policy, task_has_rt_policy in *. by rewrite Hp2. }
      unfold reniced in Hre. by rewrite Ee in Hre. }
    typed_back.
Qed.

(** *** Priority inheritance *)

Lemma boosted_fields k p pi pr o fl :
  let t := tasks k p in let t' := (boosted k p pi pr o fl).1 in
  policy t' = policy t /\ static_prio t' = static_prio t /\ rt_priority t' = rt_priority t /\
  normal_prio_f t' = normal_prio_f t /\ se_load (se t') = se_load (se t) /\
  class_of t' = (if dl_prio pr then dl_sched_class else if rt_prio pr then rt_sched_class
                 else fair_sched_class).
Proof. unfold boosted. cbv zeta. by repeat case_match. Qed.

Lemma boosted_typed k p pi pr o fl :
  typed (tasks k p) -> pr <= normal_prio_f (tasks k p) ->
  typed ((boosted k p pi pr o fl).1 <| prio := pr |>).
Proof.
  intros (Hv & Hs & Hr & Hn & _ & _ & Hw) Hle.
  destruct (boosted_fields k p pi pr o fl) as (E1 & E2 & E3 & E4 & E5 & E6).
  set (t := (boosted k p pi pr o fl).1) in *. clearbody t.
  unfold typed. cbn. rewrite E1, E2, E3, E4, E5, E6. split_and!; try done; try lia.
  unfold class_fits. right. destruct (dl_prio pr), (rt_prio pr); auto.
Qed.

Lemma effective_le k pi pr : __rt_effective_prio k pi pr <= pr.
Proof. unfold __rt_effective_prio. case_match; lia. Qed.

Lemma rt_mutex_setprio_typed p pi k : all_typed k -> all_typed (rt_mutex_setprio p pi k).
Proof.
  intros Ht. unfold rt_mutex_setprio. cbv zeta.
  pose proof (effective_le k pi (normal_prio_f (tasks k p))) as Hle.
  set (pr := __rt_effective_prio k pi _) in *. clearbody pr.
  destruct (_ && _); [done|].
  set (c := task_cpu (tasks k p)). set (k1 := update_rq_clock c k).
  assert (E1 : k1 ≡c k) by apply core_clock.
  assert (Ht1 : all_typed k1) by (unfold k1; typed_back).
  set (k2 := upd_task p _ k1).
  assert (Ht2 : all_typed k2) by (apply all_typed_upd; [done|apply Ht1]).
  destruct (_ || _); [typed_back|].
  set (k3 := if task_current _ _ _ then put_prev_task _ _ _ else _).
  assert (Ht3 : all_typed k3) by (unfold k3; typed_back).
  assert (E3 : k3 ≡c k2).
  { unfold k3. destruct (task_current _ _ _), (task_on_rq_queued _ _);
      rewrite ?core_put_prev, ?core_dequeue; done. }
  assert (Hn : normal_prio_f (tasks k3 p) = normal_prio_f (tasks k p)).
  { rewrite (ce_task normal_prio_f _ _ p E3) by done. unfold k2. rewrite upd_task_eq. cbn.
    by apply (ce_task normal_prio_f). }
  destruct (boosted k3 p pi pr _ _) as [t fl] eqn:Eb.
  set (k4 := upd_task p (fun _ => t <| prio := pr |>) k3).
  assert (Ht4 : all_typed k4).
  { apply all_typed_upd; [done|]. replace t with (boosted k3 p pi pr (prio (tasks k2 p))
      (if prio (tasks k2 p) =? pr
       then Z.land (Z.lor DEQUEUE_SAVE (Z.lor DEQUEUE_MOVE DEQUEUE_NOCLOCK)) (Z.lnot DEQUEUE_MOVE)
       else Z.lor DEQUEUE_SAVE (Z.lor DEQUEUE_MOVE DEQUEUE_NOCLOCK))).1 by by rewrite Eb.
    apply boosted_typed; [apply Ht3|lia]. }
  typed_back.
Qed.

(** *** Setting the policy *)

(** The attributes that pass the checks of [__sched_setscheduler]. *)
Definition attr_ok (pol : Z) (attr : sched_attr) : Prop :=
  valid_policy pol = true /\ MIN_NICE <= sched_nice attr <= MAX_NICE /\
  rt_range pol (sched_priority attr).

(** [__setscheduler] on the task alone, after the policy and the nice value
    have been stored; [boost] is the effect of the donor. *)
Definition setsched_task (rp : Z) (boost : Z -> Z) (t : task_struct) : task_struct :=
  let t := t <| rt_priority := rp |> in
  let t := t <| normal_prio_f := normal_prio t |> in
  let t := set_load_weight_of t in
  let t := t <| prio := normal_prio t |> in
  let t := t <| prio := boost (prio t) |> in
  t <| class_of := class_of_prio (prio t) |>.

Lemma setsched_task_typed rp boost t :
  valid_policy (policy t) = true -> MAX_RT_PRIO <= static_prio t < MAX_PRIO ->
  rt_range (policy t) rp -> (forall x, boost x <= x) -> typed (setsched_task rp boost t).
Proof.
  intros Hv Hs Hr Hb. unfold setsched_task. cbv zeta.
  set (t1 := t <| rt_priority := rp |> <| normal_prio_f := normal_prio (t <| rt_priority := rp |>) |>).
  pose proof (weight_set t1 Hs) as Hw.
  destruct (set_load_weight_fields t1) as (E1 & E2 & E3 & E4 & E5 & E6).
  set (t2 := set_load_weight_of t1) in *. clearbody t2.
  cbn in E1, E2, E3, E4. rewrite normal_prio_eq in E4. cbn in E4.
  unfold typed. cbn. rewrite normal_prio_eq, E1, E2, E3, E4.
  split_and!; try done; try apply Hb; try apply Hs. unfold class_fits, class_of_prio. right.
  generalize (boost (policy_prio (policy t) (static_prio t) rp)). intros pr.
  destruct (dl_prio pr), (rt_prio pr); auto.
Qed.

Lemma __setscheduler_typed p attr keep pol k :
  all_typed k -> attr_ok pol attr ->
  pol = (if s32 (sched_policy attr) =? SETPARAM_POLICY then policy (tasks k p)
         else s32 (sched_policy attr)) ->
  all_typed (__setscheduler p attr keep k).
Proof.
  intros Ht (Hv & Hnice & Hr) Hpol. unfold __setscheduler, __setscheduler_params. cbv zeta.
  rewrite <- Hpol. set (k1 := upd_task p (fun t => t <| policy := pol |>) k).
  set (k2 := if dl_policy pol then _ else _).
  assert (Hk2 : (forall q, p <> q -> pview (tasks k2 q) = pview (tasks k q)) /\
    policy (tasks k2 p) = pol /\ MAX_RT_PRIO <= static_prio (tasks k2 p) < MAX_PRIO).
  { assert (B1 : (forall q, p <> q -> pview (tasks k1 q) = pview (tasks k q)) /\
      policy (tasks k1 p) = pol /\ static_prio (tasks k1 p) = static_prio (tasks k p)).
    { unfold k1. rewrite !upd_task_eq. split_and!; try done. intros q Hq. by rewrite upd_task_ne. }
    destruct B1 as (B1 & B2 & B3). pose proof (Ht p) as (_ & Hs & _).
    unfold k2. destruct (dl_policy pol).
    - pose proof (law_setparam_dl p attr k1) as E. split_and!.
      + intros q Hq. by rewrite (ce_task pview _ _ q E pview_core), B1.
      + by rewrite (ce_task policy _ _ p E).
      + rewrite (ce_task static_prio _ _ p E) by done; lia.
      + rewrite (ce_task static_prio _ _ p E) by done; lia.
    - destruct (fair_policy pol); [|split_and!; try done; lia].
      rewrite !upd_task_eq. cbn. pose proof (nice_range _ Hnice).
      split_and!; try done; try lia. intros q Hq. by rewrite upd_task_ne, B1. }
  destruct Hk2 as (Ho & Hp2 & Hs2). clearbody k2. unfold set_load_weight.
  set (k5 := upd_task p set_load_weight_of _).
  set (k6 := upd_task p (fun t => t <| prio := normal_prio t |>) k5).
  set (boost := fun x => if keep then rt_effective_prio k6 p x else x).
  set (k7 := if keep then _ else k6).
  intros q. rewrite tasks_upd_task. destruct (decide (p = q)) as [<-|Hq].
  - assert (E : tasks k7 p = (tasks k6 p) <| prio := boost (prio (tasks k6 p)) |>).
    { unfold k7, boost. destruct keep; [by rewrite upd_task_eq|by destruct (tasks k6 p)]. }
    rewrite E. unfold k6, k5. rewrite !upd_task_eq.
    apply (setsched_task_typed (sched_priority attr) boost (tasks k2 p)); rewrite ?Hp2; try done.
    intros x. unfold boost. destruct keep; [apply effective_le|lia].
  - eapply typed_view; [|apply (Ht q)]. symmetry. etransitivity; [|by apply Ho].
    unfold k7, k6, k5. destruct keep; by rewrite !upd_task_ne.
Qed.

Lemma setscheduler_commit_typed p attr pi r pol k :
  all_typed k -> attr_ok pol attr ->
  pol = (if s32 (sched_policy attr) =? SETPARAM_POLICY then policy (tasks k p)
         else s32 (sched_policy attr)) ->
  all_typed (setscheduler_commit p attr pi r k).
Proof.
  intros Ht Ha Hpol. unfold setscheduler_commit. cbv zeta.
  set (k1 := upd_task p (fun t => t <| sched_reset_on_fork := r |>) k).
  assert (Ht1 : all_typed k1) by (apply all_typed_upd; [done|apply Ht]).
  set (k2 := if task_current _ _ _ then put_prev_task _ _ _ else _).
  assert (E2 : k2 ≡c k1).
  { unfold k2. destruct (task_current _ _ _), (task_on_rq_queued _ _);
      rewrite ?core_put_prev, ?core_dequeue; done. }
  set (k3 := __setscheduler p attr pi k2).
  assert (Ht3 : all_typed k3).
  { eapply __setscheduler_typed; [|exact Ha|].
    - by apply (all_typed_equiv k1); [symmetry|].
    - rewrite Hpol, (ce_task policy _ _ p E2) by done. unfold k1. by rewrite upd_task_eq. }
  apply typed_balance. destruct pi; [apply law_adjust_pi|]; typed_back.
Qed.

Lemma checks_attr_ok k p pol attr user pol' old r :
  typed (tasks k p) -> MIN_NICE <= sched_nice attr <= MAX_NICE -> 0 <= sched_priority attr ->
  setscheduler_checks k p pol attr user = inr (pol', old, r) ->
  attr_ok pol' attr /\
  (if pol <? 0 then pol' = policy (tasks k p) /\ old = policy (tasks k p) else pol' = pol /\ old = -1).
Proof.
  intros (Hv & _) Hn Hp. unfold setscheduler_checks. cbv zeta.
  set (pol1 := if pol <? 0 then policy (tasks k p) else pol).
  destruct (negb (pol <? 0) && negb (valid_policy pol)) eqn:Ev; [done|].
  destruct (negb (_ =? 0)); [done|].
  destruct (_ || _) eqn:Ehi; [done|]. destruct (_ || xorb _ _) eqn:Ert; [done|].
  destruct (user && _ && _); [done|]. destruct (user && _); [done|].
  intros [= Epol Eold _]. subst pol' old.
  apply orb_false_elim in Ert as [_ Ert].
  assert (Hhi : sched_priority attr < MAX_RT_PRIO).
  { unfold MAX_USER_RT_PRIO, MAX_RT_PRIO in *. destruct (mm _); cbn in Ehi; lia. }
  split; [split_and!; try done; try lia|].
  - unfold pol1. destruct (pol <? 0); [done|]. by destruct (valid_policy pol).
  - unfold rt_range. destruct (rt_policy pol1), (sched_priority attr =? 0) eqn:E0; try done; lia.
  - unfold pol1. by destruct (pol <? 0).
Qed.

Lemma setscheduler_loop_typed p attr user pi k' res fuel : forall k,
  MIN_NICE <= sched_nice attr <= MAX_NICE -> 0 <= sched_priority attr ->
  -1 <= s32 (sched_policy attr) -> all_typed k ->
  setscheduler_loop fuel p (s32 (sched_policy attr)) attr user pi k = Ret k' res -> all_typed k'.
Proof.
  induction fuel as [|n IH]; intros k Hn Hp Hs Ht; [done|]. cbn [setscheduler_loop].
  destruct (setscheduler_checks _ _ _ _ _) as [e|[[pol old] r]] eqn:Ec; [by intros [= <- _]|].
  destruct (checks_attr_ok _ _ _ _ _ _ _ _ (Ht p) Hn Hp Ec) as [Ha Hpol].
  set (k1 := before_lock k). assert (Ht1 : all_typed k1) by by apply law_before_lock.
  unfold setscheduler_locked. cbv zeta. set (k2 := update_rq_clock _ k1).
  assert (Ht2 : all_typed k2) by (unfold k2; typed_back).
  destruct (bool_decide _); [by intros [= <- _]|].
  destruct (_ && negb _); [intros [= <- _]; apply all_typed_upd; [done|apply Ht2]|].
  destruct (_ && _ && _ && _); [by intros [= <- _]|].
  destruct (negb (old =? -1) && negb (old =? policy (tasks k2 p))) eqn:Er.
  - destruct (Z.ltb_spec (s32 (sched_policy attr)) 0); [|zbool; lia].
    replace (-1) with (s32 (sched_policy attr)) by lia. apply IH; try done.
  - destruct (if dl_policy pol || _ then _ else _) as [k3 o] eqn:Eo.
    assert (E3 : k3 ≡c k2).
    { destruct (_ || _); [|by simplify_eq].
      replace k3 with (sched_dl_overflow p pol attr k2).1 by by rewrite Eo. apply law_dl_overflow. }
    assert (Ht3 : all_typed k3) by by apply (all_typed_equiv k2); [symmetry|].
    destruct o; [by intros [= <- _]|]. intros [= <- _].
    eapply setscheduler_commit_typed; [done|exact Ha|].
    rewrite (ce_task policy _ _ p E3) by done. unfold SETPARAM_POLICY.
    destruct (Z.eqb_spec (s32 (sched_policy attr)) (-1)) as [Em|Em].
    + rewrite Em in Hpol. destruct Hpol as [-> Hold]. rewrite Hold in Er. zbool.
      destruct (Ht p) as (Hv & _). destruct (negb (policy (tasks k p) =? -1)) eqn:E1.
      * cbn in Er. by destruct (Z.eqb_spec (policy (tasks k p)) (policy (tasks k2 p))).
      * destruct (Z.eqb_spec (policy (tasks k p)) (-1)) as [E|]; [|done]. by rewrite E in Hv.
    + destruct (Z.ltb_spec (s32 (sched_policy attr)) 0); [lia|]. apply Hpol.
Qed.

(** *** Fork *)

(** Everything [typed] asks for but the class. *)
Definition typed_but_class (t : task_struct) : Prop := typed (t <| class_of := idle_sched_class |>).

Lemma typed_but_class_intro t :
  valid_policy (policy t) = true -> MAX_RT_PRIO <= static_prio t < MAX_PRIO ->
  rt_range (policy t) (rt_priority t) ->
  normal_prio_f t = policy_prio (policy t) (static_prio t) (rt_priority t) ->
  prio t <= normal_prio_f t -> weight_fits (policy t) (static_prio t) (se_load (se t)) ->
  typed_but_class t.
Proof. intros. unfold typed_but_class. split_and!; cbn; try done; try lia. by left. Qed.

Lemma typed_with_class t cls :
  typed_but_class t -> class_fits (prio t) cls -> typed (t <| class_of := cls |>).
Proof. intros (A1&A2&A3&A4&A5&_&A7) Hc. by repeat (split; [done|]). Qed.

Lemma reset_child_typed t : typed_but_class t -> typed_but_class (reset_child t).
Proof.
  intros (Hv & Hs & Hr & Hn & Hle & _ & Hw). cbn in *. unfold reset_child. cbv zeta.
  set (t1 := if task_has_dl_policy t || task_has_rt_policy t then _ else _).
  assert (Ht1 : valid_policy (policy t1) = true /\ MAX_RT_PRIO <= static_prio t1 < MAX_PRIO /\
    rt_range (policy t1) (rt_priority t1) /\
    policy_prio (policy t1) (static_prio t1) (rt_priority t1) = static_prio t1).
  { unfold t1, task_has_dl_policy, task_has_rt_policy. unfold rt_range in *.
    destruct (dl_policy (policy t)) eqn:Ed, (rt_policy (policy t)) eqn:Er; cbn [orb];
      try (split_and!; cbn; done).
    assert (Hpp : forall x, policy_prio (policy t) x (rt_priority t) = x)
      by (intros; unfold policy_prio; by rewrite Ed, Er).
    destruct (PRIO_TO_NICE (static_prio t) <? 0); cbn; rewrite Er, Hpp; by repeat (split; [done|]). }
  destruct Ht1 as (Hv1 & Hs1 & Hr1 & Hp1). clearbody t1.
  set (t2 := t1 <| prio := __normal_prio t1 |> <| normal_prio_f := __normal_prio t1 |>).
  pose proof (weight_set t2 Hs1) as Hw2.
  destruct (set_load_weight_fields t2) as (E1 & E2 & E3 & E4 & E5 & E6).
  set (t3 := set_load_weight_of t2) in *. clearbody t3.
  cbn in E1, E2, E3, E4, E5, Hw2. unfold __normal_prio in E4, E5.
  apply typed_but_class_intro; cbn; rewrite ?E1, ?E2, ?E3, ?E4, ?E5; done.
Qed.

Lemma sched_fork_typed p k k' :
  all_typed k -> pview (tasks k p) = pview (tasks k (current k)) ->
  sched_fork p k = (k', 0) -> all_typed k'.
Proof.
  intros Ht Hcopy. unfold sched_fork. cbv zeta.
  set (k1 := upd_task p (fun t => t <| state := TASK_NEW |>) (__sched_fork p k)).
  assert (V1 : forall q, pview (tasks k1 q) = pview (tasks k q)).
  { intros q. unfold k1, __sched_fork. rewrite !tasks_upd_task.
    by destruct (decide (p = q)) as [<-|]; [rewrite decide_True|]. }
  set (k2 := upd_task p (fun t => t <| prio := _ |>) k1).
  set (k3 := if sched_reset_on_fork (tasks k2 p) then upd_task p reset_child k2 else k2).
  assert (B2 : typed_but_class (tasks k2 p)).
  { unfold k2. rewrite upd_task_eq. change (current k1) with (current k).
    pose proof (V1 p) as E1. pose proof (V1 (current k)) as Ec. pose proof (Ht p) as Hp.
    apply (typed_view _ (tasks k1 p)) in Hp; [|by symmetry]. destruct Hp as (?&?&?&Hn&?&_&?).
    apply typed_but_class_intro; try assumption.
    change (normal_prio_f (tasks k1 (current k)) <= normal_prio_f (tasks k1 p)).
    rewrite Hcopy in E1. rewrite <- Ec in E1. unfold pview in E1. injection E1 as _ _ _ En _ _ _.
    apply Z.eq_le_incl. by symmetry. }
  assert (B3 : typed_but_class (tasks k3 p)).
  { unfold k3. destruct (sched_reset_on_fork _); [|done]. rewrite upd_task_eq. by apply reset_child_typed. }
  assert (O3 : forall q, p <> q -> typed (tasks k3 q)).
  { intros q Hq. apply (typed_view (tasks k q)); [|apply Ht]. rewrite <- V1.
    unfold k3, k2. destruct (sched_reset_on_fork _); by rewrite !upd_task_ne. }
  clearbody k3. destruct (dl_prio (prio (tasks k3 p))) eqn:Ed; [done|].
  intros Heq%(f_equal fst). cbn [fst] in Heq. subst k'.
  set (cls := if rt_prio (prio (tasks k3 p)) then rt_sched_class else wrrSchedClass).
  set (k4 := upd_task p (fun t => t <| class_of := cls |>) k3).
  assert (Ht4 : all_typed k4).
  { intros q. unfold k4. rewrite tasks_upd_task. destruct (decide (p = q)) as [<-|]; [|by apply O3].
    apply typed_with_class; [done|]. right. rewrite Ed. unfold cls.
    by destruct (rt_prio _); [|left]. }
  clearbody k4. set (k5 := init_entity_runnable_average p k4).
  assert (Ht5 : all_typed k5) by (eapply all_typed_equiv; [symmetry; apply law_init_average|done]).
  set (k6 := __set_task_cpu p (this_cpu k) k5).
  assert (Ht6 : all_typed k6) by (apply all_typed_upd; [done|apply Ht5]).
  set (k7 := match op_task_fork _ with Some f => f p k6 | None => k6 end).
  assert (Ht7 : all_typed k7).
  { unfold k7. destruct (op_task_fork _) as [f|] eqn:Ef; [|done].
    eapply all_typed_equiv; [symmetry; by eapply law_task_fork|done]. }
  apply all_typed_upd; [done|apply Ht7].
Qed.
End Typed.

(** ** The operations as steps *)

Section Steps.
Context `{QueueFrame} `{SwitchOps} `{ClassOps} `{PolicyEnv} `{LoadOps} `{!PolicyLaws}.

(** The attributes as system calls hand them on: a nice value that was clamped
    or taken from the task, an unsigned priority, and a policy or the mark that
    it is to be kept. *)
Definition attr_range (attr : sched_attr) : Prop :=
  MIN_NICE <= sched_nice attr <= MAX_NICE /\ 0 <= sched_priority attr /\
  -1 <= s32 (sched_policy attr).

Inductive policy_step : kernel -> kernel -> Prop :=
  | step_setscheduler fuel p attr user pi k k' r :
      attr_range attr -> __sched_setscheduler fuel p attr user pi k = Ret k' r -> policy_step k k'
  | step_nice p nice k : policy_step k (set_user_nice p nice k)
  | step_inherit p donor k : policy_step k (rt_mutex_setprio p donor k)
  | step_fork p k k' :
      pview (tasks k p) = pview (tasks k (current k)) -> sched_fork p k = (k', 0) ->
      policy_step k k'
  | step_class k k' : k ≡c k' -> policy_step k k'.

(** C10: policy, priorities, class and load weight of every task stay in step
    through any sequence of policy changes, nice values, priority inheritance,
    forks and operations of the classes: the policy is a valid one, the static
    priority is a nice level, real-time priorities are 1 to 99 for real-time
    policies and 0 for the others, the normal priority is the policy's, the
    effective one is at most that, the class serves the effective priority, and
    the weight is the table's. *)
Theorem policy_types_preserved k k' : rtc policy_step k k' -> all_typed k -> all_typed k'.
Proof.
  induction 1 as [|k1 k2 k3 Hstep _ IH]; [done|]. intros Ht. apply IH. clear IH.
  destruct Hstep as [fuel p attr user pi k k' r (Hn & Hp & Hs) Hr|p nice k|p donor k|p k k' Hc Hf|k k' E].
  - unfold __sched_setscheduler in Hr. destruct (pi && in_interrupt k); [done|].
    by eapply setscheduler_loop_typed.
  - by apply set_user_nice_typed.
  - by apply rt_mutex_setprio_typed.
  - by eapply sched_fork_typed.
  - by eapply all_typed_equiv.
Qed.
End Steps.

(** ** Examples *)

Definition demo_switch_ops : SwitchOps := {|
  op_switched_from cls := None;
  op_switched_to cls := if decide (cls = wrrSchedClass) then @switchedToWrr demo_ops else fun _ _ k => k;
  op_prio_changed cls c p o k := k |}.

(** An unprivileged caller, no deadline tasks, and nobody interferes. *)
Definition demo_policy_env : PolicyEnv := {|
  dl_entity_preempt k p q := false;
  __setparam_dl p a k := k;
  __getparam_dl k p a := a;
  __checkparam_dl a := true;
  dl_param_changed k p a := false;
  sched_dl_overflow p pol a k := (k, false);
  rd_dl_bw k := 0;
  rt_mutex_adjust_pi p k := k;
  capable_sys_nice k := false;
  security_task_setscheduler k p := 0;
  security_task_getscheduler k p := 0;
  security_task_setnice k p n := 0;
  find_task_by_vpid k pid := Some pid;
  cpuset_cpus_allowed k p := {[0; 1]};
  in_interrupt k := false;
  before_lock k := k |}.

Lemma demo_policy_laws :
  @PolicyLaws demo_switch_ops demo_class_ops demo_policy_env demo_load_ops.
Proof.
  split; try done.
  - intros cls c p k. cbn. case_decide; [|done]. unfold switchedToWrr.
    cases; [apply core_resched|apply (@core_check_preempt demo_ops demo_frame)|done].
  - intros cb c k. by split_and!; auto.
Qed.

Lemma demo_typed : all_typed demo0.
Proof.
  intros p. split_and!; cbn; try done. by right; left.
Qed.

(** Task 1 lowers its own priority and is then boosted by a real-time task. *)
Lemma policy_types_preserved_witness :
  all_typed (@rt_mutex_setprio demo_ops demo_switch_ops demo_class_ops demo_policy_env 1 (Some 2)
    (@set_user_nice demo_ops 1 5 demo0)).
Proof.
  refine (@policy_types_preserved demo_ops demo_frame demo_switch_ops demo_class_ops demo_policy_env
    demo_load_ops demo_policy_laws demo0 _ _ demo_typed).
  eapply rtc_l; [apply step_nice|]. apply rtc_once, step_inherit.
Defined.
