(* ===== verification/CoreSyscalls.v ===== *)
(** * The scheduler's system calls (core.c)

    [sched_setscheduler], [sched_setattr] and the calls that read parameters
    back, with the copies to and from user space at the level of bytes, CPU
    affinity, and the priority ranges.  A pointer of the caller is [None] for
    NULL; what [copy_from_user] and [copy_to_user] find is an argument. *)

From S2P Require Import Prelude SchedTypes Core Frame Wrr CoreWake CorePolicy PolicyTyped.

(** ** Copying [struct sched_attr]

    The 48 bytes of the structure in memory, little-endian. *)

Fixpoint le_bytes (n : nat) (v : Z) : list Z :=
  match n with
  | O => []
  | S m => v mod 256 :: le_bytes m (v / 256)
  end.

Fixpoint le_val (l : list Z) : Z :=
  match l with
  | [] => 0
  | b :: l => b + 256 * le_val l
  end.

Definition field (off len : nat) (l : list Z) : Z := le_val (take len (drop off l)).

Definition SCHED_ATTR_SIZE_VER0 : Z := 48.
Definition sizeof_sched_attr : Z := 48.
Definition PAGE_SIZE : Z := 4096.

Definition attr_bytes (a : sched_attr) : list Z :=
  le_bytes 4 (sa_size a) ++ le_bytes 4 (sched_policy a) ++ le_bytes 8 (sched_flags a) ++
  le_bytes 4 (u32 (sched_nice a)) ++ le_bytes 4 (sched_priority a) ++
  le_bytes 8 (sched_runtime a) ++ le_bytes 8 (sched_deadline a) ++ le_bytes 8 (sched_period a).

Definition attr_of_bytes (l : list Z) : sched_attr :=
  mkAttr (field 0 4 l) (field 4 4 l) (field 8 8 l) (s32 (field 16 4 l)) (field 20 4 l)
    (field 24 8 l) (field 32 8 l) (field 40 8 l).

(** What the user pointer points to: the bytes that can be read from it on,
    and whether [access_ok] accepts the range. *)
Record user_buf := mkUbuf { ub_access : bool; ub_bytes : list Z }.

Definition zero_bytes (n : Z) : list Z := replicate (Z.to_nat n) 0.

(** The scan of the bytes beyond the known structure. *)
Inductive scan := scan_ok | scan_fault | scan_nonzero.
Fixpoint scan_tail (n : nat) (l : list Z) : scan :=
  match n with
  | O => scan_ok
  | S m =>
      match l with
      | [] => scan_fault
      | b :: l => if b =? 0 then scan_tail m l else scan_nonzero
      end
  end.

Definition clamp_nice (a : sched_attr) : sched_attr :=
  a <| sched_nice := clamp (sched_nice a) MIN_NICE MAX_NICE |>.

(** The error or the attributes; [-E2BIG] also tells the caller the size. *)
Definition sched_copy_attr (u : user_buf) : Z + sched_attr :=
  let bytes := ub_bytes u in
  if negb (ub_access u) then inl (- EFAULT)
  else if Z.of_nat (length bytes) <? 4 then inl (- EFAULT)
  else
    let size := field 0 4 bytes in
    if PAGE_SIZE <? size then inl (- E2BIG)
    else
      let size := if size =? 0 then SCHED_ATTR_SIZE_VER0 else size in
      if size <? SCHED_ATTR_SIZE_VER0 then inl (- E2BIG)
      else
        let tail := if sizeof_sched_attr <? size
                    then scan_tail (Z.to_nat (size - sizeof_sched_attr))
                           (drop (Z.to_nat sizeof_sched_attr) bytes)
                    else scan_ok in
        match tail with
        | scan_fault => inl (- EFAULT)
        | scan_nonzero => inl (- E2BIG)
        | scan_ok =>
            let size := Z.min size sizeof_sched_attr in
            if Z.of_nat (length bytes) <? size then inl (- EFAULT)
            else
              let filled := take (Z.to_nat size) bytes ++ zero_bytes (sizeof_sched_attr - size) in
              inr (clamp_nice (attr_of_bytes filled))
        end.

(** The result and, on success, the bytes written to the user buffer. *)
Definition sched_read_attr (access copy_ok : bool) (a : sched_attr) (usize : Z)
    : Z * option (list Z) :=
  if negb access then (- EFAULT, None)
  else if (usize <? sizeof_sched_attr) &&
          existsb (fun b => negb (b =? 0)) (drop (Z.to_nat usize) (attr_bytes a))
  then (- EFBIG, None)
  else
    let a := if usize <? sizeof_sched_attr then a <| sa_size := usize |> else a in
    if copy_ok then (0, Some (take (Z.to_nat (sa_size a)) (attr_bytes a)))
    else (- EFAULT, None).

Section Calls.
Context `{QueueOps} `{SwitchOps} `{ClassOps} `{PolicyEnv}.

Definition find_process_by_pid (k : kernel) (pid : Z) : option Z :=
  if pid =? 0 then Some (current k) else find_task_by_vpid k pid.

(** [param] is [None] for NULL, [Some None] when the copy faults. *)
Definition do_sched_setscheduler (fuel : nat) (pid pol : Z) (param : option (option Z))
    (k : kernel) : setsched :=
  match param with
  | None => Ret k (- EINVAL)
  | Some lparam =>
      if pid <? 0 then Ret k (- EINVAL)
      else match lparam with
           | None => Ret k (- EFAULT)
           | Some prio =>
               match find_process_by_pid k pid with
               | None => Ret k (- ESRCH)
               | Some p => sched_setscheduler fuel p pol prio k
               end
           end
  end.

Definition sys_sched_setscheduler (fuel : nat) (pid pol : Z) (param : option (option Z))
    (k : kernel) : setsched :=
  if pol <? 0 then Ret k (- EINVAL) else do_sched_setscheduler fuel pid pol param k.

Definition sys_sched_setparam (fuel : nat) (pid : Z) (param : option (option Z))
    (k : kernel) : setsched :=
  do_sched_setscheduler fuel pid SETPARAM_POLICY param k.

Definition sys_sched_setattr (fuel : nat) (pid : Z) (uattr : option user_buf) (flags : Z)
    (k : kernel) : setsched :=
  match uattr with
  | None => Ret k (- EINVAL)
  | Some u =>
      if (pid <? 0) || negb (flags =? 0) then Ret k (- EINVAL)
      else match sched_copy_attr u with
           | inl e => Ret k e
           | inr attr =>
               if s32 (sched_policy attr) <? 0 then Ret k (- EINVAL)
               else match find_process_by_pid k pid with
                    | None => Ret k (- ESRCH)
                    | Some p => sched_setattr fuel p attr k
                    end
           end
  end.

Definition sys_sched_getscheduler (k : kernel) (pid : Z) : Z :=
  if pid <? 0 then - EINVAL
  else match find_process_by_pid k pid with
       | None => - ESRCH
       | Some p =>
           let retval := security_task_getscheduler k p in
           if negb (retval =? 0) then retval
           else Z.lor (policy (tasks k p))
                  (if sched_reset_on_fork (tasks k p) then SCHED_RESET_ON_FORK else 0)
       end.

(** The result and the priority written to the caller's buffer. *)
Definition sys_sched_getparam (k : kernel) (pid : Z) (param copy_ok : bool) : Z * option Z :=
  if negb param || (pid <? 0) then (- EINVAL, None)
  else match find_process_by_pid k pid with
       | None => (- ESRCH, None)
       | Some p =>
           let retval := security_task_getscheduler k p in
           if negb (retval =? 0) then (retval, None)
           else
             let lp := if task_has_rt_policy (tasks k p) then rt_priority (tasks k p) else 0 in
             if copy_ok then (0, Some lp) else (- EFAULT, None)
       end.

Definition read_attr_of (k : kernel) (p : Z) : sched_attr :=
  let t := tasks k p in
  let attr := mkAttr sizeof_sched_attr (u32 (policy t))
                (if sched_reset_on_fork t then SCHED_FLAG_RESET_ON_FORK else 0) 0 0 0 0 0 in
  if task_has_dl_policy t then __getparam_dl k p attr
  else if task_has_rt_policy t then attr <| sched_priority := rt_priority t |>
  else attr <| sched_nice := task_nice t |>.

Definition sys_sched_getattr (k : kernel) (pid : Z) (uattr access copy_ok : bool) (size flags : Z)
    : Z * option (list Z) :=
  if negb uattr || (pid <? 0) || (PAGE_SIZE <? size) || (size <? SCHED_ATTR_SIZE_VER0) ||
     negb (flags =? 0)
  then (- EINVAL, None)
  else match find_process_by_pid k pid with
       | None => (- ESRCH, None)
       | Some p =>
           let retval := security_task_getscheduler k p in
           if negb (retval =? 0) then (retval, None)
           else sched_read_attr access copy_ok (read_attr_of k p) size
       end.

(** ** Affinity *)

(** The loop around [__set_cpus_allowed_ptr]: a concurrent change of the
    cpuset is taken over and the call repeated.  [None]: still repeating, or
    the [BUG_ON] of the migration. *)
Fixpoint affinity_loop (fuel : nat) (p : Z) (new_mask : gset Z) (k : kernel)
    : option (kernel * Z) :=
  match fuel with
  | O => None
  | S n =>
      match __set_cpus_allowed_ptr p new_mask true k with
      | None => None
      | Some (k, retval) =>
          if retval =? 0 then
            let cpus_allowed := cpuset_cpus_allowed k p in
            if negb (bool_decide (new_mask ⊆ cpus_allowed))
            then affinity_loop n p cpus_allowed k
            else Some (k, 0)
          else Some (k, retval)
      end
  end.

(** [ns_capable] is whether the caller has CAP_SYS_NICE in the task's user
    namespace, [alloc] whether the two masks can be allocated. *)
Definition sched_setaffinity (fuel : nat) (pid : Z) (in_mask : gset Z) (ns_capable alloc : bool)
    (k : kernel) : option (kernel * Z) :=
  match find_process_by_pid k pid with
  | None => Some (k, - ESRCH)
  | Some p =>
      if has_flag (flags (tasks k p)) PF_NO_SETAFFINITY then Some (k, - EINVAL)
      else if negb alloc then Some (k, - ENOMEM)
      else if negb (check_same_owner k p) && negb ns_capable then Some (k, - EPERM)
      else
        let retval := security_task_setscheduler k p in
        if negb (retval =? 0) then Some (k, retval)
        else
          let new_mask := in_mask ∩ cpuset_cpus_allowed k p in
          if task_has_dl_policy (tasks k p) && dl_bandwidth_enabled k &&
             negb (bool_decide (span (rd k) ⊆ new_mask))
          then Some (k, - EBUSY)
          else affinity_loop fuel p new_mask k
  end.

Definition sched_getaffinity (k : kernel) (pid : Z) : Z * gset Z :=
  match find_process_by_pid k pid with
  | None => (- ESRCH, ∅)
  | Some p =>
      let retval := security_task_getscheduler k p in
      if negb (retval =? 0) then (retval, ∅)
      else (0, cpus_allowed (tasks k p) ∩ cpu_active_mask k)
  end.

(** [cpumask_size()] bytes are [BITS_TO_LONGS(nr_cpumask_bits)] longs. *)
Definition cpumask_size (k : kernel) : Z := 8 * ((nr_cpu_ids k + 63) / 64).

(** The result and the mask copied out. *)
Definition sys_sched_getaffinity (k : kernel) (pid len : Z) (alloc copy_ok : bool)
    : Z * option (gset Z) :=
  if u32 (len * 8) <? nr_cpu_ids k then (- EINVAL, None)
  else if negb (Z.land len 7 =? 0) then (- EINVAL, None)
  else if negb alloc then (- ENOMEM, None)
  else
    let '(ret, mask) := sched_getaffinity k pid in
    if ret =? 0 then
      if copy_ok then (Z.min len (cpumask_size k), Some mask) else (- EFAULT, None)
    else (ret, None).

(** ** Ranges and intervals *)

Definition sched_get_priority_max (pol : Z) : Z :=
  if (pol =? SCHED_FIFO) || (pol =? SCHED_RR) then MAX_USER_RT_PRIO - 1
  else if (pol =? SCHED_DEADLINE) || (pol =? SCHED_NORMAL) || (pol =? SCHED_BATCH) ||
          (pol =? SCHED_IDLE)
  then 0 else - EINVAL.

Definition sched_get_priority_min (pol : Z) : Z :=
  if (pol =? SCHED_FIFO) || (pol =? SCHED_RR) then 1
  else if (pol =? SCHED_DEADLINE) || (pol =? SCHED_NORMAL) || (pol =? SCHED_BATCH) ||
          (pol =? SCHED_IDLE)
  then 0 else - EINVAL.

(** The result and the interval in jiffies. *)
Definition sched_rr_get_interval (k : kernel) (pid : Z) (copy_ok : bool) : Z * option Z :=
  if pid <? 0 then (- EINVAL, None)
  else match find_process_by_pid k pid with
       | None => (- ESRCH, None)
       | Some p =>
           let retval := security_task_getscheduler k p in
           if negb (retval =? 0) then (retval, None)
           else
             let time_slice := match op_get_rr_interval (class_of (tasks k p)) with
                               | Some f => f (task_cpu (tasks k p)) p k
                               | None => 0
                               end in
             if copy_ok then (0, Some time_slice) else (- EFAULT, None)
       end.
End Calls.

(** ** Bytes of the attributes *)

Lemma length_le_bytes n : forall v, length (le_bytes n v) = n.
Proof. induction n as [|n IH]; intros v; [done|]. cbn. by rewrite IH. Qed.

Lemma le_val_bytes n : forall v, 0 <= v < 256 ^ Z.of_nat n -> le_val (le_bytes n v) = v.
Proof.
  induction n as [|n IH]; intros v Hv; [cbn in *; lia|]. cbn [le_bytes le_val].
  rewrite Nat2Z.inj_succ, Z.pow_succ_r in Hv by lia.
  rewrite IH by (split; [apply Z.div_pos; lia|apply Z.div_lt_upper_bound; lia]).
  pose proof (Z.div_mod v 256 ltac:(lia)). lia.
Qed.

(** A field is what was encoded between what precedes and what follows it. *)
Lemma field_at off pre n v post l :
  off = length pre -> l = pre ++ le_bytes n v ++ post -> 0 <= v < 256 ^ Z.of_nat n ->
  field off n l = v.
Proof.
  intros -> -> Hv. unfold field. rewrite drop_app_length, take_app_le by (by rewrite length_le_bytes).
  rewrite take_ge by (by rewrite length_le_bytes). by apply le_val_bytes.
Qed.

(** The attributes fit the widths of the structure's members. *)
Definition attr_wf (a : sched_attr) : Prop :=
  inU 32 (sa_size a) /\ inU 32 (sched_policy a) /\ inU 64 (sched_flags a) /\
  inS 32 (sched_nice a) /\ inU 32 (sched_priority a) /\ inU 64 (sched_runtime a) /\
  inU 64 (sched_deadline a) /\ inU 64 (sched_period a).

Lemma length_attr_bytes a : length (attr_bytes a) = 48%nat.
Proof. unfold attr_bytes. by rewrite !length_app, !length_le_bytes. Qed.

Lemma attr_of_attr_bytes a : attr_wf a -> attr_of_bytes (attr_bytes a) = a.
Proof.
  intros (B1&B2&B3&B4&B5&B6&B7&B8). unfold attr_of_bytes, attr_bytes.
  set (l1 := le_bytes 4 (sa_size a)). set (l2 := le_bytes 4 (sched_policy a)).
  set (l3 := le_bytes 8 (sched_flags a)). set (l4 := le_bytes 4 (u32 (sched_nice a))).
  set (l5 := le_bytes 4 (sched_priority a)). set (l6 := le_bytes 8 (sched_runtime a)).
  set (l7 := le_bytes 8 (sched_deadline a)). set (l8 := le_bytes 8 (sched_period a)).
  rewrite (field_at 0 [] 4 (sa_size a) (l2 ++ l3 ++ l4 ++ l5 ++ l6 ++ l7 ++ l8)) by done.
  rewrite (field_at 4 l1 4 (sched_policy a) (l3 ++ l4 ++ l5 ++ l6 ++ l7 ++ l8)) by done.
  rewrite (field_at 8 (l1 ++ l2) 8 (sched_flags a) (l4 ++ l5 ++ l6 ++ l7 ++ l8)) by done.
  rewrite (field_at 16 (l1 ++ l2 ++ l3) 4 (u32 (sched_nice a)) (l5 ++ l6 ++ l7 ++ l8))
    by first [done|apply u32_range].
  rewrite (field_at 20 (l1 ++ l2 ++ l3 ++ l4) 4 (sched_priority a) (l6 ++ l7 ++ l8)) by done.
  rewrite (field_at 24 (l1 ++ l2 ++ l3 ++ l4 ++ l5) 8 (sched_runtime a) (l7 ++ l8)) by done.
  rewrite (field_at 32 (l1 ++ l2 ++ l3 ++ l4 ++ l5 ++ l6) 8 (sched_deadline a) l8) by done.
  rewrite (field_at 40 (l1 ++ l2 ++ l3 ++ l4 ++ l5 ++ l6 ++ l7) 8 (sched_period a) [])
    by first [done|by rewrite app_nil_r].
  rewrite s32_u32, s32_id by apply B4. by destruct a.
Qed.

(** the attributes that [sched_getattr] writes are the ones [sched_setattr]
    reads: a structure copied out with a buffer of at least its size and copied
    in again, with anything the caller keeps behind it, gives the same policy,
    flags, nice value, priority and deadline parameters. *)
Theorem sched_attr_roundtrip a usize tail :
  attr_wf a -> sa_size a = sizeof_sched_attr -> MIN_NICE <= sched_nice a <= MAX_NICE ->
  sizeof_sched_attr <= usize ->
  exists bytes, sched_read_attr true true a usize = (0, Some bytes) /\
    sched_copy_attr (mkUbuf true (bytes ++ tail)) = inr a.
Proof.
  intros Hwf Hsz Hn Hu. exists (attr_bytes a). unfold sched_read_attr. cbn [negb].
  destruct (Z.ltb_spec usize sizeof_sched_attr); [lia|]. cbn [andb].
  rewrite take_ge by (rewrite length_attr_bytes, Hsz; done). split; [done|].
  unfold sched_copy_attr. cbn [ub_access ub_bytes negb].
  rewrite length_app, length_attr_bytes.
  assert (F : field 0 4 (attr_bytes a ++ tail) = sizeof_sched_attr).
  { rewrite <- Hsz. eapply (field_at 0 [] 4); [done|unfold attr_bytes; by rewrite <- app_assoc|apply Hwf]. }
  rewrite F. unfold sizeof_sched_attr, PAGE_SIZE, SCHED_ATTR_SIZE_VER0.
  destruct (Z.ltb_spec (Z.of_nat (48 + length tail)) 4); [lia|]. cbn [Z.ltb Z.eqb Z.compare Pos.compare Pos.compare_cont Pos.eqb].
  change (Z.min 48 48) with 48. destruct (Z.ltb_spec (Z.of_nat (48 + length tail)) 48); [lia|].
  change (zero_bytes (48 - 48)) with (@nil Z). rewrite app_nil_r.
  change (Z.to_nat 48) with 48%nat. rewrite <- (length_attr_bytes a), take_app_length.
  rewrite attr_of_attr_bytes by done. f_equal. unfold clamp_nice, clamp.
  rewrite Z.max_l, Z.min_l by lia. by destruct a.
Qed.

Lemma sched_attr_roundtrip_witness :
  exists bytes, sched_read_attr true true (mkAttr 48 SCHED_RR 1 0 42 0 0 0) 64 = (0, Some bytes) /\
    sched_copy_attr (mkUbuf true (bytes ++ [7])) = inr (mkAttr 48 SCHED_RR 1 0 42 0 0 0).
Proof.
  apply (sched_attr_roundtrip (mkAttr 48 SCHED_RR 1 0 42 0 0 0) 64 [7]); by vm_compute.
Defined.

(** ** What is set is what is reported *)

Definition rview (t : task_struct) : Z * Z * bool := (policy t, rt_priority t, sched_reset_on_fork t).

(** Adjusting the lock chain changes effective priorities only. *)
Class ReportLaws `{PolicyEnv} : Prop :=
  law_adjust_report p k q : rview (tasks (rt_mutex_adjust_pi p k) q) = rview (tasks k q).

Section Report.
Context `{QueueFrame} `{SwitchOps} `{ClassOps} `{PolicyEnv} `{LoadOps} `{!PolicyLaws} `{!ReportLaws}.

Lemma rview_load t : rview (set_load_weight_of t) = rview t.
Proof. unfold set_load_weight_of. by repeat case_match. Qed.

Lemma __setscheduler_report p attr keep k :
  rview (tasks (__setscheduler p attr keep k) p) =
    (if s32 (sched_policy attr) =? SETPARAM_POLICY then policy (tasks k p)
     else s32 (sched_policy attr), sched_priority attr, sched_reset_on_fork (tasks k p)).
Proof.
  unfold __setscheduler, __setscheduler_params. cbv zeta.
  set (pol := if _ =? SETPARAM_POLICY then _ else _).
  set (k1 := upd_task p (fun t => t <| policy := pol |>) k).
  set (k2 := if dl_policy pol then _ else _).
  assert (R2 : policy (tasks k2 p) = pol /\
               sched_reset_on_fork (tasks k2 p) = sched_reset_on_fork (tasks k p)).
  { assert (R1 : policy (tasks k1 p) = pol /\
      sched_reset_on_fork (tasks k1 p) = sched_reset_on_fork (tasks k p))
      by (unfold k1; by rewrite !upd_task_eq).
    unfold k2. destruct (dl_policy pol).
    - pose proof (law_setparam_dl p attr k1) as E.
      by rewrite (ce_task policy _ _ p E), (ce_task sched_reset_on_fork _ _ p E).
    - destruct (fair_policy pol); [|done]. by rewrite !upd_task_eq. }
  clearbody k2. rewrite upd_task_eq. destruct R2 as [<- <-]. unfold set_load_weight.
  destruct keep; rewrite !upd_task_eq;
    (change (rview (set_load_weight_of (tasks k2 p <| rt_priority := sched_priority attr |>
       <| normal_prio_f := normal_prio (tasks k2 p <| rt_priority := sched_priority attr |>) |>))
       = rview (tasks k2 p <| rt_priority := sched_priority attr |>)); by rewrite rview_load).
Qed.

Lemma balance_report c k p : rview (tasks (balance_callback c k) p) = rview (tasks k p).
Proof.
  unfold balance_callback, __balance_callback. destruct (balance_callbacks _) as [|cb l]; [done|].
  cbv zeta. generalize (cb :: l). clear cb l. intros l.
  change (tasks k p) with (tasks (upd_rq c (fun r => r <| balance_callbacks := [] |>) k) p).
  generalize (upd_rq c (fun r => r <| balance_callbacks := [] |>) k). clear k.
  induction l as [|cb l IH]; intros k; [done|]. cbn [foldl]. rewrite IH.
  by apply (relocated_field rview _ _ p (law_balance cb c k)).
Qed.

Lemma setscheduler_commit_report p attr pi r k :
  rview (tasks (setscheduler_commit p attr pi r k) p) =
    (if s32 (sched_policy attr) =? SETPARAM_POLICY then policy (tasks k p)
     else s32 (sched_policy attr), sched_priority attr, r).
Proof.
  unfold setscheduler_commit. cbv zeta.
  set (k1 := upd_task p (fun t => t <| sched_reset_on_fork := r |>) k).
  set (k2 := if task_current _ _ _ then put_prev_task _ _ _ else _).
  assert (E2 : k2 ≡c k1).
  { unfold k2. destruct (task_current _ _ _), (task_on_rq_queued _ _);
      rewrite ?core_put_prev, ?core_dequeue; done. }
  rewrite balance_report.
  set (k3 := __setscheduler p attr pi k2).
  set (k4 := check_class_changed _ _ _ _ _).
  assert (E4 : k4 ≡c k3).
  { unfold k4. rewrite core_class_changed.
    destruct (task_current _ _ _), (task_on_rq_queued _ _); rewrite ?core_set_curr, ?core_enqueue; done. }
  assert (Hr : rview (tasks k4 p) = rview (tasks k3 p)) by by apply (ce_task rview).
  transitivity (rview (tasks k4 p)); [destruct pi; [apply law_adjust_report|done]|].
  rewrite Hr. unfold k3. rewrite __setscheduler_report.
  rewrite (ce_task policy _ _ p E2), (ce_task sched_reset_on_fork _ _ p E2) by done.
  unfold k1. by rewrite !upd_task_eq.
Qed.
End Report.

(** A policy with the legacy flag splits into the two and is put together
    again. *)
Lemma land_pow2 a n : 0 <= n -> Z.land a (2 ^ n) = if Z.testbit a n then 2 ^ n else 0.
Proof.
  intros Hn. apply Z.bits_inj'. intros i Hi. rewrite Z.land_spec, Z.pow2_bits_eqb by done.
  destruct (Z.eqb_spec n i) as [<-|Hne].
  - destruct (Z.testbit a n); [by rewrite Z.pow2_bits_true|by rewrite Z.bits_0].
  - rewrite andb_false_r. destruct (Z.testbit a n); [|by rewrite Z.bits_0].
    by rewrite Z.pow2_bits_false.
Qed.

Lemma split_reset_flag pol :
  0 <= pol < 2 ^ 31 ->
  let reset := has_flag pol SCHED_RESET_ON_FORK in
  let bare := if reset then Z.land pol (Z.lnot SCHED_RESET_ON_FORK) else pol in
  0 <= bare < 2 ^ 31 /\ Z.lor bare (if reset then SCHED_RESET_ON_FORK else 0) = pol.
Proof.
  intros Hp. cbv zeta. unfold has_flag. change SCHED_RESET_ON_FORK with (2 ^ 30).
  rewrite land_pow2 by lia. destruct (Z.testbit pol 30) eqn:Et; cbn [Z.eqb negb].
  2:{ rewrite Z.lor_0_r. split; [lia|done]. }
  replace (negb (2 ^ 30 =? 0)) with true by done. cbn [negb].
  pose proof (Z.lor_ldiff_and pol (2 ^ 30)) as E. rewrite land_pow2, Et, Z.ldiff_land in E by lia.
  split; [|done]. rewrite <- Z.ldiff_land.
  assert (0 <= Z.ldiff pol (2 ^ 30)) by (apply Z.ldiff_nonneg; lia).
  pose proof (Z.add_nocarry_lxor _ _ (Z.land_ldiff pol (2 ^ 30))) as Ea.
  rewrite Z.lxor_lor, Z.ldiff_land, E in Ea by apply Z.land_ldiff. rewrite Z.ldiff_land in *. lia.
Qed.

Section Reported.
Context `{QueueFrame} `{SwitchOps} `{ClassOps} `{PolicyEnv} `{LoadOps} `{!PolicyLaws} `{!ReportLaws}.

Lemma checks_error_nonzero k p pol attr user e :
  setscheduler_checks k p pol attr user = inl e -> e <> 0.
Proof.
  unfold setscheduler_checks. cbv zeta.
  destruct (_ && negb (valid_policy pol)); [by intros [= <-]|].
  destruct (negb (_ =? 0)); [by intros [= <-]|].
  destruct (_ || _); [by intros [= <-]|]. destruct (_ || xorb _ _); [by intros [= <-]|].
  destruct (user && _ && _); [by intros [= <-]|].
  destruct (security_task_setscheduler k p =? 0) eqn:E; destruct user; cbn [negb andb];
    try by intros [= <-]. intros [= <-]. zbool. done.
Qed.

(** A call with an explicit policy that succeeds leaves the task with it. *)
Lemma setscheduler_reported fuel p attr user pi k k' :
  0 <= s32 (sched_policy attr) ->
  __sched_setscheduler fuel p attr user pi k = Ret k' 0 ->
  policy (tasks k' p) = s32 (sched_policy attr) /\
  sched_reset_on_fork (tasks k' p) = has_flag (sched_flags attr) SCHED_FLAG_RESET_ON_FORK /\
  (rt_policy (s32 (sched_policy attr)) = true -> rt_priority (tasks k' p) = sched_priority attr).
Proof.
  intros Hpol. unfold __sched_setscheduler. destruct (_ && _); [done|].
  destruct fuel as [|n]; [done|]. cbn [setscheduler_loop].
  destruct (setscheduler_checks _ _ _ _ _) as [e|[[pol old] r]] eqn:Ec.
  { intros [= <- He]. by apply checks_error_nonzero in Ec. }
  assert (Hc : pol = s32 (sched_policy attr) /\ old = -1 /\
    r = has_flag (sched_flags attr) SCHED_FLAG_RESET_ON_FORK).
  { unfold setscheduler_checks in Ec. cbv zeta in Ec.
    destruct (Z.ltb_spec (s32 (sched_policy attr)) 0); [lia|].
    repeat (case_match; [done|]). by simplify_eq. }
  destruct Hc as (-> & -> & ->). unfold setscheduler_locked. cbv zeta.
  set (k2 := update_rq_clock _ (before_lock k)).
  destruct (bool_decide _); [done|].
  destruct (_ && negb _) eqn:Esame.
  { intros [= <-]. rewrite upd_task_eq. cbn. apply andb_prop in Esame as [Ep Hno].
    split_and!; [lia|done|]. intros Hrt. rewrite Hrt in Hno. zbool.
    destruct (sched_priority attr =? rt_priority (tasks k2 p)) eqn:Eq; [lia|].
    cbn in Hno. by rewrite orb_true_r in Hno. }
  destruct (_ && _ && _ && _); [done|]. cbn [Z.eqb negb andb].
  destruct (if dl_policy _ || _ then _ else _) as [k3 o]. destruct o; [done|]. intros [= <-].
  pose proof (setscheduler_commit_report p attr pi
    (has_flag (sched_flags attr) SCHED_FLAG_RESET_ON_FORK) k3) as R.
  unfold rview, SETPARAM_POLICY in R. destruct (Z.eqb_spec (s32 (sched_policy attr)) (-1)); [lia|].
  by injection R as -> -> ->.
Qed.

(** C12: what [sched_setscheduler] sets is what is reported: after a successful
    call, [sched_getscheduler] returns the very policy argument, including the
    reset-on-fork bit, and for a real-time policy [sched_getparam] returns the
    priority. *)
Theorem setscheduler_getscheduler fuel pid pol pr p k k' :
  0 <= pol < 2 ^ 31 -> 0 <= pr < 2 ^ 32 ->
  find_process_by_pid k pid = Some p -> find_process_by_pid k' pid = Some p ->
  security_task_getscheduler k' p = 0 -> 0 <= pid ->
  sys_sched_setscheduler fuel pid pol (Some (Some pr)) k = Ret k' 0 ->
  sys_sched_getscheduler k' pid = pol /\
  (rt_policy (policy (tasks k' p)) = true -> sys_sched_getparam k' pid true true = (0, Some pr)).
Proof.
  intros Hpol Hpr Hk Hk' Hsec Hpid. unfold sys_sched_setscheduler, do_sched_setscheduler.
  destruct (Z.ltb_spec pol 0); [lia|]. destruct (Z.ltb_spec pid 0); [lia|]. rewrite Hk.
  unfold sched_setscheduler, _sched_setscheduler, SETPARAM_POLICY.
  destruct (Z.eqb_spec pol (-1)); [lia|]. cbn [negb andb].
  destruct (split_reset_flag pol Hpol) as [Hb Hjoin]. cbv zeta in Hb, Hjoin.
  set (reset := has_flag pol SCHED_RESET_ON_FORK) in *.
  set (bare := if reset then _ else _) in *. clearbody bare.
  set (attr := mkAttr _ _ _ _ _ _ _ _).
  assert (Es : s32 (sched_policy attr) = bare) by (cbn; rewrite s32_u32, s32_id; lia).
  assert (Ep : sched_priority attr = pr) by (cbn; by rewrite u32_id).
  intros Hret. apply setscheduler_reported in Hret as (E1 & E2 & E3); [|lia].
  rewrite Es in E1, E3. rewrite Ep in E3. cbn in E2.
  unfold sys_sched_getscheduler, sys_sched_getparam.
  destruct (Z.ltb_spec pid 0); [lia|]. rewrite Hk', Hsec. cbn [Z.eqb negb orb]. rewrite E1, E2. split.
  - etransitivity; [|exact Hjoin]. f_equal. by destruct reset.
  - unfold task_has_rt_policy. rewrite E1. intros Hrt. by rewrite Hrt, E3.
Qed.

(** The state in which the next round of [__sched_setscheduler] checks, when the
    policy that was to be kept has changed before the lock was taken. *)
Definition next_round (p : Z) (k k1 : kernel) : Prop :=
  k1 = update_rq_clock (task_cpu (tasks (before_lock k) p)) (before_lock k).

(** Any negative policy asks for the present one. *)
Lemma checks_keep k p pol attr user :
  pol < 0 -> setscheduler_checks k p pol attr user = setscheduler_checks k p (-1) attr user.
Proof. intros Hp. unfold setscheduler_checks. by replace (pol <? 0) with true by lia. Qed.

(** The round that succeeds. *)
Lemma setscheduler_success fuel p attr user pi k' : forall pol k,
  setscheduler_loop fuel p pol attr user pi k = Ret k' 0 ->
  exists kc pol' old r, rtc (next_round p) k kc /\ (0 <= pol -> kc = k) /\
    setscheduler_checks kc p pol attr user = inr (pol', old, r) /\
    setscheduler_locked p pol' old r attr user pi (before_lock kc) = Some (k', 0).
Proof.
  induction fuel as [|n IH]; intros pol k; [done|]. cbn [setscheduler_loop].
  destruct (setscheduler_checks k p pol attr user) as [e|[[pol' old] r]] eqn:Ec.
  { intros [= <- He]. by apply checks_error_nonzero in Ec. }
  destruct (setscheduler_locked p pol' old r attr user pi (before_lock k)) as [[k1 ret]|] eqn:El.
  { intros [= <- ->]. exists k, pol', old, r. split_and!; try done. }
  intros Hl. destruct (decide (0 <= pol)) as [Hp|Hp].
  { exfalso. unfold setscheduler_checks in Ec. cbv zeta in Ec. replace (pol <? 0) with false in Ec by lia.
    assert (old = -1) as -> by (repeat (case_match; [done|]); by simplify_eq).
    unfold setscheduler_locked in El. cbv zeta in El. cbn [Z.eqb Pos.eqb negb andb] in El.
    destruct (bool_decide _); [done|]. destruct (_ && negb _); [done|].
    destruct (_ && _ && _ && _); [done|]. destruct (if _ || _ then _ else _) as [k3 [|]]; done. }
  apply IH in Hl as (kc & pol2 & old2 & r2 & R & _ & C & L). exists kc, pol2, old2, r2. split_and!.
  - by eapply rtc_l.
  - done.
  - rewrite checks_keep by lia. done.
  - done.
Qed.

(** What the locked part leaves the task with when it succeeds. *)
Lemma locked_result p pol old r attr user pi k k' :
  setscheduler_locked p pol old r attr user pi k = Some (k', 0) ->
  sched_reset_on_fork (tasks k' p) = r /\
  (rt_policy pol = true -> rt_priority (tasks k' p) = sched_priority attr) /\
  (s32 (sched_policy attr) = pol /\ pol <> SETPARAM_POLICY \/
   s32 (sched_policy attr) = SETPARAM_POLICY /\ old = pol /\ old <> -1 -> policy (tasks k' p) = pol).
Proof.
  unfold setscheduler_locked. cbv zeta. set (k2 := update_rq_clock _ k).
  destruct (bool_decide _); [done|].
  destruct (_ && negb _) eqn:Esame.
  { intros [= <-]. rewrite upd_task_eq. cbn. apply andb_prop in Esame as [Ep Hno].
    split_and!; [done| |lia]. intros Hrt. rewrite Hrt in Hno. zbool.
    destruct (sched_priority attr =? rt_priority (tasks k2 p)) eqn:Eq; [lia|].
    cbn in Hno. by rewrite orb_true_r in Hno. }
  destruct (_ && _ && _ && _); [done|]. destruct (negb (old =? -1) && _) eqn:Eold; [done|].
  destruct (if dl_policy _ || _ then _ else _) as [k3 o] eqn:E3. destruct o; [done|]. intros [= <-].
  assert (P3 : policy (tasks k3 p) = policy (tasks k2 p)).
  { destruct (dl_policy pol || _); [|by simplify_eq].
    pose proof (law_dl_overflow p pol attr k2) as E. rewrite E3 in E. by apply (ce_task policy _ _ p E). }
  pose proof (setscheduler_commit_report p attr pi r k3) as R. unfold rview in R.
  injection R as Rp Rr Rf. split_and!; [done|done|]. rewrite Rp, P3.
  destruct (Z.eqb_spec (s32 (sched_policy attr)) SETPARAM_POLICY) as [Es|Es]; [|tauto].
  intros [[? ?]|(_ & -> & Ho)]; [congruence|]. zbool.
  apply andb_false_elim in Eold as [E|E]; zbool; lia.
Qed.

(** What the checks guarantee to a caller without the capability. *)
Lemma checks_unprivileged k p pol attr pol' old r :
  capable_sys_nice k = false -> setscheduler_checks k p pol attr true = inr (pol', old, r) ->
  pol' = (if pol <? 0 then policy (tasks k p) else pol) /\ (pol < 0 -> old = pol') /\
  unprivileged_refused k p pol' attr r = false /\ (0 <= pol -> valid_policy pol = true).
Proof.
  intros Hcap Ec. unfold setscheduler_checks in Ec. cbv zeta in Ec. rewrite Hcap in Ec. cbn [negb andb] in Ec.
  destruct (Z.ltb_spec pol 0); cbn [negb andb] in Ec; repeat (case_match; [done|]); simplify_eq;
    split_and!; try done; try lia; intros; by apply negb_false_iff.
Qed.

(** C11: without CAP_SYS_NICE a successful call never gives more rights than the
    limits allow, whether it names a policy or keeps the present one, as
    [sched_setparam] does.  Seen from the state [kc] in which the rights were
    checked (the state of the call, unless the policy to be kept changed before
    the lock was taken), the caller owns the task, cannot set a deadline policy,
    cannot raise a real-time priority above both the present one and
    RLIMIT_RTPRIO, cannot lower the nice value below both the present one and
    RLIMIT_NICE, cannot leave SCHED_IDLE beyond RLIMIT_NICE and cannot clear the
    reset-on-fork flag; and the task ends with the policy and the real-time
    priority that were checked. *)
Theorem unprivileged_setscheduler_bounded fuel p attr pi k k' :
  (forall k1, capable_sys_nice k1 = false) ->
  __sched_setscheduler fuel p attr true pi k = Ret k' 0 ->
  exists kc, rtc (next_round p) k kc /\ (0 <= s32 (sched_policy attr) -> kc = k) /\
  let t := tasks kc p in
  let pol := if s32 (sched_policy attr) <? 0 then policy t else s32 (sched_policy attr) in
  check_same_owner kc p = true /\ pol <> SCHED_DEADLINE /\
  (rt_policy pol = true -> sched_priority attr <= Z.max (rt_priority t) (rlim_rtprio t)) /\
  (fair_policy pol = true ->
    Z.min (task_nice t) (MAX_NICE + 1 - rlim_nice t) <= sched_nice attr) /\
  (policy t = SCHED_IDLE -> pol <> SCHED_IDLE -> MAX_NICE + 1 - rlim_nice t <= task_nice t) /\
  (sched_reset_on_fork t = true -> sched_reset_on_fork (tasks k' p) = true) /\
  (rt_policy pol = true -> rt_priority (tasks k' p) = sched_priority attr) /\
  ((s32 (sched_policy attr) < 0 -> s32 (sched_policy attr) = SETPARAM_POLICY /\ 0 <= policy t) ->
    policy (tasks k' p) = pol).
Proof.
  intros Hcap. unfold __sched_setscheduler. destruct (_ && _); [done|]. intros Hret.
  apply setscheduler_success in Hret as (kc & pol & old & r & R & Hk & C & L).
  exists kc. split; [done|]. split; [done|]. cbv zeta.
  destruct (checks_unprivileged _ _ _ _ _ _ _ (Hcap kc) C) as (Epol & Eold & Hu & _). rewrite <- Epol.
  destruct (locked_result _ _ _ _ _ _ _ _ _ L) as (Er & Erp & Ep). rewrite Er.
  unfold unprivileged_refused, can_nice, nice_to_rlimit in Hu. rewrite (Hcap kc) in Hu.
  rewrite !orb_false_iff in Hu. destruct Hu as (((((Hf & Hr) & Hd) & Hi) & Ho) & Hs).
  split_and!.
  - by destruct (check_same_owner kc p).
  - intros E. by rewrite E in Hd.
  - intros E. rewrite E in Hr. cbn [andb] in Hr. apply orb_false_elim in Hr as [_ Hr].
    apply andb_false_elim in Hr as [?|?]; lia.
  - intros E. rewrite E in Hf. cbn [andb] in Hf. rewrite orb_false_r in Hf.
    apply andb_false_elim in Hf as [?|?]; lia.
  - intros E1 E2. unfold idle_policy in Hi. rewrite E1 in Hi. cbn [andb Z.eqb SCHED_IDLE Pos.eqb] in Hi.
    destruct (Z.eqb_spec pol SCHED_IDLE); [done|].
    rewrite orb_false_r in Hi. cbn in Hi. lia.
  - intros E. rewrite E in Hs. by destruct r.
  - done.
  - intros Hneg. apply Ep. destruct (Z.ltb_spec (s32 (sched_policy attr)) 0) as [Hlt|Hge].
    + right. destruct (Hneg Hlt) as [? ?]. split; [done|]. rewrite Eold by done. split; [done|lia].
    + left. split; [done|]. unfold SETPARAM_POLICY. lia.
Qed.
End Reported.

Lemma demo_report : @ReportLaws demo_policy_env.
Proof. done. Qed.

(** Task 1 asks for SCHED_BATCH with the reset-on-fork flag. *)
Definition batch_reset : Z := Z.lor SCHED_BATCH SCHED_RESET_ON_FORK.
Definition demo_batch : setsched :=
  @sys_sched_setscheduler demo_ops demo_switch_ops demo_class_ops demo_policy_env
    1 1 batch_reset (Some (Some 0)) demo0.

Lemma setscheduler_getscheduler_witness :
  match demo_batch with
  | Ret k' r => r = 0 /\ @sys_sched_getscheduler demo_policy_env k' 1 = batch_reset
  | _ => False
  end.
Proof.
  assert (Hr : match demo_batch with Ret _ r => r =? 0 | _ => false end = true) by by vm_compute.
  destruct demo_batch as [k' r| |] eqn:E; [|clear E; discriminate..]. apply Z.eqb_eq in Hr. subst r.
  split; [reflexivity|]. unfold demo_batch in E.
  refine (proj1 (@setscheduler_getscheduler demo_ops demo_frame demo_switch_ops demo_class_ops
    demo_policy_env demo_load_ops demo_policy_laws demo_report 1 1 batch_reset 0 1 demo0 k'
    _ _ eq_refl eq_refl eq_refl _ E)); clear E; by vm_compute.
Defined.

(** Task 1 gives itself the nice value 5; task 1, made SCHED_FIFO of priority 10
    by somebody else, sets its priority to 7 and keeps its policy. *)
Definition demo_nicer : setsched :=
  @__sched_setscheduler demo_ops demo_switch_ops demo_class_ops demo_policy_env
    1 1 (mkAttr 48 SCHED_NORMAL 0 5 0 0 0 0) true true demo0.
Definition demo_fifo : kernel :=
  upd_task 1 (fun t => t <| policy := SCHED_FIFO |> <| rt_priority := 10 |> <| prio := 89 |>
                         <| normal_prio_f := 89 |> <| class_of := rt_sched_class |>) demo0.
Definition demo_setparam : setsched :=
  @__sched_setscheduler demo_ops demo_switch_ops demo_class_ops demo_policy_env
    1 1 (mkAttr 0 (u32 SETPARAM_POLICY) 0 0 7 0 0 0) true true demo_fifo.

Lemma unprivileged_setscheduler_bounded_witness :
  match demo_nicer, demo_setparam with
  | Ret _ r, Ret k' r' => r = 0 /\ check_same_owner demo0 1 = true /\
      r' = 0 /\ exists kc, rtc (@next_round demo_policy_env 1) demo_fifo kc /\ check_same_owner kc 1 = true
  | _, _ => False
  end.
Proof.
  assert (Hr : match demo_nicer with Ret _ r => r =? 0 | _ => false end = true) by by vm_compute.
  assert (Hr' : match demo_setparam with Ret _ r => r =? 0 | _ => false end = true) by by vm_compute.
  destruct demo_nicer as [k1 r| |] eqn:E; [|clear E; discriminate..].
  destruct demo_setparam as [k2 r'| |] eqn:E'; [|clear E'; discriminate..].
  apply Z.eqb_eq in Hr, Hr'. subst r r'. unfold demo_nicer in E. unfold demo_setparam in E'.
  destruct (@unprivileged_setscheduler_bounded demo_ops demo_frame demo_switch_ops
    demo_class_ops demo_policy_env demo_load_ops demo_policy_laws demo_report 1 1
    (mkAttr 48 SCHED_NORMAL 0 5 0 0 0 0) true demo0 k1 (fun _ => eq_refl) E) as (kc & _ & Hkc & Ho & _).
  destruct (@unprivileged_setscheduler_bounded demo_ops demo_frame demo_switch_ops
    demo_class_ops demo_policy_env demo_load_ops demo_policy_laws demo_report 1 1
    (mkAttr 0 (u32 SETPARAM_POLICY) 0 0 7 0 0 0) true demo_fifo k2 (fun _ => eq_refl) E')
    as (kc2 & Hk2 & _ & Ho2 & _).
  clear E E'. split; [reflexivity|]. split; [|split; [reflexivity|exists kc2; split; [exact Hk2|exact Ho2]]].
  rewrite <- Hkc; [exact Ho|]. vm_compute. discriminate.
Defined.
