(* ===== verification/CoreSched.v ===== *)
(** * The main scheduler (core.c)

    Choosing the next task over the chain of classes, [__schedule] with the
    context switch, the tick, yielding, and taking a CPU down. *)

From S2P Require Import Prelude SchedTypes Core Frame Wrr CoreWake CorePolicy PolicyTyped.

(** ** Picking a task *)

(** [for_each_class]: the classes from the highest on, along [class->next]. *)
Fixpoint classes_from (fuel : nat) (cls : option sched_class) : list sched_class :=
  match fuel, cls with
  | S n, Some x => x :: classes_from n (class_next x)
  | _, _ => []
  end.
Definition for_each_class : list sched_class := classes_from 6 (Some stop_sched_class).

(** A task, the [BUG] when no class has one, or another round when the fuel
    runs out. *)
Inductive pick_res := Picked (k : kernel) (p : Z) | PickBug | PickAgain.

Section Pick.
Context `{ClassOps}.

Fixpoint pick_in (l : list sched_class) (c prev : Z) (k : kernel) : kernel * picked :=
  match l with
  | [] => (k, NULL_TASK)
  | cls :: l =>
      let '(k, r) := op_pick_next_task cls c prev k in
      match r with
      | NULL_TASK => pick_in l c prev k
      | _ => (k, r)
      end
  end.

Fixpoint pick_again (fuel : nat) (c prev : Z) (k : kernel) : pick_res :=
  match fuel with
  | O => PickAgain
  | S n =>
      let '(k, r) := pick_in for_each_class c prev k in
      match r with
      | TASK p => Picked k p
      | RETRY_TASK => pick_again n c prev k
      | NULL_TASK => PickBug
      end
  end.

Definition pick_next_task (fuel : nat) (c prev : Z) (k : kernel) : pick_res :=
  let cls := class_of (tasks k prev) in
  if (bool_decide (cls = idle_sched_class) || bool_decide (cls = fair_sched_class)) &&
     (nr_running (rqs k c) =? h_nr_running (cfs (rqs k c)))
  then
    let '(k, r) := op_pick_next_task fair_sched_class c prev k in
    match r with
    | RETRY_TASK => pick_again fuel c prev k
    | TASK p => Picked k p
    | NULL_TASK =>
        let '(k, r) := op_pick_next_task idle_sched_class c prev k in
        match r with
        | TASK p => Picked k p
        | _ => PickBug (* idle.c always answers with its task *)
        end
    end
  else pick_again fuel c prev k.
End Pick.

(** ** Switching *)

Section Schedule.
Context `{QueueOps} `{ClassOps} `{WakeEnv} `{LoadOps}.

Definition prepare_lock_switch (next : Z) (k : kernel) : kernel :=
  upd_task next (fun t => t <| on_cpu := true |>) k.
Definition finish_lock_switch (prev : Z) (k : kernel) : kernel :=
  upd_task prev (fun t => t <| on_cpu := false |>) k.

Definition finish_task_switch (prev : Z) (k : kernel) : kernel :=
  let prev_state := state (tasks k prev) in
  let k := finish_lock_switch prev k in
  if prev_state =? TASK_DEAD then
    match op_task_dead (class_of (tasks k prev)) with
    | Some f => f prev k
    | None => k
    end
  else k.

Definition clear_skip_flags (c : Z) (k : kernel) : kernel :=
  upd_rq c (fun r => r <| clock_update_flags ::= fun f =>
    Z.land f (u32 (Z.lnot (Z.lor RQCF_ACT_SKIP RQCF_REQ_SKIP))) |>) k.

(** The memory maps and the register state are not part of the model. *)
Definition context_switch (c prev next : Z) (k : kernel) : kernel :=
  let k := prepare_lock_switch next k in
  let k := clear_skip_flags c k in
  finish_task_switch prev k.

Definition schedule_debug (c : Z) (k : kernel) : kernel :=
  if schedstat_enabled k
  then upd_rq c (fun r => r <| sched_count ::= fun n => u32 (n + 1) |>) k else k.

(** The task that stops running: it stays runnable when it was preempted or a
    signal is pending, and is taken off the queue otherwise. *)
Definition deschedule_prev (c prev : Z) (k : kernel) : kernel :=
  if signal_pending_state k (state (tasks k prev)) prev
  then upd_task prev (fun t => t <| state := TASK_RUNNING |>) k
  else
    let k := deactivate_task c prev (Z.lor DEQUEUE_SLEEP DEQUEUE_NOCLOCK) k in
    let k := upd_task prev (fun t => t <| on_rq := 0 |>) k in
    let k := if in_iowait (tasks k prev)
             then call delayacct_blkio_start
                    (upd_rq c (fun r => r <| nr_iowait ::= fun n => s32 (n + 1) |>) k)
             else k in
    if has_flag (flags (tasks k prev)) PF_WQ_WORKER then
      match wq_worker_sleeping k prev with
      | Some to_wakeup => try_to_wake_up_local to_wakeup k
      | None => k
      end
    else k.

(** [__schedule] up to [pick_next_task]: the state, and whether the task gives
    up the CPU on its own. *)
Definition schedule_prepare (preempt : bool) (k : kernel) : kernel * bool :=
  let c := this_cpu k in
  let prev := curr (rqs k c) in
  let k := schedule_debug c k in
  let k := upd_rq c (fun r => r <| clock_update_flags ::= fun f => u32 (Z.shiftl f 1) |>) k in
  let k := update_rq_clock c k in
  let voluntary := negb preempt && negb (state (tasks k prev) =? 0) in
  (if voluntary then deschedule_prev c prev k else k, voluntary).

Definition __schedule (fuel : nat) (preempt : bool) (k : kernel) : pick_res :=
  let c := this_cpu k in
  let prev := curr (rqs k c) in
  let '(k, voluntary) := schedule_prepare preempt k in
  match pick_next_task fuel c prev k with
  | Picked k next =>
      let k := upd_task prev (fun t => t <| need_resched := false |>) k in
      if negb (prev =? next) then
        let k := upd_rq c (fun r => r <| nr_switches ::= fun n => u64 (n + 1) |>
                                      <| curr := next |>) k in
        let k := upd_task prev (fun t =>
                   if voluntary then t <| nvcsw ::= fun n => u64 (n + 1) |>
                   else t <| nivcsw ::= fun n => u64 (n + 1) |>) k in
        Picked (balance_callback c (context_switch c prev next k)) next
      else Picked (balance_callback c (clear_skip_flags c k)) next
  | r => r
  end.

(** ** The tick *)

(** [thisRq] is the uninitialised variable of [pullTaskWrr]; [None] as there. *)
Definition scheduler_tick (thisRq : Z) (k : kernel) : option kernel :=
  let c := this_cpu k in
  let cur := curr (rqs k c) in
  let k := update_rq_clock c k in
  let k := op_task_tick (class_of (tasks k cur)) c cur 0 k in
  let k := cpu_load_update_active c k in
  let k := call (calc_global_load_tick c) k in
  let k := call perf_event_task_tick k in
  let k := upd_rq c (fun r => r <| idle_balance := idle_cpu k c |>) k in
  let k := call (trigger_load_balance c) k in
  if idle_cpu k c then pullTaskWrr thisRq k else Some k.

(** ** Yielding *)

(** The state in which [schedule] is entered. *)
Definition yield_prepare (k : kernel) : kernel :=
  let c := this_cpu k in
  let k := if schedstat_enabled k
           then upd_rq c (fun r => r <| yld_count ::= fun n => u32 (n + 1) |>) k else k in
  op_yield_task (class_of (tasks k (current k))) c k.

Definition sys_sched_yield (fuel : nat) (k : kernel) : pick_res :=
  __schedule fuel false (yield_prepare k).

(** The state and the result; [schedule] follows when the result is
    positive.  The locks of both run queues are taken without delay. *)
Definition yield_to (p : Z) (preempt : bool) (k : kernel) : kernel * Z :=
  let c := this_cpu k in
  let cur := current k in
  let p_rq := task_cpu (tasks k p) in
  if (nr_running (rqs k c) =? 1) && (nr_running (rqs k p_rq) =? 1) then (k, - ESRCH)
  else
    match op_yield_to_task (class_of (tasks k cur)) with
    | None => (k, 0)
    | Some yield_to_task =>
        if negb (bool_decide (class_of (tasks k cur) = class_of (tasks k p))) then (k, 0)
        else if task_running k p || negb (state (tasks k p) =? 0) then (k, 0)
        else
          let '(k, yielded) := yield_to_task c p preempt k in
          if yielded then
            let k := if schedstat_enabled k
                     then upd_rq c (fun r => r <| yld_count ::= fun n => u32 (n + 1) |>) k
                     else k in
            (if preempt && negb (c =? p_rq) then resched_curr p_rq k else k, 1)
          else (k, 0)
    end.

(** ** Hotplug *)

Definition set_rq_online (c : Z) (k : kernel) : kernel :=
  if negb (online (rqs k c)) then
    let k := k <| rd ::= fun d => d <| rd_online ::= union {[rq_cpu (rqs k c)]} |> |> in
    let k := upd_rq c (fun r => r <| online := true |>) k in
    foldl (fun k cls => match op_rq_online cls with Some f => f c k | None => k end)
      k for_each_class
  else k.

Definition set_rq_offline (c : Z) (k : kernel) : kernel :=
  if online (rqs k c) then
    let k := foldl (fun k cls => match op_rq_offline cls with Some f => f c k | None => k end)
               k for_each_class in
    let k := k <| rd ::= fun d => d <| rd_online ::= fun m => m ∖ {[rq_cpu (rqs k c)]} |> |> in
    upd_rq c (fun r => r <| online := false |>) k
  else k.

(** The static task of [fake_sched_class], whose [put_prev_task] is empty, with
    priority [MAX_PRIO + 1], which keeps the classes from pulling; its id. *)
Definition fake_task : Z := -1.
Definition is_fake (t : task_struct) : Prop :=
  class_of t = fake_sched_class /\ prio t = MAX_PRIO + 1.

(** One round per task that is moved; [None]: out of rounds, a failed
    [BUG_ON], or no task to pick. *)
Fixpoint migrate_loop (fuel : nat) (dead_rq : Z) (k : kernel) : option kernel :=
  match fuel with
  | O => None
  | S n =>
      if nr_running (rqs k dead_rq) =? 1 then Some k
      else
        match pick_next_task n dead_rq fake_task k with
        | Picked k next =>
            let k := put_prev_task dead_rq next k in
            if negb (task_cpu (tasks k next) =? dead_rq) || negb (task_on_rq_queued k next)
            then migrate_loop n dead_rq k
            else
              match select_fallback_rq (rq_cpu (rqs k dead_rq)) next k with
              | None => None
              | Some (k, dest_cpu) =>
                  match __migrate_task dead_rq next dest_cpu k with
                  | None => None
                  | Some k => migrate_loop n dead_rq k
                  end
              end
        | _ => None
        end
  end.

Definition migrate_tasks (fuel : nat) (dead_rq : Z) (k : kernel) : option kernel :=
  let stopper := stop (rqs k dead_rq) in
  let k := upd_rq dead_rq (fun r => r <| stop := None |>) k in
  let k := update_rq_clock dead_rq k in
  match migrate_loop fuel dead_rq k with
  | Some k => Some (upd_rq dead_rq (fun r => r <| stop := stopper |>) k)
  | None => None
  end.

(** [None] is a failed [BUG_ON]. *)
Definition sched_cpu_dying (fuel : nat) (k : kernel) : option kernel :=
  let c := this_cpu k in
  let k := sched_ttwu_pending k in
  if negb (bool_decide (c ∈ span (rd k))) then None
  else
    let k := set_rq_offline c k in
    match migrate_tasks fuel c k with
    | Some k => if nr_running (rqs k c) =? 1 then Some k else None
    | None => None
    end.
End Schedule.

(** ** The fast path of [pick_next_task] *)

(** How the run queue counts: [stop_running] is whether the stop task is
    queued, and a throttled real-time queue is not counted. *)
Definition rt_count (r : rq) : Z := if rt_queued (rt r) then rt_nr_running (rt r) else 0.
Definition counted (stop_running : kernel -> Z -> Z) (k : kernel) (c : Z) : Prop :=
  let r := rqs k c in
  nr_running r = stop_running k c + dl_nr_running r + rt_count r + nrRunning (wrr r) +
                 h_nr_running (cfs r) /\
  0 <= stop_running k c /\ 0 <= dl_nr_running r /\ 0 <= nrRunning (wrr r) /\
  (rt_queued (rt r) = true -> 0 < rt_nr_running (rt r)).

(** A class without queued tasks has nothing to offer to a task of a lower
    class, and the idle class always has its task. *)
Class PickLaws `{ClassOps} (stop_running : kernel -> Z -> Z) : Prop := {
  law_pick_stop c prev k : stop_running k c = 0 ->
    op_pick_next_task stop_sched_class c prev k = (k, NULL_TASK);
  law_pick_dl c prev k : dl_nr_running (rqs k c) = 0 -> dl_task (tasks k prev) = false ->
    op_pick_next_task dl_sched_class c prev k = (k, NULL_TASK);
  law_pick_rt c prev k : rt_queued (rt (rqs k c)) = false ->
    class_of (tasks k prev) <> rt_sched_class ->
    highest_prio_curr (rt (rqs k c)) <= prio (tasks k prev) ->
    op_pick_next_task rt_sched_class c prev k = (k, NULL_TASK);
  law_pick_wrr c prev k : nrRunning (wrr (rqs k c)) = 0 ->
    op_pick_next_task wrrSchedClass c prev k = (k, NULL_TASK);
  law_pick_idle c prev k : exists k' p, op_pick_next_task idle_sched_class c prev k = (k', TASK p) }.

Section FastPath.
Context `{ClassOps} (stop_running : kernel -> Z -> Z) `{!PickLaws stop_running}.

(** A state in which the shortcut's guard holds: nothing but fair tasks is
    queued, so that the classes above the fair one decline. *)
Lemma higher_classes_decline fuel c prev k :
  counted stop_running k c -> nr_running (rqs k c) = h_nr_running (cfs (rqs k c)) ->
  class_of (tasks k prev) <> rt_sched_class ->
  MAX_RT_PRIO <= prio (tasks k prev) -> highest_prio_curr (rt (rqs k c)) <= MAX_RT_PRIO ->
  pick_again (S fuel) c prev k =
    let '(k, r) := pick_in [fair_sched_class; idle_sched_class] c prev k in
    match r with TASK p => Picked k p | RETRY_TASK => pick_again fuel c prev k | NULL_TASK => PickBug end.
Proof using Type*.
  intros (Hcnt & Hs & Hd & Hw & Hrt) Hnr Hcls Hprio Hhi. unfold rt_count in Hcnt.
  assert (Hz : stop_running k c = 0 /\ dl_nr_running (rqs k c) = 0 /\
    nrRunning (wrr (rqs k c)) = 0 /\ rt_queued (rt (rqs k c)) = false).
  { destruct (rt_queued (rt (rqs k c))) eqn:Eq; [specialize (Hrt eq_refl); lia|].
    split_and!; try lia; done. }
  destruct Hz as (Zs & Zd & Zw & Zr).
  assert (Hdl : dl_task (tasks k prev) = false)
    by (unfold dl_task, dl_prio, MAX_DL_PRIO, MAX_RT_PRIO in *; lia).
  cbn [pick_again for_each_class classes_from class_next pick_in].
  by rewrite law_pick_stop, law_pick_dl, law_pick_rt, law_pick_wrr by (done || lia).
Qed.

(** C9: the optimisation of [pick_next_task] is sound in every state in which the
    run queue counts the tasks of its classes and a previous task of the fair or
    idle class has no real-time priority: whatever the previous task and whatever
    is queued, the result and the state are those of the walk over all classes,
    which is entered at most once more. *)
Theorem pick_next_task_fast_path fuel c prev k :
  counted stop_running k c ->
  (class_of (tasks k prev) = fair_sched_class \/ class_of (tasks k prev) = idle_sched_class ->
    MAX_RT_PRIO <= prio (tasks k prev)) ->
  highest_prio_curr (rt (rqs k c)) <= MAX_RT_PRIO ->
  exists n, (fuel <= n <= S fuel)%nat /\ pick_next_task fuel c prev k = pick_again n c prev k.
Proof using Type*.
  intros Hcnt Hprio Hhi. unfold pick_next_task. destruct (_ && _) eqn:Eg.
  2:{ exists fuel. split; [lia|done]. }
  apply andb_prop in Eg as [Hcls Hnr]. apply Z.eqb_eq in Hnr.
  assert (Hc : class_of (tasks k prev) = fair_sched_class \/ class_of (tasks k prev) = idle_sched_class).
  { apply orb_prop in Hcls as [H1%bool_decide_eq_true|H1%bool_decide_eq_true]; auto. }
  exists (S fuel). split; [lia|]. symmetry. rewrite higher_classes_decline; [|done..| |by apply Hprio|done].
  2:{ destruct Hc as [-> | ->]; done. }
  cbn [pick_in]. destruct (op_pick_next_task fair_sched_class c prev k) as [k1 [| |p]]; try done.
  by destruct (law_pick_idle c prev k1) as (k2 & p & ->).
Qed.
End FastPath.

(** The hypotheses on the weighted round-robin class hold of [wrr.c]. *)
Lemma pickWrr_declines c prev k : nrRunning (wrr (rqs k c)) = 0 -> pickWrr c prev k = (k, NULL_TASK).
Proof. intros E. unfold pickWrr, pickNextTaskWrr. by rewrite E. Qed.

Lemma demo_pick_laws : @PickLaws demo_class_ops (fun _ _ => 0).
Proof.
  split; try done.
  - intros c prev k Hn. cbn. by apply pickWrr_declines.
  - intros c prev k. by exists k, (idle (rqs k c)).
Qed.

(** CPU 1 of the example is empty: its idle task is picked by the shortcut.  On
    CPU 0 tasks of the round-robin class are queued, and the walk picks one. *)
Definition demo_idle_prev : kernel := upd_task 0 (fun t => t <| class_of := idle_sched_class |>) demo2.

Lemma pick_next_task_fast_path_witness :
  (exists n, (0 <= n <= 1)%nat /\
    @pick_next_task demo_class_ops 0 1 0 demo_idle_prev = @pick_again demo_class_ops n 1 0 demo_idle_prev) /\
  (exists n, (1 <= n <= 2)%nat /\
    @pick_next_task demo_class_ops 1 0 0 demo_idle_prev = @pick_again demo_class_ops n 0 0 demo_idle_prev).
Proof.
  split; apply (@pick_next_task_fast_path demo_class_ops (fun _ _ => 0) demo_pick_laws);
    [unfold counted; split_and!|..|unfold counted; split_and!| |]; by vm_compute.
Defined.

(** ** Which task runs where *)

(** Every CPU's current task is marked [on_cpu] there, and only those are. *)
Definition running_ok (k : kernel) : Prop :=
  (forall c, 0 <= c < nr_cpu_ids k ->
    on_cpu (tasks k (curr (rqs k c))) = true /\ task_cpu (tasks k (curr (rqs k c))) = c) /\
  (forall p, on_cpu (tasks k p) = true ->
    0 <= task_cpu (tasks k p) < nr_cpu_ids k /\ curr (rqs k (task_cpu (tasks k p))) = p).

(** Steps that start or stop no task. *)
Definition still (k k' : kernel) : Prop :=
  (forall q, on_cpu (tasks k' q) = on_cpu (tasks k q)) /\
  (forall q, on_cpu (tasks k q) = true -> task_cpu (tasks k' q) = task_cpu (tasks k q)) /\
  (forall c, curr (rqs k' c) = curr (rqs k c)) /\
  nr_cpu_ids k' = nr_cpu_ids k /\ this_cpu k' = this_cpu k.

#[export] Instance still_preorder : PreOrder still.
Proof.
  split; [by intros k; split_and!|].
  intros k1 k2 k3 (A1&A2&A3&A4&A5) (B1&B2&B3&B4&B5). split_and!; try congruence.
  intros q Hq. rewrite B2 by by rewrite A1. by apply A2.
Qed.

Lemma still_running k k' : still k k' -> running_ok k -> running_ok k'.
Proof.
  intros (A1&A2&A3&A4&_) [R1 R2]. split.
  - intros c Hc. rewrite A4 in Hc. destruct (R1 c Hc) as [Ho Ht]. by rewrite A3, A1, A2.
  - intros p Hp. rewrite A1 in Hp. rewrite A2, A3, A4 by done. by apply R2.
Qed.

Lemma still_equiv k k' : k' ≡c k -> still k k'.
Proof.
  intros E. destruct (ce_glob _ _ E) as (Et & En & _).
  split_and!; try done; intros; [by apply (ce_task on_cpu)|by apply (ce_task task_cpu)|by apply (ce_rq curr)].
Qed.

Lemma still_relocated k k' : relocated k k' -> still k k'.
Proof.
  intros R. pose proof R as (_&_&H1&H2&E). unfold core_glob in E. injection E as Et En _ _ _ _ _ _ _.
  split_and!; try done; [|intros c; by apply H2].
  intros q. by apply (relocated_field on_cpu _ _ q R).
Qed.

Lemma still_upd_task p f k :
  (forall t, on_cpu (f t) = on_cpu t /\ task_cpu (f t) = task_cpu t) -> still k (upd_task p f k).
Proof.
  intros Hf. split_and!; try done; intros q; rewrite tasks_upd_task; case_decide as Hd; try done;
    subst; by destruct (Hf (tasks k q)).
Qed.

Lemma still_upd_rq c f k : (forall r, curr (f r) = curr r) -> still k (upd_rq c f k).
Proof.
  intros Hf. split_and!; try done. intros d. rewrite rqs_upd_rq. case_decide; [subst; apply Hf|done].
Qed.

Ltac still_back :=
  cbv zeta;
  repeat match goal with
  | |- still ?k ?k => reflexivity
  | |- context [if ?b then _ else _] => destruct b
  | |- still ?k (upd_rq ?c ?f ?k') => transitivity k'; [|by apply still_upd_rq]
  | |- still ?k (upd_task ?c ?f ?k') => transitivity k'; [|by apply still_upd_task]
  | |- still ?k (call ?e ?k') => transitivity k'; [|done]
  | |- _ => done
  end.

(** What scheduling asks of the classes: picking may move waiting tasks, and
    hooks on dying tasks keep to themselves. *)
Class ScheduleLaws `{ClassOps} : Prop := {
  law_pick_frame cls c prev k : relocated k (op_pick_next_task cls c prev k).1;
  law_dead cls f p k : op_task_dead cls = Some f -> f p k ≡c k;
  law_balance_frame cb c k : relocated k (op_balance cb c k) }.

Section Running.
Context `{QueueFrame} `{ClassOps} `{!WokenLaws} `{!ScheduleLaws} `{WakeEnv} `{LoadOps}.

Lemma still_wakeup_local p k : still k (try_to_wake_up_local p k).
Proof.
  unfold try_to_wake_up_local. cbv zeta. destruct (_ || _); [done|]. destruct (negb _); [done|].
  set (c := task_cpu _).
  set (k1 := if negb (task_on_rq_queued k p) then _ else k).
  assert (S1 : still k k1).
  { unfold k1. destruct (negb _); [|done]. unfold ttwu_activate, wake_iowait. cbv zeta.
    set (k2 := if in_iowait _ then _ else k). assert (still k k2) by (unfold k2; still_back).
    set (k3 := activate_task _ _ _ k2). assert (still k2 k3).
    { etransitivity; [|apply still_equiv, activate_core]. still_back. }
    transitivity k3; [by transitivity k2|still_back]. }
  transitivity k1; [done|].
  etransitivity; [|apply still_equiv, ttwu_stat_core].
  unfold ttwu_do_wakeup. cbv zeta. set (k2 := check_preempt_curr _ _ _ k1).
  assert (still k1 k2) by apply still_equiv, core_check_preempt.
  set (k3 := upd_task p _ k2). assert (still k2 k3) by by apply still_upd_task.
  set (k4 := match op_task_woken _ with Some f => f c p k3 | None => k3 end).
  assert (still k3 k4).
  { unfold k4. destruct (op_task_woken _) as [f|] eqn:E; [|done].
    eapply still_relocated, law_woken; done. }
  transitivity k4; [by do 2 (etransitivity; [|eassumption])|still_back].
Qed.

Lemma still_deschedule c prev k : still k (deschedule_prev c prev k).
Proof.
  unfold deschedule_prev. cbv zeta. destruct (signal_pending_state _ _ _); [still_back|].
  set (k1 := deactivate_task c prev _ k).
  assert (still k k1).
  { etransitivity; [|apply still_equiv, core_dequeue]. still_back. }
  set (k2 := upd_task prev _ k1). assert (still k1 k2) by by apply still_upd_task.
  set (k3 := if in_iowait _ then _ else k2). assert (still k2 k3) by (unfold k3; still_back).
  assert (still k k3) by (by do 2 (etransitivity; [|eassumption])).
  destruct (has_flag _ _); [|done]. destruct (wq_worker_sleeping _ _); [|done].
  by transitivity k3; [|apply still_wakeup_local].
Qed.

Lemma still_pick cls c prev k k' r :
  op_pick_next_task cls c prev k = (k', r) -> still k k'.
Proof.
  intros E. pose proof (law_pick_frame cls c prev k) as F. rewrite E in F. by apply still_relocated.
Qed.

Lemma still_pick_in l c prev : forall k k' r, pick_in l c prev k = (k', r) -> still k k'.
Proof.
  induction l as [|cls l IH]; intros k k' r; cbn [pick_in]; [by intros [= <- <-]|].
  destruct (op_pick_next_task cls c prev k) as [k1 r1] eqn:E. apply still_pick in E.
  destruct r1; try by intros [= <- <-]. intros S%IH. by transitivity k1.
Qed.

Lemma still_pick_again fuel c prev : forall k k' p,
  pick_again fuel c prev k = Picked k' p -> still k k'.
Proof.
  induction fuel as [|n IH]; intros k k' p; [done|]. cbn [pick_again].
  destruct (pick_in for_each_class c prev k) as [k1 r] eqn:E. apply still_pick_in in E.
  destruct r as [| |q]; [|done|by intros [= <- <-]]. intros S%IH. by transitivity k1.
Qed.

Lemma still_pick_next fuel c prev k k' p :
  pick_next_task fuel c prev k = Picked k' p -> still k k'.
Proof.
  unfold pick_next_task. destruct (_ && _); [|apply still_pick_again].
  destruct (op_pick_next_task fair_sched_class c prev k) as [k1 r] eqn:E. apply still_pick in E.
  destruct r as [| |q]; [|destruct (op_pick_next_task idle_sched_class c prev k1) as [k2 r2] eqn:E2|].
  - intros S%still_pick_again. by transitivity k1.
  - apply still_pick in E2. destruct r2; try done. intros [= <- <-]. by transitivity k1.
  - by intros [= <- <-].
Qed.

Lemma still_balance c k : still k (balance_callback c k).
Proof.
  unfold balance_callback, __balance_callback. destruct (balance_callbacks _) as [|cb l]; [done|].
  cbv zeta. transitivity (upd_rq c (fun r => r <| balance_callbacks := [] |>) k); [still_back|].
  generalize (cb :: l). generalize (upd_rq c (fun r => r <| balance_callbacks := [] |>) k).
  clear k cb l. intros k l. revert k. induction l as [|cb l IH]; intros k; [done|]. cbn [foldl].
  etransitivity; [|apply IH]. apply still_relocated, law_balance_frame.
Qed.

(** The switch itself, from a state in which the run queue names the next
    task already. *)
Lemma context_switch_running c prev next k k0 :
  0 <= c < nr_cpu_ids k -> running_ok k -> curr (rqs k c) = prev -> prev <> next ->
  task_cpu (tasks k next) = c -> nr_cpu_ids k0 = nr_cpu_ids k ->
  (forall q, on_cpu (tasks k0 q) = on_cpu (tasks k q) /\ task_cpu (tasks k0 q) = task_cpu (tasks k q)) ->
  (forall d, curr (rqs k0 d) = if decide (c = d) then next else curr (rqs k d)) ->
  let k' := context_switch c prev next k0 in
  running_ok k' /\ curr (rqs k' c) = next.
Proof.
  intros Hc [R1 R2] Hprev Hne Hnext Hids T0 C0. destruct (R1 c Hc) as [Hon Hcpu].
  rewrite Hprev in Hon, Hcpu. unfold context_switch, clear_skip_flags, prepare_lock_switch.
  set (k1 := upd_rq c _ _). set (k2 := finish_lock_switch prev k1).
  assert (T2 : forall q, on_cpu (tasks k2 q) = (if decide (prev = q) then false
      else if decide (next = q) then true else on_cpu (tasks k q)) /\
    task_cpu (tasks k2 q) = task_cpu (tasks k q)).
  { intros q. destruct (T0 q) as [<- <-]. unfold k2, finish_lock_switch, k1.
    rewrite tasks_upd_task, !tasks_upd_rq, !tasks_upd_task. repeat case_decide; subst; done. }
  assert (C2 : forall d, curr (rqs k2 d) = if decide (c = d) then next else curr (rqs k d)).
  { intros d. rewrite <- C0. unfold k2, k1, finish_lock_switch.
    rewrite rqs_upd_task, rqs_upd_rq, rqs_upd_task. by case_decide; subst. }
  assert (K2 : running_ok k2 /\ curr (rqs k2 c) = next).
  { split; [|rewrite C2; by rewrite decide_True]. unfold running_ok.
    change (nr_cpu_ids k2) with (nr_cpu_ids k0). rewrite Hids. split.
    - intros d Hd. rewrite C2. destruct (decide (c = d)) as [<-|Hcd].
      + destruct (T2 next) as [-> ->]. by rewrite decide_False, decide_True.
      + destruct (R1 d Hd) as [Ho Ht]. destruct (T2 (curr (rqs k d))) as [-> ->].
        rewrite decide_False; [|intros E; rewrite <- E in Ht; congruence].
        by case_decide.
    - intros p. destruct (T2 p) as [-> ->]. rewrite C2.
      destruct (decide (prev = p)); [done|]. destruct (decide (next = p)) as [<-|Hnp].
      + intros _. rewrite Hnext. by rewrite decide_True.
      + intros Hp. destruct (R2 p Hp) as [Hr Hcur]. split; [done|].
        rewrite decide_False; [done|]. intros E. rewrite <- E, Hprev in Hcur. done. }
  unfold finish_task_switch. cbv zeta. fold k2. destruct (_ =? _); [|done].
  destruct (op_task_dead _) as [f|] eqn:E; [|done].
  pose proof (law_dead _ _ prev k2 E) as Ef. apply still_equiv in Ef as S.
  split; [by eapply still_running; [|apply K2]|]. destruct S as (_&_&->&_). apply K2.
Qed.

Lemma still_prepare preempt k : still k (schedule_prepare preempt k).1.
Proof.
  unfold schedule_prepare. cbv zeta. cbn [fst]. set (k1 := update_rq_clock _ _).
  assert (S1 : still k k1).
  { etransitivity; [|apply still_equiv, core_clock]. unfold schedule_debug. still_back. }
  destruct (_ && _); [|done]. transitivity k1; [done|apply still_deschedule].
Qed.

(** C8: [__schedule] switches properly: if every CPU's current task is the one
    marked as running there and no other is, and the task picked is queued on
    this CPU, then this holds afterwards too, and the CPU runs the task that was
    picked, whichever class it came from and whatever the classes and their
    balance callbacks moved meanwhile. *)
Theorem schedule_switches fuel preempt k k' next :
  running_ok k -> 0 <= this_cpu k < nr_cpu_ids k ->
  (forall k1, pick_next_task fuel (this_cpu k) (current k) (schedule_prepare preempt k).1 = Picked k1 next ->
    task_cpu (tasks k1 next) = this_cpu k) ->
  __schedule fuel preempt k = Picked k' next ->
  running_ok k' /\ curr (rqs k' (this_cpu k)) = next.
Proof.
  intros R Hc Hlocal. unfold __schedule, current in *. cbv zeta. set (c := this_cpu k) in *.
  set (prev := curr (rqs k c)) in *.
  pose proof (still_prepare preempt k) as S2.
  destruct (schedule_prepare preempt k) as [k2 voluntary]. cbn [fst] in *.
  destruct (pick_next_task fuel c prev k2) as [k3 p| |] eqn:Ep; try done.
  pose proof (still_pick_next _ _ _ _ _ _ Ep) as S3.
  set (k4 := upd_task prev (fun t => t <| need_resched := false |>) k3).
  assert (S4 : still k k4).
  { transitivity k3; [by transitivity k2|by apply still_upd_task]. }
  pose proof (still_running _ _ S4 R) as R4.
  assert (Hcur : curr (rqs k4 c) = prev) by apply S4.
  assert (Hids : nr_cpu_ids k4 = nr_cpu_ids k) by apply S4.
  destruct (Z.eqb_spec prev p) as [Heq|Hne]; cbn [negb]; intros [= <- <-].
  - assert (S5 : still k4 (balance_callback c (clear_skip_flags c k4))).
    { etransitivity; [|apply still_balance]. unfold clear_skip_flags. still_back. }
    split; [by eapply still_running|]. destruct S5 as (_&_&->&_). by rewrite Hcur.
  - specialize (Hlocal k3 eq_refl). set (k5 := upd_task prev _ (upd_rq c _ k4)).
    destruct (context_switch_running c prev p k4 k5) as [R5 C5]; try done.
    + by rewrite Hids.
    + unfold k4. rewrite tasks_upd_task. by case_decide; subst.
    + intros q. unfold k5. rewrite tasks_upd_task, tasks_upd_rq.
      case_decide; [subst; by destruct voluntary|done].
    + intros d. unfold k5. rewrite rqs_upd_task, rqs_upd_rq. by case_decide; subst.
    + pose proof (still_balance c (context_switch c prev p k5)) as S6.
      split; [by eapply still_running|]. destruct S6 as (_&_&->&_). exact C5.
Qed.
End Running.

(** ** Example: two CPUs, task 1 of the class on CPU 0 and task 5 on CPU 1 *)

Lemma relocated_equiv k k' : k' ≡c k -> relocated k k'.
Proof.
  intros E. pose proof E as (Et & _ & Eg & _). repeat apply conj; [| | | |exact Eg].
  - intros q. by rewrite Et.
  - intros q. left. by apply (ce_task task_cpu).
  - intros q _. by apply (ce_task task_cpu).
  - intros c. by split; [apply (ce_rq curr)|apply (ce_rq idle)].
Qed.

Lemma demo_schedule_laws : @ScheduleLaws demo_class_ops.
Proof.
  split; cbn; intros; try done; [|by apply relocated_equiv].
  case_decide; [|case_decide; by apply relocated_equiv].
  apply relocated_equiv. unfold pickWrr, pickNextTaskWrr, putPrevTaskWrr.
  destruct (_ =? _); [done|]. destruct (wrr_list _); [done|]. cbn [fst].
  unfold upd_se. rewrite core_upd_task by done. apply core_updateCurrWrr.
Qed.

Definition demo_running : kernel :=
  let k := upd_task 1 (fun t => t <| on_cpu := true |>) demo2 in
  let k := upd_task 5 (fun t => t <| on_cpu := true |> <| task_cpu := 1 |>) k in
  upd_rq 1 (fun r => r <| curr := 5 |>) (upd_rq 0 (fun r => r <| curr := 1 |>) k).

Lemma demo2_off q : on_cpu (tasks demo2 q) = false.
Proof.
  unfold demo2, demo1. rewrite (ce_task on_cpu _ _ q (core_enqueueWrr _ _ _ _)) by done.
  by rewrite (ce_task on_cpu _ _ q (core_enqueueWrr _ _ _ _)).
Qed.

Lemma demo_running_ok : running_ok demo_running.
Proof.
  split.
  - intros c Hc. change (nr_cpu_ids demo_running) with 2 in Hc.
    assert (c = 0 \/ c = 1) as [-> | ->] by lia; split; by vm_compute.
  - intros p. unfold demo_running. rewrite !tasks_upd_rq, !tasks_upd_task.
    destruct (decide (5 = p)) as [<-|]; [intros _; split; by vm_compute|].
    destruct (decide (1 = p)) as [<-|]; [intros _; split; by vm_compute|].
    by rewrite demo2_off.
Qed.

(** Task 1 is preempted and picked again. *)
Local Notation demo_resched :=
  (@__schedule demo_ops demo_class_ops demo_wake_env 1 true demo_running).

Lemma picked_of (r : pick_res) (ok : kernel -> Z -> bool) :
  match r with Picked k p => ok k p | _ => false end = true ->
  exists k p, r = Picked k p /\ ok k p = true.
Proof. destruct r; [eauto|discriminate..]. Qed.

Lemma demo_resched_picks : exists k', demo_resched = Picked k' 1.
Proof.
  destruct (picked_of demo_resched (fun _ p => p =? 1)) as (k' & p & E & Hp).
  - vm_compute. reflexivity.
  - apply Z.eqb_eq in Hp. rewrite <- Hp. exists k'. exact E.
Qed.

Lemma demo_choice_local k1 :
  @pick_next_task demo_class_ops 1 (this_cpu demo_running) (current demo_running)
    (@schedule_prepare demo_ops demo_class_ops demo_wake_env true demo_running).1 = Picked k1 1 ->
  task_cpu (tasks k1 1) = this_cpu demo_running.
Proof.
  match goal with |- ?r = _ -> _ => destruct (picked_of r
    (fun k p => task_cpu (tasks k p) =? this_cpu demo_running)) as (k' & p & -> & Hp) end.
  - vm_compute. reflexivity.
  - apply Z.eqb_eq in Hp. intros [= <- ->]. exact Hp.
Qed.

Lemma demo_running_cpu : 0 <= this_cpu demo_running < nr_cpu_ids demo_running.
Proof. vm_compute. split; congruence. Qed.

Lemma schedule_switches_witness :
  exists k', demo_resched = Picked k' 1 /\ running_ok k' /\ curr (rqs k' (this_cpu demo_running)) = 1.
Proof.
  destruct demo_resched_picks as [k' E]. exists k'. split; [exact E|].
  exact (@schedule_switches demo_ops demo_frame demo_class_ops demo_woken demo_schedule_laws
    demo_wake_env 1 true demo_running k' 1 demo_running_ok demo_running_cpu demo_choice_local E).
Defined.
