(* ===== verification/WrrSched.v ===== *)
(** * The weighted round-robin class under the core scheduler

    What the operations of core.c do to the rings of the class: wakeups, nice
    values, priority inheritance and [__schedule], with the class plugged into
    the core scheduler and the other classes left abstract. *)

From S2P Require Import Prelude SchedTypes Core Frame Wrr CoreWake CorePolicy PolicyTyped CoreSched.

(** The operations of the other classes leave the rings alone. *)
Class WrrAlone `{QueueOps} `{SwitchOps} `{ClassOps} : Prop := {
  alone_enqueue cls c p fl k : cls <> wrrSchedClass -> op_enqueue_task cls c p fl k ≡w k;
  alone_dequeue cls c p fl k : cls <> wrrSchedClass -> op_dequeue_task cls c p fl k ≡w k;
  alone_put_prev cls c p k : cls <> wrrSchedClass -> op_put_prev_task cls c p k ≡w k;
  alone_set_curr cls c k : cls <> wrrSchedClass -> op_set_curr_task cls c k ≡w k;
  alone_switched_from cls f c p k : op_switched_from cls = Some f -> f c p k ≡w k;
  alone_switched_to cls c p k : op_switched_to cls c p k ≡w k;
  alone_prio_changed cls c p o k : op_prio_changed cls c p o k ≡w k;
  alone_balance cb c k : op_balance cb c k ≡w k }.

(** ** Rings *)

(** A ring with a queued task is not counted as empty. *)
Lemma ring_counted k c p :
  wrr_wf k -> p ∈ ring k c -> Z.of_nat (length (ring k c)) < 2 ^ 32 -> nrRunning (wrr (rqs k c)) <> 0.
Proof.
  intros Hwf Hp Hlen. destruct (wrr_ok_parts k c Hwf) as (_ & -> & _). rewrite u32_id by lia.
  destruct (ring k c); [set_solver|simpl; lia].
Qed.

Lemma ring_equiv k k' c : k ≡w k' -> ring k c = ring k' c.
Proof. intros E. by apply ring_proper. Qed.

Lemma ring_dequeued c p k d :
  ring (dequeued c p k) d = if decide (c = d) then list_del p (ring k d) else ring k d.
Proof. unfold dequeued. rewrite ring_upd_wrr. by case_decide; subst. Qed.

Lemma dequeued_fresh c p k d : wrr_wf k -> p ∈ ring k c -> p ∉ ring (dequeued c p k) d.
Proof.
  intros [_ Hdis] Hp. rewrite ring_dequeued. case_decide as E.
  - intros [_ ?]%elem_of_list_del. done.
  - intros Hd. apply E. eauto.
Qed.

Lemma ring_enqueued c p fl k d :
  has_flag fl ENQUEUE_HEAD = false ->
  ring (enqueued c p fl k) d = if decide (c = d) then ring k d ++ [p] else ring k d.
Proof.
  intros Hf. unfold enqueued. rewrite ring_upd_wrr. case_decide; [|done]. subst. cbn. by rewrite Hf.
Qed.

Lemma lowest_equiv k k' : k ≡w k' -> cpu_online_mask k = cpu_online_mask k' ->
  nr_cpu_ids k = nr_cpu_ids k' -> findLowestWeightCpu k = findLowestWeightCpu k'.
Proof.
  intros [E _] Ho Hn. unfold findLowestWeightCpu, for_each_cpu. rewrite Ho, Hn. f_equal.
  generalize (UINT_MAX, -1). generalize (filter (fun i => i ∈ cpu_online_mask k') (seqZ 0 (nr_cpu_ids k'))).
  intros l. induction l as [|i l IH]; intros acc; [done|]. cbn [foldl].
  rewrite IH. f_equal. unfold lowest_step. by rewrite E.
Qed.

Section WrrSched.
Context `{WrrPlugged} `{!QueueFrame} `{SwitchOps} `{ClassOps} `{!WrrAlone}
  `{PolicyEnv} `{LoadOps} `{!PolicyLaws}.

Lemma put_prev_wrr c p k : put_prev_task c p k ≡w k.
Proof.
  unfold put_prev_task. destruct (decide (class_of (tasks k p) = wrrSchedClass)) as [->|].
  - rewrite plug_put_prev. apply updateCurrWrr_equiv.
  - by apply alone_put_prev.
Qed.

Lemma set_curr_wrr c p k : set_curr_task c p k ≡w k.
Proof.
  unfold set_curr_task. destruct (decide (class_of (tasks k p) = wrrSchedClass)) as [->|].
  - rewrite plug_set_curr. apply upd_se_equiv.
  - by apply alone_set_curr.
Qed.

Lemma enqueue_other c p fl k : class_of (tasks k p) <> wrrSchedClass -> enqueue_task c p fl k ≡w k.
Proof.
  intros Hc. unfold enqueue_task. cbv zeta.
  set (k1 := if has_flag fl ENQUEUE_NOCLOCK then _ else _).
  assert (E1 : k1 ≡w k) by (unfold k1; wrr_frame).
  set (k2 := if has_flag fl ENQUEUE_RESTORE then _ else _).
  assert (E2 : k2 ≡w k) by (unfold k2; cases; [done|by rewrite call_equiv]).
  rewrite alone_enqueue; [done|]. by rewrite (class_of_equiv _ _ p E2).
Qed.

Lemma dequeue_other c p fl k : class_of (tasks k p) <> wrrSchedClass -> dequeue_task c p fl k ≡w k.
Proof.
  intros Hc. unfold dequeue_task. cbv zeta.
  set (k1 := if has_flag fl DEQUEUE_NOCLOCK then _ else _).
  assert (E1 : k1 ≡w k) by (unfold k1; wrr_frame).
  set (k2 := if has_flag fl DEQUEUE_SAVE then _ else _).
  assert (E2 : k2 ≡w k) by (unfold k2; cases; [done|by rewrite call_equiv]).
  rewrite alone_dequeue; [done|]. by rewrite (class_of_equiv _ _ p E2).
Qed.

Lemma class_changed_wrr c p cls o k : check_class_changed c p cls o k ≡w k.
Proof.
  unfold check_class_changed. cbv zeta. cases; [|apply alone_prio_changed|done].
  rewrite alone_switched_to. destruct (op_switched_from cls) as [f|] eqn:E; [|done].
  by eapply alone_switched_from.
Qed.

Lemma balance_wrr c k : balance_callback c k ≡w k.
Proof.
  unfold balance_callback, __balance_callback. destruct (balance_callbacks _) as [|cb l]; [done|].
  cbv zeta. transitivity (upd_rq c (fun r => r <| balance_callbacks := [] |>) k);
    [|by apply upd_rq_equiv].
  generalize (cb :: l). generalize (upd_rq c (fun r => r <| balance_callbacks := [] |>) k).
  clear k cb l. intros k l. revert k. induction l as [|cb l IH]; intros k; [done|]. cbn [foldl].
  rewrite IH. apply alone_balance.
Qed.

(** Taking a queued task of the class off its queue, as every change of its
    parameters does first. *)
Lemma take_off c p fl k :
  wrr_wf k -> class_of (tasks k p) = wrrSchedClass -> p ∈ ring k c ->
  Z.of_nat (length (ring k c)) < 2 ^ 32 ->
  (if task_current k c p then put_prev_task c p (dequeue_task c p fl k) else dequeue_task c p fl k)
    ≡w dequeued c p k.
Proof.
  intros Hwf Hcls Hp Hlen.
  assert (E : dequeue_task c p fl k ≡w dequeued c p k)
    by (apply dequeue_task_wrr; [done|by eapply ring_counted]).
  destruct (task_current k c p); [by rewrite put_prev_wrr|done].
Qed.

Lemma nice_fields k p nice t np :
  effective_prio (tasks (set_load_weight p
    (upd_task p (fun t => t <| static_prio := NICE_TO_PRIO nice |>) k)) p) = (t, np) ->
  wview (t <| prio := np |>) = wview (tasks k p) /\ static_prio t = NICE_TO_PRIO nice.
Proof.
  unfold effective_prio, set_load_weight. rewrite !upd_task_eq. intros Ee.
  destruct (set_load_weight_fields (tasks k p <| static_prio := NICE_TO_PRIO nice |>))
    as (A1 & A2 & _ & _ & _ & A6).
  assert (A7 : wrr_se (set_load_weight_of (tasks k p <| static_prio := NICE_TO_PRIO nice |>))
    = wrr_se (tasks k p)) by (unfold set_load_weight_of; by repeat case_match).
  set (t0 := set_load_weight_of _) in *. clearbody t0. unfold wview.
  destruct (negb _) in Ee; injection Ee as <- _; cbn; by rewrite A1, A2, A6, A7.
Qed.

(** Off the ring and on again: at its end. *)
Lemma put_back c p fl k :
  wrr_wf k -> p ∈ ring k c -> Z.of_nat (length (ring k c)) < 2 ^ 32 -> has_flag fl ENQUEUE_HEAD = false ->
  let k' := enqueued c p fl (dequeued c p k) in
  wrr_wf k' /\ ring k' c = list_del p (ring k c) ++ [p] /\ task_weight k' p = task_weight k p.
Proof.
  intros Hwf Hp Hlen Hfl. cbv zeta. split_and!; [| |done].
  - apply enqueued_wf; [by apply dequeued_wf|]. intros d. by apply dequeued_fresh.
  - unfold enqueued. rewrite ring_upd_wrr, decide_True by done. cbn [wrr_list upd]. rewrite Hfl.
    unfold list_add_tail. f_equal. change (ring (dequeued c p k) c = list_del p (ring k c)).
    rewrite ring_dequeued. by rewrite decide_True.
Qed.

(** Changing the nice value of a queued task of the class keeps the
    invariant and its weight, but not its turn: the task is taken off the ring
    and put back at the end, so a running task also gives up the rest of its
    round.  Only the static priority and the load weight that the fair class
    would use change. *)
Theorem set_user_nice_wrr p nice k :
  wrr_wf k -> class_of (tasks k p) = wrrSchedClass -> on_rq (tasks k p) = TASK_ON_RQ_QUEUED ->
  task_has_dl_policy (tasks k p) || task_has_rt_policy (tasks k p) = false ->
  MIN_NICE <= nice <= MAX_NICE -> task_nice (tasks k p) <> nice ->
  let c := task_cpu (tasks k p) in
  p ∈ ring k c -> Z.of_nat (length (ring k c)) < 2 ^ 32 ->
  let k' := set_user_nice p nice k in
  wrr_wf k' /\ ring k' c = list_del p (ring k c) ++ [p] /\ task_weight k' p = task_weight k p /\
  static_prio (tasks k' p) = NICE_TO_PRIO nice.
Proof.
  intros Hwf Hcls Hq Hpol Hnice Hne c Hp Hlen k'. unfold k', set_user_nice.
  replace (_ || _ || _) with false by (symmetry; unfold MIN_NICE, MAX_NICE in *; lia). cbv zeta. fold c.
  set (k1 := update_rq_clock c k).
  assert (E1 : k1 ≡w k) by apply update_rq_clock_equiv.
  assert (C1 : k1 ≡c k) by apply core_clock.
  replace (task_has_dl_policy (tasks k1 p) || task_has_rt_policy (tasks k1 p)) with false.
  2:{ unfold task_has_dl_policy, task_has_rt_policy in *. by rewrite (ce_task policy _ _ p C1). }
  unfold task_on_rq_queued. rewrite (ce_task on_rq _ _ p C1), Hq by done.
  change (TASK_ON_RQ_QUEUED =? TASK_ON_RQ_QUEUED) with true. cbv iota.
  set (k2 := if task_current k1 c p then _ else _).
  assert (E2 : k2 ≡w dequeued c p k).
  { unfold k2. rewrite take_off.
    - apply upd_wrr_congr; [done|]. intros w. by rewrite (task_weight_proper _ _ E1 p p eq_refl).
    - by rewrite E1.
    - by rewrite (class_of_equiv _ _ p E1).
    - by rewrite (ring_proper _ _ E1 c c eq_refl).
    - by rewrite (ring_proper _ _ E1 c c eq_refl). }
  destruct (effective_prio _) as [t np] eqn:Ee.
  set (k3 := upd_task p (fun _ => t <| prio := np |>) _).
  apply nice_fields in Ee as F3.
  assert (E3 : k3 ≡w dequeued c p k).
  { rewrite <- E2. split; [done|]. intros q. unfold k3, set_load_weight. rewrite !tasks_upd_task.
    destruct (decide (p = q)) as [<-|]; [apply F3|done]. }
  assert (S3 : static_prio (tasks k3 p) = NICE_TO_PRIO nice)
    by (unfold k3; rewrite upd_task_eq; apply F3).
  set (k4 := enqueue_task c p _ k3).
  assert (E4 : k4 ≡w enqueued c p (Z.lor ENQUEUE_RESTORE ENQUEUE_NOCLOCK) (dequeued c p k)).
  { unfold k4. rewrite enqueue_task_wrr by by rewrite (class_of_equiv _ _ p E3).
    apply upd_wrr_congr; [done|]. intros w. by rewrite (task_weight_proper _ _ E3 p p eq_refl). }
  set (k5 := if (_ <? 0) || _ then resched_curr c k4 else k4).
  assert (E5 : k5 ≡w k4) by (unfold k5; cases; [apply resched_curr_equiv|done]).
  set (k6 := if task_current k1 c p then set_curr_task c p k5 else k5).
  assert (E6 : k6 ≡w enqueued c p (Z.lor ENQUEUE_RESTORE ENQUEUE_NOCLOCK) (dequeued c p k)).
  { unfold k6. destruct (task_current _ _ _); [rewrite set_curr_wrr|]; by rewrite E5. }
  destruct (put_back c p (Z.lor ENQUEUE_RESTORE ENQUEUE_NOCLOCK) k) as (W & R & T); [done..|].
  split_and!.
  - by rewrite E6.
  - by rewrite (ring_proper _ _ E6 c c eq_refl).
  - by rewrite (task_weight_proper _ _ E6 p p eq_refl).
  - assert (S4 : k5 ≡c k3) by (unfold k5; cases; rewrite ?core_resched; apply core_enqueue).
    assert (S5 : k6 ≡c k3) by (unfold k6; destruct (task_current _ _ _); [rewrite core_set_curr|]; done).
    by rewrite (ce_task static_prio _ _ p S5).
Qed.

(** ** Priority inheritance *)

(** The class [rt_mutex_setprio] gives to a priority. *)
Definition inherited_class (pr : Z) : sched_class :=
  if dl_prio pr then dl_sched_class else if rt_prio pr then rt_sched_class else fair_sched_class.

(** Reading a field through the balance callbacks. *)
Lemma balance_field {A} (f : task_struct -> A) c k q :
  (forall t, f (core_task t <| task_cpu := 0 |> <| wake_cpu := 0 |>) = f t) ->
  f (tasks (balance_callback c k) q) = f (tasks k q) /\
  forall d, idle (rqs (balance_callback c k) d) = idle (rqs k d).
Proof.
  intros Hf. unfold balance_callback, __balance_callback.
  destruct (balance_callbacks _) as [|cb l]; [done|]. cbv zeta. set (k1 := upd_rq c _ k).
  assert (E1 : tasks k1 = tasks k /\ forall d, idle (rqs k1 d) = idle (rqs k d)).
  { split; [done|]. intros d. unfold k1. rewrite rqs_upd_rq. by case_decide; subst. }
  destruct E1 as [<- E1]. setoid_rewrite <- E1. clearbody k1. clear E1.
  generalize (cb :: l). clear cb l. intros l. revert k1.
  induction l as [|cb l IH]; intros k1; [done|]. cbn [foldl].
  destruct (IH (op_balance cb c k1)) as [-> Hi]. pose proof (law_balance cb c k1) as R.
  split; [by apply (relocated_field f _ _ q R)|]. intros d. rewrite Hi. by apply R.
Qed.

(** Putting a task of another class back after a change. *)
Lemma put_back_other c p (queued running : bool) fl prev o k :
  class_of (tasks k p) <> wrrSchedClass ->
  let k1 := if queued then enqueue_task c p fl k else k in
  let k2 := if running then set_curr_task c p k1 else k1 in
  let k' := balance_callback c (check_class_changed c p prev o k2) in
  (forall d, ring k' d = ring k d) /\ (forall d, idle (rqs k' d) = idle (rqs k d)) /\
  forall (A : Type) (f : task_struct -> A) q,
    (forall t, f (core_task t <| task_cpu := 0 |> <| wake_cpu := 0 |>) = f t) ->
    (forall t, f (core_task t) = f t) -> f (tasks k' q) = f (tasks k q).
Proof.
  intros Hc k1 k2 k'.
  assert (W1 : k1 ≡w k) by (unfold k1; destruct queued; [by apply enqueue_other|done]).
  assert (W2 : k2 ≡w k) by (unfold k2; destruct running; [rewrite set_curr_wrr|]; done).
  assert (C2 : k2 ≡c k).
  { unfold k2, k1. destruct running, queued; rewrite ?core_set_curr, ?core_enqueue; done. }
  set (k3 := check_class_changed c p prev o k2) in *.
  assert (C3 : k3 ≡c k) by (unfold k3; by rewrite core_class_changed).
  split_and!.
  - intros d. apply ring_equiv. unfold k', k3. by rewrite balance_wrr, class_changed_wrr.
  - intros d. unfold k'. rewrite (proj2 (balance_field state c k3 p (fun _ => eq_refl))).
    by apply (ce_rq idle).
  - intros A f q Hf Hf'. unfold k'. rewrite (proj1 (balance_field f c k3 q Hf)).
    by apply (ce_task f).
Qed.

(** What is kept of a task across a change of its effective priority. *)
Definition iview (t : task_struct) := (policy t, normal_prio_f t, on_rq t, static_prio t).

(** A change of the effective priority, queue by queue. *)
Lemma setprio_effect p pi k :
  let c := task_cpu (tasks k p) in
  let pr := __rt_effective_prio k pi (normal_prio_f (tasks k p)) in
  pr <> prio (tasks k p) -> (forall d, p <> idle (rqs k d)) ->
  (class_of (tasks k p) = wrrSchedClass -> wrr_wf k /\ on_rq (tasks k p) = TASK_ON_RQ_QUEUED /\
     p ∈ ring k c /\ Z.of_nat (length (ring k c)) < 2 ^ 32) ->
  let k' := rt_mutex_setprio p pi k in
  prio (tasks k' p) = pr /\ class_of (tasks k' p) = inherited_class pr /\
  iview (tasks k' p) = iview (tasks k p) /\ (forall d, idle (rqs k' d) = idle (rqs k d)) /\
  forall d, ring k' d = if decide (class_of (tasks k p) = wrrSchedClass)
                        then ring (dequeued c p k) d else ring k d.
Proof.
  intros c pr Hpr Hidle Hq k'. unfold k', rt_mutex_setprio. fold pr. cbv zeta. fold c.
  destruct (Z.eqb_spec pr (prio (tasks k p))); [done|]. rewrite andb_false_r. cbn [andb].
  set (k2 := upd_task p _ (update_rq_clock c k)).
  assert (W2 : k2 ≡w k).
  { unfold k2. rewrite upd_task_equiv by done. apply update_rq_clock_equiv. }
  assert (V2 : forall (A : Type) (f : task_struct -> A), (forall t, f (core_task t) = f t) ->
    (forall t, f (t <| pi_top_task := pi |>) = f t) -> f (tasks k2 p) = f (tasks k p)).
  { intros A f Hf Hf'. unfold k2. rewrite upd_task_eq, Hf'. apply (ce_task f); [apply core_clock|done]. }
  assert (I2 : forall d, idle (rqs k2 d) = idle (rqs k d))
    by (intros d; apply (ce_rq idle _ _ d (core_clock c k)); done).
  rewrite (V2 _ prio) by done. destruct (Z.eqb_spec pr (prio (tasks k p))); [done|]. cbn [andb orb].
  rewrite I2. destruct (Z.eqb_spec p (idle (rqs k c))); [by destruct (Hidle c)|].
  set (fl := if prio (tasks k p) =? pr then _ else _).
  unfold task_on_rq_queued. rewrite (V2 _ on_rq), (V2 _ class_of) by done.
  set (queued := on_rq (tasks k p) =? TASK_ON_RQ_QUEUED).
  set (k3 := if task_current k2 c p then _ else _).
  assert (C3 : k3 ≡c k2).
  { unfold k3. destruct (task_current _ _ _), queued; rewrite ?core_put_prev, ?core_dequeue; done. }
  assert (R3 : forall d, ring k3 d = if decide (class_of (tasks k p) = wrrSchedClass)
                                     then ring (dequeued c p k) d else ring k d).
  { intros d. case_decide as Hcls.
    - destruct (Hq Hcls) as (Hwf & Hon & Hp & Hlen). unfold k3, queued. rewrite Hon.
      change (TASK_ON_RQ_QUEUED =? TASK_ON_RQ_QUEUED) with true. cbv iota. apply ring_equiv.
      rewrite take_off; [|by rewrite W2|by rewrite (class_of_equiv _ _ p W2)
        |by rewrite (ring_equiv _ _ c W2)..].
      apply upd_wrr_congr; [done|]. intros w. by rewrite (task_weight_proper _ _ W2 p p eq_refl).
    - apply ring_equiv. unfold k3.
      destruct (task_current _ _ _), queued; rewrite ?put_prev_wrr, ?dequeue_other;
        rewrite ?(class_of_equiv _ _ p W2); done. }
  destruct (boosted k3 p pi pr _ _) as [t fl'] eqn:Eb.
  destruct (boosted_fields k3 p pi pr (prio (tasks k p)) fl) as (B1 & B2 & _ & B4 & _ & B6).
  rewrite Eb in B1, B2, B4, B6. cbn [fst] in B1, B2, B4, B6.
  assert (B5 : on_rq t = on_rq (tasks k3 p)).
  { clear -Eb. unfold boosted in Eb. repeat case_match; by simplify_eq. }
  set (k4 := upd_task p (fun _ => t <| prio := pr |>) k3).
  assert (Hcls4 : class_of (tasks k4 p) <> wrrSchedClass).
  { unfold k4. rewrite upd_task_eq. cbn. rewrite B6. by destruct (dl_prio pr), (rt_prio pr). }
  destruct (put_back_other c p queued (task_current k2 c p) fl' (class_of (tasks k p)) (prio (tasks k p)) k4 Hcls4)
    as (P1 & P2 & P3). cbv zeta in P1, P2, P3.
  assert (T4 : tasks k4 p = t <| prio := pr |>) by (unfold k4; by rewrite upd_task_eq).
  split_and!.
  - rewrite (P3 _ prio) by done. by rewrite T4.
  - rewrite (P3 _ class_of), T4 by done. cbn. by rewrite B6.
  - rewrite (P3 _ iview), T4 by done. unfold iview. cbn. rewrite B1, B2, B4, B5.
    rewrite (ce_task policy _ _ p C3), (ce_task normal_prio_f _ _ p C3), (ce_task on_rq _ _ p C3),
      (ce_task static_prio _ _ p C3) by done.
    by rewrite (V2 _ policy), (V2 _ normal_prio_f), (V2 _ on_rq), (V2 _ static_prio).
  - intros d. rewrite P2. unfold k4. change (idle (rqs k3 d) = idle (rqs k d)).
    rewrite (ce_rq idle _ _ d C3) by done. apply I2.
  - intros d. rewrite P1. exact (R3 d).
Qed.

(** C5: priority inheritance takes a task out of the class for good.  A queued
    SCHED_WRR task that holds a lock a real-time task waits for is moved to the
    real-time class, and when it releases the lock and is set back, the class it
    gets is the fair one: its policy still says SCHED_WRR, it is on no ring, and
    nothing puts it back. *)
Theorem deboosted_task_leaves_wrr p donor k :
  wrr_wf k -> class_of (tasks k p) = wrrSchedClass -> on_rq (tasks k p) = TASK_ON_RQ_QUEUED ->
  let c := task_cpu (tasks k p) in
  p ∈ ring k c -> Z.of_nat (length (ring k c)) < 2 ^ 32 -> (forall d, p <> idle (rqs k d)) ->
  prio (tasks k p) = normal_prio_f (tasks k p) -> MAX_RT_PRIO <= normal_prio_f (tasks k p) ->
  0 <= prio (tasks k donor) < MAX_RT_PRIO ->
  let k1 := rt_mutex_setprio p (Some donor) k in
  let k2 := rt_mutex_setprio p None k1 in
  class_of (tasks k1 p) = rt_sched_class /\ class_of (tasks k2 p) = fair_sched_class /\
  policy (tasks k2 p) = policy (tasks k p) /\ prio (tasks k2 p) = prio (tasks k p) /\
  forall d, p ∉ ring k2 d.
Proof.
  intros Hwf Hcls Hon c Hp Hlen Hidle Hprio Hn Hd k1 k2.
  assert (Hmin : __rt_effective_prio k (Some donor) (normal_prio_f (tasks k p)) = prio (tasks k donor))
    by (cbn; lia).
  destruct (setprio_effect p (Some donor) k) as (P1 & C1 & I1 & D1 & R1); [lia|done|done|].
  fold k1 in P1, C1, I1, D1, R1. rewrite Hmin in P1, C1.
  assert (Hrt : inherited_class (prio (tasks k donor)) = rt_sched_class).
  { unfold inherited_class, dl_prio, rt_prio, MAX_DL_PRIO, MAX_RT_PRIO in *.
    destruct (Z.ltb_spec (prio (tasks k donor)) 0), (Z.ltb_spec (prio (tasks k donor)) 100); done || lia. }
  rewrite Hrt in C1. unfold iview in I1. injection I1 as Ip In Io Is.
  destruct (setprio_effect p None k1) as (P2 & C2 & I2 & D2 & R2); cbn [__rt_effective_prio] in *.
  - lia.
  - intros d. by rewrite D1.
  - by rewrite C1.
  - fold k2 in P2, C2, I2, D2, R2. injection I2 as Ip2 _ _ _.
    destruct (rt_prio_out (normal_prio_f (tasks k1 p))) as [Hr Hdl]; [lia|].
    split_and!; [done| |congruence|lia|].
    + rewrite C2. unfold inherited_class. by rewrite Hr, Hdl.
    + intros d. rewrite R2, C1, decide_False by done. rewrite R1, Hcls, decide_True by done.
      by apply dequeued_fresh.
Qed.
End WrrSched.

(** ** Waking a task of the class *)

(** The entries of [wrrSchedClass] for placing and picking. *)
Class WrrPlaced `{ClassOps} `{WakeEnv} : Prop := {
  plug_select p cpu sd fl k :
    op_select_task_rq wrrSchedClass p cpu sd fl k = (k, selectTaskRqWrr p cpu sd fl k);
  plug_woken : op_task_woken wrrSchedClass = None;
  plug_pick : op_pick_next_task wrrSchedClass = pickWrr;
  alone_cpuset p k : cpuset_cpus_allowed_fallback p k ≡w k }.

Section WrrWake.
Context `{WrrPlugged} `{!QueueFrame} `{SwitchOps} `{ClassOps} `{!WrrAlone} `{WakeEnv}
  `{!WakeLaws} `{!WokenLaws} `{!WrrPlaced} `{!ScheduleLaws} `{LoadOps}
  (stop_running : kernel -> Z -> Z) `{!PickLaws stop_running}.

Lemma set_allowed_idle p m k :
  class_of (tasks k p) = wrrSchedClass -> on_rq (tasks k p) <> TASK_ON_RQ_QUEUED ->
  do_set_cpus_allowed p m k ≡w k.
Proof.
  intros Hc Hq. unfold do_set_cpus_allowed, task_on_rq_queued. cbv zeta.
  destruct (Z.eqb_spec (on_rq (tasks k p)) TASK_ON_RQ_QUEUED); [done|].
  set (running := task_current k _ p).
  set (k1 := if running then put_prev_task _ p k else k).
  assert (E1 : k1 ≡w k) by (unfold k1; destruct running; [apply put_prev_wrr|done]).
  assert (E2 : op_set_cpus_allowed (class_of (tasks k1 p)) p m k1 ≡w k).
  { rewrite (class_of_equiv _ _ p E1), Hc, plug_cpus_allowed. unfold set_cpus_allowed_common.
    by rewrite upd_task_equiv. }
  destruct running; [by rewrite set_curr_wrr|done].
Qed.

(** What survives the steps of the fallback. *)
Definition sleeping (p : Z) (k : kernel) : Prop :=
  class_of (tasks k p) = wrrSchedClass /\ on_rq (tasks k p) <> TASK_ON_RQ_QUEUED.

Lemma sleeping_forced p m k : sleeping p k -> sleeping p (do_set_cpus_allowed p m k).
Proof.
  intros [Hc Hq]. split; [by rewrite (class_of_equiv _ _ p (set_allowed_idle p m k Hc Hq))|].
  rewrite (ce_task on_rq _ _ p (do_set_cpus_allowed_effect p m k)) by done.
  unfold set_cpus_allowed_common. by rewrite upd_task_eq.
Qed.

Lemma fallback_wrr p fuel : forall st k k' cpu,
  sleeping p k -> fallback_loop fuel st p k = Some (k', cpu) -> k' ≡w k.
Proof.
  induction fuel as [|n IH]; intros st k k' cpu Hs; [done|]. cbn [fallback_loop].
  destruct (list_find _ _) as [[i c]|]; [by intros [= <- _]|].
  assert (Hf : forall st', fallback_loop n st' p (do_set_cpus_allowed p (cpu_possible_mask k) k)
     = Some (k', cpu) -> k' ≡w k).
  { intros st' E%IH; [|by apply sleeping_forced]. rewrite E. by apply set_allowed_idle; apply Hs. }
  destruct st; [|apply Hf|done]. destruct CONFIG_CPUSETS; [|apply Hf].
  intros E%IH; [rewrite E; apply alone_cpuset|]. destruct Hs as [Hc Hq]. split.
  - by rewrite (class_of_equiv _ _ p (alone_cpuset p k)).
  - destruct (law_cpuset p k) as [m Em]. rewrite (ce_task on_rq _ _ p Em) by done.
    unfold set_cpus_allowed_common. by rewrite upd_task_eq.
Qed.

Lemma select_wrr p cpu sd fl k k' c :
  sleeping p k -> select_task_rq p cpu sd fl k = Some (k', c) -> k' ≡w k.
Proof.
  intros Hs. unfold select_task_rq. rewrite (proj1 Hs).
  destruct (if 1 <? _ then _ else _) as [k1 c1] eqn:E.
  assert (k1 = k) as -> by (destruct (1 <? _); rewrite ?plug_select in E; by simplify_eq).
  destruct (negb _); [|by intros [= <- _]]. unfold select_fallback_rq.
  destruct (cpumask_of_node _); [destruct (list_find _ _) as [[i d]|]|];
    try (by intros [= <- _]); intros; by eapply fallback_wrr.
Qed.

(** Handing a task of the class to the queue of a CPU. *)
Lemma activate_wrr c p fl k :
  class_of (tasks k p) = wrrSchedClass ->
  exists fl', has_flag fl' ENQUEUE_HEAD = false /\ ttwu_do_activate c p fl k ≡w enqueued c p fl' k.
Proof.
  intros Hc. unfold ttwu_do_activate. cbv zeta.
  set (k1 := if sched_contributes_to_load _ then _ else k).
  assert (E1 : k1 ≡w k) by (unfold k1; wrr_frame).
  set (fl' := if has_flag fl WF_MIGRATED then _ else _).
  exists fl'. split; [unfold fl'; by destruct (has_flag fl WF_MIGRATED)|].
  unfold ttwu_activate, activate_task. cbv zeta.
  set (k2 := if task_contributes_to_load _ then _ else k1).
  assert (E2 : k2 ≡w k) by (unfold k2; destruct (task_contributes_to_load _); [rewrite upd_rq_equiv by done|]; done).
  set (k3 := enqueue_task c p fl' k2).
  assert (E3 : k3 ≡w enqueued c p fl' k).
  { unfold k3. rewrite enqueue_task_wrr by by rewrite (class_of_equiv _ _ p E2).
    apply upd_wrr_congr; [done|]. intros w. by rewrite (task_weight_proper _ _ E2 p p eq_refl). }
  set (k4 := if has_flag _ PF_WQ_WORKER then _ else _).
  assert (E4 : k4 ≡w k3) by (unfold k4; destruct (has_flag _ PF_WQ_WORKER); rewrite ?call_equiv; by rewrite upd_task_equiv).
  unfold ttwu_do_wakeup. cbv zeta. set (k5 := upd_task p _ (check_preempt_curr c p fl k4)).
  assert (E5 : k5 ≡w k4) by (unfold k5; rewrite upd_task_equiv by done; apply check_preempt_curr_equiv).
  assert (Hc5 : class_of (tasks k5 p) = wrrSchedClass).
  { rewrite (class_of_equiv _ _ p E5), (class_of_equiv _ _ p E4), (class_of_equiv _ _ p E3). exact Hc. }
  rewrite Hc5, plug_woken. rewrite <- E3, <- E4, <- E5. clearbody k5.
  destruct (negb _); [|done]. rewrite upd_rq_equiv by done.
  destruct (_ <? _); by rewrite !upd_rq_equiv.
Qed.

Lemma ttwu_stat_wrr p c fl k : ttwu_stat p c fl k ≡w k.
Proof.
  unfold ttwu_stat, upd_stat. cbv zeta. destruct (schedstat_enabled k); [|done]. cbn [negb].
  destruct (c =? _); [|destruct (list_find _ _)]; wrr_frame.
Qed.

(** The state in which the CPU is chosen. *)
Definition waking (p : Z) (k : kernel) : kernel :=
  let k1 := upd_task p (fun t => t <| sched_contributes_to_load := task_contributes_to_load t |>) k in
  let k2 := upd_task p (fun t => t <| state := TASK_WAKING |>) k1 in
  wake_iowait (task_cpu (tasks k2 p)) p k2.

Lemma waking_facts p k :
  let k' := waking p k in
  k' ≡w k /\ (forall c, is_cpu_allowed k' p c = is_cpu_allowed k p c) /\
  on_rq (tasks k' p) = on_rq (tasks k p) /\ nr_cpus_allowed (tasks k' p) = nr_cpus_allowed (tasks k p) /\
  cpu_online_mask k' = cpu_online_mask k /\ nr_cpu_ids k' = nr_cpu_ids k /\
  (usable_cpu k -> usable_cpu k').
Proof.
  intros k'. unfold k', waking. cbv zeta. set (k2 := upd_task p _ (upd_task p _ k)).
  assert (E2 : k2 ≡w k) by (unfold k2; rewrite !upd_task_equiv by done; done).
  assert (A2 : forall c, is_cpu_allowed k2 p c = is_cpu_allowed k p c)
    by (intros c; unfold k2; by rewrite !is_cpu_allowed_upd).
  assert (F2 : on_rq (tasks k2 p) = on_rq (tasks k p) /\
    nr_cpus_allowed (tasks k2 p) = nr_cpus_allowed (tasks k p)) by (unfold k2; by rewrite !upd_task_eq).
  unfold wake_iowait. destruct (in_iowait _); split_and!; try done; try apply F2.
  rewrite upd_rq_equiv, call_equiv by done. done.
Qed.

(** What choosing a CPU leaves alone besides the rings. *)
Lemma chosen_view p k3 k cpu :
  replaced p (waking p k) k3 ->
  let k4 := if negb (task_cpu (tasks k3 p) =? cpu) then set_task_cpu p cpu k3 else k3 in
  this_cpu k4 = this_cpu k /\ forall c, wake_list (rqs k4 c) = wake_list (rqs k c).
Proof.
  intros R k4.
  assert (V2 : this_cpu (waking p k) = this_cpu k /\
    forall c, wake_list (rqs (waking p k) c) = wake_list (rqs k c)).
  { unfold waking, wake_iowait. cbv zeta. destruct (in_iowait _); split; try done.
    intros c. rewrite rqs_upd_rq. by case_decide; subst. }
  assert (V3 : this_cpu k3 = this_cpu k /\ forall c, wake_list (rqs k3 c) = wake_list (rqs k c)).
  { destruct V2 as [<- V2]. destruct R as [E|[m E]];
      (split; [by destruct (ce_glob _ _ E) as (-> & _)|]); intros c; rewrite <- V2;
      by rewrite (ce_rq wake_list _ _ c E). }
  destruct V3 as [<- V3]. unfold k4. destruct (negb _); [|done].
  pose proof (core_set_task_cpu p cpu k3) as E. split; [by destruct (ce_glob _ _ E) as (-> & _)|].
  intros c. rewrite <- V3. by rewrite (ce_rq wake_list _ _ c E).
Qed.

Lemma remote_wrr p cpu fl k :
  ttwu_queue_remote p cpu fl k ≡w k /\
  wake_list (rqs (ttwu_queue_remote p cpu fl k) cpu) = p :: wake_list (rqs k cpu).
Proof.
  unfold ttwu_queue_remote, set_nr_if_polling, set_tsk_need_resched. cbv zeta.
  set (k1 := upd_rq cpu _ _).
  assert (E1 : k1 ≡w k) by (unfold k1; rewrite upd_rq_equiv, upd_task_equiv by done; done).
  assert (L1 : wake_list (rqs k1 cpu) = p :: wake_list (rqs k cpu)) by (unfold k1; by rewrite upd_rq_eq).
  destruct (bool_decide _); [|done]. destruct (polling _); cbn [negb]; [|done].
  by split; [rewrite upd_task_equiv|].
Qed.

(** Tasks of the class that a CPU finds on its wake list go to the end of its
    ring, in the order of the list. *)
Lemma pending_ring c l : forall k,
  wrr_wf k -> NoDup l -> (forall q, q ∈ l -> class_of (tasks k q) = wrrSchedClass /\ forall d, q ∉ ring k d) ->
  let k' := foldl (fun k q => ttwu_do_activate c q
    (if sched_remote_wakeup (tasks k q) then WF_MIGRATED else 0) k) k l in
  wrr_wf k' /\ forall d, ring k' d = if decide (c = d) then ring k d ++ l else ring k d.
Proof.
  induction l as [|q l IH]; intros k Hwf Hnd Hl; cbn [foldl].
  { split; [done|]. intros d. case_decide; by rewrite ?app_nil_r. }
  apply NoDup_cons in Hnd as [Hq Hnd]. destruct (Hl q) as [Hc Hf]; [by left|].
  destruct (activate_wrr c q (if sched_remote_wakeup (tasks k q) then WF_MIGRATED else 0) k Hc)
    as (fl' & Hfl & E). set (k1 := ttwu_do_activate c q _ k) in *.
  assert (R1 : forall d, ring k1 d = if decide (c = d) then ring k d ++ [q] else ring k d).
  { intros d. rewrite (ring_equiv _ _ d E). by apply ring_enqueued. }
  destruct (IH k1) as [W R]; [rewrite E; by apply enqueued_wf|done| |].
  - intros x Hx. rewrite (class_of_equiv _ _ x E). destruct (Hl x) as [Hcx Hfx]; [by right|].
    split; [exact Hcx|]. intros d. rewrite R1. case_decide; [|apply Hfx].
    apply not_elem_of_app. split; [apply Hfx|]. intros ->%list_elem_of_singleton. by apply Hq.
  - split; [done|]. intros d. rewrite R, R1. case_decide; [|done]. by rewrite <- app_assoc.
Qed.

(** The task is at the end of the ring of [cpu], and on no other. *)
Definition queued_last (p cpu : Z) (k k' : kernel) : Prop :=
  forall d, ring k' d = if decide (cpu = d) then ring k d ++ [p] else ring k d.

(** The task is first on the wake list of [cpu] and the rings are as before;
    when [cpu] handles its list, whose tasks are of the class and queued nowhere,
    it puts them all at the end of its ring. *)
Definition pending_for (p cpu : Z) (k k' : kernel) : Prop :=
  (forall d, ring k' d = ring k d) /\ wake_list (rqs k' cpu) = p :: wake_list (rqs k cpu) /\
  (NoDup (p :: wake_list (rqs k cpu)) ->
   (forall q, q ∈ wake_list (rqs k cpu) -> class_of (tasks k q) = wrrSchedClass /\ forall d, q ∉ ring k d) ->
   let k2 := sched_ttwu_pending (k' <| this_cpu := cpu |>) in
   wrr_wf k2 /\
   forall d, ring k2 d = if decide (cpu = d) then ring k d ++ p :: wake_list (rqs k cpu) else ring k d).

Lemma queue_remote_wrr p cpu fl k k4 :
  wrr_wf k -> class_of (tasks k p) = wrrSchedClass -> (forall d, p ∉ ring k d) -> k4 ≡w k ->
  wake_list (rqs k4 cpu) = wake_list (rqs k cpu) ->
  let k' := ttwu_stat p cpu fl (ttwu_queue_remote p cpu fl k4) in
  wrr_wf k' /\ pending_for p cpu k k'.
Proof.
  intros Hwf Hc Hf W4 L4 k'. destruct (remote_wrr p cpu fl k4) as [E L].
  assert (W : k' ≡w k) by (unfold k'; by rewrite ttwu_stat_wrr, E).
  assert (Lk : wake_list (rqs k' cpu) = p :: wake_list (rqs k cpu)).
  { unfold k'. rewrite (ce_rq wake_list _ _ cpu (ttwu_stat_core _ _ _ _)) by done. by rewrite L, L4. }
  split; [by rewrite W|]. split_and!; [intros d; by apply ring_equiv|done|]. intros Hnd Hl.
  set (k0 := k' <| this_cpu := cpu |>). unfold sched_ttwu_pending.
  change (this_cpu k0) with cpu. change (rqs k0 cpu) with (rqs k' cpu). rewrite Lk. cbv zeta.
  set (k1 := update_rq_clock cpu _).
  assert (W1 : k1 ≡w k).
  { unfold k1. rewrite update_rq_clock_equiv, upd_rq_equiv by done. by rewrite <- W. }
  destruct (pending_ring cpu (p :: wake_list (rqs k cpu)) k1) as [Wf R].
  - by rewrite W1.
  - done.
  - intros q Hq. rewrite (class_of_equiv _ _ q W1). setoid_rewrite (fun d => ring_equiv _ _ d W1).
    apply elem_of_cons in Hq as [->|Hq]; [done|by apply Hl].
  - split; [exact Wf|]. intros d. by rewrite R, (ring_equiv _ _ d W1).
Qed.

(** C4: a sleeping task of the class that is woken is handed to one CPU that it
    may use, the one with the least total weight whenever the task is allowed
    there.  If that CPU shares a cache with the waking one, or remote queueing is
    off, the task is put at the end of that CPU's ring and of no other; if not, it
    is put on that CPU's wake list, from which the CPU moves it to its ring.
    Every ring stays in step with its counters. *)
Theorem wake_up_wrr p st fl k :
  wrr_wf k -> usable_cpu k -> class_of (tasks k p) = wrrSchedClass ->
  on_rq (tasks k p) = 0 -> on_cpu (tasks k p) = false -> (forall d, p ∉ ring k d) ->
  has_flag (state (tasks k p)) st = true ->
  exists k' cpu, try_to_wake_up p st fl k = Woken k' true /\
    is_cpu_allowed k' p cpu = true /\ wrr_wf k' /\
    (if feat_TTWU_QUEUE && negb (cpus_share_cache (this_cpu k) cpu)
     then pending_for p cpu k k' else queued_last p cpu k k') /\
    (1 < nr_cpus_allowed (tasks k p) -> is_cpu_allowed k p (findLowestWeightCpu k) = true ->
      cpu = findLowestWeightCpu k).
Proof.
  intros Hwf U Hc Ho Hcpu Hfresh Hst. unfold try_to_wake_up. rewrite Hst, Ho. cbn [negb Z.eqb].
  rewrite Hcpu. fold (waking p k).
  destruct (waking_facts p k) as (W & A & Fo & Fn & Fm & Fi & FU).
  assert (Hs : sleeping p (waking p k)) by (split; [by rewrite (class_of_equiv _ _ p W)|by rewrite Fo, Ho]).
  destruct (select_task_rq_spec p (wake_cpu (tasks (waking p k) p)) SD_BALANCE_WAKE fl (waking p k) (FU U))
    as (k3 & cpu & Esel & Ha & Hrep). rewrite Esel.
  pose proof (select_wrr _ _ _ _ _ _ _ Hs Esel) as W3.
  assert (Hlow : 1 < nr_cpus_allowed (tasks k p) -> is_cpu_allowed k p (findLowestWeightCpu k) = true ->
    cpu = findLowestWeightCpu k).
  { intros Hn Hl. unfold select_task_rq in Esel. rewrite Fn in Esel.
    destruct (Z.ltb_spec 1 (nr_cpus_allowed (tasks k p))); [|lia].
    rewrite (proj1 Hs), plug_select in Esel. unfold selectTaskRqWrr in Esel. cbn [Z.eqb negb andb] in Esel.
    change (negb (SD_BALANCE_WAKE =? SD_BALANCE_WAKE) && _) with false in Esel. cbv iota in Esel.
    rewrite (lowest_equiv _ _ W Fm Fi), A, Hl in Esel. cbn [negb] in Esel. by simplify_eq. }
  destruct (chosen_cpu p k3 cpu Ha) as [Ha4 Hc4]. destruct (chosen_view p k3 k cpu Hrep) as [V4 L4].
  set (k4 := if negb (task_cpu (tasks k3 p) =? cpu) then set_task_cpu p cpu k3 else k3) in *.
  assert (E4 : exists fl4, (if negb (task_cpu (tasks k3 p) =? cpu)
      then (set_task_cpu p cpu k3, Z.lor fl WF_MIGRATED) else (k3, fl)) = (k4, fl4))
    by (unfold k4; destruct (negb _); by eexists).
  destruct E4 as [fl4 ->].
  assert (W4 : k4 ≡w k).
  { unfold k4. destruct (negb _); rewrite <- W, <- W3; [|done].
    apply set_task_cpu_wrr. by rewrite (class_of_equiv _ _ p W3), (class_of_equiv _ _ p W). }
  clearbody k4. unfold ttwu_queue. rewrite V4. eexists _, cpu. split; [done|].
  destruct (feat_TTWU_QUEUE && _).
  - destruct (ttwu_queue_remote_spec p cpu fl4 k4 Ha4 Hc4) as (A5 & _ & _ & _).
    destruct (queue_remote_wrr p cpu fl4 k k4 Hwf Hc Hfresh W4 (L4 cpu)) as [Wf P].
    split_and!; [|done|done|done]. by rewrite (ce_allowed _ _ p _ (ttwu_stat_core _ _ _ _)).
  - set (k5 := update_rq_clock cpu k4).
    assert (W5 : k5 ≡w k) by (unfold k5; by rewrite update_rq_clock_equiv).
    destruct (activate_wrr cpu p fl4 k5) as (fl' & Hf & W6); [by rewrite (class_of_equiv _ _ p W5)|].
    assert (W7 : ttwu_stat p cpu fl4 (ttwu_do_activate cpu p fl4 k5) ≡w enqueued cpu p fl' k).
    { rewrite ttwu_stat_wrr, W6. apply upd_wrr_congr; [done|]. intros w.
      by rewrite (task_weight_proper _ _ W5 p p eq_refl). }
    split_and!; [| | |done].
    + rewrite (ce_allowed _ _ p _ (ttwu_stat_core _ _ _ _)).
      destruct (drift_activate cpu p fl4 k5) as [-> _].
      by rewrite (ce_allowed k5 k4 p _ (core_clock _ _)).
    + rewrite W7. by apply enqueued_wf.
    + intros d. rewrite (ring_equiv _ _ d W7). by apply ring_enqueued.
Qed.

(** ** Scheduling a task of the class *)

(** What the CPU sees of the rings when it picks: a current task of the class
    that goes to sleep has left its ring. *)
Definition ring_at_pick (preempt : bool) (k : kernel) : list Z :=
  let c := this_cpu k in let prev := curr (rqs k c) in
  if negb preempt && negb (state (tasks k prev) =? 0) &&
     bool_decide (class_of (tasks k prev) = wrrSchedClass)
  then list_del prev (ring k c) else ring k c.

Lemma deschedule_wrr c prev k :
  (class_of (tasks k prev) = wrrSchedClass ->
    wrr_wf k /\ prev ∈ ring k c /\ Z.of_nat (length (ring k c)) < 2 ^ 32) ->
  has_flag (flags (tasks k prev)) PF_WQ_WORKER = false ->
  signal_pending_state k (state (tasks k prev)) prev = false ->
  deschedule_prev c prev k ≡w
    (if decide (class_of (tasks k prev) = wrrSchedClass) then dequeued c prev k else k).
Proof.
  intros Hw Hf Hsig. unfold deschedule_prev. rewrite Hsig. cbv zeta. unfold deactivate_task. cbv zeta.
  set (k1 := if task_contributes_to_load _ then _ else k).
  assert (E1 : k1 ≡w k) by (unfold k1; wrr_frame).
  assert (F1 : flags (tasks k1 prev) = flags (tasks k prev)) by (unfold k1; by cases).
  set (k2 := dequeue_task c prev _ k1).
  assert (E2 : k2 ≡w if decide (class_of (tasks k prev) = wrrSchedClass) then dequeued c prev k else k).
  { unfold k2. case_decide as Hc.
    - destruct (Hw Hc) as (Hwf & Hp & Hlen). rewrite dequeue_task_wrr.
      + apply upd_wrr_congr; [done|]. intros w. by rewrite (task_weight_proper _ _ E1 prev prev eq_refl).
      + by rewrite (class_of_equiv _ _ prev E1).
      + rewrite (proj1 E1 c). by apply (ring_counted k c prev).
    - rewrite dequeue_other; [done|]. by rewrite (class_of_equiv _ _ prev E1). }
  set (k3 := if in_iowait _ then _ else _).
  assert (E3 : k3 ≡w k2).
  { unfold k3. destruct (in_iowait _); rewrite ?call_equiv, ?upd_rq_equiv by done; by apply upd_task_equiv. }
  assert (F3 : flags (tasks k3 prev) = flags (tasks k prev)).
  { rewrite <- F1. transitivity (flags (tasks k2 prev)); [|by apply (ce_task flags); [apply core_dequeue|]].
    unfold k3. destruct (in_iowait _); rewrite ?tasks_call, ?tasks_upd_rq, tasks_upd_task, decide_True; done. }
  rewrite F3, Hf. by rewrite E3.
Qed.

Lemma prepare_wrr preempt k :
  let c := this_cpu k in let prev := curr (rqs k c) in
  (class_of (tasks k prev) = wrrSchedClass ->
    wrr_wf k /\ prev ∈ ring k c /\ Z.of_nat (length (ring k c)) < 2 ^ 32) ->
  has_flag (flags (tasks k prev)) PF_WQ_WORKER = false ->
  (forall k1, signal_pending_state k1 (state (tasks k prev)) prev = false) ->
  wrr_wf k -> wrr_wf (schedule_prepare preempt k).1 /\
  ring (schedule_prepare preempt k).1 c = ring_at_pick preempt k.
Proof.
  intros c prev Hw Hf Hsig Hwf. unfold schedule_prepare, ring_at_pick. fold c. fold prev. cbv zeta. cbn [fst].
  set (k1 := update_rq_clock c _).
  assert (C1 : still k k1).
  { etransitivity; [|apply still_equiv, core_clock]. unfold schedule_debug. still_back. }
  assert (E1 : k1 ≡w k).
  { unfold k1. rewrite update_rq_clock_equiv, upd_rq_equiv by done. unfold schedule_debug. wrr_frame. }
  assert (T1 : forall (A : Type) (f : task_struct -> A), f (tasks k1 prev) = f (tasks k prev)).
  { intros A f. unfold k1, update_rq_clock, update_rq_clock_task, schedule_debug. by cases. }
  rewrite (T1 _ state). destruct (negb preempt && negb (state (tasks k prev) =? 0)); cbn [andb].
  2:{ split; [by rewrite E1|by apply ring_equiv]. }
  assert (E2 : deschedule_prev c prev k1 ≡w
    if decide (class_of (tasks k prev) = wrrSchedClass) then dequeued c prev k else k).
  { rewrite deschedule_wrr.
    - rewrite (T1 _ class_of). case_decide; [|done]. apply upd_wrr_congr; [done|]. intros w.
      by rewrite (task_weight_proper _ _ E1 prev prev eq_refl).
    - rewrite (T1 _ class_of). intros Hc. destruct (Hw Hc) as (? & ? & ?).
      rewrite (ring_equiv _ _ c E1). by rewrite E1.
    - by rewrite (T1 _ flags).
    - by rewrite (T1 _ state). }
  rewrite (ring_equiv _ _ c E2). rewrite E2. case_decide as Hc.
  - rewrite bool_decide_true by done. destruct (Hw Hc) as (_ & Hp & _).
    split; [by apply dequeued_wf|]. rewrite ring_dequeued. by rewrite decide_True.
  - rewrite bool_decide_false by done. by split.
Qed.

Lemma pickWrr_head c prev k p rest :
  wrr_wf k -> ring k c = p :: rest -> Z.of_nat (length (ring k c)) < 2 ^ 32 ->
  exists k', pickWrr c prev k = (k', TASK p).
Proof.
  intros Hwf Hr Hlen. unfold pickWrr, pickNextTaskWrr, putPrevTaskWrr.
  destruct (Z.eqb_spec (nrRunning (wrr (rqs k c))) 0) as [E|].
  - exfalso. eapply (ring_counted k c p); [done| |done|done]. rewrite Hr. set_solver.
  - change (wrr_list (wrr (rqs (updateCurrWrr c k) c))) with (ring (updateCurrWrr c k) c).
    rewrite (ring_equiv _ _ c (updateCurrWrr_equiv c k)), Hr. by eexists.
Qed.

(** The CPU's current task after the switch. *)
Lemma switched_curr c prev next (b : bool) k :
  let k1 := upd_rq c (fun r => r <| nr_switches ::= fun n => u64 (n + 1) |> <| curr := next |>) k in
  let k2 := upd_task prev (fun t => if b then t <| nvcsw ::= fun n => u64 (n + 1) |>
                                    else t <| nivcsw ::= fun n => u64 (n + 1) |>) k1 in
  curr (rqs (balance_callback c (context_switch c prev next k2)) c) = next.
Proof.
  intros k1 k2. pose proof (still_balance c (context_switch c prev next k2)) as (_&_&->&_).
  unfold context_switch, finish_task_switch. cbv zeta.
  set (k3 := finish_lock_switch prev _).
  assert (C3 : curr (rqs k3 c) = next).
  { unfold k3, finish_lock_switch, clear_skip_flags, prepare_lock_switch, k2, k1.
    rewrite rqs_upd_task, rqs_upd_rq, !rqs_upd_task, rqs_upd_rq, !decide_True by done. done. }
  destruct (_ =? _); [|done]. destruct (op_task_dead _) as [f|] eqn:E; [|done].
  by rewrite (ce_rq curr _ _ c (law_dead _ _ prev k3 E)).
Qed.

(** C3: a CPU on which only tasks of the class (and fair ones) are queued runs
    the head of its ring next: [__schedule] takes a current task that goes to
    sleep off the ring, and switches to the first of those that are left; fair
    tasks wait as long as the ring is not empty. *)
Theorem schedule_runs_ring_head fuel preempt k p rest :
  let c := this_cpu k in let prev := curr (rqs k c) in
  let k1 := (schedule_prepare preempt k).1 in
  wrr_wf k -> Z.of_nat (length (ring k c)) < 2 ^ 32 ->
  (class_of (tasks k prev) = wrrSchedClass -> prev ∈ ring k c) ->
  has_flag (flags (tasks k prev)) PF_WQ_WORKER = false ->
  (forall k1, signal_pending_state k1 (state (tasks k prev)) prev = false) ->
  counted stop_running k1 c -> stop_running k1 c = 0 -> dl_nr_running (rqs k1 c) = 0 ->
  rt_queued (rt (rqs k1 c)) = false -> highest_prio_curr (rt (rqs k1 c)) <= prio (tasks k1 prev) ->
  class_of (tasks k1 prev) <> rt_sched_class -> dl_task (tasks k1 prev) = false ->
  ring_at_pick preempt k = p :: rest ->
  exists k', __schedule (S fuel) preempt k = Picked k' p /\ curr (rqs k' c) = p.
Proof.
  intros c prev k1 Hwf Hlen Hring Hf Hsig Hcnt Hs Hd Hrt Hhi Hcls Hdl Hp.
  destruct (prepare_wrr preempt k) as [Hwf1 Hr1]; try done. { intros Hc. by split_and!; [|apply Hring|]. }
  fold c in Hr1. fold k1 in Hwf1, Hr1. rewrite Hp in Hr1.
  assert (Hlen1 : Z.of_nat (length (ring k1 c)) < 2 ^ 32).
  { rewrite Hr1, <- Hp. unfold ring_at_pick. fold c. fold prev.
    case_match; [|done]. unfold list_del.
    pose proof (length_filter (fun x => x <> prev) (ring k c)). lia. }
  assert (Hn1 : nrRunning (wrr (rqs k1 c)) <> 0).
  { apply (ring_counted k1 c p); [done| |done]. rewrite Hr1. set_solver. }
  assert (Epick : exists k2, pick_next_task (S fuel) c prev k1 = Picked k2 p).
  { unfold pick_next_task. replace (nr_running (rqs k1 c) =? h_nr_running (cfs (rqs k1 c))) with false.
    2:{ symmetry. apply Z.eqb_neq. destruct Hcnt as (E & _ & _ & Hw & _). unfold rt_count in E.
        rewrite Hrt in E. lia. }
    rewrite andb_false_r. cbn [pick_again for_each_class classes_from class_next pick_in].
    rewrite law_pick_stop, law_pick_dl, law_pick_rt, plug_pick by done.
    destruct (pickWrr_head c prev k1 p rest) as [k2 ->]; [done..|]. by exists k2. }
  destruct Epick as [k2 Epick].
  assert (Hcur : curr (rqs k2 c) = prev).
  { pose proof (still_prepare preempt k) as (_&_&S1&_). pose proof (still_pick_next _ _ _ _ _ _ Epick) as (_&_&S2&_).
    by rewrite S2, S1. }
  unfold __schedule. fold c. fold prev. cbv zeta.
  unfold k1 in Epick. destruct (schedule_prepare preempt k) as [k1' b]. cbn [fst] in Epick.
  rewrite Epick. destruct (Z.eqb_spec prev p) as [Heq|Hne]; cbn [negb]; (eexists; split; [done|]).
  - pose proof (still_balance c (clear_skip_flags c (upd_task prev (fun t => t <| need_resched := false |>) k2)))
      as (_&_&->&_).
    unfold clear_skip_flags. rewrite rqs_upd_rq, decide_True by done. by rewrite <- Heq.
  - apply switched_curr.
Qed.
End WrrWake.

(** ** Examples: the two tasks of [Wrr] on CPU 0 *)

Lemma demo_alone : @WrrAlone demo_ops demo_switch_ops demo_class_ops.
Proof.
  split; cbn; intros; try case_decide; try done.
  by apply (@switchedToWrr_equiv demo_ops demo_plugged).
Qed.

Definition demo_shared_cache : WakeEnv := {|
  cpumask_of_node c := Some {[0; 1]};
  CONFIG_CPUSETS := true;
  cpuset_cpus_allowed_fallback p k := set_cpus_allowed_common p (cpu_possible_mask k) k;
  sd_llc_id c := 0;
  feat_TTWU_QUEUE := true;
  domain_spans c := [{[0; 1]}];
  wq_worker_sleeping k p := None;
  signal_pending_state k st p := false |}.

Lemma demo_shared_laws : @WakeLaws demo_class_ops demo_shared_cache.
Proof. split; intros; cbn; [by case_decide|]. exists (cpu_possible_mask k). done. Qed.

Lemma demo_placed : @WrrPlaced demo_class_ops demo_shared_cache.
Proof. split; cbn; intros; try done. by apply upd_task_equiv. Qed.

Lemma demo2_ring1 : 1 ∈ ring demo2 0.
Proof. rewrite demo2_ring. set_solver. Qed.

(** Task 1 is given the nice value 5 and goes behind task 2. *)
Lemma set_user_nice_wrr_witness : ring (@set_user_nice demo_ops 1 5 demo2) 0 = [2; 1].
Proof.
  destruct (@set_user_nice_wrr demo_ops demo_plugged demo_frame demo_switch_ops demo_class_ops
    demo_alone 1 5 demo2 demo2_wf) as (_ & Hr & _); try exact demo2_ring1; done.
Defined.

(** Task 7, real-time of priority 50, waits for a lock of task 1. *)
Definition demo_donor : kernel := upd_task 7 (fun t => t <| prio := 50 |>) demo2.

Lemma demo_donor_equiv : demo_donor ≡w demo2.
Proof. by apply upd_task_equiv. Qed.

Lemma demo2_idle d : idle (rqs demo2 d) = 0.
Proof.
  unfold demo2, demo1. rewrite (ce_rq idle _ _ d (core_enqueueWrr _ _ _ _)) by done.
  by rewrite (ce_rq idle _ _ d (core_enqueueWrr _ _ _ _)).
Qed.

Lemma deboosted_task_leaves_wrr_witness :
  let k1 := @rt_mutex_setprio demo_ops demo_switch_ops demo_class_ops demo_policy_env 1 (Some 7) demo_donor in
  let k2 := @rt_mutex_setprio demo_ops demo_switch_ops demo_class_ops demo_policy_env 1 None k1 in
  class_of (tasks k2 1) = fair_sched_class /\ forall d, 1 ∉ ring k2 d.
Proof.
  assert (Hwf : wrr_wf demo_donor) by (rewrite demo_donor_equiv; exact demo2_wf).
  assert (Hp : 1 ∈ ring demo_donor 0) by (rewrite (ring_equiv _ _ _ demo_donor_equiv); exact demo2_ring1).
  assert (Hlen : Z.of_nat (length (ring demo_donor 0)) < 2 ^ 32)
    by (rewrite (ring_equiv _ _ _ demo_donor_equiv), demo2_ring; reflexivity).
  assert (Hidle : forall d, 1 <> idle (rqs demo_donor d))
    by (intros d; change (1 <> idle (rqs demo2 d)); rewrite demo2_idle; discriminate).
  assert (Hd : 0 <= prio (tasks demo_donor 7) < MAX_RT_PRIO) by (vm_compute; split; congruence).
  assert (Hn : MAX_RT_PRIO <= normal_prio_f (tasks demo_donor 1)) by (vm_compute; congruence).
  pose proof (@deboosted_task_leaves_wrr demo_ops demo_plugged demo_frame demo_switch_ops demo_class_ops
    demo_alone demo_policy_env demo_load_ops demo_policy_laws 1 7 demo_donor
    Hwf eq_refl eq_refl Hp Hlen Hidle eq_refl Hn Hd) as (_ & Hf & _ & _ & Hr).
  exact (conj Hf Hr).
Defined.

(** Task 3 sleeps; CPU 1 is empty and gets it. *)
Lemma demo_sleeper_wrr : demo_sleeper ≡w demo2.
Proof. by apply upd_task_equiv. Qed.

Lemma demo_sleeper_fresh d : 3 ∉ ring demo_sleeper d.
Proof.
  rewrite (ring_equiv _ _ d demo_sleeper_wrr). unfold demo2, demo1.
  rewrite (ring_equiv _ _ d (enqueueTaskWrr_effect _ _ _ _)), ring_enqueued by done.
  rewrite (ring_equiv _ _ d (enqueueTaskWrr_effect _ _ _ _)), ring_enqueued by done.
  unfold ring. cbn. case_decide; set_solver.
Qed.

(** With a cache of its own, CPU 1 gets the task on its wake list. *)
Definition demo_own_caches : WakeEnv := {|
  cpumask_of_node c := Some {[0; 1]};
  CONFIG_CPUSETS := true;
  cpuset_cpus_allowed_fallback p k := set_cpus_allowed_common p (cpu_possible_mask k) k;
  sd_llc_id c := c;
  feat_TTWU_QUEUE := true;
  domain_spans c := [{[0; 1]}];
  wq_worker_sleeping k p := None;
  signal_pending_state k st p := false |}.

Lemma demo_own_laws : @WakeLaws demo_class_ops demo_own_caches.
Proof. split; intros; cbn; [by case_decide|]. exists (cpu_possible_mask k). done. Qed.

Lemma demo_own_placed : @WrrPlaced demo_class_ops demo_own_caches.
Proof. split; cbn; intros; try done. by apply upd_task_equiv. Qed.

(** Waking task 3 in both machines. *)
Lemma wake_up_wrr_witness :
  (exists k', @try_to_wake_up demo_ops demo_class_ops demo_shared_cache 3 TASK_NORMAL 0 demo_sleeper
     = Woken k' true /\ ring k' 1 = [3]) /\
  (exists k', @try_to_wake_up demo_ops demo_class_ops demo_own_caches 3 TASK_NORMAL 0 demo_sleeper
     = Woken k' true /\ ring k' 1 = [] /\
     ring (@sched_ttwu_pending demo_ops demo_class_ops (k' <| this_cpu := 1 |>)) 1 = [3]).
Proof.
  assert (Hwf : wrr_wf demo_sleeper) by (rewrite demo_sleeper_wrr; exact demo2_wf).
  assert (Hr1 : ring demo_sleeper 1 = []) by (by vm_compute).
  assert (Hlow : findLowestWeightCpu demo_sleeper = 1) by (by vm_compute).
  split.
  - pose proof (@wake_up_wrr demo_ops demo_plugged demo_frame demo_switch_ops demo_class_ops demo_alone
      demo_shared_cache demo_shared_laws demo_woken demo_placed 3 TASK_NORMAL 0 demo_sleeper
      Hwf demo_sleeper_usable eq_refl eq_refl eq_refl demo_sleeper_fresh eq_refl)
      as (k' & cpu & E & _ & _ & Hr & Hcpu).
    rewrite Hlow in Hcpu. specialize (Hcpu eq_refl eq_refl). subst cpu.
    exists k'. split; [exact E|]. specialize (Hr 1). rewrite Hr1 in Hr. exact Hr.
  - pose proof (@wake_up_wrr demo_ops demo_plugged demo_frame demo_switch_ops demo_class_ops demo_alone
      demo_own_caches demo_own_laws demo_woken demo_own_placed 3 TASK_NORMAL 0 demo_sleeper
      Hwf demo_sleeper_usable eq_refl eq_refl eq_refl demo_sleeper_fresh eq_refl)
      as (k' & cpu & E & _ & _ & Hr & Hcpu).
    rewrite Hlow in Hcpu. specialize (Hcpu eq_refl eq_refl). subst cpu.
    exists k'. split; [exact E|]. destruct Hr as (Hr & _ & Hp). rewrite Hr. split; [exact Hr1|].
    destruct Hp as [_ Hp].
    + repeat constructor. apply not_elem_of_nil.
    + intros q Hq. destruct (not_elem_of_nil q Hq).
    + rewrite Hp, Hr1. reflexivity.
Defined.

(** Task 1 runs on CPU 0 and goes to sleep: task 2 is next. *)
Definition demo_blocking : kernel :=
  upd_task 1 (fun t => t <| state := TASK_INTERRUPTIBLE |>)
    (upd_rq 0 (fun r => r <| curr := 1 |>) demo2).

Lemma demo_blocking_wrr : demo_blocking ≡w demo2.
Proof. unfold demo_blocking. rewrite upd_task_equiv, upd_rq_equiv by done. done. Qed.

Lemma schedule_runs_ring_head_witness :
  exists k', @__schedule demo_ops demo_class_ops demo_shared_cache 1 false demo_blocking = Picked k' 2 /\
    curr (rqs k' 0) = 2.
Proof.
  assert (Hwf : wrr_wf demo_blocking) by (rewrite demo_blocking_wrr; exact demo2_wf).
  assert (Hp : 1 ∈ ring demo_blocking 0) by (rewrite (ring_equiv _ _ _ demo_blocking_wrr); exact demo2_ring1).
  apply (@schedule_runs_ring_head demo_ops demo_plugged demo_frame demo_switch_ops demo_class_ops
    demo_alone demo_shared_cache demo_shared_laws demo_woken demo_placed demo_schedule_laws
    (fun _ _ => 0) demo_pick_laws 0 false demo_blocking 2 [] Hwf).
  - vm_compute. reflexivity.
  - intros _. exact Hp.
  - vm_compute. reflexivity.
  - intros k1. reflexivity.
  - clear. split_and!; vm_compute; congruence.
  - reflexivity.
  - vm_compute. reflexivity.
  - vm_compute. reflexivity.
  - vm_compute. congruence.
  - vm_compute. congruence.
  - vm_compute. reflexivity.
  - vm_compute. reflexivity.
Defined.
