(* ===== verification/RtBandwidth.v ===== *)
(** * Bandwidth of the real-time class (rt.c, with parts of sched.h and core.c)

    Real-time tasks may use [rt_runtime] of every [rt_period].  Each run queue
    has its own budget; a queue that has used it up borrows spare time from the
    others ([do_balance_runtime]) and is throttled when that is not enough,
    until the period timer gives it new time.  A CPU that goes offline takes
    back what it has lent ([__disable_runtime]).

    The model is that of CONFIG_SMP without CONFIG_RT_GROUP_SCHED: an [rt_rq]
    is the [rt] of a run queue and there is one [rt_bandwidth].  [None] is a
    failed [BUG_ON].

    The theorems: borrowing moves time and creates none, the budgets of the
    active queues always add up to what the configuration gives them, and
    therefore the [BUG_ON (want)] of [__disable_runtime] cannot fail. *)

From S2P Require Import Prelude SchedTypes.

Definition upd_rt (c : Z) (f : rt_rq -> rt_rq) (k : kernel) : kernel :=
  upd_rq c (fun r => r <| rt ::= f |>) k.
Definition rt_of (k : kernel) (c : Z) : rt_rq := rt (rqs k c).

Definition NSEC_PER_USEC : Z := 1000.
Definition NSEC_PER_MSEC : Z := 1000000.
Definition sysctl_sched_time_avg : Z := 1000.

(** ** Parameters *)

Definition rt_bandwidth_enabled (k : kernel) : bool := 0 <=? sysctl_sched_rt_runtime k.

Definition global_rt_period (k : kernel) : Z := u64 (u64 (sysctl_sched_rt_period k) * NSEC_PER_USEC).
Definition global_rt_runtime (k : kernel) : Z :=
  if sysctl_sched_rt_runtime k <? 0 then RUNTIME_INF
  else u64 (u64 (sysctl_sched_rt_runtime k) * NSEC_PER_USEC).

Definition init_rt_bandwidth (period runtime : Z) (k : kernel) : kernel :=
  k <| def_rt_bandwidth ::= fun b => b <| rt_period := period |> <| rt_b_runtime := runtime |> |>.

(** The period timer is armed when the first task needs it. *)
Definition start_rt_bandwidth (k : kernel) : kernel :=
  if negb (rt_bandwidth_enabled k) || (rt_b_runtime (def_rt_bandwidth k) =? RUNTIME_INF) then k
  else if negb (rt_period_active (def_rt_bandwidth k)) then
    call hrtimer_start_period (k <| def_rt_bandwidth ::= fun b => b <| rt_period_active := true |> |>)
  else k.

Definition init_rt_rq (r : rt_rq) : rt_rq :=
  r <| active := mkRtArray
         (Z.setbit (foldl (fun b i => Z.clearbit b i) (bitmap (active r)) (seqZ 0 MAX_RT_PRIO)) MAX_RT_PRIO)
         (fun i => if (0 <=? i) && (i <? MAX_RT_PRIO) then [] else queue (active r) i) |>
    <| highest_prio_curr := MAX_RT_PRIO |> <| highest_prio_next := MAX_RT_PRIO |>
    <| rt_nr_migratory := 0 |> <| overloaded := false |> <| pushable_tasks := [] |>
    <| rt_queued := false |> <| rt_time := 0 |> <| rt_throttled := false |> <| rt_runtime := 0 |>.

Definition sched_rt_runtime (k : kernel) (c : Z) : Z := rt_runtime (rt_of k c).
Definition sched_rt_period (k : kernel) : Z := rt_period (def_rt_bandwidth k).
Definition rt_rq_throttled (k : kernel) (c : Z) : bool := rt_throttled (rt_of k c).

(** [timer]: [hrtimer_active] of the period timer. *)
Definition sched_rt_bandwidth_account (timer : bool) (k : kernel) (c : Z) : bool :=
  timer || (rt_time (rt_of k c) <? rt_b_runtime (def_rt_bandwidth k)).

(** ** The top queue in the count of runnable tasks *)

Definition dequeue_top_rt_rq (c : Z) (k : kernel) : option kernel :=
  if negb (rt_queued (rt_of k c)) then Some k
  else if nr_running (rqs k c) =? 0 then None
  else Some (upd_rt c (fun r => r <| rt_queued := false |>)
               (sub_nr_running c (rt_nr_running (rt_of k c)) k)).

Definition enqueue_top_rt_rq (c : Z) (k : kernel) : kernel :=
  if rt_queued (rt_of k c) then k
  else if rt_rq_throttled k c || (rt_nr_running (rt_of k c) =? 0) then k
  else upd_rt c (fun r => r <| rt_queued := true |>)
         (add_nr_running c (rt_nr_running (rt_of k c)) k).

Definition sched_rt_rq_enqueue (c : Z) (k : kernel) : kernel :=
  if rt_nr_running (rt_of k c) =? 0 then k
  else resched_curr c (enqueue_top_rt_rq c k).

Definition sched_rt_rq_dequeue (c : Z) (k : kernel) : option kernel := dequeue_top_rt_rq c k.

(** ** Borrowing *)

(** The loop of [do_balance_runtime] for the queue of CPU [c]. *)
Fixpoint balance_loop (cpus : list Z) (c weight period : Z) (k : kernel) : kernel :=
  match cpus with
  | [] => k
  | i :: cpus =>
      if i =? c then balance_loop cpus c weight period k
      else if rt_runtime (rt_of k i) =? RUNTIME_INF then balance_loop cpus c weight period k
      else
        let diff := s64 (rt_runtime (rt_of k i) - rt_time (rt_of k i)) in
        if 0 <? diff then
          let diff := diff / weight in
          let own := rt_runtime (rt_of k c) in
          let diff := if period <? u64 (own + diff) then s64 (period - own) else diff in
          let k := upd_rt i (fun r => r <| rt_runtime ::= fun x => u64 (x - diff) |>) k in
          let k := upd_rt c (fun r => r <| rt_runtime ::= fun x => u64 (x + diff) |>) k in
          if rt_runtime (rt_of k c) =? period then k else balance_loop cpus c weight period k
        else balance_loop cpus c weight period k
  end.

Definition do_balance_runtime (c : Z) (k : kernel) : kernel :=
  balance_loop (for_each_cpu k (span (rd k))) c (cpumask_weight (span (rd k)))
    (rt_period (def_rt_bandwidth k)) k.

Definition balance_runtime (c : Z) (k : kernel) : kernel :=
  if negb (feat_RT_RUNTIME_SHARE k) then k
  else if rt_runtime (rt_of k c) <? rt_time (rt_of k c) then do_balance_runtime c k
  else k.

(** The greedy reclaim of [__disable_runtime]; the result is the amount still
    wanted. *)
Fixpoint reclaim_loop (cpus : list Z) (c want : Z) (k : kernel) : Z * kernel :=
  match cpus with
  | [] => (want, k)
  | i :: cpus =>
      if (i =? c) || (rt_runtime (rt_of k i) =? RUNTIME_INF) then reclaim_loop cpus c want k
      else
        let diff := if 0 <? want then Z.min (s64 (rt_runtime (rt_of k i))) want else want in
        let k := upd_rt i (fun r => r <| rt_runtime ::= fun x => u64 (x - diff) |>) k in
        let want := s64 (want - diff) in
        if want =? 0 then (want, k) else reclaim_loop cpus c want k
  end.

Definition __disable_runtime (running : bool) (c : Z) (k : kernel) : option kernel :=
  if negb running then Some k
  else
    let own := rt_runtime (rt_of k c) in
    let B := rt_b_runtime (def_rt_bandwidth k) in
    let '(want, k) :=
      if (own =? RUNTIME_INF) || (own =? B) then (0, k)
      else reclaim_loop (for_each_cpu k (span (rd k))) c (s64 (B - own)) k in
    if negb (want =? 0) then None
    else
      let k := upd_rt c (fun r => r <| rt_runtime := RUNTIME_INF |> <| rt_throttled := false |>) k in
      Some (sched_rt_rq_enqueue c k).

Definition __enable_runtime (running : bool) (c : Z) (k : kernel) : kernel :=
  if negb running then k
  else upd_rt c (fun r => r <| rt_runtime := rt_b_runtime (def_rt_bandwidth k) |>
                            <| rt_time := 0 |> <| rt_throttled := false |>) k.

(** ** The period timer *)

(** One CPU of [do_sched_rt_period_timer]; the accumulator is
    [(idle, throttled)]. *)
Definition period_cpu (overrun : Z) (acc : bool * bool * kernel) (i : Z) : bool * bool * kernel :=
  let '(idle, throttled, k) := acc in
  let k := if negb (feat_RT_RUNTIME_SHARE k) && negb (rt_runtime (rt_of k i) =? RUNTIME_INF)
           then upd_rt i (fun r => r <| rt_runtime := rt_b_runtime (def_rt_bandwidth k) |>) k
           else k in
  if (rt_time (rt_of k i) =? 0) && (rt_nr_running (rt_of k i) =? 0) then (idle, throttled, k)
  else
    let k := update_rq_clock i k in
    let '(idle, enqueue, k) :=
      if negb (rt_time (rt_of k i) =? 0) then
        let k := if rt_throttled (rt_of k i) then balance_runtime i k else k in
        let runtime := rt_runtime (rt_of k i) in
        let k := upd_rt i (fun r => r <| rt_time ::= fun t => t - Z.min t (u64 (overrun * runtime)) |>) k in
        let '(enqueue, k) :=
          if rt_throttled (rt_of k i) && (rt_time (rt_of k i) <? runtime) then
            let k := upd_rt i (fun r => r <| rt_throttled := false |>) k in
            (true, if negb (rt_nr_running (rt_of k i) =? 0) && (curr (rqs k i) =? SchedTypes.idle (rqs k i))
                   then rq_clock_skip_update i false k else k)
          else (false, k) in
        (idle && (rt_time (rt_of k i) =? 0) && (rt_nr_running (rt_of k i) =? 0), enqueue, k)
      else if negb (rt_nr_running (rt_of k i) =? 0) then (false, negb (rt_rq_throttled k i), k)
      else (idle, false, k) in
    let throttled := throttled || rt_throttled (rt_of k i) in
    (idle, throttled, if enqueue : bool then sched_rt_rq_enqueue i k else k).

Definition do_sched_rt_period_timer (overrun : Z) (k : kernel) : kernel * bool :=
  let '(idle, throttled, k) :=
    foldl (period_cpu overrun) (true, false, k) (for_each_cpu k (cpu_online_mask k)) in
  (k, if negb throttled && (negb (rt_bandwidth_enabled k) ||
           (rt_b_runtime (def_rt_bandwidth k) =? RUNTIME_INF)) then true else idle).

(** [overruns]: what [hrtimer_forward_now] returns, up to the first 0; the
    result is whether the timer restarts. *)
Fixpoint timer_loop (overruns : list Z) (idle : bool) (k : kernel) : bool * kernel :=
  match overruns with
  | [] => (idle, k)
  | o :: overruns =>
      if o =? 0 then (idle, k)
      else let '(k, idle) := do_sched_rt_period_timer o k in timer_loop overruns idle k
  end.

Definition sched_rt_period_timer (overruns : list Z) (k : kernel) : kernel * bool :=
  let '(idle, k) := timer_loop overruns false k in
  (if idle then k <| def_rt_bandwidth ::= fun b => b <| rt_period_active := false |> |> else k,
   negb idle).

(** ** Charging the running task *)

Definition sched_rt_runtime_exceeded (c : Z) (k : kernel) : option (kernel * bool) :=
  if rt_throttled (rt_of k c) then Some (k, rt_rq_throttled k c)
  else if sched_rt_period k <=? sched_rt_runtime k c then Some (k, false)
  else
    let k := balance_runtime c k in
    let runtime := sched_rt_runtime k c in
    if runtime =? RUNTIME_INF then Some (k, false)
    else if runtime <? rt_time (rt_of k c) then
      let k := if negb (rt_b_runtime (def_rt_bandwidth k) =? 0)
               then upd_rt c (fun r => r <| rt_throttled := true |>) k
               else upd_rt c (fun r => r <| rt_time := 0 |>) k in
      if rt_rq_throttled k c then k ← sched_rt_rq_dequeue c k; Some (k, true)
      else Some (k, false)
    else Some (k, false).

Definition sched_avg_period : Z := u64 (sysctl_sched_time_avg * NSEC_PER_MSEC) / 2.

(** The loop of [sched_avg_update], at most [fuel] times. *)
Fixpoint avg_loop (fuel : nat) (c period : Z) (k : kernel) : kernel :=
  match fuel with
  | O => k
  | S n =>
      if period <? s64 (clock (rqs k c) - age_stamp (rqs k c)) then
        avg_loop n c period
          (upd_rq c (fun r => r <| age_stamp ::= fun a => u64 (a + period) |>
                                <| rt_avg ::= fun a => a / 2 |>) k)
      else k
  end.

Definition sched_avg_update (c : Z) (k : kernel) : kernel :=
  avg_loop (Z.to_nat (s64 (clock (rqs k c) - age_stamp (rqs k c)) / sched_avg_period)) c
    sched_avg_period k.

Definition sched_rt_avg_update (c rt_delta : Z) (k : kernel) : kernel :=
  sched_avg_update c
    (upd_rq c (fun r => r <| rt_avg ::= fun a => u64 (a + rt_delta * SCHED_CAPACITY_SCALE) |>) k).

Definition update_curr_rt (c : Z) (k : kernel) : option kernel :=
  let p := curr (rqs k c) in
  if negb (bool_decide (class_of (tasks k p) = rt_sched_class)) then Some k
  else
    let delta_exec := u64 (rq_clock_task k c - exec_start (se (tasks k p))) in
    if s64 delta_exec <=? 0 then Some k
    else
      let upd f := upd_task p (fun t => t <| se ::= f |>) in
      let k := call (cpufreq_update_util c) k in
      let k := if schedstat_enabled k
               then upd (fun s => s <| exec_max ::= fun m => Z.max m delta_exec |>) k else k in
      let k := upd (fun s => s <| sum_exec_runtime ::= fun x => u64 (x + delta_exec) |>) k in
      let k := call (account_group_exec_runtime p delta_exec) k in
      let k := upd (fun s => s <| exec_start := rq_clock_task k c |>) k in
      let k := call (cpuacct_charge p delta_exec) k in
      let k := sched_rt_avg_update c delta_exec k in
      if negb (rt_bandwidth_enabled k) then Some k
      else
        let d := task_cpu (tasks k p) in
        if negb (sched_rt_runtime k d =? RUNTIME_INF) then
          let k := upd_rt d (fun r => r <| rt_time ::= fun t => u64 (t + delta_exec) |>) k in
          '(k, exceeded) ← sched_rt_runtime_exceeded d k;
          Some (if exceeded : bool then resched_curr c k else k)
        else Some k.

(** ** Setting the limits *)

Definition sched_rt_global_constraints (possible : list Z) (k : kernel) : kernel :=
  foldl (fun k i => upd_rt i (fun r => r <| rt_runtime := global_rt_runtime k |>) k) k possible.

(** [sysctl_sched_rt_runtime] is an [int] that is compared with the [u64]
    [RUNTIME_INF] as -1 is. *)
Definition sched_rt_global_validate (k : kernel) : Z :=
  if sysctl_sched_rt_period k <=? 0 then - EINVAL
  else if negb (u64 (sysctl_sched_rt_runtime k) =? RUNTIME_INF) &&
          (sysctl_sched_rt_period k <? sysctl_sched_rt_runtime k) then - EINVAL
  else 0.

Definition sched_rt_do_global (k : kernel) : kernel :=
  k <| def_rt_bandwidth ::= fun b => b <| rt_b_runtime := global_rt_runtime k |>
                                      <| rt_period := global_rt_period k |> |>.

(** [written]: the period and runtime [proc_dointvec] stores, or its error;
    [dl_ret]: the answer of [sched_dl_global_validate]. *)
Definition sched_rt_handler (write : bool) (written : (Z * Z) + Z) (dl_ret : Z)
    (possible : list Z) (k : kernel) : kernel * Z :=
  match written with
  | inr ret => (k, ret)
  | inl (period, runtime) =>
      let k' := k <| sysctl_sched_rt_period := period |> <| sysctl_sched_rt_runtime := runtime |> in
      if negb write then (k, 0)
      else
        let ret := sched_rt_global_validate k' in
        if negb (ret =? 0) then (k, ret)
        else if negb (dl_ret =? 0) then (k, dl_ret)
        else (sched_rt_do_global (sched_rt_global_constraints possible k'), 0)
  end.

Class JiffiesConfig := { RR_TIMESLICE : Z; msecs_to_jiffies : Z -> Z }.

Definition sched_rr_handler `{JiffiesConfig} (write : bool) (written : Z + Z) (k : kernel) : kernel * Z :=
  match written with
  | inr ret => (k, ret)
  | inl v =>
      if negb write then (k, 0)
      else (k <| sysctl_sched_rr_timeslice := v |>
              <| sched_rr_timeslice := if v <=? 0 then RR_TIMESLICE else msecs_to_jiffies v |>, 0)
  end.

(** ** The budgets *)

Definition runtime (k : kernel) (i : Z) : Z := rt_runtime (rt_of k i).
Definition used (k : kernel) (i : Z) : Z := rt_time (rt_of k i).
Definition disabled (k : kernel) (i : Z) : bool := runtime k i =? RUNTIME_INF.
Definition cpus (k : kernel) : list Z := for_each_cpu k (span (rd k)).
Definition quota (k : kernel) : Z := rt_b_runtime (def_rt_bandwidth k).

(** The budget of a CPU, and what the configuration gives it; a disabled CPU
    has neither. *)
Definition budget (k : kernel) (i : Z) : Z := if disabled k i then 0 else runtime k i.
Definition entitled (k : kernel) (i : Z) : Z := if disabled k i then 0 else quota k.

(** The budgets add up to what the enabled CPUs are entitled to. *)
Record budgets_ok (k : kernel) : Prop := {
  bud_nonneg i : i ∈ cpus k -> 0 <= budget k i;
  bud_used i : i ∈ cpus k -> 0 <= used k i < 2 ^ 62;
  bud_sum : sum_of (budget k) (cpus k) = sum_of (entitled k) (cpus k);
  bud_total : 0 <= quota k /\ quota k + sum_of (entitled k) (cpus k) < 2 ^ 62;
  bud_period : 0 <= rt_period (def_rt_bandwidth k) < 2 ^ 62 }.

(** What the budgets depend on. *)
Record same_budgets (k k' : kernel) : Prop := {
  same_runtime i : runtime k' i = runtime k i;
  same_used i : used k' i = used k i;
  same_span : span (rd k') = span (rd k);
  same_ids : nr_cpu_ids k' = nr_cpu_ids k;
  same_def : def_rt_bandwidth k' = def_rt_bandwidth k }.

Lemma cpus_NoDup k : NoDup (cpus k).
Proof. apply NoDup_filter, NoDup_seqZ. Qed.

Lemma upd_rt_eq c f k : rt_of (upd_rt c f k) c = f (rt_of k c).
Proof. unfold rt_of, upd_rt. by rewrite upd_rq_eq. Qed.
Lemma upd_rt_ne c d f k : c <> d -> rt_of (upd_rt c f k) d = rt_of k d.
Proof. intros. unfold rt_of, upd_rt. by rewrite upd_rq_ne. Qed.

Lemma disabled_small k i : runtime k i < 2 ^ 63 -> disabled k i = false.
Proof. intros. unfold disabled, RUNTIME_INF, U64_MAX. apply Z.eqb_neq. lia. Qed.

Lemma budget_le k i : budgets_ok k -> i ∈ cpus k -> budget k i < 2 ^ 62.
Proof.
  intros [H1 _ Hs [? Ht] _] Hi. pose proof (sum_of_le (budget k) (cpus k) i H1 Hi). lia.
Qed.

(** ** Changing budgets *)

#[export] Instance same_budgets_equiv : Equivalence same_budgets.
Proof.
  split.
  - by split.
  - intros k k' []; split; congruence.
  - intros k1 k2 k3 [] []; split; congruence.
Qed.

Lemma runtime_upd i g k j :
  runtime (upd_rt i (fun r => r <| rt_runtime ::= g |>) k) j =
  if decide (i = j) then g (runtime k i) else runtime k j.
Proof. unfold runtime. case_decide; subst; [by rewrite upd_rt_eq|by rewrite upd_rt_ne]. Qed.

Lemma used_upd i g k j : used (upd_rt i (fun r => r <| rt_runtime ::= g |>) k) j = used k j.
Proof.
  unfold used. destruct (decide (i = j)); subst; [by rewrite upd_rt_eq|by rewrite upd_rt_ne].
Qed.

(** A change of the budgets that keeps their sum. *)
Lemma budgets_ok_change k k' :
  budgets_ok k -> span (rd k') = span (rd k) -> nr_cpu_ids k' = nr_cpu_ids k ->
  def_rt_bandwidth k' = def_rt_bandwidth k -> (forall i, used k' i = used k i) ->
  (forall i, i ∈ cpus k -> disabled k' i = disabled k i) ->
  (forall i, i ∈ cpus k -> 0 <= budget k' i) ->
  sum_of (budget k') (cpus k) = sum_of (budget k) (cpus k) -> budgets_ok k'.
Proof.
  intros [H1 H2 H3 H4 H5] Hrd Hids Hdef Hu Hdis Hpos Hsum.
  assert (Hc : cpus k' = cpus k) by (unfold cpus, for_each_cpu; by rewrite Hrd, Hids).
  assert (He : sum_of (entitled k') (cpus k) = sum_of (entitled k) (cpus k)).
  { apply sum_of_ext. intros i Hi. unfold entitled, quota. by rewrite Hdis, Hdef. }
  split; rewrite ?Hc; unfold quota in *; rewrite ?Hdef; auto; try congruence.
  intros i Hi. rewrite Hu. auto.
Qed.

Lemma budgets_ok_same k k' : same_budgets k k' -> budgets_ok k -> budgets_ok k'.
Proof.
  intros [Hr Hu Hrd Hids Hdef] Hok.
  assert (Hd : forall i, disabled k' i = disabled k i) by (intros; unfold disabled; by rewrite Hr).
  assert (Hb : forall i, budget k' i = budget k i) by (intros; unfold budget; by rewrite Hd, Hr).
  apply (budgets_ok_change k); auto.
  - intros i Hi. rewrite Hb. by apply Hok.
  - by apply sum_of_ext.
Qed.

(** ** Borrowing conserves *)

(** [d] nanoseconds move from [i] to [c]. *)
Definition moved (i c d : Z) (k : kernel) : kernel :=
  upd_rt c (fun r => r <| rt_runtime ::= fun x => u64 (x + d) |>)
    (upd_rt i (fun r => r <| rt_runtime ::= fun x => u64 (x - d) |>) k).

Section Moved.
Context (i c d : Z) (k : kernel).
Context (Hok : budgets_ok k) (Hi : i ∈ cpus k) (Hc : c ∈ cpus k) (Hic : i <> c).
Context (Hdi : disabled k i = false) (Hdc : disabled k c = false).
Context (H1 : 0 <= runtime k i - d < 2 ^ 63) (H2 : 0 <= runtime k c + d < 2 ^ 63).

Lemma moved_runtime j :
  runtime (moved i c d k) j =
  if decide (j = c) then runtime k c + d
  else if decide (j = i) then runtime k i - d else runtime k j.
Proof using Hi Hc Hic Hdi Hdc H1 H2.
  unfold moved. rewrite !runtime_upd.
  repeat case_decide; subst; try done; rewrite u64_id; lia.
Qed.

Lemma moved_disabled j : disabled (moved i c d k) j = disabled k j.
Proof using Hi Hc Hic Hdi Hdc H1 H2.
  destruct (decide (j = c)) as [->|]; [rewrite Hdc; apply disabled_small; rewrite moved_runtime|].
  { rewrite decide_True by done. lia. }
  destruct (decide (j = i)) as [->|].
  { rewrite Hdi. apply disabled_small. rewrite moved_runtime, decide_False, decide_True by done. lia. }
  unfold disabled. by rewrite moved_runtime, !decide_False.
Qed.

Lemma moved_budget j :
  budget (moved i c d k) j =
  if decide (j = c) then budget k c + d
  else if decide (j = i) then budget k i - d else budget k j.
Proof using Hi Hc Hic Hdi Hdc H1 H2.
  unfold budget. rewrite moved_disabled, moved_runtime.
  repeat case_decide; subst; rewrite ?Hdi, ?Hdc; done.
Qed.

Lemma moved_ok : budgets_ok (moved i c d k).
Proof using Hok Hi Hc Hic Hdi Hdc H1 H2.
  pose proof (bud_nonneg k Hok) as Hpos.
  assert (Hbi : budget k i = runtime k i) by (unfold budget; by rewrite Hdi).
  assert (Hbc : budget k c = runtime k c) by (unfold budget; by rewrite Hdc).
  apply (budgets_ok_change k); try done.
  - intros j. unfold moved. by rewrite !used_upd.
  - intros. apply moved_disabled.
  - intros j Hj. rewrite moved_budget. repeat case_decide; [lia..|auto].
  - set (g := fun j => if decide (j = i) then budget k i - d else budget k j).
    rewrite (sum_of_upd g (budget (moved i c d k)) (cpus k) c (cpus_NoDup k) Hc).
    2:{ intros j Hj. rewrite moved_budget. by rewrite decide_False. }
    rewrite (sum_of_upd (budget k) g (cpus k) i (cpus_NoDup k) Hi).
    2:{ intros j Hj. unfold g. by rewrite decide_False. }
    unfold g. rewrite moved_budget. repeat case_decide; simplify_eq; lia.
Qed.
End Moved.

(** What one pass of the loop may do: budgets stay in order, nobody is
    disabled or enabled, and a CPU other than [c] that had the time it has used
    still has it. *)
Record borrowed (c : Z) (k k' : kernel) : Prop := {
  bor_ok : budgets_ok k';
  bor_disabled i : disabled k' i = disabled k i;
  bor_cpus : cpus k' = cpus k;
  bor_period : rt_period (def_rt_bandwidth k') = rt_period (def_rt_bandwidth k);
  bor_kept i : i ∈ cpus k -> i <> c -> used k i <= runtime k i -> used k' i <= runtime k' i;
  bor_own : runtime k c <= rt_period (def_rt_bandwidth k) ->
            runtime k' c <= rt_period (def_rt_bandwidth k) }.

Lemma borrowed_refl c k : budgets_ok k -> borrowed c k k.
Proof. by split. Qed.

Lemma borrowed_trans c k1 k2 k3 : borrowed c k1 k2 -> borrowed c k2 k3 -> borrowed c k1 k3.
Proof.
  intros [A1 A2 A3 A4 A5 A6] [B1 B2 B3 B4 B5 B6]. split; try congruence.
  - intros i Hi Hc Hu. apply B5; [congruence|done|auto].
  - rewrite A4 in B6. auto.
Qed.

Lemma balance_loop_spec c w l : forall k,
  budgets_ok k -> c ∈ cpus k -> disabled k c = false -> (forall i, i ∈ l -> i ∈ cpus k) -> 1 <= w ->
  borrowed c k (balance_loop l c w (rt_period (def_rt_bandwidth k)) k).
Proof.
  induction l as [|i l IH]; intros k Hok Hc Hdc Hl Hw; [by apply borrowed_refl|].
  assert (Hl' : forall j, j ∈ l -> j ∈ cpus k) by set_solver.
  cbn [balance_loop].
  destruct (Z.eqb_spec i c) as [->|Hic]; [by apply IH|].
  change (rt_runtime (rt_of k i) =? RUNTIME_INF) with (disabled k i).
  destruct (disabled k i) eqn:Hdi; [by apply IH|].
  change (rt_runtime (rt_of k i)) with (runtime k i). change (rt_time (rt_of k i)) with (used k i).
  change (rt_runtime (rt_of k c)) with (runtime k c).
  assert (Hi : i ∈ cpus k) by set_solver.
  assert (Hbi : budget k i = runtime k i) by (unfold budget; by rewrite Hdi).
  assert (Hbc : budget k c = runtime k c) by (unfold budget; by rewrite Hdc).
  pose proof (bud_nonneg k Hok i Hi). pose proof (bud_nonneg k Hok c Hc).
  pose proof (budget_le k i Hok Hi). pose proof (budget_le k c Hok Hc).
  pose proof (bud_used k Hok i Hi). pose proof (bud_period k Hok).
  set (period := rt_period (def_rt_bandwidth k)) in *.
  rewrite s64_id by lia. destruct (Z.ltb_spec 0 (runtime k i - used k i)) as [Hsp|Hsp]; [|by apply IH].
  set (q := (runtime k i - used k i) / w).
  assert (Hq : 0 <= q <= runtime k i - used k i).
  { unfold q. split; [apply Z.div_pos; lia|]. apply Z.div_le_upper_bound; nia. }
  rewrite u64_id by lia.
  set (d := if period <? runtime k c + q then s64 (period - runtime k c) else q).
  assert (Hd : d <= q /\ 0 <= runtime k c + d < 2 ^ 63 /\
               (runtime k c <= period -> runtime k c + d <= period)).
  { unfold d. destruct (Z.ltb_spec period (runtime k c + q)); [rewrite s64_id by lia|]; lia. }
  fold (moved i c d k).
  assert (Hb : borrowed c k (moved i c d k)).
  { split.
    - apply moved_ok; try done; lia.
    - intros j. apply moved_disabled; try done; lia.
    - done.
    - done.
    - intros j Hj Hjc Hu. unfold moved at 1. rewrite !used_upd, moved_runtime by (done || lia).
      rewrite decide_False by done. case_decide; subst; lia.
    - intros Ho. rewrite moved_runtime, decide_True by (done || lia). unfold period in *. lia. }
  change (rt_runtime (rt_of (moved i c d k) c)) with (runtime (moved i c d k) c).
  destruct (runtime (moved i c d k) c =? period); [done|].
  eapply borrowed_trans; [exact Hb|]. unfold period.
  change (def_rt_bandwidth k) with (def_rt_bandwidth (moved i c d k)).
  apply IH; [apply Hb|done| |done|done]. by rewrite (bor_disabled _ _ _ Hb).
Qed.

(** ** Reclaiming *)

(** What CPU [i] can give back to [c]. *)
Definition lent (k : kernel) (c i : Z) : Z := if decide (i = c) then 0 else budget k i.

(** [want] is taken from the CPUs of [l]. *)
Record reclaimed (l : list Z) (c want : Z) (k k' : kernel) : Prop := {
  rec_sum : sum_of (lent k' c) l = sum_of (lent k c) l - want;
  rec_other i : i ∉ l \/ i = c -> runtime k' i = runtime k i;
  rec_disabled i : disabled k' i = disabled k i;
  rec_pos i : i ∈ l -> 0 <= lent k' c i;
  rec_used i : used k' i = used k i;
  rec_rd : span (rd k') = span (rd k) /\ nr_cpu_ids k' = nr_cpu_ids k /\ def_rt_bandwidth k' = def_rt_bandwidth k }.

(** One CPU gives [d]. *)
Definition taken (i d : Z) (k : kernel) : kernel :=
  upd_rt i (fun r => r <| rt_runtime ::= fun x => u64 (x - d) |>) k.

Section Taken.
Context (i c d : Z) (k : kernel) (Hic : i <> c) (Hdi : disabled k i = false).
Context (H1 : 0 <= runtime k i - d < 2 ^ 63).

Lemma taken_runtime j :
  runtime (taken i d k) j = if decide (i = j) then runtime k i - d else runtime k j.
Proof using H1. unfold taken. rewrite runtime_upd. case_decide; [rewrite u64_id; lia|done]. Qed.

Lemma taken_disabled j : disabled (taken i d k) j = disabled k j.
Proof using Hdi H1.
  destruct (decide (i = j)) as [<-|]; [rewrite Hdi; apply disabled_small|unfold disabled];
    rewrite taken_runtime; case_decide; done || lia.
Qed.

Lemma taken_lent j :
  lent (taken i d k) c j = if decide (i = j) then lent k c i - d else lent k c j.
Proof using Hic Hdi H1.
  unfold lent, budget. rewrite taken_disabled, taken_runtime.
  repeat case_decide; simplify_eq; rewrite ?Hdi; done || lia.
Qed.
End Taken.

Lemma sum_of_cons {A} (f : A -> Z) x l : sum_of f (x :: l) = f x + sum_of f l.
Proof. done. Qed.

(** A CPU that has nothing to give is passed over. *)
Lemma reclaimed_skip i l c want k k' :
  i = c \/ disabled k i = true -> i ∉ l ->
  reclaimed l c want k k' -> reclaimed (i :: l) c want k k'.
Proof.
  intros Hi Hil [R1 R2 R3 R4 R5 R6].
  assert (Hz : lent k c i = 0 /\ lent k' c i = 0).
  { unfold lent, budget. rewrite R3. destruct Hi as [->|Hi]; [by rewrite !decide_True|].
    rewrite Hi. by case_decide. }
  split; try done.
  - rewrite !sum_of_cons, R1. lia.
  - intros j Hj. apply R2. set_solver.
  - intros j [->|Hj]%elem_of_cons; [lia|auto].
Qed.

(** [i] gives [d] and the CPUs behind it the rest. *)
Lemma reclaimed_take i l c d want k k' :
  i <> c -> disabled k i = false -> 0 <= runtime k i - d < 2 ^ 63 -> i ∉ l ->
  reclaimed l c (want - d) (taken i d k) k' -> reclaimed (i :: l) c want k k'.
Proof.
  intros Hic Hdi H1 Hil [R1 R2 R3 R4 R5 R6].
  assert (Hrest : sum_of (lent (taken i d k) c) l = sum_of (lent k c) l).
  { apply sum_of_ext. intros j Hj. rewrite taken_lent, decide_False by (done || intros ->; done). done. }
  assert (Hi' : lent k' c i = lent k c i - d).
  { unfold lent, budget. rewrite R3, taken_disabled, Hdi by done.
    rewrite R2 by (by left). rewrite taken_runtime by done.
    repeat case_decide; simplify_eq; done. }
  split.
  - rewrite !sum_of_cons, R1, Hrest, Hi'. lia.
  - intros j Hj. rewrite R2 by set_solver. rewrite taken_runtime by done.
    rewrite decide_False; [done|]. set_solver.
  - intros j. rewrite R3. by apply taken_disabled.
  - intros j [->|Hj]%elem_of_cons; [|auto]. rewrite Hi'. unfold lent, budget.
    rewrite decide_False, Hdi by done. lia.
  - intros j. rewrite R5. apply used_upd.
  - done.
Qed.

Lemma reclaimed_stop l c k : (forall i, i ∈ l -> 0 <= lent k c i) -> reclaimed l c 0 k k.
Proof. intros. split; try done. lia. Qed.

Lemma reclaim_loop_spec c l : forall want k,
  NoDup l -> (forall i, i ∈ l -> 0 <= lent k c i) ->
  - 2 ^ 62 < want < 2 ^ 62 -> sum_of (lent k c) l < 2 ^ 62 ->
  (0 <= want -> want <= sum_of (lent k c) l) ->
  (want < 0 -> exists i, i ∈ l /\ i <> c /\ disabled k i = false) ->
  exists k', reclaim_loop l c want k = (0, k') /\ reclaimed l c want k k'.
Proof.
  induction l as [|i l IH]; intros want k Hnd Hpos Hw Hsum Hen Hex.
  { exists k. simpl. assert (want = 0) as ->; [|by split; [|apply reclaimed_stop]].
    destruct (decide (want < 0)) as [Hn|]; [destruct (Hex Hn) as (? & ? & _); set_solver|].
    specialize (Hen ltac:(lia)). simpl in Hen. lia. }
  apply NoDup_cons in Hnd as [Hil Hnd].
  assert (Hpos' : forall j, j ∈ l -> 0 <= lent k c j) by (intros; apply Hpos; set_solver).
  pose proof (sum_of_nonneg _ l Hpos') as Hn. pose proof (Hpos i ltac:(set_solver)) as Hpi.
  rewrite sum_of_cons in Hsum, Hen. cbn [reclaim_loop].
  change (rt_runtime (rt_of k i) =? RUNTIME_INF) with (disabled k i).
  destruct ((i =? c) || disabled k i) eqn:Hskip.
  { assert (Hs : i = c \/ disabled k i = true)
      by (apply orb_true_iff in Hskip as [?%Z.eqb_eq|?]; auto).
    assert (Hz : lent k c i = 0).
    { unfold lent, budget. destruct Hs as [->| ->]; by case_decide. }
    rewrite Hz in *. destruct (IH want k) as (k' & -> & HR); try done; try lia.
    { intros Hw'. destruct (Hex Hw') as (j & [->|Hj]%elem_of_cons & Hjc & Hdj); [|eauto].
      exfalso. destruct Hs; congruence. }
    exists k'. split; [done|]. by apply reclaimed_skip. }
  apply orb_false_iff in Hskip as [Hic%Z.eqb_neq Hdi].
  assert (Hli : lent k c i = runtime k i)
    by (unfold lent, budget; rewrite decide_False by done; by rewrite Hdi).
  change (rt_runtime (rt_of k i)) with (runtime k i). rewrite (s64_id (runtime k i)) by lia.
  set (d := if 0 <? want then Z.min (runtime k i) want else want).
  assert (H1 : 0 <= runtime k i - d < 2 ^ 63 /\ (want - d <> 0 -> 0 < want - d /\ d = runtime k i))
    by (unfold d; destruct (Z.ltb_spec 0 want); lia).
  fold (taken i d k). rewrite s64_id by (unfold d; destruct (Z.ltb_spec 0 want); lia).
  destruct H1 as [H1 Hd].
  assert (Hothers : forall j, j ∈ l -> lent (taken i d k) c j = lent k c j).
  { intros j Hj. rewrite taken_lent by done. rewrite decide_False by (intros ->; done). done. }
  destruct (Z.eqb_spec (want - d) 0) as [Hz|Hnz].
  - exists (taken i d k). rewrite Hz. split; [done|].
    apply (reclaimed_take i l c d); [done..|]. rewrite Hz. apply reclaimed_stop.
    intros j Hj. rewrite Hothers by done. auto.
  - destruct (Hd Hnz). pose proof (sum_of_ext _ _ l Hothers) as Hrest.
    destruct (IH (want - d) (taken i d k)) as (k' & -> & HR); try done; try lia.
    { intros j Hj. rewrite Hothers by done. auto. }
    exists k'. split; [done|]. by apply (reclaimed_take i l c d).
Qed.

(** ** Operations that leave the budgets alone *)

Lemma upd_rt_same c f k :
  (forall r, rt_runtime (f r) = rt_runtime r /\ rt_time (f r) = rt_time r) ->
  same_budgets k (upd_rt c f k).
Proof.
  intros Hf. split; try done; intros i; unfold runtime, used;
    (destruct (decide (c = i)) as [->|]; [rewrite upd_rt_eq|by rewrite upd_rt_ne]); apply Hf.
Qed.

Lemma upd_rq_same c f k : (forall r, rt (f r) = rt r) -> same_budgets k (upd_rq c f k).
Proof.
  intros Hf. split; try done; intros i; unfold runtime, used, rt_of;
    (destruct (decide (c = i)) as [->|]; [rewrite upd_rq_eq|by rewrite upd_rq_ne]); by rewrite Hf.
Qed.

Lemma upd_task_same p f k : same_budgets k (upd_task p f k).
Proof. by split. Qed.
Lemma call_same e k : same_budgets k (call e k).
Proof. by split. Qed.

Lemma add_nr_running_budgets c n k :
  (forall i, runtime (add_nr_running c n k) i = runtime k i) /\
  (forall i, used (add_nr_running c n k) i = used k i) /\
  span (rd (add_nr_running c n k)) = span (rd k) /\
  nr_cpu_ids (add_nr_running c n k) = nr_cpu_ids k /\
  def_rt_bandwidth (add_nr_running c n k) = def_rt_bandwidth k.
Proof.
  pose proof (upd_rq_same c (fun r => r <| nr_running := u32 (nr_running (rqs k c) + n) |>) k
    ltac:(done)) as [H1 H2 H3 H4 H5].
  unfold add_nr_running. cases; simpl; rewrite ?H3; split_and!; auto.
Qed.

Lemma sched_rt_rq_enqueue_same c k : same_budgets k (sched_rt_rq_enqueue c k).
Proof.
  assert (Hrs : forall k, same_budgets k (resched_curr c k)).
  { intros k1. unfold resched_curr, set_nr_and_not_polling. cases; try done; apply upd_task_same. }
  assert (Hadd : forall n k, same_budgets k (add_nr_running c n k)).
  { intros n k1. destruct (add_nr_running_budgets c n k1) as (? & ? & ? & ? & ?). by split. }
  unfold sched_rt_rq_enqueue. cases; [done|]. etrans; [|apply Hrs].
  unfold enqueue_top_rt_rq. cases; try done. etrans; [apply Hadd|]. by apply upd_rt_same.
Qed.

(** ** Taking a CPU out *)

Definition entitled_other (k : kernel) (c i : Z) : Z := if decide (i = c) then 0 else entitled k i.

Lemma budget_split k c :
  c ∈ cpus k -> sum_of (budget k) (cpus k) = sum_of (lent k c) (cpus k) + budget k c.
Proof.
  intros Hc. rewrite (sum_of_upd (lent k c) (budget k) (cpus k) c (cpus_NoDup k) Hc).
  - unfold lent at 2. rewrite decide_True by done. lia.
  - intros j Hj. unfold lent. by rewrite decide_False.
Qed.

Lemma entitled_split k c :
  c ∈ cpus k ->
  sum_of (entitled k) (cpus k) = sum_of (entitled_other k c) (cpus k) + entitled k c.
Proof.
  intros Hc. rewrite (sum_of_upd (entitled_other k c) (entitled k) (cpus k) c (cpus_NoDup k) Hc).
  - unfold entitled_other at 2. rewrite decide_True by done. lia.
  - intros j Hj. unfold entitled_other. by rewrite decide_False.
Qed.

Definition switched_off (c : Z) (k : kernel) : kernel :=
  upd_rt c (fun r => r <| rt_runtime := RUNTIME_INF |> <| rt_throttled := false |>) k.

(** Switching [c] off is in order when the other budgets already add up. *)
Lemma switched_off_ok c k :
  (forall i, i ∈ cpus k -> 0 <= lent k c i) -> (forall i, i ∈ cpus k -> 0 <= used k i < 2 ^ 62) ->
  sum_of (lent k c) (cpus k) = sum_of (entitled_other k c) (cpus k) ->
  0 <= quota k -> quota k + sum_of (entitled_other k c) (cpus k) < 2 ^ 62 ->
  0 <= rt_period (def_rt_bandwidth k) < 2 ^ 62 -> budgets_ok (switched_off c k).
Proof.
  intros Hpos Hused Hsum Hq Htot Hper.
  assert (Hr : forall i, runtime (switched_off c k) i = if decide (i = c) then RUNTIME_INF else runtime k i).
  { intros i. unfold runtime, switched_off. case_decide; subst; [by rewrite upd_rt_eq|].
    by rewrite upd_rt_ne. }
  assert (Hu : forall i, used (switched_off c k) i = used k i).
  { intros i. unfold used, switched_off.
    destruct (decide (i = c)); subst; [by rewrite upd_rt_eq|by rewrite upd_rt_ne]. }
  assert (Hb : forall i, budget (switched_off c k) i = lent k c i).
  { intros i. unfold budget, disabled, lent. rewrite Hr. by case_decide. }
  assert (He : forall i, entitled (switched_off c k) i = entitled_other k c i).
  { intros i. unfold entitled, disabled, entitled_other. rewrite Hr. by case_decide. }
  change (cpus k) with (cpus (switched_off c k)) in *.
  split.
  - intros i Hi. rewrite Hb. auto.
  - intros i Hi. rewrite Hu. auto.
  - rewrite (sum_of_ext _ _ _ (fun i _ => Hb i)), (sum_of_ext _ _ _ (fun i _ => He i)). done.
  - rewrite (sum_of_ext _ _ _ (fun i _ => He i)). done.
  - done.
Qed.

Lemma entitled_other_nonneg k c l : 0 <= quota k -> 0 <= sum_of (entitled_other k c) l.
Proof. intros. apply sum_of_nonneg. intros. unfold entitled_other, entitled. repeat case_match; lia. Qed.

(** The others have what [c] wants back. *)
Lemma can_reclaim k c :
  budgets_ok k -> c ∈ cpus k -> disabled k c = false ->
  let want := quota k - runtime k c in
  sum_of (lent k c) (cpus k) = sum_of (entitled_other k c) (cpus k) + want /\
  (want < 0 -> exists i, i ∈ cpus k /\ i <> c /\ disabled k i = false).
Proof.
  intros Hok Hc Hdc want.
  assert (Heq : sum_of (lent k c) (cpus k) = sum_of (entitled_other k c) (cpus k) + want).
  { pose proof (bud_sum k Hok) as Hs. rewrite (budget_split k c Hc), (entitled_split k c Hc) in Hs.
    unfold budget, entitled in Hs. rewrite Hdc in Hs. unfold want. lia. }
  split; [done|]. intros Hw.
  destruct (decide (Exists (fun i => i <> c /\ disabled k i = false) (cpus k))) as [He|He].
  { apply Exists_exists in He as (i & ? & ? & ?). eauto. }
  exfalso. rewrite <- Forall_Exists_neg, Forall_forall in He.
  assert (Hz : sum_of (lent k c) (cpus k) = sum_of (entitled_other k c) (cpus k)).
  { apply sum_of_ext. intros i Hi. specialize (He i Hi). unfold lent, entitled_other, budget, entitled.
    case_decide; [done|]. destruct (disabled k i) eqn:E; [done|]. exfalso. by apply He. }
  lia.
Qed.

Lemma disable_ok c k :
  budgets_ok k -> c ∈ cpus k ->
  exists k', __disable_runtime true c k = Some k' /\ budgets_ok k'.
Proof.
  intros Hok Hc. pose proof Hok as [Hpos Hused Hsum [Hq Htot] Hper].
  unfold __disable_runtime. cbn [negb].
  change (rt_runtime (rt_of k c)) with (runtime k c). fold (quota k). fold (cpus k).
  change (runtime k c =? RUNTIME_INF) with (disabled k c).
  destruct (disabled k c) eqn:Hdc; cbn [orb].
  { eexists. split; [done|]. eapply budgets_ok_same; [apply sched_rt_rq_enqueue_same|].
    eapply budgets_ok_same; [|exact Hok]. unfold disabled in Hdc. apply Z.eqb_eq in Hdc.
    split; try done; intros i; unfold runtime, used in *;
      (destruct (decide (c = i)) as [<-|]; [rewrite upd_rt_eq|by rewrite upd_rt_ne]); done. }
  destruct (can_reclaim k c Hok Hc Hdc) as [Hlent Hex]. set (want := quota k - runtime k c) in *.
  assert (Hlp : forall i, i ∈ cpus k -> 0 <= lent k c i).
  { intros i Hi. unfold lent. case_decide; [lia|auto]. }
  assert (Hbc : budget k c = runtime k c) by (unfold budget; by rewrite Hdc).
  pose proof (Hpos c Hc). pose proof (budget_le k c Hok Hc).
  pose proof (entitled_other_nonneg k c (cpus k) Hq) as Hen.
  pose proof (entitled_split k c Hc) as Hes. unfold entitled at 2 in Hes. rewrite Hdc in Hes.
  assert (Hfin : forall k1, budgets_ok (switched_off c k1) ->
    exists k', Some (sched_rt_rq_enqueue c (switched_off c k1)) = Some k' /\ budgets_ok k').
  { intros k1 H1. eexists. split; [done|]. eapply budgets_ok_same; [apply sched_rt_rq_enqueue_same|done]. }
  destruct (Z.eqb_spec (runtime k c) (quota k)) as [He|He].
  - cbn [Z.eqb negb]. apply Hfin. apply switched_off_ok; try done; lia.
  - rewrite s64_id by lia.
    destruct (reclaim_loop_spec c (cpus k) want k (cpus_NoDup k) Hlp) as (k1 & Hrl & HR);
      [lia|lia|lia|done|].
    rewrite Hrl. cbn [Z.eqb negb]. apply Hfin.
    destruct HR as [R1 R2 R3 R4 R5 (R6 & R7 & R8)].
    assert (Hcp : cpus k1 = cpus k) by (unfold cpus, for_each_cpu; by rewrite R6, R7).
    assert (Heo : sum_of (entitled_other k1 c) (cpus k1) = sum_of (entitled_other k c) (cpus k)).
    { rewrite Hcp. apply sum_of_ext. intros i _. unfold entitled_other, entitled, quota.
      by rewrite R3, R8. }
    apply switched_off_ok; rewrite ?Heo, ?Hcp; unfold quota in *; rewrite ?R8; try done; try lia.
    intros i Hi. rewrite R5. auto.
Qed.

Lemma enable_ok c k :
  budgets_ok k -> c ∈ cpus k -> disabled k c = true ->
  2 * quota k + sum_of (entitled k) (cpus k) < 2 ^ 62 ->
  budgets_ok (__enable_runtime true c k).
Proof.
  intros Hok Hc Hdc Htot. pose proof Hok as [Hpos Hused Hsum [Hq Ht] Hper].
  set (k' := __enable_runtime true c k).
  assert (Hr : forall i, runtime k' i = if decide (i = c) then quota k else runtime k i).
  { intros i. unfold runtime, k', __enable_runtime. simpl. case_decide; subst;
      [by rewrite upd_rt_eq|by rewrite upd_rt_ne]. }
  assert (Hu : forall i, used k' i = if decide (i = c) then 0 else used k i).
  { intros i. unfold used, k', __enable_runtime. simpl. case_decide; subst;
      [by rewrite upd_rt_eq|by rewrite upd_rt_ne]. }
  pose proof (sum_of_nonneg (entitled k) (cpus k)
    ltac:(intros; unfold entitled; case_match; lia)) as Hn.
  assert (Hdis : forall i, disabled k' i = if decide (i = c) then false else disabled k i).
  { intros i. case_decide; [subst; apply disabled_small; rewrite Hr, decide_True by done; lia|].
    unfold disabled. by rewrite Hr, decide_False. }
  assert (Hb : forall i, budget k' i = if decide (i = c) then quota k else budget k i).
  { intros i. unfold budget. rewrite Hdis, Hr. by case_decide. }
  assert (He : forall i, entitled k' i = if decide (i = c) then quota k else entitled k i).
  { intros i. unfold entitled. rewrite Hdis. by case_decide. }
  change (cpus k) with (cpus k') in *.
  assert (Hsb : sum_of (budget k') (cpus k') = sum_of (budget k) (cpus k') + quota k).
  { rewrite (sum_of_upd (budget k) (budget k') (cpus k') c (cpus_NoDup k') Hc).
    - rewrite Hb, decide_True by done. unfold budget at 2. rewrite Hdc. lia.
    - intros j Hj. by rewrite Hb, decide_False. }
  assert (Hse : sum_of (entitled k') (cpus k') = sum_of (entitled k) (cpus k') + quota k).
  { rewrite (sum_of_upd (entitled k) (entitled k') (cpus k') c (cpus_NoDup k') Hc).
    - rewrite He, decide_True by done. unfold entitled at 2. rewrite Hdc. lia.
    - intros j Hj. by rewrite He, decide_False. }
  split.
  - intros i Hi. rewrite Hb. case_decide; [done|auto].
  - intros i Hi. rewrite Hu. case_decide; [lia|auto].
  - by rewrite Hsb, Hse, Hsum.
  - change (quota k') with (quota k). lia.
  - done.
Qed.

Lemma balance_borrowed c k :
  budgets_ok k -> c ∈ cpus k -> borrowed c k (balance_runtime c k).
Proof.
  intros Hok Hc. unfold balance_runtime. destruct (negb _); [by apply borrowed_refl|].
  destruct (Z.ltb_spec (rt_runtime (rt_of k c)) (rt_time (rt_of k c))) as [Hlt|];
    [|by apply borrowed_refl].
  unfold do_balance_runtime. apply balance_loop_spec; try done.
  - apply disabled_small. pose proof (bud_used k Hok c Hc). unfold runtime, used in *. lia.
  - unfold cpumask_weight. unfold cpus, for_each_cpu in Hc. apply list_elem_of_filter in Hc as [Hc _].
    assert (size (span (rd k)) <> 0%nat); [|lia]. intros Hz. apply size_empty_inv in Hz. set_solver.
Qed.

(** ** The life of the budgets *)

(** What happens to the budgets while the machine runs: a queue borrows, a CPU
    leaves or comes back, tasks use time, and everything else happens that
    leaves the budgets alone. *)
Inductive budget_step : kernel -> kernel -> Prop :=
  | step_borrow c k : c ∈ cpus k -> budget_step k (balance_runtime c k)
  | step_disable c k k' : c ∈ cpus k -> __disable_runtime true c k = Some k' -> budget_step k k'
  | step_enable c k : c ∈ cpus k -> disabled k c = true ->
      2 * quota k + sum_of (entitled k) (cpus k) < 2 ^ 62 ->
      budget_step k (__enable_runtime true c k)
  | step_use c t k : 0 <= t < 2 ^ 62 -> budget_step k (upd_rt c (fun r => r <| rt_time := t |>) k)
  | step_other k k' : same_budgets k k' -> budget_step k k'.

Lemma use_ok c t k : 0 <= t < 2 ^ 62 -> budgets_ok k -> budgets_ok (upd_rt c (fun r => r <| rt_time := t |>) k).
Proof.
  intros Ht [Hpos Hused Hsum Htot Hper]. set (k' := upd_rt c _ k).
  assert (Hr : forall i, runtime k' i = runtime k i).
  { intros i. unfold runtime, k'. destruct (decide (c = i)); subst; [by rewrite upd_rt_eq|by rewrite upd_rt_ne]. }
  assert (Hd : forall i, disabled k' i = disabled k i) by (intros; unfold disabled; by rewrite Hr).
  assert (Hb : forall i, budget k' i = budget k i) by (intros; unfold budget; by rewrite Hd, Hr).
  assert (He : forall i, entitled k' i = entitled k i) by (intros; unfold entitled; by rewrite Hd).
  change (cpus k) with (cpus k') in *. split.
  - intros i Hi. rewrite Hb. auto.
  - intros i Hi. unfold used, k'. destruct (decide (c = i)); subst; [by rewrite upd_rt_eq|].
    rewrite upd_rt_ne by done. by apply Hused.
  - by rewrite (sum_of_ext _ _ _ (fun i _ => Hb i)), (sum_of_ext _ _ _ (fun i _ => He i)).
  - by rewrite (sum_of_ext _ _ _ (fun i _ => He i)).
  - done.
Qed.

Lemma budget_steps_ok k k' : rtc budget_step k k' -> budgets_ok k -> budgets_ok k'.
Proof.
  induction 1 as [|k k1 k2 Hs _ IH]; [done|]. intros Hok. apply IH.
  destruct Hs as [c k Hc|c k k' Hc Hd|c k Hc Hdis Ht|c t k Ht|k k' Hs].
  - by apply balance_borrowed.
  - destruct (disable_ok c k Hok Hc) as (k'' & E & ?). congruence.
  - by apply enable_ok.
  - by apply use_ok.
  - by eapply budgets_ok_same.
Qed.

(** ** Throttling *)

(** A change of one queue keeps what it does not touch. *)
Lemma upd_rt_proj {A} (p : rq -> A) c f i k :
  (forall r, p (r <| rt ::= f |>) = p r) -> p (rqs (upd_rt c f k) i) = p (rqs k i).
Proof.
  intros Hp. unfold upd_rt. destruct (decide (c = i)) as [<-|]; [by rewrite upd_rq_eq|by rewrite upd_rq_ne].
Qed.

Section Frame.
Context {A} (p : rq -> A) (Hp : forall x r, p (r <| rt ::= fun q => q <| rt_runtime ::= x |> |>) = p r).

Lemma balance_loop_proj l c w per i : forall k,
  p (rqs (balance_loop l c w per k) i) = p (rqs k i).
Proof using Hp.
  induction l as [|j l IH]; intros k; [done|]. cbn [balance_loop].
  repeat case_match; rewrite ?IH, ?upd_rt_proj; done || apply Hp.
Qed.

Lemma balance_runtime_proj c k i : p (rqs (balance_runtime c k) i) = p (rqs k i).
Proof using Hp.
  unfold balance_runtime, do_balance_runtime. cases; try done. apply balance_loop_proj.
Qed.
End Frame.

Lemma balance_loop_def l c w per : forall k,
  def_rt_bandwidth (balance_loop l c w per k) = def_rt_bandwidth k.
Proof.
  induction l as [|j l IH]; intros k; [done|]. cbn [balance_loop]. repeat case_match; by rewrite ?IH.
Qed.

Lemma balance_runtime_def c k : def_rt_bandwidth (balance_runtime c k) = def_rt_bandwidth k.
Proof. unfold balance_runtime, do_balance_runtime. cases; try done. apply balance_loop_def. Qed.

Lemma rt_of_sub c n k i : rt_of (sub_nr_running c n k) i = rt_of k i.
Proof.
  unfold rt_of, sub_nr_running. destruct (decide (c = i)) as [<-|]; [by rewrite upd_rq_eq|by rewrite upd_rq_ne].
Qed.

(** [sched_rt_runtime_exceeded] ([sched_rt_runtime_exceeded] of rt.c) on
    a machine whose budgets add up: it never fails when a queued real-time
    queue has counted its tasks in the run queue, and its answer is the
    throttled flag.  When it answers no, the queue has a full period, no limit,
    or has used no more than its budget (borrowed time included).  When it
    throttles a queue that ran, the queue had overrun its budget and is off the
    run queue. *)
Theorem runtime_exceeded_throttles c k :
  budgets_ok k -> c ∈ cpus k ->
  (rt_queued (rt_of k c) = true -> nr_running (rqs k c) <> 0) ->
  exists k' b, sched_rt_runtime_exceeded c k = Some (k', b) /\
    b = rt_throttled (rt_of k' c) /\
    (b = false -> sched_rt_period k <= runtime k' c \/ disabled k' c = true \/
                  used k' c <= runtime k' c) /\
    (rt_throttled (rt_of k c) = false -> b = true ->
       runtime k' c < used k' c /\ rt_queued (rt_of k' c) = false).
Proof.
  intros Hok Hc Hnr. unfold sched_rt_runtime_exceeded.
  destruct (rt_throttled (rt_of k c)) eqn:Ht; [by exists k, true; unfold rt_rq_throttled; rewrite Ht|].
  destruct (Z.leb_spec (sched_rt_period k) (sched_rt_runtime k c)).
  { exists k, false. rewrite Ht. split_and!; try done. intros _. by left. }
  pose proof (balance_borrowed c k Hok Hc) as [Hok1 _ Hcp _ _ _].
  set (k1 := balance_runtime c k) in *.
  assert (Ht1 : rt_throttled (rt_of k1 c) = false)
    by (unfold rt_of, k1; by rewrite (balance_runtime_proj (fun r => rt_throttled (rt r)))).
  assert (Hq1 : rt_queued (rt_of k1 c) = true -> nr_running (rqs k1 c) <> 0).
  { unfold rt_of, k1. by rewrite (balance_runtime_proj (fun r => rt_queued (rt r))),
      (balance_runtime_proj nr_running). }
  change (sched_rt_runtime k1 c =? RUNTIME_INF) with (disabled k1 c).
  destruct (disabled k1 c) eqn:Hd; [exists k1, false; rewrite Ht1; split_and!; try done; auto|].
  change (rt_time (rt_of k1 c)) with (used k1 c). change (sched_rt_runtime k1 c) with (runtime k1 c).
  destruct (Z.ltb_spec (runtime k1 c) (used k1 c)) as [Hlt|];
    [|exists k1, false; rewrite Ht1; split_and!; try done; auto].
  assert (Hpos : 0 <= runtime k1 c).
  { rewrite <-Hcp in Hc. pose proof (bud_nonneg k1 Hok1 c Hc) as Hb. unfold budget in Hb. by rewrite Hd in Hb. }
  unfold rt_rq_throttled. destruct (negb _).
  - rewrite upd_rt_eq. cbn. unfold sched_rt_rq_dequeue, dequeue_top_rt_rq.
    rewrite !upd_rt_eq. cbn.
    destruct (rt_queued (rt_of k1 c)) eqn:Hq; cbn.
    + rewrite (upd_rt_proj nr_running) by done.
      destruct (Z.eqb_spec (nr_running (rqs k1 c)) 0); [by exfalso; apply Hq1|].
      eexists _, true. split; [done|].
      unfold runtime, used. rewrite !upd_rt_eq, rt_of_sub, upd_rt_eq. done.
    + eexists _, true. split; [done|]. unfold runtime, used. by rewrite !upd_rt_eq.
  - rewrite upd_rt_eq. cbn. rewrite Ht1. eexists _, false. split; [done|].
    unfold runtime, used in *. rewrite !upd_rt_eq. cbn. split_and!; try done. auto.
Qed.

(** ** The decay loop ends *)

(** The time the load average lags behind the clock. *)
Definition avg_lag (k : kernel) (c : Z) : Z := s64 (clock (rqs k c) - age_stamp (rqs k c)).

Lemma avg_loop_done c per : 0 < per < 2 ^ 62 -> forall n k,
  avg_lag k c / per <= Z.of_nat n -> avg_lag (avg_loop n c per k) c <= per.
Proof.
  intros Hper n. induction n as [|n IH]; intros k Hn; cbn [avg_loop]; fold (avg_lag k c).
  - pose proof (Z.mul_succ_div_gt (avg_lag k c) per). nia.
  - destruct (Z.ltb_spec per (avg_lag k c)) as [Hlt|]; [|done]. apply IH.
    set (k1 := upd_rq c _ k).
    assert (E : avg_lag k1 c = avg_lag k c - per).
    { unfold k1, avg_lag at 1. rewrite upd_rq_eq. cbn. rewrite s64_sub_u64.
      replace (clock (rqs k c) - (age_stamp (rqs k c) + per))
        with (clock (rqs k c) - age_stamp (rqs k c) - per) by lia.
      rewrite <-s64_s64_sub. fold (avg_lag k c). apply s64_id.
      pose proof (s64_range (clock (rqs k c) - age_stamp (rqs k c))). fold (avg_lag k c) in *. lia. }
    rewrite E. replace (avg_lag k c - per) with (avg_lag k c + (-1) * per) by lia.
    rewrite Z.div_add by lia. lia.
Qed.

(** The fuel of [sched_avg_update] is enough: when the loop is left, its
    condition is false. *)
Lemma sched_avg_update_done c k : avg_lag (sched_avg_update c k) c <= sched_avg_period.
Proof.
  unfold sched_avg_update. apply avg_loop_done.
  - assert (sched_avg_period = 500000000) as -> by (unfold sched_avg_period; by rewrite u64_id).
    lia.
  - fold (avg_lag k c). lia.
Qed.

Definition rt_demo : kernel := demo_kernel rt_sched_class SCHED_FIFO 50.

(** The machine of the examples after CPU 0 used 960 of its 950 ms. *)
Definition rt_overrun : kernel := upd_rt 0 (fun r => r <| rt_time := 960000000 |>) rt_demo.

Lemma rt_overrun_ok : budgets_ok rt_overrun.
Proof.
  split.
  - intros i Hi. assert (H : i = 0 \/ i = 1) by (cut (i ∈ [0; 1]); [set_solver|exact Hi]).
    destruct H as [-> | ->]; vm_compute; discriminate.
  - intros i Hi. assert (H : i = 0 \/ i = 1) by (cut (i ∈ [0; 1]); [set_solver|exact Hi]).
    destruct H as [-> | ->]; split; vm_compute; done.
  - vm_compute. reflexivity.
  - split; [|split]; vm_compute; done.
  - split; vm_compute; done.
Qed.

(** The overrun queue still has time after borrowing from CPU 1. *)
Lemma runtime_exceeded_throttles_witness : exists k' b,
  sched_rt_runtime_exceeded 0 rt_overrun = Some (k', b) /\ b = rt_throttled (rt_of k' 0).
Proof.
  destruct (runtime_exceeded_throttles 0 rt_overrun) as (k' & b & E & Hb & _).
  - exact rt_overrun_ok.
  - vm_compute. constructor.
  - vm_compute. discriminate.
  - exists k', b. split; assumption.
Defined.

(** C30: No real-time runtime leaks out of the system.  From a state whose
    budgets add up to what the enabled CPUs are entitled to, through any
    sequence of borrowing, CPUs leaving and coming back and tasks using time,
    a CPU that leaves gets back exactly what it lent: the [BUG_ON(want)] of
    [__disable_runtime] does not fire, and the budgets still add up. *)
Theorem no_runtime_leaks c k0 k :
  budgets_ok k0 -> rtc budget_step k0 k -> c ∈ cpus k ->
  exists k', __disable_runtime true c k = Some k' /\
    sum_of (budget k') (cpus k') = sum_of (entitled k') (cpus k').
Proof.
  intros H0 Hr Hc. destruct (disable_ok c k (budget_steps_ok k0 k Hr H0) Hc) as (k' & E & Hok).
  exists k'. split; [done|apply Hok].
Qed.

(** CPU 1 leaves after CPU 0 borrowed from it. *)
Lemma no_runtime_leaks_witness : exists k',
  __disable_runtime true 1 (balance_runtime 0 rt_overrun) = Some k' /\
  sum_of (budget k') (cpus k') = sum_of (entitled k') (cpus k').
Proof.
  apply (no_runtime_leaks 1 rt_overrun).
  - exact rt_overrun_ok.
  - apply rtc_once, step_borrow. vm_compute. constructor.
  - vm_compute. constructor. constructor.
Defined.

(** Borrowing ([balance_runtime] of rt.c) conserves the total budget,
    never takes from a queue time it has already used (a queue within its
    budget stays within it), neither disables nor enables a CPU, and never
    brings a queue that was within the period beyond it. *)
Theorem borrowing_is_safe c k i :
  budgets_ok k -> c ∈ cpus k -> i ∈ cpus k ->
  let k' := balance_runtime c k in
  sum_of (budget k') (cpus k) = sum_of (budget k) (cpus k) /\
  disabled k' i = disabled k i /\
  (i <> c -> used k i <= runtime k i -> used k' i <= runtime k' i) /\
  (runtime k c <= sched_rt_period k -> runtime k' c <= sched_rt_period k).
Proof.
  intros Hok Hc Hi k'. destruct (balance_borrowed c k Hok Hc) as [Hok' Hd Hcp _ Hk Hown].
  fold k' in Hok', Hd, Hcp, Hk, Hown.
  split_and!; auto.
  rewrite <-Hcp, (bud_sum k' Hok'), Hcp, (bud_sum k Hok). apply sum_of_ext. intros j _.
  unfold entitled, quota. rewrite Hd. unfold k'. by rewrite balance_runtime_def.
Qed.

Lemma borrowing_is_safe_witness :
  runtime (balance_runtime 0 rt_overrun) 0 = 1000000000 /\
  used (balance_runtime 0 rt_overrun) 1 <= runtime (balance_runtime 0 rt_overrun) 1.
Proof.
  split; [vm_compute; reflexivity|].
  destruct (borrowing_is_safe 0 rt_overrun 1) as (_ & _ & H & _).
  - exact rt_overrun_ok.
  - vm_compute. constructor.
  - vm_compute. constructor. constructor.
  - apply H; vm_compute; discriminate.
Defined.
