(* ===== verification/RtQueue.v ===== *)
(** * Run queues of the real-time class (rt.c)

    A real-time run queue is an array of 100 lists, one per priority, with a
    bitmap of the lists that are not empty; picking a task is finding the first
    set bit.  This file models the queue operations of rt.c: the counters and
    cached priorities ([inc_rt_tasks], [dec_rt_tasks]), the list of tasks that
    may be pushed to another CPU, enqueue, dequeue, requeue, yield, the
    preemption checks and the choice of the next task.

    The model is that of CONFIG_SMP without CONFIG_RT_GROUP_SCHED: an entity is
    a task, [for_each_sched_rt_entity] visits that task only, and
    [group_rt_rq] is NULL.  A [run_list] node is linked on at most one list of
    the array of its task's run queue.  [None] is a failed [BUG_ON]; [WARN_ON]
    prints and has no other effect. *)

From S2P Require Import Prelude SchedTypes Core RtBandwidth.

(** ** Overload and migration counts *)

Definition need_pull_rt_task (k : kernel) (c prev : Z) : bool :=
  prio (tasks k prev) <? highest_prio_curr (rt_of k c).

Definition rt_overloaded (k : kernel) : Z := rto_count (rd k).

Definition rt_set_overload (c : Z) (k : kernel) : kernel :=
  if negb (online (rqs k c)) then k
  else k <| rd ::= fun d => d <| rto_mask ::= fun m => {[rq_cpu (rqs k c)]} ∪ m |>
                              <| rto_count ::= fun n => s32 (n + 1) |> |>.

Definition rt_clear_overload (c : Z) (k : kernel) : kernel :=
  if negb (online (rqs k c)) then k
  else k <| rd ::= fun d => d <| rto_count ::= fun n => s32 (n - 1) |>
                              <| rto_mask ::= fun m => m ∖ {[rq_cpu (rqs k c)]} |> |>.

Definition update_rt_migration (c : Z) (k : kernel) : kernel :=
  let r := rt_of k c in
  if negb (rt_nr_migratory r =? 0) && (1 <? rt_nr_total r) then
    if negb (overloaded r)
    then upd_rt c (fun r => r <| overloaded := true |>) (rt_set_overload c k)
    else k
  else if overloaded r
  then upd_rt c (fun r => r <| overloaded := false |>) (rt_clear_overload c k)
  else k.

Definition inc_rt_migration (p c : Z) (k : kernel) : kernel :=
  let k := upd_rt c (fun r => r <| rt_nr_total ::= fun n => u64 (n + 1) |>) k in
  let k := if 1 <? nr_cpus_allowed (tasks k p)
           then upd_rt c (fun r => r <| rt_nr_migratory ::= fun n => u64 (n + 1) |>) k else k in
  update_rt_migration c k.

Definition dec_rt_migration (p c : Z) (k : kernel) : kernel :=
  let k := upd_rt c (fun r => r <| rt_nr_total ::= fun n => u64 (n - 1) |>) k in
  let k := if 1 <? nr_cpus_allowed (tasks k p)
           then upd_rt c (fun r => r <| rt_nr_migratory ::= fun n => u64 (n - 1) |>) k else k in
  update_rt_migration c k.

(** ** Pushable tasks

    A [plist] is kept in ascending order of the priority its nodes were added
    with, equal ones in order of arrival. *)

Fixpoint plist_add (pr p : Z) (l : list (Z * Z)) : list (Z * Z) :=
  match l with
  | [] => [(pr, p)]
  | (i, q) :: l' => if pr <? i then (pr, p) :: l else (i, q) :: plist_add pr p l'
  end.

Definition plist_del (p : Z) (l : list (Z * Z)) : list (Z * Z) :=
  filter (fun e => snd e <> p) l.

Definition has_pushable_tasks (k : kernel) (c : Z) : bool :=
  match pushable_tasks (rt_of k c) with [] => false | _ => true end.

Definition queue_push_tasks (c : Z) (k : kernel) : kernel :=
  if negb (has_pushable_tasks k c) then k
  else queue_balance_callback c push_rt_tasks_cb k.

Definition queue_pull_task (c : Z) (k : kernel) : kernel :=
  queue_balance_callback c pull_rt_task_cb k.

Definition enqueue_pushable_task (c p : Z) (k : kernel) : kernel :=
  let pr := prio (tasks k p) in
  let k := upd_rt c (fun r => r <| pushable_tasks ::= fun l => plist_add pr p (plist_del p l) |>) k in
  if pr <? highest_prio_next (rt_of k c)
  then upd_rt c (fun r => r <| highest_prio_next := pr |>) k else k.

Definition dequeue_pushable_task (c p : Z) (k : kernel) : kernel :=
  let k := upd_rt c (fun r => r <| pushable_tasks ::= plist_del p |>) k in
  match pushable_tasks (rt_of k c) with
  | (_, q) :: _ => upd_rt c (fun r => r <| highest_prio_next := prio (tasks k q) |>) k
  | [] => upd_rt c (fun r => r <| highest_prio_next := MAX_RT_PRIO |>) k
  end.

(** ** Counters and the highest queued priority *)

Definition on_rt_rq (k : kernel) (p : Z) : bool := rt_on_rq (rt_se (tasks k p)).

(** The first set bit of the bitmap; its bit [MAX_RT_PRIO] is a delimiter that
    is always set, so that there is one. *)
Definition sched_find_first_bit (b : Z) : Z :=
  default 128 (head (filter (fun i => Z.testbit b i = true) (seqZ 0 128))).

Definition inc_rt_prio_smp (c pr prev_prio : Z) (k : kernel) : kernel :=
  if online (rqs k c) && (pr <? prev_prio)
  then call (cpupri_set (rq_cpu (rqs k c)) pr) k else k.

Definition dec_rt_prio_smp (c prev_prio : Z) (k : kernel) : kernel :=
  if online (rqs k c) && negb (highest_prio_curr (rt_of k c) =? prev_prio)
  then call (cpupri_set (rq_cpu (rqs k c)) (highest_prio_curr (rt_of k c))) k else k.

Definition inc_rt_prio (c pr : Z) (k : kernel) : kernel :=
  let prev_prio := highest_prio_curr (rt_of k c) in
  let k := if pr <? prev_prio
           then upd_rt c (fun r => r <| highest_prio_curr := pr |>) k else k in
  inc_rt_prio_smp c pr prev_prio k.

Definition dec_rt_prio (c pr : Z) (k : kernel) : kernel :=
  let prev_prio := highest_prio_curr (rt_of k c) in
  let k :=
    if negb (rt_nr_running (rt_of k c) =? 0) then
      if pr =? prev_prio
      then upd_rt c (fun r => r <| highest_prio_curr := sched_find_first_bit (bitmap (active r)) |>) k
      else k
    else upd_rt c (fun r => r <| highest_prio_curr := MAX_RT_PRIO |>) k in
  dec_rt_prio_smp c prev_prio k.

Definition inc_rt_group (k : kernel) : kernel := start_rt_bandwidth k.

Definition rt_se_nr_running : Z := 1.
Definition rt_se_rr_nr_running (t : task_struct) : Z := if policy t =? SCHED_RR then 1 else 0.

Definition inc_rt_tasks (p c : Z) (k : kernel) : kernel :=
  let t := tasks k p in
  let k := upd_rt c (fun r => r <| rt_nr_running ::= fun n => u32 (n + rt_se_nr_running) |>
                                <| rr_nr_running ::= fun n => u32 (n + rt_se_rr_nr_running t) |>) k in
  inc_rt_group (inc_rt_migration p c (inc_rt_prio c (prio t) k)).

Definition dec_rt_tasks (p c : Z) (k : kernel) : kernel :=
  let t := tasks k p in
  let k := upd_rt c (fun r => r <| rt_nr_running ::= fun n => u32 (n - rt_se_nr_running) |>
                                <| rr_nr_running ::= fun n => u32 (n - rt_se_rr_nr_running t) |>) k in
  dec_rt_migration p c (dec_rt_prio c (prio t) k).

(** ** The priority array *)

Definition move_entity (flags : Z) : bool :=
  negb (Z.land flags (Z.lor DEQUEUE_SAVE DEQUEUE_MOVE) =? DEQUEUE_SAVE).

(** [list_del_init]: the node leaves the list it is on. *)
Definition array_del (p : Z) (a : rt_prio_array) : rt_prio_array :=
  a <| queue ::= fun q i => list_del p (q i) |>.

Definition upd_array (c : Z) (f : rt_prio_array -> rt_prio_array) : kernel -> kernel :=
  upd_rt c (fun r => r <| active ::= f |>).

Definition upd_rt_se (p : Z) (f : sched_rt_entity -> sched_rt_entity) : kernel -> kernel :=
  upd_task p (fun t => t <| rt_se ::= f |>).

Definition __delist_rt_entity (p c : Z) (k : kernel) : kernel :=
  let pr := prio (tasks k p) in
  let k := upd_array c (array_del p) k in
  let k := match queue (active (rt_of k c)) pr with
           | [] => upd_array c (fun a => a <| bitmap ::= fun b => Z.clearbit b pr |>) k
           | _ => k
           end in
  upd_rt_se p (fun s => s <| rt_on_list := false |>) k.

Definition __enqueue_rt_entity (p flags : Z) (k : kernel) : kernel :=
  let c := task_cpu (tasks k p) in
  let pr := prio (tasks k p) in
  let k :=
    if move_entity flags then
      let k := upd_array c (fun a => a <| queue ::= alter
                 (if has_flag flags ENQUEUE_HEAD then list_add p else list_add_tail p) pr |>) k in
      let k := upd_array c (fun a => a <| bitmap ::= fun b => Z.setbit b pr |>) k in
      upd_rt_se p (fun s => s <| rt_on_list := true |>) k
    else k in
  inc_rt_tasks p c (upd_rt_se p (fun s => s <| rt_on_rq := true |>) k).

Definition __dequeue_rt_entity (p flags : Z) (k : kernel) : kernel :=
  let c := task_cpu (tasks k p) in
  let k := if move_entity flags then __delist_rt_entity p c k else k in
  dec_rt_tasks p c (upd_rt_se p (fun s => s <| rt_on_rq := false |>) k).

Definition dequeue_rt_stack (p flags : Z) (k : kernel) : option kernel :=
  k ← dequeue_top_rt_rq (task_cpu (tasks k p)) k;
  Some (if on_rt_rq k p then __dequeue_rt_entity p flags k else k).

Definition enqueue_rt_entity (p flags : Z) (k : kernel) : option kernel :=
  let c := task_cpu (tasks k p) in
  k ← dequeue_rt_stack p flags k;
  Some (enqueue_top_rt_rq c (__enqueue_rt_entity p flags k)).

Definition dequeue_rt_entity (p flags : Z) (k : kernel) : option kernel :=
  let c := task_cpu (tasks k p) in
  k ← dequeue_rt_stack p flags k;
  Some (enqueue_top_rt_rq c k).

Definition enqueue_task_rt (c p flags : Z) (k : kernel) : option kernel :=
  let k := if has_flag flags ENQUEUE_WAKEUP
           then upd_rt_se p (fun s => s <| rt_timeout := 0 |>) k else k in
  k ← enqueue_rt_entity p flags k;
  Some (if negb (task_current k c p) && (1 <? nr_cpus_allowed (tasks k p))
        then enqueue_pushable_task c p k else k).

Definition dequeue_task_rt (c p flags : Z) (k : kernel) : option kernel :=
  k ← update_curr_rt c k;
  k ← dequeue_rt_entity p flags k;
  Some (dequeue_pushable_task c p k).

Definition requeue_rt_entity (c p : Z) (head : bool) (k : kernel) : kernel :=
  if on_rt_rq k p then
    let pr := prio (tasks k p) in
    upd_array c (fun a => array_del p a <| queue ::=
      alter (if head then list_add p else list_add_tail p) pr |>) k
  else k.

Definition requeue_task_rt (p : Z) (head : bool) (k : kernel) : kernel :=
  requeue_rt_entity (task_cpu (tasks k p)) p head k.

Definition yield_task_rt (c : Z) (k : kernel) : kernel :=
  requeue_task_rt (curr (rqs k c)) false k.

(** ** Picking the next task *)

(** An empty list's first node is the list head itself, which is no entity:
    [None]. *)
Definition pick_next_rt_entity (k : kernel) (c : Z) : option Z :=
  let array := active (rt_of k c) in
  let idx := sched_find_first_bit (bitmap array) in
  if MAX_RT_PRIO <=? idx then None else head (queue array idx).

Definition _pick_next_task_rt (c : Z) (k : kernel) : option (kernel * Z) :=
  p ← pick_next_rt_entity k c;
  Some (upd_task p (fun t => t <| se ::= fun s => s <| exec_start := rq_clock_task k c |> |>) k, p).

Definition put_prev_task_rt (c p : Z) (k : kernel) : option kernel :=
  k ← update_curr_rt c k;
  Some (if on_rt_rq k p && (1 <? nr_cpus_allowed (tasks k p))
        then enqueue_pushable_task c p k else k).

Definition set_curr_task_rt (c : Z) (k : kernel) : kernel :=
  let p := curr (rqs k c) in
  let k := upd_task p (fun t => t <| se ::= fun s => s <| exec_start := rq_clock_task k c |> |>) k in
  dequeue_pushable_task c p k.

(** ** Finding the first bit *)

Lemma filter_head_spec (P : Z -> Prop) `{forall x, Decision (P x)} n : forall a x,
  head (filter P (seqZ a (Z.of_nat n))) = Some x ->
  a <= x < a + Z.of_nat n /\ P x /\ forall j, a <= j < x -> ~ P j.
Proof.
  induction n as [|n IH]; intros a x; [done|].
  rewrite seqZ_cons by lia. replace (Z.pred (Z.of_nat (S n))) with (Z.of_nat n) by lia.
  rewrite filter_cons. case_decide as Ha.
  - intros [= <-]. split_and!; try lia; done.
  - intros (Hr & Hx & Hmin)%IH. split_and!; try lia; [done|].
    intros j Hj. destruct (decide (j = a)) as [->|]; [done|]. apply Hmin. lia.
Qed.

Lemma ffb_unique b i :
  0 <= i < 128 -> Z.testbit b i = true -> (forall j, 0 <= j < i -> Z.testbit b j = false) ->
  sched_find_first_bit b = i.
Proof.
  intros Hi Hb Hmin. unfold sched_find_first_bit.
  destruct (head _) as [x|] eqn:Hh.
  - apply (filter_head_spec _ 128) in Hh as (Hr & Hx & Hmx). simpl.
    destruct (Z.lt_trichotomy x i) as [Hlt|[->|Hgt]]; [|done|].
    + rewrite Hmin in Hx by lia. done.
    + by destruct (Hmx i ltac:(lia)).
  - exfalso. apply (f_equal (fun o => is_Some o)) in Hh as Hs.
    assert (Hin : i ∈ filter (fun i => Z.testbit b i = true) (seqZ 0 128)).
    { apply list_elem_of_filter. split; [done|]. apply elem_of_seqZ. lia. }
    destruct (filter _ _); [set_solver|done].
Qed.

Lemma ffb_spec b :
  Z.testbit b MAX_RT_PRIO = true ->
  0 <= sched_find_first_bit b <= MAX_RT_PRIO /\ Z.testbit b (sched_find_first_bit b) = true /\
  forall j, 0 <= j < sched_find_first_bit b -> Z.testbit b j = false.
Proof.
  intros Hb. unfold sched_find_first_bit.
  destruct (head _) as [x|] eqn:Hh.
  - apply (filter_head_spec _ 128) in Hh as (Hr & Hx & Hmx). simpl. unfold MAX_RT_PRIO in *.
    split_and!; try lia; try done.
    + destruct (decide (x <= 100)); [done|]. destruct (Hmx 100); [lia|done].
    + intros j Hj. apply not_true_is_false, Hmx. lia.
  - exfalso.
    assert (Hin : MAX_RT_PRIO ∈ filter (fun i => Z.testbit b i = true) (seqZ 0 128)).
    { apply list_elem_of_filter. split; [done|]. apply elem_of_seqZ. unfold MAX_RT_PRIO. lia. }
    destruct (filter _ _); [set_solver|done].
Qed.

(** ** Well-formed arrays *)

(** What the queues depend on in a task. *)
Record tview := mkTv { tv_prio : Z; tv_cpu : Z; tv_on : bool }.
Definition tv (k : kernel) (p : Z) : tview :=
  mkTv (prio (tasks k p)) (task_cpu (tasks k p)) (on_rt_rq k p).

(** The bitmap says which lists are not empty, its delimiter is set, and the
    list of a priority holds the queued tasks of that priority and CPU, once
    each. *)
Record array_wf (c : Z) (T : Z -> tview) (a : rt_prio_array) : Prop := {
  aw_bit i : 0 <= i < MAX_RT_PRIO -> Z.testbit (bitmap a) i = true <-> queue a i <> [];
  aw_end : Z.testbit (bitmap a) MAX_RT_PRIO = true;
  aw_mem i p : p ∈ queue a i -> 0 <= i < MAX_RT_PRIO /\ T p = mkTv i c true;
  aw_nodup i : NoDup (queue a i);
  aw_all p : tv_on (T p) = true -> tv_cpu (T p) = c -> p ∈ queue a (tv_prio (T p)) }.

Definition queue_len (a : rt_prio_array) (i : Z) : Z := Z.of_nat (length (queue a i)).
Definition nr_queued (a : rt_prio_array) : Z := sum_of (queue_len a) (seqZ 0 MAX_RT_PRIO).

Lemma nr_queued_upd a a' pr :
  0 <= pr < MAX_RT_PRIO -> (forall i, i <> pr -> queue a' i = queue a i) ->
  nr_queued a' = nr_queued a - queue_len a pr + queue_len a' pr.
Proof.
  intros Hpr Hq. apply sum_of_upd; [apply NoDup_seqZ|apply elem_of_seqZ; lia|].
  intros i Hi. unfold queue_len. by rewrite Hq.
Qed.

Lemma nr_queued_le a i : 0 <= i < MAX_RT_PRIO -> queue_len a i <= nr_queued a.
Proof.
  intros Hi. apply sum_of_le; [intros; unfold queue_len; lia|apply elem_of_seqZ; lia].
Qed.

Section Array.
Context (c : Z) (T T' : Z -> tview) (p pr : Z).
Hypothesis HT' : forall q, q <> p -> T' q = T q.
Hypothesis Hpr : 0 <= pr < MAX_RT_PRIO.

Definition array_add (F : list Z -> list Z) (a : rt_prio_array) : rt_prio_array :=
  a <| queue ::= alter F pr |> <| bitmap ::= fun b => Z.setbit b pr |>.

Definition array_remove (a : rt_prio_array) : rt_prio_array :=
  let a := array_del p a in
  match queue a pr with [] => a <| bitmap ::= fun b => Z.clearbit b pr |> | _ => a end.

Lemma array_add_queue F a i :
  queue (array_add F a) i = if decide (pr = i) then F (queue a i) else queue a i.
Proof using Type.
  clear Hpr. unfold array_add; cbn. case_decide as Hd; [rewrite Hd; by rewrite fn_lookup_alter|by rewrite fn_lookup_alter_ne].
Qed.

Lemma array_add_bitmap F a : bitmap (array_add F a) = Z.setbit (bitmap a) pr.
Proof. done. Qed.

Section Add.
Context (F : list Z -> list Z) (a : rt_prio_array).
Hypothesis HF : forall l, F l ≡ₚ p :: l.
Hypothesis Hwf : array_wf c T a.
Hypothesis Hnew : forall i, p ∉ queue a i.

Lemma array_add_wf : T' p = mkTv pr c true -> array_wf c T' (array_add F a).
Proof using All.
  intros HTp. destruct Hwf as [Hb He Hm Hn Ha]. split.
  - intros i Hi. rewrite array_add_queue, array_add_bitmap. case_decide as Hd.
    + subst i. rewrite Z.setbit_eq by lia. split; [|done]. intros _ E.
      specialize (HF (queue a pr)). rewrite E in HF. by apply Permutation_nil_cons in HF.
    + rewrite Z.setbit_neq by lia. auto.
  - rewrite array_add_bitmap, Z.setbit_neq; [done|lia|lia].
  - intros i q. rewrite array_add_queue. case_decide as Hd; [subst i; rewrite HF|].
    + intros [->|Hq]%elem_of_cons; [done|]. destruct (Hm pr q Hq) as [? <-]. split; [done|].
      apply HT'. intros ->. by destruct (Hnew pr).
    + intros Hq. destruct (Hm i q Hq) as [? <-]. split; [done|].
      apply HT'. intros ->. by destruct (Hnew i).
  - intros i. rewrite array_add_queue. case_decide; [|done].
    rewrite HF. by apply NoDup_cons.
  - intros q Hon Hcpu. rewrite array_add_queue. destruct (decide (q = p)) as [->|Hq].
    + rewrite HTp. cbn. rewrite decide_True, HF by done. set_solver.
    + rewrite HT' in * by done. case_decide; [rewrite HF; apply elem_of_cons; right|]; auto.
Qed.

Lemma array_add_nr : nr_queued (array_add F a) = nr_queued a + 1.
Proof using Hpr HF.
  rewrite (nr_queued_upd a _ pr Hpr).
  - unfold queue_len. rewrite array_add_queue, decide_True, HF by done. simpl. lia.
  - intros i Hi. rewrite array_add_queue, decide_False; [done|congruence].
Qed.

Lemma array_add_first :
  sched_find_first_bit (bitmap (array_add F a)) =
  if pr <? sched_find_first_bit (bitmap a) then pr else sched_find_first_bit (bitmap a).
Proof using Hpr Hwf.
  destruct (ffb_spec _ (aw_end _ _ _ Hwf)) as (Hr & Hs & Hmin). rewrite array_add_bitmap.
  unfold MAX_RT_PRIO in *. destruct (Z.ltb_spec pr (sched_find_first_bit (bitmap a))).
  - apply ffb_unique; [lia|by rewrite Z.setbit_eq by lia|].
    intros j Hj. rewrite Z.setbit_neq by lia. apply Hmin. lia.
  - apply ffb_unique; [lia| |].
    + rewrite Z.setbit_eqb by lia. by rewrite Hs, orb_true_r.
    + intros j Hj. rewrite Z.setbit_neq by lia. apply Hmin. lia.
Qed.
End Add.

Section Remove.
Context (a : rt_prio_array).
Hypothesis Hwf : array_wf c T a.
Hypothesis Hp : p ∈ queue a pr.

Lemma array_remove_queue i :
  queue (array_remove a) i = if decide (pr = i) then list_del p (queue a i) else queue a i.
Proof using Hwf Hp.
  assert (Hq : queue (array_remove a) i = list_del p (queue a i)).
  { unfold array_remove, array_del; cbn. by destruct (list_del p (queue a pr)). }
  rewrite Hq. case_decide as Hd; [done|]. apply list_del_notin. intros Hi.
  destruct (aw_mem _ _ _ Hwf _ _ Hi) as [_ E1]. destruct (aw_mem _ _ _ Hwf _ _ Hp) as [_ E2]. congruence.
Qed.

Lemma array_remove_bitmap :
  bitmap (array_remove a) =
  if decide (list_del p (queue a pr) = []) then Z.clearbit (bitmap a) pr else bitmap a.
Proof.
  unfold array_remove, array_del. change (queue (a <| queue ::= _ |>) pr) with (list_del p (queue a pr)).
  by destruct (list_del p (queue a pr)).
Qed.

Hypothesis Hoff : tv_on (T' p) = false.

Lemma array_remove_wf : array_wf c T' (array_remove a).
Proof using All.
  pose proof array_remove_queue as Hq. destruct Hwf as [Hb He Hm Hn Ha]. split.
  - intros i Hi. rewrite Hq, array_remove_bitmap. destruct (decide (pr = i)) as [<-|Hd].
    + case_decide as E; [rewrite E, Z.clearbit_eq; naive_solver|].
      split; [done|]. intros _. apply Hb; [done|]. intros E2. by rewrite E2 in Hp; apply elem_of_nil in Hp.
    + case_decide; [rewrite Z.clearbit_neq by lia|]; auto.
  - rewrite array_remove_bitmap. case_decide; [rewrite Z.clearbit_neq by lia|]; done.
  - intros i q. rewrite Hq. case_decide as Hd; [subst i; rewrite elem_of_list_del; intros [Hi Hne]|intros Hi].
    + destruct (Hm _ _ Hi) as [? <-]. auto.
    + destruct (Hm _ _ Hi) as [? E]. rewrite HT'; [done|]. intros ->.
      destruct (Hm _ _ Hp) as [_ E2]. congruence.
  - intros i. rewrite Hq. case_decide; auto with lists.
  - intros q Hon Hcpu. rewrite Hq. destruct (decide (q = p)) as [->|Hqp]; [congruence|].
    rewrite HT' in * by done. case_decide; [apply elem_of_list_del; split|]; auto.
Qed.

Lemma array_remove_nr : nr_queued (array_remove a) = nr_queued a - 1.
Proof using Hpr Hwf Hp.
  rewrite (nr_queued_upd a _ pr Hpr).
  - unfold queue_len. rewrite array_remove_queue, decide_True by done.
    rewrite (list_del_Permutation p (queue a pr)) at 1 by (done || apply Hwf). simpl. lia.
  - intros i Hi. rewrite array_remove_queue, decide_False; [done|congruence].
Qed.

(** The cases of [dec_rt_prio] all give the first set bit. *)
Lemma array_remove_first :
  sched_find_first_bit (bitmap (array_remove a)) =
  if nr_queued (array_remove a) =? 0 then MAX_RT_PRIO
  else if pr =? sched_find_first_bit (bitmap a) then sched_find_first_bit (bitmap (array_remove a))
  else sched_find_first_bit (bitmap a).
Proof using All.
  pose proof array_remove_wf as Hwf'.
  destruct (ffb_spec _ (aw_end _ _ _ Hwf)) as (Hr & Hs & Hmin).
  destruct (ffb_spec _ (aw_end _ _ _ Hwf')) as (Hr' & Hs' & _).
  destruct (Z.eqb_spec (nr_queued (array_remove a)) 0) as [Hz|_].
  - destruct (decide (sched_find_first_bit (bitmap (array_remove a)) = MAX_RT_PRIO)) as [|Hne]; [done|].
    exfalso. pose proof (nr_queued_le (array_remove a) (sched_find_first_bit (bitmap (array_remove a))) ltac:(lia)) as Hl.
    apply (aw_bit _ _ _ Hwf') in Hs'; [|lia]. unfold queue_len in Hl.
    destruct (queue (array_remove a) _); [done|]. simpl in Hl. lia.
  - destruct (Z.eqb_spec pr (sched_find_first_bit (bitmap a))) as [|Hne]; [done|].
    assert (sched_find_first_bit (bitmap a) <= pr).
    { destruct (decide (sched_find_first_bit (bitmap a) <= pr)); [done|].
      assert (Hf : Z.testbit (bitmap a) pr = false) by (apply Hmin; lia).
      assert (Z.testbit (bitmap a) pr = true) as Ht; [|congruence].
      apply (aw_bit _ _ _ Hwf); [done|]. intros E. rewrite E in Hp. by apply elem_of_nil in Hp. }
    unfold MAX_RT_PRIO in *. rewrite array_remove_bitmap.
    case_decide; [|apply ffb_unique; auto; lia].
    apply ffb_unique; [lia|by rewrite Z.clearbit_neq by lia|].
    intros j Hj. rewrite Z.clearbit_neq by lia. auto.
Qed.
End Remove.
End Array.

(** ** What the operations do to the queues

    [view] is the part of a run queue the theorems speak of.  [acts c p f g k k']
    says that [k'] is [k] with the queue of CPU [c] changed by [f] and the
    entity of task [p] by [g]; it composes. *)

Record qview := mkView {
  v_array : rt_prio_array;
  v_nr : Z;
  v_high : Z;
  v_queued : bool;
  v_throttled : bool;
  v_total : Z }.
#[export] Instance eta_qview : Settable qview :=
  fun r => mkView (v_array r) (v_nr r) (v_high r) (v_queued r) (v_throttled r) (v_total r).

Definition view_of (r : rt_rq) (n : Z) : qview :=
  mkView (active r) (rt_nr_running r) (highest_prio_curr r) (rt_queued r) (rt_throttled r) n.
Definition view (k : kernel) (c : Z) : qview := view_of (rt_of k c) (nr_running (rqs k c)).

Definition acts (c p : Z) (f : qview -> qview) (g : tview -> tview) (k k' : kernel) : Prop :=
  (forall d, view k' d = if decide (c = d) then f (view k c) else view k d) /\
  (forall q, tv k' q = if decide (p = q) then g (tv k p) else tv k q).

Definition keeps (k k' : kernel) : Prop :=
  (forall d, view k' d = view k d) /\ (forall q, tv k' q = tv k q).

#[export] Instance keeps_equiv : Equivalence keeps.
Proof.
  split; [by split| |].
  - intros k k' [H1 H2]. split; intros; by symmetry.
  - intros k1 k2 k3 [A1 A2] [B1 B2]. split; intros; congruence.
Qed.

#[export] Instance acts_proper c p f g : Proper (keeps ==> keeps ==> iff) (acts c p f g).
Proof.
  intros k1 k2 [A1 A2] l1 l2 [B1 B2].
  split; intros [H1 H2]; (split; [intros d; specialize (H1 d)|intros q; specialize (H2 q)]);
    first [rewrite B1, !A1; exact H1|rewrite B2, !A2; exact H2
          |rewrite <-B1, <-!A1; exact H1|rewrite <-B2, <-!A2; exact H2].
Qed.

Lemma acts_id c p k k' : keeps k k' -> acts c p id id k k'.
Proof. intros [H1 H2]. split; intros; case_decide; subst; auto. Qed.

Lemma acts_trans c p f1 g1 f2 g2 k1 k2 k3 :
  acts c p f1 g1 k1 k2 -> acts c p f2 g2 k2 k3 -> acts c p (f2 ∘ f1) (g2 ∘ g1) k1 k3.
Proof.
  intros [A1 A2] [B1 B2]. split.
  - intros d. rewrite B1. case_decide as Hd; [subst|]; by rewrite A1, ?decide_True, ?decide_False by done.
  - intros q. rewrite B2. case_decide as Hd; [subst|]; by rewrite A2, ?decide_True, ?decide_False by done.
Qed.

Lemma view_upd_rt c f k d :
  view (upd_rt c f k) d = if decide (c = d) then view_of (f (rt_of k c)) (nr_running (rqs k c)) else view k d.
Proof.
  unfold view. case_decide as Hd.
  - subst d. by rewrite upd_rt_eq, (upd_rt_proj nr_running).
  - by rewrite upd_rt_ne, (upd_rt_proj nr_running).
Qed.

Lemma acts_upd_rt c p f h k :
  (forall r n, view_of (f r) n = h (view_of r n)) -> acts c p h id k (upd_rt c f k).
Proof.
  intros Hf. split.
  - intros d. rewrite view_upd_rt. case_decide; [by rewrite Hf|done].
  - intros q. by case_decide; subst.
Qed.

Lemma keeps_upd_rt c f k : (forall r n, view_of (f r) n = view_of r n) -> keeps k (upd_rt c f k).
Proof.
  intros Hf. split; [|done]. intros d. rewrite view_upd_rt. case_decide as Hd; [|done]. subst. by rewrite Hf.
Qed.

Lemma tv_upd_task p f k q : tv (upd_task p f k) q =
  if decide (p = q) then let t := f (tasks k p) in mkTv (prio t) (task_cpu t) (rt_on_rq (rt_se t)) else tv k q.
Proof. unfold tv, on_rt_rq. rewrite tasks_upd_task. by case_decide. Qed.

Lemma keeps_upd_task p f k :
  (forall t, prio (f t) = prio t /\ task_cpu (f t) = task_cpu t /\ rt_on_rq (rt_se (f t)) = rt_on_rq (rt_se t)) ->
  keeps k (upd_task p f k).
Proof.
  intros Hf. split; [done|]. intros q. rewrite tv_upd_task. case_decide as Hq; [|done]. subst q.
  cbv zeta. by destruct (Hf (tasks k p)) as (-> & -> & ->).
Qed.

Lemma keeps_set_on_rq c p b k :
  acts c p id (fun t => mkTv (tv_prio t) (tv_cpu t) b) k (upd_rt_se p (fun s => s <| rt_on_rq := b |>) k).
Proof.
  split; [intros d; by case_decide; subst|]. intros q. unfold upd_rt_se. by rewrite tv_upd_task.
Qed.

Lemma keeps_call e k : keeps k (call e k).
Proof. done. Qed.

(** Steps back through a state built by updates that keep the queues. *)
Create HintDb keeps.
#[export] Hint Resolve keeps_call : keeps.
Ltac keeps_back :=
  cbv zeta;
  repeat match goal with
  | |- keeps ?k ?k => reflexivity
  | |- context [if ?b then _ else _] => destruct b
  | |- keeps ?k (upd_rt ?c ?f ?k') => transitivity k'; [|by apply keeps_upd_rt]
  | |- keeps ?k (upd_task ?c ?f ?k') => transitivity k'; [|by apply keeps_upd_task]
  | |- keeps ?k _ => etransitivity; [|solve [eauto with keeps nocore]]
  | |- _ => done
  end.

(** The steps that change nothing the queues depend on. *)
Lemma keeps_migration c k : keeps k (update_rt_migration c k).
Proof.
  unfold update_rt_migration, rt_set_overload, rt_clear_overload. keeps_back.
Qed.
#[export] Hint Resolve keeps_migration : keeps.

Lemma keeps_inc_migration p c k : keeps k (inc_rt_migration p c k).
Proof. unfold inc_rt_migration. keeps_back. Qed.

Lemma keeps_dec_migration p c k : keeps k (dec_rt_migration p c k).
Proof. unfold dec_rt_migration. keeps_back. Qed.

Lemma keeps_group k : keeps k (inc_rt_group k).
Proof. unfold inc_rt_group, start_rt_bandwidth. by cases. Qed.

Lemma keeps_enqueue_pushable c p k : keeps k (enqueue_pushable_task c p k).
Proof. unfold enqueue_pushable_task. keeps_back. Qed.

Lemma keeps_dequeue_pushable c p k : keeps k (dequeue_pushable_task c p k).
Proof. unfold dequeue_pushable_task. cbv zeta. destruct (pushable_tasks _) as [|[]]; keeps_back. Qed.

Lemma keeps_upd_rq c f k :
  (forall r, rt (f r) = rt r /\ nr_running (f r) = nr_running r) -> keeps k (upd_rq c f k).
Proof.
  intros Hf. split; [|done]. intros d. unfold view, rt_of. ksimpl.
  case_decide; [subst|done]. by destruct (Hf (rqs k d)) as [-> ->].
Qed.

Lemma keeps_queue_push c k : keeps k (queue_push_tasks c k).
Proof.
  unfold queue_push_tasks, queue_balance_callback. cases; [done|by apply keeps_upd_rq].
Qed.

Lemma keeps_resched c k : keeps k (resched_curr c k).
Proof.
  unfold resched_curr, set_nr_and_not_polling, set_tsk_need_resched. keeps_back.
Qed.

#[export] Hint Resolve keeps_inc_migration keeps_dec_migration keeps_group
  keeps_enqueue_pushable keeps_dequeue_pushable keeps_queue_push keeps_resched : keeps.

(** ** The operations on views *)

Definition v_inc (pr : Z) (v : qview) : qview :=
  let v := v <| v_nr ::= fun n => u32 (n + 1) |> in
  if pr <? v_high v then v <| v_high := pr |> else v.

Definition v_dec (pr : Z) (v : qview) : qview :=
  let v := v <| v_nr ::= fun n => u32 (n - 1) |> in
  if negb (v_nr v =? 0) then
    if pr =? v_high v then v <| v_high := sched_find_first_bit (bitmap (v_array v)) |> else v
  else v <| v_high := MAX_RT_PRIO |>.

Definition v_top_out (v : qview) : qview :=
  if v_queued v then v <| v_queued := false |> <| v_total ::= fun n => u32 (n - v_nr v) |> else v.

Definition v_top_in (v : qview) : qview :=
  if v_queued v then v
  else if v_throttled v || (v_nr v =? 0) then v
  else v <| v_queued := true |> <| v_total ::= fun n => u32 (n + v_nr v) |>.

Definition t_on (b : bool) (t : tview) : tview := mkTv (tv_prio t) (tv_cpu t) b.

(** Where [enqueue] puts a task in the list of its priority. *)
Definition place (flags p : Z) : list Z -> list Z :=
  if has_flag flags ENQUEUE_HEAD then list_add p else list_add_tail p.

Lemma place_perm flags p l : place flags p l ≡ₚ p :: l.
Proof.
  unfold place, list_add, list_add_tail. case_match; [done|].
  symmetry. apply Permutation_cons_append.
Qed.

Lemma acts_ext c p f f' g g' k k' :
  acts c p f g k k' -> f (view k c) = f' (view k c) -> g (tv k p) = g' (tv k p) -> acts c p f' g' k k'.
Proof.
  intros [H1 H2] Hf Hg. split; intros.
  - rewrite H1. by case_decide; rewrite ?Hf.
  - rewrite H2. by case_decide; rewrite ?Hg.
Qed.

Lemma acts_keeps c p f g k k1 k2 : acts c p f g k k1 -> keeps k1 k2 -> acts c p f g k k2.
Proof. by intros ? <-. Qed.

Lemma acts_if c p (b : bool) f1 f2 g k k1 k2 :
  acts c p f1 g k k1 -> acts c p f2 g k k2 ->
  acts c p (fun v => if b then f1 v else f2 v) g k (if b then k1 else k2).
Proof. by destruct b. Qed.

Lemma acts_seq c p f1 f2 g k1 k2 k3 :
  acts c p f1 id k1 k2 -> acts c p f2 g k2 k3 -> acts c p (f2 ∘ f1) g k1 k3.
Proof. intros H1 H2. exact (acts_trans _ _ _ _ _ _ _ _ _ H1 H2). Qed.

(** A call that is only logged changes no queue. *)
Lemma acts_log c p f g k (b : bool) e k' :
  acts c p f g k k' -> acts c p f g k (if b then call e k' else k').
Proof. intros. eapply acts_keeps; [done|by destruct b]. Qed.

Lemma acts_inc_prio c p pr k :
  acts c p (fun v => if pr <? v_high v then v <| v_high := pr |> else v) id k (inc_rt_prio c pr k).
Proof.
  unfold inc_rt_prio, inc_rt_prio_smp.
  apply acts_log.
  apply (acts_ext _ _ (fun v => if pr <? highest_prio_curr (rt_of k c)
    then v <| v_high := pr |> else id v) _ id); [|done|done].
  apply acts_if; [by apply acts_upd_rt|by apply acts_id].
Qed.

Lemma acts_dec_prio c p pr k :
  acts c p (fun v => if negb (v_nr v =? 0) then
    if pr =? v_high v then v <| v_high := sched_find_first_bit (bitmap (v_array v)) |> else v
    else v <| v_high := MAX_RT_PRIO |>) id k (dec_rt_prio c pr k).
Proof.
  unfold dec_rt_prio, dec_rt_prio_smp.
  apply acts_log.
  apply (acts_ext _ _ (fun v => if negb (rt_nr_running (rt_of k c) =? 0) then
    if pr =? highest_prio_curr (rt_of k c)
    then v <| v_high := sched_find_first_bit (bitmap (v_array v)) |> else id v
    else v <| v_high := MAX_RT_PRIO |>) _ id); [|done|done].
  repeat apply acts_if; [by apply acts_upd_rt|by apply acts_id|by apply acts_upd_rt].
Qed.

Lemma acts_inc_tasks c p k : acts c p (v_inc (prio (tasks k p))) id k (inc_rt_tasks p c k).
Proof.
  unfold inc_rt_tasks.
  eapply acts_keeps; [|etransitivity; [apply keeps_inc_migration|apply keeps_group]].
  eapply acts_ext; [eapply acts_seq; [|apply acts_inc_prio]|done|done].
  by apply (acts_upd_rt _ _ _ (fun v => v <| v_nr ::= fun n => u32 (n + 1) |>)).
Qed.

Lemma acts_dec_tasks c p k : acts c p (v_dec (prio (tasks k p))) id k (dec_rt_tasks p c k).
Proof.
  unfold dec_rt_tasks. eapply acts_keeps; [|apply keeps_dec_migration].
  eapply acts_ext; [eapply acts_seq; [|apply acts_dec_prio]|done|done].
  by apply (acts_upd_rt _ _ _ (fun v => v <| v_nr ::= fun n => u32 (n - 1) |>)).
Qed.

Lemma acts_upd_array c p f k : acts c p (fun v => v <| v_array ::= f |>) id k (upd_array c f k).
Proof. by apply acts_upd_rt. Qed.

Lemma acts_delist c p k :
  acts c p (fun v => v <| v_array ::= array_remove p (prio (tasks k p)) |>) id k (__delist_rt_entity p c k).
Proof.
  unfold __delist_rt_entity, upd_rt_se. eapply acts_keeps; [|by apply keeps_upd_task].
  set (pr := prio (tasks k p)).
  apply (acts_ext _ _ (fun v => match list_del p (queue (active (rt_of k c)) pr) with
    | [] => v <| v_array ::= fun a => array_del p a <| bitmap ::= fun b => Z.clearbit b pr |> |>
    | _ => v <| v_array ::= array_del p |> end) _ id).
  - assert (queue (active (rt_of (upd_array c (array_del p) k) c)) pr
            = list_del p (queue (active (rt_of k c)) pr)) as ->
      by (unfold upd_array; by rewrite upd_rt_eq).
    destruct (list_del p (queue (active (rt_of k c)) pr)) eqn:E.
    + eapply acts_ext; [|done|done].
      exact (acts_seq _ _ _ _ _ _ _ _ (acts_upd_array c p (array_del p) k) (acts_upd_array c p _ _)).
    + by apply acts_upd_rt.
  - unfold array_remove. cbn. by destruct (list_del p _).
  - done.
Qed.

(** The array after an enqueue or a dequeue with the given flags. *)
Definition v_link (flags p pr : Z) (v : qview) : qview :=
  if move_entity flags then v <| v_array ::= array_add pr (place flags p) |> else v.
Definition v_unlink (flags p pr : Z) (v : qview) : qview :=
  if move_entity flags then v <| v_array ::= array_remove p pr |> else v.

Lemma acts_enqueue_entity p flags k :
  let c := task_cpu (tasks k p) in let pr := prio (tasks k p) in
  acts c p (v_inc pr ∘ v_link flags p pr) (t_on true) k (__enqueue_rt_entity p flags k).
Proof.
  intros c pr. unfold __enqueue_rt_entity. fold c pr.
  set (k1 := if move_entity flags then _ else _).
  assert (H1 : acts c p (v_link flags p pr) id k k1).
  { unfold k1, v_link. apply acts_if; [|by apply acts_id].
    unfold upd_rt_se. eapply acts_keeps; [|by apply keeps_upd_task].
    eapply acts_ext; [|done|done].
    exact (acts_seq _ _ _ _ _ _ _ _ (acts_upd_array c p _ k) (acts_upd_array c p _ _)). }
  assert (Hpr : prio (tasks k1 p) = pr).
  { pose proof (f_equal tv_prio (proj2 H1 p)) as E. by rewrite decide_True in E. }
  eapply (acts_trans _ _ _ _ _ id); [exact (acts_trans _ _ _ _ _ _ _ _ _ H1 (keeps_set_on_rq c p true k1))|].
  set (k2 := upd_rt_se p _ k1). assert (prio (tasks k2 p) = pr) as Hpr2.
  { unfold k2, upd_rt_se. by rewrite tasks_upd_task, decide_True. }
  rewrite <-Hpr2. apply acts_inc_tasks.
Qed.

Lemma acts_dequeue_entity p flags k :
  let c := task_cpu (tasks k p) in let pr := prio (tasks k p) in
  acts c p (v_dec pr ∘ v_unlink flags p pr) (t_on false) k (__dequeue_rt_entity p flags k).
Proof.
  intros c pr. unfold __dequeue_rt_entity. fold c.
  set (k1 := if move_entity flags then _ else _).
  assert (H1 : acts c p (v_unlink flags p pr) id k k1).
  { unfold k1, v_unlink. apply acts_if; [apply acts_delist|by apply acts_id]. }
  assert (Hpr : prio (tasks k1 p) = pr).
  { pose proof (f_equal tv_prio (proj2 H1 p)) as E. by rewrite decide_True in E. }
  eapply (acts_trans _ _ _ _ _ id); [exact (acts_trans _ _ _ _ _ _ _ _ _ H1 (keeps_set_on_rq c p false k1))|].
  set (k2 := upd_rt_se p _ k1). assert (prio (tasks k2 p) = pr) as Hpr2.
  { unfold k2, upd_rt_se. by rewrite tasks_upd_task, decide_True. }
  rewrite <-Hpr2. apply acts_dec_tasks.
Qed.

(** The count of the run queue, changed by [add_nr_running] and
    [sub_nr_running]. *)
Lemma acts_upd_nr c p h k :
  acts c p (fun v => v <| v_total ::= h |>) id k (upd_rq c (fun r => r <| nr_running ::= h |>) k).
Proof.
  split; [|intros q; by case_decide; subst].
  intros d. unfold view, rt_of. case_decide; [subst; by rewrite upd_rq_eq|by rewrite upd_rq_ne].
Qed.

Lemma acts_add_nr c p n k :
  acts c p (fun v => v <| v_total ::= fun m => u32 (m + n) |>) id k (add_nr_running c n k).
Proof.
  unfold add_nr_running. set (k1 := upd_rq c _ k).
  apply (acts_keeps _ _ _ _ _ k1); [|by repeat case_match].
  eapply acts_ext; [exact (acts_upd_nr c p (fun _ => u32 (nr_running (rqs k c) + n)) k)|done|done].
Qed.

Lemma acts_top_out c p k k' : dequeue_top_rt_rq c k = Some k' -> acts c p v_top_out id k k'.
Proof.
  unfold dequeue_top_rt_rq. destruct (rt_queued (rt_of k c)) eqn:Hq; cbn [negb].
  - destruct (_ =? _); intros [= <-].
    eapply acts_ext; [eapply acts_seq;
      [apply (acts_upd_nr c p (fun n => u32 (n - rt_nr_running (rt_of k c))) k)
      |by apply (acts_upd_rt _ _ _ (fun v => v <| v_queued := false |>))]| |done].
    unfold v_top_out. cbn. by rewrite Hq.
  - intros [= <-]. eapply acts_ext; [by apply acts_id| |done]. unfold v_top_out. cbn. by rewrite Hq.
Qed.

Lemma acts_top_in c p k : acts c p v_top_in id k (enqueue_top_rt_rq c k).
Proof.
  unfold enqueue_top_rt_rq, rt_rq_throttled.
  apply (acts_ext _ _ (fun v => if rt_queued (rt_of k c) then id v
    else if rt_throttled (rt_of k c) || (rt_nr_running (rt_of k c) =? 0) then id v
    else v <| v_total ::= fun n => u32 (n + rt_nr_running (rt_of k c)) |> <| v_queued := true |>) _ id);
    [|done|done].
  apply acts_if; [by apply acts_id|]. apply acts_if; [by apply acts_id|].
  eapply acts_ext; [eapply acts_seq; [apply acts_add_nr|
    by apply (acts_upd_rt _ _ _ (fun v => v <| v_queued := true |>))]|done|done].
Qed.

(** ** The invariant of the queues *)

Record view_wf (c : Z) (T : Z -> tview) (v : qview) : Prop := {
  vw_array : array_wf c T (v_array v);
  vw_nr : v_nr v = nr_queued (v_array v);
  vw_high : v_high v = sched_find_first_bit (bitmap (v_array v));
  vw_top : v_queued v = true -> 0 < v_nr v <= v_total v;
  vw_idle : v_queued v = false -> v_throttled v = true \/ v_nr v = 0;
  vw_range : 0 <= v_total v /\ v_total v + v_nr v < 2 ^ 32 }.

(** The bitmap, the lists, the counts and the cached highest priority of every
    real-time run queue agree, and the queue is counted in [rq->nr_running]
    unless it is throttled. *)
Definition rt_wf (k : kernel) : Prop := forall c, view_wf c (tv k) (view k c).

Lemma nr_queued_nonneg a : 0 <= nr_queued a.
Proof. apply sum_of_nonneg. intros. unfold queue_len. lia. Qed.

Lemma array_wf_other c T T' p a :
  (forall q, q <> p -> T' q = T q) -> (tv_on (T p) = true -> tv_cpu (T p) <> c) ->
  (tv_on (T' p) = true -> tv_cpu (T' p) <> c) -> array_wf c T a -> array_wf c T' a.
Proof.
  intros HT Hp Hp' [Hb He Hm Hn Ha]. split; try done.
  - intros i q Hq. destruct (Hm i q Hq) as [? E]. split; [done|]. rewrite HT; [done|].
    intros ->. rewrite E in Hp. by apply Hp.
  - intros q Hon Hc. destruct (decide (q = p)) as [->|Hq]; [by destruct (Hp' Hon)|].
    rewrite HT in * by done. auto.
Qed.

(** The middle of an enqueue or dequeue: the array, the count and the highest
    priority agree; the queue is out of [rq->nr_running]. *)
Record mid_wf (c : Z) (T : Z -> tview) (v : qview) : Prop := {
  mw_array : array_wf c T (v_array v);
  mw_nr : v_nr v = nr_queued (v_array v);
  mw_high : v_high v = sched_find_first_bit (bitmap (v_array v));
  mw_out : v_queued v = false;
  mw_range : 0 <= v_total v }.

Lemma top_out_wf c T v : view_wf c T v ->
  mid_wf c T (v_top_out v) /\ v_total (v_top_out v) + v_nr v < 2 ^ 32 /\
  v_array (v_top_out v) = v_array v /\ v_nr (v_top_out v) = v_nr v /\
  v_throttled (v_top_out v) = v_throttled v.
Proof.
  intros [Ha Hn Hh Ht Hi Hr]. unfold v_top_out. destruct (v_queued v) eqn:Hq.
  - specialize (Ht eq_refl). cbn. rewrite u32_id by lia.
    split_and!; try done; try lia. split; cbn; try done. lia.
  - split_and!; try done; [|lia]. split; done || lia.
Qed.

Lemma top_in_wf c T v : mid_wf c T v -> v_total v + 2 * v_nr v < 2 ^ 32 ->
  view_wf c T (v_top_in v) /\ v_array (v_top_in v) = v_array v.
Proof.
  intros [Ha Hn Hh Ho Hr] Hlt. unfold v_top_in. rewrite Ho.
  pose proof (nr_queued_nonneg (v_array v)).
  destruct (v_throttled v) eqn:Ht; cbn [orb]; [split; [split; auto; try done; try lia; congruence|done]|].
  destruct (Z.eqb_spec (v_nr v) 0) as [Hz|Hz]; [split; [split; auto; try done; try lia; congruence|done]|].
  cbn. rewrite u32_id by lia. split; [|done]. split; cbn; try done; lia.
Qed.

Lemma link_wf c T T' flags p pr v :
  mid_wf c T v -> move_entity flags = true -> 0 <= pr < MAX_RT_PRIO ->
  (forall q, q <> p -> T' q = T q) -> tv_on (T p) = false -> T' p = mkTv pr c true ->
  v_nr v + 1 < 2 ^ 32 ->
  mid_wf c T' (v_inc pr (v_link flags p pr v)) /\
  v_array (v_inc pr (v_link flags p pr v)) = array_add pr (place flags p) (v_array v) /\
  v_nr (v_inc pr (v_link flags p pr v)) = v_nr v + 1 /\
  v_total (v_inc pr (v_link flags p pr v)) = v_total v.
Proof.
  intros [Ha Hn Hh Ho Hr] Hm Hpr HT Hoff HTp Hlt.
  pose proof (nr_queued_nonneg (v_array v)).
  assert (Hnew : forall i, p ∉ queue (v_array v) i).
  { intros i Hi. destruct (aw_mem _ _ _ Ha _ _ Hi) as [_ E]. by rewrite E in Hoff. }
  pose proof (place_perm flags p) as HF.
  unfold v_link. rewrite Hm. unfold v_inc. cbn [v_high v_nr upd v_array v_total].
  rewrite u32_id by lia.
  assert (Hall : forall h, h = sched_find_first_bit (bitmap (array_add pr (place flags p) (v_array v))) ->
    mid_wf c T' (v <| v_array ::= array_add pr (place flags p) |> <| v_nr := v_nr v + 1 |> <| v_high := h |>)).
  { intros h Hhh. split; cbn; try done.
    - by apply (array_add_wf c T T' p).
    - rewrite (array_add_nr p) by done. lia. }
  pose proof (array_add_first c T pr Hpr (place flags p) _ Ha) as Hf.
  rewrite <-Hh in Hf.
  destruct (pr <? v_high v) eqn:Hlt2; (split; [by apply Hall|done]).
Qed.

Lemma unlink_wf c T T' flags p pr v :
  mid_wf c T v -> move_entity flags = true ->
  (forall q, q <> p -> T' q = T q) -> T p = mkTv pr c true -> tv_on (T' p) = false ->
  v_nr v < 2 ^ 32 ->
  mid_wf c T' (v_dec pr (v_unlink flags p pr v)) /\
  v_array (v_dec pr (v_unlink flags p pr v)) = array_remove p pr (v_array v) /\
  v_nr (v_dec pr (v_unlink flags p pr v)) = v_nr v - 1 /\
  v_total (v_dec pr (v_unlink flags p pr v)) = v_total v.
Proof.
  intros [Ha Hn Hh Ho Hr] Hm HT HTp Hoff Hlt.
  assert (Hp : p ∈ queue (v_array v) pr).
  { pose proof (aw_all _ _ _ Ha p) as Hq. rewrite HTp in Hq. by apply Hq. }
  destruct (aw_mem _ _ _ Ha _ _ Hp) as [Hpr _].
  pose proof (array_remove_nr c T p pr Hpr _ Ha Hp) as Hnr.
  pose proof (nr_queued_nonneg (array_remove p pr (v_array v))).
  unfold v_unlink. rewrite Hm. unfold v_dec. cbn [v_high v_nr upd v_array v_total].
  rewrite u32_id by lia.
  assert (Hall : forall h, h = sched_find_first_bit (bitmap (array_remove p pr (v_array v))) ->
    mid_wf c T' (v <| v_array ::= array_remove p pr |> <| v_nr := v_nr v - 1 |> <| v_high := h |>)).
  { intros h Hhh. split; cbn; try done; [|lia]. by apply (array_remove_wf c T T' p). }
  pose proof (array_remove_first c T T' p pr HT Hpr _ Ha Hp Hoff) as Hf.
  rewrite <-Hh, Hnr, <-Hn in Hf.
  destruct (v_nr v - 1 =? 0) eqn:Hz; cbn [negb]; [split; [by apply Hall|done]|].
  destruct (pr =? v_high v); (split; [by apply Hall|done]).
Qed.

(** Room for one more task in the 32-bit counters. *)
Definition room (k : kernel) (c : Z) : Prop :=
  nr_running (rqs k c) + 2 * rt_nr_running (rt_of k c) + 2 < 2 ^ 32.

Lemma top_out_room k c :
  rt_wf k -> room k c -> v_total (v_top_out (view k c)) + 2 * v_nr (view k c) + 2 < 2 ^ 32.
Proof.
  unfold room. intros Hwf Hroom. pose proof (vw_range _ _ _ (Hwf c)).
  pose proof (nr_queued_nonneg (v_array (view k c))) as Hnn. rewrite <-(vw_nr _ _ _ (Hwf c)) in Hnn.
  unfold v_top_out. destruct (v_queued (view k c)) eqn:Hq; cbn in *; [|lia].
  pose proof (vw_top _ _ _ (Hwf c) Hq). cbn in *. rewrite u32_id by lia. lia.
Qed.

Lemma dequeue_top_some c k : rt_wf k -> exists k', dequeue_top_rt_rq c k = Some k'.
Proof.
  intros Hwf. unfold dequeue_top_rt_rq.
  destruct (rt_queued (rt_of k c)) eqn:Hq; [|by eexists].
  pose proof (vw_top _ _ _ (Hwf c) Hq) as Ht. cbn in Ht.
  destruct (Z.eqb_spec (nr_running (rqs k c)) 0); [lia|by eexists].
Qed.

Lemma acts_tv_ne c p f g k k' q : acts c p f g k k' -> q <> p -> tv k' q = tv k q.
Proof. intros [_ H] Hq. rewrite H. by rewrite decide_False by congruence. Qed.
Lemma acts_tv_eq c p f g k k' : acts c p f g k k' -> tv k' p = g (tv k p).
Proof. intros [_ H]. by rewrite H, decide_True. Qed.
Lemma acts_view_eq c p f g k k' : acts c p f g k k' -> view k' c = f (view k c).
Proof. intros [H _]. by rewrite H, decide_True. Qed.

(** The other queues stay well formed when a task joins or leaves one. *)
Lemma acts_wf c p f g k k' :
  rt_wf k -> acts c p f g k k' -> (tv_cpu (tv k p) = c) -> (tv_cpu (g (tv k p)) = c) ->
  view_wf c (tv k') (f (view k c)) -> rt_wf k'.
Proof.
  intros Hwf Ha Hc Hc' Hv d. destruct (decide (c = d)) as [<-|Hd].
  { by rewrite (acts_view_eq _ _ _ _ _ _ Ha). }
  rewrite (proj1 Ha), decide_False by done. destruct (Hwf d) as [A ? ? ? ? ?].
  split; try done. apply (array_wf_other d (tv k) _ p); [| | |done].
  - intros q Hq. by eapply acts_tv_ne.
  - congruence.
  - rewrite (acts_tv_eq _ _ _ _ _ _ Ha). congruence.
Qed.

(** What the counters of a queue need. *)
Definition load (v : qview) : Z := v_total v + 2 * v_nr v.

Lemma top_in_load c T v w :
  view_wf c T v -> v_queued w = false -> v_throttled w = v_throttled v ->
  v_total w = v_total (v_top_out v) -> 0 <= v_nr w <= v_nr v + 1 ->
  v_total w + v_nr w < 2 ^ 32 -> load (v_top_in w) <= load v + 3.
Proof.
  intros [_ _ _ Ht Hi Hr] Hq Hth Htot Hn Hlt. unfold load, v_top_in. rewrite Hq.
  unfold v_top_out in Htot. destruct (v_queued v) eqn:Hqv.
  - specialize (Ht eq_refl). cbn in Htot. rewrite u32_id in Htot by lia.
    case_match; [lia|]. cbn. rewrite u32_id by lia. lia.
  - rewrite Hth. destruct (Hi eq_refl) as [-> |Hz]; cbn [orb]; [lia|].
    case_match; [lia|]. cbn. rewrite u32_id by lia. lia.
Qed.

Lemma inc_link_throttled flags p pr v : v_throttled (v_inc pr (v_link flags p pr v)) = v_throttled v.
Proof. unfold v_inc, v_link. by repeat case_match. Qed.
Lemma dec_unlink_throttled flags p pr v : v_throttled (v_dec pr (v_unlink flags p pr v)) = v_throttled v.
Proof. unfold v_dec, v_unlink. by repeat case_match. Qed.

Lemma enqueue_entity_ok p flags k :
  let c := task_cpu (tasks k p) in let pr := prio (tasks k p) in
  rt_wf k -> on_rt_rq k p = false -> 0 <= pr < MAX_RT_PRIO -> move_entity flags = true -> room k c ->
  exists k' f, enqueue_rt_entity p flags k = Some k' /\ rt_wf k' /\ acts c p f (t_on true) k k' /\
    v_array (f (view k c)) = array_add pr (place flags p) (v_array (view k c)) /\
    load (f (view k c)) <= load (view k c) + 3.
Proof.
  intros c pr Hwf Hoff Hpr Hm Hroom. unfold enqueue_rt_entity, dequeue_rt_stack. fold c.
  destruct (dequeue_top_some c k Hwf) as (k1 & Hk1). rewrite Hk1. cbn.
  pose proof (acts_top_out c p k k1 Hk1) as A1.
  pose proof (acts_tv_eq _ _ _ _ _ _ A1) as E1. unfold tv in E1. injection E1 as Ep Ec Eo.
  rewrite Eo, Hoff. eexists _, (v_top_in ∘ ((v_inc pr ∘ v_link flags p pr) ∘ v_top_out)).
  pose proof (acts_enqueue_entity p flags k1) as A2. cbv zeta in A2. rewrite Ec, Ep in A2.
  pose proof (acts_trans _ _ _ _ _ _ _ _ _ (acts_seq _ _ _ _ _ _ _ _ A1 A2)
    (acts_top_in c p (__enqueue_rt_entity p flags k1))) as A.
  destruct (top_out_wf _ _ _ (Hwf c)) as (Hmid & Ht & Har & Hnr & Hth).
  destruct (link_wf c (tv k) (tv (enqueue_top_rt_rq c (__enqueue_rt_entity p flags k1))) flags p pr
    _ Hmid Hm Hpr) as (Hmid' & Har' & Hnr' & Htot').
  { intros q Hq. by eapply acts_tv_ne. }
  { done. }
  { by rewrite (acts_tv_eq _ _ _ _ _ _ A). }
  { unfold room in Hroom. rewrite Hnr. pose proof (vw_range _ _ _ (Hwf c)). cbn in *. lia. }
  destruct (top_in_wf _ _ _ Hmid') as [Hfin Harf].
  { rewrite Htot', Hnr', Hnr. pose proof (top_out_room k c Hwf Hroom). lia. }
  split_and!; [done| |done| |].
  - by eapply acts_wf; [done|exact A|done|done|exact Hfin].
  - unfold compose. by rewrite Harf, Har', Har.
  - pose proof (top_out_room k c Hwf Hroom). pose proof (mw_range _ _ _ Hmid).
    pose proof (nr_queued_nonneg (v_array (view k c))). pose proof (vw_nr _ _ _ (Hwf c)).
    unfold compose. apply (top_in_load c (tv k)); [done|by rewrite (mw_out _ _ _ Hmid')| |done|lia|lia].
    by rewrite inc_link_throttled.
Qed.

Lemma dequeue_entity_ok p flags k :
  let c := task_cpu (tasks k p) in let pr := prio (tasks k p) in
  rt_wf k -> on_rt_rq k p = true -> move_entity flags = true -> room k c ->
  exists k' f, dequeue_rt_entity p flags k = Some k' /\ rt_wf k' /\ acts c p f (t_on false) k k' /\
    v_array (f (view k c)) = array_remove p pr (v_array (view k c)) /\
    load (f (view k c)) <= load (view k c) + 3.
Proof.
  intros c pr Hwf Hon Hm Hroom. unfold dequeue_rt_entity, dequeue_rt_stack. fold c.
  destruct (dequeue_top_some c k Hwf) as (k1 & Hk1). rewrite Hk1. cbn.
  pose proof (acts_top_out c p k k1 Hk1) as A1.
  pose proof (acts_tv_eq _ _ _ _ _ _ A1) as E1. unfold tv in E1. injection E1 as Ep Ec Eo.
  rewrite Eo, Hon. eexists _, (v_top_in ∘ ((v_dec pr ∘ v_unlink flags p pr) ∘ v_top_out)).
  pose proof (acts_dequeue_entity p flags k1) as A2. cbv zeta in A2. rewrite Ec, Ep in A2.
  pose proof (acts_trans _ _ _ _ _ _ _ _ _ (acts_seq _ _ _ _ _ _ _ _ A1 A2)
    (acts_top_in c p (__dequeue_rt_entity p flags k1))) as A.
  destruct (top_out_wf _ _ _ (Hwf c)) as (Hmid & Ht & Har & Hnr & Hth).
  destruct (unlink_wf c (tv k) (tv (enqueue_top_rt_rq c (__dequeue_rt_entity p flags k1))) flags p pr
    _ Hmid Hm) as (Hmid' & Har' & Hnr' & Htot').
  { intros q Hq. by eapply acts_tv_ne. }
  { unfold tv. by rewrite Hon. }
  { by rewrite (acts_tv_eq _ _ _ _ _ _ A). }
  { rewrite Hnr. pose proof (vw_range _ _ _ (Hwf c)). lia. }
  destruct (top_in_wf _ _ _ Hmid') as [Hfin Harf].
  { rewrite Htot', Hnr', Hnr. pose proof (top_out_room k c Hwf Hroom). lia. }
  split_and!; [done| |done| |].
  - by eapply acts_wf; [done|exact A|done|done|exact Hfin].
  - unfold compose. by rewrite Harf, Har', Har.
  - pose proof (top_out_room k c Hwf Hroom). pose proof (mw_range _ _ _ Hmid).
    pose proof (nr_queued_nonneg (array_remove p pr (v_array (v_top_out (view k c))))).
    pose proof (mw_nr _ _ _ Hmid') as Hnn. rewrite Har' in Hnn.
    unfold compose. apply (top_in_load c (tv k)); [done|by rewrite (mw_out _ _ _ Hmid')| |done|lia|lia].
    by rewrite dec_unlink_throttled.
Qed.

(** ** Charging the running task keeps the queues *)

(** [k'] has the queues of [k]; some may have become throttled. *)
Record charged (k k' : kernel) : Prop := {
  ch_wf : rt_wf k';
  ch_array d : v_array (view k' d) = v_array (view k d);
  ch_nr d : v_nr (view k' d) = v_nr (view k d);
  ch_total d : v_total (view k' d) <= v_total (view k d);
  ch_tv q : tv k' q = tv k q }.

Lemma array_wf_ext c T T' a : (forall q, T' q = T q) -> array_wf c T a -> array_wf c T' a.
Proof.
  intros HT [? ? Hm ? Ha]. split; try done.
  - intros i p Hp. rewrite HT. auto.
  - intros p. rewrite HT. auto.
Qed.

Lemma keeps_wf k k' : keeps k k' -> rt_wf k -> rt_wf k'.
Proof.
  intros [Hv Ht] Hwf c. rewrite Hv. destruct (Hwf c) as [Ha ? ? ? ? ?].
  split; try done. by eapply array_wf_ext.
Qed.

Lemma keeps_charged k k' : rt_wf k -> keeps k k' -> charged k k'.
Proof.
  intros Hwf Hk. pose proof (keeps_wf _ _ Hk Hwf). destruct Hk as [Hv Ht].
  split; intros; rewrite ?Hv; done.
Qed.

Lemma charged_trans k1 k2 k3 : charged k1 k2 -> charged k2 k3 -> charged k1 k3.
Proof.
  intros [? A2 A3 A4 A5] [? B2 B3 B4 B5]. split; intros; [done|congruence|congruence| |congruence].
  etransitivity; [apply B4|apply A4].
Qed.

Lemma balance_loop_tasks l c w per : forall k, tasks (balance_loop l c w per k) = tasks k.
Proof.
  induction l as [|j l IH]; intros k; [done|]. cbn [balance_loop]. repeat case_match; by rewrite ?IH.
Qed.

Lemma keeps_balance c k : keeps k (balance_runtime c k).
Proof.
  split; intros x.
  - by apply (balance_runtime_proj (fun r => view_of (rt r) (nr_running r))).
  - unfold tv, on_rt_rq, balance_runtime, do_balance_runtime. cases; try done. by rewrite balance_loop_tasks.
Qed.

Lemma keeps_avg fuel c per : forall k, keeps k (avg_loop fuel c per k).
Proof.
  induction fuel as [|n IH]; intros k; [done|]. cbn [avg_loop]. case_match; [|done].
  etransitivity; [|apply IH]. split; [|done]. intros d. unfold view, rt_of.
  destruct (decide (c = d)) as [<-|]; [by rewrite upd_rq_eq|by rewrite upd_rq_ne].
Qed.

Lemma keeps_rt_avg c d k : keeps k (sched_rt_avg_update c d k).
Proof.
  unfold sched_rt_avg_update, sched_avg_update. etransitivity; [|apply keeps_avg].
  split; [|done]. intros e. unfold view, rt_of.
  destruct (decide (c = e)) as [<-|]; [by rewrite upd_rq_eq|by rewrite upd_rq_ne].
Qed.
#[export] Hint Resolve keeps_balance keeps_rt_avg : keeps.

(** Throttling takes a queue out of [rq->nr_running]. *)
Lemma throttle_charged c k :
  rt_wf k -> exists k', sched_rt_rq_dequeue c (upd_rt c (fun r => r <| rt_throttled := true |>) k) = Some k' /\
    charged k k'.
Proof.
  intros Hwf. set (k1 := upd_rt c _ k).
  assert (A1 : acts c 0 (fun v => v <| v_throttled := true |>) id k k1) by (by apply acts_upd_rt).
  assert (Hwf1 : rt_wf k1).
  { intros d. pose proof (Hwf d) as [? ? ? ? ? ?]. rewrite (proj1 A1). case_decide; [subst|]; split; auto. }
  destruct (dequeue_top_some c k1 Hwf1) as (k' & Hk'). exists k'. split; [exact Hk'|].
  pose proof (acts_seq _ _ _ _ _ _ _ _ A1 (acts_top_out c 0 k1 k' Hk')) as A.
  destruct (top_out_wf _ _ _ (Hwf1 c)) as (Hmid & Ht & Ha & Hn & Hth).
  rewrite (acts_view_eq _ _ _ _ _ _ A1) in *.
  assert (Htv : forall q, tv k' q = tv k q) by (intros q; rewrite (proj2 A); by case_decide; subst).
  assert (Hle : v_total (v_top_out (view k c <| v_throttled := true |>)) <= v_total (view k c)).
  { unfold v_top_out. cbn. destruct (rt_queued (rt_of k c)) eqn:Hq; cbn; [|lia].
    pose proof (vw_top _ _ _ (Hwf c) Hq). pose proof (vw_range _ _ _ (Hwf c)). cbn in *.
    rewrite u32_id by lia. lia. }
  split; [|intros d; rewrite (proj1 A); case_decide; subst; auto; try lia..|exact Htv].
  intros d. rewrite (proj1 A). case_decide as Hd; [subst d|].
  - unfold compose. destruct Hmid as [H1 H2 H3 H4 H5]. split; try done; [by eapply array_wf_ext|congruence|auto|].
    rewrite Hn. cbn in *. lia.
  - destruct (Hwf d) as [? ? ? ? ? ?]. split; try done. by eapply array_wf_ext.
Qed.

Lemma runtime_exceeded_charged c k :
  rt_wf k -> exists k' b, sched_rt_runtime_exceeded c k = Some (k', b) /\ charged k k'.
Proof.
  intros Hwf. unfold sched_rt_runtime_exceeded.
  destruct (rt_throttled (rt_of k c)) eqn:Ht; [by eexists _, _; split; [done|apply keeps_charged]|].
  destruct (_ <=? _); [by eexists _, _; split; [done|apply keeps_charged]|].
  pose proof (keeps_charged _ _ Hwf (keeps_balance c k)) as Hb. set (k1 := balance_runtime c k) in *.
  destruct (_ =? RUNTIME_INF); [by eexists _, _|]. destruct (_ <? _); [|by eexists _, _].
  unfold rt_rq_throttled. destruct (negb _).
  - assert (rt_throttled (rt_of (upd_rt c (fun r => r <| rt_throttled := true |>) k1) c) = true) as ->
      by (by rewrite upd_rt_eq).
    destruct (throttle_charged c k1 (ch_wf _ _ Hb)) as (k' & Hk' & Hc). rewrite Hk'. cbn.
    eexists _, _. split; [done|]. by eapply charged_trans.
  - assert (Hc : charged k (upd_rt c (fun r => r <| rt_time := 0 |>) k1)).
    { eapply charged_trans; [done|]. apply keeps_charged; [apply Hb|]. by apply keeps_upd_rt. }
    rewrite upd_rt_eq. cbn [rt_throttled upd].
    pose proof (f_equal v_throttled (proj1 (keeps_balance c k) c)) as E. cbn in E. fold k1 in E.
    rewrite E, Ht. by eexists _, _.
Qed.

Lemma update_curr_charged c k : rt_wf k -> exists k', update_curr_rt c k = Some k' /\ charged k k'.
Proof.
  intros Hwf. unfold update_curr_rt. destruct (negb _); [by eexists; split; [|apply keeps_charged]|].
  destruct (_ <=? _); [by eexists; split; [|apply keeps_charged]|]. cbv zeta.
  match goal with |- context [sched_rt_avg_update c ?d ?x] => set (k1 := sched_rt_avg_update c d x) end.
  assert (H1 : keeps k k1) by (unfold k1; keeps_back).
  destruct (negb _); [by eexists; split; [|apply keeps_charged]|].
  destruct (negb _); [|by eexists; split; [|apply keeps_charged]].
  set (d := task_cpu _). set (k2 := upd_rt d _ k1).
  assert (H2 : keeps k k2) by (transitivity k1; [done|by apply keeps_upd_rt]).
  destruct (runtime_exceeded_charged d k2) as (k3 & b & E & Hc); [by eapply keeps_wf|].
  rewrite E. cbn. eexists. split; [done|].
  eapply charged_trans; [by apply keeps_charged|]. eapply charged_trans; [exact Hc|].
  apply keeps_charged; [apply Hc|]. destruct b; [apply keeps_resched|done].
Qed.

(** ** The list operations of the class *)

(** The list of priority [i] of CPU [d]. *)
Definition prio_list (k : kernel) (d i : Z) : list Z := queue (active (rt_of k d)) i.

Lemma charged_room k k' c : charged k k' -> room k c -> room k' c.
Proof.
  intros Hc. unfold room. pose proof (ch_nr _ _ Hc c) as Hn. pose proof (ch_total _ _ Hc c).
  cbn in *. rewrite Hn. lia.
Qed.

Lemma acts_lists c p f g k k' :
  acts c p f g k k' -> forall d i, prio_list k' d i = if decide (c = d) then queue (v_array (f (view k c))) i else prio_list k d i.
Proof.
  intros [Hv _] d i. unfold prio_list. change (active (rt_of k' d)) with (v_array (view k' d)).
  rewrite Hv. by case_decide.
Qed.

Lemma keeps_lists k k' : keeps k k' -> forall d i, prio_list k' d i = prio_list k d i.
Proof.
  intros [Hv _] d i. unfold prio_list. change (active (rt_of k' d)) with (v_array (view k' d)). by rewrite Hv.
Qed.

Lemma charged_lists k k' : charged k k' -> forall d i, prio_list k' d i = prio_list k d i.
Proof.
  intros Hc d i. unfold prio_list. change (active (rt_of k' d)) with (v_array (view k' d)).
  by rewrite (ch_array _ _ Hc).
Qed.

(** [enqueue_task_rt], with what it does to the task's entity and to the
    counters. *)
Lemma enqueue_task_rt_ok c p flags k :
  rt_wf k -> task_cpu (tasks k p) = c -> on_rt_rq k p = false ->
  0 <= prio (tasks k p) < MAX_RT_PRIO -> move_entity flags = true -> room k c ->
  exists k', enqueue_task_rt c p flags k = Some k' /\ rt_wf k' /\ (forall q, tv k' q = if decide (p = q) then t_on true (tv k p) else tv k q) /\
    (forall d, load (view k' d) <= load (view k d) + 3) /\
    forall d i, prio_list k' d i =
      if decide (c = d /\ i = prio (tasks k p)) then
        (if has_flag flags ENQUEUE_HEAD then p :: prio_list k d i else prio_list k d i ++ [p])
      else prio_list k d i.
Proof.
  intros Hwf Hc Hoff Hpr Hm Hroom. unfold enqueue_task_rt.
  set (k0 := if has_flag flags ENQUEUE_WAKEUP then _ else _).
  assert (Hk0 : keeps k k0) by (unfold k0, upd_rt_se; keeps_back).
  pose proof (proj2 Hk0 p) as E. unfold tv in E. injection E as Ep Ec Eo.
  assert (Hroom0 : room k0 c).
  { pose proof (proj1 Hk0 c) as Ev. unfold view, view_of in Ev. injection Ev as _ En _ _ _ Et.
    unfold room. by rewrite En, Et. }
  destruct (enqueue_entity_ok p flags k0) as (k1 & f & Hk1 & Hwf1 & Ha & Har & Hld);
    rewrite ?Ec, ?Ep, ?Eo, ?Hc in *; try done; [by eapply keeps_wf|].
  rewrite Hk1. cbn. eexists. split; [done|].
  match goal with |- rt_wf ?x /\ _ => set (k2 := x) end.
  assert (Hk2 : keeps k1 k2) by (unfold k2; keeps_back).
  split; [by eapply keeps_wf|]. split; [|split].
  { intros q. rewrite (proj2 Hk2), (proj2 Ha), !(proj2 Hk0). done. }
  { intros d. rewrite (proj1 Hk2), (proj1 Ha), !(proj1 Hk0) in *. case_decide; [by subst d|lia]. }
  intros d i. rewrite (keeps_lists _ _ Hk2).
  rewrite (acts_lists _ _ _ _ _ _ Ha), Har, array_add_queue.
  change (queue (v_array (view k0 c)) i) with (prio_list k0 c i). rewrite !(keeps_lists _ _ Hk0).
  unfold place, list_add, list_add_tail.
  destruct (decide (c = d)) as [<-|]; [|by rewrite decide_False by naive_solver].
  destruct (decide (prio (tasks k p) = i)) as [<-|]; [|by rewrite decide_False by naive_solver].
  rewrite decide_True by done. by case_match.
Qed.

(** [dequeue_task_rt] likewise. *)
Lemma dequeue_task_rt_ok c p flags k :
  rt_wf k -> task_cpu (tasks k p) = c -> on_rt_rq k p = true ->
  move_entity flags = true -> room k c ->
  exists k', dequeue_task_rt c p flags k = Some k' /\ rt_wf k' /\ (forall q, tv k' q = if decide (p = q) then t_on false (tv k p) else tv k q) /\
    (forall d, load (view k' d) <= load (view k d) + 3) /\
    forall d i, prio_list k' d i =
      if decide (c = d /\ i = prio (tasks k p)) then list_del p (prio_list k d i) else prio_list k d i.
Proof.
  intros Hwf Hc Hon Hm Hroom. unfold dequeue_task_rt.
  destruct (update_curr_charged c k Hwf) as (k0 & E0 & Hk0). rewrite E0. cbn.
  pose proof (ch_tv _ _ Hk0 p) as E. unfold tv in E. injection E as Ep Ec Eo.
  destruct (dequeue_entity_ok p flags k0) as (k1 & f & Hk1 & Hwf1 & Ha & Har & Hld);
    rewrite ?Ec, ?Ep, ?Eo, ?Hc in *; try done; [apply Hk0|by eapply charged_room|].
  rewrite Hk1. cbn. eexists. split; [done|].
  match goal with |- rt_wf ?x /\ _ => set (k2 := x) end.
  assert (Hk2 : keeps k1 k2) by (unfold k2; keeps_back).
  split; [by eapply keeps_wf|]. split; [|split].
  { intros q. rewrite (proj2 Hk2), (proj2 Ha), !(ch_tv _ _ Hk0). done. }
  { intros d. rewrite (proj1 Hk2), (proj1 Ha).
    assert (Hle : forall e, load (view k0 e) <= load (view k e)).
    { intros e. unfold load. rewrite (ch_nr _ _ Hk0). pose proof (ch_total _ _ Hk0 e). lia. }
    case_decide; [subst d|pose proof (Hle d); lia]. pose proof (Hle c). lia. }
  intros d i. rewrite (keeps_lists _ _ Hk2).
  assert (Hin : p ∈ queue (v_array (view k0 c)) (prio (tasks k p))).
  { pose proof (aw_all _ _ _ (vw_array _ _ _ (ch_wf _ _ Hk0 c)) p) as Hq.
    unfold tv in Hq. cbn [tv_on tv_cpu tv_prio] in Hq. rewrite Eo, Ec, Ep in Hq. auto. }
  rewrite (acts_lists _ _ _ _ _ _ Ha), Har,
    (array_remove_queue c (tv k0) _ _ _ (vw_array _ _ _ (ch_wf _ _ Hk0 c)) Hin).
  change (queue (v_array (view k0 c)) i) with (prio_list k0 c i). rewrite !(charged_lists _ _ Hk0).
  destruct (decide (c = d)) as [<-|]; [|by rewrite decide_False by naive_solver].
  destruct (decide (prio (tasks k p) = i)) as [<-|]; [|by rewrite decide_False by naive_solver].
  by rewrite decide_True by done.
Qed.

(** [enqueue_task_rt] (rt.c) of a task that is not queued, into
    well-formed queues: the [BUG_ON] of [dequeue_top_rt_rq] does not fire, the
    task is put at the head of the list of its priority when [ENQUEUE_HEAD] is
    given and at its tail otherwise, no other list of any CPU changes, and
    bitmap, counts and highest priority agree again. *)
Theorem enqueue_task_rt_correct c p flags k :
  rt_wf k -> task_cpu (tasks k p) = c -> on_rt_rq k p = false ->
  0 <= prio (tasks k p) < MAX_RT_PRIO -> move_entity flags = true -> room k c ->
  exists k', enqueue_task_rt c p flags k = Some k' /\ rt_wf k' /\ on_rt_rq k' p = true /\
    forall d i, prio_list k' d i =
      if decide (c = d /\ i = prio (tasks k p)) then
        (if has_flag flags ENQUEUE_HEAD then p :: prio_list k d i else prio_list k d i ++ [p])
      else prio_list k d i.
Proof.
  intros Hwf Hc Hoff Hpr Hm Hroom.
  destruct (enqueue_task_rt_ok c p flags k Hwf Hc Hoff Hpr Hm Hroom) as (k' & E & Hw & Ht & _ & Hl).
  exists k'. split_and!; try done. change (tv_on (tv k' p) = true). by rewrite Ht, decide_True.
Qed.

(** [dequeue_task_rt] (rt.c) of a queued task from well-formed queues:
    no [BUG_ON] fires (neither in charging the running task nor in leaving the
    run queue), the task leaves the list of its priority, the order of the
    others and every other list is kept, and bitmap, counts and highest
    priority agree again. *)
Theorem dequeue_task_rt_correct c p flags k :
  rt_wf k -> task_cpu (tasks k p) = c -> on_rt_rq k p = true ->
  move_entity flags = true -> room k c ->
  exists k', dequeue_task_rt c p flags k = Some k' /\ rt_wf k' /\ on_rt_rq k' p = false /\
    forall d i, prio_list k' d i =
      if decide (c = d /\ i = prio (tasks k p)) then list_del p (prio_list k d i) else prio_list k d i.
Proof.
  intros Hwf Hc Hon Hm Hroom.
  destruct (dequeue_task_rt_ok c p flags k Hwf Hc Hon Hm Hroom) as (k' & E & Hw & Ht & _ & Hl).
  exists k'. split_and!; try done. change (tv_on (tv k' p) = false). by rewrite Ht, decide_True.
Qed.

(** [_pick_next_task_rt] on a queue that is not empty. *)
Lemma pick_highest c k :
  rt_wf k -> 0 < rt_nr_running (rt_of k c) ->
  exists k' p, _pick_next_task_rt c k = Some (k', p) /\
    head (prio_list k c (prio (tasks k p))) = Some p /\
    task_cpu (tasks k p) = c /\ on_rt_rq k p = true /\
    prio (tasks k p) = highest_prio_curr (rt_of k c) /\
    exec_start (se (tasks k' p)) = rq_clock_task k c /\
    forall q, task_cpu (tasks k q) = c -> on_rt_rq k q = true -> prio (tasks k p) <= prio (tasks k q).
Proof.
  intros Hwf Ht. destruct (Hwf c) as [Ha Hn Hh _ _ _]. change (0 < v_nr (view k c)) in Ht.
  destruct (ffb_spec _ (aw_end _ _ _ Ha)) as (Hr & Hs & Hmin).
  unfold _pick_next_task_rt, pick_next_rt_entity.
  change (active (rt_of k c)) with (v_array (view k c)). set (i := sched_find_first_bit _) in *.
  assert (Hlow : forall q, task_cpu (tasks k q) = c -> on_rt_rq k q = true -> i <= prio (tasks k q) < MAX_RT_PRIO).
  { intros q Hc Hon. pose proof (aw_all _ _ _ Ha q Hon Hc) as Hin. cbn [tv_prio tv] in Hin.
    destruct (aw_mem _ _ _ Ha _ _ Hin) as [Hrg _]. split; [|lia].
    destruct (decide (i <= prio (tasks k q))) as [|Hlt]; [done|].
    assert (Z.testbit (bitmap (v_array (view k c))) (prio (tasks k q)) = false) as Hf by (apply Hmin; lia).
    assert (Z.testbit (bitmap (v_array (view k c))) (prio (tasks k q)) = true); [|congruence].
    apply (aw_bit _ _ _ Ha); [done|]. intros E. rewrite E in Hin. by apply elem_of_nil in Hin. }
  assert (Hi : i < MAX_RT_PRIO).
  { destruct (decide (i < MAX_RT_PRIO)) as [|Hge]; [done|]. exfalso.
    assert (Hz : nr_queued (v_array (view k c)) = 0); [|rewrite Hz in Hn; lia].
    apply sum_of_zero. intros j Hj%elem_of_seqZ. unfold queue_len.
    destruct (queue (v_array (view k c)) j) as [|q l] eqn:E; [done|exfalso].
    destruct (aw_mem _ _ _ Ha j q) as [_ Eq]; [rewrite E; set_solver|].
    unfold tv in Eq. injection Eq as E1 E2 E3. pose proof (Hlow q E2 E3). lia. }
  destruct (Z.leb_spec MAX_RT_PRIO i); [lia|].
  destruct (queue (v_array (view k c)) i) as [|p l] eqn:E.
  { apply (aw_bit _ _ _ Ha) in Hs; [done|lia]. }
  destruct (aw_mem _ _ _ Ha i p) as [_ Eq]; [rewrite E; set_solver|].
  unfold tv in Eq. injection Eq as E1 E2 E3.
  eexists _, p. cbn. split_and!; try done.
  - unfold prio_list. change (active (rt_of k c)) with (v_array (view k c)). by rewrite E1, E.
  - by rewrite E1.
  - by rewrite tasks_upd_task, decide_True.
  - intros q Hc Hon. rewrite E1. by apply Hlow.
Qed.

(** ** Requeueing *)

Lemma array_perm c T a a' :
  bitmap a' = bitmap a -> (forall i, queue a' i ≡ₚ queue a i) -> array_wf c T a ->
  array_wf c T a' /\ nr_queued a' = nr_queued a.
Proof.
  intros Hb Hq [Hbit ? Hm ? Ha]. split.
  - split; try (by rewrite Hb).
    + intros i Hi. rewrite Hb, (Hbit i Hi). pose proof (Hq i) as Hp.
      split; intros Hne E; apply Hne; rewrite E in Hp;
        [by apply Permutation_nil_l in Hp|by apply Permutation_nil_r in Hp].
    + intros i p. rewrite Hq. auto.
    + intros i. by rewrite Hq.
    + intros p. rewrite Hq. auto.
  - apply sum_of_ext. intros i _. unfold queue_len. by rewrite Hq.
Qed.

(** The list [requeue_rt_entity] leaves. *)
Definition requeued (head : bool) (p : Z) (l : list Z) : list Z :=
  if head then p :: list_del p l else list_del p l ++ [p].

Lemma requeue_lists p head k :
  on_rt_rq k p = true -> rt_wf k ->
  let k' := requeue_task_rt p head k in
  rt_wf k' /\
  forall d i, prio_list k' d i =
    if decide (task_cpu (tasks k p) = d /\ i = prio (tasks k p))
    then requeued head p (prio_list k d i) else prio_list k d i.
Proof.
  intros Hon Hwf. unfold requeue_task_rt, requeue_rt_entity. rewrite Hon.
  set (c := task_cpu (tasks k p)). set (pr := prio (tasks k p)). set (F := fun a : rt_prio_array => _).
  destruct (Hwf c) as [Ha Hn Hh Ht Hi Hr].
  assert (Hin : p ∈ queue (v_array (view k c)) pr) by (by apply (aw_all _ _ _ Ha p)).
  assert (HF : forall i, queue (F (v_array (view k c))) i =
    if decide (pr = i) then requeued head p (queue (v_array (view k c)) i) else queue (v_array (view k c)) i).
  { intros i. unfold F, array_del; cbn. case_decide as Hd.
    - rewrite Hd, fn_lookup_alter. by destruct head.
    - rewrite fn_lookup_alter_ne by done. apply list_del_notin. intros Hq.
      destruct (aw_mem _ _ _ Ha _ _ Hq) as [_ E1]. destruct (aw_mem _ _ _ Ha _ _ Hin) as [_ E2]. congruence. }
  pose proof (acts_upd_array c p F k) as A.
  assert (Hperm : array_wf c (tv k) (F (v_array (view k c))) /\
    nr_queued (F (v_array (view k c))) = nr_queued (v_array (view k c))).
  { apply array_perm; [done| |done]. intros i. rewrite HF. case_decide as Hd; [|done]. subst i.
    rewrite (list_del_Permutation p (queue (v_array (view k c)) pr)) at 2 by (done || apply Ha).
    unfold requeued. destruct head; [done|]. symmetry. apply Permutation_cons_append. }
  destruct Hperm as [HwfF HnF].
  split.
  - intros d. rewrite (proj1 A). case_decide; [subst d|apply Hwf].
    split; try done. cbn in *. congruence.
  - intros d i. rewrite (acts_lists _ _ _ _ _ _ A). cbn [v_array upd]. rewrite HF.
    destruct (decide (c = d)) as [<-|]; [|by rewrite decide_False by naive_solver].
    destruct (decide (pr = i)) as [<-|]; [|by rewrite decide_False by naive_solver].
    by rewrite decide_True by done.
Qed.

(** [yield_task_rt] (rt.c): the running task goes to the end of the list
    of its priority, the tasks behind it keep their order and move up by one,
    every other list is unchanged and the queues stay well formed. *)
Theorem yield_task_rt_rotates c k l :
  let p := curr (rqs k c) in
  rt_wf k -> on_rt_rq k p = true -> task_cpu (tasks k p) = c ->
  prio_list k c (prio (tasks k p)) = p :: l ->
  rt_wf (yield_task_rt c k) /\
  forall d i, prio_list (yield_task_rt c k) d i =
    if decide (c = d /\ i = prio (tasks k p)) then l ++ [p] else prio_list k d i.
Proof.
  intros p Hwf Hon Hc Hl. destruct (requeue_lists p false k Hon Hwf) as [Hw Hq]. split; [done|].
  intros d i. unfold yield_task_rt. fold p. rewrite Hq, Hc. case_decide as Hd; [|done].
  destruct Hd as [<- ->]. rewrite Hl. unfold requeued. rewrite list_del_head; [done|].
  pose proof (aw_nodup _ _ _ (vw_array _ _ _ (Hwf c)) (prio (tasks k p))) as Hnd.
  change (queue (v_array (view k c)) (prio (tasks k p))) with (prio_list k c (prio (tasks k p))) in Hnd.
  rewrite Hl in Hnd. by apply NoDup_cons in Hnd as [? _].
Qed.

(** ** Saving and restoring a task's place *)

Lemma v_eta (v w : qview) :
  v_array v = v_array w -> v_nr v = v_nr w -> v_high v = v_high w -> v_queued v = v_queued w ->
  v_throttled v = v_throttled w -> v_total v = v_total w -> v = w.
Proof. destruct v, w; cbn. by intros -> -> -> -> -> ->. Qed.

Lemma top_in_out v :
  v_queued v = false -> 0 <= v_nr v -> 0 <= v_total v -> v_total v + v_nr v < 2 ^ 32 ->
  v_top_out (v_top_in v) = v.
Proof.
  intros Hq Hn Ht Hlt. unfold v_top_in. rewrite Hq. case_match; [unfold v_top_out; by rewrite Hq|].
  unfold v_top_out. cbn. apply v_eta; cbn; try done.
  rewrite u32_sub_l. replace (_ - _) with (v_total v) by lia. apply u32_id. lia.
Qed.

(** A task that is only taken off the count and put back. *)
Lemma dec_inc c T p pr v :
  mid_wf c T v -> T p = mkTv pr c true -> v_nr v < 2 ^ 32 -> v_inc pr (v_dec pr v) = v.
Proof.
  intros [Ha Hn Hh Ho Hr] HT Hlt.
  assert (Hp : p ∈ queue (v_array v) pr).
  { pose proof (aw_all _ _ _ Ha p) as Hq. rewrite HT in Hq. by apply Hq. }
  destruct (aw_mem _ _ _ Ha _ _ Hp) as [Hpr _].
  destruct (ffb_spec _ (aw_end _ _ _ Ha)) as (Hfr & Hs & Hmin). rewrite <-Hh in *.
  assert (Hle : v_high v <= pr).
  { destruct (decide (v_high v <= pr)); [done|]. exfalso.
    assert (Z.testbit (bitmap (v_array v)) pr = true) as E; [|rewrite Hmin in E; [done|lia]].
    apply (aw_bit _ _ _ Ha); [done|]. intros E. rewrite E in Hp. by apply elem_of_nil in Hp. }
  assert (H1 : 1 <= queue_len (v_array v) pr).
  { unfold queue_len. destruct (queue (v_array v) pr); [by apply elem_of_nil in Hp|simpl; lia]. }
  pose proof (nr_queued_le (v_array v) pr Hpr).
  unfold v_dec. cbn [v_nr upd v_high]. rewrite u32_id by lia.
  destruct (Z.eqb_spec (v_nr v - 1) 0) as [Hz|Hz]; cbn [negb].
  - assert (Hpe : v_high v = pr).
    { destruct (decide (v_high v = pr)) as [|Hne]; [done|exfalso].
      pose proof (array_remove_nr c T p pr Hpr _ Ha Hp) as Hnr.
      pose proof (nr_queued_le (array_remove p pr (v_array v)) (v_high v) ltac:(lia)) as Hl.
      unfold queue_len in Hl. rewrite (array_remove_queue c T) in Hl by done.
      rewrite decide_False in Hl by done. apply (aw_bit _ _ _ Ha) in Hs; [|lia].
      destruct (queue (v_array v) (v_high v)); [done|]. simpl in Hl. lia. }
    unfold v_inc. cbn. destruct (Z.ltb_spec pr MAX_RT_PRIO); [|lia].
    apply v_eta; cbn; try done. rewrite u32_id; lia.
  - assert (E : (if pr =? v_high v then v <| v_nr := v_nr v - 1 |> <| v_high := sched_find_first_bit (bitmap (v_array v)) |>
             else v <| v_nr := v_nr v - 1 |>) = v <| v_nr := v_nr v - 1 |>).
    { case_match; [|done]. apply v_eta; cbn; done. }
    cbn in *. rewrite E. unfold v_inc. cbn. destruct (Z.ltb_spec pr (v_high v)); [lia|].
    apply v_eta; cbn; try done. rewrite u32_id; lia.
Qed.

Lemma dec_frame pr v :
  v_array (v_dec pr v) = v_array v /\ v_nr (v_dec pr v) = u32 (v_nr v - 1) /\
  v_queued (v_dec pr v) = v_queued v /\ v_total (v_dec pr v) = v_total v.
Proof. unfold v_dec. by repeat case_match. Qed.

Lemma dequeue_top_some' c k :
  (v_queued (view k c) = true -> v_total (view k c) <> 0) -> exists k', dequeue_top_rt_rq c k = Some k'.
Proof.
  cbn. intros H. unfold dequeue_top_rt_rq. destruct (rt_queued (rt_of k c)); [|by eexists].
  destruct (Z.eqb_spec (nr_running (rqs k c)) 0); [by destruct H|by eexists].
Qed.

Lemma queued_pos p k :
  rt_wf k -> on_rt_rq k p = true -> 1 <= v_nr (view k (task_cpu (tasks k p))).
Proof.
  intros Hwf Hon. set (c := task_cpu (tasks k p)). rewrite (vw_nr _ _ _ (Hwf c)).
  pose proof (aw_all _ _ _ (vw_array _ _ _ (Hwf c)) p Hon eq_refl) as Hin. cbn [tv_prio tv] in Hin.
  destruct (aw_mem _ _ _ (vw_array _ _ _ (Hwf c)) _ _ Hin) as [Hpr _].
  pose proof (nr_queued_le (v_array (view k c)) _ Hpr). unfold queue_len in *.
  destruct (queue (v_array (view k c)) _); [by apply elem_of_nil in Hin|]. simpl in *. lia.
Qed.

Lemma save_acts p sv k :
  let c := task_cpu (tasks k p) in let pr := prio (tasks k p) in
  rt_wf k -> on_rt_rq k p = true -> move_entity sv = false ->
  exists k1, dequeue_rt_entity p sv k = Some k1 /\
    acts c p (v_top_in ∘ v_dec pr ∘ v_top_out) (t_on false) k k1.
Proof.
  intros c pr Hwf Hon Hsv. unfold dequeue_rt_entity, dequeue_rt_stack. fold c.
  destruct (dequeue_top_some c k Hwf) as (ka & Hka). rewrite Hka. cbn.
  pose proof (acts_top_out c p k ka Hka) as A1.
  pose proof (acts_tv_eq _ _ _ _ _ _ A1) as E1. unfold tv in E1. injection E1 as Ep Ec Eo.
  rewrite Eo, Hon. eexists. split; [done|].
  pose proof (acts_dequeue_entity p sv ka) as A2. cbv zeta in A2. rewrite Ec, Ep in A2. fold c pr in A2.
  eapply acts_ext; [exact (acts_trans _ _ _ _ _ _ _ _ _ (acts_seq _ _ _ _ _ _ _ _ A1 A2) (acts_top_in c p _))| |done].
  unfold compose, v_unlink. by rewrite Hsv.
Qed.

Lemma restore_acts p rs k :
  let c := task_cpu (tasks k p) in let pr := prio (tasks k p) in
  (v_queued (view k c) = true -> v_total (view k c) <> 0) ->
  on_rt_rq k p = false -> move_entity rs = false ->
  exists k1, enqueue_rt_entity p rs k = Some k1 /\
    acts c p (v_top_in ∘ v_inc pr ∘ v_top_out) (t_on true) k k1.
Proof.
  intros c pr Hq Hoff Hrs. unfold enqueue_rt_entity, dequeue_rt_stack. fold c.
  destruct (dequeue_top_some' c k Hq) as (ka & Hka). rewrite Hka. cbn.
  pose proof (acts_top_out c p k ka Hka) as A1.
  pose proof (acts_tv_eq _ _ _ _ _ _ A1) as E1. unfold tv in E1. injection E1 as Ep Ec Eo.
  rewrite Eo, Hoff. eexists. split; [done|].
  pose proof (acts_enqueue_entity p rs ka) as A2. cbv zeta in A2. rewrite Ec, Ep in A2. fold c pr in A2.
  eapply acts_ext; [exact (acts_trans _ _ _ _ _ _ _ _ _ (acts_seq _ _ _ _ _ _ _ _ A1 A2) (acts_top_in c p _))| |done].
  unfold compose, v_link. by rewrite Hrs.
Qed.

(** The queue between the two halves can be taken off the count again. *)
Lemma top_in_total v :
  v_queued v = false -> 0 <= v_nr v -> 0 <= v_total v -> v_total v + v_nr v < 2 ^ 32 ->
  v_queued (v_top_in v) = true -> v_total (v_top_in v) <> 0.
Proof.
  intros Hq Hn Ht Hlt. unfold v_top_in. rewrite Hq. case_match eqn:E; [congruence|].
  apply orb_false_elim in E as [_ E]. zbool. cbn. intros _. rewrite u32_id; lia.
Qed.

(** A queued task that is dequeued with [DEQUEUE_SAVE] and enqueued again
    with [ENQUEUE_RESTORE] (neither with the move flag, as core.c does when it
    changes a task's affinity or group) keeps its place: no [BUG_ON] fires, the
    lists are what they were, and the counts, the highest priority and the run
    queue's count are restored. *)
Theorem save_restore_keeps_place p sv rs k :
  let c := task_cpu (tasks k p) in
  rt_wf k -> on_rt_rq k p = true -> room k c -> move_entity sv = false -> move_entity rs = false ->
  exists k1 k2, dequeue_rt_entity p sv k = Some k1 /\ on_rt_rq k1 p = false /\
    enqueue_rt_entity p rs k1 = Some k2 /\ on_rt_rq k2 p = true /\ rt_wf k2 /\
    (forall d i, prio_list k2 d i = prio_list k d i) /\
    rt_nr_running (rt_of k2 c) = rt_nr_running (rt_of k c) /\
    highest_prio_curr (rt_of k2 c) = highest_prio_curr (rt_of k c).
Proof.
  intros c Hwf Hon Hroom Hsv Hrs. set (pr := prio (tasks k p)).
  destruct (save_acts p sv k Hwf Hon Hsv) as (k1 & Hk1 & A1). fold c pr in A1.
  destruct (top_out_wf _ _ _ (Hwf c)) as (Hmid & Ht & Har & Hnr & Hth).
  pose proof (top_out_room k c Hwf Hroom) as Hrm. pose proof (mw_range _ _ _ Hmid) as H0.
  pose proof (queued_pos p k Hwf Hon) as Hpos. fold c in Hpos.
  assert (Hback : v_inc pr (v_dec pr (v_top_out (view k c))) = v_top_out (view k c)).
  { apply (dec_inc c (tv k) p); [done|unfold tv; by rewrite Hon|lia]. }
  destruct (dec_frame pr (v_top_out (view k c))) as (D1 & D2 & D3 & D4).
  set (v2 := v_dec pr (v_top_out (view k c))) in *. rewrite Hnr, u32_id in D2 by lia.
  rewrite (mw_out _ _ _ Hmid) in D3.
  pose proof (acts_view_eq _ _ _ _ _ _ A1) as Hv1. unfold compose in Hv1. fold v2 in Hv1.
  pose proof (acts_tv_eq _ _ _ _ _ _ A1) as E1. unfold tv, t_on in E1. cbn in E1. injection E1 as Ep Ec Eo.
  destruct (restore_acts p rs k1) as (k2 & Hk2 & A2); try done.
  { rewrite Ec. fold c. rewrite Hv1. apply top_in_total; lia || done. }
  rewrite Ec, Ep in A2. fold c pr in A2.
  pose proof (acts_trans _ _ _ _ _ _ _ _ _ A1 A2) as A.
  assert (Hfin : (v_top_in ∘ v_inc pr ∘ v_top_out ∘ (v_top_in ∘ v_dec pr ∘ v_top_out)) (view k c)
                 = v_top_in (v_top_out (view k c))).
  { unfold compose. fold v2. by rewrite top_in_out, Hback by (done || lia). }
  destruct (top_in_wf _ _ _ Hmid) as [Hwfv Hav]; [lia|].
  assert (Htv : forall q, tv k2 q = tv k q).
  { intros q. rewrite (proj2 A). case_decide; [subst q|done]. unfold compose, t_on, tv. cbn. by rewrite Hon. }
  exists k1, k2. split_and!; try done.
  - by rewrite <-Hon; apply (f_equal tv_on (Htv p)).
  - eapply acts_wf; [done|exact A|done|done|]. rewrite Hfin.
    destruct Hwfv as [? ? ? ? ? ?]. split; try done. by eapply array_wf_ext.
  - intros d i. rewrite (acts_lists _ _ _ _ _ _ A), Hfin, Hav, Har. by case_decide; subst.
  - change (v_nr (view k2 c) = v_nr (view k c)).
    rewrite (acts_view_eq _ _ _ _ _ _ A), Hfin, (vw_nr _ _ _ Hwfv), Hav, Har. by rewrite (vw_nr _ _ _ (Hwf c)).
  - change (v_high (view k2 c) = v_high (view k c)).
    rewrite (acts_view_eq _ _ _ _ _ _ A), Hfin, (vw_high _ _ _ Hwfv), Hav, Har. by rewrite (vw_high _ _ _ (Hwf c)).
Qed.

(** ** Examples: the empty machine, then with tasks 1 and 2 queued *)

Lemma rt_demo_wf : rt_wf rt_demo.
Proof.
  intros c. split; cbn; try done.
  - split; cbn; try done; [|intros; set_solver|intros; constructor].
    intros i Hi. split; [|done]. intros Hb. exfalso.
    change (Z.testbit (2 ^ 100) i = true) in Hb. rewrite Z.pow2_bits_eqb in Hb by lia.
    unfold MAX_RT_PRIO in Hi. apply Z.eqb_eq in Hb. lia.
  - intros _. by right.
Qed.

Definition rt_two : kernel :=
  default rt_demo (k ← enqueue_rt_entity 1 0 rt_demo; enqueue_rt_entity 2 0 k).

Lemma rt_two_wf : rt_wf rt_two.
Proof.
  destruct (enqueue_entity_ok 1 0 rt_demo) as (k1 & f1 & E1 & W1 & A1 & _);
    [apply rt_demo_wf|done..|].
  pose proof (proj2 A1 2) as T2. rewrite decide_False in T2 by lia. unfold tv in T2. injection T2 as Tp Tc To.
  destruct (enqueue_entity_ok 2 0 k1) as (k2 & f2 & E2 & W2 & _).
  - done.
  - by rewrite To.
  - by rewrite Tp.
  - done.
  - rewrite Tc. assert (k1 = default rt_demo (enqueue_rt_entity 1 0 rt_demo)) as -> by (by rewrite E1).
    vm_compute. reflexivity.
  - unfold rt_two. rewrite E1. cbn. by rewrite E2.
Qed.

Lemma enqueue_task_rt_correct_witness : exists k',
  enqueue_task_rt 0 3 ENQUEUE_HEAD rt_two = Some k' /\ rt_wf k' /\ prio_list k' 0 50 = [3; 1; 2].
Proof.
  destruct (enqueue_task_rt_correct 0 3 ENQUEUE_HEAD rt_two) as (k' & E & W & _ & H).
  - exact rt_two_wf.
  - vm_compute. reflexivity.
  - vm_compute. reflexivity.
  - vm_compute. split; [discriminate|reflexivity].
  - vm_compute. reflexivity.
  - vm_compute. reflexivity.
  - exists k'. split; [exact E|]. split; [exact W|]. rewrite H. vm_compute. reflexivity.
Defined.

Lemma dequeue_task_rt_correct_witness : exists k',
  dequeue_task_rt 0 1 DEQUEUE_SLEEP rt_two = Some k' /\ rt_wf k' /\ prio_list k' 0 50 = [2].
Proof.
  destruct (dequeue_task_rt_correct 0 1 DEQUEUE_SLEEP rt_two) as (k' & E & W & _ & H).
  - exact rt_two_wf.
  - vm_compute. reflexivity.
  - vm_compute. reflexivity.
  - vm_compute. reflexivity.
  - vm_compute. reflexivity.
  - exists k'. split; [exact E|]. split; [exact W|]. rewrite H. vm_compute. reflexivity.
Defined.

(** Task 1 is running on CPU 0 and yields. *)
Definition rt_two_running : kernel := upd_rq 0 (fun r => r <| curr := 1 |>) rt_two.

Lemma keeps_upd_curr c p k : keeps k (upd_rq c (fun r => r <| curr := p |>) k).
Proof. by apply keeps_upd_rq. Qed.

Lemma yield_task_rt_rotates_witness : prio_list (yield_task_rt 0 rt_two_running) 0 50 = [2; 1].
Proof.
  destruct (yield_task_rt_rotates 0 rt_two_running [2]) as [_ H].
  - exact (keeps_wf _ _ (keeps_upd_curr 0 1 rt_two) rt_two_wf).
  - vm_compute. reflexivity.
  - vm_compute. reflexivity.
  - vm_compute. reflexivity.
  - rewrite H. vm_compute. reflexivity.
Defined.

Lemma save_restore_keeps_place_witness : exists k1 k2,
  dequeue_rt_entity 1 DEQUEUE_SAVE rt_two = Some k1 /\ enqueue_rt_entity 1 ENQUEUE_RESTORE k1 = Some k2 /\
  prio_list k2 0 50 = [1; 2].
Proof.
  destruct (save_restore_keeps_place 1 DEQUEUE_SAVE ENQUEUE_RESTORE rt_two)
    as (k1 & k2 & E1 & _ & E2 & _ & _ & H & _).
  - exact rt_two_wf.
  - vm_compute. reflexivity.
  - vm_compute. reflexivity.
  - vm_compute. reflexivity.
  - vm_compute. reflexivity.
  - exists k1, k2. split; [exact E1|]. split; [exact E2|]. rewrite H. vm_compute. reflexivity.
Defined.
