(* ===== verification/RtPush.v ===== *)
(** * Balancing and the other operations of the real-time class (rt.c)

    Real-time tasks that wait behind a task of higher priority are pushed to a
    CPU that runs something less important, or pulled by a CPU whose priority
    drops.  This file models the choice of the target CPU, pushing, pulling,
    the chain of interrupts that tells overloaded CPUs to push, the full
    [pick_next_task_rt], and the tick, priority-change and CPU-hotplug
    operations of the class.

    What rt.c gets from code that is not in the repository is the class
    [RtEnv]: the index of CPU priorities (cpupri.c), the scheduling domains,
    whether the lock of a run queue is free, and what other CPUs do to the
    state while [double_lock_balance] waits for one.  The operations of the other classes are [QueueOps].
    [None] is a failed [BUG_ON], or a push loop cut short by its fuel. *)

From S2P Require Import Prelude SchedTypes Core RtBandwidth RtQueue.

Class RtEnv := {
  (** [cpupri_find (&rq->rd->cpupri, p, mask)]: the CPUs that run the least
      important work and may run [p], [None] when there are none. *)
  cpupri_find : kernel -> Z -> option (gset Z);
  (** The domains of a CPU from the smallest: span and [SD_WAKE_AFFINE]. *)
  sched_domains : Z -> list (gset Z * bool);
  (** Whether [local_cpu_mask] is allocated. *)
  local_cpu_mask : bool;
  (** Whether CONFIG_PREEMPT is set. *)
  CONFIG_PREEMPT : bool;
  (** [raw_spin_trylock (&rq->lock)] of a CPU's run queue. *)
  raw_spin_trylock : Z -> kernel -> bool;
  (** The address of a CPU's run queue. *)
  rq_addr : Z -> Z;
  (** What other CPUs do while this one waits for a lock and holds those of the
      given run queues. *)
  meanwhile : gset Z -> kernel -> kernel }.

Definition SD_BALANCE_FORK : Z := 8.
Definition SD_BALANCE_WAKE : Z := 16.
Definition CPUPRI_INVALID : Z := -1.
Definition RT_MAX_TRIES : nat := 3.

(** ** Taking a second lock

    sched.h: the state once both locks are held, and whether the first was
    dropped on the way.  Interrupts are off, so its [BUG_ON] does not fire. *)
Definition _double_lock_balance `{RtEnv} (this_rq busiest : Z) (k : kernel) : kernel * bool :=
  if CONFIG_PREEMPT then (meanwhile ∅ k, true)
  else if raw_spin_trylock busiest k then (k, false)
  else if rq_addr busiest <? rq_addr this_rq then (meanwhile ∅ k, true)
  else (meanwhile {[this_rq]} k, false).

Definition double_lock_balance `{RtEnv} (this_rq busiest : Z) (k : kernel) : kernel * bool :=
  _double_lock_balance this_rq busiest k.

(** ** Calls into the classes *)

Section Dispatch.
Context `{QueueOps}.

(** [deactivate_task (rq, p, 0)] and [activate_task (rq, p, 0)] of core.c, with
    the dispatch to this class written out. *)
Definition deactivate_task_rt (c p : Z) (k : kernel) : option kernel :=
  if bool_decide (class_of (tasks k p) = rt_sched_class) then
    let k := if task_contributes_to_load (tasks k p)
             then upd_rq c (fun r => r <| nr_uninterruptible ::= fun n => u64 (n + 1) |>) k else k in
    dequeue_task_rt c p 0 (call (sched_info_dequeued c p) (update_rq_clock c k))
  else Some (deactivate_task c p 0 k).

Definition activate_task_rt (c p : Z) (k : kernel) : option kernel :=
  if bool_decide (class_of (tasks k p) = rt_sched_class) then
    let k := if task_contributes_to_load (tasks k p)
             then upd_rq c (fun r => r <| nr_uninterruptible ::= fun n => u64 (n - 1) |>) k else k in
    enqueue_task_rt c p 0 (call (sched_info_queued c p) (update_rq_clock c k))
  else Some (activate_task c p 0 k).

(** [put_prev_task] of sched.h. *)
Definition put_prev_task_any (c p : Z) (k : kernel) : option kernel :=
  if bool_decide (class_of (tasks k p) = rt_sched_class) then put_prev_task_rt c p k
  else Some (put_prev_task c p k).
End Dispatch.

Section Push.
Context `{RtEnv} `{QueueOps}.

(** ** Choosing a CPU *)

(** The walk of [for_each_domain] in [find_lowest_rq]; [this_cpu] is -1 when it
    is not among the lowest. *)
Fixpoint domain_walk (k : kernel) (this_cpu : Z) (lowest_mask : gset Z)
    (domains : list (gset Z * bool)) : option Z :=
  match domains with
  | [] => None
  | (sd_span, wake_affine) :: domains =>
      if wake_affine : bool then
        if negb (this_cpu =? -1) && bool_decide (this_cpu ∈ sd_span) then Some this_cpu
        else
          match head (for_each_cpu k (lowest_mask ∩ sd_span)) with
          | Some best_cpu => Some best_cpu
          | None => domain_walk k this_cpu lowest_mask domains
          end
      else domain_walk k this_cpu lowest_mask domains
  end.

Definition find_lowest_rq (k : kernel) (p : Z) : Z :=
  let cpu := task_cpu (tasks k p) in
  if negb local_cpu_mask then -1
  else if nr_cpus_allowed (tasks k p) =? 1 then -1
  else
    match cpupri_find k p with
    | None => -1
    | Some lowest_mask =>
        if bool_decide (cpu ∈ lowest_mask) then cpu
        else
          let this_cpu := if bool_decide (this_cpu k ∈ lowest_mask) then this_cpu k else -1 in
          match domain_walk k this_cpu lowest_mask (sched_domains cpu) with
          | Some c => c
          | None =>
              if negb (this_cpu =? -1) then this_cpu
              else default (-1) (head (for_each_cpu k lowest_mask))
          end
    end.

Definition select_task_rq_rt (k : kernel) (p cpu sd_flag flags : Z) : Z :=
  if negb (sd_flag =? SD_BALANCE_WAKE) && negb (sd_flag =? SD_BALANCE_FORK) then cpu
  else
    let cur := tasks k (curr (rqs k cpu)) in
    if rt_task cur && ((nr_cpus_allowed cur <? 2) || (prio cur <=? prio (tasks k p))) then
      let target := find_lowest_rq k p in
      if negb (target =? -1) && (prio (tasks k p) <? highest_prio_curr (rt_of k target))
      then target else cpu
    else cpu.

(** The loop of [find_lock_lowest_rq]. *)
Fixpoint lock_lowest (tries : nat) (p c : Z) (k : kernel) : kernel * option Z :=
  match tries with
  | O => (k, None)
  | S tries =>
      let cpu := find_lowest_rq k p in
      if (cpu =? -1) || (cpu =? rq_cpu (rqs k c)) then (k, None)
      else if highest_prio_curr (rt_of k cpu) <=? prio (tasks k p) then (k, None)
      else
        let '(k, dropped) := double_lock_balance c cpu k in
        if dropped && (negb (task_cpu (tasks k p) =? c) ||
                       negb (bool_decide (rq_cpu (rqs k cpu) ∈ cpus_allowed (tasks k p))) ||
                       task_running k p || negb (rt_task (tasks k p)) ||
                       negb (task_on_rq_queued k p)) then (k, None)
        else if prio (tasks k p) <? highest_prio_curr (rt_of k cpu) then (k, Some cpu)
        else lock_lowest tries p c k
  end.

Definition find_lock_lowest_rq (p c : Z) (k : kernel) : kernel * option Z :=
  lock_lowest RT_MAX_TRIES p c k.

(** ** Pushing *)

Definition pick_rt_task (k : kernel) (p cpu : Z) : bool :=
  negb (task_running k p) && bool_decide (cpu ∈ cpus_allowed (tasks k p)).

Definition pick_highest_pushable_task (k : kernel) (c cpu : Z) : option Z :=
  if negb (has_pushable_tasks k c) then None
  else head (filter (fun p => pick_rt_task k p cpu = true) (snd <$> pushable_tasks (rt_of k c))).

(** The outer [None] is a failed [BUG_ON], the inner one NULL. *)
Definition pick_next_pushable_task (k : kernel) (c : Z) : option (option Z) :=
  match pushable_tasks (rt_of k c) with
  | [] => Some None
  | (_, p) :: _ =>
      if negb (rq_cpu (rqs k c) =? task_cpu (tasks k p)) then None
      else if task_current k c p then None
      else if nr_cpus_allowed (tasks k p) <=? 1 then None
      else if negb (task_on_rq_queued k p) then None
      else if negb (rt_task (tasks k p)) then None
      else Some (Some p)
  end.

(** [push_rt_task] from its label [retry]. *)
Fixpoint push_retry (fuel : nat) (next_task c : Z) (k : kernel) : option (kernel * bool) :=
  match fuel with
  | O => None
  | S fuel =>
      if next_task =? curr (rqs k c) then Some (k, false)
      else if prio (tasks k next_task) <? prio (tasks k (curr (rqs k c)))
      then Some (resched_curr c k, false)
      else
        let '(k, lowest) := find_lock_lowest_rq next_task c k in
        match lowest with
        | None =>
            task ← pick_next_pushable_task k c;
            match task with
            | None => Some (k, false)
            | Some task => if task =? next_task then Some (k, false) else push_retry fuel task c k
            end
        | Some d =>
            k ← deactivate_task_rt c next_task k;
            let k := set_task_cpu next_task (rq_cpu (rqs k d)) k in
            k ← activate_task_rt d next_task k;
            Some (resched_curr d k, true)
        end
  end.

Definition push_rt_task (fuel : nat) (c : Z) (k : kernel) : option (kernel * bool) :=
  if negb (overloaded (rt_of k c)) then Some (k, false)
  else
    next_task ← pick_next_pushable_task k c;
    match next_task with
    | None => Some (k, false)
    | Some next_task => push_retry fuel next_task c k
    end.

Fixpoint push_rt_tasks (fuel : nat) (c : Z) (k : kernel) : option kernel :=
  match fuel with
  | O => None
  | S fuel' =>
      '(k, pushed) ← push_rt_task fuel c k;
      if pushed : bool then push_rt_tasks fuel' c k else Some k
  end.
End Push.

(** ** Telling the overloaded CPUs to push *)

(** [cpumask_next (n, mask)], [nr_cpu_ids] when there is none. *)
Definition cpumask_next (k : kernel) (n : Z) (mask : gset Z) : Z :=
  default (nr_cpu_ids k) (head (filter (fun i => n < i) (for_each_cpu k mask))).

(** The loop of [rto_next_cpu], at most [fuel] times. *)
Fixpoint rto_scan (fuel : nat) (k : kernel) : kernel * Z :=
  match fuel with
  | O => (k, -1)
  | S fuel =>
      let cpu := cpumask_next k (rto_cpu (rd k)) (rto_mask (rd k)) in
      let k := k <| rd ::= fun d => d <| rto_cpu := cpu |> |> in
      if cpu <? nr_cpu_ids k then (k, cpu)
      else
        let k := k <| rd ::= fun d => d <| rto_cpu := -1 |> |> in
        let next := rto_loop_next (rd k) in
        if rto_loop (rd k) =? next then (k, -1)
        else rto_scan fuel (k <| rd ::= fun d => d <| rto_loop := next |> |>)
  end.

(** The second round starts with [rto_loop] up to date, so that it is the last. *)
Definition rto_next_cpu (k : kernel) : kernel * Z := rto_scan 2 k.

Definition rto_start_trylock (k : kernel) : kernel * bool :=
  if rto_loop_start (rd k) =? 0 then (k <| rd ::= fun d => d <| rto_loop_start := 1 |> |>, true)
  else (k, false).
Definition rto_start_unlock (k : kernel) : kernel :=
  k <| rd ::= fun d => d <| rto_loop_start := 0 |> |>.

Definition tell_cpu_to_push (k : kernel) : kernel :=
  let k := k <| rd ::= fun d => d <| rto_loop_next ::= fun n => s32 (n + 1) |> |> in
  let '(k, started) := rto_start_trylock k in
  if negb started then k
  else
    let '(k, cpu) := if rto_cpu (rd k) <? 0 then rto_next_cpu k else (k, -1) in
    let k := rto_start_unlock k in
    if 0 <=? cpu then call (irq_work_queue_on cpu) k else k.

(** ** Pulling and picking *)

Section Pull.
Context `{RtEnv} `{QueueOps}.

Definition rto_push_irq_work_func (fuel : nat) (k : kernel) : option kernel :=
  let c := this_cpu k in
  k ← (if has_pushable_tasks k c then push_rt_tasks fuel c k else Some k);
  let '(k, cpu) := rto_next_cpu k in
  Some (if cpu <? 0 then k else call (irq_work_queue_on cpu) k).

(** One CPU of the loop of [pull_rt_task]; the state and [resched]. *)
Definition pull_from (c : Z) (acc : kernel * bool) (cpu : Z) : option (kernel * bool) :=
  let '(k, resched) := acc in
  if rq_cpu (rqs k c) =? cpu then Some (k, resched)
  else if highest_prio_curr (rt_of k c) <=? highest_prio_next (rt_of k cpu) then Some (k, resched)
  else
    let k := fst (double_lock_balance c cpu k) in
    match pick_highest_pushable_task k cpu (rq_cpu (rqs k c)) with
    | Some p =>
        if prio (tasks k p) <? highest_prio_curr (rt_of k c) then
          if prio (tasks k p) <? prio (tasks k (curr (rqs k cpu))) then Some (k, resched)
          else
            k ← deactivate_task_rt cpu p k;
            k ← activate_task_rt c p (set_task_cpu p (rq_cpu (rqs k c)) k);
            Some (k, true)
        else Some (k, resched)
    | None => Some (k, resched)
    end.

Fixpoint pull_loop (c : Z) (cpus : list Z) (acc : kernel * bool) : option (kernel * bool) :=
  match cpus with
  | [] => Some acc
  | cpu :: cpus => acc ← pull_from c acc cpu; pull_loop c cpus acc
  end.

Definition pull_rt_task (c : Z) (k : kernel) : option kernel :=
  let rt_overload_count := rt_overloaded k in
  if rt_overload_count =? 0 then Some k
  else if (rt_overload_count =? 1) && bool_decide (rq_cpu (rqs k c) ∈ rto_mask (rd k)) then Some k
  else if feat_RT_PUSH_IPI k then Some (tell_cpu_to_push k)
  else
    '(k, resched) ← pull_loop c (for_each_cpu k (rto_mask (rd k))) (k, false);
    Some (if resched : bool then resched_curr c k else k).

Definition pick_next_task_rt (c prev : Z) (k : kernel) : option (kernel * picked) :=
  let need_pull := need_pull_rt_task k c prev in
  k ← (if need_pull then pull_rt_task c k else Some k);
  if need_pull &&
     (match stop (rqs k c) with Some s => task_on_rq_queued k s | None => false end ||
      negb (dl_nr_running (rqs k c) =? 0)) then Some (k, RETRY_TASK)
  else
    k ← (if bool_decide (class_of (tasks k prev) = rt_sched_class) then update_curr_rt c k else Some k);
    if negb (rt_queued (rt_of k c)) then Some (k, NULL_TASK)
    else
      k ← put_prev_task_any c prev k;
      '(k, p) ← _pick_next_task_rt c k;
      let k := dequeue_pushable_task c p k in
      Some (queue_push_tasks c k, TASK p).

(** ** Waking, switching classes and changing priority *)

Definition task_woken_rt (fuel : nat) (c p : Z) (k : kernel) : option kernel :=
  let cur := tasks k (curr (rqs k c)) in
  if negb (task_running k p) && negb (need_resched cur) && (1 <? nr_cpus_allowed (tasks k p)) &&
     (dl_task cur || rt_task cur) &&
     ((nr_cpus_allowed cur <? 2) || (prio cur <=? prio (tasks k p)))
  then push_rt_tasks fuel c k else Some k.

Definition check_preempt_equal_prio (c p : Z) (k : kernel) : kernel :=
  let cur := curr (rqs k c) in
  if (nr_cpus_allowed (tasks k cur) =? 1) || bool_decide (cpupri_find k cur = None) then k
  else if negb (nr_cpus_allowed (tasks k p) =? 1) && negb (bool_decide (cpupri_find k p = None)) then k
  else resched_curr c (requeue_task_rt p true k).

Definition check_preempt_curr_rt (c p flags : Z) (k : kernel) : kernel :=
  let cur := curr (rqs k c) in
  if prio (tasks k p) <? prio (tasks k cur) then resched_curr c k
  else if (prio (tasks k p) =? prio (tasks k cur)) && negb (need_resched (tasks k cur))
  then check_preempt_equal_prio c p k else k.
End Pull.

Definition switched_from_rt (c p : Z) (k : kernel) : kernel :=
  if negb (task_on_rq_queued k p) || negb (rt_nr_running (rt_of k c) =? 0) then k
  else queue_pull_task c k.

Definition switched_to_rt (c p : Z) (k : kernel) : kernel :=
  if task_on_rq_queued k p && negb (curr (rqs k c) =? p) then
    let k := if (1 <? nr_cpus_allowed (tasks k p)) && overloaded (rt_of k c)
             then queue_push_tasks c k else k in
    if (prio (tasks k p) <? prio (tasks k (curr (rqs k c)))) &&
       bool_decide (rq_cpu (rqs k c) ∈ cpu_online_mask k)
    then resched_curr c k else k
  else k.

Definition prio_changed_rt (c p oldprio : Z) (k : kernel) : kernel :=
  if negb (task_on_rq_queued k p) then k
  else if curr (rqs k c) =? p then
    let k := if oldprio <? prio (tasks k p) then queue_pull_task c k else k in
    if highest_prio_curr (rt_of k c) <? prio (tasks k p) then resched_curr c k else k
  else if prio (tasks k p) <? prio (tasks k (curr (rqs k c))) then resched_curr c k
  else k.

(** ** CPUs coming and going *)

Definition rq_online_rt (running : bool) (c : Z) (k : kernel) : kernel :=
  let k := if overloaded (rt_of k c) then rt_set_overload c k else k in
  let k := __enable_runtime running c k in
  call (cpupri_set (rq_cpu (rqs k c)) (highest_prio_curr (rt_of k c))) k.

Definition rq_offline_rt (running : bool) (c : Z) (k : kernel) : option kernel :=
  let k := if overloaded (rt_of k c) then rt_clear_overload c k else k in
  k ← __disable_runtime running c k;
  Some (call (cpupri_set (rq_cpu (rqs k c)) CPUPRI_INVALID) k).

(** ** The tick *)

Section Tick.
Variable HZ : Z.

Definition watchdog_rt (p : Z) (k : kernel) : kernel :=
  let soft := rlim_rttime_cur (tasks k p) in
  let hard := rlim_rttime_max (tasks k p) in
  if negb (soft =? RLIM_INFINITY) then
    let k := if negb (watchdog_stamp (rt_se (tasks k p)) =? jiffies k)
             then upd_rt_se p (fun s => s <| rt_timeout ::= fun t => u64 (t + 1) |>
                                           <| watchdog_stamp := jiffies k |>) k else k in
    let next := DIV_ROUND_UP (Z.min soft hard) (USEC_PER_SEC / HZ) in
    if next <? rt_timeout (rt_se (tasks k p))
    then upd_task p (fun t => t <| sched_exp := sum_exec_runtime (se t) |>) k else k
  else k.

(** [run_list.prev != run_list.next]: the node is linked and not alone. *)
Definition not_alone_rt (k : kernel) (p : Z) : bool :=
  let l := prio_list k (task_cpu (tasks k p)) (prio (tasks k p)) in
  bool_decide (p ∈ l) && (2 <=? Z.of_nat (length l)).

Definition task_tick_rt (c p queued : Z) (k : kernel) : option kernel :=
  k ← update_curr_rt c k;
  let k := watchdog_rt p k in
  if negb (policy (tasks k p) =? SCHED_RR) then Some k
  else
    let k := upd_rt_se p (fun s => s <| rt_time_slice ::= fun n => u32 (n - 1) |>) k in
    if negb (rt_time_slice (rt_se (tasks k p)) =? 0) then Some k
    else
      let k := upd_rt_se p (fun s => s <| rt_time_slice := u32 (sched_rr_timeslice k) |>) k in
      if not_alone_rt k p then Some (resched_curr c (requeue_task_rt p false k)) else Some k.
End Tick.

Definition get_rr_interval_rt (k : kernel) (p : Z) : Z :=
  if policy (tasks k p) =? SCHED_RR then u32 (sched_rr_timeslice k) else 0.

(** ** Choosing a target CPU *)

Lemma head_for_each_cpu k m c : head (for_each_cpu k m) = Some c -> c ∈ m.
Proof. intros Hh%head_Some_elem_of. by apply list_elem_of_filter in Hh as [? _]. Qed.

Lemma domain_walk_in k t m ds c :
  (t <> -1 -> t ∈ m) -> domain_walk k t m ds = Some c -> c ∈ m.
Proof.
  intros Ht. induction ds as [|[s w] ds IH]; [done|]. cbn. destruct w; [|done].
  destruct (Z.eqb_spec t (-1)) as [|Hne]; cbn.
  - case_match eqn:E; [|done]. intros [= <-]. apply head_for_each_cpu in E. set_solver.
  - case_bool_decide; [intros [= <-]; auto|].
    case_match eqn:E; [|done]. intros [= <-]. apply head_for_each_cpu in E. set_solver.
Qed.

Lemma find_lowest_in `{RtEnv} k p :
  find_lowest_rq k p <> -1 -> exists mask, cpupri_find k p = Some mask /\ find_lowest_rq k p ∈ mask.
Proof.
  unfold find_lowest_rq. destruct (negb _); [done|]. destruct (_ =? 1); [done|].
  destruct (cpupri_find k p) as [mask|]; [|done]. intros Hne. exists mask. split; [done|]. revert Hne.
  case_bool_decide; [done|]. set (t := if bool_decide _ then _ else _).
  assert (Ht : t <> -1 -> t ∈ mask) by (unfold t; by case_bool_decide).
  destruct (domain_walk k t mask _) as [c|] eqn:E; [by apply domain_walk_in in E|].
  destruct (Z.eqb_spec t (-1)); cbn; [|auto].
  destruct (head (for_each_cpu k mask)) as [c|] eqn:Eh; [|done]. intros _. by apply head_for_each_cpu in Eh.
Qed.

(** What [find_lock_lowest_rq] checks again after it dropped a lock. *)
Definition still_pushable (p c : Z) (k : kernel) : Prop :=
  task_cpu (tasks k p) = c /\ task_running k p = false /\
  rt_task (tasks k p) = true /\ task_on_rq_queued k p = true.

(** What rt.c relies on: cpupri.c only answers with CPUs the task may use, run
    queues keep their CPU, and the lock of a run queue protects the tasks that
    are queued on it. *)
Class RtEnvLaws `{RtEnv} : Prop := {
  cpupri_allowed k p mask : cpupri_find k p = Some mask -> mask ⊆ cpus_allowed (tasks k p);
  meanwhile_rq_cpu l k e : rq_cpu (rqs (meanwhile l k) e) = rq_cpu (rqs k e);
  meanwhile_held l k p : task_cpu (tasks k p) ∈ l -> task_on_rq_queued k p = true ->
    cpus_allowed (tasks (meanwhile l k) p) = cpus_allowed (tasks k p) /\
    (still_pushable p (task_cpu (tasks k p)) k -> still_pushable p (task_cpu (tasks k p)) (meanwhile l k)) }.

(** Where taking the second lock leaves the state. *)
Lemma double_lock_cases `{RtEnv} c d k :
  double_lock_balance c d k = (meanwhile ∅ k, true) \/ double_lock_balance c d k = (k, false) \/
  double_lock_balance c d k = (meanwhile {[c]} k, false).
Proof. unfold double_lock_balance, _double_lock_balance. repeat case_match; auto. Qed.

Lemma lock_lowest_spec `{RtEnvLaws} n p c : forall k k' d,
  (forall e, rq_cpu (rqs k e) = e) -> still_pushable p c k ->
  lock_lowest n p c k = (k', Some d) ->
  d <> c /\ d ∈ cpus_allowed (tasks k' p) /\ prio (tasks k' p) < highest_prio_curr (rt_of k' d) /\
  still_pushable p c k'.
Proof.
  induction n as [|n IH]; intros k k' d Hcpu Hst; [done|]. cbn [lock_lowest].
  pose proof (find_lowest_in k p) as Hin. set (e := find_lowest_rq k p) in *. rewrite Hcpu.
  destruct (Z.eqb_spec e (-1)) as [|H1]; [done|]. destruct (Z.eqb_spec e c) as [|H2]; [done|]. cbn [orb].
  destruct (_ <=? _); [done|].
  assert (Hk : exists k1 dropped, double_lock_balance c e k = (k1, dropped) /\
    (forall x, rq_cpu (rqs k1 x) = x) /\
    (dropped = false -> e ∈ cpus_allowed (tasks k1 p) /\ still_pushable p c k1)).
  { assert (Hal : e ∈ cpus_allowed (tasks k p)) by (destruct (Hin H1) as (m & Hm & He); by apply (cpupri_allowed k p m)).
    destruct (double_lock_cases c e k) as [->|[->| ->]]; eexists _, _; (split; [done|]).
    - split; [|done]. intros x. by rewrite meanwhile_rq_cpu.
    - done.
    - split; [intros x; by rewrite meanwhile_rq_cpu|]. intros _. pose proof Hst as (<- & _ & _ & Hq).
      destruct (meanwhile_held {[task_cpu (tasks k p)]} k p) as [-> Hs]; [set_solver|done|]. split; [done|by apply Hs]. }
  destruct Hk as (k1 & dropped & -> & Hcpu1 & Hal). rewrite Hcpu1.
  assert (Hnext : e ∈ cpus_allowed (tasks k1 p) -> still_pushable p c k1 ->
    (if prio (tasks k1 p) <? highest_prio_curr (rt_of k1 e) then (k1, Some e) else lock_lowest n p c k1) = (k', Some d) ->
    d <> c /\ d ∈ cpus_allowed (tasks k' p) /\ prio (tasks k' p) < highest_prio_curr (rt_of k' d) /\ still_pushable p c k').
  { intros Ha Hs. destruct (Z.ltb_spec (prio (tasks k1 p)) (highest_prio_curr (rt_of k1 e))) as [Hlt|].
    - intros [= <- <-]. by split_and!; auto.
    - apply IH; auto. }
  destruct dropped; cbn [andb].
  - destruct (_ || _) eqn:E; [done|]. rewrite !orb_false_iff, !negb_false_iff in E.
    destruct E as [[[[E1 E2] E3] E4] E5]. apply Z.eqb_eq in E1. apply bool_decide_eq_true in E2.
    apply Hnext; [done|by repeat split].
  - destruct (Hal eq_refl). by apply Hnext.
Qed.

(** The CPU [find_lock_lowest_rq] (rt.c) answers with for a task that waits in
    its run queue, whatever the other CPUs did while locks were dropped: it is
    not the task's own, the task may run on it, the highest priority queued on
    it is lower than the task's, and the task is still a queued real-time task
    of its run queue that is not running, all in the state in which both locks
    are held. *)
Theorem push_target_suitable `{RtEnvLaws} p c k k' d :
  (forall e, rq_cpu (rqs k e) = e) -> still_pushable p c k ->
  find_lock_lowest_rq p c k = (k', Some d) ->
  d <> c /\ d ∈ cpus_allowed (tasks k' p) /\
  prio (tasks k' p) < highest_prio_curr (rt_of k' d) /\ still_pushable p c k'.
Proof. intros Hcpu Hs. by apply lock_lowest_spec. Qed.

(** An index that answers with the CPUs the task may use other than its own,
    one domain, and locks that are dropped each time; meanwhile CPU 1 is told
    to reschedule. *)
Definition demo_env : RtEnv :=
  {| cpupri_find k p := Some (cpus_allowed (tasks k p) ∖ {[task_cpu (tasks k p)]});
     sched_domains c := [({[0; 1]}, true)]; local_cpu_mask := true;
     CONFIG_PREEMPT := true; raw_spin_trylock _ _ := false; rq_addr c := c;
     meanwhile _ k := resched_curr 1 k |}.

Lemma resched_tasks c k p :
  let t := tasks (resched_curr c k) p in
  task_cpu t = task_cpu (tasks k p) /\ on_cpu t = on_cpu (tasks k p) /\ prio t = prio (tasks k p) /\
  on_rq t = on_rq (tasks k p) /\ cpus_allowed t = cpus_allowed (tasks k p).
Proof.
  unfold resched_curr, set_nr_and_not_polling, set_tsk_need_resched. cbv zeta.
  assert (Hu : forall f, (forall t, task_cpu (f t) = task_cpu t /\ on_cpu (f t) = on_cpu t /\ prio (f t) = prio t /\
      on_rq (f t) = on_rq t /\ cpus_allowed (f t) = cpus_allowed t) -> forall q,
    let t := tasks (upd_task q f k) p in
    task_cpu t = task_cpu (tasks k p) /\ on_cpu t = on_cpu (tasks k p) /\ prio t = prio (tasks k p) /\
    on_rq t = on_rq (tasks k p) /\ cpus_allowed t = cpus_allowed (tasks k p)).
  { intros f Hf q. cbv zeta. rewrite tasks_upd_task. destruct (decide _) as [->|]; [apply Hf|done]. }
  destruct (need_resched _); [done|]. destruct (_ =? _); [by apply Hu|]. destruct (negb _); by apply Hu.
Qed.

Lemma demo_env_laws : @RtEnvLaws demo_env.
Proof.
  split; cbn.
  - intros k p m [= <-]. set_solver.
  - intros l k e. unfold resched_curr, set_nr_and_not_polling, set_tsk_need_resched. cbv zeta.
    destruct (need_resched _); [done|]. destruct (_ =? _); [done|]. by destruct (negb _).
  - intros l k p _ _. destruct (resched_tasks 1 k p) as (E1 & E2 & E3 & E4 & E5). split; [done|].
    intros (_ & S2 & S3 & S4). unfold still_pushable, task_running, rt_task, task_on_rq_queued in *.
    by rewrite E1, E2, E3, E4.
Qed.

Lemma push_target_suitable_witness :
  (@find_lock_lowest_rq demo_env 2 0 rt_demo).2 = Some 1 /\
  let k := (@find_lock_lowest_rq demo_env 2 0 rt_demo).1 in prio (tasks k 2) < highest_prio_curr (rt_of k 1).
Proof.
  assert (E : (@find_lock_lowest_rq demo_env 2 0 rt_demo).2 = Some 1) by (vm_compute; reflexivity).
  split; [exact E|]. destruct (@find_lock_lowest_rq demo_env 2 0 rt_demo) as [k r] eqn:Ef. cbn in E. subst r.
  refine (proj1 (proj2 (proj2 (@push_target_suitable demo_env demo_env_laws 2 0 rt_demo k 1 _ _ Ef)))).
  - intros e. reflexivity.
  - by repeat split.
Defined.

(** With nothing queued in the class, and no pull needed, it offers no task to
    a task of another class and changes nothing: what [pick_next_task] relies on
    when it skips the class. *)
Lemma pick_next_task_rt_declines `{RtEnv} `{QueueOps} c prev k :
  rt_queued (rt_of k c) = false -> class_of (tasks k prev) <> rt_sched_class ->
  highest_prio_curr (rt_of k c) <= prio (tasks k prev) ->
  pick_next_task_rt c prev k = Some (k, NULL_TASK).
Proof.
  intros Hq Hc Hp. unfold pick_next_task_rt, need_pull_rt_task.
  rewrite (proj2 (Z.ltb_ge _ _) Hp). cbn. rewrite bool_decide_false by done. cbn. by rewrite Hq.
Qed.

(** ** The interrupt chain *)

Lemma elem_of_for_each_cpu k m i : i ∈ for_each_cpu k m <-> i ∈ m /\ 0 <= i < nr_cpu_ids k.
Proof. unfold for_each_cpu. rewrite list_elem_of_filter, elem_of_seqZ. naive_solver lia. Qed.

Lemma cpumask_next_spec k n m :
  let c := cpumask_next k n m in
  if c <? nr_cpu_ids k then c ∈ m /\ 0 <= c /\ n < c
  else forall i, i ∈ m -> 0 <= i < nr_cpu_ids k -> i <= n.
Proof.
  unfold cpumask_next. destruct (head _) as [c|] eqn:E; cbn.
  - apply head_Some_elem_of, list_elem_of_filter in E as [Hn [Hm Hr]%elem_of_for_each_cpu].
    destruct (Z.ltb_spec c (nr_cpu_ids k)); [tauto|lia].
  - rewrite Z.ltb_irrefl. intros i Hi Hr. destruct (decide (i <= n)); [done|exfalso].
    assert (Hin : i ∈ filter (fun i => n < i) (for_each_cpu k m)).
    { apply list_elem_of_filter. split; [lia|]. by apply elem_of_for_each_cpu. }
    destruct (filter _ _); [set_solver|done].
Qed.

(** One more round of the loop. *)
Lemma rto_scan_step n k :
  let c := cpumask_next k (rto_cpu (rd k)) (rto_mask (rd k)) in
  rto_scan (S n) k =
    if c <? nr_cpu_ids k then (k <| rd ::= fun d => d <| rto_cpu := c |> |>, c)
    else if rto_loop (rd k) =? rto_loop_next (rd k) then (k <| rd ::= fun d => d <| rto_cpu := -1 |> |>, -1)
    else rto_scan n (k <| rd ::= fun d => d <| rto_cpu := -1 |> <| rto_loop := rto_loop_next (rd k) |> |>).
Proof. done. Qed.

(** [rto_next_cpu] (rt.c) ends after at most two rounds (more fuel
    changes nothing).  When it answers with a CPU, that CPU is in the mask of
    overloaded CPUs and becomes the new position; when it answers with -1 the
    position is reset, every request up to [rto_loop_next] has been taken and
    no overloaded CPU lies behind the old position; and a new request while
    some CPU is overloaded always finds one. *)
Theorem rto_next_cpu_scans k :
  let k' := fst (rto_next_cpu k) in let cpu := snd (rto_next_cpu k) in
  (forall n, rto_scan (S (S n)) k = rto_next_cpu k) /\
  (cpu = -1 \/ cpu ∈ rto_mask (rd k) /\ 0 <= cpu < nr_cpu_ids k) /\
  rto_cpu (rd k') = cpu /\
  (cpu = -1 -> rto_loop (rd k') = rto_loop_next (rd k') /\
     forall i, i ∈ rto_mask (rd k) -> 0 <= i < nr_cpu_ids k -> i <= rto_cpu (rd k)) /\
  (rto_loop (rd k) <> rto_loop_next (rd k) ->
     (exists i, i ∈ rto_mask (rd k) /\ 0 <= i < nr_cpu_ids k) -> cpu <> -1).
Proof.
  unfold rto_next_cpu. cbv zeta. rewrite (rto_scan_step 1).
  pose proof (cpumask_next_spec k (rto_cpu (rd k)) (rto_mask (rd k))) as H1. cbv zeta in H1.
  set (c := cpumask_next k (rto_cpu (rd k)) (rto_mask (rd k))) in *.
  assert (Hn : forall n, rto_scan (S (S n)) k = rto_scan 2 k).
  { intros n. rewrite !(rto_scan_step _ k). fold c. repeat case_match; try done.
    rewrite !rto_scan_step. cbn. rewrite Z.eqb_refl. by case_match. }
  rewrite (rto_scan_step 1) in Hn. fold c in Hn.
  destruct (Z.ltb_spec c (nr_cpu_ids k)).
  { cbn. split_and!; try done; [right; tauto|lia|lia]. }
  destruct (Z.eqb_spec (rto_loop (rd k)) (rto_loop_next (rd k))) as [He|Hne].
  { cbn. split_and!; try done. by left. }
  rewrite (rto_scan_step 0) in *. cbn [rd upd rto_cpu rto_mask rto_loop rto_loop_next] in *.
  rewrite Z.eqb_refl in *.
  pose proof (cpumask_next_spec k (-1) (rto_mask (rd k))) as H2. cbv zeta in H2.
  change (cpumask_next _ (-1) (rto_mask (rd k))) with (cpumask_next k (-1) (rto_mask (rd k))) in *.
  cbn [nr_cpu_ids upd] in *.
  set (e := cpumask_next k (-1) (rto_mask (rd k))) in *.
  destruct (Z.ltb_spec e (nr_cpu_ids k)); cbn.
  - split_and!; try done; [right; tauto|lia..].
  - split_and!; try done; [by left|].
    intros _ (i & Hi & Hr). specialize (H2 i Hi Hr). lia.
Qed.

(** ** Picking the next task *)

Lemma keeps_rto_scan n : forall k, keeps k (fst (rto_scan n k)).
Proof.
  induction n as [|n IH]; intros k; [done|]. rewrite rto_scan_step. repeat case_match; try done.
  etransitivity; [|apply IH]. done.
Qed.

Lemma keeps_tell k : keeps k (tell_cpu_to_push k).
Proof.
  unfold tell_cpu_to_push, rto_start_trylock. destruct (_ =? 0); cbn [negb]; [|done].
  destruct (_ <? 0); [|done].
  match goal with |- context [rto_next_cpu ?x] => pose proof (keeps_rto_scan 2 x) as Hs; set (k1 := x) in * end.
  unfold rto_next_cpu. destruct (rto_scan 2 k1) as [k2 cpu]. cbn [fst] in Hs.
  transitivity k1; [done|]. transitivity k2; [done|]. by case_match.
Qed.

Lemma pull_keeps `{RtEnv} `{QueueOps} c k :
  feat_RT_PUSH_IPI k = true -> exists k', pull_rt_task c k = Some k' /\ keeps k k'.
Proof.
  intros Hf. unfold pull_rt_task. rewrite Hf. repeat case_match; eexists; (split; [done|]);
    [done|done|apply keeps_tell].
Qed.

Lemma put_prev_charged `{QueueOps} c p k :
  (forall cls c p k, keeps k (op_put_prev_task cls c p k)) -> rt_wf k ->
  exists k', put_prev_task_any c p k = Some k' /\ charged k k'.
Proof.
  intros Hops Hwf. unfold put_prev_task_any. case_bool_decide.
  - unfold put_prev_task_rt. destruct (update_curr_charged c k Hwf) as (k1 & E & Hc). rewrite E. cbn.
    eexists. split; [done|]. eapply charged_trans; [done|]. apply keeps_charged; [apply Hc|keeps_back].
  - eexists. split; [done|]. by apply keeps_charged, Hops.
Qed.

Lemma dequeue_pushable_gone c p k : p ∉ map snd (pushable_tasks (rt_of (dequeue_pushable_task c p k) c)).
Proof.
  assert (E : pushable_tasks (rt_of (dequeue_pushable_task c p k) c) = plist_del p (pushable_tasks (rt_of k c))).
  { unfold dequeue_pushable_task. cbv zeta. case_match eqn:E; [|case_match]; by rewrite !upd_rt_eq. }
  rewrite E. intros ((i & q) & -> & Hq)%list_elem_of_fmap. by apply list_elem_of_filter in Hq as [? _].
Qed.

(** The state in which the class picks: lists and tasks are those of [k]. *)
Lemma pushable_queue_push c d k :
  pushable_tasks (rt_of (queue_push_tasks c k) d) = pushable_tasks (rt_of k d).
Proof.
  unfold queue_push_tasks, queue_balance_callback, rt_of. cases; [done|].
  ksimpl. by case_decide; subst.
Qed.

Lemma pick_prepared `{RtEnv} `{QueueOps} c prev k (need_pull : bool) :
  rt_wf k -> feat_RT_PUSH_IPI k = true ->
  exists k1, (if need_pull then pull_rt_task c k else Some k) = Some k1 /\ rt_wf k1 /\
    exists k2, (if bool_decide (class_of (tasks k1 prev) = rt_sched_class) then update_curr_rt c k1 else Some k1)
               = Some k2 /\ charged k k1 /\ charged k k2.
Proof.
  intros Hwf Hf. assert (Hp : exists k1, (if need_pull then pull_rt_task c k else Some k) = Some k1 /\ keeps k k1).
  { destruct need_pull; [by apply pull_keeps|by exists k]. }
  destruct Hp as (k1 & E1 & K1). pose proof (keeps_wf _ _ K1 Hwf) as W1.
  pose proof (keeps_charged _ _ Hwf K1) as C1. exists k1. split; [done|]. split; [done|].
  case_bool_decide; [|by exists k1]. destruct (update_curr_charged c k1 W1) as (k2 & E2 & C2).
  exists k2. split_and!; try done. by eapply charged_trans.
Qed.

(** [pick_next_task_rt] (rt.c), with the default [RT_PUSH_IPI] feature:
    no [BUG_ON] fires, no run list changes and the queues stay well formed.
    The answer is to retry only after a pull, nothing only when the queue is
    not counted in the run queue (empty or throttled), and otherwise a task
    that is the first of its list, queued on this CPU, of the highest queued
    priority, and no longer eligible for pushing. *)
Theorem pick_next_task_rt_correct `{RtEnv} `{QueueOps} c prev k :
  (forall cls c p k, keeps k (op_put_prev_task cls c p k)) ->
  rt_wf k -> feat_RT_PUSH_IPI k = true ->
  exists k' r, pick_next_task_rt c prev k = Some (k', r) /\ rt_wf k' /\
    (forall d i, prio_list k' d i = prio_list k d i) /\
    match r with
    | RETRY_TASK => need_pull_rt_task k c prev = true
    | NULL_TASK => rt_queued (rt_of k' c) = false
    | TASK p =>
        head (prio_list k c (prio (tasks k p))) = Some p /\ task_cpu (tasks k p) = c /\
        on_rt_rq k p = true /\ (p ∉ map snd (pushable_tasks (rt_of k' c))) /\
        forall q, task_cpu (tasks k q) = c -> on_rt_rq k q = true -> prio (tasks k p) <= prio (tasks k q)
    end.
Proof.
  intros Hops Hwf Hf. unfold pick_next_task_rt.
  destruct (pick_prepared c prev k (need_pull_rt_task k c prev) Hwf Hf) as (k1 & E1 & W1 & k2 & E2 & C1 & C2).
  rewrite E1. cbn -[andb orb]. destruct (need_pull_rt_task k c prev && _) eqn:Hr.
  { apply andb_prop in Hr as [Hr _]. eexists k1, RETRY_TASK. split_and!; try done. by apply charged_lists. }
  rewrite E2. cbn. destruct (rt_queued (rt_of k2 c)) eqn:Hq; cbn.
  2: { eexists k2, NULL_TASK. split_and!; try done; [apply C2|by apply charged_lists]. }
  destruct (put_prev_charged c prev k2 Hops (ch_wf _ _ C2)) as (k3 & E3 & C3).
  rewrite E3. cbn. pose proof (charged_trans _ _ _ C2 C3) as C.
  assert (Hn : 0 < rt_nr_running (rt_of k3 c)).
  { change (0 < v_nr (view k3 c)). rewrite (ch_nr _ _ C3). by apply (vw_top _ _ _ (ch_wf _ _ C2 c) Hq). }
  destruct (pick_highest c k3 (ch_wf _ _ C3) Hn) as (k4 & p & E4 & Hh & Hc & Ho & _ & _ & Hmin).
  rewrite E4. cbn.
  assert (K4 : keeps k3 k4).
  { unfold _pick_next_task_rt in E4. destruct (pick_next_rt_entity k3 c); [|done]. cbn in E4.
    injection E4 as <- <-. by apply keeps_upd_task. }
  set (k5 := queue_push_tasks c (dequeue_pushable_task c p k4)).
  assert (K5 : keeps k3 k5) by (unfold k5; etransitivity; [exact K4|]; keeps_back).
  assert (Htv : forall q, prio (tasks k3 q) = prio (tasks k q) /\ task_cpu (tasks k3 q) = task_cpu (tasks k q) /\
                          on_rt_rq k3 q = on_rt_rq k q).
  { intros q. pose proof (ch_tv _ _ C q) as E. unfold tv in E. by injection E. }
  exists k5, (TASK p). split_and!; try done.
  - exact (keeps_wf _ _ K5 (ch_wf _ _ C3)).
  - intros d i. rewrite (keeps_lists _ _ K5). by apply charged_lists.
  - by rewrite <-(charged_lists _ _ C), <-(proj1 (Htv p)).
  - by rewrite <-(proj1 (proj2 (Htv p))).
  - by rewrite <-(proj2 (proj2 (Htv p))).
  - unfold k5. rewrite pushable_queue_push. apply dequeue_pushable_gone.
  - intros q Hqc Hqo. rewrite <-(proj1 (Htv p)), <-(proj1 (Htv q)).
    apply Hmin; [by rewrite (proj1 (proj2 (Htv q)))|by rewrite (proj2 (proj2 (Htv q)))].
Qed.

(** Other classes that leave the queues alone. *)
Definition demo_ops : QueueOps :=
  {| op_enqueue_task cls c p f k := k; op_dequeue_task cls c p f k := k;
     op_check_preempt_curr cls c p f k := k; op_put_prev_task cls c p k := k;
     op_set_curr_task cls c k := k; op_migrate_task_rq cls := None;
     op_set_cpus_allowed cls p m k := k |}.

Lemma pick_next_task_rt_correct_witness : exists k' r,
  @pick_next_task_rt demo_env demo_ops 0 0 rt_two = Some (k', r) /\ rt_wf k'.
Proof.
  destruct (@pick_next_task_rt_correct demo_env demo_ops 0 0 rt_two) as (k' & r & E & W & _).
  - intros cls c p k. reflexivity.
  - exact rt_two_wf.
  - vm_compute. reflexivity.
  - exists k', r. split; [exact E|exact W].
Defined.
