(* ===== verification/RtPushTasks.v ===== *)
(** * Pushing until nothing can be pushed (rt.c)

    [push_rt_tasks] calls [push_rt_task] until it moves nothing.  While it takes
    the lock of a second run queue other CPUs act, and with CONFIG_PREEMPT its
    own lock is dropped each time.  Shown here, as long as they queue no further
    pushable task on the CPU and keep the queues in order themselves
    ([PushPeers]): none of the [BUG_ON]s on the way fires, the loop ends after at
    most as many rounds as there are pushable tasks, and the queues of all CPUs
    stay well formed.

    [rests] is the frame of the operations of [RtQueue] for what pushing looks
    at: the pushable lists, the running tasks, and the affinity, state and class
    of the tasks. *)

From S2P Require Import Prelude SchedTypes Core RtBandwidth RtQueue RtPush.

(** ** The frame *)

Definition prq (r : rq) : Z * Z * list (Z * Z) := (curr r, rq_cpu r, pushable_tasks (rt r)).
Definition ptask (t : task_struct) : Z * gset Z * Z * sched_class :=
  (nr_cpus_allowed t, cpus_allowed t, on_rq t, class_of t).

Definition rests (k k' : kernel) : Prop :=
  (forall c, prq (rqs k' c) = prq (rqs k c)) /\ (forall p, ptask (tasks k' p) = ptask (tasks k p)).

#[export] Instance rests_equiv : Equivalence rests.
Proof.
  split; [by split| |].
  - intros k k' [H1 H2]. split; intros; by symmetry.
  - intros k1 k2 k3 [A1 A2] [B1 B2]. split; intros; congruence.
Qed.

Lemma rests_rq k k' c : rests k k' ->
  curr (rqs k' c) = curr (rqs k c) /\ rq_cpu (rqs k' c) = rq_cpu (rqs k c) /\
  pushable_tasks (rt_of k' c) = pushable_tasks (rt_of k c).
Proof. intros [H _]. specialize (H c). unfold prq in H. by injection H. Qed.

Lemma rests_task k k' p : rests k k' ->
  nr_cpus_allowed (tasks k' p) = nr_cpus_allowed (tasks k p) /\
  cpus_allowed (tasks k' p) = cpus_allowed (tasks k p) /\
  on_rq (tasks k' p) = on_rq (tasks k p) /\ class_of (tasks k' p) = class_of (tasks k p).
Proof. intros [_ H]. specialize (H p). unfold ptask in H. by injection H. Qed.

Lemma rests_upd_rq c f k : (forall r, prq (f r) = prq r) -> rests k (upd_rq c f k).
Proof.
  intros Hf. split; [|done]. intros d.
  destruct (decide (c = d)) as [<-|]; [by rewrite upd_rq_eq|by rewrite upd_rq_ne].
Qed.

Lemma rests_upd_task p f k : (forall t, ptask (f t) = ptask t) -> rests k (upd_task p f k).
Proof.
  intros Hf. split; [done|]. intros q. rewrite tasks_upd_task. case_decide; [subst; apply Hf|done].
Qed.

Create HintDb rests.
Ltac rests_back :=
  unfold upd_array, upd_rt_se, upd_rt; cbv zeta;
  repeat match goal with
  | |- rests ?k ?k => reflexivity
  | |- context [if ?b then _ else _] => destruct b
  | |- rests ?k (upd_rq ?c ?f ?k') => transitivity k'; [|by apply rests_upd_rq]
  | |- rests ?k (upd_task ?c ?f ?k') => transitivity k'; [|by apply rests_upd_task]
  | |- rests ?k (call ?e ?k') => transitivity k'; [|done]
  | |- rests ?k (upd rd ?f ?k') => transitivity k'; [|done]
  | |- rests ?k _ => etransitivity; [|solve [eauto with rests nocore]]
  | |- _ => done
  end.

Lemma rests_migration c k : rests k (update_rt_migration c k).
Proof. unfold update_rt_migration, rt_set_overload, rt_clear_overload. rests_back. Qed.
#[export] Hint Resolve rests_migration : rests.

Lemma rests_group k : rests k (inc_rt_group k).
Proof. unfold inc_rt_group, start_rt_bandwidth. rests_back. Qed.

Lemma rests_inc_prio c pr k : rests k (inc_rt_prio c pr k).
Proof. unfold inc_rt_prio, inc_rt_prio_smp. rests_back. Qed.

Lemma rests_dec_prio c pr k : rests k (dec_rt_prio c pr k).
Proof. unfold dec_rt_prio, dec_rt_prio_smp. rests_back. Qed.
#[export] Hint Resolve rests_group rests_inc_prio rests_dec_prio : rests.

Lemma rests_inc_tasks p c k : rests k (inc_rt_tasks p c k).
Proof. unfold inc_rt_tasks, inc_rt_migration. rests_back. Qed.

Lemma rests_dec_tasks p c k : rests k (dec_rt_tasks p c k).
Proof. unfold dec_rt_tasks, dec_rt_migration. rests_back. Qed.
#[export] Hint Resolve rests_inc_tasks rests_dec_tasks : rests.

Lemma rests_delist p c k : rests k (__delist_rt_entity p c k).
Proof. unfold __delist_rt_entity. cbv zeta. destruct (queue _ _); rests_back. Qed.
#[export] Hint Resolve rests_delist : rests.

Lemma rests_enqueue_entity p flags k : rests k (__enqueue_rt_entity p flags k).
Proof. unfold __enqueue_rt_entity. rests_back. Qed.

Lemma rests_dequeue_entity p flags k : rests k (__dequeue_rt_entity p flags k).
Proof. unfold __dequeue_rt_entity. rests_back. Qed.

Lemma rests_add_nr c n k : rests k (add_nr_running c n k).
Proof. unfold add_nr_running. rests_back. Qed.
#[export] Hint Resolve rests_enqueue_entity rests_dequeue_entity rests_add_nr : rests.

Lemma rests_top_in c k : rests k (enqueue_top_rt_rq c k).
Proof. unfold enqueue_top_rt_rq. rests_back. Qed.

Lemma rests_top_out c k k' : dequeue_top_rt_rq c k = Some k' -> rests k k'.
Proof. unfold dequeue_top_rt_rq, sub_nr_running. intros H; cases; simplify_eq; rests_back. Qed.
#[export] Hint Resolve rests_top_in : rests.

Lemma rests_stack p flags k k' : dequeue_rt_stack p flags k = Some k' -> rests k k'.
Proof.
  unfold dequeue_rt_stack. destruct (dequeue_top_rt_rq _ k) as [k1|] eqn:E; [|done]. cbn.
  intros [= <-]. transitivity k1; [by eapply rests_top_out|]. rests_back.
Qed.

Lemma rests_enqueue_rt p flags k k' : enqueue_rt_entity p flags k = Some k' -> rests k k'.
Proof.
  unfold enqueue_rt_entity. destruct (dequeue_rt_stack p flags k) as [k1|] eqn:E; [|done]. cbn.
  intros [= <-]. transitivity k1; [by eapply rests_stack|]. rests_back.
Qed.

Lemma rests_dequeue_rt p flags k k' : dequeue_rt_entity p flags k = Some k' -> rests k k'.
Proof.
  unfold dequeue_rt_entity. destruct (dequeue_rt_stack p flags k) as [k1|] eqn:E; [|done]. cbn.
  intros [= <-]. transitivity k1; [by eapply rests_stack|]. rests_back.
Qed.

Lemma rests_resched c k : rests k (resched_curr c k).
Proof. unfold resched_curr, set_nr_and_not_polling, set_tsk_need_resched. rests_back. Qed.

Lemma rests_clock c k : rests k (update_rq_clock c k).
Proof. unfold update_rq_clock, update_rq_clock_task. rests_back. Qed.

Lemma rests_balance c k : rests k (balance_runtime c k).
Proof.
  split; intros x; [by apply (balance_runtime_proj prq)|].
  unfold balance_runtime, do_balance_runtime. cases; try done. by rewrite balance_loop_tasks.
Qed.

Lemma rests_avg fuel c per : forall k, rests k (avg_loop fuel c per k).
Proof.
  induction fuel as [|n IH]; intros k; [done|]. cbn [avg_loop]. case_match; [|done].
  etransitivity; [|apply IH]. by apply rests_upd_rq.
Qed.

Lemma rests_rt_avg c d k : rests k (sched_rt_avg_update c d k).
Proof.
  unfold sched_rt_avg_update, sched_avg_update. etransitivity; [|apply rests_avg]. by apply rests_upd_rq.
Qed.
#[export] Hint Resolve rests_resched rests_clock rests_balance rests_rt_avg : rests.

Lemma rests_exceeded c k k' b : sched_rt_runtime_exceeded c k = Some (k', b) -> rests k k'.
Proof.
  unfold sched_rt_runtime_exceeded. cbv zeta. intros H. pose proof (rests_balance c k) as Hb.
  destruct (rt_throttled _); [by simplify_eq|]. destruct (_ <=? _); [by simplify_eq|].
  destruct (_ =? RUNTIME_INF); [by simplify_eq|]. destruct (_ <? _); [|by simplify_eq].
  set (k1 := if negb _ then _ else _) in H.
  assert (Hk1 : rests k k1) by (unfold k1; rests_back).
  destruct (rt_rq_throttled k1 c); [|by simplify_eq].
  destruct (sched_rt_rq_dequeue c k1) as [k2|] eqn:E; [|done]. cbn in H. simplify_eq.
  transitivity k1; [done|]. by eapply rests_top_out.
Qed.

Lemma rests_update_curr c k k' : update_curr_rt c k = Some k' -> rests k k'.
Proof.
  unfold update_curr_rt. destruct (negb _); [intros [= <-]; done|].
  destruct (_ <=? _); [intros [= <-]; done|]. cbv zeta.
  match goal with |- context [sched_rt_avg_update c ?d ?x] => set (k1 := sched_rt_avg_update c d x) end.
  assert (H1 : rests k k1) by (unfold k1; rests_back).
  destruct (negb _); [intros [= <-]; done|]. destruct (negb _); [|intros [= <-]; done].
  set (d := task_cpu _). set (k2 := upd_rt d _ k1).
  assert (H2 : rests k k2) by (transitivity k1; [done|by apply rests_upd_rq]).
  destruct (sched_rt_runtime_exceeded d k2) as [[k3 b]|] eqn:E; [|done]. cbn. intros [= <-].
  transitivity k2; [done|]. transitivity k3; [by eapply rests_exceeded|]. rests_back.
Qed.

(** ** The pushable lists *)

Definition plist (k : kernel) (c : Z) : list (Z * Z) := pushable_tasks (rt_of k c).

(** [k'] is [k] with the pushable list of [c] changed by [h]. *)
Definition relists (c : Z) (h : list (Z * Z) -> list (Z * Z)) (k k' : kernel) : Prop :=
  (forall d, curr (rqs k' d) = curr (rqs k d) /\ rq_cpu (rqs k' d) = rq_cpu (rqs k d) /\
             plist k' d = if decide (c = d) then h (plist k d) else plist k d) /\
  (forall p, ptask (tasks k' p) = ptask (tasks k p)).

#[export] Instance relists_proper c h : Proper (rests ==> rests ==> iff) (relists c h).
Proof.
  assert (Hd : forall k k', rests k k' -> forall d, curr (rqs k' d) = curr (rqs k d) /\
    rq_cpu (rqs k' d) = rq_cpu (rqs k d) /\ plist k' d = plist k d) by (intros; by apply rests_rq).
  assert (Hw : forall k1 k2 l1 l2, rests k1 k2 -> rests l1 l2 -> relists c h k1 l1 -> relists c h k2 l2).
  { intros k1 k2 l1 l2 Hk Hl [H1 H2]. split.
    - intros d. destruct (Hd _ _ Hk d) as (-> & -> & ->). destruct (Hd _ _ Hl d) as (-> & -> & ->). apply H1.
    - intros p. rewrite (proj2 Hk), (proj2 Hl). apply H2. }
  intros k1 k2 Hk l1 l2 Hl. split; apply Hw; done || by symmetry.
Qed.

Lemma relists_id c k k' : rests k k' -> relists c id k k'.
Proof. intros <-. split; [|done]. intros d. split_and!; try done. by case_decide. Qed.

Lemma relists_upd_rt c f h k :
  (forall r, pushable_tasks (f r) = h (pushable_tasks r)) -> relists c h k (upd_rt c f k).
Proof.
  intros Hf. split; [|done]. intros d. unfold plist.
  rewrite (upd_rt_proj curr), (upd_rt_proj rq_cpu) by done. split_and!; try done.
  case_decide; [subst; by rewrite upd_rt_eq|by rewrite upd_rt_ne].
Qed.

Lemma relists_enqueue c p k :
  relists c (fun l => plist_add (prio (tasks k p)) p (plist_del p l)) k (enqueue_pushable_task c p k).
Proof.
  unfold enqueue_pushable_task. set (k1 := upd_rt c _ k).
  assert (H1 : relists c (fun l => plist_add (prio (tasks k p)) p (plist_del p l)) k k1)
    by (by apply relists_upd_rt).
  assert (Hr : rests k1 (if prio (tasks k p) <? highest_prio_next (rt_of k1 c)
    then upd_rt c (fun r => r <| highest_prio_next := prio (tasks k p) |>) k1 else k1)) by rests_back.
  by rewrite <-Hr.
Qed.

Lemma relists_dequeue c p k : relists c (plist_del p) k (dequeue_pushable_task c p k).
Proof.
  unfold dequeue_pushable_task. set (k1 := upd_rt c _ k).
  assert (H1 : relists c (plist_del p) k k1) by (by apply relists_upd_rt).
  cbv zeta. destruct (pushable_tasks (rt_of k1 c)) as [|[]].
  - assert (Hr : rests k1 (upd_rt c (fun r => r <| highest_prio_next := MAX_RT_PRIO |>) k1)) by rests_back.
    by rewrite <-Hr.
  - assert (Hr : rests k1 (upd_rt c (fun r => r <| highest_prio_next := prio (tasks k1 z0) |>) k1)) by rests_back.
    by rewrite <-Hr.
Qed.

Lemma relists_dequeue_task c p flags k k' : dequeue_task_rt c p flags k = Some k' -> relists c (plist_del p) k k'.
Proof.
  unfold dequeue_task_rt. destruct (update_curr_rt c k) as [k1|] eqn:E1; [|done]. cbn.
  destruct (dequeue_rt_entity p flags k1) as [k2|] eqn:E2; [|done]. cbn. intros [= <-].
  rewrite (rests_update_curr _ _ _ E1), (rests_dequeue_rt _ _ _ _ E2). apply relists_dequeue.
Qed.

(** The list of [d] after a task of that priority was enqueued. *)
Definition listed (d p pr : Z) (k : kernel) (l : list (Z * Z)) : list (Z * Z) :=
  if negb (task_current k d p) && (1 <? nr_cpus_allowed (tasks k p)) then plist_add pr p (plist_del p l) else l.

Lemma relists_enqueue_task d p flags k k' :
  enqueue_task_rt d p flags k = Some k' -> exists pr, relists d (listed d p pr k) k k'.
Proof.
  unfold enqueue_task_rt. set (k0 := if has_flag flags ENQUEUE_WAKEUP then _ else _).
  assert (H0 : rests k k0) by (unfold k0; rests_back).
  destruct (enqueue_rt_entity p flags k0) as [k1|] eqn:E1; [|done]. cbn. intros [= <-].
  assert (H1 : rests k k1) by (transitivity k0; [done|by eapply rests_enqueue_rt]).
  exists (prio (tasks k1 p)).
  unfold listed, task_current.
  destruct (rests_rq k k1 d H1) as (<- & _). destruct (rests_task k k1 p H1) as (<- & _).
  match goal with |- relists d ?h k ?x => apply (relists_proper d h k k1 H1 x x (reflexivity x)) end. case_match; [apply relists_enqueue|by apply relists_id].
Qed.

Lemma elem_of_plist_del e p l : e ∈ plist_del p l <-> e ∈ l /\ snd e <> p.
Proof. unfold plist_del. rewrite list_elem_of_filter. tauto. Qed.

Lemma elem_of_plist_add e pr p l : e ∈ plist_add pr p l <-> e = (pr, p) \/ e ∈ l.
Proof.
  induction l as [|[i q] l IH]; cbn; [set_solver|]. case_match; rewrite !elem_of_cons; [done|].
  rewrite IH. tauto.
Qed.

Lemma plist_del_shorter p i l : (i, p) ∈ l -> (length (plist_del p l) < length l)%nat.
Proof. intros Hl. unfold plist_del. apply (length_filter_lt _ _ (i, p)); [done|]. by intros []. Qed.

(** ** The invariant of the pushable lists *)

(** What [pick_next_pushable_task] insists on, and a little more: a pushable
    task waits on the CPU of the list, may run elsewhere, and runs nowhere. *)
Record pushable_ok (k : kernel) (c p : Z) : Prop := {
  po_cpu : task_cpu (tasks k p) = c;
  po_curr e : curr (rqs k e) <> p;
  po_allowed : 1 < nr_cpus_allowed (tasks k p);
  po_on_rq : on_rq (tasks k p) = TASK_ON_RQ_QUEUED;
  po_prio : 0 <= prio (tasks k p) < MAX_RT_PRIO;
  po_on : on_rt_rq k p = true;
  po_class : class_of (tasks k p) = rt_sched_class }.

Record push_wf (k : kernel) : Prop := {
  pw_cpu c : rq_cpu (rqs k c) = c;
  pw_ok c i p : (i, p) ∈ plist k c -> pushable_ok k c p }.

(** The [BUG_ON]s of [pick_next_pushable_task] do not fire. *)
Lemma pick_pushable k c :
  push_wf k -> pick_next_pushable_task k c = Some (snd <$> head (plist k c)).
Proof.
  intros [Hc Hp]. unfold pick_next_pushable_task. fold (plist k c).
  destruct (plist k c) as [|[i p] l] eqn:E; [done|].
  destruct (Hp c i p) as [H1 H2 H3 H4 H5 H6 H7]; [rewrite E; set_solver|]. cbn.
  rewrite Hc, H1, Z.eqb_refl. cbn. unfold task_current. rewrite (proj2 (Z.eqb_neq _ _) (H2 c)).
  destruct (Z.leb_spec (nr_cpus_allowed (tasks k p)) 1); [lia|].
  unfold task_on_rq_queued. rewrite H4, Z.eqb_refl. cbn. unfold rt_task, rt_prio.
  destruct (Z.ltb_spec (prio (tasks k p)) MAX_RT_PRIO); [done|lia].
Qed.

(** ** Moving one task *)

Lemma keeps_clock c k : keeps k (update_rq_clock c k).
Proof.
  unfold update_rq_clock, update_rq_clock_task. cases; try done.
  etransitivity; by apply keeps_upd_rq.
Qed.

Lemma room_load k c : room k c <-> load (view k c) + 2 < 2 ^ 32.
Proof. done. Qed.

Lemma load_keeps k k' d : keeps k k' -> load (view k' d) = load (view k d).
Proof. intros [H _]. by rewrite H. Qed.

Lemma keeps_task k k' p : keeps k k' ->
  prio (tasks k' p) = prio (tasks k p) /\ task_cpu (tasks k' p) = task_cpu (tasks k p) /\
  on_rt_rq k' p = on_rt_rq k p.
Proof. intros [_ H]. specialize (H p). unfold tv in H. by injection H. Qed.

Section Move.
Context `{RtEnv} `{QueueOps}.
(** rt.c has no [migrate_task_rq]. *)
Hypothesis no_migrate : op_migrate_task_rq rt_sched_class = None.

Lemma deactivate_ok c p k :
  rt_wf k -> task_cpu (tasks k p) = c -> on_rt_rq k p = true -> class_of (tasks k p) = rt_sched_class ->
  room k c ->
  exists k', deactivate_task_rt c p k = Some k' /\ rt_wf k' /\
    (forall q, tv k' q = if decide (p = q) then t_on false (tv k p) else tv k q) /\
    (forall d, load (view k' d) <= load (view k d) + 3) /\ relists c (plist_del p) k k'.
Proof using Type.
  clear no_migrate. intros Hwf Hc Hon Hcl Hroom. unfold deactivate_task_rt. rewrite bool_decide_true by done.
  set (k0 := call _ _).
  assert (K0 : keeps k k0).
  { unfold k0. etransitivity; [|apply keeps_call]. etransitivity; [|apply keeps_clock].
    case_match; [by apply keeps_upd_rq|done]. }
  assert (R0 : rests k k0) by (unfold k0; rests_back).
  destruct (keeps_task k k0 p K0) as (Ep & Ec & Eo).
  destruct (dequeue_task_rt_ok c p 0 k0) as (k' & E' & W' & T' & L' & _);
    [by eapply keeps_wf|by rewrite Ec|by rewrite Eo|done|by rewrite room_load, (load_keeps _ _ _ K0), <-room_load|].
  exists k'. split_and!; try done.
  - intros q. by rewrite T', !(proj2 K0).
  - intros d. by rewrite <-(load_keeps _ _ d K0).
  - rewrite R0. by eapply relists_dequeue_task.
Qed.

Lemma activate_ok d p k :
  rt_wf k -> task_cpu (tasks k p) = d -> on_rt_rq k p = false -> class_of (tasks k p) = rt_sched_class ->
  0 <= prio (tasks k p) < MAX_RT_PRIO -> room k d ->
  exists k' pr, activate_task_rt d p k = Some k' /\ rt_wf k' /\
    (forall q, tv k' q = if decide (p = q) then t_on true (tv k p) else tv k q) /\
    (forall e, load (view k' e) <= load (view k e) + 3) /\ relists d (listed d p pr k) k k'.
Proof using Type.
  clear no_migrate. intros Hwf Hc Hon Hcl Hpr Hroom. unfold activate_task_rt. rewrite bool_decide_true by done.
  set (k0 := call _ _).
  assert (K0 : keeps k k0).
  { unfold k0. etransitivity; [|apply keeps_call]. etransitivity; [|apply keeps_clock].
    case_match; [by apply keeps_upd_rq|done]. }
  assert (R0 : rests k k0) by (unfold k0; rests_back).
  destruct (keeps_task k k0 p K0) as (Ep & Ec & Eo).
  destruct (enqueue_task_rt_ok d p 0 k0) as (k' & E' & W' & T' & L' & _);
    [by eapply keeps_wf|by rewrite Ec|by rewrite Eo|by rewrite Ep|done
    |by rewrite room_load, (load_keeps _ _ _ K0), <-room_load|].
  destruct (relists_enqueue_task _ _ _ _ _ E') as (pr & Hpr').
  exists k', pr. split_and!; try done.
  - intros q. by rewrite T', !(proj2 K0).
  - intros e. by rewrite <-(load_keeps _ _ e K0).
  - assert (El : forall l, listed d p pr k0 l = listed d p pr k l).
    { intros l. unfold listed, task_current. destruct (rests_rq k k0 d R0) as (-> & _).
      by destruct (rests_task k k0 p R0) as (-> & _). }
    apply (relists_proper d (listed d p pr k) k k0 R0 k' k' (reflexivity k')).
    destruct Hpr' as [P1 P2]. split; [|done]. intros e. destruct (P1 e) as (? & ? & ->).
    split_and!; try done. by rewrite El.
Qed.

(** A task that is off the queues changes its CPU. *)
Lemma set_task_cpu_ok p d k :
  rt_wf k -> class_of (tasks k p) = rt_sched_class -> on_rt_rq k p = false ->
  let k' := set_task_cpu p d k in
  rt_wf k' /\ rests k k' /\ (forall e, view k' e = view k e) /\
  forall q, tv k' q = if decide (p = q) then mkTv (prio (tasks k p)) d false else tv k q.
Proof using no_migrate.
  intros Hwf Hcl Hoff k'.
  assert (Hk' : exists k1, rests k k1 /\ keeps k k1 /\ k' = __set_task_cpu p d k1).
  { unfold k', set_task_cpu. rewrite Hcl, no_migrate. eexists. split_and!; [| |done].
    - rests_back.
    - keeps_back. }
  destruct Hk' as (k1 & R1 & K1 & ->).
  assert (Htv : forall q, tv (__set_task_cpu p d k1) q =
    if decide (p = q) then mkTv (prio (tasks k p)) d false else tv k q).
  { intros q. unfold __set_task_cpu. rewrite tv_upd_task. case_decide; [|apply K1]. subst q. cbn.
    pose proof (proj2 K1 p) as E. unfold tv in E. injection E as -> _ Eo. unfold on_rt_rq in Eo, Hoff.
    by rewrite Eo, Hoff. }
  assert (Hv : forall e, view (__set_task_cpu p d k1) e = view k e) by (intros e; apply (proj1 K1)).
  split_and!; [| |done|done].
  - intros e. rewrite Hv. destruct (Hwf e) as [A ? ? ? ? ?]. split; try done.
    apply (array_wf_other e (tv k) _ p); [| | |done].
    + intros q Hq. rewrite Htv. by rewrite decide_False by congruence.
    + change (tv_on (tv k p)) with (on_rt_rq k p). congruence.
    + rewrite Htv, decide_True by done. done.
  - transitivity k1; [done|]. unfold __set_task_cpu. by apply rests_upd_task.
Qed.
End Move.

(** ** One push *)

(** Tasks stay queued with their priority, and only ever move to a CPU they
    may use. *)
Record migrated (k k' : kernel) : Prop := {
  mg_on q : on_rt_rq k' q = on_rt_rq k q;
  mg_prio q : prio (tasks k' q) = prio (tasks k q);
  mg_task q : ptask (tasks k' q) = ptask (tasks k q);
  mg_cpu q : task_cpu (tasks k' q) = task_cpu (tasks k q) \/
             task_cpu (tasks k' q) ∈ cpus_allowed (tasks k q) }.

Lemma migrated_refl k : migrated k k.
Proof. split; auto. Qed.

Lemma migrated_trans k1 k2 k3 : migrated k1 k2 -> migrated k2 k3 -> migrated k1 k3.
Proof.
  intros [A1 A2 A3 A4] [B1 B2 B3 B4]. split; intros q; try congruence.
  pose proof (A3 q) as E. unfold ptask in E. injection E as _ Eq _ _.
  destruct (B4 q) as [-> | Hb]; [apply A4|right]. by rewrite <-Eq.
Qed.

Lemma migrated_same k k' : keeps k k' -> rests k k' -> migrated k k'.
Proof.
  intros Hk Hr. split; intros q; try (by apply (keeps_task k k' q Hk)); [by apply Hr|].
  left. by apply (keeps_task k k' q Hk).
Qed.

(** A pushable task stays one, on the CPU it is now queued on. *)
Lemma pushable_ok_frame k k' c d q :
  pushable_ok k c q -> (forall e, curr (rqs k' e) = curr (rqs k e)) ->
  ptask (tasks k' q) = ptask (tasks k q) -> tv k' q = mkTv (prio (tasks k q)) d true ->
  pushable_ok k' d q.
Proof.
  intros [P1 P2 P3 P4 P5 P6 P7] Hc Hp Ht. unfold ptask in Hp. injection Hp as E1 E2 E3 E4.
  unfold tv in Ht. injection Ht as T1 T2 T3.
  split; congruence.
Qed.

Section Step.
Context `{RtEnv} `{QueueOps}.
Hypothesis no_migrate : op_migrate_task_rq rt_sched_class = None.

(** The state after the three calls that move a task from [c] to [d]. *)
Record arrived (c d p : Z) (k k2 : kernel) : Prop := {
  ar_wf : rt_wf k2;
  ar_tv q : tv k2 q = if decide (p = q) then mkTv (prio (tasks k p)) d true else tv k q;
  ar_task q : ptask (tasks k2 q) = ptask (tasks k q);
  ar_curr e : curr (rqs k2 e) = curr (rqs k e);
  ar_cpu e : rq_cpu (rqs k2 e) = rq_cpu (rqs k e);
  ar_load e : load (view k2 e) <= load (view k e) + 6;
  ar_from : d <> c -> plist k2 c = plist_del p (plist k c);
  ar_list e j q : (j, q) ∈ plist k2 e -> q = p /\ e = d \/ (j, q) ∈ plist k e /\ (e = c -> q <> p) }.

Lemma move_arrives c d i p k :
  rt_wf k -> push_wf k -> (i, p) ∈ plist k c -> (forall e, load (view k e) + 8 < 2 ^ 32) ->
  exists k1 k2, deactivate_task_rt c p k = Some k1 /\
    activate_task_rt d p (set_task_cpu p (rq_cpu (rqs k1 d)) k1) = Some k2 /\ arrived c d p k k2.
Proof using no_migrate.
  intros Hwf [Hcpu Hok] Hin Hroom.
  destruct (Hok c i p Hin) as [P1 P2 P3 P4 P5 P6 P7].
  destruct (deactivate_ok c p k) as (k1 & E1 & W1 & T1 & L1 & [R1 Q1]); try done.
  { rewrite room_load. specialize (Hroom c). lia. }
  exists k1. destruct (R1 d) as (_ & Hd & _). rewrite Hd, Hcpu.
  assert (Hcl : class_of (tasks k1 p) = rt_sched_class).
  { pose proof (Q1 p) as E. unfold ptask in E. injection E as _ _ _ ->. done. }
  pose proof (T1 p) as Tp. rewrite decide_True in Tp by done. unfold tv, t_on in Tp. cbn in Tp. injection Tp as Tp1 Tp2 Tp3.
  destruct (set_task_cpu_ok no_migrate p d k1 W1 Hcl Tp3) as (W2 & [R2 Q2] & V2 & T2).
  remember (set_task_cpu p d k1) as ks eqn:Eks. clear Eks.
  pose proof (T2 p) as Ts. rewrite decide_True in Ts by done. unfold tv in Ts. injection Ts as Ts1 Ts2 Ts3.
  destruct (activate_ok d p ks) as (k2 & pr & E2 & W3 & T3 & L3 & [R3 Q3]); try done.
  { pose proof (Q2 p) as E. unfold ptask in E. injection E as _ _ _ ->. done. }
  { by rewrite Ts1, Tp1. }
  { rewrite room_load, V2. specialize (Hroom d). specialize (L1 d). lia. }
  assert (Rs : forall e, curr (rqs ks e) = curr (rqs k1 e) /\ rq_cpu (rqs ks e) = rq_cpu (rqs k1 e) /\
                         plist ks e = plist k1 e).
  { intros e. specialize (R2 e). unfold prq in R2. by injection R2. }
  exists k2. split; [done|]. split; [done|]. split; try done.
  - intros q. rewrite T3. case_decide as Hq; [subst q|by rewrite T2, decide_False, T1, decide_False].
    unfold t_on, tv. cbn. by rewrite Ts1, Ts2, Tp1.
  - intros q. by rewrite Q3, Q2, Q1.
  - intros e. by rewrite (proj1 (R3 e)), (proj1 (Rs e)), (proj1 (R1 e)).
  - intros e. by rewrite (proj1 (proj2 (R3 e))), (proj1 (proj2 (Rs e))), (proj1 (proj2 (R1 e))).
  - intros e. specialize (L3 e). rewrite V2 in L3. specialize (L1 e). lia.
  - intros Hdc. rewrite (proj2 (proj2 (R3 c))), decide_False by done.
    rewrite (proj2 (proj2 (Rs c))), (proj2 (proj2 (R1 c))), decide_True by done. done.
  - intros e j q. rewrite (proj2 (proj2 (R3 e))), (proj2 (proj2 (Rs e))), (proj2 (proj2 (R1 e))).
    unfold listed. intros Hj.
    assert (Hj' : q = p /\ e = d \/ (j, q) ∈ (if decide (c = e) then plist_del p (plist k e) else plist k e)).
    { case_decide as Hde; [|by right]. destruct (_ && _); [|by right].
      apply elem_of_plist_add in Hj as [[= _ ->]|Hj]; [by left|right].
      by apply elem_of_plist_del in Hj as [? _]. }
    destruct Hj' as [?|Hj']; [by left|right]. clear Hj.
    destruct (decide (c = e)) as [Hce|Hce]; [by apply elem_of_plist_del in Hj' as [? ?]|].
    split; [done|congruence].
Qed.

Lemma move_ok c d i p k :
  rt_wf k -> push_wf k -> (i, p) ∈ plist k c -> d <> c -> d ∈ cpus_allowed (tasks k p) ->
  (forall e, load (view k e) + 8 < 2 ^ 32) ->
  exists k1 k2, deactivate_task_rt c p k = Some k1 /\
    activate_task_rt d p (set_task_cpu p (rq_cpu (rqs k1 d)) k1) = Some k2 /\
    rt_wf k2 /\ push_wf k2 /\ migrated k k2 /\
    (forall e, load (view k2 e) <= load (view k e) + 6) /\
    (length (plist k2 c) < length (plist k c))%nat.
Proof using no_migrate.
  intros Hwf Hpw Hin Hdc Hal Hroom. pose proof Hpw as [Hcpu Hok].
  destruct (move_arrives c d i p k Hwf Hpw Hin Hroom) as (k1 & k2 & E1 & E2 & [W T Q C U L F M]).
  exists k1, k2. split_and!; try done.
  - split; [intros e; by rewrite U|]. intros e j q [[-> ->]|[Hj Hne]]%M.
    + eapply pushable_ok_frame; [by eapply Hok|done|done|]. by rewrite T, decide_True.
    + pose proof (Hok e j q Hj) as Hq. eapply pushable_ok_frame; [done|done|done|].
      assert (Hqp : p <> q).
      { intros <-. apply Hne; [|done]. rewrite <-(po_cpu _ _ _ Hq). apply (po_cpu _ _ _ (Hok c i p Hin)). }
      rewrite T, decide_False by done.
      unfold tv. by destruct Hq as [-> _ _ _ _ -> _].
  - assert (Htv : forall q, q <> p -> tv k2 q = tv k q) by (intros q Hq; by rewrite T, decide_False).
    pose proof (T p) as Tp. rewrite decide_True in Tp by done. unfold tv in Tp. injection Tp as T1 T2 T3.
    split; try done; intros q; destruct (decide (q = p)) as [->|Hq];
      try (pose proof (Htv q Hq) as Eq; unfold tv in Eq; injection Eq as ???; try done; auto; fail).
    + rewrite T3. by destruct (Hok c i p Hin) as [_ _ _ _ _ -> _].
    + done.
    + right. by rewrite T2.
  - rewrite (F Hdc). by eapply plist_del_shorter.
Qed.
End Step.

(** ** Pushing while other CPUs act *)

Lemma migrated_resched c k : migrated k (resched_curr c k).
Proof. apply migrated_same; [apply keeps_resched|apply rests_resched]. Qed.

Lemma push_wf_same k k' : keeps k k' -> rests k k' -> push_wf k -> push_wf k'.
Proof.
  intros Hk Hr [Hc Ho]. split.
  - intros c. by rewrite (proj1 (proj2 (rests_rq _ _ c Hr))).
  - intros c i p Hp. unfold plist in Hp. rewrite (proj2 (proj2 (rests_rq _ _ c Hr))) in Hp.
    pose proof (Ho c i p Hp) as Hok. eapply pushable_ok_frame; [done| | |].
    + intros e. apply (rests_rq _ _ e Hr).
    + apply Hr.
    + rewrite (proj2 Hk). unfold tv. by destruct Hok as [-> _ _ _ _ -> _].
Qed.

(** What other CPUs do while CPU [c] waits for a lock: they keep the queues and
    the pushable lists in order, count no more than [limit] on a run queue that
    counted no more, take tasks off the pushable list of [c] but put none on it,
    nor touch it while [c] holds its lock; and a task that is still queued on
    [c], does not run and may run elsewhere is still on the list. *)
Class PushPeers `{RtEnv} (c limit : Z) : Prop := {
  peers_wf l k : rt_wf k -> push_wf k -> rt_wf (meanwhile l k) /\ push_wf (meanwhile l k);
  peers_load l k b : limit <= b -> (forall e, load (view k e) <= b) -> forall e, load (view (meanwhile l k) e) <= b;
  peers_remove l k : sublist (plist (meanwhile l k) c) (plist k c);
  peers_held l k : c ∈ l -> plist (meanwhile l k) c = plist k c;
  peers_listed k p d : p ∈ (plist k c).*2 -> still_pushable p c (meanwhile ∅ k) -> d <> c ->
    d ∈ cpus_allowed (tasks (meanwhile ∅ k) p) -> p ∈ (plist (meanwhile ∅ k) c).*2 }.

(** Every change is one that other CPUs made while a lock was waited for, or a
    migration to a CPU the task may use at that time. *)
Definition interleaved `{RtEnv} : kernel -> kernel -> Prop :=
  rtc (fun k k' => migrated k k' \/ exists l, k' = meanwhile l k).

Section Peers.
Context `{RtEnvLaws} `{QueueOps} (c limit : Z) `{!PushPeers c limit}.
Hypothesis no_migrate : op_migrate_task_rq rt_sched_class = None.

(** A state within [b]. *)
Record push_inv (b : Z) (k : kernel) : Prop := {
  pi_wf : rt_wf k;
  pi_push : push_wf k;
  pi_load e : load (view k e) <= b }.

Lemma meanwhile_inv l b k : limit <= b -> push_inv b k -> push_inv b (meanwhile l k).
Proof using All.
  intros Hb [W P L]. destruct (peers_wf l k W P). split; [done|done|]. by apply peers_load.
Qed.

Lemma listed_ok k p : push_wf k -> p ∈ (plist k c).*2 -> exists i, (i, p) ∈ plist k c /\ pushable_ok k c p.
Proof using Type.
  clear no_migrate. intros [_ Hok] Hp. apply list_elem_of_fmap in Hp as ([i q] & -> & Hq). exists i. split; [done|by eapply Hok].
Qed.

(** Looking for a CPU: the state afterwards, and what is known of the CPU. *)
Lemma lock_lowest_peers n p b : limit <= b -> forall k,
  push_inv b k -> p ∈ (plist k c).*2 ->
  let '(k', r) := lock_lowest n p c k in
  push_inv b k' /\ sublist (plist k' c) (plist k c) /\ interleaved k k' /\
  forall d, r = Some d -> d <> c /\ d ∈ cpus_allowed (tasks k' p) /\ p ∈ (plist k' c).*2.
Proof using All.
  intros Hb. induction n as [|n IH]; intros k I Hp; [by split_and!; try done|]. cbn [lock_lowest].
  pose proof (find_lowest_in k p) as Hin. set (e := find_lowest_rq k p) in *.
  pose proof (pi_push _ _ I) as [Hcpu _]. rewrite Hcpu.
  destruct (Z.eqb_spec e (-1)) as [|Hn1]; [by split_and!|]. destruct (Z.eqb_spec e c) as [|Hn2]; [by split_and!|]. cbn [orb].
  destruct (_ <=? _); [by split_and!|].
  assert (Hk : exists k1 dropped, double_lock_balance c e k = (k1, dropped) /\ push_inv b k1 /\
    sublist (plist k1 c) (plist k c) /\ interleaved k k1 /\
    (dropped = false -> e ∈ cpus_allowed (tasks k1 p) /\ p ∈ (plist k1 c).*2) /\
    (dropped = true -> still_pushable p c k1 -> e ∈ cpus_allowed (tasks k1 p) -> p ∈ (plist k1 c).*2)).
  { assert (Hal : e ∈ cpus_allowed (tasks k p)) by (destruct (Hin Hn1) as (m & Hm & He); by apply (cpupri_allowed k p m)).
    assert (Hm : forall l, interleaved k (meanwhile l k)) by (intros l; apply rtc_once; right; by exists l).
    destruct (double_lock_cases c e k) as [->|[->| ->]]; eexists _, _; (split; [done|]).
    - split_and!; [by apply meanwhile_inv|apply peers_remove|apply Hm|done|]. intros _ Hs He. by apply (peers_listed k p e).
    - by split_and!.
    - split_and!; [by apply meanwhile_inv|apply peers_remove|apply Hm| |done]. intros _.
      destruct (listed_ok k p (pi_push _ _ I) Hp) as (i & _ & [Pc _ _ Pq _ _ _]).
      rewrite peers_held by set_solver. split; [|done].
      destruct (meanwhile_held {[c]} k p) as [-> _]; [rewrite Pc; set_solver| |done].
      unfold task_on_rq_queued. by rewrite Pq. }
  destruct Hk as (k1 & dropped & -> & I1 & S1 & L1 & Hkept & Hdrop).
  pose proof (pi_push _ _ I1) as [Hcpu1 _]. rewrite Hcpu1.
  assert (Hnext : e ∈ cpus_allowed (tasks k1 p) -> p ∈ (plist k1 c).*2 ->
    let '(k', r) := if prio (tasks k1 p) <? highest_prio_curr (rt_of k1 e) then (k1, Some e) else lock_lowest n p c k1 in
    push_inv b k' /\ sublist (plist k' c) (plist k c) /\ interleaved k k' /\
    forall d, r = Some d -> d <> c /\ d ∈ cpus_allowed (tasks k' p) /\ p ∈ (plist k' c).*2).
  { intros Ha Hl. destruct (_ <? _); [split_and!; try done; by intros d [= <-]|].
    specialize (IH k1 I1 Hl). destruct (lock_lowest n p c k1) as [k2 r]. destruct IH as (I2 & S2 & L2 & Hr).
    split_and!; [done|by etransitivity|by etransitivity|done]. }
  destruct dropped; cbn [andb].
  - destruct (_ || _) eqn:E; [by split_and!|]. rewrite !orb_false_iff, !negb_false_iff in E.
    destruct E as [[[[E1 E2] E3] E4] E5]. apply Z.eqb_eq in E1. apply bool_decide_eq_true in E2.
    apply Hnext; [done|]. apply Hdrop; [done|by repeat split|done].
  - destruct (Hkept eq_refl). by apply Hnext.
Qed.

(** What one call of [push_rt_task] leaves behind. *)
Record push_post (b : Z) (k k' : kernel) (pushed : bool) : Prop := {
  pp_inv : push_inv (b + 6) k';
  pp_moves : interleaved k k';
  pp_shorter : pushed = true -> (length (plist k' c) < length (plist k c))%nat }.

Lemma push_inv_weaken b b' k : b <= b' -> push_inv b k -> push_inv b' k.
Proof using Type. clear no_migrate. intros Hb [W P L]. split; [done|done|]. intros e. specialize (L e). lia. Qed.

Lemma push_post_same b k k' : push_inv b k -> keeps k k' -> rests k k' -> push_post b k k' false.
Proof using Type.
  clear no_migrate. intros [W P L] Hk Hr. split; [|by apply rtc_once; left; apply migrated_same|done].
  split; [by eapply keeps_wf|by eapply push_wf_same|]. intros e. rewrite (load_keeps _ _ e Hk). specialize (L e). lia.
Qed.

(** A list that lost entries and starts with another task is shorter. *)
Lemma sublist_head_shorter (l l' : list (Z * Z)) p q :
  sublist l' l -> snd <$> head l = Some p -> snd <$> head l' = Some q -> q <> p -> (length l' < length l)%nat.
Proof using Type.
  clear no_migrate. destruct l as [|x l]; [done|]. destruct l' as [|y l']; [done|]. cbn. intros Hs [= <-] [= <-] Hne.
  inversion Hs as [|z l1 l2 Hs'|z l1 l2 Hs']; subst; [done|]. apply sublist_length in Hs'. cbn in *. lia.
Qed.

(** From the label [retry] with the first task of the list. *)
Lemma push_retry_returns b p : limit <= b -> b + 8 < 2 ^ 32 -> forall fuel k,
  push_inv b k -> snd <$> head (plist k c) = Some p -> (length (plist k c) <= fuel)%nat ->
  exists k' r, push_retry fuel p c k = Some (k', r) /\ push_post b k k' r.
Proof using All.
  intros Hb Hroom fuel. revert p. induction fuel as [|fuel IH]; intros p k I Hh Hlen.
  { destruct (plist k c); [done|cbn in Hlen; lia]. }
  pose proof (push_post_same b k k I ltac:(done) ltac:(done)) as Hsame. cbn [push_retry].
  destruct (_ =? _); [by exists k, false|]. destruct (_ <? _).
  { eexists _, false. split; [done|]. apply push_post_same; [done|apply keeps_resched|apply rests_resched]. }
  assert (Hp : p ∈ (plist k c).*2) by (destruct (plist k c) as [|[i q] l]; [done|]; cbn in *; injection Hh as <-; by left).
  unfold find_lock_lowest_rq. pose proof (lock_lowest_peers RT_MAX_TRIES p b Hb k I Hp) as Hl.
  destruct (lock_lowest RT_MAX_TRIES p c k) as [k0 [d|]]; destruct Hl as (I0 & S0 & L0 & Hd).
  - destruct (Hd d eq_refl) as (Hdc & Hal & Hp0). pose proof I0 as [W0 P0 B0].
    destruct (listed_ok k0 p P0 Hp0) as (i & Hi & _).
    destruct (move_ok no_migrate c d i p k0) as (k1 & k2 & E1 & E2 & W & P & M & L & S); try done.
    { intros e. specialize (B0 e). lia. }
    rewrite E1. cbn. rewrite E2. cbn. eexists _, true. split; [done|]. split.
    + split; [eapply keeps_wf; [apply keeps_resched|done]
             |eapply push_wf_same; [apply keeps_resched|apply rests_resched|done]|].
      intros e. rewrite (load_keeps _ _ e (keeps_resched d k2)). specialize (L e). specialize (B0 e). lia.
    + etransitivity; [exact L0|]. apply rtc_once. left. eapply migrated_trans; [done|apply migrated_resched].
    + intros _. apply sublist_length in S0. unfold plist in *.
      rewrite (proj2 (proj2 (rests_rq _ _ c (rests_resched d k2)))). lia.
  - pose proof I0 as [W0 P0 B0]. rewrite (pick_pushable k0 c P0). cbn [mbind option_bind].
    assert (Hstop : push_post b k k0 false) by (split; [apply (push_inv_weaken b); [lia|done]|done|done]).
    destruct (snd <$> head (plist k0 c)) as [q|] eqn:Hq; [|by exists k0, false].
    destruct (Z.eqb_spec q p) as [->|Hne]; [by exists k0, false|].
    pose proof (sublist_head_shorter _ _ p q S0 Hh Hq Hne) as Hlt.
    destruct (IH q k0 I0 Hq) as (k' & r & E & [I' M' Sh']); [lia|]. exists k', r. split; [done|].
    split; [done|by etransitivity|]. intros Hr. specialize (Sh' Hr). lia.
Qed.

Lemma push_one b fuel k :
  limit <= b -> b + 8 < 2 ^ 32 -> push_inv b k -> (length (plist k c) <= fuel)%nat ->
  exists k' r, push_rt_task fuel c k = Some (k', r) /\ push_post b k k' r.
Proof using All.
  intros Hb Hroom I Hlen. pose proof (push_post_same b k k I ltac:(done) ltac:(done)) as Hsame.
  unfold push_rt_task. destruct (negb _); [by exists k, false|].
  rewrite (pick_pushable k c (pi_push _ _ I)). cbn [mbind option_bind].
  destruct (snd <$> head (plist k c)) as [p|] eqn:Hp; [|by exists k, false]. by apply push_retry_returns.
Qed.

Lemma push_all : forall fuel b k,
  limit <= b -> b + 6 * Z.of_nat fuel + 8 < 2 ^ 32 -> push_inv b k -> (length (plist k c) < fuel)%nat ->
  exists k', push_rt_tasks fuel c k = Some k' /\ rt_wf k' /\ push_wf k' /\ interleaved k k'.
Proof using All.
  induction fuel as [|fuel IH]; intros b k Hb Hroom I Hlen; [lia|]. cbn [push_rt_tasks].
  destruct (push_one b (S fuel) k) as (k1 & r & E & [I1 M S]); [lia|lia|done|lia|].
  rewrite E. cbn. destruct r; [|exists k1; split_and!; [done|apply I1|apply I1|done]]. specialize (S eq_refl).
  destruct (IH (b + 6) k1) as (k' & E' & W' & P' & M'); [lia|lia|done|lia|].
  exists k'. split_and!; try done. by etransitivity.
Qed.
End Peers.

(** Enqueueing a task that waits keeps the pushable lists in order. *)
Lemma enqueue_push_wf c p flags k k' :
  rt_wf k -> push_wf k -> task_cpu (tasks k p) = c -> on_rt_rq k p = false ->
  0 <= prio (tasks k p) < MAX_RT_PRIO -> move_entity flags = true -> room k c ->
  (forall e, curr (rqs k e) <> p) -> on_rq (tasks k p) = TASK_ON_RQ_QUEUED ->
  class_of (tasks k p) = rt_sched_class -> enqueue_task_rt c p flags k = Some k' ->
  rt_wf k' /\ push_wf k'.
Proof.
  intros Hwf [Hcpu Hok] Hc Hoff Hpr Hm Hroom Hcur Hq Hcl E.
  destruct (enqueue_task_rt_ok c p flags k Hwf Hc Hoff Hpr Hm Hroom) as (k2 & E' & W & T & _).
  rewrite E in E'. injection E' as <-. split; [done|].
  destruct (relists_enqueue_task _ _ _ _ _ E) as (pr & R & Q).
  split; [intros e; by rewrite (proj1 (proj2 (R e)))|].
  assert (Hold : forall e j q, (j, q) ∈ plist k e -> pushable_ok k' e q).
  { intros e j q Hj. pose proof (Hok e j q Hj) as Hp.
    eapply pushable_ok_frame; [done|intros; apply R|apply Q|]. rewrite T, decide_False.
    - unfold tv. by destruct Hp as [-> _ _ _ _ -> _].
    - intros ->. pose proof (po_on _ _ _ Hp). congruence. }
  intros e j q. rewrite (proj2 (proj2 (R e))). case_decide as He; [|apply Hold]. subst e. unfold listed.
  destruct (negb _ && _) eqn:Hb; [|apply Hold]. apply andb_prop in Hb as [_ Hb%Z.ltb_lt].
  intros [[= _ ->]|[Hj _]%elem_of_plist_del]%elem_of_plist_add; [|by eapply Hold].
  pose proof (T p) as Tp. rewrite decide_True in Tp by done. unfold tv, t_on in Tp. cbn in Tp. injection Tp as T1 T2 T3.
  pose proof (Q p) as Qp. unfold ptask in Qp. injection Qp as Q1 Q2 Q3 Q4.
  split; try congruence. intros e. rewrite (proj1 (R e)). apply Hcur.
Qed.

(** C32: [push_rt_tasks] (rt.c) returns after at most one round per pushable
    task, although it may drop its lock whenever it takes that of another run
    queue, and always does with CONFIG_PREEMPT.  What other CPUs do then is
    open, except that they keep the queues in order themselves, leave alone what
    a held lock protects, and queue no further pushable task on this CPU.  The
    [BUG_ON]s of [pick_next_pushable_task] and of the queue operations never
    fire, the queues of all CPUs stay well formed, and every change on the way
    is one of the other CPUs or a migration that keeps each task queued with its
    priority and takes it only to a CPU it may use. *)
Theorem push_rt_tasks_returns `{RtEnvLaws} `{QueueOps} c limit `{!PushPeers c limit} fuel k :
  op_migrate_task_rq rt_sched_class = None ->
  rt_wf k -> push_wf k -> (length (plist k c) < fuel)%nat ->
  (forall e, load (view k e) <= limit) -> limit + 6 * Z.of_nat fuel + 8 < 2 ^ 32 ->
  exists k', push_rt_tasks fuel c k = Some k' /\ rt_wf k' /\ push_wf k' /\ interleaved k k'.
Proof.
  intros Hm Hwf Hpw Hlen Hload Hroom. eapply (push_all c limit Hm fuel limit); [lia|done| |done]. by split.
Qed.

(** Tasks 1 and 2 wait on CPU 0. *)
Definition rt_waiting : kernel :=
  default rt_demo (k ← enqueue_task_rt 0 1 0 rt_demo; enqueue_task_rt 0 2 0 k).

(** Enqueueing a task of the examples that is off the queues. *)
Lemma demo_enqueue p k :
  rt_wf k -> push_wf k -> 0 < p -> (forall e, load (view k e) <= 100) -> (forall e, curr (rqs k e) = 0) ->
  tv k p = mkTv 50 0 false -> ptask (tasks k p) = (2, {[0; 1]}, 1, rt_sched_class) ->
  exists k', enqueue_task_rt 0 p 0 k = Some k' /\ rt_wf k' /\ push_wf k' /\
    (forall e, load (view k' e) <= load (view k e) + 3) /\ (forall e, curr (rqs k' e) = 0) /\
    forall q, q <> p -> tv k' q = tv k q /\ ptask (tasks k' q) = ptask (tasks k q).
Proof.
  intros Hwf Hpw Hp Hload Hcur Ht Hpt. unfold tv in Ht. injection Ht as T1 T2 T3.
  unfold ptask in Hpt. injection Hpt as P1 P2 P3 P4.
  assert (Hroom : room k 0) by (rewrite room_load; specialize (Hload 0); lia).
  destruct (enqueue_task_rt_ok 0 p 0 k) as (k' & E & W & T & L & _);
    [done|done|done|rewrite T1; unfold MAX_RT_PRIO; lia|done|done|].
  exists k'. split; [done|].
  destruct (enqueue_push_wf 0 p 0 k k') as [_ Pw];
    [done|done|done|done|rewrite T1; unfold MAX_RT_PRIO; lia|done|done| |done|done|done|].
  { intros e. rewrite Hcur. lia. }
  destruct (relists_enqueue_task _ _ _ _ _ E) as (pr & R & Q).
  split_and!; try done.
  - intros e. by rewrite (proj1 (R e)).
  - intros q Hq. split; [|apply Q]. by rewrite T, decide_False by done.
Qed.

Lemma rt_waiting_ok :
  rt_wf rt_waiting /\ push_wf rt_waiting /\ forall e, load (view rt_waiting e) <= 6.
Proof.
  assert (P0 : push_wf rt_demo).
  { split; [done|]. intros c i p Hp. by apply elem_of_nil in Hp. }
  destruct (demo_enqueue 1 rt_demo rt_demo_wf P0) as (k1 & E1 & W1 & P1 & L1 & C1 & Q1); [lia|done..|].
  destruct (Q1 2) as [T2 Q2]; [lia|].
  assert (L0 : forall e, load (view rt_demo e) = 0) by done.
  destruct (demo_enqueue 2 k1 W1 P1) as (k2 & E2 & W2 & P2 & L2 & _); [lia| |done|by rewrite T2|by rewrite Q2|].
  { intros e. specialize (L1 e). rewrite L0 in L1. lia. }
  unfold rt_waiting. rewrite E1. cbn. rewrite E2. cbn. split_and!; try done.
  intros e. specialize (L1 e). specialize (L2 e). rewrite L0 in L1. lia.
Qed.

(** The machine of the examples drops the lock each time. *)
Lemma demo_peers limit : @PushPeers demo_env 0 limit.
Proof.
  assert (Hl : forall k c, plist (resched_curr 1 k) c = plist k c) by (intros k c; apply (rests_rq _ _ c (rests_resched 1 k))).
  split; cbn.
  - intros l k W P. split; [eapply keeps_wf; [apply keeps_resched|done]
      |eapply push_wf_same; [apply keeps_resched|apply rests_resched|done]].
  - intros l k b _ Hb e. by rewrite (load_keeps _ _ e (keeps_resched 1 k)).
  - intros l k. by rewrite Hl.
  - intros l k _. by rewrite Hl.
  - intros k p d Hp _ _ _. by rewrite Hl.
Qed.

Lemma push_rt_tasks_returns_witness : exists k',
  @push_rt_tasks demo_env demo_ops 4 0 rt_waiting = Some k' /\ rt_wf k' /\ (@double_lock_balance demo_env 0 1 rt_waiting).2 = true.
Proof.
  destruct (@push_rt_tasks_returns demo_env demo_env_laws demo_ops 0 6 (demo_peers 6) 4 rt_waiting) as (k' & E & W & _).
  - reflexivity.
  - exact (proj1 rt_waiting_ok).
  - exact (proj1 (proj2 rt_waiting_ok)).
  - apply Nat.ltb_lt. vm_compute. reflexivity.
  - exact (proj2 (proj2 rt_waiting_ok)).
  - lia.
  - exists k'. split; [exact E|]. split; [exact W|reflexivity].
Defined.
