(* ===== verification/RtGroups.v ===== *)
(** * Real-time limits of task groups (rt.c, with parts of core.c)

    With CONFIG_RT_GROUP_SCHED every task group has a real-time period and
    runtime.  The state is the kernel, the tree of groups, and the group of each
    thread.  A group is created without runtime, a limit is accepted only when
    the walk over the whole tree finds it schedulable, and a real-time task may
    neither be put into a group without runtime nor become one there.
    Autogroups are not configured, so [task_group_is_autogroup] is false.

    The theorems: through any sequence of these operations the ratios of the
    children of every group add up to at most its own, so those of all the
    groups without children add up to at most what the administrator set; as
    long as every runtime is below 2^44 ns, where the shift of [to_ratio] loses
    nothing, these ratios are the shares of time themselves; and no real-time
    task is in a group without runtime. *)

From S2P Require Import Prelude SchedTypes Core Wrr CorePolicy RtBandwidth.

Record rt_group := mkRtGroup {
  rg_parent : option Z;
  rg_children : list Z;
  rg_period : Z;               (* rt_bandwidth.rt_period *)
  rg_runtime : Z;              (* rt_bandwidth.rt_runtime *)
  rg_rt_runtime : Z -> Z }.    (* rt_rq[cpu]->rt_runtime *)
#[export] Instance eta_rt_group : Settable rt_group :=
  fun r => mkRtGroup (rg_parent r) (rg_children r) (rg_period r) (rg_runtime r) (rg_rt_runtime r).

Record rg_state := mkRg {
  rg_k : kernel;
  rg : Z -> rt_group;
  rg_groups : list Z;          (* the list task_groups *)
  rg_threads : list Z;         (* for_each_process_thread *)
  rg_css : Z -> Z;             (* the group of a thread in its cgroup *)
  rg_of : Z -> Z }.            (* task_group(p) *)
#[export] Instance eta_rg_state : Settable rg_state :=
  fun r => mkRg (rg_k r) (rg r) (rg_groups r) (rg_threads r) (rg_css r) (rg_of r).

Definition rg_root : Z := 0.
Definition upd_rg (g : Z) (f : rt_group -> rt_group) (s : rg_state) : rg_state := s <| rg ::= alter f g |>.

(** ** The check *)

(** The groups below [g] in the order of [walk_tg_tree_from]; a visitor on the
    way down ends the walk with the first error. *)
Fixpoint tg_walk (n : nat) (s : rg_state) (g : Z) : list Z :=
  match n with
  | O => []
  | S n => g :: flat_map (tg_walk n s) (rg_children (rg s g))
  end.
Fixpoint walk_ret (down : Z -> Z) (l : list Z) : Z :=
  match l with
  | [] => 0
  | g :: l => let ret := down g in if negb (ret =? 0) then ret else walk_ret down l
  end.

Definition tg_has_rt_tasks (s : rg_state) (g : Z) : bool :=
  existsb (fun p => rt_task (tasks (rg_k s) p) && (rg_of s p =? g)) (rg_threads s).

Record rt_schedulable_data := mkRtSchedulable { rd_tg : option Z; rd_period : Z; rd_runtime : Z }.

(** The period and the runtime of a group with the new setting in force. *)
Definition rd_limits (s : rg_state) (d : rt_schedulable_data) (g : Z) : Z * Z :=
  if bool_decide (rd_tg d = Some g) then (rd_period d, rd_runtime d)
  else (u64 (rg_period (rg s g)), rg_runtime (rg s g)).

Definition tg_rt_schedulable (s : rg_state) (d : rt_schedulable_data) (g : Z) : Z :=
  let '(period, runtime) := rd_limits s d g in
  if (period <? runtime) && negb (runtime =? RUNTIME_INF) then - EINVAL
  else if rt_bandwidth_enabled (rg_k s) && (runtime =? 0) && tg_has_rt_tasks s g then - EBUSY
  else
    let total := to_ratio period runtime in
    if to_ratio (global_rt_period (rg_k s)) (global_rt_runtime (rg_k s)) <? total then - EINVAL
    else
      let sum := foldl (fun sum child => let '(period, runtime) := rd_limits s d child in
                          u64 (sum + to_ratio period runtime)) 0 (rg_children (rg s g)) in
      if total <? sum then - EINVAL else 0.

Definition __rt_schedulable (s : rg_state) (tg : option Z) (period runtime : Z) : Z :=
  walk_ret (tg_rt_schedulable s (mkRtSchedulable tg period runtime)) (tg_walk (length (rg_groups s)) s rg_root).

(** ** Setting the limits *)

Definition tg_set_rt_bandwidth (g period runtime : Z) (s : rg_state) : rg_state * Z :=
  if (g =? rg_root) && (runtime =? 0) then (s, - EINVAL)
  else if period =? 0 then (s, - EINVAL)
  else
    let err := __rt_schedulable s (Some g) period runtime in
    if negb (err =? 0) then (s, err)
    else
      let s := upd_rg g (fun t => t <| rg_period := period |> <| rg_runtime := runtime |>) s in
      (foldl (fun s i => upd_rg g (fun t => t <| rg_rt_runtime ::= alter (fun _ => runtime) i |>) s) s
         (for_each_cpu (rg_k s) (cpu_possible_mask (rg_k s))), 0).

Definition sched_group_set_rt_runtime (g rt_runtime_us : Z) (s : rg_state) : rg_state * Z :=
  let runtime := if rt_runtime_us <? 0 then RUNTIME_INF else u64 (u64 rt_runtime_us * NSEC_PER_USEC) in
  tg_set_rt_bandwidth g (u64 (rg_period (rg s g))) runtime s.
Definition sched_group_rt_runtime (s : rg_state) (g : Z) : Z :=
  if rg_runtime (rg s g) =? RUNTIME_INF then -1 else rg_runtime (rg s g) / NSEC_PER_USEC.
Definition sched_group_set_rt_period (g rt_period_us : Z) (s : rg_state) : rg_state * Z :=
  tg_set_rt_bandwidth g (u64 (rt_period_us * NSEC_PER_USEC)) (rg_runtime (rg s g)) s.
Definition sched_group_rt_period (s : rg_state) (g : Z) : Z := u64 (rg_period (rg s g)) / NSEC_PER_USEC.

(** The global setting: with groups, [sched_rt_global_constraints] is the walk
    with no new group limit. *)
Definition rt_global_constraints (s : rg_state) : Z := __rt_schedulable s None 0 0.
Definition rt_global_handler (period runtime dl_ret : Z) (s : rg_state) : rg_state * Z :=
  let s' := s <| rg_k ::= fun k => k <| sysctl_sched_rt_period := period |> <| sysctl_sched_rt_runtime := runtime |> |> in
  let ret := sched_rt_global_validate (rg_k s') in
  if negb (ret =? 0) then (s, ret)
  else if negb (dl_ret =? 0) then (s, dl_ret)
  else
    let ret := rt_global_constraints s' in
    if negb (ret =? 0) then (s, ret) else (s' <| rg_k ::= sched_rt_do_global |>, 0).

(** ** Groups and threads *)

(** [alloc_rt_sched_group] for the memory [g]: the queues of the CPUs start with
    the runtime of the group, which is none. *)
Definition alloc_rt_sched_group (g : Z) (s : rg_state) : rg_state :=
  let s := upd_rg g (fun t => t <| rg_period := rt_period (def_rt_bandwidth (rg_k s)) |> <| rg_runtime := 0 |>) s in
  foldl (fun s i => upd_rg g (fun t => t <| rg_rt_runtime ::= alter (fun _ => rg_runtime t) i |>) s) s
    (for_each_cpu (rg_k s) (cpu_possible_mask (rg_k s))).

(** [mem] is the memory the allocator returns for the group, [fair_ok] and
    [rt_ok] whether it finds memory for its queues. *)
Definition sched_create_group (mem : option Z) (fair_ok rt_ok : bool) (s : rg_state) : rg_state * (Z + Z) :=
  match mem with
  | None => (s, inr (- ENOMEM))
  | Some g => if negb fair_ok || negb rt_ok then (s, inr (- ENOMEM)) else (alloc_rt_sched_group g s, inl g)
  end.

Definition sched_online_group (g parent : Z) (s : rg_state) : rg_state :=
  let s := s <| rg_groups ::= cons g |> in
  let s := upd_rg g (fun t => t <| rg_parent := Some parent |> <| rg_children := [] |>) s in
  upd_rg parent (fun t => t <| rg_children ::= cons g |>) s.

Definition sched_offline_group (g : Z) (s : rg_state) : rg_state :=
  let s := s <| rg_groups ::= list_del g |> in
  match rg_parent (rg s g) with
  | None => s
  | Some p => upd_rg p (fun t => t <| rg_children ::= list_del g |>) s
  end.

Definition sched_change_group (p : Z) (s : rg_state) : rg_state := s <| rg_of ::= alter (fun _ => rg_css s p) p |>.

Definition sched_rt_can_attach (s : rg_state) (g p : Z) : bool :=
  negb (rt_task (tasks (rg_k s) p) && (rg_runtime (rg s g) =? 0)).

(** The threads of the set, with the group each one goes to. *)
Fixpoint cpu_cgroup_can_attach (s : rg_state) (tset : list (Z * Z)) : Z :=
  match tset with
  | [] => 0
  | (p, g) :: tset =>
      if negb (sched_rt_can_attach s g p) then - EINVAL
      else if state (tasks (rg_k s) p) =? TASK_NEW then - EINVAL
      else cpu_cgroup_can_attach s tset
  end.

(** The cgroup core moves the threads to their new groups, unless the check
    refuses, and then calls [cpu_cgroup_attach]. *)
Definition cpu_cgroup_attach (tset : list (Z * Z)) (s : rg_state) : rg_state :=
  foldl (fun s '(p, _) => sched_change_group p s) s tset.
Definition cgroup_attach (tset : list (Z * Z)) (s : rg_state) : rg_state * Z :=
  let ret := cpu_cgroup_can_attach s tset in
  if negb (ret =? 0) then (s, ret)
  else
    let s := foldl (fun s '(p, g) => s <| rg_css ::= alter (fun _ => g) p |>) s tset in
    (cpu_cgroup_attach tset s, 0).

(** The guard of [__sched_setscheduler] for a request from user space. *)
Definition rt_setscheduler_guard (s : rg_state) (p policy : Z) : bool :=
  rt_bandwidth_enabled (rg_k s) && rt_policy policy && (rg_runtime (rg s (rg_of s p)) =? 0).

(** ** The invariant *)

Definition ratio (s : rg_state) (g : Z) : Z := to_ratio (u64 (rg_period (rg s g))) (rg_runtime (rg s g)).
Definition global_ratio (s : rg_state) : Z := to_ratio (global_rt_period (rg_k s)) (global_rt_runtime (rg_k s)).

(** Newer groups come first, so parents come after their children. *)
Fixpoint newest_first (s : rg_state) (l : list Z) : Prop :=
  match l with
  | [] => True
  | g :: l => (forall p, rg_parent (rg s g) = Some p -> p ∈ l) /\ newest_first s l
  end.

Record rg_tree (s : rg_state) : Prop := mkRgTree {
  tree_nodup : NoDup (rg_groups s);
  tree_root : rg_root ∈ rg_groups s /\ rg_parent (rg s rg_root) = None;
  tree_parent g : g ∈ rg_groups s -> g <> rg_root -> exists p, rg_parent (rg s g) = Some p /\ g ∈ rg_children (rg s p);
  tree_child g c : g ∈ rg_groups s -> c ∈ rg_children (rg s g) -> c ∈ rg_groups s /\ rg_parent (rg s c) = Some g;
  tree_children g : g ∈ rg_groups s -> NoDup (rg_children (rg s g));
  tree_order : newest_first s (rg_groups s);
  tree_few : Z.of_nat (length (rg_groups s)) < 2 ^ 40 }.

(** The limits of a group: [limit] is its period and runtime, [sum] what its
    children have. *)
Definition limits_ok (global : Z) (limit : Z * Z) (sum : Z) : Prop :=
  0 <= limit.2 < 2 ^ 64 /\ (limit.2 <= limit.1 \/ limit.2 = RUNTIME_INF) /\
  to_ratio limit.1 limit.2 <= global /\ sum <= to_ratio limit.1 limit.2.

Record rg_ok (s : rg_state) : Prop := mkRgOk {
  ok_tree : rg_tree s;
  ok_limits g : g ∈ rg_groups s ->
    limits_ok (global_ratio s) (u64 (rg_period (rg s g)), rg_runtime (rg s g)) (sum_of (ratio s) (rg_children (rg s g)));
  ok_group p : p ∈ rg_threads s -> rg_of s p ∈ rg_groups s /\ rg_css s p = rg_of s p;
  ok_typed p : p ∈ rg_threads s -> rt_policy (policy (tasks (rg_k s) p)) = true -> rt_task (tasks (rg_k s) p) = true;
  ok_runtime p : p ∈ rg_threads s -> rt_bandwidth_enabled (rg_k s) = true ->
    rt_policy (policy (tasks (rg_k s) p)) = true -> rg_runtime (rg s (rg_of s p)) <> 0 }.

(** ** Ratios *)

Lemma to_ratio_bounds period runtime :
  0 <= period -> 0 <= runtime < 2 ^ 64 -> runtime <= period \/ runtime = RUNTIME_INF -> 0 <= to_ratio period runtime <= BW_UNIT.
Proof.
  intros Hp Hr Hle. unfold to_ratio. assert (HB : BW_UNIT = 2 ^ 20) by done.
  destruct (runtime =? RUNTIME_INF) eqn:Hi; [lia|]. apply Z.eqb_neq in Hi. destruct Hle as [Hle|]; [|done].
  destruct (period =? 0) eqn:H0; [lia|]. apply Z.eqb_neq in H0.
  pose proof (u64_range (Z.shiftl runtime BW_SHIFT)) as [Hu _].
  assert (Hw : u64 (Z.shiftl runtime BW_SHIFT) <= runtime * 2 ^ 20).
  { unfold BW_SHIFT in *. rewrite Z.shiftl_mul_pow2 in * by lia. apply u64_le. lia. }
  split; [apply Z.div_pos; lia|]. rewrite HB. apply Z.div_le_upper_bound; [lia|]. nia.
Qed.

(** The sum of the check does not wrap. *)
Lemma foldl_sum (f : Z -> Z) l :
  (forall x, x ∈ l -> 0 <= f x <= BW_UNIT) -> Z.of_nat (length l) <= 2 ^ 40 ->
  foldl (fun sum x => u64 (sum + f x)) 0 l = sum_of f l.
Proof.
  intros Hf Hl. change BW_UNIT with 1048576 in *. enough (H : forall a, 0 <= a -> a + Z.of_nat (length l) * 1048576 < 2 ^ 64 ->
    foldl (fun sum x => u64 (sum + f x)) a l = a + sum_of f l).
  { rewrite H; [done|lia|lia]. }
  clear Hl. induction l as [|x l IH]; intros a Ha Hlt; cbn; [lia|]. fold (sum_of f l).
  assert (Hx : 0 <= f x <= 1048576) by (apply Hf; set_solver). cbn [length] in Hlt.
  rewrite u64_id by lia. rewrite IH; [lia| |lia|lia]. intros y Hy. apply Hf. set_solver.
Qed.

(** ** The walk reaches every group *)

Lemma walk_ret_zero f l : walk_ret f l = 0 -> forall g, g ∈ l -> f g = 0.
Proof.
  induction l as [|x l IH]; cbn; intros Hw g Hg; [set_solver|].
  destruct (f x =? 0) eqn:E; cbn in Hw; [|apply Z.eqb_neq in E; done]. apply Z.eqb_eq in E.
  apply elem_of_cons in Hg as [->|Hg]; auto.
Qed.

Lemma tg_walk_mono n s r g : g ∈ tg_walk n s r -> g ∈ tg_walk (S n) s r.
Proof.
  revert r. induction n as [|n IH]; intros r Hg; [set_solver|]. cbn in Hg. apply elem_of_cons in Hg as [->|Hg]; [left|].
  right. apply list_elem_of_In, in_flat_map in Hg as (c & Hc & Hg). apply list_elem_of_In, in_flat_map.
  exists c. split; [done|]. apply list_elem_of_In, IH. by apply list_elem_of_In.
Qed.
Lemma tg_walk_le n m s r g : (n <= m)%nat -> g ∈ tg_walk n s r -> g ∈ tg_walk m s r.
Proof. induction 1; [done|]. intros Hg. apply tg_walk_mono. auto. Qed.
Lemma tg_walk_child n s r p g : p ∈ tg_walk n s r -> g ∈ rg_children (rg s p) -> g ∈ tg_walk (S n) s r.
Proof.
  revert r. induction n as [|n IH]; intros r Hp Hg; [set_solver|]. cbn in Hp. apply elem_of_cons in Hp as [->|Hp].
  - right. apply list_elem_of_In, in_flat_map. exists g. split; [by apply list_elem_of_In|]. left. done.
  - right. apply list_elem_of_In, in_flat_map in Hp as (c & Hc & Hp). apply list_elem_of_In, in_flat_map.
    exists c. split; [done|]. apply list_elem_of_In, IH; [by apply list_elem_of_In|done].
Qed.

Lemma tg_walk_all s : rg_tree s -> forall g, g ∈ rg_groups s -> g ∈ tg_walk (length (rg_groups s)) s rg_root.
Proof.
  intros Ht. enough (H : forall l l', rg_groups s = l' ++ l -> newest_first s l -> forall g, g ∈ l -> g ∈ tg_walk (length l) s rg_root).
  { apply (H (rg_groups s) []); [done|apply Ht]. }
  induction l as [|x l IH]; intros l' El Hn g Hg; [set_solver|]. destruct Hn as [Hp Hn].
  assert (IH' : forall g, g ∈ l -> g ∈ tg_walk (length l) s rg_root).
  { apply (IH (l' ++ [x])); [by rewrite <- app_assoc|done]. }
  apply elem_of_cons in Hg as [->|Hg]; [|apply (tg_walk_le (length l)); [cbn; lia|auto]].
  destruct (decide (x = rg_root)) as [->|Hx]; [left|].
  destruct (tree_parent s Ht x) as (p & Ep & Hc); [rewrite El; set_solver|done|].
  apply (tg_walk_child (length l) s rg_root p); [|done]. apply IH'. by apply Hp.
Qed.

(** ** What a successful check shows *)

Definition ratio_with (s : rg_state) (d : rt_schedulable_data) (g : Z) : Z :=
  to_ratio (rd_limits s d g).1 (rd_limits s d g).2.

Section Check.
Context (s : rg_state) (d : rt_schedulable_data) (Ht : rg_tree s).
Context (Hd : 0 <= rd_period d < 2 ^ 64 /\ 0 <= rd_runtime d < 2 ^ 64).
Context (Hs : forall g, g ∈ rg_groups s -> 0 <= rg_runtime (rg s g) < 2 ^ 64).
Context (Hall : forall g, g ∈ rg_groups s -> tg_rt_schedulable s d g = 0).

Lemma rd_limits_range g : g ∈ rg_groups s -> 0 <= (rd_limits s d g).1 < 2 ^ 64 /\ 0 <= (rd_limits s d g).2 < 2 ^ 64.
Proof.
  intros Hg. unfold rd_limits. case_bool_decide; cbn; [done|]. split; [apply u64_range|auto].
Qed.

(** The tests of [tg_rt_schedulable], one by one. *)
Lemma schedulable_cases g :
  g ∈ rg_groups s ->
  ((rd_limits s d g).2 <= (rd_limits s d g).1 \/ (rd_limits s d g).2 = RUNTIME_INF) /\
  (rt_bandwidth_enabled (rg_k s) = true -> (rd_limits s d g).2 = 0 -> tg_has_rt_tasks s g = false) /\
  ratio_with s d g <= global_ratio s /\
  foldl (fun sum c => u64 (sum + ratio_with s d c)) 0 (rg_children (rg s g)) <= ratio_with s d g.
Proof.
  intros Hg. specialize (Hall g Hg). unfold tg_rt_schedulable in Hall. unfold ratio_with, global_ratio.
  destruct (rd_limits s d g) as [period runtime] eqn:E. cbn [fst snd].
  destruct ((period <? runtime) && negb (runtime =? RUNTIME_INF)) eqn:H1; [done|].
  destruct (rt_bandwidth_enabled (rg_k s) && (runtime =? 0) && tg_has_rt_tasks s g) eqn:H2; [done|].
  destruct (_ <? to_ratio period runtime) eqn:H3; [done|]. apply Z.ltb_ge in H3.
  destruct (to_ratio period runtime <? _) eqn:H4; [done|]. apply Z.ltb_ge in H4. split_and!.
  - apply andb_false_iff in H1 as [H1|H1]; [left; by apply Z.ltb_ge in H1|right]. by apply negb_false_iff, Z.eqb_eq in H1.
  - intros He ->. by rewrite He in H2.
  - done.
  - transitivity (foldl (fun sum child => let '(period, runtime) := rd_limits s d child in u64 (sum + to_ratio period runtime)) 0
      (rg_children (rg s g))); [|done]. apply Z.eq_le_incl. clear. generalize 0. induction (rg_children (rg s g)) as [|c l IH];
      intros a; [done|]. cbn [foldl]. rewrite IH. f_equal. destruct (rd_limits s d c) as [period' runtime']. reflexivity.
Qed.

Lemma ratio_with_bounds g : g ∈ rg_groups s -> 0 <= ratio_with s d g <= BW_UNIT.
Proof.
  intros Hg. destruct (rd_limits_range g Hg), (schedulable_cases g Hg) as (? & _). apply to_ratio_bounds; [lia|done|done].
Qed.

Lemma schedulable_limits g :
  g ∈ rg_groups s ->
  limits_ok (global_ratio s) (rd_limits s d g) (sum_of (ratio_with s d) (rg_children (rg s g))).
Proof.
  intros Hg. destruct (schedulable_cases g Hg) as (Hle & _ & Hglob & Hsum). destruct (rd_limits_range g Hg) as [_ Hr].
  split_and!; [apply Hr|apply Hr|done|done|]. fold (ratio_with s d g). rewrite foldl_sum in Hsum; [done| |].
  - intros c Hc. apply ratio_with_bounds. by apply (tree_child s Ht g c).
  - pose proof (tree_few s Ht). assert (length (rg_children (rg s g)) <= length (rg_groups s))%nat; [|lia].
    apply submseteq_length, NoDup_submseteq; [by apply (tree_children s Ht)|]. intros c Hc. by apply (tree_child s Ht g c).
Qed.
End Check.

Lemma schedulable_all s tg period runtime :
  rg_tree s -> __rt_schedulable s tg period runtime = 0 ->
  forall g, g ∈ rg_groups s -> tg_rt_schedulable s (mkRtSchedulable tg period runtime) g = 0.
Proof.
  intros Ht Hz g Hg. unfold __rt_schedulable in Hz. eapply walk_ret_zero; [exact Hz|]. by apply tg_walk_all.
Qed.

Lemma has_rt_tasks s g :
  tg_has_rt_tasks s g = false -> forall p, p ∈ rg_threads s -> rt_task (tasks (rg_k s) p) = true -> rg_of s p <> g.
Proof.
  intros Hf p Hp Hr E. unfold tg_has_rt_tasks in Hf. apply not_true_iff_false in Hf. apply Hf, existsb_exists.
  exists p. split; [by apply list_elem_of_In|]. by rewrite Hr, E, Z.eqb_refl.
Qed.

(** ** The operations keep the invariant *)

Lemma rg_upd g f s e : rg (upd_rg g f s) e = if decide (g = e) then f (rg s g) else rg s e.
Proof. unfold upd_rg. cbn. destruct (decide (g = e)) as [<-|]; [by rewrite fn_lookup_alter|by rewrite fn_lookup_alter_ne]. Qed.

(** The same tree; and the same limits too. *)
Definition same_tree (s s' : rg_state) : Prop :=
  rg_groups s' = rg_groups s /\
  forall e, rg_parent (rg s' e) = rg_parent (rg s e) /\ rg_children (rg s' e) = rg_children (rg s e).
Definition same_limits (s s' : rg_state) : Prop :=
  same_tree s s' /\ rg_k s' = rg_k s /\ rg_threads s' = rg_threads s /\ rg_css s' = rg_css s /\ rg_of s' = rg_of s /\
  forall e, rg_period (rg s' e) = rg_period (rg s e) /\ rg_runtime (rg s' e) = rg_runtime (rg s e).

Lemma newest_first_parents s s' l :
  (forall e, e ∈ l -> rg_parent (rg s' e) = rg_parent (rg s e)) -> newest_first s l -> newest_first s' l.
Proof.
  induction l as [|x l IH]; intros He Hn; [done|]. destruct Hn as [Hp Hn]. split.
  - intros p. rewrite He by set_solver. apply Hp.
  - apply IH; [|done]. intros e Hl. apply He. set_solver.
Qed.
Lemma newest_first_in s l g p : newest_first s l -> g ∈ l -> rg_parent (rg s g) = Some p -> p ∈ l.
Proof.
  induction l as [|x l IH]; intros Hn Hg Hp; [set_solver|]. destruct Hn as [Hx Hn].
  apply elem_of_cons in Hg as [->|Hg]; [right; auto|right; auto].
Qed.

Lemma rg_tree_same s s' : same_tree s s' -> rg_tree s -> rg_tree s'.
Proof.
  intros [Eg He] [A B C D E F G]. constructor; rewrite ?Eg; try done.
  - destruct (He rg_root) as [-> _]. done.
  - intros g Hg Hr. destruct (C g Hg Hr) as (p & Hp & Hc). exists p. destruct (He g) as [-> _], (He p) as [_ ->]. done.
  - intros g c Hg Hc. destruct (He g) as [_ Eg']. rewrite Eg' in Hc. destruct (He c) as [-> _]. by apply D.
  - intros g Hg. destruct (He g) as [_ ->]. auto.
  - eapply newest_first_parents; [|exact F]. intros e _. apply He.
Qed.

Lemma same_limits_ratio s s' : same_limits s s' -> forall e, ratio s' e = ratio s e.
Proof. intros (_ & _ & _ & _ & _ & He) e. unfold ratio. by destruct (He e) as [-> ->]. Qed.

Lemma rg_ok_same s s' : same_limits s s' -> rg_ok s -> rg_ok s'.
Proof.
  intros Hs [A B C D E]. pose proof Hs as ((Eg & Etr) & Ek & Et & Ec & Eo & El). constructor.
  - by apply (rg_tree_same s).
  - intros g Hg. rewrite Eg in Hg. specialize (B g Hg). unfold global_ratio in *. rewrite Ek.
    destruct (El g) as [-> ->], (Etr g) as [_ ->].
    rewrite (sum_of_ext (ratio s') (ratio s)); [done|]. intros c _. by apply same_limits_ratio.
  - intros p Hp. rewrite Et in Hp. rewrite Eo, Ec, Eg. auto.
  - intros p Hp. rewrite Et in Hp. rewrite Ek. auto.
  - intros p Hp. rewrite Et in Hp. rewrite Ek, Eo. destruct (El (rg_of s p)) as [_ ->]. auto.
Qed.

(** Setting the runtime of the queues of a group. *)
Lemma same_limits_queues g (v : rt_group -> Z) l s :
  same_limits s (foldl (fun s i => upd_rg g (fun t => t <| rg_rt_runtime ::= alter (fun _ => v t) i |>) s) s l).
Proof.
  revert s. induction l as [|i l IH]; intros s; [by repeat split|]. cbn.
  match goal with |- same_limits s (foldl _ ?x l) => set (s1 := x); specialize (IH s1); set (s2 := foldl _ s1 l) in * end.
  assert (H1 : forall e, rg_parent (rg s1 e) = rg_parent (rg s e) /\ rg_children (rg s1 e) = rg_children (rg s e) /\
    rg_period (rg s1 e) = rg_period (rg s e) /\ rg_runtime (rg s1 e) = rg_runtime (rg s e)).
  { intros e. unfold s1. rewrite rg_upd. by destruct (decide (g = e)) as [<-|]. }
  destruct IH as ((Eg & Etr) & Ek & Et & Ec & Eo & El). clearbody s2. split; [split|split_and!].
  - rewrite Eg. done.
  - intros e. destruct (Etr e) as [-> ->]. destruct (H1 e) as (-> & -> & _). done.
  - by rewrite Ek.
  - by rewrite Et.
  - by rewrite Ec.
  - by rewrite Eo.
  - intros e. destruct (El e) as [-> ->]. destruct (H1 e) as (_ & _ & -> & ->). done.
Qed.

Lemma rg_runtime_range s : rg_ok s -> forall g, g ∈ rg_groups s -> 0 <= rg_runtime (rg s g) < 2 ^ 64.
Proof. intros Hok g Hg. by destruct (ok_limits s Hok g Hg) as (? & _). Qed.

(** From a successful check of [s] with [d], a state [s'] in which [d] is in
    force. *)
Lemma checked_ok s s' d :
  rg_ok s -> same_tree s s' -> rg_threads s' = rg_threads s -> rg_css s' = rg_css s -> rg_of s' = rg_of s ->
  rt_bandwidth_enabled (rg_k s') = rt_bandwidth_enabled (rg_k s) -> global_ratio s' = global_ratio s ->
  (forall p, tasks (rg_k s') p = tasks (rg_k s) p) ->
  (forall e, e ∈ rg_groups s -> (u64 (rg_period (rg s' e)), rg_runtime (rg s' e)) = rd_limits s d e) ->
  0 <= rd_period d < 2 ^ 64 /\ 0 <= rd_runtime d < 2 ^ 64 ->
  (forall g, g ∈ rg_groups s -> tg_rt_schedulable s d g = 0) -> rg_ok s'.
Proof.
  intros Hok Htr Et Ec Eo Een Egl Etk El Hd Hall. pose proof Htr as [Eg He]. pose proof (ok_tree s Hok) as Ht.
  constructor.
  - by apply (rg_tree_same s).
  - intros g Hg. rewrite Eg in Hg. rewrite Egl, El by done. destruct (He g) as [_ ->].
    rewrite (sum_of_ext (ratio s') (ratio_with s d)).
    + apply schedulable_limits; try done. by apply rg_runtime_range.
    + intros c Hc. destruct (tree_child s Ht g c Hg Hc) as [Hcg _]. specialize (El c Hcg). unfold ratio, ratio_with.
      by rewrite <- El.
  - intros p Hp. rewrite Et in Hp. rewrite Eo, Ec, Eg. by apply (ok_group s Hok).
  - intros p Hp. rewrite Et in Hp. rewrite Etk. by apply (ok_typed s Hok).
  - intros p Hp Hen Hpol Hz. rewrite Et in Hp. rewrite Etk in Hpol. rewrite Een in Hen. rewrite Eo in Hz.
    destruct (ok_group s Hok p Hp) as [Hg _]. specialize (El _ Hg). rewrite Hz in El.
    destruct (schedulable_cases s d Hall _ Hg) as (_ & Hno & _). rewrite <- El in Hno.
    by apply (has_rt_tasks s (rg_of s p) (Hno Hen eq_refl) p Hp); [apply (ok_typed s Hok)|].
Qed.

Lemma set_bandwidth_ok g period runtime s :
  0 <= period < 2 ^ 64 -> 0 <= runtime < 2 ^ 64 -> rg_ok s -> rg_ok (tg_set_rt_bandwidth g period runtime s).1.
Proof.
  intros Hp Hr Hok. unfold tg_set_rt_bandwidth. destruct (_ && _); [done|]. destruct (period =? 0); [done|].
  destruct (__rt_schedulable s (Some g) period runtime =? 0) eqn:E; [|done]. apply Z.eqb_eq in E. cbn [negb fst].
  set (s1 := upd_rg g _ s). eapply rg_ok_same; [apply (same_limits_queues g (fun _ => runtime))|].
  apply (checked_ok s s1 (mkRtSchedulable (Some g) period runtime)); try done.
  - split; [done|]. intros e. unfold s1. rewrite rg_upd. by destruct (decide (g = e)) as [<-|].
  - intros e _. unfold s1, rd_limits. rewrite rg_upd. cbn [rd_tg rd_period rd_runtime].
    destruct (decide (g = e)) as [<-|Hne].
    + rewrite bool_decide_true by done. cbn. by rewrite u64_id.
    + rewrite bool_decide_false by congruence. done.
  - apply schedulable_all; [apply Hok|done].
Qed.

Lemma global_handler_ok period runtime dl_ret s : rg_ok s -> rg_ok (rt_global_handler period runtime dl_ret s).1.
Proof.
  intros Hok. unfold rt_global_handler. set (s' := s <| rg_k ::= _ |>).
  destruct (negb _); [done|]. destruct (negb _); [done|]. unfold rt_global_constraints.
  destruct (__rt_schedulable s' None 0 0 =? 0) eqn:E; [|done]. apply Z.eqb_eq in E. cbn [negb fst].
  (* the tree is the same under the new setting, which the check looked at *)
  assert (Ht : rg_tree s') by (by apply (rg_tree_same s); [split|apply Hok]).
  pose proof (schedulable_all s' None 0 0 Ht E) as Hall.
  assert (Hr : forall g, g ∈ rg_groups s' -> 0 <= rg_runtime (rg s' g) < 2 ^ 64) by (intros g Hg; exact (rg_runtime_range s Hok g Hg)).
  assert (Hd : 0 <= 0 < 2 ^ 64 /\ 0 <= 0 < 2 ^ 64) by lia.
  constructor.
  - by apply (rg_tree_same s').
  - intros g Hg. apply (schedulable_limits s' (mkRtSchedulable None 0 0) Ht Hd Hr Hall g Hg).
  - intros p Hp. apply (ok_group s Hok p Hp).
  - intros p Hp. apply (ok_typed s Hok p Hp).
  - intros p Hp Hen Hpol Hz. destruct (ok_group s Hok p Hp) as [Hg _].
    destruct (schedulable_cases s' (mkRtSchedulable None 0 0) Hall _ Hg) as (_ & Hno & _).
    by apply (has_rt_tasks s' (rg_of s p) (Hno Hen Hz) p Hp); [apply (ok_typed s Hok)|].
Qed.

Lemma global_ratio_pos s : rg_ok s -> 0 <= global_ratio s.
Proof.
  intros Hok. destruct (ok_limits s Hok rg_root) as (Hr & Hle & Hg & _); [apply (tree_root s (ok_tree s Hok))|].
  cbn [fst snd] in *. pose proof (u64_range (rg_period (rg s rg_root))).
  destruct (to_ratio_bounds (u64 (rg_period (rg s rg_root))) (rg_runtime (rg s rg_root))); [lia|done|done|]. lia.
Qed.
Lemma ratio_pos s g : rg_ok s -> g ∈ rg_groups s -> 0 <= ratio s g.
Proof.
  intros Hok Hin. destruct (ok_limits s Hok g Hin) as (Hr & Hle & _). cbn [fst snd] in *.
  pose proof (u64_range (rg_period (rg s g))). unfold ratio. apply to_ratio_bounds; [lia|done|done].
Qed.
Lemma to_ratio_zero p : to_ratio p 0 = 0.
Proof. unfold to_ratio. destruct (p =? 0); [done|]. change (Z.shiftl 0 BW_SHIFT) with 0. by rewrite u64_id. Qed.

(** [s'] is [s] with the new group [g], without runtime, below [parent]. *)
Record grown (g parent : Z) (s s' : rg_state) : Prop := mkGrown {
  grown_groups : rg_groups s' = g :: rg_groups s;
  grown_rest : rg_k s' = rg_k s /\ rg_threads s' = rg_threads s /\ rg_css s' = rg_css s /\ rg_of s' = rg_of s;
  grown_new : rg_parent (rg s' g) = Some parent /\ rg_children (rg s' g) = [] /\ rg_runtime (rg s' g) = 0;
  grown_old e : e <> g -> rg_parent (rg s' e) = rg_parent (rg s e) /\
    rg_children (rg s' e) = (if decide (e = parent) then g :: rg_children (rg s e) else rg_children (rg s e)) /\
    rg_period (rg s' e) = rg_period (rg s e) /\ rg_runtime (rg s' e) = rg_runtime (rg s e) }.

Lemma online_grown g parent s :
  parent <> g -> grown g parent s (sched_online_group g parent (sched_create_group (Some g) true true s).1).
Proof.
  intros Hpg. cbn [sched_create_group negb orb fst]. unfold alloc_rt_sched_group.
  set (s0 := upd_rg g _ s). pose proof (same_limits_queues g rg_runtime
    (for_each_cpu (rg_k s0) (cpu_possible_mask (rg_k s0))) s0) as Hs.
  set (s1 := foldl _ s0 _) in *. clearbody s1. destruct Hs as ((Eg & Etr) & Ek & Et & Ec & Eo & El).
  assert (E0 : forall e, e <> g -> rg s0 e = rg s e) by (intros e Hne; unfold s0; by rewrite rg_upd, decide_False).
  constructor; unfold sched_online_group.
  - cbn. by rewrite Eg.
  - by split_and!.
  - rewrite rg_upd, decide_False, rg_upd, decide_True by done. cbn. split_and!; [done|done|].
    destruct (El g) as [_ ->]. unfold s0. by rewrite rg_upd, decide_True.
  - intros e Hne. destruct (Etr e) as [T1 T2], (El e) as [L1 L2]. rewrite E0 in T1, T2, L1, L2 by done.
    rewrite rg_upd. destruct (decide (parent = e)) as [<-|Hpe].
    + rewrite rg_upd, decide_False, decide_True by done. cbn. by rewrite T1, T2, L1, L2.
    + rewrite rg_upd, !decide_False by done. cbn. by rewrite T1, T2, L1, L2.
Qed.

Lemma grown_tree g parent s s' :
  grown g parent s s' -> rg_tree s -> g ∉ rg_groups s -> parent ∈ rg_groups s ->
  Z.of_nat (length (rg_groups s)) + 1 < 2 ^ 40 -> rg_tree s'.
Proof.
  intros [Eg _ (Pg & Cg & _) Eo] Ht Hg Hp Hfew. pose proof Ht as [A B C D E F G].
  assert (Hin : forall e, e ∈ rg_groups s -> e <> g) by (intros e He ->; done).
  constructor; rewrite ?Eg.
  - by constructor.
  - split; [set_solver|]. destruct (Eo rg_root) as (-> & _); [apply Hin, B|apply B].
  - intros e He Hr. apply elem_of_cons in He as [->|He].
    + exists parent. split; [done|]. destruct (Eo parent) as (_ & -> & _); [by apply Hin|]. rewrite decide_True by done. set_solver.
    + destruct (C e He Hr) as (p & Hpe & Hc). exists p. destruct (Eo e) as (-> & _); [by apply Hin|]. split; [done|].
      destruct (Eo p) as (_ & -> & _); [apply Hin; by eapply newest_first_in|]. case_decide; set_solver.
  - intros e c He Hc. apply elem_of_cons in He as [->|He]; [rewrite Cg in Hc; set_solver|].
    destruct (Eo e) as (_ & Ech & _); [by apply Hin|]. rewrite Ech in Hc. case_decide as Hep.
    + apply elem_of_cons in Hc as [->|Hc]; [split; [set_solver|by subst]|]. destruct (D e c He Hc) as [Hcg Hpc].
      destruct (Eo c) as (-> & _); [by apply Hin|]. split; [set_solver|done].
    + destruct (D e c He Hc) as [Hcg Hpc]. destruct (Eo c) as (-> & _); [by apply Hin|]. split; [set_solver|done].
  - intros e He. apply elem_of_cons in He as [->|He]; [rewrite Cg; constructor|].
    destruct (Eo e) as (_ & -> & _); [by apply Hin|]. case_decide; [|auto]. constructor; [|auto].
    intros Hc. by apply (D e g He) in Hc as [? _].
  - split; [intros p; rewrite Pg; by intros [= <-]|]. eapply newest_first_parents; [|exact F].
    intros e He. by destruct (Eo e (Hin e He)) as (-> & _).
  - cbn [length]. lia.
Qed.

Lemma grown_ok g parent s s' :
  grown g parent s s' -> rg_ok s -> g ∉ rg_groups s -> parent ∈ rg_groups s ->
  Z.of_nat (length (rg_groups s)) + 1 < 2 ^ 40 -> rg_ok s'.
Proof.
  intros Hgr Hok Hg Hp Hfew. pose proof (grown_tree _ _ _ _ Hgr (ok_tree s Hok) Hg Hp Hfew) as Ht.
  destruct Hgr as [Eg (Ek & Et & Ec & Eo) (Pg & Cg & Rg) El].
  assert (Hin : forall e, e ∈ rg_groups s -> e <> g) by (intros e He ->; done).
  assert (Er : forall e, e ∈ rg_groups s -> ratio s' e = ratio s e).
  { intros e He. unfold ratio. by destruct (El e (Hin e He)) as (_ & _ & -> & ->). }
  assert (Egl : global_ratio s' = global_ratio s) by (unfold global_ratio; by rewrite Ek).
  constructor.
  - done.
  - intros e He. rewrite Eg in He. rewrite Egl. apply elem_of_cons in He as [->|He].
    + rewrite Cg, Rg. unfold limits_ok. cbn [fst snd]. rewrite to_ratio_zero. pose proof (global_ratio_pos s Hok).
      pose proof (u64_range (rg_period (rg s' g))). cbn. lia.
    + destruct (El e (Hin e He)) as (_ & -> & -> & ->). pose proof (ok_limits s Hok e He) as Hl.
      assert (Es : sum_of (ratio s') (rg_children (rg s e)) = sum_of (ratio s) (rg_children (rg s e))).
      { apply sum_of_ext. intros c Hc. apply Er. by apply (tree_child s (ok_tree s Hok) e c). }
      case_decide; [|by rewrite Es]. cbn. fold (sum_of (ratio s') (rg_children (rg s e))). rewrite Es.
      unfold ratio at 1. by rewrite Rg, to_ratio_zero, Z.add_0_l.
  - intros p Hpt. rewrite Et in Hpt. rewrite Eo, Ec, Eg. destruct (ok_group s Hok p Hpt). split; [set_solver|done].
  - intros p Hpt. rewrite Et in Hpt. rewrite Ek. by apply (ok_typed s Hok).
  - intros p Hpt. rewrite Et in Hpt. rewrite Ek, Eo. destruct (ok_group s Hok p Hpt) as [Hof _].
    destruct (El _ (Hin _ Hof)) as (_ & _ & _ & ->). by apply (ok_runtime s Hok).
Qed.

(** [s'] is [s] without the group [g], a child of [p] that has no children. *)
Record shrunk (g p : Z) (s s' : rg_state) : Prop := mkShrunk {
  shrunk_groups : rg_groups s' = list_del g (rg_groups s);
  shrunk_rest : rg_k s' = rg_k s /\ rg_threads s' = rg_threads s /\ rg_css s' = rg_css s /\ rg_of s' = rg_of s;
  shrunk_old e : rg_parent (rg s' e) = rg_parent (rg s e) /\
    rg_children (rg s' e) = (if decide (p = e) then list_del g (rg_children (rg s e)) else rg_children (rg s e)) /\
    rg_period (rg s' e) = rg_period (rg s e) /\ rg_runtime (rg s' e) = rg_runtime (rg s e) }.

Lemma offline_shrunk g p s : rg_parent (rg s g) = Some p -> shrunk g p s (sched_offline_group g s).
Proof.
  intros Hp. unfold sched_offline_group. cbv zeta.
  change (rg_parent (rg (s <| rg_groups ::= list_del g |>) g)) with (rg_parent (rg s g)). rewrite Hp.
  constructor; [done|by split_and!|]. intros e. rewrite rg_upd. by destruct (decide (p = e)) as [<-|].
Qed.

Lemma newest_first_del s g l :
  (forall e, e ∈ l -> rg_parent (rg s e) <> Some g) -> newest_first s l -> newest_first s (list_del g l).
Proof.
  induction l as [|x l IH]; intros Hg Hn; [done|]. destruct Hn as [Hp Hn].
  assert (IH' : newest_first s (list_del g l)) by (apply IH; [intros e He; apply Hg; set_solver|done]).
  unfold list_del. rewrite filter_cons. case_decide; [|done]. split; [|done]. intros q Hq.
  apply elem_of_list_del. split; [auto|]. intros ->. apply (Hg x); [set_solver|done].
Qed.

Lemma shrunk_tree g p s s' :
  shrunk g p s s' -> rg_tree s -> g ∈ rg_groups s -> g <> rg_root -> rg_parent (rg s g) = Some p ->
  rg_children (rg s g) = [] -> rg_tree s'.
Proof.
  intros [Eg _ El] Ht Hg Hr Hp Hc. pose proof Ht as [A B C D E F G].
  assert (Hpar : forall e, e ∈ rg_groups s -> rg_parent (rg s e) <> Some g).
  { intros e He Hq. destruct (decide (e = rg_root)) as [->|Hne]; [destruct B; congruence|].
    destruct (C e He Hne) as (q & Hq' & Hin). rewrite Hq in Hq'. injection Hq' as <-. rewrite Hc in Hin. set_solver. }
  assert (Hsub : forall e c, c ∈ rg_children (rg s' e) -> c ∈ rg_children (rg s e)).
  { intros e c. destruct (El e) as (_ & -> & _). case_decide; [|done]. rewrite elem_of_list_del. by intros [? _]. }
  constructor; rewrite ?Eg.
  - auto with lists.
  - split; [apply elem_of_list_del; split; [apply B|done]|]. destruct (El rg_root) as (-> & _). apply B.
  - intros e He Hne. apply elem_of_list_del in He as [He Heg]. destruct (C e He Hne) as (q & Hq & Hin). exists q.
    destruct (El e) as (-> & _). split; [done|]. destruct (El q) as (_ & -> & _). case_decide; [|done]. by apply elem_of_list_del.
  - intros e c He Hce. apply elem_of_list_del in He as [He Heg]. pose proof (Hsub _ _ Hce) as Hce'.
    destruct (D e c He Hce') as [Hcg Hpc]. destruct (El c) as (-> & _). split; [|done]. apply elem_of_list_del. split; [done|].
    intros ->. rewrite Hp in Hpc. injection Hpc as <-. destruct (El p) as (_ & Ech & _). rewrite Ech, decide_True in Hce by done.
    apply elem_of_list_del in Hce. tauto.
  - intros e He. apply elem_of_list_del in He as [He _]. destruct (El e) as (_ & -> & _). case_decide; auto with lists.
  - eapply newest_first_parents; [intros e _; apply El|]. by apply newest_first_del.
  - assert (length (list_del g (rg_groups s)) <= length (rg_groups s))%nat; [|lia].
    unfold list_del. apply length_filter.
Qed.

Lemma shrunk_ok g p s s' :
  shrunk g p s s' -> rg_ok s -> g ∈ rg_groups s -> g <> rg_root -> rg_parent (rg s g) = Some p ->
  rg_children (rg s g) = [] -> (forall q, q ∈ rg_threads s -> rg_of s q <> g) -> rg_ok s'.
Proof.
  intros Hsh Hok Hg Hr Hp Hc Hth. pose proof (shrunk_tree _ _ _ _ Hsh (ok_tree s Hok) Hg Hr Hp Hc) as Ht.
  destruct Hsh as [Eg (Ek & Et & Ec & Eo) El].
  assert (Er : forall e, ratio s' e = ratio s e).
  { intros e. unfold ratio. by destruct (El e) as (_ & _ & -> & ->). }
  assert (Egl : global_ratio s' = global_ratio s) by (unfold global_ratio; by rewrite Ek).
  constructor; rewrite ?Et.
  - done.
  - intros e He. rewrite Eg in He. apply elem_of_list_del in He as [He _]. rewrite Egl.
    destruct (ok_limits s Hok e He) as (L1 & L2 & L3 & L4). destruct (El e) as (_ & -> & -> & ->).
    split; [exact L1|split; [exact L2|split; [exact L3|]]].
    rewrite (sum_of_ext (ratio s') (ratio s)) by auto. etransitivity; [|exact L4]. case_decide as Hpe; [|done]. subst e.
    assert (Hin : g ∈ rg_children (rg s p)).
    { destruct (tree_parent s (ok_tree s Hok) g Hg Hr) as (q & Hq & Hin). congruence. }
    rewrite (sum_of_Permutation (ratio s) (rg_children (rg s p)) (g :: list_del g (rg_children (rg s p)))).
    + cbn. fold (sum_of (ratio s) (list_del g (rg_children (rg s p)))). pose proof (ratio_pos s g Hok Hg). lia.
    + apply list_del_Permutation; [by apply (tree_children s (ok_tree s Hok))|done].
  - intros q Hq. rewrite Eo, Ec, Eg. destruct (ok_group s Hok q Hq). split; [|done]. apply elem_of_list_del. auto.
  - intros q Hq. rewrite Ek. by apply (ok_typed s Hok).
  - intros q Hq. rewrite Ek, Eo. destruct (El (rg_of s q)) as (_ & _ & _ & ->). by apply (ok_runtime s Hok).
Qed.

(** ** Threads *)

(** Only the groups of the threads differ. *)
Lemma regroup_ok s s' :
  rg_ok s -> rg_k s' = rg_k s -> rg s' = rg s -> rg_groups s' = rg_groups s -> rg_threads s' = rg_threads s ->
  (forall p, p ∈ rg_threads s -> rg_css s' p = rg_of s' p /\
     (rg_of s' p = rg_of s p \/
      rg_of s' p ∈ rg_groups s /\ (rt_task (tasks (rg_k s) p) = true -> rg_runtime (rg s (rg_of s' p)) <> 0))) ->
  rg_ok s'.
Proof.
  intros Hok Ek Er Eg Et Hp. constructor.
  - apply (rg_tree_same s); [|apply Hok]. split; [done|]. intros e. by rewrite Er.
  - intros g Hg. rewrite Eg in Hg. unfold global_ratio. rewrite Ek, Er.
    rewrite (sum_of_ext (ratio s') (ratio s)); [by apply (ok_limits s Hok)|]. intros c _. unfold ratio. by rewrite Er.
  - intros p Hpt. rewrite Et in Hpt. rewrite Eg. destruct (Hp p Hpt) as [E1 E2]. split; [|done].
    destruct E2 as [-> | [? _]]; [by apply (ok_group s Hok)|done].
  - intros p Hpt. rewrite Et in Hpt. rewrite Ek. by apply (ok_typed s Hok).
  - intros p Hpt Hen Hpol. rewrite Et in Hpt. rewrite Ek in Hen, Hpol. rewrite Er.
    destruct (Hp p Hpt) as [_ [-> | [_ Hz]]]; [by apply (ok_runtime s Hok)|]. apply Hz. by apply (ok_typed s Hok).
Qed.

Lemma can_attach_zero s tset :
  cpu_cgroup_can_attach s tset = 0 -> forall p g, (p, g) ∈ tset -> rt_task (tasks (rg_k s) p) = true -> rg_runtime (rg s g) <> 0.
Proof.
  induction tset as [|[q h] tset IH]; intros Hz p g Hin Hrt; [set_solver|]. cbn in Hz.
  destruct (sched_rt_can_attach s h q) eqn:Ha; cbn in Hz; [|done]. destruct (_ =? TASK_NEW); [done|].
  apply elem_of_cons in Hin as [[= -> ->]|Hin]; [|by eapply IH]. unfold sched_rt_can_attach in Ha. rewrite Hrt in Ha.
  by apply negb_true_iff, Z.eqb_neq in Ha.
Qed.

Lemma attach_css tset s :
  let s' := foldl (fun s '(p, g) => s <| rg_css ::= alter (fun _ => g) p |>) s tset in
  rg_k s' = rg_k s /\ rg s' = rg s /\ rg_groups s' = rg_groups s /\ rg_threads s' = rg_threads s /\ rg_of s' = rg_of s /\
  forall p, (rg_css s' p = rg_css s p /\ p ∉ tset.*1) \/ (p, rg_css s' p) ∈ tset.
Proof.
  revert s. induction tset as [|[q h] tset IH]; intros s; cbn [foldl]; cbv zeta;
    [split_and!; try done; intros p; left; split; [done|set_solver]|].
  set (x := s <| rg_css ::= _ |>). specialize (IH x). cbv zeta in IH. set (s' := foldl _ x tset) in *. clearbody s'.
  destruct IH as (Ak & Ar & Ag & At & Ao & Hp). split_and!; [by rewrite Ak|by rewrite Ar|by rewrite Ag|by rewrite At|by rewrite Ao|].
  intros p. destruct (Hp p) as [[E Hn]|Hin]; [|right; set_solver]. unfold x in E. cbn in E.
  destruct (decide (q = p)) as [->|Hne].
  - right. rewrite E, fn_lookup_alter. left.
  - left. rewrite E, fn_lookup_alter_ne by done. split; [done|set_solver].
Qed.
Lemma attach_of tset s :
  let s' := cpu_cgroup_attach tset s in
  rg_k s' = rg_k s /\ rg s' = rg s /\ rg_groups s' = rg_groups s /\ rg_threads s' = rg_threads s /\ rg_css s' = rg_css s /\
  forall p, (rg_of s' p = rg_of s p /\ p ∉ tset.*1) \/ (rg_of s' p = rg_css s p /\ p ∈ tset.*1).
Proof.
  unfold cpu_cgroup_attach. revert s. induction tset as [|[q h] tset IH]; intros s; cbn [foldl]; cbv zeta;
    [split_and!; try done; intros p; left; split; [done|set_solver]|].
  set (x := sched_change_group q s). specialize (IH x). cbv zeta in IH. set (s' := foldl _ x tset) in *. clearbody s'.
  destruct IH as (Ak & Ar & Ag & At & Ac & Hp). split_and!; [by rewrite Ak|by rewrite Ar|by rewrite Ag|by rewrite At|by rewrite Ac|].
  intros p. destruct (Hp p) as [[E Hn]|[E Hin]]; [|right; split; [done|set_solver]]. unfold x, sched_change_group in E. cbn in E.
  destruct (decide (q = p)) as [->|Hne].
  - right. rewrite E, fn_lookup_alter. split; [done|set_solver].
  - left. rewrite E, fn_lookup_alter_ne by done. split; [done|set_solver].
Qed.

Lemma attach_ok tset s :
  rg_ok s -> (forall p g, (p, g) ∈ tset -> g ∈ rg_groups s) -> rg_ok (cgroup_attach tset s).1.
Proof.
  intros Hok Hin. unfold cgroup_attach. destruct (cpu_cgroup_can_attach s tset =? 0) eqn:E; [|done]. apply Z.eqb_eq in E.
  cbn [negb fst]. pose proof (attach_css tset s) as Hc. cbn zeta in Hc.
  set (s1 := foldl _ s tset) in *. clearbody s1. destruct Hc as (Ck & Cr & Cg & Ct & Co & Hc).
  pose proof (attach_of tset s1) as Ho. cbn zeta in Ho. set (s2 := cpu_cgroup_attach tset s1) in *. clearbody s2.
  destruct Ho as (Ok & Or & Og & Ot & Oc & Ho).
  apply (regroup_ok s); [done|congruence..|]. intros p Hp. destruct (ok_group s Hok p Hp) as [_ Ecs].
  rewrite Oc. destruct (Ho p) as [[-> Hn]|[-> Hpin]].
  - destruct (Hc p) as [[-> _]|Hin2].
    + rewrite Co. split; [done|by left].
    + exfalso. apply Hn. apply list_elem_of_fmap. by exists (p, rg_css s1 p).
  - split; [done|]. destruct (Hc p) as [[_ Hn]|Hin2]; [done|]. right. split; [by eapply Hin|].
    by apply (can_attach_zero s tset E p).
Qed.

(** ** Runs *)

(** [step_sched] is whatever the scheduler does to threads in between: policies
    change when the guard lets a request of user space pass. *)
Inductive rg_step : rg_state -> rg_state -> Prop :=
  | step_create s g parent : g ∉ rg_groups s -> parent ∈ rg_groups s -> Z.of_nat (length (rg_groups s)) + 1 < 2 ^ 40 ->
      rg_step s (sched_online_group g parent (sched_create_group (Some g) true true s).1)
  | step_offline s g : g ∈ rg_groups s -> g <> rg_root -> rg_children (rg s g) = [] ->
      (forall p, p ∈ rg_threads s -> rg_of s p <> g) -> rg_step s (sched_offline_group g s)
  | step_set_runtime s g us : g ∈ rg_groups s -> rg_step s (sched_group_set_rt_runtime g us s).1
  | step_set_period s g us : g ∈ rg_groups s -> rg_step s (sched_group_set_rt_period g us s).1
  | step_global s period runtime dl_ret : rg_step s (rt_global_handler period runtime dl_ret s).1
  | step_attach s tset : (forall p g, (p, g) ∈ tset -> g ∈ rg_groups s) -> rg_step s (cgroup_attach tset s).1
  | step_fork s p child k' : p ∈ rg_threads s -> child ∉ rg_threads s ->
      (forall q, q ∈ rg_threads s -> tasks k' q = tasks (rg_k s) q) ->
      (rt_policy (policy (tasks k' child)) = true -> rt_policy (policy (tasks k' p)) = true /\ rt_task (tasks k' child) = true) ->
      sysctl_sched_rt_period k' = sysctl_sched_rt_period (rg_k s) ->
      sysctl_sched_rt_runtime k' = sysctl_sched_rt_runtime (rg_k s) ->
      rg_step s (sched_change_group child (s <| rg_k := k' |> <| rg_threads ::= cons child |>
                                             <| rg_css ::= alter (fun _ => rg_css s p) child |>))
  | step_exit s p : rg_step s (s <| rg_threads ::= list_del p |>)
  | step_sched s k' :
      sysctl_sched_rt_period k' = sysctl_sched_rt_period (rg_k s) ->
      sysctl_sched_rt_runtime k' = sysctl_sched_rt_runtime (rg_k s) ->
      (forall p, p ∈ rg_threads s -> rt_policy (policy (tasks k' p)) = true -> rt_task (tasks k' p) = true /\
        (policy (tasks k' p) = policy (tasks (rg_k s) p) \/ rt_setscheduler_guard s p (policy (tasks k' p)) = false)) ->
      rg_step s (s <| rg_k := k' |>).

(** Another kernel with the same setting. *)
Lemma kernel_ok s k' l css grp :
  rg_ok s -> sysctl_sched_rt_period k' = sysctl_sched_rt_period (rg_k s) ->
  sysctl_sched_rt_runtime k' = sysctl_sched_rt_runtime (rg_k s) ->
  (forall p, p ∈ l -> grp p ∈ rg_groups s /\ css p = grp p) ->
  (forall p, p ∈ l -> rt_policy (policy (tasks k' p)) = true -> rt_task (tasks k' p) = true) ->
  (forall p, p ∈ l -> rt_bandwidth_enabled (rg_k s) = true -> rt_policy (policy (tasks k' p)) = true ->
     rg_runtime (rg s (grp p)) <> 0) ->
  rg_ok (mkRg k' (rg s) (rg_groups s) l css grp).
Proof.
  intros Hok Ep Er Hg Ht Hr. constructor; cbn; try done.
  - apply (rg_tree_same s); [by split|apply Hok].
  - intros g Hgin. unfold global_ratio, global_rt_period, global_rt_runtime. cbn. rewrite Ep, Er. by apply (ok_limits s Hok).
  - intros p Hp. unfold rt_bandwidth_enabled. rewrite Er. by apply Hr.
Qed.

Lemma rg_step_ok s s' : rg_step s s' -> rg_ok s -> rg_ok s'.
Proof.
  assert (Hu : forall x, 0 <= u64 x < 2 ^ 64) by (intros x; apply u64_range).
  destruct 1 as [s g parent Hg Hp Hf|s g Hg Hr Hc Hth|s g us Hg|s g us Hg|s per run dl|s tset Hin
    |s p child k' Hp Hch Htk Hpol Ep Er|s p|s k' Ep Er Hpol]; intros Hok.
  - apply (grown_ok g parent s); [apply online_grown; congruence|done..].
  - destruct (tree_parent s (ok_tree s Hok) g Hg Hr) as (p & Hp & _).
    apply (shrunk_ok g p s); [by apply offline_shrunk|done..].
  - apply set_bandwidth_ok; [done| |done]. destruct (us <? 0); [by vm_compute|done].
  - apply set_bandwidth_ok; [done| |done]. by apply rg_runtime_range.
  - by apply global_handler_ok.
  - by apply attach_ok.
  - unfold sched_change_group. cbn. rewrite fn_lookup_alter. destruct (ok_group s Hok p Hp) as [Hpg Hpc].
    assert (Hne : forall q, q ∈ rg_threads s -> child <> q) by (intros q Hq ->; done).
    apply kernel_ok; try done; intros q Hq; apply elem_of_cons in Hq as [->|Hq].
    + rewrite !fn_lookup_alter. by rewrite Hpc.
    + rewrite !fn_lookup_alter_ne by auto. by apply (ok_group s Hok).
    + intros Hpq. by apply Hpol.
    + rewrite Htk by done. by apply (ok_typed s Hok).
    + intros Hen Hpq. apply Hpol in Hpq as [Hpp _]. rewrite Htk in Hpp by done. rewrite fn_lookup_alter, Hpc.
      by apply (ok_runtime s Hok).
    + rewrite Htk by done. rewrite fn_lookup_alter_ne by auto. by apply (ok_runtime s Hok).
  - apply (kernel_ok s (rg_k s) (list_del p (rg_threads s)) (rg_css s) (rg_of s)); try done;
      intros q Hq; apply elem_of_list_del in Hq as [Hq _].
    + by apply (ok_group s Hok).
    + by apply (ok_typed s Hok).
    + by apply (ok_runtime s Hok).
  - apply (kernel_ok s k' (rg_threads s) (rg_css s) (rg_of s)); try done.
    + apply Hok.
    + intros q Hq Hpq. by apply Hpol.
    + intros q Hq Hen Hpq. destruct (Hpol q Hq Hpq) as [_ [E|Hgd]].
      * rewrite E in Hpq. by apply (ok_runtime s Hok).
      * unfold rt_setscheduler_guard in Hgd. rewrite Hen, Hpq in Hgd. by apply Z.eqb_neq in Hgd.
Qed.

(** ** The groups without children *)

Definition leaves (s : rg_state) : list Z := filter (fun g => rg_children (rg s g) = []) (rg_groups s).

(** Every group but the root is the child of one group. *)
Lemma children_all s :
  rg_tree s -> rg_root :: flat_map (fun g => rg_children (rg s g)) (rg_groups s) ≡ₚ rg_groups s.
Proof.
  intros Ht. apply NoDup_Permutation.
  - constructor.
    + intros Hin. apply list_elem_of_In, in_flat_map in Hin as (g & Hg & Hc). apply list_elem_of_In in Hg, Hc.
      destruct (tree_child s Ht g rg_root Hg Hc) as [_ Hp]. destruct (tree_root s Ht). congruence.
    + assert (Hl : forall g, g ∈ rg_groups s -> g ∈ rg_groups s) by done. revert Hl. generalize (tree_nodup s Ht).
      generalize (rg_groups s) at 1 2 4 as l. induction l as [|x l IH]; intros Hnd Hl; [constructor|]. cbn.
      apply NoDup_cons in Hnd as [Hx Hnd]. apply NoDup_app. split_and!.
      * apply (tree_children s Ht). apply Hl. set_solver.
      * intros c Hc Hc'. apply list_elem_of_In, in_flat_map in Hc' as (y & Hy & Hcy). apply list_elem_of_In in Hy, Hcy.
        destruct (tree_child s Ht x c) as [_ E1]; [apply Hl; set_solver|done|].
        destruct (tree_child s Ht y c) as [_ E2]; [apply Hl; set_solver|done|]. assert (x = y) as -> by congruence. done.
      * apply IH; [done|]. intros g Hg. apply Hl. set_solver.
  - apply (tree_nodup s Ht).
  - intros g. split.
    + intros Hg. apply elem_of_cons in Hg as [->|Hg]; [apply (tree_root s Ht)|].
      apply list_elem_of_In, in_flat_map in Hg as (p & Hp & Hc). apply list_elem_of_In in Hp, Hc. by apply (tree_child s Ht p g).
    + intros Hg. destruct (decide (g = rg_root)) as [->|Hr]; [left|]. right.
      destruct (tree_parent s Ht g Hg Hr) as (p & Hp & Hc). apply list_elem_of_In, in_flat_map. exists p.
      split; apply list_elem_of_In; [|done]. eapply newest_first_in; [apply (tree_order s Ht)|exact Hg|done].
Qed.

Lemma sum_of_flat_map {A B} (f : B -> Z) (h : A -> list B) l :
  sum_of f (flat_map h l) = sum_of (fun x => sum_of f (h x)) l.
Proof. induction l as [|x l IH]; [done|]. cbn [flat_map]. rewrite sum_of_app, IH. done. Qed.

(** What the leaves have is what the root has, less what the groups keep. *)
Lemma leaves_le_root s : rg_ok s -> sum_of (ratio s) (leaves s) <= ratio s rg_root.
Proof.
  intros Hok. pose proof (ok_tree s Hok) as Ht.
  pose proof (sum_of_Permutation (ratio s) _ _ (children_all s Ht)) as E. cbn in E.
  fold (sum_of (ratio s) (flat_map (fun g => rg_children (rg s g)) (rg_groups s))) in E. rewrite sum_of_flat_map in E.
  enough (sum_of (ratio s) (leaves s) + sum_of (fun g => sum_of (ratio s) (rg_children (rg s g))) (rg_groups s)
    <= sum_of (ratio s) (rg_groups s)) by lia.
  assert (Hk : forall g, g ∈ rg_groups s -> sum_of (ratio s) (rg_children (rg s g)) <= ratio s g).
  { intros g Hg. by destruct (ok_limits s Hok g Hg) as (_ & _ & _ & ?). }
  unfold leaves. clear E. revert Hk. generalize (rg_groups s) as l. induction l as [|x l IH]; intros Hk; [done|].
  assert (IH' := IH ltac:(intros g Hg; apply Hk; set_solver)). specialize (Hk x ltac:(set_solver)).
  rewrite filter_cons. case_decide as Hx; cbn; fold (sum_of (ratio s)); unfold sum_of in *; cbn.
  - rewrite Hx in *. cbn in *. lia.
  - lia.
Qed.

(** The share of time a period and a runtime stand for, in units of [2^-20] and
    rounded down: what [to_ratio] is meant to compute. *)
Definition time_share (period runtime : Z) : Z :=
  if runtime =? RUNTIME_INF then BW_UNIT else runtime * BW_UNIT / period.
Definition share (s : rg_state) (g : Z) : Z := time_share (u64 (rg_period (rg s g))) (rg_runtime (rg s g)).
Definition global_share (s : rg_state) : Z := time_share (global_rt_period (rg_k s)) (global_rt_runtime (rg_k s)).

(** A runtime that the shift does not push out of 64 bits: below 4.8 hours. *)
Definition runtime_fits (runtime : Z) : Prop := runtime = RUNTIME_INF \/ 0 <= runtime < 2 ^ 44.
Definition runtimes_fit (s : rg_state) : Prop :=
  runtime_fits (global_rt_runtime (rg_k s)) /\ forall g, g ∈ rg_groups s -> runtime_fits (rg_runtime (rg s g)).

Lemma to_ratio_share period runtime : runtime_fits runtime -> to_ratio period runtime = time_share period runtime.
Proof.
  intros Hf. unfold to_ratio, time_share. destruct (Z.eqb_spec runtime RUNTIME_INF) as [|Hi]; [done|].
  destruct Hf as [|Hf]; [done|]. unfold BW_SHIFT. rewrite Z.shiftl_mul_pow2 by lia. change BW_UNIT with (2 ^ 20).
  rewrite u64_id by lia. destruct (Z.eqb_spec period 0) as [->|]; [by rewrite Z.div_0_r|done].
Qed.

Lemma sum_of_eq (f h : Z -> Z) l : (forall x, x ∈ l -> f x = h x) -> sum_of f l = sum_of h l.
Proof.
  induction l as [|x l IH]; intros He; [done|]. unfold sum_of in *. cbn. rewrite He, IH; [done| |]; set_solver.
Qed.

(** C31: Through any sequence of creating and removing groups, setting their
    limits or the global one, moving threads between groups, forks and policy
    changes, the ratios that the code computes for the children of a group add
    up to at most that of the group, each is at most the global one, and those
    of all groups without children together are at most the global one.  When
    no runtime of the resulting state is 2^44 ns or more, the same holds of the
    shares of time themselves, [runtime / period] rounded down to 2^-20.  While
    bandwidth is enforced no thread with a real-time policy is in a group
    without runtime. *)
Theorem rt_groups_within_limit s s' :
  rtc rg_step s s' -> rg_ok s ->
  (forall g, g ∈ rg_groups s' -> sum_of (ratio s') (rg_children (rg s' g)) <= ratio s' g <= global_ratio s') /\
  sum_of (ratio s') (leaves s') <= global_ratio s' /\
  (runtimes_fit s' ->
   (forall g, g ∈ rg_groups s' -> sum_of (share s') (rg_children (rg s' g)) <= share s' g <= global_share s') /\
   sum_of (share s') (leaves s') <= global_share s') /\
  forall p, p ∈ rg_threads s' -> rt_bandwidth_enabled (rg_k s') = true ->
    rt_policy (policy (tasks (rg_k s') p)) = true -> rg_runtime (rg s' (rg_of s' p)) <> 0.
Proof.
  intros Hr Hok. assert (Hok' : rg_ok s').
  { revert Hok. induction Hr as [s|s t u Hst _ IH]; [done|]. intros Hok. apply IH. by eapply rg_step_ok. }
  assert (Hall : forall g, g ∈ rg_groups s' -> sum_of (ratio s') (rg_children (rg s' g)) <= ratio s' g <= global_ratio s').
  { intros g Hg. destruct (ok_limits s' Hok' g Hg) as (_ & _ & ? & ?). done. }
  assert (Hl : sum_of (ratio s') (leaves s') <= global_ratio s').
  { etransitivity; [by apply leaves_le_root|]. apply Hall, (tree_root s' (ok_tree s' Hok')). }
  split_and!; [done|done| |apply (ok_runtime s' Hok')]. intros [Hfg Hf].
  assert (Hsh : forall g, g ∈ rg_groups s' -> ratio s' g = share s' g) by (intros g Hg; by apply to_ratio_share, Hf).
  assert (Hgl : global_ratio s' = global_share s') by by apply to_ratio_share.
  rewrite <- Hgl. split.
  - intros g Hg. rewrite <- Hsh by done. rewrite <- (sum_of_eq (ratio s')); [by apply Hall|].
    intros c Hc. apply Hsh. by apply (tree_child s' (ok_tree s' Hok') g c).
  - rewrite <- (sum_of_eq (ratio s')); [done|]. intros g Hg. apply Hsh. unfold leaves in Hg. by apply list_elem_of_filter in Hg as [_ ?].
Qed.

(** ** Examples *)

Definition demo_rg : rg_state :=
  mkRg (demo_kernel fair_sched_class SCHED_NORMAL 120)
    (fun _ => mkRtGroup None [] 1000000000 950000000 (fun _ => 950000000)) [0] [5; 6] (fun _ => 0) (fun _ => 0).

Lemma demo_rg_ok : rg_ok demo_rg.
Proof.
  constructor.
  - constructor; cbn; try done.
    + apply NoDup_singleton.
    + split; [set_solver|done].
    + intros g Hg Hr. apply list_elem_of_singleton in Hg. done.
    + intros g c _ Hc. set_solver.
    + intros g _. constructor.
  - intros g Hg. apply list_elem_of_singleton in Hg as ->. by vm_compute; repeat split; try discriminate; left.
  - intros p _. split; [set_solver|done].
  - intros p Hp Hpol. apply elem_of_cons in Hp as [->|Hp]; [by vm_compute in Hpol|].
    apply list_elem_of_singleton in Hp as ->. by vm_compute in Hpol.
  - intros p Hp _ Hpol. apply elem_of_cons in Hp as [->|Hp]; [by vm_compute in Hpol|].
    apply list_elem_of_singleton in Hp as ->. by vm_compute in Hpol.
Qed.

(** Two groups with 30 and 60 per cent; the second may not have 70. *)
Local Abbreviation demo_rg1 := (sched_online_group 1 0 (sched_create_group (Some 1) true true demo_rg).1).
Local Abbreviation demo_rg2 := (sched_group_set_rt_runtime 1 300000 demo_rg1).1.
Local Abbreviation demo_rg3 := (sched_online_group 2 0 (sched_create_group (Some 2) true true demo_rg2).1).
Local Abbreviation demo_rg4 := (sched_group_set_rt_runtime 2 600000 demo_rg3).1.

Lemma demo_rg_run : rtc rg_step demo_rg demo_rg4.
Proof.
  apply (rtc_l _ _ demo_rg1); [apply step_create; [apply (bool_decide_unpack _); by vm_compute..|by vm_compute]|].
  apply (rtc_l _ _ demo_rg2); [apply step_set_runtime, (bool_decide_unpack _); by vm_compute|].
  apply (rtc_l _ _ demo_rg3); [apply step_create; [apply (bool_decide_unpack _); by vm_compute..|by vm_compute]|].
  apply rtc_once, step_set_runtime, (bool_decide_unpack _). by vm_compute.
Qed.

Lemma rt_groups_within_limit_witness :
  sum_of (share demo_rg4) (leaves demo_rg4) <= global_share demo_rg4 /\ leaves demo_rg4 = [2; 1] /\
  sum_of (share demo_rg4) (rg_children (rg demo_rg4 0)) <= share demo_rg4 0 /\
  ratio demo_rg4 1 = 314572 /\ (sched_group_set_rt_runtime 2 700000 demo_rg3).2 = - EINVAL.
Proof.
  destruct (rt_groups_within_limit demo_rg demo_rg4 demo_rg_run demo_rg_ok) as (_ & _ & Hs & _).
  destruct Hs as [H1 H2].
  { split; [right; split; by vm_compute|]. assert (E : rg_groups demo_rg4 = [2; 1; 0]) by by vm_compute.
    rewrite E. intros g Hg. right. repeat (apply elem_of_cons in Hg as [->|Hg]; [split; by vm_compute|]).
    exfalso. by apply not_elem_of_nil in Hg. }
  assert (Hin : 0 ∈ rg_groups demo_rg4) by (apply (bool_decide_unpack _); vm_compute; reflexivity).
  split; [exact H2|]. specialize (H1 0 Hin). clear H2 Hin. destruct H1 as [H1 _].
  split; [vm_compute; reflexivity|]. split; [exact H1|]. clear H1. split; vm_compute; reflexivity.
Defined.

(** The shift in [to_ratio] loses the top bits of a runtime of five hours or
    more, so that a group may be given all the time of such a period. *)
Example ratio_overflows :
  let '(s, r1) := sched_group_set_rt_period 1 17592186045 demo_rg1 in
  let '(s, r2) := sched_group_set_rt_runtime 1 17592186045 s in
  (r1, r2) = (0, 0) /\ sched_group_rt_runtime s 1 = sched_group_rt_period s 1 /\ ratio s 1 = 0.
Proof. vm_compute. done. Qed.
