(* ===== verification/FairMath.v ===== *)
(** * The arithmetic of the fair class (fair.c)

    Load weights, the division by a weight that is done with a multiplication
    and a shift ([__calc_delta]), the comparison of virtual runtimes that may
    wrap, and the red-black tree walk of [__enqueue_entity].  The theorems: the
    division is exact up to a stated error, for every weight that [set_load_weight]
    gives a task and every sum of weights, and walking a
    search tree inserts at the place an ordered list would. *)

From stdpp Require Import sorting.
From S2P Require Import Prelude SchedTypes Core Wrr CoreWake CorePolicy.

(** ** Tunables *)

Inductive sched_tunable_scaling :=
  | SCHED_TUNABLESCALING_NONE | SCHED_TUNABLESCALING_LOG | SCHED_TUNABLESCALING_LINEAR.

(** The granularity variables of fair.c, and their unscaled values. *)
Record tunables := mkTunables {
  sysctl_sched_latency : Z;
  normalized_sysctl_sched_latency : Z;
  sysctl_sched_min_granularity : Z;
  normalized_sysctl_sched_min_granularity : Z;
  sysctl_sched_wakeup_granularity : Z;
  normalized_sysctl_sched_wakeup_granularity : Z;
  sched_nr_latency : Z;
  sysctl_sched_child_runs_first : bool }.
#[export] Instance eta_tunables : Settable tunables :=
  fun r => mkTunables (sysctl_sched_latency r) (normalized_sysctl_sched_latency r)
    (sysctl_sched_min_granularity r) (normalized_sysctl_sched_min_granularity r)
    (sysctl_sched_wakeup_granularity r) (normalized_sysctl_sched_wakeup_granularity r)
    (sched_nr_latency r) (sysctl_sched_child_runs_first r).

Definition default_tunables : tunables :=
  mkTunables 6000000 6000000 750000 750000 1000000 1000000 8 false.

Definition get_update_sysctl_factor (scaling : sched_tunable_scaling) (num_online_cpus : Z) : Z :=
  let cpus := Z.min num_online_cpus 8 in
  match scaling with
  | SCHED_TUNABLESCALING_NONE => 1
  | SCHED_TUNABLESCALING_LINEAR => cpus
  | SCHED_TUNABLESCALING_LOG => 1 + Z.log2 cpus
  end.

Definition update_sysctl (factor : Z) (s : tunables) : tunables :=
  s <| sysctl_sched_min_granularity := u32 (factor * normalized_sysctl_sched_min_granularity s) |>
    <| sysctl_sched_latency := u32 (factor * normalized_sysctl_sched_latency s) |>
    <| sysctl_sched_wakeup_granularity :=
         u32 (factor * normalized_sysctl_sched_wakeup_granularity s) |>.

(** [p = (nr <= nl) ? l : l*nr/nl] *)
Definition __sched_period (s : tunables) (nr_running : Z) : Z :=
  if sched_nr_latency s <? nr_running
  then u64 (nr_running * sysctl_sched_min_granularity s)
  else sysctl_sched_latency s.

(** ** Load weights *)

Definition update_load_add (lw : load_weight) (inc : Z) : load_weight :=
  mkLoad (u64 (lw_weight lw + inc)) 0.
Definition update_load_sub (lw : load_weight) (dec : Z) : load_weight :=
  mkLoad (u64 (lw_weight lw - dec)) 0.
Definition update_load_set (lw : load_weight) (w : Z) : load_weight := mkLoad w 0.

Definition WMULT_SHIFT : Z := 32.

(** [while (fact >> 32) { fact >>= 1; shift--; }]: a 64-bit [fact] needs at
    most 32 rounds. *)
Fixpoint shrink (fuel : nat) (fact shift : Z) : Z * Z :=
  match fuel with
  | O => (fact, shift)
  | S n => if Z.shiftr fact 32 =? 0 then (fact, shift)
           else shrink n (Z.shiftr fact 1) (shift - 1)
  end.

(** math64.h, with a 128-bit product. *)
Definition mul_u64_u32_shr (a mul shift : Z) : Z := u64 (Z.shiftr (a * mul) shift).

(** The result, and the weight with its reciprocal filled in. *)
Definition __calc_delta (delta_exec weight : Z) (lw : load_weight) : Z * load_weight :=
  let fact := scale_load_down weight in
  let lw := __update_inv_weight lw in
  let '(fact, shift) := shrink 64 fact WMULT_SHIFT in
  let fact := u64 (u32 fact * lw_inv_weight lw) in
  let '(fact, shift) := shrink 64 fact shift in
  (mul_u64_u32_shr delta_exec (u32 fact) shift, lw).

(** ** Virtual time *)

Definition max_vruntime (max_vruntime vruntime : Z) : Z :=
  if 0 <? s64 (vruntime - max_vruntime) then vruntime else max_vruntime.

Definition min_vruntime_of (min_vruntime vruntime : Z) : Z :=
  if s64 (vruntime - min_vruntime) <? 0 then vruntime else min_vruntime.

Definition vruntime_before (a b : Z) : bool := s64 (a - b) <? 0.

(** ** The timeline

    The nodes of the red-black tree in order; the tree itself matters only for
    the walk of [__enqueue_entity], which follows the links from the root. *)

Inductive rb_tree := Leaf | Node (l : rb_tree) (p : Z) (r : rb_tree).

Fixpoint inorder (t : rb_tree) : list Z :=
  match t with
  | Leaf => []
  | Node l p r => inorder l ++ p :: inorder r
  end.

(** The walk down, linking the new node where it ends; the flag tells whether
    it only went left.  Recolouring afterwards keeps the order of the nodes. *)
Fixpoint rb_walk (before : Z -> Z -> bool) (p : Z) (t : rb_tree) : rb_tree * bool :=
  match t with
  | Leaf => (Node Leaf p Leaf, true)
  | Node l q r =>
      if before p q then let '(l', leftmost) := rb_walk before p l in (Node l' q r, leftmost)
      else (Node l q (rb_walk before p r).1, false)
  end.

(** What the walk does to the list of nodes of a search tree: the new node goes
    behind those that are not after it. *)
Fixpoint timeline_insert (before : Z -> Z -> bool) (p : Z) (l : list Z) : list Z :=
  match l with
  | [] => [p]
  | q :: l' => if before p q then p :: l else q :: timeline_insert before p l'
  end.

(** ** Insertion *)

Section Insert.
Context (before : Z -> Z -> bool).

Lemma timeline_insert_perm p l : timeline_insert before p l ≡ₚ p :: l.
Proof.
  induction l as [|q l IH]; [done|]. cbn. destruct (before p q); [done|].
  rewrite IH. apply Permutation_swap.
Qed.

Lemma timeline_insert_app_r p l1 l2 :
  Forall (fun q => before p q = false) l1 ->
  timeline_insert before p (l1 ++ l2) = l1 ++ timeline_insert before p l2.
Proof. induction 1 as [|q l1 Hq _ IH]; [done|]. cbn. by rewrite Hq, IH. Qed.

Lemma timeline_insert_app_l p q l1 l2 :
  before p q = true ->
  timeline_insert before p (l1 ++ q :: l2) = timeline_insert before p l1 ++ q :: l2.
Proof.
  intros Hq. induction l1 as [|x l1 IH]; cbn; [by rewrite Hq|].
  destruct (before p x); [done|]. by rewrite IH.
Qed.

(** The nodes in order: none comes before an earlier one. *)
Definition in_order (l : list Z) : Prop := StronglySorted (fun a b => before b a = false) l.

(** Where [p] belongs is unambiguous: the nodes after [p] form a suffix. *)
Definition cuts (p : Z) (l : list Z) : Prop :=
  StronglySorted (fun a b => before p a = true -> before p b = true) l.

Lemma StronglySorted_app_inv {A} (R : A -> A -> Prop) l1 l2 :
  StronglySorted R (l1 ++ l2) ->
  StronglySorted R l1 /\ StronglySorted R l2 /\ forall x y, x ∈ l1 -> y ∈ l2 -> R x y.
Proof.
  induction l1 as [|a l1 IH]; cbn; intros Hs.
  { split_and!; [constructor|done|]. intros x y Hx. by apply not_elem_of_nil in Hx. }
  apply StronglySorted_inv in Hs as [Hs Ha]. apply Forall_app in Ha as [H1 H2].
  destruct (IH Hs) as (S1 & S2 & Hxy). split_and!; [by constructor|done|].
  intros x y [->|Hx]%elem_of_cons Hy; [|by apply Hxy].
  by rewrite Forall_forall in H2; apply H2.
Qed.

Lemma rb_walk_inorder p t :
  cuts p (inorder t) -> inorder (rb_walk before p t).1 = timeline_insert before p (inorder t).
Proof.
  induction t as [|l IHl q r IHr]; cbn; intros Hc; [done|].
  apply StronglySorted_app_inv in Hc as (Cl & Cr & Hlr).
  apply StronglySorted_inv in Cr as [Cr Hqr].
  destruct (before p q) eqn:Hq.
  - destruct (rb_walk before p l) as [l' lm] eqn:E. cbn.
    rewrite timeline_insert_app_l by done. f_equal.
    rewrite <- IHl by done. done.
  - cbn. rewrite IHr by done. rewrite timeline_insert_app_r.
    + cbn. by rewrite Hq.
    + rewrite Forall_forall. intros x Hx. destruct (before p x) eqn:Ex; [|done].
      rewrite (Hlr x q Hx) in Hq; set_solver.
Qed.

Lemma timeline_insert_nonempty p l : timeline_insert before p l <> [].
Proof. destruct l; cbn; [done|]. by destruct (before _ _). Qed.

Lemma rb_walk_leftmost p t :
  cuts p (inorder t) -> p ∉ inorder t ->
  (rb_walk before p t).2 = bool_decide (head (inorder (rb_walk before p t).1) = Some p).
Proof.
  induction t as [|l IHl q r IHr]; cbn; intros Hc Hn; [by rewrite bool_decide_true|].
  apply StronglySorted_app_inv in Hc as (Cl & _ & _).
  destruct (before p q) eqn:Hq.
  - pose proof (rb_walk_inorder p l Cl) as Hi.
    destruct (rb_walk before p l) as [l' lm] eqn:E. cbn in *. rewrite IHl by (done || set_solver).
    rewrite Hi. by destruct (timeline_insert before p (inorder l)) eqn:E'; [apply timeline_insert_nonempty in E'|].
  - cbn. symmetry. apply bool_decide_false. intros Hh. apply Hn.
    destruct (inorder l) as [|x l0]; cbn in Hh; injection Hh as ->; set_solver.
Qed.
End Insert.

(** ** Virtual time within a window

    Virtual runtimes wrap; the comparisons make sense as long as those that
    are compared lie within half the range, from some [base] on. *)

Definition in_window (base v : Z) : Prop := u64 (v - base) < 2 ^ 63.

Lemma window_sub base a b :
  in_window base a -> in_window base b -> s64 (a - b) = u64 (a - base) - u64 (b - base).
Proof.
  unfold in_window. intros Ha Hb. pose proof (u64_range (a - base)). pose proof (u64_range (b - base)).
  rewrite <- (s64_id (u64 (a - base) - u64 (b - base))) by lia.
  rewrite <- (s64_u64 (a - b)), <- (s64_u64 (u64 _ - _)). f_equal.
  rewrite u64_sub_l, u64_sub_r. f_equal. lia.
Qed.

Lemma window_before base a b :
  in_window base a -> in_window base b ->
  vruntime_before a b = (u64 (a - base) <? u64 (b - base)).
Proof.
  intros Ha Hb. unfold vruntime_before. rewrite (window_sub base) by done.
  destruct (Z.ltb_spec (u64 (a - base)) (u64 (b - base))), (Z.ltb_spec (u64 (a - base) - u64 (b - base)) 0); lia.
Qed.

Section Timeline.
Context (vr : Z -> Z).
Local Abbreviation before := (fun a b => vruntime_before (vr a) (vr b)).

Lemma window_in_order_cuts base p l :
  (forall q, q ∈ p :: l -> in_window base (vr q)) -> in_order before l -> cuts before p l.
Proof.
  intros Hw Hl. induction Hl as [|q l Hl IH Hq]; constructor.
  { apply IH. set_solver. }
  rewrite Forall_forall in Hq |- *. intros x Hx. specialize (Hq x Hx). cbn in Hq.
  rewrite (window_before base) in Hq by (apply Hw; set_solver).
  rewrite !(window_before base) by (apply Hw; set_solver). lia.
Qed.

Lemma window_insert_in_order base p l :
  (forall q, q ∈ p :: l -> in_window base (vr q)) -> in_order before l ->
  in_order before (timeline_insert before p l).
Proof.
  intros Hw Hl. induction Hl as [|q l Hl IH Hq]; cbn; [repeat constructor|].
  rewrite (window_before base) by (apply Hw; set_solver).
  destruct (Z.ltb_spec (u64 (vr p - base)) (u64 (vr q - base))).
  - constructor; [by constructor|]. apply Forall_cons. split.
    { rewrite (window_before base) by (apply Hw; set_solver). lia. }
    rewrite Forall_forall in Hq |- *. intros x Hx. specialize (Hq x Hx). cbn in Hq.
    rewrite (window_before base) in * by (apply Hw; set_solver). lia.
  - constructor; [apply IH; set_solver|]. rewrite (timeline_insert_perm before p l).
    constructor; [|done]. rewrite (window_before base) by (apply Hw; set_solver). lia.
Qed.

(** The walk of [__enqueue_entity] down a search tree, whatever its shape,
    puts the entity where an ordered list would have it, after the entities with
    the same virtual runtime; the tree stays in order, and the flag for the
    cached leftmost node is right.  Virtual runtimes may wrap as long as they
    lie within half the range of 64 bits. *)
Theorem rb_walk_is_ordered_insert base p t :
  (forall q, q ∈ p :: inorder t -> in_window base (vr q)) ->
  in_order before (inorder t) -> p ∉ inorder t ->
  let '(t', leftmost) := rb_walk before p t in
  inorder t' = timeline_insert before p (inorder t) /\ in_order before (inorder t') /\
  leftmost = bool_decide (head (inorder t') = Some p).
Proof.
  intros Hw Ho Hp. pose proof (window_in_order_cuts base p _ Hw Ho) as Hc.
  pose proof (rb_walk_inorder before p t Hc) as Hi.
  pose proof (rb_walk_leftmost before p t Hc Hp) as Hl.
  destruct (rb_walk before p t) as [t' lm]. cbn in *. split_and!; [done| |done].
  rewrite Hi. by apply (window_insert_in_order base).
Qed.
End Timeline.

(** ** Division by multiplication *)

Lemma shrink_spec n f s :
  0 <= f < 2 ^ (32 + Z.of_nat n) ->
  exists j, 0 <= j <= Z.of_nat n /\ shrink n f s = (f / 2 ^ j, s - j) /\ f / 2 ^ j < 2 ^ 32 /\
    (0 < j -> 2 ^ 31 <= f / 2 ^ j).
Proof.
  revert f s. induction n as [|n IH]; intros f s Hf.
  { exists 0. rewrite Z.div_1_r, Z.sub_0_r. split_and!; (lia || done). }
  cbn [shrink]. rewrite Z.shiftr_div_pow2 by lia.
  assert (Hp : 2 ^ (32 + Z.of_nat (S n)) = 2 * 2 ^ (32 + Z.of_nat n)).
  { rewrite <- Z.pow_succ_r by lia. f_equal. lia. }
  destruct (Z.eqb_spec (f / 2 ^ 32) 0) as [E|E].
  { apply Z.div_small_iff in E; [|lia]. exists 0. rewrite Z.div_1_r, Z.sub_0_r. split_and!; (lia || done). }
  assert (Hbig : 2 ^ 32 <= f).
  { destruct (decide (f < 2 ^ 32)); [|lia]. rewrite Z.div_small in E by lia. done. }
  rewrite Z.shiftr_div_pow2 by lia. change (2 ^ 1) with 2.
  destruct (IH (f / 2) (s - 1)) as (j & Hj & -> & Hlt & Hge).
  { split; [apply Z.div_pos; lia|]. apply Z.div_lt_upper_bound; lia. }
  assert (Ej : f / 2 / 2 ^ j = f / 2 ^ (j + 1)).
  { rewrite Z.div_div by lia. f_equal. rewrite Z.add_1_r, Z.pow_succ_r by lia. lia. }
  exists (j + 1). rewrite <- Ej. split_and!; try lia; [f_equal; lia|]. intros _.
  destruct (decide (j = 0)) as [->|]; [|apply Hge; lia].
  rewrite Z.div_1_r. apply Z.div_le_lower_bound; lia.
Qed.

Lemma shrink_small n f s : 0 <= f < 2 ^ 32 -> shrink n f s = (f, s).
Proof.
  intros Hf. destruct n; [done|]. cbn [shrink]. rewrite Z.shiftr_div_pow2 by lia.
  by rewrite Z.div_small.
Qed.

(** A weight whose reciprocal is either not cached or right. *)
Definition lw_ok (lw : load_weight) : Prop :=
  0 < scale_load_down (lw_weight lw) < WMULT_CONST /\
  (lw_inv_weight lw = 0 \/ lw_inv_weight lw = WMULT_CONST / scale_load_down (lw_weight lw)).

Lemma update_inv_weight_ok lw :
  lw_ok lw ->
  __update_inv_weight lw = mkLoad (lw_weight lw) (WMULT_CONST / scale_load_down (lw_weight lw)).
Proof.
  unfold lw_ok, __update_inv_weight. destruct lw as [w i]. cbn. intros [Hw Hi].
  destruct (Z.eqb_spec i 0) as [->|Hne]; cbn.
  - destruct (Z.leb_spec WMULT_CONST (scale_load_down w)); [lia|].
    by destruct (Z.eqb_spec (scale_load_down w) 0); [lia|].
  - destruct Hi as [->| ->]; done.
Qed.

(** The shape of the result for any reciprocal. *)
Lemma calc_delta_shape delta weight lw inv :
  0 <= delta -> 0 <= scale_load_down weight < 2 ^ 32 -> 0 <= inv < 2 ^ 32 ->
  lw_inv_weight (__update_inv_weight lw) = inv ->
  let f := scale_load_down weight in
  exists j, 0 <= j <= 32 /\ (0 < j -> 2 ^ 31 * 2 ^ j <= f * inv) /\
    (__calc_delta delta weight lw).1 = u64 (delta * (f * inv / 2 ^ j) / 2 ^ (32 - j)).
Proof.
  intros Hd Hf Hi Ei f. unfold __calc_delta. cbv zeta. rewrite shrink_small, Ei by done. fold f.
  rewrite (u32_id f) by done. rewrite (u64_id (f * inv)) by nia.
  destruct (shrink_spec 64 (f * inv) WMULT_SHIFT) as (j & Hj & -> & Hlt & Hge); [nia|].
  assert (Hpj : 0 < 2 ^ j) by (apply Z.pow_pos_nonneg; lia).
  assert (Hle : 0 < j -> 2 ^ 31 * 2 ^ j <= f * inv).
  { intros Hpos. specialize (Hge Hpos). pose proof (Z.mul_div_le (f * inv) (2 ^ j) Hpj). nia. }
  assert (Hj32 : j <= 32).
  { destruct (decide (j <= 32)); [done|]. specialize (Hle ltac:(lia)).
    assert (2 ^ 33 <= 2 ^ j) by (apply Z.pow_le_mono_r; lia). nia. }
  exists j. split_and!; [lia|lia|done|]. cbn [fst]. unfold mul_u64_u32_shr, WMULT_SHIFT.
  rewrite u32_id by (split; [apply Z.div_pos; nia|done]). by rewrite Z.shiftr_div_pow2 by lia.
Qed.

(** The bounds of a quotient by [2^32] done in two steps. *)
Lemma two_shifts d m j :
  0 <= d -> 0 <= m -> 0 <= j <= 32 -> (0 < j -> 2 ^ 31 * 2 ^ j <= m) ->
  let r := d * (m / 2 ^ j) / 2 ^ (32 - j) in
  0 <= r /\ r * 2 ^ 32 <= d * m /\ d * m * 2 ^ 31 <= (r + 1) * 2 ^ 32 * 2 ^ 31 + d * m.
Proof.
  intros Hd Hm Hj Hbig r. set (a := 2 ^ j) in *. set (b := 2 ^ (32 - j)) in *.
  assert (Ha : 0 < a) by (apply Z.pow_pos_nonneg; lia).
  assert (Hb : 0 < b) by (apply Z.pow_pos_nonneg; lia).
  assert (Hab : a * b = 2 ^ 32) by (unfold a, b; rewrite <- Z.pow_add_r by lia; f_equal; lia).
  set (q := m / a) in *.
  assert (Hq0 : 0 <= q) by (apply Z.div_pos; lia).
  assert (Hq : a * q <= m) by (apply Z.mul_div_le; lia).
  assert (Hq' : m < a * (q + 1)) by (pose proof (Z.mul_succ_div_gt m a Ha); unfold q; lia).
  assert (Hr0 : 0 <= r) by (apply Z.div_pos; nia).
  assert (Hr : b * r <= d * q) by (apply Z.mul_div_le; lia).
  assert (Hr' : d * q < b * (r + 1)) by (pose proof (Z.mul_succ_div_gt (d * q) b Hb); unfold r; lia).
  rewrite <- Hab. split_and!; [done|nia|].
  destruct (decide (j = 0)) as [Hz|Hz].
  - assert (a = 1) by (unfold a; by rewrite Hz). nia.
  - specialize (Hbig ltac:(lia)). assert (d * (2 ^ 31 * a) <= d * m) by nia.
    assert (d * m <= d * (a * q) + d * a) by nia.
    assert (d * (a * q) <= a * b * (r + 1)) by nia. nia.
Qed.

Lemma calc_delta_bounds delta weight lw :
  let f := scale_load_down weight in let w := scale_load_down (lw_weight lw) in
  let r := (__calc_delta delta weight lw).1 in
  0 <= delta < 2 ^ 64 -> 0 <= f < 2 ^ 32 -> lw_ok lw -> delta * f < 2 ^ 64 * w ->
  r * w <= delta * f /\ delta * f * (2 ^ 32 - w - 2) <= (r + 1) * w * 2 ^ 32.
Proof.
  intros f w r Hd Hf Hok Hfit. pose proof Hok as [Hw _]. fold w in Hw.
  set (inv := WMULT_CONST / w).
  assert (Hinv : w * inv <= WMULT_CONST /\ WMULT_CONST < w * (inv + 1)).
  { split; [apply Z.mul_div_le; lia|]. pose proof (Z.mul_succ_div_gt WMULT_CONST w). unfold inv. lia. }
  change WMULT_CONST with (2 ^ 32 - 1) in *.
  destruct (calc_delta_shape delta weight lw inv) as (j & Hj & Hbig & Er); [lia|done|nia| |].
  { by rewrite update_inv_weight_ok. }
  fold f in Hbig, Er. destruct (two_shifts delta (f * inv) j) as (R0 & R1 & R2); [lia|nia|done|done|].
  set (r' := delta * (f * inv / 2 ^ j) / 2 ^ (32 - j)) in *.
  assert (Hup : r' * w <= delta * f) by nia.
  assert (Hr : r = r') by (unfold r; rewrite Er; apply u64_id; nia).
  rewrite Hr. split; [done|]. nia.
Qed.

(** A weight whose reciprocal is not cached, or is off by less than one below
    and by at most [40 / w] above: some entries of [sched_prio_to_wmult] are
    rounded up. *)
Definition lw_near (lw : load_weight) : Prop :=
  let w := scale_load_down (lw_weight lw) in let i := lw_inv_weight lw in
  0 < w < WMULT_CONST /\ (i = 0 \/ 0 < i < 2 ^ 32 /\ 2 ^ 32 - w <= w * i <= 2 ^ 32 + 40).

#[export] Instance lw_near_dec lw : Decision (lw_near lw).
Proof. unfold lw_near. cbv zeta. apply _. Defined.

(** The reciprocal that is used, whether it was cached or not. *)
Lemma update_inv_weight_near lw :
  lw_near lw ->
  let w := scale_load_down (lw_weight lw) in let i := lw_inv_weight (__update_inv_weight lw) in
  0 <= i < 2 ^ 32 /\ 2 ^ 32 - w <= w * i <= 2 ^ 32 + 40.
Proof.
  intros [Hw [Hi|[Hi Hp]]]; cbv zeta in *.
  - rewrite update_inv_weight_ok by (split; [done|by left]). cbn [lw_inv_weight]. set (w := scale_load_down _) in *.
    pose proof (Z.mul_div_le WMULT_CONST w ltac:(lia)) as H1. pose proof (Z.mul_succ_div_gt WMULT_CONST w ltac:(lia)) as H2.
    assert (H0 : 0 <= WMULT_CONST / w) by (apply Z.div_pos; unfold WMULT_CONST, UINT_MAX; lia).
    set (q := WMULT_CONST / w) in *. change WMULT_CONST with (2 ^ 32 - 1) in *. clearbody q w. nia.
  - unfold __update_inv_weight. destruct lw as [w i]. cbn in *. rewrite (proj2 (Z.eqb_neq i 0)) by lia. cbn. lia.
Qed.

Lemma calc_delta_near delta weight lw :
  let f := scale_load_down weight in let w := scale_load_down (lw_weight lw) in
  let r := (__calc_delta delta weight lw).1 in
  0 <= delta < 2 ^ 64 -> 0 <= f < 2 ^ 32 -> lw_near lw -> delta * f < 2 ^ 63 * w ->
  r * w * 2 ^ 32 <= delta * f * (2 ^ 32 + 40) /\ delta * f * (2 ^ 32 - w - 2) <= (r + 1) * w * 2 ^ 32.
Proof.
  intros f w r Hd Hf Hok Hfit. destruct (update_inv_weight_near lw Hok) as [Hi Hinv].
  pose proof (proj1 Hok) as Hw. fold w in Hw, Hinv. set (inv := lw_inv_weight _) in *.
  destruct (calc_delta_shape delta weight lw inv) as (j & Hj & Hbig & Er); [lia|done|done|done|].
  fold f in Hbig, Er. destruct (two_shifts delta (f * inv) j) as (R0 & R1 & R2); [lia|nia|done|done|].
  set (r' := delta * (f * inv / 2 ^ j) / 2 ^ (32 - j)) in *. clearbody inv r' f w.
  assert (H1 : delta * f * (w * inv) <= delta * f * (2 ^ 32 + 40)) by (apply Z.mul_le_mono_nonneg_l; nia).
  assert (H2 : delta * f * (2 ^ 32 - w) <= delta * f * (w * inv)) by (apply Z.mul_le_mono_nonneg_l; nia).
  assert (Hup : r' * w * 2 ^ 32 <= delta * f * (2 ^ 32 + 40)) by nia.
  assert (Hr : r = r') by (unfold r; rewrite Er; apply u64_id; nia).
  rewrite Hr. split; [done|]. nia.
Qed.

(** Every entry of the tables. *)
Lemma weight_of_prio_near prio :
  MAX_RT_PRIO <= prio < MAX_PRIO -> exists l, weight_of_prio prio = Some l /\ lw_near l.
Proof.
  intros Hp.
  assert (Hall : Forall (fun n => match weight_of_prio (MAX_RT_PRIO + Z.of_nat n) with Some l => lw_near l | None => False end) (seq 0 40)).
  { repeat (apply Forall_cons; split; [by apply (bool_decide_unpack _)|]). by apply Forall_nil. }
  rewrite Forall_forall in Hall. specialize (Hall (Z.to_nat (prio - MAX_RT_PRIO))).
  replace (MAX_RT_PRIO + Z.of_nat (Z.to_nat (prio - MAX_RT_PRIO))) with prio in Hall by lia.
  destruct (weight_of_prio prio) as [l|]; [exists l; split; [done|]|destruct Hall]; try apply Hall;
    apply elem_of_seq; change MAX_PRIO with (MAX_RT_PRIO + 40) in Hp; lia.
Qed.

(** C27: [__calc_delta] is the multiplication by [weight / lw] it stands for,
    when the factor has 32 bits and the result 63: it exceeds the exact quotient
    by at most a share of [40 / 2^32], by nothing when the reciprocal is not
    cached, and falls short of it by at most one and a share of [(w + 2) / 2^32],
    where [w] is the weight divided by.  Nothing overflows and the shift does
    not become negative.  The reciprocal is one that [__update_inv_weight]
    computes or is off by no more than those of the table; every weight that
    [set_load_weight] gives a task is of this kind. *)
Theorem calc_delta_accurate delta weight lw :
  let f := scale_load_down weight in let w := scale_load_down (lw_weight lw) in
  let r := (__calc_delta delta weight lw).1 in
  0 <= delta < 2 ^ 64 -> 0 <= f < 2 ^ 32 -> lw_near lw -> delta * f < 2 ^ 63 * w ->
  r * w * 2 ^ 32 <= delta * f * (2 ^ 32 + 40) /\
  (lw_inv_weight lw = 0 -> r * w <= delta * f) /\
  delta * f * (2 ^ 32 - w - 2) <= (r + 1) * w * 2 ^ 32 /\
  (forall t, idle_policy (policy t) = true \/ MAX_RT_PRIO <= static_prio t < MAX_PRIO ->
     lw_near (se_load (se (set_load_weight_of t)))).
Proof.
  intros f w r Hd Hf Hok Hfit. destruct (calc_delta_near delta weight lw Hd Hf Hok Hfit) as [H1 H2].
  split_and!; [done| |done|].
  - intros Hz. apply calc_delta_bounds; [done|done|split; [apply Hok|by left]|]. fold f w. lia.
  - intros t Ht. unfold set_load_weight_of. destruct (idle_policy (policy t)); [by apply (bool_decide_unpack _)|].
    destruct Ht as [|Ht]; [done|]. destruct (weight_of_prio_near (static_prio t) Ht) as (l & -> & Hl). exact Hl.
Qed.

(** A division by a sum of weights, and one by a weight of the table whose
    reciprocal is rounded up. *)
Lemma calc_delta_accurate_witness :
  (let r := (__calc_delta 6000000 (scale_load 1024) (mkLoad (scale_load 3 * 1024) 0)).1 in
   r * 3072 <= 6000000 * 1024 /\ 6000000 * 1024 * (2 ^ 32 - 3072 - 2) <= (r + 1) * 3072 * 2 ^ 32) /\
  (let r := (__calc_delta (2 ^ 60) (scale_load 1024) (mkLoad (scale_load 4904) 875809)).1 in
   2 ^ 60 * 1024 < r * 4904 /\ r * 4904 * 2 ^ 32 <= 2 ^ 60 * 1024 * (2 ^ 32 + 40)).
Proof.
  split.
  - destruct (calc_delta_accurate 6000000 (scale_load 1024) (mkLoad (scale_load 3 * 1024) 0)) as (_ & H1 & H2 & _);
      [by vm_compute|by vm_compute|by apply (bool_decide_unpack _)|by vm_compute|].
    split; [by apply H1|exact H2].
  - destruct (calc_delta_accurate (2 ^ 60) (scale_load 1024) (mkLoad (scale_load 4904) 875809)) as (H1 & _);
      [by vm_compute|by vm_compute|by apply (bool_decide_unpack _)|by vm_compute|].
    split; [by vm_compute|exact H1].
Defined.

(** Three tasks around the point where the clock wraps, and a fourth between
    them. *)
Lemma rb_walk_is_ordered_insert_witness :
  let vr p := if p =? 3 then 5 else u64 (- 30 + 10 * p) in
  let t := Node (Node Leaf 0 Leaf) 1 (Node Leaf 3 Leaf) in
  let '(t', leftmost) := rb_walk (fun a b => vruntime_before (vr a) (vr b)) 2 t in
  inorder t' = [0; 1; 2; 3] /\ leftmost = false.
Proof.
  intros vr t.
  pose proof (rb_walk_is_ordered_insert vr (u64 (-1000)) 2 t) as Hth.
  destruct (rb_walk _ 2 t) as [t' lm]. destruct Hth as (-> & _ & ->).
  - intros q Hq. cbn in Hq. unfold in_window.
    repeat (apply elem_of_cons in Hq as [->|Hq]; [by vm_compute|]). by apply not_elem_of_nil in Hq.
  - repeat constructor.
  - cbn. set_solver.
  - split; vm_compute; reflexivity.
Defined.
