(* ===== verification/FairPelt.v ===== *)
(** * Load tracking (fair.c)

    The decaying sums of [struct sched_avg], kept per entity and per run queue:
    [___update_load_avg] ages them by the periods of 1024 microseconds that have
    passed and adds the time since.  The powers of the decay factor and the
    limit of the series come from sched-pelt.h, which the build generates; they
    are the fields of [PeltTable], and [PeltLaws] is what fair.c says of them.
    The theorem: ageing and adding time never takes the sums of an entity or of
    a queue beyond the bounds they were within, so they stay in their 32 and 64
    bits. *)

From S2P Require Import Prelude SchedTypes FairMath.

Class PeltTable := {
  LOAD_AVG_PERIOD : Z;
  LOAD_AVG_MAX : Z;
  runnable_avg_yN_inv : Z -> Z }.

(** The defaults of sched.h for a [NULL] domain. *)
Definition arch_scale_freq_capacity (cpu : Z) : Z := SCHED_CAPACITY_SCALE.
Definition arch_scale_cpu_capacity (cpu : Z) : Z := SCHED_CAPACITY_SCALE.
Definition cap_scale (v s : Z) : Z := Z.shiftr (u64 (v * s)) SCHED_CAPACITY_SHIFT.

Section Pelt.
Context `{PeltTable}.

Definition decay_load (val n : Z) : Z :=
  if LOAD_AVG_PERIOD * 63 <? n then 0
  else
    let local_n := u32 n in
    let '(val, local_n) :=
      if LOAD_AVG_PERIOD <=? local_n
      then (Z.shiftr val (local_n / LOAD_AVG_PERIOD), local_n mod LOAD_AVG_PERIOD)
      else (val, local_n) in
    mul_u64_u32_shr val (runnable_avg_yN_inv local_n) 32.

Definition __accumulate_pelt_segments (periods d1 d3 : Z) : Z :=
  let c1 := u32 (decay_load d1 periods) in
  let c2 := u32 (LOAD_AVG_MAX - decay_load LOAD_AVG_MAX periods - 1024) in
  u32 (c1 + c2 + d3).

(** The sums of an entity or, with [runnable_load_sum], of a queue: the new
    [sched_avg], the new runnable sum and the number of periods as a [u32]. *)
Definition accumulate_sum (delta cpu : Z) (sa : sched_avg) (weight : Z) (running : bool)
    (runnable : Z) : sched_avg * Z * Z :=
  let contrib := u32 delta in
  let delta := u64 (delta + period_contrib sa) in
  let periods := delta / 1024 in
  let '(sa, runnable, delta, contrib) :=
    if negb (periods =? 0) then
      (sa <| load_sum ::= fun s => decay_load s periods |>
          <| util_sum ::= fun s => u32 (decay_load s periods) |>,
       decay_load runnable periods,
       delta mod 1024,
       __accumulate_pelt_segments periods (u32 (1024 - period_contrib sa)) (u32 (delta mod 1024)))
    else (sa, runnable, delta, contrib) in
  let sa := sa <| period_contrib := u32 delta |> in
  let contrib := u32 (cap_scale contrib (arch_scale_freq_capacity cpu)) in
  let '(sa, runnable) :=
    if negb (weight =? 0) then
      (sa <| load_sum ::= fun s => u64 (s + weight * contrib) |>, u64 (runnable + weight * contrib))
    else (sa, runnable) in
  let sa := if running
            then sa <| util_sum ::= fun s => u32 (s + contrib * arch_scale_cpu_capacity cpu) |>
            else sa in
  (sa, runnable, u32 periods).

(** [___update_load_avg] without ([None]) or with the runnable sum and average
    of a queue. *)
Definition ___update_load_avg (now cpu : Z) (sa : sched_avg) (weight : Z) (running : bool)
    (runnable : option (Z * Z)) : sched_avg * option (Z * Z) * bool :=
  let delta := u64 (now - last_update_time sa) in
  if s64 delta <? 0 then (sa <| last_update_time := now |>, runnable, false)
  else
    let delta := Z.shiftr delta 10 in
    if delta =? 0 then (sa, runnable, false)
    else
      let sa := sa <| last_update_time ::= fun t => u64 (t + Z.shiftl delta 10) |> in
      let running := if weight =? 0 then false else running in
      let '(sa, rsum, periods) :=
        accumulate_sum delta cpu sa weight running (default 0 (fst <$> runnable)) in
      let runnable := prod_map (fun _ => rsum) id <$> runnable in
      if periods =? 0 then (sa, runnable, false)
      else
        let divider := u32 (LOAD_AVG_MAX - 1024 + period_contrib sa) in
        let sa := sa <| load_avg := load_sum sa / divider |> in
        let runnable := prod_map id (fun _ => rsum / divider) <$> runnable in
        let sa := sa <| util_avg := util_sum sa / divider |> in
        (sa, runnable, true).
End Pelt.

(** ** Bounds *)

(** fair.c: the decay factor [y] satisfies [y^32 = 0.5], the table holds
    [y^n * 2^32] for [n < 32], and [LOAD_AVG_MAX] is the limit of
    [1024 * (1 + y + y^2 + ...)], rounded down. *)
Class PeltLaws `{PeltTable} : Prop := {
  pelt_period : LOAD_AVG_PERIOD = 32;
  pelt_table n : 0 <= n < 32 -> 0 <= runnable_avg_yN_inv n < 2 ^ 32;
  pelt_decreasing n : 1 <= n < 32 -> runnable_avg_yN_inv n <= runnable_avg_yN_inv 1;
  pelt_half : 2 ^ 31 <= runnable_avg_yN_inv 1;
  pelt_decays : 2 ^ 32 <= 47 * (2 ^ 32 - runnable_avg_yN_inv 1);
  pelt_max : 2 ^ 15 <= LOAD_AVG_MAX - 1024 < 2 ^ 21;
  pelt_limit : LOAD_AVG_MAX * runnable_avg_yN_inv 1 / 2 ^ 32 + 1024 <= LOAD_AVG_MAX }.

(** How far rounding can take the sums beyond the series, in units of the
    scale. *)
Definition pelt_slack : Z := 94.

Section Bounds.
Context `{PeltLaws}.

(** Decaying by [n] periods multiplies by [g / q], rounding down twice. *)
Lemma decay_ratio n : 1 <= n ->
  exists g q, 0 < q /\ 0 <= g /\ q <= 47 * (q - g) /\ g * 2 ^ 32 <= q * runnable_avg_yN_inv 1 /\
    forall v, 0 <= v < 2 ^ 64 ->
      0 <= decay_load v n /\ q * decay_load v n <= v * g /\ v * g <= q * (decay_load v n + 2).
Proof.
  intros Hn. unfold decay_load. rewrite pelt_period. pose proof pelt_decays. pose proof pelt_half.
  destruct (Z.ltb_spec (32 * 63) n).
  { exists 0, 1. split_and!; lia. }
  rewrite (u32_id n) by lia.
  assert (Hshift : forall m d v, 0 <= m < 2 ^ 32 -> 0 <= d -> 0 <= v < 2 ^ 64 ->
    let r := mul_u64_u32_shr (Z.shiftr v d) m 32 in
    0 <= r /\ 2 ^ (32 + d) * r <= v * m /\ v * m <= 2 ^ (32 + d) * (r + 2)).
  { intros m d v Hm Hd Hv. unfold mul_u64_u32_shr. rewrite !Z.shiftr_div_pow2, Z.pow_add_r by lia.
    assert (0 < 2 ^ d) by (apply Z.pow_pos_nonneg; lia).
    pose proof (Z.mul_div_le v (2 ^ d) ltac:(lia)). pose proof (Z.mul_succ_div_gt v (2 ^ d) ltac:(lia)).
    set (a := v / 2 ^ d) in *. assert (0 <= a) by (apply Z.div_pos; lia).
    pose proof (Z.mul_div_le (a * m) (2 ^ 32) ltac:(lia)).
    pose proof (Z.mul_succ_div_gt (a * m) (2 ^ 32) ltac:(lia)).
    assert (0 <= a * m / 2 ^ 32) by (apply Z.div_pos; nia).
    set (b := a * m / 2 ^ 32) in *. assert (a < 2 ^ 64) by nia. assert (b < 2 ^ 64) by nia.
    rewrite u64_id by lia. split_and!; [lia|nia|]. unfold Z.succ in *. nia. }
  destruct (Z.leb_spec 32 n) as [Hbig|Hsmall].
  - set (d := n / 32). assert (Hd : 1 <= d) by (apply Z.div_le_lower_bound; lia).
    pose proof (Z.mod_pos_bound n 32 ltac:(lia)) as Hmod. pose proof (pelt_table (n mod 32) Hmod) as Ht.
    assert (Hp : 2 * 2 ^ 32 <= 2 ^ (32 + d)).
    { change (2 * 2 ^ 32) with (2 ^ 33). apply Z.pow_le_mono_r; lia. }
    exists (runnable_avg_yN_inv (n mod 32)), (2 ^ (32 + d)). split_and!; try nia.
    intros v Hv. apply Hshift; (done || lia).
  - assert (Ht : 0 <= runnable_avg_yN_inv n < 2 ^ 32) by (apply pelt_table; lia).
    assert (Hy : runnable_avg_yN_inv n <= runnable_avg_yN_inv 1) by (apply pelt_decreasing; lia).
    exists (runnable_avg_yN_inv n), (2 ^ 32). split; [lia|]. split; [lia|]. split; [lia|]. split; [lia|].
    intros v Hv. pose proof (Hshift (runnable_avg_yN_inv n) 0 v Ht (Z.le_refl 0) Hv) as Hs.
    rewrite Z.shiftr_0_r in Hs. exact Hs.
Qed.

(** What a crossing of [n] period boundaries contributes. *)
Lemma segments_exact n d1 d3 :
  1 <= n -> 0 <= d1 <= 1024 -> 0 <= d3 < 1024 ->
  __accumulate_pelt_segments n d1 d3 =
    decay_load d1 n + (LOAD_AVG_MAX - decay_load LOAD_AVG_MAX n - 1024) + d3 /\
  0 <= decay_load LOAD_AVG_MAX n <= LOAD_AVG_MAX - 1024 /\ 0 <= decay_load d1 n <= d1.
Proof.
  intros Hn H1 H3. destruct (decay_ratio n Hn) as (g & q & Hq & Hg & Hqg & Hy & Hd).
  pose proof pelt_max as Hm. pose proof pelt_limit as Hl.
  assert (HMr : 0 <= LOAD_AVG_MAX < 2 ^ 64) by lia.
  destruct (Hd _ HMr) as (M0 & M1 & _). destruct (Hd d1 ltac:(lia)) as (D0 & D1 & _).
  assert (HM : decay_load LOAD_AVG_MAX n <= LOAD_AVG_MAX - 1024).
  { assert (decay_load LOAD_AVG_MAX n <= LOAD_AVG_MAX * runnable_avg_yN_inv 1 / 2 ^ 32); [|lia].
    apply Z.div_le_lower_bound; [lia|]. apply (Z.mul_le_mono_pos_l _ _ q); nia. }
  assert (HD : decay_load d1 n <= d1) by nia.
  split_and!; try lia. unfold __accumulate_pelt_segments.
  rewrite (u32_id (decay_load d1 n)), (u32_id (LOAD_AVG_MAX - _ - _)), u32_id by lia. done.
Qed.

(** A sum of time scaled by at most [s]: within the series, the started period
    and the rounding slack. *)
Definition sum_ok (s x pc : Z) : Prop := 0 <= x <= s * (LOAD_AVG_MAX - 1024 + pc + pelt_slack).

(** Ageing a full sum and adding a full contribution. *)
Lemma full_sum_ages s n u pc d3 :
  0 <= s < 2 ^ 32 -> 1 <= n -> 0 <= pc < 1024 -> 0 <= d3 < 1024 -> sum_ok s u pc ->
  0 <= decay_load u n <= u /\
  sum_ok s (decay_load u n + s * __accumulate_pelt_segments n (1024 - pc) d3) d3.
Proof.
  intros Hs Hn Hpc H3 Hu. unfold sum_ok, pelt_slack in *. pose proof pelt_max as Hm.
  assert (HMr : 0 <= LOAD_AVG_MAX < 2 ^ 64) by lia.
  destruct (segments_exact n (1024 - pc) d3 Hn ltac:(lia) H3) as (-> & HM & HD).
  destruct (decay_ratio n Hn) as (g & q & Hq & Hg & Hqg & _ & Hd).
  destruct (Hd _ HMr) as (_ & _ & M2). destruct (Hd u ltac:(nia)) as (U0 & U1 & _).
  destruct (Hd (1024 - pc) ltac:(lia)) as (_ & D1 & _).
  set (du := decay_load u n) in *. set (dm := decay_load LOAD_AVG_MAX n) in *.
  set (dd := decay_load (1024 - pc) n) in *. split; [nia|]. split; [nia|].
  apply (Z.mul_le_mono_pos_l _ _ q Hq).
  assert (u * g <= s * (LOAD_AVG_MAX - 1024 + pc + 94) * g) by nia.
  assert (s * (q * 2) <= s * (94 * (q - g))) by nia.
  assert (s * (q * dd) <= s * ((1024 - pc) * g)) by nia.
  assert (s * (LOAD_AVG_MAX * g) <= s * (q * (dm + 2))) by nia. nia.
Qed.

(** The sums of an entity or queue whose utilization is at most [v] and whose
    weight is at most [w]. *)
Definition avg_ok (v w : Z) (sa : sched_avg) : Prop :=
  0 <= period_contrib sa < 1024 /\
  sum_ok v (util_sum sa) (period_contrib sa) /\
  sum_ok w (load_sum sa) (period_contrib sa).

(** A utilization, at least the full scale of one CPU, whose sum fits in 32
    bits. *)
Definition util_fits (v : Z) : Prop :=
  SCHED_CAPACITY_SCALE <= v /\ v * (LOAD_AVG_MAX + pelt_slack) < 2 ^ 32.

Lemma util_fits_cpu : util_fits SCHED_CAPACITY_SCALE.
Proof. split; [done|]. unfold pelt_slack. change SCHED_CAPACITY_SCALE with 1024. pose proof pelt_max. lia. Qed.

Lemma sum_ok_add s v x c pc :
  0 <= v <= s -> 0 <= x -> 0 <= c -> sum_ok s (x + s * c) pc -> sum_ok s (x + v * c) pc.
Proof. unfold sum_ok. intros Hv Hx Hc Hs. assert (v * c <= s * c) by nia. nia. Qed.

Lemma sum_ok_fill s x d pc : 0 <= s -> 0 <= d -> sum_ok s x pc -> sum_ok s (x + s * d) (d + pc).
Proof. unfold sum_ok. intros. split; nia. Qed.

Lemma sum_ok_range s x pc : 0 <= s < 2 ^ 32 -> 0 <= pc < 1024 -> sum_ok s x pc -> 0 <= x < 2 ^ 64.
Proof. unfold sum_ok, pelt_slack. pose proof pelt_max. nia. Qed.

Lemma util_range v x pc : util_fits v -> 0 <= pc < 1024 -> sum_ok v x pc -> 0 <= x < 2 ^ 32.
Proof.
  unfold util_fits, sum_ok, pelt_slack. change SCHED_CAPACITY_SCALE with 1024. pose proof pelt_max. nia.
Qed.

Lemma cap_scale_full x : 0 <= x < 2 ^ 32 -> u32 (cap_scale x SCHED_CAPACITY_SCALE) = x.
Proof.
  intros Hx. unfold cap_scale. change SCHED_CAPACITY_SCALE with 1024. change SCHED_CAPACITY_SHIFT with 10.
  rewrite (u64_id (x * 1024)) by lia. rewrite Z.shiftr_div_pow2 by lia.
  change (2 ^ 10) with 1024. rewrite Z.div_mul by lia. by apply u32_id.
Qed.

(** The second step of [accumulate_sum]: adding the contribution [c] to sums
    that have room for a full one. *)
Lemma contribute_ok v w weight running us ls c pc sa :
  util_fits v -> 0 <= weight <= w -> w < 2 ^ 32 -> 0 <= c -> 0 <= pc < 1024 -> 0 <= us -> 0 <= ls ->
  sum_ok v (us + v * c) pc -> sum_ok w (ls + w * c) pc ->
  util_sum sa = us -> load_sum sa = ls -> period_contrib sa = pc -> (weight = 0 -> running = false) ->
  forall r, avg_ok v w (let '(sa, r) :=
    if negb (weight =? 0)
    then (sa <| load_sum ::= fun s => u64 (s + weight * c) |>, u64 (r + weight * c)) else (sa, r) in
    let sa := if running then sa <| util_sum ::= fun s => u32 (s + c * SCHED_CAPACITY_SCALE) |> else sa in
    (sa, r)).1.
Proof.
  intros Hv Hw Hw32 Hc Hpc Hus Hls Hu Hl <- <- <- Hrun r. pose proof Hv as [Hv1 _].
  change SCHED_CAPACITY_SCALE with 1024 in *.
  assert (Hu0 : sum_ok v (util_sum sa) (period_contrib sa)).
  { replace (util_sum sa) with (util_sum sa + 0 * c) by lia. apply sum_ok_add; (done || lia). }
  assert (Hu1 : sum_ok v (util_sum sa + 1024 * c) (period_contrib sa)) by (apply sum_ok_add; (done || lia)).
  pose proof (sum_ok_add _ weight _ _ _ Hw Hls Hc Hl) as Hl'.
  assert (Hr : 0 <= load_sum sa + weight * c < 2 ^ 64) by (eapply (sum_ok_range w); [lia|done..]).
  pose proof (util_range _ _ _ Hv Hpc Hu1) as Hr'.
  destruct (Z.eqb_spec weight 0) as [->|Hz]; cbn [negb].
  - rewrite Hrun by done. split; [exact Hpc|]. split; [exact Hu0|]. cbn.
    by rewrite Z.mul_0_l, Z.add_0_r in Hl'.
  - destruct running; (split; [exact Hpc|]); (split; [|cbn; by rewrite u64_id]); [|exact Hu0].
    cbn. by rewrite (Z.mul_comm c), u32_id.
Qed.

Lemma accumulate_ok v w delta cpu sa weight running r :
  util_fits v -> 0 <= weight <= w -> w < 2 ^ 32 -> 0 < delta < 2 ^ 54 -> avg_ok v w sa ->
  (weight = 0 -> running = false) ->
  avg_ok v w (accumulate_sum delta cpu sa weight running r).1.1.
Proof.
  intros Hv Hw Hw32 Hd (Hpc & Hu & Hl) Hrun. pose proof Hv as [Hv1 Hv2].
  assert (Hv32 : 0 <= v < 2 ^ 32) by (pose proof pelt_max; unfold pelt_slack in Hv2; change SCHED_CAPACITY_SCALE with 1024 in Hv1; nia). unfold accumulate_sum. cbv zeta.
  unfold arch_scale_freq_capacity, arch_scale_cpu_capacity.
  rewrite (u64_id (delta + _)) by lia. set (dp := delta + period_contrib sa).
  set (n := dp / 1024). pose proof (Z.mod_pos_bound dp 1024 ltac:(lia)) as Hmod.
  pose proof pelt_max as Hm.
  match goal with |- context [if negb (n =? 0) then ?a else ?b] =>
    set (step := if negb (n =? 0) then a else b) end.
  assert (Hstep : exists sa1 r1 d c, step = (sa1, r1, d, c) /\ 0 <= d < 1024 /\ 0 <= c < 2 ^ 32 /\
    0 <= util_sum sa1 /\ 0 <= load_sum sa1 /\
    sum_ok v (util_sum sa1 + v * c) d /\
    sum_ok w (load_sum sa1 + w * c) d).
  { unfold step. destruct (Z.eqb_spec n 0) as [Ez|Ez]; cbn [negb].
    - apply Z.div_small_iff in Ez; [|lia]. unfold dp in *.
      exists sa, r, (delta + period_contrib sa), (u32 delta). rewrite (u32_id delta) by lia.
      split_and!; try lia; [done|by apply Hu|by apply Hl|by apply sum_ok_fill; [lia|lia|]|].
      apply sum_ok_fill; [lia|lia|done].
    - assert (Hn : 1 <= n) by (assert (0 <= n) by (apply Z.div_pos; unfold dp; lia); lia).
      rewrite (u32_id (dp mod 1024)), (u32_id (1024 - _)) by lia.
      destruct (full_sum_ages v n (util_sum sa) (period_contrib sa) (dp mod 1024))
        as [U0 U1]; [done..|].
      destruct (full_sum_ages w n (load_sum sa) (period_contrib sa) (dp mod 1024)) as [L0 L1];
        [lia|done..|].
      destruct (segments_exact n (1024 - period_contrib sa) (dp mod 1024)) as (Es & HM & HD);
        [done|lia|done|].
      pose proof (util_range _ _ _ Hv Hpc Hu).
      do 4 eexists. split; [reflexivity|]. cbn. rewrite (u32_id (decay_load (util_sum sa) n)) by lia.
      split_and!; (done || lia). }
  destruct Hstep as (sa1 & r1 & d & c & -> & Hd1 & Hc & Hu1 & Hl1 & HU & HL).
  rewrite (cap_scale_full c), (u32_id d) by lia.
  set (sa2 := sa1 <| period_contrib := d |>).
  pose proof (contribute_ok v w weight running _ _ c d sa2 Hv Hw Hw32 (proj1 Hc) Hd1 Hu1 Hl1 HU
    HL eq_refl eq_refl eq_refl Hrun r1) as Hok.
  by destruct (weight =? 0).
Qed.

(** The runnable sum of a queue is treated as its load sum. *)
Lemma accumulate_runnable delta cpu sa weight running r :
  let x := accumulate_sum delta cpu sa weight running r in
  let y := accumulate_sum delta cpu (sa <| load_sum := r |>) weight running r in
  x.1.2 = load_sum y.1.1 /\ period_contrib x.1.1 = period_contrib y.1.1.
Proof.
  unfold accumulate_sum. cbv zeta. cbn [period_contrib]. destruct sa as [t ls us pc la ua]. cbn.
  destruct (_ / 1024 =? 0), (weight =? 0), running; done.
Qed.

(** What an average made from a sum is at most. *)
Lemma avg_bound s x pc :
  0 <= s -> 0 <= pc < 1024 -> sum_ok s x pc -> 1000 * (x / u32 (LOAD_AVG_MAX - 1024 + pc)) <= 1003 * s.
Proof.
  intros Hs Hpc Hx. pose proof pelt_max as Hm. unfold sum_ok, pelt_slack in Hx. rewrite u32_id by lia.
  set (dv := LOAD_AVG_MAX - 1024 + pc) in *.
  assert (x / dv * dv <= x) by (rewrite Z.mul_comm; apply Z.mul_div_le; lia). nia.
Qed.

(** C28: one update of load tracking cannot overflow.  Take an entity, or a
    queue with its runnable sum, whose sums are within the limits of a
    utilization [v] and a weight [w]: [v] is at least the full scale (1024, a
    task or a CPU) and its sum fits in 32 bits, [w] has 32 bits.  Whatever time
    [___update_load_avg] is called at, whether the entity runs or waits and
    whatever its weight up to [w], the sums are within the same limits
    afterwards, the utilization sum in 32 bits and the others in 64, and an
    updated average is within 0.3% of [v] or [w]: what rounding adds never
    builds up.  What attaching a task adds to the sums of a queue is outside
    this. *)
Theorem load_tracking_bounded v w now cpu sa weight running runnable :
  util_fits v -> 0 <= weight <= w -> w < 2 ^ 32 -> avg_ok v w sa ->
  (forall rsum ravg, runnable = Some (rsum, ravg) -> sum_ok w rsum (period_contrib sa)) ->
  let '(sa', runnable', updated) := ___update_load_avg now cpu sa weight running runnable in
  avg_ok v w sa' /\ util_sum sa' < 2 ^ 32 /\ load_sum sa' < 2 ^ 64 /\
  (updated = true -> 1000 * util_avg sa' <= 1003 * v /\ 1000 * load_avg sa' <= 1003 * w) /\
  (forall rsum ravg, runnable' = Some (rsum, ravg) ->
     sum_ok w rsum (period_contrib sa') /\ rsum < 2 ^ 64 /\ (updated = true -> 1000 * ravg <= 1003 * w)).
Proof.
  intros Hv Hw Hw32 Hok Hrun.
  assert (Hv0 : 0 <= v) by (destruct Hv as [Hv _]; change SCHED_CAPACITY_SCALE with 1024 in Hv; lia).
  assert (Hr : forall sa', avg_ok v w sa' -> util_sum sa' < 2 ^ 32 /\ load_sum sa' < 2 ^ 64).
  { intros sa' (Hpc & Hu & Hl). split; [by apply (util_range v _ _ Hv Hpc)|].
    apply (sum_ok_range w _ (period_contrib sa')); [lia|done..]. }
  assert (Hr2 : forall rsum pc, 0 <= pc < 1024 -> sum_ok w rsum pc -> rsum < 2 ^ 64).
  { intros rsum pc Hpc Hs. apply (sum_ok_range w _ pc); [lia|done..]. }
  assert (Hsame : forall sa', avg_ok v w sa' -> period_contrib sa' = period_contrib sa ->
    avg_ok v w sa' /\ util_sum sa' < 2 ^ 32 /\ load_sum sa' < 2 ^ 64 /\
    (false = true -> 1000 * util_avg sa' <= 1003 * v /\ 1000 * load_avg sa' <= 1003 * w) /\
    (forall rsum ravg, runnable = Some (rsum, ravg) ->
       sum_ok w rsum (period_contrib sa') /\ rsum < 2 ^ 64 /\ (false = true -> 1000 * ravg <= 1003 * w))).
  { intros sa' Ha Hp. destruct (Hr sa' Ha). split_and!; [done..|]. intros rsum ravg E. rewrite Hp.
    pose proof (Hrun _ _ E) as Hs. split_and!; [done| |done]. eapply Hr2; [apply Hok|done]. }
  unfold ___update_load_avg. cbv zeta. set (delta := u64 (now - last_update_time sa)).
  assert (Hd : 0 <= delta < 2 ^ 64) by apply u64_range. clearbody delta.
  destruct (s64 delta <? 0); [by apply Hsame|].
  rewrite Z.shiftr_div_pow2 by lia. change (2 ^ 10) with 1024.
  destruct (Z.eqb_spec (delta / 1024) 0) as [|Hne]; [by apply Hsame|]. clear Hsame.
  set (sa0 := sa <| last_update_time ::= _ |>).
  assert (0 <= delta / 1024 < 2 ^ 54) by (split; [apply Z.div_pos|apply Z.div_lt_upper_bound]; lia).
  set (run := if weight =? 0 then false else running). set (r0 := default 0 (fst <$> runnable)).
  assert (Hrz : weight = 0 -> run = false) by (unfold run; by intros ->).
  pose proof (accumulate_ok v w (delta / 1024) cpu sa0 weight run r0 Hv Hw Hw32 ltac:(lia) Hok Hrz) as Ha.
  assert (Hb : forall rsum ravg, runnable = Some (rsum, ravg) ->
    avg_ok v w (accumulate_sum (delta / 1024) cpu (sa0 <| load_sum := r0 |>) weight run r0).1.1).
  { intros rsum ravg E. apply accumulate_ok; [done|done|done|lia| |done]. destruct Hok as (Hpc & Hu & _).
    split; [done|]. split; [done|]. cbn. unfold r0. rewrite E. exact (Hrun _ _ E). }
  destruct (accumulate_runnable (delta / 1024) cpu sa0 weight run r0) as [E1 E2].
  destruct (accumulate_sum (delta / 1024) cpu sa0 weight run r0) as [[sa1 r1] periods]. cbn [fst snd] in *.
  assert (Hb' : forall rsum ravg, runnable = Some (rsum, ravg) -> sum_ok w r1 (period_contrib sa1)).
  { intros rsum ravg E. rewrite E1, E2. by eapply Hb. }
  destruct (Hr _ Ha) as [Hr1 Hr3]. pose proof Ha as (Hpc & Hu & Hl). clear Hb E1 E2.
  destruct (periods =? 0).
  - split_and!; [done..|]. intros rsum ravg E. destruct runnable as [[a b]|]; [|done]. cbn in E. injection E as <- <-.
    pose proof (Hb' _ _ eq_refl). split_and!; [done|by eapply Hr2|done].
  - split; [exact Ha|]. split_and!; [done|done| |].
    + intros _. cbn. split; apply avg_bound; (done || lia).
    + intros rsum ravg E. destruct runnable as [[a b]|]; [|done]. cbn in E. injection E as <- <-.
      pose proof (Hb' _ _ eq_refl). split_and!; [done|by eapply Hr2|]. intros _. apply avg_bound; (done || lia).
Qed.
End Bounds.

(** ** Example: the table for [y^32 = 0.5] *)

Definition pelt_powers : list Z :=
  [4294967295; 4202935002; 4112874772; 4024744346; 3938502374; 3854108390;
   3771522795; 3690706838; 3611622601; 3534232977; 3458501652; 3384393093;
   3311872528; 3240905929; 3171459998; 3103502150; 3037000499; 2971923841;
   2908241641; 2845924020; 2784941737; 2725266178; 2666869343; 2609723833;
   2553802832; 2499080104; 2445529971; 2393127306; 2341847523; 2291666560;
   2242560871; 2194507416].

#[export] Instance demo_pelt : PeltTable :=
  {| LOAD_AVG_PERIOD := 32; LOAD_AVG_MAX := 47742;
     runnable_avg_yN_inv n := default 0 (pelt_powers !! Z.to_nat n) |}.

Lemma demo_pelt_laws : PeltLaws.
Proof.
  assert (Hall : Forall (fun n => 0 <= @runnable_avg_yN_inv demo_pelt n < 2 ^ 32 /\
    (1 <= n -> @runnable_avg_yN_inv demo_pelt n <= @runnable_avg_yN_inv demo_pelt 1)) (seqZ 0 32)).
  { repeat constructor; vm_compute; congruence. }
  rewrite Forall_forall in Hall.
  split.
  - done.
  - intros n Hn. apply Hall. apply elem_of_seqZ. lia.
  - intros n Hn. apply Hall; [apply elem_of_seqZ|]; lia.
  - vm_compute. congruence.
  - vm_compute. congruence.
  - vm_compute. split; congruence.
  - vm_compute. congruence.
Qed.

(** A new task of nice level 0 after running for 100 ms, and the queue of a CPU
    with the utilization of ten such tasks. *)
Lemma load_tracking_bounded_witness :
  (let '(sa, _, updated) := @___update_load_avg demo_pelt 104857600 0 (mkAvg 0 (1024 * 47742) 0 1023 1024 0)
    1024 true None in
  updated = true /\ util_sum sa < 2 ^ 32 /\ util_avg sa <= 1027) /\
  (let '(sa, r, updated) := @___update_load_avg demo_pelt 104857600 0
    (mkAvg 0 (10240 * 47742) 0 1023 10240 0) 10240 true (Some (10240 * 47742, 10240)) in
  updated = true /\ util_sum sa < 2 ^ 32 /\ exists rsum ravg, r = Some (rsum, ravg) /\ ravg <= 10270).
Proof.
  split.
  - pose proof (@load_tracking_bounded demo_pelt demo_pelt_laws 1024 1024 104857600 0
      (mkAvg 0 (1024 * 47742) 0 1023 1024 0) 1024 true None) as Hb.
    assert (Hu : (@___update_load_avg demo_pelt 104857600 0 (mkAvg 0 (1024 * 47742) 0 1023 1024 0)
      1024 true None).2 = true) by (vm_compute; reflexivity).
    destruct (___update_load_avg _ _ _ _ _ _) as [[sa r] updated]. cbn in Hu. subst updated.
    destruct Hb as (_ & H1 & _ & H2 & _).
    + split; vm_compute; congruence.
    + lia.
    + lia.
    + vm_compute. repeat split; congruence.
    + done.
    + split_and!; [done|done|]. specialize (H2 eq_refl). lia.
  - pose proof (@load_tracking_bounded demo_pelt demo_pelt_laws 10240 10240 104857600 0
      (mkAvg 0 (10240 * 47742) 0 1023 10240 0) 10240 true (Some (10240 * 47742, 10240))) as Hb.
    assert (Hu : (@___update_load_avg demo_pelt 104857600 0 (mkAvg 0 (10240 * 47742) 0 1023 10240 0)
      10240 true (Some (10240 * 47742, 10240))).2 = true) by (vm_compute; reflexivity).
    assert (Hs : bool_decide (is_Some (@___update_load_avg demo_pelt 104857600 0 (mkAvg 0 (10240 * 47742) 0 1023 10240 0)
      10240 true (Some (10240 * 47742, 10240))).1.2) = true) by (vm_compute; reflexivity).
    destruct (___update_load_avg _ _ _ _ _ _) as [[sa r] updated]. cbn in Hu, Hs. subst updated.
    destruct r as [[rsum ravg]|]; [|done]. destruct Hb as (_ & H1 & _ & _ & H2).
    + split; vm_compute; congruence.
    + lia.
    + lia.
    + vm_compute. repeat split; congruence.
    + intros a b [= <- <-]. vm_compute. split; congruence.
    + split_and!; [done|done|]. exists rsum, ravg. split; [done|]. destruct (H2 _ _ eq_refl) as (_ & _ & H3).
      specialize (H3 eq_refl). lia.
Defined.
