(* ===== verification/FairQueue.v ===== *)
(** * The fair class: queues, ticks and picking (fair.c)

    The operations of [fair_sched_class] without group scheduling, bandwidth
    control and high-resolution ticks: an entity is a task and [cfs_rq_of] is
    the queue of its CPU.  [cfs_rq] parameters are CPU numbers, NULL is [None],
    and functions that divide by a weight return the state too, because
    [__calc_delta] caches the reciprocal in it.  Load tracking is in
    [FairPelt]; balancing between CPUs appears only as [newidle_balance]. *)

From S2P Require Import Prelude SchedTypes Core Wrr RtBandwidth FairMath FairPelt.

(** The tunables, the feature flags of features.h, and balancing when a CPU
    becomes idle: the state and the number of tasks pulled, negative for a
    higher-class task. *)
Class FairEnv := {
  tun : tunables;
  CONFIG_SCHED_DEBUG : bool;
  feat_START_DEBIT : bool;
  feat_GENTLE_FAIR_SLEEPERS : bool;
  feat_NEXT_BUDDY : bool;
  feat_LAST_BUDDY : bool;
  feat_WAKEUP_PREEMPTION : bool;
  feat_ATTACH_AGE_LOAD : bool;
  newidle_balance : Z -> kernel -> kernel * Z }.

(** Without CONFIG_SCHED_DEBUG the condition is evaluated and the result 0. *)
Definition SCHED_WARN_ON `{FairEnv} (x : bool) : bool := CONFIG_SCHED_DEBUG && x.

Definition upd_cfs (c : Z) (f : cfs_rq -> cfs_rq) (k : kernel) : kernel :=
  upd_rq c (fun r => r <| cfs ::= f |>) k.
#[global] Arguments upd_cfs : simpl never.

Definition sea (k : kernel) (p : Z) : sched_entity := se (tasks k p).
Definition cfs_of (k : kernel) (c : Z) : cfs_rq := cfs (rqs k c).
Definition cfs_rq_of (k : kernel) (p : Z) : Z := task_cpu (tasks k p).

(** ** The timeline *)

Definition entity_before (k : kernel) (a b : Z) : bool :=
  vruntime_before (vruntime (sea k a)) (vruntime (sea k b)).

Definition __enqueue_entity (c p : Z) (k : kernel) : kernel :=
  upd_cfs c (fun q => q <| tasks_timeline ::= timeline_insert (entity_before k) p |>) k.

Definition __dequeue_entity (c p : Z) (k : kernel) : kernel :=
  upd_cfs c (fun q => q <| tasks_timeline ::= list_del p |>) k.

Definition __pick_first_entity (k : kernel) (c : Z) : option Z := head (tasks_timeline (cfs_of k c)).

(** [rb_next]: the node after [p]. *)
Fixpoint node_after (p : Z) (l : list Z) : option Z :=
  match l with
  | [] => None
  | q :: l' => if q =? p then head l' else node_after p l'
  end.

Definition __pick_next_entity (k : kernel) (p : Z) : option Z :=
  node_after p (tasks_timeline (cfs_of k (cfs_rq_of k p))).

Definition update_min_vruntime (c : Z) (k : kernel) : kernel :=
  let q := cfs_of k c in
  let curr := match cfs_curr q with
              | Some p => if negb (se_on_rq (sea k p) =? 0) then Some p else None
              | None => None
              end in
  let v := match curr with
           | Some p => vruntime (sea k p)
           | None => min_vruntime q
           end in
  let v := match __pick_first_entity k c with
           | Some s => match curr with
                       | None => vruntime (sea k s)
                       | Some _ => min_vruntime_of v (vruntime (sea k s))
                       end
           | None => v
           end in
  upd_cfs c (fun q => q <| min_vruntime ::= fun m => max_vruntime m v |>) k.

(** ** Time slices *)

Section Fair.
Context `{FairEnv} `{PeltTable}.

Definition calc_delta_fair (delta p : Z) (k : kernel) : kernel * Z :=
  if negb (lw_weight (se_load (sea k p)) =? NICE_0_LOAD) then
    let '(delta, lw) := __calc_delta delta NICE_0_LOAD (se_load (sea k p)) in
    (upd_se p (fun s => s <| se_load := lw |>) k, delta)
  else (k, delta).

Definition sched_slice (c p : Z) (k : kernel) : kernel * Z :=
  let on := negb (se_on_rq (sea k p) =? 0) in
  let slice := __sched_period tun (u32 (cfs_nr_running (cfs_of k c) + if on then 0 else 1)) in
  let c := cfs_rq_of k p in
  let w := lw_weight (se_load (sea k p)) in
  if on then
    let '(slice, lw) := __calc_delta slice w (cfs_load (cfs_of k c)) in
    (upd_cfs c (fun q => q <| cfs_load := lw |>) k, slice)
  else (k, (__calc_delta slice w (update_load_add (cfs_load (cfs_of k c)) w)).1).

Definition sched_vslice (c p : Z) (k : kernel) : kernel * Z :=
  let '(k, slice) := sched_slice c p k in calc_delta_fair slice p k.

(** ** Running time *)

Definition update_curr (c : Z) (k : kernel) : kernel :=
  match cfs_curr (cfs_of k c) with
  | None => k
  | Some p =>
      let now := rq_clock_task k c in
      let delta_exec := u64 (now - exec_start (sea k p)) in
      if s64 delta_exec <=? 0 then k
      else
        let k := upd_se p (fun s => s <| exec_start := now |>) k in
        let k := if schedstat_enabled k
                 then upd_se p (fun s => s <| exec_max ::= Z.max delta_exec |>) k else k in
        let k := upd_se p (fun s => s <| sum_exec_runtime ::= fun x => u64 (x + delta_exec) |>) k in
        let k := if schedstat_enabled k
                 then upd_cfs c (fun q => q <| exec_clock ::= fun x => u64 (x + delta_exec) |>) k
                 else k in
        let '(k, d) := calc_delta_fair delta_exec p k in
        let k := upd_se p (fun s => s <| vruntime ::= fun v => u64 (v + d) |>) k in
        let k := update_min_vruntime c k in
        let k := call (cpuacct_charge p delta_exec) k in
        call (account_group_exec_runtime p delta_exec) k
  end.

Definition update_curr_fair (c : Z) (k : kernel) : kernel :=
  update_curr (cfs_rq_of k (curr (rqs k c))) k.

(** ** Statistics *)

Definition update_stats_wait_start (c p : Z) (k : kernel) : kernel :=
  if negb (schedstat_enabled k) then k
  else
    let prev_wait_start := wait_start (statistics (sea k p)) in
    let w := rq_clock k c in
    let w := if task_on_rq_migrating k p && (prev_wait_start <? w) then w - prev_wait_start else w in
    upd_stat p (fun s => s <| wait_start := w |>) k.

Definition update_stats_wait_end (c p : Z) (k : kernel) : kernel :=
  if negb (schedstat_enabled k) then k
  else
    let delta := u64 (rq_clock k c - wait_start (statistics (sea k p))) in
    if task_on_rq_migrating k p then upd_stat p (fun s => s <| wait_start := delta |>) k
    else upd_stat p (fun s => s <| wait_max ::= fun m => Z.max m delta |>
                                <| wait_count ::= fun n => u64 (n + 1) |>
                                <| wait_sum ::= fun x => u64 (x + delta) |>
                                <| wait_start := 0 |>) k.

(** Latency tracing and sleep profiling have no state here. *)
Definition update_stats_enqueue_sleeper (c p : Z) (k : kernel) : kernel :=
  if negb (schedstat_enabled k) then k
  else
    let sleep := sleep_start (statistics (sea k p)) in
    let block := block_start (statistics (sea k p)) in
    let slept since := let d := u64 (rq_clock k c - since) in if s64 d <? 0 then 0 else d in
    let k := if negb (sleep =? 0) then
        upd_stat p (fun s => s <| sleep_max ::= fun m => if m <? slept sleep then slept sleep else m |>
                               <| sleep_start := 0 |>
                               <| sum_sleep_runtime ::= fun x => u64 (x + slept sleep) |>) k
      else k in
    if negb (block =? 0) then
      let k := upd_stat p (fun s =>
        s <| block_max ::= fun m => if m <? slept block then slept block else m |>
          <| block_start := 0 |>
          <| sum_sleep_runtime ::= fun x => u64 (x + slept block) |>) k in
      if in_iowait (tasks k p)
      then upd_stat p (fun s => s <| iowait_sum ::= fun x => u64 (x + slept block) |>
                                  <| iowait_count ::= fun n => u64 (n + 1) |>) k
      else k
    else k.

Definition update_stats_enqueue (c p flags : Z) (k : kernel) : kernel :=
  if negb (schedstat_enabled k) then k
  else
    let k := if negb (bool_decide (cfs_curr (cfs_of k c) = Some p))
             then update_stats_wait_start c p k else k in
    if has_flag flags ENQUEUE_WAKEUP then update_stats_enqueue_sleeper c p k else k.

Definition update_stats_dequeue (c p flags : Z) (k : kernel) : kernel :=
  if negb (schedstat_enabled k) then k
  else
    let k := if negb (bool_decide (cfs_curr (cfs_of k c) = Some p))
             then update_stats_wait_end c p k else k in
    if has_flag flags DEQUEUE_SLEEP then
      let k := if has_flag (state (tasks k p)) TASK_INTERRUPTIBLE
               then upd_stat p (fun s => s <| sleep_start := rq_clock k c |>) k else k in
      if has_flag (state (tasks k p)) TASK_UNINTERRUPTIBLE
      then upd_stat p (fun s => s <| block_start := rq_clock k c |>) k else k
    else k.

Definition update_stats_curr_start (c p : Z) (k : kernel) : kernel :=
  upd_se p (fun s => s <| exec_start := rq_clock_task k c |>) k.

(** ** Load of the queue *)

Definition account_entity_enqueue (c p : Z) (k : kernel) : kernel :=
  let w := lw_weight (se_load (sea k p)) in
  let k := upd_cfs c (fun q => q <| cfs_load ::= fun l => update_load_add l w |>) k in
  let k := upd_rq c (fun r => r <| rq_load ::= fun l => update_load_add l w |>
                                <| cfs_tasks ::= list_add p |>) k in
  upd_cfs c (fun q => q <| cfs_nr_running ::= fun n => u32 (n + 1) |>) k.

Definition account_entity_dequeue (c p : Z) (k : kernel) : kernel :=
  let w := lw_weight (se_load (sea k p)) in
  let k := upd_cfs c (fun q => q <| cfs_load ::= fun l => update_load_sub l w |>) k in
  let k := upd_rq c (fun r => r <| rq_load ::= fun l => update_load_sub l w |>
                                <| cfs_tasks ::= list_del p |>) k in
  upd_cfs c (fun q => q <| cfs_nr_running ::= fun n => u32 (n - 1) |>) k.

Definition cfs_rq_util_change (c : Z) (k : kernel) : kernel := call (cpufreq_update_util c) k.

(** ** Load tracking of entities and queues *)

(** [sub_positive] on a [w]-bit unsigned location. *)
Definition sub_positive (w x v : Z) : Z :=
  let res := wrapU w (x - wrapU w v) in if x <? res then 0 else res.

Definition UPDATE_TG : Z := 1.
Definition SKIP_AGE_LOAD : Z := 2.

Definition __update_load_avg_blocked_se (now cpu p : Z) (k : kernel) : kernel :=
  upd_se p (fun s => s <| se_avg := (___update_load_avg now cpu (se_avg (sea k p)) 0 false None).1.1 |>) k.

Definition __update_load_avg_se (now cpu c p : Z) (k : kernel) : kernel :=
  let s := sea k p in
  let sa := (___update_load_avg now cpu (se_avg s)
               (u64 (se_on_rq s * scale_load_down (lw_weight (se_load s))))
               (bool_decide (cfs_curr (cfs_of k c) = Some p)) None).1.1 in
  upd_se p (fun s => s <| se_avg := sa |>) k.

(** The state, and whether the averages were updated. *)
Definition __update_load_avg_cfs_rq (now cpu c : Z) (k : kernel) : kernel * bool :=
  let q := cfs_of k c in
  let '(sa, r, decayed) :=
    ___update_load_avg now cpu (cfs_avg q) (scale_load_down (lw_weight (cfs_load q)))
      (bool_decide (cfs_curr q <> None)) (Some (runnable_load_sum q, runnable_load_avg q)) in
  let '(rs, ra) := default (0, 0) r in
  (upd_cfs c (fun q => q <| cfs_avg := sa |> <| runnable_load_sum := rs |>
                         <| runnable_load_avg := ra |>) k, decayed).

Definition update_cfs_rq_load_avg (now c : Z) (k : kernel) : kernel * bool :=
  let q := cfs_of k c in
  let removed_load := negb (removed_load_avg q =? 0) in
  let k := if removed_load then
      let r := s64 (removed_load_avg q) in
      upd_cfs c (fun q => q <| removed_load_avg := 0 |> <| cfs_avg ::= fun sa =>
        sa <| load_avg ::= fun x => sub_positive 64 x r |>
           <| load_sum ::= fun x => sub_positive 64 x (s64 (r * LOAD_AVG_MAX)) |> |>) k
    else k in
  let removed_util := negb (removed_util_avg q =? 0) in
  let k := if removed_util then
      let r := s64 (removed_util_avg q) in
      upd_cfs c (fun q => q <| removed_util_avg := 0 |> <| cfs_avg ::= fun sa =>
        sa <| util_avg ::= fun x => sub_positive 64 x r |>
           <| util_sum ::= fun x => sub_positive 32 x (s64 (r * LOAD_AVG_MAX)) |> |>) k
    else k in
  let '(k, decayed) := __update_load_avg_cfs_rq now (rq_cpu (rqs k c)) c k in
  let k := if decayed || removed_util then cfs_rq_util_change c k else k in
  (k, decayed || removed_load).

(** The update of the group average that may follow is empty without groups. *)
Definition update_load_avg (p flags : Z) (k : kernel) : kernel :=
  let c := cfs_rq_of k p in
  let now := rq_clock_task k c in
  let k := if negb (last_update_time (se_avg (sea k p)) =? 0) && negb (has_flag flags SKIP_AGE_LOAD)
           then __update_load_avg_se now (rq_cpu (rqs k c)) c p k else k in
  (update_cfs_rq_load_avg now c k).1.

Definition attach_entity_load_avg (c p : Z) (k : kernel) : kernel :=
  let k := upd_se p (fun s => s <| se_avg ::= fun a =>
             a <| last_update_time := last_update_time (cfs_avg (cfs_of k c)) |> |>) k in
  let a := se_avg (sea k p) in
  let k := upd_cfs c (fun q => q <| cfs_avg ::= fun sa =>
             sa <| load_avg ::= fun x => u64 (x + load_avg a) |>
                <| load_sum ::= fun x => u64 (x + load_sum a) |>
                <| util_avg ::= fun x => u64 (x + util_avg a) |>
                <| util_sum ::= fun x => u32 (x + util_sum a) |> |>) k in
  cfs_rq_util_change c k.

Definition detach_entity_load_avg (c p : Z) (k : kernel) : kernel :=
  let a := se_avg (sea k p) in
  let k := upd_cfs c (fun q => q <| cfs_avg ::= fun sa =>
             sa <| load_avg ::= fun x => sub_positive 64 x (load_avg a) |>
                <| load_sum ::= fun x => sub_positive 64 x (load_sum a) |>
                <| util_avg ::= fun x => sub_positive 64 x (util_avg a) |>
                <| util_sum ::= fun x => sub_positive 32 x (util_sum a) |> |>) k in
  cfs_rq_util_change c k.

Definition enqueue_entity_load_avg (c p : Z) (k : kernel) : kernel :=
  let sa := se_avg (sea k p) in
  let k := upd_cfs c (fun q => q <| runnable_load_avg ::= fun x => u64 (x + load_avg sa) |>
                                 <| runnable_load_sum ::= fun x => u64 (x + load_sum sa) |>) k in
  if last_update_time sa =? 0 then attach_entity_load_avg c p k else k.

Definition dequeue_entity_load_avg (c p : Z) (k : kernel) : kernel :=
  let sa := se_avg (sea k p) in
  upd_cfs c (fun q => q <| runnable_load_avg ::= fun x => Z.max (s64 (x - load_avg sa)) 0 |>
                        <| runnable_load_sum ::= fun x => Z.max (s64 (x - load_sum sa)) 0 |>) k.

Definition sync_entity_load_avg (p : Z) (k : kernel) : kernel :=
  let c := cfs_rq_of k p in
  __update_load_avg_blocked_se (last_update_time (cfs_avg (cfs_of k c))) (rq_cpu (rqs k c)) p k.

Definition remove_entity_load_avg (p : Z) (k : kernel) : kernel :=
  let c := cfs_rq_of k p in
  let k := sync_entity_load_avg p k in
  upd_cfs c (fun q =>
    q <| removed_load_avg ::= fun x => s64 (x + load_avg (se_avg (sea k p))) |>
      <| removed_util_avg ::= fun x => s64 (x + util_avg (se_avg (sea k p))) |>) k.

(** ** Queueing entities *)

Definition place_entity (c p : Z) (initial : bool) (k : kernel) : kernel :=
  let v := min_vruntime (cfs_of k c) in
  let '(k, v) := if initial && feat_START_DEBIT
                 then let '(k, d) := sched_vslice c p k in (k, u64 (v + d)) else (k, v) in
  let v := if negb initial then
      let thresh := sysctl_sched_latency tun in
      let thresh := if feat_GENTLE_FAIR_SLEEPERS then Z.shiftr thresh 1 else thresh in
      u64 (v - thresh)
    else v in
  upd_se p (fun s => s <| vruntime ::= fun x => max_vruntime x v |>) k.

(** [se->vruntime += cfs_rq->min_vruntime] and back. *)
Definition renormalise (c p : Z) (k : kernel) : kernel :=
  upd_se p (fun s => s <| vruntime ::= fun v => u64 (v + min_vruntime (cfs_of k c)) |>) k.
Definition normalise (c p : Z) (k : kernel) : kernel :=
  upd_se p (fun s => s <| vruntime ::= fun v => u64 (v - min_vruntime (cfs_of k c)) |>) k.

Definition enqueue_entity (c p flags : Z) (k : kernel) : kernel :=
  let renorm := negb (has_flag flags ENQUEUE_WAKEUP) || has_flag flags ENQUEUE_MIGRATED in
  let curr := bool_decide (cfs_curr (cfs_of k c) = Some p) in
  let k := if renorm && curr then renormalise c p k else k in
  let k := update_curr c k in
  let k := if renorm && negb curr then renormalise c p k else k in
  let k := update_load_avg p UPDATE_TG k in
  let k := enqueue_entity_load_avg c p k in
  let k := account_entity_enqueue c p k in
  let k := if has_flag flags ENQUEUE_WAKEUP then place_entity c p false k else k in
  let k := update_stats_enqueue c p flags k in
  let k := if negb curr then __enqueue_entity c p k else k in
  upd_se p (fun s => s <| se_on_rq := 1 |>) k.

Definition __clear_buddies_last (p : Z) (k : kernel) : kernel :=
  upd_cfs (cfs_rq_of k p) (fun q => if bool_decide (cfs_last q = Some p) then q <| cfs_last := None |> else q) k.
Definition __clear_buddies_next (p : Z) (k : kernel) : kernel :=
  upd_cfs (cfs_rq_of k p) (fun q => if bool_decide (cfs_next q = Some p) then q <| cfs_next := None |> else q) k.
Definition __clear_buddies_skip (p : Z) (k : kernel) : kernel :=
  upd_cfs (cfs_rq_of k p) (fun q => if bool_decide (cfs_skip q = Some p) then q <| cfs_skip := None |> else q) k.

Definition clear_buddies (c p : Z) (k : kernel) : kernel :=
  let k := if bool_decide (cfs_last (cfs_of k c) = Some p) then __clear_buddies_last p k else k in
  let k := if bool_decide (cfs_next (cfs_of k c) = Some p) then __clear_buddies_next p k else k in
  if bool_decide (cfs_skip (cfs_of k c) = Some p) then __clear_buddies_skip p k else k.

Definition dequeue_entity (c p flags : Z) (k : kernel) : kernel :=
  let k := update_curr c k in
  let k := update_load_avg p UPDATE_TG k in
  let k := dequeue_entity_load_avg c p k in
  let k := update_stats_dequeue c p flags k in
  let k := clear_buddies c p k in
  let k := if negb (bool_decide (cfs_curr (cfs_of k c) = Some p)) then __dequeue_entity c p k else k in
  let k := upd_se p (fun s => s <| se_on_rq := 0 |>) k in
  let k := account_entity_dequeue c p k in
  let k := if negb (has_flag flags DEQUEUE_SLEEP) then normalise c p k else k in
  if negb (Z.land flags (Z.lor DEQUEUE_SAVE DEQUEUE_MOVE) =? DEQUEUE_SAVE)
  then update_min_vruntime c k else k.

(** ** Preemption and picking *)

Definition wakeup_gran (p : Z) (k : kernel) : kernel * Z :=
  calc_delta_fair (sysctl_sched_wakeup_granularity tun) p k.

Definition wakeup_preempt_entity (a b : Z) (k : kernel) : kernel * Z :=
  let vdiff := s64 (vruntime (sea k a) - vruntime (sea k b)) in
  if vdiff <=? 0 then (k, -1)
  else
    let '(k, gran) := wakeup_gran b k in
    if s64 gran <? vdiff then (k, 1) else (k, 0).

(** [None]: the tree is empty and its first entity is dereferenced. *)
Definition check_preempt_tick (c p : Z) (k : kernel) : option kernel :=
  let '(k, ideal_runtime) := sched_slice c p k in
  let delta_exec := u64 (sum_exec_runtime (sea k p) - prev_sum_exec_runtime (sea k p)) in
  if ideal_runtime <? delta_exec then Some (clear_buddies c p (resched_curr c k))
  else if delta_exec <? sysctl_sched_min_granularity tun then Some k
  else
    match __pick_first_entity k c with
    | None => None
    | Some s =>
        let delta := s64 (vruntime (sea k p) - vruntime (sea k s)) in
        if delta <? 0 then Some k
        else if ideal_runtime <? delta then Some (resched_curr c k)
        else Some k
    end.

Definition set_next_entity (c p : Z) (k : kernel) : kernel :=
  let k := if negb (se_on_rq (sea k p) =? 0) then
      let k := update_stats_wait_end c p k in
      let k := __dequeue_entity c p k in
      update_load_avg p UPDATE_TG k
    else k in
  let k := update_stats_curr_start c p k in
  let k := upd_cfs c (fun q => q <| cfs_curr := Some p |>) k in
  let k := if schedstat_enabled k &&
              (u64 (2 * lw_weight (se_load (sea k p))) <=? lw_weight (rq_load (rqs k c)))
           then upd_stat p (fun s => s <| slice_max ::= fun m =>
                  Z.max m (u64 (sum_exec_runtime (sea k p) - prev_sum_exec_runtime (sea k p))) |>) k
           else k in
  upd_se p (fun s => s <| prev_sum_exec_runtime := sum_exec_runtime s |>) k.

(** Whether the buddy [b] may run instead of the leftmost entity. *)
Definition buddy_fits (b : option Z) (leftm : Z) (k : kernel) : kernel * bool :=
  match b with
  | None => (k, false)
  | Some q => let '(k, r) := wakeup_preempt_entity q leftm k in (k, r <? 1)
  end.

(** The entity to run instead of the skip buddy [s]. *)
Definition second_entity (k : kernel) (c : Z) (curr : option Z) (s : Z) : option Z :=
  if bool_decide (curr = Some s) then __pick_first_entity k c
  else
    match __pick_next_entity k s, curr with
    | None, _ => curr
    | Some second, Some q => if entity_before k q second then Some q else Some second
    | Some second, None => Some second
    end.

(** [None]: nothing to pick. *)
Definition pick_next_entity (c : Z) (curr : option Z) (k : kernel) : option (kernel * Z) :=
  let leftm := match __pick_first_entity k c, curr with
               | None, _ => curr
               | Some l, Some q => if entity_before k q l then Some q else Some l
               | Some l, None => Some l
               end in
  match leftm with
  | None => None
  | Some leftm =>
      let '(k, se) :=
        if bool_decide (cfs_skip (cfs_of k c) = Some leftm) then
          let second := second_entity k c curr leftm in
          let '(k, fits) := buddy_fits second leftm k in
          (k, if fits then default leftm second else leftm)
        else (k, leftm) in
      let last := cfs_last (cfs_of k c) in
      let '(k, fits) := buddy_fits last leftm k in
      let se := if fits then default se last else se in
      let next := cfs_next (cfs_of k c) in
      let '(k, fits) := buddy_fits next leftm k in
      let se := if fits then default se next else se in
      Some (clear_buddies c se k, se)
  end.

Definition put_prev_entity (c p : Z) (k : kernel) : kernel :=
  let on := negb (se_on_rq (sea k p) =? 0) in
  let k := if on then update_curr c k else k in
  let k := if on then
      let k := update_stats_wait_start c p k in
      let k := __enqueue_entity c p k in
      update_load_avg p 0 k
    else k in
  upd_cfs c (fun q => q <| cfs_curr := None |>) k.

Definition entity_tick (c p : Z) (k : kernel) : option kernel :=
  let k := update_curr c k in
  let k := update_load_avg p UPDATE_TG k in
  if 1 <? cfs_nr_running (cfs_of k c) then check_preempt_tick c p k else Some k.

(** ** The operations of the class *)

(** A task that is already queued is only counted. *)
Definition enqueue_task_fair (c p flags : Z) (k : kernel) : kernel :=
  let k := if in_iowait (tasks k p) then call (cpufreq_update_util c) k else k in
  let q := cfs_rq_of k p in
  let k := if negb (se_on_rq (sea k p) =? 0) then
      let k := upd_cfs q (fun q => q <| h_nr_running ::= fun n => u32 (n + 1) |>) k in
      update_load_avg p UPDATE_TG k
    else upd_cfs q (fun q => q <| h_nr_running ::= fun n => u32 (n + 1) |>) (enqueue_entity q p flags k) in
  add_nr_running c 1 k.

Definition dequeue_task_fair (c p flags : Z) (k : kernel) : kernel :=
  let q := cfs_rq_of k p in
  let k := dequeue_entity q p flags k in
  let k := upd_cfs q (fun q => q <| h_nr_running ::= fun n => u32 (n - 1) |>) k in
  sub_nr_running c 1 k.

Definition set_last_buddy (p : Z) (k : kernel) : kernel :=
  if policy (tasks k p) =? SCHED_IDLE then k
  else if SCHED_WARN_ON (se_on_rq (sea k p) =? 0) then k
  else upd_cfs (cfs_rq_of k p) (fun q => q <| cfs_last := Some p |>) k.

Definition set_next_buddy (p : Z) (k : kernel) : kernel :=
  if policy (tasks k p) =? SCHED_IDLE then k
  else if SCHED_WARN_ON (se_on_rq (sea k p) =? 0) then k
  else upd_cfs (cfs_rq_of k p) (fun q => q <| cfs_next := Some p |>) k.

Definition set_skip_buddy (p : Z) (k : kernel) : kernel :=
  upd_cfs (cfs_rq_of k p) (fun q => q <| cfs_skip := Some p |>) k.

(** The label [preempt] of [check_preempt_wakeup]. *)
Definition preempt_wakeup (c cur : Z) (scale : bool) (k : kernel) : kernel :=
  let k := resched_curr c k in
  if (se_on_rq (sea k cur) =? 0) || (cur =? idle (rqs k c)) then k
  else if feat_LAST_BUDDY && scale then set_last_buddy cur k else k.

Definition check_preempt_wakeup (c p wake_flags : Z) (k : kernel) : kernel :=
  let cur := curr (rqs k c) in
  let scale := sched_nr_latency tun <=? cfs_nr_running (cfs_of k (cfs_rq_of k cur)) in
  if cur =? p then k
  else
    let mark := feat_NEXT_BUDDY && scale && negb (has_flag wake_flags WF_FORK) in
    let k := if mark then set_next_buddy p k else k in
    if need_resched (tasks k cur) then k
    else if (policy (tasks k cur) =? SCHED_IDLE) && negb (policy (tasks k p) =? SCHED_IDLE)
    then preempt_wakeup c cur scale k
    else if negb (policy (tasks k p) =? SCHED_NORMAL) || negb feat_WAKEUP_PREEMPTION then k
    else
      let k := update_curr (cfs_rq_of k cur) k in
      let '(k, r) := wakeup_preempt_entity cur p k in
      if r =? 1 then preempt_wakeup c cur scale (if mark then k else set_next_buddy p k)
      else k.

Definition put_prev_task_fair (c p : Z) (k : kernel) : kernel := put_prev_entity (cfs_rq_of k p) p k.

Definition yield_task_fair (c : Z) (k : kernel) : kernel :=
  let cur := curr (rqs k c) in
  let q := cfs_rq_of k cur in
  if nr_running (rqs k c) =? 1 then k
  else
    let k := clear_buddies q cur k in
    let k := if negb (policy (tasks k cur) =? SCHED_BATCH)
             then rq_clock_skip_update c true (update_curr q (update_rq_clock c k)) else k in
    set_skip_buddy cur k.

Definition yield_to_task_fair (c p : Z) (preempt : bool) (k : kernel) : kernel * bool :=
  if se_on_rq (sea k p) =? 0 then (k, false)
  else (yield_task_fair c (set_next_buddy p k), true).

Definition migrate_task_rq_fair (p : Z) (k : kernel) : kernel :=
  let k := if state (tasks k p) =? TASK_WAKING then normalise (cfs_rq_of k p) p k else k in
  let k := remove_entity_load_avg p k in
  upd_se p (fun s => s <| se_avg ::= fun a => a <| last_update_time := 0 |> |>
                       <| exec_start := 0 |>) k.

Definition task_dead_fair (p : Z) (k : kernel) : kernel := remove_entity_load_avg p k.

Definition task_tick_fair (c p queued : Z) (k : kernel) : option kernel := entity_tick (cfs_rq_of k p) p k.

Definition task_fork_fair (p : Z) (k : kernel) : kernel :=
  let c := this_cpu k in
  let k := update_rq_clock c k in
  let q := cfs_rq_of k (current k) in
  let cur := cfs_curr (cfs_of k q) in
  let k := match cur with
           | Some r => let k := update_curr q k in
                       upd_se p (fun s => s <| vruntime := vruntime (sea k r) |>) k
           | None => k
           end in
  let k := place_entity q p true k in
  let k := match cur with
           | Some r =>
               if sysctl_sched_child_runs_first tun && entity_before k r p then
                 let vr := vruntime (sea k r) in let vp := vruntime (sea k p) in
                 resched_curr c (upd_se p (fun s => s <| vruntime := vr |>)
                                   (upd_se r (fun s => s <| vruntime := vp |>) k))
               else k
           | None => k
           end in
  normalise q p k.

Definition vruntime_normalized (k : kernel) (p : Z) : bool :=
  let t := tasks k p in
  if negb (on_rq t =? 0) then true
  else (sum_exec_runtime (se t) =? 0) || ((state t =? TASK_WAKING) && sched_remote_wakeup t).

Definition detach_entity_cfs_rq (p : Z) (k : kernel) : kernel :=
  let c := cfs_rq_of k p in
  detach_entity_load_avg c p (update_load_avg p 0 k).

Definition attach_entity_cfs_rq (p : Z) (k : kernel) : kernel :=
  let c := cfs_rq_of k p in
  attach_entity_load_avg c p (update_load_avg p (if feat_ATTACH_AGE_LOAD then 0 else SKIP_AGE_LOAD) k).

Definition detach_task_cfs_rq (p : Z) (k : kernel) : kernel :=
  let c := cfs_rq_of k p in
  let k := if negb (vruntime_normalized k p) then normalise c p (place_entity c p false k) else k in
  detach_entity_cfs_rq p k.

Definition attach_task_cfs_rq (p : Z) (k : kernel) : kernel :=
  let c := cfs_rq_of k p in
  let k := attach_entity_cfs_rq p k in
  if negb (vruntime_normalized k p) then renormalise c p k else k.

Definition switched_from_fair (c p : Z) (k : kernel) : kernel := detach_task_cfs_rq p k.

Definition set_curr_task_fair (c : Z) (k : kernel) : kernel :=
  let cur := curr (rqs k c) in set_next_entity (cfs_rq_of k cur) cur k.

Definition init_cfs_rq (q : cfs_rq) : cfs_rq :=
  q <| tasks_timeline := [] |> <| min_vruntime := u64 (- Z.shiftl 1 20) |>
    <| removed_load_avg := 0 |> <| removed_util_avg := 0 |>.

Definition NSEC_PER_SEC : Z := 1000000000.
Definition NS_TO_JIFFIES `{WrrConfig} (t : Z) : Z := t / (NSEC_PER_SEC / HZ).

Definition get_rr_interval_fair `{WrrConfig} (c p : Z) (k : kernel) : kernel * Z :=
  if negb (lw_weight (cfs_load (cfs_of k c)) =? 0) then
    let '(k, slice) := sched_slice (cfs_rq_of k p) p k in (k, u32 (NS_TO_JIFFIES slice))
  else (k, 0).

(** ** New tasks *)

Definition init_entity_average (p : Z) (k : kernel) : kernel :=
  upd_se p (fun s => s <| se_avg ::= fun a =>
    let l := scale_load_down (lw_weight (se_load s)) in
    a <| last_update_time := 0 |> <| period_contrib := 1023 |> <| load_avg := l |>
      <| load_sum := u64 (l * LOAD_AVG_MAX) |> <| util_avg := 0 |> <| util_sum := 0 |> |>) k.

(** The utilization given to a new task. *)
Definition initial_util (q : cfs_rq) (weight cpu : Z) (sa : sched_avg) : sched_avg :=
  let cap := Z.quot (s64 (arch_scale_cpu_capacity cpu - util_avg (cfs_avg q))) 2 in
  if 0 <? cap then
    let u := if negb (util_avg (cfs_avg q) =? 0) then
        let u := u64 (util_avg (cfs_avg q) * weight) / u64 (load_avg (cfs_avg q) + 1) in
        if cap <? u then cap else u
      else cap in
    sa <| util_avg := u |> <| util_sum := u32 (u * LOAD_AVG_MAX) |>
  else sa.

Definition post_init_entity_average (p : Z) (k : kernel) : kernel :=
  let c := cfs_rq_of k p in
  let k := upd_se p (fun s => s <| se_avg ::=
             initial_util (cfs_of k c) (lw_weight (se_load s)) (rq_cpu (rqs k c)) |>) k in
  if negb (bool_decide (class_of (tasks k p) = fair_sched_class))
  then upd_se p (fun s => s <| se_avg ::= fun a => a <| last_update_time := rq_clock_task k c |> |>) k
  else attach_entity_cfs_rq p k.

(** ** The load indices of a CPU, without tickless idling *)

Definition CPU_LOAD_IDX_MAX : nat := 5.

(** [this_rq->cpu_load[i]] for [i >= 1], with [scale = 2^i]. *)
Definition next_cpu_load (i old_load this_load : Z) : Z :=
  let scale := Z.shiftl 1 i in
  let new_load := if old_load <? this_load then u64 (this_load + (scale - 1)) else this_load in
  Z.shiftr (u64 (old_load * (scale - 1) + new_load)) i.

Definition cpu_load_update (c this_load : Z) (k : kernel) : kernel :=
  let k := upd_rq c (fun r => r <| nr_load_updates ::= fun n => u64 (n + 1) |>
    <| cpu_load ::= imap (fun i old => if decide (i = 0%nat) then this_load
                                       else next_cpu_load (Z.of_nat i) old this_load) |>) k in
  sched_avg_update c k.

Definition weighted_cpuload (k : kernel) (c : Z) : Z := runnable_load_avg (cfs_of k c).

Definition cpu_load_update_periodic (c load : Z) (k : kernel) : kernel := cpu_load_update c load k.

Definition cpu_load_update_tick (c : Z) (k : kernel) : kernel :=
  cpu_load_update_periodic c (weighted_cpuload k c) k.

(** ** Operations that call back into the core scheduler *)

Section Callers.
Context `{QueueOps}.

(** [None]: out of rounds; a round ends with tasks pulled by balancing. *)
Fixpoint pick_next_task_fair (fuel : nat) (c prev : Z) (k : kernel) : option (kernel * picked) :=
  match fuel with
  | O => None
  | S n =>
      if negb (cfs_nr_running (cfs_of k c) =? 0) then
        let k := put_prev_task c prev k in
        match pick_next_entity c None k with
        | None => None
        | Some (k, p) => Some (set_next_entity c p k, TASK p)
        end
      else
        let '(k, new_tasks) := newidle_balance c k in
        if new_tasks <? 0 then Some (k, RETRY_TASK)
        else if 0 <? new_tasks then pick_next_task_fair n c prev k
        else Some (k, NULL_TASK)
  end.

Definition prio_changed_fair (c p oldprio : Z) (k : kernel) : kernel :=
  if negb (task_on_rq_queued k p) then k
  else if curr (rqs k c) =? p then
    if oldprio <? prio (tasks k p) then resched_curr c k else k
  else check_preempt_curr c p 0 k.

Definition switched_to_fair (c p : Z) (k : kernel) : kernel :=
  let k := attach_task_cfs_rq p k in
  if task_on_rq_queued k p then
    if curr (rqs k c) =? p then resched_curr c k else check_preempt_curr c p 0 k
  else k.
End Callers.
End Fair.
