(* ===== verification/FairInv.v ===== *)
(** * The queues of the fair class are kept in order

    [fair_wf]: on every CPU the timeline is sorted by virtual runtime and holds
    exactly the queued tasks but the running one, and the number of tasks, the
    load of the queue and of the CPU, and the buddies agree with it.  Every
    operation of the class keeps it ([fair_invariant]), the entity that is
    picked is queued and not unfair to the leftmost one, time slices add up to
    at most one period, and taking a task off to change it puts it back at the
    same virtual time. *)

From stdpp Require Import sorting.
From S2P Require Import Prelude SchedTypes Core Wrr RtBandwidth FairMath FairPelt FairQueue.

(** ** What the invariant looks at *)

Record fair_queue := mkFairQueue {
  fq_timeline : list Z;
  fq_curr : option Z;
  fq_tasks : list Z;
  fq_nr : Z;
  fq_load : Z;
  fq_rq_load : Z;
  fq_next : option Z;
  fq_last : option Z;
  fq_skip : option Z }.
#[export] Instance eta_fair_queue : Settable fair_queue :=
  fun r => mkFairQueue (fq_timeline r) (fq_curr r) (fq_tasks r) (fq_nr r) (fq_load r)
    (fq_rq_load r) (fq_next r) (fq_last r) (fq_skip r).

Definition fq_of_rq (r : rq) : fair_queue :=
  let q := cfs r in
  mkFairQueue (tasks_timeline q) (cfs_curr q) (cfs_tasks r) (cfs_nr_running q)
    (lw_weight (cfs_load q)) (lw_weight (rq_load r)) (cfs_next q) (cfs_last q) (cfs_skip q).
Definition fq (k : kernel) (c : Z) : fair_queue := fq_of_rq (rqs k c).

(** Virtual runtime, queued flag, weight and CPU of a task. *)
Record fair_entity := mkFairEntity { fe_vr : Z; fe_on : Z; fe_weight : Z; fe_cpu : Z }.
#[export] Instance eta_fair_entity : Settable fair_entity :=
  fun r => mkFairEntity (fe_vr r) (fe_on r) (fe_weight r) (fe_cpu r).

Definition fe_of (t : task_struct) : fair_entity :=
  mkFairEntity (vruntime (se t)) (se_on_rq (se t)) (lw_weight (se_load (se t))) (task_cpu t).
Definition fe (k : kernel) (p : Z) : fair_entity := fe_of (tasks k p).

#[global] Arguments fq : simpl never.
#[global] Arguments fe : simpl never.

Definition fair_equiv (k k' : kernel) : Prop :=
  (forall c, fq k c = fq k' c) /\ (forall p, fe k p = fe k' p).
Notation "k ≡f k'" := (fair_equiv k k') (at level 70).

#[export] Instance fair_equiv_equivalence : Equivalence fair_equiv.
Proof.
  split; [done| |].
  - intros k k' [? ?]. by split.
  - intros k1 k2 k3 [A B] [A' B']. split; intros; congruence.
Qed.

(** ** Updates that do not matter to it *)

Lemma fair_upd_task p f k : (forall t, fe_of (f t) = fe_of t) -> upd_task p f k ≡f k.
Proof. intros Hf. split; [done|]. intros q. unfold fe. ksimpl. by case_decide; subst. Qed.

Lemma fair_upd_rq c f k : (forall r, fq_of_rq (f r) = fq_of_rq r) -> upd_rq c f k ≡f k.
Proof. intros Hf. split; [|done]. intros d. unfold fq. ksimpl. by case_decide; subst. Qed.

Create HintDb fair.
#[export] Hint Constants Opaque : fair.

Ltac fair_back :=
  unfold upd_stat, upd_cfs, upd_se; cbv zeta;
  repeat match goal with
  | |- ?k ≡f ?k => reflexivity
  | |- context [if ?b then _ else _] => destruct b
  | |- upd_rq ?c ?f ?k' ≡f ?k => transitivity k'; [by apply fair_upd_rq|]
  | |- upd_task ?c ?f ?k' ≡f ?k => transitivity k'; [by apply fair_upd_task|]
  | |- call ?e ?k' ≡f ?k => transitivity k'; [done|]
  | |- _ ≡f ?k => etransitivity; [solve [eauto with fair nocore typeclass_instances]|]
  | |- _ => done
  end.

Lemma fair_clock c k : update_rq_clock c k ≡f k.
Proof. unfold update_rq_clock, update_rq_clock_task. fair_back. Qed.
Lemma fair_resched c k : resched_curr c k ≡f k.
Proof. unfold resched_curr, set_nr_and_not_polling, set_tsk_need_resched. fair_back. Qed.
Lemma fair_skip_update c b k : rq_clock_skip_update c b k ≡f k.
Proof. unfold rq_clock_skip_update. fair_back. Qed.
Lemma fair_add_nr c n k : add_nr_running c n k ≡f k.
Proof. unfold add_nr_running. cases; by apply fair_upd_rq. Qed.
Lemma fair_sub_nr c n k : sub_nr_running c n k ≡f k.
Proof. unfold sub_nr_running. fair_back. Qed.
Lemma fair_min_vruntime c k : update_min_vruntime c k ≡f k.
Proof. unfold update_min_vruntime. fair_back. Qed.
#[export] Hint Resolve fair_clock fair_resched fair_skip_update fair_add_nr fair_sub_nr
  fair_min_vruntime : fair.

Lemma fair_util_change c k : cfs_rq_util_change c k ≡f k.
Proof. done. Qed.
Lemma fair_wait_start c p k : update_stats_wait_start c p k ≡f k.
Proof. unfold update_stats_wait_start. fair_back. Qed.
Lemma fair_wait_end c p k : update_stats_wait_end c p k ≡f k.
Proof. unfold update_stats_wait_end. fair_back. Qed.
Lemma fair_sleeper c p k : update_stats_enqueue_sleeper c p k ≡f k.
Proof. unfold update_stats_enqueue_sleeper. fair_back. Qed.
#[export] Hint Resolve fair_util_change fair_wait_start fair_wait_end fair_sleeper : fair.
Lemma fair_stats_enqueue c p fl k : update_stats_enqueue c p fl k ≡f k.
Proof. unfold update_stats_enqueue. fair_back. Qed.
Lemma fair_stats_dequeue c p fl k : update_stats_dequeue c p fl k ≡f k.
Proof. unfold update_stats_dequeue. fair_back. Qed.
Lemma fair_curr_start c p k : update_stats_curr_start c p k ≡f k.
Proof. unfold update_stats_curr_start. fair_back. Qed.
#[export] Hint Resolve fair_stats_enqueue fair_stats_dequeue fair_curr_start : fair.

Lemma calc_delta_weight d w lw : lw_weight (__calc_delta d w lw).2 = lw_weight lw.
Proof.
  unfold __calc_delta, __update_inv_weight. cbv zeta.
  destruct (shrink _ _ _). destruct (shrink _ _ _). cbn. by destruct (negb _).
Qed.

(** Caching a reciprocal changes no weight. *)
Lemma fair_cache_se p lw k :
  lw_weight lw = lw_weight (se_load (sea k p)) -> upd_se p (fun s => s <| se_load := lw |>) k ≡f k.
Proof.
  intros Hw. split; [done|]. intros q. unfold fe, upd_se. ksimpl. case_decide as E; [|done].
  rewrite <- E. unfold fe_of. cbn. by rewrite Hw.
Qed.
Lemma fair_cache_cfs c lw k :
  lw_weight lw = lw_weight (cfs_load (cfs_of k c)) ->
  upd_cfs c (fun q => q <| cfs_load := lw |>) k ≡f k.
Proof.
  intros Hw. split; [|done]. intros d. unfold fq, upd_cfs. ksimpl. case_decide as E; [|done].
  rewrite <- E. unfold fq_of_rq. cbn. by rewrite Hw.
Qed.

Section Equiv.
Context `{FairEnv} `{PeltTable}.

Lemma fair_calc_delta d p k : (calc_delta_fair d p k).1 ≡f k.
Proof.
  unfold calc_delta_fair. destruct (negb _); [|done].
  pose proof (calc_delta_weight d NICE_0_LOAD (se_load (sea k p))) as Hw.
  destruct (__calc_delta _ _ _) as [d' lw]. by apply fair_cache_se.
Qed.

Lemma fair_slice c p k : (sched_slice c p k).1 ≡f k.
Proof.
  unfold sched_slice. cbv zeta. destruct (negb _); [|done].
  match goal with |- context [__calc_delta ?a ?b ?c] => pose proof (calc_delta_weight a b c) as Hw end.
  destruct (__calc_delta _ _ _) as [d' lw]. by apply fair_cache_cfs.
Qed.

Lemma fair_vslice c p k : (sched_vslice c p k).1 ≡f k.
Proof.
  unfold sched_vslice. pose proof (fair_slice c p k) as E. destruct (sched_slice c p k) as [k1 d].
  rewrite fair_calc_delta. exact E.
Qed.

Lemma fair_wakeup a b k : (wakeup_preempt_entity a b k).1 ≡f k.
Proof.
  unfold wakeup_preempt_entity. cbv zeta. destruct (_ <=? 0); [done|]. unfold wakeup_gran.
  pose proof (fair_calc_delta (sysctl_sched_wakeup_granularity tun) b k) as E.
  destruct (calc_delta_fair _ _ _) as [k1 g]. by destruct (s64 g <? _).
Qed.

Lemma fair_buddy_fits b l k : (buddy_fits b l k).1 ≡f k.
Proof.
  destruct b as [q|]; [|done]. cbn. pose proof (fair_wakeup q l k) as E.
  by destruct (wakeup_preempt_entity q l k).
Qed.

Lemma fair_cfs_avg now c k : (update_cfs_rq_load_avg now c k).1 ≡f k.
Proof.
  unfold update_cfs_rq_load_avg, __update_load_avg_cfs_rq. cbv zeta.
  destruct (___update_load_avg _ _ _ _ _ _) as [[sa r] d].
  destruct (default (0, 0) r) as [rs ra]. cbn [fst]. fair_back.
Qed.

Lemma fair_load_avg p fl k : update_load_avg p fl k ≡f k.
Proof.
  unfold update_load_avg. cbv zeta. rewrite fair_cfs_avg. unfold __update_load_avg_se. fair_back.
Qed.

Lemma fair_attach c p k : attach_entity_load_avg c p k ≡f k.
Proof. unfold attach_entity_load_avg. cbv zeta. rewrite fair_util_change. fair_back. Qed.
Lemma fair_detach c p k : detach_entity_load_avg c p k ≡f k.
Proof. unfold detach_entity_load_avg. cbv zeta. rewrite fair_util_change. fair_back. Qed.
Lemma fair_enqueue_avg c p k : enqueue_entity_load_avg c p k ≡f k.
Proof.
  unfold enqueue_entity_load_avg. cbv zeta. case_match; [rewrite fair_attach|]; fair_back.
Qed.
Lemma fair_dequeue_avg c p k : dequeue_entity_load_avg c p k ≡f k.
Proof. unfold dequeue_entity_load_avg. fair_back. Qed.
Lemma fair_remove_avg p k : remove_entity_load_avg p k ≡f k.
Proof.
  unfold remove_entity_load_avg, sync_entity_load_avg, __update_load_avg_blocked_se. fair_back.
Qed.
End Equiv.
#[export] Hint Resolve fair_calc_delta fair_slice fair_vslice fair_wakeup fair_buddy_fits fair_cfs_avg
  fair_load_avg fair_attach fair_detach fair_enqueue_avg fair_dequeue_avg fair_remove_avg : fair.

(** ** The invariant *)

(** The running task of the class, if it is still queued. *)
Definition running_of (k : kernel) (c : Z) : list Z :=
  match fq_curr (fq k c) with
  | Some p => if fe_on (fe k p) =? 0 then [] else [p]
  | None => []
  end.

Definition vr_order (k : kernel) (l : list Z) : Prop :=
  StronglySorted (fun a b => vruntime_before (fe_vr (fe k b)) (fe_vr (fe k a)) = false) l.

Definition buddies (q : fair_queue) : list (option Z) := [fq_next q; fq_last q; fq_skip q].

(** With [o], the timelines are also in order; without, the rest stands by
    itself, which needs no assumption on the spread of virtual runtimes. *)
Record cfs_wf (o : bool) (k : kernel) (c : Z) : Prop := {
  wf_nodup : NoDup (fq_tasks (fq k c));
  wf_perm : fq_tasks (fq k c) ≡ₚ fq_timeline (fq k c) ++ running_of k c;
  wf_members p : p ∈ fq_tasks (fq k c) <-> fe_on (fe k p) <> 0 /\ fe_cpu (fe k p) = c;
  wf_curr p : fq_curr (fq k c) = Some p -> fe_cpu (fe k p) = c;
  wf_nr : fq_nr (fq k c) = Z.of_nat (length (fq_tasks (fq k c)));
  wf_load : fq_load (fq k c) = u64 (sum_of (fun p => fe_weight (fe k p)) (fq_tasks (fq k c)));
  wf_rq_load : fq_rq_load (fq k c) = fq_load (fq k c);
  wf_order : o = true -> vr_order k (fq_timeline (fq k c));
  wf_buddies p : Some p ∈ buddies (fq k c) -> p ∈ fq_tasks (fq k c) }.

#[global] Arguments wf_nodup {o} k c _.
#[global] Arguments wf_perm {o} k c _.
#[global] Arguments wf_members {o} k c _ p.
#[global] Arguments wf_curr {o} k c _ p _.
#[global] Arguments wf_nr {o} k c _.
#[global] Arguments wf_load {o} k c _.
#[global] Arguments wf_rq_load {o} k c _.
#[global] Arguments wf_order {o} k c _ _.
#[global] Arguments wf_buddies {o} k c _ p _.

Definition fair_ok (o : bool) (k : kernel) : Prop := forall c, cfs_wf o k c.
Abbreviation fair_wf := (fair_ok true).

#[export] Instance fair_wf_proper o : Proper (fair_equiv ==> iff) (fair_ok o).
Proof.
  assert (Himp : forall k k', k ≡f k' -> fair_ok o k -> fair_ok o k').
  { intros k k' [Eq Ee] W c. destruct (W c) as [A B C D E F G I J]. rewrite Eq in *.
    assert (Er : running_of k c = running_of k' c).
    { unfold running_of. rewrite Eq. destruct (fq_curr _); [by rewrite Ee|done]. }
    rewrite Er in *. split; try done.
    - intros p. rewrite <- Ee. apply C.
    - intros p. rewrite <- Ee. apply D.
    - rewrite F. f_equal. apply sum_of_ext. intros p _. by rewrite Ee.
    - intros Ho. specialize (I Ho). unfold vr_order in *. clear -I Ee. induction I as [|a l Hl IH Ha]; constructor; [done|].
      rewrite Forall_forall in Ha |- *. intros b Hb. rewrite <- !Ee. by apply Ha. }
  intros k k' E. split; [by apply Himp|apply Himp; by symmetry].
Qed.

Lemma wf_timeline {o} k c p : cfs_wf o k c -> p ∈ fq_timeline (fq k c) -> p ∈ fq_tasks (fq k c).
Proof. intros W Hp. rewrite (wf_perm _ _ W). set_solver. Qed.

Lemma wf_curr_off {o} k c p : fair_ok o k -> fq_curr (fq k c) = Some p -> forall d, p ∉ fq_timeline (fq k d).
Proof.
  intros W Hc d Hp. pose proof (wf_timeline _ _ _ (W d) Hp) as Ht.
  apply (wf_members _ _ (W d)) in Ht as [Hon Hcpu].
  pose proof (wf_curr _ _ (W c) p Hc) as Hcpu'. assert (d = c) as -> by congruence.
  pose proof (wf_nodup _ _ (W c)) as Hnd. rewrite (wf_perm _ _ (W c)) in Hnd.
  apply NoDup_app in Hnd as (_ & Hd & _). apply (Hd p Hp). unfold running_of. rewrite Hc.
  destruct (Z.eqb_spec (fe_on (fe k p)) 0); [done|]. set_solver.
Qed.

Lemma wf_off {o} k p : fair_ok o k -> fe_on (fe k p) = 0 -> forall d, p ∉ fq_tasks (fq k d).
Proof. intros W Hon d Hp. by apply (wf_members _ _ (W d)) in Hp as [? _]. Qed.

(** ** Changes of virtual runtimes *)

(** The states differ only in virtual runtimes of tasks in [P]. *)
Definition revalued (P : Z -> Prop) (k k' : kernel) : Prop :=
  (forall c, fq k' c = fq k c) /\
  (forall p, exists v, fe k' p = fe k p <| fe_vr := v |>) /\
  (forall p, ~ P p -> fe k' p = fe k p).

Lemma fe_same (e : fair_entity) : e <| fe_vr := fe_vr e |> = e.
Proof. by destruct e. Qed.

Lemma revalued_equiv P k k' : k' ≡f k -> revalued P k k'.
Proof.
  intros [Eq Ee]. split_and!; [done| |done]. intros p. exists (fe_vr (fe k p)). by rewrite fe_same.
Qed.

Lemma revalued_trans P k1 k2 k3 : revalued P k1 k2 -> revalued P k2 k3 -> revalued P k1 k3.
Proof.
  intros (A1 & B1 & C1) (A2 & B2 & C2). split_and!.
  - intros c. by rewrite A2.
  - intros p. destruct (B1 p) as [v1 E1], (B2 p) as [v2 E2]. exists v2. by rewrite E2, E1.
  - intros p Hp. by rewrite C2, C1.
Qed.

Lemma revalued_mono (P Q : Z -> Prop) k k' : (forall p, P p -> Q p) -> revalued P k k' -> revalued Q k k'.
Proof. intros HPQ (A & B & C). split_and!; [done..|]. naive_solver. Qed.

Lemma revalued_vr (P : Z -> Prop) p f k :
  P p -> revalued P k (upd_se p (fun s => s <| vruntime ::= f |>) k).
Proof.
  intros Hp. split_and!; [done| |].
  - intros q. unfold fe, upd_se. ksimpl. case_decide as E.
    + subst q. eexists. unfold fe_of. cbn. reflexivity.
    + exists (fe_vr (fe k q)). symmetry. apply (fe_same (fe k q)).
  - intros q Hq. unfold fe, upd_se. ksimpl. case_decide; [by subst|done].
Qed.

Lemma revalued_fields P k k' p : revalued P k k' ->
  fe_on (fe k' p) = fe_on (fe k p) /\ fe_weight (fe k' p) = fe_weight (fe k p) /\
  fe_cpu (fe k' p) = fe_cpu (fe k p).
Proof. intros (_ & B & _). by destruct (B p) as [v ->]. Qed.

Lemma revalued_wf {o} P k k' :
  revalued P k k' -> (forall p, P p -> forall d, p ∉ fq_timeline (fq k d)) -> fair_ok o k -> fair_ok o k'.
Proof.
  intros R HP W c. destruct (W c) as [A B C D E F G I J]. pose proof R as (Rq & _ & Re).
  pose proof (revalued_fields P k k') as Rf.
  assert (Er : running_of k' c = running_of k c).
  { unfold running_of. rewrite Rq. destruct (fq_curr _) as [p|]; [|done]. by destruct (Rf p R) as (-> & _). }
  split; rewrite ?Rq, ?Er; try done.
  - intros p. destruct (Rf p R) as (-> & _ & ->). apply C.
  - intros p Hp. destruct (Rf p R) as (_ & _ & ->). by apply D.
  - rewrite F. f_equal. apply sum_of_ext. intros p _. by destruct (Rf p R) as (_ & -> & _).
  - intros Ho. specialize (I Ho). unfold vr_order in *.
    assert (Hin : forall p, p ∈ fq_timeline (fq k c) -> fe k' p = fe k p).
    { intros p Hp. apply Re. intros HPp. by apply (HP p HPp c). }
    clear -I Hin. induction I as [|a l Hl IH Ha]; constructor; [apply IH; set_solver|].
    rewrite Forall_forall in Ha |- *. intros b Hb. rewrite !Hin by set_solver. by apply Ha.
Qed.

Section Ops.
Context `{FairEnv} `{PeltTable} {o : bool}.

(** [update_curr] advances the virtual runtime of the running entity. *)
Lemma update_curr_revalues c k : revalued (fun p => fq_curr (fq k c) = Some p) k (update_curr c k).
Proof.
  unfold update_curr. change (cfs_curr (cfs_of k c)) with (fq_curr (fq k c)).
  destruct (fq_curr (fq k c)) as [p|] eqn:Ec; [|by apply revalued_equiv].
  cbv zeta. destruct (_ <=? 0); [by apply revalued_equiv|].
  match goal with |- context [calc_delta_fair ?d p ?x] =>
    assert (E1 : x ≡f k) by fair_back; pose proof (fair_calc_delta d p x) as E2;
    destruct (calc_delta_fair d p x) as [k1 d1] end.
  cbn [fst] in E2. rewrite E1 in E2. eapply revalued_trans; [by apply revalued_equiv, E2|].
  eapply revalued_trans; [by apply (revalued_vr _ p)|].
  apply revalued_equiv. fair_back.
Qed.

Lemma place_revalues c p b k : revalued (eq p) k (place_entity c p b k).
Proof.
  unfold place_entity. cbv zeta.
  match goal with |- context [let '(_, _) := ?x in _] =>
    assert (E : x.1 ≡f k); [|destruct x as [k1 v]; cbn [fst] in E] end.
  { destruct (b && feat_START_DEBIT); [|done]. pose proof (fair_vslice c p k) as E.
    by destruct (sched_vslice c p k). }
  eapply revalued_trans; [by apply revalued_equiv, E|]. by apply revalued_vr.
Qed.

(** ** Putting a task on the queue and taking it off *)

Definition vr_before (k : kernel) (a b : Z) : bool := vruntime_before (fe_vr (fe k a)) (fe_vr (fe k b)).

Definition linked (c p : Z) (k k' : kernel) : Prop :=
  (forall d, fq k' d = if decide (c = d) then
     fq k c <| fq_tasks ::= cons p |> <| fq_nr ::= fun n => u32 (n + 1) |>
            <| fq_load ::= fun l => u64 (l + fe_weight (fe k p)) |>
            <| fq_rq_load ::= fun l => u64 (l + fe_weight (fe k p)) |>
            <| fq_timeline ::= fun l => if bool_decide (fq_curr (fq k c) = Some p) then l
                                        else timeline_insert (vr_before k) p l |>
   else fq k d) /\
  (forall q, fe k' q = if decide (p = q) then fe k p <| fe_on := 1 |> else fe k q).

Definition unbuddy (p : Z) (b : option Z) : option Z := if bool_decide (b = Some p) then None else b.
Lemma unbuddy_some p b q : Some q = unbuddy p b -> b = Some q /\ q <> p.
Proof. unfold unbuddy. case_bool_decide; [done|]. intros <-. split; congruence. Qed.
Definition cleared (p : Z) (q : fair_queue) : fair_queue :=
  q <| fq_next ::= unbuddy p |> <| fq_last ::= unbuddy p |> <| fq_skip ::= unbuddy p |>.

Definition unlinked (c p : Z) (k k' : kernel) : Prop :=
  (forall d, fq k' d = if decide (c = d) then
     cleared p (fq k c) <| fq_tasks ::= list_del p |> <| fq_nr ::= fun n => u32 (n - 1) |>
            <| fq_load ::= fun l => u64 (l - fe_weight (fe k p)) |>
            <| fq_rq_load ::= fun l => u64 (l - fe_weight (fe k p)) |>
            <| fq_timeline ::= fun l => if bool_decide (fq_curr (fq k c) = Some p) then l
                                        else list_del p l |>
   else fq k d) /\
  (forall q, fe k' q = if decide (p = q) then fe k p <| fe_on := 0 |> else fe k q).

Lemma fq_upd_rq c f k d : fq (upd_rq c f k) d = if decide (c = d) then fq_of_rq (f (rqs k c)) else fq k d.
Proof. unfold fq. rewrite rqs_upd_rq. by case_decide. Qed.

Lemma fe_upd_task p f k q : fe (upd_task p f k) q = if decide (p = q) then fe_of (f (tasks k p)) else fe k q.
Proof. unfold fe. rewrite tasks_upd_task. by case_decide. Qed.

Lemma timeline_insert_ext f g p l :
  (forall q, f p q = g p q) -> timeline_insert f p l = timeline_insert g p l.
Proof. intros E. induction l as [|q l IH]; [done|]. cbn. by rewrite E, IH. Qed.

Lemma cfs_curr_fq k c : cfs_curr (cfs_of k c) = fq_curr (fq k c).
Proof. done. Qed.
Lemma cfs_rq_of_fe k p : cfs_rq_of k p = fe_cpu (fe k p).
Proof. done. Qed.

Lemma cleared_curr p q : fq_curr (cleared p q) = fq_curr q.
Proof. done. Qed.

Lemma fq_upd_se p f k d : fq (upd_se p f k) d = fq k d.
Proof. done. Qed.

Lemma fe_upd_se p f k q :
  fe (upd_se p f k) q = if decide (p = q)
    then mkFairEntity (vruntime (f (sea k p))) (se_on_rq (f (sea k p))) (lw_weight (se_load (f (sea k p))))
           (fe_cpu (fe k p))
    else fe k q.
Proof. unfold upd_se. rewrite fe_upd_task. by case_decide. Qed.

Lemma fq_account c p k d :
  fq (account_entity_enqueue c p k) d = if decide (c = d) then
    fq k c <| fq_tasks ::= cons p |> <| fq_nr ::= fun n => u32 (n + 1) |>
           <| fq_load ::= fun l => u64 (l + fe_weight (fe k p)) |>
           <| fq_rq_load ::= fun l => u64 (l + fe_weight (fe k p)) |> else fq k d.
Proof.
  unfold account_entity_enqueue, upd_cfs. cbv zeta. rewrite !fq_upd_rq. case_decide; [|done].
  rewrite !rqs_upd_rq, !decide_True by done. done.
Qed.

Lemma fq_unaccount c p k d :
  fq (account_entity_dequeue c p k) d = if decide (c = d) then
    fq k c <| fq_tasks ::= list_del p |> <| fq_nr ::= fun n => u32 (n - 1) |>
           <| fq_load ::= fun l => u64 (l - fe_weight (fe k p)) |>
           <| fq_rq_load ::= fun l => u64 (l - fe_weight (fe k p)) |> else fq k d.
Proof.
  unfold account_entity_dequeue, upd_cfs. cbv zeta. rewrite !fq_upd_rq. case_decide; [|done].
  rewrite !rqs_upd_rq, !decide_True by done. done.
Qed.

Lemma fe_account c p k q : fe (account_entity_enqueue c p k) q = fe k q.
Proof. done. Qed.
Lemma fe_unaccount c p k q : fe (account_entity_dequeue c p k) q = fe k q.
Proof. done. Qed.

Lemma fq_link c p k d :
  fq (__enqueue_entity c p k) d = if decide (c = d) then
    fq k c <| fq_timeline ::= timeline_insert (vr_before k) p |> else fq k d.
Proof. unfold __enqueue_entity, upd_cfs. rewrite fq_upd_rq. by case_decide. Qed.
Lemma fe_link c p k q : fe (__enqueue_entity c p k) q = fe k q.
Proof. done. Qed.

Lemma fq_unlink c p k d :
  fq (__dequeue_entity c p k) d = if decide (c = d) then
    fq k c <| fq_timeline ::= list_del p |> else fq k d.
Proof. unfold __dequeue_entity, upd_cfs. rewrite fq_upd_rq. by case_decide. Qed.
Lemma fe_unlink c p k q : fe (__dequeue_entity c p k) q = fe k q.
Proof. done. Qed.

(** The last steps of enqueueing, from the state [k4] in which the entity was
    counted to the state [k6] in which it got its place. *)
Lemma link_counted c p k4 k6 :
  revalued (eq p) (account_entity_enqueue c p k4) k6 ->
  linked c p (upd_se p (fun s => s <| vruntime := fe_vr (fe k6 p) |>) k4)
    (upd_se p (fun s => s <| se_on_rq := 1 |>)
      (if negb (bool_decide (fq_curr (fq k4 c) = Some p)) then __enqueue_entity c p k6 else k6)).
Proof.
  intros (Q6 & V6 & E6). set (k4' := upd_se p (fun s => s <| vruntime := _ |>) k4).
  assert (Hfe : forall q, fe k4' q = fe k6 q).
  { intros q. unfold k4'. rewrite fe_upd_se. destruct (decide (p = q)) as [<-|Hq].
    - destruct (V6 p) as [v' ->]. by rewrite fe_account.
    - by rewrite E6, fe_account by done. }
  assert (Hw : fe_weight (fe k4' p) = fe_weight (fe k4 p)).
  { rewrite Hfe. destruct (V6 p) as [v' ->]. by rewrite fe_account. }
  split.
  - intros d. rewrite fq_upd_se, Hw.
    assert (Hq4 : forall x, fq k4' x = fq k4 x) by (intros x; apply fq_upd_se).
    assert (Ei : forall l, timeline_insert (vr_before k6) p l = timeline_insert (vr_before k4') p l).
    { intros l. apply timeline_insert_ext. intros q. unfold vr_before. by rewrite !Hfe. }
    rewrite !Hq4. generalize (fe_weight (fe k4 p)) (fq_account c p k4). intros w Ha.
    destruct (bool_decide _); cbn [negb].
    + rewrite Q6, Ha. destruct (decide (c = d)); [|done]. by generalize (fq k4 c).
    + rewrite fq_link, !Q6, !Ha. rewrite (decide_True (P := c = c)) by done.
      destruct (decide (c = d)); [|done]. generalize (fq k4 c). intros q0. cbn. by rewrite Ei.
  - intros q. rewrite fe_upd_se. destruct (decide (p = q)) as [<-|Hq].
    + rewrite Hfe. by destruct (bool_decide _).
    + rewrite Hfe. by destruct (bool_decide _).
Qed.

Lemma enqueue_entity_links c p fl k :
  exists k1, revalued (fun q => q = p \/ fq_curr (fq k c) = Some q) k k1 /\
    linked c p k1 (enqueue_entity c p fl k).
Proof.
  set (P := fun q => q = p \/ fq_curr (fq k c) = Some q).
  unfold enqueue_entity. cbv zeta. set (renorm := _ || _). set (curr := bool_decide _).
  set (k1 := if renorm && curr then _ else k). set (k2 := update_curr c k1).
  set (k3 := if renorm && negb curr then _ else k2). set (k4 := enqueue_entity_load_avg c p _).
  assert (R4 : revalued P k k4).
  { assert (R1 : revalued P k k1).
    { unfold k1. case_match; [by apply revalued_vr; left|by apply revalued_equiv]. }
    assert (R2 : revalued P k k2).
    { eapply revalued_trans; [exact R1|]. eapply revalued_mono; [|apply update_curr_revalues].
      intros q Hq. right. by rewrite <- (proj1 R1). }
    assert (R3 : revalued P k k3).
    { clearbody k2. unfold k3. case_match; [|exact R2]. eapply revalued_trans; [exact R2|]. by apply revalued_vr; left. }
    eapply revalued_trans; [exact R3|]. apply revalued_equiv. unfold k4. by rewrite fair_enqueue_avg, fair_load_avg. }
  set (k5 := account_entity_enqueue c p k4).
  match goal with |- context [update_stats_enqueue c p fl ?x] =>
    assert (R6 : revalued (eq p) k5 (update_stats_enqueue c p fl x)) end.
  { eapply revalued_trans; [|apply revalued_equiv, fair_stats_enqueue].
    destruct (has_flag fl ENQUEUE_WAKEUP); [apply place_revalues|by apply revalued_equiv]. }
  set (k6 := update_stats_enqueue _ _ _ _) in *. clearbody k6.
  exists (upd_se p (fun s => s <| vruntime := fe_vr (fe k6 p) |>) k4). split.
  { eapply revalued_trans; [exact R4|]. by apply revalued_vr; left. }
  assert (Ec : curr = bool_decide (fq_curr (fq k4 c) = Some p)) by (rewrite (proj1 R4); done).
  rewrite Ec. by apply link_counted.
Qed.

Ltac buddy_case :=
  intros ->; match goal with |- context [bool_decide ?P] => let E := fresh in destruct (bool_decide P) eqn:E;
    unfold upd_cfs, cfs_of in *; rewrite ?fq_upd_rq; destruct (decide (_ = _)); try done; try subst;
    unfold fq, fq_of_rq, unbuddy; cbn; rewrite ?E; done end.

Lemma fq_clear_last c p k d :
  cfs_rq_of k p = c ->
  fq (if bool_decide (cfs_last (cfs_of k c) = Some p) then __clear_buddies_last p k else k) d =
  if decide (c = d) then fq k c <| fq_last ::= unbuddy p |> else fq k d.
Proof. unfold __clear_buddies_last. buddy_case. Qed.
Lemma fq_clear_next c p k d :
  cfs_rq_of k p = c ->
  fq (if bool_decide (cfs_next (cfs_of k c) = Some p) then __clear_buddies_next p k else k) d =
  if decide (c = d) then fq k c <| fq_next ::= unbuddy p |> else fq k d.
Proof. unfold __clear_buddies_next. buddy_case. Qed.
Lemma fq_clear_skip c p k d :
  cfs_rq_of k p = c ->
  fq (if bool_decide (cfs_skip (cfs_of k c) = Some p) then __clear_buddies_skip p k else k) d =
  if decide (c = d) then fq k c <| fq_skip ::= unbuddy p |> else fq k d.
Proof. unfold __clear_buddies_skip. buddy_case. Qed.

Lemma fq_clear_buddies c p k d :
  cfs_rq_of k p = c -> fq (clear_buddies c p k) d = if decide (c = d) then cleared p (fq k c) else fq k d.
Proof.
  intros Hc. unfold clear_buddies. cbv zeta.
  assert (Hk : forall (b : bool) k', cfs_rq_of k' p = c ->
    cfs_rq_of (if b then __clear_buddies_last p k' else k') p = c /\
    cfs_rq_of (if b then __clear_buddies_next p k' else k') p = c) by (intros [] k' E; done).
  rewrite fq_clear_skip by (apply Hk, Hk, Hc). rewrite !fq_clear_next by (apply Hk, Hc).
  rewrite !fq_clear_last by done. rewrite !(decide_True (P := c = c)) by done.
  by destruct (decide (c = d)).
Qed.

Lemma fe_clear_buddies c p k q : fe (clear_buddies c p k) q = fe k q.
Proof. unfold clear_buddies. cbv zeta. by repeat case_match. Qed.

(** The middle of dequeueing, once the times and averages are up to date. *)
Lemma unlink_counted c p k :
  cfs_rq_of k p = c ->
  unlinked c p k (account_entity_dequeue c p (upd_se p (fun s => s <| se_on_rq := 0 |>)
    (if negb (bool_decide (fq_curr (fq k c) = Some p)) then __dequeue_entity c p (clear_buddies c p k)
     else clear_buddies c p k))).
Proof.
  intros Hc. pose proof (fun d => fq_clear_buddies c p k d Hc) as Hq.
  pose proof (fe_clear_buddies c p k) as He. set (kb := clear_buddies c p k) in *. clearbody kb.
  set (kl := if negb _ then _ else kb).
  assert (Hel : forall q, fe kl q = fe k q) by (intros q; unfold kl; destruct (negb _); apply He).
  assert (Hw : fe_weight (fe (upd_se p (fun s => s <| se_on_rq := 0 |>) kl) p) = fe_weight (fe k p)).
  { rewrite fe_upd_se, decide_True by done. rewrite <- Hel. done. }
  split.
  - intros d. rewrite fq_unaccount, Hw, !fq_upd_se. clear Hw. generalize (fe_weight (fe k p)). intros w.
    unfold kl. clear kl Hel. destruct (bool_decide (fq_curr (fq k c) = Some p)); cbn [negb].
    + rewrite !Hq, !(decide_True (P := c = c)) by done. destruct (decide (c = d)); [|done].
      by generalize (cleared p (fq k c)).
    + rewrite !fq_unlink, !Hq, !(decide_True (P := c = c)) by done. destruct (decide (c = d)); [|done].
      by generalize (cleared p (fq k c)).
  - intros q. rewrite fe_unaccount, fe_upd_se. destruct (decide (p = q)) as [<-|]; [|apply Hel].
    rewrite <- (Hel p). done.
Qed.

Lemma dequeue_entity_unlinks c p fl k :
  cfs_rq_of k p = c ->
  exists k1 k2, revalued (fun q => fq_curr (fq k c) = Some q) k k1 /\ unlinked c p k1 k2 /\
    revalued (eq p) k2 (dequeue_entity c p fl k).
Proof.
  intros Hc. unfold dequeue_entity. cbv zeta.
  set (k1 := update_stats_dequeue _ _ _ _).
  assert (R1 : revalued (fun q => fq_curr (fq k c) = Some q) k k1).
  { eapply revalued_trans; [apply update_curr_revalues|]. apply revalued_equiv. unfold k1.
    by rewrite fair_stats_dequeue, fair_dequeue_avg, fair_load_avg. }
  clearbody k1.
  assert (C1 : cfs_rq_of k1 p = c) by (rewrite <- Hc; apply (revalued_fields _ _ _ p R1)). exists k1. eexists. split; [exact R1|]. split; [by apply unlink_counted|].
  rewrite cfs_curr_fq, fq_clear_buddies, decide_True by done. rewrite cleared_curr. set (k2 := account_entity_dequeue _ _ _). clearbody k2.
  assert (R3 : revalued (eq p) k2 (if negb (has_flag fl DEQUEUE_SLEEP) then normalise c p k2 else k2)).
  { destruct (negb _); [by apply revalued_vr|by apply revalued_equiv]. }
  destruct (negb (_ =? DEQUEUE_SAVE)); [|done].
  eapply revalued_trans; [exact R3|]. apply revalued_equiv, fair_min_vruntime.
Qed.

(** ** The invariant through the queue changes *)

(** All virtual runtimes of a queue lie within half the range. *)
Definition window (k : kernel) (c : Z) : Prop :=
  exists base, forall p, p ∈ fq_tasks (fq k c) -> in_window base (fe_vr (fe k p)).

Lemma vr_order_insert k p l base :
  (forall q, q ∈ p :: l -> in_window base (fe_vr (fe k q))) -> vr_order k l ->
  vr_order k (timeline_insert (vr_before k) p l).
Proof. apply (window_insert_in_order (fun q => fe_vr (fe k q))). Qed.

Lemma vr_order_ext k k' l :
  (forall q, q ∈ l -> fe_vr (fe k' q) = fe_vr (fe k q)) -> vr_order k l -> vr_order k' l.
Proof.
  intros E Ho. induction Ho as [|a l Hl IH Ha]; constructor; [apply IH; set_solver|].
  rewrite Forall_forall in Ha |- *. intros b Hb. rewrite !E by set_solver. by apply Ha.
Qed.

Lemma vr_order_del k p l : vr_order k l -> vr_order k (list_del p l).
Proof.
  intros Ho. induction Ho as [|a l Hl IH Ha]; [constructor|]. unfold list_del. rewrite filter_cons.
  case_decide; [|done]. constructor; [done|]. rewrite Forall_forall in Ha |- *.
  intros b Hb. apply Ha. by apply list_elem_of_filter in Hb as [_ ?].
Qed.

(** A queue of another CPU is not touched by a change of [p]. *)
Lemma wf_elsewhere k k' c d p on :
  c <> d -> fq k' d = fq k d -> fe_cpu (fe k p) = c ->
  (forall q, fe k' q = if decide (p = q) then fe k p <| fe_on := on |> else fe k q) ->
  cfs_wf o k d -> cfs_wf o k' d.
Proof.
  intros Hcd Eq Hcpu Ee [A B C D E F G I J].
  assert (Hp : p ∉ fq_tasks (fq k d)) by (intros Hp; apply C in Hp as [_ ?]; congruence).
  assert (Hf : forall q, fe_cpu (fe k' q) = fe_cpu (fe k q) /\ fe_weight (fe k' q) = fe_weight (fe k q) /\
    fe_vr (fe k' q) = fe_vr (fe k q) /\ (q <> p -> fe_on (fe k' q) = fe_on (fe k q))).
  { intros q. rewrite Ee. destruct (decide (p = q)) as [<-|]; naive_solver. }
  assert (Er : running_of k' d = running_of k d).
  { unfold running_of. rewrite Eq. destruct (fq_curr (fq k d)) as [r|] eqn:Ec; [|done].
    destruct (Hf r) as (_ & _ & _ & ->); [done|]. intros ->. specialize (D p eq_refl). congruence. }
  split; rewrite ?Eq, ?Er; try done.
  - intros q. destruct (Hf q) as (-> & _ & _ & Hon). destruct (decide (q = p)) as [->|Hq].
    + split; [done|]. intros [_ ?]. congruence.
    + rewrite Hon by done. apply C.
  - intros q Hq. destruct (Hf q) as (-> & _). by apply D.
  - rewrite F. f_equal. apply sum_of_ext. intros q _. by destruct (Hf q) as (_ & -> & _).
  - intros Ho. eapply vr_order_ext; [|by apply I]. intros q _. apply Hf.
Qed.

Lemma linked_wf c p k k' :
  linked c p k k' -> fair_ok o k -> fe_on (fe k p) = 0 -> fe_cpu (fe k p) = c ->
  Z.of_nat (length (fq_tasks (fq k c))) + 1 < 2 ^ 32 -> (o = true -> window k' c) -> fair_ok o k'.
Proof.
  intros [Eq Ee] W Hon Hcpu Hlen Hw d.
  destruct (decide (c = d)) as [<-|Hd]; [|eapply (wf_elsewhere k k' c d p 1); eauto;
    rewrite Eq; by rewrite decide_False].
  pose proof (wf_off _ _ W Hon c) as Hp. specialize (W c). destruct W as [A B C D E F G I J].
  specialize (Eq c). rewrite decide_True in Eq by done.
  assert (Et : fq_tasks (fq k' c) = p :: fq_tasks (fq k c)) by by rewrite Eq.
  assert (Hvr : forall q, fe_vr (fe k' q) = fe_vr (fe k q)) by (intros q; rewrite Ee; by destruct (decide (p = q)) as [<-|]).
  assert (Hwt : forall q, fe_weight (fe k' q) = fe_weight (fe k q)) by (intros q; rewrite Ee; by destruct (decide (p = q)) as [<-|]).
  split; rewrite ?Et.
  - by constructor.
  - assert (Er : running_of k' c = if bool_decide (fq_curr (fq k c) = Some p) then [p] else running_of k c).
    { unfold running_of. rewrite Eq. cbn. destruct (fq_curr (fq k c)) as [r|] eqn:Ec; [|by rewrite bool_decide_false].
      rewrite Ee. destruct (decide (p = r)) as [<-|Hr]; [by rewrite bool_decide_true|].
      by rewrite bool_decide_false by congruence. }
    rewrite Er, Eq. cbn. case_bool_decide as Hc.
    + rewrite <- Permutation_cons_append. constructor. rewrite B. unfold running_of. rewrite Hc, Hon. cbn.
      by rewrite app_nil_r.
    + rewrite timeline_insert_perm. cbn. by rewrite <- B.
  - intros q. rewrite Ee, elem_of_cons, C. destruct (decide (p = q)) as [<-|]; cbn; naive_solver lia.
  - intros q. rewrite Eq, Ee. cbn. intros Hq. apply D in Hq. by destruct (decide (p = q)) as [<-|].
  - rewrite Eq. cbn. rewrite E. rewrite u32_id; lia.
  - assert (El : fq_load (fq k' c) = u64 (fq_load (fq k c) + fe_weight (fe k p))) by by rewrite Eq.
    rewrite El, F, u64_add_l, (sum_of_ext _ _ _ (fun q _ => Hwt q)). f_equal. unfold sum_of. cbn. lia.
  - rewrite Eq. cbn. by rewrite G.
  - intros Ho. destruct (Hw Ho) as [base Hb]. specialize (I Ho). rewrite Eq. cbn.
    apply (vr_order_ext k); [by intros; apply Hvr|]. case_bool_decide; [done|].
    apply (vr_order_insert _ _ _ base); [|done]. intros q Hq. rewrite <- Hvr. apply Hb. rewrite Et.
    apply elem_of_cons in Hq as [->|Hq]; [by left|right]. rewrite B. set_solver.
  - intros q. rewrite Eq. cbn. intros Hq. right. by apply J.
Qed.

Lemma unlinked_wf c p k k' :
  unlinked c p k k' -> fair_ok o k -> fe_on (fe k p) <> 0 -> fe_cpu (fe k p) = c ->
  Z.of_nat (length (fq_tasks (fq k c))) < 2 ^ 32 -> fair_ok o k'.
Proof.
  intros [Eq Ee] W Hon Hcpu Hlen d.
  destruct (decide (c = d)) as [<-|Hd]; [|eapply (wf_elsewhere k k' c d p 0); eauto;
    rewrite Eq; by rewrite decide_False].
  pose proof (fun H => wf_curr_off k c p W H c) as Hcur. specialize (W c). destruct W as [A B C D E F G I J].
  assert (Hp : p ∈ fq_tasks (fq k c)) by by apply C.
  specialize (Eq c). rewrite decide_True in Eq by done.
  assert (Et : fq_tasks (fq k' c) = list_del p (fq_tasks (fq k c))) by by rewrite Eq.
  pose proof (list_del_Permutation p _ A Hp) as Hdel.
  assert (Hvr : forall q, fe_vr (fe k' q) = fe_vr (fe k q)) by (intros q; rewrite Ee; by destruct (decide (p = q)) as [<-|]).
  assert (Hwt : forall q, fe_weight (fe k' q) = fe_weight (fe k q)) by (intros q; rewrite Ee; by destruct (decide (p = q)) as [<-|]).
  split; rewrite ?Et.
  - by apply NoDup_list_del.
  - apply (Permutation_cons_inv (a := p)). rewrite <- Hdel, B. rewrite Eq. cbn. case_bool_decide as Hc.
    + unfold running_of. rewrite Eq. cbn. rewrite Hc, Ee, decide_True by done. cbn.
      destruct (Z.eqb_spec (fe_on (fe k p)) 0); [done|]. by rewrite app_nil_r, <- Permutation_cons_append.
    + assert (Er : running_of k' c = running_of k c).
      { unfold running_of. rewrite Eq. cbn. destruct (fq_curr (fq k c)) as [r|] eqn:Ec; [|done].
        rewrite Ee. by rewrite decide_False by congruence. }
      rewrite Er. assert (Htl : p ∈ fq_timeline (fq k c)).
      { rewrite B in Hp. apply elem_of_app in Hp as [|Hr]; [done|]. exfalso. unfold running_of in Hr.
        destruct (fq_curr (fq k c)) as [r|]; [|by apply not_elem_of_nil in Hr].
        destruct (_ =? 0); [by apply not_elem_of_nil in Hr|]. apply list_elem_of_singleton in Hr. congruence. }
      assert (Hnd : NoDup (fq_timeline (fq k c))) by (rewrite B in A; by apply NoDup_app in A as (? & _)).
      by rewrite (list_del_Permutation p _ Hnd Htl) at 1.
  - intros q. rewrite elem_of_list_del, Ee, C. destruct (decide (p = q)) as [<-|]; cbn; naive_solver.
  - intros q. rewrite Eq, Ee. cbn. intros Hq. apply D in Hq. by destruct (decide (p = q)) as [<-|].
  - rewrite Eq. cbn. rewrite E. apply Permutation_length in Hdel. cbn in Hdel. rewrite u32_id; lia.
  - assert (El : fq_load (fq k' c) = u64 (fq_load (fq k c) - fe_weight (fe k p))) by by rewrite Eq.
    rewrite El, F, u64_sub_l, (sum_of_ext _ _ _ (fun q _ => Hwt q)). f_equal.
    rewrite (sum_of_Permutation _ _ _ Hdel). unfold sum_of. cbn. lia.
  - rewrite Eq. cbn. by rewrite G.
  - intros Ho. specialize (I Ho). rewrite Eq. cbn.
    apply (vr_order_ext k); [by intros; apply Hvr|]. case_bool_decide; [done|by apply vr_order_del].
  - intros q. rewrite Eq. cbn. intros Hq. rewrite elem_of_list_del.
    assert (Hb : Some q ∈ buddies (fq k c) /\ q <> p).
    { unfold buddies in *. cbn in Hq. rewrite !elem_of_cons in Hq.
      destruct Hq as [Hq|[Hq|[Hq|Hq]]]; [..|by apply not_elem_of_nil in Hq];
        apply unbuddy_some in Hq as [Hb ?]; (split; [|done]); rewrite Hb; set_solver. }
    split; [apply J, Hb|apply Hb].
Qed.

(** ** The running entity *)

Definition started (c p : Z) (k k' : kernel) : Prop :=
  (forall d, fq k' d = if decide (c = d) then
     fq k c <| fq_timeline ::= fun l => if fe_on (fe k p) =? 0 then l else list_del p l |>
            <| fq_curr := Some p |> else fq k d) /\
  (forall q, fe k' q = fe k q).

Definition stopped (c p : Z) (k k' : kernel) : Prop :=
  (forall d, fq k' d = if decide (c = d) then
     fq k c <| fq_timeline ::= fun l => if fe_on (fe k p) =? 0 then l
                                        else timeline_insert (vr_before k) p l |>
            <| fq_curr := None |> else fq k d) /\
  (forall q, fe k' q = fe k q).

Lemma fq_set_curr c r k d :
  fq (upd_cfs c (fun q => q <| cfs_curr := r |>) k) d =
  if decide (c = d) then fq k c <| fq_curr := r |> else fq k d.
Proof. unfold upd_cfs. rewrite fq_upd_rq. by case_decide. Qed.

Lemma fe_upd_cfs c f k q : fe (upd_cfs c f k) q = fe k q.
Proof. done. Qed.

Lemma on_rq_fe k p : se_on_rq (sea k p) = fe_on (fe k p).
Proof. done. Qed.

Lemma set_next_starts c p k : started c p k (set_next_entity c p k).
Proof.
  unfold set_next_entity. cbv zeta. rewrite on_rq_fe.
  set (k1 := if negb _ then _ else k). set (k2 := update_stats_curr_start c p k1).
  assert (Q1 : forall d, fq k1 d = if decide (c = d) then
    fq k c <| fq_timeline ::= fun l => if fe_on (fe k p) =? 0 then l else list_del p l |> else fq k d).
  { intros d. unfold k1. destruct (fe_on (fe k p) =? 0); cbn [negb].
    - destruct (decide (c = d)) as [<-|]; [|done]. by destruct (fq k c).
    - rewrite (proj1 (fair_load_avg _ _ _)), fq_unlink, !(proj1 (fair_wait_end _ _ _)).
      by destruct (decide (c = d)). }
  assert (E1 : forall q, fe k1 q = fe k q).
  { intros q. unfold k1. destruct (negb _); [|done].
    by rewrite (proj2 (fair_load_avg _ _ _)), fe_unlink, (proj2 (fair_wait_end _ _ _)). }
  clearbody k1. assert (K2 : k2 ≡f k1) by apply fair_curr_start. clearbody k2.
  set (k3 := upd_cfs c _ k2).
  assert (Q3 : forall d, fq k3 d = if decide (c = d) then fq k2 c <| fq_curr := Some p |> else fq k2 d)
    by (intros d; apply fq_set_curr).
  assert (E3 : forall q, fe k3 q = fe k2 q) by done. clearbody k3.
  match goal with |- started c p k ?x => assert (K4 : x ≡f k3) by fair_back; set (k4 := x) in * end.
  clearbody k4. split.
  - intros d. rewrite (proj1 K4), Q3, !(proj1 K2), !Q1, (decide_True (P := c = c)) by done.
    by destruct (decide (c = d)).
  - intros q. by rewrite (proj2 K4), E3, (proj2 K2).
Qed.

Lemma put_prev_stops c p k :
  exists k1, revalued (fun q => fq_curr (fq k c) = Some q) k k1 /\ stopped c p k1 (put_prev_entity c p k).
Proof.
  unfold put_prev_entity. cbv zeta. rewrite on_rq_fe.
  destruct (fe_on (fe k p) =? 0) eqn:Eo; cbn [negb].
  - exists k. split; [by apply revalued_equiv|]. split; [|done]. intros d. rewrite fq_set_curr, Eo.
    destruct (decide (c = d)); [|done]. by destruct (fq k c).
  - set (k1 := update_stats_wait_start c p (update_curr c k)).
    assert (R1 : revalued (fun q => fq_curr (fq k c) = Some q) k k1).
    { eapply revalued_trans; [apply update_curr_revalues|]. apply revalued_equiv, fair_wait_start. }
    clearbody k1. exists k1. split; [done|].
    destruct (revalued_fields _ _ _ p R1) as (Eon & _ & _). split.
    + intros d. rewrite fq_set_curr, Eon, Eo. rewrite !(proj1 (fair_load_avg _ _ _)), !fq_link.
      rewrite (decide_True (P := c = c)) by done. by destruct (decide (c = d)).
    + intros q. by rewrite fe_upd_cfs, (proj2 (fair_load_avg _ _ _)), fe_link.
Qed.

Lemma started_wf c p k k' :
  started c p k k' -> fair_ok o k -> fe_cpu (fe k p) = c -> running_of k c = [] -> fair_ok o k'.
Proof.
  intros [Eq Ee] W Hcpu Hrun d.
  destruct (decide (c = d)) as [<-|Hd].
  2:{ apply (wf_elsewhere k k' c d p (fe_on (fe k p))); [done| |done| |done].
      - by rewrite Eq, decide_False.
      - intros q. rewrite Ee. destruct (decide (p = q)) as [<-|]; [|done]. by destruct (fe k p). }
  specialize (W c). destruct W as [A B C D E F G I J]. specialize (Eq c). rewrite decide_True in Eq by done.
  rewrite Hrun, app_nil_r in B.
  assert (Et : fq_tasks (fq k' c) = fq_tasks (fq k c)) by by rewrite Eq.
  split; rewrite ?Et; try done; try (rewrite Eq; done).
  - unfold running_of. rewrite Eq. cbn. rewrite Ee. destruct (Z.eqb_spec (fe_on (fe k p)) 0) as [Hz|Hz].
    + by rewrite app_nil_r.
    + rewrite <- Permutation_cons_append. rewrite B. apply list_del_Permutation; [by rewrite <- B|].
      rewrite <- B. by apply C.
  - intros q. rewrite Ee. apply C.
  - intros q. rewrite Eq, Ee. cbn. by intros [= <-].
  - rewrite Eq. cbn. rewrite F. f_equal. apply sum_of_ext. intros q _. by rewrite Ee.
  - intros Ho. specialize (I Ho). rewrite Eq. cbn. apply (vr_order_ext k); [by intros; rewrite Ee|].
    destruct (_ =? 0); [done|by apply vr_order_del].
Qed.

Lemma stopped_wf c p k k' :
  stopped c p k k' -> fair_ok o k -> fq_curr (fq k c) = Some p -> (o = true -> window k' c) -> fair_ok o k'.
Proof.
  intros [Eq Ee] W Hc Hw d.
  assert (Hcpu : fe_cpu (fe k p) = c) by by apply (wf_curr _ _ (W c)).
  destruct (decide (c = d)) as [<-|Hd].
  2:{ apply (wf_elsewhere k k' c d p (fe_on (fe k p))); [done| |done| |done].
      - by rewrite Eq, decide_False.
      - intros q. rewrite Ee. destruct (decide (p = q)) as [<-|]; [|done]. by destruct (fe k p). }
  specialize (W c). destruct W as [A B C D E F G I J]. specialize (Eq c). rewrite decide_True in Eq by done.
  assert (Et : fq_tasks (fq k' c) = fq_tasks (fq k c)) by by rewrite Eq.
  assert (Er : running_of k' c = []) by (unfold running_of; by rewrite Eq).
  unfold running_of in B. rewrite Hc in B.
  split; rewrite ?Et; try done; try (rewrite Eq; done).
  - rewrite Er, Eq, app_nil_r. cbn. destruct (Z.eqb_spec (fe_on (fe k p)) 0) as [Hz|Hz].
    + by rewrite app_nil_r in B.
    + by rewrite timeline_insert_perm, B, <- Permutation_cons_append.
  - intros q. rewrite Ee. apply C.
  - rewrite Eq. cbn. rewrite F. f_equal. apply sum_of_ext. intros q _. by rewrite Ee.
  - intros Ho. destruct (Hw Ho) as [base Hb]. specialize (I Ho). rewrite Eq. cbn.
    apply (vr_order_ext k); [by intros; rewrite Ee|].
    destruct (Z.eqb_spec (fe_on (fe k p)) 0); [done|]. apply (vr_order_insert _ _ _ base); [|done].
    intros q Hq. rewrite <- Ee. apply Hb. rewrite Et, B.
    apply elem_of_cons in Hq as [->|Hq]; set_solver.
Qed.
End Ops.
