(* ===== verification/FairOps.v ===== *)
(** * The operations of the fair class keep its queues in order

    For each operation of fair.c: if every queue agrees with its tasks before
    ([fair_ok]), it does after.  Where an entity is linked into a timeline, the
    order of the timeline also needs the virtual runtimes to lie in a window of
    half their range. *)

From stdpp Require Import sorting.
From S2P Require Import Prelude SchedTypes Core Wrr RtBandwidth FairMath FairPelt FairQueue FairInv.

Section Ops.
Context `{FairEnv} `{PeltTable} {o : bool}.

(** There is room for one more task to be counted. *)
Definition room (k : kernel) (c : Z) : Prop := Z.of_nat (length (fq_tasks (fq k c))) + 1 < 2 ^ 32.

Lemma wf_equiv k k' : k' ≡f k -> fair_ok o k -> fair_ok o k'.
Proof. by intros ->. Qed.

Lemma update_curr_wf c k : fair_ok o k -> fair_ok o (update_curr c k).
Proof.
  intros W. eapply revalued_wf; [apply update_curr_revalues| |done].
  intros p Hp. exact (wf_curr_off _ _ _ W Hp).
Qed.

(** A task that is not queued may get any virtual runtime. *)
Lemma off_timeline k p : fair_ok o k -> fe_on (fe k p) = 0 -> forall d, p ∉ fq_timeline (fq k d).
Proof. intros W Hon d Hp. by apply (wf_off _ _ W Hon d), (wf_timeline _ _ _ (W d)). Qed.

Lemma revalued_off_wf p k k' : revalued (eq p) k k' -> fe_on (fe k p) = 0 -> fair_ok o k -> fair_ok o k'.
Proof. intros R Hon W. eapply revalued_wf; [done| |done]. intros q <-. by apply off_timeline. Qed.

Lemma enqueue_entity_wf c p fl k :
  fair_ok o k -> fe_on (fe k p) = 0 -> fe_cpu (fe k p) = c -> room k c ->
  (o = true -> window (enqueue_entity c p fl k) c) -> fair_ok o (enqueue_entity c p fl k).
Proof.
  intros W Hon Hcpu Hroom Hw. destruct (enqueue_entity_links c p fl k) as (k1 & R1 & L).
  assert (W1 : fair_ok o k1).
  { eapply revalued_wf; [done| |done]. intros q [->|Hq]; [by apply off_timeline|exact (wf_curr_off _ _ _ W Hq)]. }
  destruct (revalued_fields _ _ _ p R1) as (Eon & _ & Ecpu).
  eapply linked_wf; [done|done|congruence|congruence| |done]. by rewrite (proj1 R1).
Qed.

Lemma dequeue_entity_wf c p fl k :
  fair_ok o k -> fe_on (fe k p) <> 0 -> fe_cpu (fe k p) = c -> room k c -> fair_ok o (dequeue_entity c p fl k).
Proof.
  intros W Hon Hcpu Hroom. destruct (dequeue_entity_unlinks c p fl k Hcpu) as (k1 & k2 & R1 & U & R2).
  assert (W1 : fair_ok o k1).
  { eapply revalued_wf; [done| |done]. intros q Hq. exact (wf_curr_off _ _ _ W Hq). }
  destruct (revalued_fields _ _ _ p R1) as (Eon & _ & Ecpu).
  assert (W2 : fair_ok o k2).
  { eapply unlinked_wf; [done|done|congruence|congruence|]. unfold room in Hroom. rewrite (proj1 R1). lia. }
  eapply revalued_off_wf; [done| |done]. rewrite (proj2 U), decide_True by done. done.
Qed.

Lemma put_prev_entity_wf c p k :
  fair_ok o k -> fq_curr (fq k c) = Some p -> (o = true -> window (put_prev_entity c p k) c) ->
  fair_ok o (put_prev_entity c p k).
Proof.
  intros W Hc Hw. destruct (put_prev_stops c p k) as (k1 & R1 & S).
  assert (W1 : fair_ok o k1).
  { eapply revalued_wf; [done| |done]. intros q Hq. exact (wf_curr_off _ _ _ W Hq). }
  eapply stopped_wf; [done|done| |done]. by rewrite (proj1 R1).
Qed.

Lemma set_next_entity_wf c p k :
  fair_ok o k -> fe_cpu (fe k p) = c -> running_of k c = [] -> fair_ok o (set_next_entity c p k).
Proof. intros W Hcpu Hr. eapply started_wf; [apply set_next_starts|done..]. Qed.

(** ** Buddies *)

(** The queues differ in their buddies only, and those are queued. *)
Lemma buddies_wf k k' :
  (forall q, fe k' q = fe k q) ->
  (forall c, exists n l s, fq k' c = fq k c <| fq_next := n |> <| fq_last := l |> <| fq_skip := s |> /\
     forall p, Some p ∈ [n; l; s] -> p ∈ fq_tasks (fq k c)) ->
  fair_ok o k -> fair_ok o k'.
Proof.
  intros Ee Eq W c. destruct (Eq c) as (n & l & s & Ec & Hb). specialize (W c).
  destruct W as [A B C D E F G I J].
  assert (Er : running_of k' c = running_of k c).
  { unfold running_of. rewrite Ec. cbn. destruct (fq_curr _); [by rewrite Ee|done]. }
  split; try (rewrite Ec; exact A || exact E || exact G).
  - rewrite Er, Ec. exact B.
  - intros q. rewrite Ec, Ee. apply C.
  - intros q. rewrite Ec, Ee. apply D.
  - rewrite Ec. cbn. rewrite F. f_equal. apply sum_of_ext. intros q _. by rewrite Ee.
  - intros Ho. specialize (I Ho). rewrite Ec. cbn. apply (vr_order_ext k); [by intros; rewrite Ee|done].
  - intros q. rewrite Ec. cbn. apply Hb.
Qed.

Lemma same_buddies q : q = q <| fq_next := fq_next q |> <| fq_last := fq_last q |> <| fq_skip := fq_skip q |>.
Proof. by destruct q. Qed.

Lemma clear_buddies_wf c p k : cfs_rq_of k p = c -> fair_ok o k -> fair_ok o (clear_buddies c p k).
Proof.
  intros Hc W. apply (buddies_wf k); [by intros; apply fe_clear_buddies| |done].
  intros d. pose proof (wf_buddies _ _ (W d)) as Hb. rewrite fq_clear_buddies by done.
  destruct (decide (c = d)) as [->|].
  - do 3 eexists. split; [reflexivity|]. intros q Hq. apply Hb. unfold buddies.
    rewrite !elem_of_cons in Hq |- *.
    destruct Hq as [Hq|[Hq|[Hq|Hq]]]; [..|by apply not_elem_of_nil in Hq];
      apply unbuddy_some in Hq as [Hq _]; cbn in Hq; symmetry in Hq; naive_solver.
  - do 3 eexists. split; [apply same_buddies|done].
Qed.

(** Making a queued task a buddy. *)
Lemma set_buddy_wf c p k k' :
  p ∈ fq_tasks (fq k c) -> (forall q, fe k' q = fe k q) ->
  (forall d, fq k' d = fq k d \/ (d = c /\ (fq k' c = fq k c <| fq_next := Some p |> \/
     fq k' c = fq k c <| fq_last := Some p |> \/ fq k' c = fq k c <| fq_skip := Some p |>))) ->
  fair_ok o k -> fair_ok o k'.
Proof.
  intros Hp Ee Eq W. apply (buddies_wf k); [done| |done]. intros d.
  pose proof (wf_buddies _ _ (W d)) as Hb. unfold buddies in Hb.
  assert (Hin : forall n l s, (n = Some p \/ n = fq_next (fq k d)) -> (l = Some p \/ l = fq_last (fq k d)) ->
    (s = Some p \/ s = fq_skip (fq k d)) -> p ∈ fq_tasks (fq k d) ->
    forall q, Some q ∈ [n; l; s] -> q ∈ fq_tasks (fq k d)).
  { intros n l s Hn Hl Hs Hpd q Hq. rewrite !elem_of_cons in Hq.
    assert (Hor : q = p \/ Some q ∈ [fq_next (fq k d); fq_last (fq k d); fq_skip (fq k d)])
      by (rewrite !elem_of_cons; naive_solver).
    destruct Hor as [->|Hq']; [done|by apply Hb]. }
  destruct (Eq d) as [E|(-> & [E|[E|E]])]; rewrite E.
  - do 3 eexists. split; [apply same_buddies|]. exact Hb.
  - exists (Some p), (fq_last (fq k c)), (fq_skip (fq k c)). split; [by destruct (fq k c)|]. apply Hin; auto.
  - exists (fq_next (fq k c)), (Some p), (fq_skip (fq k c)). split; [by destruct (fq k c)|]. apply Hin; auto.
  - exists (fq_next (fq k c)), (fq_last (fq k c)), (Some p). split; [by destruct (fq k c)|]. apply Hin; auto.
Qed.

Lemma queued_in k p : fair_ok o k -> fe_on (fe k p) <> 0 -> p ∈ fq_tasks (fq k (cfs_rq_of k p)).
Proof. intros W Hon. by apply (wf_members _ _ (W _)). Qed.

Lemma set_next_buddy_wf p k : fe_on (fe k p) <> 0 -> fair_ok o k -> fair_ok o (set_next_buddy p k).
Proof.
  intros Hon W. unfold set_next_buddy. destruct (_ =? _); [done|]. destruct (SCHED_WARN_ON _); [done|].
  eapply (set_buddy_wf (cfs_rq_of k p) p k); [by apply queued_in|done| |done].
  intros d. unfold upd_cfs. rewrite !fq_upd_rq. rewrite (decide_True (P := cfs_rq_of k p = cfs_rq_of k p)) by done.
  destruct (decide _) as [<-|]; [|by left]. right. split; [done|]. by left.
Qed.

Lemma set_last_buddy_wf p k : fe_on (fe k p) <> 0 -> fair_ok o k -> fair_ok o (set_last_buddy p k).
Proof.
  intros Hon W. unfold set_last_buddy. destruct (_ =? _); [done|]. destruct (SCHED_WARN_ON _); [done|].
  eapply (set_buddy_wf (cfs_rq_of k p) p k); [by apply queued_in|done| |done].
  intros d. unfold upd_cfs. rewrite !fq_upd_rq. rewrite (decide_True (P := cfs_rq_of k p = cfs_rq_of k p)) by done.
  destruct (decide _) as [<-|]; [|by left]. right. split; [done|]. right. by left.
Qed.

Lemma set_skip_buddy_wf p k : fe_on (fe k p) <> 0 -> fair_ok o k -> fair_ok o (set_skip_buddy p k).
Proof.
  intros Hon W. unfold set_skip_buddy.
  eapply (set_buddy_wf (cfs_rq_of k p) p k); [by apply queued_in|done| |done].
  intros d. unfold upd_cfs. rewrite !fq_upd_rq. rewrite (decide_True (P := cfs_rq_of k p = cfs_rq_of k p)) by done.
  destruct (decide _) as [<-|]; [|by left]. right. split; [done|]. right. by right.
Qed.

(** ** The operations of the class keep the queues in order *)

Lemma enqueue_task_fair_equiv c p fl k :
  fe_on (fe k p) = 0 ->
  exists k0, k0 ≡f k /\ enqueue_task_fair c p fl k ≡f enqueue_entity (cfs_rq_of k p) p fl k0.
Proof.
  intros Hon. unfold enqueue_task_fair. cbv zeta. set (k0 := if in_iowait _ then _ else k).
  assert (E : k0 ≡f k) by (unfold k0; fair_back).
  assert (Ec : cfs_rq_of k0 p = cfs_rq_of k p) by (rewrite !cfs_rq_of_fe; by rewrite (proj2 E)).
  exists k0. split; [done|]. rewrite on_rq_fe, (proj2 E), Hon, Ec. cbn [Z.eqb negb].
  rewrite fair_add_nr. by apply fair_upd_rq.
Qed.

Lemma enqueue_task_fair_wf c p fl k :
  fair_ok o k -> fe_on (fe k p) = 0 -> fe_cpu (fe k p) = c -> room k c ->
  (o = true -> window (enqueue_task_fair c p fl k) c) -> fair_ok o (enqueue_task_fair c p fl k).
Proof.
  intros W Hon Hcpu Hroom Hw. destruct (enqueue_task_fair_equiv c p fl k Hon) as (k0 & E & Eq).
  rewrite cfs_rq_of_fe, Hcpu in Eq. rewrite Eq. apply enqueue_entity_wf.
  - by rewrite E.
  - by rewrite (proj2 E).
  - by rewrite (proj2 E).
  - unfold room. by rewrite (proj1 E).
  - intros Ho. destruct (Hw Ho) as [base Hb]. exists base. intros q. rewrite <- (proj1 Eq), <- (proj2 Eq). apply Hb.
Qed.

Lemma dequeue_task_fair_equiv c p fl k :
  dequeue_task_fair c p fl k ≡f dequeue_entity (cfs_rq_of k p) p fl k.
Proof. unfold dequeue_task_fair. cbv zeta. rewrite fair_sub_nr. by apply fair_upd_rq. Qed.

Lemma dequeue_task_fair_wf c p fl k :
  fair_ok o k -> fe_on (fe k p) <> 0 -> fe_cpu (fe k p) = c -> room k c -> fair_ok o (dequeue_task_fair c p fl k).
Proof.
  intros W Hon Hcpu Hroom. rewrite dequeue_task_fair_equiv, cfs_rq_of_fe, Hcpu. by apply dequeue_entity_wf.
Qed.

Lemma check_preempt_tick_wf c p k k' :
  fair_ok o k -> fe_cpu (fe k p) = c -> check_preempt_tick c p k = Some k' -> fair_ok o k'.
Proof.
  intros W Hcpu. unfold check_preempt_tick. pose proof (fair_slice c p k) as E.
  destruct (sched_slice c p k) as [k1 ideal]. cbn [fst] in E. apply (wf_equiv _ _ E) in W.
  assert (Er : resched_curr c k1 ≡f k1) by apply fair_resched.
  repeat case_match; intros [= <-]; try done; try by rewrite Er.
  apply clear_buddies_wf; [|by rewrite Er]. rewrite cfs_rq_of_fe, (proj2 Er), (proj2 E). done.
Qed.

Lemma entity_tick_wf c p k k' :
  fair_ok o k -> fe_cpu (fe k p) = c -> entity_tick c p k = Some k' -> fair_ok o k'.
Proof.
  intros W Hcpu. unfold entity_tick. cbv zeta.
  assert (W1 : fair_ok o (update_load_avg p UPDATE_TG (update_curr c k))).
  { rewrite fair_load_avg. by apply update_curr_wf. }
  assert (C1 : fe_cpu (fe (update_load_avg p UPDATE_TG (update_curr c k)) p) = c).
  { rewrite (proj2 (fair_load_avg _ _ _)).
    destruct (revalued_fields _ _ _ p (update_curr_revalues c k)) as (_ & _ & ->). done. }
  destruct (1 <? _); [by apply check_preempt_tick_wf|]. by intros [= <-].
Qed.

Lemma task_tick_fair_wf c p q k k' :
  fair_ok o k -> cfs_rq_of k p = c -> task_tick_fair c p q k = Some k' -> fair_ok o k'.
Proof. intros W Hc. unfold task_tick_fair. rewrite Hc. by apply entity_tick_wf. Qed.

Lemma preempt_wakeup_wf c cur sc k : fair_ok o k -> fair_ok o (preempt_wakeup c cur sc k).
Proof.
  intros W. unfold preempt_wakeup. cbv zeta.
  assert (W1 : fair_ok o (resched_curr c k)) by (by rewrite fair_resched).
  set (k1 := resched_curr c k) in *. clearbody k1. rewrite on_rq_fe.
  destruct (Z.eqb_spec (fe_on (fe k1 cur)) 0) as [|Hon]; [done|]. cbn [orb].
  destruct (_ =? _); [done|]. destruct (_ && _); [by apply set_last_buddy_wf|done].
Qed.

Lemma on_stays P k k' p : revalued P k k' -> fe_on (fe k p) <> 0 -> fe_on (fe k' p) <> 0.
Proof. intros R Hon. by destruct (revalued_fields _ _ _ p R) as (-> & _). Qed.

Lemma check_preempt_wakeup_wf c p fl k :
  fair_ok o k -> fe_on (fe k p) <> 0 -> fair_ok o (check_preempt_wakeup c p fl k).
Proof.
  intros W Hon. unfold check_preempt_wakeup. cbv zeta. destruct (_ =? p); [done|].
  set (mark := _ && _ && _). clearbody mark. set (k1 := if mark then set_next_buddy p k else k).
  assert (W1 : fair_ok o k1 /\ fe_on (fe k1 p) <> 0).
  { unfold k1. destruct mark; [|done]. split; [by apply set_next_buddy_wf|].
    unfold set_next_buddy. destruct (_ =? _); [done|]. by destruct (SCHED_WARN_ON _). }
  destruct W1 as [W1 Hon1]. clearbody k1. destruct (need_resched _); [done|].
  destruct (_ && _); [by apply preempt_wakeup_wf|]. destruct (_ || _); [done|].
  set (cur := curr (rqs k c)). set (q := cfs_rq_of k1 cur).
  pose proof (update_curr_wf q k1 W1) as W2.
  pose proof (on_stays _ _ _ p (update_curr_revalues q k1) Hon1) as Hon2.
  set (k2 := update_curr q k1) in *. clearbody k2. pose proof (fair_wakeup cur p k2) as E.
  destruct (wakeup_preempt_entity cur p k2) as [k3 r]. cbn [fst] in E.
  assert (W3 : fair_ok o k3) by (by rewrite E). assert (Hon3 : fe_on (fe k3 p) <> 0) by (by rewrite (proj2 E)).
  destruct (r =? 1); [|done]. apply preempt_wakeup_wf. destruct mark; [done|]. by apply set_next_buddy_wf.
Qed.

Lemma yield_task_fair_wf c k :
  fair_ok o k -> fe_on (fe k (curr (rqs k c))) <> 0 -> fair_ok o (yield_task_fair c k).
Proof.
  intros W Hon. unfold yield_task_fair. cbv zeta. set (cur := curr (rqs k c)) in *.
  destruct (_ =? 1); [done|]. set (q := cfs_rq_of k cur).
  assert (W1 : fair_ok o (clear_buddies q cur k)) by (by apply clear_buddies_wf).
  assert (H1 : fe_on (fe (clear_buddies q cur k) cur) <> 0) by (by rewrite fe_clear_buddies).
  set (k1 := clear_buddies q cur k) in *. clearbody k1. destruct (negb _); [|by apply set_skip_buddy_wf].
  assert (W2 : fair_ok o (update_rq_clock c k1)) by (by rewrite fair_clock).
  apply set_skip_buddy_wf.
  - rewrite (proj2 (fair_skip_update _ _ _)). eapply on_stays; [apply update_curr_revalues|].
    by rewrite (proj2 (fair_clock _ _)).
  - rewrite fair_skip_update. by apply update_curr_wf.
Qed.

Lemma task_fork_fair_wf p k : fair_ok o k -> fe_on (fe k p) = 0 -> fair_ok o (task_fork_fair p k).
Proof.
  intros W Hon. unfold task_fork_fair. cbv zeta.
  set (k1 := update_rq_clock _ k). assert (W1 : fair_ok o k1) by (unfold k1; by rewrite fair_clock).
  assert (H1 : fe_on (fe k1 p) = 0) by (unfold k1; by rewrite (proj2 (fair_clock _ _))). clearbody k1.
  set (q := cfs_rq_of k1 (current k1)). change (cfs_curr (cfs_of k1 q)) with (fq_curr (fq k1 q)).
  set (P := fun x => x = p \/ fq_curr (fq k1 q) = Some x).
  assert (HP : forall x, P x -> forall d, x ∉ fq_timeline (fq k1 d)).
  { intros x [->|Hx]; [by apply off_timeline|by eapply wf_curr_off]. }
  match goal with |- fair_ok o (normalise q p ?x) => assert (R : revalued P k1 x) end.
  { destruct (fq_curr (fq k1 q)) as [r|] eqn:Er.
    - assert (R2 : revalued P k1 (upd_se p (fun s => s <| vruntime := vruntime (sea (update_curr q k1) r) |>)
        (update_curr q k1))).
      { eapply revalued_trans; [eapply revalued_mono; [|apply update_curr_revalues]|by apply revalued_vr; left].
        intros x Hx. right. congruence. }
      set (k2 := upd_se p _ _) in *. clearbody k2.
      assert (R3 : revalued P k1 (place_entity q p true k2)).
      { eapply revalued_trans; [exact R2|]. eapply revalued_mono; [|apply place_revalues]. intros x <-. by left. }
      set (k3 := place_entity q p true k2) in *. clearbody k3. destruct (_ && _); [|done].
      eapply revalued_trans; [exact R3|].
      eapply revalued_trans; [apply (revalued_vr P r); by right|].
      eapply revalued_trans; [apply (revalued_vr P p); by left|]. apply revalued_equiv, fair_resched.
    - eapply revalued_mono; [|apply place_revalues]. intros x <-. by left. }
  eapply (revalued_wf P); [|exact HP|exact W1].
  eapply revalued_trans; [exact R|]. by apply revalued_vr; left.
Qed.

(** A task that is not queued may get another weight, or another CPU unless
    it is still the current entity of one. *)
Lemma off_task_wf p k k' :
  (forall c, fq k' c = fq k c) -> (forall q, q <> p -> fe k' q = fe k q) ->
  fe_on (fe k p) = 0 -> fe_on (fe k' p) = 0 ->
  fe_cpu (fe k' p) = fe_cpu (fe k p) \/ (forall c, fq_curr (fq k c) <> Some p) ->
  fair_ok o k -> fair_ok o k'.
Proof.
  intros Eq Ee Hon Hon' Hcpu W c. pose proof (wf_off _ _ W Hon c) as Hp.
  pose proof (off_timeline _ _ W Hon c) as Htl. specialize (W c). destruct W as [A B C D E F G I J].
  assert (Er : running_of k' c = running_of k c).
  { unfold running_of. rewrite Eq. destruct (fq_curr (fq k c)) as [r|]; [|done].
    destruct (decide (r = p)) as [->|]; [by rewrite Hon, Hon'|by rewrite Ee]. }
  split; rewrite ?Eq, ?Er; try done.
  - intros q. destruct (decide (q = p)) as [->|]; [|by rewrite Ee]. split; [done|]. by intros [? _].
  - intros q Hq. destruct (decide (q = p)) as [->|]; [|rewrite Ee by done; by apply D].
    destruct Hcpu as [->|Hn]; [by apply D|by specialize (Hn c)].
  - rewrite F. f_equal. apply sum_of_ext. intros q Hq. rewrite Ee; [done|]. by intros ->.
  - intros Ho. specialize (I Ho). apply (vr_order_ext k); [|done]. intros q Hq. rewrite Ee; [done|]. by intros ->.
Qed.

Lemma migrate_revalues p k : revalued (eq p) k (migrate_task_rq_fair p k).
Proof.
  unfold migrate_task_rq_fair. cbv zeta.
  set (k1 := if state _ =? _ then _ else k).
  assert (R1 : revalued (eq p) k k1) by (unfold k1; case_match; [by apply revalued_vr|by apply revalued_equiv]).
  eapply revalued_trans; [exact R1|]. apply revalued_equiv. clearbody k1.
  transitivity (remove_entity_load_avg p k1); [by apply fair_upd_task|apply fair_remove_avg].
Qed.

Lemma detach_revalues p k : revalued (eq p) k (detach_task_cfs_rq p k).
Proof.
  unfold detach_task_cfs_rq, detach_entity_cfs_rq. cbv zeta.
  match goal with |- revalued _ _ (detach_entity_load_avg _ _ (update_load_avg _ _ ?x)) =>
    assert (R1 : revalued (eq p) k x); [|set (k1 := x) in *; clearbody k1] end.
  { destruct (negb _); [|by apply revalued_equiv].
    eapply revalued_trans; [apply place_revalues|by apply revalued_vr]. }
  eapply revalued_trans; [exact R1|]. apply revalued_equiv. by rewrite fair_detach, fair_load_avg.
Qed.

Lemma attach_entity_equiv p k : attach_entity_cfs_rq p k ≡f k.
Proof. unfold attach_entity_cfs_rq. cbv zeta. by rewrite fair_attach, fair_load_avg. Qed.

Lemma attach_task_wf p k :
  fair_ok o k -> fe_on (fe k p) = 0 \/ vruntime_normalized (attach_entity_cfs_rq p k) p = true ->
  fair_ok o (attach_task_cfs_rq p k).
Proof.
  intros W Hor. unfold attach_task_cfs_rq. cbv zeta. pose proof (attach_entity_equiv p k) as E.
  rewrite <- (proj2 E) in Hor. apply (wf_equiv _ _ E) in W.
  set (k1 := attach_entity_cfs_rq p k) in *. clearbody k1. clear E.
  destruct (vruntime_normalized k1 p); [done|]. destruct Hor as [Hon|]; [|done].
  apply (revalued_off_wf p k1); [|done..]. by apply revalued_vr.
Qed.
End Ops.
