(* ===== verification/FairSched.v ===== *)
(** * Scheduling with the fair class

    The operations of [fair_sched_class] keep every queue in order
    ([fair_invariant], over the step relation [fair_step]); the tick never
    dereferences an empty tree; [pick_next_entity] answers with a queued entity
    that is not unfair to the leftmost one; the slices of the queued tasks add
    up to at most one period. *)

From stdpp Require Import sorting.
From S2P Require Import Prelude SchedTypes Core Wrr RtBandwidth FairMath FairPelt FairQueue FairInv FairOps.

Section Steps.
Context `{FairEnv} `{PeltTable}.

(** ** Picking *)

(** How far behind a buddy may be: the wakeup granularity in the virtual time
    of the leftmost entity. *)
Definition gran_of (k : kernel) (p : Z) : Z := s64 (wakeup_gran p k).2.

Definition not_unfair (k : kernel) (p leftm : Z) : Prop :=
  s64 (fe_vr (fe k p) - fe_vr (fe k leftm)) <= Z.max 0 (gran_of k leftm).

Lemma calc_delta_cached d w lw : (__calc_delta d w (__calc_delta d w lw).2).1 = (__calc_delta d w lw).1.
Proof.
  assert (E : (__calc_delta d w lw).2 = __update_inv_weight lw).
  { unfold __calc_delta. destruct (shrink _ _ _). by destruct (shrink _ _ _). }
  rewrite E. unfold __calc_delta. by rewrite update_inv_idem.
Qed.

(** Asking for the granularity caches a reciprocal and changes no answer. *)
Lemma gran_cached p k : gran_of (wakeup_gran p k).1 p = gran_of k p.
Proof.
  unfold gran_of, wakeup_gran, calc_delta_fair.
  destruct (lw_weight (se_load (sea k p)) =? NICE_0_LOAD) eqn:Ew; cbn [negb fst].
  { by rewrite Ew. }
  set (g := sysctl_sched_wakeup_granularity tun). set (lw := se_load (sea k p)) in *.
  pose proof (calc_delta_weight g NICE_0_LOAD lw) as Hw. pose proof (calc_delta_cached g NICE_0_LOAD lw) as Hc.
  destruct (__calc_delta g NICE_0_LOAD lw) as [d lw'] eqn:E. cbn [fst snd] in *.
  assert (Es : se_load (sea (upd_se p (fun s => s <| se_load := lw' |>) k) p) = lw').
  { unfold sea, upd_se. by rewrite upd_task_eq. }
  rewrite Es, Hw, Ew. cbn [negb]. destruct (__calc_delta g NICE_0_LOAD lw') as [d' lw'']. cbn in *. by rewrite Hc.
Qed.

Lemma buddy_fits_spec b leftm k :
  (buddy_fits b leftm k).1 ≡f k /\ gran_of (buddy_fits b leftm k).1 leftm = gran_of k leftm /\
  ((buddy_fits b leftm k).2 = true -> exists q, b = Some q /\ not_unfair k q leftm).
Proof.
  split; [apply fair_buddy_fits|]. destruct b as [q|]; [|done]. cbn. unfold wakeup_preempt_entity. cbv zeta.
  change (vruntime (sea k q)) with (fe_vr (fe k q)). change (vruntime (sea k leftm)) with (fe_vr (fe k leftm)).
  set (vd := s64 (fe_vr (fe k q) - fe_vr (fe k leftm))).
  destruct (Z.leb_spec vd 0) as [Hv|Hv]; cbn.
  { split; [done|]. intros _. exists q. split; [done|]. unfold not_unfair. fold vd. lia. }
  pose proof (gran_cached leftm k) as Hg. destruct (wakeup_gran leftm k) as [k1 g] eqn:E. cbn [fst] in Hg.
  assert (Eg : gran_of k leftm = s64 g) by (unfold gran_of; by rewrite E).
  destruct (Z.ltb_spec (s64 g) vd) as [Hlt|Hge]; cbn; (split; [done|]); [done|].
  intros _. exists q. split; [done|]. unfold not_unfair. fold vd. rewrite Eg. lia.
Qed.

Lemma node_after_in p l q : node_after p l = Some q -> q ∈ l.
Proof.
  induction l as [|x l IH]; [done|]. cbn. destruct (x =? p).
  - intros Hh. right. destruct l; [done|]. injection Hh as <-. by left.
  - intros Hn. right. by apply IH.
Qed.

Lemma not_unfair_equiv k k' p l : k' ≡f k -> gran_of k' l = gran_of k l -> not_unfair k' p l <-> not_unfair k p l.
Proof. intros [_ E] Hg. unfold not_unfair. by rewrite !E, Hg. Qed.

Lemma not_unfair_self k p : not_unfair k p p.
Proof. unfold not_unfair. rewrite Z.sub_diag. change (s64 0) with 0. lia. Qed.

(** The chosen entity after a buddy was considered. *)
Lemma choose_buddy b leftm k0 k1 p1 :
  k1 ≡f k0 -> gran_of k1 leftm = gran_of k0 leftm -> not_unfair k0 p1 leftm ->
  exists k2 fits, buddy_fits b leftm k1 = (k2, fits) /\ k2 ≡f k0 /\ gran_of k2 leftm = gran_of k0 leftm /\
    let p2 := if fits then default p1 b else p1 in
    not_unfair k0 p2 leftm /\ (p2 = p1 \/ b = Some p2) /\ (b = None -> p2 = p1).
Proof.
  intros E G U. destruct (buddy_fits_spec b leftm k1) as (E2 & G2 & F2).
  destruct (buddy_fits b leftm k1) as [k2 fits]. cbn [fst snd] in *. exists k2, fits.
  split; [done|]. split; [by rewrite E2|]. split; [congruence|]. destruct fits; cbn; [|auto].
  destruct (F2 eq_refl) as (q & -> & Hq). cbn. rewrite (not_unfair_equiv k0 k1) in Hq by done.
  split_and!; [done|by right|done].
Qed.

(** The head of the timeline of a queue without a running entity. *)
Lemma leftmost_least c k :
  fair_wf k -> running_of k c = [] -> fq_tasks (fq k c) <> [] ->
  exists leftm tl, fq_timeline (fq k c) = leftm :: tl /\
    (forall q, q ∈ fq_tasks (fq k c) <-> q ∈ leftm :: tl) /\
    (forall q, q ∈ fq_tasks (fq k c) -> entity_before k q leftm = false).
Proof.
  intros W Hr Hne. pose proof (wf_perm _ _ (W c)) as Hperm. rewrite Hr, app_nil_r in Hperm.
  pose proof (wf_order _ _ (W c) eq_refl) as Ho.
  destruct (fq_timeline (fq k c)) as [|leftm tl] eqn:Etl; [by apply Permutation_nil_r in Hperm|].
  exists leftm, tl. split_and!; [done|by intros q; rewrite Hperm|].
  intros q Hq. rewrite Hperm in Hq. apply elem_of_cons in Hq as [->|Hq].
  - unfold entity_before, vruntime_before. by rewrite Z.sub_diag.
  - apply StronglySorted_inv in Ho as [_ Hall]. rewrite Forall_forall in Hall. by apply Hall.
Qed.

Lemma second_queued c k leftm q :
  cfs_rq_of k leftm = c -> second_entity k c None leftm = Some q -> q ∈ fq_timeline (fq k c).
Proof.
  intros Hc. unfold second_entity. cbn. unfold __pick_next_entity. rewrite Hc.
  destruct (node_after leftm _) as [z|] eqn:En; [|done]. intros [= ->]. by apply node_after_in in En.
Qed.

Lemma pick_next_spec c k :
  fair_wf k -> running_of k c = [] -> fq_tasks (fq k c) <> [] ->
  exists leftm k' p, head (fq_timeline (fq k c)) = Some leftm /\
    (forall q, q ∈ fq_tasks (fq k c) -> entity_before k q leftm = false) /\
    pick_next_entity c None k = Some (k', p) /\ fair_wf k' /\ p ∈ fq_tasks (fq k c) /\
    not_unfair k p leftm /\ (buddies (fq k c) = [None; None; None] -> p = leftm) /\
    fq_tasks (fq k' c) = fq_tasks (fq k c) /\ running_of k' c = [] /\ Some p ∉ buddies (fq k' c).
Proof.
  intros W Hr Hne. destruct (leftmost_least c k W Hr Hne) as (leftm & tl & Etl & Hmem & Hmin).
  pose proof (wf_buddies _ _ (W c)) as Hbd.
  assert (Hl : leftm ∈ fq_tasks (fq k c)) by (apply Hmem; by left).
  unfold pick_next_entity. change (__pick_first_entity k c) with (head (fq_timeline (fq k c))).
  rewrite Etl. cbn [head]. cbv zeta. change (cfs_skip (cfs_of k c)) with (fq_skip (fq k c)).
  match goal with |- context [let '(_, _) := ?x in _] => set (step1 := x) end.
  assert (H1 : exists k1 p1, step1 = (k1, p1) /\ k1 ≡f k /\ gran_of k1 leftm = gran_of k leftm /\
    not_unfair k p1 leftm /\ p1 ∈ fq_tasks (fq k c) /\ (fq_skip (fq k c) = None -> p1 = leftm)).
  { unfold step1. case_bool_decide as Hs; [|exists k, leftm; split_and!; (done || apply not_unfair_self)].
    destruct (choose_buddy (second_entity k c None leftm) leftm k k leftm) as (k1 & fits & -> & E & G & U & C & _);
      [done|done|apply not_unfair_self|]. do 2 eexists. split; [reflexivity|]. split_and!; try done; [|congruence].
    destruct C as [->|C]; [done|]. apply Hmem. rewrite <- Etl. eapply second_queued; [|exact C].
    by apply (wf_members _ _ (W c)). }
  destruct H1 as (k1 & p1 & -> & E1 & G1 & U1 & M1 & S1). cbv beta iota.
  assert (Hlast : cfs_last (cfs_of k1 c) = fq_last (fq k c)) by (rewrite <- (proj1 E1); done). rewrite Hlast.
  destruct (choose_buddy (fq_last (fq k c)) leftm k k1 p1) as (k2 & f2 & -> & E2 & G2 & U2 & C2 & S2); [done..|].
  set (p2 := if f2 then _ else p1) in *.
  assert (Hnext : cfs_next (cfs_of k2 c) = fq_next (fq k c)) by (rewrite <- (proj1 E2); done). rewrite Hnext.
  destruct (choose_buddy (fq_next (fq k c)) leftm k k2 p2) as (k3 & f3 & -> & E3 & G3 & U3 & C3 & S3); [done..|].
  set (p3 := if f3 then _ else p2) in *.
  assert (M3 : p3 ∈ fq_tasks (fq k c)).
  { destruct C3 as [->|C3]; [destruct C2 as [->|C2]; [done|]|]; apply Hbd; unfold buddies; set_solver. }
  assert (Hc3 : cfs_rq_of k3 p3 = c).
  { change (fe_cpu (fe k3 p3) = c). rewrite (proj2 E3). by apply (wf_members _ _ (W c)). }
  exists leftm, (clear_buddies c p3 k3), p3. split_and!; try done.
  - apply clear_buddies_wf; [done|]. by rewrite E3.
  - intros Hb. unfold buddies in Hb. injection Hb as Hn Hla Hk. by rewrite S3, S2, S1.
  - rewrite fq_clear_buddies, decide_True by done. cbn. by rewrite (proj1 E3).
  - unfold running_of in *. rewrite fq_clear_buddies, decide_True by done. cbn.
    rewrite (proj1 E3). destruct (fq_curr (fq k c)); [|done]. by rewrite fe_clear_buddies, (proj2 E3).
  - rewrite fq_clear_buddies, decide_True by done. unfold buddies. cbn. rewrite !elem_of_cons.
    intros [Hq|[Hq|[Hq|Hq]]]; [..|by apply not_elem_of_nil in Hq]; by apply unbuddy_some in Hq as [_ ?].
Qed.

(** [pick_next_entity] on a queue that is not empty and whose running
    entity has been put back answers with a queued entity that may run: the
    leftmost one, which has the least virtual runtime, or a buddy that is at
    most the wakeup granularity behind it.  Without buddies it is the leftmost
    one, and the picked entity is a buddy no longer. *)
Theorem pick_next_entity_fair c k :
  fair_wf k -> running_of k c = [] -> fq_tasks (fq k c) <> [] ->
  exists leftm k' p, head (fq_timeline (fq k c)) = Some leftm /\
    (forall q, q ∈ fq_tasks (fq k c) -> entity_before k q leftm = false) /\
    pick_next_entity c None k = Some (k', p) /\ fair_wf k' /\ p ∈ fq_tasks (fq k c) /\
    not_unfair k p leftm /\ (buddies (fq k c) = [None; None; None] -> p = leftm) /\
    fq_tasks (fq k' c) = fq_tasks (fq k c) /\ Some p ∉ buddies (fq k' c).
Proof.
  intros W Hr Hne. destruct (pick_next_spec c k W Hr Hne) as (l & k' & p & Hp). exists l, k', p. tauto.
Qed.

(** What happens to the queues of the class: its own operations, in the
    situations in which core.c calls them, changes core.c makes to tasks that
    are not queued, and everything that does not concern the class. *)
Inductive fair_step : kernel -> kernel -> Prop :=
  | fs_enqueue c p fl k : fe_on (fe k p) = 0 -> cfs_rq_of k p = c -> room k c ->
      window (enqueue_task_fair c p fl k) c -> fair_step k (enqueue_task_fair c p fl k)
  | fs_dequeue c p fl k : fe_on (fe k p) <> 0 -> cfs_rq_of k p = c -> room k c ->
      fair_step k (dequeue_task_fair c p fl k)
  | fs_put_prev c p k : fq_curr (fq k c) = Some p -> window (put_prev_task_fair c p k) c ->
      fair_step k (put_prev_task_fair c p k)
  | fs_set_curr c k : cfs_rq_of k (curr (rqs k c)) = c -> running_of k c = [] ->
      fair_step k (set_curr_task_fair c k)
  | fs_pick c p k k' : running_of k c = [] -> pick_next_entity c None k = Some (k', p) ->
      fair_step k (set_next_entity c p k')
  | fs_tick c p q k k' : cfs_rq_of k p = c -> task_tick_fair c p q k = Some k' -> fair_step k k'
  | fs_preempt c p fl k : fe_on (fe k p) <> 0 -> fair_step k (check_preempt_wakeup c p fl k)
  | fs_yield c k : fe_on (fe k (curr (rqs k c))) <> 0 -> fair_step k (yield_task_fair c k)
  | fs_yield_to c p b k : fe_on (fe k (curr (rqs k c))) <> 0 -> fair_step k (yield_to_task_fair c p b k).1
  | fs_fork p k : fe_on (fe k p) = 0 -> fair_step k (task_fork_fair p k)
  | fs_migrate p k : fe_on (fe k p) = 0 -> fair_step k (migrate_task_rq_fair p k)
  | fs_dead p k : fair_step k (task_dead_fair p k)
  | fs_switched_from c p k : fe_on (fe k p) = 0 -> fair_step k (switched_from_fair c p k)
  | fs_switched_to p k : fe_on (fe k p) = 0 \/ vruntime_normalized (attach_entity_cfs_rq p k) p = true ->
      fair_step k (attach_task_cfs_rq p k)
  | fs_update_curr c k : fair_step k (update_curr_fair c k)
  | fs_set_cpu p cpu k : fe_on (fe k p) = 0 -> (forall c, fq_curr (fq k c) <> Some p) ->
      fair_step k (__set_task_cpu p cpu k)
  | fs_reweight p lw k : fe_on (fe k p) = 0 -> fair_step k (upd_se p (fun s => s <| se_load := lw |>) k)
  | fs_elsewhere k k' : k' ≡f k -> fair_step k k'.

Lemma pick_some_in c k k' p :
  fair_wf k -> running_of k c = [] -> pick_next_entity c None k = Some (k', p) ->
  fair_wf k' /\ fe_cpu (fe k' p) = c /\ running_of k' c = [].
Proof.
  intros W Hr Hp. destruct (decide (fq_tasks (fq k c) = [])) as [Hz|Hne].
  { exfalso. pose proof (wf_perm _ _ (W c)) as HP. rewrite Hz, Hr, app_nil_r in HP.
    apply Permutation_nil_l in HP. unfold pick_next_entity in Hp.
    change (__pick_first_entity k c) with (head (fq_timeline (fq k c))) in Hp. by rewrite <- HP in Hp. }
  destruct (pick_next_spec c k W Hr Hne) as (_ & k1 & p1 & _ & _ & Hp1 & W1 & M1 & _ & _ & T1 & R1 & _).
  rewrite Hp1 in Hp. injection Hp as <- <-. split; [done|]. split.
  - apply (wf_members _ _ (W1 c)). by rewrite T1.
  - exact R1.
Qed.

(** C13: through any sequence of operations of the fair class, on every CPU the
    timeline stays sorted by virtual runtime and holds each queued task once,
    the running one excepted; the number of tasks, the load weights of the
    queue and of the CPU, and the buddies agree with it. *)
Theorem fair_invariant k k' : rtc fair_step k k' -> fair_wf k -> fair_wf k'.
Proof.
  induction 1 as [|k k1 k2 Hs _ IH]; [done|]. intros W. apply IH. clear IH. destruct Hs.
  - by apply enqueue_task_fair_wf.
  - by apply dequeue_task_fair_wf.
  - unfold put_prev_task_fair in *. assert (Ec : cfs_rq_of k p = c) by by apply (wf_curr _ _ (W c)).
    rewrite Ec in *.
    by apply put_prev_entity_wf.
  - unfold set_curr_task_fair. cbv zeta. rewrite H1. by apply set_next_entity_wf.
  - destruct (pick_some_in c k k' p) as (W' & Hc & Hr); [done..|]. by apply set_next_entity_wf.
  - by apply (task_tick_fair_wf c p q k).
  - by apply check_preempt_wakeup_wf.
  - by apply yield_task_fair_wf.
  - unfold yield_to_task_fair. rewrite on_rq_fe. destruct (Z.eqb_spec (fe_on (fe k p)) 0); [done|]. cbn [fst].
    assert (Ec : curr (rqs (set_next_buddy p k) c) = curr (rqs k c)).
    { unfold set_next_buddy, upd_cfs. destruct (_ =? _); [done|]. destruct (SCHED_WARN_ON _); [done|]. rewrite rqs_upd_rq. by destruct (decide _) as [->|]. }
    apply yield_task_fair_wf; [by apply set_next_buddy_wf|]. rewrite Ec.
    unfold set_next_buddy. destruct (_ =? _); [done|]. by destruct (SCHED_WARN_ON _).
  - by apply task_fork_fair_wf.
  - eapply revalued_off_wf; [apply migrate_revalues|done..].
  - unfold task_dead_fair. by rewrite fair_remove_avg.
  - eapply revalued_off_wf; [apply detach_revalues|done..].
  - by apply attach_task_wf.
  - by apply update_curr_wf.
  - apply (off_task_wf p k); [done| |done| | |done].
    + intros q Hq. unfold __set_task_cpu. rewrite fe_upd_task. by rewrite decide_False.
    + unfold __set_task_cpu. rewrite fe_upd_task. by rewrite decide_True.
    + by right.
  - apply (off_task_wf p k); [done| |done| | |done].
    + intros q Hq. rewrite fe_upd_se. by rewrite decide_False.
    + rewrite fe_upd_se. by rewrite decide_True.
    + left. rewrite fe_upd_se. by rewrite decide_True.
  - by apply (wf_equiv k).
Qed.

(** ** The tick *)

Lemma resched_curr_marks c k : need_resched (tasks (resched_curr c k) (curr (rqs k c))) = true.
Proof.
  unfold resched_curr, set_nr_and_not_polling, set_tsk_need_resched. cbv zeta.
  set (p := curr (rqs k c)). destruct (need_resched (tasks k p)) eqn:E; [done|].
  assert (Hm : need_resched (tasks (upd_task p (fun t => t <| need_resched := true |>) k) p) = true)
    by by rewrite upd_task_eq.
  destruct (_ =? _); [done|]. by destruct (negb _).
Qed.

(** With two tasks queued the timeline has one to compare with. *)
Lemma timeline_nonempty c k : fair_wf k -> 1 < fq_nr (fq k c) -> fq_timeline (fq k c) <> [].
Proof.
  intros W Hn Ht. rewrite (wf_nr _ _ (W c)) in Hn. pose proof (wf_perm _ _ (W c)) as Hp.
  rewrite Ht in Hp. apply Permutation_length in Hp. cbn in Hp. unfold running_of in Hp.
  repeat case_match; cbn in Hp; lia.
Qed.

Lemma check_preempt_tick_total c p k :
  fair_wf k -> 1 < fq_nr (fq k c) -> exists k', check_preempt_tick c p k = Some k'.
Proof.
  intros W Hn. pose proof (timeline_nonempty c k W Hn) as Ht. unfold check_preempt_tick.
  pose proof (fair_slice c p k) as E. destruct (sched_slice c p k) as [k1 ideal]. cbn [fst] in E.
  rewrite <- (proj1 E) in Ht. change (__pick_first_entity k1 c) with (head (fq_timeline (fq k1 c))).
  destruct (fq_timeline (fq k1 c)) as [|s tl]; [done|]. cbn [head]. cbv zeta. repeat case_match; eauto.
Qed.

Lemma curr_slice c d p k : curr (rqs (sched_slice d p k).1 c) = curr (rqs k c).
Proof.
  unfold sched_slice. cbv zeta. destruct (negb _); [|done].
  destruct (__calc_delta _ _ _) as [d' lw]. cbn [fst]. unfold upd_cfs. rewrite rqs_upd_rq. by case_decide; subst.
Qed.

(** The running task of a CPU, as the core has it, is none of the class's
    business. *)
Lemma curr_upd_rq d f k c : (forall r, curr (f r) = curr r) -> curr (rqs (upd_rq d f k) c) = curr (rqs k c).
Proof. intros Hf. rewrite rqs_upd_rq. destruct (decide _) as [->|]; [apply Hf|done]. Qed.

Ltac same_curr :=
  unfold upd_stat, upd_cfs, upd_se, cfs_rq_util_change; cbv zeta;
  repeat match goal with
  | |- curr (rqs ?k ?c) = curr (rqs ?k ?c) => reflexivity
  | |- context [if ?b then _ else _] => destruct b
  | |- curr (rqs (upd_rq ?d ?f ?k') ?c) = curr (rqs ?k ?c) =>
      transitivity (curr (rqs k' c)); [by apply curr_upd_rq|]
  | |- curr (rqs (upd_task ?d ?f ?k') ?c) = curr (rqs ?k ?c) => change (curr (rqs k' c) = curr (rqs k c))
  | |- curr (rqs (call ?e ?k') ?c) = curr (rqs ?k ?c) => change (curr (rqs k' c) = curr (rqs k c))
  end.

Lemma curr_update_load_avg p fl k c : curr (rqs (update_load_avg p fl k) c) = curr (rqs k c).
Proof.
  unfold update_load_avg, update_cfs_rq_load_avg, __update_load_avg_cfs_rq, __update_load_avg_se. cbv zeta.
  destruct (___update_load_avg _ _ _ _ _ _) as [[sa r] d].
  destruct (default (0, 0) r) as [rs ra]. cbn [fst]. same_curr.
Qed.

Lemma curr_calc_delta d p k c : curr (rqs (calc_delta_fair d p k).1 c) = curr (rqs k c).
Proof. unfold calc_delta_fair. destruct (negb _); [|done]. by destruct (__calc_delta _ _ _). Qed.

Lemma curr_update_curr d k c : curr (rqs (update_curr d k) c) = curr (rqs k c).
Proof.
  unfold update_curr. destruct (cfs_curr _) as [p|]; [|done]. cbv zeta. destruct (_ <=? 0); [done|].
  match goal with |- context [calc_delta_fair ?a ?b ?x] =>
    pose proof (curr_calc_delta a b x c) as Ec; destruct (calc_delta_fair a b x) as [k1 dl] end.
  cbn [fst] in Ec. transitivity (curr (rqs k1 c)); [unfold update_min_vruntime; same_curr|].
  rewrite Ec. same_curr.
Qed.

Lemma tick_overrun c p k k' :
  check_preempt_tick c p k = Some k' ->
  (sched_slice c p k).2 < u64 (sum_exec_runtime (sea k p) - prev_sum_exec_runtime (sea k p)) ->
  need_resched (tasks k' (curr (rqs k c))) = true.
Proof.
  unfold check_preempt_tick. pose proof (curr_slice c c p k) as Ec.
  assert (Es : sea (sched_slice c p k).1 p = sea k p).
  { unfold sched_slice. cbv zeta. destruct (negb _); [|done]. by destruct (__calc_delta _ _ _). }
  destruct (sched_slice c p k) as [k1 ideal]. cbn [fst snd] in *. rewrite Es. intros Hk Hlt.
  destruct (Z.ltb_spec ideal (u64 (sum_exec_runtime (sea k p) - prev_sum_exec_runtime (sea k p)))); [|lia].
  injection Hk as <-. rewrite <- Ec, <- (resched_curr_marks c k1).
  unfold clear_buddies, __clear_buddies_last, __clear_buddies_next, __clear_buddies_skip, upd_cfs. cbv zeta.
  by repeat case_match.
Qed.

(** The periodic tick never follows the pointer to a leftmost entity that
    does not exist, keeps the queues in order, and asks for a switch whenever
    other tasks wait and the running one has used up the slice it was picked
    for. *)
Theorem fair_tick c p queued k :
  fair_wf k -> cfs_rq_of k p = c ->
  let k1 := update_load_avg p UPDATE_TG (update_curr c k) in
  exists k', task_tick_fair c p queued k = Some k' /\ fair_wf k' /\
    (1 < fq_nr (fq k c) ->
     (sched_slice c p k1).2 < u64 (sum_exec_runtime (sea k1 p) - prev_sum_exec_runtime (sea k1 p)) ->
     need_resched (tasks k' (curr (rqs k c))) = true).
Proof.
  intros W Hc k1. assert (W1 : fair_wf k1).
  { unfold k1. rewrite fair_load_avg. by apply update_curr_wf. }
  assert (Ecur : curr (rqs k1 c) = curr (rqs k c)).
  { unfold k1. by rewrite curr_update_load_avg, curr_update_curr. }
  assert (En : fq_nr (fq k1 c) = fq_nr (fq k c)).
  { unfold k1. rewrite (proj1 (fair_load_avg _ _ _)). by rewrite (proj1 (update_curr_revalues c k)). }
  assert (Htick : task_tick_fair c p queued k = if 1 <? fq_nr (fq k c) then check_preempt_tick c p k1 else Some k1).
  { unfold task_tick_fair, entity_tick. by rewrite Hc, <- En. }
  rewrite Htick. destruct (Z.ltb_spec 1 (fq_nr (fq k c))) as [Hn|]; [|exists k1; by split_and!; [|done|lia]].
  destruct (check_preempt_tick_total c p k1 W1) as [k' Hk']; [lia|]. exists k'. split_and!; [done| |].
  - by apply (task_tick_fair_wf c p queued k k' W Hc); rewrite Htick.
  - intros _ Hlt. rewrite <- Ecur. by eapply tick_overrun.
Qed.

(** ** Slices *)

Lemma scaled_sum f (l : list Z) :
  (forall p, p ∈ l -> 0 <= f p) ->
  sum_of (fun p => scale_load_down (f p)) l <= scale_load_down (sum_of f l).
Proof.
  induction l as [|p l IH]; intros Hf; [done|].
  assert (IH' := IH (fun q Hq => Hf q (list_elem_of_further _ _ _ Hq))).
  change (scale_load_down (f p) + sum_of (fun p => scale_load_down (f p)) l <= scale_load_down (f p + sum_of f l)).
  set (b := sum_of f l) in *. etransitivity; [apply Z.add_le_mono_l, IH'|].
  unfold scale_load_down, SCHED_FIXEDPOINT_SHIFT. rewrite !Z.shiftr_div_pow2 by lia. change (2 ^ 10) with 1024.
  pose proof (Z.mul_div_le (f p) 1024). pose proof (Z.mul_div_le b 1024). apply Z.div_le_lower_bound; lia.
Qed.

(** A queued task gets at most its share of the period. *)
Lemma slice_share c p k :
  fair_wf k -> p ∈ fq_tasks (fq k c) -> 0 <= sysctl_sched_latency tun < 2 ^ 64 ->
  Z.of_nat (length (fq_tasks (fq k c))) < 2 ^ 32 -> lw_ok (cfs_load (cfs_of k c)) ->
  let f := scale_load_down (fe_weight (fe k p)) in let w := scale_load_down (fq_load (fq k c)) in
  0 <= f <= w ->
  (sched_slice c p k).2 * w <= __sched_period tun (Z.of_nat (length (fq_tasks (fq k c)))) * f.
Proof.
  intros W Hp Hlat Hlen Hok f w Hf. destruct (proj1 (wf_members _ _ (W c) p) Hp) as [Hon Hcpu].
  unfold sched_slice. cbv zeta. rewrite on_rq_fe. destruct (Z.eqb_spec (fe_on (fe k p)) 0) as [|_]; [done|].
  cbn [negb]. change (cfs_nr_running (cfs_of k c)) with (fq_nr (fq k c)).
  rewrite (wf_nr _ _ (W c)), Z.add_0_r, u32_id, cfs_rq_of_fe, Hcpu by lia.
  set (period := __sched_period tun _). change (lw_weight (se_load (sea k p))) with (fe_weight (fe k p)).
  assert (Hper : 0 <= period < 2 ^ 64).
  { unfold period, __sched_period. case_match; [apply u64_range|done]. }
  assert (Hw : 0 < w < 2 ^ 32 - 1) by apply Hok.
  destruct (calc_delta_bounds period (fe_weight (fe k p)) (cfs_load (cfs_of k c))) as [Hb _]; [done| |done| |].
  - fold f. lia.
  - fold f. change (lw_weight (cfs_load (cfs_of k c))) with (fq_load (fq k c)). fold w. nia.
  - destruct (__calc_delta _ _ _) as [d lw]. exact Hb.
Qed.

(** The slices of the tasks on a queue add up to at most one period, in
    which therefore each of them gets to run. *)
Theorem slices_fit_period c k :
  fair_wf k -> 0 <= sysctl_sched_latency tun < 2 ^ 64 ->
  Z.of_nat (length (fq_tasks (fq k c))) < 2 ^ 32 -> lw_ok (cfs_load (cfs_of k c)) ->
  (forall p, p ∈ fq_tasks (fq k c) -> 0 <= fe_weight (fe k p)) ->
  sum_of (fun p => fe_weight (fe k p)) (fq_tasks (fq k c)) < 2 ^ 64 ->
  sum_of (fun p => (sched_slice c p k).2) (fq_tasks (fq k c)) <=
  __sched_period tun (Z.of_nat (length (fq_tasks (fq k c)))).
Proof.
  intros W Hlat Hlen Hok Hpos Hsum. set (period := __sched_period tun _).
  set (ts := fq_tasks (fq k c)) in *. set (wt p := fe_weight (fe k p)) in *.
  set (w := scale_load_down (fq_load (fq k c))).
  assert (Hw : 0 < w < 2 ^ 32 - 1) by apply Hok.
  assert (Ew : w = scale_load_down (sum_of wt ts)).
  { unfold w. rewrite (wf_load _ _ (W c)), u64_id; [done|]. split; [by apply sum_of_nonneg|done]. }
  assert (Hf0 : forall p, p ∈ ts -> 0 <= scale_load_down (wt p)).
  { intros p Hp. apply Z.shiftr_nonneg. by apply Hpos. }
  pose proof (scaled_sum wt ts Hpos) as Hscale. rewrite <- Ew in Hscale.
  assert (Hper : 0 <= period < 2 ^ 64).
  { unfold period, __sched_period. case_match; [apply u64_range|done]. }
  assert (Hle : sum_of (fun p => w * (sched_slice c p k).2) ts <= sum_of (fun p => period * scale_load_down (wt p)) ts).
  { apply sum_of_mono. intros p Hp. rewrite Z.mul_comm. apply (slice_share c p k); try done. split; [by apply Hf0|].
    etransitivity; [|exact Hscale]. by apply (sum_of_le (fun p => scale_load_down (wt p))). }
  rewrite !sum_of_scale in Hle. nia.
Qed.
End Steps.

(** ** Two tasks on a small machine *)

#[local] Instance demo_fair_env : FairEnv :=
  {| tun := default_tunables; CONFIG_SCHED_DEBUG := true; feat_START_DEBIT := true; feat_GENTLE_FAIR_SLEEPERS := true;
     feat_NEXT_BUDDY := false; feat_LAST_BUDDY := true; feat_WAKEUP_PREEMPTION := true;
     feat_ATTACH_AGE_LOAD := true; newidle_balance := fun c k => (k, 0) |}.

Definition fair_demo0 : kernel := demo_kernel fair_sched_class SCHED_NORMAL 120.
Local Abbreviation fair_demo1 := (enqueue_task_fair 0 5 0 fair_demo0).
Local Abbreviation fair_demo2 := (enqueue_task_fair 0 6 ENQUEUE_WAKEUP fair_demo1).

(** Closes [window k c] for a concrete state. *)
Ltac window_by base :=
  exists base; intros ? Hin; vm_compute in Hin; repeat (apply elem_of_cons in Hin as [->|Hin]; [by vm_compute|]);
  by apply not_elem_of_nil in Hin.

Lemma fair_demo0_wf : fair_wf fair_demo0.
Proof.
  intros c. split; try done.
  - apply NoDup_nil_2.
  - intros p. split; [by intros Hp%not_elem_of_nil|]. by intros [Hp _].
  - constructor.
  - intros p Hp. cbn in Hp. set_solver.
Qed.
Lemma fair_demo1_window : window fair_demo1 0.
Proof. window_by (u64 (- 2 ^ 30)). Qed.
Lemma fair_demo2_window : window fair_demo2 0.
Proof. window_by (u64 (- 2 ^ 30)). Qed.

Lemma fair_demo1_wf : fair_wf fair_demo1.
Proof.
  apply (enqueue_task_fair_wf 0 5 0 fair_demo0); [exact fair_demo0_wf|by vm_compute..|intros _; exact fair_demo1_window].
Qed.
Lemma fair_demo2_wf : fair_wf fair_demo2.
Proof.
  apply (enqueue_task_fair_wf 0 6 ENQUEUE_WAKEUP fair_demo1);
    [exact fair_demo1_wf|by vm_compute..|intros _; exact fair_demo2_window].
Qed.

Lemma fair_invariant_witness :
  exists k', rtc fair_step fair_demo0 k' /\ fq_tasks (fq k' 0) = [6; 5] /\ fair_wf k'.
Proof.
  exists fair_demo2. assert (Hs : rtc fair_step fair_demo0 fair_demo2).
  { apply (rtc_l _ _ fair_demo1).
    - apply (fs_enqueue 0 5 0); [by vm_compute..|exact fair_demo1_window].
    - apply rtc_once, (fs_enqueue 0 6 ENQUEUE_WAKEUP); [by vm_compute..|exact fair_demo2_window]. }
  split_and!; [exact Hs|by vm_compute|]. exact (fair_invariant _ _ Hs fair_demo0_wf).
Defined.

Lemma pick_next_entity_fair_witness :
  exists k' p, pick_next_entity 0 None fair_demo2 = Some (k', p) /\ p ∈ [6; 5].
Proof.
  destruct (pick_next_entity_fair 0 fair_demo2) as (l & k' & p & _ & _ & Hp & _ & Hin & _).
  - exact fair_demo2_wf.
  - by vm_compute.
  - by vm_compute.
  - exists k', p. split; [exact Hp|]. exact Hin.
Defined.

Lemma fair_tick_witness : exists k', task_tick_fair 0 5 0 fair_demo2 = Some k' /\ fair_wf k'.
Proof.
  destruct (fair_tick 0 5 0 fair_demo2 fair_demo2_wf) as (k' & Hk & Hw & _); [by vm_compute|].
  exists k'. by split.
Defined.

Lemma slices_fit_period_witness :
  sum_of (fun p => (sched_slice 0 p fair_demo2).2) [6; 5] <= 6000000.
Proof.
  assert (Et : fq_tasks (fq fair_demo2 0) = [6; 5]) by (vm_compute; reflexivity).
  assert (Ep : __sched_period tun (Z.of_nat (length [6; 5])) = 6000000) by (vm_compute; reflexivity).
  assert (El : cfs_load (cfs_of fair_demo2 0) = mkLoad (2 * NICE_0_LOAD) 0) by (vm_compute; reflexivity).
  pose proof (slices_fit_period 0 fair_demo2 fair_demo2_wf) as Hs. rewrite Et, Ep, El in Hs.
  apply Hs; clear; [by vm_compute|by vm_compute|by split; [vm_compute|left]| |by vm_compute].
  intros p Hp. repeat (apply elem_of_cons in Hp as [->|Hp]; [by vm_compute|]).
  exfalso. exact (not_elem_of_nil _ Hp).
Defined.
