(* ===== verification/FairFrame.v ===== *)
(** * The fair class leaves the core scheduler's state alone

    What core.c asks of every scheduling class ([QueueFrame]) and of the load
    tracking, discharged for fair.c: each operation changes only the scheduling
    entities, the class queues, clocks and statistics. *)

From S2P Require Import Prelude SchedTypes Core Frame Wrr RtBandwidth FairMath FairPelt FairQueue FairInv.

(** As [core_back], a step that is taken or not at a time. *)
Ltac fair_core :=
  unfold upd_stat, upd_cfs, upd_se, cfs_rq_util_change; cbv zeta;
  repeat match goal with
  | |- ?k ≡c ?k => reflexivity
  | |- (if ?b then ?t else ?k') ≡c ?k =>
      lazymatch t with context [k'] => transitivity k'; [destruct b; [fair_core|reflexivity]|] | _ => destruct b end
  | |- upd_rq ?c ?f ?k' ≡c ?k => transitivity k'; [by apply core_upd_rq|]
  | |- upd_task ?c ?f ?k' ≡c ?k => transitivity k'; [by apply core_upd_task|]
  | |- call ?e ?k' ≡c ?k => transitivity k'; [done|]
  | |- _ ≡c ?k => etransitivity; [solve [eauto with cframe nocore typeclass_instances]|]
  | |- context [if ?b then _ else _] => destruct b
  | |- _ => done
  end.

(** Goes through a sequence of [let k := ... in], forgetting how each state was
    computed once it is known to be equivalent. *)
Ltac fair_lets :=
  repeat lazymatch goal with
  | |- (let x := ?A in @?B x) ≡c ?k0 =>
      lazymatch type of A with
      | kernel => let E := fresh "E" in assert (E : A ≡c k0); [fair_core|
          transitivity A; [change (B A ≡c A); clear E; generalize A; intros ?; cbv beta|exact E]]
      | _ => change (B A ≡c k0); generalize A; intros ?; cbv beta
      end
  end; fair_core.

Lemma calc_delta_caches d w lw : (__calc_delta d w lw).2 = __update_inv_weight lw.
Proof. unfold __calc_delta. destruct (shrink _ _ _). by destruct (shrink _ _ _). Qed.

Lemma core_cache_se p lw k :
  __update_inv_weight lw = __update_inv_weight (se_load (sea k p)) ->
  upd_se p (fun s => s <| se_load := lw |>) k ≡c k.
Proof.
  intros E. split_and!; try done. intros q. unfold upd_se. rewrite tasks_upd_task.
  destruct (decide (p = q)) as [<-|]; [|done]. unfold core_task. cbn. by rewrite E.
Qed.

Lemma core_min_vruntime c k : update_min_vruntime c k ≡c k.
Proof. unfold update_min_vruntime. fair_core. Qed.
Lemma core_wait_start c p k : update_stats_wait_start c p k ≡c k.
Proof. unfold update_stats_wait_start. fair_core. Qed.
Lemma core_wait_end c p k : update_stats_wait_end c p k ≡c k.
Proof. unfold update_stats_wait_end. fair_core. Qed.
Lemma core_sleeper c p k : update_stats_enqueue_sleeper c p k ≡c k.
Proof. unfold update_stats_enqueue_sleeper. fair_core. Qed.
#[export] Hint Resolve core_min_vruntime core_wait_start core_wait_end core_sleeper : cframe.
Lemma core_stats_enqueue c p fl k : update_stats_enqueue c p fl k ≡c k.
Proof. unfold update_stats_enqueue. fair_core. Qed.
Lemma core_stats_dequeue c p fl k : update_stats_dequeue c p fl k ≡c k.
Proof. unfold update_stats_dequeue. fair_core. Qed.
Lemma core_curr_start c p k : update_stats_curr_start c p k ≡c k.
Proof. unfold update_stats_curr_start. fair_core. Qed.
Lemma core_account c p k : account_entity_enqueue c p k ≡c k.
Proof. unfold account_entity_enqueue. fair_core. Qed.
Lemma core_unaccount c p k : account_entity_dequeue c p k ≡c k.
Proof. unfold account_entity_dequeue. fair_core. Qed.
Lemma core_link c p k : __enqueue_entity c p k ≡c k.
Proof. unfold __enqueue_entity. fair_core. Qed.
Lemma core_unlink c p k : __dequeue_entity c p k ≡c k.
Proof. unfold __dequeue_entity. fair_core. Qed.
Lemma core_clear_buddies c p k : clear_buddies c p k ≡c k.
Proof.
  unfold clear_buddies, __clear_buddies_last, __clear_buddies_next, __clear_buddies_skip. fair_core.
Qed.
#[export] Hint Resolve core_stats_enqueue core_stats_dequeue core_curr_start core_account core_unaccount
  core_link core_unlink core_clear_buddies : cframe.

Section Frame.
Context `{FairEnv} `{PeltTable}.

Lemma core_calc_delta d p k : (calc_delta_fair d p k).1 ≡c k.
Proof.
  unfold calc_delta_fair. destruct (negb _); [|done].
  pose proof (calc_delta_caches d NICE_0_LOAD (se_load (sea k p))) as Hc.
  destruct (__calc_delta _ _ _) as [d' lw]. cbn in *. apply core_cache_se. by rewrite Hc, update_inv_idem.
Qed.

Lemma core_slice c p k : (sched_slice c p k).1 ≡c k.
Proof.
  unfold sched_slice. cbv zeta. destruct (negb _); [|done]. destruct (__calc_delta _ _ _) as [d2 lw]. cbn [fst]. fair_core.
Qed.

Lemma core_vslice c p k : (sched_vslice c p k).1 ≡c k.
Proof.
  unfold sched_vslice. pose proof (core_slice c p k) as E. destruct (sched_slice c p k) as [k1 d].
  rewrite core_calc_delta. exact E.
Qed.

Lemma core_wakeup a b k : (wakeup_preempt_entity a b k).1 ≡c k.
Proof.
  unfold wakeup_preempt_entity. cbv zeta. destruct (_ <=? 0); [done|]. unfold wakeup_gran.
  pose proof (core_calc_delta (sysctl_sched_wakeup_granularity tun) b k) as E.
  destruct (calc_delta_fair _ _ _) as [k1 g]. by destruct (s64 g <? _).
Qed.

Lemma core_update_curr c k : update_curr c k ≡c k.
Proof.
  unfold update_curr. destruct (cfs_curr _) as [p|]; [|done]. cbv zeta. destruct (_ <=? 0); [done|].
  match goal with |- context [calc_delta_fair ?d p ?x] =>
    assert (E1 : x ≡c k) by fair_core; pose proof (core_calc_delta d p x) as E2;
    destruct (calc_delta_fair d p x) as [k1 d1] end.
  cbn [fst] in E2. transitivity k1; [fair_core|by rewrite E2].
Qed.

Lemma core_cfs_avg now c k : (update_cfs_rq_load_avg now c k).1 ≡c k.
Proof.
  unfold update_cfs_rq_load_avg, __update_load_avg_cfs_rq. cbv zeta.
  destruct (___update_load_avg _ _ _ _ _ _) as [[sa r] d].
  destruct (default (0, 0) r) as [rs ra]. cbn [fst]. fair_core.
Qed.
Lemma core_load_avg p fl k : update_load_avg p fl k ≡c k.
Proof.
  unfold update_load_avg. cbv zeta. rewrite core_cfs_avg. unfold __update_load_avg_se. fair_core.
Qed.
Lemma core_attach c p k : attach_entity_load_avg c p k ≡c k.
Proof. unfold attach_entity_load_avg. fair_core. Qed.
Lemma core_detach c p k : detach_entity_load_avg c p k ≡c k.
Proof. unfold detach_entity_load_avg. fair_core. Qed.
Lemma core_enqueue_avg c p k : enqueue_entity_load_avg c p k ≡c k.
Proof. unfold enqueue_entity_load_avg. cbv zeta. case_match; [rewrite core_attach|]; fair_core. Qed.
Lemma core_dequeue_avg c p k : dequeue_entity_load_avg c p k ≡c k.
Proof. unfold dequeue_entity_load_avg. fair_core. Qed.
Lemma core_remove_avg p k : remove_entity_load_avg p k ≡c k.
Proof. unfold remove_entity_load_avg, sync_entity_load_avg, __update_load_avg_blocked_se. fair_core. Qed.

Lemma core_place c p b k : place_entity c p b k ≡c k.
Proof.
  unfold place_entity. cbv zeta.
  match goal with |- context [let '(_, _) := ?x in _] =>
    assert (E : x.1 ≡c k); [|destruct x as [k1 v]; cbn [fst] in E] end.
  { destruct (b && feat_START_DEBIT); [|done]. pose proof (core_vslice c p k) as E.
    by destruct (sched_vslice c p k). }
  transitivity k1; [fair_core|done].
Qed.
End Frame.
#[export] Hint Resolve core_calc_delta core_slice core_vslice core_wakeup core_update_curr core_cfs_avg core_load_avg core_attach
  core_detach core_enqueue_avg core_dequeue_avg core_remove_avg core_place : cframe.

(** ** The operations of the class *)

Section Ops.
Context `{FairEnv} `{PeltTable}.

Lemma core_renormalise c p k : renormalise c p k ≡c k.
Proof. cbv beta delta [renormalise]. fair_lets. Qed.
Lemma core_normalise c p k : normalise c p k ≡c k.
Proof. cbv beta delta [normalise]. fair_lets. Qed.
#[local] Hint Resolve core_renormalise core_normalise : cframe.

Lemma core_enqueue_entity c p fl k : enqueue_entity c p fl k ≡c k.
Proof. cbv beta delta [enqueue_entity]. fair_lets. Qed.
Lemma core_dequeue_entity c p fl k : dequeue_entity c p fl k ≡c k.
Proof. cbv beta delta [dequeue_entity]. fair_lets. Qed.
#[local] Hint Resolve core_enqueue_entity core_dequeue_entity : cframe.

Lemma core_enqueue_fair c p fl k : enqueue_task_fair c p fl k ≡c k.
Proof. cbv beta delta [enqueue_task_fair]. fair_lets. Qed.
Lemma core_dequeue_fair c p fl k : dequeue_task_fair c p fl k ≡c k.
Proof. cbv beta delta [dequeue_task_fair]. fair_lets. Qed.

Lemma core_next_buddy p k : set_next_buddy p k ≡c k.
Proof. cbv beta delta [set_next_buddy]. fair_lets. Qed.
Lemma core_last_buddy p k : set_last_buddy p k ≡c k.
Proof. cbv beta delta [set_last_buddy]. fair_lets. Qed.
Lemma core_skip_buddy p k : set_skip_buddy p k ≡c k.
Proof. cbv beta delta [set_skip_buddy]. fair_lets. Qed.
#[local] Hint Resolve core_next_buddy core_last_buddy core_skip_buddy : cframe.

Lemma core_preempt_wakeup c cur sc k : preempt_wakeup c cur sc k ≡c k.
Proof. cbv beta delta [preempt_wakeup]. fair_lets. Qed.
Lemma core_check_wakeup c p fl k : check_preempt_wakeup c p fl k ≡c k.
Proof.
  unfold check_preempt_wakeup. cbv zeta. destruct (_ =? p); [done|].
  set (k1 := if _ && _ && _ then set_next_buddy p k else k).
  assert (E1 : k1 ≡c k) by (unfold k1; fair_core). clearbody k1.
  destruct (need_resched _); [done|]. destruct (_ && _); [by rewrite core_preempt_wakeup|].
  destruct (_ || _); [done|]. set (cur := curr (rqs k c)).
  assert (E2 : (wakeup_preempt_entity cur p (update_curr (cfs_rq_of k1 cur) k1)).1 ≡c k).
  { by rewrite core_wakeup, core_update_curr. }
  destruct (wakeup_preempt_entity cur p _) as [k3 r]. cbn [fst] in E2.
  destruct (r =? 1); [rewrite core_preempt_wakeup; destruct (_ && _ && _); rewrite ?core_next_buddy|]; by rewrite E2.
Qed.

Lemma core_put_prev_entity c p k : put_prev_entity c p k ≡c k.
Proof. cbv beta delta [put_prev_entity]. fair_lets. Qed.
Lemma core_put_prev_fair c p k : put_prev_task_fair c p k ≡c k.
Proof. apply core_put_prev_entity. Qed.
Lemma core_set_next c p k : set_next_entity c p k ≡c k.
Proof. cbv beta delta [set_next_entity]. fair_lets. Qed.
Lemma core_set_curr_fair c k : set_curr_task_fair c k ≡c k.
Proof. unfold set_curr_task_fair. cbv zeta. apply core_set_next. Qed.
Lemma core_migrate_fair p k : migrate_task_rq_fair p k ≡c k.
Proof. cbv beta delta [migrate_task_rq_fair]. fair_lets. Qed.
Lemma core_yield_fair c k : yield_task_fair c k ≡c k.
Proof. cbv beta delta [yield_task_fair]. fair_lets. Qed.
Lemma core_fork_fair p k : task_fork_fair p k ≡c k.
Proof.
  unfold task_fork_fair. cbv zeta. destruct (cfs_curr _); fair_core.
Qed.
Lemma core_switched_from_fair c p k : switched_from_fair c p k ≡c k.
Proof.
  unfold switched_from_fair, detach_task_cfs_rq, detach_entity_cfs_rq. cbv zeta.
  rewrite core_detach, core_load_avg. destruct (negb _); fair_core.
Qed.
Lemma core_init_average p k : init_entity_average p k ≡c k.
Proof. cbv beta delta [init_entity_average]. fair_lets. Qed.
End Ops.
