(* ===== verification/FairBusiest.v ===== *)
(** * Finding the busiest group and queue (fair.c)

    The statistics load balancing computes over the groups of a scheduling
    domain, the amount of load to move, and the queue to move it from.  The
    theorems: the amount is at most what brings the busiest group down to, and
    the local group up to, the average; and the chosen queue has the greatest
    load relative to its capacity.

    NUMA balancing is off, so [fbq_type] is always [fbq_all] and a run queue always
    [fbq_regular]. *)

From S2P Require Import Prelude SchedTypes Core Wrr CorePolicy RtBandwidth FairMath FairPelt FairQueue.

(** What balancing uses from elsewhere: tunables and features, the conversion
    of milliseconds, the number of levels and the balancing CPU of a group from
    topology.c, and what other CPUs do while no run-queue lock is held. *)
Class BalanceEnv := {
  sysctl_sched_migration_cost : Z;
  sysctl_sched_nr_migrate : Z;
  feat_CACHE_HOT_BUDDY : bool;
  feat_LB_MIN : bool;
  feat_LB_BIAS : bool;
  config_PREEMPT : bool;
  sched_domain_level_max : nat;
  config_NR_CPUS : nat;
  msecs_to_jiffies : Z -> Z;
  group_balance_cpu : kernel -> Z -> Z;
  balancing_trylock : kernel -> bool;
  other_cpus : kernel -> kernel }.

Definition SD_LOAD_BALANCE : Z := 1.
Definition SD_BALANCE_NEWIDLE : Z := 2.
Definition SD_BALANCE_EXEC : Z := 4.
Definition SD_WAKE_AFFINE : Z := 32.
Definition SD_ASYM_CPUCAPACITY : Z := 64.
Definition SD_SHARE_CPUCAPACITY : Z := 128.
Definition SD_SERIALIZE : Z := 1024.
Definition SD_ASYM_PACKING : Z := 2048.
Definition SD_PREFER_SIBLING : Z := 4096.
Definition SD_OVERLAP : Z := 8192.
Definition SD_NUMA : Z := 16384.

Definition capacity_margin : Z := 1280.

Definition time_after (a b : Z) : bool := s64 (b - a) <? 0.
Definition time_after_eq (a b : Z) : bool := 0 <=? s64 (a - b).

Definition upd_sd (d : Z) (f : sched_domain -> sched_domain) (k : kernel) : kernel :=
  k <| domains ::= alter f d |>.
Definition upd_sgc (g : Z) (f : sched_group_capacity -> sched_group_capacity) (k : kernel) : kernel :=
  k <| group_caps ::= alter f g |>.

(** The group at [sd->groups], and the capacity record of a group. *)
Definition first_group (k : kernel) (d : Z) : Z := default 0 (head (sd_groups (domains k d))).
Definition sgc_of (k : kernel) (g : Z) : sched_group_capacity := group_caps k (sgc (groups k g)).

(** [for_each_domain]: the domains of a CPU, upwards. *)
Fixpoint domain_chain (fuel : nat) (k : kernel) (sd : option Z) : list Z :=
  match fuel, sd with
  | S n, Some d => d :: domain_chain n k (sd_parent (domains k d))
  | _, _ => []
  end.
Definition for_each_domain `{BalanceEnv} (k : kernel) (cpu : Z) : list Z :=
  domain_chain (S sched_domain_level_max) k (rq_sd (rqs k cpu)).

(** ** Loads and capacities of a CPU *)

Section Loads.
Context `{BalanceEnv}.

Definition source_load (k : kernel) (cpu type : Z) : Z :=
  let total := weighted_cpuload k cpu in
  if (type =? 0) || negb feat_LB_BIAS then total
  else Z.min (nth (Z.to_nat (type - 1)) (cpu_load (rqs k cpu)) 0) total.

Definition target_load (k : kernel) (cpu type : Z) : Z :=
  let total := weighted_cpuload k cpu in
  if (type =? 0) || negb feat_LB_BIAS then total
  else Z.max (nth (Z.to_nat (type - 1)) (cpu_load (rqs k cpu)) 0) total.
End Loads.

Definition capacity_of (k : kernel) (cpu : Z) : Z := cpu_capacity (rqs k cpu).
Definition capacity_orig_of (k : kernel) (cpu : Z) : Z := cpu_capacity_orig (rqs k cpu).

Definition cpu_avg_load_per_task (k : kernel) (cpu : Z) : Z :=
  let nr_running := h_nr_running (cfs_of k cpu) in
  let load_avg := weighted_cpuload k cpu in
  if negb (nr_running =? 0) then load_avg / nr_running else 0.

Definition cpu_util (k : kernel) (cpu : Z) : Z :=
  let util := util_avg (cfs_avg (cfs_of k cpu)) in
  let capacity := capacity_orig_of k cpu in
  s32 (if capacity <=? util then capacity else util).

Definition task_h_load (k : kernel) (p : Z) : Z := load_avg (se_avg (sea k p)).

Definition arch_asym_cpu_priority (cpu : Z) : Z := - cpu.
Definition sched_asym_prefer (a b : Z) : bool := arch_asym_cpu_priority b <? arch_asym_cpu_priority a.

(** ** The balancing environment and the statistics *)

Inductive fbq_type := fbq_regular | fbq_remote | fbq_all.
Definition fbq_num (t : fbq_type) : Z := match t with fbq_regular => 0 | fbq_remote => 1 | fbq_all => 2 end.

Definition LBF_ALL_PINNED : Z := 1.
Definition LBF_NEED_BREAK : Z := 2.
Definition LBF_DST_PINNED : Z := 4.
Definition LBF_SOME_PINNED : Z := 8.

(** [src_rq] and [dst_rq] are the queues of [src_cpu] and [dst_cpu]. *)
Record lb_env := mkLbEnv {
  env_sd : Z;
  src_cpu : Z;
  dst_cpu : Z;
  dst_grpmask : gset Z;
  new_dst_cpu : Z;
  env_idle : cpu_idle_type;
  imbalance : Z;
  env_cpus : gset Z;
  env_flags : Z;
  loop : Z;
  loop_break : Z;
  loop_max : Z;
  env_fbq_type : fbq_type;
  env_tasks : list Z }.
#[export] Instance eta_lb_env : Settable lb_env :=
  fun r => mkLbEnv (env_sd r) (src_cpu r) (dst_cpu r) (dst_grpmask r) (new_dst_cpu r) (env_idle r)
    (imbalance r) (env_cpus r) (env_flags r) (loop r) (loop_break r) (loop_max r) (env_fbq_type r)
    (env_tasks r).

Inductive group_type := group_other | group_imbalanced | group_overloaded.
#[export] Instance group_type_eq_dec : EqDecision group_type.
Proof. solve_decision. Defined.
Definition group_type_num (t : group_type) : Z :=
  match t with group_other => 0 | group_imbalanced => 1 | group_overloaded => 2 end.

Record sg_lb_stats := mkSgs {
  avg_load : Z;
  group_load : Z;
  sum_weighted_load : Z;
  load_per_task : Z;
  group_capacity : Z;
  group_util : Z;
  sum_nr_running : Z;
  idle_cpus : Z;
  sgs_group_weight : Z;
  sgs_group_type : group_type;
  group_no_capacity : bool }.
#[export] Instance eta_sg_lb_stats : Settable sg_lb_stats :=
  fun r => mkSgs (avg_load r) (group_load r) (sum_weighted_load r) (load_per_task r) (group_capacity r)
    (group_util r) (sum_nr_running r) (idle_cpus r) (sgs_group_weight r) (sgs_group_type r)
    (group_no_capacity r).

Definition zero_sgs : sg_lb_stats := mkSgs 0 0 0 0 0 0 0 0 0 group_other false.

Record sd_lb_stats := mkSds {
  busiest : option Z;
  local : option Z;
  total_running : Z;
  total_load : Z;
  total_capacity : Z;
  sds_avg_load : Z;
  busiest_stat : sg_lb_stats;
  local_stat : sg_lb_stats }.
#[export] Instance eta_sd_lb_stats : Settable sd_lb_stats :=
  fun r => mkSds (busiest r) (local r) (total_running r) (total_load r) (total_capacity r)
    (sds_avg_load r) (busiest_stat r) (local_stat r).

Definition init_sd_lb_stats : sd_lb_stats := mkSds None None 0 0 0 0 zero_sgs zero_sgs.

Definition get_sd_load_idx (sd : sched_domain) (idle : cpu_idle_type) : Z :=
  match idle with
  | CPU_NOT_IDLE => busy_idx sd
  | CPU_NEWLY_IDLE => newidle_idx sd
  | CPU_IDLE => idle_idx sd
  end.

(** ** Capacities of CPUs and groups *)

Definition arch_scale_cpu_capacity_sd (sd : sched_domain) (cpu : Z) : Z :=
  if has_flag (sd_flags sd) SD_SHARE_CPUCAPACITY && (1 <? span_weight sd)
  then smt_gain sd / span_weight sd
  else SCHED_CAPACITY_SCALE.

Definition scale_rt_capacity (k : kernel) (cpu : Z) : Z :=
  let r := rqs k cpu in
  let delta := s64 (clock r - age_stamp r) in
  let delta := if delta <? 0 then 0 else delta in
  let total := u64 (sched_avg_period + delta) in
  let used := rt_avg r / total in
  if used <? SCHED_CAPACITY_SCALE then SCHED_CAPACITY_SCALE - used else 1.

Definition update_cpu_capacity (d cpu : Z) (k : kernel) : kernel :=
  let orig := arch_scale_cpu_capacity_sd (domains k d) cpu in
  let k := upd_rq cpu (fun r => r <| cpu_capacity_orig := orig |>) k in
  let capacity := Z.shiftr (u64 (orig * scale_rt_capacity k cpu)) SCHED_CAPACITY_SHIFT in
  let capacity := if capacity =? 0 then 1 else capacity in
  let k := upd_rq cpu (fun r => r <| cpu_capacity := capacity |>) k in
  upd_sgc (sgc (groups k (first_group k d)))
    (fun c => c <| sgc_capacity := capacity |> <| min_capacity := capacity |>) k.

(** The loops of [update_group_capacity] over CPUs and over child groups: the
    capacity so far and the smallest one. *)
Definition overlap_capacity (k : kernel) (acc : Z * Z) (cpu : Z) : Z * Z :=
  let '(capacity, min_cap) := acc in
  let c := match rq_sd (rqs k cpu) with
           | None => capacity_of k cpu
           | Some d => sgc_capacity (sgc_of k (first_group k d))
           end in
  let capacity := u64 (capacity + c) in
  (capacity, Z.min capacity min_cap).

Definition child_capacity (k : kernel) (acc : Z * Z) (g : Z) : Z * Z :=
  let '(capacity, min_cap) := acc in
  (u64 (capacity + sgc_capacity (sgc_of k g)), Z.min (min_capacity (sgc_of k g)) min_cap).

Section Stats.
Context `{BalanceEnv}.

Definition update_group_capacity (d cpu : Z) (k : kernel) : kernel :=
  let sd := domains k d in
  let sdg := first_group k d in
  let interval := msecs_to_jiffies (balance_interval sd) in
  let interval := Z.min (Z.max interval 1) (max_load_balance_interval k) in
  let k := upd_sgc (sgc (groups k sdg)) (fun c => c <| next_update := u64 (jiffies k + interval) |>) k in
  match sd_child sd with
  | None => update_cpu_capacity d cpu k
  | Some child =>
      let '(capacity, min_cap) :=
        if has_flag (sd_flags (domains k child)) SD_OVERLAP
        then foldl (overlap_capacity k) (0, U64_MAX) (for_each_cpu k (sched_group_span (groups k sdg)))
        else foldl (child_capacity k) (0, U64_MAX) (sd_groups (domains k child)) in
      upd_sgc (sgc (groups k sdg))
        (fun c => c <| sgc_capacity := capacity |> <| min_capacity := min_cap |>) k
  end.

Definition check_cpu_capacity (k : kernel) (cpu : Z) (sd : sched_domain) : bool :=
  u64 (capacity_of k cpu * imbalance_pct sd) <? u64 (capacity_orig_of k cpu * 100).

(** ** Statistics of a group *)

Definition sg_imbalanced (k : kernel) (g : Z) : bool := sgc_imbalance (sgc_of k g).

Definition group_has_capacity (sd : sched_domain) (sgs : sg_lb_stats) : bool :=
  if sum_nr_running sgs <? sgs_group_weight sgs then true
  else u64 (group_util sgs * imbalance_pct sd) <? u64 (group_capacity sgs * 100).

Definition group_is_overloaded (sd : sched_domain) (sgs : sg_lb_stats) : bool :=
  if sum_nr_running sgs <=? sgs_group_weight sgs then false
  else u64 (group_capacity sgs * 100) <? u64 (group_util sgs * imbalance_pct sd).

Definition group_smaller_cpu_capacity (k : kernel) (sg ref : Z) : bool :=
  u64 (min_capacity (sgc_of k sg) * capacity_margin) <? u64 (min_capacity (sgc_of k ref) * 1024).

Definition group_classify (k : kernel) (g : Z) (sgs : sg_lb_stats) : group_type :=
  if group_no_capacity sgs then group_overloaded
  else if sg_imbalanced k g then group_imbalanced
  else group_other.

(** What one CPU adds to the statistics of its group. *)
Definition sg_add_cpu (k : kernel) (load_idx : Z) (local_group : bool)
    (acc : sg_lb_stats * bool) (i : Z) : sg_lb_stats * bool :=
  let '(sgs, overload) := acc in
  let load := if local_group then target_load k i load_idx else source_load k i load_idx in
  let nr := s32 (nr_running (rqs k i)) in
  (sgs <| group_load ::= fun x => u64 (x + load) |>
       <| group_util ::= fun x => u64 (x + cpu_util k i) |>
       <| sum_nr_running ::= fun x => u32 (x + h_nr_running (cfs_of k i)) |>
       <| sum_weighted_load ::= fun x => u64 (x + weighted_cpuload k i) |>
       <| idle_cpus ::= fun x => if (nr =? 0) && idle_cpu k i then u32 (x + 1) else x |>,
   overload || (1 <? nr)).

Definition update_sg_lb_stats (env : lb_env) (g load_idx : Z) (local_group : bool) (overload : bool)
    (k : kernel) : sg_lb_stats * bool :=
  let grp := groups k g in
  let '(sgs, overload) := foldl (sg_add_cpu k load_idx local_group) (zero_sgs, overload)
    (for_each_cpu k (sched_group_span grp ∩ env_cpus env)) in
  let cap := sgc_capacity (sgc_of k g) in
  let sgs := sgs <| group_capacity := cap |>
                 <| avg_load := u64 (group_load sgs * SCHED_CAPACITY_SCALE) / cap |> in
  let sgs := if negb (sum_nr_running sgs =? 0)
             then sgs <| load_per_task := sum_weighted_load sgs / sum_nr_running sgs |> else sgs in
  let sgs := sgs <| sgs_group_weight := group_weight grp |> in
  let sgs := sgs <| group_no_capacity := group_is_overloaded (domains k (env_sd env)) sgs |> in
  (sgs <| sgs_group_type := group_classify k g sgs |>, overload).

(** The local group is first on the ring, so [sds->local] is set when another
    group is compared with it. *)
Definition update_sd_pick_busiest (env : lb_env) (sds : sd_lb_stats) (sg : Z) (sgs : sg_lb_stats)
    (k : kernel) : bool :=
  let b := busiest_stat sds in
  let fl := sd_flags (domains k (env_sd env)) in
  if group_type_num (sgs_group_type b) <? group_type_num (sgs_group_type sgs) then true
  else if group_type_num (sgs_group_type sgs) <? group_type_num (sgs_group_type b) then false
  else if avg_load sgs <=? avg_load b then false
  else if has_flag fl SD_ASYM_CPUCAPACITY && (sum_nr_running sgs <=? sgs_group_weight sgs) &&
          group_smaller_cpu_capacity k (default 0 (local sds)) sg then false
  else if negb (has_flag fl SD_ASYM_PACKING) then true
  else if bool_decide (env_idle env = CPU_NOT_IDLE) then true
  else if negb (sum_nr_running sgs =? 0) &&
          sched_asym_prefer (dst_cpu env) (asym_prefer_cpu (groups k sg)) then
    match busiest sds with
    | None => true
    | Some b => sched_asym_prefer (asym_prefer_cpu (groups k b)) (asym_prefer_cpu (groups k sg))
    end
  else false.

Definition fbq_classify_group (sgs : sg_lb_stats) : fbq_type := fbq_all.
Definition fbq_classify_rq (k : kernel) (cpu : Z) : fbq_type := fbq_regular.

(** One round of the loop over the groups of the domain. *)
Definition sd_add_group (env : lb_env) (prefer_sibling : bool) (load_idx : Z)
    (acc : kernel * sd_lb_stats * bool) (sg : Z) : kernel * sd_lb_stats * bool :=
  let '(k, sds, overload) := acc in
  let sd := domains k (env_sd env) in
  let local_group := bool_decide (dst_cpu env ∈ sched_group_span (groups k sg)) in
  let k := if local_group && (negb (bool_decide (env_idle env = CPU_NEWLY_IDLE)) ||
                              time_after_eq (jiffies k) (next_update (sgc_of k sg)))
           then update_group_capacity (env_sd env) (dst_cpu env) k else k in
  let '(sgs, overload) := update_sg_lb_stats env sg load_idx local_group overload k in
  let '(sds, sgs) :=
    if local_group then (sds <| local := Some sg |> <| local_stat := sgs |>, sgs)
    else
      let l := local_stat sds in
      let sgs := if prefer_sibling && bool_decide (is_Some (local sds)) && group_has_capacity sd l &&
                    (u32 (sum_nr_running l + 1) <? sum_nr_running sgs)
                 then let sgs := sgs <| group_no_capacity := true |> in
                      sgs <| sgs_group_type := group_classify k sg sgs |>
                 else sgs in
      if update_sd_pick_busiest env sds sg sgs k
      then (sds <| busiest := Some sg |> <| busiest_stat := sgs |>, sgs) else (sds, sgs) in
  (k, sds <| total_running ::= fun x => u64 (x + sum_nr_running sgs) |>
          <| total_load ::= fun x => u64 (x + group_load sgs) |>
          <| total_capacity ::= fun x => u64 (x + group_capacity sgs) |>, overload).

Definition update_sd_lb_stats (env : lb_env) (sds : sd_lb_stats) (k : kernel)
    : kernel * lb_env * sd_lb_stats :=
  let sd := domains k (env_sd env) in
  let prefer_sibling := match sd_child sd with
                        | Some c => has_flag (sd_flags (domains k c)) SD_PREFER_SIBLING
                        | None => false
                        end in
  let load_idx := get_sd_load_idx sd (env_idle env) in
  let '(k, sds, ovl) := foldl (sd_add_group env prefer_sibling load_idx) (k, sds, false) (sd_groups sd) in
  let env := if has_flag (sd_flags sd) SD_NUMA
             then env <| env_fbq_type := fbq_classify_group (busiest_stat sds) |> else env in
  let k := match sd_parent sd with
           | None => k <| rd ::= fun r => r <| overload := ovl |> |>
           | Some _ => k
           end in
  (k, env, sds).
End Stats.

(** ** The imbalance *)

Section Imbalance.
Context `{BalanceEnv}.

Definition DIV_ROUND_CLOSEST (x d : Z) : Z := u64 (x + d / 2) / d.

(** [Some] of the imbalance when packing is required. *)
Definition check_asym_packing (env : lb_env) (sds : sd_lb_stats) (k : kernel) : option Z :=
  if negb (has_flag (sd_flags (domains k (env_sd env))) SD_ASYM_PACKING) then None
  else if bool_decide (env_idle env = CPU_NOT_IDLE) then None
  else match busiest sds with
       | None => None
       | Some b =>
           if sched_asym_prefer (asym_prefer_cpu (groups k b)) (dst_cpu env) then None
           else Some (s64 (DIV_ROUND_CLOSEST
             (u64 (avg_load (busiest_stat sds) * group_capacity (busiest_stat sds))) SCHED_CAPACITY_SCALE))
       end.

Definition fix_small_imbalance (env : lb_env) (sds : sd_lb_stats) (k : kernel) : lb_env :=
  let l := local_stat sds in
  let b := busiest_stat sds in
  let '(l, imbn) :=
    if sum_nr_running l =? 0 then (l <| load_per_task := cpu_avg_load_per_task k (dst_cpu env) |>, 2)
    else (l, if load_per_task l <? load_per_task b then 1 else 2) in
  let scaled := u64 (load_per_task b * SCHED_CAPACITY_SCALE) / group_capacity b in
  if u64 (avg_load l + u64 (scaled * imbn)) <=? u64 (avg_load b + scaled)
  then env <| imbalance := s64 (load_per_task b) |>
  else
    let capa_now := u64 (u64 (group_capacity b * Z.min (load_per_task b) (avg_load b)) +
                         u64 (group_capacity l * Z.min (load_per_task l) (avg_load l)))
                    / SCHED_CAPACITY_SCALE in
    let capa_move := if scaled <? avg_load b
                     then u64 (group_capacity b * Z.min (load_per_task b) (avg_load b - scaled)) else 0 in
    let tmp := if u64 (avg_load b * group_capacity b) <? u64 (load_per_task b * SCHED_CAPACITY_SCALE)
               then u64 (avg_load b * group_capacity b) / group_capacity l
               else u64 (load_per_task b * SCHED_CAPACITY_SCALE) / group_capacity l in
    let capa_move := u64 (capa_move + u64 (group_capacity l * Z.min (load_per_task l) (u64 (avg_load l + tmp))))
                     / SCHED_CAPACITY_SCALE in
    if capa_now <? capa_move then env <| imbalance := s64 (load_per_task b) |> else env.

Definition load_above_capacity (sds : sd_lb_stats) : Z :=
  let b := busiest_stat sds in
  if bool_decide (sgs_group_type b = group_overloaded) &&
     bool_decide (sgs_group_type (local_stat sds) = group_overloaded) then
    let above := u64 (sum_nr_running b * SCHED_CAPACITY_SCALE) in
    if group_capacity b <? above
    then u64 ((above - group_capacity b) * scale_load_down NICE_0_LOAD) / group_capacity b
    else U64_MAX
  else U64_MAX.

Definition calculate_imbalance (env : lb_env) (sds : sd_lb_stats) (k : kernel) : lb_env :=
  let sds := if bool_decide (sgs_group_type (busiest_stat sds) = group_imbalanced)
             then sds <| busiest_stat ::= fun b =>
                    b <| load_per_task ::= fun x => Z.min x (sds_avg_load sds) |> |> else sds in
  let b := busiest_stat sds in
  let l := local_stat sds in
  if (avg_load b <=? sds_avg_load sds) || (sds_avg_load sds <=? avg_load l)
  then fix_small_imbalance (env <| imbalance := 0 |>) sds k
  else
    let max_pull := Z.min (avg_load b - sds_avg_load sds) (load_above_capacity sds) in
    let imb := Z.min (u64 (max_pull * group_capacity b))
                     (u64 ((sds_avg_load sds - avg_load l) * group_capacity l)) / SCHED_CAPACITY_SCALE in
    let env := env <| imbalance := s64 imb |> in
    if u64 (imbalance env) <? load_per_task b then fix_small_imbalance env sds k else env.

Definition find_busiest_group (env : lb_env) (k : kernel) : kernel * lb_env * option Z :=
  let '(k, env, sds) := update_sd_lb_stats env init_sd_lb_stats k in
  let sd := domains k (env_sd env) in
  let balanced := (k, env <| imbalance := 0 |>, None) in
  match check_asym_packing env sds k with
  | Some imb => (k, env <| imbalance := imb |>, busiest sds)
  | None =>
      let l := local_stat sds in
      let b := busiest_stat sds in
      if bool_decide (busiest sds = None) || (sum_nr_running b =? 0) then balanced
      else
        let sds := sds <| sds_avg_load := u64 (SCHED_CAPACITY_SCALE * total_load sds) / total_capacity sds |> in
        let force := (k, calculate_imbalance env sds k, busiest sds) in
        if bool_decide (sgs_group_type b = group_imbalanced) then force
        else if bool_decide (env_idle env = CPU_NEWLY_IDLE) && group_has_capacity sd l && group_no_capacity b
        then force
        else if avg_load b <=? avg_load l then balanced
        else if sds_avg_load sds <=? avg_load l then balanced
        else if bool_decide (env_idle env = CPU_IDLE) then
          if negb (bool_decide (sgs_group_type b = group_overloaded)) &&
             (idle_cpus l <=? u32 (idle_cpus b + 1)) then balanced else force
        else if u64 (100 * avg_load b) <=? u64 (imbalance_pct sd * avg_load l) then balanced
        else force
  end.

(** The loop of [find_busiest_queue]: the queue, its load and its capacity. *)
Definition busier_queue (env : lb_env) (k : kernel) (acc : option Z * Z * Z) (i : Z) : option Z * Z * Z :=
  let '(b, busiest_load, busiest_capacity) := acc in
  let capacity := capacity_of k i in
  let wl := weighted_cpuload k i in
  if fbq_num (env_fbq_type env) <? fbq_num (fbq_classify_rq k i) then acc
  else if (nr_running (rqs k i) =? 1) && (u64 (imbalance env) <? wl) &&
          negb (check_cpu_capacity k i (domains k (env_sd env))) then acc
  else if u64 (busiest_load * capacity) <? u64 (wl * busiest_capacity) then (Some i, wl, capacity)
  else acc.

Definition find_busiest_queue (env : lb_env) (g : Z) (k : kernel) : option Z :=
  (foldl (busier_queue env k) (None, 0, 1)
    (for_each_cpu k (sched_group_span (groups k g) ∩ env_cpus env))).1.1.
End Imbalance.

(** ** What the imbalance means *)

(** Statistics whose products fit in 64 bits. *)
Definition sds_fit (sds : sd_lb_stats) : Prop :=
  let b := busiest_stat sds in let l := local_stat sds in
  0 <= avg_load b < 2 ^ 32 /\ 0 <= avg_load l < 2 ^ 32 /\ 0 <= sds_avg_load sds < 2 ^ 32 /\
  0 < group_capacity b < 2 ^ 31 /\ 0 < group_capacity l < 2 ^ 31 /\
  0 <= load_per_task b < 2 ^ 63 /\ 0 <= sum_nr_running b < 2 ^ 32.

(** The load that can be moved without taking the busiest group below, or the
    local group above, the average load of the domain. *)
Definition within_average (sds : sd_lb_stats) (load : Z) : Prop :=
  load * SCHED_CAPACITY_SCALE <= (avg_load (busiest_stat sds) - sds_avg_load sds) * group_capacity (busiest_stat sds) /\
  load * SCHED_CAPACITY_SCALE <= (sds_avg_load sds - avg_load (local_stat sds)) * group_capacity (local_stat sds).

Section ImbalanceSpec.
Context `{BalanceEnv}.

Lemma fix_small_imbalance_spec env sds k :
  let env' := fix_small_imbalance env sds k in
  env' = env \/ env' = env <| imbalance := s64 (load_per_task (busiest_stat sds)) |>.
Proof.
  unfold fix_small_imbalance. cbv zeta.
  destruct (if sum_nr_running _ =? 0 then _ else _) as [l imbn]. destruct (_ <=? _); [by right|].
  destruct (_ <? u64 (_ + _) / _); [by right|by left].
Qed.

Lemma load_above_nonneg sds : sds_fit sds -> 0 <= load_above_capacity sds.
Proof.
  intros (_ & _ & _ & Hb & _). unfold load_above_capacity. destruct (_ && _); [|done].
  destruct (_ <? _); [|done]. apply Z.div_pos; [apply u64_range|lia].
Qed.

(** The imbalance to be moved is at most what brings the busiest group down
    to the average load of the domain and the local group up to it, except that
    it may be raised to the load of one average task of the busiest group, so
    that moving anything becomes possible; when one of the groups is on the
    wrong side of the average it is nothing or that one task. *)
Theorem calculate_imbalance_bounded env sds k :
  sds_fit sds ->
  let b := busiest_stat sds in
  let one := if bool_decide (sgs_group_type b = group_imbalanced)
             then Z.min (load_per_task b) (sds_avg_load sds) else load_per_task b in
  let imb := imbalance (calculate_imbalance env sds k) in
  imb = one \/
  (0 <= imb /\ within_average sds imb /\ sds_avg_load sds < avg_load b /\ avg_load (local_stat sds) < sds_avg_load sds) \/
  (imb = 0 /\ (avg_load b <= sds_avg_load sds \/ sds_avg_load sds <= avg_load (local_stat sds))).
Proof.
  intros Hfit b one imb. unfold imb, calculate_imbalance. clear imb.
  set (sds1 := if bool_decide _ then _ else sds).
  assert (E1 : avg_load (busiest_stat sds1) = avg_load b /\ group_capacity (busiest_stat sds1) = group_capacity b /\
    local_stat sds1 = local_stat sds /\ sds_avg_load sds1 = sds_avg_load sds /\
    load_per_task (busiest_stat sds1) = one /\ sds_fit sds1).
  { unfold sds1, one. fold b. case_bool_decide; [|done]. split_and!; try done.
    unfold sds_fit in *. subst b. cbn -[Z.pow]. lia. }
  destruct E1 as (Ea & Ec & El & Es & Eo & Hfit1). clearbody sds1.
  pose proof (load_above_nonneg sds1 Hfit1) as Habove. set (lac := load_above_capacity sds1) in *. clearbody lac.
  unfold sds_fit in Hfit1. rewrite Ea, Ec, El, Es, Eo in Hfit1. cbv zeta.
  rewrite Ea, Ec, El, Es. set (av := sds_avg_load sds) in *. set (l := local_stat sds) in *.
  destruct Hfit1 as (Hab & Hal & Hav & Hcb & Hcl & Hone & _).
  assert (Hs1 : s64 one = one) by (apply s64_id; lia).
  destruct (Z.leb_spec (avg_load b) av) as [Hb|Hb]; cbn [orb].
  { destruct (fix_small_imbalance_spec (env <| imbalance := 0 |>) sds1 k) as [-> | ->]; cbn; rewrite ?Eo; auto. }
  destruct (Z.leb_spec av (avg_load l)) as [Hl|Hl].
  { destruct (fix_small_imbalance_spec (env <| imbalance := 0 |>) sds1 k) as [-> | ->]; cbn; rewrite ?Eo; auto. }
  set (mp := Z.min (avg_load b - av) lac). set (m := Z.min (u64 (mp * _)) _).
  assert (Hmp : 0 <= mp <= avg_load b - av) by lia.
  assert (Hm : 0 <= m < 2 ^ 64 /\ m <= (avg_load b - av) * group_capacity b /\ m <= (av - avg_load l) * group_capacity l).
  { unfold m. rewrite !u64_id by nia. nia. }
  assert (Hd : 0 <= m / SCHED_CAPACITY_SCALE < 2 ^ 63 /\ m / SCHED_CAPACITY_SCALE * SCHED_CAPACITY_SCALE <= m).
  { change SCHED_CAPACITY_SCALE with 1024. split; [split; [apply Z.div_pos; lia|apply Z.div_lt_upper_bound; lia]|].
    pose proof (Z.mul_div_le m 1024). lia. }
  set (imb := m / SCHED_CAPACITY_SCALE) in *.
  assert (Hin : 0 <= imb /\ within_average sds imb /\ av < avg_load b /\ avg_load l < av).
  { unfold within_average. fold b l av. lia. }
  destruct (_ <? load_per_task _).
  - destruct (fix_small_imbalance_spec (env <| imbalance := s64 imb |>) sds1 k) as [-> | ->]; cbn; rewrite ?Eo; [|auto].
    rewrite s64_id by lia. auto.
  - cbn. rewrite s64_id by lia. auto.
Qed.
End ImbalanceSpec.

(** ** The busiest queue *)

Section BusiestQueue.
Context `{BalanceEnv} (env : lb_env) (k : kernel).

(** Queues with a single task are left alone when the task is too large to be
    moved, unless their CPU lost capacity to other classes. *)
Definition movable (i : Z) : bool :=
  negb ((nr_running (rqs k i) =? 1) && (u64 (imbalance env) <? weighted_cpuload k i) &&
        negb (check_cpu_capacity k i (domains k (env_sd env)))).

(** What the loop knows after the CPUs in [l]. *)
Definition busiest_among (l : list Z) (acc : option Z * Z * Z) : Prop :=
  let '(b, load, cap) := acc in
  0 <= load < 2 ^ 32 /\ 0 < cap < 2 ^ 32 /\
  (forall j, j ∈ l -> movable j = true -> weighted_cpuload k j * cap <= load * capacity_of k j) /\
  match b with
  | Some i => i ∈ l /\ movable i = true /\ load = weighted_cpuload k i /\ cap = capacity_of k i /\ 0 < load
  | None => load = 0
  end.

Lemma busier_queue_step l acc i :
  0 <= weighted_cpuload k i < 2 ^ 32 -> 0 < capacity_of k i < 2 ^ 32 ->
  (forall j, j ∈ l -> 0 < capacity_of k j) -> busiest_among l acc ->
  busiest_among (l ++ [i]) (busier_queue env k acc i).
Proof.
  destruct acc as [[b load] cap]. intros Hwl Hcap Hpos (Hl & Hc & Hmax & Hb). unfold busier_queue.
  assert (Hkeep : movable i = false \/ weighted_cpuload k i * cap <= load * capacity_of k i ->
    busiest_among (l ++ [i]) (b, load, cap)).
  { intros Hor. split_and!; try done; [lia..| |].
    - intros j [Hj| ->%list_elem_of_singleton]%elem_of_app Hm; [by apply Hmax|]. destruct Hor as [Hf|]; [congruence|done].
    - destruct b; [|done]. split; [|apply Hb]. apply elem_of_app. left. apply Hb. }
  assert (Hfbq : (fbq_num (env_fbq_type env) <? fbq_num (fbq_classify_rq k i)) = false) by by destruct (env_fbq_type env).
  rewrite Hfbq. destruct (_ && _ && _) eqn:Em; [apply Hkeep; left; unfold movable; by rewrite Em|].
  rewrite !u64_id by nia. destruct (Z.ltb_spec (load * capacity_of k i) (weighted_cpuload k i * cap)) as [Hlt|Hge];
    [|apply Hkeep; by right].
  split_and!; try lia.
  - intros j [Hj| ->%list_elem_of_singleton]%elem_of_app Hm; [|done].
    specialize (Hmax j Hj Hm). specialize (Hpos j Hj).
    apply (Z.mul_le_mono_pos_r _ _ cap); [lia|]. nia.
  - set_solver.
  - unfold movable. by rewrite Em.
Qed.

Lemma busiest_loop l done acc :
  (forall j, j ∈ done ++ l -> 0 <= weighted_cpuload k j < 2 ^ 32 /\ 0 < capacity_of k j < 2 ^ 32) ->
  busiest_among done acc -> busiest_among (done ++ l) (foldl (busier_queue env k) acc l).
Proof.
  revert done acc. induction l as [|i l IH]; intros dn acc Hb Ha; cbn; [by rewrite app_nil_r|].
  rewrite cons_middle, app_assoc. apply IH.
  - intros j Hj. apply Hb. by rewrite <- app_assoc in Hj.
  - apply busier_queue_step; [apply Hb; set_solver..| |done]. intros j Hj. apply Hb. set_solver.
Qed.

(** [find_busiest_queue] answers with the CPU of the group whose load is
    greatest relative to its capacity, among those from which something can be
    moved, and with none only if none of them has any load. *)
Theorem find_busiest_queue_max g :
  let cpus := for_each_cpu k (sched_group_span (groups k g) ∩ env_cpus env) in
  (forall j, j ∈ cpus -> 0 <= weighted_cpuload k j < 2 ^ 32 /\ 0 < capacity_of k j < 2 ^ 32) ->
  match find_busiest_queue env g k with
  | Some i => i ∈ cpus /\ movable i = true /\ 0 < weighted_cpuload k i /\
      forall j, j ∈ cpus -> movable j = true ->
        weighted_cpuload k j * capacity_of k i <= weighted_cpuload k i * capacity_of k j
  | None => forall j, j ∈ cpus -> movable j = true -> weighted_cpuload k j = 0
  end.
Proof.
  intros cpus Hb. unfold find_busiest_queue. fold cpus.
  assert (H0 : busiest_among [] (None, 0, 1)).
  { split_and!; try done. intros j Hj. by apply not_elem_of_nil in Hj. }
  pose proof (busiest_loop cpus [] (None, 0, 1) Hb H0) as Hf. cbn [app] in Hf.
  destruct (foldl _ _ cpus) as [[b load] cap]. destruct Hf as (Hl & Hc & Hmax & Hbb). cbn [fst].
  destruct b as [i|].
  - destruct Hbb as (Hi & Hm & -> & -> & Hp). by split_and!.
  - intros j Hj Hm. specialize (Hmax j Hj Hm). specialize (Hb j Hj). subst load. nia.
Qed.
End BusiestQueue.

(** ** Capacity of overlapping groups *)

Definition sd_capacity (k : kernel) (cpu : Z) : Z :=
  match rq_sd (rqs k cpu) with
  | None => capacity_of k cpu
  | Some d => sgc_capacity (sgc_of k (first_group k d))
  end.

Lemma overlap_min_stays k l c m :
  (forall j, j ∈ l -> 0 <= sd_capacity k j) -> 0 <= c -> c + sum_of (sd_capacity k) l < 2 ^ 64 -> m <= c ->
  (foldl (overlap_capacity k) (c, m) l).2 = m.
Proof.
  revert c. induction l as [|i l IH]; intros c Hl Hc Hs Hm; [done|]. cbn [foldl].
  assert (Hi : 0 <= sd_capacity k i) by (apply Hl; by left).
  assert (Hr : 0 <= sum_of (sd_capacity k) l) by (apply sum_of_nonneg; intros; apply Hl; by right).
  change (sum_of (sd_capacity k) (i :: l)) with (sd_capacity k i + sum_of (sd_capacity k) l) in Hs.
  assert (E : overlap_capacity k (c, m) i = (c + sd_capacity k i, m)).
  { unfold overlap_capacity. fold (sd_capacity k i). rewrite u64_id by lia. f_equal. lia. }
  rewrite E. apply IH; [intros; apply Hl; by right|lia..].
Qed.

(** The minimum is taken over the partial sums, so that it is the capacity of
    the first CPU rather than the smallest one. *)
Lemma overlap_min_is_first k i l :
  (forall j, j ∈ i :: l -> 0 <= sd_capacity k j) -> sum_of (sd_capacity k) (i :: l) < 2 ^ 64 ->
  (foldl (overlap_capacity k) (0, U64_MAX) (i :: l)).2 = sd_capacity k i.
Proof.
  intros Hl Hs. cbn [foldl].
  assert (Hi : 0 <= sd_capacity k i) by (apply Hl; by left).
  assert (Hr : 0 <= sum_of (sd_capacity k) l) by (apply sum_of_nonneg; intros; apply Hl; by right).
  change (sum_of (sd_capacity k) (i :: l)) with (sd_capacity k i + sum_of (sd_capacity k) l) in Hs.
  assert (E : overlap_capacity k (0, U64_MAX) i = (sd_capacity k i, sd_capacity k i)).
  { unfold overlap_capacity, U64_MAX. fold (sd_capacity k i). rewrite Z.add_0_l, u64_id by lia. f_equal. lia. }
  rewrite E. apply overlap_min_stays; [intros; apply Hl; by right|lia..].
Qed.

(** ** Examples *)

#[export] Instance demo_balance_env : BalanceEnv :=
  {| sysctl_sched_migration_cost := 500000; sysctl_sched_nr_migrate := 32;
     feat_CACHE_HOT_BUDDY := true; feat_LB_MIN := false; feat_LB_BIAS := true;
     config_PREEMPT := false; sched_domain_level_max := 1; config_NR_CPUS := 2; msecs_to_jiffies m := (m + 9) / 10;
     group_balance_cpu k g := default 0 (head (for_each_cpu k (sgc_cpumask (sgc_of k g))));
     balancing_trylock _ := true; other_cpus := update_rq_clock 1 |}.

(** A group with three tasks next to an idle one. *)
Lemma calculate_imbalance_bounded_witness :
  let b := mkSgs 3072 3072 3072 1024 1024 1024 3 0 1 group_overloaded true in
  let l := mkSgs 0 0 0 0 1024 0 0 1 1 group_other false in
  let sds := mkSds (Some 1) (Some 0) 3 3072 2048 1536 b l in
  let env := mkLbEnv 0 1 0 {[0]} 0 CPU_IDLE 0 {[0; 1]} 0 0 32 3 fbq_all [] in
  let imb := imbalance (calculate_imbalance env sds (demo_kernel fair_sched_class SCHED_NORMAL 120)) in
  imb = 1536 /\ within_average sds imb.
Proof.
  intros b l sds env imb.
  destruct (calculate_imbalance_bounded env sds (demo_kernel fair_sched_class SCHED_NORMAL 120)) as [Hi|[Hi|Hi]].
  - vm_compute. repeat split; congruence.
  - exfalso. vm_compute in Hi. congruence.
  - split; [vm_compute; reflexivity|apply Hi].
  - exfalso. vm_compute in Hi. destruct Hi. congruence.
Defined.

(** Two CPUs with different loads. *)
Definition busy_demo : kernel :=
  upd_cfs 0 (fun q => q <| runnable_load_avg := 500 |>)
    (upd_cfs 1 (fun q => q <| runnable_load_avg := 900 |>) (demo_kernel fair_sched_class SCHED_NORMAL 120
      <| groups := fun _ => mkSg 2 0 0 {[0; 1]} |>)).

Lemma find_busiest_queue_max_witness :
  let env := mkLbEnv 0 1 0 {[0]} 0 CPU_IDLE 0 {[0; 1]} 0 0 32 3 fbq_all [] in
  find_busiest_queue env 0 busy_demo = Some 1 /\ movable env busy_demo 1 = true.
Proof.
  intros env. pose proof (find_busiest_queue_max env busy_demo 0) as Hf. cbv zeta in Hf.
  assert (Ec : for_each_cpu busy_demo (sched_group_span (groups busy_demo 0) ∩ env_cpus env) = [0; 1])
    by (vm_compute; reflexivity).
  assert (Eq : find_busiest_queue env 0 busy_demo = Some 1) by (vm_compute; reflexivity).
  rewrite Ec, Eq in Hf. split; [exact Eq|]. destruct Hf as (_ & Hm & _); [|exact Hm].
  intros j Hj. repeat (apply elem_of_cons in Hj as [->|Hj]; [vm_compute; repeat split; congruence|]).
  exfalso. exact (not_elem_of_nil _ Hj).
Defined.
