(* ===== verification/FairBalance.v ===== *)
(** * Load balancing (fair.c)

    Moving tasks between the queues of two CPUs and the walks over the
    scheduling domains that decide when.  Locks are released between detaching
    tasks from one queue and attaching them to the other; there, and before each
    attempt, other CPUs act ([other_cpus]).  [None] is a failed [BUG_ON] or a
    loop that ran out of rounds; [FairBalanceInv] shows that neither happens. *)

From S2P Require Import Prelude SchedTypes Core Wrr CorePolicy RtBandwidth FairMath FairPelt.
From S2P Require Import FairQueue FairBusiest.

Section Balance.
Context `{FairEnv} `{PeltTable} `{QueueOps} `{BalanceEnv}.

(** [schedstat_inc] on a counter of a task or of a domain. *)
Definition stat_inc (p : Z) (f : sched_statistics -> sched_statistics) (k : kernel) : kernel :=
  if schedstat_enabled k then upd_stat p f k else k.
Definition sd_stat (d : Z) (f : sd_statistics -> sd_statistics) (k : kernel) : kernel :=
  if schedstat_enabled k then upd_sd d (fun s => s <| sd_stats ::= f |>) k else k.

(** An entry of a counter array. *)
Definition bump (i : cpu_idle_type) (n : Z) (f : cpu_idle_type -> Z) : cpu_idle_type -> Z :=
  fun j => if decide (i = j) then u32 (f j + n) else f j.

(** ** May a task be moved? *)

Definition task_hot (p : Z) (env : lb_env) (k : kernel) : bool :=
  let t := tasks k p in
  let q := cfs_of k (cfs_rq_of k p) in
  if negb (bool_decide (class_of t = fair_sched_class)) then false
  else if policy t =? SCHED_IDLE then false
  else if feat_CACHE_HOT_BUDDY && negb (nr_running (rqs k (dst_cpu env)) =? 0) &&
          (bool_decide (cfs_next q = Some p) || bool_decide (cfs_last q = Some p)) then true
  else if sysctl_sched_migration_cost =? UINT_MAX then true
  else if sysctl_sched_migration_cost =? 0 then false
  else s64 (rq_clock_task k (src_cpu env) - exec_start (se t)) <? sysctl_sched_migration_cost.

Definition migrate_degrades_locality (p : Z) (env : lb_env) (k : kernel) : Z := -1.

Definition can_migrate_task (p : Z) (env : lb_env) (k : kernel) : kernel * lb_env * bool :=
  let allowed := cpus_allowed (tasks k p) in
  if negb (bool_decide (dst_cpu env ∈ allowed)) then
    let k := stat_inc p (fun s => s <| nr_failed_migrations_affine ::= fun n => u64 (n + 1) |>) k in
    let env := env <| env_flags ::= fun f => Z.lor f LBF_SOME_PINNED |> in
    if bool_decide (env_idle env = CPU_NEWLY_IDLE) || has_flag (env_flags env) LBF_DST_PINNED
    then (k, env, false)
    else
      match list_find (fun cpu => cpu ∈ allowed) (for_each_cpu k (dst_grpmask env ∩ env_cpus env)) with
      | Some (_, cpu) =>
          (k, env <| env_flags ::= fun f => Z.lor f LBF_DST_PINNED |> <| new_dst_cpu := cpu |>, false)
      | None => (k, env, false)
      end
  else
    let env := env <| env_flags ::= fun f => Z.ldiff f LBF_ALL_PINNED |> in
    if task_running k p then
      (stat_inc p (fun s => s <| nr_failed_migrations_running ::= fun n => u64 (n + 1) |>) k, env, false)
    else
      let hot := migrate_degrades_locality p env k in
      let hot := if hot =? -1 then (if task_hot p env k then 1 else 0) else hot in
      let sd := domains k (env_sd env) in
      if (hot <=? 0) || (cache_nice_tries sd <? nr_balance_failed sd) then
        let k := if hot =? 1 then
            stat_inc p (fun s => s <| nr_forced_migrations ::= fun n => u64 (n + 1) |>)
              (sd_stat (env_sd env) (fun s => s <| lb_hot_gained ::= bump (env_idle env) 1 |>) k)
          else k in
        (k, env, true)
      else
        (stat_inc p (fun s => s <| nr_failed_migrations_hot ::= fun n => u64 (n + 1) |>) k, env, false).

(** ** Detaching and attaching *)

Definition detach_task (p : Z) (env : lb_env) (k : kernel) : kernel :=
  let k := upd_task p (fun t => t <| on_rq := TASK_ON_RQ_MIGRATING |>) k in
  let k := deactivate_task (src_cpu env) p DEQUEUE_NOCLOCK k in
  set_task_cpu p (dst_cpu env) k.

(** The walk of [detach_one_task] over the tasks of the queue. *)
Fixpoint detach_first (l : list Z) (env : lb_env) (k : kernel) : kernel * lb_env * option Z :=
  match l with
  | [] => (k, env, None)
  | p :: l =>
      let '(k, env, can) := can_migrate_task p env k in
      if negb can then detach_first l env k
      else
        let k := detach_task p env k in
        (sd_stat (env_sd env) (fun s => s <| lb_gained ::= bump (env_idle env) 1 |>) k, env, Some p)
  end.
Definition detach_one_task (env : lb_env) (k : kernel) : kernel * lb_env * option Z :=
  detach_first (cfs_tasks (rqs k (src_cpu env))) env k.

Definition sched_nr_migrate_break : Z := 32.

(** A task that stays goes to the end of the list. *)
Definition rotate_task (c p : Z) (k : kernel) : kernel :=
  upd_rq c (fun r => r <| cfs_tasks ::= fun l => list_del p l ++ [p] |>) k.

(** The loop of [detach_tasks]. *)
Fixpoint detach_loop (fuel : nat) (env : lb_env) (detached : Z) (k : kernel) : option (kernel * lb_env * Z) :=
  match fuel with
  | O => None
  | S n =>
      match cfs_tasks (rqs k (src_cpu env)) with
      | [] => Some (k, env, detached)
      | p :: _ =>
          if negb (bool_decide (env_idle env = CPU_NOT_IDLE)) && (nr_running (rqs k (src_cpu env)) <=? 1)
          then Some (k, env, detached)
          else
            let env := env <| loop ::= fun l => u32 (l + 1) |> in
            if loop_max env <? loop env then Some (k, env, detached)
            else if loop_break env <? loop env then
              Some (k, env <| loop_break ::= fun b => u32 (b + sched_nr_migrate_break) |>
                           <| env_flags ::= fun f => Z.lor f LBF_NEED_BREAK |>, detached)
            else
              let '(k, env, can) := can_migrate_task p env k in
              let load := task_h_load k p in
              if negb can ||
                 (feat_LB_MIN && (load <? 16) && (nr_balance_failed (domains k (env_sd env)) =? 0)) ||
                 (u64 (imbalance env) <? load / 2)
              then detach_loop n env detached (rotate_task (src_cpu env) p k)
              else
                let k := detach_task p env k in
                let env := env <| env_tasks ::= cons p |> <| imbalance ::= fun i => s64 (i - load) |> in
                if config_PREEMPT && bool_decide (env_idle env = CPU_NEWLY_IDLE)
                then Some (k, env, detached + 1)
                else if imbalance env <=? 0 then Some (k, env, detached + 1)
                else detach_loop n env (detached + 1) k
      end
  end.

Definition detach_tasks (env : lb_env) (k : kernel) : option (kernel * lb_env * Z) :=
  if imbalance env <=? 0 then Some (k, env, 0)
  else
    match detach_loop (S (Z.to_nat (loop_max env - loop env))) env 0 k with
    | None => None
    | Some (k, env, detached) =>
        Some (sd_stat (env_sd env) (fun s => s <| lb_gained ::= bump (env_idle env) detached |>) k, env, detached)
    end.

(** [None] is the [BUG_ON(task_rq(p) != rq)]. *)
Definition attach_task (c p : Z) (k : kernel) : option kernel :=
  if negb (task_cpu (tasks k p) =? c) then None
  else
    let k := activate_task c p ENQUEUE_NOCLOCK k in
    let k := upd_task p (fun t => t <| on_rq := TASK_ON_RQ_QUEUED |>) k in
    Some (check_preempt_curr c p 0 k).

Definition attach_one_task (c p : Z) (k : kernel) : option kernel := attach_task c p (update_rq_clock c k).

Fixpoint attach_list (c : Z) (l : list Z) (k : kernel) : option kernel :=
  match l with
  | [] => Some k
  | p :: l => match attach_task c p k with
              | Some k => attach_list c l k
              | None => None
              end
  end.

Definition attach_tasks (env : lb_env) (k : kernel) : option (kernel * lb_env) :=
  match attach_list (dst_cpu env) (env_tasks env) (update_rq_clock (dst_cpu env) k) with
  | Some k => Some (k, env <| env_tasks := [] |>)
  | None => None
  end.

Definition update_blocked_averages (cpu : Z) (k : kernel) : kernel :=
  let k := update_rq_clock cpu k in
  (update_cfs_rq_load_avg (rq_clock_task k cpu) cpu k).1.

(** ** One domain *)

Definition MAX_PINNED_INTERVAL : Z := 512.

Definition need_active_balance (env : lb_env) (k : kernel) : bool :=
  let sd := domains k (env_sd env) in
  if bool_decide (env_idle env = CPU_NEWLY_IDLE) && has_flag (sd_flags sd) SD_ASYM_PACKING &&
     sched_asym_prefer (dst_cpu env) (src_cpu env) then true
  else if negb (bool_decide (env_idle env = CPU_NOT_IDLE)) && (h_nr_running (cfs_of k (src_cpu env)) =? 1) &&
          check_cpu_capacity k (src_cpu env) sd &&
          (u64 (capacity_of k (src_cpu env) * imbalance_pct sd) <? u64 (capacity_of k (dst_cpu env) * 100))
  then true
  else u32 (cache_nice_tries sd + 2) <? nr_balance_failed sd.

Definition should_we_balance (env : lb_env) (k : kernel) : bool :=
  let sg := first_group k (env_sd env) in
  if negb (bool_decide (dst_cpu env ∈ env_cpus env)) then false
  else if bool_decide (env_idle env = CPU_NEWLY_IDLE) then true
  else
    let balance_cpu :=
      match list_find (fun cpu => idle_cpu k cpu = true)
              (for_each_cpu k (sgc_cpumask (sgc_of k sg) ∩ env_cpus env)) with
      | Some (_, cpu) => cpu
      | None => group_balance_cpu k sg
      end in
    balance_cpu =? dst_cpu env.

(** The part of [load_balance] from the label [more_balance] on: detach, attach,
    again after a break, and again for another CPU of the group. *)
Fixpoint more_balance (fuel : nat) (env : lb_env) (ld_moved : Z) (k : kernel) : option (kernel * lb_env * Z) :=
  match fuel with
  | O => None
  | S n =>
      let k := update_rq_clock (src_cpu env) (other_cpus k) in
      match detach_tasks env k with
      | None => None
      | Some (k, env, cur_ld_moved) =>
          let k := other_cpus k in
          match (if negb (cur_ld_moved =? 0) then attach_tasks env k else Some (k, env)) with
          | None => None
          | Some (k, env) =>
              let ld_moved := ld_moved + cur_ld_moved in
              if has_flag (env_flags env) LBF_NEED_BREAK then
                more_balance n (env <| env_flags ::= fun f => Z.ldiff f LBF_NEED_BREAK |>) ld_moved k
              else if has_flag (env_flags env) LBF_DST_PINNED && (0 <? imbalance env) then
                more_balance n
                  (env <| env_cpus ::= fun s => s ∖ {[dst_cpu env]} |> <| dst_cpu := new_dst_cpu env |>
                       <| env_flags ::= fun f => Z.ldiff f LBF_DST_PINNED |> <| loop := 0 |>
                       <| loop_break := sched_nr_migrate_break |>) ld_moved k
              else Some (k, env, ld_moved)
          end
      end
  end.

(** How the attempts of [load_balance] end. *)
Inductive lb_result :=
  | out_balanced (continue_balancing : bool)
  | out_all_pinned
  | lb_tried (ld_moved : Z).

(** Flags the groups of the parent when affinity kept tasks from moving. *)
Definition flag_parent (sd_parent : option Z) (env : lb_env) (k : kernel) : kernel :=
  match sd_parent with
  | Some d => if has_flag (env_flags env) LBF_SOME_PINNED && (0 <? imbalance env)
              then upd_sgc (sgc (groups k (first_group k d))) (fun c => c <| sgc_imbalance := true |>) k
              else k
  | None => k
  end.

(** The part of [load_balance] from the label [redo] on; [rounds] bounds the
    rounds of [more_balance]. *)
Fixpoint redo (fuel rounds : nat) (sdp : option Z) (env : lb_env) (k : kernel)
    : option (kernel * lb_env * lb_result) :=
  match fuel with
  | O => None
  | S n =>
      let idle := env_idle env in
      if negb (should_we_balance env k) then Some (k, env, out_balanced false)
      else
        let '(k, env, group) := find_busiest_group env k in
        match group with
        | None => Some (sd_stat (env_sd env) (fun s => s <| lb_nobusyg ::= bump idle 1 |>) k, env, out_balanced true)
        | Some g =>
            match find_busiest_queue env g k with
            | None => Some (sd_stat (env_sd env) (fun s => s <| lb_nobusyq ::= bump idle 1 |>) k, env, out_balanced true)
            | Some b =>
                if b =? dst_cpu env then None
                else
                  let k := sd_stat (env_sd env) (fun s => s <| lb_imbalance ::= bump idle (imbalance env) |>) k in
                  let env := env <| src_cpu := b |> in
                  if 1 <? nr_running (rqs k b) then
                    let env := env <| env_flags ::= fun f => Z.lor f LBF_ALL_PINNED |>
                                   <| loop_max := Z.min sysctl_sched_nr_migrate (nr_running (rqs k b)) |> in
                    match more_balance rounds env 0 k with
                    | None => None
                    | Some (k, env, ld_moved) =>
                        let k := flag_parent sdp env k in
                        if has_flag (env_flags env) LBF_ALL_PINNED then
                          let env := env <| env_cpus ::= fun s => s ∖ {[b]} |> in
                          if negb (bool_decide (env_cpus env ⊆ dst_grpmask env)) then
                            redo n rounds sdp (env <| loop := 0 |> <| loop_break := sched_nr_migrate_break |>) k
                          else Some (k, env, out_all_pinned)
                        else Some (k, env, lb_tried ld_moved)
                    end
                  else Some (k, env, lb_tried 0)
            end
        end
  end.

(** The end of [load_balance] at [out_one_pinned]. *)
Definition lb_one_pinned (d : Z) (env : lb_env) (k : kernel) : kernel :=
  let sd := domains k d in
  if (has_flag (env_flags env) LBF_ALL_PINNED && (balance_interval sd <? MAX_PINNED_INTERVAL)) ||
     (balance_interval sd <? max_interval sd)
  then upd_sd d (fun s => s <| balance_interval ::= fun i => u64 (i * 2) |>) k else k.

Definition lb_all_pinned (d : Z) (env : lb_env) (k : kernel) : kernel :=
  let k := sd_stat d (fun s => s <| lb_balanced ::= bump (env_idle env) 1 |>) k in
  lb_one_pinned d env (upd_sd d (fun s => s <| nr_balance_failed := 0 |>) k).

(** The new interval, after something was moved or active balancing began. *)
Definition lb_interval (d : Z) (active : bool) (k : kernel) : kernel :=
  upd_sd d (fun s => if negb active then s <| balance_interval := min_interval s |>
                     else if balance_interval s <? max_interval s
                     then s <| balance_interval ::= fun i => u64 (i * 2) |> else s) k.

(** Nothing could be moved: count it, and have the stopper of the busiest CPU
    push its running task when that has happened too often. *)
Definition lb_nothing_moved (this_cpu d : Z) (env : lb_env) (k : kernel) : kernel :=
  let idle := env_idle env in
  let k := sd_stat d (fun s => s <| lb_failed ::= bump idle 1 |>) k in
  let k := if negb (bool_decide (idle = CPU_NEWLY_IDLE))
           then upd_sd d (fun s => s <| nr_balance_failed ::= fun n => u32 (n + 1) |>) k else k in
  if need_active_balance env k then
    let b := src_cpu env in
    if negb (bool_decide (this_cpu ∈ cpus_allowed (tasks k (curr (rqs k b))))) then
      lb_one_pinned d (env <| env_flags ::= fun f => Z.lor f LBF_ALL_PINNED |>) k
    else
      let active := negb (active_balance (rqs k b)) in
      let k := if active
               then call (stop_one_cpu_nowait b)
                      (upd_rq b (fun r => r <| active_balance := true |> <| push_cpu := this_cpu |>) k)
               else k in
      lb_interval d active (upd_sd d (fun s => s <| nr_balance_failed := u32 (cache_nice_tries s + 1) |>) k)
  else lb_interval d false k.

Definition load_balance (fuel rounds : nat) (this_cpu d : Z) (idle : cpu_idle_type) (k : kernel)
    : option (kernel * Z * bool) :=
  let sd := domains k d in
  let cpus := sched_domain_span sd ∩ cpu_active_mask k in
  let env := mkLbEnv d 0 this_cpu (sched_group_span (groups k (first_group k d))) 0 idle 0 cpus 0 0
    sched_nr_migrate_break 0 fbq_all [] in
  let k := sd_stat d (fun s => s <| lb_count ::= bump idle 1 |>) k in
  match redo fuel rounds (sd_parent sd) env k with
  | None => None
  | Some (k, env, out_balanced cont) =>
      let k := match sd_parent sd with
               | Some p => upd_sgc (sgc (groups k (first_group k p))) (fun c => c <| sgc_imbalance := false |>) k
               | None => k
               end in
      Some (lb_all_pinned d env k, 0, cont)
  | Some (k, env, out_all_pinned) => Some (lb_all_pinned d env k, 0, true)
  | Some (k, env, lb_tried ld_moved) =>
      if ld_moved =? 0 then Some (lb_nothing_moved this_cpu d env k, 0, true)
      else Some (lb_interval d false (upd_sd d (fun s => s <| nr_balance_failed := 0 |>) k), ld_moved, true)
  end.

(** ** All domains of a CPU *)

Context `{WrrConfig}.

Definition get_sd_balance_interval (sd : sched_domain) (cpu_busy : bool) (k : kernel) : Z :=
  let interval := if cpu_busy then u64 (balance_interval sd * busy_factor sd) else balance_interval sd in
  Z.min (Z.max (msecs_to_jiffies interval) 1) (max_load_balance_interval k).

Definition update_next_balance (d next_balance : Z) (k : kernel) : Z :=
  let sd := domains k d in
  let next := u64 (last_balance sd + get_sd_balance_interval sd false k) in
  if time_after next_balance next then next else next_balance.

(** The walk of [idle_balance] over the domains: the cost so far, the next time
    to balance and what was pulled. *)
Fixpoint idle_domains (fuel rounds : nat) (c : Z) (sds : list Z) (curr_cost next : Z) (k : kernel)
    : option (kernel * Z * Z * Z) :=
  match sds with
  | [] => Some (k, curr_cost, next, 0)
  | d :: sds =>
      let sd := domains k d in
      if negb (has_flag (sd_flags sd) SD_LOAD_BALANCE) then idle_domains fuel rounds c sds curr_cost next k
      else if avg_idle (rqs k c) <? u64 (curr_cost + max_newidle_lb_cost sd)
      then Some (k, curr_cost, update_next_balance d next k, 0)
      else
        let balanced :=
          if has_flag (sd_flags sd) SD_BALANCE_NEWIDLE then
            let t0 := sched_clock k c in
            match load_balance fuel rounds c d CPU_NEWLY_IDLE k with
            | None => None
            | Some (k, pulled, _) =>
                let cost := u64 (sched_clock k c - t0) in
                let k := if max_newidle_lb_cost (domains k d) <? cost
                         then upd_sd d (fun s => s <| max_newidle_lb_cost := cost |>) k else k in
                Some (k, u64 (curr_cost + cost), pulled)
            end
          else Some (k, curr_cost, 0) in
        match balanced with
        | None => None
        | Some (k, curr_cost, pulled) =>
            let next := update_next_balance d next k in
            if negb (pulled =? 0) || (0 <? nr_running (rqs k c)) then Some (k, curr_cost, next, pulled)
            else idle_domains fuel rounds c sds curr_cost next k
        end
  end.

(** The end of [idle_balance], from the label [out] on. *)
Definition idle_balance_out (c next pulled : Z) (k : kernel) : kernel * Z :=
  let k := if time_after (next_balance (rqs k c)) next
           then upd_rq c (fun r => r <| next_balance := next |>) k else k in
  let pulled := if negb (nr_running (rqs k c) =? h_nr_running (cfs_of k c)) then -1 else pulled in
  (if negb (pulled =? 0) then upd_rq c (fun r => r <| idle_stamp := 0 |>) k else k, pulled).

(** [idle_balance], the balancing done when a CPU is about to become idle. *)
Definition newly_idle_balance (fuel rounds : nat) (c : Z) (k : kernel) : option (kernel * Z) :=
  let next := u64 (jiffies k + HZ) in
  let k := upd_rq c (fun r => r <| idle_stamp := rq_clock k c |>) k in
  if negb (bool_decide (rq_cpu (rqs k c) ∈ cpu_active_mask k)) then Some (k, 0)
  else if (avg_idle (rqs k c) <? sysctl_sched_migration_cost) || negb (overload (rd k)) then
    let next := match rq_sd (rqs k c) with Some d => update_next_balance d next k | None => next end in
    Some (idle_balance_out c next 0 k)
  else
    let k := update_blocked_averages c (other_cpus k) in
    match idle_domains fuel rounds c (for_each_domain k c) 0 next k with
    | None => None
    | Some (k, curr_cost, next, pulled) =>
        let k := other_cpus k in
        let k := if max_idle_balance_cost (rqs k c) <? curr_cost
                 then upd_rq c (fun r => r <| max_idle_balance_cost := curr_cost |>) k else k in
        let pulled := if negb (h_nr_running (cfs_of k c) =? 0) && (pulled =? 0) then 1 else pulled in
        Some (idle_balance_out c next pulled k)
    end.

(** Run by the stopper of the busiest CPU [b], to push one of its tasks. *)
Definition active_load_balance_cpu_stop (b : Z) (k : kernel) : option kernel :=
  let target := push_cpu (rqs k b) in
  let unlock k := upd_rq b (fun r => r <| active_balance := false |>) k in
  if negb (bool_decide (b ∈ cpu_active_mask k)) || negb (bool_decide (target ∈ cpu_active_mask k)) then Some (unlock k)
  else if negb (b =? this_cpu k) || negb (active_balance (rqs k b)) then Some (unlock k)
  else if nr_running (rqs k b) <=? 1 then Some (unlock k)
  else if b =? target then None
  else
    match list_find (fun d => has_flag (sd_flags (domains k d)) SD_LOAD_BALANCE = true /\
                              b ∈ sched_domain_span (domains k d)) (for_each_domain k target) with
    | None => Some (unlock k)
    | Some (_, d) =>
        let env := mkLbEnv d b target ∅ 0 CPU_IDLE 0 ∅ LBF_DST_PINNED 0 0 0 fbq_regular [] in
        let k := sd_stat d (fun s => s <| alb_count ::= fun n => u32 (n + 1) |>) k in
        let k := update_rq_clock b k in
        let '(k, _, moved) := detach_one_task env k in
        match moved with
        | Some p =>
            let k := sd_stat d (fun s => s <| alb_pushed ::= fun n => u32 (n + 1) |>) k in
            let k := upd_sd d (fun s => s <| nr_balance_failed := 0 |>) k in
            attach_one_task target p (other_cpus (unlock k))
        | None => Some (unlock (sd_stat d (fun s => s <| alb_failed ::= fun n => u32 (n + 1) |>) k))
        end
    end.

Definition update_max_interval (k : kernel) : kernel :=
  k <| max_load_balance_interval := HZ * cpumask_weight (cpu_online_mask k) / 10 |>.

(** What the walk of [rebalance_domains] keeps. *)
Record rebalancing := mkReb {
  reb_idle : cpu_idle_type;
  reb_continue : bool;
  reb_decay : bool;
  reb_max_cost : Z;
  reb_next : Z;
  reb_update_next : bool }.
#[export] Instance eta_rebalancing : Settable rebalancing :=
  fun r => mkReb (reb_idle r) (reb_continue r) (reb_decay r) (reb_max_cost r) (reb_next r) (reb_update_next r).

(** Balancing one domain when it is due: the interval that then holds. *)
Definition rebalance_due (fuel rounds : nat) (c d : Z) (st : rebalancing) (k : kernel)
    : option (kernel * rebalancing * Z) :=
  let busy st := negb (bool_decide (reb_idle st = CPU_IDLE)) in
  let interval := get_sd_balance_interval (domains k d) (busy st) k in
  if has_flag (sd_flags (domains k d)) SD_SERIALIZE && negb (balancing_trylock k) then Some (k, st, interval)
  else if time_after_eq (jiffies k) (u64 (last_balance (domains k d) + interval)) then
    match load_balance fuel rounds c d (reb_idle st) k with
    | None => None
    | Some (k, moved, cont) =>
        let st := st <| reb_continue ::= fun b => b && cont |> in
        let st := if negb (moved =? 0)
                  then st <| reb_idle := if idle_cpu k c then CPU_IDLE else CPU_NOT_IDLE |> else st in
        let k := upd_sd d (fun s => s <| last_balance := jiffies k |>) k in
        Some (k, st, get_sd_balance_interval (domains k d) (busy st) k)
    end
  else Some (k, st, interval).

Fixpoint rebalance_walk (fuel rounds : nat) (c : Z) (sds : list Z) (st : rebalancing) (k : kernel)
    : option (kernel * rebalancing) :=
  match sds with
  | [] => Some (k, st)
  | d :: sds =>
      let '(k, st) :=
        if time_after (jiffies k) (next_decay_max_lb_cost (domains k d)) then
          (upd_sd d (fun s => s <| max_newidle_lb_cost ::= fun x => u64 (x * 253) / 256 |>
                               <| next_decay_max_lb_cost := u64 (jiffies k + HZ) |>) k,
           st <| reb_decay := true |>)
        else (k, st) in
      let st := st <| reb_max_cost ::= fun m => u64 (m + max_newidle_lb_cost (domains k d)) |> in
      if negb (has_flag (sd_flags (domains k d)) SD_LOAD_BALANCE) then rebalance_walk fuel rounds c sds st k
      else if negb (reb_continue st) then
        if reb_decay st then rebalance_walk fuel rounds c sds st k else Some (k, st)
      else
        match rebalance_due fuel rounds c d st k with
        | None => None
        | Some (k, st, interval) =>
            let due := u64 (last_balance (domains k d) + interval) in
            let st := if time_after (reb_next st) due
                      then st <| reb_next := due |> <| reb_update_next := true |> else st in
            rebalance_walk fuel rounds c sds st k
        end
  end.

Definition rebalance_domains (fuel rounds : nat) (c : Z) (idle : cpu_idle_type) (k : kernel) : option kernel :=
  let k := update_blocked_averages c k in
  let st := mkReb idle true false 0 (u64 (jiffies k + 60 * HZ)) false in
  match rebalance_walk fuel rounds c (for_each_domain k c) st k with
  | None => None
  | Some (k, st) =>
      let k := if reb_decay st
               then upd_rq c (fun r => r <| max_idle_balance_cost :=
                      Z.max sysctl_sched_migration_cost (reb_max_cost st) |>) k else k in
      Some (if reb_update_next st then upd_rq c (fun r => r <| next_balance := reb_next st |>) k else k)
  end.

Definition run_rebalance_domains (fuel rounds : nat) (k : kernel) : option kernel :=
  let c := this_cpu k in
  rebalance_domains fuel rounds c (if idle_balance (rqs k c) then CPU_IDLE else CPU_NOT_IDLE) k.

Definition on_null_domain (k : kernel) (c : Z) : bool := bool_decide (rq_sd (rqs k c) = None).

(** [trigger_load_balance]. *)
Definition maybe_raise_balance (c : Z) (k : kernel) : kernel :=
  if on_null_domain k c then k
  else if time_after_eq (jiffies k) (next_balance (rqs k c)) then call raise_SCHED_SOFTIRQ k else k.
End Balance.
