(* ===== verification/FairMove.v ===== *)
(** * Moving tasks between queues keeps them accounted for (fair.c)

    The invariant of load balancing ([lb_inv]): while some tasks have been
    detached from their queues and not yet attached to others, every queue
    agrees with its tasks, every queued task is on a CPU it may use, and the
    detached tasks are exactly those marked as migrating.  Detaching, attaching
    and everything in between keep it. *)

From S2P Require Import Prelude SchedTypes Core Frame Wrr CorePolicy RtBandwidth FairMath.
From S2P Require Import FairPelt FairQueue FairInv FairOps FairFrame FairBusiest FairBalance.

(** The class table sends fair tasks to the functions of fair.c. *)
Class FairDispatch `{FairEnv} `{PeltTable} `{QueueOps} : Prop := {
  fd_enqueue : op_enqueue_task fair_sched_class = enqueue_task_fair;
  fd_dequeue : op_dequeue_task fair_sched_class = dequeue_task_fair;
  fd_check : op_check_preempt_curr fair_sched_class = check_preempt_wakeup;
  fd_migrate : op_migrate_task_rq fair_sched_class = Some migrate_task_rq_fair }.

(** The entries of [fair_sched_class] that core.c calls on queues, beside those
    of the other classes. *)
Definition fair_class_ops `{FairEnv} `{PeltTable} (others : QueueOps) : QueueOps := {|
  op_enqueue_task cls := if decide (cls = fair_sched_class) then enqueue_task_fair else @op_enqueue_task others cls;
  op_dequeue_task cls := if decide (cls = fair_sched_class) then dequeue_task_fair else @op_dequeue_task others cls;
  op_check_preempt_curr cls :=
    if decide (cls = fair_sched_class) then check_preempt_wakeup else @op_check_preempt_curr others cls;
  op_put_prev_task cls := if decide (cls = fair_sched_class) then put_prev_task_fair else @op_put_prev_task others cls;
  op_set_curr_task cls := if decide (cls = fair_sched_class) then set_curr_task_fair else @op_set_curr_task others cls;
  op_migrate_task_rq cls :=
    if decide (cls = fair_sched_class) then Some migrate_task_rq_fair else @op_migrate_task_rq others cls;
  op_set_cpus_allowed cls :=
    if decide (cls = fair_sched_class) then set_cpus_allowed_common else @op_set_cpus_allowed others cls |}.

#[export] Instance fair_class_dispatch `{FairEnv} `{PeltTable} (others : QueueOps) :
  @FairDispatch _ _ (fair_class_ops others).
Proof. by split. Qed.

(** fair.c keeps to its queues and entities, as core.c expects of every class. *)
#[export] Instance fair_class_frame `{FairEnv} `{PeltTable} (others : QueueOps) :
  @QueueFrame others -> @QueueFrame (fair_class_ops others).
Proof.
  intros F. split; intros cls.
  - cbn [op_enqueue_task fair_class_ops]. destruct (decide _); intros; [apply core_enqueue_fair|apply frame_enqueue].
  - cbn [op_dequeue_task fair_class_ops]. destruct (decide _); intros; [apply core_dequeue_fair|apply frame_dequeue].
  - cbn [op_check_preempt_curr fair_class_ops]. destruct (decide _); intros; [apply core_check_wakeup|apply frame_check].
  - cbn [op_put_prev_task fair_class_ops]. destruct (decide _); intros; [apply core_put_prev_fair|apply frame_put_prev].
  - cbn [op_set_curr_task fair_class_ops]. destruct (decide _); intros; [apply core_set_curr_fair|apply frame_set_curr].
  - cbn [op_migrate_task_rq fair_class_ops]. destruct (decide _); [intros f p k [= <-]; apply core_migrate_fair|apply frame_migrate].
  - cbn [op_set_cpus_allowed fair_class_ops]. destruct (decide _); intros; [reflexivity|apply frame_allowed].
Qed.

(** Classes without tasks. *)
Definition no_ops : QueueOps := {|
  op_enqueue_task _ _ _ _ k := k; op_dequeue_task _ _ _ _ k := k; op_check_preempt_curr _ _ _ _ k := k;
  op_put_prev_task _ _ _ k := k; op_set_curr_task _ _ k := k; op_migrate_task_rq _ := None;
  op_set_cpus_allowed _ := set_cpus_allowed_common |}.
#[export] Instance no_ops_frame : @QueueFrame no_ops.
Proof. by split. Qed.

(** ** Queued flags, CPUs and running entities *)

Definition same_view (k k' : kernel) : Prop :=
  (forall q, fe_on (fe k' q) = fe_on (fe k q) /\ fe_cpu (fe k' q) = fe_cpu (fe k q)) /\
  (forall c, fq_curr (fq k' c) = fq_curr (fq k c)).

#[export] Instance same_view_preorder : PreOrder same_view.
Proof.
  split; [done|]. intros k1 k2 k3 [A B] [A' B']. split.
  - intros q. destruct (A q), (A' q). split; congruence.
  - intros c. by rewrite B'.
Qed.

Lemma view_equiv k k' : k' ≡f k -> same_view k k'.
Proof. intros [Eq Ee]. split; [intros q; by rewrite Ee|intros c; by rewrite Eq]. Qed.

Lemma view_revalued P k k' : revalued P k k' -> same_view k k'.
Proof.
  intros R. split; [intros q; by destruct (revalued_fields _ _ _ q R) as (-> & _ & ->)|].
  intros c. by rewrite (proj1 R).
Qed.

Lemma view_buddies k k' :
  (forall q, fe k' q = fe k q) ->
  (forall c, exists n l s, fq k' c = fq k c <| fq_next := n |> <| fq_last := l |> <| fq_skip := s |>) ->
  same_view k k'.
Proof.
  intros Ee Eq. split; [intros q; by rewrite Ee|]. intros c. by destruct (Eq c) as (n & l & s & ->).
Qed.

Section View.
Context `{FairEnv} `{PeltTable}.

Lemma view_next_buddy p k : same_view k (set_next_buddy p k).
Proof.
  unfold set_next_buddy, upd_cfs. destruct (_ =? _); [done|]. destruct (SCHED_WARN_ON _); [done|]. split; [done|]. intros c.
  rewrite fq_upd_rq. by destruct (decide _) as [<-|].
Qed.
Lemma view_last_buddy p k : same_view k (set_last_buddy p k).
Proof.
  unfold set_last_buddy, upd_cfs. destruct (_ =? _); [done|]. destruct (SCHED_WARN_ON _); [done|]. split; [done|]. intros c.
  rewrite fq_upd_rq. by destruct (decide _) as [<-|].
Qed.

Lemma view_preempt_wakeup c cur sc k : same_view k (preempt_wakeup c cur sc k).
Proof.
  unfold preempt_wakeup. cbv zeta. transitivity (resched_curr c k); [by apply view_equiv, fair_resched|].
  generalize (resched_curr c k). intros k1. repeat case_match; try done. apply view_last_buddy.
Qed.

Lemma view_check_wakeup c p fl k : same_view k (check_preempt_wakeup c p fl k).
Proof.
  unfold check_preempt_wakeup. cbv zeta. destruct (_ =? p); [done|].
  set (mark := _ && _ && _). clearbody mark. set (k1 := if mark then set_next_buddy p k else k).
  assert (V1 : same_view k k1) by (unfold k1; destruct mark; [apply view_next_buddy|done]). clearbody k1.
  destruct (need_resched _); [done|]. destruct (_ && _); [etransitivity; [exact V1|apply view_preempt_wakeup]|].
  destruct (_ || _); [done|]. set (cur := curr (rqs k c)). set (q := cfs_rq_of k1 cur).
  assert (V2 : same_view k (update_curr q k1)).
  { etransitivity; [exact V1|]. eapply view_revalued, update_curr_revalues. }
  set (k2 := update_curr q k1) in *. clearbody k2. pose proof (fair_wakeup cur p k2) as E.
  destruct (wakeup_preempt_entity cur p k2) as [k3 r]. cbn [fst] in E.
  assert (V3 : same_view k k3) by (etransitivity; [exact V2|by apply view_equiv]).
  destruct (r =? 1); [|done]. etransitivity; [|apply view_preempt_wakeup].
  destruct mark; [done|]. etransitivity; [exact V3|apply view_next_buddy].
Qed.

(** The task [p] is queued or not, and nothing else changes. *)
Definition flips_view (p on : Z) (k k' : kernel) : Prop :=
  (forall q, fe_on (fe k' q) = (if decide (p = q) then on else fe_on (fe k q)) /\ fe_cpu (fe k' q) = fe_cpu (fe k q)) /\
  (forall c, fq_curr (fq k' c) = fq_curr (fq k c)).

Lemma flips_trans_l p on k1 k2 k3 : same_view k1 k2 -> flips_view p on k2 k3 -> flips_view p on k1 k3.
Proof.
  intros [A B] [A' B']. split; [|intros c; by rewrite B'].
  intros q. destruct (A q) as [E1 E2], (A' q) as [E3 E4]. rewrite E3, E4, E1, E2. done.
Qed.
Lemma flips_trans_r p on k1 k2 k3 : flips_view p on k1 k2 -> same_view k2 k3 -> flips_view p on k1 k3.
Proof.
  intros [A B] [A' B']. split; [|intros c; by rewrite B'].
  intros q. destruct (A q) as [E1 E2], (A' q) as [E3 E4]. rewrite E3, E4, E1, E2. done.
Qed.

Lemma view_dequeue c p fl k : fe_cpu (fe k p) = c -> flips_view p 0 k (dequeue_task_fair c p fl k).
Proof.
  intros Hc. pose proof (dequeue_task_fair_equiv c p fl k) as E. rewrite cfs_rq_of_fe, Hc in E.
  destruct (dequeue_entity_unlinks c p fl k Hc) as (k1 & k2 & R1 & [U1 U2] & R2).
  eapply flips_trans_l; [by eapply view_revalued|]. eapply flips_trans_r.
  2:{ etransitivity; [by eapply view_revalued|]. by apply view_equiv. }
  split.
  - intros q. rewrite U2. by destruct (decide (p = q)) as [<-|].
  - intros d. rewrite U1. by destruct (decide (c = d)) as [<-|].
Qed.

Lemma view_enqueue c p fl k :
  fe_on (fe k p) = 0 -> fe_cpu (fe k p) = c -> flips_view p 1 k (enqueue_task_fair c p fl k).
Proof.
  intros Hon Hc. destruct (enqueue_task_fair_equiv c p fl k Hon) as (k0 & E0 & E). rewrite cfs_rq_of_fe, Hc in E.
  destruct (enqueue_entity_links c p fl k0) as (k1 & R1 & [L1 L2]).
  eapply flips_trans_l; [etransitivity; [by apply view_equiv, E0|by eapply view_revalued]|].
  eapply flips_trans_r; [|by apply view_equiv]. split.
  - intros q. rewrite L2. by destruct (decide (p = q)) as [<-|].
  - intros d. rewrite L1. by destruct (decide (c = d)) as [<-|].
Qed.
End View.

(** ** The invariant of balancing *)

Definition PID_MAX_LIMIT : Z := 2 ^ 22.

(** The request to the stopper of a CPU to push a task. *)
Definition push_request (r : rq) : option Z := if active_balance r then Some (push_cpu r) else None.

(** The fields of a task that balancing looks at and does not change. *)
Definition attrs (t : task_struct) := (class_of t, cpus_allowed t, on_cpu t).
Definition same_attrs (k k' : kernel) : Prop :=
  (forall p, attrs (tasks k' p) = attrs (tasks k p) /\ on_rq (tasks k' p) = on_rq (tasks k p)) /\
  (forall c, push_request (rqs k' c) = push_request (rqs k c)).

Lemma attrs_equiv k k' : k' ≡c k -> same_attrs k k'.
Proof.
  intros E. split; [intros p; split; [by apply (ce_task attrs)|by apply (ce_task on_rq)]|].
  intros c. by apply (ce_rq push_request).
Qed.

Lemma attrs_trans k1 k2 k3 : same_attrs k1 k2 -> same_attrs k2 k3 -> same_attrs k1 k3.
Proof.
  intros [A C] [B D]. split; [|intros c; by rewrite D].
  intros p. destruct (A p), (B p). split; congruence.
Qed.

(** The domains and groups stay as they were built. *)
Definition same_topology (k k' : kernel) : Prop :=
  groups k' = groups k /\ (forall d, sd_shape (domains k' d) = sd_shape (domains k d)) /\
  (forall c, rq_sd (rqs k' c) = rq_sd (rqs k c)).

Lemma topology_trans k1 k2 k3 : same_topology k1 k2 -> same_topology k2 k3 -> same_topology k1 k3.
Proof. intros (A & B & C) (A' & B' & C'). split_and!; intros; congruence. Qed.

Lemma topology_equiv k k' : k' ≡c k -> same_topology k k'.
Proof.
  intros E. destruct (ce_glob _ _ E) as (_ & _ & _ & _ & _ & _ & _ & _ & Eg).
  split_and!; [done|apply E|intros c; by apply (ce_rq rq_sd)].
Qed.

Section Invariant.
Context `{BalanceEnv}.

Lemma topology_domains k k' c : same_topology k k' ->
  for_each_domain k' c = for_each_domain k c /\ (forall d, first_group k' d = first_group k d).
Proof.
  intros (_ & Ed & Er). assert (Ep : forall d, sd_parent (domains k' d) = sd_parent (domains k d) /\
    sd_groups (domains k' d) = sd_groups (domains k d)).
  { intros d. specialize (Ed d). unfold sd_shape in Ed. split; congruence. }
  split; [|intros d; unfold first_group; by destruct (Ep d) as [_ ->]].
  unfold for_each_domain. rewrite Er. generalize (rq_sd (rqs k c)).
  induction (S sched_domain_level_max) as [|n IH]; intros [d|]; cbn; try done. f_equal. destruct (Ep d) as [-> _]. apply IH.
Qed.

(** A CPU is in the first group of each of its domains. *)
Definition topology_ok (k : kernel) : Prop := forall c d, d ∈ for_each_domain k c ->
  c ∈ sched_group_span (groups k (first_group k d)) /\
  (size (sched_group_span (groups k (first_group k d))) <= config_NR_CPUS)%nat /\
  (size (sched_domain_span (domains k d)) <= config_NR_CPUS)%nat.

Lemma topology_stays k k' : same_topology k k' -> topology_ok k -> topology_ok k'.
Proof.
  intros T Ok c d. destruct (topology_domains k k' c T) as [-> Ef]. rewrite (Ef d). intros Hd.
  destruct (Ok c d Hd) as (A & B & C). destruct T as (-> & Ed & _).
  split_and!; [done|done|]. specialize (Ed d). unfold sd_shape in Ed. injection Ed as _ _ _ -> _. done.
Qed.

(** The tasks in [L] have been detached, to go to [dst]. *)
Record lb_inv (K0 : kernel) (dst : Z) (L : list Z) (k : kernel) : Prop := {
  lb_ok : fair_ok false k;
  lb_class p : fe_on (fe k p) <> 0 -> class_of (tasks k p) = fair_sched_class;
  lb_placed p : fe_on (fe k p) <> 0 -> fe_cpu (fe k p) ∈ cpus_allowed (tasks k p);
  lb_running c p : fq_curr (fq k c) = Some p -> on_cpu (tasks k p) = true;
  lb_ids p : fe_on (fe k p) <> 0 \/ p ∈ L -> 0 <= p < PID_MAX_LIMIT;
  lb_nodup : NoDup L;
  lb_taken p : p ∈ L -> fe_on (fe k p) = 0 /\ fe_cpu (fe k p) = dst /\ class_of (tasks k p) = fair_sched_class /\
    dst ∈ cpus_allowed (tasks k p) /\ on_cpu (tasks k p) = false;
  lb_migrating p : on_rq (tasks k p) = TASK_ON_RQ_MIGRATING <-> p ∈ L;
  lb_queued p : class_of (tasks k p) = fair_sched_class ->
    (on_rq (tasks k p) = TASK_ON_RQ_QUEUED <-> fe_on (fe k p) <> 0);
  lb_topology : same_topology K0 k;
  lb_push c : push_request (rqs k c) <> Some c }.

Context {K0 : kernel}.

Lemma attrs_fields k k' p : same_attrs k k' ->
  class_of (tasks k' p) = class_of (tasks k p) /\ cpus_allowed (tasks k' p) = cpus_allowed (tasks k p) /\
  on_cpu (tasks k' p) = on_cpu (tasks k p) /\ on_rq (tasks k' p) = on_rq (tasks k p).
Proof. intros [A _]. destruct (A p) as [E Er]. unfold attrs in E. by injection E. Qed.

Lemma lb_inv_view dst L k k' :
  same_view k k' -> same_attrs k k' -> same_topology k k' -> fair_ok false k' -> lb_inv K0 dst L k -> lb_inv K0 dst L k'.
Proof.
  intros [Vq Vc] A Tp W [W0 C P R I N T M Q Tk Pu].
  assert (F : forall p, fe_on (fe k' p) = fe_on (fe k p) /\ fe_cpu (fe k' p) = fe_cpu (fe k p) /\
    class_of (tasks k' p) = class_of (tasks k p) /\ cpus_allowed (tasks k' p) = cpus_allowed (tasks k p) /\
    on_cpu (tasks k' p) = on_cpu (tasks k p) /\ on_rq (tasks k' p) = on_rq (tasks k p)).
  { intros p. destruct (Vq p) as [-> ->]. by destruct (attrs_fields k k' p A) as (-> & -> & -> & ->). }
  split; try done; intros.
  - destruct (F p) as (E1 & _ & -> & _). apply C. congruence.
  - destruct (F p) as (E1 & -> & _ & -> & _). apply P. congruence.
  - destruct (F p) as (_ & _ & _ & _ & -> & _). apply (R c). congruence.
  - destruct (F p) as (E1 & _). apply I. by rewrite <- E1.
  - destruct (F p) as (-> & -> & -> & -> & -> & _). by apply T.
  - destruct (F p) as (_ & _ & _ & _ & _ & ->). apply M.
  - destruct (F p) as (E1 & _ & E2 & _ & _ & ->). rewrite E1. apply Q. congruence.
  - by apply (topology_trans K0 k).
  - rewrite (proj2 A). apply Pu.
Qed.

(** States that differ only in what balancing keeps no invariant of. *)
Definition quiet (k k' : kernel) : Prop := k' ≡f k /\ same_attrs k k' /\ same_topology k k'.

#[export] Instance quiet_preorder : PreOrder quiet.
Proof.
  split; [done|]. intros k1 k2 k3 (A & B & C) (A' & B' & C').
  split_and!; [by rewrite A'|by eapply attrs_trans|by eapply topology_trans].
Qed.

Lemma quiet_equiv k k' : k' ≡f k -> k' ≡c k -> quiet k k'.
Proof. intros Ef Ec. split_and!; [done|by apply attrs_equiv|by apply topology_equiv]. Qed.

Lemma quiet_rq c f k :
  (forall r, fq_of_rq (f r) = fq_of_rq r) -> (forall r, (rq_sd (f r), push_request (f r)) = (rq_sd r, push_request r)) ->
  quiet k (upd_rq c f k).
Proof.
  intros Hf Hd. split_and!; [by apply fair_upd_rq| |]; split_and!; try done;
    intros e; rewrite rqs_upd_rq; (destruct (decide (c = e)) as [<-|]; [by injection (Hd (rqs k c))|done]).
Qed.

Lemma quiet_inv dst L k k' : quiet k k' -> lb_inv K0 dst L k -> lb_inv K0 dst L k'.
Proof.
  intros (Ef & A & T) I. eapply lb_inv_view; [by apply view_equiv|done|done| |exact I]. rewrite Ef. apply I.
Qed.

Lemma lb_inv_equiv dst L k k' : k' ≡f k -> k' ≡c k -> lb_inv K0 dst L k -> lb_inv K0 dst L k'.
Proof.
  intros Ef Ec. by apply quiet_inv, quiet_equiv.
Qed.

(** Task ids are bounded, so no queue is ever full. *)
Lemma small_list (l : list Z) n : 0 <= n -> NoDup l -> (forall p, p ∈ l -> 0 <= p < n) -> Z.of_nat (length l) <= n.
Proof.
  intros Hn Hnd Hl. assert (Hs : l ⊆+ seqZ 0 n).
  { apply NoDup_submseteq; [done|]. intros p Hp. apply elem_of_seqZ. specialize (Hl p Hp). lia. }
  apply submseteq_length in Hs. rewrite length_seqZ in Hs. lia.
Qed.

Lemma lb_room dst L k c : lb_inv K0 dst L k -> room k c.
Proof.
  intros I. unfold room. pose proof (small_list (fq_tasks (fq k c)) PID_MAX_LIMIT) as Hs.
  assert (Hlen : Z.of_nat (length (fq_tasks (fq k c))) <= PID_MAX_LIMIT).
  { apply Hs; [done|apply (wf_nodup _ _ (lb_ok _ _ _ _ I c))|]. intros p Hp.
    apply (wf_members _ _ (lb_ok _ _ _ _ I c)) in Hp as [Hon _]. apply (lb_ids _ _ _ _ I). by left. }
  unfold PID_MAX_LIMIT in *. lia.
Qed.
End Invariant.

(** ** Counters and capacities *)

Lemma fair_stat_inc p f k : stat_inc p f k ≡f k.
Proof. unfold stat_inc. fair_back. Qed.
Lemma core_stat_inc p f k : stat_inc p f k ≡c k.
Proof. unfold stat_inc. fair_core. Qed.
Lemma quiet_stat_inc p f k : quiet k (stat_inc p f k).
Proof. apply quiet_equiv; [apply fair_stat_inc|apply core_stat_inc]. Qed.
Lemma quiet_upd_sd d f k : (forall sd, sd_shape (f sd) = sd_shape sd) -> quiet k (upd_sd d f k).
Proof.
  intros Hf. split_and!; try done. split_and!; try done. intros e. unfold upd_sd. cbn.
  destruct (decide (d = e)) as [<-|Hne]; [by rewrite fn_lookup_alter|by rewrite fn_lookup_alter_ne].
Qed.
Lemma quiet_sd_stat d f k : quiet k (sd_stat d f k).
Proof. unfold sd_stat. destruct (schedstat_enabled k); [by apply quiet_upd_sd|done]. Qed.

Lemma quiet_call e k : quiet k (call e k).
Proof. done. Qed.
Lemma quiet_upd_sgc g f k : quiet k (upd_sgc g f k).
Proof. done. Qed.

(** Peels updates that balancing keeps no invariant of. *)
Ltac quiet_back :=
  cbv zeta;
  repeat match goal with
  | |- quiet ?k ?k => reflexivity
  | |- quiet _ (if ?b then _ else _) => destruct b
  | |- quiet _ (match ?b with Some _ => _ | None => _ end) => destruct b
  | |- quiet ?k (call ?e ?k') => transitivity k'; [|done]
  | |- quiet ?k (upd_rq ?c ?f ?k') => transitivity k'; [|by apply quiet_rq]
  | |- quiet ?k (upd_sd ?d ?f ?k') => transitivity k'; [|apply quiet_upd_sd; intros ?; repeat case_match; done]
  | |- quiet ?k (upd_sgc ?d ?f ?k') => transitivity k'; [|apply quiet_upd_sgc]
  | |- quiet ?k (sd_stat ?d ?f ?k') => transitivity k'; [|apply quiet_sd_stat]
  | |- quiet ?k (stat_inc ?d ?f ?k') => transitivity k'; [|apply quiet_stat_inc]
  end.

(** ** Detaching a task *)

Section Move.
Context `{FairEnv} `{PeltTable} `{QueueFrame} `{!FairDispatch} {K0 : kernel}.

(** The dispatch of [deactivate_task] and [activate_task] for a fair task. *)
Lemma deactivate_fair c p k :
  class_of (tasks k p) = fair_sched_class ->
  exists k0, k0 ≡f k /\ (forall q, tasks k0 q = tasks k q) /\ same_topology k k0 /\ same_attrs k k0 /\
    deactivate_task c p DEQUEUE_NOCLOCK k = dequeue_task_fair c p DEQUEUE_NOCLOCK k0.
Proof.
  intros Hc. unfold deactivate_task. cbv zeta. set (k1 := if task_contributes_to_load _ then _ else k).
  assert (E1 : k1 ≡f k /\ (forall q, tasks k1 q = tasks k q) /\ same_topology k k1 /\ same_attrs k k1).
  { unfold k1. destruct (task_contributes_to_load _); [|done]. split_and!; [by apply fair_upd_rq|done|..].
    all: split_and!; try done; intros d; rewrite rqs_upd_rq; by destruct (decide (c = d)) as [<-|]. }
  destruct E1 as (Ef & Et & Tp & At). clearbody k1. unfold dequeue_task. change (has_flag DEQUEUE_NOCLOCK DEQUEUE_NOCLOCK) with true.
  change (has_flag DEQUEUE_NOCLOCK DEQUEUE_SAVE) with false. cbv zeta.
  exists (call (sched_info_dequeued c p) k1). split_and!; [exact Ef|done|done|done|].
  change (tasks (call (sched_info_dequeued c p) k1)) with (tasks k1). by rewrite Et, Hc, fd_dequeue.
Qed.

Lemma activate_fair c p k :
  class_of (tasks k p) = fair_sched_class ->
  exists k0, k0 ≡f k /\ (forall q, tasks k0 q = tasks k q) /\ same_topology k k0 /\ same_attrs k k0 /\
    activate_task c p ENQUEUE_NOCLOCK k = enqueue_task_fair c p ENQUEUE_NOCLOCK k0.
Proof.
  intros Hc. unfold activate_task. cbv zeta. set (k1 := if task_contributes_to_load _ then _ else k).
  assert (E1 : k1 ≡f k /\ (forall q, tasks k1 q = tasks k q) /\ same_topology k k1 /\ same_attrs k k1).
  { unfold k1. destruct (task_contributes_to_load _); [|done]. split_and!; [by apply fair_upd_rq|done|..].
    all: split_and!; try done; intros d; rewrite rqs_upd_rq; by destruct (decide (c = d)) as [<-|]. }
  destruct E1 as (Ef & Et & Tp & At). clearbody k1. unfold enqueue_task. change (has_flag ENQUEUE_NOCLOCK ENQUEUE_NOCLOCK) with true.
  change (has_flag ENQUEUE_NOCLOCK ENQUEUE_RESTORE) with false. cbv zeta.
  exists (call (sched_info_queued c p) k1). split_and!; [exact Ef|done|done|done|].
  change (tasks (call (sched_info_queued c p) k1)) with (tasks k1). by rewrite Et, Hc, fd_enqueue.
Qed.

(** Giving a task that is not queued, and runs nowhere, another CPU. *)
Lemma set_task_cpu_view p cpu k :
  class_of (tasks k p) = fair_sched_class -> fe_on (fe k p) = 0 ->
  (forall c, fq_curr (fq k c) <> Some p) -> fair_ok false k ->
  let k' := set_task_cpu p cpu k in
  fair_ok false k' /\ (forall c, fq_curr (fq k' c) = fq_curr (fq k c)) /\
  (forall q, fe_on (fe k' q) = fe_on (fe k q)) /\
  (forall q, fe_cpu (fe k' q) = if decide (p = q) then cpu else fe_cpu (fe k q)) /\ same_attrs k k' /\
  same_topology k k'.
Proof.
  intros Hcls Hon Hcur W k'. unfold k', set_task_cpu. rewrite Hcls, fd_migrate. cbv zeta.
  set (k1 := if negb _ then _ else k).
  assert (K1 : revalued (eq p) k k1 /\ k1 ≡c k).
  { unfold k1. destruct (negb _); [|split; [by apply revalued_equiv|done]]. split.
    - eapply revalued_trans; [apply migrate_revalues|]. apply revalued_equiv. fair_back.
    - transitivity (migrate_task_rq_fair p k); [fair_core|apply core_migrate_fair]. }
  destruct K1 as [R1 C1]. clearbody k1.
  pose proof (view_revalued _ _ _ R1) as [V1 V2].
  assert (W1 : fair_ok false k1) by by eapply revalued_off_wf.
  assert (Efe : forall q, fe (__set_task_cpu p cpu k1) q = if decide (p = q) then fe k1 p <| fe_cpu := cpu |> else fe k1 q).
  { intros q. unfold __set_task_cpu. rewrite fe_upd_task. by destruct (decide (p = q)). }
  split_and!.
  - apply (off_task_wf p k1); [done| |by rewrite (proj1 (V1 p))| | |done].
    + intros q Hq. by rewrite Efe, decide_False.
    + rewrite Efe, decide_True by done. cbn. by rewrite (proj1 (V1 p)).
    + right. intros c. rewrite V2. apply Hcur.
  - intros c. apply V2.
  - intros q. rewrite Efe. destruct (decide (p = q)) as [<-|]; [|apply V1]. cbn. apply V1.
  - intros q. rewrite Efe. destruct (decide (p = q)) as [<-|]; [done|apply V1].
  - apply (attrs_trans k k1); [by apply attrs_equiv|]. split; [|done]. intros q. unfold __set_task_cpu.
    rewrite tasks_upd_task. by destruct (decide (p = q)) as [<-|].
  - by apply (topology_trans k k1); [apply topology_equiv|].
Qed.

Lemma detach_task_inv p env L k :
  lb_inv K0 (dst_cpu env) L k -> p ∈ fq_tasks (fq k (src_cpu env)) -> on_cpu (tasks k p) = false ->
  dst_cpu env ∈ cpus_allowed (tasks k p) -> lb_inv K0 (dst_cpu env) (p :: L) (detach_task p env k).
Proof.
  intros I Hp Hrun Hdst. pose proof I as [W C P R Hid N T M Q Tk Pu].
  destruct (proj1 (wf_members _ _ (W _) p) Hp) as [Hon Hcpu].
  assert (HpL : p ∉ L) by (intros Hin; by destruct (T p Hin) as [? _]).
  unfold detach_task. cbv zeta. set (k1 := upd_task p _ k).
  assert (F1 : k1 ≡f k) by by apply fair_upd_task.
  assert (A1 : forall q, attrs (tasks k1 q) = attrs (tasks k q) /\
    on_rq (tasks k1 q) = if decide (p = q) then TASK_ON_RQ_MIGRATING else on_rq (tasks k q)).
  { intros q. unfold k1. rewrite tasks_upd_task. by destruct (decide (p = q)) as [<-|]. }
  destruct (deactivate_fair (src_cpu env) p k1) as (k0 & F0 & T0 & Tp0 & At0 & ->).
  { transitivity (attrs (tasks k1 p)).1.1; [done|]. rewrite (proj1 (A1 p)). by apply C. }
  assert (F : k0 ≡f k) by by rewrite F0. set (k2 := dequeue_task_fair _ _ _ k0).
  assert (W0 : fair_ok false k0) by by rewrite F.
  assert (W2 : fair_ok false k2).
  { apply dequeue_task_fair_wf; [done|by rewrite (proj2 F)|by rewrite (proj2 F)|].
    unfold room. rewrite (proj1 F). eapply lb_room. exact I. }
  assert (V2 : flips_view p 0 k k2).
  { eapply flips_trans_l; [by apply view_equiv|]. apply view_dequeue. by rewrite (proj2 F). }
  assert (A2 : forall q, attrs (tasks k2 q) = attrs (tasks k q) /\
    on_rq (tasks k2 q) = if decide (p = q) then TASK_ON_RQ_MIGRATING else on_rq (tasks k q)).
  { intros q. destruct (proj1 (attrs_equiv _ _ (core_dequeue_fair (src_cpu env) p DEQUEUE_NOCLOCK k0)) q) as [E1 E2].
    unfold k2. rewrite E1, E2, T0. apply A1. }
  assert (Tp2 : same_topology k k2).
  { apply (topology_trans k k1); [done|]. apply (topology_trans k1 k0); [done|].
    apply topology_equiv, core_dequeue_fair. }
  assert (Pu2 : forall c, push_request (rqs k2 c) = push_request (rqs k c)).
  { intros c. unfold k2. rewrite (proj2 (attrs_equiv _ _ (core_dequeue_fair (src_cpu env) p DEQUEUE_NOCLOCK k0))). apply (proj2 At0). }
  clearbody k2. clear At0 F0 T0 F W0 k0 F1 A1 k1 Tp0. destruct V2 as [V2 V2c].
  assert (Hon2 : fe_on (fe k2 p) = 0) by (destruct (V2 p) as [-> _]; by rewrite decide_True).
  assert (A2' : forall q, class_of (tasks k2 q) = class_of (tasks k q) /\ cpus_allowed (tasks k2 q) = cpus_allowed (tasks k q) /\
    on_cpu (tasks k2 q) = on_cpu (tasks k q)).
  { intros q. destruct (A2 q) as [E _]. unfold attrs in E. by injection E. }
  destruct (set_task_cpu_view p (dst_cpu env) k2) as (W3 & V3c & V3o & V3p & A3 & Tp3); [|done| |done|].
  { destruct (A2' p) as (-> & _). by apply C. }
  { intros c Hc. rewrite V2c in Hc. apply R in Hc. congruence. }
  set (k3 := set_task_cpu p (dst_cpu env) k2) in *. clearbody k3.
  assert (A3' : forall q, class_of (tasks k3 q) = class_of (tasks k q) /\ cpus_allowed (tasks k3 q) = cpus_allowed (tasks k q) /\
    on_cpu (tasks k3 q) = on_cpu (tasks k q) /\
    on_rq (tasks k3 q) = if decide (p = q) then TASK_ON_RQ_MIGRATING else on_rq (tasks k q)).
  { intros q. destruct (attrs_fields _ _ q A3) as (-> & -> & -> & ->), (A2' q) as (-> & -> & ->), (A2 q) as [_ ->]. done. }
  assert (V3 : forall q, fe_on (fe k3 q) = (if decide (p = q) then 0 else fe_on (fe k q)) /\
    fe_cpu (fe k3 q) = (if decide (p = q) then dst_cpu env else fe_cpu (fe k q))).
  { intros q. rewrite V3o, V3p. destruct (V2 q) as [-> ->]. by destruct (decide (p = q)). }
  split.
  - done.
  - intros q. destruct (V3 q) as [-> _], (A3' q) as (-> & _). destruct (decide (p = q)); [done|apply C].
  - intros q. destruct (V3 q) as [-> ->], (A3' q) as (_ & -> & _). destruct (decide (p = q)); [done|apply P].
  - intros c q. rewrite V3c, V2c. destruct (A3' q) as (_ & _ & -> & _). apply R.
  - intros q. destruct (V3 q) as [-> _]. rewrite elem_of_cons. destruct (decide (p = q)) as [<-|].
    + intros _. apply Hid. by left.
    + intros [?|[->|?]]; [apply Hid; by left|done|apply Hid; by right].
  - by constructor.
  - intros q Hq. destruct (V3 q) as [-> ->], (A3' q) as (-> & -> & -> & _).
    apply elem_of_cons in Hq as [->|Hq]; [by rewrite !decide_True by done; split_and!; try done; apply C|].
    destruct (decide (p = q)) as [->|]; [done|by apply T].
  - intros q. destruct (A3' q) as (_ & _ & _ & ->). rewrite elem_of_cons. destruct (decide (p = q)) as [<-|].
    + by split; [left|].
    + rewrite M. naive_solver.
  - intros q. destruct (A3' q) as (-> & _ & _ & ->), (V3 q) as [-> _]. destruct (decide (p = q)); [done|apply Q].
  - apply (topology_trans K0 k); [done|by apply (topology_trans k k2)].
  - intros c. rewrite (proj2 A3), Pu2. apply Pu.
Qed.

(** ** Attaching a task *)

Lemma check_preempt_inv dst L c p fl k :
  fe_on (fe k p) <> 0 -> class_of (tasks k p) = fair_sched_class -> lb_inv K0 dst L k ->
  lb_inv K0 dst L (check_preempt_curr c p fl k).
Proof.
  intros Hon Hcls I.
  assert (V : same_view k (check_preempt_curr c p fl k) /\ fair_ok false (check_preempt_curr c p fl k)).
  { unfold check_preempt_curr. cbv zeta. rewrite Hcls. set (k1 := if decide _ then _ else _).
    assert (V1 : same_view k k1 /\ fair_ok false k1).
    { unfold k1. case_decide as E.
      - rewrite <- E, fd_check. split; [apply view_check_wakeup|]. apply check_preempt_wakeup_wf; [apply I|done].
      - destruct (class_above _ _); [|split; [done|apply I]].
        split; [apply view_equiv, fair_resched|]. rewrite fair_resched. apply I. }
    clearbody k1. destruct V1 as [V1 W1]. destruct (_ && _); [|done].
    split; [etransitivity; [exact V1|apply view_equiv, fair_skip_update]|]. by rewrite fair_skip_update. }
  eapply lb_inv_view; [apply V|apply attrs_equiv, core_check_preempt|apply topology_equiv, core_check_preempt|apply V|exact I].
Qed.

(** A detached task becomes queued on its destination. *)
Lemma attach_task_inv dst p L k :
  lb_inv K0 dst (p :: L) k -> exists k', attach_task dst p k = Some k' /\ lb_inv K0 dst L k'.
Proof.
  intros I. pose proof I as [W C P R Hid N T M Q Tk Pu]. apply NoDup_cons in N as [HpL N].
  destruct (T p) as (Hon & Hcpu & Hcls & Hdst & Hrun); [by left|].
  unfold attach_task. change (task_cpu (tasks k p)) with (fe_cpu (fe k p)). rewrite Hcpu, Z.eqb_refl. cbn [negb].
  eexists. split; [reflexivity|]. cbv zeta.
  destruct (activate_fair dst p k Hcls) as (k0 & F0 & T0 & Tp0 & At0 & ->). set (k1 := enqueue_task_fair _ _ _ k0).
  assert (W1 : fair_ok false k1).
  { apply enqueue_task_fair_wf; [by rewrite F0|by rewrite (proj2 F0)..| |done].
    unfold room. rewrite (proj1 F0). eapply lb_room. exact I. }
  assert (V1 : flips_view p 1 k k1).
  { eapply flips_trans_l; [by apply view_equiv|]. apply view_enqueue; by rewrite (proj2 F0). }
  assert (A1 : same_attrs k k1).
  { apply (attrs_trans k k0); [done|]. apply attrs_equiv, core_enqueue_fair. }
  assert (Tp1 : same_topology k k1).
  { apply (topology_trans k k0); [done|]. apply topology_equiv, core_enqueue_fair. }
  clearbody k1. clear F0 T0 k0 Tp0 At0. set (k2 := upd_task p _ k1). destruct V1 as [V1 V1c].
  assert (A2 : forall q, class_of (tasks k2 q) = class_of (tasks k q) /\ cpus_allowed (tasks k2 q) = cpus_allowed (tasks k q) /\
    on_cpu (tasks k2 q) = on_cpu (tasks k q) /\
    on_rq (tasks k2 q) = if decide (p = q) then TASK_ON_RQ_QUEUED else on_rq (tasks k q)).
  { intros q. destruct (attrs_fields _ _ q A1) as (<- & <- & <- & <-). unfold k2. rewrite tasks_upd_task.
    by destruct (decide (p = q)) as [<-|]. }
  assert (V2 : forall q, fe_on (fe k2 q) = (if decide (p = q) then 1 else fe_on (fe k q)) /\ fe_cpu (fe k2 q) = fe_cpu (fe k q)).
  { assert (F2 : k2 ≡f k1) by by apply fair_upd_task. intros q. rewrite (proj2 F2). apply V1. }
  assert (V2c : forall c, fq_curr (fq k2 c) = fq_curr (fq k c)) by done.
  assert (W2 : fair_ok false k2) by (unfold k2; by rewrite fair_upd_task).
  assert (Tp2 : same_topology k k2) by exact Tp1.
  assert (Pu2 : forall c, push_request (rqs k2 c) = push_request (rqs k c)) by apply A1.
  clearbody k2. clear V1 V1c A1 W1 Tp1 k1. apply check_preempt_inv.
  { destruct (V2 p) as [-> _]. by rewrite decide_True. }
  { by destruct (A2 p) as (-> & _). }
  split.
  - done.
  - intros q. destruct (V2 q) as [-> _], (A2 q) as (-> & _). destruct (decide (p = q)) as [<-|]; [done|apply C].
  - intros q. destruct (V2 q) as [-> ->], (A2 q) as (_ & -> & _). destruct (decide (p = q)) as [<-|]; [by rewrite Hcpu|apply P].
  - intros c q. rewrite V2c. destruct (A2 q) as (_ & _ & -> & _). apply R.
  - intros q. destruct (V2 q) as [-> _]. intros Hq. apply Hid.
    destruct (decide (p = q)) as [<-|]; [right; by left|]. destruct Hq; [by left|right; by right].
  - done.
  - intros q Hq. assert (p <> q) by (by intros ->).
    destruct (V2 q) as [-> ->], (A2 q) as (-> & -> & -> & _). rewrite decide_False by done. apply T. by right.
  - intros q. destruct (A2 q) as (_ & _ & _ & ->). destruct (decide (p = q)) as [<-|]; [done|].
    rewrite M, elem_of_cons. naive_solver.
  - intros q. destruct (A2 q) as (-> & _ & _ & ->), (V2 q) as [-> _]. destruct (decide (p = q)); [done|apply Q].
  - by apply (topology_trans K0 k).
  - intros c. rewrite Pu2. apply Pu.
Qed.

Lemma clock_inv dst L c k : lb_inv K0 dst L k -> lb_inv K0 dst L (update_rq_clock c k).
Proof. apply lb_inv_equiv; [apply fair_clock|apply core_clock]. Qed.

Lemma attach_list_inv dst L k :
  lb_inv K0 dst L k -> exists k', attach_list dst L k = Some k' /\ lb_inv K0 dst [] k'.
Proof.
  revert k. induction L as [|p L IH]; intros k I; cbn; [by exists k|].
  destruct (attach_task_inv dst p L k I) as (k' & -> & I'). by apply IH.
Qed.

Lemma attach_tasks_inv env k :
  lb_inv K0 (dst_cpu env) (env_tasks env) k ->
  exists k', attach_tasks env k = Some (k', env <| env_tasks := [] |>) /\ lb_inv K0 (dst_cpu env) [] k'.
Proof.
  intros I. destruct (attach_list_inv (dst_cpu env) (env_tasks env) (update_rq_clock (dst_cpu env) k)) as (k' & E & I').
  { by apply clock_inv. }
  unfold attach_tasks. rewrite E. by exists k'.
Qed.

(** With nothing detached the destination does not matter. *)
Lemma lb_inv_retarget d d' k : lb_inv K0 d [] k -> lb_inv K0 d' [] k.
Proof. intros [W C P R Hid N T M Q Tk Pu]. split; try done. intros p Hp. by apply not_elem_of_nil in Hp. Qed.

(** The order of the list of tasks does not matter. *)
Lemma rotate_inv dst L c p k :
  p ∈ fq_tasks (fq k c) -> lb_inv K0 dst L k -> lb_inv K0 dst L (rotate_task c p k).
Proof.
  intros Hp I. apply (lb_inv_view dst L k); [| | | |done].
  - split; [done|]. intros d. unfold rotate_task. rewrite fq_upd_rq. by destruct (decide (c = d)) as [<-|].
  - by apply attrs_equiv, core_upd_rq.
  - by apply topology_equiv, core_upd_rq.
  - intros d. pose proof (lb_ok _ _ _ _ I d) as Wd. unfold rotate_task.
    destruct (decide (c = d)) as [<-|Hne].
    2:{ assert (E : fq (upd_rq c (fun r => r <| cfs_tasks ::= fun l => list_del p l ++ [p] |>) k) d = fq k d)
          by by rewrite fq_upd_rq, decide_False.
        destruct Wd as [A B C D E' F G I' J]. split; unfold running_of; rewrite ?E; done. }
    set (l := fq_tasks (fq k c)) in *. set (k' := upd_rq c _ k).
    assert (E : fq k' c = fq k c <| fq_tasks := list_del p l ++ [p] |>)
      by (unfold k'; by rewrite fq_upd_rq, decide_True).
    assert (Pm : list_del p l ++ [p] ≡ₚ l).
    { rewrite (Permutation_app_comm _ [p]). symmetry. apply list_del_Permutation; [apply Wd|done]. }
    destruct Wd as [A B C D E' F G I' J]. fold l in A, B, C, E', F, J.
    split; unfold running_of; rewrite ?E; cbn; try done.
    + by rewrite Pm.
    + by rewrite Pm.
    + intros q. rewrite Pm. apply C.
    + by rewrite Pm.
    + rewrite F. f_equal. by apply sum_of_Permutation.
    + intros q Hq. rewrite Pm. by apply J.
Qed.
End Move.
