(* ===== verification/FairBalanceInv.v ===== *)
(** * Load balancing returns and loses no task (fair.c)

    [load_balance] ends: the loop over the tasks of the busiest queue within
    [loop_max] tasks, the retries after a break or for another CPU of the group
    within a bound given by the number of those CPUs, the retries with another
    busiest queue within the number of CPUs; its [BUG_ON]s never fire; and
    afterwards the invariant of [FairMove] holds with no task detached. *)

From S2P Require Import Prelude SchedTypes Core Frame Wrr CorePolicy RtBandwidth FairMath.
From S2P Require Import FairPelt FairQueue FairInv FairOps FairFrame FairBusiest FairBalance FairMove.

(** ** Flags *)

Lemma has_flag_pow f n : 0 <= n -> has_flag f (2 ^ n) = Z.testbit f n.
Proof.
  intros Hn. unfold has_flag. destruct (Z.testbit f n) eqn:E.
  - destruct (Z.eqb_spec (Z.land f (2 ^ n)) 0) as [H0|]; [|done].
    assert (Z.testbit (Z.land f (2 ^ n)) n = false) by by rewrite H0, Z.bits_0.
    rewrite Z.land_spec, E, Z.pow2_bits_true in H by done. done.
  - replace (Z.land f (2 ^ n)) with 0; [done|]. symmetry. apply Z.bits_inj'. intros m Hm.
    rewrite Z.land_spec, Z.bits_0, Z.pow2_bits_eqb by done.
    destruct (Z.eqb_spec n m) as [<-|]; [by rewrite E|by rewrite andb_false_r].
Qed.

Lemma flag_all f : has_flag f LBF_ALL_PINNED = Z.testbit f 0. Proof. by apply (has_flag_pow f 0). Qed.
Lemma flag_break f : has_flag f LBF_NEED_BREAK = Z.testbit f 1. Proof. by apply (has_flag_pow f 1). Qed.
Lemma flag_dst f : has_flag f LBF_DST_PINNED = Z.testbit f 2. Proof. by apply (has_flag_pow f 2). Qed.

(** What of the three flags that steer the loops remains after setting or
    clearing some. *)
Ltac flags :=
  rewrite ?flag_all, ?flag_break, ?flag_dst, ?Z.lor_spec, ?Z.ldiff_spec in *;
  repeat match goal with
  | |- context [Z.testbit ?c ?n] => lazymatch c with
      | LBF_ALL_PINNED => idtac | LBF_NEED_BREAK => idtac | LBF_DST_PINNED => idtac | LBF_SOME_PINNED => idtac end;
      let v := eval vm_compute in (Z.testbit c n) in change (Z.testbit c n) with v
  | H : context [Z.testbit ?c ?n] |- _ => lazymatch c with
      | LBF_ALL_PINNED => idtac | LBF_NEED_BREAK => idtac | LBF_DST_PINNED => idtac | LBF_SOME_PINNED => idtac end;
      let v := eval vm_compute in (Z.testbit c n) in change (Z.testbit c n) with v in H
  end;
  rewrite ?orb_false_r, ?orb_true_r, ?andb_true_r, ?andb_false_r in *; cbn [negb] in *;
  rewrite ?orb_false_r, ?orb_true_r, ?andb_true_r, ?andb_false_r in *.

(** ** The environment of a round *)

(** What the loops of a round leave alone. *)
Definition env_fixed (e : lb_env) :=
  (env_sd e, src_cpu e, dst_cpu e, dst_grpmask e, env_idle e, env_cpus e, loop_max e).

(** The other CPU of the group that is remembered is one that may be tried. *)
Definition pin_ok (e : lb_env) : Prop :=
  has_flag (env_flags e) LBF_DST_PINNED = true ->
  new_dst_cpu e ∈ dst_grpmask e ∩ env_cpus e /\ new_dst_cpu e <> dst_cpu e.

Section Rounds.
Context `{FairEnv} `{PeltTable} `{QueueFrame} `{!FairDispatch} `{BalanceEnv} {K0 : kernel}.

Lemma sd_stat_inv dst L d f k : lb_inv K0 dst L k -> lb_inv K0 dst L (sd_stat d f k).
Proof. apply quiet_inv, quiet_sd_stat. Qed.

(** Whether a task may be moved. *)
Record can_migrate_spec (p : Z) (e : lb_env) (k : kernel) (e' : lb_env) (can : bool) : Prop := {
  cm_fixed : env_fixed e' = env_fixed e;
  cm_counts : (loop e', loop_break e', imbalance e', env_tasks e') = (loop e, loop_break e, imbalance e, env_tasks e);
  cm_break : has_flag (env_flags e') LBF_NEED_BREAK = has_flag (env_flags e) LBF_NEED_BREAK;
  cm_all : has_flag (env_flags e') LBF_ALL_PINNED = true -> can = false /\ has_flag (env_flags e) LBF_ALL_PINNED = true;
  cm_pin : pin_ok e -> pin_ok e';
  cm_can : can = true -> dst_cpu e ∈ cpus_allowed (tasks k p) /\ on_cpu (tasks k p) = false }.

Lemma can_migrate_env p e k : can_migrate_spec p e k (can_migrate_task p e k).1.2 (can_migrate_task p e k).2.
Proof.
  unfold can_migrate_task. case_bool_decide as Ha; cbn [negb].
  - destruct (task_running k p) eqn:Er; [|destruct (_ || _)]; cbn [fst snd];
      (split; unfold pin_ok; cbn; flags; try done).
  - set (e1 := e <| env_flags ::= fun f => Z.lor f LBF_SOME_PINNED |>).
    destruct (_ || _) eqn:Ec.
    { split; unfold pin_ok; cbn; flags; try done. }
    destruct (list_find _ _) as [[i cpu]|] eqn:Ef; (split; unfold pin_ok; cbn; flags; try done).
    intros _ _. apply list_find_Some in Ef as (Hl & Hcpu & _). apply list_elem_of_lookup_2 in Hl.
    apply list_elem_of_filter in Hl as [Hm _]. split; [done|]. by intros ->.
Qed.

Lemma can_migrate_quiet p e k : quiet k (can_migrate_task p e k).1.1.
Proof. unfold can_migrate_task. repeat case_match; cbn [fst]; quiet_back. Qed.

Lemma can_migrate_inv p e L k k' e' can :
  can_migrate_task p e k = (k', e', can) -> lb_inv K0 (dst_cpu e) L k ->
  lb_inv K0 (dst_cpu e) L k' /\ can_migrate_spec p e k e' can /\ quiet k k'.
Proof.
  intros E I. pose proof (can_migrate_env p e k) as S. pose proof (can_migrate_quiet p e k) as Q.
  rewrite E in S, Q. split; [by eapply quiet_inv|done].
Qed.

(** ** One pass over the busiest queue *)

(** What a pass that began with [e] and detached [n] tasks ends with. *)
Record pass_spec (e e' : lb_env) (n : Z) (k' : kernel) : Prop := {
  ps_fixed : env_fixed e' = env_fixed e;
  ps_inv : lb_inv K0 (dst_cpu e) (env_tasks e') k';
  ps_count : Z.of_nat (length (env_tasks e')) = Z.of_nat (length (env_tasks e)) + n;
  ps_pos : 0 <= n;
  ps_pin : pin_ok e';
  ps_break : has_flag (env_flags e') LBF_NEED_BREAK = true -> loop e < loop e' <= loop_max e;
  ps_all : has_flag (env_flags e') LBF_ALL_PINNED = true ->
    has_flag (env_flags e) LBF_ALL_PINNED = true /\ imbalance e' = imbalance e }.

Record pass_pre (e : lb_env) (k : kernel) : Prop := {
  pp_inv : lb_inv K0 (dst_cpu e) (env_tasks e) k;
  pp_pin : pin_ok e;
  pp_break : has_flag (env_flags e) LBF_NEED_BREAK = false;
  pp_loop : 0 <= loop e <= loop_max e;
  pp_max : loop_max e < 2 ^ 32 - 1 }.

(** A pass continued from [e1], further on in the loop. *)
Lemma pass_continue e e1 e' n n' k' :
  env_fixed e1 = env_fixed e -> Z.of_nat (length (env_tasks e1)) = Z.of_nat (length (env_tasks e)) + n -> 0 <= n ->
  loop e < loop e1 ->
  (has_flag (env_flags e1) LBF_ALL_PINNED = true ->
    has_flag (env_flags e) LBF_ALL_PINNED = true /\ imbalance e1 = imbalance e) ->
  pass_spec e1 e' n' k' -> pass_spec e e' (n + n') k'.
Proof.
  intros Ef En Hn Hl Ha [F I N P Pin B A]. unfold env_fixed in *.
  assert (Ed : dst_cpu e1 = dst_cpu e /\ loop_max e1 = loop_max e) by (split; congruence).
  destruct Ed as [Ed Em]. split; try done; try congruence.
  - unfold env_fixed. congruence.
  - lia.
  - lia.
  - intros Hb. specialize (B Hb). lia.
  - intros Ht. destruct (A Ht) as [Ht1 ->]. by apply Ha.
Qed.

Lemma detach_loop_total fuel e n0 k :
  pass_pre e k -> (Z.to_nat (loop_max e - loop e) < fuel)%nat ->
  exists k' e' n, detach_loop fuel e n0 k = Some (k', e', n0 + n) /\ pass_spec e e' n k'.
Proof.
  revert e n0 k. induction fuel as [|fuel IH]; intros e n0 k [I Pin Br Hl Hm] Hf; [lia|]. cbn [detach_loop].
  assert (Hstop : forall l, pass_spec e (e <| loop := l |>) 0 k).
  { intros l. split; try done; cbn; [lia|]. rewrite Br. done. }
  assert (Hsame : pass_spec e e 0 k). { split; try done; [lia|]. rewrite Br. done. }
  assert (Hret : forall e', pass_spec e e' 0 k ->
    exists k' e'' n, Some (k, e', n0) = Some (k', e'', n0 + n) /\ pass_spec e e'' n k').
  { intros e' He. exists k, e', 0. by rewrite Z.add_0_r. }
  destruct (cfs_tasks (rqs k (src_cpu e))) as [|p rest] eqn:El; [by apply Hret|].
  destruct (negb _ && _); [by apply Hret|].
  assert (Eu : u32 (loop e + 1) = loop e + 1) by (apply u32_id; lia).
  cbv zeta. set (e1 := e <| loop ::= fun l => u32 (l + 1) |>).
  assert (E1 : loop e1 = loop e + 1 /\ loop_max e1 = loop_max e) by done. destruct E1 as [E1 Em1].
  rewrite E1, Em1. destruct (Z.ltb_spec (loop_max e) (loop e + 1)); [apply Hret, Hstop|].
  destruct (_ <? _).
  { apply Hret. split; try done; unfold pin_ok in *; cbn -[Z.lor Z.pow]; clear Hret Hstop Hsame IH; flags; rewrite ?Eu; try done; lia. }
  destruct (can_migrate_task p e1 k) as [[k1 e2] can] eqn:Ec.
  destruct (can_migrate_inv p e1 (env_tasks e) k k1 e2 can Ec I) as (I1 & [S1 S2 S3 S4 S5 S6] & F1 & C1 & _).
  change (env_fixed e2 = env_fixed e) in S1. injection S2 as L2 B2 Im2 T2.
  assert (P2 : pin_ok e2) by by apply S5.
  assert (Ed : dst_cpu e2 = dst_cpu e /\ src_cpu e2 = src_cpu e /\ loop_max e2 = loop_max e) by (unfold env_fixed in S1; repeat split; congruence).
  destruct Ed as (Ed & Es & Em). cbn in L2, B2, Im2, T2.
  assert (Hp : p ∈ fq_tasks (fq k1 (src_cpu e2))).
  { rewrite (proj1 F1), Es. change (p ∈ cfs_tasks (rqs k (src_cpu e))). rewrite El. by left. }
  destruct (_ || _ || _) eqn:Eskip.
  - destruct (IH e2 n0 (rotate_task (src_cpu e2) p k1)) as (k' & e' & n & -> & Sp).
    + split; [|done|..]; rewrite ?Ed, ?T2, ?Em, ?L2; [by apply rotate_inv| |lia..]. by rewrite S3.
    + rewrite Em, L2. lia.
    + exists k', e', n. split; [done|]. eapply (pass_continue e e2 e' 0); [exact S1|rewrite T2; lia|lia|lia| |exact Sp].
      intros Hb. destruct (S4 Hb). split; [done|]. by rewrite Im2.
  - apply orb_false_elim in Eskip as [[Hcan _]%orb_false_elim _]. apply negb_false_iff in Hcan as ->.
    destruct (S6 eq_refl) as [Hdst Hrun].
    assert (Hna : has_flag (env_flags e2) LBF_ALL_PINNED = false).
    { destruct (has_flag (env_flags e2) LBF_ALL_PINNED) eqn:Ea; [|done]. by destruct (S4 eq_refl). }
    destruct (attrs_fields _ _ p C1) as (_ & Ea & Eo & _).
    assert (I3 : lb_inv K0 (dst_cpu e2) (p :: env_tasks e) (detach_task p e2 k1)).
    { apply detach_task_inv; rewrite ?Ed; [done|done|by rewrite Eo|by rewrite Ea]. }
    set (e3 := e2 <| env_tasks ::= cons p |> <| imbalance ::= _ |>).
    assert (Hone : pass_spec e e3 1 (detach_task p e2 k1)).
    { split; try done; cbn; rewrite ?T2; rewrite ?S3, ?Hna; try done.
      - by rewrite <- Ed.
      - cbn. lia.
      - cbn. by rewrite Br. }
    assert (Hret1 : exists k' e'' n, Some (detach_task p e2 k1, e3, n0 + 1) = Some (k', e'', n0 + n) /\ pass_spec e e'' n k').
    { by exists (detach_task p e2 k1), e3, 1. }
    destruct (_ && _); [done|]. destruct (_ <=? 0); [done|].
    destruct (IH e3 (n0 + 1) (detach_task p e2 k1)) as (k' & e' & n & -> & Sp).
    + split; try done; cbn; rewrite ?T2, ?Em, ?L2, ?S3; try done; lia.
    + cbn. rewrite Em, L2. lia.
    + exists k', e', (1 + n). split; [by rewrite Z.add_assoc|].
      eapply (pass_continue e e3 e'); [exact S1|cbn; rewrite T2; lia|lia|cbn; lia| |exact Sp].
      cbn. by rewrite Hna.
Qed.

(** The same for [detach_tasks], which does nothing without an imbalance. *)
Lemma detach_tasks_total e k :
  pass_pre e k ->
  exists k' e' n, detach_tasks e k = Some (k', e', n) /\ pass_spec e e' n k' /\
    (has_flag (env_flags e') LBF_DST_PINNED = true -> has_flag (env_flags e') LBF_ALL_PINNED = true ->
     has_flag (env_flags e) LBF_DST_PINNED = true \/ 0 < imbalance e').
Proof.
  intros P. unfold detach_tasks. destruct (Z.leb_spec (imbalance e) 0) as [Hi|Hi].
  - exists k, e, 0. destruct P as [I Pin Br Hl Hm]. split_and!; [done| |by left].
    split; try done; [lia|]. by rewrite Br.
  - destruct (detach_loop_total (S (Z.to_nat (loop_max e - loop e))) e 0 k P) as (k' & e' & n & -> & S); [lia|].
    rewrite Z.add_0_l. eexists _, e', n. split_and!; [done| |].
    + destruct S. split; try done. by apply sd_stat_inv.
    + intros _ Ha. destruct S as [_ _ _ _ _ _ A]. right. destruct (A Ha) as [_ ->]. done.
Qed.

(** ** The rounds for one busiest queue *)

(** Other CPUs leave the tasks alone that are being moved, and keep the queues
    consistent. *)
Class OtherCpus : Prop :=
  other_cpus_inv K1 dst L k : lb_inv K1 dst L k -> lb_inv K1 dst L (other_cpus k).

Record round_pre (e : lb_env) (k : kernel) : Prop := {
  rp_pass : pass_pre e k;
  rp_tasks : env_tasks e = [];
  rp_dst : dst_cpu e ∈ dst_grpmask e ∩ env_cpus e;
  rp_pinned : has_flag (env_flags e) LBF_DST_PINNED = true -> has_flag (env_flags e) LBF_ALL_PINNED = true ->
    0 < imbalance e }.

Record round_post (e e' : lb_env) (k' : kernel) : Prop := {
  ro_inv : lb_inv K0 (dst_cpu e') [] k';
  ro_tasks : env_tasks e' = [];
  ro_dst : dst_cpu e' ∈ dst_grpmask e' ∩ env_cpus e';
  ro_same : (env_sd e', src_cpu e', dst_grpmask e', env_idle e') = (env_sd e, src_cpu e, dst_grpmask e, env_idle e);
  ro_cpus : env_cpus e' ⊆ env_cpus e;
  ro_left : dst_cpu e' = dst_cpu e \/ dst_cpu e ∉ env_cpus e';
  ro_break : has_flag (env_flags e') LBF_NEED_BREAK = false;
  ro_pinned : has_flag (env_flags e') LBF_ALL_PINNED = true -> has_flag (env_flags e') LBF_DST_PINNED = false }.

(** The rounds that may still follow. *)
Definition rounds_left (e : lb_env) : Z :=
  Z.of_nat (size (dst_grpmask e ∩ env_cpus e)) * (loop_max e + 2) + (loop_max e - loop e).

Context `{!OtherCpus}.

Lemma more_balance_total fuel e moved k :
  round_pre e k -> rounds_left e < Z.of_nat fuel -> 0 <= moved ->
  exists k' e' moved', more_balance fuel e moved k = Some (k', e', moved') /\ round_post e e' k' /\ moved <= moved'.
Proof.
  revert e moved k. induction fuel as [|fuel IH]; intros e moved k [P T D Pd] Hf Hmv.
  { exfalso. unfold rounds_left in Hf. destruct P as [_ _ _ Hl _]. nia. }
  cbn [more_balance]. set (k1 := update_rq_clock _ _).
  assert (P1 : pass_pre e k1).
  { destruct P as [I ????]. split; try done. by apply clock_inv, other_cpus_inv. }
  destruct (detach_tasks_total e k1 P1) as (k2 & e2 & n & -> & [F I2 N Np Pin2 B A] & Dp). clear k1 P1.
  apply other_cpus_inv in I2. set (k3 := other_cpus k2) in *. clearbody k3.
  assert (Ed : dst_cpu e2 = dst_cpu e) by (unfold env_fixed in F; congruence).
  assert (Hat : exists k4, (if negb (n =? 0) then attach_tasks e2 k3 else Some (k3, e2)) =
      Some (k4, e2 <| env_tasks := [] |>) /\ lb_inv K0 (dst_cpu e) [] k4).
  { rewrite T in N. destruct (Z.eqb_spec n 0) as [->|Hn]; cbn [negb].
    - assert (E0 : env_tasks e2 = []) by (destruct (env_tasks e2); [done|cbn in N; lia]).
      exists k3. rewrite E0 in I2. split; [|done]. do 2 f_equal. destruct e2. cbn in E0. by subst.
    - destruct (attach_tasks_inv (K0:=K0) e2 k3) as (k4 & -> & I4); [by rewrite Ed|]. exists k4. by rewrite <- Ed. }
  destruct Hat as (k4 & -> & I4). clear I2 k3 k2. set (e3 := e2 <| env_tasks := [] |>).
  assert (Hpd : has_flag (env_flags e3) LBF_DST_PINNED = true -> has_flag (env_flags e3) LBF_ALL_PINNED = true ->
    0 < imbalance e3).
  { intros Hd Ha. destruct (A Ha) as [Ha' Ei]. destruct (Dp Hd Ha) as [Hd'|]; [|done].
    change (0 < imbalance e2). rewrite Ei. by apply Pd. }
  change (env_fixed e3 = env_fixed e) in F. change (pin_ok e3) in Pin2.
  assert (B3 : has_flag (env_flags e3) LBF_NEED_BREAK = true -> loop e < loop e3 <= loop_max e) by exact B.
  assert (T3 : env_tasks e3 = []) by done. clearbody e3. clear A Dp B Pd N Ed e2.
  destruct P as [_ _ _ Hl Hm]. pose proof F as F'. unfold env_fixed in F'.
  injection F' as Esd Esrc Edst Egrp Eidle Ecpus Emax.
  destruct (has_flag (env_flags e3) LBF_NEED_BREAK) eqn:Eb.
  - set (e4 := e3 <| env_flags ::= _ |>). specialize (B3 eq_refl).
    destruct (IH e4 (moved + n) k4) as (k' & e' & m' & -> & [R1 R2 R3 R4 R5 R8 R6 R7] & Hm').
    + split; [split|..]; unfold pin_ok in *; cbn -[Z.ldiff Z.pow]; rewrite ?Edst, ?Egrp, ?Ecpus, ?Emax, ?T3 in *;
        clear IH; flags; try done; lia.
    + unfold rounds_left in *. cbn. rewrite Egrp, Ecpus, Emax. lia.
    + lia.
    + exists k', e', m'. split; [done|]. split; [|lia]. split; try done; [|by rewrite <- Ecpus|by rewrite <- Edst].
      rewrite R4. cbn. congruence.
  - destruct (has_flag (env_flags e3) LBF_DST_PINNED && (0 <? imbalance e3)) eqn:Edp.
    + apply andb_true_iff in Edp as [Edp _]. destruct (Pin2 Edp) as [Hnew Hne].
      set (e4 := e3 <| env_cpus ::= _ |> <| dst_cpu := _ |> <| env_flags ::= _ |> <| loop := _ |> <| loop_break := _ |>).
      assert (Hsz : Z.of_nat (size (dst_grpmask e4 ∩ env_cpus e4)) + 1 <= Z.of_nat (size (dst_grpmask e ∩ env_cpus e))).
      { cbn. rewrite Egrp, Ecpus, Edst. enough (size (dst_grpmask e ∩ (env_cpus e ∖ {[dst_cpu e]})) <
          size (dst_grpmask e ∩ env_cpus e))%nat by lia. apply subset_size. set_solver. }
      destruct (IH e4 (moved + n) k4) as (k' & e' & m' & -> & [R1 R2 R3 R4 R5 R8 R6 R7] & Hm').
      * split; [split|..]; unfold pin_ok; cbn -[Z.ldiff Z.pow]; rewrite ?T3; clear IH; flags; try done; try lia.
        -- by eapply lb_inv_retarget.
        -- set_solver.
      * unfold rounds_left in *. change (loop e4) with 0. change (loop_max e4) with (loop_max e3). rewrite Emax.
        clear - Hf Hsz Hl. nia.
      * lia.
      * exists k', e', m'. split; [done|]. split; [|lia]. split; try done; [|set_solver|right; rewrite <- Edst; set_solver].
        rewrite R4. cbn. congruence.
    + exists k4, e3, (moved + n). split; [done|]. split; [|lia]. split; try done.
      * by rewrite Edst.
      * by rewrite Edst, Egrp, Ecpus.
      * congruence.
      * by rewrite Ecpus.
      * by left.
      * intros Ha. destruct (has_flag (env_flags e3) LBF_DST_PINNED) eqn:Ed'; [|done].
        specialize (Hpd eq_refl Ha). apply andb_false_iff in Edp as [|Hi%Z.ltb_ge]; [done|lia].
Qed.

(** ** The busiest group and queue *)

Lemma quiet_cpu_capacity d c k : quiet k (update_cpu_capacity d c k).
Proof. unfold update_cpu_capacity. quiet_back. Qed.

Lemma quiet_group_capacity d c k : quiet k (update_group_capacity d c k).
Proof.
  unfold update_group_capacity. cbv zeta. set (k1 := upd_sgc _ _ k). assert (Q1 : quiet k k1) by done. clearbody k1.
  destruct (sd_child _); [|etransitivity; [exact Q1|apply quiet_cpu_capacity]].
  destruct (if has_flag _ _ then _ else _) as [cap mn]. etransitivity; [exact Q1|done].
Qed.

(** No group chosen as busiest holds the destination. *)
Definition remote (e : lb_env) (k : kernel) (b : option Z) : Prop :=
  forall g, b = Some g -> dst_cpu e ∉ sched_group_span (groups k g).

Lemma sd_add_group_spec e ps i k acc sg :
  quiet k acc.1.1 -> remote e k (busiest acc.1.2) ->
  quiet k (sd_add_group e ps i acc sg).1.1 /\ remote e k (busiest (sd_add_group e ps i acc sg).1.2).
Proof.
  destruct acc as [[k1 sds] ovl]. cbn [fst snd]. intros Q R. unfold sd_add_group. cbv zeta.
  assert (Qg : groups k1 = groups k) by apply Q. rewrite Qg. set (loc := bool_decide (dst_cpu e ∈ _)).
  set (k2 := if loc && _ then _ else k1).
  assert (Q2 : quiet k k2).
  { transitivity k1; [done|]. unfold k2. destruct (_ && _); [apply quiet_group_capacity|done]. }
  clearbody k2. destruct (update_sg_lb_stats _ _ _ _ _ _) as [sgs ovl'].
  unfold loc. case_bool_decide as Hl; cbn; [done|]. destruct (update_sd_pick_busiest _ _ _ _ _); cbn; [|done].
  split; [done|]. by intros g [= <-].
Qed.

Lemma sd_add_groups_spec e ps i k l acc :
  quiet k acc.1.1 -> remote e k (busiest acc.1.2) ->
  quiet k (foldl (sd_add_group e ps i) acc l).1.1 /\ remote e k (busiest (foldl (sd_add_group e ps i) acc l).1.2).
Proof.
  revert acc. induction l as [|g l IH]; intros acc Q R; [done|]. cbn [foldl].
  apply IH; by apply sd_add_group_spec.
Qed.

(** The environment with another imbalance. *)
Definition env_stats (e : lb_env) :=
  (env_fixed e, new_dst_cpu e, env_flags e, loop e, loop_break e, env_tasks e).

Lemma update_sd_lb_stats_spec e k :
  let '(k', e', sds) := update_sd_lb_stats e init_sd_lb_stats k in
  quiet k k' /\ env_stats e' = env_stats e /\ remote e k (busiest sds).
Proof.
  unfold update_sd_lb_stats. cbv zeta.
  pose proof (sd_add_groups_spec e (match sd_child (domains k (env_sd e)) with
      Some c => has_flag (sd_flags (domains k c)) SD_PREFER_SIBLING | None => false end)
    (get_sd_load_idx (domains k (env_sd e)) (env_idle e)) k (sd_groups (domains k (env_sd e)))
    (k, init_sd_lb_stats, false)) as Hf.
  destruct (foldl _ _ _) as [[k' sds] ovl]. destruct Hf as [Q R]; [done|done|]. cbn [fst snd] in *.
  split_and!; [by destruct (sd_parent _)|by destruct (has_flag _ _)|done].
Qed.

Lemma calculate_imbalance_stats e sds k : env_stats (calculate_imbalance e sds k) = env_stats e.
Proof.
  assert (Hfix : forall e sds k, env_stats (fix_small_imbalance e sds k) = env_stats e).
  { intros e0 sds0 k0. by destruct (fix_small_imbalance_spec e0 sds0 k0) as [-> | ->]. }
  unfold calculate_imbalance. cbv zeta. destruct (_ || _); [by rewrite Hfix|]. destruct (_ <? _); [by rewrite Hfix|done].
Qed.

Lemma find_busiest_group_spec e k :
  let '(k', e', g) := find_busiest_group e k in
  quiet k k' /\ env_stats e' = env_stats e /\ remote e k g.
Proof.
  unfold find_busiest_group. pose proof (update_sd_lb_stats_spec e k) as Hs.
  destruct (update_sd_lb_stats e init_sd_lb_stats k) as [[k' e'] sds]. destruct Hs as (Q & Es & R).
  destruct (check_asym_packing e' sds k'); [done|].
  assert (Hb : quiet k k' /\ env_stats (e' <| imbalance := 0 |>) = env_stats e /\ remote e k None) by done.
  destruct (_ || _); [done|]. cbv zeta. set (sds' := sds <| sds_avg_load := _ |>).
  assert (Hc : quiet k k' /\ env_stats (calculate_imbalance e' sds' k') = env_stats e /\ remote e k (busiest sds')).
  { by rewrite calculate_imbalance_stats. }
  clearbody sds'. repeat match goal with |- context [if ?b then _ else _] => destruct b end; first [exact Hb|exact Hc].
Qed.

Lemma find_busiest_queue_in e g k b :
  find_busiest_queue e g k = Some b -> b ∈ sched_group_span (groups k g) ∩ env_cpus e.
Proof.
  unfold find_busiest_queue. set (s := _ ∩ _).
  assert (Hg : forall l acc, (forall i, i ∈ l -> i ∈ s) -> (forall i, acc.1.1 = Some i -> i ∈ s) ->
    forall i, (foldl (busier_queue e k) acc l).1.1 = Some i -> i ∈ s).
  { induction l as [|j l IH]; intros acc Hl Ha i; cbn [foldl]; [apply Ha|]. apply IH; [intros; apply Hl; by right|].
    intros i' Hi'. destruct acc as [[b0 ld] cap]. unfold busier_queue in Hi'. cbn [fst] in Ha.
    repeat case_match; cbn [fst] in Hi'; [by apply Ha|by apply Ha| |by apply Ha].
    injection Hi' as <-. apply Hl. by left. }
  apply Hg; [|done]. intros i Hi. by apply list_elem_of_filter in Hi as [? _].
Qed.

(** ** All attempts *)

Lemma quiet_flag_parent sdp e k : quiet k (flag_parent sdp e k).
Proof. unfold flag_parent. quiet_back. Qed.

Record redo_pre (e : lb_env) (k : kernel) : Prop := {
  rd_inv : lb_inv K0 (dst_cpu e) [] k;
  rd_tasks : env_tasks e = [];
  rd_dst : dst_cpu e ∈ dst_grpmask e;
  rd_break : has_flag (env_flags e) LBF_NEED_BREAK = false;
  rd_pinned : has_flag (env_flags e) LBF_DST_PINNED = false;
  rd_loop : loop e = 0 }.

(** The rounds that are enough for any busiest queue. *)
Definition enough_rounds (grp : gset Z) (rounds : nat) : Prop :=
  0 <= sysctl_sched_nr_migrate < 2 ^ 32 - 1 /\
  Z.of_nat (size grp) * (sysctl_sched_nr_migrate + 2) + sysctl_sched_nr_migrate < Z.of_nat rounds.

Lemma enough_rounds_left e rounds :
  enough_rounds (dst_grpmask e) rounds -> 0 <= loop_max e <= sysctl_sched_nr_migrate -> loop e = 0 ->
  rounds_left e < Z.of_nat rounds.
Proof.
  intros [Hs Hr] Hm Hl. unfold rounds_left. rewrite Hl.
  assert (size (dst_grpmask e ∩ env_cpus e) <= size (dst_grpmask e))%nat by (apply subseteq_size; set_solver). nia.
Qed.

Lemma redo_total fuel rounds sdp this e k :
  redo_pre e k -> this = dst_cpu e \/ this ∉ env_cpus e -> enough_rounds (dst_grpmask e) rounds -> (size (env_cpus e) < fuel)%nat ->
  exists k' e' r, redo fuel rounds sdp e k = Some (k', e', r) /\ lb_inv K0 (dst_cpu e') [] k' /\
    forall n, r = lb_tried n -> 0 <= n /\ src_cpu e' <> this.
Proof.
  revert e k. induction fuel as [|fuel IH]; intros e k [I T D Br Pin Hl] Hth Hr Hf; [lia|]. cbn [redo]. cbv zeta.
  assert (Hswb : negb (should_we_balance e k) = false -> dst_cpu e ∈ env_cpus e).
  { unfold should_we_balance. by case_bool_decide. }
  destruct (negb (should_we_balance e k)); [by eexists _, _, _|]. specialize (Hswb eq_refl).
  pose proof (find_busiest_group_spec e k) as Hg. destruct (find_busiest_group e k) as [[k1 e1] g].
  destruct Hg as (Q1 & Es & Rm). pose proof (quiet_inv _ _ _ _ Q1 I) as I1.
  unfold env_stats, env_fixed in Es. injection Es as Esd Esrc Edst Egrp Eid Ecpus Emax Enew Efl Elp Elb Ets.
  assert (Hout : forall d f r, (forall n, r <> lb_tried n) ->
    exists k' e' r', Some (sd_stat d f k1, e1, r) = Some (k', e', r') /\ lb_inv K0 (dst_cpu e') [] k' /\
      forall n, r' = lb_tried n -> 0 <= n /\ src_cpu e' <> this).
  { intros d f r Hnr. eexists _, _, _. split; [done|]. rewrite Edst. split; [by apply sd_stat_inv|].
    intros n ->. by specialize (Hnr n). }
  destruct g as [g|]; [|by apply Hout]. specialize (Rm g eq_refl).
  destruct (find_busiest_queue e1 g k1) as [b|] eqn:Eq; [|by apply Hout]. clear Hout.
  apply find_busiest_queue_in in Eq. assert (Qg : groups k1 = groups k) by apply Q1. rewrite Qg, Ecpus in Eq.
  assert (Hb : b <> dst_cpu e1) by (rewrite Edst; intros ->; set_solver).
  assert (Hbt : b <> this) by (destruct Hth as [->|Hn]; [by rewrite <- Edst|intros ->; set_solver]).
  apply Z.eqb_neq in Hb as ->.
  set (k2 := sd_stat _ _ k1). assert (I2 : lb_inv K0 (dst_cpu e) [] k2) by by apply sd_stat_inv. clearbody k2. clear I1 Rm Qg I.
  destruct (Z.ltb_spec 1 (nr_running (rqs k2 b))) as [Hnr|_].
  2:{ eexists _, _, _. split; [done|]. cbn. rewrite Edst. split; [done|]. by intros n [= <-]. }
  set (e2 := e1 <| src_cpu := b |> <| env_flags ::= _ |> <| loop_max := _ |>).
  destruct Hr as [Hs Hr'].
  destruct (more_balance_total rounds e2 0 k2) as (k3 & e3 & n & -> & [R1 R2 R3 R4 R5 R8 R6 R7] & Hn).
  { split; [split|..]; unfold pin_ok; cbn -[Z.lor Z.pow]; rewrite ?Edst, ?Ets, ?Efl, ?Elp, ?Egrp, ?Ecpus;
      clear IH; flags; try done; try congruence; try lia. set_solver. }
  { apply enough_rounds_left; cbn; rewrite ?Egrp; [done|lia|congruence]. }
  { done. }
  set (k4 := flag_parent sdp e3 k3).
  assert (I4 : lb_inv K0 (dst_cpu e3) [] k4) by (eapply quiet_inv; [apply quiet_flag_parent|done]). clearbody k4.
  injection R4 as R4a R4b R4c R4d. cbn in R4b, R4c, R5, R8.
  destruct (has_flag (env_flags e3) LBF_ALL_PINNED) eqn:Ea.
  2:{ eexists _, _, _. split; [done|]. split; [done|]. intros m [= <-]. by rewrite R4b. }
  set (e4 := e3 <| env_cpus ::= _ |>). destruct (negb _).
  2:{ eexists _, _, _. by split. }
  apply IH.
  - split; cbn; try done; [set_solver|by apply R7].
  - cbn. rewrite Edst, Ecpus in *. destruct Hth as [->|Hnin]; [|right; set_solver].
    destruct R8 as [->|R8]; [by left|right; set_solver].
  - cbn. rewrite R4c, Egrp. done.
  - cbn. assert (size (env_cpus e3 ∖ {[b]}) < size (env_cpus e))%nat; [|lia].
    apply subset_size. rewrite Ecpus in R5. set_solver.
Qed.

Lemma quiet_lb_all_pinned d e k : quiet k (lb_all_pinned d e k).
Proof. unfold lb_all_pinned, lb_one_pinned. quiet_back. Qed.

(** Asking the stopper of another CPU to push a task, and ending that. *)
Lemma push_inv dst L c f k :
  (forall r, fq_of_rq (f r) = fq_of_rq r) -> (forall r, rq_sd (f r) = rq_sd r) ->
  (forall r, push_request (f r) <> Some c) -> lb_inv K0 dst L k -> lb_inv K0 dst L (upd_rq c f k).
Proof.
  intros Hf Hd Hp [W C P R Hid N T M Q Tk Pu]. set (k' := upd_rq _ _ k).
  assert (Ef : k' ≡f k) by by apply fair_upd_rq.
  assert (Er : forall e, rqs k' e = if decide (c = e) then f (rqs k c) else rqs k e) by (intros e; apply rqs_upd_rq).
  split; try done.
  - by rewrite Ef.
  - intros e p. rewrite (proj1 Ef). apply R.
  - apply (topology_trans K0 k); [done|]. split_and!; try done. intros e. rewrite Er. by destruct (decide (c = e)) as [<-|].
  - intros e. rewrite Er. destruct (decide (c = e)) as [<-|]; [apply Hp|apply Pu].
Qed.

Lemma lb_nothing_moved_inv dst c d e k :
  src_cpu e <> c -> lb_inv K0 dst [] k -> lb_inv K0 dst [] (lb_nothing_moved c d e k).
Proof.
  intros Hne I. unfold lb_nothing_moved. cbv zeta.
  set (k1 := if negb (bool_decide (env_idle e = CPU_NEWLY_IDLE)) then _ else _).
  assert (I1 : lb_inv K0 dst [] k1) by (eapply quiet_inv; [|exact I]; unfold k1; quiet_back). clearbody k1.
  destruct (need_active_balance e k1).
  2:{ eapply quiet_inv; [|exact I1]. unfold lb_interval. quiet_back. }
  destruct (negb (bool_decide _)).
  { eapply quiet_inv; [|exact I1]. unfold lb_one_pinned. quiet_back. }
  set (k2 := if negb (active_balance _) then _ else k1).
  assert (I2 : lb_inv K0 dst [] k2).
  { unfold k2. destruct (negb _); [|done]. eapply quiet_inv; [apply quiet_call|]. apply push_inv; try done.
    intros r [= Heq]. by apply Hne. }
  clearbody k2. eapply quiet_inv; [|exact I2]. unfold lb_interval. quiet_back.
Qed.

(** Fuel that is enough on a machine of [config_NR_CPUS] CPUs. *)
Definition enough_fuel (fuel rounds : nat) : Prop :=
  (config_NR_CPUS < fuel)%nat /\ 0 <= sysctl_sched_nr_migrate < 2 ^ 32 - 1 /\
  Z.of_nat config_NR_CPUS * (sysctl_sched_nr_migrate + 2) + sysctl_sched_nr_migrate < Z.of_nat rounds.

(** No task is in migration. *)
Definition settled (k : kernel) : Prop := forall dst, lb_inv K0 dst [] k.

Lemma settled_any dst k : lb_inv K0 dst [] k -> settled k.
Proof. intros I c. by eapply lb_inv_retarget. Qed.

Lemma settled_quiet k k' : quiet k k' -> settled k -> settled k'.
Proof. intros Q I c. by eapply quiet_inv. Qed.

Lemma settled_topology k c : settled k ->
  for_each_domain k c = for_each_domain K0 c /\ (topology_ok K0 -> topology_ok k).
Proof.
  intros I. pose proof (lb_topology _ _ _ _ (I 0)) as T.
  split; [by apply topology_domains|by apply topology_stays].
Qed.

Context (Topo : topology_ok K0).

Lemma load_balance_total fuel rounds this_cpu d idle k :
  settled k -> d ∈ for_each_domain K0 this_cpu -> enough_fuel fuel rounds ->
  exists k' moved cont, load_balance fuel rounds this_cpu d idle k = Some (k', moved, cont) /\ 0 <= moved /\ settled k'.
Proof.
  intros I Hd (Hf & Hs & Hr). destruct (settled_topology k this_cpu I) as [Ed Ht].
  rewrite <- Ed in Hd. destruct (Ht Topo this_cpu d Hd) as (Hc & Hg & Hsp).
  unfold load_balance. cbv zeta. set (env := mkLbEnv _ _ _ _ _ _ _ _ _ _ _ _ _ _). set (k1 := sd_stat _ _ k).
  destruct (redo_total fuel rounds (sd_parent (domains k d)) this_cpu env k1) as (k' & e' & r & -> & I' & Hn).
  { split; try done. apply sd_stat_inv, I. }
  { by left. }
  { split; [done|]. cbn. nia. }
  { cbn. eapply Nat.le_lt_trans; [|eapply Nat.le_lt_trans; [exact Hsp|exact Hf]]. apply subseteq_size. set_solver. }
  assert (Hq : forall k2, quiet k' k2 -> settled k2).
  { intros k2 Q. eapply settled_quiet; [exact Q|]. by eapply settled_any. }
  destruct r as [cont| |n].
  - eexists _, _, _. split_and!; [done|done|]. apply Hq. etransitivity; [|apply quiet_lb_all_pinned]. quiet_back.
  - eexists _, _, _. split_and!; [done|done|]. apply Hq, quiet_lb_all_pinned.
  - destruct (Hn n eq_refl) as [Hn0 Hsrc]. destruct (n =? 0).
    + eexists _, _, _. split_and!; [done|done|]. eapply settled_any. by apply lb_nothing_moved_inv.
    + eexists _, _, _. split_and!; [done|done|]. apply Hq. unfold lb_interval. quiet_back.
Qed.

(** ** The walks over the domains *)

Context `{WrrConfig}.

Lemma quiet_blocked_averages c k : quiet k (update_blocked_averages c k).
Proof.
  unfold update_blocked_averages. cbv zeta. apply quiet_equiv.
  - by rewrite fair_cfs_avg, fair_clock.
  - by rewrite core_cfs_avg, core_clock.
Qed.

Lemma idle_domains_total fuel rounds c sds cost next k :
  settled k -> (forall d, d ∈ sds -> d ∈ for_each_domain K0 c) -> enough_fuel fuel rounds ->
  exists k' cost' next' n, idle_domains fuel rounds c sds cost next k = Some (k', cost', next', n) /\ settled k'.
Proof.
  intros I Hs Hf. revert cost next k I. induction sds as [|d sds IH]; intros cost next k I; cbn [idle_domains].
  { by eexists _, _, _, _. }
  assert (Hd : d ∈ for_each_domain K0 c) by (apply Hs; by left).
  assert (Hs' : forall e, e ∈ sds -> e ∈ for_each_domain K0 c) by (intros; apply Hs; by right).
  destruct (negb _); [by apply IH|]. destruct (_ <? _); [by eexists _, _, _, _|]. cbv zeta.
  set (bal := if has_flag _ SD_BALANCE_NEWIDLE then _ else _).
  assert (Hb : exists k1 cost1 n, bal = Some (k1, cost1, n) /\ settled k1).
  { unfold bal. destruct (has_flag _ SD_BALANCE_NEWIDLE); [|by eexists _, _, _].
    destruct (load_balance_total fuel rounds c d CPU_NEWLY_IDLE k I Hd Hf) as (k1 & n & b & -> & _ & I1).
    eexists _, _, _. split; [done|]. eapply settled_quiet; [|exact I1]. quiet_back. }
  destruct Hb as (k1 & cost1 & n & -> & I1). destruct (_ || _); [by eexists _, _, _, _|by apply IH].
Qed.

Lemma newly_idle_balance_total fuel rounds c k :
  settled k -> enough_fuel fuel rounds ->
  exists k' n, newly_idle_balance fuel rounds c k = Some (k', n) /\ settled k'.
Proof.
  intros I Hf. unfold newly_idle_balance. cbv zeta. set (k1 := upd_rq c _ k).
  assert (I1 : settled k1) by (eapply settled_quiet; [|exact I]; by apply quiet_rq). clearbody k1.
  assert (Hout : forall next n k, settled k -> exists k' n', Some (idle_balance_out c next n k) = Some (k', n') /\ settled k').
  { intros next n k2 I2. destruct (idle_balance_out c next n k2) as [k' n'] eqn:E. exists k', n'. split; [done|].
    injection E as <- _. eapply settled_quiet; [|exact I2]. quiet_back. }
  destruct (negb _); [by eexists _, _|]. destruct (_ || _); [by apply Hout|].
  assert (I2 : settled (update_blocked_averages c (other_cpus k1))).
  { eapply settled_quiet; [apply quiet_blocked_averages|]. intros dst. apply other_cpus_inv, I1. }
  set (k2 := update_blocked_averages _ _) in *. clearbody k2.
  destruct (idle_domains_total fuel rounds c (for_each_domain k2 c) 0 (u64 (jiffies k + HZ)) k2) as (k3 & cost & next & n & -> & I3).
  { done. } { intros d. by rewrite (proj1 (settled_topology k2 c I2)). } { done. }
  apply Hout. eapply settled_quiet; [|intros dst; apply other_cpus_inv, I3]. quiet_back.
Qed.

Lemma rebalance_walk_total fuel rounds c sds st k :
  settled k -> (forall d, d ∈ sds -> d ∈ for_each_domain K0 c) -> enough_fuel fuel rounds ->
  exists k' st', rebalance_walk fuel rounds c sds st k = Some (k', st') /\ settled k'.
Proof.
  intros I Hs Hf. revert st k I. induction sds as [|d sds IH]; intros st k I; cbn [rebalance_walk].
  { by eexists _, _. }
  assert (Hd : d ∈ for_each_domain K0 c) by (apply Hs; by left).
  assert (Hs' : forall e, e ∈ sds -> e ∈ for_each_domain K0 c) by (intros; apply Hs; by right).
  set (dec := if time_after _ _ then _ else _).
  assert (Hdec : settled dec.1).
  { unfold dec. destruct (time_after _ _); [|done]. eapply settled_quiet; [|exact I]. cbn [fst]. quiet_back. }
  destruct dec as [k1 st1]. cbn [fst] in Hdec. cbv zeta.
  set (st2 := st1 <| reb_max_cost ::= _ |>). clearbody st2.
  destruct (negb (has_flag _ _)); [by apply IH|].
  destruct (negb (reb_continue st2)); [destruct (reb_decay st2); [by apply IH|by eexists _, _]|].
  assert (Hdue : exists k' st' i, rebalance_due fuel rounds c d st2 k1 = Some (k', st', i) /\ settled k').
  { unfold rebalance_due. cbv zeta. destruct (_ && _); [by eexists _, _, _|].
    destruct (time_after_eq _ _); [|by eexists _, _, _].
    destruct (load_balance_total fuel rounds c d (reb_idle st2) k1 Hdec Hd Hf) as (k2 & n & b & -> & _ & I2).
    eexists _, _, _. split; [done|]. eapply settled_quiet; [|exact I2]. quiet_back. }
  destruct Hdue as (k2 & st3 & i & -> & I2). by apply IH.
Qed.

Lemma rebalance_domains_total fuel rounds c idle k :
  settled k -> enough_fuel fuel rounds ->
  exists k', rebalance_domains fuel rounds c idle k = Some k' /\ settled k'.
Proof.
  intros I Hf. unfold rebalance_domains. cbv zeta.
  assert (I1 : settled (update_blocked_averages c k)) by (eapply settled_quiet; [apply quiet_blocked_averages|exact I]).
  set (k1 := update_blocked_averages c k) in *. clearbody k1.
  destruct (rebalance_walk_total fuel rounds c (for_each_domain k1 c)
    (mkReb idle true false 0 (u64 (jiffies k1 + 60 * HZ)) false) k1) as (k2 & st & -> & I2).
  { done. } { intros d. by rewrite (proj1 (settled_topology k1 c I1)). } { done. }
  eexists. split; [done|]. eapply settled_quiet; [|exact I2]. quiet_back.
Qed.

(** ** Active balancing *)

Lemma detach_first_inv l e k :
  lb_inv K0 (dst_cpu e) [] k -> (forall p, p ∈ l -> p ∈ fq_tasks (fq k (src_cpu e))) ->
  let '(k', _, r) := detach_first l e k in
  lb_inv K0 (dst_cpu e) (match r with Some p => [p] | None => [] end) k'.
Proof.
  revert e k. induction l as [|p l IH]; intros e k I Hl; cbn [detach_first]; [done|].
  destruct (can_migrate_task p e k) as [[k1 e1] can] eqn:Ec.
  destruct (can_migrate_inv p e [] k k1 e1 can Ec I) as (I1 & [S1 _ _ _ _ S6] & F1 & C1 & _).
  unfold env_fixed in S1. assert (Ed : dst_cpu e1 = dst_cpu e /\ src_cpu e1 = src_cpu e) by (split; congruence).
  destruct Ed as [Ed Es]. destruct can; cbn [negb].
  - destruct (S6 eq_refl) as [Hdst Hrun]. destruct (attrs_fields _ _ p C1) as (_ & Ea & Eo & _).
    apply sd_stat_inv. rewrite <- Ed. apply detach_task_inv; rewrite ?Ed, ?Es, ?Ea, ?Eo; try done.
    rewrite (proj1 F1). apply Hl. by left.
  - specialize (IH e1 k1). rewrite Ed, Es in IH. apply IH; [done|].
    intros q Hq. rewrite (proj1 F1). apply Hl. by right.
Qed.

Lemma active_balance_total b k : settled k ->
  exists k', active_load_balance_cpu_stop b k = Some k' /\ settled k'.
Proof.
  intros I. unfold active_load_balance_cpu_stop. cbv zeta.
  set (unlock := fun r : rq => r <| active_balance := false |>).
  assert (Hun : forall L dst k, lb_inv K0 dst L k -> lb_inv K0 dst L (upd_rq b unlock k)).
  { intros L dst k1 I1. by apply push_inv. }
  assert (Hret : forall k, settled k -> exists k', Some (upd_rq b unlock k) = Some k' /\ settled k').
  { intros k1 I1. eexists. split; [done|]. intros dst. apply Hun, I1. }
  clearbody unlock. destruct (_ || _); [by apply Hret|]. destruct (negb (b =? _) || negb (active_balance (rqs k b))) eqn:Ea; [by apply Hret|].
  apply orb_false_elim in Ea as [_ Ea%negb_false_iff]. destruct (_ <=? 1); [by apply Hret|].
  pose proof (lb_push _ _ _ _ (I 0) b) as Hp. unfold push_request in Hp. rewrite Ea in Hp.
  destruct (Z.eqb_spec b (push_cpu (rqs k b))) as [Hb|_]; [by rewrite <- Hb in Hp|].
  set (target := push_cpu (rqs k b)). destruct (list_find _ _) as [[i d]|]; [|by apply Hret].
  set (env := mkLbEnv _ _ _ _ _ _ _ _ _ _ _ _ _ _). set (k1 := update_rq_clock b _).
  assert (I1 : lb_inv K0 target [] k1) by apply clock_inv, sd_stat_inv, I.
  pose proof (detach_first_inv (cfs_tasks (rqs k1 b)) env k1 I1 (fun p Hp => Hp)) as Hd.
  unfold detach_one_task. change (src_cpu env) with b. destruct (detach_first _ env k1) as [[k2 e2] [p|]].
  - set (k3 := upd_sd d _ _). assert (I3 : lb_inv K0 target [p] k3).
    { eapply quiet_inv; [|exact Hd]. unfold k3. quiet_back. }
    unfold attach_one_task.
    destruct (attach_task_inv (K0:=K0) target p [] (update_rq_clock target (other_cpus (upd_rq b unlock k3)))) as (k4 & -> & I4).
    { apply clock_inv, other_cpus_inv, Hun, I3. }
    eexists. split; [done|]. by eapply settled_any.
  - apply Hret. eapply settled_any. apply sd_stat_inv, Hd.
Qed.
End Rounds.

#[global] Arguments settled K0 k : clear implicits.

Lemma settled_self K0 k : settled K0 k -> settled k k.
Proof. intros I dst. destruct (I dst). split; try done. Qed.

(** ** The entry points *)

Section Entries.
Context `{FairEnv} `{PeltTable} `{QueueFrame} `{!FairDispatch} `{BalanceEnv} `{!OtherCpus} `{WrrConfig}.

(** [load_balance] returns, without a failed [BUG_ON], whatever the loads
    and the affinities of the tasks: and if every queue was consistent with its
    tasks, every runnable fair task queued once, on a CPU it may use, and none in
    migration, then this is so afterwards, whatever other CPUs did meanwhile to
    tasks that were not being moved. *)
Theorem load_balance_keeps_tasks fuel rounds this_cpu d idle k :
  topology_ok k -> settled k k -> d ∈ for_each_domain k this_cpu -> enough_fuel fuel rounds ->
  exists k' moved cont, load_balance fuel rounds this_cpu d idle k = Some (k', moved, cont) /\ 0 <= moved /\
    settled k k'.
Proof. intros. by apply load_balance_total. Qed.

(** What starts balancing: the softirq, a CPU about to be idle, the stopper of
    the CPU [b], and the tick, which raises the softirq. *)
Inductive balance_event :=
  | ev_softirq
  | ev_newly_idle (c : Z)
  | ev_stopper (b : Z)
  | ev_tick (c : Z).

Definition run_event (fuel rounds : nat) (e : balance_event) (k : kernel) : option kernel :=
  match e with
  | ev_softirq => run_rebalance_domains fuel rounds k
  | ev_newly_idle c => fst <$> newly_idle_balance fuel rounds c k
  | ev_stopper b => active_load_balance_cpu_stop b k
  | ev_tick c => Some (maybe_raise_balance c k)
  end.

Definition run_events (fuel rounds : nat) (es : list balance_event) (k : kernel) : option kernel :=
  foldl (fun r e => r ≫= run_event fuel rounds e) (Some k) es.

Lemma run_event_total K0 fuel rounds e k :
  topology_ok K0 -> settled K0 k -> enough_fuel fuel rounds ->
  exists k', run_event fuel rounds e k = Some k' /\ settled K0 k'.
Proof.
  intros T I Hf. destruct e as [|c|b|c]; cbn [run_event].
  - by apply rebalance_domains_total.
  - destruct (newly_idle_balance_total T fuel rounds c k I Hf) as (k' & n & -> & I'). by exists k'.
  - by apply active_balance_total.
  - eexists. split; [done|]. eapply settled_quiet; [|exact I]. unfold maybe_raise_balance. quiet_back.
Qed.

Lemma run_events_total K0 fuel rounds es k :
  topology_ok K0 -> settled K0 k -> enough_fuel fuel rounds ->
  exists k', run_events fuel rounds es k = Some k' /\ settled K0 k'.
Proof.
  intros T I Hf. unfold run_events. revert k I. induction es as [|e es IH]; intros k I; cbn; [by exists k|].
  destruct (run_event_total K0 fuel rounds e k T I Hf) as (k1 & -> & I1). by apply IH.
Qed.

(** C14: any sequence of periodic, newly idle and active balancing runs to its
    end: no [BUG_ON] fires, not the one for a stopper asked to push to its own
    CPU either, and no task is lost, duplicated, left in migration or placed on a
    CPU it may not use. *)
Theorem balancing_keeps_tasks fuel rounds es k :
  topology_ok k -> settled k k -> enough_fuel fuel rounds ->
  exists k', run_events fuel rounds es k = Some k' /\ settled k k'.
Proof. intros. by apply run_events_total. Qed.
End Entries.

(** ** Two CPUs *)

(** Three runnable tasks on CPU 1, one of which may only run there, and none on
    CPU 0. *)
Section Demo.

#[local] Instance demo_fair_env : FairEnv :=
  {| tun := default_tunables; CONFIG_SCHED_DEBUG := true; feat_START_DEBIT := true; feat_GENTLE_FAIR_SLEEPERS := true;
     feat_NEXT_BUDDY := false; feat_LAST_BUDDY := true; feat_WAKEUP_PREEMPTION := true;
     feat_ATTACH_AGE_LOAD := true; newidle_balance := fun c k => (k, 0) |}.
#[local] Instance demo_ops : QueueOps := fair_class_ops no_ops.
#[local] Instance demo_config : WrrConfig := {| WRR_TIMESLICE := 10; MAX_CPUS := 8; HZ := 100 |}.
#[local] Instance demo_others : OtherCpus.
Proof. intros K0 dst L k. apply clock_inv. Qed.

Definition lb_demo0 : kernel :=
  (demo_kernel fair_sched_class SCHED_NORMAL 120)
    <| tasks := fun p => demo_task fair_sched_class SCHED_NORMAL 120 p
         <| on_rq := if decide (p ∈ [5; 6; 7]) then TASK_ON_RQ_MIGRATING else 0 |> <| task_cpu := 1 |>
         <| cpus_allowed := if decide (p = 7) then {[1]} else {[0; 1]} |>
         <| se ::= fun s => s <| se_avg := mkAvg 0 (1024 * 47742) 0 0 1024 0 |> |> |>
    <| sched_clock := fun _ => 2 ^ 30 |>.
Local Abbreviation lb_demo := (default lb_demo0 (attach_list 1 [5; 6; 7] lb_demo0)).

Lemma lb_demo0_inv : lb_inv lb_demo0 1 [5; 6; 7] lb_demo0.
Proof.
  assert (Hm : forall p, p ∈ [5; 6; 7] -> p = 5 \/ p = 6 \/ p = 7) by (intros p; rewrite !elem_of_cons, elem_of_nil; tauto).
  split; try done.
  - intros c. split; try done.
    + apply NoDup_nil_2.
    + intros p. split; [by intros Hp%not_elem_of_nil|by intros [Hp _]].
    + intros p Hp. cbn in Hp. set_solver.
  - intros p [Hp|Hp%Hm]; [done|]. unfold PID_MAX_LIMIT. lia.
  - repeat constructor; set_solver.
  - intros p Hp%Hm. split_and!; try done. by destruct Hp as [->|[->| ->]].
  - intros p. cbn. destruct (decide (p ∈ [5; 6; 7])); by split.
  - intros p _. cbn. by destruct (decide (p ∈ [5; 6; 7])).
Qed.

Lemma lb_demo_settled : settled lb_demo0 lb_demo.
Proof.
  destruct (attach_list_inv (K0:=lb_demo0) 1 [5; 6; 7] lb_demo0 lb_demo0_inv) as (k & -> & I). by eapply settled_any.
Qed.
Lemma lb_demo_topology : topology_ok lb_demo0.
Proof.
  intros c d Hd. cbn in Hd. apply elem_of_cons in Hd as [->|Hd%not_elem_of_nil]; [|done].
  split_and!; [set_solver|cbn; rewrite size_singleton; lia|by vm_compute].
Qed.

Local Abbreviation lb_demo_balanced := (load_balance 3 103 0 0 CPU_NEWLY_IDLE lb_demo).

Lemma load_balance_keeps_tasks_witness :
  exists k', lb_demo_balanced = Some (k', 2, true) /\ cfs_tasks (rqs k' 0) = [6; 5] /\
    cfs_tasks (rqs k' 1) = [7] /\ settled lb_demo k'.
Proof.
  destruct (load_balance_keeps_tasks 3 103 0 0 CPU_NEWLY_IDLE lb_demo) as (k' & n & b & E & _ & I).
  - eapply topology_stays; [apply lb_demo_settled|apply lb_demo_topology]. exact 0.
  - eapply settled_self, lb_demo_settled.
  - rewrite (proj1 (settled_topology lb_demo 0 lb_demo_settled)). by left.
  - repeat split; by vm_compute.
  - exists k'. assert (R : (fun r => match r with Some (k, n, b) => Some (n, b, cfs_tasks (rqs k 0), cfs_tasks (rqs k 1)) | None => None end)
      lb_demo_balanced = Some (2, true, [6; 5], [7])) by (vm_compute; reflexivity).
    rewrite E in R. injection R as -> -> R0 R1. split_and!; [exact E|exact R0|exact R1|exact I].
Defined.

Lemma balancing_keeps_tasks_witness :
  exists k', run_events 3 103 [ev_tick 0; ev_newly_idle 0; ev_stopper 1; ev_softirq] lb_demo = Some k' /\ settled lb_demo k'.
Proof.
  apply balancing_keeps_tasks.
  - eapply topology_stays; [apply lb_demo_settled|apply lb_demo_topology]. exact 0.
  - eapply settled_self, lb_demo_settled.
  - repeat split; by vm_compute.
Defined.
End Demo.
