(* ===== verification/FairSelect.v ===== *)
(** * Choosing a CPU for a task (fair.c)

    [select_task_rq_fair] and what it calls: the waker/wakee heuristics, the
    choice between the waking and the previous CPU, the search for an idle CPU
    that shares a cache, and the descent to the idlest CPU of the idlest group. *)

From S2P Require Import Prelude SchedTypes Core Frame Wrr CoreWake CorePolicy RtBandwidth.
From S2P Require Import FairMath FairPelt FairQueue FairInv FairFrame FairBusiest FairBalance.

(** The caches and idle states of the machine, and the scheduler features. *)
Class SelectEnv := {
  sd_llc : Z -> option Z;
  sd_llc_size : Z -> Z;
  sd_llc_shared : Z -> option Z;
  cpu_smt_mask : Z -> gset Z;
  sched_smt_present : bool;
  idle_get_state : Z -> option Z;   (* the exit latency of the idle state *)
  scan_time : Z;                    (* what [local_clock] advances by *)
  feat_WA_IDLE : bool;
  feat_WA_WEIGHT : bool;
  feat_WA_BIAS : bool;
  feat_SIS_AVG_CPU : bool;
  feat_SIS_PROP : bool }.

(** [for_each_cpu_wrap]. *)
Definition for_each_cpu_wrap (k : kernel) (mask : gset Z) (start : Z) : list Z :=
  let l := for_each_cpu k mask in filter (fun i => start <= i) l ++ filter (fun i => i < start) l.

(** [cpumask_first]. *)
Definition cpumask_first (k : kernel) (mask : gset Z) : Z := default (nr_cpu_ids k) (head (for_each_cpu k mask)).

Section Select.
Context `{FairEnv} `{PeltTable} `{BalanceEnv} `{WrrConfig} `{WakeEnv} `{SelectEnv}.

(** ** Wakers and wakees *)

Definition record_wakee (p : Z) (k : kernel) : kernel :=
  let cur := current k in
  let k := if time_after (jiffies k) (u64 (wakee_flip_decay_ts (tasks k cur) + HZ))
           then upd_task cur (fun t => t <| wakee_flips ::= fun n => Z.shiftr n 1 |>
                                         <| wakee_flip_decay_ts := jiffies k |>) k
           else k in
  if negb (bool_decide (last_wakee (tasks k cur) = Some p))
  then upd_task cur (fun t => t <| last_wakee := Some p |> <| wakee_flips ::= fun n => u32 (n + 1) |>) k
  else k.

Definition wake_wide (p : Z) (k : kernel) : bool :=
  let master := wakee_flips (tasks k (current k)) in
  let slave := wakee_flips (tasks k p) in
  let factor := sd_llc_size (this_cpu k) in
  let '(master, slave) := if master <? slave then (slave, master) else (master, slave) in
  negb ((slave <? u32 factor) || (master <? u32 (slave * factor))).

Definition wake_affine_idle (this prev : Z) (sync : bool) (k : kernel) : bool :=
  if idle_cpu k this then true
  else sync && (nr_running (rqs k this) =? 1).

Definition wake_affine_weight (d p this prev : Z) (sync : bool) (k : kernel) : bool :=
  let sd := domains k d in
  let this_eff_load := s64 (target_load k this (wake_idx sd)) in
  let prev_eff_load := s64 (source_load k prev (wake_idx sd)) in
  let current_load := task_h_load k (current k) in
  if sync && (u64 this_eff_load <? current_load) then true
  else
    let this_eff_load := if sync then s64 (this_eff_load - current_load) else this_eff_load in
    let task_load := task_h_load k p in
    let this_eff_load := s64 (this_eff_load + task_load) in
    let this_eff_load := if feat_WA_BIAS then s64 (this_eff_load * 100) else this_eff_load in
    let this_eff_load := s64 (this_eff_load * capacity_of k prev) in
    let prev_eff_load := s64 (prev_eff_load - task_load) in
    let prev_eff_load := if feat_WA_BIAS
                         then s64 (prev_eff_load * u32 (100 + u32 (imbalance_pct sd - 100) / 2)) else prev_eff_load in
    let prev_eff_load := s64 (prev_eff_load * capacity_of k this) in
    this_eff_load <=? prev_eff_load.

Definition wake_affine (d p prev : Z) (sync : bool) (k : kernel) : kernel * bool :=
  let this := this_cpu k in
  let affine := feat_WA_IDLE && wake_affine_idle this prev sync k in
  let affine := if feat_WA_WEIGHT && negb affine then wake_affine_weight d p this prev sync k else affine in
  let k := stat_inc p (fun s => s <| nr_wakeups_affine_attempts ::= fun n => u64 (n + 1) |>) k in
  let k := if affine
           then stat_inc p (fun s => s <| nr_wakeups_affine ::= fun n => u64 (n + 1) |>)
                  (sd_stat d (fun s => s <| ttwu_move_affine ::= fun n => u32 (n + 1) |>) k)
           else k in
  (k, affine).

(** ** Utilization without the waking task *)

Definition task_util (k : kernel) (p : Z) : Z := s32 (util_avg (se_avg (sea k p))).

Definition cpu_util_wake (k : kernel) (cpu p : Z) : Z :=
  if negb (cpu =? task_cpu (tasks k p)) || (last_update_time (se_avg (sea k p)) =? 0) then cpu_util k cpu
  else
    let capacity := capacity_orig_of k cpu in
    let util := Z.max (s64 (util_avg (cfs_avg (cfs_of k cpu)) - task_util k p)) 0 in
    s32 (if capacity <=? util then capacity else util).

Definition capacity_spare_wake (k : kernel) (cpu p : Z) : Z :=
  u64 (capacity_orig_of k cpu - cpu_util_wake k cpu p).

Definition wake_cap (p cpu prev : Z) (k : kernel) : kernel * bool :=
  let min_cap := Z.min (capacity_orig_of k prev) (capacity_orig_of k cpu) in
  let max_cap := max_cpu_capacity (rd k) in
  if max_cap - min_cap <? Z.shiftr max_cap 3 then (k, false)
  else
    let k := sync_entity_load_avg p k in
    (k, s64 (min_cap * 1024) <? u32 (task_util k p * capacity_margin)).

(** ** The idlest group and CPU *)

Definition cfs_rq_load_avg (k : kernel) (cpu : Z) : Z := load_avg (cfs_avg (cfs_of k cpu)).

Record idlest_stats := mkIdlest {
  idlest : option Z;
  most_spare_sg : option Z;
  min_runnable_load : Z;
  this_runnable_load : Z;
  min_avg_load : Z;
  this_avg_load : Z;
  most_spare : Z;
  this_spare : Z }.
#[export] Instance eta_idlest_stats : Settable idlest_stats :=
  fun r => mkIdlest (idlest r) (most_spare_sg r) (min_runnable_load r) (this_runnable_load r)
    (min_avg_load r) (this_avg_load r) (most_spare r) (this_spare r).

(** The loads and the greatest spare capacity of the CPUs of a group. *)
Definition group_tally (k : kernel) (p load_idx : Z) (local_group : bool) (acc : Z * Z * Z) (i : Z) : Z * Z * Z :=
  let '(runnable, avg, max_spare) := acc in
  let load := if local_group then source_load k i load_idx else target_load k i load_idx in
  (u64 (runnable + load), u64 (avg + cfs_rq_load_avg k i), Z.max max_spare (capacity_spare_wake k i p)).

(** One round of the loop over the groups. *)
Definition idlest_step (k : kernel) (p this load_idx imbalance_scale imbalance : Z) (st : idlest_stats) (g : Z)
    : idlest_stats :=
  let span := sched_group_span (groups k g) in
  if bool_decide (span ∩ cpus_allowed (tasks k p) = ∅) then st
  else
    let local_group := bool_decide (this ∈ span) in
    let '(runnable, avg, max_spare) :=
      foldl (group_tally k p load_idx local_group) (0, 0, 0) (for_each_cpu k span) in
    let avg := u64 (avg * SCHED_CAPACITY_SCALE) / sgc_capacity (sgc_of k g) in
    let runnable := u64 (runnable * SCHED_CAPACITY_SCALE) / sgc_capacity (sgc_of k g) in
    if local_group
    then st <| this_runnable_load := runnable |> <| this_avg_load := avg |> <| this_spare := max_spare |>
    else
      let st := if u64 (runnable + imbalance) <? min_runnable_load st
                then st <| min_runnable_load := runnable |> <| min_avg_load := avg |> <| idlest := Some g |>
                else if (runnable <? u64 (min_runnable_load st + imbalance)) &&
                        (u64 (imbalance_scale * avg) <? u64 (100 * min_avg_load st))
                then st <| min_avg_load := avg |> <| idlest := Some g |>
                else st in
      if most_spare st <? max_spare then st <| most_spare := max_spare |> <| most_spare_sg := Some g |> else st.

Definition find_idlest_group (d p this sd_flag : Z) (k : kernel) : option Z :=
  let sd := domains k d in
  let over := u32 (imbalance_pct sd - 100) in
  let imbalance_scale := s32 (100 + over / 2) in
  let imbalance := u64 (scale_load_down NICE_0_LOAD * over) / 100 in
  let load_idx := if has_flag sd_flag SD_BALANCE_WAKE then wake_idx sd else forkexec_idx sd in
  let st := foldl (idlest_step k p this load_idx imbalance_scale imbalance)
    (mkIdlest None None U64_MAX 0 U64_MAX 0 0 0) (sd_groups sd) in
  let by_load :=
    match idlest st with
    | None => None
    | Some g =>
        if u64 (this_runnable_load st + imbalance) <? min_runnable_load st then None
        else if (this_runnable_load st <? u64 (min_runnable_load st + imbalance)) &&
                (u64 (100 * this_avg_load st) <? u64 (imbalance_scale * min_avg_load st)) then None
        else Some g
    end in
  if has_flag sd_flag SD_BALANCE_FORK then by_load
  else if (u64 (Z.quot (task_util k p) 2) <? this_spare st) &&
          (u64 (100 * most_spare st) <? u64 (imbalance_scale * this_spare st)) then None
  else if u64 (Z.quot (task_util k p) 2) <? most_spare st then most_spare_sg st
  else by_load.

(** What the loop of [find_idlest_cpu] keeps. *)
Record idlest_cpu := mkIdlestCpu {
  min_load : Z;
  min_exit_latency : Z;
  latest_idle_timestamp : Z;
  least_loaded_cpu : Z;
  shallowest_idle_cpu : Z }.
#[export] Instance eta_idlest_cpu : Settable idlest_cpu :=
  fun r => mkIdlestCpu (min_load r) (min_exit_latency r) (latest_idle_timestamp r) (least_loaded_cpu r)
    (shallowest_idle_cpu r).

Definition idlest_cpu_step (k : kernel) (this : Z) (st : idlest_cpu) (i : Z) : idlest_cpu :=
  if idle_cpu k i then
    let stamp := idle_stamp (rqs k i) in
    let state := idle_get_state i in
    let shallower := match state with Some lat => lat <? min_exit_latency st | None => false end in
    if shallower
    then st <| min_exit_latency := default 0 state |> <| latest_idle_timestamp := stamp |> <| shallowest_idle_cpu := i |>
    else if match state with Some lat => lat =? min_exit_latency st | None => true end &&
            (latest_idle_timestamp st <? stamp)
    then st <| latest_idle_timestamp := stamp |> <| shallowest_idle_cpu := i |>
    else st
  else if shallowest_idle_cpu st =? -1 then
    let load := weighted_cpuload k i in
    if (load <? min_load st) || ((load =? min_load st) && (i =? this))
    then st <| min_load := load |> <| least_loaded_cpu := i |> else st
  else st.

Definition find_idlest_cpu (g p this : Z) (k : kernel) : Z :=
  let grp := groups k g in
  if group_weight grp =? 1 then cpumask_first k (sched_group_span grp)
  else
    let st := foldl (idlest_cpu_step k this) (mkIdlestCpu U64_MAX UINT_MAX 0 this (-1))
      (for_each_cpu k (sched_group_span grp ∩ cpus_allowed (tasks k p))) in
    if negb (shallowest_idle_cpu st =? -1) then shallowest_idle_cpu st else least_loaded_cpu st.

(** ** Idle CPUs that share a cache *)

Definition set_idle_cores (cpu : Z) (val : bool) (k : kernel) : kernel :=
  match sd_llc_shared cpu with
  | Some s => k <| has_idle_cores ::= fun h i => if decide (s = i) then val else h i |>
  | None => k
  end.

Definition test_idle_cores (cpu : Z) (def : bool) (k : kernel) : bool :=
  match sd_llc_shared cpu with
  | Some s => has_idle_cores k s
  | None => def
  end.

Definition __update_idle_core (c : Z) (k : kernel) : kernel :=
  let core := rq_cpu (rqs k c) in
  if test_idle_cores core true k then k
  else if forallb (fun cpu => (cpu =? core) || idle_cpu k cpu) (for_each_cpu k (cpu_smt_mask core))
  then set_idle_cores core true k else k.

(** The loop over the cores; the threads of a core that was looked at leave the
    mask. *)
Fixpoint idle_core_scan (k : kernel) (l : list Z) (cpus : gset Z) : option Z :=
  match l with
  | [] => None
  | core :: l =>
      if negb (bool_decide (core ∈ cpus)) then idle_core_scan k l cpus
      else
        let threads := for_each_cpu k (cpu_smt_mask core) in
        if forallb (idle_cpu k) threads then Some core
        else idle_core_scan k l (cpus ∖ list_to_set threads)
  end.

Definition select_idle_core (p d target : Z) (k : kernel) : kernel * Z :=
  if negb sched_smt_present then (k, -1)
  else if negb (test_idle_cores target false k) then (k, -1)
  else
    let cpus := sched_domain_span (domains k d) ∩ cpus_allowed (tasks k p) in
    match idle_core_scan k (for_each_cpu_wrap k cpus target) cpus with
    | Some core => (k, core)
    | None => (set_idle_cores target false k, -1)
    end.

Definition select_idle_smt (p target : Z) (k : kernel) : Z :=
  if negb sched_smt_present then -1
  else match list_find (fun cpu => cpu ∈ cpus_allowed (tasks k p) /\ idle_cpu k cpu = true)
               (for_each_cpu k (cpu_smt_mask target)) with
       | Some (_, cpu) => cpu
       | None => -1
       end.

(** How the scan of [select_idle_cpu] ends. *)
Inductive scan_result := scan_spent | scan_found (cpu : Z) | scan_end.

Fixpoint idle_cpu_scan (k : kernel) (p : Z) (l : list Z) (nr : Z) : scan_result :=
  match l with
  | [] => scan_end
  | cpu :: l =>
      let nr := s32 (nr - 1) in
      if nr =? 0 then scan_spent
      else if negb (bool_decide (cpu ∈ cpus_allowed (tasks k p))) then idle_cpu_scan k p l nr
      else if idle_cpu k cpu then scan_found cpu
      else idle_cpu_scan k p l nr
  end.

Definition select_idle_cpu (p d target : Z) (k : kernel) : kernel * Z :=
  match sd_llc (this_cpu k) with
  | None => (k, -1)
  | Some this_sd =>
      let avg_idle := avg_idle (rqs k (this_cpu k)) / 512 in
      let avg_cost := u64 (avg_scan_cost (domains k this_sd) + 1) in
      if feat_SIS_AVG_CPU && (avg_idle <? avg_cost) then (k, -1)
      else
        let span_avg := u64 (span_weight (domains k d) * avg_idle) in
        let nr := if feat_SIS_PROP
                  then if u64 (4 * avg_cost) <? span_avg then s32 (span_avg / u32 avg_cost) else 4
                  else INT_MAX in
        let update := upd_sd this_sd (fun s => s <| avg_scan_cost ::= fun cost =>
                        u64 (cost + Z.quot (s64 (scan_time - cost)) 8) |>) in
        match idle_cpu_scan k p (for_each_cpu_wrap k (sched_domain_span (domains k d)) target) nr with
        | scan_spent => (k, -1)
        | scan_found cpu => (update k, cpu)
        | scan_end => (update k, nr_cpu_ids k)
        end
  end.

Definition select_idle_sibling (p prev target : Z) (k : kernel) : kernel * Z :=
  let valid i := u32 i <? nr_cpu_ids k in
  if idle_cpu k target then (k, target)
  else if negb (prev =? target) && cpus_share_cache prev target && idle_cpu k prev then (k, prev)
  else
    match sd_llc target with
    | None => (k, target)
    | Some d =>
        let '(k, i) := select_idle_core p d target k in
        if valid i then (k, i)
        else
          let '(k, i) := select_idle_cpu p d target k in
          if valid i then (k, i)
          else
            let i := select_idle_smt p target k in
            if valid i then (k, i) else (k, target)
    end.

(** ** [select_task_rq_fair] *)

(** The first loop over the domains: the affine one and the largest one with
    the flag. *)
Fixpoint choose_domain (k : kernel) (l : list Z) (want_affine : bool) (prev sd_flag : Z) (sd : option Z)
    : option Z * option Z :=
  match l with
  | [] => (None, sd)
  | tmp :: l =>
      let fl := sd_flags (domains k tmp) in
      if negb (has_flag fl SD_LOAD_BALANCE) then (None, sd)
      else if want_affine && has_flag fl SD_WAKE_AFFINE && bool_decide (prev ∈ sched_domain_span (domains k tmp))
      then (Some tmp, sd)
      else if has_flag fl sd_flag then choose_domain k l want_affine prev sd_flag (Some tmp)
      else if negb want_affine then (None, sd)
      else choose_domain k l want_affine prev sd_flag sd
  end.

(** The domain of the new CPU to go on with: the largest one below [weight]. *)
Fixpoint lower_domain (k : kernel) (l : list Z) (weight sd_flag : Z) (sd : option Z) : option Z :=
  match l with
  | [] => sd
  | tmp :: l =>
      if weight <=? span_weight (domains k tmp) then sd
      else lower_domain k l weight sd_flag (if has_flag (sd_flags (domains k tmp)) sd_flag then Some tmp else sd)
  end.

Fixpoint idlest_walk (fuel : nat) (p sd_flag : Z) (sd : option Z) (cpu new_cpu : Z) (k : kernel) : option Z :=
  match sd with
  | None => Some new_cpu
  | Some d =>
      match fuel with
      | O => None
      | S n =>
          let child := sd_child (domains k d) in
          if negb (has_flag (sd_flags (domains k d)) sd_flag) then idlest_walk n p sd_flag child cpu new_cpu k
          else
            match find_idlest_group d p cpu sd_flag k with
            | None => idlest_walk n p sd_flag child cpu new_cpu k
            | Some g =>
                let new_cpu := find_idlest_cpu g p cpu k in
                if (new_cpu =? -1) || (new_cpu =? cpu) then idlest_walk n p sd_flag child cpu new_cpu k
                else
                  let sd := lower_domain k (for_each_domain k new_cpu) (span_weight (domains k d)) sd_flag None in
                  idlest_walk n p sd_flag sd new_cpu new_cpu k
            end
      end
  end.

Definition select_task_rq_fair (fuel : nat) (p prev sd_flag wake_flags : Z) (k : kernel) : option (kernel * Z) :=
  let cpu := this_cpu k in
  let sync := has_flag wake_flags WF_SYNC in
  let '(k, want_affine) :=
    if has_flag sd_flag SD_BALANCE_WAKE then
      let k := record_wakee p k in
      if wake_wide p k then (k, false)
      else let '(k, cap) := wake_cap p cpu prev k in
           (k, negb cap && bool_decide (cpu ∈ cpus_allowed (tasks k p)))
    else (k, false) in
  let '(affine_sd, sd) := choose_domain k (for_each_domain k cpu) want_affine prev sd_flag None in
  let pick_cpu new_cpu k :=
    Some (if has_flag sd_flag SD_BALANCE_WAKE then select_idle_sibling p prev new_cpu k else (k, new_cpu)) in
  match affine_sd, sd with
  | Some a, _ =>
      if cpu =? prev then pick_cpu prev k
      else let '(k, affine) := wake_affine a p prev sync k in
           pick_cpu (if affine then cpu else prev) k
  | None, None => pick_cpu prev k
  | None, Some d =>
      match idlest_walk fuel p sd_flag (Some d) cpu prev k with
      | Some new_cpu => Some (k, new_cpu)
      | None => None
      end
  end.
End Select.

(** ** Choosing changes no queue *)

Section SelectFrame.
Context `{FairEnv} `{PeltTable} `{BalanceEnv} `{WrrConfig} `{WakeEnv} `{SelectEnv}.

Lemma core_upd_sd d f k : (forall sd, sd_shape (f sd) = sd_shape sd) -> upd_sd d f k ≡c k.
Proof.
  intros Hf. split_and!; try done. intros e. unfold upd_sd. cbn.
  destruct (decide (d = e)) as [<-|]; [by rewrite fn_lookup_alter|by rewrite fn_lookup_alter_ne].
Qed.
Lemma core_domain_stat d f k : sd_stat d f k ≡c k.
Proof. unfold sd_stat. destruct (schedstat_enabled k); [by apply core_upd_sd|done]. Qed.
Lemma core_task_stat p f k : stat_inc p f k ≡c k.
Proof. unfold stat_inc. fair_core. Qed.

Lemma core_record_wakee p k : record_wakee p k ≡c k.
Proof. unfold record_wakee. fair_core. Qed.
Lemma core_wake_affine d p prev sync k : (wake_affine d p prev sync k).1 ≡c k.
Proof.
  unfold wake_affine. cbv zeta. cbn [fst]. set (a := if _ && _ then _ else _). clearbody a.
  destruct a; by rewrite ?core_task_stat, ?core_domain_stat, ?core_task_stat.
Qed.
Lemma core_wake_cap p cpu prev k : (wake_cap p cpu prev k).1 ≡c k.
Proof.
  unfold wake_cap. cbv zeta. destruct (_ <? _); [done|]. cbn [fst].
  unfold sync_entity_load_avg, __update_load_avg_blocked_se. fair_core.
Qed.
Lemma core_set_idle_cores c v k : set_idle_cores c v k ≡c k.
Proof. unfold set_idle_cores. by destruct (sd_llc_shared c). Qed.
Lemma core_idle_core p d t k : (select_idle_core p d t k).1 ≡c k.
Proof.
  unfold select_idle_core. cbv zeta. destruct (negb _); [done|]. destruct (negb _); [done|].
  destruct (idle_core_scan _ _ _); [done|]. apply core_set_idle_cores.
Qed.
Lemma core_idle_cpu p d t k : (select_idle_cpu p d t k).1 ≡c k.
Proof.
  unfold select_idle_cpu. cbv zeta. destruct (sd_llc (this_cpu k)); [|done]. destruct (_ && _); [done|].
  destruct (idle_cpu_scan _ _ _ _); [done|by apply core_upd_sd..].
Qed.

(** ** Idle siblings *)

Lemma wrap_in k mask start i : i ∈ for_each_cpu_wrap k mask start -> i ∈ mask.
Proof.
  unfold for_each_cpu_wrap, for_each_cpu. rewrite elem_of_app, !list_elem_of_filter. tauto.
Qed.

Lemma idle_core_scan_in k l cpus core : idle_core_scan k l cpus = Some core -> core ∈ cpus.
Proof.
  revert cpus. induction l as [|c l IH]; intros cpus; cbn; [done|].
  case_bool_decide; cbn [negb]; [|apply IH]. destruct (forallb _ _); [by intros [= <-]|]. intros Hs%IH. set_solver.
Qed.

(** The scan finds the first idle CPU of the list that the task may use. *)
Lemma idle_cpu_scan_found k p l nr cpu :
  idle_cpu_scan k p l nr = scan_found cpu -> cpu ∈ l /\ cpu ∈ cpus_allowed (tasks k p) /\ idle_cpu k cpu = true.
Proof.
  revert nr. induction l as [|c l IH]; intros nr; cbn; [done|]. destruct (_ =? 0); [done|].
  case_bool_decide as Ha; cbn [negb].
  - destruct (idle_cpu k c) eqn:Ei; [intros [= <-]; split_and!; [by left|done|done]|].
    intros [??]%IH. split; [by right|done].
  - intros [??]%IH. split; [by right|done].
Qed.

(** The answers that are CPUs are CPUs the task may use. *)
Definition usable (k : kernel) (p i : Z) : Prop := u32 i < nr_cpu_ids k -> i ∈ cpus_allowed (tasks k p).

Lemma select_idle_core_usable p d t k : nr_cpu_ids k < 2 ^ 31 -> usable k p (select_idle_core p d t k).2.
Proof.
  intros Hn. assert (Hm : usable k p (-1)) by (unfold usable; change (u32 (-1)) with 4294967295; lia).
  unfold select_idle_core. cbv zeta. destruct (negb _); [done|]. destruct (negb _); [done|].
  destruct (idle_core_scan _ _ _) eqn:E; [|done]. intros _. apply idle_core_scan_in in E. set_solver.
Qed.
Lemma select_idle_cpu_usable p d t k : 0 <= nr_cpu_ids k < 2 ^ 31 -> usable k p (select_idle_cpu p d t k).2.
Proof.
  intros Hn. assert (Hm : usable k p (-1)) by (unfold usable; change (u32 (-1)) with 4294967295; lia).
  unfold select_idle_cpu. cbv zeta. destruct (sd_llc (this_cpu k)); [|done]. destruct (_ && _); [done|].
  destruct (idle_cpu_scan _ _ _ _) eqn:E; [done| |].
  - intros _. by apply idle_cpu_scan_found in E as (_ & ? & _).
  - intros Hlt. cbn in Hlt. rewrite u32_id in Hlt by lia. lia.
Qed.
Lemma select_idle_smt_usable p t k : nr_cpu_ids k < 2 ^ 31 -> usable k p (select_idle_smt p t k).
Proof.
  intros Hn. assert (Hm : usable k p (-1)) by (unfold usable; change (u32 (-1)) with 4294967295; lia).
  unfold select_idle_smt. destruct (negb _); [done|]. destruct (list_find _ _) as [[i c]|] eqn:E; [|done].
  intros _. by apply list_find_Some in E as (_ & [? _] & _).
Qed.

Lemma usable_core k k' p i : k' ≡c k -> usable k' p i -> usable k p i.
Proof.
  intros E. unfold usable. destruct (ce_glob _ _ E) as (_ & -> & _). by rewrite (ce_task cpus_allowed _ _ p E).
Qed.

Lemma select_idle_sibling_spec p prev t k : 0 <= nr_cpu_ids k < 2 ^ 31 ->
  let '(k', c) := select_idle_sibling p prev t k in
  k' ≡c k /\ (c = t \/ c = prev \/ c ∈ cpus_allowed (tasks k p)).
Proof.
  intros Hn. unfold select_idle_sibling. cbv zeta. destruct (idle_cpu k t); [split; [done|auto]|]. destruct (_ && _); [split; [done|auto]|].
  destruct (sd_llc t) as [d|]; [|split; [done|auto]].
  pose proof (core_idle_core p d t k) as E1. pose proof (select_idle_core_usable p d t k (proj2 Hn)) as U1.
  destruct (select_idle_core p d t k) as [k1 i1]. cbn [fst snd] in *.
  destruct (Z.ltb_spec (u32 i1) (nr_cpu_ids k)) as [Hv|_]; [split; [done|right; right; by apply U1]|].
  assert (Hn1 : nr_cpu_ids k1 = nr_cpu_ids k) by by destruct (ce_glob _ _ E1) as (_ & -> & _).
  pose proof (core_idle_cpu p d t k1) as E2.
  pose proof (select_idle_cpu_usable p d t k1 ltac:(by rewrite Hn1)) as U2. apply (usable_core _ _ _ _ E1) in U2.
  destruct (select_idle_cpu p d t k1) as [k2 i2]. cbn [fst snd] in *. rewrite E1 in E2.
  destruct (Z.ltb_spec (u32 i2) (nr_cpu_ids k)) as [Hv|_]; [split; [done|right; right; by apply U2]|].
  assert (Hn2 : nr_cpu_ids k2 = nr_cpu_ids k) by by destruct (ce_glob _ _ E2) as (_ & -> & _).
  pose proof (select_idle_smt_usable p t k2 ltac:(rewrite Hn2; apply Hn)) as U3. apply (usable_core _ _ _ _ E2) in U3.
  cbv zeta. destruct (Z.ltb_spec (u32 (select_idle_smt p t k2)) (nr_cpu_ids k)) as [Hv|_]; [|split; [done|auto]].
  split; [done|right; right; by apply U3].
Qed.

(** ** The descent *)

(** The domains as they were built: a group counts its CPUs, and a child is one
    level below its parent and no larger. *)
Record domains_built (level : Z -> nat) (k : kernel) : Prop := {
  db_ids : 0 <= nr_cpu_ids k < 2 ^ 31;
  db_weight g : group_weight (groups k g) = Z.of_nat (size (sched_group_span (groups k g)));
  db_span g i : i ∈ sched_group_span (groups k g) -> 0 <= i < nr_cpu_ids k;
  db_child d e : sd_child (domains k d) = Some e ->
    (level e < level d)%nat /\ span_weight (domains k e) <= span_weight (domains k d);
  db_level d : (level d <= sched_domain_level_max)%nat;
  db_size d : 0 <= span_weight (domains k d) <= Z.of_nat config_NR_CPUS }.

Definition allowed_group (k : kernel) (p : Z) (o : option Z) : Prop :=
  forall g, o = Some g -> sched_group_span (groups k g) ∩ cpus_allowed (tasks k p) <> ∅.

Lemma idlest_step_allowed k p this i sc im st g :
  allowed_group k p (idlest st) /\ allowed_group k p (most_spare_sg st) ->
  let st' := idlest_step k p this i sc im st g in
  allowed_group k p (idlest st') /\ allowed_group k p (most_spare_sg st').
Proof.
  intros [A B]. unfold idlest_step. cbv zeta. case_bool_decide as Hs; [done|].
  destruct (foldl _ _ _) as [[r a] m]. destruct (bool_decide _); [done|].
  assert (Hg : allowed_group k p (Some g)) by by intros g' [= <-].
  set (st1 := if u64 (_ + im) <? _ then _ else _).
  assert (Hst : allowed_group k p (idlest st1) /\ allowed_group k p (most_spare_sg st1)).
  { unfold st1. destruct (_ <? _); [done|]. by destruct (_ && _). }
  clearbody st1. destruct Hst. by destruct (_ <? m).
Qed.

Lemma find_idlest_group_allowed d p this fl k : allowed_group k p (find_idlest_group d p this fl k).
Proof.
  unfold find_idlest_group. cbv zeta.
  assert (Hf : forall i sc im l st, allowed_group k p (idlest st) /\ allowed_group k p (most_spare_sg st) ->
    let st' := foldl (idlest_step k p this i sc im) st l in
    allowed_group k p (idlest st') /\ allowed_group k p (most_spare_sg st')).
  { intros i sc im. induction l as [|g l IH]; intros st Hst; [done|]. cbn [foldl]. apply IH, idlest_step_allowed, Hst. }
  set (st := foldl _ _ _).
  assert (Hst : allowed_group k p (idlest st) /\ allowed_group k p (most_spare_sg st)) by by apply Hf.
  destruct Hst as [A B]. clearbody st.
  set (by_load := match idlest st with Some _ => _ | None => None end).
  assert (C : allowed_group k p by_load).
  { unfold by_load. destruct (idlest st); [|done]. destruct (_ <? _); [done|]. by destruct (_ && _). }
  clearbody by_load. destruct (has_flag _ _); [done|]. destruct (_ && _); [done|]. by destruct (_ <? _).
Qed.

(** What the loop of [find_idlest_cpu] ends with is on the list, or untouched. *)
Lemma idlest_cpu_loop k this l st (P : Z -> Prop) :
  (forall i, i ∈ l -> P i) -> P (least_loaded_cpu st) ->
  (shallowest_idle_cpu st <> -1 -> P (shallowest_idle_cpu st)) ->
  let st' := foldl (idlest_cpu_step k this) st l in
  P (least_loaded_cpu st') /\ (shallowest_idle_cpu st' <> -1 -> P (shallowest_idle_cpu st')).
Proof.
  revert st. induction l as [|i l IH]; intros st Hl A B; [done|]. cbn [foldl].
  assert (Hi : P i) by (apply Hl; by left). apply IH; [intros; apply Hl; by right|..].
  - unfold idlest_cpu_step. cbv zeta. repeat case_match; done.
  - unfold idlest_cpu_step. cbv zeta. repeat case_match; done.
Qed.

(** The first CPU of a group of one. *)
Lemma single_first k (s : gset Z) i :
  size s = 1%nat -> i ∈ s -> 0 <= i < nr_cpu_ids k -> cpumask_first k s = i.
Proof.
  intros Hs Hi Hr. unfold cpumask_first. assert (Hin : i ∈ for_each_cpu k s).
  { apply list_elem_of_filter. by rewrite elem_of_seqZ. }
  destruct (for_each_cpu k s) as [|c l] eqn:E; [by apply not_elem_of_nil in Hin|]. cbn.
  assert (Hc : c ∈ for_each_cpu k s) by (rewrite E; by left). apply list_elem_of_filter in Hc as [Hc _].
  by apply (size_singleton_inv s).
Qed.

Lemma find_idlest_cpu_in level g p this k :
  domains_built level k -> sched_group_span (groups k g) ∩ cpus_allowed (tasks k p) <> ∅ ->
  find_idlest_cpu g p this k = this \/ find_idlest_cpu g p this k ∈ cpus_allowed (tasks k p).
Proof.
  intros D Hne. unfold find_idlest_cpu. cbv zeta. destruct (Z.eqb_spec (group_weight (groups k g)) 1) as [Hw|_].
  - right. apply set_choose_L in Hne as [i [Hi Ha]%elem_of_intersection].
    rewrite (single_first k _ i); [done| |done|by apply (db_span _ _ D g)]. pose proof (db_weight _ _ D g). lia.
  - set (l := for_each_cpu k _).
    destruct (idlest_cpu_loop k this l (mkIdlestCpu U64_MAX UINT_MAX 0 this (-1))
      (fun i => i = this \/ i ∈ cpus_allowed (tasks k p))) as [A B].
    + intros i Hi. right. apply list_elem_of_filter in Hi as [Hi _]. set_solver.
    + by left.
    + done.
    + destruct (Z.eqb_spec (shallowest_idle_cpu (foldl (idlest_cpu_step k this)
        (mkIdlestCpu U64_MAX UINT_MAX 0 this (-1)) l)) (-1)) as [|Hs]; [exact A|by apply B].
Qed.

Lemma lower_domain_smaller k l w fl sd e :
  (forall d, sd = Some d -> span_weight (domains k d) < w) -> lower_domain k l w fl sd = Some e ->
  span_weight (domains k e) < w.
Proof.
  revert sd. induction l as [|t l IH]; intros sd Hsd; cbn; [apply Hsd|].
  destruct (Z.leb_spec w (span_weight (domains k t))); [apply Hsd|]. apply IH.
  intros d. destruct (has_flag _ _); [by intros [= <-]|apply Hsd].
Qed.

(** What is left of the descent from a domain. *)
Definition descent (level : Z -> nat) (k : kernel) (sd : option Z) : Z :=
  match sd with
  | Some d => span_weight (domains k d) * (Z.of_nat sched_domain_level_max + 1) + Z.of_nat (level d) + 1
  | None => 0
  end.

Lemma idlest_walk_total level fuel p fl sd cpu new k (P : Z -> Prop) :
  domains_built level k -> descent level k sd <= Z.of_nat fuel ->
  (forall i, i ∈ cpus_allowed (tasks k p) -> P i) -> P cpu -> P new ->
  exists c, idlest_walk fuel p fl sd cpu new k = Some c /\ P c.
Proof.
  intros D. revert sd cpu new. induction fuel as [|fuel IH]; intros sd cpu new Hf HP Hc Hn.
  { destruct sd as [d|]; [|by exists new]. exfalso. pose proof (db_size _ _ D d). unfold descent in Hf. nia. }
  destruct sd as [d|]; [|by exists new]. cbn [idlest_walk]. cbv zeta.
  pose proof (db_size _ _ D d) as Hw. pose proof (db_level _ _ D d) as Hl.
  assert (Hch : forall n, P n -> exists c, idlest_walk fuel p fl (sd_child (domains k d)) cpu n k = Some c /\ P c).
  { intros n Hn'. apply IH; try done. destruct (sd_child (domains k d)) as [e|] eqn:Ee; [|cbn; lia].
    destruct (db_child _ _ D d e Ee) as [Hlv Hsw]. unfold descent in *. nia. }
  destruct (negb _); [by apply Hch|].
  pose proof (find_idlest_group_allowed d p cpu fl k) as Hg.
  destruct (find_idlest_group d p cpu fl k) as [g|]; [|by apply Hch].
  assert (Hnew : P (find_idlest_cpu g p cpu k)).
  { destruct (find_idlest_cpu_in level g p cpu k D (Hg g eq_refl)) as [-> |?]; [done|by apply HP]. }
  destruct (_ || _); [by apply Hch|]. apply IH; try done.
  destruct (lower_domain _ _ _ _ _) as [e|] eqn:Ee; [|cbn; lia].
  apply lower_domain_smaller in Ee; [|done]. pose proof (db_size _ _ D e). pose proof (db_level _ _ D e).
  unfold descent in *. nia.
Qed.


Lemma domains_built_core level k k' : k' ≡c k -> domains_built level k -> domains_built level k'.
Proof.
  intros E [A B C D L W]. destruct (ce_glob _ _ E) as (_ & En & _ & _ & _ & _ & _ & _ & Eg).
  assert (Es : forall d, sd_child (domains k' d) = sd_child (domains k d) /\ span_weight (domains k' d) = span_weight (domains k d)).
  { intros d. destruct E as (_ & _ & _ & Es). specialize (Es d). unfold sd_shape in Es. split; congruence. }
  split; rewrite ?En, ?Eg; try done.
  - intros d e. destruct (Es d) as [-> ->], (Es e) as [_ ->]. apply D.
  - intros d. destruct (Es d) as [_ ->]. apply W.
Qed.

(** C20: [select_task_rq_fair] ends, after at most as many steps as the domains
    of the machine allow, and answers with the previous CPU, the waking CPU or a
    CPU the task may use, without touching queues, affinities or what any other
    class keeps of a task. *)
Theorem select_task_rq_fair_places level fuel p prev fl wf k :
  domains_built level k -> ((config_NR_CPUS + 1) * (sched_domain_level_max + 1) <= fuel)%nat ->
  exists k' c, select_task_rq_fair fuel p prev fl wf k = Some (k', c) /\ k' ≡c k /\
    (c = prev \/ c = this_cpu k \/ c ∈ cpus_allowed (tasks k p)).
Proof.
  intros D Hf. unfold select_task_rq_fair. cbv zeta.
  set (st := if has_flag fl SD_BALANCE_WAKE then _ else (k, false)).
  assert (E1 : st.1 ≡c k).
  { unfold st. destruct (has_flag fl SD_BALANCE_WAKE); [|done]. destruct (wake_wide _ _); [apply core_record_wakee|].
    pose proof (core_wake_cap p (this_cpu k) prev (record_wakee p k)) as E.
    destruct (wake_cap _ _ _ _) as [k1 cap]. cbn [fst] in *. by rewrite E, core_record_wakee. }
  destruct st as [k1 want]. cbn [fst] in E1. pose proof (domains_built_core level k k1 E1 D) as D1.
  assert (Ha : forall k2 c, k2 ≡c k -> c ∈ cpus_allowed (tasks k2 p) -> c ∈ cpus_allowed (tasks k p)).
  { intros k2 c E. by rewrite (ce_task cpus_allowed _ _ p E). }
  assert (Hpick : forall k2 c, k2 ≡c k -> c = prev \/ c = this_cpu k \/ c ∈ cpus_allowed (tasks k p) ->
    exists k' c', Some (if has_flag fl SD_BALANCE_WAKE then select_idle_sibling p prev c k2 else (k2, c)) = Some (k', c') /\
      k' ≡c k /\ (c' = prev \/ c' = this_cpu k \/ c' ∈ cpus_allowed (tasks k p))).
  { intros k2 c E2 Hc. destruct (has_flag fl SD_BALANCE_WAKE); [|by exists k2, c].
    assert (Hn : nr_cpu_ids k2 = nr_cpu_ids k) by by destruct (ce_glob _ _ E2) as (_ & -> & _).
    pose proof (select_idle_sibling_spec p prev c k2 ltac:(rewrite Hn; apply D)) as S.
    destruct (select_idle_sibling p prev c k2) as [k3 c3]. destruct S as [E3 Hc3]. exists k3, c3.
    split_and!; [done|by rewrite E3|]. destruct Hc3 as [->|[->|Hc3]]; [done|by left|right; right; by eapply Ha]. }
  destruct (choose_domain _ _ _ _ _ _) as [[a|] sd].
  - destruct (this_cpu k =? prev); [apply Hpick; [done|by left]|].
    pose proof (core_wake_affine a p prev (has_flag wf WF_SYNC) k1) as E2.
    destruct (wake_affine _ _ _ _ _) as [k2 aff]. cbn [fst] in E2.
    apply Hpick; [by rewrite E2|]. destruct aff; [right; by left|by left].
  - destruct sd as [d|]; [|apply Hpick; [done|by left]].
    destruct (idlest_walk_total level fuel p fl (Some d) (this_cpu k) prev k1
      (fun c => c = prev \/ c = this_cpu k \/ c ∈ cpus_allowed (tasks k p))) as (c & -> & Hc); try done.
    + pose proof (db_size _ _ D1 d). pose proof (db_level _ _ D1 d). unfold descent. nia.
    + intros i Hi. right. right. by eapply Ha.
    + right. by left.
    + by left.
    + by exists k1, c.
Qed.

(** ** The idlest CPU of a group *)

(** What the loop knows after the CPUs in [l]. *)
Record idlest_known (k : kernel) (l : list Z) (st : idlest_cpu) : Prop := {
  ik_found : shallowest_idle_cpu st <> -1 -> shallowest_idle_cpu st ∈ l /\ idle_cpu k (shallowest_idle_cpu st) = true;
  ik_none : shallowest_idle_cpu st = -1 -> latest_idle_timestamp st = 0 /\ min_exit_latency st = UINT_MAX /\
    forall i, i ∈ l -> idle_cpu k i = true -> idle_get_state i = None /\ idle_stamp (rqs k i) <= 0;
  ik_latency i lat : i ∈ l -> idle_cpu k i = true -> idle_get_state i = Some lat -> min_exit_latency st <= lat;
  ik_state : shallowest_idle_cpu st <> -1 -> (forall i, i ∈ l -> idle_cpu k i = true -> is_Some (idle_get_state i)) ->
    idle_get_state (shallowest_idle_cpu st) = Some (min_exit_latency st);
  ik_load : shallowest_idle_cpu st = -1 -> forall i, i ∈ l -> idle_cpu k i = false -> min_load st <= weighted_cpuload k i;
  ik_least : (min_load st = U64_MAX /\ forall i, i ∈ l -> shallowest_idle_cpu st = -1 -> idle_cpu k i = true) \/
    (least_loaded_cpu st ∈ l /\ weighted_cpuload k (least_loaded_cpu st) = min_load st) }.

Context (k : kernel).
Hypothesis latencies : forall i lat, idle_get_state i = Some lat -> 0 <= lat < UINT_MAX.
Hypothesis loads : forall i, 0 <= weighted_cpuload k i < U64_MAX.

Lemma in_snoc {A} (l : list A) i j : j ∈ l ++ [i] <-> j ∈ l \/ j = i.
Proof. by rewrite elem_of_app, list_elem_of_singleton. Qed.

(** An idle CPU becomes the answer. *)
Lemma idlest_pick l st st' i :
  idlest_known k l st -> 0 <= i -> idle_cpu k i = true -> shallowest_idle_cpu st' = i ->
  min_exit_latency st' <= min_exit_latency st ->
  (forall lat, idle_get_state i = Some lat -> lat = min_exit_latency st') ->
  (least_loaded_cpu st', min_load st') = (least_loaded_cpu st, min_load st) -> idlest_known k (l ++ [i]) st'.
Proof.
  intros [F N La S Lo Le] Hi Hid Es Hm Hlat Hl. injection Hl as E1 E2. split; rewrite ?Es, ?E1, ?E2; try lia.
  - intros _. split; [apply in_snoc; by right|done].
  - intros j lat [Hj| ->]%in_snoc Hj' Hs; [specialize (La j lat Hj Hj' Hs); lia|]. rewrite (Hlat lat Hs). lia.
  - intros _ Hall. destruct (Hall i) as [lat Hs]; [apply in_snoc; by right|done|]. by rewrite Hs, (Hlat lat Hs).
  - destruct Le as [[Hu _]|[Hu Hw]]; [left; split; [done|lia]|right]. split; [apply in_snoc; by left|done].
Qed.

(** A CPU that changes nothing. *)
Lemma idlest_keep l st i :
  idlest_known k l st ->
  shallowest_idle_cpu st <> -1 \/ (idle_cpu k i = true /\ idle_get_state i = None /\ idle_stamp (rqs k i) <= 0) ->
  (forall lat, idle_cpu k i = true -> idle_get_state i = Some lat -> min_exit_latency st <= lat) ->
  idlest_known k (l ++ [i]) st.
Proof.
  intros [F N La S Lo Le] Hor Hlat. split.
  - intros Hs. destruct (F Hs). split; [apply in_snoc; by left|done].
  - intros Hs. destruct (N Hs) as (? & ? & Hn). split_and!; [done|done|]. destruct Hor as [|Hor]; [done|].
    intros j [Hj| ->]%in_snoc Hid; [by apply Hn|apply Hor].
  - intros j lat [Hj| ->]%in_snoc; [by apply La|apply Hlat].
  - intros Hs Hall. apply S; [done|]. intros j Hj. apply Hall, in_snoc. by left.
  - intros Hs j [Hj| ->]%in_snoc Hid; [by apply Lo|]. destruct Hor as [|[Hor _]]; congruence.
  - destruct Le as [[Hu Hall]|[Hu Hw]]; [left; split; [done|]|right; split; [apply in_snoc; by left|done]].
    intros j [Hj| ->]%in_snoc Hs; [by apply Hall|]. destruct Hor as [|[Hor _]]; [done|done].
Qed.

Lemma idlest_known_step this l st i :
  0 <= i -> idlest_known k l st -> idlest_known k (l ++ [i]) (idlest_cpu_step k this st i).
Proof.
  intros Hi K. unfold idlest_cpu_step. cbv zeta. destruct (idle_cpu k i) eqn:Ei.
  - destruct (idle_get_state i) as [lat|] eqn:Es.
    + pose proof (latencies i lat Es) as Hlat. destruct (Z.ltb_spec lat (min_exit_latency st)) as [Hlt|Hge].
      * eapply idlest_pick; [exact K|exact Hi|exact Ei|done|cbn; lia| |done]. rewrite Es. by intros ? [= <-].
      * assert (Hs : shallowest_idle_cpu st <> -1).
        { intros Hs. destruct (ik_none _ _ _ K Hs) as (_ & Hu & _). lia. }
        destruct (Z.eqb_spec lat (min_exit_latency st)) as [Heq|Hne]; cbn [andb]; [destruct (_ <? _)|].
        -- eapply idlest_pick; [exact K|exact Hi|exact Ei|done|cbn; lia| |done]. rewrite Es. by intros ? [= <-].
        -- apply idlest_keep; [done|by left|]. rewrite Es. intros ? _ [= <-]. lia.
        -- apply idlest_keep; [done|by left|]. rewrite Es. intros ? _ [= <-]. lia.
    + cbn [andb]. destruct (Z.ltb_spec (latest_idle_timestamp st) (idle_stamp (rqs k i))).
      * eapply idlest_pick; [exact K|exact Hi|exact Ei|done|cbn; lia| |done]. by rewrite Es.
      * apply idlest_keep; [done| |by rewrite Es].
        destruct (decide (shallowest_idle_cpu st = -1)) as [Hs|]; [right|by left].
        destruct (ik_none _ _ _ K Hs) as (Hz & _). split_and!; [done|done|lia].
  - destruct (Z.eqb_spec (shallowest_idle_cpu st) (-1)) as [Hs|Hs].
    2:{ apply idlest_keep; [done|by left|]. by rewrite Ei. }
    pose proof (loads i) as Hw. destruct K as [F N La S Lo Le]. destruct (N Hs) as (Hz & Hu & Hn).
    assert (Hidle : forall j, j ∈ l ++ [i] -> idle_cpu k j = true -> j ∈ l).
    { intros j [Hj| ->]%in_snoc Hid; [done|congruence]. }
    destruct (_ || _) eqn:Ec.
    + split; cbn; rewrite ?Hs; try done.
      * intros _. split_and!; [done|done|]. intros j Hj Hid. by apply Hn; [apply Hidle|].
      * intros j lat Hj Hid. by apply La; [apply Hidle|].
      * intros _ j [Hj| ->]%in_snoc Hid; [|lia]. specialize (Lo Hs j Hj Hid).
        apply orb_true_iff in Ec as [Ec%Z.ltb_lt|[Ec%Z.eqb_eq _]%andb_true_iff]; lia.
      * right. split; [apply in_snoc; by right|done].
    + apply orb_false_elim in Ec as [Ec%Z.ltb_ge _]. split; rewrite ?Hs; try done.
      * intros _. split_and!; [done|done|]. intros j Hj Hid. by apply Hn; [apply Hidle|].
      * intros j lat Hj Hid. by apply La; [apply Hidle|].
      * intros _ j [Hj| ->]%in_snoc Hid; [by apply Lo|lia].
      * destruct Le as [[Hu' _]|[Hin Hw']]; [lia|right]. split; [apply in_snoc; by left|done].
Qed.

Lemma idlest_known_loop this l dn st :
  (forall i, i ∈ l -> 0 <= i) -> idlest_known k dn st ->
  idlest_known k (dn ++ l) (foldl (idlest_cpu_step k this) st l).
Proof.
  revert dn st. induction l as [|i l IH]; intros dn st Hl K; cbn [foldl]; [by rewrite app_nil_r|].
  rewrite cons_middle, app_assoc. apply IH; [intros; apply Hl; by right|]. apply idlest_known_step; [apply Hl; by left|done].
Qed.

(** among the CPUs of a group that the task may use, [find_idlest_cpu]
    prefers an idle one, and when all idle ones have an idle state then one that
    is quickest to leave it; when none is idle it answers with one of least
    load. *)
Theorem find_idlest_cpu_idlest g p this :
  let cpus := for_each_cpu k (sched_group_span (groups k g) ∩ cpus_allowed (tasks k p)) in
  let r := find_idlest_cpu g p this k in
  group_weight (groups k g) <> 1 ->
  ((exists i, i ∈ cpus /\ idle_cpu k i = true /\ (is_Some (idle_get_state i) \/ 0 < idle_stamp (rqs k i))) ->
    r ∈ cpus /\ idle_cpu k r = true /\
    ((forall i, i ∈ cpus -> idle_cpu k i = true -> is_Some (idle_get_state i)) ->
     exists lat, idle_get_state r = Some lat /\
       forall i li, i ∈ cpus -> idle_cpu k i = true -> idle_get_state i = Some li -> lat <= li)) /\
  ((forall i, i ∈ cpus -> idle_cpu k i = false) -> cpus <> [] ->
    r ∈ cpus /\ forall i, i ∈ cpus -> weighted_cpuload k r <= weighted_cpuload k i).
Proof.
  intros cpus r Hw. unfold r, find_idlest_cpu. cbv zeta. apply Z.eqb_neq in Hw as ->. fold cpus.
  assert (Hpos : forall i, i ∈ cpus -> 0 <= i).
  { intros i Hi. apply list_elem_of_filter in Hi as [_ Hi]. apply elem_of_seqZ in Hi. lia. }
  assert (K0 : idlest_known k [] (mkIdlestCpu U64_MAX UINT_MAX 0 this (-1))).
  { split; cbn; try done; try (intros; exfalso; by eapply not_elem_of_nil).
    - intros _. split_and!; [done|done|]. intros i Hi. by apply not_elem_of_nil in Hi.
    - left. split; [done|]. intros i Hi. by apply not_elem_of_nil in Hi. }
  pose proof (idlest_known_loop this cpus [] _ Hpos K0) as [F N La S Lo Le]. cbn [app] in *. clear r K0.
  set (st := foldl _ _ cpus) in *. clearbody st. split.
  - intros (i & Hi & Hid & Hst). assert (Hs : shallowest_idle_cpu st <> -1).
    { intros Hs. destruct (N Hs) as (_ & _ & Hn). destruct (Hn i Hi Hid) as [Hn1 Hn2].
      destruct Hst as [[? Hst]|Hst]; [congruence|lia]. }
    rewrite (proj2 (Z.eqb_neq _ _) Hs). cbn [negb]. destruct (F Hs) as [Hin Hidle]. split_and!; [done|done|].
    intros Hall. exists (min_exit_latency st). split; [by apply S|]. intros j lj Hj Hjd Hjs. by eapply La.
  - intros Hall Hne. assert (Hs : shallowest_idle_cpu st = -1).
    { destruct (decide (shallowest_idle_cpu st = -1)) as [|Hs]; [done|]. destruct (F Hs) as [Hin Hid].
      by rewrite Hall in Hid. }
    rewrite Hs. cbn [Z.eqb Pos.eqb negb]. destruct Le as [[_ Hb]|[Hin Hwl]].
    + exfalso. destruct cpus as [|i l]; [done|]. specialize (Hb i ltac:(by left) Hs).
      by rewrite Hall in Hb by by left.
    + split; [done|]. intros i Hi. rewrite Hwl. apply Lo; [done|done|by apply Hall].
Qed.

End SelectFrame.

(** ** Two CPUs *)

#[local] Instance demo_fair_env : FairEnv :=
  {| tun := default_tunables; CONFIG_SCHED_DEBUG := true; feat_START_DEBIT := true; feat_GENTLE_FAIR_SLEEPERS := true;
     feat_NEXT_BUDDY := false; feat_LAST_BUDDY := true; feat_WAKEUP_PREEMPTION := true;
     feat_ATTACH_AGE_LOAD := true; newidle_balance := fun c k => (k, 0) |}.
#[local] Instance demo_wake_env : WakeEnv :=
  {| cpumask_of_node _ := None; CONFIG_CPUSETS := false; cpuset_cpus_allowed_fallback p k := k;
     sd_llc_id _ := 0; feat_TTWU_QUEUE := true; domain_spans _ := []; wq_worker_sleeping _ _ := None;
     signal_pending_state _ _ _ := false |}.
#[local] Instance demo_config : WrrConfig := {| WRR_TIMESLICE := 10; MAX_CPUS := 8; HZ := 100 |}.
#[local] Instance demo_select_env : SelectEnv :=
  {| sd_llc c := Some c; sd_llc_size _ := 2; sd_llc_shared _ := None; cpu_smt_mask c := {[c]};
     sched_smt_present := false; idle_get_state i := Some (if i =? 1 then 5 else 10); scan_time := 100; feat_WA_IDLE := true;
     feat_WA_WEIGHT := true; feat_WA_BIAS := true; feat_SIS_AVG_CPU := false; feat_SIS_PROP := true |}.

(** CPU 0 is busy with three tasks and wakes task 5, which ran there. *)
Definition select_demo : kernel :=
  upd_rq 0 (fun r => r <| curr := 4 |> <| nr_running := 3 |>)
    (demo_kernel fair_sched_class SCHED_NORMAL 120)
      <| groups := fun c => if decide (0 <= c < 2) then mkSg 1 c c {[c]} else mkSg 0 c c ∅ |>.

Lemma select_demo_built : domains_built (fun _ => O) select_demo.
Proof.
  split; try done; intros g; cbn.
  - destruct (decide (0 <= g < 2)); cbn; [by rewrite size_singleton|by rewrite size_empty].
  - destruct (decide (0 <= g < 2)); cbn; set_solver.
  - lia.
Qed.

Lemma select_task_rq_fair_places_witness :
  exists k', select_task_rq_fair 6 5 0 SD_BALANCE_WAKE WF_SYNC select_demo = Some (k', 1) /\ k' ≡c select_demo.
Proof.
  destruct (select_task_rq_fair_places (fun _ => O) 6 5 0 SD_BALANCE_WAKE WF_SYNC select_demo) as (k' & c & E & Ek & _).
  - exact select_demo_built.
  - cbn. lia.
  - assert (R : snd <$> select_task_rq_fair 6 5 0 SD_BALANCE_WAKE WF_SYNC select_demo = Some 1) by (vm_compute; reflexivity).
    rewrite E in R. injection R as ->. exists k'. split; [exact E|exact Ek].
Defined.

(** Two idle CPUs in one group. *)
Lemma find_idlest_cpu_idlest_witness :
  let k := demo_kernel fair_sched_class SCHED_NORMAL 120 <| groups := fun _ => mkSg 2 0 0 {[0; 1]} |> in
  find_idlest_cpu 0 5 0 k = 1 /\ idle_cpu k 1 = true.
Proof.
  intros k. assert (Er : find_idlest_cpu 0 5 0 k = 1) by (vm_compute; reflexivity).
  assert (Ec : for_each_cpu k (sched_group_span (groups k 0) ∩ cpus_allowed (tasks k 5)) = [0; 1]) by (vm_compute; reflexivity).
  destruct (find_idlest_cpu_idlest k) with (g := 0) (p := 5) (this := 0) as [Hi _].
  - intros i lat [= <-]. unfold UINT_MAX. by destruct (i =? 1).
  - intros i. by vm_compute.
  - by vm_compute.
  - rewrite Ec, Er in Hi. destruct Hi as (_ & Hid & _); [|split; [exact Er|exact Hid]].
    exists 0. split_and!; [by left|by vm_compute|left; by eexists].
Defined.
