(* ===== verification/FairBandwidth.v ===== *)
(** * Bandwidth control of task groups (fair.c, core.c)

    A task group has a quota of run time per period.  Each CPU draws slices from
    the pool of the group into its own queue; a queue that has used up its time
    and finds the pool empty is throttled until the period timer refills it.

    The state is the kernel and, for each group, its [cfs_bandwidth] and its
    queue on each CPU.  Of [enqueue_entity] and [dequeue_entity] for the entity
    of a group, the counts, the weights and the bandwidth of the parent are here;
    virtual time and load averages are those of [FairQueue], and the charge of
    the [update_curr] with which both begin is [account_cfs_rq_runtime], a step
    of its own.  The state of the high-resolution timers and what other CPUs do
    while the lock of the pool is dropped are parameters ([BwEnv]). *)

From S2P Require Import Prelude SchedTypes Core Wrr CorePolicy RtBandwidth FairMath FairPelt FairQueue.

Record cfs_bandwidth := mkCfsB {
  period : Z;
  quota : Z;
  runtime : Z;
  hierarchical_quota : Z;
  b_runtime_expires : Z;
  b_expires_seq : Z;
  b_idle : bool;
  period_active : bool;
  throttled_cfs_rq : list Z;   (* the CPUs whose queue is throttled *)
  nr_periods : Z;
  nr_throttled : Z;
  throttled_time : Z;
  distribute_running : bool }.
#[export] Instance eta_cfs_bandwidth : Settable cfs_bandwidth :=
  fun r => mkCfsB (period r) (quota r) (runtime r) (hierarchical_quota r) (b_runtime_expires r)
    (b_expires_seq r) (b_idle r) (period_active r) (throttled_cfs_rq r) (nr_periods r) (nr_throttled r)
    (throttled_time r) (distribute_running r).

(** The queue of a group on one CPU, with the entity that stands for it on the
    queue of the parent. *)
Record group_rq := mkGroupRq {
  runtime_enabled : bool;
  expires_seq : Z;
  runtime_expires : Z;
  runtime_remaining : Z;
  throttled_clock : Z;
  throttled_clock_task : Z;
  throttled_clock_task_time : Z;
  throttled : bool;
  throttle_count : Z;
  g_nr_running : Z;
  g_h_nr_running : Z;
  g_weight : Z;               (* load.weight *)
  g_curr : bool;              (* curr is not NULL *)
  gse_on_rq : bool;
  gse_weight : Z }.
#[export] Instance eta_group_rq : Settable group_rq :=
  fun r => mkGroupRq (runtime_enabled r) (expires_seq r) (runtime_expires r) (runtime_remaining r)
    (throttled_clock r) (throttled_clock_task r) (throttled_clock_task_time r) (throttled r)
    (throttle_count r) (g_nr_running r) (g_h_nr_running r) (g_weight r) (g_curr r) (gse_on_rq r) (gse_weight r).

Record task_group := mkTg {
  tg_parent : option Z;
  tg_children : list Z;
  tg_bw : cfs_bandwidth;
  tg_rq : Z -> group_rq }.
#[export] Instance eta_task_group : Settable task_group :=
  fun r => mkTg (tg_parent r) (tg_children r) (tg_bw r) (tg_rq r).

Inductive bw_timer := period_timer (g : Z) | slack_timer (g : Z).

Record bw_state := mkBw {
  bw_k : kernel;
  tgs : Z -> task_group;
  task_groups : list Z;
  bw_used : Z;                (* the static key __cfs_bandwidth_used *)
  bw_started : list bw_timer }.
#[export] Instance eta_bw_state : Settable bw_state :=
  fun r => mkBw (bw_k r) (tgs r) (task_groups r) (bw_used r) (bw_started r).

Definition root_task_group : Z := 0.

Class BwEnv := {
  sysctl_sched_cfs_bandwidth_slice : Z;
  TICK_NSEC : Z;
  tg_levels : nat;                               (* no group lies deeper *)
  hrtimer_callback_running : Z -> bw_state -> bool;
  hrtimer_expires_remaining : Z -> bw_state -> Z;
  bw_others : bw_state -> bw_state }.

Definition cfs_b (s : bw_state) (g : Z) : cfs_bandwidth := tg_bw (tgs s g).
Definition grq (s : bw_state) (g c : Z) : group_rq := tg_rq (tgs s g) c.
Definition upd_b (g : Z) (f : cfs_bandwidth -> cfs_bandwidth) (s : bw_state) : bw_state :=
  s <| tgs ::= alter (fun t => t <| tg_bw ::= f |>) g |>.
Definition upd_g (g c : Z) (f : group_rq -> group_rq) (s : bw_state) : bw_state :=
  s <| tgs ::= alter (fun t => t <| tg_rq ::= alter f c |>) g |>.
Definition on_kernel (f : kernel -> kernel) (s : bw_state) : bw_state := s <| bw_k ::= f |>.

Definition cfs_bandwidth_used (s : bw_state) : bool := negb (bw_used s =? 0).
Definition cfs_bandwidth_usage_inc (s : bw_state) : bw_state := s <| bw_used ::= fun n => n + 1 |>.
Definition cfs_bandwidth_usage_dec (s : bw_state) : bw_state := s <| bw_used ::= fun n => n - 1 |>.

Definition default_cfs_period : Z := 100000000.

Section Bandwidth.
Context `{BwEnv}.

Definition sched_cfs_bandwidth_slice : Z := u64 (sysctl_sched_cfs_bandwidth_slice * NSEC_PER_USEC).

(** ** The pool *)

Definition __refill_cfs_bandwidth_runtime (g : Z) (s : bw_state) : bw_state :=
  if quota (cfs_b s g) =? RUNTIME_INF then s
  else
    let now := sched_clock (bw_k s) (this_cpu (bw_k s)) in
    upd_b g (fun b => b <| runtime := quota b |> <| b_runtime_expires := u64 (now + period b) |>
                        <| b_expires_seq ::= fun n => s32 (n + 1) |>) s.

Definition start_cfs_bandwidth (g : Z) (s : bw_state) : bw_state :=
  if negb (period_active (cfs_b s g))
  then upd_b g (fun b => b <| period_active := true |>) s <| bw_started ::= cons (period_timer g) |>
  else s.

Definition cfs_rq_clock_task (g c : Z) (s : bw_state) : Z :=
  let q := grq s g c in
  if negb (throttle_count q =? 0) then u64 (throttled_clock_task q - throttled_clock_task_time q)
  else u64 (rq_clock_task (bw_k s) c - throttled_clock_task_time q).

Definition assign_cfs_rq_runtime (g c : Z) (s : bw_state) : bw_state * bool :=
  let min_amount := u64 (sched_cfs_bandwidth_slice - runtime_remaining (grq s g c)) in
  let '(s, amount) :=
    if quota (cfs_b s g) =? RUNTIME_INF then (s, min_amount)
    else
      let s := start_cfs_bandwidth g s in
      if 0 <? runtime (cfs_b s g) then
        let amount := Z.min (runtime (cfs_b s g)) min_amount in
        (upd_b g (fun b => b <| runtime ::= fun x => u64 (x - amount) |> <| b_idle := false |>) s, amount)
      else (s, 0) in
  let b := cfs_b s g in
  let s := upd_g g c (fun q => q <| runtime_remaining ::= fun x => s64 (x + amount) |>) s in
  let s := if negb (expires_seq (grq s g c) =? b_expires_seq b)
           then upd_g g c (fun q => q <| expires_seq := b_expires_seq b |> <| runtime_expires := b_runtime_expires b |>) s
           else s in
  (s, 0 <? runtime_remaining (grq s g c)).

Definition expire_cfs_rq_runtime (g c : Z) (s : bw_state) : bw_state :=
  let q := grq s g c in
  if s64 (rq_clock (bw_k s) c - runtime_expires q) <? 0 then s
  else if runtime_remaining q <? 0 then s
  else if expires_seq q =? b_expires_seq (cfs_b s g)
  then upd_g g c (fun q => q <| runtime_expires ::= fun x => u64 (x + TICK_NSEC) |>) s
  else upd_g g c (fun q => q <| runtime_remaining := 0 |>) s.

Definition __account_cfs_rq_runtime (g c delta_exec : Z) (s : bw_state) : bw_state :=
  let s := upd_g g c (fun q => q <| runtime_remaining ::= fun x => s64 (x - delta_exec) |>) s in
  let s := expire_cfs_rq_runtime g c s in
  if 0 <? runtime_remaining (grq s g c) then s
  else
    let '(s, ok) := assign_cfs_rq_runtime g c s in
    if negb ok && g_curr (grq s g c) then on_kernel (resched_curr c) s else s.

Definition account_cfs_rq_runtime (g c delta_exec : Z) (s : bw_state) : bw_state :=
  if negb (cfs_bandwidth_used s) || negb (runtime_enabled (grq s g c)) then s
  else __account_cfs_rq_runtime g c delta_exec s.

(** ** Giving time back *)

Definition min_cfs_rq_runtime : Z := 1 * NSEC_PER_MSEC.
Definition min_bandwidth_expiration : Z := 2 * NSEC_PER_MSEC.
Definition cfs_bandwidth_slack_period : Z := 5 * NSEC_PER_MSEC.

Definition runtime_refresh_within (g min_expire : Z) (s : bw_state) : bool :=
  if hrtimer_callback_running g s then true
  else u64 (hrtimer_expires_remaining g s) <? min_expire.

Definition start_cfs_slack_bandwidth (g : Z) (s : bw_state) : bw_state :=
  let min_left := cfs_bandwidth_slack_period + min_bandwidth_expiration in
  if runtime_refresh_within g min_left s then s else s <| bw_started ::= cons (slack_timer g) |>.

Definition __return_cfs_rq_runtime (g c : Z) (s : bw_state) : bw_state :=
  let slack_runtime := s64 (runtime_remaining (grq s g c) - min_cfs_rq_runtime) in
  if slack_runtime <=? 0 then s
  else
    let b := cfs_b s g in
    let s := if negb (quota b =? RUNTIME_INF) && (runtime_expires (grq s g c) =? b_runtime_expires b) then
               let s := upd_b g (fun b => b <| runtime ::= fun x => u64 (x + slack_runtime) |>) s in
               if (sched_cfs_bandwidth_slice <? runtime (cfs_b s g)) &&
                  negb (bool_decide (throttled_cfs_rq (cfs_b s g) = []))
               then start_cfs_slack_bandwidth g s else s
             else s in
    upd_g g c (fun q => q <| runtime_remaining ::= fun x => s64 (x - slack_runtime) |>) s.

Definition return_cfs_rq_runtime (g c : Z) (s : bw_state) : bw_state :=
  if negb (cfs_bandwidth_used s) then s
  else if negb (runtime_enabled (grq s g c)) || negb (g_nr_running (grq s g c) =? 0) then s
  else __return_cfs_rq_runtime g c s.

(** ** Throttling *)

Definition cfs_rq_throttled (g c : Z) (s : bw_state) : bool := cfs_bandwidth_used s && throttled (grq s g c).
Definition throttled_hierarchy (g c : Z) (s : bw_state) : bool :=
  cfs_bandwidth_used s && negb (throttle_count (grq s g c) =? 0).
Definition throttled_lb_pair (g src dest : Z) (s : bw_state) : bool :=
  throttled_hierarchy g src s || throttled_hierarchy g dest s.

Definition tg_unthrottle_up (c g : Z) (s : bw_state) : bw_state :=
  let s := upd_g g c (fun q => q <| throttle_count ::= fun n => s32 (n - 1) |>) s in
  if throttle_count (grq s g c) =? 0
  then upd_g g c (fun q => q <| throttled_clock_task_time ::= fun t =>
         u64 (t + (rq_clock_task (bw_k s) c - throttled_clock_task q)) |>) s
  else s.

Definition tg_throttle_down (c g : Z) (s : bw_state) : bw_state :=
  let s := if throttle_count (grq s g c) =? 0
           then upd_g g c (fun q => q <| throttled_clock_task := rq_clock_task (bw_k s) c |>) s else s in
  upd_g g c (fun q => q <| throttle_count ::= fun n => s32 (n + 1) |>) s.

(** The groups below [g] in the order in which [walk_tg_tree_from] enters and
    leaves them. *)
Fixpoint entering (n : nat) (s : bw_state) (g : Z) : list Z :=
  match n with
  | O => []
  | S n => g :: flat_map (entering n s) (tg_children (tgs s g))
  end.
Fixpoint leaving (n : nat) (s : bw_state) (g : Z) : list Z :=
  match n with
  | O => []
  | S n => flat_map (leaving n s) (tg_children (tgs s g)) ++ [g]
  end.

(** What [dequeue_entity] does to the queue of the parent [q]: its counts, and
    the time that it gives back when its last entity leaves. *)
Definition take_entity (g q c : Z) (s : bw_state) : bw_state :=
  let w := gse_weight (grq s g c) in
  let s := upd_g g c (fun r => r <| gse_on_rq := false |>) s in
  let s := upd_g q c (fun r => r <| g_nr_running ::= fun n => u32 (n - 1) |> <| g_weight ::= fun x => u64 (x - w) |>) s in
  return_cfs_rq_runtime q c s.

(** The loop of [throttle_cfs_rq] upwards; whether it passed the root. *)
Fixpoint throttle_walk (n : nat) (g c task_delta : Z) (dequeue : bool) (s : bw_state) : bw_state * bool :=
  match n, tg_parent (tgs s g) with
  | _, None => (s, true)
  | O, _ => (s, false)
  | S n, Some q =>
      if negb (gse_on_rq (grq s g c)) then (s, false)
      else
        let s := if dequeue then take_entity g q c s else s in
        let s := upd_g q c (fun r => r <| g_h_nr_running ::= fun x => u32 (x - task_delta) |>) s in
        throttle_walk n q c task_delta (dequeue && (g_weight (grq s q c) =? 0)) s
  end.

Definition throttle_cfs_rq (g c : Z) (s : bw_state) : bw_state :=
  let s := foldl (fun s t => tg_throttle_down c t s) s (entering tg_levels s g) in
  let task_delta := g_h_nr_running (grq s g c) in
  let '(s, top) := throttle_walk tg_levels g c task_delta true s in
  let s := if top then on_kernel (sub_nr_running c task_delta) s else s in
  let s := upd_g g c (fun q => q <| throttled := true |> <| throttled_clock := rq_clock (bw_k s) c |>) s in
  let empty := bool_decide (throttled_cfs_rq (cfs_b s g) = []) in
  let s := upd_b g (fun b => b <| throttled_cfs_rq ::= fun l =>
             if distribute_running b then c :: l else l ++ [c] |>) s in
  if empty then start_cfs_bandwidth g s else s.

Definition check_enqueue_throttle (g c : Z) (s : bw_state) : bw_state :=
  if negb (cfs_bandwidth_used s) then s
  else if negb (runtime_enabled (grq s g c)) || g_curr (grq s g c) then s
  else if cfs_rq_throttled g c s then s
  else
    let s := account_cfs_rq_runtime g c 0 s in
    if runtime_remaining (grq s g c) <=? 0 then throttle_cfs_rq g c s else s.

(** What [enqueue_entity] does to the queue of the parent [q]: its counts, and
    the check of its time when this is its first entity. *)
Definition put_entity (g q c : Z) (s : bw_state) : bw_state :=
  let w := gse_weight (grq s g c) in
  let s := upd_g q c (fun r => r <| g_nr_running ::= fun n => u32 (n + 1) |> <| g_weight ::= fun x => u64 (x + w) |>) s in
  let s := upd_g g c (fun r => r <| gse_on_rq := true |>) s in
  if g_nr_running (grq s q c) =? 1 then check_enqueue_throttle q c s else s.

Fixpoint unthrottle_walk (n : nat) (g c task_delta : Z) (enqueue : bool) (s : bw_state) : bw_state * bool :=
  match n, tg_parent (tgs s g) with
  | _, None => (s, true)
  | O, _ => (s, false)
  | S n, Some q =>
      let enqueue := enqueue && negb (gse_on_rq (grq s g c)) in
      let s := if enqueue then put_entity g q c s else s in
      let s := upd_g q c (fun r => r <| g_h_nr_running ::= fun x => u32 (x + task_delta) |>) s in
      if cfs_rq_throttled q c s then (s, false) else unthrottle_walk n q c task_delta enqueue s
  end.

Definition unthrottle_cfs_rq (g c : Z) (s : bw_state) : bw_state :=
  let s := upd_g g c (fun q => q <| throttled := false |>) s in
  let s := on_kernel (update_rq_clock c) s in
  let since := throttled_clock (grq s g c) in
  let s := upd_b g (fun b => b <| throttled_time ::= fun t => u64 (t + (rq_clock (bw_k s) c - since)) |>
                              <| throttled_cfs_rq ::= list_del c |>) s in
  let s := foldl (fun s t => tg_unthrottle_up c t s) s (leaving tg_levels s g) in
  if g_weight (grq s g c) =? 0 then s
  else
    let task_delta := g_h_nr_running (grq s g c) in
    let '(s, top) := unthrottle_walk tg_levels g c task_delta true s in
    let s := if top then on_kernel (add_nr_running c task_delta) s else s in
    if (curr (rqs (bw_k s) c) =? idle (rqs (bw_k s) c)) && negb (g_nr_running (grq s root_task_group c) =? 0)
    then on_kernel (resched_curr c) s else s.

(** ** Refilling *)

(** The loop of [distribute_cfs_runtime] over the CPUs that were throttled when
    it began: a queue that is throttled meanwhile is put in front of them, where
    the loop does not come.  What is left of the time. *)
Fixpoint distribute_loop (g : Z) (l : list Z) (remaining expires : Z) (s : bw_state) : bw_state * Z :=
  match l with
  | [] => (s, remaining)
  | c :: l =>
      let s := bw_others s in
      let '(s, remaining) :=
        if negb (cfs_rq_throttled g c s) then (s, remaining)
        else
          let runtime := Z.min (u64 (- runtime_remaining (grq s g c) + 1)) remaining in
          let s := upd_g g c (fun q => q <| runtime_remaining ::= fun x => s64 (x + runtime) |>
                                         <| runtime_expires := expires |>) s in
          (if 0 <? runtime_remaining (grq s g c) then unthrottle_cfs_rq g c s else s, u64 (remaining - runtime)) in
      if remaining =? 0 then (s, remaining) else distribute_loop g l remaining expires s
  end.

Definition distribute_cfs_runtime (g remaining expires : Z) (s : bw_state) : bw_state * Z :=
  let '(s, rest) := distribute_loop g (throttled_cfs_rq (cfs_b s g)) remaining expires s in
  (s, u64 (remaining - rest)).

(** The loop of [do_sched_cfs_period_timer], for at most [n] rounds; whether it
    ended by itself. *)
Fixpoint refill_rounds (n : nat) (g expires : Z) (throttled : bool) (s : bw_state) : bw_state * bool :=
  if throttled && (0 <? runtime (cfs_b s g)) && negb (distribute_running (cfs_b s g)) then
    match n with
    | O => (s, false)
    | S n =>
        let start := runtime (cfs_b s g) in
        let s := upd_b g (fun b => b <| distribute_running := true |>) s in
        let '(s, used) := distribute_cfs_runtime g start expires s in
        let s := bw_others s in
        let throttled := negb (bool_decide (throttled_cfs_rq (cfs_b s g) = [])) in
        let s := upd_b g (fun b => b <| distribute_running := false |>
                                     <| runtime ::= fun x => x - Z.min used x |>) s in
        refill_rounds n g expires throttled s
    end
  else (s, true).

(** The timer is to stop when the answer is true. *)
Definition do_sched_cfs_period_timer (rounds : nat) (g overrun : Z) (s : bw_state) : bw_state * bool :=
  if quota (cfs_b s g) =? RUNTIME_INF then (s, true)
  else
    let throttled := negb (bool_decide (throttled_cfs_rq (cfs_b s g) = [])) in
    let s := upd_b g (fun b => b <| nr_periods ::= fun n => s32 (n + overrun) |>) s in
    if b_idle (cfs_b s g) && negb throttled then (s, true)
    else
      let s := __refill_cfs_bandwidth_runtime g s in
      if negb throttled then (upd_b g (fun b => b <| b_idle := true |>) s, false)
      else
        let s := upd_b g (fun b => b <| nr_throttled ::= fun n => s32 (n + overrun) |>) s in
        let '(s, _) := refill_rounds rounds g (b_runtime_expires (cfs_b s g)) throttled s in
        (upd_b g (fun b => b <| b_idle := false |>) s, false).

(** [sched_cfs_period_timer], with the overruns that [hrtimer_forward_now]
    reports until it reports none. *)
Definition sched_cfs_period_timer (rounds : nat) (g : Z) (overruns : list Z) (s : bw_state) : bw_state * bool :=
  let '(s, idle) := foldl (fun '(s, _) o => do_sched_cfs_period_timer rounds g o s) (s, false) overruns in
  (if idle then upd_b g (fun b => b <| period_active := false |>) s else s, idle).

Definition do_sched_cfs_slack_timer (g : Z) (s : bw_state) : bw_state :=
  let b := cfs_b s g in
  if distribute_running b then s
  else if runtime_refresh_within g min_bandwidth_expiration s then s
  else
    let start := if negb (quota b =? RUNTIME_INF) && (sched_cfs_bandwidth_slice <? runtime b) then runtime b else 0 in
    let expires := b_runtime_expires b in
    if start =? 0 then s
    else
      let s := upd_b g (fun b => b <| distribute_running := true |>) s in
      let '(s, used) := distribute_cfs_runtime g start expires s in
      let s := bw_others s in
      let s := if expires =? b_runtime_expires (cfs_b s g)
               then upd_b g (fun b => b <| runtime ::= fun x => x - Z.min used x |>) s else s in
      upd_b g (fun b => b <| distribute_running := false |>) s.
Definition sched_cfs_slack_timer (g : Z) (s : bw_state) : bw_state := do_sched_cfs_slack_timer g s.

(** ** Checks and set-up *)

Definition sync_throttle (g c : Z) (s : bw_state) : bw_state :=
  if negb (cfs_bandwidth_used s) then s
  else match tg_parent (tgs s g) with
       | None => s
       | Some p => upd_g g c (fun q => q <| throttle_count := throttle_count (grq s p c) |>
                                         <| throttled_clock_task := rq_clock_task (bw_k s) c |>) s
       end.

Definition check_cfs_rq_runtime (g c : Z) (s : bw_state) : bw_state * bool :=
  if negb (cfs_bandwidth_used s) then (s, false)
  else if negb (runtime_enabled (grq s g c)) || (0 <? runtime_remaining (grq s g c)) then (s, false)
  else if cfs_rq_throttled g c s then (s, true)
  else (throttle_cfs_rq g c s, true).

Definition init_cfs_bandwidth (b : cfs_bandwidth) : cfs_bandwidth :=
  b <| runtime := 0 |> <| quota := RUNTIME_INF |> <| period := default_cfs_period |> <| throttled_cfs_rq := [] |>
    <| distribute_running := false |>.
Definition init_cfs_rq_runtime (q : group_rq) : group_rq := q <| runtime_enabled := false |>.

(** CPUs coming and going. *)
Definition update_runtime_enabled (c : Z) (s : bw_state) : bw_state :=
  foldl (fun s g => upd_g g c (fun q => q <| runtime_enabled := negb (quota (cfs_b s g) =? RUNTIME_INF) |>) s)
    s (task_groups s).

Definition unthrottle_offline_step (c : Z) (s : bw_state) (g : Z) : bw_state :=
  if negb (runtime_enabled (grq s g c)) then s
  else
    let s := upd_g g c (fun q => q <| runtime_remaining := 1 |> <| runtime_enabled := false |>) s in
    if cfs_rq_throttled g c s then unthrottle_cfs_rq g c s else s.
Definition unthrottle_offline_cfs_rqs (c : Z) (s : bw_state) : bw_state :=
  foldl (unthrottle_offline_step c) s (task_groups s).

(** ** The control files (core.c) *)

Definition max_cfs_quota_period : Z := 1 * NSEC_PER_SEC.
Definition min_cfs_quota_period : Z := 1 * NSEC_PER_MSEC.

Definition tg_get_cfs_quota (s : bw_state) (g : Z) : Z :=
  if quota (cfs_b s g) =? RUNTIME_INF then -1 else quota (cfs_b s g) / NSEC_PER_USEC.
Definition tg_get_cfs_period (s : bw_state) (g : Z) : Z := u64 (period (cfs_b s g)) / NSEC_PER_USEC.

Record cfs_schedulable_data := mkSchedulable { d_tg : Z; d_period : Z; d_quota : Z }.

Definition normalize_cfs_quota (g : Z) (d : cfs_schedulable_data) (s : bw_state) : Z :=
  let '(period, quota) := if g =? d_tg d then (d_period d, d_quota d)
                          else (u64 (tg_get_cfs_period s g), u64 (tg_get_cfs_quota s g)) in
  if quota =? RUNTIME_INF then RUNTIME_INF else to_ratio period quota.

Definition tg_cfs_schedulable_down (d : cfs_schedulable_data) (g : Z) (s : bw_state) : bw_state * Z :=
  let inf := s64 RUNTIME_INF in
  let set q := (upd_b g (fun b => b <| hierarchical_quota := q |>) s, 0) in
  match tg_parent (tgs s g) with
  | None => set inf
  | Some p =>
      let q := s64 (normalize_cfs_quota g d s) in
      let parent_quota := hierarchical_quota (cfs_b s p) in
      if q =? inf then set parent_quota
      else if negb (parent_quota =? inf) && (parent_quota <? q) then (s, -EINVAL)
      else set q
  end.

(** [walk_tg_tree_from] with a visitor on the way down only: it stops at the
    first error. *)
Fixpoint visit_down (down : Z -> bw_state -> bw_state * Z) (l : list Z) (s : bw_state) : bw_state * Z :=
  match l with
  | [] => (s, 0)
  | g :: l => let '(s, ret) := down g s in if negb (ret =? 0) then (s, ret) else visit_down down l s
  end.

Definition __cfs_schedulable (g period quota : Z) (s : bw_state) : bw_state * Z :=
  let d := if negb (quota =? RUNTIME_INF)
           then mkSchedulable g (period / NSEC_PER_USEC) (quota / NSEC_PER_USEC)
           else mkSchedulable g period quota in
  visit_down (tg_cfs_schedulable_down d) (entering tg_levels s root_task_group) s.

Definition set_bandwidth_step (g : Z) (enabled : bool) (s : bw_state) (c : Z) : bw_state :=
  let s := upd_g g c (fun q => q <| runtime_enabled := enabled |> <| runtime_remaining := 0 |>) s in
  if throttled (grq s g c) then unthrottle_cfs_rq g c s else s.

Definition tg_set_cfs_bandwidth (g new_period new_quota : Z) (s : bw_state) : bw_state * Z :=
  if g =? root_task_group then (s, -EINVAL)
  else if (new_quota <? min_cfs_quota_period) || (new_period <? min_cfs_quota_period) then (s, -EINVAL)
  else if max_cfs_quota_period <? new_period then (s, -EINVAL)
  else
    let '(s, ret) := __cfs_schedulable g new_period new_quota s in
    if negb (ret =? 0) then (s, ret)
    else
      let enabled := negb (new_quota =? RUNTIME_INF) in
      let was_enabled := negb (quota (cfs_b s g) =? RUNTIME_INF) in
      let s := if enabled && negb was_enabled then cfs_bandwidth_usage_inc s else s in
      let s := upd_b g (fun b => b <| period := new_period |> <| quota := new_quota |>) s in
      let s := __refill_cfs_bandwidth_runtime g s in
      let s := if enabled then start_cfs_bandwidth g s else s in
      let s := foldl (set_bandwidth_step g enabled) s (for_each_cpu (bw_k s) (cpu_online_mask (bw_k s))) in
      (if was_enabled && negb enabled then cfs_bandwidth_usage_dec s else s, 0).

Definition tg_set_cfs_quota (g cfs_quota_us : Z) (s : bw_state) : bw_state * Z :=
  let q := if cfs_quota_us <? 0 then RUNTIME_INF else u64 (cfs_quota_us * NSEC_PER_USEC) in
  tg_set_cfs_bandwidth g (u64 (period (cfs_b s g))) q s.
Definition tg_set_cfs_period (g cfs_period_us : Z) (s : bw_state) : bw_state * Z :=
  tg_set_cfs_bandwidth g (u64 (u64 cfs_period_us * NSEC_PER_USEC)) (quota (cfs_b s g)) s.
End Bandwidth.

