(* ===== verification/FairQuota.v ===== *)
(** * What bandwidth control guarantees

    The account of a group is its pool and the time left on each CPU.  The
    sections follow it through the operations of [FairBandwidth]: charging,
    drawing, giving back and throttling never create time, so what the tasks of
    a group run between two refills is limited by the quota; a timer that hands
    time out while other CPUs use the pool creates at most what it handed out in
    its last round. *)

From S2P Require Import Prelude SchedTypes Core Wrr CorePolicy RtBandwidth FairMath FairPelt FairQueue FairBandwidth.

(** ** The account of a group *)

Record acct := mkAcct {
  a_pool : Z;
  a_quota : Z;
  a_list : list Z;
  a_left : Z -> Z;             (* runtime_remaining *)
  a_throttled : Z -> bool }.

Definition acct_of (g : Z) (s : bw_state) : acct :=
  mkAcct (runtime (cfs_b s g)) (quota (cfs_b s g)) (throttled_cfs_rq (cfs_b s g))
    (fun c => runtime_remaining (grq s g c)) (fun c => throttled (grq s g c)).

(** The same account, CPU by CPU. *)
Definition acct_eq (a a' : acct) : Prop :=
  a_pool a = a_pool a' /\ a_quota a = a_quota a' /\ a_list a = a_list a' /\
  forall c, a_left a c = a_left a' c /\ a_throttled a c = a_throttled a' c.
Notation "a ≡a a'" := (acct_eq a a') (at level 70).

#[export] Instance acct_eq_equivalence : Equivalence acct_eq.
Proof.
  split.
  - done.
  - intros a b (A & B & C & D). split_and!; try congruence. intros c. by destruct (D c) as (-> & ->).
  - intros a b d (A & B & C & D) (A' & B' & C' & D'). split_and!; try congruence.
    intros c. destruct (D c) as (-> & ->), (D' c) as (-> & ->). done.
Qed.

Lemma cfs_b_upd_g g c f s e : cfs_b (upd_g g c f s) e = cfs_b s e.
Proof.
  unfold cfs_b, upd_g. cbn. destruct (decide (g = e)) as [<-|]; [by rewrite fn_lookup_alter|by rewrite fn_lookup_alter_ne].
Qed.
Lemma cfs_b_upd_b g f s e : cfs_b (upd_b g f s) e = if decide (g = e) then f (cfs_b s g) else cfs_b s e.
Proof.
  unfold cfs_b, upd_b. cbn. destruct (decide (g = e)) as [<-|]; [by rewrite fn_lookup_alter|by rewrite fn_lookup_alter_ne].
Qed.
Lemma grq_upd_b g f s e c : grq (upd_b g f s) e c = grq s e c.
Proof.
  unfold grq, upd_b. cbn. destruct (decide (g = e)) as [<-|]; [by rewrite fn_lookup_alter|by rewrite fn_lookup_alter_ne].
Qed.
Lemma grq_upd_g g c f s e d :
  grq (upd_g g c f s) e d = if decide (g = e /\ c = d) then f (grq s g c) else grq s e d.
Proof.
  unfold grq, upd_g. cbn. destruct (decide (g = e)) as [<-|].
  - rewrite fn_lookup_alter. cbn. destruct (decide (c = d)) as [<-|].
    + by rewrite fn_lookup_alter, decide_True.
    + rewrite fn_lookup_alter_ne by done. rewrite decide_False; [done|]. by intros [_ ?].
  - rewrite fn_lookup_alter_ne by done. rewrite decide_False; [done|]. by intros [? _].
Qed.

(** Updates that leave the account alone. *)
Lemma acct_upd_g g e c f s :
  (e = g -> forall q, (runtime_remaining (f q), throttled (f q)) = (runtime_remaining q, throttled q)) ->
  acct_of g (upd_g e c f s) ≡a acct_of g s.
Proof.
  intros Hf. unfold acct_of. rewrite cfs_b_upd_g. split_and!; try done. intros d. cbn. rewrite grq_upd_g.
  destruct (decide (e = g /\ c = d)) as [[-> ->]|]; [|done]. specialize (Hf eq_refl (grq s g d)). by injection Hf.
Qed.
Lemma acct_upd_b g e f s :
  (e = g -> forall b, (runtime (f b), quota (f b), throttled_cfs_rq (f b)) = (runtime b, quota b, throttled_cfs_rq b)) ->
  acct_of g (upd_b e f s) ≡a acct_of g s.
Proof.
  intros Hf. unfold acct_of. rewrite cfs_b_upd_b. split_and!; cbn.
  1-3: destruct (decide (e = g)) as [->|]; [|done]; specialize (Hf eq_refl (cfs_b s g)); by injection Hf.
  intros c. by rewrite grq_upd_b.
Qed.
Lemma acct_started g h s : acct_of g (s <| bw_started ::= h |>) = acct_of g s.
Proof. done. Qed.
Lemma acct_kernel g h s : acct_of g (on_kernel h s) = acct_of g s.
Proof. done. Qed.

(** ** What no operation at run time touches *)

(** The tree of groups is the same, and so is what [pb] and [pg] read of the
    pools and the queues. *)
Definition kept {B G : Type} (pb : cfs_bandwidth -> B) (pg : group_rq -> G) (s s' : bw_state) : Prop :=
  bw_used s' = bw_used s /\ task_groups s' = task_groups s /\
  forall e, tg_parent (tgs s' e) = tg_parent (tgs s e) /\ tg_children (tgs s' e) = tg_children (tgs s e) /\
    pb (cfs_b s' e) = pb (cfs_b s e) /\ forall c, pg (grq s' e c) = pg (grq s e c).

#[export] Instance kept_preorder {B G} (pb : cfs_bandwidth -> B) (pg : group_rq -> G) : PreOrder (kept pb pg).
Proof.
  split; [done|]. intros a b c (A & T & Hab) (A' & T' & Hbc). split_and!; [congruence..|].
  intros e. destruct (Hab e) as (P & C & Q & R), (Hbc e) as (P' & C' & Q' & R'). split_and!; try congruence.
Qed.

Lemma tree_upd_g g c f s e :
  tg_parent (tgs (upd_g g c f s) e) = tg_parent (tgs s e) /\ tg_children (tgs (upd_g g c f s) e) = tg_children (tgs s e).
Proof.
  unfold upd_g. cbn. destruct (decide (g = e)) as [<-|]; [by rewrite fn_lookup_alter|by rewrite fn_lookup_alter_ne].
Qed.
Lemma tree_upd_b g f s e :
  tg_parent (tgs (upd_b g f s) e) = tg_parent (tgs s e) /\ tg_children (tgs (upd_b g f s) e) = tg_children (tgs s e).
Proof.
  unfold upd_b. cbn. destruct (decide (g = e)) as [<-|]; [by rewrite fn_lookup_alter|by rewrite fn_lookup_alter_ne].
Qed.

Section Kept.
Context {B G : Type} (pb : cfs_bandwidth -> B) (pg : group_rq -> G).

Lemma kept_g e c f s s' : (forall q, pg (f q) = pg q) -> kept pb pg s s' -> kept pb pg s (upd_g e c f s').
Proof.
  intros Hf Hs. transitivity s'; [done|]. split_and!; [done..|]. intros d. destruct (tree_upd_g e c f s' d) as [-> ->].
  rewrite cfs_b_upd_g. split_and!; try done. intros c'. rewrite grq_upd_g. by case_decide as Hd; [destruct Hd as [-> ->]|].
Qed.
Lemma kept_b e f s s' : (forall b, pb (f b) = pb b) -> kept pb pg s s' -> kept pb pg s (upd_b e f s').
Proof.
  intros Hf Hs. transitivity s'; [done|]. split_and!; [done..|]. intros d. destruct (tree_upd_b e f s' d) as [-> ->].
  rewrite cfs_b_upd_b. split_and!; try done; [by case_decide as Hd; [destruct Hd|]|]. intros c'. by rewrite grq_upd_b.
Qed.
Lemma kept_kernel h s s' : kept pb pg s s' -> kept pb pg s (on_kernel h s').
Proof. done. Qed.
Lemma kept_started h s s' : kept pb pg s s' -> kept pb pg s (s' <| bw_started ::= h |>).
Proof. done. Qed.
Lemma kept_foldl {A} (f : bw_state -> A -> bw_state) l s :
  (forall s x, kept pb pg s (f s x)) -> kept pb pg s (foldl f s l).
Proof.
  intros Hf. revert s. induction l as [|x l IH]; intros s; [reflexivity|]. cbn. transitivity (f s x); auto.
Qed.
End Kept.

Ltac keep :=
  repeat match goal with
  | |- kept _ _ ?s ?s => reflexivity
  | H : kept ?b ?g ?s ?s' |- kept ?b ?g ?s ?s' => exact H
  | |- kept _ _ _ (if ?b then _ else _) => destruct b
  | |- kept _ _ _ (on_kernel _ _) => apply kept_kernel
  | |- kept _ _ _ (_ <| bw_started ::= _ |>) => apply kept_started
  | |- kept _ _ _ (upd_g _ _ _ _) => apply kept_g; [done|]
  | |- kept _ _ _ (upd_b _ _ _) => apply kept_b; [done|]
  end.

(** Without throttling, the flags stay; with it, the settings. *)
Definition flags_b (b : cfs_bandwidth) := (period b, quota b, hierarchical_quota b, throttled_cfs_rq b).
Definition flags_g (q : group_rq) := (throttled q, runtime_enabled q).
Definition settings_b (b : cfs_bandwidth) := (period b, quota b, hierarchical_quota b).
Definition settings_g (q : group_rq) := runtime_enabled q.
Abbreviation flags_kept := (kept flags_b flags_g).
Abbreviation settings_kept := (kept settings_b settings_g).

Lemma flags_settings s s' : flags_kept s s' -> settings_kept s s'.
Proof.
  intros (A & T & Hk). split_and!; [done..|]. intros e. destruct (Hk e) as (P & C & Q & R).
  unfold flags_b in Q. unfold settings_b. split_and!; try done; [by injection Q as -> -> -> _|].
  intros c. specialize (R c). unfold flags_g in R. by injection R.
Qed.

Section KeptOperations.
Context `{BwEnv}.

Lemma flags_assign e c s : flags_kept s (assign_cfs_rq_runtime e c s).1.
Proof.
  unfold assign_cfs_rq_runtime, start_cfs_bandwidth. destruct (quota _ =? _); [|destruct (0 <? _)]; cbn [fst]; cbv zeta; keep.
Qed.
Lemma flags_account e c d s : flags_kept s (account_cfs_rq_runtime e c d s).
Proof.
  unfold account_cfs_rq_runtime, __account_cfs_rq_runtime. destruct (_ || _); [done|]. cbv zeta. set (s1 := upd_g e c _ s).
  assert (H1 : flags_kept s (expire_cfs_rq_runtime e c s1)).
  { unfold expire_cfs_rq_runtime, s1. cbv zeta. keep. }
  destruct (0 <? _); [done|]. pose proof (flags_assign e c (expire_cfs_rq_runtime e c s1)) as H2.
  destruct (assign_cfs_rq_runtime _ _ _) as [s3 ok]. cbn in H2. pose proof (transitivity H1 H2). keep.
Qed.
Lemma flags_return e c s : flags_kept s (return_cfs_rq_runtime e c s).
Proof.
  unfold return_cfs_rq_runtime, __return_cfs_rq_runtime, start_cfs_slack_bandwidth. cbv zeta. keep.
Qed.
Lemma flags_take e q c s : flags_kept s (take_entity e q c s).
Proof.
  unfold take_entity. cbv zeta. etransitivity; [|apply flags_return]. keep.
Qed.
Lemma flags_throttle_walk n e c d b s : flags_kept s (throttle_walk n e c d b s).1.
Proof.
  revert e b s. induction n as [|n IH]; intros e b s; cbn; destruct (tg_parent _) as [q|]; try done.
  destruct (negb _); [done|]. etransitivity; [|apply IH]. apply kept_g; [done|]. destruct b; [apply flags_take|done].
Qed.
Lemma settings_throttle e c s : settings_kept s (throttle_cfs_rq e c s).
Proof.
  unfold throttle_cfs_rq. cbv zeta. set (s1 := foldl _ _ _).
  assert (H1 : settings_kept s s1).
  { apply kept_foldl. intros t x. unfold tg_throttle_down. cbv zeta. keep. }
  pose proof (flags_settings _ _ (flags_throttle_walk tg_levels e c (g_h_nr_running (grq s1 e c)) true s1)) as H2.
  destruct (throttle_walk _ _ _ _ _ _) as [s2 top]. cbn in H2. pose proof (transitivity H1 H2).
  unfold start_cfs_bandwidth. keep.
Qed.
Lemma settings_check_enqueue e c s : settings_kept s (check_enqueue_throttle e c s).
Proof.
  unfold check_enqueue_throttle. cbv zeta. keep; try (etransitivity; [|apply settings_throttle]).
  all: apply flags_settings, flags_account.
Qed.
Lemma settings_put e q c s : settings_kept s (put_entity e q c s).
Proof.
  unfold put_entity. cbv zeta. destruct (_ =? 1); [etransitivity; [|apply settings_check_enqueue]|]; keep.
Qed.
Lemma settings_unthrottle_walk n e c d b s : settings_kept s (unthrottle_walk n e c d b s).1.
Proof.
  revert e b s. induction n as [|n IH]; intros e b s; cbn; destruct (tg_parent _) as [q|]; try done.
  set (s1 := upd_g q c _ _). assert (H1 : settings_kept s s1).
  { unfold s1. apply kept_g; [done|]. destruct (b && _); [apply settings_put|done]. }
  destruct (cfs_rq_throttled q c s1); [done|]. transitivity s1; [done|apply IH].
Qed.
Lemma settings_unthrottle e c s : settings_kept s (unthrottle_cfs_rq e c s).
Proof.
  unfold unthrottle_cfs_rq. cbv zeta. set (s1 := foldl _ _ _).
  assert (H1 : settings_kept s s1).
  { unfold s1. etransitivity; [|apply kept_foldl; intros t x; unfold tg_unthrottle_up; cbv zeta; keep]. keep. }
  destruct (_ =? 0); [done|].
  pose proof (settings_unthrottle_walk tg_levels e c (g_h_nr_running (grq s1 e c)) true s1) as H2.
  destruct (unthrottle_walk _ _ _ _ _ _) as [s2 top]. cbn in H2. pose proof (transitivity H1 H2). keep.
Qed.
End KeptOperations.

(** ** Moves of time *)

Section Moves.
Context (cpus : list Z) (Hcpus : NoDup cpus).

(** All the time of a group that is not yet used, debts counted; and what of it
    could still be used. *)
Definition total (a : acct) : Z := a_pool a + sum_of (a_left a) cpus.
Definition usable (a : acct) : Z := a_pool a + sum_of (fun c => Z.max 0 (a_left a c)) cpus.

Definition acct_ok (a : acct) : Prop :=
  0 <= a_pool a /\ 0 <= a_quota a < 2 ^ 62 /\
  (forall c, c ∈ cpus -> - 2 ^ 62 <= a_left a c) /\
  NoDup (a_list a) /\ (forall c, c ∈ a_list a <-> a_throttled a c = true /\ c ∈ cpus).

(** [a'] comes from [a] when at most [k] is put in (at least [-k] taken out). *)
Definition moves (k : Z) (a a' : acct) : Prop :=
  acct_ok a -> usable a + Z.max 0 k < 2 ^ 63 ->
  acct_ok a' /\ a_quota a' = a_quota a /\ usable a' <= usable a + Z.max 0 k /\ total a' <= total a + k.

Lemma moves_trans j k a b c :
  (0 <= j /\ 0 <= k) \/ (j <= 0 /\ k <= 0) -> moves j a b -> moves k b c -> moves (j + k) a c.
Proof.
  intros Hs Hj Hk Ha Hu. destruct (Hj Ha) as (Hb & Eb & Ub & Tb); [lia|].
  destruct (Hk Hb) as (Hc & Ec & Uc & Tc); [lia|]. split_and!; [done|congruence|lia|lia].
Qed.
Lemma moves_trans_0 k a b c : moves k a b -> moves 0 b c -> moves k a c.
Proof.
  intros Hj Hk. replace k with (k + 0) by lia. apply (moves_trans k 0 a b c); [lia|done|done].
Qed.
Lemma moves_0_trans k a b c : moves 0 a b -> moves k b c -> moves k a c.
Proof. intros Hj Hk. apply (moves_trans 0 k a b c); [lia|done|done]. Qed.

Lemma usable_pool a : a_pool a <= usable a.
Proof.
  unfold usable. assert (0 <= sum_of (fun c => Z.max 0 (a_left a c)) cpus); [|lia].
  apply sum_of_nonneg. intros; lia.
Qed.

(** One CPU changed: the sums change by as much. *)
Lemma one_cpu a a' c :
  c ∈ cpus -> (forall d, d <> c -> a_left a' d = a_left a d) ->
  total a' = total a + (a_pool a' - a_pool a) + (a_left a' c - a_left a c) /\
  usable a' = usable a + (a_pool a' - a_pool a) + (Z.max 0 (a_left a' c) - Z.max 0 (a_left a c)).
Proof.
  intros Hc Hd. unfold total, usable.
  rewrite (sum_of_upd (a_left a) (a_left a') cpus c) by (intros; auto).
  rewrite (sum_of_upd (fun d => Z.max 0 (a_left a d)) (fun d => Z.max 0 (a_left a' d)) cpus c) by (intros; auto; by rewrite Hd).
  lia.
Qed.

Lemma usable_cpu a c : c ∈ cpus -> a_pool a + Z.max 0 (a_left a c) <= usable a.
Proof.
  intros Hc. unfold usable. assert (Z.max 0 (a_left a c) <= sum_of (fun c => Z.max 0 (a_left a c)) cpus); [|lia].
  apply (sum_of_le (fun c => Z.max 0 (a_left a c))); [intros; lia|done].
Qed.

Lemma moves_one k a a' c :
  c ∈ cpus -> (forall d, d <> c -> a_left a' d = a_left a d) ->
  a_quota a' = a_quota a -> a_list a' = a_list a -> (forall d, a_throttled a' d = a_throttled a d) ->
  (acct_ok a -> usable a + Z.max 0 k < 2 ^ 63 -> - 2 ^ 62 <= a_left a c ->
   a_pool a + Z.max 0 (a_left a c) <= usable a ->
   0 <= a_pool a' /\ - 2 ^ 62 <= a_left a' c /\
   a_pool a' + Z.max 0 (a_left a' c) <= a_pool a + Z.max 0 (a_left a c) + Z.max 0 k /\
   a_pool a' + a_left a' c <= a_pool a + a_left a c + k) ->
  moves k a a'.
Proof.
  intros Hc Hd Eq El Et Hk Ha Hu. pose proof Ha as (Hp & Hq & Hlo & Hnd & Hl).
  destruct (Hk Ha Hu (Hlo c Hc) (usable_cpu a c Hc)) as (Hp' & Hc' & Hus & Hto).
  destruct (one_cpu a a' c Hc Hd) as [Et1 Eu1].
  split_and!; [|done|lia|lia]. unfold acct_ok. rewrite Eq, El. split_and!; try done; try lia.
  - intros d Hdc. destruct (decide (d = c)) as [->|Hne]; [done|]. rewrite Hd by done. auto.
  - intros d. rewrite Et. apply Hl.
Qed.

#[export] Instance a_quota_proper : Proper (acct_eq ==> eq) a_quota.
Proof. by intros a b (_ & ? & _). Qed.
#[export] Instance total_proper : Proper (acct_eq ==> eq) total.
Proof. intros a b (Ep & _ & _ & Ec). unfold total. rewrite Ep. f_equal. apply sum_of_ext. intros c _. apply Ec. Qed.
#[export] Instance usable_proper : Proper (acct_eq ==> eq) usable.
Proof.
  intros a b (Ep & _ & _ & Ec). unfold usable. rewrite Ep. f_equal. apply sum_of_ext. intros c _. by destruct (Ec c) as [-> _].
Qed.
#[export] Instance acct_ok_proper : Proper (acct_eq ==> iff) acct_ok.
Proof.
  intros a b (Ep & Eq & El & Ec). unfold acct_ok. rewrite Ep, Eq, El.
  enough ((forall c, c ∈ cpus -> - 2 ^ 62 <= a_left a c) <-> (forall c, c ∈ cpus -> - 2 ^ 62 <= a_left b c)) as ->.
  - enough ((forall c, c ∈ a_list b <-> a_throttled a c = true /\ c ∈ cpus) <->
            (forall c, c ∈ a_list b <-> a_throttled b c = true /\ c ∈ cpus)) as ->; [done|].
    split; intros Hc c; specialize (Hc c); destruct (Ec c) as [_ E]; by rewrite E in *.
  - split; intros Hc c Hin; specialize (Hc c Hin); destruct (Ec c) as [E _]; by rewrite E in *.
Qed.

Lemma moves_eq a a' : a' ≡a a -> moves 0 a a'.
Proof. intros E Ha Hu. rewrite E. split_and!; [done|done|lia|lia]. Qed.

(** Throttling and unthrottling a CPU. *)
Lemma moves_flag a a' c :
  a_pool a' = a_pool a -> a_quota a' = a_quota a -> (forall d, a_left a' d = a_left a d) ->
  (forall d, d <> c -> a_throttled a' d = a_throttled a d) ->
  (acct_ok a -> NoDup (a_list a') /\ (c ∈ a_list a' <-> a_throttled a' c = true /\ c ∈ cpus) /\
     forall d, d <> c -> d ∈ a_list a' <-> d ∈ a_list a) ->
  moves 0 a a'.
Proof.
  intros Ep Eq El Et Hk Ha Hu. destruct (Hk Ha) as (Hnd & Hc & Hd). destruct Ha as (Hp & Hq & Hlo & _ & Hl).
  assert (E1 : total a' = total a).
  { unfold total. rewrite Ep. f_equal. apply sum_of_ext. auto. }
  assert (E2 : usable a' = usable a).
  { unfold usable. rewrite Ep. f_equal. apply sum_of_ext. intros. by rewrite El. }
  split_and!; [|done|lia|lia]. unfold acct_ok. rewrite Ep, Eq. split_and!; try done; try lia.
  - intros d Hdc. rewrite El. auto.
  - intros d. destruct (decide (d = c)) as [->|Hne]; [done|]. by rewrite Hd, Et by done.
Qed.
End Moves.

(** ** The operations *)

Section Operations.
Context `{BwEnv} (cpus : list Z) (Hcpus : NoDup cpus) (g : Z).
Notation "s '~[' k ']~>' t" := (moves cpus k (acct_of g s) (acct_of g t)) (at level 70).

Lemma moves_left k c f s :
  c ∈ cpus -> (forall q, throttled (f q) = throttled q) ->
  (let x := runtime_remaining (grq s g c) in let x' := runtime_remaining (f (grq s g c)) in
   acct_ok cpus (acct_of g s) -> - 2 ^ 62 <= x -> x + Z.max 0 k < 2 ^ 63 ->
   - 2 ^ 62 <= x' /\ Z.max 0 x' <= Z.max 0 x + Z.max 0 k /\ x' <= x + k) ->
  s ~[k]~> upd_g g c f s.
Proof.
  intros Hc Ht Hx. apply (moves_one cpus Hcpus k _ _ c); cbn; rewrite ?cfs_b_upd_g; try done.
  - intros d Hd. rewrite grq_upd_g, decide_False; [done|]. naive_solver.
  - intros d. rewrite grq_upd_g. destruct (decide (g = g /\ c = d)) as [[_ ->]|]; [apply Ht|done].
  - intros Ha Hu Hlo Hcu. rewrite grq_upd_g, decide_True by done. pose proof Ha as (Hp & _). cbn in Hp.
    destruct (Hx Ha Hlo) as (A & B & C); [lia|]. lia.
Qed.

Lemma moves_pool_left k c f h s :
  c ∈ cpus -> (forall q, throttled (f q) = throttled q) ->
  (forall b, quota (h b) = quota b /\ throttled_cfs_rq (h b) = throttled_cfs_rq b) ->
  (let x := runtime_remaining (grq s g c) in let x' := runtime_remaining (f (grq s g c)) in
   let p := runtime (cfs_b s g) in let p' := runtime (h (cfs_b s g)) in
   acct_ok cpus (acct_of g s) -> - 2 ^ 62 <= x -> p + Z.max 0 x + Z.max 0 k < 2 ^ 63 ->
   0 <= p' /\ - 2 ^ 62 <= x' /\ p' + Z.max 0 x' <= p + Z.max 0 x + Z.max 0 k /\ p' + x' <= p + x + k) ->
  s ~[k]~> upd_g g c f (upd_b g h s).
Proof.
  intros Hc Ht Hh Hx. destruct (Hh (cfs_b s g)) as [Hq Hl].
  apply (moves_one cpus Hcpus k _ _ c); cbn; rewrite ?cfs_b_upd_g, ?cfs_b_upd_b, ?decide_True by done; try done.
  - intros d Hd. rewrite grq_upd_g, !grq_upd_b, decide_False; [done|]. naive_solver.
  - intros d. rewrite grq_upd_g, !grq_upd_b. destruct (decide (g = g /\ c = d)) as [[_ ->]|]; [apply Ht|done].
  - intros Ha Hu Hlo Hcu. rewrite grq_upd_g, decide_True, grq_upd_b by done.
    destruct (Hx Ha Hlo) as (A & B & C & D); lia.
Qed.

Lemma moves_g k e c f s s' :
  (e = g -> forall q, (runtime_remaining (f q), throttled (f q)) = (runtime_remaining q, throttled q)) ->
  s ~[k]~> s' -> s ~[k]~> upd_g e c f s'.
Proof. intros Hf Hs. eapply moves_trans_0; [exact Hs|]. apply moves_eq. by apply acct_upd_g. Qed.
Lemma moves_b k e f s s' :
  (e = g -> forall b, (runtime (f b), quota (f b), throttled_cfs_rq (f b)) = (runtime b, quota b, throttled_cfs_rq b)) ->
  s ~[k]~> s' -> s ~[k]~> upd_b e f s'.
Proof. intros Hf Hs. eapply moves_trans_0; [exact Hs|]. apply moves_eq. by apply acct_upd_b. Qed.
Lemma moves_refl s : s ~[0]~> s.
Proof. by apply moves_eq. Qed.

Lemma acct_start e s : acct_of g (start_cfs_bandwidth e s) ≡a acct_of g s.
Proof.
  unfold start_cfs_bandwidth. destruct (negb _); [|done]. rewrite acct_started. by apply acct_upd_b.
Qed.
Lemma acct_start_slack e s : acct_of g (start_cfs_slack_bandwidth e s) ≡a acct_of g s.
Proof. unfold start_cfs_slack_bandwidth. destruct (runtime_refresh_within _ _ _); [done|]. by rewrite acct_started. Qed.

Lemma quota_not_inf s : acct_ok cpus (acct_of g s) -> (quota (cfs_b s g) =? RUNTIME_INF) = false.
Proof. intros (_ & Hq & _). cbn in Hq. apply Z.eqb_neq. intros E. rewrite E in Hq. by vm_compute in Hq; destruct Hq. Qed.

Lemma moves_if_ok k a a' : (acct_ok cpus a -> moves cpus k a a') -> moves cpus k a a'.
Proof. intros Hk Ha. by apply Hk. Qed.
Lemma moves_acct k s s' s'' : acct_of g s'' ≡a acct_of g s' -> s ~[k]~> s' -> s ~[k]~> s''.
Proof. intros E Hs. eapply moves_trans_0; [exact Hs|]. by apply moves_eq. Qed.
Lemma moves_acct_l k s s' s'' : acct_of g s' ≡a acct_of g s -> s' ~[k]~> s'' -> s ~[k]~> s''.
Proof. intros E Hs. eapply moves_0_trans; [|exact Hs]. by apply moves_eq. Qed.

(** Peels the updates that leave the account alone. *)
Ltac peel :=
  repeat match goal with
  | |- moves _ 0 (acct_of _ ?s) (acct_of _ ?s) => apply moves_refl
  | |- moves _ _ _ (acct_of _ (if ?b then _ else _)) => destruct b
  | |- moves _ _ _ (acct_of _ (on_kernel _ ?s)) => rewrite (acct_kernel g)
  | |- moves _ _ _ (acct_of _ (start_cfs_bandwidth _ _)) => eapply moves_acct; [apply acct_start|]
  | |- moves _ _ _ (acct_of _ (start_cfs_slack_bandwidth _ _)) => eapply moves_acct; [apply acct_start_slack|]
  | |- moves _ _ _ (acct_of _ (upd_g _ _ _ _)) => apply moves_g; [done|]
  | |- moves _ _ _ (acct_of _ (upd_b _ _ _)) => apply moves_b; [done|]
  end.

Lemma moves_assign e c s : c ∈ cpus -> s ~[0]~> (assign_cfs_rq_runtime e c s).1.
Proof.
  intros Hc. apply moves_if_ok. intros Ha. unfold assign_cfs_rq_runtime. set (m := u64 _).
  assert (Hm : 0 <= m) by apply u64_range. clearbody m.
  destruct (decide (e = g)) as [->|Hne].
  - rewrite quota_not_inf by done. set (s1 := start_cfs_bandwidth g s).
    apply (moves_acct_l 0 s s1); [apply acct_start|].
    destruct (0 <? runtime (cfs_b s1 g)) eqn:Hp; cbn [fst]; peel.
    1,2: apply Z.ltb_lt in Hp; apply moves_pool_left; [done|done|done|]; cbn; intros Ha1 Hx Hu;
      rewrite u64_id, s64_id; lia.
    all: apply moves_left; [done|done|]; cbn; intros Ha1 Hx Hu; rewrite s64_id; lia.
  - destruct (quota (cfs_b s e) =? RUNTIME_INF); [|destruct (0 <? _)]; cbn [fst]; peel.
Qed.

Lemma moves_expire e c s : c ∈ cpus -> s ~[0]~> expire_cfs_rq_runtime e c s.
Proof.
  intros Hc. unfold expire_cfs_rq_runtime. destruct (_ <? 0); [peel|].
  destruct (runtime_remaining (grq s e c) <? 0) eqn:Hr; [peel|]. apply Z.ltb_ge in Hr.
  destruct (_ =? _); [peel|]. destruct (decide (e = g)) as [->|Hne]; [|peel].
  apply moves_left; [done|done|]. cbn. lia.
Qed.

(** Charging: what follows the charge moves no time in or out. *)
Lemma moves_charge k e c d s :
  c ∈ cpus -> s ~[k]~> upd_g e c (fun q => q <| runtime_remaining ::= fun x => s64 (x - d) |>) s ->
  s ~[k]~> __account_cfs_rq_runtime e c d s.
Proof.
  intros Hc H1. unfold __account_cfs_rq_runtime. cbv zeta.
  match type of H1 with moves _ _ _ (acct_of _ ?t) => set (s1 := t) in * end.
  set (s2 := expire_cfs_rq_runtime e c s1). pose proof (moves_expire e c s1 Hc) as H2. fold s2 in H2.
  pose proof (moves_trans_0 _ _ _ _ _ H1 H2) as H12.
  destruct (0 <? _); [done|]. pose proof (moves_assign e c s2 Hc) as H3.
  destruct (assign_cfs_rq_runtime e c s2) as [s3 ok]. cbn [fst] in H3.
  pose proof (moves_trans_0 _ _ _ _ _ H12 H3). destruct (_ && _); [rewrite acct_kernel|]; done.
Qed.

Lemma moves_account c d s :
  c ∈ cpus -> 0 <= d -> - 2 ^ 62 <= runtime_remaining (grq s g c) - d -> s ~[- d]~> __account_cfs_rq_runtime g c d s.
Proof.
  intros Hc Hd Hlo. apply moves_charge; [done|]. apply moves_left; [done|done|].
  cbn. intros Ha Hx Hu. rewrite s64_id; lia.
Qed.
Lemma moves_account_other e c d s : c ∈ cpus -> e <> g \/ d = 0 -> s ~[0]~> account_cfs_rq_runtime e c d s.
Proof.
  intros Hc Hed. unfold account_cfs_rq_runtime. destruct (_ || _); [peel|]. apply moves_charge; [done|].
  destruct (decide (e = g)) as [->|Hne]; [|peel]. destruct Hed as [Hed| ->]; [done|].
  apply moves_left; [done|done|]. cbn. intros Ha Hx Hu. rewrite s64_id; lia.
Qed.

(** Giving back. *)
Lemma acct_cong_left c f s1 s2 :
  acct_of g s1 ≡a acct_of g s2 ->
  acct_of g (upd_g g c (fun q => q <| runtime_remaining ::= f |>) s1) ≡a
  acct_of g (upd_g g c (fun q => q <| runtime_remaining ::= f |>) s2).
Proof.
  intros (A & B & C & D). cbn in *. split_and!; cbn; rewrite ?cfs_b_upd_g; try done.
  intros d. rewrite !grq_upd_g. destruct (D d) as [D1 D2].
  destruct (decide (g = g /\ c = d)) as [[_ ->]|]; cbn; [by rewrite D1|done].
Qed.

Lemma moves_return e c s : c ∈ cpus -> s ~[0]~> return_cfs_rq_runtime e c s.
Proof.
  intros Hc. unfold return_cfs_rq_runtime. destruct (negb _); [peel|]. destruct (_ || _); [peel|].
  unfold __return_cfs_rq_runtime. set (slack := s64 _). destruct (slack <=? 0) eqn:Hs; [peel|]. apply Z.leb_gt in Hs.
  destruct (decide (e = g)) as [->|Hne].
  - assert (Hsl : acct_ok cpus (acct_of g s) -> runtime_remaining (grq s g c) < 2 ^ 63 ->
                  slack = runtime_remaining (grq s g c) - min_cfs_rq_runtime).
    { intros (_ & _ & Hlo & _) Hlt. specialize (Hlo c Hc). cbn in Hlo. unfold slack, min_cfs_rq_runtime, NSEC_PER_MSEC.
      rewrite s64_id; lia. }
    unfold min_cfs_rq_runtime, NSEC_PER_MSEC in Hsl. clearbody slack.
    match goal with |- moves _ _ _ (acct_of _ (upd_g _ _ _ (if ?b then _ else _))) => destruct b end.
    + eapply moves_acct.
      { apply acct_cong_left. match goal with |- acct_of _ (if ?b then _ else _) ≡a _ => destruct b end;
          [apply acct_start_slack|reflexivity]. }
      apply moves_pool_left; [done|done|done|]. cbn. intros Ha Hx Hu. pose proof Ha as (Hp & _). cbn in Hp.
      rewrite Hsl in * by (done || lia). rewrite u64_id, s64_id; lia.
    + apply moves_left; [done|done|]. cbn. intros Ha Hx Hu. rewrite Hsl in * by (done || lia). rewrite s64_id; lia.
  - peel.
Qed.

Lemma moves_take e q c s : c ∈ cpus -> s ~[0]~> take_entity e q c s.
Proof.
  intros Hc. unfold take_entity. cbv zeta. eapply moves_0_trans; [|by apply moves_return]. peel.
Qed.
Lemma moves_foldl {A} (f : bw_state -> A -> bw_state) l s :
  (forall s x, s ~[0]~> f s x) -> s ~[0]~> foldl f s l.
Proof.
  intros Hf. revert s. induction l as [|x l IH]; intros s; [apply moves_refl|]. cbn.
  eapply moves_0_trans; [apply Hf|apply IH].
Qed.
Lemma moves_throttle_walk n e c d b s : c ∈ cpus -> s ~[0]~> (throttle_walk n e c d b s).1.
Proof.
  intros Hc. revert e b s. induction n as [|n IH]; intros e b s; cbn; destruct (tg_parent _) as [q|]; try apply moves_refl.
  destruct (negb _); [apply moves_refl|]. eapply moves_0_trans; [|apply IH]. apply moves_g; [done|].
  destruct b; [by apply moves_take|apply moves_refl].
Qed.

(** The flag of a CPU and its place in the list change together. *)
Lemma moves_mark c f h s :
  (forall q, runtime_remaining (f q) = runtime_remaining q) ->
  (forall b, runtime (h b) = runtime b /\ quota (h b) = quota b) ->
  (let l := throttled_cfs_rq (cfs_b s g) in let l' := throttled_cfs_rq (h (cfs_b s g)) in
   acct_ok cpus (acct_of g s) ->
   NoDup l' /\ (c ∈ l' <-> throttled (f (grq s g c)) = true /\ c ∈ cpus) /\ forall d, d <> c -> d ∈ l' <-> d ∈ l) ->
  s ~[0]~> upd_b g h (upd_g g c f s).
Proof.
  intros Hf Hh Hl. destruct (Hh (cfs_b s g)) as [Hr Hq].
  apply (moves_flag cpus _ _ c); cbn; rewrite ?cfs_b_upd_b, ?decide_True, ?cfs_b_upd_g by done; try done.
  - intros d. rewrite !grq_upd_b, grq_upd_g. by case_decide as Hd; [destruct Hd as [_ ->]|].
  - intros d Hd. rewrite !grq_upd_b, grq_upd_g, decide_False; [done|]. naive_solver.
  - rewrite !grq_upd_b, grq_upd_g, decide_True by done. done.
Qed.

Lemma moves_throttle e c s : c ∈ cpus -> throttled (grq s e c) = false -> s ~[0]~> throttle_cfs_rq e c s.
Proof.
  intros Hc Ht. unfold throttle_cfs_rq. cbv zeta. set (s1 := foldl _ _ _).
  assert (H1 : s ~[0]~> s1 /\ flags_kept s s1).
  { split.
    - apply moves_foldl. intros t x. unfold tg_throttle_down. cbv zeta. peel.
    - apply kept_foldl. intros t x. unfold tg_throttle_down. cbv zeta. keep. }
  pose proof (moves_throttle_walk tg_levels e c (g_h_nr_running (grq s1 e c)) true s1 Hc) as H2.
  pose proof (flags_throttle_walk tg_levels e c (g_h_nr_running (grq s1 e c)) true s1) as F2.
  destruct (throttle_walk _ _ _ _ _ _) as [s2 top]. cbn in H2, F2. destruct H1 as [H1 F1].
  pose proof (moves_0_trans _ _ _ _ _ H1 H2) as H12. pose proof (transitivity F1 F2) as (_ & _ & F).
  set (s3 := if top then _ else s2).
  assert (H3 : s ~[0]~> s3) by (unfold s3; destruct top; done).
  assert (Ht3 : throttled (grq s3 e c) = false).
  { destruct (F e) as (_ & _ & _ & Fc). specialize (Fc c). unfold flags_g in Fc. injection Fc as Fc _.
    rewrite Ht in Fc. unfold s3. destruct top; exact Fc. }
  match goal with |- moves _ _ _ (acct_of _ (if _ then start_cfs_bandwidth _ ?x else _)) => set (s4 := x) end.
  assert (H4 : s3 ~[0]~> s4); [|pose proof (moves_trans_0 _ _ _ _ _ H3 H4); peel; done].
  unfold s4. clearbody s3. destruct (decide (e = g)) as [->|Hne]; [|peel].
  apply moves_mark; [done|done|]. cbn. intros (_ & _ & _ & Hnd & Hl). cbn in Hnd, Hl.
  assert (Hn : c ∉ throttled_cfs_rq (cfs_b s3 g)) by (rewrite Hl; intros [E _]; congruence).
  destruct (distribute_running _).
  - split_and!; [by constructor|split; [done|intros _; set_solver]|set_solver].
  - split_and!; [apply NoDup_app; split_and!; [done|set_solver|apply NoDup_singleton]|split; [done|intros _; set_solver]|set_solver].
Qed.

Lemma moves_check_enqueue e c s : c ∈ cpus -> s ~[0]~> check_enqueue_throttle e c s.
Proof.
  intros Hc. unfold check_enqueue_throttle. destruct (cfs_bandwidth_used s) eqn:Hu; cbn; [|peel].
  destruct (_ || _); [peel|]. destruct (cfs_rq_throttled e c s) eqn:Ht; [peel|].
  pose proof (moves_account_other e c 0 s Hc (or_intror eq_refl)) as H1.
  pose proof (flags_account e c 0 s) as (_ & _ & F).
  destruct (_ <=? 0); [|done]. eapply moves_0_trans; [exact H1|]. apply moves_throttle; [done|].
  destruct (F e) as (_ & _ & _ & Fc). specialize (Fc c). unfold flags_g in Fc. injection Fc as -> _.
  unfold cfs_rq_throttled in Ht. by rewrite Hu in Ht.
Qed.
Lemma moves_check_runtime e c s : c ∈ cpus -> s ~[0]~> (check_cfs_rq_runtime e c s).1.
Proof.
  intros Hc. unfold check_cfs_rq_runtime. destruct (cfs_bandwidth_used s) eqn:Hu; cbn; [|apply moves_refl].
  destruct (_ || _); [apply moves_refl|]. destruct (cfs_rq_throttled e c s) eqn:Ht; [apply moves_refl|].
  apply moves_throttle; [done|]. unfold cfs_rq_throttled in Ht. by rewrite Hu in Ht.
Qed.

Lemma moves_put e q c s : c ∈ cpus -> s ~[0]~> put_entity e q c s.
Proof.
  intros Hc. unfold put_entity. cbv zeta. destruct (_ =? 1); [eapply moves_0_trans; [|by apply moves_check_enqueue]|]; peel.
Qed.
Lemma moves_unthrottle_walk n e c d b s : c ∈ cpus -> s ~[0]~> (unthrottle_walk n e c d b s).1.
Proof.
  intros Hc. revert e b s. induction n as [|n IH]; intros e b s; cbn; destruct (tg_parent _) as [q|]; try apply moves_refl.
  set (s1 := upd_g q c _ _). assert (H1 : s ~[0]~> s1).
  { unfold s1. apply moves_g; [done|]. destruct (b && _); [by apply moves_put|apply moves_refl]. }
  destruct (cfs_rq_throttled q c s1); [done|]. eapply moves_0_trans; [exact H1|apply IH].
Qed.
Lemma moves_unthrottle e c s : c ∈ cpus -> s ~[0]~> unthrottle_cfs_rq e c s.
Proof.
  intros Hc. unfold unthrottle_cfs_rq. cbv zeta.
  match goal with |- context [upd_b e ?h (on_kernel ?k ?s)] => set (hb := h); set (s0 := upd_b e hb (on_kernel k s)) end.
  assert (H0 : s ~[0]~> s0).
  { unfold s0. destruct (decide (e = g)) as [->|Hne]; [|peel].
    change (s ~[0]~> upd_b g hb (upd_g g c (fun q => q <| throttled := false |>) s)).
    apply moves_mark; [done|done|]. unfold hb. cbn -[list_del]. intros (_ & _ & _ & Hnd & Hl). split_and!; [auto with lists| |].
    - rewrite elem_of_list_del. naive_solver.
    - intros d Hd. rewrite elem_of_list_del. naive_solver. }
  set (s1 := foldl _ _ _).
  assert (H1 : s ~[0]~> s1).
  { eapply moves_0_trans; [exact H0|]. apply moves_foldl. intros t x. unfold tg_unthrottle_up. cbv zeta. peel. }
  destruct (_ =? 0); [done|].
  pose proof (moves_unthrottle_walk tg_levels e c (g_h_nr_running (grq s1 e c)) true s1 Hc) as H2.
  destruct (unthrottle_walk _ _ _ _ _ _) as [s2 top]. cbn in H2. pose proof (moves_0_trans _ _ _ _ _ H1 H2).
  repeat match goal with |- context [if ?b then _ else _] => destruct b end; done.
Qed.

(** ** Handing time out *)

Lemma moves_distribute l remaining expires s s' rest :
  (forall s, s ~[0]~> bw_others s) -> (forall c, c ∈ l -> c ∈ cpus) -> 0 <= remaining < 2 ^ 64 ->
  distribute_loop g l remaining expires s = (s', rest) -> 0 <= rest <= remaining /\ s ~[remaining - rest]~> s'.
Proof.
  intros Ho. revert remaining s. induction l as [|c l IH]; intros remaining s Hl Hr E; cbn in E.
  - injection E as <- <-. split; [lia|]. replace (remaining - remaining) with 0 by lia. apply moves_refl.
  - set (s1 := bw_others s) in E. pose proof (Ho s : s ~[0]~> s1) as H1. clearbody s1.
    assert (Hc : c ∈ cpus) by (apply Hl; set_solver).
    set (p := if negb _ then _ else _) in E. assert (Hp : 0 <= p.2 <= remaining /\ s1 ~[remaining - p.2]~> p.1).
    { unfold p. destruct (negb _); cbn [fst snd].
      - split; [lia|]. replace (remaining - remaining) with 0 by lia. apply moves_refl.
      - set (r := Z.min _ remaining). assert (Hrr : 0 <= r <= remaining).
        { pose proof (u64_range (- runtime_remaining (grq s1 g c) + 1)). unfold r. lia. }
        rewrite (u64_id (remaining - r)) by lia. split; [lia|]. replace (remaining - (remaining - r)) with r by lia.
        clearbody r. match goal with |- moves _ _ _ (acct_of _ (if _ then unthrottle_cfs_rq _ _ ?x else _)) => set (s2 := x) end.
        assert (H2 : s1 ~[r]~> s2).
        { apply moves_left; [done|done|]. cbn. intros _ Hx Hu. rewrite s64_id; lia. }
        clear E p; destruct (0 <? _); [|exact H2]. eapply moves_trans_0; [exact H2|]. by apply moves_unthrottle. }
    destruct p as [s2 rem2]. cbn in Hp. destruct Hp as [Hr2 H2]. pose proof (moves_0_trans _ _ _ _ _ H1 H2) as H12.
    destruct (rem2 =? 0); [injection E as <- <-; done|].
    destruct (IH rem2 s2) as [Hrest H3]; [set_solver|lia|done|]. split; [lia|].
    replace (remaining - rest) with ((remaining - rem2) + (rem2 - rest)) by lia.
    apply (moves_trans _ _ _ _ (acct_of g s2)); [lia|done|done].
Qed.

(** Taking [used] from the pool, or all of it. *)
Lemma drain h s used :
  acct_ok cpus (acct_of g s) -> 0 <= used -> (forall b, runtime (h b) = runtime b - Z.min used (runtime b)) ->
  (forall b, quota (h b) = quota b /\ throttled_cfs_rq (h b) = throttled_cfs_rq b) ->
  let m := Z.min used (runtime (cfs_b s g)) in
  acct_ok cpus (acct_of g (upd_b g h s)) /\
  total cpus (acct_of g (upd_b g h s)) = total cpus (acct_of g s) - m /\
  usable cpus (acct_of g (upd_b g h s)) = usable cpus (acct_of g s) - m.
Proof.
  intros Ha Hus Hr Hh m. specialize (Hr (cfs_b s g)). destruct (Hh (cfs_b s g)) as [Hq Hl].
  assert (E : acct_of g (upd_b g h s) ≡a mkAcct (runtime (cfs_b s g) - m) (quota (cfs_b s g)) (throttled_cfs_rq (cfs_b s g))
                (fun c => runtime_remaining (grq s g c)) (fun c => throttled (grq s g c))).
  { split_and!; cbn; rewrite ?cfs_b_upd_b, ?decide_True by done; try done. intros c. by rewrite grq_upd_b. }
  rewrite E. split_and!.
  - destruct Ha as (Hp & Ha). cbn in Hp. split; [cbn; lia|exact Ha].
  - unfold total. cbn. lia.
  - unfold usable. cbn. lia.
Qed.

(** One round: what it gave out is taken from the pool, or the pool is empty. *)
Lemma round_bounds h s s' start used :
  acct_ok cpus (acct_of g s) -> usable cpus (acct_of g s) + start < 2 ^ 63 -> 0 <= used <= start ->
  s ~[used]~> s' -> (forall b, runtime (h b) = runtime b - Z.min used (runtime b)) ->
  (forall b, quota (h b) = quota b /\ throttled_cfs_rq (h b) = throttled_cfs_rq b) ->
  let s'' := upd_b g h s' in
  acct_ok cpus (acct_of g s'') /\ quota (cfs_b s'' g) = quota (cfs_b s g) /\
  (usable cpus (acct_of g s'') <= usable cpus (acct_of g s) /\ total cpus (acct_of g s'') <= total cpus (acct_of g s) \/
   runtime (cfs_b s'' g) = 0 /\ usable cpus (acct_of g s'') <= usable cpus (acct_of g s) + start /\
   total cpus (acct_of g s'') <= total cpus (acct_of g s) + start).
Proof.
  intros Ha Hu Hus Hm Hr Hh s''. destruct (Hm Ha) as (Ha' & Eq & Hu' & Ht'); [lia|]. cbn in Eq.
  destruct (drain h s' used Ha' ltac:(lia) Hr Hh) as (Ha'' & Et & Eu).
  assert (Eb : cfs_b s'' g = h (cfs_b s' g)) by (unfold s''; by rewrite cfs_b_upd_b, decide_True).
  destruct (Hh (cfs_b s' g)) as [Hq _]. pose proof Ha' as (Hp & _). cbn in Hp.
  fold s'' in Ha'', Et, Eu. split_and!; [done|by rewrite Eb, Hq|]. rewrite Eb, Hr. lia.
Qed.

Lemma refill_rounds_bounds n expires b s :
  (forall s, s ~[0]~> bw_others s) ->
  acct_ok cpus (acct_of g s) -> usable cpus (acct_of g s) < 2 ^ 62 ->
  let s' := (refill_rounds n g expires b s).1 in
  acct_ok cpus (acct_of g s') /\ quota (cfs_b s' g) = quota (cfs_b s g) /\
  total cpus (acct_of g s') <= total cpus (acct_of g s) + usable cpus (acct_of g s).
Proof.
  intros Ho. revert b s. induction n as [|n IH]; intros b s Ha Hu.
  all: pose proof (usable_pool cpus (acct_of g s)) as Hpu; pose proof Ha as (Hp & _); cbn in Hp, Hpu.
  - cbn. destruct (_ && _); cbn; split_and!; try done; lia.
  - cbn. destruct (_ && _); [|cbn; split_and!; try done; lia].
    unfold distribute_cfs_runtime. set (start := runtime (cfs_b s g)) in *. set (s1 := upd_b g _ s).
    assert (Hs1 : acct_of g s1 ≡a acct_of g s) by by apply acct_upd_b.
    destruct (distribute_loop g _ start expires s1) as [s2 rest] eqn:E.
    apply moves_distribute in E as [Hrest H2]; [|done| |lia].
    2:{ intros c Hc. destruct Hs1 as (_ & _ & El & _). destruct Ha as (_ & _ & _ & _ & Hl). cbn in El, Hl.
        rewrite El in Hc. by apply Hl in Hc as [_ ?]. }
    rewrite u64_id by lia. set (used := start - rest) in *. set (s3 := bw_others s2).
    assert (H3 : s ~[used]~> s3).
    { eapply moves_trans_0; [|apply Ho]. by eapply moves_acct_l. }
    match goal with |- context [refill_rounds n g expires ?b' (upd_b g ?f s3)] => set (b3 := b'); set (h := f) end.
    destruct (round_bounds h s s3 start used) as (Ha4 & Eq4 & Hcase); try done; [lia|lia|].
    set (s4 := upd_b g h s3) in *. destruct Hcase as [[Hu4 Ht4]|(H0 & Hu4 & Ht4)].
    + destruct (IH b3 s4) as (A & B & C); [done|lia|]. split_and!; [done|congruence|lia].
    + destruct n; cbn; rewrite H0, andb_false_r; cbn; (split_and!; [done|done|lia]).
Qed.
End Operations.

(** ** Groups further up *)

(** The parents form a tree: [rank] goes down towards the root. *)
Definition ranked (rank : Z -> nat) (s : bw_state) : Prop :=
  forall e p, tg_parent (tgs s e) = Some p -> (rank p < rank e)%nat.

Lemma ranked_kept {B G} (pb : cfs_bandwidth -> B) (pg : group_rq -> G) rank s s' :
  kept pb pg s s' -> ranked rank s -> ranked rank s'.
Proof. intros (_ & _ & Hk) Hr e p. destruct (Hk e) as (-> & _). apply Hr. Qed.

(** What happens on the queues of other groups leaves the account alone. *)
Section Far.
Context `{BwEnv} (rank : Z -> nat) (g : Z).

Ltac far :=
  repeat match goal with
  | |- acct_of _ ?s ≡a acct_of _ ?s => reflexivity
  | |- acct_of _ (if ?b then _ else _) ≡a _ => destruct b
  | |- acct_of _ (on_kernel _ ?s) ≡a _ => rewrite (acct_kernel g)
  | |- acct_of _ (start_cfs_bandwidth _ ?s) ≡a _ => transitivity (acct_of g s); [apply acct_start|]
  | |- acct_of _ (start_cfs_slack_bandwidth _ ?s) ≡a _ => transitivity (acct_of g s); [apply acct_start_slack|]
  | |- acct_of _ (upd_g _ _ _ ?s) ≡a _ => transitivity (acct_of g s); [by apply acct_upd_g|]
  | |- acct_of _ (upd_b _ _ ?s) ≡a _ => transitivity (acct_of g s); [by apply acct_upd_b|]
  end.

Lemma far_account e c d s : e <> g -> acct_of g (account_cfs_rq_runtime e c d s) ≡a acct_of g s.
Proof.
  intros Hne. unfold account_cfs_rq_runtime, __account_cfs_rq_runtime. destruct (_ || _); [done|]. cbv zeta.
  set (s1 := upd_g e c _ s).
  assert (H1 : acct_of g (expire_cfs_rq_runtime e c s1) ≡a acct_of g s).
  { unfold expire_cfs_rq_runtime, s1. cbv zeta. far. }
  destruct (0 <? _); [done|]. set (s2 := expire_cfs_rq_runtime e c s1) in *.
  assert (H2 : acct_of g (assign_cfs_rq_runtime e c s2).1 ≡a acct_of g s2).
  { unfold assign_cfs_rq_runtime. destruct (quota _ =? _); [|destruct (0 <? _)]; cbn [fst]; cbv zeta; far. }
  destruct (assign_cfs_rq_runtime _ _ _) as [s3 ok]. cbn in H2. pose proof (transitivity H2 H1). far; done.
Qed.
Lemma far_return e c s : e <> g -> acct_of g (return_cfs_rq_runtime e c s) ≡a acct_of g s.
Proof. intros Hne. unfold return_cfs_rq_runtime, __return_cfs_rq_runtime. cbv zeta. far. Qed.
Lemma far_foldl {A} (f : bw_state -> A -> bw_state) l s :
  (forall s x, acct_of g (f s x) ≡a acct_of g s) -> acct_of g (foldl f s l) ≡a acct_of g s.
Proof.
  intros Hf. revert s. induction l as [|x l IH]; intros s; [reflexivity|]. cbn. transitivity (acct_of g (f s x)); auto.
Qed.

(** Walking up from [g] or from a group above it. *)
Lemma far_throttle_walk n e c d b s :
  ranked rank s -> (rank e <= rank g)%nat -> acct_of g (throttle_walk n e c d b s).1 ≡a acct_of g s.
Proof.
  revert e b s. induction n as [|n IH]; intros e b s Hr He; cbn; destruct (tg_parent _) as [q|] eqn:Hq; try done.
  destruct (negb _); [done|]. apply Hr in Hq. assert (Hne : q <> g) by (intros ->; lia).
  set (s1 := if b then take_entity e q c s else s).
  assert (H1 : acct_of g s1 ≡a acct_of g s /\ flags_kept s s1).
  { unfold s1, take_entity. cbv zeta. destruct b; [|done]. split; [|apply flags_take]. etransitivity; [by apply far_return|]. far. }
  destruct H1 as [H1 F1]. etransitivity; [apply IH|]; [|lia|far; exact H1].
  apply (ranked_kept flags_b flags_g rank s); [by apply kept_g|done].
Qed.
Lemma far_throttle e c s : ranked rank s -> (rank e < rank g)%nat -> acct_of g (throttle_cfs_rq e c s) ≡a acct_of g s.
Proof.
  intros Hr He. assert (Hne : e <> g) by (intros ->; lia). unfold throttle_cfs_rq. cbv zeta. set (s1 := foldl _ _ _).
  assert (H1 : acct_of g s1 ≡a acct_of g s /\ flags_kept s s1).
  { split; [apply far_foldl|apply kept_foldl]; intros t x; unfold tg_throttle_down; cbv zeta; [far|keep]. }
  destruct H1 as [H1 F1].
  pose proof (far_throttle_walk tg_levels e c (g_h_nr_running (grq s1 e c)) true s1
    (ranked_kept _ _ rank s s1 F1 Hr) ltac:(lia)) as H2.
  destruct (throttle_walk _ _ _ _ _ _) as [s2 top]. cbn in H2. pose proof (transitivity H2 H1). far; done.
Qed.
Lemma far_check_enqueue e c s :
  ranked rank s -> (rank e < rank g)%nat -> acct_of g (check_enqueue_throttle e c s) ≡a acct_of g s.
Proof.
  intros Hr He. assert (Hne : e <> g) by (intros ->; lia). unfold check_enqueue_throttle. cbv zeta. far.
  - etransitivity; [apply far_throttle; [|done]|by apply far_account].
    by eapply ranked_kept; [apply flags_account|].
  - by apply far_account.
Qed.
Lemma far_unthrottle_walk n e c d b s :
  ranked rank s -> (rank e <= rank g)%nat -> acct_of g (unthrottle_walk n e c d b s).1 ≡a acct_of g s.
Proof.
  revert e b s. induction n as [|n IH]; intros e b s Hr He; cbn; destruct (tg_parent _) as [q|] eqn:Hq; try done.
  pose proof (Hr _ _ Hq) as Hlt. assert (Hne : q <> g) by (intros ->; lia). set (s1 := upd_g q c _ _).
  assert (H1 : acct_of g s1 ≡a acct_of g s /\ settings_kept s s1).
  { unfold s1. split.
    - far. unfold put_entity. cbv zeta. destruct (_ =? 1); [|far]. etransitivity; [apply far_check_enqueue|far]; [|lia].
      eapply (ranked_kept flags_b flags_g); [|exact Hr]. keep.
    - apply kept_g; [done|]. destruct (b && _); [apply settings_put|done]. }
  destruct H1 as [H1 F1]. destruct (cfs_rq_throttled q c s1); [done|]. etransitivity; [apply IH|exact H1]; [|lia].
  by eapply ranked_kept.
Qed.

(** Unthrottling takes the CPU off the list, and no more. *)
Lemma acct_unthrottle c s :
  ranked rank s -> acct_of g (unthrottle_cfs_rq g c s) ≡a
    mkAcct (runtime (cfs_b s g)) (quota (cfs_b s g)) (list_del c (throttled_cfs_rq (cfs_b s g)))
      (fun d => runtime_remaining (grq s g d)) (fun d => if decide (c = d) then false else throttled (grq s g d)).
Proof.
  intros Hr. unfold unthrottle_cfs_rq. cbv zeta.
  match goal with |- context [upd_b g ?h (on_kernel ?k ?s)] => set (hb := h); set (s0 := upd_b g hb (on_kernel k s)) end.
  match goal with |- _ ≡a ?x => set (a := x) end.
  assert (H0 : acct_of g s0 ≡a a).
  { change (acct_of g (upd_b g hb (upd_g g c (fun q => q <| throttled := false |>) s)) ≡a a).
    unfold a. split_and!; cbn -[hb list_del].
    1-3: rewrite cfs_b_upd_b, decide_True, cfs_b_upd_g by done; done.
    intros d. rewrite grq_upd_b, grq_upd_g.
    destruct (decide (c = d)) as [->|]; [by rewrite decide_True|]. rewrite decide_False by naive_solver. done. }
  set (s1 := foldl _ _ _).
  assert (H1 : acct_of g s1 ≡a a /\ settings_kept s s1).
  { split.
    - rewrite <- H0. apply far_foldl. intros t x. unfold tg_unthrottle_up. cbv zeta. far.
    - unfold s1. etransitivity; [|apply kept_foldl; intros t x; unfold tg_unthrottle_up; cbv zeta; keep]. unfold s0. keep. }
  destruct H1 as [H1 F1]. destruct (_ =? 0); [done|].
  pose proof (far_unthrottle_walk tg_levels g c (g_h_nr_running (grq s1 g c)) true s1
    (ranked_kept _ _ rank s s1 F1 Hr) ltac:(lia)) as H2.
  destruct (unthrottle_walk _ _ _ _ _ _) as [s2 top]. cbn in H2. pose proof (transitivity H2 H1). clearbody a. far; done.
Qed.
End Far.

(** ** Handing time out with nobody else about *)

Section Alone.
Context `{BwEnv} (cpus : list Z) (Hcpus : NoDup cpus) (rank : Z -> nat) (g : Z).
Context (Halone : forall s, bw_others s = s).

(** The queues that wait are in debt. *)
Definition in_debt (s : bw_state) : Prop :=
  forall c, c ∈ throttled_cfs_rq (cfs_b s g) -> runtime_remaining (grq s g c) <= 0.

(** Paying the debt of the CPU [c] and a nanosecond more. *)
Lemma pay_one c l r expires s :
  ranked rank s -> acct_ok cpus (acct_of g s) -> in_debt s -> throttled_cfs_rq (cfs_b s g) = c :: l ->
  let x := runtime_remaining (grq s g c) in
  r = Z.min (- x + 1) r -> 0 <= r ->
  let s1 := upd_g g c (fun q => q <| runtime_remaining ::= fun x => s64 (x + r) |> <| runtime_expires := expires |>) s in
  let s2 := if 0 <? runtime_remaining (grq s1 g c) then unthrottle_cfs_rq g c s1 else s1 in
  ranked rank s2 /\ acct_ok cpus (acct_of g s2) /\ in_debt s2 /\ settings_kept s s2 /\
  runtime (cfs_b s2 g) = runtime (cfs_b s g) /\
  total cpus (acct_of g s2) = total cpus (acct_of g s) + r /\
  (r = - x + 1 -> throttled_cfs_rq (cfs_b s2 g) = l).
Proof.
  intros Hr Ha Hd El x Hrx Hr0 s1 s2. pose proof Ha as (Hp & Hq & Hlo & Hnd & Hl). cbn in Hp, Hq, Hlo, Hnd, Hl.
  assert (Hcl : c ∈ throttled_cfs_rq (cfs_b s g)) by (rewrite El; set_solver).
  pose proof (proj1 (Hl c) Hcl) as [Hct Hc]. pose proof (Hd c Hcl) as Hx. fold x in Hx. specialize (Hlo c Hc) as Hxlo.
  fold x in Hxlo. rewrite El in Hnd. apply NoDup_cons in Hnd as [Hn Hnd].
  assert (E1 : forall d, runtime_remaining (grq s1 g d) = if decide (c = d) then x + r else runtime_remaining (grq s g d)).
  { intros d. unfold s1. rewrite grq_upd_g. destruct (decide (c = d)) as [->|].
    - rewrite decide_True by done. cbn. fold x. apply s64_id. lia.
    - rewrite decide_False by naive_solver. done. }
  assert (Hs1 : flags_kept s s1) by (unfold s1; keep).
  assert (Hr1 : ranked rank s1) by (by eapply ranked_kept).
  pose proof Hs1 as (_ & _ & F1). destruct (F1 g) as (_ & _ & Fb & Ft). unfold flags_b in Fb. unfold flags_g in Ft.
  injection Fb as _ Fq _ Fl. rewrite El in Fl.
  assert (Ep1 : runtime (cfs_b s1 g) = runtime (cfs_b s g)) by (unfold s1; by rewrite cfs_b_upd_g).
  assert (E2 : acct_of g s2 ≡a mkAcct (runtime (cfs_b s g)) (quota (cfs_b s g)) (if 0 <? x + r then l else c :: l)
      (fun d => if decide (c = d) then x + r else runtime_remaining (grq s g d))
      (fun d => if decide (c = d) then negb (0 <? x + r) else throttled (grq s g d))).
  { unfold s2. rewrite E1, decide_True by done. destruct (0 <? x + r).
    - etransitivity; [by apply (acct_unthrottle rank)|]. rewrite Fl, list_del_head, Ep1, Fq by done.
      split_and!; try done. intros d. cbn. rewrite E1. specialize (Ft d). injection Ft as -> _. done.
    - split_and!; cbn; try done. intros d. rewrite E1. specialize (Ft d). injection Ft as -> _. split; [done|].
      by destruct (decide (c = d)) as [<-|]. }
  destruct E2 as (Ep & Eq & Ell & Ec). cbn in Ep, Eq, Ell, Ec.
  assert (Hk : settings_kept s s2).
  { transitivity s1; [by apply flags_settings|]. unfold s2. destruct (0 <? _); [apply settings_unthrottle|done]. }
  split_and!; [by eapply ranked_kept| | |done|done| |].
  - unfold acct_ok. cbn. rewrite Ep, Eq, Ell. split_and!; try lia.
    + intros d Hdc. destruct (Ec d) as [-> _]. case_decide; [lia|auto].
    + destruct (0 <? x + r); [done|by constructor].
    + intros d. destruct (Ec d) as [_ ->]. rewrite El in Hl. destruct (decide (c = d)) as [<-|Hne].
      * destruct (0 <? x + r); cbn; [naive_solver|]. split; [done|intros _; set_solver].
      * rewrite <- Hl. destruct (0 <? x + r); set_solver.
  - intros d. rewrite Ell. destruct (Ec d) as [-> _]. intros Hdl. case_decide as Hcd.
    + subst d. destruct (0 <? x + r) eqn:Hb; [done|]. apply Z.ltb_ge in Hb. done.
    + apply Hd. rewrite El. destruct (0 <? x + r); set_solver.
  - destruct (one_cpu cpus Hcpus (acct_of g s) (acct_of g s2) c Hc) as [Et _].
    { intros d Hdc. cbn. destruct (Ec d) as [-> _]. by rewrite decide_False. }
    rewrite Et. cbn. destruct (Ec c) as [-> _]. rewrite decide_True by done. fold x. lia.
  - intros Hrr. rewrite Ell. destruct (0 <? x + r) eqn:Hb; [done|]. apply Z.ltb_ge in Hb. lia.
Qed.

(** The loop pays the queues in turn: the time is used up, or all are free. *)
Lemma distribute_alone l remaining expires s s' rest :
  ranked rank s -> acct_ok cpus (acct_of g s) -> in_debt s -> throttled_cfs_rq (cfs_b s g) = l ->
  cfs_bandwidth_used s = true -> 0 <= remaining < 2 ^ 64 ->
  distribute_loop g l remaining expires s = (s', rest) ->
  ranked rank s' /\ acct_ok cpus (acct_of g s') /\ 0 <= rest <= remaining /\
  runtime (cfs_b s' g) = runtime (cfs_b s g) /\ quota (cfs_b s' g) = quota (cfs_b s g) /\
  total cpus (acct_of g s') = total cpus (acct_of g s) + (remaining - rest) /\
  (rest = 0 \/ throttled_cfs_rq (cfs_b s' g) = []).
Proof.
  revert remaining s. induction l as [|c l IH]; intros remaining s Hr Ha Hd El Hu Hrem E; cbn in E.
  { injection E as <- <-. split_and!; try done; [lia|lia|by right]. }
  rewrite Halone in E. pose proof Ha as (_ & _ & Hlo & _ & Hl). cbn in Hl, Hlo.
  assert (Hcl : c ∈ throttled_cfs_rq (cfs_b s g)) by (rewrite El; set_solver).
  pose proof (proj1 (Hl c) Hcl) as [Hct Hc]. specialize (Hlo c Hc). pose proof (Hd c Hcl) as Hx.
  unfold cfs_rq_throttled in E. rewrite Hu, Hct in E. cbn in E.
  rewrite (u64_id (- _ + 1)) in E by lia. set (r := Z.min _ remaining) in E.
  rewrite (u64_id (remaining - r)) in E by lia.
  match type of E with context [distribute_loop g l _ _ ?t] => set (s2 := t) in E end.
  destruct (pay_one c l r expires s Hr Ha Hd El) as (Hr2 & Ha2 & Hd2 & Hk2 & Ep2 & Et2 & El2); [lia|lia|].
  change (if 0 <? _ then _ else _) with s2 in Hr2, Ha2, Hd2, Hk2, Ep2, Et2, El2.
  pose proof Hk2 as (Eu & _ & Fk). destruct (Fk g) as (_ & _ & Fb & _). unfold settings_b in Fb. injection Fb as _ Eq _.
  destruct (remaining - r =? 0) eqn:H0.
  - apply Z.eqb_eq in H0. injection E as <- <-. split_and!; try done; [lia|lia|lia|by left; lia].
  - apply Z.eqb_neq in H0. destruct (IH (remaining - r) s2) as (A & B & C & D & F & G & I); try done.
    + apply El2. lia.
    + unfold cfs_bandwidth_used in *. by rewrite Eu.
    + lia.
    + split_and!; try done; try lia; congruence.
Qed.

(** A round with nobody else about is the last. *)
Lemma rounds_alone expires s :
  ranked rank s -> acct_ok cpus (acct_of g s) -> in_debt s -> cfs_bandwidth_used s = true ->
  runtime (cfs_b s g) < 2 ^ 64 ->
  exists s', (forall n b, refill_rounds (S n) g expires b s =
                (if b && (0 <? runtime (cfs_b s g)) && negb (distribute_running (cfs_b s g)) then s' else s, true)) /\
    acct_ok cpus (acct_of g s') /\ total cpus (acct_of g s') = total cpus (acct_of g s) /\
    (throttled_cfs_rq (cfs_b s' g) = [] \/ runtime (cfs_b s' g) = 0).
Proof.
  intros Hr Ha Hd Hu Hp. set (start := runtime (cfs_b s g)). set (s1 := upd_b g (fun b => b <| distribute_running := true |>) s).
  destruct (distribute_loop g (throttled_cfs_rq (cfs_b s1 g)) start expires s1) as [s2 rest] eqn:E.
  assert (Hs1 : acct_of g s1 ≡a acct_of g s) by (unfold s1; by apply acct_upd_b).
  assert (Hk1 : flags_kept s s1) by (unfold s1; keep).
  pose proof Ha as (Hp0 & Hq & _). cbn in Hp0, Hq. fold start in Hp0.
  pose proof E as E'. apply distribute_alone in E' as (Hr2 & Ha2 & Hrest & Ep & Eq & Et & Hend).
  2: by eapply ranked_kept.
  2: by rewrite Hs1.
  2: { intros c. destruct Hs1 as (_ & _ & El & Ec). cbn in El, Ec. rewrite El. destruct (Ec c) as [-> _]. apply Hd. }
  2-4: done.
  set (h := fun b => b <| distribute_running := false |> <| runtime ::= fun x => x - Z.min (start - rest) x |>).
  assert (Eb : cfs_b (upd_b g h s2) g = h (cfs_b s2 g)) by (by rewrite cfs_b_upd_b, decide_True).
  assert (Ep2 : runtime (cfs_b s2 g) = start) by (rewrite Ep; apply Hs1).
  destruct (drain cpus g h s2 (start - rest) Ha2) as (Ha3 & Et3 & _); [lia|done|done|].
  exists (upd_b g h s2). split_and!; [|done|rewrite Et3, Et, Hs1, Ep2; lia|].
  - intros n b. cbn [refill_rounds]. fold start s1. unfold distribute_cfs_runtime. destruct (_ && _ && _); [|done].
    rewrite E, Halone, u64_id by lia. fold h.
    assert (Hstop : negb (bool_decide (throttled_cfs_rq (cfs_b s2 g) = [])) && (0 <? runtime (cfs_b (upd_b g h s2) g)) = false).
    { destruct Hend as [-> | ->]; [|by rewrite bool_decide_true]. rewrite Eb. cbn. rewrite Ep2, Z.sub_0_r, Z.min_id, Z.sub_diag.
      apply andb_false_r. }
    destruct n; cbn; by rewrite Hstop.
  - rewrite Eb. cbn. destruct Hend as [->|Hend]; [right; rewrite Ep2; lia|by left].
Qed.
End Alone.

(** ** Runs *)

Section Runs.
Context `{BwEnv} (cpus : list Z) (Hcpus : NoDup cpus) (g : Z).

(** What the CPUs do between two refills, with the time that the tasks of [g]
    ran: charging, the last entity of a queue leaving, the first one coming, and
    the check when the current task is put back. *)
Inductive bw_step : bw_state -> Z -> bw_state -> Prop :=
  | step_exec s c d : c ∈ cpus -> 0 <= d -> - 2 ^ 62 <= runtime_remaining (grq s g c) - d ->
      bw_step s d (account_cfs_rq_runtime g c d s)
  | step_exec_other s e c d : c ∈ cpus -> e <> g -> bw_step s 0 (account_cfs_rq_runtime e c d s)
  | step_dequeue s e c : c ∈ cpus -> bw_step s 0 (return_cfs_rq_runtime e c s)
  | step_enqueue s e c : c ∈ cpus -> bw_step s 0 (check_enqueue_throttle e c s)
  | step_put s e c : c ∈ cpus -> bw_step s 0 (check_cfs_rq_runtime e c s).1.
Inductive bw_run : bw_state -> Z -> bw_state -> Prop :=
  | run_nil s : bw_run s 0 s
  | run_cons s d t n u : bw_step s d t -> bw_run t n u -> bw_run s (d + n) u.

(** The quota of the group is enforced on every CPU. *)
Definition enforced (s : bw_state) : Prop :=
  cfs_bandwidth_used s = true /\ forall c, c ∈ cpus -> runtime_enabled (grq s g c) = true.

Lemma enforced_kept s s' : settings_kept s s' -> enforced s -> enforced s'.
Proof.
  intros (Eu & _ & Fk) [Hu He]. split; [unfold cfs_bandwidth_used in *; by rewrite Eu|].
  intros c Hc. destruct (Fk g) as (_ & _ & _ & Fc). specialize (Fc c). unfold settings_g in Fc. rewrite Fc. auto.
Qed.

Lemma step_settings s d t : bw_step s d t -> settings_kept s t.
Proof.
  destruct 1; try apply settings_check_enqueue; try (apply flags_settings; (apply flags_account || apply flags_return)).
  unfold check_cfs_rq_runtime. destruct (negb _); [done|]. destruct (_ || _); [done|].
  destruct (cfs_rq_throttled _ _ _); [done|]. apply settings_throttle.
Qed.

Lemma step_moves s d t :
  bw_step s d t -> 0 <= d /\ moves cpus 0 (acct_of g s) (acct_of g t) /\
    (enforced s -> moves cpus (- d) (acct_of g s) (acct_of g t)).
Proof.
  destruct 1 as [s c d Hc Hd Hlo| | | |]; [|split; [done|]; split; [|intros _; change (- 0) with 0]..].
  - split; [done|]. pose proof (moves_account cpus Hcpus g c d s Hc Hd Hlo) as Hm. unfold account_cfs_rq_runtime. split.
    + destruct (_ || _); [apply moves_refl|]. intros Ha Hu. destruct (Hm Ha) as (A & B & C & D); [lia|]. split_and!; [done|done|lia|lia].
    + intros [-> He]. rewrite He by done. exact Hm.
  - apply moves_account_other; auto.
  - apply moves_account_other; auto.
  - by apply moves_return.
  - by apply moves_return.
  - by apply moves_check_enqueue.
  - by apply moves_check_enqueue.
  - by apply moves_check_runtime.
  - by apply moves_check_runtime.
Qed.

Lemma run_moves s n u :
  bw_run s n u -> 0 <= n /\ moves cpus 0 (acct_of g s) (acct_of g u) /\
    (enforced s -> moves cpus (- n) (acct_of g s) (acct_of g u)).
Proof.
  induction 1 as [s|s d t n u Hs Hr (Hn & H0 & Hm)]; [split_and!; [done|apply moves_refl|intros _; apply moves_refl]|].
  pose proof (step_settings _ _ _ Hs) as Hk. destruct (step_moves _ _ _ Hs) as (Hd & G0 & Gm).
  split_and!; [lia|by eapply moves_0_trans|]. intros He. replace (- (d + n)) with (- d + - n) by lia.
  apply (moves_trans _ _ _ _ (acct_of g t)); [lia|auto|]. apply Hm. by eapply enforced_kept.
Qed.

Lemma total_debt a L :
  0 <= a_pool a -> (forall c, c ∈ cpus -> - L <= a_left a c) -> - (L * Z.of_nat (length cpus)) <= total cpus a.
Proof.
  clear. intros Hp HL. unfold total. enough (- (L * Z.of_nat (length cpus)) <= sum_of (a_left a) cpus) by lia.
  induction cpus as [|c l IH]; cbn; [lia|]. fold (sum_of (a_left a) l).
  assert (- L <= a_left a c) by (apply HL; set_solver). assert (- (L * Z.of_nat (length l)) <= sum_of (a_left a) l).
  { apply IH. intros d Hd. apply HL. set_solver. }
  lia.
Qed.

(** The account that a refill makes. *)
Definition refilled (s : bw_state) : acct :=
  mkAcct (quota (cfs_b s g)) (quota (cfs_b s g)) (throttled_cfs_rq (cfs_b s g))
    (fun c => runtime_remaining (grq s g c)) (fun c => throttled (grq s g c)).

Lemma acct_refill s : acct_ok cpus (acct_of g s) -> acct_of g (__refill_cfs_bandwidth_runtime g s) ≡a refilled s.
Proof.
  intros Ha. unfold __refill_cfs_bandwidth_runtime. rewrite (quota_not_inf cpus) by done.
  split_and!; cbn; rewrite ?cfs_b_upd_b, ?decide_True by done; try done. intros c. by rewrite grq_upd_b.
Qed.
Lemma refilled_ok s : acct_ok cpus (acct_of g s) -> acct_ok cpus (refilled s).
Proof. intros (Hp & Hq & Hr). split; [apply Hq|]. split; [exact Hq|exact Hr]. Qed.

(** The timer for a group with a quota: it stops, marks the group idle, or goes
    round from the refilled state [t]. *)
Lemma period_timer_cases overrun s :
  acct_ok cpus (acct_of g s) -> exists t, acct_of g t ≡a refilled s /\ flags_kept s t /\
    distribute_running (cfs_b t g) = distribute_running (cfs_b s g) /\
    forall rounds,
      if decide (throttled_cfs_rq (cfs_b s g) = []) then
        let '(s', stop) := do_sched_cfs_period_timer rounds g overrun s in
        acct_of g s' ≡a if stop then acct_of g s else refilled s
      else do_sched_cfs_period_timer rounds g overrun s =
           (upd_b g (fun b => b <| b_idle := false |>) (refill_rounds rounds g (b_runtime_expires (cfs_b t g)) true t).1, false).
Proof.
  intros Ha. unfold do_sched_cfs_period_timer. rewrite (quota_not_inf cpus) by done.
  set (s1 := upd_b g _ s).
  assert (H1 : acct_of g s1 ≡a acct_of g s) by (unfold s1; by apply acct_upd_b).
  assert (F1 : flags_kept s s1) by (unfold s1; keep).
  set (s2 := __refill_cfs_bandwidth_runtime g s1).
  assert (H2 : acct_of g s2 ≡a refilled s).
  { unfold s2. rewrite acct_refill by by rewrite H1. destruct H1 as (_ & Eq & El & Ec). cbn in Eq, El, Ec.
    unfold refilled. rewrite Eq, El. done. }
  assert (F2 : flags_kept s s2) by (unfold s2, __refill_cfs_bandwidth_runtime; cbv zeta; keep).
  exists (upd_b g (fun b => b <| nr_throttled ::= fun n => s32 (n + overrun) |>) s2). split_and!.
  - rewrite <- H2. by apply acct_upd_b.
  - by keep.
  - rewrite cfs_b_upd_b, decide_True by done. cbn. unfold s2, __refill_cfs_bandwidth_runtime. destruct (_ =? _);
      rewrite ?cfs_b_upd_b, ?decide_True by done; cbn; unfold s1; by rewrite cfs_b_upd_b, decide_True.
  - intros rounds. destruct (decide (throttled_cfs_rq (cfs_b s g) = [])) as [->|Hw].
    + rewrite bool_decide_true by done. cbn [negb]. rewrite andb_true_r.
      destruct (b_idle _); [done|]. rewrite <- H2. by apply acct_upd_b.
    + rewrite (bool_decide_false (throttled_cfs_rq (cfs_b s g) = [])) by done. cbn [negb]. rewrite andb_false_r.
      by destruct (refill_rounds _ _ _ _ _) as [s4 fl].
Qed.

(** C21: Between two refills the tasks of a group run for at most what was in its
    pool and on its CPUs, and the debts of the CPUs at the end: whatever order
    charging, drawing slices, giving back, enqueueing and throttling come in, on
    any CPUs and in any groups of the tree, no time is created.  The pool stays
    non-negative and lists each throttled CPU once. *)
Theorem group_uses_at_most_its_time s n s' L :
  bw_run s n s' -> acct_ok cpus (acct_of g s) -> usable cpus (acct_of g s) < 2 ^ 63 -> enforced s ->
  (forall c, c ∈ cpus -> - L <= runtime_remaining (grq s' g c)) ->
  n <= runtime (cfs_b s g) + sum_of (fun c => runtime_remaining (grq s g c)) cpus + L * Z.of_nat (length cpus) /\
  acct_ok cpus (acct_of g s').
Proof.
  intros Hrun Ha Hu He HL. destruct (run_moves _ _ _ Hrun) as (Hn & _ & Hm).
  destruct (Hm He Ha) as (Ha' & _ & _ & Ht); [lia|]. split; [|done].
  pose proof (total_debt (acct_of g s') L (proj1 Ha') HL). unfold total in Ht at 2. cbn in Ht. lia.
Qed.

(** The period timer hands time out while other CPUs draw from the same
    pool.  Whatever they do meanwhile, and however often the timer starts over,
    the time the group then has is at most the quota and what its CPUs had, and
    once more as much: the overuse that the comment in the code calls limited. *)
Theorem period_timer_overuse rounds overrun s :
  (forall t, exists n, bw_run t n (bw_others t)) ->
  acct_ok cpus (acct_of g s) ->
  let own := quota (cfs_b s g) + sum_of (fun c => runtime_remaining (grq s g c)) cpus in
  let own_pos := quota (cfs_b s g) + sum_of (fun c => Z.max 0 (runtime_remaining (grq s g c))) cpus in
  own_pos < 2 ^ 62 ->
  let '(s', stop) := do_sched_cfs_period_timer rounds g overrun s in
  acct_ok cpus (acct_of g s') /\
  total cpus (acct_of g s') <= if stop then total cpus (acct_of g s) else own + own_pos.
Proof.
  intros Ho Ha own own_pos Hpos.
  assert (Hom : forall t, moves cpus 0 (acct_of g t) (acct_of g (bw_others t))).
  { intros t. destruct (Ho t) as [n Hn]. by apply run_moves in Hn as (_ & ? & _). }
  pose proof (refilled_ok s Ha) as Hr. pose proof (usable_pool cpus (refilled s)) as Hup.
  change (usable cpus (refilled s)) with own_pos in Hup. pose proof (proj1 Hr) as Hq. cbn in Hup, Hq.
  destruct (period_timer_cases overrun s Ha) as (t & Et & _ & _ & Hc). specialize (Hc rounds). case_decide.
  - destruct (do_sched_cfs_period_timer rounds g overrun s) as [s' stop]. rewrite Hc. destruct stop; split; try done.
    change (own <= own + own_pos). lia.
  - rewrite Hc, acct_upd_b by done. set (e := b_runtime_expires _). clearbody e.
    destruct (refill_rounds_bounds cpus Hcpus g rounds e true t Hom) as (A & _ & B); [by rewrite Et|by rewrite Et|].
    split; [done|]. rewrite Et in B. exact B.
Qed.
End Runs.

(** With nobody else about, one round of the period timer is enough: more
    rounds change nothing.  The group then has the quota and what its CPUs had,
    to the nanosecond, and no CPU waits unless the pool is used up. *)
Theorem period_timer_ends `{BwEnv} (cpus : list Z) (rank : Z -> nat) g n overrun s :
  NoDup cpus -> (forall t, bw_others t = t) -> ranked rank s -> acct_ok cpus (acct_of g s) -> in_debt g s ->
  cfs_bandwidth_used s = true -> throttled_cfs_rq (cfs_b s g) <> [] -> 0 < quota (cfs_b s g) ->
  distribute_running (cfs_b s g) = false ->
  let s' := (do_sched_cfs_period_timer (S n) g overrun s).1 in
  do_sched_cfs_period_timer (S n) g overrun s = do_sched_cfs_period_timer 1 g overrun s /\
  acct_ok cpus (acct_of g s') /\
  total cpus (acct_of g s') = quota (cfs_b s g) + sum_of (fun c => runtime_remaining (grq s g c)) cpus /\
  (throttled_cfs_rq (cfs_b s' g) = [] \/ runtime (cfs_b s' g) = 0).
Proof.
  intros Hcpus Ho Hr Ha Hd Hu Hw Hq Hdr.
  destruct (period_timer_cases cpus g overrun s Ha) as (t & Et & Ft & Edr & Hc). pose proof (Hc (S n)) as Hc1. specialize (Hc 1%nat). rewrite decide_False in Hc, Hc1 by done.
  assert (Hat : acct_ok cpus (acct_of g t)) by (rewrite Et; by apply refilled_ok).
  pose proof Et as (Ep & _ & El & Ec). cbn in Ep, El, Ec. pose proof Ha as (_ & Hqr & _). cbn in Hqr.
  destruct (rounds_alone cpus Hcpus rank g Ho (b_runtime_expires (cfs_b t g)) t) as (u & Eu & Hau & Htu & Hend).
  - by eapply ranked_kept.
  - done.
  - intros c. rewrite El. destruct (Ec c) as [-> _]. apply Hd.
  - destruct Ft as (Eu & _). unfold cfs_bandwidth_used in *. by rewrite Eu.
  - lia.
  - assert (Hlt : (0 <? runtime (cfs_b t g)) = true) by (apply Z.ltb_lt; lia).
    rewrite Hc, Hc1, !Eu, Edr, Hdr, Hlt. cbn [fst andb negb]. split_and!; [done| | |].
    + by rewrite acct_upd_b.
    + rewrite acct_upd_b by done. rewrite Htu, Et. done.
    + rewrite cfs_b_upd_b, decide_True by done. exact Hend.
Qed.

(** ** A throttled queue with time left *)

(** The subtraction in [distribute_cfs_runtime] takes it that a throttled queue
    has no time left.  With two nanoseconds or more the amount wraps to almost
    [2 ^ 64], and the queue is given all there is. *)
Lemma distribute_takes_all `{BwEnv} g c l remaining expires s :
  (forall t, bw_others t = t) -> cfs_rq_throttled g c s = true ->
  2 <= runtime_remaining (grq s g c) < 2 ^ 62 -> 0 <= remaining < 2 ^ 62 ->
  (distribute_loop g (c :: l) remaining expires s).2 = 0.
Proof.
  intros Ho Ht Hx Hr. cbn. rewrite Ho, Ht. cbn [negb].
  rewrite (u64_neg (- runtime_remaining (grq s g c) + 1)), Z.min_r, Z.sub_diag, u64_id by lia. done.
Qed.

(** ** Examples *)

#[local] Instance demo_bw_env : BwEnv :=
  {| sysctl_sched_cfs_bandwidth_slice := 5000; TICK_NSEC := 4000000; tg_levels := 3;
     hrtimer_callback_running := fun _ _ => false; hrtimer_expires_remaining := fun _ _ => 50000000;
     bw_others := fun s => s |}.

(** The root and one group, whose queue on each of two CPUs has two tasks,
    refilled with 10 ms of 100 ms. *)
Definition demo_b : cfs_bandwidth :=
  init_cfs_bandwidth (mkCfsB 0 0 0 (-1) 0 0 false false [] 0 0 0 false).
Definition demo_q : group_rq := mkGroupRq true 0 0 0 0 0 0 false 0 2 2 2048 false true 1024.
Definition demo_bw1 : bw_state :=
  mkBw (demo_kernel fair_sched_class SCHED_NORMAL 120)
    (fun g => if g =? 0 then mkTg None [1] demo_b (fun _ => demo_q)
              else mkTg (Some 0) [] (mkCfsB 100000000 10000000 10000000 104857 100001000 1 false true [] 0 0 0 false)
                     (fun _ => demo_q)) [0; 1] 1 [].
Local Abbreviation demo_bw2 := (account_cfs_rq_runtime 1 1 1000000 (account_cfs_rq_runtime 1 0 1000000 demo_bw1)).
Local Abbreviation demo_bw3 := (check_cfs_rq_runtime 1 0 (account_cfs_rq_runtime 1 0 6000000 demo_bw2)).1.

(** Such a queue comes about: the CPU 0 is throttled, the last task of the CPU 1
    leaves and gives 2 ms back, and the next charge of the throttled queue draws
    them, because [account_cfs_rq_runtime] does not look at the flag. *)
Example throttled_queue_draws :
  let s := return_cfs_rq_runtime 1 1 (upd_g 1 1 (fun q => q <| g_nr_running := 0 |>) demo_bw3) in
  let s' := account_cfs_rq_runtime 1 0 0 s in
  cfs_rq_throttled 1 0 s = true /\ runtime_remaining (grq s 1 0) = - 1000000 /\ runtime (cfs_b s 1) = 2000000 /\
  cfs_rq_throttled 1 0 s' = true /\ runtime_remaining (grq s' 1 0) = 1000000 /\ runtime (cfs_b s' 1) = 0.
Proof. vm_compute. done. Qed.

Lemma demo_cpus : NoDup [0; 1].
Proof. by apply NoDup_ListNoDup; repeat constructor; set_solver. Qed.

(** Decides [acct_ok] on two CPUs. *)
Lemma demo_ok g s :
  0 <= runtime (cfs_b s g) -> 0 <= quota (cfs_b s g) < 2 ^ 62 ->
  - 2 ^ 62 <= runtime_remaining (grq s g 0) -> - 2 ^ 62 <= runtime_remaining (grq s g 1) ->
  NoDup (throttled_cfs_rq (cfs_b s g)) ->
  (forall c, c ∈ throttled_cfs_rq (cfs_b s g) -> c = 0 \/ c = 1) ->
  bool_decide (0 ∈ throttled_cfs_rq (cfs_b s g)) = throttled (grq s g 0) ->
  bool_decide (1 ∈ throttled_cfs_rq (cfs_b s g)) = throttled (grq s g 1) ->
  acct_ok [0; 1] (acct_of g s).
Proof.
  intros Hp Hq H0 H1 Hnd Hin E0 E1. split_and!; cbn; try done; try lia.
  - intros c Hc. assert (c = 0 \/ c = 1) as [-> | ->] by set_solver; done.
  - intros c. destruct (decide (c = 0)) as [->|]; [rewrite <- E0, bool_decide_eq_true; set_solver|].
    destruct (decide (c = 1)) as [->|]; [rewrite <- E1, bool_decide_eq_true; set_solver|]. set_solver.
Qed.

Lemma demo_run : bw_run [0; 1] 1 demo_bw1 8000000 demo_bw3.
Proof.
  change 8000000 with (1000000 + (1000000 + (6000000 + (0 + 0)))).
  eapply run_cons; [apply (step_exec [0; 1] 1 _ 0 1000000); [set_solver|done|by vm_compute]|].
  eapply run_cons; [apply (step_exec [0; 1] 1 _ 1 1000000); [set_solver|done|by vm_compute]|].
  eapply run_cons; [apply (step_exec [0; 1] 1 _ 0 6000000); [set_solver|done|by vm_compute]|].
  eapply run_cons; [apply (step_put [0; 1] 1 _ 1 0); set_solver|]. apply run_nil.
Qed.
Lemma demo_ok1 : acct_ok [0; 1] (acct_of 1 demo_bw1).
Proof. apply demo_ok; try (by vm_compute); [constructor|]. intros c. vm_compute. set_solver. Qed.
Lemma demo_ok3 : acct_ok [0; 1] (acct_of 1 demo_bw3).
Proof.
  destruct (run_moves [0; 1] demo_cpus 1 _ _ _ demo_run) as (_ & Hm & _).
  apply Hm; [exact demo_ok1|]. by vm_compute.
Qed.

Lemma group_uses_at_most_its_time_witness :
  bw_run [0; 1] 1 demo_bw1 8000000 demo_bw3 /\ 8000000 <= 10000000 + 0 + 1000000 * 2.
Proof.
  split; [exact demo_run|].
  destruct (group_uses_at_most_its_time [0; 1] demo_cpus 1 demo_bw1 8000000 demo_bw3 1000000 demo_run demo_ok1) as [Hle _].
  - by vm_compute.
  - split; [by vm_compute|]. intros c Hc. assert (c = 0 \/ c = 1) as [-> | ->] by set_solver; by vm_compute.
  - intros c Hc. assert (c = 0 \/ c = 1) as [-> | ->] by set_solver; by vm_compute.
  - assert (Ep : runtime (cfs_b demo_bw1 1) = 10000000) by (by vm_compute).
    assert (Es : sum_of (fun c => runtime_remaining (grq demo_bw1 1 c)) [0; 1] = 0) by (by vm_compute).
    rewrite Ep, Es in Hle. exact Hle.
Defined.

(** A CPU that uses 5 ms whenever the lock is dropped. *)
Definition busy_bw_env : BwEnv :=
  {| sysctl_sched_cfs_bandwidth_slice := 5000; TICK_NSEC := 4000000; tg_levels := 3;
     hrtimer_callback_running := fun _ _ => false; hrtimer_expires_remaining := fun _ _ => 50000000;
     bw_others := fun t => if - 2 ^ 62 <=? runtime_remaining (grq t 1 1) - 5000000
                           then account_cfs_rq_runtime 1 1 5000000 t else t |}.

Lemma busy_account t : @account_cfs_rq_runtime demo_bw_env 1 1 5000000 t = @account_cfs_rq_runtime busy_bw_env 1 1 5000000 t.
Proof.
  unfold account_cfs_rq_runtime, __account_cfs_rq_runtime, assign_cfs_rq_runtime, expire_cfs_rq_runtime,
    sched_cfs_bandwidth_slice. cbn [TICK_NSEC sysctl_sched_cfs_bandwidth_slice demo_bw_env busy_bw_env]. reflexivity.
Qed.

Lemma busy_runs t : exists n, @bw_run busy_bw_env [0; 1] 1 t n (@bw_others busy_bw_env t).
Proof.
  cbn [bw_others busy_bw_env]. destruct (_ <=? _) eqn:Hl; [|exists 0; apply run_nil]. apply Z.leb_le in Hl.
  exists (5000000 + 0). eapply run_cons; [|apply run_nil]. rewrite busy_account.
  apply (@step_exec busy_bw_env); [set_solver|done|exact Hl].
Qed.

Lemma period_timer_overuse_witness :
  let s' := (@do_sched_cfs_period_timer busy_bw_env 2 1 1 demo_bw3).1 in
  total [0; 1] (acct_of 1 s') <= 12000000 + 13000000.
Proof.
  pose proof (@period_timer_overuse busy_bw_env [0; 1] demo_cpus 1 2 1 demo_bw3) as Hm.
  specialize (Hm busy_runs demo_ok3). cbv zeta in Hm |- *.
  assert (Hp : quota (cfs_b demo_bw3 1) + sum_of (fun c => Z.max 0 (runtime_remaining (grq demo_bw3 1 c))) [0; 1] = 13000000)
    by (by vm_compute).
  assert (Hs : quota (cfs_b demo_bw3 1) + sum_of (fun c => runtime_remaining (grq demo_bw3 1 c)) [0; 1] = 12000000)
    by (by vm_compute).
  rewrite Hp, Hs in Hm. assert (E : (@do_sched_cfs_period_timer busy_bw_env 2 1 1 demo_bw3).2 = false) by (by vm_compute).
  destruct (@do_sched_cfs_period_timer busy_bw_env 2 1 1 demo_bw3) as [s' stop]. cbn in E |- *. subst stop. by apply Hm.
Defined.

Definition demo_rank (e : Z) : nat := if e =? 0 then 0%nat else 1%nat.
Lemma demo_ranked : ranked demo_rank demo_bw3.
Proof.
  apply (ranked_kept settings_b settings_g _ demo_bw1).
  - pose proof demo_run as Hr. induction Hr as [|s d t n u Hs _ IH]; [reflexivity|].
    etransitivity; [by eapply step_settings|exact IH].
  - intros e p. unfold demo_bw1. cbn. unfold demo_rank. destruct (e =? 0); cbn; [done|]. intros [= <-]. cbn. lia.
Qed.

Lemma period_timer_ends_witness :
  let s' := (do_sched_cfs_period_timer 7 1 1 demo_bw3).1 in total [0; 1] (acct_of 1 s') = 12000000.
Proof.
  destruct (period_timer_ends [0; 1] demo_rank 1 6 1 demo_bw3) as (_ & _ & Ht & _).
  - exact demo_cpus.
  - done.
  - exact demo_ranked.
  - exact demo_ok3.
  - intros c Hc. assert (E : throttled_cfs_rq (cfs_b demo_bw3 1) = [0]) by (by vm_compute). rewrite E in Hc.
    apply list_elem_of_singleton in Hc as ->. by vm_compute.
  - by vm_compute.
  - intros E. vm_compute in E. discriminate E.
  - by vm_compute.
  - by vm_compute.
  - cbv zeta. rewrite Ht. by vm_compute.
Defined.
