(* ===== verification/FairLimits.v ===== *)
(** * The limits of task groups (core.c)

    What the control files of a group read and write: limits read back as they
    were written, and no group is given more than the groups it lies in. *)

From S2P Require Import Prelude SchedTypes Core Wrr CorePolicy RtBandwidth FairMath FairPelt FairQueue FairBandwidth FairQuota.

(** ** Writing and reading *)

Definition limits (s : bw_state) (e : Z) : Z * Z := (period (cfs_b s e), quota (cfs_b s e)).

Lemma limits_kept s s' e : settings_kept s s' -> limits s' e = limits s e.
Proof. intros (_ & _ & Hk). destruct (Hk e) as (_ & _ & Hb & _). unfold settings_b in Hb. unfold limits. by injection Hb as -> -> _. Qed.

Section Settings.
Context `{BwEnv}.

(** Checking the tree against a new limit changes no limit. *)
Lemma limits_schedulable g p q s :
  let '(s', ret) := __cfs_schedulable g p q s in
  (ret = 0 \/ ret = - EINVAL) /\ forall e, limits s' e = limits s e.
Proof.
  unfold __cfs_schedulable. match goal with |- context [tg_cfs_schedulable_down ?x] => generalize x; intros d end. generalize (entering tg_levels s root_task_group).
  intros l. revert s. induction l as [|x l IH]; intros s; cbn; [split; [by left|done]|].
  destruct (tg_cfs_schedulable_down d x s) as [s1 ret] eqn:E.
  assert (H1 : (ret = 0 \/ ret = - EINVAL) /\ forall e, limits s1 e = limits s e).
  { assert (Hset : forall v e, limits (upd_b x (fun b => b <| hierarchical_quota := v |>) s) e = limits s e).
    { intros v e. unfold limits. rewrite cfs_b_upd_b. by case_decide; [subst|]. }
    unfold tg_cfs_schedulable_down in E. destruct (tg_parent _) as [q'|]; [destruct (_ =? _); [|destruct (_ && _)]|];
      injection E as <- <-; (split; [by auto|first [done|apply Hset]]). }
  destruct H1 as [Hret H1]. destruct (ret =? 0) eqn:Hr; cbn [negb]; [|done].
  specialize (IH s1). destruct (visit_down _ l s1) as [s2 r2]. destruct IH as [Hr2 H2]. split; [done|]. intros e. by rewrite H2.
Qed.

Lemma limits_set_bandwidth g p q s :
  let '(s', ret) := tg_set_cfs_bandwidth g p q s in
  (ret = 0 \/ ret = - EINVAL) /\ forall e, limits s' e = if decide (ret = 0 /\ e = g) then (p, q) else limits s e.
Proof.
  unfold tg_set_cfs_bandwidth.
  assert (Hno : forall s', (forall e, limits s' e = limits s e) ->
    (- EINVAL = 0 \/ - EINVAL = - EINVAL) /\ forall e, limits s' e = if decide (- EINVAL = 0 /\ e = g) then (p, q) else limits s e).
  { intros s' Hs. split; [by right|]. intros e. rewrite decide_False; [done|]. by intros [? _]. }
  repeat match goal with |- context [if ?b then (s, - EINVAL) else _] => destruct b; [by apply Hno|] end.
  pose proof (limits_schedulable g p q s) as Hsch. destruct (__cfs_schedulable g p q s) as [s1 ret]. destruct Hsch as [Hret H1].
  destruct Hret as [-> | ->]; [|by apply Hno]. cbn [Z.eqb negb]. split; [by left|].
  set (enabled := negb (q =? _)). set (s2 := if enabled && _ then _ else s1). set (s3 := upd_b g _ s2).
  assert (H3 : forall e, limits s3 e = if decide (0 = 0 /\ e = g) then (p, q) else limits s e).
  { intros e. unfold limits, s3. rewrite cfs_b_upd_b. destruct (decide (g = e)) as [<-|Hne].
    - by rewrite decide_True.
    - rewrite decide_False by naive_solver. change (limits s2 e = limits s e). rewrite <- H1. unfold s2. by destruct (_ && _). }
  set (s4 := __refill_cfs_bandwidth_runtime g s3). set (s5 := if enabled then start_cfs_bandwidth g s4 else s4).
  assert (H5 : settings_kept s3 s5).
  { unfold s5, s4, start_cfs_bandwidth, __refill_cfs_bandwidth_runtime. cbv zeta. keep. }
  set (l := for_each_cpu _ _). clearbody l.
  assert (H6 : forall e, limits (foldl (set_bandwidth_step g enabled) s5 l) e = limits s3 e).
  { intros e. rewrite <- (limits_kept s3 s5 e H5). generalize s5. clear. induction l as [|c l IH]; intros s; [done|]. cbn. rewrite IH.
    unfold set_bandwidth_step. destruct (throttled _); [rewrite (limits_kept _ _ e (settings_unthrottle _ _ _))|];
      unfold limits; by rewrite cfs_b_upd_g. }
  intros e. rewrite <- H3, <- H6. match goal with |- limits (if ?b then _ else _) _ = _ => by destruct b end.
Qed.

(** Writing a quota and reading it back: a limit that is accepted reads back
    as it was written, any negative one as -1; the period and the limits of all
    other groups stay, and so does everything when the write is refused. *)
Theorem cfs_quota_roundtrip g us s :
  us <= 18446744073709551 ->
  let '(s', ret) := tg_set_cfs_quota g us s in
  (ret = 0 \/ ret = - EINVAL) /\
  forall e, tg_get_cfs_quota s' e = (if decide (ret = 0 /\ e = g) then if us <? 0 then -1 else us else tg_get_cfs_quota s e) /\
            tg_get_cfs_period s' e = tg_get_cfs_period s e.
Proof.
  intros Hus. unfold tg_set_cfs_quota. set (q := if us <? 0 then _ else _).
  pose proof (limits_set_bandwidth g (u64 (period (cfs_b s g))) q s) as Hl.
  destruct (tg_set_cfs_bandwidth _ _ _ _) as [s' ret]. destruct Hl as [Hret Hl]. split; [done|]. intros e.
  specialize (Hl e). unfold limits in Hl. unfold tg_get_cfs_quota, tg_get_cfs_period.
  destruct (decide (ret = 0 /\ e = g)) as [[_ ->]|_]; injection Hl as -> ->; [|done]. rewrite u64_u64. split; [|done].
  unfold q. destruct (us <? 0) eqn:Hneg; [by rewrite Z.eqb_refl|]. apply Z.ltb_ge in Hneg.
  unfold NSEC_PER_USEC, RUNTIME_INF. rewrite u64_id by lia. replace (us * 1000 =? U64_MAX) with false.
  - apply Z.div_mul. lia.
  - symmetry. apply Z.eqb_neq. unfold U64_MAX. lia.
Qed.
End Settings.

(** ** Limits in the tree *)

Section Hierarchy.
Context (d : cfs_schedulable_data).

(** The limit of a group once the new one is in force, -1 for none; and the
    limit it inherits. *)
Definition own (s : bw_state) (e : Z) : Z := s64 (normalize_cfs_quota e d s).
Definition inherited (s : bw_state) (e : Z) : Z := hierarchical_quota (cfs_b s e).

(** A group inherits the limit of its parent, or has its own, which is no larger. *)
Definition capped (s : bw_state) (x : Z) : Prop :=
  match tg_parent (tgs s x) with
  | None => inherited s x = -1
  | Some p => own s x = -1 /\ inherited s x = inherited s p \/
              own s x <> -1 /\ inherited s x = own s x /\ (inherited s p = -1 \/ own s x <= inherited s p)
  end.

Abbreviation set_inherited x v s := (upd_b x (fun b => b <| hierarchical_quota := v |>) s).

Lemma own_set x v s e : own (set_inherited x v s) e = own s e.
Proof.
  unfold own, normalize_cfs_quota, tg_get_cfs_period, tg_get_cfs_quota. rewrite cfs_b_upd_b.
  by destruct (decide (x = e)) as [->|].
Qed.
Lemma inherited_set x v s e : inherited (set_inherited x v s) e = if decide (x = e) then v else inherited s e.
Proof. unfold inherited. rewrite cfs_b_upd_b. by case_decide. Qed.

Lemma down_eq x s :
  tg_cfs_schedulable_down d x s =
  match tg_parent (tgs s x) with
  | None => (set_inherited x (-1) s, 0)
  | Some p => if own s x =? -1 then (set_inherited x (inherited s p) s, 0)
              else if negb (inherited s p =? -1) && (inherited s p <? own s x) then (s, - EINVAL)
              else (set_inherited x (own s x) s, 0)
  end.
Proof.
  unfold tg_cfs_schedulable_down. replace (s64 RUNTIME_INF) with (-1) by (by vm_compute). reflexivity.
Qed.

(** A successful visit gives the group its limit. *)
Lemma down_capped x s s' :
  tg_parent (tgs s x) <> Some x -> tg_cfs_schedulable_down d x s = (s', 0) ->
  exists v, s' = set_inherited x v s /\ capped s' x.
Proof.
  intros Hx. rewrite down_eq.
  assert (Ht : forall v, tg_parent (tgs (set_inherited x v s) x) = tg_parent (tgs s x)) by (intros v; apply tree_upd_b).
  destruct (tg_parent (tgs s x)) as [p|] eqn:Hp.
  - assert (Hxp : x <> p) by congruence.
    destruct (own s x =? -1) eqn:Ho; [|destruct (_ && _) eqn:Hc; [by intros [= _ Hr]|]].
    + apply Z.eqb_eq in Ho. intros E. exists (inherited s p). assert (s' = set_inherited x (inherited s p) s) as -> by (symmetry; exact (f_equal fst E)).
      split; [done|]. unfold capped.
      rewrite Ht, own_set, !inherited_set, decide_True, decide_False by done. by left.
    + apply Z.eqb_neq in Ho. intros E. exists (own s x). assert (s' = set_inherited x (own s x) s) as -> by (symmetry; exact (f_equal fst E)).
      split; [done|]. unfold capped.
      rewrite Ht, own_set, !inherited_set, decide_True, decide_False by done. right. split_and!; [done|done|].
      apply andb_false_iff in Hc as [Hc|Hc]; [left; by apply negb_false_iff, Z.eqb_eq in Hc|right; by apply Z.ltb_ge in Hc].
  - intros E. exists (-1). assert (s' = set_inherited x (-1) s) as -> by (symmetry; exact (f_equal fst E)). split; [done|]. unfold capped. by rewrite Ht, inherited_set, decide_True.
Qed.

(** Parents come before their children, after [pre]. *)
Fixpoint parents_first (s : bw_state) (pre l : list Z) : Prop :=
  match l with
  | [] => True
  | x :: l => (forall p, tg_parent (tgs s x) = Some p -> p ∈ pre) /\ parents_first s (x :: pre) l
  end.

Lemma parents_first_tree s s' pre l :
  (forall e, tg_parent (tgs s' e) = tg_parent (tgs s e)) -> parents_first s pre l -> parents_first s' pre l.
Proof.
  intros He. revert pre. induction l as [|x l IH]; intros pre; [done|]. intros (Hp & Hl). cbn. rewrite He. auto.
Qed.

Lemma visit_capped pre l s s' :
  parents_first s pre l -> NoDup l -> (forall x, x ∈ l -> x ∉ pre) ->
  (forall x, x ∈ pre -> capped s x /\ forall p, tg_parent (tgs s x) = Some p -> p ∈ pre) ->
  visit_down (tg_cfs_schedulable_down d) l s = (s', 0) ->
  (forall x, x ∈ l \/ x ∈ pre -> capped s' x) /\
  (forall e, own s' e = own s e /\ tg_parent (tgs s' e) = tg_parent (tgs s e)).
Proof.
  revert pre s. induction l as [|x l IH]; intros pre s Hpf Hnd Hdis Hpre Hv; cbn in Hv.
  { injection Hv as <-. split; [|done]. intros x [Hx|Hx]; [set_solver|by apply Hpre]. }
  destruct Hpf as (Hp & Hl). apply NoDup_cons in Hnd as [Hxl Hnd]. assert (Hx : x ∉ pre) by (apply Hdis; set_solver).
  destruct (tg_cfs_schedulable_down d x s) as [s1 ret] eqn:E.
  destruct (ret =? 0) eqn:Hr; cbn [negb] in Hv; [apply Z.eqb_eq in Hr as ->|].
  2:{ injection Hv as _ ->. by apply Z.eqb_neq in Hr. }
  destruct (down_capped x s s1) as (v & -> & Hc); [intros Hxx; by apply Hx, Hp|done|].
  assert (Ht : forall e, tg_parent (tgs (set_inherited x v s) e) = tg_parent (tgs s e)) by (intros e; apply tree_upd_b).
  destruct (IH (x :: pre) (set_inherited x v s)) as [A B].
  - by eapply parents_first_tree.
  - done.
  - intros y Hy Hy'. apply elem_of_cons in Hy' as [->|Hy']; [done|]. apply (Hdis y); set_solver.
  - intros y Hy. rewrite Ht. apply elem_of_cons in Hy as [->|Hy]; [split; [done|]; intros p Hpp; right; by apply Hp|].
    destruct (Hpre y Hy) as [Cy Py]. split; [|intros p Hpp; right; by apply Py].
    unfold capped in *. rewrite Ht, own_set, inherited_set, decide_False by (intros ->; done).
    destruct (tg_parent (tgs s y)) as [p|]; [|done]. rewrite inherited_set, decide_False; [done|]. intros ->. apply Hx. by apply Py.
  - done.
  - split; [intros y [Hy|Hy]; apply A; set_solver|]. intros e. destruct (B e) as [B1 B2]. by rewrite B1, B2, own_set, Ht.
Qed.

(** The whole tree, in the order of the walk. *)
Definition tree_ok `{BwEnv} (s : bw_state) : Prop :=
  tg_parent (tgs s root_task_group) = None /\
  (forall e c, c ∈ tg_children (tgs s e) -> tg_parent (tgs s c) = Some e) /\
  NoDup (entering tg_levels s root_task_group).

Lemma parents_first_mono s pre pre' l : (forall x, x ∈ pre -> x ∈ pre') -> parents_first s pre l -> parents_first s pre' l.
Proof.
  revert pre pre'. induction l as [|x l IH]; intros pre pre' Hi; [done|]. intros [Hp Hl]. split; [auto|].
  apply (IH (x :: pre)); [|done]. intros y Hy. apply elem_of_cons in Hy as [->|Hy]; [apply elem_of_cons; by left|].
  apply elem_of_cons. right. auto.
Qed.
Lemma parents_first_app s pre l l' : parents_first s pre l -> parents_first s pre l' -> parents_first s pre (l ++ l').
Proof.
  revert pre. induction l as [|x l IH]; intros pre; [done|]. intros [Hp Hl] Hl'. split; [done|]. apply IH; [done|].
  apply (parents_first_mono s pre); [|done]. intros y Hy. apply elem_of_cons. by right.
Qed.
Lemma parents_first_entering `{BwEnv} n s g pre :
  (forall e c, c ∈ tg_children (tgs s e) -> tg_parent (tgs s c) = Some e) ->
  (forall p, tg_parent (tgs s g) = Some p -> p ∈ pre) -> parents_first s pre (entering n s g).
Proof.
  intros Ht. revert g pre. induction n as [|n IH]; intros g pre Hg; [done|]. split; [done|].
  assert (Hc : forall c, c ∈ tg_children (tgs s g) -> parents_first s (g :: pre) (entering n s c)).
  { intros c Hc. apply IH. intros p Hp. rewrite (Ht g c Hc) in Hp. injection Hp as <-. set_solver. }
  induction (tg_children (tgs s g)) as [|c l IHl]; [done|]. cbn. apply parents_first_app; [apply Hc; set_solver|].
  apply IHl. intros c' Hc'. apply Hc. set_solver.
Qed.
(** Parents of groups in the list are in the list. *)
Lemma parents_first_closed s pre l x p :
  parents_first s pre l -> x ∈ l -> tg_parent (tgs s x) = Some p -> p ∈ l \/ p ∈ pre.
Proof.
  revert pre. induction l as [|y l IH]; intros pre; [set_solver|]. intros [Hp Hl] Hx Hpx.
  apply elem_of_cons in Hx as [->|Hx]; [right; auto|]. destruct (IH (y :: pre) Hl Hx Hpx) as [H|H]; set_solver.
Qed.

Definition parent_of (s : bw_state) (c p : Z) : Prop := tg_parent (tgs s c) = Some p.

(** Down a path the inherited limits shrink. *)
Lemma capped_path s s' l x a :
  parents_first s [] l -> (forall y, y ∈ l -> capped s' y) ->
  (forall e, own s' e = own s e /\ tg_parent (tgs s' e) = tg_parent (tgs s e)) ->
  rtc (parent_of s) x a -> x ∈ l -> tg_parent (tgs s a) <> None -> own s a <> -1 ->
  inherited s' x <> -1 /\ inherited s' x <= own s a.
Proof.
  intros Hpf Hc He Hp. induction Hp as [x|x y z Hxy _ IH]; intros Hx Ha Ho.
  - specialize (Hc x Hx). unfold capped in Hc. destruct (He x) as [E1 E2]. rewrite E1, E2 in Hc.
    destruct (tg_parent (tgs s x)) as [p|]; [|done]. destruct Hc as [[? _]|(_ & -> & _)]; [done|]. split; [done|lia].
  - destruct (parents_first_closed _ _ _ _ _ Hpf Hx Hxy) as [Hy|Hy]; [|set_solver]. specialize (Hc x Hx).
    unfold capped in Hc. destruct (He x) as [E1 E2]. rewrite E1, E2, Hxy in Hc. destruct (IH Hy Ha Ho) as [Hn Hle].
    destruct Hc as [[_ ->]|(Hox & -> & [Hi|Hi])]; [done|done|split; [done|lia]].
Qed.
End Hierarchy.

(** The limit of a group as a ratio of its period, -1 for none. *)
Definition limit (s : bw_state) (e : Z) : Z :=
  if tg_get_cfs_quota s e =? -1 then -1 else s64 (to_ratio (tg_get_cfs_period s e) (tg_get_cfs_quota s e)).

Section Shrink.
Context `{BwEnv}.

Lemma div_usec x : 0 <= x < 2 ^ 64 -> 0 <= x / NSEC_PER_USEC < 2 ^ 56 .
Proof.
  intros Hx. unfold NSEC_PER_USEC. split; [apply Z.div_pos; lia|]. apply Z.div_lt_upper_bound; lia.
Qed.

(** What the check computes for a group is the limit it has afterwards. *)
Lemma own_limit g p q s s' e :
  let d := if negb (q =? RUNTIME_INF) then mkSchedulable g (p / NSEC_PER_USEC) (q / NSEC_PER_USEC) else mkSchedulable g p q in
  0 <= quota (cfs_b s e) < 2 ^ 64 -> 0 <= q < 2 ^ 64 -> 0 <= p < 2 ^ 64 ->
  limits s' e = (if decide (e = g) then (p, q) else limits s e) -> own d s e = limit s' e.
Proof.
  intros d Hqe Hq Hp Hl. unfold limits in Hl. unfold own, limit, normalize_cfs_quota, tg_get_cfs_quota, tg_get_cfs_period.
  destruct (decide (e = g)) as [->|Hne]; injection Hl as -> ->.
  - assert (Hd : d_tg d = g) by (unfold d; by destruct (negb _)). rewrite Hd, Z.eqb_refl. unfold d.
    destruct (q =? RUNTIME_INF) eqn:E; cbn [negb d_period d_quota].
    + rewrite E. by vm_compute.
    + pose proof (div_usec q Hq). rewrite (u64_id p) by done. replace (q / NSEC_PER_USEC =? -1) with false by (symmetry; apply Z.eqb_neq; lia).
      replace (q / NSEC_PER_USEC =? RUNTIME_INF) with false by (symmetry; apply Z.eqb_neq; unfold RUNTIME_INF, U64_MAX; lia). done.
  - assert (Hd : d_tg d = g) by (unfold d; by destruct (negb _)). rewrite Hd. replace (e =? g) with false by (symmetry; by apply Z.eqb_neq).
    destruct (quota (cfs_b s e) =? RUNTIME_INF) eqn:E; [by vm_compute|].
    pose proof (div_usec _ Hqe). pose proof (div_usec _ (u64_range (period (cfs_b s e)))).
    rewrite !u64_id by lia. replace (_ / NSEC_PER_USEC =? -1) with false by (symmetry; apply Z.eqb_neq; lia).
    replace (_ / NSEC_PER_USEC =? RUNTIME_INF) with false by (symmetry; apply Z.eqb_neq; unfold RUNTIME_INF, U64_MAX; lia). done.
Qed.

Lemma set_bandwidth_checked g p q s s' :
  tg_set_cfs_bandwidth g p q s = (s', 0) -> exists s1, __cfs_schedulable g p q s = (s1, 0).
Proof.
  unfold tg_set_cfs_bandwidth.
  repeat match goal with |- context [if ?b then (s, - EINVAL) else _] => destruct b; [by intros [= _ ?]|] end.
  destruct (__cfs_schedulable g p q s) as [s1 ret]. destruct (ret =? 0) eqn:E; [apply Z.eqb_eq in E as ->; by eauto|].
  intros Hr. apply (f_equal snd) in Hr. cbn in Hr. by apply Z.eqb_neq in E.
Qed.

(** In the tree that is accepted, the ratios that the check computes shrink. *)
Lemma ratios_shrink g p q s s' x a :
  tree_ok s -> (forall e, 0 <= quota (cfs_b s e) < 2 ^ 64) -> 0 <= p < 2 ^ 64 -> 0 <= q < 2 ^ 64 ->
  tg_set_cfs_bandwidth g p q s = (s', 0) ->
  x ∈ entering tg_levels s root_task_group -> rtc (parent_of s) x a -> tg_parent (tgs s a) <> None ->
  limit s' a <> -1 -> limit s' x <> -1 -> limit s' x <= limit s' a.
Proof.
  intros (Hroot & Htree & Hnd) Hqs Hp Hq Hset Hx Hpath Ha Hla Hlx.
  pose proof (limits_set_bandwidth g p q s) as Hlim. rewrite Hset in Hlim. destruct Hlim as [_ Hlim].
  destruct (set_bandwidth_checked _ _ _ _ _ Hset) as [s1 Hsch]. unfold __cfs_schedulable in Hsch.
  set (d := if negb (q =? RUNTIME_INF) then _ else _) in Hsch.
  assert (Ho : forall e, own d s e = limit s' e).
  { intros e. apply own_limit; [done..|]. rewrite Hlim. by destruct (decide (e = g)) as [->|];
      [rewrite decide_True|rewrite decide_False by naive_solver]. }
  assert (Hpf : parents_first s [] (entering tg_levels s root_task_group)).
  { apply parents_first_entering; [done|]. by rewrite Hroot. }
  destruct (visit_capped d [] _ s s1 Hpf Hnd) as [Hc He]; [set_solver|set_solver|done|].
  destruct (capped_path d s s1 _ x a Hpf) as [_ Hle]; try done; [auto|by rewrite Ho|].
  rewrite <- !Ho in *. pose proof (Hc x (or_introl Hx)) as Hcx. unfold capped in Hcx.
  destruct (He x) as [E1 E2]. rewrite E1, E2 in Hcx.
  destruct (tg_parent (tgs s x)) as [y|] eqn:Hy; [destruct Hcx as [[? _]|(_ & <- & _)]; done|].
  apply rtc_inv in Hpath as [->|(z & Hz & _)]; [done|]. unfold parent_of in Hz. congruence.
Qed.

(** A limit as the control files show it, in microseconds, that [to_ratio] does
    not truncate: 2^43 microseconds are a hundred days. *)
Definition limited (s : bw_state) (e : Z) : Prop :=
  tg_get_cfs_quota s e <> -1 /\ 0 <= tg_get_cfs_quota s e < 2 ^ 43 /\ 0 < tg_get_cfs_period s e.

Lemma limit_exact s e : limited s e ->
  limit s e = tg_get_cfs_quota s e * 2 ^ 20 / tg_get_cfs_period s e /\ limit s e <> -1.
Proof.
  intros (Hne & Hq & Hp). unfold limit. destruct (Z.eqb_spec (tg_get_cfs_quota s e) (-1)); [done|].
  unfold to_ratio. replace (tg_get_cfs_quota s e =? RUNTIME_INF) with false
    by (symmetry; apply Z.eqb_neq; unfold RUNTIME_INF, U64_MAX; lia).
  replace (tg_get_cfs_period s e =? 0) with false by (symmetry; apply Z.eqb_neq; lia).
  rewrite Z.shiftl_mul_pow2 by done. change (2 ^ BW_SHIFT) with (2 ^ 20). rewrite (u64_id (_ * _)) by lia.
  assert (Hd : 0 <= tg_get_cfs_quota s e * 2 ^ 20 / tg_get_cfs_period s e < 2 ^ 63).
  { split; [apply Z.div_pos; lia|]. apply Z.div_lt_upper_bound; nia. }
  rewrite ?u64_id, s64_id by lia. split; [done|lia].
Qed.

(** C22: A limit that is accepted keeps the tree in order: below a group with a
    limit no group has a larger one, however deep it lies.  For any two groups on
    a path whose quotas are below 2^43 microseconds, quota / period of the lower
    one is less than quota / period of the upper one plus 2^-20, the precision of
    the check; the quotas and periods are those the control files show.  A new
    limit that breaks this, for its group or for one further down, is refused. *)
Theorem limits_shrink_downwards g p q s s' x a :
  tree_ok s -> (forall e, 0 <= quota (cfs_b s e) < 2 ^ 64) -> 0 <= p < 2 ^ 64 -> 0 <= q < 2 ^ 64 ->
  tg_set_cfs_bandwidth g p q s = (s', 0) ->
  x ∈ entering tg_levels s root_task_group -> rtc (parent_of s) x a -> tg_parent (tgs s a) <> None ->
  limited s' a -> limited s' x ->
  tg_get_cfs_quota s' x * tg_get_cfs_period s' a * 2 ^ 20 <
  (tg_get_cfs_quota s' a * 2 ^ 20 + tg_get_cfs_period s' a) * tg_get_cfs_period s' x.
Proof.
  intros Ht Hqs Hp Hq Hset Hx Hpath Ha La Lx.
  destruct (limit_exact s' a La) as [Ea Na]. destruct (limit_exact s' x Lx) as [Ex Nx].
  pose proof (ratios_shrink g p q s s' x a Ht Hqs Hp Hq Hset Hx Hpath Ha Na Nx) as Hle. rewrite Ea, Ex in Hle.
  destruct La as (_ & Hqa & Hpa), Lx as (_ & Hqx & Hpx).
  pose proof (Z.mul_succ_div_gt (tg_get_cfs_quota s' x * 2 ^ 20) (tg_get_cfs_period s' x) Hpx).
  pose proof (Z.mul_div_le (tg_get_cfs_quota s' a * 2 ^ 20) (tg_get_cfs_period s' a) Hpa). nia.
Qed.
End Shrink.

(** ** Examples *)

#[local] Instance demo_limits_env : BwEnv :=
  {| sysctl_sched_cfs_bandwidth_slice := 5000; TICK_NSEC := 4000000; tg_levels := 3;
     hrtimer_callback_running := fun _ _ => false; hrtimer_expires_remaining := fun _ _ => 50000000;
     bw_others := fun s => s |}.

(** The root and one group without a limit. *)
Definition demo_bw0 : bw_state :=
  mkBw (demo_kernel fair_sched_class SCHED_NORMAL 120)
    (fun g => if g =? 0 then mkTg None [1] demo_b (fun _ => demo_q)
              else mkTg (Some 0) [] demo_b (fun _ => demo_q)) [0; 1] 0 [].

(** The product in [tg_set_cfs_quota] wraps: a limit of 584 years is accepted as
    one of a millisecond. *)
Example quota_wraps :
  let '(s, ret) := tg_set_cfs_quota 1 (18446744073709552 + 1000) demo_bw0 in
  ret = 0 /\ tg_get_cfs_quota s 1 = 1000.
Proof. vm_compute. done. Qed.

Lemma cfs_quota_roundtrip_witness :
  tg_get_cfs_quota (tg_set_cfs_quota 1 10000 demo_bw0).1 1 = 10000.
Proof.
  pose proof (cfs_quota_roundtrip 1 10000 demo_bw0 ltac:(lia)) as Hq.
  assert (E : (tg_set_cfs_quota 1 10000 demo_bw0).2 = 0) by (by vm_compute).
  destruct (tg_set_cfs_quota 1 10000 demo_bw0) as [s' ret]. cbn in E |- *. subst ret. by apply Hq.
Defined.

(** The root, a group with half of its period, and one below it. *)
Definition demo_half : cfs_bandwidth := mkCfsB 100000000 50000000 0 0 0 0 false true [] 0 0 0 false.
Definition demo_tree : bw_state :=
  mkBw (demo_kernel fair_sched_class SCHED_NORMAL 120)
    (fun g => if g =? 0 then mkTg None [1] demo_b (fun _ => demo_q)
              else if g =? 1 then mkTg (Some 0) [2] demo_half (fun _ => demo_q)
              else mkTg (Some 1) [] demo_b (fun _ => demo_q)) [0; 1; 2] 1 [].

(** The shift in [to_ratio] drops the top bits of a long quota: below the group
    with half of its period, one with 2^44 microseconds in each 0.1 s is accepted. *)
Example wide_quota_slips_through :
  let '(s, ret) := tg_set_cfs_quota 2 (2 ^ 44) demo_tree in
  ret = 0 /\ tg_get_cfs_quota s 2 = 2 ^ 44 /\ tg_get_cfs_quota s 1 = 50000 /\ tg_get_cfs_period s 1 = 100000.
Proof. by vm_compute. Qed.

(** The group below may have 40 ms of 100 ms, and not 60. *)
Lemma limits_shrink_downwards_witness :
  let '(s', ret) := tg_set_cfs_bandwidth 2 100000000 40000000 demo_tree in
  ret = 0 /\ 40000 * 100000 * 2 ^ 20 < (50000 * 2 ^ 20 + 100000) * 100000 /\
  (tg_set_cfs_bandwidth 2 100000000 60000000 demo_tree).2 = - EINVAL.
Proof.
  assert (E : (tg_set_cfs_bandwidth 2 100000000 40000000 demo_tree).2 = 0) by (by vm_compute).
  assert (E1 : tg_get_cfs_quota (tg_set_cfs_bandwidth 2 100000000 40000000 demo_tree).1 1 = 50000) by (by vm_compute).
  assert (E2 : tg_get_cfs_quota (tg_set_cfs_bandwidth 2 100000000 40000000 demo_tree).1 2 = 40000) by (by vm_compute).
  assert (P1 : tg_get_cfs_period (tg_set_cfs_bandwidth 2 100000000 40000000 demo_tree).1 1 = 100000) by (by vm_compute).
  assert (P2 : tg_get_cfs_period (tg_set_cfs_bandwidth 2 100000000 40000000 demo_tree).1 2 = 100000) by (by vm_compute).
  pose proof (limits_shrink_downwards 2 100000000 40000000 demo_tree (tg_set_cfs_bandwidth 2 100000000 40000000 demo_tree).1 2 1) as Hl.
  unfold limited in Hl.
  destruct (tg_set_cfs_bandwidth 2 100000000 40000000 demo_tree) as [s' ret]. cbn in E, E1, E2, P1, P2. cbn [fst] in Hl. subst ret.
  rewrite E1, E2, P1, P2 in Hl.
  split; [reflexivity|]. split; [|by vm_compute]. apply Hl; try done; try lia.
  - split_and!; [done| |].
    + intros e c. cbn. destruct (e =? 0) eqn:H0; [|destruct (e =? 1) eqn:H1]; cbn; intros Hc.
      * apply Z.eqb_eq in H0 as ->. apply list_elem_of_singleton in Hc as ->. done.
      * apply Z.eqb_eq in H1 as ->. apply list_elem_of_singleton in Hc as ->. done.
      * by apply elem_of_nil in Hc.
    + apply (bool_decide_unpack _). by vm_compute.
  - intros e. unfold cfs_b. cbn. destruct (e =? 0); [|destruct (e =? 1)]; by vm_compute.
  - apply (bool_decide_unpack _). by vm_compute.
  - by apply rtc_once.
Defined.
