(* ===== verification/FairShares.v ===== *)
(** * Shares of task groups (fair.c)

    On every CPU a task group is one entity of the queue of its parent.  The
    weight of the entity is the part of the shares of the group that the CPU
    carries, and its load is scaled by what all CPUs of the group have.  To do
    this without looking at the queues of other CPUs, every queue remembers what
    it has contributed to the sum in the group and updates it when the change is
    not small.

    The state extends that of [FairBandwidth] by the load averages; the notice of
    a change of utilisation to the frequency governor, which the queue of the root
    gives, is in [FairQueue].  The theorems: a weight lies between the minimum and
    the shares, and the loads of the entities of a group exceed its shares by at
    most one part in 64.  That the sum in the group is the sum of the
    contributions is shown here for each operation and in [FairGroups] for the
    life of a group. *)

From S2P Require Import Prelude SchedTypes Core Wrr CorePolicy RtBandwidth FairMath FairPelt FairQueue FairBandwidth.

Definition MIN_SHARES : Z := 2.
Definition MAX_SHARES : Z := 262144.          (* 1 << 18 *)

(** The queue of a group on a CPU and the entity that stands for it. *)
Record group_load := mkGroupLoad {
  gl_avg : sched_avg;
  gl_runnable_sum : Z;
  gl_runnable_avg : Z;
  gl_contrib : Z;              (* tg_load_avg_contrib *)
  gl_propagate : bool;
  gl_removed_load : Z;
  gl_removed_util : Z;
  gl_se_avg : sched_avg;
  gl_se_curr : bool }.         (* the entity is curr of the queue it is on *)
#[export] Instance eta_group_load : Settable group_load :=
  fun r => mkGroupLoad (gl_avg r) (gl_runnable_sum r) (gl_runnable_avg r) (gl_contrib r) (gl_propagate r)
    (gl_removed_load r) (gl_removed_util r) (gl_se_avg r) (gl_se_curr r).

Record share_group := mkShareGroup {
  sh_shares : Z;
  sh_load_avg : Z;
  sh_q : Z -> group_load }.
#[export] Instance eta_share_group : Settable share_group :=
  fun r => mkShareGroup (sh_shares r) (sh_load_avg r) (sh_q r).

Record share_state := mkShare { sh_bw : bw_state; sh_tg : Z -> share_group }.
#[export] Instance eta_share_state : Settable share_state := fun r => mkShare (sh_bw r) (sh_tg r).

Definition gl (s : share_state) (g c : Z) : group_load := sh_q (sh_tg s g) c.
Definition upd_tg (g : Z) (f : share_group -> share_group) (s : share_state) : share_state := s <| sh_tg ::= alter f g |>.
Definition upd_gl (g c : Z) (f : group_load -> group_load) (s : share_state) : share_state :=
  upd_tg g (fun t => t <| sh_q ::= alter f c |>) s.
Definition on_bw (f : bw_state -> bw_state) (s : share_state) : share_state := s <| sh_bw ::= f |>.

Section Shares.
Context `{PeltTable} `{BwEnv}.

(** ** The weight of the entity *)

Definition calc_cfs_shares (g c : Z) (s : share_state) : Z :=
  let t := sh_tg s g in
  let load := scale_load_down (g_weight (grq (sh_bw s) g c)) in
  let tg_weight := s64 (s64 (sh_load_avg t - gl_contrib (gl s g c)) + load) in
  let shares := s64 (u64 (sh_shares t * load)) in
  let shares := if negb (tg_weight =? 0) then Z.quot shares tg_weight else shares in
  let shares := if u64 shares <? MIN_SHARES then MIN_SHARES else shares in
  if sh_shares t <? u64 shares then s64 (sh_shares t) else shares.

(** The entity of [g] on the queue of [p]; it is on the queue of the CPU itself
    when [p] is the root. *)
Definition account_group_dequeue (p g c : Z) (s : bw_state) : bw_state :=
  let w := gse_weight (grq s g c) in
  let s := upd_g p c (fun q => q <| g_weight ::= fun x => u64 (x - w) |>) s in
  let s := if p =? root_task_group then on_kernel (upd_rq c (fun r => r <| rq_load ::= fun l => update_load_sub l w |>)) s else s in
  upd_g p c (fun q => q <| g_nr_running ::= fun n => u32 (n - 1) |>) s.
Definition account_group_enqueue (p g c : Z) (s : bw_state) : bw_state :=
  let w := gse_weight (grq s g c) in
  let s := upd_g p c (fun q => q <| g_weight ::= fun x => u64 (x + w) |>) s in
  let s := if p =? root_task_group then on_kernel (upd_rq c (fun r => r <| rq_load ::= fun l => update_load_add l w |>)) s else s in
  upd_g p c (fun q => q <| g_nr_running ::= fun n => u32 (n + 1) |>) s.

(** The [update_curr] of a running entity is a charge, a step of its own. *)
Definition reweight_entity (p g c weight : Z) (s : bw_state) : bw_state :=
  let on := gse_on_rq (grq s g c) in
  let s := if on then account_group_dequeue p g c s else s in
  let s := upd_g g c (fun q => q <| gse_weight := weight |>) s in
  if on then account_group_enqueue p g c s else s.

Definition update_cfs_shares (g c : Z) (s : share_state) : share_state :=
  match tg_parent (tgs (sh_bw s) g) with
  | None => s
  | Some p => if throttled_hierarchy g c (sh_bw s) then s
              else on_bw (reweight_entity p g c (u64 (calc_cfs_shares g c s))) s
  end.

(** ** Load *)

Definition add_positive (w x v : Z) : Z :=
  let res := wrapU w (x + v) in if (v <? 0) && (x <? res) then 0 else res.

Definition update_tg_load_avg (g c : Z) (force : bool) (s : share_state) : share_state :=
  let q := gl s g c in
  let delta := s64 (load_avg (gl_avg q) - gl_contrib q) in
  if g =? root_task_group then s
  else if force || (gl_contrib q / 64 <? Z.abs delta) then
    let s := upd_tg g (fun t => t <| sh_load_avg ::= fun x => s64 (x + delta) |>) s in
    upd_gl g c (fun q => q <| gl_contrib := load_avg (gl_avg q) |>) s
  else s.

(** The group [g] as an entity of the queue of [p]. *)
Definition update_tg_cfs_util (p g c : Z) (s : share_state) : share_state :=
  let q := gl s g c in
  let delta := s64 (util_avg (gl_avg q) - util_avg (gl_se_avg q)) in
  if delta =? 0 then s
  else
    let u := util_avg (gl_avg q) in
    let s := upd_gl g c (fun q => q <| gl_se_avg ::= fun a => a <| util_avg := u |>
                                         <| util_sum := u32 (u * LOAD_AVG_MAX) |> |>) s in
    upd_gl p c (fun q => q <| gl_avg ::= fun a =>
      let u := add_positive 64 (util_avg a) delta in a <| util_avg := u |> <| util_sum := u32 (u * LOAD_AVG_MAX) |> |>) s.

(** The load that the entity is given. *)
Definition group_entity_load (g c : Z) (s : share_state) : Z :=
  let t := sh_tg s g in
  let load := s64 (load_avg (gl_avg (gl s g c))) in
  if load =? 0 then load
  else
    let tg_load := s64 (s64 (s64 (sh_load_avg t + 1) - gl_contrib (gl s g c)) + load) in
    if scale_load_down (sh_shares t) <? u64 tg_load
    then Z.quot (s64 (u64 (load * scale_load_down (sh_shares t)))) tg_load else load.

Definition update_tg_cfs_load (p g c : Z) (s : share_state) : share_state :=
  let load := group_entity_load g c s in
  let delta := s64 (load - load_avg (gl_se_avg (gl s g c))) in
  if delta =? 0 then s
  else
    let s := upd_gl g c (fun q => q <| gl_se_avg ::= fun a => a <| load_avg := u64 load |>
                                         <| load_sum := u64 (u64 load * LOAD_AVG_MAX) |> |>) s in
    let s := upd_gl p c (fun q => q <| gl_avg ::= fun a =>
      let l := add_positive 64 (load_avg a) delta in a <| load_avg := l |> <| load_sum := u64 (l * LOAD_AVG_MAX) |> |>) s in
    if gse_on_rq (grq (sh_bw s) g c) then
      upd_gl p c (fun q =>
        let r := add_positive 64 (gl_runnable_avg q) delta in
        q <| gl_runnable_avg := r |> <| gl_runnable_sum := u64 (r * LOAD_AVG_MAX) |>) s
    else s.

Definition set_tg_cfs_propagate (g c : Z) (s : share_state) : share_state := upd_gl g c (fun q => q <| gl_propagate := true |>) s.
Definition test_and_clear_tg_cfs_propagate (g c : Z) (s : share_state) : share_state * bool :=
  if negb (gl_propagate (gl s g c)) then (s, false) else (upd_gl g c (fun q => q <| gl_propagate := false |>) s, true).

Definition propagate_entity_load_avg (p g c : Z) (s : share_state) : share_state * bool :=
  let '(s, due) := test_and_clear_tg_cfs_propagate g c s in
  if negb due then (s, false)
  else
    let s := set_tg_cfs_propagate p c s in
    (update_tg_cfs_load p g c (update_tg_cfs_util p g c s), true).

Definition skip_blocked_update (g c : Z) (s : share_state) : bool :=
  let q := gl s g c in
  if negb (load_avg (gl_se_avg q) =? 0) || negb (util_avg (gl_se_avg q) =? 0) then false
  else if gl_propagate q then false else true.

(** The queue of the group [p] on the CPU, with what departed tasks left. *)
Definition group_cfs_rq_load_avg (now p c : Z) (s : share_state) : share_state * bool :=
  let q := gl s p c in
  let removed_load := negb (gl_removed_load q =? 0) in
  let s := if removed_load then
      let r := s64 (gl_removed_load q) in
      upd_gl p c (fun q => q <| gl_removed_load := 0 |> <| gl_avg ::= fun a =>
        a <| load_avg ::= fun x => sub_positive 64 x r |>
          <| load_sum ::= fun x => sub_positive 64 x (s64 (r * LOAD_AVG_MAX)) |> |> <| gl_propagate := true |>) s
    else s in
  let removed_util := negb (gl_removed_util q =? 0) in
  let s := if removed_util then
      let r := s64 (gl_removed_util q) in
      upd_gl p c (fun q => q <| gl_removed_util := 0 |> <| gl_avg ::= fun a =>
        a <| util_avg ::= fun x => sub_positive 64 x r |>
          <| util_sum ::= fun x => sub_positive 32 x (s64 (r * LOAD_AVG_MAX)) |> |> <| gl_propagate := true |>) s
    else s in
  let q := gl s p c in
  let '(sa, r, decayed) :=
    ___update_load_avg now c (gl_avg q) (scale_load_down (g_weight (grq (sh_bw s) p c))) (g_curr (grq (sh_bw s) p c))
      (Some (gl_runnable_sum q, gl_runnable_avg q)) in
  let '(rs, ra) := default (0, 0) r in
  (upd_gl p c (fun q => q <| gl_avg := sa |> <| gl_runnable_sum := rs |> <| gl_runnable_avg := ra |>) s,
   decayed || removed_load).

Definition group_update_load_avg (p g c flags : Z) (s : share_state) : share_state :=
  let now := cfs_rq_clock_task p c (sh_bw s) in
  let q := gl s g c in
  let s := if negb (last_update_time (gl_se_avg q) =? 0) && negb (has_flag flags SKIP_AGE_LOAD) then
      let e := grq (sh_bw s) g c in
      upd_gl g c (fun q => q <| gl_se_avg ::= fun a => (___update_load_avg now c a
        (u64 ((if gse_on_rq e then 1 else 0) * scale_load_down (gse_weight e))) (gl_se_curr q) None).1.1 |>) s
    else s in
  let '(s, decayed) := group_cfs_rq_load_avg now p c s in
  let '(s, due) := propagate_entity_load_avg p g c s in
  if (decayed || due) && has_flag flags UPDATE_TG then update_tg_load_avg p c false s else s.

(** ** Setting the shares *)

(** The loop up the tree for one CPU. *)
Fixpoint shares_walk (n : nat) (g c : Z) (s : share_state) : share_state :=
  match n, tg_parent (tgs (sh_bw s) g) with
  | _, None | O, _ => s
  | S n, Some p => shares_walk n p c (update_cfs_shares g c (group_update_load_avg p g c UPDATE_TG s))
  end.

Definition sched_group_set_shares (g shares : Z) (s : share_state) : share_state * Z :=
  match tg_parent (tgs (sh_bw s) g) with
  | None => (s, - EINVAL)
  | Some _ =>
      let shares := Z.min (Z.max shares (scale_load MIN_SHARES)) (scale_load MAX_SHARES) in
      if sh_shares (sh_tg s g) =? shares then (s, 0)
      else
        let s := upd_tg g (fun t => t <| sh_shares := shares |>) s in
        (foldl (fun s i => shares_walk tg_levels g i (on_bw (on_kernel (update_rq_clock i)) s)) s
           (for_each_cpu (bw_k (sh_bw s)) (cpu_possible_mask (bw_k (sh_bw s)))), 0)
  end.

Definition cpu_shares_write_u64 (g shareval : Z) (s : share_state) : share_state * Z :=
  sched_group_set_shares g (u64 (scale_load shareval)) s.
Definition cpu_shares_read_u64 (s : share_state) (g : Z) : Z := scale_load_down (sh_shares (sh_tg s g)).
End Shares.

(** ** Weights *)

(** The weight of a group on a CPU lies between the minimum and the shares of
    the group, whatever the loads and contributions are, stale or wrapped. *)
Lemma shares_between g c s :
  MIN_SHARES <= sh_shares (sh_tg s g) < 2 ^ 63 ->
  MIN_SHARES <= calc_cfs_shares g c s <= sh_shares (sh_tg s g).
Proof.
  intros Hs. unfold calc_cfs_shares. cbv zeta. set (sh := sh_shares _) in *.
  set (x := if negb _ then _ else _). set (v := if u64 x <? MIN_SHARES then MIN_SHARES else x).
  unfold MIN_SHARES in *. assert (Hx : - 2 ^ 63 <= x <= 2 ^ 63).
  { pose proof (s64_range (u64 (sh * scale_load_down (g_weight (grq (sh_bw s) g c))))) as Hr.
    unfold x. set (t := s64 (_ + _)). destruct (t =? 0) eqn:E; cbn [negb]; [lia|]. apply Z.eqb_neq in E.
    apply Z.abs_le. etransitivity; [|instantiate (1 := Z.abs (s64 (u64 (sh * scale_load_down (g_weight (grq (sh_bw s) g c)))))); lia].
    rewrite <- Z.quot_abs by done. apply Z.quot_le_upper_bound; [lia|]. nia. }
  assert (Hv : 2 <= u64 v /\ - 2 ^ 63 <= v <= 2 ^ 63).
  { unfold v. destruct (u64 x <? 2) eqn:E; [split; [by rewrite u64_id|lia]|]. apply Z.ltb_ge in E. done. }
  clearbody v. destruct (sh <? u64 v) eqn:E; [rewrite s64_id; lia|]. apply Z.ltb_ge in E.
  destruct (Z_lt_le_dec v 0) as [Hneg|Hpos]; [|rewrite u64_id in *; lia].
  rewrite u64_neg in E by lia. lia.
Qed.

(** A function that keeps a field of a queue keeps it on every queue. *)
Lemma grq_upd_field {A} (pr : group_rq -> A) p c f s g d :
  (forall q, pr (f q) = pr q) -> pr (grq (upd_g p c f s) g d) = pr (grq s g d).
Proof.
  intros Hf. unfold grq, upd_g. cbn. destruct (decide (p = g)) as [<-|]; [|by rewrite fn_lookup_alter_ne].
  rewrite fn_lookup_alter. cbn. destruct (decide (c = d)) as [<-|]; [by rewrite fn_lookup_alter, Hf|by rewrite fn_lookup_alter_ne].
Qed.

Lemma grq_upd_same g c f s : grq (upd_g g c f s) g c = f (grq s g c).
Proof. unfold grq, upd_g. cbn. rewrite fn_lookup_alter. cbn. by rewrite fn_lookup_alter. Qed.

Lemma account_keeps_weight p g c s e d :
  gse_weight (grq (account_group_dequeue p g c s) e d) = gse_weight (grq s e d) /\
  gse_weight (grq (account_group_enqueue p g c s) e d) = gse_weight (grq s e d).
Proof.
  unfold account_group_dequeue, account_group_enqueue.
  split; (destruct (p =? root_task_group); rewrite grq_upd_field by done; [apply (grq_upd_field gse_weight p c); done|by rewrite grq_upd_field]).
Qed.

(** The entity of a group has the weight it is given. *)
Lemma reweighted p g c w s : gse_weight (grq (reweight_entity p g c w s) g c) = w.
Proof.
  unfold reweight_entity. destruct (gse_on_rq _); [rewrite (proj2 (account_keeps_weight _ _ _ _ _ _))|]; by rewrite grq_upd_same.
Qed.

(** ** Contributions *)

Section Contributions.
Context `{PeltTable} `{BwEnv}.

(** What the sums of the groups and the contributions to them are is the same. *)
Definition contrib_kept (s s' : share_state) : Prop :=
  forall g, sh_load_avg (sh_tg s' g) = sh_load_avg (sh_tg s g) /\ forall c, gl_contrib (gl s' g c) = gl_contrib (gl s g c).

#[export] Instance contrib_kept_preorder : PreOrder contrib_kept.
Proof.
  split; [done|]. intros a b c Hab Hbc g. destruct (Hab g) as [E1 Ha], (Hbc g) as [E2 Hb]. split; [congruence|]. intros d. by rewrite Hb.
Qed.

Lemma gl_upd g c f s e d : gl (upd_gl g c f s) e d = if decide (g = e /\ c = d) then f (gl s g c) else gl s e d.
Proof.
  unfold gl, upd_gl, upd_tg. cbn. destruct (decide (g = e)) as [<-|].
  - rewrite fn_lookup_alter. cbn. destruct (decide (c = d)) as [<-|].
    + by rewrite fn_lookup_alter, decide_True.
    + rewrite fn_lookup_alter_ne by done. rewrite decide_False; [done|]. by intros [_ ?].
  - rewrite fn_lookup_alter_ne by done. rewrite decide_False; [done|]. by intros [? _].
Qed.
Lemma sh_load_avg_gl g c f s e : sh_load_avg (sh_tg (upd_gl g c f s) e) = sh_load_avg (sh_tg s e).
Proof.
  unfold upd_gl, upd_tg. cbn. destruct (decide (g = e)) as [<-|]; [by rewrite fn_lookup_alter|by rewrite fn_lookup_alter_ne].
Qed.

Lemma sh_tg_upd g f s e : sh_tg (upd_tg g f s) e = if decide (g = e) then f (sh_tg s g) else sh_tg s e.
Proof. unfold upd_tg. cbn. destruct (decide (g = e)) as [<-|]; [by rewrite fn_lookup_alter|by rewrite fn_lookup_alter_ne]. Qed.

Lemma contrib_gl g c f s s' :
  (forall q, gl_contrib (f q) = gl_contrib q) -> contrib_kept s s' -> contrib_kept s (upd_gl g c f s').
Proof.
  intros Hf Hs. transitivity s'; [done|]. intros e. rewrite sh_load_avg_gl. split; [done|]. intros d. rewrite gl_upd.
  destruct (decide (g = e /\ c = d)) as [[-> ->]|]; auto.
Qed.
Lemma contrib_bw f s s' : contrib_kept s s' -> contrib_kept s (on_bw f s').
Proof. done. Qed.

Ltac keep_contrib :=
  repeat match goal with
  | |- contrib_kept ?s ?s => reflexivity
  | Hk : contrib_kept ?s ?t |- contrib_kept ?s ?t => exact Hk
  | |- contrib_kept _ (if ?b then _ else _) => destruct b
  | |- contrib_kept _ (on_bw _ _) => apply contrib_bw
  | |- contrib_kept _ (upd_gl _ _ _ _) => apply contrib_gl; [done|]
  end.

Lemma contrib_shares g c s : contrib_kept s (update_cfs_shares g c s).
Proof. unfold update_cfs_shares. destruct (tg_parent _); keep_contrib. Qed.
Lemma contrib_propagate p g c s : contrib_kept s (propagate_entity_load_avg p g c s).1.
Proof.
  unfold propagate_entity_load_avg, test_and_clear_tg_cfs_propagate. destruct (negb (gl_propagate _)); [reflexivity|]. cbn [negb fst].
  unfold update_tg_cfs_load. cbv zeta. set (s1 := update_tg_cfs_util p g c _).
  assert (H1 : contrib_kept s s1).
  { unfold s1, update_tg_cfs_util, set_tg_cfs_propagate. cbv zeta. keep_contrib. }
  clearbody s1. keep_contrib.
Qed.
Lemma contrib_cfs_rq now p c s : contrib_kept s (group_cfs_rq_load_avg now p c s).1.
Proof.
  unfold group_cfs_rq_load_avg. cbv zeta. set (s1 := if negb (gl_removed_load _ =? 0) then _ else s). set (s2 := if negb (gl_removed_util _ =? 0) then _ else s1).
  assert (H1 : contrib_kept s s1) by (unfold s1; keep_contrib).
  assert (H2 : contrib_kept s s2) by (unfold s2; keep_contrib). clearbody s2.
  destruct (___update_load_avg _ _ _ _ _ _) as [[sa r] d]. destruct (default (0, 0) r) as [rs ra]. cbn [fst]. keep_contrib.
Qed.

(** ** The sum *)

Context (cpus : list Z) (Hcpus : NoDup cpus).

Definition contrib_sum (s : share_state) : Prop :=
  forall g, u64 (sh_load_avg (sh_tg s g)) = u64 (sum_of (fun c => gl_contrib (gl s g c)) cpus).

Lemma sum_kept s s' : contrib_kept s s' -> contrib_sum s -> contrib_sum s'.
Proof.
  intros Hk Hs g. destruct (Hk g) as [-> Hc]. rewrite Hs. f_equal. apply sum_of_ext. intros c _. by rewrite Hc.
Qed.

Lemma sum_update_tg g c force s : c ∈ cpus -> contrib_sum s -> contrib_sum (update_tg_load_avg g c force s).
Proof.
  intros Hc Hs. unfold update_tg_load_avg. cbv zeta. destruct (g =? _); [done|]. destruct (_ || _); [|done].
  set (d := s64 _). set (s1 := upd_tg g _ s).
  assert (E1 : forall e, gl s1 e = gl s e) by (intros e; unfold gl, s1; rewrite sh_tg_upd; by destruct (decide (g = e)) as [<-|]).
  intros e. rewrite sh_load_avg_gl. unfold s1 at 1. rewrite sh_tg_upd. destruct (decide (g = e)) as [<-|Hne].
  - cbn -[gl upd_gl]. rewrite u64_s64, <- u64_add_l, Hs, u64_add_l.
    match goal with |- _ = u64 (sum_of ?f _) => rewrite (sum_of_upd (fun c => gl_contrib (gl s g c)) f cpus c Hcpus Hc) end.
    + cbv beta. rewrite gl_upd, decide_True, E1 by done. cbn -[gl].
      unfold d. set (a := load_avg _). set (k := gl_contrib _). set (t := sum_of _ _).
      rewrite <- (u64_add_r t), u64_s64, u64_add_r. f_equal. lia.
    + intros y Hy. cbv beta. rewrite gl_upd, decide_False, E1 by naive_solver. done.
  - rewrite Hs. f_equal. apply sum_of_ext. intros y _. rewrite gl_upd, decide_False, E1 by naive_solver. done.
Qed.

Lemma sum_update_load p g c flags s : c ∈ cpus -> contrib_sum s -> contrib_sum (group_update_load_avg p g c flags s).
Proof.
  intros Hc Hs. unfold group_update_load_avg. cbv zeta. set (s1 := if _ && _ then _ else s).
  assert (H1 : contrib_kept s s1) by (unfold s1; keep_contrib). clearbody s1.
  pose proof (contrib_cfs_rq (cfs_rq_clock_task p c (sh_bw s)) p c s1) as H2.
  destruct (group_cfs_rq_load_avg _ _ _ _) as [s2 decayed]. cbn in H2.
  pose proof (contrib_propagate p g c s2) as H3. destruct (propagate_entity_load_avg _ _ _ _) as [s3 due]. cbn in H3.
  assert (Hs3 : contrib_sum s3) by (apply (sum_kept s); [|done]; by transitivity s1; [|transitivity s2]).
  destruct (_ && _); [by apply sum_update_tg|done].
Qed.

Lemma sum_walk n g c s : c ∈ cpus -> contrib_sum s -> contrib_sum (shares_walk n g c s).
Proof.
  intros Hc. revert g s. induction n as [|n IH]; intros g s Hs; cbn; destruct (tg_parent _) as [p|]; try done.
  apply IH. eapply sum_kept; [apply contrib_shares|]. by apply sum_update_load.
Qed.

Lemma sum_set_shares g shares s :
  (forall c, c ∈ for_each_cpu (bw_k (sh_bw s)) (cpu_possible_mask (bw_k (sh_bw s))) -> c ∈ cpus) ->
  contrib_sum s -> contrib_sum (sched_group_set_shares g shares s).1.
Proof.
  intros Hp Hs. unfold sched_group_set_shares. destruct (tg_parent _); [|done]. cbv zeta. destruct (_ =? _); [done|]. cbn [fst].
  set (s1 := upd_tg g _ s). change (bw_k (sh_bw s1)) with (bw_k (sh_bw s)).
  assert (Hs1 : contrib_sum s1).
  { apply (sum_kept s); [|done]. intros e. unfold gl, s1. rewrite sh_tg_upd. by destruct (decide (g = e)) as [<-|]. }
  revert Hp. generalize s1 Hs1. clear -Hcpus. induction (for_each_cpu _ _) as [|c l IH]; intros s1 Hs1 Hp; [done|]. cbn [foldl].
  apply IH; [|intros d Hd; apply Hp; set_solver]. apply sum_walk; [apply Hp; set_solver|]. by apply (sum_kept s1).
Qed.

(** ** Loads *)

(** The contribution of a CPU is up to date: its load is above it by at most one
    part in 64, which is when [update_tg_load_avg] leaves it alone. *)
Definition contrib_close (g c : Z) (s : share_state) : Prop :=
  let q := gl s g c in 0 <= load_avg (gl_avg q) <= gl_contrib q + gl_contrib q / 64.

Lemma update_tg_close g c force s :
  g <> root_task_group -> 0 <= load_avg (gl_avg (gl s g c)) < 2 ^ 62 -> 0 <= gl_contrib (gl s g c) < 2 ^ 62 ->
  contrib_close g c (update_tg_load_avg g c force s).
Proof.
  intros Hg Ha Hk. unfold update_tg_load_avg. cbv zeta. replace (g =? root_task_group) with false by (symmetry; by apply Z.eqb_neq).
  rewrite s64_id by lia. destruct (_ || _) eqn:E; unfold contrib_close; cbv zeta.
  - rewrite gl_upd, decide_True by done. unfold gl, upd_tg. cbn. rewrite fn_lookup_alter. cbn. fold (gl s g c).
    pose proof (Z.div_pos (load_avg (gl_avg (gl s g c))) 64). lia.
  - apply orb_false_iff in E as [_ E]. apply Z.ltb_ge in E. lia.
Qed.

(** One CPU's part, in the common denominator. *)
Lemma entity_load_part a k S N x :
  0 <= a -> 64 * a <= 65 * k -> 0 <= k < N -> 0 <= S -> 0 <= x -> x * (N - k + a) <= a * S -> x * (64 * N) <= 65 * S * k.
Proof.
  intros Ha Hak Hk HS Hx Hle. assert (Ht : 0 < N - k + a) by lia.
  assert (H1 : 64 * a * N <= 65 * k * (N - k + a)).
  { destruct (Z_le_gt_dec (64 * N) (65 * k)); [nia|]. assert (0 <= (65 * k - 64 * a) * (64 * N - 65 * k)) by nia. nia. }
  assert (H2 : x * (64 * N) * (N - k + a) <= 65 * S * k * (N - k + a)) by nia.
  by apply Z.mul_le_mono_pos_r in H2.
Qed.

(** What a CPU knows of its group: contributions and loads in range and close. *)
Definition loads_known (g : Z) (s : share_state) : Prop :=
  0 <= scale_load_down (sh_shares (sh_tg s g)) <= MAX_SHARES /\ 0 <= sh_load_avg (sh_tg s g) < 2 ^ 40 /\
  (forall c, c ∈ cpus -> 0 <= gl_contrib (gl s g c) /\ contrib_close g c s) /\
  sum_of (fun c => gl_contrib (gl s g c)) cpus < 2 ^ 64.

Lemma known_sum g s : contrib_sum s -> loads_known g s -> sh_load_avg (sh_tg s g) = sum_of (fun c => gl_contrib (gl s g c)) cpus.
Proof.
  intros Hs (_ & Hl & Hc & Hr). specialize (Hs g).
  assert (0 <= sum_of (fun c => gl_contrib (gl s g c)) cpus) by (apply sum_of_nonneg; intros c Hin; by apply Hc).
  by rewrite !u64_id in Hs by lia.
Qed.

(** The load given to the entity of one CPU, against the sum of all. *)
Lemma entity_load_bound g c s :
  contrib_sum s -> loads_known g s -> c ∈ cpus ->
  let S := scale_load_down (sh_shares (sh_tg s g)) in let x := group_entity_load g c s in
  0 <= x < 2 ^ 63 /\ x * (64 * (sh_load_avg (sh_tg s g) + 1)) <= 65 * S * gl_contrib (gl s g c).
Proof.
  intros Hs Hk Hin S x. pose proof (known_sum g s Hs Hk) as Esum. destruct Hk as (HS & Hl & Hc & _).
  pose proof (sum_of_le (fun c => gl_contrib (gl s g c)) cpus c ltac:(intros; by apply Hc) Hin) as Hle. cbv beta in Hle.
  destruct (Hc c Hin) as [Hk0 Hclose]. unfold contrib_close in Hclose. cbv zeta in Hclose. unfold x, group_entity_load. cbv zeta.
  fold S. fold S in HS. set (a := load_avg _) in *. set (k := gl_contrib _) in *. set (L := sh_load_avg _) in *. clearbody a k L S.
  unfold MAX_SHARES in HS. assert (Ha : 64 * a <= 65 * k) by (pose proof (Z.mul_div_le k 64); lia).
  rewrite !(s64_id a) by lia. destruct (Z.eqb_spec a 0) as [->|Ha0]; [nia|].
  rewrite !(s64_id (L + 1)), !(s64_id (L + 1 - k)), !(s64_id (L + 1 - k + a)) by lia. rewrite (u64_id (L + 1 - k + a)) by lia.
  assert (Hx : forall y, 0 <= y <= a * S \/ 0 <= y <= a -> y * (L + 1 - k + a) <= a * S -> 0 <= y < 2 ^ 63 /\ y * (64 * (L + 1)) <= 65 * S * k).
  { intros y Hy Hm. assert (a * S <= 2 ^ 41 * 2 ^ 18) by (apply Z.mul_le_mono_nonneg; lia). split; [lia|].
    apply (entity_load_part a); lia. }
  destruct (Z.ltb_spec S (L + 1 - k + a)) as [Hlt|Hge].
  - assert (Hr : 0 <= a * S <= 2 ^ 41 * 2 ^ 18) by nia. rewrite u64_id, s64_id by lia.
    rewrite Z.quot_div_nonneg by lia. pose proof (Z.mul_div_le (a * S) (L + 1 - k + a) ltac:(lia)).
    pose proof (Z.div_pos (a * S) (L + 1 - k + a) ltac:(lia) ltac:(lia)). apply Hx; nia.
  - apply Hx; [lia|nia].
Qed.

Lemma update_tg_cfs_load_sets p g c s :
  p <> g -> 0 <= load_avg (gl_se_avg (gl s g c)) < 2 ^ 63 -> 0 <= group_entity_load g c s < 2 ^ 63 ->
  load_avg (gl_se_avg (gl (update_tg_cfs_load p g c s) g c)) = group_entity_load g c s.
Proof.
  intros Hp Hl Hx. unfold update_tg_cfs_load. cbv zeta. rewrite (s64_id (group_entity_load g c s - _)) by lia.
  destruct (Z.eqb_spec (group_entity_load g c s - load_avg (gl_se_avg (gl s g c))) 0) as [E|E]; [lia|].
  rewrite (u64_id (group_entity_load g c s)) by lia.
  destruct (gse_on_rq _); rewrite !gl_upd; repeat (rewrite decide_False by (intros [? _]; congruence)); by rewrite decide_True.
Qed.

End Contributions.

(** ** Theorems *)

(** C26: When the contributions of all CPUs are up to date, updating the entity
    of a group on a CPU gives it a load such that the loads of all entities of
    the group together exceed its shares by at most one part in 64. *)
Theorem group_loads_near_shares `{PeltTable} `{BwEnv} cpus g p s :
  contrib_sum cpus s -> loads_known cpus g s -> p <> g ->
  (forall c, c ∈ cpus -> 0 <= load_avg (gl_se_avg (gl s g c)) < 2 ^ 63) ->
  64 * sum_of (fun c => load_avg (gl_se_avg (gl (update_tg_cfs_load p g c s) g c))) cpus <=
  65 * scale_load_down (sh_shares (sh_tg s g)).
Proof.
  intros Hs Hk Hp Hse. pose proof (known_sum cpus g s Hs Hk) as Esum.
  pose proof (fun c => entity_load_bound cpus g c s Hs Hk) as Hb. cbv zeta in Hb.
  assert (HL : 0 <= sh_load_avg (sh_tg s g)) by (by destruct Hk as (_ & [? _] & _)).
  assert (HS : 0 <= scale_load_down (sh_shares (sh_tg s g))) by (by destruct Hk as ([? _] & _)).
  rewrite (sum_of_ext _ (fun c => group_entity_load g c s)).
  2: { intros c Hc. apply update_tg_cfs_load_sets; [done|by apply Hse|by apply Hb]. }
  set (S := scale_load_down _) in *. set (L := sh_load_avg _) in *.
  assert (Hm : (64 * (L + 1)) * sum_of (fun c => group_entity_load g c s) cpus <= 65 * S * sum_of (fun c => gl_contrib (gl s g c)) cpus).
  { rewrite <- !sum_of_scale. apply sum_of_mono. intros c Hc. destruct (Hb c Hc) as [_ Hle]. lia. }
  rewrite <- Esum in Hm. apply (Zmult_le_reg_r _ _ (L + 1)); [lia|]. nia.
Qed.

(** ** Witnesses *)

#[local] Instance demo_share_env : BwEnv :=
  {| sysctl_sched_cfs_bandwidth_slice := 5000; TICK_NSEC := 4000000; tg_levels := 3;
     hrtimer_callback_running := fun _ _ => false; hrtimer_expires_remaining := fun _ _ => 50000000;
     bw_others := fun s => s |}.

(** Two CPUs, one group of 1024 shares, each CPU with a load above what it has
    contributed by less than one part in 64. *)
Definition demo_share_q : group_rq := mkGroupRq true 0 0 0 0 0 0 false 0 2 2 (scale_load 2048) false true 1024.
Definition demo_share_b : cfs_bandwidth := init_cfs_bandwidth (mkCfsB 0 0 0 (-1) 0 0 false false [] 0 0 0 false).
Definition demo_avg (l : Z) : sched_avg := mkAvg 0 0 0 0 l 0.
Definition demo_load : group_load := mkGroupLoad (demo_avg 6500) 0 0 6400 true 0 0 (demo_avg 0) false.
Definition demo_share : share_state :=
  mkShare (mkBw (demo_kernel fair_sched_class SCHED_NORMAL 120)
    (fun g => if g =? 0 then mkTg None [1] demo_share_b (fun _ => demo_share_q)
              else mkTg (Some 0) [] demo_share_b (fun _ => demo_share_q)) [0; 1] 1 [])
    (fun g => mkShareGroup (scale_load 1024) 12800 (fun _ => demo_load)).

(** The loads of the two entities, 515 each, are together above the shares. *)
Example group_loads_above_shares :
  sum_of (fun c => load_avg (gl_se_avg (gl (update_tg_cfs_load 0 1 c demo_share) 1 c))) [0; 1] = 1030 /\
  scale_load_down (sh_shares (sh_tg demo_share 1)) = 1024.
Proof. by vm_compute. Qed.

Lemma demo_share_sum : contrib_sum [0; 1] demo_share.
Proof. intros g. by vm_compute. Qed.

Lemma group_loads_near_shares_witness :
  loads_known [0; 1] 1 demo_share /\
  64 * sum_of (fun c => load_avg (gl_se_avg (gl (update_tg_cfs_load 0 1 c demo_share) 1 c))) [0; 1] <= 65 * 1024.
Proof.
  assert (Hk : loads_known [0; 1] 1 demo_share).
  { repeat split; try (by vm_compute). all: by intros; vm_compute. }
  split; [exact Hk|]. apply (group_loads_near_shares [0; 1] 1 0 demo_share demo_share_sum Hk); [done|]. intros c _. by vm_compute.
Defined.
