(* ===== verification/FairHload.v ===== *)
(** * Hierarchical load (fair.c)

    The load of a task seen from the top of the tree of task groups: at every
    level the load of the queue is split among its entities.  The code computes
    it once per jiffy and keeps it in the queues: it walks up to the first queue
    that is up to date, leaving in every queue the entity it came from, and walks
    down again along these entities.

    The state extends that of [FairShares] by what a queue keeps for this.  The
    theorem: the two walks compute the recursive definition of the load, and
    change the load of no other queue. *)

From S2P Require Import Prelude SchedTypes Core Wrr CorePolicy RtBandwidth FairMath FairPelt FairQueue FairBandwidth FairShares.

Record h_queue := mkHq {
  h_load : Z;
  last_h_load_update : Z;
  h_load_next : option Z }.    (* the group whose entity is next *)
#[export] Instance eta_h_queue : Settable h_queue :=
  fun r => mkHq (h_load r) (last_h_load_update r) (h_load_next r).

(** The queues of the groups on one CPU. *)
Record h_state := mkH { h_share : share_state; h_rq : Z -> h_queue }.
#[export] Instance eta_h_state : Settable h_state := fun r => mkH (h_share r) (h_rq r).

Definition upd_h (g : Z) (f : h_queue -> h_queue) (s : h_state) : h_state := s <| h_rq ::= alter f g |>.
Definition h_parent (s : h_state) (g : Z) : option Z := tg_parent (tgs (sh_bw (h_share s)) g).
Definition h_now (s : h_state) : Z := jiffies (bw_k (sh_bw (h_share s))).

Section Hload.
Context `{BwEnv} (c : Z).

Definition group_rq_load_avg (s : h_state) (g : Z) : Z := load_avg (gl_avg (gl (h_share s) g c)).
Definition se_load_avg (s : h_state) (g : Z) : Z := load_avg (gl_se_avg (gl (h_share s) g c)).
(** The part of the load [x] of the queue of [p] that a load [l] on it has. *)
Definition load_part (s : h_state) (p x l : Z) : Z := u64 (x * l) / u64 (group_rq_load_avg s p + 1).

(** [for_each_sched_entity]: the queue where the loop stops and whether it went
    past the root. *)
Fixpoint h_load_up (n : nat) (g : Z) (s : h_state) : h_state * Z * bool :=
  match n, h_parent s g with
  | _, None => (s, g, true)
  | O, _ => (s, g, false)
  | S n, Some p =>
      let s := upd_h p (fun q => q <| h_load_next := Some g |>) s in
      if last_h_load_update (h_rq s p) =? h_now s then (s, p, false) else h_load_up n p s
  end.

(** The loop along [h_load_next]. *)
Fixpoint h_load_down (n : nat) (g : Z) (s : h_state) : h_state :=
  match n, h_load_next (h_rq s g) with
  | S n, Some e =>
      let load := load_part s g (h_load (h_rq s g)) (se_load_avg s e) in
      h_load_down n e (upd_h e (fun q => q <| h_load := load |> <| last_h_load_update := h_now s |>) s)
  | _, _ => s
  end.

Definition update_cfs_rq_h_load (g : Z) (s : h_state) : h_state :=
  if last_h_load_update (h_rq s g) =? h_now s then s
  else
    let s := upd_h g (fun q => q <| h_load_next := None |>) s in
    let '(s, top, root) := h_load_up tg_levels g s in
    let s := if root then upd_h top (fun q => q <| h_load := group_rq_load_avg s top |> <| last_h_load_update := h_now s |>) s
             else s in
    h_load_down tg_levels top s.

(** A task of the group [g] whose own load is [load]. *)
Definition group_task_h_load (g load : Z) (s : h_state) : h_state * Z :=
  let s := update_cfs_rq_h_load g s in
  (s, u64 (load * h_load (h_rq s g)) / u64 (group_rq_load_avg s g + 1)).

(** ** What it is to compute *)

Fixpoint hier_load (n : nat) (s : h_state) (g : Z) : Z :=
  match n, h_parent s g with
  | S n, Some p => load_part s p (hier_load n s p) (se_load_avg s g)
  | _, _ => group_rq_load_avg s g
  end.

(** With what the queues already have for this jiffy. *)
Fixpoint kept_load (n : nat) (s : h_state) (g : Z) : Z :=
  if last_h_load_update (h_rq s g) =? h_now s then h_load (h_rq s g)
  else match n, h_parent s g with
       | S n, Some p => load_part s p (kept_load n s p) (se_load_avg s g)
       | _, _ => group_rq_load_avg s g
       end.

(** The levels of the tree; [tg_levels] of them are enough. *)
Definition leveled (lvl : Z -> nat) (s : h_state) : Prop :=
  forall g, (lvl g <= tg_levels)%nat /\
            match h_parent s g with Some p => lvl g = S (lvl p) | None => lvl g = 0%nat end.

(** The loads in the queues are those of this moment. *)
Definition loads_current (lvl : Z -> nat) (s : h_state) : Prop :=
  forall g, last_h_load_update (h_rq s g) = h_now s -> h_load (h_rq s g) = hier_load (lvl g) s g.

Lemma h_rq_upd g f s e : h_rq (upd_h g f s) e = if decide (g = e) then f (h_rq s g) else h_rq s e.
Proof. unfold upd_h. cbn. destruct (decide (g = e)) as [<-|]; [by rewrite fn_lookup_alter|by rewrite fn_lookup_alter_ne]. Qed.

(** The same tree, loads and kept values; only the entities to go along differ. *)
Definition same_loads (s s' : h_state) : Prop :=
  h_share s' = h_share s /\
  forall e, h_load (h_rq s' e) = h_load (h_rq s e) /\ last_h_load_update (h_rq s' e) = last_h_load_update (h_rq s e).
#[export] Instance same_loads_preorder : PreOrder same_loads.
Proof.
  split; [done|]. intros a b d [E1 H1] [E2 H2]. split; [congruence|]. intros e. destruct (H1 e), (H2 e). split; congruence.
Qed.
Lemma same_next g x s : same_loads s (upd_h g (fun q => q <| h_load_next := x |>) s).
Proof. split; [done|]. intros e. rewrite h_rq_upd. by destruct (decide (g = e)) as [<-|]. Qed.

Lemma same_parts s s' :
  h_share s' = h_share s -> h_now s' = h_now s /\ (forall g, h_parent s' g = h_parent s g) /\
    (forall g, group_rq_load_avg s' g = group_rq_load_avg s g) /\ (forall g, se_load_avg s' g = se_load_avg s g) /\
    (forall p x l, load_part s' p x l = load_part s p x l).
Proof. intros E. unfold h_now, h_parent, load_part, group_rq_load_avg, se_load_avg. rewrite E. done. Qed.

(** The loads that the queues have do not depend on the entities to go along. *)
Lemma kept_load_same n s s' g : same_loads s s' -> kept_load n s' g = kept_load n s g.
Proof.
  intros [Es He]. destruct (same_parts s s' Es) as (En & Ep & El & Ese & Ed). revert g.
  induction n as [|n IH]; intros g; cbn; destruct (He g) as [-> ->]; rewrite En, ?Ep, ?El, ?Ese; destruct (_ =? _); try done.
  destruct (h_parent s g); [|done]. by rewrite Ed, IH.
Qed.

(** ** Walking up *)

(** From [t] down to [g] along the entities. *)
Fixpoint leads_to (s : h_state) (t : Z) (l : list Z) : Prop :=
  match l with
  | [] => h_load_next (h_rq s t) = None
  | e :: l => h_load_next (h_rq s t) = Some e /\ h_parent s e = Some t /\ leads_to s e l
  end.

Lemma leads_upd p x s t l :
  p <> t -> p ∉ l -> leads_to s t l -> leads_to (upd_h p (fun q => q <| h_load_next := x |>) s) t l.
Proof.
  revert t. induction l as [|e l IH]; intros t Ht Hl; cbn [leads_to]; rewrite h_rq_upd, decide_False by done; [done|].
  intros (H1 & H2 & H3). split_and!; [done|done|]. apply IH; [set_solver|set_solver|done].
Qed.

Lemma leads_ext s s' t l :
  (forall g, h_parent s' g = h_parent s g) -> (forall g, h_load_next (h_rq s' g) = h_load_next (h_rq s g)) ->
  leads_to s t l -> leads_to s' t l.
Proof.
  intros Hp Hn. revert t. induction l as [|e l IH]; intros t; cbn [leads_to]; rewrite Hn; [done|].
  intros (? & ? & ?). split_and!; [done|by rewrite Hp|by apply IH].
Qed.
Lemma leads_lower lvl s t l : leveled lvl s -> leads_to s t l -> NoDup l /\ forall e, e ∈ l -> (lvl t < lvl e)%nat.
Proof.
  intros Hlvl. revert t. induction l as [|e l IH]; intros t; cbn [leads_to]; [intros _; split; [constructor|set_solver]|].
  intros (_ & Hp & Hl). destruct (IH e Hl) as [Hnd Hlt]. pose proof (proj2 (Hlvl e)) as E. rewrite Hp in E. split.
  - constructor; [|done]. intros Hin. specialize (Hlt e Hin). lia.
  - intros d [->|Hd]%elem_of_cons; [lia|]. specialize (Hlt d Hd). lia.
Qed.

Lemma walk_up lvl n g l s :
  leveled lvl s -> (lvl g <= n)%nat -> leads_to s g l -> (length l + lvl g <= tg_levels)%nat ->
  (forall e, e ∈ g :: l -> last_h_load_update (h_rq s e) <> h_now s) ->
  let '(s', t, root) := h_load_up n g s in
  exists l', same_loads s s' /\ leads_to s' t (l' ++ l) /\ (length (l' ++ l) <= tg_levels)%nat /\ last (t :: l') = Some g /\
    (forall e, e ∈ l' ++ l -> last_h_load_update (h_rq s e) <> h_now s) /\
    if root then h_parent s t = None /\ last_h_load_update (h_rq s t) <> h_now s else last_h_load_update (h_rq s t) = h_now s.
Proof.
  revert g l s. induction n as [|n IH]; intros g l s Hlvl Hn Hl Hlen Hun; cbn [h_load_up];
    pose proof (proj2 (Hlvl g)) as Hp; destruct (h_parent s g) as [p|] eqn:Ep; try lia;
    try (exists []; split_and!; [reflexivity|done|cbn; lia|done|set_solver|done|apply Hun; by left]).
  set (s1 := upd_h p _ s). change (h_now s1) with (h_now s).
  assert (Hs1 : same_loads s s1) by apply same_next. destruct (proj2 Hs1 p) as [_ Em]. rewrite Em.
  assert (Hl1 : leads_to s1 p (g :: l)).
  { cbn [leads_to]. unfold s1 at 1. rewrite h_rq_upd, decide_True by done. split_and!; [done|done|].
    apply leads_upd; [intros ->; lia| |done]. intros Hin. pose proof (proj2 (leads_lower lvl s g l Hlvl Hl) p Hin). lia. }
  destruct (Z.eqb_spec (last_h_load_update (h_rq s p)) (h_now s)) as [E|E].
  - exists [g]. split_and!; [done|done|cbn; lia|done|done|done].
  - specialize (IH p (g :: l) s1). destruct (h_load_up n p s1) as [[s' t] root].
    destruct IH as (l' & H1 & H2 & H3 & H4 & H5 & H6); [exact Hlvl|lia|done|cbn; lia| |].
    { intros e He. rewrite (proj2 (proj2 Hs1 e)). apply elem_of_cons in He as [->|He]; [done|by apply Hun]. }
    exists (l' ++ [g]). rewrite <- app_assoc. split_and!; [by transitivity s1|done|done| | |].
    + by rewrite app_comm_cons, last_snoc.
    + intros e He. rewrite <- (proj2 (proj2 Hs1 e)). by apply H5.
    + rewrite (proj2 (proj2 Hs1 t)) in H6. by destruct root.
Qed.

(** ** Walking down *)

Lemma kept_load_down lvl p e s :
  leveled lvl s -> h_parent s e = Some p -> last_h_load_update (h_rq s p) = h_now s ->
  last_h_load_update (h_rq s e) <> h_now s ->
  kept_load (lvl e) s e = load_part s p (h_load (h_rq s p)) (se_load_avg s e).
Proof.
  intros Hlvl Hp Hl He. pose proof (proj2 (Hlvl e)) as E. rewrite Hp in E. rewrite E. cbn [kept_load].
  apply Z.eqb_neq in He as ->. rewrite Hp. f_equal. apply Z.eqb_eq in Hl. destruct (lvl p); cbn [kept_load]; by rewrite Hl.
Qed.

(** A queue that gets the load it is to have changes the load of no queue. *)
Lemma mark_kept lvl e s :
  leveled lvl s ->
  let s' := upd_h e (fun q => q <| h_load := kept_load (lvl e) s e |> <| last_h_load_update := h_now s |>) s in
  forall d, kept_load (lvl d) s' d = kept_load (lvl d) s d.
Proof.
  intros Hlvl s' d. remember (lvl d) as n eqn:En. symmetry in En. revert d En.
  induction n as [|n IH]; intros d En; cbn [kept_load]; change (h_now s') with (h_now s); unfold s' at 1 2; rewrite !h_rq_upd;
    (destruct (decide (e = d)) as [<-|Hne]; [rewrite En; cbn -[kept_load]; by rewrite Z.eqb_refl|]).
  - by destruct (_ =? _).
  - change (h_parent s' d) with (h_parent s d). destruct (_ =? _); [done|].
    pose proof (proj2 (Hlvl d)) as Hp. destruct (h_parent s d) as [p|]; [|done]. rewrite IH; [done|lia].
Qed.

Lemma walk_down lvl n t l g s :
  leveled lvl s -> leads_to s t l -> (length l <= n)%nat -> last (t :: l) = Some g ->
  last_h_load_update (h_rq s t) = h_now s -> (forall e, e ∈ l -> last_h_load_update (h_rq s e) <> h_now s) ->
  let s' := h_load_down n t s in
  h_share s' = h_share s /\ last_h_load_update (h_rq s' g) = h_now s /\
  forall d, kept_load (lvl d) s' d = kept_load (lvl d) s d.
Proof.
  revert t l s. induction n as [|n IH]; intros t l s Hlvl Hl Hn Hlast Ht Hun; destruct l as [|e l]; cbn in Hn; try lia;
    cbn [h_load_down leads_to] in *; try (injection Hlast as ->; rewrite ?Hl; by split_and!).
  pose proof (proj1 (leads_lower lvl s t (e :: l) Hlvl Hl)) as Hnd. destruct Hl as (Hnext & Hp & Hl). rewrite Hnext. cbv zeta.
  assert (He : last_h_load_update (h_rq s e) <> h_now s) by (apply Hun; by left). apply NoDup_cons in Hnd as [Hel Hnd].
  rewrite <- (kept_load_down lvl t e s Hlvl Hp Ht He). set (s1 := upd_h e _ s).
  destruct (IH e l s1) as (H1 & H2 & H3); [exact Hlvl| |lia|by rewrite <- Hlast| | |].
  - apply (leads_ext s); [done| |done]. intros d. unfold s1. rewrite h_rq_upd. by destruct (decide (e = d)) as [<-|].
  - unfold s1. by rewrite h_rq_upd, decide_True.
  - intros d Hd. unfold s1. rewrite h_rq_upd, decide_False by (intros ->; done). apply Hun. by right.
  - split_and!; [done|done|]. intros d. rewrite H3. apply (mark_kept lvl e s Hlvl d).
Qed.

(** ** The whole update *)

Lemma update_marks lvl g s :
  leveled lvl s ->
  let s' := update_cfs_rq_h_load g s in
  h_share s' = h_share s /\ last_h_load_update (h_rq s' g) = h_now s /\
  forall d, kept_load (lvl d) s' d = kept_load (lvl d) s d.
Proof.
  intros Hlvl. unfold update_cfs_rq_h_load. cbv zeta. destruct (Z.eqb_spec (last_h_load_update (h_rq s g)) (h_now s)) as [E|E]; [done|].
  set (s0 := upd_h g _ s). assert (Hs0 : same_loads s s0) by apply same_next.
  pose proof (walk_up lvl tg_levels g [] s0 Hlvl (proj1 (Hlvl g))) as Hup.
  destruct (h_load_up tg_levels g s0) as [[s1 t] root]. destruct Hup as (l & Hs1 & Hl & Hlen & Hlast & Hun & Hroot).
  { unfold s0. cbn. by rewrite fn_lookup_alter. } { cbn. apply Hlvl. }
  { intros e ->%list_elem_of_singleton. by rewrite (proj2 (proj2 Hs0 g)). }
  rewrite app_nil_r in *. assert (H01 : same_loads s s1) by (by transitivity s0). destruct (same_parts s s1 (proj1 H01)) as (En & Ep & _).
  assert (Hlvl1 : leveled lvl s1) by (intros e; rewrite Ep; apply Hlvl).
  assert (Hun1 : forall e, e ∈ l -> last_h_load_update (h_rq s1 e) <> h_now s1).
  { intros e He. rewrite (proj2 (proj2 Hs1 e)), En. by apply Hun. }
  assert (Hmark : forall s2, h_share s2 = h_share s1 -> (forall e, h_load_next (h_rq s2 e) = h_load_next (h_rq s1 e)) ->
    last_h_load_update (h_rq s2 t) = h_now s1 -> (forall e, e ∈ l -> last_h_load_update (h_rq s2 e) = last_h_load_update (h_rq s1 e)) ->
    (forall d, kept_load (lvl d) s2 d = kept_load (lvl d) s1 d) ->
    h_share (h_load_down tg_levels t s2) = h_share s /\ last_h_load_update (h_rq (h_load_down tg_levels t s2) g) = h_now s /\
    forall d, kept_load (lvl d) (h_load_down tg_levels t s2) d = kept_load (lvl d) s d).
  { intros s2 Eh Enx Et Eun Ek. destruct (same_parts s1 s2 Eh) as (En2 & Ep2 & _).
    destruct (walk_down lvl tg_levels t l g s2) as (F1 & F2 & F3).
    - intros e. rewrite Ep2. apply Hlvl1.
    - by apply (leads_ext s1).
    - done.
    - done.
    - congruence.
    - intros e He. rewrite Eun, En2 by done. by apply Hun1.
    - split_and!; [rewrite F1, Eh; apply H01|congruence|]. intros d. rewrite F3, Ek. by apply kept_load_same. }
  destruct root; apply Hmark; try done.
  - intros e. rewrite h_rq_upd. by destruct (decide (t = e)) as [<-|].
  - by rewrite h_rq_upd, decide_True.
  - intros e He. rewrite h_rq_upd, decide_False; [done|]. intros <-.
    pose proof (proj2 (leads_lower lvl s1 t l Hlvl1 Hl) t He). lia.
  - intros d. assert (Hp1 : h_parent s1 t = None) by (rewrite Ep; apply Hroot). pose proof (mark_kept lvl t s1 Hlvl1 d) as Hk.
    pose proof (proj2 (Hlvl1 t)) as Ht. rewrite Hp1 in Ht.
    replace (kept_load (lvl t) s1 t) with (group_rq_load_avg s1 t) in Hk; [exact Hk|].
    destruct Hroot as [_ Em]. change (h_now s0) with (h_now s) in Em. rewrite Ht. cbn [kept_load]. rewrite (proj2 (proj2 Hs1 t)), En. by apply Z.eqb_neq in Em as ->.
  - rewrite (proj2 (proj2 Hs1 t)), En. exact Hroot.
Qed.
End Hload.

(** ** Theorems *)

Lemma current_kept `{BwEnv} c lvl s : leveled lvl s -> loads_current c lvl s -> forall g, kept_load c (lvl g) s g = hier_load c (lvl g) s g.
Proof.
  intros Hlvl Hc g. remember (lvl g) as n eqn:En. symmetry in En. revert g En.
  induction n as [|n IH]; intros g En; cbn [kept_load hier_load];
    (destruct (Z.eqb_spec (last_h_load_update (h_rq s g)) (h_now s)) as [E|E]; [rewrite (Hc g E), En; reflexivity|]); [done|].
  pose proof (proj2 (Hlvl g)) as Hp. destruct (h_parent s g) as [p|]; [|done]. rewrite IH; [done|lia].
Qed.

Lemma hier_load_share c n s s' g : h_share s' = h_share s -> hier_load c n s' g = hier_load c n s g.
Proof.
  intros E. destruct (same_parts c s s' E) as (_ & Ep & El & Ese & Ed). revert g.
  induction n as [|n IH]; intros g; cbn [hier_load]; [done|]. rewrite Ep, El, Ese. destruct (h_parent s g); [|done]. by rewrite Ed, IH.
Qed.

(** C25: The two walks over the tree compute the recursive hierarchical load of
    the queue; every queue that has a value for this jiffy keeps having the right
    one, and the load of the task is its part of it. *)
Theorem task_h_load_hierarchical `{BwEnv} c lvl g load s :
  leveled lvl s -> loads_current c lvl s ->
  let '(s', x) := group_task_h_load c g load s in
  x = load_part c s g load (hier_load c (lvl g) s g) /\
  h_load (h_rq s' g) = hier_load c (lvl g) s g /\ last_h_load_update (h_rq s' g) = h_now s /\
  loads_current c lvl s' /\ h_share s' = h_share s.
Proof.
  intros Hlvl Hc. unfold group_task_h_load. cbv zeta. destruct (update_marks c lvl g s Hlvl) as (Es & Em & Ek).
  set (s' := update_cfs_rq_h_load c g s) in *. destruct (same_parts c s s' Es) as (En & Ep & El & Ese & Ed).
  assert (Hv : forall e, last_h_load_update (h_rq s' e) = h_now s' -> h_load (h_rq s' e) = hier_load c (lvl e) s e).
  { intros e Ee. rewrite <- (current_kept c lvl s Hlvl Hc e), <- Ek. apply Z.eqb_eq in Ee. destruct (lvl e); cbn [kept_load]; by rewrite Ee. }
  rewrite (Hv g) by congruence. split_and!; [|done|done| |done].
  - unfold load_part. by rewrite El.
  - intros e Ee. rewrite (hier_load_share c _ s s' e Es). by apply Hv.
Qed.

(** ** Witness *)

#[local] Instance demo_h_env : BwEnv :=
  {| sysctl_sched_cfs_bandwidth_slice := 5000; TICK_NSEC := 4000000; tg_levels := 3;
     hrtimer_callback_running := fun _ _ => false; hrtimer_expires_remaining := fun _ _ => 50000000;
     bw_others := fun s => s |}.

(** The group 2 in the group 1 in the root. *)
Definition demo_lvl (g : Z) : nat := if g =? 2 then 2%nat else if g =? 1 then 1%nat else 0%nat.
Definition demo_hload : h_state :=
  mkH (mkShare (mkBw (demo_kernel fair_sched_class SCHED_NORMAL 120)
        (fun g => mkTg (if g =? 2 then Some 1 else if g =? 1 then Some 0 else None) [] demo_share_b (fun _ => demo_share_q)) [0; 1; 2] 1 [])
        (fun g => mkShareGroup (scale_load 1024) 0 (fun _ =>
           mkGroupLoad (demo_avg (if g =? 2 then 799 else if g =? 1 then 1999 else 2999)) 0 0 0 false 0 0
             (demo_avg (if g =? 2 then 500 else 1000)) false)))
    (fun _ => mkHq 0 (-1) None).

Lemma task_h_load_hierarchical_witness :
  let '(s', x) := group_task_h_load 0 2 400 demo_hload in
  hier_load 0 2 demo_hload 2 = 249 /\ x = load_part 0 demo_hload 2 400 249 /\ x = 124 /\ h_load_next (h_rq s' 0) = Some 1.
Proof.
  assert (Hl : leveled demo_lvl demo_hload).
  { intros g. unfold demo_lvl, h_parent, demo_hload. cbn. destruct (g =? 2) eqn:E2; cbn; [split; [lia|done]|].
    destruct (g =? 1) eqn:E1; cbn; split; try lia; done. }
  assert (Hc : loads_current 0 demo_lvl demo_hload) by (intros g Hg; by vm_compute in Hg).
  pose proof (task_h_load_hierarchical 0 demo_lvl 2 400 demo_hload Hl Hc) as Ht.
  assert (E : hier_load 0 2 demo_hload 2 = 249) by (by vm_compute).
  assert (Er : (group_task_h_load 0 2 400 demo_hload).2 = 124 /\ h_load_next (h_rq (group_task_h_load 0 2 400 demo_hload).1 0) = Some 1) by (by vm_compute).
  destruct (group_task_h_load 0 2 400 demo_hload) as [s' x]. change (demo_lvl 2) with 2%nat in Ht. rewrite E in Ht. cbn in Er.
  destruct Ht as (Hx & _), Er as [Ex En]. split_and!; done.
Defined.
