(* ===== verification/FairLeaf.v ===== *)
(** * The list of the queues of task groups on a CPU (fair.c)

    The queues of the groups that have had an entity are on a list of their CPU,
    so that [update_blocked_averages] finds them and goes from the groups further
    down to those further up.  A queue is added when its first entity comes; as
    entities are enqueued from below, its parent may not be on the list yet, and
    [tmp_alone_branch] remembers where the parent is to be put.

    The theorems: as long as an enqueue does not stop at a throttled queue before
    its branch is connected, every queue is on the list before its parent; then
    one pass over the list brings every pending change of load to the root.  The
    examples show what happens otherwise. *)

From S2P Require Import Prelude SchedTypes Core Wrr CorePolicy RtBandwidth FairMath FairPelt FairQueue FairBandwidth FairShares.

Inductive entity := task_entity (p : Z) | group_entity (g : Z).
#[export] Instance entity_eq_dec : EqDecision entity.
Proof. solve_decision. Defined.

(** The queues of one CPU: the list, where the open branch ends ([None] is the
    head of the list), and what is enqueued on each. *)
Record leaf_state := mkLeaf {
  leaf_cfs_rq_list : list Z;
  tmp_alone_branch : option Z;
  on_list : Z -> bool;
  queued : Z -> list entity }.
#[export] Instance eta_leaf_state : Settable leaf_state :=
  fun r => mkLeaf (leaf_cfs_rq_list r) (tmp_alone_branch r) (on_list r) (queued r).

(** [list_add_tail_rcu] with a member of the list, [list_add_rcu] with one. *)
Fixpoint add_before (p g : Z) (l : list Z) : list Z :=
  match l with
  | [] => []
  | x :: l => if x =? p then g :: x :: l else x :: add_before p g l
  end.
Fixpoint add_after (p g : Z) (l : list Z) : list Z :=
  match l with
  | [] => []
  | x :: l => if x =? p then x :: g :: l else x :: add_after p g l
  end.

Section Leaf.
Context (parent : Z -> option Z).

(** [None]: the queue at which the branch ends is gone, and its memory with it. *)
Definition list_add_leaf_cfs_rq (g : Z) (s : leaf_state) : option leaf_state :=
  if on_list s g then Some s
  else
    s ← match parent g with
        | Some p =>
            if on_list s p
            then Some (s <| leaf_cfs_rq_list ::= add_before p g |> <| tmp_alone_branch := None |>)
            else match tmp_alone_branch s with
                 | None => Some (s <| leaf_cfs_rq_list ::= cons g |> <| tmp_alone_branch := Some g |>)
                 | Some a => if decide (a ∈ leaf_cfs_rq_list s)
                             then Some (s <| leaf_cfs_rq_list ::= add_after a g |> <| tmp_alone_branch := Some g |>)
                             else None
                 end
        | None => Some (s <| leaf_cfs_rq_list ::= fun l => l ++ [g] |> <| tmp_alone_branch := None |>)
        end;
    Some (s <| on_list ::= alter (fun _ => true) g |>).

Definition list_del_leaf_cfs_rq (g : Z) (s : leaf_state) : leaf_state :=
  if on_list s g then s <| leaf_cfs_rq_list ::= list_del g |> <| on_list ::= alter (fun _ => false) g |> else s.

(** The loops of [enqueue_task_fair] and [unthrottle_cfs_rq] that put an entity
    on the queue of [q]; which queues are throttled when they get there. *)
Fixpoint enqueue_leaves (n : nat) (throttled : Z -> bool) (e : entity) (q : Z) (s : leaf_state) : option leaf_state :=
  if decide (e ∈ queued s q) then Some s
  else
    let s := s <| queued ::= alter (cons e) q |> in
    s ← if decide (length (queued s q) = 1%nat) then list_add_leaf_cfs_rq q s else Some s;
    if throttled q then Some s
    else match n, parent q with
         | S n, Some p => enqueue_leaves n throttled (group_entity q) p s
         | _, _ => Some s
         end.

(** Those of [dequeue_task_fair] and [throttle_cfs_rq] that take one off. *)
Fixpoint dequeue_leaves (n : nat) (throttled : Z -> bool) (e : entity) (q : Z) (s : leaf_state) : leaf_state :=
  if decide (e ∉ queued s q) then s
  else
    let s := s <| queued ::= alter (filter (fun x => x <> e)) q |> in
    if throttled q then s
    else if negb (bool_decide (queued s q = [])) then s
    else match n, parent q with
         | S n, Some p => dequeue_leaves n throttled (group_entity q) p s
         | _, _ => s
         end.

(** ** Order *)

(** Every queue of the list is followed by its parent. *)
Fixpoint bottom_up (l : list Z) : Prop :=
  match l with
  | [] => True
  | g :: l => (forall p, parent g = Some p -> p ∈ l) /\ bottom_up l
  end.

(** A branch: each queue is followed by its parent, the last one by [t]. *)
Fixpoint branch (b : list Z) (t : Z) : Prop :=
  match b with
  | [] => True
  | g :: b => parent g = Some (hd t b) /\ branch b t
  end.

(** The list while a branch [b] is open whose next queue is [t]. *)
Record leaf_open (b : list Z) (t : Z) (s : leaf_state) : Prop := mkLeafOpen {
  lo_nodup : NoDup (leaf_cfs_rq_list s);
  lo_flag : forall g, on_list s g = true <-> g ∈ leaf_cfs_rq_list s;
  lo_list : exists l, leaf_cfs_rq_list s = b ++ l /\ bottom_up l;
  lo_branch : branch b t;
  lo_tmp : tmp_alone_branch s = last b;
  lo_next : b <> [] -> on_list s t = false }.

Definition listed_if_queued (s : leaf_state) : Prop := forall q, queued s q <> [] -> on_list s q = true.

Record leaf_ok (s : leaf_state) : Prop := mkLeafOk {
  leaf_nodup : NoDup (leaf_cfs_rq_list s);
  leaf_flag : forall g, on_list s g = true <-> g ∈ leaf_cfs_rq_list s;
  leaf_order : bottom_up (leaf_cfs_rq_list s);
  leaf_closed : tmp_alone_branch s = None;
  leaf_queued : listed_if_queued s }.

Definition leaf_init : leaf_state := mkLeaf [] None (fun _ => false) (fun _ => []).
Lemma leaf_init_ok : leaf_ok leaf_init.
Proof. split; cbn; try done; [apply NoDup_nil_2|intros g; set_solver|by intros q]. Qed.

Lemma ok_open t s : leaf_ok s <-> leaf_open [] t s /\ listed_if_queued s.
Proof.
  split.
  - intros [H1 H2 H3 H4 H5]. split; [|done]. constructor; try done. by eexists.
  - intros [[H1 H2 (l & El & Hl) _ Ht _] Hq]. cbn in El. subst l. by constructor.
Qed.

Lemma elem_add_before p g l x : p ∈ l -> x ∈ add_before p g l <-> x = g \/ x ∈ l.
Proof.
  intros Hp. induction l as [|y l IH]; [set_solver|]. cbn. destruct (Z.eqb_spec y p) as [->|Hne]; [set_solver|].
  specialize (IH ltac:(set_solver)). set_solver.
Qed.
Lemma nodup_add_before p g l : g ∉ l -> NoDup l -> NoDup (add_before p g l).
Proof.
  intros Hg. induction 1 as [|y l Hy Hnd IH]; cbn; [constructor|]. destruct (y =? p); [by repeat constructor|].
  constructor; [|by apply IH; set_solver]. intros Hin. destruct (decide (p ∈ l)) as [Hp|Hp].
  - apply elem_add_before in Hin; [|done]. set_solver.
  - assert (E : add_before p g l = l); [|by rewrite E in Hin]. clear -Hp. induction l as [|z l IH]; [done|]. cbn.
    destruct (Z.eqb_spec z p); [set_solver|]. rewrite IH; [done|set_solver].
Qed.
Lemma bottom_up_before p g l : parent g = Some p -> p ∈ l -> bottom_up l -> bottom_up (add_before p g l).
Proof.
  intros Hg. induction l as [|y l IH]; intros Hp Hl; [set_solver|]. destruct Hl as [Hy Hl]. cbn. destruct (Z.eqb_spec y p) as [->|Hne].
  - cbn. split; [|done]. intros q Hq. rewrite Hg in Hq. injection Hq as <-. by left.
  - assert (Hin : p ∈ l) by set_solver. cbn. split; [|by apply IH]. intros q Hq. apply elem_add_before; [done|]. auto.
Qed.
Lemma bottom_up_tail g l : parent g = None -> bottom_up l -> bottom_up (l ++ [g]).
Proof.
  intros Hg. induction l as [|y l IH]; cbn; [intros _; split; [|done]; intros p Hp; congruence|].
  intros [Hy Hl]. split; [|by apply IH]. intros p Hp. specialize (Hy p Hp). set_solver.
Qed.
Lemma bottom_up_branch b t l : branch b t -> t ∈ l -> bottom_up l -> bottom_up (b ++ l).
Proof.
  intros Hb Ht Hl. induction b as [|g b IH]; [done|]. destruct Hb as [Hg Hb]. cbn. split; [|by apply IH].
  intros p Hp. rewrite Hg in Hp. injection Hp as <-. destruct b as [|x b]; cbn; set_solver.
Qed.
Lemma branch_snoc b t p : branch b t -> parent t = Some p -> branch (b ++ [t]) p.
Proof.
  induction b as [|g b IH]; cbn; [intros _ Hp; by split|]. intros [Hg Hb] Hp. split; [|by apply IH]. rewrite Hg. by destruct b.
Qed.
Lemma add_before_app p g l1 l2 : p ∉ l1 -> add_before p g (l1 ++ l2) = l1 ++ add_before p g l2.
Proof.
  induction l1 as [|x l1 IH]; intros Hp; [done|]. cbn. destruct (Z.eqb_spec x p) as [->|]; [set_solver|]. rewrite IH; [done|set_solver].
Qed.
Lemma add_after_last b t g l : NoDup (b ++ l) -> last b = Some t -> add_after t g (b ++ l) = b ++ g :: l.
Proof.
  induction b as [|x b IH]; [done|]. cbn [app]. rewrite NoDup_cons. intros [Hx Hnd] Hl. cbn. destruct b as [|y b].
  - injection Hl as ->. by rewrite Z.eqb_refl.
  - destruct (Z.eqb_spec x t) as [->|]; [|f_equal; by apply IH]. exfalso. apply Hx. apply elem_of_app. left.
    by apply last_Some_elem_of.
Qed.

(** ** Adding a queue *)

Context (lvl : Z -> nat) (Hlvl : forall g, match parent g with Some p => lvl g = S (lvl p) | None => lvl g = 0%nat end).

Lemma branch_above b t x : branch b t -> x ∈ b -> (lvl t < lvl x)%nat.
Proof.
  revert x. induction b as [|g b IH]; intros x Hb Hx; [set_solver|]. destruct Hb as [Hg Hb].
  pose proof (Hlvl g) as E. rewrite Hg in E. apply elem_of_cons in Hx as [->|Hx]; [|by apply IH].
  destruct b as [|y b]; cbn in E; [lia|]. specialize (IH y Hb ltac:(by left)). lia.
Qed.

Lemma branch_misses b t p : branch b t -> parent t = Some p -> p ∉ b.
Proof.
  intros Hb Hp Hin. pose proof (branch_above b t p Hb Hin). pose proof (Hlvl t) as E. rewrite Hp in E. lia.
Qed.

(** Adding the next queue of the branch connects it, or leaves it open. *)
Lemma add_leaf b t s :
  leaf_open b t s -> on_list s t = false ->
  exists s', list_add_leaf_cfs_rq t s = Some s' /\ queued s' = queued s /\ (forall x, on_list s' x = true <-> x = t \/ on_list s x = true) /\
    match parent t with
    | Some p => if on_list s p then leaf_open [] p s' else leaf_open (b ++ [t]) p s'
    | None => leaf_open [] t s'
    end.
Proof.
  intros [Hnd Hfl (l & El & Hl) Hb Htmp _] Ht. unfold list_add_leaf_cfs_rq. rewrite Ht.
  assert (Hnt : t ∉ leaf_cfs_rq_list s) by (rewrite <- Hfl, Ht; done).
  assert (Hf : forall s1, on_list s1 = on_list s -> forall x, on_list (s1 <| on_list ::= alter (fun _ => true) t |>) x = true <-> x = t \/ on_list s x = true).
  { intros s1 E x. cbn. rewrite E. destruct (decide (t = x)) as [<-|]; [rewrite fn_lookup_alter|rewrite fn_lookup_alter_ne by done]; naive_solver. }
  destruct (parent t) as [p|] eqn:Ep; [destruct (on_list s p) eqn:Hp|].
  - assert (Hpl : p ∈ l). { apply Hfl in Hp. rewrite El in Hp. apply elem_of_app in Hp as [Hp|]; [|done]. by destruct (branch_misses b t p Hb Ep). }
    eexists. split_and!; [reflexivity|done|by apply Hf|]. constructor; try done.
    + cbn. by apply nodup_add_before.
    + intros x. rewrite Hf by done. rewrite Hfl. cbn. rewrite elem_add_before; [done|]. by apply Hfl.
    + cbn. eexists. split; [done|]. rewrite El, add_before_app by (by apply (branch_misses b t p)).
      apply (bottom_up_branch b t); [done|apply elem_add_before; auto|by apply bottom_up_before].
  - assert (Hopen : forall s1, on_list s1 = on_list s -> leaf_cfs_rq_list s1 = b ++ t :: l -> tmp_alone_branch s1 = Some t ->
      leaf_open (b ++ [t]) p (s1 <| on_list ::= alter (fun _ => true) t |>)).
    { intros s1 E1 E2 E3. constructor; try (by apply branch_snoc).
      - cbn. rewrite E2, <- Permutation_middle. rewrite El in Hnt, Hnd. by constructor.
      - intros x. rewrite Hf, Hfl by done. cbn. rewrite E2, El. set_solver.
      - exists l. cbn. by rewrite E2, <- app_assoc.
      - cbn. by rewrite E3, last_snoc.
      - intros _. cbn. rewrite E1, fn_lookup_alter_ne; [done|]. intros <-. pose proof (Hlvl t) as E. rewrite Ep in E. lia. }
    destruct (tmp_alone_branch s) as [a|] eqn:Ea.
    + rewrite decide_True. 2: { rewrite El. apply elem_of_app. left. by apply last_Some_elem_of. }
      eexists. split_and!; [reflexivity|done|by apply Hf|]. apply Hopen; [done| |done]. cbn. rewrite El. apply add_after_last; [|done]. by rewrite <- El.
    + eexists. split_and!; [reflexivity|done|by apply Hf|]. apply Hopen; [done| |done]. cbn. rewrite El. symmetry in Htmp. apply last_None in Htmp as ->. done.
  - eexists. split_and!; [reflexivity|done|by apply Hf|]. constructor; try done.
    + cbn. rewrite Permutation_app_comm. by constructor.
    + intros x. rewrite Hf, Hfl by done. cbn. set_solver.
    + cbn. eexists. split; [done|]. rewrite El, <- app_assoc. apply (bottom_up_branch b t); [done|set_solver|by apply bottom_up_tail].
Qed.

(** ** Enqueueing *)

(** The open branch of an enqueue is connected before it ends at a throttled
    queue: what such a queue is below is on the list. *)
Definition connects (throttled : Z -> bool) (s : leaf_state) : Prop :=
  forall q p, throttled q = true -> parent q = Some p -> on_list s q = false -> on_list s p = true.

Lemma connects_mono throttled s s' :
  (forall x, on_list s x = true -> on_list s' x = true) -> connects throttled s -> connects throttled s'.
Proof.
  intros Hm Hc q p Hq Hp Hl. apply Hm, (Hc q); [done|done|]. destruct (on_list s q) eqn:E; [|done]. by rewrite (Hm q E) in Hl.
Qed.

Lemma open_queued b t s f : leaf_open b t s -> leaf_open b t (s <| queued ::= f |>).
Proof. intros [H1 H2 H3 H4 H5 H6]. by constructor. Qed.

Lemma bottom_up_parent l g p : bottom_up l -> g ∈ l -> parent g = Some p -> p ∈ l.
Proof. induction l as [|x l IH]; intros Hl Hg Hp; [set_solver|]. destruct Hl as [Hx Hl]. apply elem_of_cons in Hg as [->|Hg]; set_solver. Qed.

Lemma put_listed e q s x : (queued (s <| queued ::= alter (cons e) q |>) x <> [] -> x = q \/ queued s x <> []).
Proof.
  cbn. destruct (decide (q = x)) as [<-|]; [by left|]. rewrite fn_lookup_alter_ne by done. by right.
Qed.

(** One level: the entity is put on the queue and the queue on the list. *)
Lemma put_leaf b e q s :
  leaf_open b q s -> listed_if_queued s ->
  let s1 := s <| queued ::= alter (cons e) q |> in
  exists s2, (if decide (length (queued s1 q) = 1%nat) then list_add_leaf_cfs_rq q s1 else Some s1) = Some s2 /\
    listed_if_queued s2 /\ (forall x, on_list s x = true -> on_list s2 x = true) /\
    match parent q with
    | Some p => leaf_open [] p s2 \/ (on_list s p = false /\ on_list s q = false /\ exists b', leaf_open b' p s2)
    | None => leaf_open [] q s2
    end.
Proof.
  intros Ho Hq s1. destruct (on_list s q) eqn:Eq.
  - assert (b = []) as -> by (destruct b; [done|]; exfalso; pose proof (lo_next _ _ _ Ho ltac:(done)); congruence).
    exists s1. split_and!.
    + destruct (decide _); [|done]. unfold list_add_leaf_cfs_rq. change (on_list s1 q) with (on_list s q). by rewrite Eq.
    + intros x [-> |Hx]%put_listed; [done|by apply Hq].
    + done.
    + apply (open_queued _ _ _ (alter (cons e) q)) in Ho. fold s1 in Ho.
      destruct (parent q); [left|]; destruct Ho as [H1 H2 H3 _ H5 _]; by constructor.
  - assert (Hlen : length (queued s1 q) = 1%nat).
    { unfold s1. cbn. rewrite fn_lookup_alter. cbn. destruct (queued s q) eqn:E; [done|]. exfalso. rewrite Hq in Eq; [done|by rewrite E]. }
    rewrite decide_True by done. destruct (add_leaf b q s1) as (s2 & E2 & Eq2 & Hon & Hcase); [by apply open_queued|done|].
    exists s2. split_and!; [done| |intros x Hx; apply Hon; by right|].
    + intros x Hx. apply Hon. rewrite Eq2 in Hx. apply put_listed in Hx as [->|Hx]; [by left|right; by apply Hq].
    + destruct (parent q) as [p|]; [|done]. change (on_list s1 p) with (on_list s p) in Hcase.
      destruct (on_list s p) eqn:Ep; [by left|right]. split_and!; [done|done|by eexists].
Qed.

Lemma enqueue_ok n throttled b e q s :
  (lvl q <= n)%nat -> leaf_open b q s -> listed_if_queued s -> connects throttled s ->
  exists s', enqueue_leaves n throttled e q s = Some s' /\ leaf_ok s'.
Proof.
  revert b e q s. induction n as [|n IH]; intros b e q s Hn Ho Hq Hc; cbn [enqueue_leaves];
    (destruct (decide (e ∈ queued s q)) as [He|_];
      [exists s; split; [done|]; apply (ok_open q); split; [|done]; destruct b; [done|];
       exfalso; pose proof (lo_next _ _ _ Ho ltac:(done)) as F; rewrite Hq in F; [done|by intros E; rewrite E in He; apply elem_of_nil in He]|]);
    destruct (put_leaf b e q s Ho Hq) as (s2 & E2 & Hq2 & Hm & Hcase); cbv zeta in E2; rewrite E2; cbn [mbind option_bind];
    pose proof (Hlvl q) as Hl; destruct (parent q) as [p|] eqn:Ep; try lia;
    try (exists s2; split; [by destruct (throttled q)|]; by apply (ok_open q)).
  destruct (throttled q) eqn:Et.
  - exists s2. split; [done|]. destruct Hcase as [Hcase|(Hp & Hql & _)]; [by apply (ok_open p)|]. by rewrite (Hc q p) in Hp.
  - assert (exists b', leaf_open b' p s2) as [b' Hb'] by (destruct Hcase as [|(_ & _ & ?)]; [by eexists|done]).
    apply (IH b'); [lia|done|done|]. by apply (connects_mono throttled s).
Qed.

(** ** Dequeueing and removing *)

Lemma dequeue_ok n throttled e q s : leaf_ok s -> leaf_ok (dequeue_leaves n throttled e q s).
Proof.
  revert e q s. induction n as [|n IH]; intros e q s Hs; cbn [dequeue_leaves]; (destruct (decide _); [done|]);
    set (s1 := s <| queued ::= _ |>);
    (assert (H1 : leaf_ok s1);
      [destruct Hs as [? ? ? ? Hq]; constructor; try done; intros x Hx; apply Hq; unfold s1 in Hx; cbn in Hx;
       destruct (decide (q = x)) as [<-|]; [rewrite fn_lookup_alter in Hx; intros E; by rewrite E in Hx|by rewrite fn_lookup_alter_ne in Hx]|]);
    destruct (throttled q); try done; destruct (negb _); try done; destruct (parent q); try done. by apply IH.
Qed.

Lemma bottom_up_del g l : (forall e, e ∈ l -> parent e <> Some g) -> bottom_up l -> bottom_up (list_del g l).
Proof.
  intros Hg. induction l as [|x l IH]; [done|]. intros [Hx Hl]. unfold list_del. cbn. destruct (decide (x <> g)); [|apply IH; [set_solver|done]].
  cbn. split; [|apply IH; [set_solver|done]]. intros p Hp. apply elem_of_list_del. split; [auto|]. intros ->. by apply (Hg x); [left|].
Qed.

Lemma remove_ok g s :
  leaf_ok s -> queued s g = [] -> (forall e, on_list s e = true -> parent e <> Some g) -> leaf_ok (list_del_leaf_cfs_rq g s).
Proof.
  intros [H1 H2 H3 H4 H5] Hg Hc. unfold list_del_leaf_cfs_rq. destruct (on_list s g) eqn:Eg; [|by constructor].
  constructor; cbn; try done.
  - by apply NoDup_filter.
  - intros x. rewrite elem_of_list_del, <- H2. destruct (decide (g = x)) as [<-|]; [rewrite fn_lookup_alter|rewrite fn_lookup_alter_ne by done]; naive_solver.
  - apply bottom_up_del; [|done]. intros e He. apply Hc. by apply H2.
  - intros x Hx. cbn in *. rewrite fn_lookup_alter_ne; [by apply H5|]. intros <-. done.
Qed.

(** What happens on one CPU: entities come and go, at any level, and empty groups
    are removed. *)
Inductive leaf_step (levels : nat) : leaf_state -> leaf_state -> Prop :=
  | leaf_enqueue throttled e q s s' :
      connects throttled s -> enqueue_leaves levels throttled e q s = Some s' -> leaf_step levels s s'
  | leaf_dequeue throttled e q s : leaf_step levels s (dequeue_leaves levels throttled e q s)
  | leaf_remove g s :
      queued s g = [] -> (forall e, on_list s e = true -> parent e <> Some g) -> leaf_step levels s (list_del_leaf_cfs_rq g s).

End Leaf.

(** C23: As long as enqueues are connected, every queue that has an entity is on
    the list, once, before its parent, and the memory of a removed group is not
    touched: every further enqueue that connects succeeds. *)
Theorem leaf_list_bottom_up parent lvl levels s :
  (forall g, (lvl g <= levels)%nat /\ match parent g with Some p => lvl g = S (lvl p) | None => lvl g = 0%nat end) ->
  rtc (leaf_step parent levels) leaf_init s ->
  leaf_ok parent s /\
  forall throttled e q, connects parent throttled s -> exists s', enqueue_leaves parent levels throttled e q s = Some s' /\ leaf_ok parent s'.
Proof.
  intros Hlvl Hr. assert (Hl : forall g, match parent g with Some p => lvl g = S (lvl p) | None => lvl g = 0%nat end) by apply Hlvl.
  assert (Henq : forall s, leaf_ok parent s -> forall throttled e q, connects parent throttled s ->
    exists s', enqueue_leaves parent levels throttled e q s = Some s' /\ leaf_ok parent s').
  { intros s0 Hs throttled e q Hc. apply (ok_open parent q) in Hs as [Ho Hq].
    apply (enqueue_ok parent lvl Hl _ _ []); [apply Hlvl|done|done|done]. }
  enough (Hok : leaf_ok parent s) by (split; [done|by apply Henq]).
  pose proof (leaf_init_ok parent) as Hi. induction Hr as [|a b d Hab _ IH]; [done|]. apply IH. destruct Hab.
  - destruct (Henq _ Hi throttled e q) as (s2 & E & Hs2); [done|]. congruence.
  - by apply dequeue_ok.
  - by apply (remove_ok parent lvl Hl).
Qed.

(** ** Without the condition *)

(** The groups 2 and 3 in the group 1, 1 in 4, 4 in the root, 5 in the root. *)
Definition demo_parent (g : Z) : option Z :=
  if (g =? 2) || (g =? 3) then Some 1 else if g =? 1 then Some 4 else if (g =? 4) || (g =? 5) then Some 0 else None.
Definition demo_leaf_lvl (g : Z) : nat :=
  if (g =? 2) || (g =? 3) then 3%nat else if g =? 1 then 2%nat else if (g =? 4) || (g =? 5) then 1%nat else 0%nat.

Definition leaf_run (levels : nat) (l : list (Z * Z * bool)) (s : leaf_state) : option leaf_state :=
  foldl (fun s '(p, q, stop) => s ← s; enqueue_leaves demo_parent levels (fun g => stop && (g =? q)) (task_entity p) q s) (Some s) l.

(** The first task of 2 finds the group throttled, so that 1 is not put on the
    list; a task of 5 then resets [tmp_alone_branch]; a task of 3 puts 3 and 1 at
    the head of the list, and 1 comes before 2. *)
Example throttled_enqueue_breaks_order :
  leaf_cfs_rq_list <$> leaf_run 3 [(10, 0, false); (11, 2, true); (12, 5, false); (13, 3, false)] leaf_init =
  Some [3; 1; 2; 5; 4; 0].
Proof. by vm_compute. Qed.

(** The branch is left open at 2, which is then removed. *)
Example removed_branch_is_used :
  (s ← leaf_run 3 [(10, 0, false); (11, 2, true)] leaf_init;
   let s := dequeue_leaves demo_parent 3 (fun _ => true) (task_entity 11) 2 s in
   let s := list_del_leaf_cfs_rq 2 s in
   leaf_run 3 [(13, 3, false)] s) = None.
Proof. by vm_compute. Qed.

Lemma demo_leaf_levels :
  forall g, (demo_leaf_lvl g <= 3)%nat /\
    match demo_parent g with Some p => demo_leaf_lvl g = S (demo_leaf_lvl p) | None => demo_leaf_lvl g = 0%nat end.
Proof.
  intros g. unfold demo_leaf_lvl, demo_parent. destruct (g =? 2), (g =? 3), (g =? 1), (g =? 4), (g =? 5); cbn; split; try done; lia.
Qed.

Lemma leaf_list_bottom_up_witness :
  exists s, leaf_run 3 [(10, 0, false); (13, 3, false)] leaf_init = Some s /\ leaf_cfs_rq_list s = [3; 1; 4; 0] /\ leaf_ok demo_parent s.
Proof.
  eexists. split_and!; [by vm_compute|by vm_compute|].
  eapply (leaf_list_bottom_up demo_parent demo_leaf_lvl 3); [exact demo_leaf_levels|].
  eapply rtc_l; [apply (leaf_enqueue _ _ (fun g => false && (g =? 0)) (task_entity 10) 0); [intros q p Hq; done|by vm_compute]|].
  apply rtc_once. apply (leaf_enqueue _ _ (fun g => false && (g =? 3)) (task_entity 13) 3); [intros q p Hq; done|by vm_compute].
Defined.

(** ** Blocked averages *)

Section Blocked.
Context `{PeltTable} `{BwEnv} (c : Z).

(** What [update_blocked_averages] does to one queue of the list. *)
Definition blocked_queue (g : Z) (s : share_state) : share_state :=
  if throttled_hierarchy g c (sh_bw s) then s
  else
    let '(s, decayed) := group_cfs_rq_load_avg (cfs_rq_clock_task g c (sh_bw s)) g c s in
    let s := if decayed then update_tg_load_avg g c false s else s in
    match tg_parent (tgs (sh_bw s) g) with
    | Some p => if skip_blocked_update g c s then s else group_update_load_avg p g c 0 s
    | None => s
    end.

Definition group_blocked_averages (l : list Z) (s : share_state) : share_state :=
  foldl (fun s g => blocked_queue g s) (on_bw (on_kernel (update_rq_clock c)) s) l.

(** Everything but the queues of the groups [l] is kept. *)
Definition only (l : list Z) (s s' : share_state) : Prop :=
  sh_bw s' = sh_bw s /\ forall e, e ∉ l -> gl s' e c = gl s e c.

#[local] Instance only_preorder l : PreOrder (only l).
Proof.
  split; [done|]. intros a b d [E1 H1] [E2 H2]. split; [congruence|]. intros e He. rewrite H2, H1; done.
Qed.

Lemma only_gl g f l s s' : g ∈ l -> only l s s' -> only l s (upd_gl g c f s').
Proof.
  intros Hg [E Hs]. split; [exact E|]. intros e He. rewrite gl_upd, decide_False by (intros [-> _]; done). by apply Hs.
Qed.
Lemma only_load g f l s s' : only l s s' -> only l s (upd_tg g (fun t => t <| sh_load_avg ::= f |>) s').
Proof.
  intros [E Hs]. split; [exact E|]. intros e He. rewrite <- Hs by done. unfold gl. rewrite sh_tg_upd. by destruct (decide (g = e)) as [<-|].
Qed.

Ltac keep_only :=
  repeat match goal with
  | |- only _ ?s ?s => reflexivity
  | Hk : only ?l ?s ?t |- only ?l ?s ?t => exact Hk
  | |- only _ _ (if ?b then _ else _) => destruct b
  | |- only _ _ (upd_gl _ _ _ _) => apply only_gl; [set_solver|]
  | |- only _ _ (upd_tg _ _ _) => apply only_load
  end.

Lemma only_cfs_rq now g l s : g ∈ l -> only l s (group_cfs_rq_load_avg now g c s).1.
Proof.
  intros Hg. unfold group_cfs_rq_load_avg. cbv zeta. set (s1 := if negb (gl_removed_load _ =? 0) then _ else s).
  set (s2 := if negb (gl_removed_util _ =? 0) then _ else s1).
  assert (H1 : only l s s1) by (unfold s1; keep_only). assert (H2 : only l s s2) by (unfold s2; keep_only). clearbody s2.
  destruct (___update_load_avg _ _ _ _ _ _) as [[sa r] d]. destruct (default (0, 0) r) as [rs ra]. cbn [fst]. keep_only.
Qed.
Lemma only_update_tg g force l s : g ∈ l -> only l s (update_tg_load_avg g c force s).
Proof. intros Hg. unfold update_tg_load_avg. cbv zeta. keep_only. Qed.
Lemma only_propagate p g l s : p ∈ l -> g ∈ l -> only l s (propagate_entity_load_avg p g c s).1.
Proof.
  intros Hp Hg. unfold propagate_entity_load_avg, test_and_clear_tg_cfs_propagate. destruct (negb (gl_propagate _)); [reflexivity|]. cbn [negb fst].
  unfold update_tg_cfs_load. cbv zeta. set (s1 := update_tg_cfs_util p g c _).
  assert (H1 : only l s s1) by (unfold s1, update_tg_cfs_util, set_tg_cfs_propagate; cbv zeta; keep_only).
  clearbody s1. keep_only.
Qed.
Lemma only_update_load p g flags l s : p ∈ l -> g ∈ l -> only l s (group_update_load_avg p g c flags s).
Proof.
  intros Hp Hg. unfold group_update_load_avg. cbv zeta. set (s1 := if _ && _ then _ else s).
  assert (H1 : only l s s1) by (unfold s1; keep_only). clearbody s1.
  pose proof (only_cfs_rq (cfs_rq_clock_task p c (sh_bw s)) p l s1 Hp) as H2.
  destruct (group_cfs_rq_load_avg _ _ _ _) as [s2 decayed]. cbn in H2.
  pose proof (only_propagate p g l s2 Hp Hg) as H3. destruct (propagate_entity_load_avg _ _ _ _) as [s3 due]. cbn in H3.
  assert (Hs3 : only l s s3) by (by transitivity s1; [|transitivity s2]).
  destruct (_ && _); [transitivity s3; [done|by apply only_update_tg]|done].
Qed.

(** An entity that is brought up to date has nothing left to propagate. *)
Lemma propagate_clears p g s : p <> g -> gl_propagate (gl (propagate_entity_load_avg p g c s).1 g c) = false.
Proof.
  intros Hp. unfold propagate_entity_load_avg, test_and_clear_tg_cfs_propagate.
  destruct (gl_propagate (gl s g c)) eqn:E; [|exact E]. cbn [negb fst].
  set (s0 := set_tg_cfs_propagate p c _). assert (Hs0 : gl_propagate (gl s0 g c) = false).
  { unfold s0, set_tg_cfs_propagate. rewrite !gl_upd. rewrite decide_False by (intros [? _]; congruence). by rewrite decide_True. }
  assert (Hk : forall f t, gl_propagate (gl t g c) = false -> gl_propagate (gl (upd_gl p c f t) g c) = false).
  { intros f t Ht. by rewrite gl_upd, decide_False by (intros [? _]; congruence). }
  assert (Hg : forall f t, gl_propagate (gl t g c) = false -> gl_propagate (gl (upd_gl g c (fun q => q <| gl_se_avg ::= f |>) t) g c) = false).
  { intros f t Ht. by rewrite gl_upd, decide_True by done. }
  set (s1 := update_tg_cfs_util p g c s0). assert (H1 : gl_propagate (gl s1 g c) = false).
  { unfold s1, update_tg_cfs_util. cbv zeta. destruct (_ =? 0); auto. }
  unfold update_tg_cfs_load. cbv zeta. destruct (_ =? 0); [done|]. destruct (gse_on_rq _); auto.
Qed.

Lemma blocked_only g s :
  only (g :: match tg_parent (tgs (sh_bw s) g) with Some p => [p] | None => [] end) s (blocked_queue g s).
Proof.
  set (l := _ :: _). assert (Hg : g ∈ l) by (by left). unfold blocked_queue. destruct (throttled_hierarchy _ _ _); [reflexivity|].
  pose proof (only_cfs_rq (cfs_rq_clock_task g c (sh_bw s)) g l s Hg) as H1.
  destruct (group_cfs_rq_load_avg _ _ _ _) as [s1 decayed]. cbn in H1. set (s2 := if decayed then _ else s1).
  assert (H2 : only l s s2) by (transitivity s1; [done|]; unfold s2; destruct decayed; [by apply only_update_tg|reflexivity]).
  rewrite (proj1 H2). destruct (tg_parent _) as [p|] eqn:Ep; [|done]. destruct (skip_blocked_update _ _ _); [done|].
  transitivity s2; [done|]. apply only_update_load; [|done]. unfold l. set_solver.
Qed.

Lemma blocked_clears g p s :
  throttled_hierarchy g c (sh_bw s) = false -> tg_parent (tgs (sh_bw s) g) = Some p -> p <> g ->
  gl_propagate (gl (blocked_queue g s) g c) = false.
Proof.
  intros Ht Hp Hne. unfold blocked_queue. rewrite Ht. destruct (group_cfs_rq_load_avg _ _ _ _) as [s1 decayed] eqn:E1.
  pose proof (only_cfs_rq (cfs_rq_clock_task g c (sh_bw s)) g [g] s ltac:(by left)) as H1. rewrite E1 in H1. cbn in H1.
  set (s2 := if decayed then _ else s1).
  assert (H2 : only [g] s s2) by (transitivity s1; [done|]; unfold s2; destruct decayed; [apply only_update_tg; by left|reflexivity]).
  rewrite (proj1 H2), Hp. destruct (skip_blocked_update g c s2) eqn:Es.
  - unfold skip_blocked_update in Es. cbv zeta in Es. destruct (_ || _); [done|]. by destruct (gl_propagate _).
  - unfold group_update_load_avg. cbv zeta. set (s3 := if _ && _ then _ else s2).
    destruct (group_cfs_rq_load_avg _ _ _ s3) as [s4 d4]. pose proof (propagate_clears p g s4 Hne) as Hc.
    destruct (propagate_entity_load_avg _ _ _ _) as [s5 due]. cbn [fst] in Hc. change (has_flag 0 UPDATE_TG) with false. by rewrite andb_false_r.
Qed.

(** After a queue was visited only its children set its flag again. *)
Lemma blocked_pass l s g :
  (forall e, e ∈ l -> throttled_hierarchy e c (sh_bw s) = false /\ tg_parent (tgs (sh_bw s) e) <> Some e) ->
  bottom_up (fun e => tg_parent (tgs (sh_bw s) e)) l -> NoDup l ->
  is_Some (tg_parent (tgs (sh_bw s) g)) -> g ∈ l \/ gl_propagate (gl s g c) = false ->
  gl_propagate (gl (foldl (fun s g => blocked_queue g s) s l) g c) = false.
Proof.
  revert s. induction l as [|e l IH]; intros s Ht Hb Hnd Hg Hor; cbn [foldl]; [destruct Hor as [?|?]; [set_solver|done]|].
  destruct Hb as [He Hb]. apply NoDup_cons in Hnd as [Hel Hnd].
  destruct (blocked_only e s) as [Ebw Hgl]. apply IH; rewrite ?Ebw; try done; [intros d Hd; apply Ht; by right|].
  destruct (decide (g ∈ l)) as [|Hn]; [by left|right]. destruct (Ht e ltac:(by left)) as [Hte Hself]. destruct (decide (e = g)) as [->|Hne].
  - destruct Hg as [p Hp]. apply (blocked_clears g p); [done|done|]. intros ->. done.
  - rewrite Hgl; [destruct Hor as [?|?]; [set_solver|done]|]. intros [->|Hin]%elem_of_cons; [done|].
    destruct (tg_parent (tgs (sh_bw s) e)) as [p|] eqn:Ep; [|set_solver]. apply list_elem_of_singleton in Hin as ->. by apply Hn, He.
Qed.
End Blocked.

(** One pass over a list of queues of which each comes before its parent
    leaves no change of load pending below the root. *)
Theorem blocked_pass_propagates_all `{PeltTable} `{BwEnv} c lvl s lf g :
  (forall e, match tg_parent (tgs (sh_bw s) e) with Some p => lvl e = S (lvl p) | None => lvl e = 0%nat end) ->
  leaf_ok (fun e => tg_parent (tgs (sh_bw s) e)) lf ->
  (forall e, on_list lf e = true -> throttled_hierarchy e c (sh_bw s) = false) ->
  on_list lf g = true -> is_Some (tg_parent (tgs (sh_bw s) g)) ->
  gl_propagate (gl (group_blocked_averages c (leaf_cfs_rq_list lf) s) g c) = false.
Proof.
  intros Hlvl Hok Ht Hg Hp. unfold group_blocked_averages. apply blocked_pass; try done.
  - intros e He. split; [|intros E; pose proof (Hlvl e) as F; cbn in E; rewrite E in F; lia].
    apply (leaf_flag _ _ Hok) in He. exact (Ht e He).
  - apply (leaf_order _ _ Hok).
  - apply (leaf_nodup _ _ Hok).
  - left. by apply (leaf_flag _ _ Hok).
Qed.

#[local] Instance demo_leaf_env : BwEnv :=
  {| sysctl_sched_cfs_bandwidth_slice := 5000; TICK_NSEC := 4000000; tg_levels := 3;
     hrtimer_callback_running := fun _ _ => false; hrtimer_expires_remaining := fun _ _ => 50000000;
     bw_others := fun s => s |}.

(** A task has left 3, and its load is still to be taken out further up. *)
Definition demo_blocked : share_state :=
  mkShare (mkBw (demo_kernel fair_sched_class SCHED_NORMAL 120)
    (fun g => mkTg (demo_parent g) [] demo_share_b (fun _ => demo_share_q)) [0; 1; 2; 3; 4; 5] 1 [])
    (fun g => mkShareGroup (scale_load 1024) 500 (fun _ =>
       mkGroupLoad (demo_avg 500) 0 0 500 false (if g =? 3 then 300 else 0) 0 (demo_avg 400) false)).
Definition demo_leaves (l : list Z) : leaf_state := mkLeaf l None (fun g => bool_decide (g ∈ l)) (fun _ => []).

Lemma blocked_pass_propagates_all_witness :
  let s := group_blocked_averages 0 [3; 1; 4; 0] demo_blocked in
  load_avg (gl_se_avg (gl s 3 0)) = 200 /\ gl_propagate (gl s 0 0) = true /\
  gl_propagate (gl s 3 0) = false /\ gl_propagate (gl s 1 0) = false.
Proof.
  cbv zeta.
  assert (Hok : leaf_ok demo_parent (demo_leaves [3; 1; 4; 0])).
  { constructor; cbn; try done.
    - repeat constructor; set_solver.
    - intros g. apply bool_decide_eq_true.
    - repeat split; intros p [= <-]; set_solver.
    - by intros q. }
  assert (Hlvl : forall e, match demo_parent e with Some p => demo_leaf_lvl e = S (demo_leaf_lvl p) | None => demo_leaf_lvl e = 0%nat end)
    by (intros e; apply demo_leaf_levels).
  split_and!; [by vm_compute|by vm_compute| |];
    (apply (blocked_pass_propagates_all 0 demo_leaf_lvl demo_blocked (demo_leaves [3; 1; 4; 0]));
      [exact Hlvl|exact Hok|by intros e _; vm_compute|by vm_compute|by vm_compute; eexists]).
Defined.

(** With the parent first, the change stays in it until the next pass. *)
Example misordered_pass_leaves_change :
  gl_propagate (gl (group_blocked_averages 0 [1; 3; 4; 0] demo_blocked) 1 0) = true.
Proof. by vm_compute. Qed.
