(* ===== verification/FairGroups.v ===== *)
(** * The life of a task group (fair.c)

    Allocating the queues and entities of a new group, attaching them to those of
    the parent when the group goes online, and taking them out when it is
    removed.

    The theorem: through the life of groups and every update of their loads and
    shares, the sum of a group stays the sum of what its CPUs have contributed
    and its shares stay in their range. *)

From S2P Require Import Prelude SchedTypes Core Wrr CorePolicy RtBandwidth FairMath FairPelt FairQueue FairBandwidth FairShares FairLeaf.

(** The groups and the lists of queues of the CPUs. *)
Record group_state := mkGroups { gs_share : share_state; gs_leaf : Z -> leaf_state }.
#[export] Instance eta_group_state : Settable group_state := fun r => mkGroups (gs_share r) (gs_leaf r).

Section Groups.
Context `{FairEnv} `{PeltTable} `{BwEnv}.

(** ** Allocation *)

(** Zeroed memory. *)
Definition zero_group_rq : group_rq := mkGroupRq false 0 0 0 0 0 0 false 0 0 0 0 false false 0.
Definition zero_group_load : group_load := mkGroupLoad zero_avg 0 0 0 false 0 0 zero_avg false.

Definition init_tg_cfs_entry (g c : Z) (s : share_state) : share_state :=
  on_bw (upd_g g c (fun q => init_cfs_rq_runtime q <| gse_weight := NICE_0_LOAD |>)) s.

(** For the entity of a group, whose load is zero. *)
Definition init_group_average (a : sched_avg) : sched_avg :=
  a <| last_update_time := 0 |> <| period_contrib := 1023 |> <| load_sum := u64 (load_avg a * LOAD_AVG_MAX) |>
    <| util_avg := 0 |> <| util_sum := 0 |>.

Definition alloc_group_queue (g c : Z) (s : share_state) : share_state :=
  let s := on_bw (upd_g g c (fun _ => zero_group_rq)) s in
  let s := upd_gl g c (fun _ => zero_group_load) s in
  let s := init_tg_cfs_entry g c s in
  upd_gl g c (fun q => q <| gl_se_avg ::= init_group_average |>) s.

(** The loop over the CPUs, up to the first that gets no memory. *)
Fixpoint alloc_queues (mem : Z -> bool) (g : Z) (l : list Z) (s : share_state) : share_state * bool :=
  match l with
  | [] => (s, true)
  | c :: l => if mem c then alloc_queues mem g l (alloc_group_queue g c s) else (s, false)
  end.

(** [arrays]: the arrays of the queues and of the entities were allocated. *)
Definition alloc_fair_sched_group (arrays : bool) (mem : Z -> bool) (g parent : Z) (s : share_state) : share_state * bool :=
  if negb arrays then (s, false)
  else
    let s := upd_tg g (fun t => t <| sh_shares := NICE_0_LOAD |>) s in
    let s := on_bw (fun b => b <| tgs ::= alter (fun t => t <| tg_parent := Some parent |>) g |>) s in
    let s := on_bw (upd_b g init_cfs_bandwidth) s in
    alloc_queues mem g (for_each_cpu (bw_k (sh_bw s)) (cpu_possible_mask (bw_k (sh_bw s)))) s.

(** What [sched_create_group] does for this class: a zeroed group, given back
    when there is no memory for its queues. *)
Definition create_fair_group (arrays : bool) (mem : Z -> bool) (g parent : Z) (s : share_state) : share_state * bool :=
  let '(s', ok) := alloc_fair_sched_group arrays mem g parent (upd_tg g (fun _ => mkShareGroup 0 0 (fun _ => zero_group_load)) s) in
  if ok then (s', true) else (s, false).

(** ** Attaching *)

(** The loop of [propagate_entity_cfs_rq], at the entity of [g]. *)
Fixpoint propagate_up (n : nat) (g c : Z) (s : share_state) : share_state :=
  match n, tg_parent (tgs (sh_bw s) g) with
  | S n, Some p => if cfs_rq_throttled p c (sh_bw s) then s
                   else propagate_up n p c (group_update_load_avg p g c UPDATE_TG s)
  | _, _ => s
  end.
(** It starts at the parent of the entity of [g]. *)
Definition propagate_entity_cfs_rq (g c : Z) (s : share_state) : share_state :=
  match tg_parent (tgs (sh_bw s) g) with
  | Some p => propagate_up tg_levels p c s
  | None => s
  end.

Definition attach_group_load_avg (p g c : Z) (s : share_state) : share_state :=
  let l := last_update_time (gl_avg (gl s p c)) in
  let s := upd_gl g c (fun q => q <| gl_se_avg ::= fun a => a <| last_update_time := l |> |>) s in
  let e := gl_se_avg (gl s g c) in
  let s := upd_gl p c (fun q => q <| gl_avg ::= fun a =>
             a <| load_avg ::= fun x => u64 (x + load_avg e) |> <| load_sum ::= fun x => u64 (x + load_sum e) |>
               <| util_avg ::= fun x => u64 (x + util_avg e) |> <| util_sum ::= fun x => u32 (x + util_sum e) |> |>) s in
  set_tg_cfs_propagate p c s.

Definition attach_group_cfs_rq (p g c : Z) (s : share_state) : share_state :=
  let s := group_update_load_avg p g c (if feat_ATTACH_AGE_LOAD then 0 else SKIP_AGE_LOAD) s in
  let s := attach_group_load_avg p g c s in
  let s := update_tg_load_avg p c false s in
  propagate_entity_cfs_rq g c s.

Definition online_fair_sched_group (p g : Z) (s : share_state) : share_state :=
  foldl (fun s i => on_bw (sync_throttle g i) (attach_group_cfs_rq p g i (on_bw (on_kernel (update_rq_clock i)) s))) s
    (for_each_cpu (bw_k (sh_bw s)) (cpu_possible_mask (bw_k (sh_bw s)))).

(** ** Removal *)

Definition remove_group_load_avg (p g c : Z) (s : share_state) : share_state :=
  let now := last_update_time (gl_avg (gl s p c)) in
  let s := upd_gl g c (fun q => q <| gl_se_avg ::= fun a => (___update_load_avg now c a 0 false None).1.1 |>) s in
  let e := gl_se_avg (gl s g c) in
  upd_gl p c (fun q => q <| gl_removed_load ::= fun x => s64 (x + load_avg e) |>
                         <| gl_removed_util ::= fun x => s64 (x + util_avg e) |>) s.

Definition unregister_fair_sched_group (p g : Z) (s : group_state) : group_state :=
  foldl (fun s c =>
      let s := s <| gs_share ::= remove_group_load_avg p g c |> in
      if negb (on_list (gs_leaf s c) g) then s else s <| gs_leaf ::= alter (list_del_leaf_cfs_rq g) c |>) s
    (for_each_cpu (bw_k (sh_bw (gs_share s))) (cpu_possible_mask (bw_k (sh_bw (gs_share s))))).

(** ** Shares *)

Definition share_range (x : Z) : Prop := scale_load MIN_SHARES <= x <= scale_load MAX_SHARES.
Definition shares_ok (s : share_state) : Prop := forall g, share_range (sh_shares (sh_tg s g)).

Definition shares_kept (s s' : share_state) : Prop := forall g, sh_shares (sh_tg s' g) = sh_shares (sh_tg s g).
#[local] Instance shares_kept_preorder : PreOrder shares_kept.
Proof. split; [done|]. intros a b c Hab Hbc g. by rewrite Hbc, Hab. Qed.
Lemma kept_ok s s' : shares_kept s s' -> shares_ok s -> shares_ok s'.
Proof. intros Hk Hs g. rewrite Hk. apply Hs. Qed.

Lemma shares_gl g c f s s' : shares_kept s s' -> shares_kept s (upd_gl g c f s').
Proof.
  intros Hs e. rewrite <- Hs. unfold upd_gl. rewrite sh_tg_upd. by destruct (decide (g = e)) as [<-|].
Qed.
Lemma shares_load g f s s' : shares_kept s s' -> shares_kept s (upd_tg g (fun t => t <| sh_load_avg ::= f |>) s').
Proof. intros Hs e. rewrite <- Hs, sh_tg_upd. by destruct (decide (g = e)) as [<-|]. Qed.
Lemma shares_bw f s s' : shares_kept s s' -> shares_kept s (on_bw f s').
Proof. done. Qed.

Ltac keep_shares :=
  repeat match goal with
  | |- shares_kept ?s ?s => reflexivity
  | Hk : shares_kept ?s ?t |- shares_kept ?s ?t => exact Hk
  | |- shares_kept _ (if ?b then _ else _) => destruct b
  | |- shares_kept _ (on_bw _ _) => apply shares_bw
  | |- shares_kept _ (upd_gl _ _ _ _) => apply shares_gl
  | |- shares_kept _ (upd_tg _ _ _) => apply shares_load
  end.

Lemma shares_update_tg g c force s : shares_kept s (update_tg_load_avg g c force s).
Proof. unfold update_tg_load_avg. cbv zeta. keep_shares. Qed.
Lemma shares_weight g c s : shares_kept s (update_cfs_shares g c s).
Proof. unfold update_cfs_shares. destruct (tg_parent _); keep_shares. Qed.
Lemma shares_propagate p g c s : shares_kept s (propagate_entity_load_avg p g c s).1.
Proof.
  unfold propagate_entity_load_avg, test_and_clear_tg_cfs_propagate. destruct (negb (gl_propagate _)); [reflexivity|]. cbn [negb fst].
  unfold update_tg_cfs_load. cbv zeta. set (s1 := update_tg_cfs_util p g c _).
  assert (Hs1 : shares_kept s s1) by (unfold s1, update_tg_cfs_util, set_tg_cfs_propagate; cbv zeta; keep_shares).
  clearbody s1. keep_shares.
Qed.
Lemma shares_cfs_rq now p c s : shares_kept s (group_cfs_rq_load_avg now p c s).1.
Proof.
  unfold group_cfs_rq_load_avg. cbv zeta. set (s1 := if negb (gl_removed_load _ =? 0) then _ else s).
  set (s2 := if negb (gl_removed_util _ =? 0) then _ else s1).
  assert (Hs1 : shares_kept s s1) by (unfold s1; keep_shares). assert (Hs2 : shares_kept s s2) by (unfold s2; keep_shares). clearbody s2.
  destruct (___update_load_avg _ _ _ _ _ _) as [[sa r] d]. destruct (default (0, 0) r) as [rs ra]. cbn [fst]. keep_shares.
Qed.
Lemma shares_update_load p g c flags s : shares_kept s (group_update_load_avg p g c flags s).
Proof.
  unfold group_update_load_avg. cbv zeta. set (s1 := if _ && _ then _ else s).
  assert (Hs1 : shares_kept s s1) by (unfold s1; keep_shares). clearbody s1.
  pose proof (shares_cfs_rq (cfs_rq_clock_task p c (sh_bw s)) p c s1) as Hs2.
  destruct (group_cfs_rq_load_avg _ _ _ _) as [s2 decayed]. cbn in Hs2.
  pose proof (shares_propagate p g c s2) as Hs3. destruct (propagate_entity_load_avg _ _ _ _) as [s3 due]. cbn in Hs3.
  assert (H03 : shares_kept s s3) by (by transitivity s1; [|transitivity s2]).
  destruct (_ && _); [transitivity s3; [done|apply shares_update_tg]|done].
Qed.
Lemma shares_walk_kept n g c s : shares_kept s (shares_walk n g c s).
Proof.
  revert g s. induction n as [|n IH]; intros g s; cbn; destruct (tg_parent _) as [p|]; try reflexivity.
  etransitivity; [|apply IH]. etransitivity; [apply shares_update_load|apply shares_weight].
Qed.
Lemma shares_propagate_up n g c s : shares_kept s (propagate_up n g c s).
Proof.
  revert g s. induction n as [|n IH]; intros g s; cbn; [reflexivity|]. destruct (tg_parent _) as [p|]; [|reflexivity].
  destruct (cfs_rq_throttled _ _ _); [reflexivity|]. etransitivity; [apply shares_update_load|apply IH].
Qed.
Lemma shares_attach p g c s : shares_kept s (attach_group_cfs_rq p g c s).
Proof.
  unfold attach_group_cfs_rq. cbv zeta. set (s1 := group_update_load_avg _ _ _ _ s). set (s2 := attach_group_load_avg p g c s1).
  set (s3 := update_tg_load_avg p c false s2). transitivity s1; [apply shares_update_load|].
  transitivity s2; [unfold s2, attach_group_load_avg, set_tg_cfs_propagate; cbv zeta; keep_shares|].
  transitivity s3; [apply shares_update_tg|]. unfold propagate_entity_cfs_rq. destruct (tg_parent _); [apply shares_propagate_up|reflexivity].
Qed.

(** A relation kept by every step of a loop over the CPUs. *)
Lemma fold_kept {A} (R : share_state -> share_state -> Prop) `{!PreOrder R} (f : share_state -> A -> share_state) l s :
  (forall s i, R s (f s i)) -> R s (foldl f s l).
Proof.
  intros Hf. revert s. induction l as [|i l IH]; intros s; [reflexivity|]. cbn. etransitivity; [apply Hf|apply IH].
Qed.

Lemma shares_online p g s : shares_kept s (online_fair_sched_group p g s).
Proof.
  unfold online_fair_sched_group. apply (fold_kept shares_kept). clear s. intros s i. apply shares_bw. etransitivity; [|apply shares_attach]. by apply shares_bw.
Qed.
Lemma shares_set g shares s : shares_ok s -> shares_ok (sched_group_set_shares g shares s).1.
Proof.
  intros Hs. unfold sched_group_set_shares. destruct (tg_parent _); [|done]. cbv zeta. destruct (_ =? _); [done|]. cbn [fst].
  set (s1 := upd_tg g _ s). apply (kept_ok s1).
  - apply (fold_kept shares_kept). clear s Hs s1. intros s i. etransitivity; [|apply shares_walk_kept]. by apply shares_bw.
  - intros e. unfold s1. rewrite sh_tg_upd. destruct (decide (g = e)) as [<-|]; [|apply Hs]. cbn [sh_shares]. unfold share_range.
    assert (scale_load MIN_SHARES <= scale_load MAX_SHARES) by (by vm_compute). cbn. lia.
Qed.
Lemma shares_alloc_queues mem g l s : shares_kept s (alloc_queues mem g l s).1.
Proof.
  revert s. induction l as [|c l IH]; intros s; cbn; [reflexivity|]. destruct (mem c); [|reflexivity].
  etransitivity; [|apply IH]. unfold alloc_group_queue, init_tg_cfs_entry. cbv zeta. keep_shares.
Qed.
Lemma shares_create arrays mem g parent s : shares_ok s -> shares_ok (create_fair_group arrays mem g parent s).1.
Proof.
  intros Hs. unfold create_fair_group, alloc_fair_sched_group. destruct arrays; cbn [negb]; [|done]. cbv zeta.
  set (s1 := upd_tg g (fun t => t <| sh_shares := NICE_0_LOAD |>) _).
  assert (Hs1 : shares_ok s1).
  { intros e. unfold s1. rewrite !sh_tg_upd. destruct (decide (g = e)) as [<-|]; [|apply Hs]. rewrite decide_True by done. by vm_compute. }
  match goal with |- context [alloc_queues mem g ?l ?t] => pose proof (shares_alloc_queues mem g l t) as Hk end.
  destruct (alloc_queues _ _ _ _) as [s2 ok]. cbn [fst] in Hk. destruct ok; [|done]. cbn [fst]. by apply (kept_ok s1).
Qed.

(** ** Contributions *)

Context (cpus : list Z) (Hcpus : NoDup cpus).

Lemma contrib_create arrays mem g parent s : contrib_sum cpus s -> contrib_sum cpus (create_fair_group arrays mem g parent s).1.
Proof.
  intros Hs. unfold create_fair_group, alloc_fair_sched_group. destruct arrays; cbn [negb]; [|done]. cbv zeta.
  match goal with |- context [alloc_queues mem g _ ?t] => set (s1 := t) end.
  match goal with |- context [alloc_queues mem g ?x s1] => generalize x; intros l end.
  assert (Hs1 : contrib_sum cpus s1 /\ (forall c, gl_contrib (gl s1 g c) = 0)).
  { assert (E : forall e, sh_tg s1 e = if decide (g = e) then mkShareGroup NICE_0_LOAD 0 (fun _ => zero_group_load) else sh_tg s e).
    { intros e. unfold s1. cbn -[upd_tg]. rewrite !sh_tg_upd. destruct (decide (g = e)) as [<-|]; [|done]. by rewrite decide_True. }
    split; [|intros c; unfold gl; rewrite E, decide_True by done; done].
    intros e. unfold gl. rewrite E. destruct (decide (g = e)) as [<-|]; [|apply Hs]. cbn. by rewrite sum_of_zero. }
  clearbody s1. assert (Ha : contrib_sum cpus (alloc_queues mem g l s1).1).
  { clear Hs s. destruct Hs1 as [Hs Hz]. revert s1 Hs Hz. induction l as [|c l IH]; intros s Hs Hz; cbn; [done|]. destruct (mem c); [|done].
    assert (Hk : contrib_kept s (alloc_group_queue g c s)).
    { unfold alloc_group_queue, init_tg_cfs_entry. cbv zeta. apply contrib_gl; [done|]. apply contrib_bw. intros e.
      rewrite sh_load_avg_gl. split; [done|]. intros d. rewrite gl_upd. destruct (decide (g = e /\ c = d)) as [[<- <-]|]; [|done]. cbn. by rewrite Hz. }
    apply IH; [by apply (sum_kept cpus s)|]. intros d. by rewrite (proj2 (Hk g)). }
  destruct (alloc_queues _ _ _ _) as [s2 ok]. cbn [fst] in Ha. destruct ok; [exact Ha|exact Hs].
Qed.

Lemma contrib_propagate_up n g c s : c ∈ cpus -> contrib_sum cpus s -> contrib_sum cpus (propagate_up n g c s).
Proof.
  intros Hc. revert g s. induction n as [|n IH]; intros g s Hs; cbn; [done|]. destruct (tg_parent _) as [p|]; [|done].
  destruct (cfs_rq_throttled _ _ _); [done|]. apply IH. by apply sum_update_load.
Qed.
Lemma contrib_attach p g c s : c ∈ cpus -> contrib_sum cpus s -> contrib_sum cpus (attach_group_cfs_rq p g c s).
Proof.
  intros Hc Hs. unfold attach_group_cfs_rq. cbv zeta. set (s1 := group_update_load_avg _ _ _ _ s).
  assert (Hs1 : contrib_sum cpus s1) by (by apply sum_update_load). clearbody s1. set (s2 := attach_group_load_avg p g c s1).
  assert (Hs2 : contrib_sum cpus s2).
  { apply (sum_kept cpus s1); [|done]. unfold s2, attach_group_load_avg, set_tg_cfs_propagate. cbv zeta. repeat (apply contrib_gl; [done|]). reflexivity. }
  unfold propagate_entity_cfs_rq. destruct (tg_parent _); [apply contrib_propagate_up; [done|]|]; by apply sum_update_tg.
Qed.

(** Loops over the CPUs of the system. *)
Definition system_cpus (s : share_state) : Prop :=
  forall c, c ∈ for_each_cpu (bw_k (sh_bw s)) (cpu_possible_mask (bw_k (sh_bw s))) -> c ∈ cpus.

Lemma contrib_online p g s : system_cpus s -> contrib_sum cpus s -> contrib_sum cpus (online_fair_sched_group p g s).
Proof.
  unfold system_cpus, online_fair_sched_group. generalize (for_each_cpu (bw_k (sh_bw s)) (cpu_possible_mask (bw_k (sh_bw s)))).
  intros l. revert s. induction l as [|i l IH]; intros s Hp Hs; [done|]. cbn [foldl]. apply IH; [intros c Hc; apply Hp; by right|].
  apply (sum_kept cpus (attach_group_cfs_rq p g i (on_bw (on_kernel (update_rq_clock i)) s))); [by apply contrib_bw|].
  apply contrib_attach; [apply Hp; by left|]. by apply (sum_kept cpus s).
Qed.

Lemma remove_kept p g c s : contrib_kept s (remove_group_load_avg p g c s) /\ shares_kept s (remove_group_load_avg p g c s).
Proof.
  unfold remove_group_load_avg. cbv zeta. split; [repeat (apply contrib_gl; [done|]); reflexivity|keep_shares].
Qed.
Lemma unregister_kept p g s :
  contrib_kept (gs_share s) (gs_share (unregister_fair_sched_group p g s)) /\
  shares_kept (gs_share s) (gs_share (unregister_fair_sched_group p g s)).
Proof.
  unfold unregister_fair_sched_group. generalize (for_each_cpu (bw_k (sh_bw (gs_share s))) (cpu_possible_mask (bw_k (sh_bw (gs_share s))))).
  intros l. revert s. induction l as [|c l IH]; intros s; [by split|]. cbn [foldl].
  match goal with |- contrib_kept _ (gs_share (foldl _ ?s1 _)) /\ _ => destruct (IH s1) as [H1' H2'];
    assert (E : gs_share s1 = remove_group_load_avg p g c (gs_share s)) by (cbv zeta; by destruct (negb _)) end.
  rewrite E in H1', H2'. destruct (remove_kept p g c (gs_share s)). split; etransitivity; eauto.
Qed.
Lemma blocked_kept c l s : c ∈ cpus -> contrib_sum cpus s -> contrib_sum cpus (group_blocked_averages c l s) /\ shares_kept s (group_blocked_averages c l s).
Proof.
  intros Hc. unfold group_blocked_averages. set (s0 := on_bw _ s). intros Hs. assert (Hs0 : contrib_sum cpus s0 /\ shares_kept s s0) by (by split).
  clearbody s0. revert s0 Hs0. induction l as [|g l IH]; intros s1 [Hs1 Hk]; [done|]. cbn [foldl]. apply IH. unfold blocked_queue.
  destruct (throttled_hierarchy _ _ _); [done|]. pose proof (contrib_cfs_rq (cfs_rq_clock_task g c (sh_bw s1)) g c s1) as C2.
  pose proof (shares_cfs_rq (cfs_rq_clock_task g c (sh_bw s1)) g c s1) as K2. destruct (group_cfs_rq_load_avg _ _ _ _) as [s2 d]. cbn [fst] in C2, K2.
  set (s3 := if d then _ else s2). assert (H3 : contrib_sum cpus s3 /\ shares_kept s2 s3).
  { unfold s3. destruct d; [|split; [by apply (sum_kept cpus s1)|reflexivity]].
    split; [apply sum_update_tg; [done|done|]; by apply (sum_kept cpus s1)|apply shares_update_tg]. }
  clearbody s3. destruct H3 as [C3 K3]. assert (K : shares_kept s s3) by (by transitivity s1; [|transitivity s2]).
  destruct (tg_parent _); [|done]. destruct (skip_blocked_update _ _ _); [done|].
  split; [by apply sum_update_load|]. transitivity s3; [done|apply shares_update_load].
Qed.

(** What happens to groups: updates of an entity and its queue, of the
    contribution, of the weight, of the shares, of the blocked averages; groups
    that come and go; and any change of the averages, flags, lists and bandwidth
    in between. *)
Inductive group_step : group_state -> group_state -> Prop :=
  | step_load p g c flags s : c ∈ cpus -> group_step s (s <| gs_share ::= group_update_load_avg p g c flags |>)
  | step_contrib g c force s : c ∈ cpus -> group_step s (s <| gs_share ::= update_tg_load_avg g c force |>)
  | step_weight g c s : group_step s (s <| gs_share ::= update_cfs_shares g c |>)
  | step_shares g shares s :
      system_cpus (gs_share s) -> group_step s (s <| gs_share ::= fun t => (sched_group_set_shares g shares t).1 |>)
  | step_blocked c s : c ∈ cpus -> group_step s (s <| gs_share ::= group_blocked_averages c (leaf_cfs_rq_list (gs_leaf s c)) |>)
  | step_create arrays mem g parent s : group_step s (s <| gs_share ::= fun t => (create_fair_group arrays mem g parent t).1 |>)
  | step_online p g s : system_cpus (gs_share s) -> group_step s (s <| gs_share ::= online_fair_sched_group p g |>)
  | step_remove p g s : group_step s (unregister_fair_sched_group p g s)
  | step_tasks g c f h l s :
      (forall q, gl_contrib (f q) = gl_contrib q) -> group_step s (s <| gs_share ::= fun t => on_bw h (upd_gl g c f t) |> <| gs_leaf ::= l |>).

Definition group_ok (s : group_state) : Prop := contrib_sum cpus (gs_share s) /\ shares_ok (gs_share s).

Lemma group_step_ok s s' : group_step s s' -> group_ok s -> group_ok s'.
Proof.
  destruct 1; intros [Hc Hs]; unfold group_ok; cbn [gs_share].
  - split; [by apply sum_update_load|]. by eapply kept_ok; [apply shares_update_load|].
  - split; [by apply sum_update_tg|]. by eapply kept_ok; [apply shares_update_tg|].
  - split; [eapply sum_kept; [apply contrib_shares|done]|]. by eapply kept_ok; [apply shares_weight|].
  - split; [by apply sum_set_shares|by apply shares_set].
  - pose proof (blocked_kept c (leaf_cfs_rq_list (gs_leaf s c)) (gs_share s)) as Hb. destruct Hb as [? Hk]; [done|done|]. split; [done|by eapply kept_ok].
  - split; [by apply contrib_create|by apply shares_create].
  - split; [by apply contrib_online|]. by eapply kept_ok; [apply shares_online|].
  - destruct (unregister_kept p g s) as [C K]. split; [by eapply sum_kept|by eapply kept_ok].
  - split; [apply (sum_kept cpus (gs_share s)); [|done]; apply contrib_bw; by apply contrib_gl|]. eapply kept_ok; [|done].
    apply (shares_bw h), shares_gl. reflexivity.
Qed.
End Groups.

(** C24: Through the life of groups and every sequence of updates of loads,
    weights and shares, the sum that a group keeps is the sum of what its CPUs
    have contributed, modulo the width of the counter, and its shares are in
    their range.  Whenever [update_cfs_shares] is called then for a group below
    another, on a CPU where neither it nor a group above it is throttled, it
    leaves the entity of the group with a weight between the minimum and the
    shares; a throttled group keeps the weight it had. *)
Theorem group_load_is_sum `{FairEnv} `{PeltTable} `{BwEnv} cpus s s' :
  NoDup cpus -> group_ok cpus s -> rtc (group_step cpus) s s' ->
  contrib_sum cpus (gs_share s') /\
  forall g c, share_range (sh_shares (sh_tg (gs_share s') g)) /\
    (forall p, tg_parent (tgs (sh_bw (gs_share s')) g) = Some p -> throttled_hierarchy g c (sh_bw (gs_share s')) = false ->
     MIN_SHARES <= gse_weight (grq (sh_bw (update_cfs_shares g c (gs_share s'))) g c) <= sh_shares (sh_tg (gs_share s') g)).
Proof.
  intros Hnd Hs Hr. assert (Hs' : group_ok cpus s').
  { induction Hr as [|a b d Hab _ IH]; [done|]. apply IH. by eapply group_step_ok. }
  destruct Hs' as [Hc Hsh]. split; [done|]. intros g c. split; [apply Hsh|]. intros p Hp Ht.
  assert (Hrg : MIN_SHARES <= sh_shares (sh_tg (gs_share s') g) < 2 ^ 63).
  { specialize (Hsh g). revert Hsh. unfold share_range, MIN_SHARES.
    change (scale_load 2) with 2048. change (scale_load MAX_SHARES) with 268435456. lia. }
  pose proof (shares_between g c (gs_share s') Hrg) as Hb. unfold update_cfs_shares. rewrite Hp, Ht.
  unfold on_bw. cbn. rewrite reweighted, u64_id; [done|]. unfold MIN_SHARES in *. lia.
Qed.

#[local] Instance demo_groups_env : BwEnv :=
  {| sysctl_sched_cfs_bandwidth_slice := 5000; TICK_NSEC := 4000000; tg_levels := 3;
     hrtimer_callback_running := fun _ _ => false; hrtimer_expires_remaining := fun _ _ => 50000000;
     bw_others := fun s => s |}.
#[local] Instance demo_groups_fair : FairEnv :=
  {| tun := default_tunables; CONFIG_SCHED_DEBUG := true; feat_START_DEBIT := true; feat_GENTLE_FAIR_SLEEPERS := true; feat_NEXT_BUDDY := false;
     feat_LAST_BUDDY := true; feat_WAKEUP_PREEMPTION := true; feat_ATTACH_AGE_LOAD := true; newidle_balance := fun c k => (k, 0) |}.

Definition demo_groups : group_state := mkGroups demo_share (fun _ => leaf_init).

Definition demo_groups1 : group_state := demo_groups <| gs_share ::= fun t => (create_fair_group true (fun _ => true) 2 1 t).1 |>.
Definition demo_groups2 : group_state := demo_groups1 <| gs_share ::= online_fair_sched_group 1 2 |>.
Definition demo_groups3 : group_state := demo_groups2 <| gs_share ::= fun t => (sched_group_set_shares 1 (scale_load 2048) t).1 |>.

Lemma demo_two : NoDup [0; 1].
Proof. repeat constructor; set_solver. Qed.

(** A new group in the group 1, which then gets twice its shares. *)
Lemma group_load_is_sum_witness :
  let s := gs_share demo_groups3 in
  contrib_sum [0; 1] s /\ sh_shares (sh_tg s 2) = scale_load 1024 /\ sh_shares (sh_tg s 1) = scale_load 2048 /\
  MIN_SHARES <= gse_weight (grq (sh_bw (update_cfs_shares 1 0 s)) 1 0) <= scale_load 2048.
Proof.
  cbv zeta. assert (Hp : system_cpus [0; 1] (gs_share demo_groups1) /\ system_cpus [0; 1] (gs_share demo_groups2)).
  { split; intros c Hc; vm_compute in Hc; set_solver. }
  assert (E : sh_shares (sh_tg (gs_share demo_groups3) 1) = scale_load 2048 /\ sh_shares (sh_tg (gs_share demo_groups3) 2) = scale_load 1024) by (by vm_compute).
  destruct (group_load_is_sum [0; 1] demo_groups demo_groups3) as [Hs Hw].
  - exact demo_two.
  - split; intros g; by vm_compute.
  - apply (rtc_l _ _ demo_groups1); [exact (step_create [0; 1] true (fun _ => true) 2 1 demo_groups)|].
    apply (rtc_l _ _ demo_groups2); [exact (step_online [0; 1] 1 2 demo_groups1 (proj1 Hp))|].
    apply rtc_once. exact (step_shares [0; 1] 1 (scale_load 2048) demo_groups2 (proj2 Hp)).
  - destruct (Hw 1 0) as [_ Hr], E as [E1 E2]. specialize (Hr root_task_group). rewrite E1 in Hr.
    split_and!; [exact Hs|exact E2|exact E1|apply Hr; by vm_compute|apply Hr; by vm_compute].
Defined.
