(* ===== verification/NohzLoad.v ===== *)
(** * The load of a CPU without a tick (fair.c)

    The load indices of a CPU are averages over the load at each tick.  When a
    CPU has had no tick for a while, the missed updates are made up for at once:
    the old value decays by a power that is computed from a table of factors, and
    what the CPU had all the time is added.

    The theorem: whatever number of ticks was missed, every index stays between
    the smallest and the largest of the loads that went into it. *)

From S2P Require Import Prelude SchedTypes Core Wrr CorePolicy RtBandwidth FairMath FairPelt FairQueue.

Definition DEGRADE_SHIFT : Z := 7.
Definition degrade_zero_ticks : list Z := [0; 8; 32; 64; 128].
Definition degrade_factor : list (list Z) :=
  [[0; 0; 0; 0; 0; 0; 0; 0];
   [64; 32; 8; 0; 0; 0; 0; 0];
   [96; 72; 40; 12; 1; 0; 0; 0];
   [112; 98; 75; 43; 15; 1; 0; 0];
   [120; 112; 98; 76; 45; 16; 2; 0]].

(** The loop over the bits of [missed], along the row of factors. *)
Fixpoint decay_row (row : list Z) (load missed : Z) : Z :=
  if missed =? 0 then load
  else match row with
       | [] => load
       | f :: row =>
           decay_row row (if Z.odd missed then Z.shiftr (u64 (load * f)) DEGRADE_SHIFT else load) (Z.shiftr missed 1)
       end.

Definition decay_load_missed (load missed_updates : Z) (idx : nat) : Z :=
  if missed_updates =? 0 then load
  else if nth idx degrade_zero_ticks 0 <=? missed_updates then 0
  else if decide (idx = 1%nat) then Z.shiftr load missed_updates
  else decay_row (nth idx degrade_factor []) load missed_updates.

(** The run queue of a CPU with the tick of its last update. *)
Record tick_state := mkTick { tk_k : kernel; last_load_update_tick : Z -> Z }.
#[export] Instance eta_tick_state : Settable tick_state := fun r => mkTick (tk_k r) (last_load_update_tick r).

(** The old load of an index after the missed updates. *)
Definition missed_load (i : nat) (old_load tickless_load pending_updates : Z) : Z :=
  let missed := u64 (pending_updates - 1) in
  let old_load := decay_load_missed old_load missed i in
  if negb (tickless_load =? 0)
  then u64 (u64 (old_load - decay_load_missed tickless_load missed i) + tickless_load)
  else old_load.

Definition cpu_load_update_missed (c this_load pending_updates : Z) (k : kernel) : kernel :=
  let tickless_load := nth 0 (cpu_load (rqs k c)) 0 in
  let k := upd_rq c (fun r => r <| nr_load_updates ::= fun n => u64 (n + 1) |>
    <| cpu_load ::= imap (fun i old => if decide (i = 0%nat) then this_load
         else next_cpu_load (Z.of_nat i) (missed_load i old tickless_load pending_updates) this_load) |>) k in
  sched_avg_update c k.

Definition cpu_load_update_nohz (c curr_jiffies load : Z) (s : tick_state) : tick_state :=
  let pending_updates := u64 (curr_jiffies - last_load_update_tick s c) in
  if negb (pending_updates =? 0) then
    let s := s <| last_load_update_tick ::= alter (fun _ => curr_jiffies) c |> in
    s <| tk_k ::= cpu_load_update_missed c load pending_updates |>
  else s.

Definition cpu_load_update_idle (c : Z) (s : tick_state) : tick_state :=
  if negb (weighted_cpuload (tk_k s) c =? 0) then s else cpu_load_update_nohz c (jiffies (tk_k s)) 0 s.

Definition cpu_load_update_nohz_start (s : tick_state) : tick_state :=
  let c := this_cpu (tk_k s) in
  s <| tk_k ::= upd_rq c (fun r => r <| cpu_load ::= fun l => <[0%nat := weighted_cpuload (tk_k s) c]> l |>) |>.

Definition cpu_load_update_nohz_stop (s : tick_state) : tick_state :=
  let curr_jiffies := jiffies (tk_k s) in
  let c := this_cpu (tk_k s) in
  if curr_jiffies =? last_load_update_tick s c then s
  else
    let load := weighted_cpuload (tk_k s) c in
    let s := s <| tk_k ::= update_rq_clock c |> in
    cpu_load_update_nohz c curr_jiffies load s.

Definition nohz_load_update_periodic (c load : Z) (s : tick_state) : tick_state :=
  let s := s <| last_load_update_tick ::= alter (fun _ => jiffies (tk_k s)) c |> in
  s <| tk_k ::= cpu_load_update_missed c load 1 |>.

(** [stopped] is [tick_nohz_tick_stopped()]. *)
Definition cpu_load_update_active (stopped : bool) (c : Z) (s : tick_state) : tick_state :=
  let load := weighted_cpuload (tk_k s) c in
  if stopped then cpu_load_update_nohz c (jiffies (tk_k s)) load s else nohz_load_update_periodic c load s.

(** ** Decay *)

(** A map that grows by at most one per step, and not more than its argument. *)
Definition slow (d : Z -> Z) : Prop :=
  d 0 = 0 /\ forall x y, 0 <= x -> x <= y < 2 ^ 57 -> 0 <= d y - d x <= y - x.

Lemma slow_bounds d x : slow d -> 0 <= x < 2 ^ 57 -> 0 <= d x <= x.
Proof. intros [E Hd] Hx. specialize (Hd 0 x). lia. Qed.
Lemma slow_id : slow (fun x => x).
Proof. split; [done|]. lia. Qed.
Lemma slow_zero : slow (fun _ => 0).
Proof. split; [done|]. lia. Qed.
Lemma slow_comp d e : slow d -> slow e -> slow (fun x => d (e x)).
Proof.
  intros Hd He. pose proof Hd as [Ed Hd']. pose proof He as [Ee He']. split; [by rewrite Ee|]. intros x y Hx Hxy.
  pose proof (slow_bounds e x He ltac:(lia)). pose proof (slow_bounds e y He ltac:(lia)). specialize (He' x y Hx Hxy). specialize (Hd' (e x) (e y)). lia.
Qed.
Lemma slow_scale f n : 0 <= f <= 2 ^ n -> 0 <= n <= 7 -> slow (fun x => Z.shiftr (u64 (x * f)) n).
Proof.
  intros Hf Hn. assert (Hp : 0 < 2 ^ n <= 2 ^ 7) by (split; [lia|apply Z.pow_le_mono_r; lia]).
  split; [rewrite Z.mul_0_l, u64_id by lia; by rewrite Z.shiftr_0_l|]. intros x y Hx Hxy.
  rewrite !u64_id by nia. rewrite !Z.shiftr_div_pow2 by lia.
  pose proof (Z.div_le_mono (x * f) (y * f) (2 ^ n) ltac:(lia) ltac:(nia)).
  assert ((y * f) / 2 ^ n <= (x * f) / 2 ^ n + (y - x)); [|lia].
  rewrite <- Z.div_add by lia. apply Z.div_le_mono; nia.
Qed.
Lemma slow_shift n : 0 <= n -> slow (fun x => Z.shiftr x n).
Proof.
  intros Hn. assert (0 < 2 ^ n) by lia. split; [by rewrite Z.shiftr_0_l|]. intros x y Hx Hxy. rewrite !Z.shiftr_div_pow2 by lia.
  pose proof (Z.div_le_mono x y (2 ^ n) ltac:(lia) ltac:(lia)).
  assert (y / 2 ^ n <= x / 2 ^ n + (y - x)); [|lia]. rewrite <- Z.div_add by lia. apply Z.div_le_mono; nia.
Qed.

Lemma slow_row row missed : Forall (fun f => 0 <= f <= 128) row -> slow (fun x => decay_row row x missed).
Proof.
  revert missed. induction row as [|f row IH]; intros missed Hrow; cbn; destruct (missed =? 0); try apply slow_id.
  apply Forall_cons in Hrow as [Hf Hrow]. destruct (Z.odd missed); [|by apply IH].
  apply (slow_comp (fun x => decay_row row x (Z.shiftr missed 1))); [by apply IH|]. apply (slow_scale f 7); lia.
Qed.

Lemma slow_decay missed idx : 0 <= missed -> slow (fun x => decay_load_missed x missed idx).
Proof.
  intros Hm. unfold decay_load_missed. destruct (missed =? 0); [apply slow_id|]. destruct (_ <=? missed); [apply slow_zero|].
  destruct (decide _); [by apply slow_shift|]. apply slow_row.
  do 5 (destruct idx as [|idx]; [cbn; repeat constructor; lia|]). cbn. destruct idx; constructor.
Qed.

(** The bits of the missed ticks fit into the row. *)
Lemma decay_row_enough row load missed :
  0 <= missed < 2 ^ Z.of_nat (length row) -> forall more, decay_row (row ++ more) load missed = decay_row row load missed.
Proof.
  revert load missed. induction row as [|f row IH]; intros load missed Hm more; cbn -[Z.pow Z.of_nat] in *.
  - assert (missed = 0) as -> by lia. by destruct more.
  - destruct (missed =? 0); [done|]. apply IH. rewrite Z.shiftr_div_pow2 by lia. change (2 ^ 1) with 2.
    rewrite Nat2Z.inj_succ, Z.pow_succ_r in Hm by lia. split; [apply Z.div_pos; lia|apply Z.div_lt_upper_bound; lia].
Qed.

(** ** Averages *)

Lemma missed_between i old tickless pending lo hi :
  0 <= lo -> hi < 2 ^ 57 -> lo <= old <= hi -> lo <= tickless <= hi -> 0 < pending < 2 ^ 64 ->
  lo <= missed_load i old tickless pending <= hi.
Proof.
  intros Hlo Hhi Ho Ht Hp. unfold missed_load. cbv zeta. set (m := u64 (pending - 1)).
  pose proof (slow_decay m i ltac:(apply u64_range)) as Hd. set (d := fun x => decay_load_missed x m i) in *.
  change (decay_load_missed old m i) with (d old). change (decay_load_missed tickless m i) with (d tickless).
  pose proof (slow_bounds d old Hd ltac:(lia)). pose proof (slow_bounds d tickless Hd ltac:(lia)).
  destruct (Z.eqb_spec tickless 0) as [->|Hne]; cbn [negb]; [lia|].
  assert (E : u64 (u64 (d old - d tickless) + tickless) = d old - d tickless + tickless).
  { rewrite u64_add_l. apply u64_id. lia. }
  rewrite E. destruct Hd as [_ Hd]. destruct (Z_le_gt_dec old tickless) as [Hle|Hgt].
  - specialize (Hd old tickless). lia.
  - specialize (Hd tickless old). lia.
Qed.

Lemma next_between i old this lo hi :
  1 <= i <= 4 -> 0 <= lo -> hi < 2 ^ 57 -> lo <= old <= hi -> lo <= this <= hi -> lo <= next_cpu_load i old this <= hi.
Proof.
  intros Hi Hlo Hhi Ho Ht. unfold next_cpu_load. cbv zeta. rewrite Z.shiftl_1_l.
  assert (Hp : 2 <= 2 ^ i <= 16) by (split; [apply (Z.pow_le_mono_r 2 1 i)|apply (Z.pow_le_mono_r 2 i 4)]; lia).
  set (n := 2 ^ i) in *. rewrite Z.shiftr_div_pow2 by lia. fold n. destruct (Z.ltb_spec old this).
  - rewrite (u64_id (this + _)) by lia. rewrite u64_id by nia. split; [apply Z.div_le_lower_bound; nia|].
    apply Z.lt_succ_r. apply Z.div_lt_upper_bound; nia.
  - rewrite u64_id by nia. split; [apply Z.div_le_lower_bound; nia|apply Z.div_le_upper_bound; nia].
Qed.

(** The indices of a CPU are all between [lo] and [hi]. *)
Definition loads_between (lo hi : Z) (l : list Z) : Prop := length l = CPU_LOAD_IDX_MAX /\ Forall (fun x => lo <= x <= hi) l.

Lemma avg_keeps_load n c period k d : cpu_load (rqs (avg_loop n c period k) d) = cpu_load (rqs k d).
Proof.
  revert k. induction n as [|n IH]; intros k; cbn [avg_loop]; [done|]. destruct (_ <? _); [|done].
  rewrite IH, rqs_upd_rq. by destruct (decide (c = d)) as [<-|].
Qed.

Lemma update_between c load pending lo hi k :
  0 <= lo -> hi < 2 ^ 57 -> loads_between lo hi (cpu_load (rqs k c)) -> lo <= load <= hi -> 0 < pending < 2 ^ 64 ->
  loads_between lo hi (cpu_load (rqs (cpu_load_update_missed c load pending k) c)).
Proof.
  intros Hlo Hhi [Hlen Hl] Hload Hp. unfold cpu_load_update_missed, sched_avg_update. cbv zeta.
  rewrite avg_keeps_load, rqs_upd_rq, decide_True by done.
  assert (Ht : lo <= nth 0 (cpu_load (rqs k c)) 0 <= hi).
  { destruct (cpu_load (rqs k c)) as [|x l]; [done|]. by apply Forall_cons in Hl as [Hx _]. }
  cbn -[next_cpu_load missed_load]. split; [by rewrite length_imap|]. apply Forall_lookup. intros i x. rewrite list_lookup_imap.
  destruct (cpu_load (rqs k c) !! i) as [old|] eqn:E; [|done]. intros [= <-].
  assert (Hi : (i < 5)%nat) by (apply lookup_lt_Some in E; by rewrite Hlen in E).
  rewrite Forall_lookup in Hl. specialize (Hl i old E). destruct (decide (i = 0%nat)); [done|].
  apply next_between; [lia|done|done| |done]. by apply missed_between.
Qed.

(** With no tick missed the update is the periodic one of [FairQueue]. *)
Lemma update_missed_none c load k :
  Forall (fun x => 0 <= x < 2 ^ 64) (cpu_load (rqs k c)) ->
  cpu_load (rqs (cpu_load_update_missed c load 1 k) c) = cpu_load (rqs (cpu_load_update c load k) c).
Proof.
  intros Hl. unfold cpu_load_update_missed, cpu_load_update, sched_avg_update. cbv zeta. rewrite !avg_keeps_load, !rqs_upd_rq, !decide_True by done.
  cbn. apply list_eq. intros i. rewrite !list_lookup_imap. destruct (cpu_load (rqs k c) !! i) as [old|] eqn:E; [|done]. cbn. f_equal.
  destruct (decide (i = 0%nat)); [done|]. f_equal. rewrite Forall_lookup in Hl. specialize (Hl i old E).
  unfold missed_load, decay_load_missed. cbv zeta. change (u64 (1 - 1) =? 0) with true. cbv match.
  destruct (negb _); [|done]. rewrite u64_add_l, u64_id by lia. lia.
Qed.

(** ** Over time *)

Lemma clock_keeps_load c k d :
  cpu_load (rqs (update_rq_clock c k) d) = cpu_load (rqs k d) /\ weighted_cpuload (update_rq_clock c k) d = weighted_cpuload k d.
Proof.
  unfold update_rq_clock, update_rq_clock_task, weighted_cpuload, cfs_of. cbv zeta. destruct (has_flag _ _); [done|]. destruct (_ <? 0); [done|].
  rewrite !rqs_upd_rq. destruct (decide (c = d)) as [<-|]; [|done]. by rewrite decide_True.
Qed.

(** What happens to the indices of the CPU [c]: a tick, idle balancing on behalf
    of it, the start and the end of a time without ticks. *)
Inductive load_event := load_tick (stopped : bool) | load_idle | load_start | load_stop.
Definition load_exec (c : Z) (e : load_event) (s : tick_state) : tick_state :=
  match e with
  | load_tick stopped => cpu_load_update_active stopped c s
  | load_idle => cpu_load_update_idle c s
  | load_start => cpu_load_update_nohz_start s
  | load_stop => cpu_load_update_nohz_stop s
  end.

Lemma nohz_between c j load lo hi s :
  0 <= lo -> hi < 2 ^ 57 -> loads_between lo hi (cpu_load (rqs (tk_k s) c)) -> lo <= load <= hi ->
  loads_between lo hi (cpu_load (rqs (tk_k (cpu_load_update_nohz c j load s)) c)).
Proof.
  intros Hlo Hhi Hl Hload. unfold cpu_load_update_nohz. cbv zeta. destruct (Z.eqb_spec (u64 (j - last_load_update_tick s c)) 0) as [|Hne]; [done|].
  cbn [negb]. apply update_between; try done. pose proof (u64_range (j - last_load_update_tick s c)). lia.
Qed.

Lemma exec_between c e lo hi s :
  0 <= lo -> hi < 2 ^ 57 -> this_cpu (tk_k s) = c -> lo <= weighted_cpuload (tk_k s) c <= hi ->
  loads_between lo hi (cpu_load (rqs (tk_k s) c)) -> loads_between lo hi (cpu_load (rqs (tk_k (load_exec c e s)) c)).
Proof.
  intros Hlo Hhi Hc Hw Hl. destruct e as [[]| | |]; cbn [load_exec].
  - by apply nohz_between.
  - unfold cpu_load_update_active, nohz_load_update_periodic. cbv zeta. by apply update_between.
  - unfold cpu_load_update_idle. destruct (Z.eqb_spec (weighted_cpuload (tk_k s) c) 0) as [E|]; [|done]. cbn [negb]. apply nohz_between; [done|done|done|lia].
  - unfold cpu_load_update_nohz_start. cbv zeta. rewrite Hc. cbn [tk_k]. destruct Hl as [Hlen Hl].
    match goal with |- loads_between _ _ (cpu_load (rqs ?t c)) => change t with
      (upd_rq c (fun r => r <| cpu_load ::= fun l => <[0%nat := weighted_cpuload (tk_k s) c]> l |>) (tk_k s)) end.
    rewrite rqs_upd_rq, decide_True by done. cbn. split; [by rewrite length_insert|]. by apply Forall_insert.
  - unfold cpu_load_update_nohz_stop. cbv zeta. rewrite Hc. destruct (_ =? _); [done|]. apply nohz_between; try done.
    change (tk_k (s <| tk_k ::= update_rq_clock c |>)) with (update_rq_clock c (tk_k s)). by rewrite (proj1 (clock_keeps_load c (tk_k s) c)).
Qed.

(** Events on the CPU while its load is between [lo] and [hi]; in between, tasks
    run and time passes. *)
Inductive load_step (c lo hi : Z) : tick_state -> tick_state -> Prop :=
  | step_event e s :
      this_cpu (tk_k s) = c -> lo <= weighted_cpuload (tk_k s) c <= hi -> load_step c lo hi s (load_exec c e s)
  | step_time s s' : cpu_load (rqs (tk_k s') c) = cpu_load (rqs (tk_k s) c) -> load_step c lo hi s s'.

(** C29: Whatever happens to a CPU while its ticks come and go, for however many
    ticks it was without, each of its load indices stays between the smallest and
    the largest load that it has had. *)
Theorem cpu_load_stays_between c lo hi s s' :
  0 <= lo -> hi < 2 ^ 57 -> loads_between lo hi (cpu_load (rqs (tk_k s) c)) -> rtc (load_step c lo hi) s s' ->
  loads_between lo hi (cpu_load (rqs (tk_k s') c)).
Proof.
  intros Hlo Hhi Hl Hr. induction Hr as [|a b d Hab _ IH]; [done|]. apply IH. destruct Hab as [e s Hc Hw|s s' E].
  - by apply exec_between.
  - by rewrite E.
Qed.

(** A CPU with a load of 1000 that was idle for ten ticks and gets a load of 200. *)
Definition demo_tick : tick_state :=
  mkTick (upd_rq 0 (fun r => r <| cpu_load := [0; 1000; 1000; 1000; 1000] |>)
            (upd_cfs 0 (fun q => q <| runnable_load_avg := 200 |>) (demo_kernel fair_sched_class SCHED_NORMAL 120) <| jiffies := 11 |>))
    (fun _ => 0).

Lemma cpu_load_stays_between_witness :
  let s := cpu_load_update_nohz_stop demo_tick in
  cpu_load (rqs (tk_k s) 0) = [200; 100; 89; 249; 499] /\ loads_between 0 1000 (cpu_load (rqs (tk_k s) 0)).
Proof.
  cbv zeta. split; [by vm_compute|].
  apply (cpu_load_stays_between 0 0 1000 demo_tick); [done|done| |].
  - split; [done|]. change (cpu_load (rqs (tk_k demo_tick) 0)) with [0; 1000; 1000; 1000; 1000].
    repeat (apply Forall_cons; split; [lia|]). apply Forall_nil_2.
  - apply rtc_once. apply (step_event 0 0 1000 load_stop); by vm_compute.
Defined.
