(* ===== verification/Nohz.v ===== *)
(** * CPUs without a tick (fair.c, core.c)

    A CPU that goes idle stops its tick and enters itself into a mask; a busy CPU
    that finds balancing due kicks one of them, which then balances for all CPUs
    of the mask.  The shared part of the domain of the last-level cache counts
    its busy CPUs.  Timers of an idle CPU move to a busy one.

    The state extends that of [NohzLoad] by the mask, its count, the flags of the
    CPUs and the counts of busy CPUs.  The theorems: mask, count and flags always
    agree and so do the counts of busy CPUs; the softirq of a kicked CPU runs to
    its end, keeps every task and clears the kick; timers move to a busy
    housekeeping CPU if there is one; and a tick may stop only when no two tasks
    have to take turns. *)

From S2P Require Import Prelude SchedTypes Core Frame Wrr CoreWake CorePolicy RtBandwidth.
From S2P Require Import FairMath FairPelt FairQueue FairInv FairOps FairFrame FairBusiest FairBalance FairMove FairBalanceInv FairSelect NohzLoad.

Record nohz_state := mkNohz {
  nz_tick : tick_state;
  idle_cpus_mask : gset Z;
  nohz_nr_cpus : Z;
  nohz_next_balance : Z;
  NOHZ_TICK_STOPPED : Z -> bool;   (* the flags of each CPU *)
  NOHZ_BALANCE_KICK : Z -> bool;
  nohz_idle : Z -> bool;           (* of each domain *)
  nr_busy_cpus : Z -> Z;           (* of each [struct sched_domain_shared] *)
  full_kicks : list Z }.           (* calls of [tick_nohz_full_kick_cpu] *)
#[export] Instance eta_nohz_state : Settable nohz_state :=
  fun r => mkNohz (nz_tick r) (idle_cpus_mask r) (nohz_nr_cpus r) (nohz_next_balance r) (NOHZ_TICK_STOPPED r)
    (NOHZ_BALANCE_KICK r) (nohz_idle r) (nr_busy_cpus r) (full_kicks r).

(** What the tick and the isolation of CPUs are set up to. *)
Class NohzEnv := {
  is_housekeeping_cpu : Z -> bool;
  housekeeping_any_cpu : Z;
  tick_nohz_full_cpu : Z -> bool;
  tick_nohz_tick_stopped : bool;
  sd_asym : Z -> option Z }.

Definition nz_k (s : nohz_state) : kernel := tk_k (nz_tick s).
Definition on_tick (f : tick_state -> tick_state) (s : nohz_state) : nohz_state := s <| nz_tick ::= f |>.
Definition on_k (f : kernel -> kernel) (s : nohz_state) : nohz_state := on_tick (fun t => t <| tk_k ::= f |>) s.

Section Nohz.
Context `{FairEnv} `{PeltTable} `{QueueOps} `{BalanceEnv} `{WrrConfig} `{SelectEnv} `{NohzEnv}.

(** ** Idle CPUs *)

Definition find_new_ilb (s : nohz_state) : Z :=
  let ilb := cpumask_first (nz_k s) (idle_cpus_mask s) in
  if (ilb <? nr_cpu_ids (nz_k s)) && idle_cpu (nz_k s) ilb then ilb else nr_cpu_ids (nz_k s).

Definition nohz_balancer_kick (s : nohz_state) : nohz_state :=
  let s := s <| nohz_next_balance ::= fun n => u64 (n + 1) |> in
  let ilb_cpu := find_new_ilb s in
  if nr_cpu_ids (nz_k s) <=? ilb_cpu then s
  else if NOHZ_BALANCE_KICK s ilb_cpu then s
  else
    let s := s <| NOHZ_BALANCE_KICK ::= alter (fun _ => true) ilb_cpu |> in
    on_k (call (smp_send_reschedule ilb_cpu)) s.

Definition nohz_balance_exit_idle (cpu : Z) (s : nohz_state) : nohz_state :=
  if NOHZ_TICK_STOPPED s cpu then
    let s := if decide (cpu ∈ idle_cpus_mask s)
             then s <| idle_cpus_mask ::= fun m => m ∖ {[cpu]} |> <| nohz_nr_cpus ::= fun n => s32 (n - 1) |> else s in
    s <| NOHZ_TICK_STOPPED ::= alter (fun _ => false) cpu |>
  else s.

(** The shared part of a domain is that of its CPU. *)
Definition set_cpu_sd_state_busy (s : nohz_state) : nohz_state :=
  let cpu := this_cpu (nz_k s) in
  match sd_llc cpu with
  | None => s
  | Some sd =>
      if negb (nohz_idle s sd) then s
      else
        let s := s <| nohz_idle ::= alter (fun _ => false) sd |> in
        match sd_llc_shared cpu with
        | Some h => s <| nr_busy_cpus ::= alter (fun n => s32 (n + 1)) h |>
        | None => s
        end
  end.
Definition set_cpu_sd_state_idle (s : nohz_state) : nohz_state :=
  let cpu := this_cpu (nz_k s) in
  match sd_llc cpu with
  | None => s
  | Some sd =>
      if nohz_idle s sd then s
      else
        let s := s <| nohz_idle ::= alter (fun _ => true) sd |> in
        match sd_llc_shared cpu with
        | Some h => s <| nr_busy_cpus ::= alter (fun n => s32 (n - 1)) h |>
        | None => s
        end
  end.

Definition nohz_balance_enter_idle (cpu : Z) (s : nohz_state) : nohz_state :=
  if negb (bool_decide (cpu ∈ cpu_active_mask (nz_k s))) then s
  else if negb (is_housekeeping_cpu cpu) then s
  else if NOHZ_TICK_STOPPED s cpu then s
  else if on_null_domain (nz_k s) cpu then s
  else s <| idle_cpus_mask ::= fun m => m ∪ {[cpu]} |> <| nohz_nr_cpus ::= fun n => s32 (n + 1) |>
         <| NOHZ_TICK_STOPPED ::= alter (fun _ => true) cpu |>.

(** ** Balancing for others *)

Definition nohz_rebalance_domains (fuel rounds : nat) (c : Z) (idle : cpu_idle_type) (s : nohz_state) : option nohz_state :=
  let k := update_blocked_averages c (nz_k s) in
  let st := mkReb idle true false 0 (u64 (jiffies k + 60 * HZ)) false in
  match rebalance_walk fuel rounds c (for_each_domain k c) st k with
  | None => None
  | Some (k, st) =>
      let k := if reb_decay st
               then upd_rq c (fun r => r <| max_idle_balance_cost :=
                      Z.max sysctl_sched_migration_cost (reb_max_cost st) |>) k else k in
      let s := on_k (fun _ => k) s in
      Some (if reb_update_next st then
              let s := on_k (upd_rq c (fun r => r <| next_balance := reb_next st |>)) s in
              if bool_decide (reb_idle st = CPU_IDLE) && time_after (nohz_next_balance s) (next_balance (rqs (nz_k s) c))
              then s <| nohz_next_balance := next_balance (rqs (nz_k s) c) |> else s
            else s)
  end.

(** The loop of [nohz_idle_balance] over the mask as it was; the earliest next
    balancing and whether there is one. *)
Fixpoint nohz_walk (fuel rounds : nat) (l : list Z) (next : Z) (update : bool) (s : nohz_state) : option (nohz_state * Z * bool) :=
  match l with
  | [] => Some (s, next, update)
  | c :: l =>
      let k := nz_k s in
      if (c =? this_cpu k) || negb (idle_cpu k c) then nohz_walk fuel rounds l next update s
      else if need_resched (tasks k (current k)) then Some (s, next, update)
      else
        s ← if time_after_eq (jiffies k) (next_balance (rqs k c)) then
              let s := on_k (update_rq_clock c) s in
              let s := on_tick (cpu_load_update_idle c) s in
              nohz_rebalance_domains fuel rounds c CPU_IDLE s
            else Some s;
        if time_after next (next_balance (rqs (nz_k s) c))
        then nohz_walk fuel rounds l (next_balance (rqs (nz_k s) c)) true s
        else nohz_walk fuel rounds l next update s
  end.

Definition nohz_idle_balance (fuel rounds : nat) (idle : cpu_idle_type) (s : nohz_state) : option nohz_state :=
  let this := this_cpu (nz_k s) in
  s ← if negb (bool_decide (idle = CPU_IDLE)) || negb (NOHZ_BALANCE_KICK s this) then Some s
      else
        '(s, next, update) ← nohz_walk fuel rounds (for_each_cpu (nz_k s) (idle_cpus_mask s)) (u64 (jiffies (nz_k s) + 60 * HZ)) false s;
        Some (if (update : bool) then s <| nohz_next_balance := next |> else s);
  Some (s <| NOHZ_BALANCE_KICK ::= alter (fun _ => false) this |>).

Definition nohz_run_rebalance (fuel rounds : nat) (s : nohz_state) : option nohz_state :=
  let c := this_cpu (nz_k s) in
  let idle := if idle_balance (rqs (nz_k s) c) then CPU_IDLE else CPU_NOT_IDLE in
  s ← nohz_idle_balance fuel rounds idle s;
  nohz_rebalance_domains fuel rounds c idle s.

(** Whether a CPU that is not idle asks for idle balancing. *)
Definition kick_due (c : Z) (s : nohz_state) : bool :=
  let k := nz_k s in
  if nohz_nr_cpus s =? 0 then false
  else if time_after (nohz_next_balance s) (jiffies k) then false
  else if 2 <=? nr_running (rqs k c) then true
  else if match sd_llc_shared c with Some h => 1 <? nr_busy_cpus s h | None => false end then true
  else if match rq_sd (rqs k c) with
          | Some sd => (1 <=? h_nr_running (cfs_of k c)) && check_cpu_capacity k c (domains k sd)
          | None => false
          end then true
  else match sd_asym c with
       | Some sd => existsb (fun i => negb ((i =? c) || negb (bool_decide (i ∈ idle_cpus_mask s))) && sched_asym_prefer i c)
                      (for_each_cpu k (sched_domain_span (domains k sd)))
       | None => false
       end.

Definition nohz_kick_needed (c : Z) (s : nohz_state) : nohz_state * bool :=
  if idle_balance (rqs (nz_k s) c) then (s, false)
  else
    let s := nohz_balance_exit_idle c (set_cpu_sd_state_busy s) in
    (s, kick_due c s).

Definition nohz_trigger_load_balance (c : Z) (s : nohz_state) : nohz_state :=
  if on_null_domain (nz_k s) c then s
  else
    let s := if time_after_eq (jiffies (nz_k s)) (next_balance (rqs (nz_k s) c)) then on_k (call raise_SCHED_SOFTIRQ) s else s in
    let '(s, kick) := nohz_kick_needed c s in
    if kick then nohz_balancer_kick s else s.

(** ** Waking CPUs *)

Definition resched_cpu (cpu : Z) (k : kernel) : kernel :=
  if bool_decide (cpu ∈ cpu_online_mask k) || (cpu =? this_cpu k) then resched_curr cpu k else k.

Definition get_nohz_timer_target (k : kernel) : Z :=
  let cpu := this_cpu k in
  if negb (idle_cpu k cpu) && is_housekeeping_cpu cpu then cpu
  else
    match list_find (fun i => i <> cpu /\ idle_cpu k i = false /\ is_housekeeping_cpu i = true)
            (flat_map (fun sd => for_each_cpu k (sched_domain_span (domains k sd))) (for_each_domain k cpu)) with
    | Some (_, i) => i
    | None => if negb (is_housekeeping_cpu cpu) then housekeeping_any_cpu else cpu
    end.

Definition wake_up_idle_cpu (cpu : Z) (s : nohz_state) : nohz_state :=
  if cpu =? this_cpu (nz_k s) then s
  else
    on_k (fun k => let '(k, not_polling) := set_nr_and_not_polling (idle (rqs k cpu)) k in
                   if not_polling then call (smp_send_reschedule cpu) k else k) s.

Definition wake_up_full_nohz_cpu (cpu : Z) (s : nohz_state) : nohz_state * bool :=
  if negb (bool_decide (cpu ∈ cpu_online_mask (nz_k s))) then (s, true)
  else if tick_nohz_full_cpu cpu then
    (if negb (cpu =? this_cpu (nz_k s)) || tick_nohz_tick_stopped then s <| full_kicks ::= cons cpu |> else s, true)
  else (s, false).

Definition wake_up_nohz_cpu (cpu : Z) (s : nohz_state) : nohz_state :=
  let '(s, done) := wake_up_full_nohz_cpu cpu s in
  if negb done then wake_up_idle_cpu cpu s else s.

Definition got_nohz_idle_kick (s : nohz_state) : nohz_state * bool :=
  let cpu := this_cpu (nz_k s) in
  if negb (NOHZ_BALANCE_KICK s cpu) then (s, false)
  else if idle_cpu (nz_k s) cpu && negb (need_resched (tasks (nz_k s) (current (nz_k s)))) then (s, true)
  else (s <| NOHZ_BALANCE_KICK ::= alter (fun _ => false) cpu |>, false).

Definition nohz_scheduler_ipi `{ClassOps} `{WakeEnv} (s : nohz_state) : nohz_state :=
  let c := this_cpu (nz_k s) in
  let '(s, go) := if bool_decide (wake_list (rqs (nz_k s) c) = []) then got_nohz_idle_kick s else (s, true) in
  if negb go then s
  else
    let s := on_k sched_ttwu_pending s in
    let '(s, kicked) := got_nohz_idle_kick s in
    if kicked then on_k (fun k => call raise_SCHED_SOFTIRQ (upd_rq c (fun r => r <| idle_balance := true |>) k)) s else s.

Definition sched_can_stop_tick (k : kernel) (c : Z) : bool :=
  let r := rqs k c in
  if negb (dl_nr_running r =? 0) then false
  else if negb (rr_nr_running (rt r) =? 0) then rr_nr_running (rt r) =? 1
  else
    let fifo_nr_running := s32 (rt_nr_running (rt r) - rr_nr_running (rt r)) in
    if negb (fifo_nr_running =? 0) then true
    else if 1 <? nr_running r then false else true.
End Nohz.

(** ** Bookkeeping *)

Section Books.
Context `{FairEnv} `{PeltTable} `{QueueOps} `{BalanceEnv} `{WrrConfig} `{SelectEnv} `{NohzEnv}.

(** The mask, the counts and the flags, and what they are about, are the same. *)
Definition books_kept (s s' : nohz_state) : Prop :=
  idle_cpus_mask s' = idle_cpus_mask s /\ nohz_nr_cpus s' = nohz_nr_cpus s /\ NOHZ_TICK_STOPPED s' = NOHZ_TICK_STOPPED s /\
  nohz_idle s' = nohz_idle s /\ nr_busy_cpus s' = nr_busy_cpus s.
#[export] Instance books_kept_preorder : PreOrder books_kept.
Proof.
  split; [done|]. intros a b c (B1a & B2a & B3a & B4a & B5a) (B1b & B2b & B3b & B4b & B5b). split_and!; congruence.
Qed.

Lemma books_rebalance fuel rounds c idle s s' : nohz_rebalance_domains fuel rounds c idle s = Some s' -> books_kept s s'.
Proof.
  unfold nohz_rebalance_domains. cbv zeta. destruct (rebalance_walk _ _ _ _ _ _) as [[k st]|]; [|done]. intros [= <-].
  destruct (reb_update_next st); [|done]. destruct (_ && _); done.
Qed.
Lemma books_walk fuel rounds l next update s s' n u : nohz_walk fuel rounds l next update s = Some (s', n, u) -> books_kept s s'.
Proof.
  revert next update s. induction l as [|c l IH]; intros next update s; cbn [nohz_walk]; [by intros [= <- _ _]|]. cbv zeta.
  destruct (_ || _); [apply IH|]. destruct (need_resched _); [by intros [= <- _ _]|].
  destruct (if time_after_eq _ _ then _ else _) as [s1|] eqn:E; [|done]. cbn [mbind option_bind].
  assert (B1 : books_kept s s1).
  { destruct (time_after_eq _ _); [|by injection E as <-]. by apply books_rebalance in E. }
  destruct (time_after _ _); intros Hw%IH; by transitivity s1.
Qed.
Lemma books_idle_balance fuel rounds idle s s' : nohz_idle_balance fuel rounds idle s = Some s' -> books_kept s s'.
Proof.
  unfold nohz_idle_balance. cbv zeta. destruct (_ || _); [by intros [= <-]|].
  destruct (nohz_walk _ _ _ _ _ _) as [[[s1 n] u]|] eqn:E; [|done]. apply books_walk in E. cbn. intros [= <-]. by destruct u.
Qed.
Lemma books_run fuel rounds s s' : nohz_run_rebalance fuel rounds s = Some s' -> books_kept s s'.
Proof.
  unfold nohz_run_rebalance. cbv zeta. destruct (nohz_idle_balance _ _ _ _) as [s1|] eqn:E; [|done]. cbn.
  intros Hr%books_rebalance. apply books_idle_balance in E. by transitivity s1.
Qed.
Lemma books_kick s : books_kept s (nohz_balancer_kick s).
Proof. unfold nohz_balancer_kick. cbv zeta. destruct (_ <=? _); [done|]. by destruct (NOHZ_BALANCE_KICK _ _). Qed.
Lemma books_got s : books_kept s (got_nohz_idle_kick s).1.
Proof. unfold got_nohz_idle_kick. cbv zeta. destruct (negb _); [done|]. by destruct (_ && _). Qed.

Context (cpus : list Z) (Hcpus : NoDup cpus) (Hmany : Z.of_nat (length cpus) < 2 ^ 31).
(** Every CPU has a domain of its own for its cache. *)
Context (Hllc : forall c d sd, sd_llc c = Some sd -> sd_llc d = Some sd -> c = d).

(** Whether the CPU counts as busy for the shared part [h]. *)
Definition busy_in (s : nohz_state) (h c : Z) : Z :=
  match sd_llc c with
  | Some sd => if bool_decide (sd_llc_shared c = Some h) && negb (nohz_idle s sd) then 1 else 0
  | None => 0
  end.

Record nohz_ok (s : nohz_state) : Prop := mkNohzOk {
  nohz_flags_ok : forall c, NOHZ_TICK_STOPPED s c = true <-> c ∈ idle_cpus_mask s;
  nohz_mask_ok : forall c, c ∈ idle_cpus_mask s -> c ∈ cpus;
  nohz_count_ok : nohz_nr_cpus s = Z.of_nat (size (idle_cpus_mask s));
  nohz_busy_ok : forall h, nr_busy_cpus s h = sum_of (busy_in s h) cpus }.

Lemma nohz_kept s s' : books_kept s s' -> nohz_ok s -> nohz_ok s'.
Proof.
  intros (E1 & E2 & E3 & E4 & E5) [B1 B2 B3 B4]. constructor; rewrite ?E1, ?E2, ?E3; try done.
  intros h. rewrite E5, B4. apply sum_of_ext. intros c _. unfold busy_in. by rewrite E4.
Qed.

Lemma mask_size (m : gset Z) : (forall c, c ∈ m -> c ∈ cpus) -> Z.of_nat (size m) <= Z.of_nat (length cpus).
Proof.
  intros Hm. apply inj_le. assert (Hs : m ⊆ list_to_set cpus) by (intros c Hc; apply elem_of_list_to_set; by apply Hm).
  apply subseteq_size in Hs. by rewrite size_list_to_set in Hs.
Qed.

Lemma enter_ok c s : c ∈ cpus -> nohz_ok s -> nohz_ok (nohz_balance_enter_idle c s).
Proof.
  intros Hc [B1 B2 B3 B4]. unfold nohz_balance_enter_idle. destruct (negb _); [done|]. destruct (negb _); [done|].
  destruct (NOHZ_TICK_STOPPED s c) eqn:E; [done|]. destruct (on_null_domain _ _); [done|].
  assert (Hn : c ∉ idle_cpus_mask s) by (rewrite <- B1, E; done).
  assert (Hm : forall d, d ∈ idle_cpus_mask s ∪ {[c]} -> d ∈ cpus) by (set_solver).
  constructor; cbn; try done.
  - intros d. destruct (decide (c = d)) as [<-|]; [rewrite fn_lookup_alter|rewrite fn_lookup_alter_ne by done; rewrite B1]; set_solver.
  - pose proof (mask_size _ Hm) as Hs. rewrite B3. rewrite size_union in * by set_solver. rewrite size_singleton in *. rewrite s32_id by lia. lia.
Qed.

Lemma exit_ok c s : nohz_ok s -> nohz_ok (nohz_balance_exit_idle c s).
Proof.
  intros [B1 B2 B3 B4]. unfold nohz_balance_exit_idle. destruct (NOHZ_TICK_STOPPED s c) eqn:E; [|done].
  apply B1 in E. rewrite decide_True by done.
  constructor; cbn; try done.
  - intros d. destruct (decide (c = d)) as [<-|]; [rewrite fn_lookup_alter|rewrite fn_lookup_alter_ne by done; rewrite B1]; set_solver.
  - intros d Hd. apply B2. set_solver.
  - pose proof (mask_size _ B2) as Hs. rewrite B3, size_difference by set_solver. rewrite size_singleton.
    assert (size (idle_cpus_mask s) <> 0%nat) by (apply size_non_empty_iff; set_solver). rewrite s32_id by lia. lia.
Qed.

(** A CPU whose domain changes sides changes the count of its shared part. *)
Lemma busy_flip c sd b s h :
  c ∈ cpus -> sd_llc c = Some sd -> sd_llc_shared c = Some h -> nohz_idle s sd = negb b ->
  let s' := s <| nohz_idle ::= alter (fun _ => b) sd |> in
  forall g, sum_of (busy_in s' g) cpus = sum_of (busy_in s g) cpus + (if decide (g = h) then (if b then -1 else 1) else 0).
Proof.
  intros Hc Hsd Hh Hb s' g. rewrite (sum_of_upd (busy_in s g) (busy_in s' g) cpus c Hcpus Hc).
  - unfold busy_in. rewrite Hsd, Hh. unfold s'. cbn. rewrite fn_lookup_alter, Hb. destruct (decide (g = h)) as [->|Hne].
    + rewrite bool_decide_true by done. destruct b; cbn; lia.
    + rewrite bool_decide_false by (intros [= ->]; done). cbn. lia.
  - intros d Hne. unfold busy_in. destruct (sd_llc d) as [sd'|] eqn:Ed; [|done]. unfold s'. cbn.
    rewrite fn_lookup_alter_ne; [done|]. intros <-. by apply Hne, (Hllc d c sd).
Qed.

Lemma busy_range s h : 0 <= sum_of (busy_in s h) cpus <= Z.of_nat (length cpus).
Proof.
  assert (Hb : forall c, 0 <= busy_in s h c <= 1) by (intros c; unfold busy_in; destruct (sd_llc c); [destruct (_ && _)|]; lia).
  split; [apply sum_of_nonneg; intros c _; apply Hb|]. clear -Hb. unfold sum_of. induction cpus as [|c l IH]; cbn; [lia|]. specialize (Hb c). lia.
Qed.

Lemma state_flip c sd b s :
  c ∈ cpus -> sd_llc c = Some sd -> nohz_idle s sd = negb b -> nohz_ok s ->
  let s' := s <| nohz_idle ::= alter (fun _ => b) sd |> in
  nohz_ok (match sd_llc_shared c with
           | Some h => s' <| nr_busy_cpus ::= alter (fun n => s32 (n + if b then -1 else 1)) h |>
           | None => s'
           end).
Proof.
  intros Hc Hsd Hb [B1 B2 B3 B4] s'. destruct (sd_llc_shared c) as [h|] eqn:Eh; constructor; try done.
  - intros g. pose proof (busy_flip c sd b s h Hc Hsd Eh Hb g) as Hf. cbv zeta in Hf. fold s' in Hf.
    change (busy_in (s' <| nr_busy_cpus ::= _ |>) g) with (busy_in s' g).
    pose proof (busy_range s' g). pose proof (busy_range s g). rewrite Hf in *. cbn. destruct (decide (g = h)) as [->|Hne].
    + rewrite fn_lookup_alter, B4, s32_id; [lia|]. lia.
    + rewrite fn_lookup_alter_ne by done. rewrite B4. lia.
  - intros g. cbn. rewrite B4. apply sum_of_ext. intros d _. unfold busy_in. destruct (sd_llc d) as [sd'|] eqn:Ed; [|done]. cbn.
    destruct (decide (sd = sd')) as [<-|Hne].
    + rewrite (Hllc d c sd Ed Hsd), Eh. by rewrite bool_decide_false.
    + by rewrite fn_lookup_alter_ne.
Qed.

Lemma busy_ok s : this_cpu (nz_k s) ∈ cpus -> nohz_ok s -> nohz_ok (set_cpu_sd_state_busy s).
Proof.
  intros Hc Hs. unfold set_cpu_sd_state_busy. cbv zeta. destruct (sd_llc _) as [sd|] eqn:Ed; [|done]. destruct (nohz_idle s sd) eqn:E; [|done].
  exact (state_flip _ sd false s Hc Ed E Hs).
Qed.
Lemma idle_ok s : this_cpu (nz_k s) ∈ cpus -> nohz_ok s -> nohz_ok (set_cpu_sd_state_idle s).
Proof.
  intros Hc Hs. unfold set_cpu_sd_state_idle. cbv zeta. destruct (sd_llc _) as [sd|] eqn:Ed; [|done]. destruct (nohz_idle s sd) eqn:E; [done|].
  exact (state_flip _ sd true s Hc Ed E Hs).
Qed.
Lemma trigger_ok c s : this_cpu (nz_k s) ∈ cpus -> nohz_ok s -> nohz_ok (nohz_trigger_load_balance c s).
Proof.
  intros Hc Hs. unfold nohz_trigger_load_balance. destruct (on_null_domain _ _); [done|]. cbv zeta. set (s1 := if time_after_eq _ _ then _ else s).
  assert (Hs1 : nohz_ok s1 /\ this_cpu (nz_k s1) ∈ cpus).
  { unfold s1. destruct (time_after_eq _ _); [|done]. split; [by apply (nohz_kept s)|done]. }
  clearbody s1. destruct Hs1 as [Hs1 Hc1]. unfold nohz_kick_needed. destruct (idle_balance _); [done|].
  assert (Hs2 : nohz_ok (nohz_balance_exit_idle c (set_cpu_sd_state_busy s1))) by (by apply exit_ok, busy_ok).
  cbv zeta. destruct (kick_due _ _); [|done]. eapply nohz_kept; [apply books_kick|done].
Qed.

(** What CPUs do: stop and restart their tick, become idle and busy, take a tick,
    handle the interrupt and the softirq; in between the rest of the kernel runs. *)
Inductive nohz_step `{ClassOps} `{WakeEnv} : nohz_state -> nohz_state -> Prop :=
  | step_enter c s : c ∈ cpus -> nohz_step s (nohz_balance_enter_idle c s)
  | step_exit c s : nohz_step s (nohz_balance_exit_idle c s)
  | step_busy s : this_cpu (nz_k s) ∈ cpus -> nohz_step s (set_cpu_sd_state_busy s)
  | step_idle s : this_cpu (nz_k s) ∈ cpus -> nohz_step s (set_cpu_sd_state_idle s)
  | step_trigger c s : this_cpu (nz_k s) ∈ cpus -> nohz_step s (nohz_trigger_load_balance c s)
  | step_ipi s : nohz_step s (nohz_scheduler_ipi s)
  | step_softirq fuel rounds s s' : nohz_run_rebalance fuel rounds s = Some s' -> nohz_step s s'
  | step_wake c s : nohz_step s (wake_up_nohz_cpu c s)
  | step_kernel f s : nohz_step s (on_tick f s).

Lemma nohz_step_ok `{ClassOps} `{WakeEnv} s s' : nohz_step s s' -> nohz_ok s -> nohz_ok s'.
Proof.
  destruct 1; intros Hs.
  - by apply enter_ok.
  - by apply exit_ok.
  - by apply busy_ok.
  - by apply idle_ok.
  - by apply trigger_ok.
  - apply (nohz_kept s); [|done]. unfold nohz_scheduler_ipi. cbv zeta. set (p := if bool_decide _ then _ else _).
    assert (B1 : books_kept s p.1) by (unfold p; destruct (bool_decide _); [apply books_got|done]). destruct p as [s1 go]. cbn in B1.
    destruct go; [|done]. cbn [negb]. pose proof (books_got (on_k sched_ttwu_pending s1)) as B2.
    destruct (got_nohz_idle_kick _) as [s2 kicked]. cbn [fst] in B2. assert (B3 : books_kept s s2) by (by transitivity s1). by destruct kicked.
  - apply (nohz_kept s); [|done]. by eapply books_run.
  - apply (nohz_kept s); [|done]. unfold wake_up_nohz_cpu, wake_up_full_nohz_cpu, wake_up_idle_cpu.
    destruct (negb (bool_decide _)); [done|]. destruct (tick_nohz_full_cpu c); cbn; [by destruct (_ || _)|]. by destruct (_ =? _).
  - by apply (nohz_kept s).
Qed.
End Books.

(** C16: Whatever CPUs do, the mask of idle CPUs is that of the CPUs whose tick is
    stopped, its count is its size, and the shared part of each cache counts the
    CPUs that are busy. *)
Theorem nohz_books_agree `{FairEnv} `{PeltTable} `{QueueOps} `{BalanceEnv} `{WrrConfig} `{SelectEnv} `{NohzEnv} `{ClassOps} `{WakeEnv}
    cpus s s' :
  NoDup cpus -> Z.of_nat (length cpus) < 2 ^ 31 -> (forall c d sd, sd_llc c = Some sd -> sd_llc d = Some sd -> c = d) ->
  nohz_ok cpus s -> rtc (nohz_step cpus) s s' ->
  (forall c, NOHZ_TICK_STOPPED s' c = true <-> c ∈ idle_cpus_mask s') /\
  nohz_nr_cpus s' = Z.of_nat (size (idle_cpus_mask s')) /\ (forall h, nr_busy_cpus s' h = sum_of (busy_in s' h) cpus).
Proof.
  intros Hnd Hm Hllc Hs Hr. assert (Hs' : nohz_ok cpus s').
  { induction Hr as [|a b d Hab _ IH]; [done|]. apply IH. by eapply nohz_step_ok. }
  destruct Hs' as [B1 _ B3 B4]. by split_and!.
Qed.

(** ** Running the softirq *)

Section Softirq.
Context `{FairEnv} `{PeltTable} `{QueueFrame} `{!FairDispatch} `{BalanceEnv} `{!OtherCpus} `{WrrConfig} `{SelectEnv} `{NohzEnv}.
Context {K0 : kernel} (Topo : topology_ok K0).

Lemma quiet_avg n c period k : quiet k (avg_loop n c period k).
Proof.
  revert k. induction n as [|n IH]; intros k; cbn [avg_loop]; [done|]. destruct (_ <? _); [|done].
  etransitivity; [|apply IH]. by apply quiet_rq.
Qed.
Lemma quiet_load_idle c s : quiet (tk_k s) (tk_k (cpu_load_update_idle c s)).
Proof.
  unfold cpu_load_update_idle, cpu_load_update_nohz. destruct (negb _); [done|]. cbv zeta. destruct (negb _); [|done].
  unfold cpu_load_update_missed, sched_avg_update. cbv zeta. cbn [tk_k]. etransitivity; [|apply quiet_avg]. by apply quiet_rq.
Qed.

Lemma nohz_rebalance_total fuel rounds c idle s :
  settled K0 (nz_k s) -> enough_fuel fuel rounds ->
  exists s', nohz_rebalance_domains fuel rounds c idle s = Some s' /\ settled K0 (nz_k s') /\ NOHZ_BALANCE_KICK s' = NOHZ_BALANCE_KICK s.
Proof.
  intros I Hf. unfold nohz_rebalance_domains. cbv zeta.
  assert (I1 : settled K0 (update_blocked_averages c (nz_k s))) by (eapply settled_quiet; [apply quiet_blocked_averages|exact I]).
  set (k1 := update_blocked_averages c (nz_k s)) in *. clearbody k1.
  destruct (rebalance_walk_total Topo fuel rounds c (for_each_domain k1 c)
    (mkReb idle true false 0 (u64 (jiffies k1 + 60 * HZ)) false) k1) as (k2 & st & -> & I2).
  { done. } { intros d. by rewrite (proj1 (settled_topology k1 c I1)). } { done. }
  set (k3 := if reb_decay st then _ else k2). assert (I3 : settled K0 k3) by (eapply settled_quiet; [|exact I2]; unfold k3; quiet_back).
  eexists. split; [reflexivity|]. destruct (reb_update_next st); [|done]. destruct (_ && _); (split; [|done]);
    (apply (settled_quiet k3); [|exact I3]; by apply (quiet_rq c)).
Qed.

Lemma nohz_walk_total fuel rounds l next update s :
  settled K0 (nz_k s) -> enough_fuel fuel rounds ->
  exists s' n u, nohz_walk fuel rounds l next update s = Some (s', n, u) /\ settled K0 (nz_k s') /\ NOHZ_BALANCE_KICK s' = NOHZ_BALANCE_KICK s.
Proof.
  intros I Hf. revert next update s I. induction l as [|c l IH]; intros next update s I; cbn [nohz_walk]; [by eexists _, _, _|]. cbv zeta.
  destruct (_ || _); [by apply IH|]. destruct (need_resched _); [by eexists _, _, _|]. set (r := if time_after_eq _ _ then _ else _).
  assert (Hr : exists s1, r = Some s1 /\ settled K0 (nz_k s1) /\ NOHZ_BALANCE_KICK s1 = NOHZ_BALANCE_KICK s).
  { unfold r. destruct (time_after_eq _ _); [|by exists s]. set (s0 := on_tick (cpu_load_update_idle c) (on_k (update_rq_clock c) s)).
    assert (I0 : settled K0 (nz_k s0)).
    { apply (settled_quiet (update_rq_clock c (nz_k s))); [apply (quiet_load_idle c (nz_tick (on_k (update_rq_clock c) s)))|].
      intros dst. apply clock_inv, I. }
    destruct (nohz_rebalance_total fuel rounds c CPU_IDLE s0 I0 Hf) as (s1 & -> & I1 & E1). by exists s1. }
  destruct Hr as (s1 & -> & I1 & E1). cbn [mbind option_bind].
  destruct (time_after _ _); (edestruct (IH) as (s2 & n & u & -> & I2 & E2); [exact I1|]); eexists _, _, _; (split_and!; [done|done|congruence]).
Qed.
End Softirq.


(** ** Timers and ticks *)

(** The CPUs to which a timer may move. *)
Definition timer_candidates `{BalanceEnv} (k : kernel) : list Z :=
  this_cpu k :: flat_map (fun sd => for_each_cpu k (sched_domain_span (domains k sd))) (for_each_domain k (this_cpu k)).

(** A timer moves to a housekeeping CPU, and to one that is awake if any
    candidate is both. *)
Theorem timer_target_awake `{BalanceEnv} `{NohzEnv} k :
  is_housekeeping_cpu housekeeping_any_cpu = true ->
  is_housekeeping_cpu (get_nohz_timer_target k) = true /\
  ((exists i, i ∈ timer_candidates k /\ is_housekeeping_cpu i = true /\ idle_cpu k i = false) ->
   get_nohz_timer_target k ∈ timer_candidates k /\ idle_cpu k (get_nohz_timer_target k) = false).
Proof.
  intros Ha. unfold get_nohz_timer_target, timer_candidates. cbv zeta. set (cpu := this_cpu k). set (l := flat_map _ _).
  destruct (idle_cpu k cpu) eqn:Ei; cbn [negb andb]; [|destruct (is_housekeeping_cpu cpu) eqn:Eh; [split; [done|intros _; split; [by left|done]]|]].
  all: destruct (list_find _ l) as [[n i]|] eqn:El.
  all: try (apply list_find_Some in El as (Hl & (_ & Hi & Hh) & _); split; [done|intros _; split; [right; by eapply list_elem_of_lookup_2|done]]).
  all: apply list_find_None in El; rewrite Forall_forall in El.
  all: split; [rewrite ?Eh; by destruct (is_housekeeping_cpu cpu) eqn:Eh'|].
  all: intros (i & Hin & Hh & Hi); apply elem_of_cons in Hin as [->|Hin]; [congruence|].
  all: exfalso; apply (El i Hin); split_and!; [intros ->; congruence|done|done].
Qed.

(** The tick stops only when no two tasks have to take turns: no deadline task,
    at most one round-robin task, and at most one task in all if there is no
    real-time task. *)
Lemma tick_stops_alone k c :
  0 <= rr_nr_running (rt (rqs k c)) <= rt_nr_running (rt (rqs k c)) -> rt_nr_running (rt (rqs k c)) < 2 ^ 31 ->
  sched_can_stop_tick k c = true ->
  dl_nr_running (rqs k c) = 0 /\ rr_nr_running (rt (rqs k c)) <= 1 /\ (rt_nr_running (rt (rqs k c)) = 0 -> nr_running (rqs k c) <= 1).
Proof.
  intros Hr Hm. unfold sched_can_stop_tick. cbv zeta. destruct (Z.eqb_spec (dl_nr_running (rqs k c)) 0); cbn [negb]; [|done].
  destruct (Z.eqb_spec (rr_nr_running (rt (rqs k c))) 0) as [E|E]; cbn [negb]; [|intros ->%Z.eqb_eq; lia].
  rewrite s32_id by lia. destruct (Z.eqb_spec (rt_nr_running (rt (rqs k c)) - rr_nr_running (rt (rqs k c))) 0); cbn [negb]; [|lia].
  destruct (Z.ltb_spec 1 (nr_running (rqs k c))); [done|]. lia.
Qed.

(** ** Witnesses *)

Section Demo.
#[local] Existing Instance demo_fair_env.
#[local] Existing Instance demo_ops.
#[local] Existing Instance demo_config.
#[local] Existing Instance demo_others.
#[local] Existing Instance demo_class_ops.
#[local] Existing Instance demo_wake_env.
#[local] Instance demo_nohz_select : SelectEnv :=
  {| sd_llc c := Some c; sd_llc_size _ := 2; sd_llc_shared _ := Some 0; cpu_smt_mask c := {[c]};
     sched_smt_present := false; idle_get_state i := Some 10; scan_time := 100; feat_WA_IDLE := true;
     feat_WA_WEIGHT := true; feat_WA_BIAS := true; feat_SIS_AVG_CPU := false; feat_SIS_PROP := true |}.
#[local] Instance demo_nohz_env : NohzEnv :=
  {| is_housekeeping_cpu _ := true; housekeeping_any_cpu := 0; tick_nohz_full_cpu _ := false; tick_nohz_tick_stopped := false; sd_asym _ := None |}.

Local Abbreviation nohz_demo_k := (default lb_demo0 (attach_list 1 [5; 6; 7] lb_demo0)).
(** CPU 0 is idle with its tick stopped, and has been kicked. *)
Definition nohz_demo : nohz_state :=
  mkNohz (mkTick nohz_demo_k (fun _ => 0)) {[0]} 1 0 (fun c => c =? 0) (fun c => c =? 0) (fun c => c =? 0) (fun h => if h =? 0 then 1 else 0) [].

Lemma demo_cpus2 : NoDup [0; 1].
Proof. repeat constructor; set_solver. Qed.
Lemma nohz_demo_ok : nohz_ok [0; 1] nohz_demo.
Proof.
  constructor.
  - intros c. change (idle_cpus_mask nohz_demo) with ({[0]} : gset Z). change (NOHZ_TICK_STOPPED nohz_demo c) with (c =? 0).
    rewrite Z.eqb_eq. set_solver.
  - intros c. change (idle_cpus_mask nohz_demo) with ({[0]} : gset Z). set_solver.
  - by vm_compute.
  - intros h. change (nr_busy_cpus nohz_demo h) with (if h =? 0 then 1 else 0). unfold busy_in, sum_of. cbn.
    destruct (Z.eqb_spec h 0) as [->|Hne]; [done|]. rewrite bool_decide_false by congruence. done.
Qed.

Definition nohz_demo1 : nohz_state := set_cpu_sd_state_busy nohz_demo.
Definition nohz_demo2 : nohz_state := nohz_balance_exit_idle 0 nohz_demo1.
Definition nohz_demo3 : nohz_state := nohz_balance_enter_idle 1 nohz_demo2.

(** CPU 0 gets work, and CPU 1 goes idle. *)
Lemma nohz_books_agree_witness :
  idle_cpus_mask nohz_demo3 = {[1]} /\ nr_busy_cpus nohz_demo3 0 = 2 /\ nohz_nr_cpus nohz_demo3 = Z.of_nat (size (idle_cpus_mask nohz_demo3)).
Proof.
  assert (E : idle_cpus_mask nohz_demo3 = {[1]} /\ nr_busy_cpus nohz_demo3 0 = 2) by (by vm_compute).
  assert (Hin : 0 ∈ [0; 1] /\ 1 ∈ [0; 1]) by (split; [by left|right; by left]).
  destruct (nohz_books_agree [0; 1] nohz_demo nohz_demo3) as (_ & Hn & _).
  - exact demo_cpus2.
  - done.
  - intros c d sd [= ->] [= ->]. done.
  - exact nohz_demo_ok.
  - apply (rtc_l _ _ nohz_demo1); [exact (step_busy [0; 1] nohz_demo (proj1 Hin))|].
    apply (rtc_l _ _ nohz_demo2); [exact (step_exit [0; 1] 0 nohz_demo1)|]. apply rtc_once. exact (step_enter [0; 1] 1 nohz_demo2 (proj2 Hin)).
  - split; [apply E|split; [apply E|exact Hn]].
Defined.

Lemma nohz_demo_settled : settled nohz_demo_k nohz_demo_k /\ topology_ok nohz_demo_k.
Proof.
  split; [eapply settled_self, lb_demo_settled|]. eapply topology_stays; [apply lb_demo_settled|apply lb_demo_topology]. exact 0.
Qed.


(** CPU 0 is idle, and CPU 1 runs a task. *)
Definition timer_demo : kernel :=
  upd_rq 1 (fun r => r <| curr := 5 |> <| nr_running := 1 |>) (demo_kernel fair_sched_class SCHED_NORMAL 120).

Lemma timer_target_awake_witness : get_nohz_timer_target timer_demo = 1 /\ is_housekeeping_cpu (get_nohz_timer_target timer_demo) = true.
Proof.
  split; [by vm_compute|]. by apply (timer_target_awake timer_demo).
Defined.

(** The first CPU of the mask is not idle any more; the second is not tried. *)
Definition ilb_demo : nohz_state :=
  mkNohz (mkTick (upd_rq 0 (fun r => r <| curr := 5 |> <| nr_running := 1 |>) (demo_kernel fair_sched_class SCHED_NORMAL 120)) (fun _ => 0))
    {[0; 1]} 2 0 (fun _ => true) (fun _ => false) (fun _ => true) (fun _ => 0) [].
Example only_first_cpu_is_kicked :
  idle_cpu (nz_k ilb_demo) 1 = true /\ NOHZ_BALANCE_KICK (nohz_balancer_kick ilb_demo) 1 = false /\ log (nz_k (nohz_balancer_kick ilb_demo)) = [].
Proof. by vm_compute. Qed.
End Demo.
