(* ===== verification/NumaStats.v ===== *)
(** * Fault statistics of tasks on nodes (fair.c)

    With CONFIG_NUMA_BALANCING the pages of a task are unmapped from time to time,
    and the faults that follow tell on which nodes its memory is and on which it
    runs.  Tasks that fault on the same pages form a group, whose statistics are
    kept beside theirs.  The period of the scans adapts to what they find.

    This file has the data, the weights of nodes and the scan period.  The
    theorem: the period stays between its limits and moves in the direction that
    the faults ask for; below 14 ms it may not (an example shows a period that is
    to become shorter and becomes the longest). *)

From S2P Require Import Prelude SchedTypes Core Wrr CoreWake CorePolicy RtBandwidth FairMath FairPelt FairQueue FairBusiest.

Definition NR_NUMA_HINT_FAULT_TYPES : Z := 2.
Definition NR_NUMA_HINT_FAULT_STATS : Z := NR_NUMA_HINT_FAULT_TYPES * 2.
Definition NR_NUMA_HINT_FAULT_BUCKETS : Z := NR_NUMA_HINT_FAULT_STATS * 2.
Definition NUMA_MEM : Z := 0.
Definition NUMA_CPU : Z := 1.
Definition NUMA_MEMBUF : Z := 2.
Definition NUMA_CPUBUF : Z := 3.
Definition LOCAL_DISTANCE : Z := 10.

Inductive numa_topology_type := NUMA_DIRECT | NUMA_GLUELESS_MESH | NUMA_BACKPLANE.
#[export] Instance numa_topology_type_eq_dec : EqDecision numa_topology_type.
Proof. solve_decision. Defined.

(** The part of [task_struct] for this; [numa_faults_locality] is the three
    counts of remote and local faults and of failed migrations. *)
Record numa_task := mkNumaTask {
  nt_mm : option Z;
  numa_scan_seq : Z;
  numa_scan_period : Z;
  numa_scan_period_max : Z;
  numa_preferred_nid : Z;
  numa_migrate_retry : Z;
  node_stamp : Z;
  numa_work_queued : bool;          (* numa_work is on the list of the task *)
  numa_faults : option (Z -> Z);    (* [None]: not allocated *)
  total_numa_faults : Z;
  nt_group : option Z;
  faults_remote : Z;
  faults_local : Z;
  faults_failed : Z;
  numa_pages_migrated : Z;
  last_task_numa_placement : Z;
  last_sum_exec_runtime : Z }.
#[export] Instance eta_numa_task : Settable numa_task :=
  fun r => mkNumaTask (nt_mm r) (numa_scan_seq r) (numa_scan_period r) (numa_scan_period_max r) (numa_preferred_nid r)
    (numa_migrate_retry r) (node_stamp r) (numa_work_queued r) (numa_faults r) (total_numa_faults r) (nt_group r)
    (faults_remote r) (faults_local r) (faults_failed r) (numa_pages_migrated r) (last_task_numa_placement r)
    (last_sum_exec_runtime r).

(** [faults] is the whole array; [faults_cpu] is its second half. *)
Record numa_group := mkNumaGroup {
  ng_refcount : Z;
  ng_nr_tasks : Z;
  ng_gid : Z;
  active_nodes : Z;
  total_faults : Z;
  max_faults_cpu : Z;
  ng_faults : Z -> Z }.
#[export] Instance eta_numa_group : Settable numa_group :=
  fun r => mkNumaGroup (ng_refcount r) (ng_nr_tasks r) (ng_gid r) (active_nodes r) (total_faults r) (max_faults_cpu r) (ng_faults r).

Record numa_mm := mkNumaMm { mm_scan_seq : Z; mm_next_scan : Z; mm_scan_offset : Z; mm_rss : Z }.
#[export] Instance eta_numa_mm : Settable numa_mm :=
  fun r => mkNumaMm (mm_scan_seq r) (mm_next_scan r) (mm_scan_offset r) (mm_rss r).

Record numa_state := mkNuma {
  nu_k : kernel;
  nu_task : Z -> numa_task;
  nu_group : Z -> numa_group;
  nu_mm : Z -> numa_mm;
  nr_numa_running : Z -> Z;         (* of the run queues *)
  nr_preferred_running : Z -> Z;
  nu_freed : list Z;                (* the groups given to [kfree_rcu] *)
  nu_refs : Z -> Z }.               (* task references that NUMA placement holds *)
#[export] Instance eta_numa_state : Settable numa_state :=
  fun r => mkNuma (nu_k r) (nu_task r) (nu_group r) (nu_mm r) (nr_numa_running r) (nr_preferred_running r) (nu_freed r) (nu_refs r).

(** The nodes and their distances, the tunables, and the helpers of the memory
    manager for what a page remembers of its last fault. *)
Class NumaEnv := {
  nr_node_ids : Z;
  online_nodes : list Z;
  cpu_to_node : Z -> Z;
  node_cpus : Z -> gset Z;
  node_distance : Z -> Z -> Z;
  sched_numa_topology_type : numa_topology_type;
  sched_max_numa_distance : Z;
  find_numa_distance : Z -> bool;
  sd_numa : Z -> option Z;
  PAGE_SHIFT : Z;
  sysctl_numa_balancing_scan_period_min : Z;
  sysctl_numa_balancing_scan_period_max : Z;
  sysctl_numa_balancing_scan_size : Z;
  sysctl_numa_balancing_scan_delay : Z;
  cpupid_to_cpu : Z -> Z;
  cpupid_to_nid : Z -> Z;
  cpupid_pid_unset : Z -> bool;
  cpupid_match_pid : Z -> Z -> bool }.

Definition nt (s : numa_state) (p : Z) : numa_task := nu_task s p.
Definition upd_nt (p : Z) (f : numa_task -> numa_task) (s : numa_state) : numa_state := s <| nu_task ::= alter f p |>.
Definition upd_ng (g : Z) (f : numa_group -> numa_group) (s : numa_state) : numa_state := s <| nu_group ::= alter f g |>.
Definition upd_mm (m : Z) (f : numa_mm -> numa_mm) (s : numa_state) : numa_state := s <| nu_mm ::= alter f m |>.
Definition on_numa_k (f : kernel -> kernel) (s : numa_state) : numa_state := s <| nu_k ::= f |>.

Section Stats.
Context `{NumaEnv} `{BalanceEnv}.

Definition task_node (s : numa_state) (p : Z) : Z := cpu_to_node (task_cpu (tasks (nu_k s) p)).
Definition task_numa_group_id (s : numa_state) (p : Z) : Z :=
  match nt_group (nt s p) with Some g => ng_gid (nu_group s g) | None => 0 end.

(** ** Faults *)

Definition task_faults_idx (s nid priv : Z) : Z := NR_NUMA_HINT_FAULT_TYPES * (s * nr_node_ids + nid) + priv.

Definition task_faults (s : numa_state) (p nid : Z) : Z :=
  match numa_faults (nt s p) with
  | None => 0
  | Some f => u64 (f (task_faults_idx NUMA_MEM nid 0) + f (task_faults_idx NUMA_MEM nid 1))
  end.
Definition group_faults (s : numa_state) (p nid : Z) : Z :=
  match nt_group (nt s p) with
  | None => 0
  | Some g => let f := ng_faults (nu_group s g) in
              u64 (f (task_faults_idx NUMA_MEM nid 0) + f (task_faults_idx NUMA_MEM nid 1))
  end.
Definition faults_cpu (s : numa_state) (g i : Z) : Z := ng_faults (nu_group s g) (NR_NUMA_HINT_FAULT_TYPES * nr_node_ids + i).
Definition group_faults_cpu (s : numa_state) (g nid : Z) : Z :=
  u64 (faults_cpu s g (task_faults_idx NUMA_MEM nid 0) + faults_cpu s g (task_faults_idx NUMA_MEM nid 1)).
Definition group_faults_of (priv : Z) (s : numa_state) (g : Z) : Z :=
  foldl (fun n node => u64 (n + ng_faults (nu_group s g) (task_faults_idx NUMA_MEM node priv))) 0 online_nodes.
Definition group_faults_priv : numa_state -> Z -> Z := group_faults_of 1.
Definition group_faults_shared : numa_state -> Z -> Z := group_faults_of 0.

Definition ACTIVE_NODE_FRACTION : Z := 3.
Definition numa_is_active_node (s : numa_state) (nid g : Z) : bool :=
  max_faults_cpu (nu_group s g) <? u64 (group_faults_cpu s g nid * ACTIVE_NODE_FRACTION).

Definition score_nearby_nodes (s : numa_state) (p nid maxdist : Z) (task : bool) : Z :=
  if decide (sched_numa_topology_type = NUMA_DIRECT) then 0
  else
    foldl (fun score node =>
      let dist := node_distance nid node in
      if (dist =? sched_max_numa_distance) || (node =? nid) then score
      else if bool_decide (sched_numa_topology_type = NUMA_BACKPLANE) && (maxdist <? dist) then score
      else
        let faults := if task then task_faults s p node else group_faults s p node in
        let faults := if decide (sched_numa_topology_type = NUMA_GLUELESS_MESH)
                      then u64 (faults * (sched_max_numa_distance - dist)) / u64 (sched_max_numa_distance - LOCAL_DISTANCE)
                      else faults in
        u64 (score + faults)) 0 online_nodes.

Definition task_weight (s : numa_state) (p nid dist : Z) : Z :=
  match numa_faults (nt s p) with
  | None => 0
  | Some _ =>
      let total := total_numa_faults (nt s p) in
      if total =? 0 then 0
      else u64 (1000 * u64 (task_faults s p nid + score_nearby_nodes s p nid dist true)) / total
  end.
Definition group_weight (s : numa_state) (p nid dist : Z) : Z :=
  match nt_group (nt s p) with
  | None => 0
  | Some g =>
      let total := total_faults (nu_group s g) in
      if total =? 0 then 0
      else u64 (1000 * u64 (group_faults s p nid + score_nearby_nodes s p nid dist false)) / total
  end.

(** [last_cpupid] is what [page_cpupid_xchg_last] returned. *)
Definition should_numa_migrate_memory (s : numa_state) (p last_cpupid src_nid dst_cpu : Z) : bool :=
  let dst_nid := cpu_to_node dst_cpu in
  if negb (cpupid_pid_unset last_cpupid) && negb (cpupid_to_nid last_cpupid =? dst_nid) then false
  else if cpupid_match_pid p last_cpupid then true
  else match nt_group (nt s p) with
       | None => true
       | Some g =>
           if u64 (group_faults_cpu s g src_nid * ACTIVE_NODE_FRACTION) <? group_faults_cpu s g dst_nid then true
           else u64 (u64 (group_faults_cpu s g src_nid * group_faults s p dst_nid) * 4) <?
                u64 (u64 (group_faults_cpu s g dst_nid * group_faults s p src_nid) * 3)
       end.

(** ** Scan periods *)

(** The macro [round_up], which is exact for powers of two. *)
Definition round_up (x y : Z) : Z := u64 (Z.lor (u64 (x - 1)) (u64 (y - 1)) + 1).

Definition task_nr_scan_windows (s : numa_state) (p : Z) : Z :=
  let nr_scan_pages := u32 (Z.shiftl sysctl_numa_balancing_scan_size (20 - PAGE_SHIFT)) in
  let rss := match nt_mm (nt s p) with Some m => mm_rss (nu_mm s m) | None => 0 end in
  let rss := if rss =? 0 then nr_scan_pages else rss in
  u32 (round_up rss nr_scan_pages / nr_scan_pages).

Definition MAX_SCAN_WINDOW : Z := 2560.

Definition task_scan_min (s : numa_state) (p : Z) : Z :=
  let scan_size := sysctl_numa_balancing_scan_size in
  let windows := if scan_size <? MAX_SCAN_WINDOW then MAX_SCAN_WINDOW / scan_size else 1 in
  let floor := 1000 / windows in
  let scan := sysctl_numa_balancing_scan_period_min / task_nr_scan_windows s p in
  Z.max floor scan.

(** The period scaled with the amount of shared memory of the group. *)
Definition scale_period (s : numa_state) (g period : Z) : Z :=
  let shared := group_faults_shared s g in
  let private := group_faults_priv s g in
  u64 (u64 (period * ng_refcount (nu_group s g)) * u64 (shared + 1)) / u64 (private + shared + 1).

Definition task_scan_start (s : numa_state) (p : Z) : Z :=
  let smin := task_scan_min s p in
  let period := match nt_group (nt s p) with Some g => scale_period s g smin | None => smin end in
  u32 (Z.max smin period).

Definition task_scan_max (s : numa_state) (p : Z) : Z :=
  let smin := task_scan_min s p in
  let smax := sysctl_numa_balancing_scan_period_max / task_nr_scan_windows s p in
  let smax := match nt_group (nt s p) with Some g => Z.max smax (scale_period s g smax) | None => smax end in
  u32 (Z.max smin smax).

Definition NUMA_PERIOD_SLOTS : Z := 10.
Definition NUMA_PERIOD_THRESHOLD : Z := 7.

(** By how much the period is to change; [None]: a division by zero. *)
Definition period_diff (period remote local shared private : Z) : option Z :=
  let period_slot := u32 (period + NUMA_PERIOD_SLOTS - 1) / NUMA_PERIOD_SLOTS in
  if (u64 (local + remote) =? 0) || (u64 (private + shared) =? 0) then None
  else
    let lr_ratio := s32 (u64 (local * NUMA_PERIOD_SLOTS) / u64 (local + remote)) in
    let ps_ratio := s32 (u64 (private * NUMA_PERIOD_SLOTS) / u64 (private + shared)) in
    let slots ratio := let slot := ratio - NUMA_PERIOD_THRESHOLD in if slot =? 0 then 1 else slot in
    Some (if NUMA_PERIOD_THRESHOLD <=? ps_ratio then s32 (slots ps_ratio * period_slot)
          else if NUMA_PERIOD_THRESHOLD <=? lr_ratio then s32 (slots lr_ratio * period_slot)
          else s32 (- (NUMA_PERIOD_THRESHOLD - Z.max lr_ratio ps_ratio) * period_slot)).

Definition update_task_scan_period (p shared private : Z) (s : numa_state) : option numa_state :=
  let t := nt s p in
  if (u64 (faults_local t + shared) =? 0) || negb (faults_failed t =? 0) then
    let s := upd_nt p (fun t => t <| numa_scan_period := Z.min (numa_scan_period_max t) (u32 (Z.shiftl (numa_scan_period t) 1)) |>) s in
    Some (match nt_mm t with
          | Some m => upd_mm m (fun x => x <| mm_next_scan := u64 (jiffies (nu_k s) + msecs_to_jiffies (numa_scan_period (nt s p))) |>) s
          | None => s
          end)
  else
    diff ← period_diff (numa_scan_period t) (faults_remote t) (faults_local t) shared private;
    let period := Z.min (Z.max (u32 (numa_scan_period t + diff)) (task_scan_min s p)) (task_scan_max s p) in
    Some (upd_nt p (fun t => t <| numa_scan_period := period |> <| faults_remote := 0 |> <| faults_local := 0 |> <| faults_failed := 0 |>) s).

(** ** Run time and active nodes *)

(** The run time since the last placement and the time that has passed. *)
Definition numa_get_avg_runtime (p : Z) (s : numa_state) : numa_state * Z * Z :=
  let e := se (tasks (nu_k s) p) in
  let now := exec_start e in
  let runtime := sum_exec_runtime e in
  let t := nt s p in
  let '(delta, period) :=
    if negb (last_task_numa_placement t =? 0)
    then (u64 (runtime - last_sum_exec_runtime t), u64 (now - last_task_numa_placement t))
    else (load_sum (se_avg e) / lw_weight (se_load e), LOAD_AVG_MAX) in
  (upd_nt p (fun t => t <| last_sum_exec_runtime := runtime |> <| last_task_numa_placement := now |>) s, delta, period).

Definition numa_group_count_active_nodes (g : Z) (s : numa_state) : numa_state :=
  let max_faults := foldl (fun m nid => let f := group_faults_cpu s g nid in if m <? f then f else m) 0 online_nodes in
  let active := foldl (fun n nid => if max_faults <? u64 (group_faults_cpu s g nid * ACTIVE_NODE_FRACTION) then n + 1 else n) 0 online_nodes in
  upd_ng g (fun x => x <| max_faults_cpu := max_faults |> <| active_nodes := active |>) s.

(** The search for the best group of nodes at the distance [dist]: the loop over
    [b] takes the nodes near [a] out of those that are left. *)
Fixpoint nearest_groups (s : numa_state) (p dist : Z) (l left : list Z) (max_faults : Z) (max_group : list Z) (nid : Z) : Z * list Z * Z :=
  match l with
  | [] => (max_faults, max_group, nid)
  | a :: l =>
      if decide (a ∈ left) then
        let this_group := filter (fun b => node_distance a b < dist) left in
        let left := filter (fun b => dist <= node_distance a b) left in
        let faults := foldl (fun n b => u64 (n + group_faults s p b)) 0 this_group in
        if max_faults <? faults then nearest_groups s p dist l left faults this_group a
        else nearest_groups s p dist l left max_faults max_group nid
      else nearest_groups s p dist l left max_faults max_group nid
  end.

Fixpoint backplane_walk (n : nat) (s : numa_state) (p dist : Z) (nodes : list Z) (nid : Z) : Z :=
  match n with
  | O => nid
  | S n =>
      if dist <=? LOCAL_DISTANCE then nid
      else if negb (find_numa_distance dist) then backplane_walk n s p (dist - 1) nodes nid
      else
        let '(max_faults, max_group, nid) := nearest_groups s p dist nodes nodes 0 [] nid in
        if max_faults =? 0 then nid else backplane_walk n s p (dist - 1) max_group nid
  end.

Definition preferred_group_nid (s : numa_state) (p nid : Z) : Z :=
  match sched_numa_topology_type with
  | NUMA_DIRECT => nid
  | NUMA_GLUELESS_MESH =>
      (foldl (fun '(max_score, max_node) node =>
         let score := group_weight s p node sched_max_numa_distance in
         if max_score <? score then (score, node) else (max_score, max_node)) (0, nid) online_nodes).2
  | NUMA_BACKPLANE => backplane_walk (Z.to_nat (sched_max_numa_distance - LOCAL_DISTANCE)) s p sched_max_numa_distance online_nodes nid
  end.
End Stats.

(** ** The scan period *)

Section Period.
Context `{NumaEnv} `{BalanceEnv}.

Lemma land_le_l a b : 0 <= a -> Z.land a b <= a.
Proof.
  intros Ha. assert (E : a - Z.land a b = Z.ldiff a (Z.land a b)).
  { apply Z.sub_nocarry_ldiff. apply Z.bits_inj'. intros n _. rewrite Z.ldiff_spec, Z.land_spec, Z.bits_0. by destruct (Z.testbit a n), (Z.testbit b n). }
  assert (0 <= Z.ldiff a (Z.land a b)) by (apply Z.ldiff_nonneg; by left). lia.
Qed.

Lemma round_up_bounds x y : 0 < x < 2 ^ 62 -> 0 < y < 2 ^ 62 -> y <= round_up x y <= x + y.
Proof.
  intros Hx Hy. unfold round_up. rewrite (u64_id (x - 1)), (u64_id (y - 1)) by lia.
  pose proof (Z.add_lor_land (x - 1) (y - 1)). assert (0 <= Z.land (x - 1) (y - 1)) by (apply Z.land_nonneg; lia).
  pose proof (land_le_l (x - 1) (y - 1) ltac:(lia)). rewrite u64_id by lia. lia.
Qed.

(** There is always a window to scan, so that no limit divides by zero. *)
Lemma scan_windows_positive s p :
  0 < u32 (Z.shiftl sysctl_numa_balancing_scan_size (20 - PAGE_SHIFT)) ->
  (forall m, 0 <= mm_rss (nu_mm s m) < 2 ^ 31) -> 1 <= task_nr_scan_windows s p.
Proof.
  intros Hn Hr. unfold task_nr_scan_windows. cbv zeta. set (n := u32 _) in *.
  assert (Hn' : n < 2 ^ 32) by (apply u32_range). set (r := match nt_mm _ with Some _ => _ | None => _ end).
  assert (Hr0 : 0 <= r < 2 ^ 31) by (unfold r; destruct (nt_mm _); [apply Hr|lia]).
  set (r' := if r =? 0 then n else r). assert (Hr' : 0 < r' < 2 ^ 32 /\ (r' = n \/ r' < 2 ^ 31)) by (unfold r'; destruct (Z.eqb_spec r 0); lia).
  pose proof (round_up_bounds r' n ltac:(lia) ltac:(lia)) as Hb.
  assert (1 <= round_up r' n / n) by (apply Z.div_le_lower_bound; lia).
  assert (round_up r' n / n < 2 ^ 32); [|rewrite u32_id by lia; done].
  apply Z.div_lt_upper_bound; [lia|]. nia.
Qed.

(** The ratios of faults, in tenths. *)
Definition tenths (part rest : Z) : Z := part * NUMA_PERIOD_SLOTS / (part + rest).

Lemma tenths_range part rest : 0 <= part -> 0 <= rest -> 0 < part + rest -> 0 <= tenths part rest <= 10.
Proof.
  intros Hp Hr Hs. unfold tenths, NUMA_PERIOD_SLOTS. split; [apply Z.div_pos; lia|apply Z.div_le_upper_bound; lia].
Qed.

(** The direction of the change. *)
Lemma period_diff_direction period remote local shared private :
  14 <= period < 2 ^ 26 -> 0 <= remote < 2 ^ 59 -> 0 <= local < 2 ^ 59 -> 0 <= shared < 2 ^ 59 -> 0 <= private < 2 ^ 59 ->
  0 < local + remote -> 0 < private + shared ->
  exists diff, period_diff period remote local shared private = Some diff /\
    - period <= diff <= period /\
    if (NUMA_PERIOD_THRESHOLD <=? tenths private shared) || (NUMA_PERIOD_THRESHOLD <=? tenths local remote)
    then 0 < diff else diff < 0.
Proof.
  intros HP Hr Hl Hs Hp Hlr Hps. unfold period_diff. cbv zeta.
  rewrite (u64_id (local + remote)), (u64_id (private + shared)) by lia.
  rewrite (proj2 (Z.eqb_neq _ 0)) by lia. rewrite (proj2 (Z.eqb_neq (private + shared) 0)) by lia. cbn [orb].
  rewrite (u64_id (local * _)), (u64_id (private * _)) by (unfold NUMA_PERIOD_SLOTS; lia).
  fold (tenths local remote) (tenths private shared).
  pose proof (tenths_range local remote ltac:(lia) ltac:(lia) ltac:(lia)) as R1.
  pose proof (tenths_range private shared ltac:(lia) ltac:(lia) ltac:(lia)) as R2.
  rewrite !(s32_id (tenths _ _)) by lia. set (a := tenths local remote) in *. set (b := tenths private shared) in *. clearbody a b.
  rewrite u32_id by (unfold NUMA_PERIOD_SLOTS; lia). set (q := (period + NUMA_PERIOD_SLOTS - 1) / NUMA_PERIOD_SLOTS).
  assert (Hq : 2 <= q /\ 7 * q <= period /\ q < 2 ^ 26).
  { unfold q, NUMA_PERIOD_SLOTS. pose proof (Z.div_mod (period + 10 - 1) 10 ltac:(lia)). pose proof (Z.mod_pos_bound (period + 10 - 1) 10 ltac:(lia)). lia. }
  clearbody q. unfold NUMA_PERIOD_THRESHOLD.
  assert (Hslot : forall r, 7 <= r <= 10 -> exists n, (if r - 7 =? 0 then 1 else r - 7) = n /\ 1 <= n <= 3).
  { intros r Hr7. destruct (Z.eqb_spec (r - 7) 0); eexists; split; try reflexivity; lia. }
  eexists. split; [reflexivity|].
  destruct (Z.leb_spec 7 b); [destruct (Hslot b ltac:(lia)) as (n & -> & Hn); cbn [orb]; rewrite s32_id by nia; nia|]. cbn [orb].
  destruct (Z.leb_spec 7 a); [destruct (Hslot a ltac:(lia)) as (n & -> & Hn); rewrite s32_id by nia; nia|].
  rewrite s32_id by nia. nia.
Qed.

(** The scan period of a task stays between its limits.  With most faults
    local or private it does not become shorter, otherwise it does not become
    longer, and with no faults to learn from or failed migrations it doubles up to
    its maximum.  There is no division by zero. *)
Theorem scan_period_adapts p shared private s :
  let t := nt s p in
  14 <= numa_scan_period t < 2 ^ 26 -> task_scan_min s p <= task_scan_max s p -> task_scan_max s p < 2 ^ 31 ->
  0 <= faults_remote t < 2 ^ 59 -> 0 <= faults_local t < 2 ^ 59 -> 0 <= shared < 2 ^ 59 -> 0 <= private < 2 ^ 59 ->
  (faults_failed t = 0 -> faults_local t <= private + shared <= faults_local t + faults_remote t) ->
  exists s', update_task_scan_period p shared private s = Some s' /\
    let period := numa_scan_period t in let period' := numa_scan_period (nt s' p) in
    if (faults_local t + shared =? 0) || negb (faults_failed t =? 0)
    then period' = Z.min (numa_scan_period_max t) (2 * period)
    else task_scan_min s p <= period' <= task_scan_max s p /\
         if (NUMA_PERIOD_THRESHOLD <=? tenths private shared) || (NUMA_PERIOD_THRESHOLD <=? tenths (faults_local t) (faults_remote t))
         then Z.min period (task_scan_max s p) <= period'
         else period' <= Z.max period (task_scan_min s p).
Proof.
  cbv zeta. intros HP Hmm HM Hr Hl Hs Hp Hbal. unfold update_task_scan_period. cbv zeta. rewrite (u64_id (faults_local _ + shared)) by lia.
  assert (Elook : forall f s, nt (upd_nt p f s) p = f (nt s p)) by (intros f s0; unfold nt, upd_nt; cbn; by rewrite fn_lookup_alter).
  destruct ((faults_local (nt s p) + shared =? 0) || negb (faults_failed (nt s p) =? 0)) eqn:E.
  - eexists. split; [reflexivity|]. set (s1 := upd_nt p _ s). assert (E1 : numa_scan_period (nt s1 p) = Z.min (numa_scan_period_max (nt s p)) (2 * numa_scan_period (nt s p))).
    { unfold s1. rewrite Elook. cbn -[Z.shiftl]. rewrite Z.shiftl_mul_pow2, u32_id by lia. f_equal. lia. }
    destruct (nt_mm (nt s p)); exact E1.
  - apply orb_false_iff in E as [E1 E2]. apply Z.eqb_neq in E1. apply negb_false_iff, Z.eqb_eq in E2. specialize (Hbal E2).
    destruct (period_diff_direction (numa_scan_period (nt s p)) (faults_remote (nt s p)) (faults_local (nt s p)) shared private)
      as (diff & -> & Hd & Hdir); try lia.
    cbn [mbind option_bind]. eexists. split; [reflexivity|]. rewrite Elook. cbn [numa_scan_period].
    set (a := task_scan_min s p) in *. set (b := task_scan_max s p) in *. set (P := numa_scan_period (nt s p)) in *.
    rewrite u32_id by lia. destruct (_ || _); cbn; lia.
Qed.
End Period.

(** ** Examples *)

(** Two nodes of one CPU each; scans of 16 MB. *)
#[export] Instance demo_numa_env : NumaEnv :=
  {| nr_node_ids := 2; online_nodes := [0; 1]; cpu_to_node c := c; node_cpus n := {[n]};
     node_distance a b := if a =? b then 10 else 20; sched_numa_topology_type := NUMA_DIRECT;
     sched_max_numa_distance := 20; find_numa_distance d := (d =? 10) || (d =? 20); sd_numa c := Some c;
     PAGE_SHIFT := 12; sysctl_numa_balancing_scan_period_min := 1000; sysctl_numa_balancing_scan_period_max := 60000;
     sysctl_numa_balancing_scan_size := 16; sysctl_numa_balancing_scan_delay := 1000; cpupid_to_cpu x := x; cpupid_to_nid x := x; cpupid_pid_unset x := x =? -1;
     cpupid_match_pid p x := p =? x |}.

Definition demo_numa_task (period : Z) : numa_task :=
  mkNumaTask (Some 1) 0 period 60000 (-1) 0 0 false (Some (fun _ => 0)) 0 None 10 0 0 0 0 0.
Definition demo_numa (rss period : Z) : numa_state :=
  mkNuma (demo_kernel fair_sched_class SCHED_NORMAL 120) (fun _ => demo_numa_task period)
    (fun _ => mkNumaGroup 0 0 0 0 0 0 (fun _ => 0)) (fun _ => mkNumaMm 0 0 0 rss) (fun _ => 0) (fun _ => 0) [] (fun _ => 0).

(** A period of 6 ms, to be shortened since all faults are remote and shared,
    becomes the longest there is. *)
Example short_period_wraps :
  task_scan_min (demo_numa (4096 * 200) 6) 5 = 6 /\
  (fun s => numa_scan_period (nt s 5)) <$> update_task_scan_period 5 10 0 (demo_numa (4096 * 200) 6) = Some 300.
Proof. by vm_compute. Qed.

(** One failed migration: the period doubles at each placement, also when all
    faults are remote and shared, and the failure is not forgotten. *)
Example failure_sticks :
  let s := upd_nt 5 (fun t => t <| faults_failed := 1 |> <| faults_remote := 500 |>) (demo_numa 8192 1000) in
  (fun s => (numa_scan_period (nt s 5), faults_failed (nt s 5))) <$> (s ← update_task_scan_period 5 500 0 s; update_task_scan_period 5 500 0 s) =
    Some (4000, 1).
Proof. by vm_compute. Qed.

Lemma scan_period_adapts_witness :
  exists s', update_task_scan_period 5 10 0 (demo_numa 8192 1000) = Some s' /\ 500 <= numa_scan_period (nt s' 5) <= 1000.
Proof.
  destruct (scan_period_adapts 5 10 0 (demo_numa 8192 1000)) as (s' & E & Hs); try (by vm_compute).
  exists s'. split; [exact E|]. assert (Ep : (fun s => numa_scan_period (nt s 5)) <$> update_task_scan_period 5 10 0 (demo_numa 8192 1000) = Some 500) by (by vm_compute).
  rewrite E in Ep. injection Ep as ->. lia.
Defined.
