(* ===== verification/NumaMigrate.v ===== *)
(** * Moving a task to the node of its memory (fair.c, core.c)

    [task_numa_migrate] looks for a CPU on the preferred node of a task, or on
    another node that suits it better than its own, where the task may run or
    change places with the task that runs there; then core.c moves the task or
    swaps the two with the CPUs stopped.  The run queues count the tasks that
    have a preferred node and those that are on it. *)

From S2P Require Import Prelude SchedTypes Core Frame Wrr CoreWake CorePolicy RtBandwidth FairMath FairPelt.
From S2P Require Import FairQueue FairInv FairOps FairFrame FairBusiest FairBalance FairMove FairSelect NumaStats.

Definition PF_EXITING : Z := 4.
Definition ENOENT : Z := 2.

(** What the other CPUs have done when the stopper threads of one CPU or of two
    CPUs come to run; [None] when a CPU went away. *)
Class StopEnv := {
  stop_one_cpu : Z -> numa_state -> option numa_state;
  stop_two_cpus : Z -> Z -> numa_state -> option numa_state }.

Record numa_stats := mkNumaStats {
  ns_nr_running : Z;
  ns_load : Z;
  compute_capacity : Z;
  task_capacity : Z;
  has_free_capacity : bool }.
#[export] Instance eta_numa_stats : Settable numa_stats :=
  fun r => mkNumaStats (ns_nr_running r) (ns_load r) (compute_capacity r) (task_capacity r) (has_free_capacity r).

Record task_numa_env := mkNumaEnv {
  ne_p : Z;
  ne_src_cpu : Z;
  ne_src_nid : Z;
  ne_dst_cpu : Z;
  ne_dst_nid : Z;
  ne_src_stats : numa_stats;
  ne_dst_stats : numa_stats;
  ne_imbalance_pct : Z;
  ne_dist : Z;
  best_task : option Z;
  best_imp : Z;
  best_cpu : Z }.
#[export] Instance eta_task_numa_env : Settable task_numa_env :=
  fun r => mkNumaEnv (ne_p r) (ne_src_cpu r) (ne_src_nid r) (ne_dst_cpu r) (ne_dst_nid r) (ne_src_stats r) (ne_dst_stats r)
    (ne_imbalance_pct r) (ne_dist r) (best_task r) (best_imp r) (best_cpu r).

Section Migrate.
Context `{NumaEnv} `{BalanceEnv} `{QueueOps} `{WakeEnv} `{WrrConfig} `{SelectEnv} `{StopEnv}.

(** ** The counts of the run queues *)

Definition account_numa_enqueue (c p : Z) (s : numa_state) : numa_state :=
  s <| nr_numa_running ::= alter (fun n => u32 (n + Z.b2z (negb (numa_preferred_nid (nt s p) =? -1)))) c |>
    <| nr_preferred_running ::= alter (fun n => u32 (n + Z.b2z (numa_preferred_nid (nt s p) =? task_node s p))) c |>.
Definition account_numa_dequeue (c p : Z) (s : numa_state) : numa_state :=
  s <| nr_numa_running ::= alter (fun n => u32 (n - Z.b2z (negb (numa_preferred_nid (nt s p) =? -1)))) c |>
    <| nr_preferred_running ::= alter (fun n => u32 (n - Z.b2z (numa_preferred_nid (nt s p) =? task_node s p))) c |>.

Definition is_fair (s : numa_state) (p : Z) : bool := bool_decide (class_of (tasks (nu_k s) p) = fair_sched_class).

(** [account_entity_enqueue] counts a fair task that was not queued, and
    [account_entity_dequeue] any fair task; [op] is how the task is queued. *)
Definition counted_enqueue (op : kernel -> kernel) (c p : Z) (s : numa_state) : numa_state :=
  let counts := is_fair s p && (se_on_rq (sea (nu_k s) p) =? 0) in
  let s := on_numa_k op s in
  if counts then account_numa_enqueue c p s else s.
Definition counted_dequeue (op : kernel -> kernel) (c p : Z) (s : numa_state) : numa_state :=
  let counts := is_fair s p in
  let s := on_numa_k op s in
  if counts then account_numa_dequeue c p s else s.

Definition numa_enqueue_task (c p flags : Z) : numa_state -> numa_state := counted_enqueue (enqueue_task c p flags) c p.
Definition numa_dequeue_task (c p flags : Z) : numa_state -> numa_state := counted_dequeue (dequeue_task c p flags) c p.
Definition numa_activate_task (c p flags : Z) : numa_state -> numa_state := counted_enqueue (activate_task c p flags) c p.
Definition numa_deactivate_task (c p flags : Z) : numa_state -> numa_state := counted_dequeue (deactivate_task c p flags) c p.

Definition sched_setnuma (p nid : Z) (s : numa_state) : numa_state :=
  let c := task_cpu (tasks (nu_k s) p) in
  let queued := task_on_rq_queued (nu_k s) p in
  let running := task_current (nu_k s) c p in
  let s := if queued then numa_dequeue_task c p DEQUEUE_SAVE s else s in
  let s := if running then on_numa_k (put_prev_task c p) s else s in
  let s := upd_nt p (fun t => t <| numa_preferred_nid := nid |>) s in
  let s := if queued then numa_enqueue_task c p (Z.lor ENQUEUE_RESTORE ENQUEUE_NOCLOCK) s else s in
  if running then on_numa_k (set_curr_task c p) s else s.

(** ** Moving and swapping (core.c) *)

(** [move_queued_task] and its callers as in [Core], with the counts. *)
Definition numa_move_queued_task (c p new_cpu : Z) (s : numa_state) : option numa_state :=
  let s := on_numa_k (upd_task p (fun t => t <| on_rq := TASK_ON_RQ_MIGRATING |>)) s in
  let s := numa_dequeue_task c p DEQUEUE_NOCLOCK s in
  let s := on_numa_k (set_task_cpu p new_cpu) s in
  if negb (task_cpu (tasks (nu_k s) p) =? new_cpu) then None
  else
    let s := numa_enqueue_task new_cpu p 0 s in
    let s := on_numa_k (upd_task p (fun t => t <| on_rq := TASK_ON_RQ_QUEUED |>)) s in
    Some (on_numa_k (check_preempt_curr new_cpu p 0) s).

Definition numa_migration_cpu_stop (c p dest_cpu : Z) (s : numa_state) : option numa_state :=
  if task_cpu (tasks (nu_k s) p) =? c then
    if task_on_rq_queued (nu_k s) p then
      if negb (is_cpu_allowed (nu_k s) p dest_cpu) then Some s
      else numa_move_queued_task c p dest_cpu (on_numa_k (update_rq_clock c) s)
    else Some (on_numa_k (upd_task p (fun t => t <| wake_cpu := dest_cpu |>)) s)
  else Some s.

(** [None] is the [BUG_ON] of [move_queued_task]. *)
Definition migrate_task_to (p target_cpu : Z) (s : numa_state) : option (numa_state * Z) :=
  let curr_cpu := task_cpu (tasks (nu_k s) p) in
  if curr_cpu =? target_cpu then Some (s, 0)
  else if negb (bool_decide (target_cpu ∈ cpus_allowed (tasks (nu_k s) p))) then Some (s, - EINVAL)
  else match stop_one_cpu curr_cpu s with
       | None => Some (s, - ENOENT)
       | Some s => (fun s => (s, 0)) <$> numa_migration_cpu_stop curr_cpu p target_cpu s
       end.

Definition __migrate_swap_task (p cpu : Z) (s : numa_state) : numa_state :=
  if task_on_rq_queued (nu_k s) p then
    let src := task_cpu (tasks (nu_k s) p) in
    let s := on_numa_k (upd_task p (fun t => t <| on_rq := TASK_ON_RQ_MIGRATING |>)) s in
    let s := numa_deactivate_task src p 0 s in
    let s := on_numa_k (set_task_cpu p cpu) s in
    let s := numa_activate_task cpu p 0 s in
    let s := on_numa_k (upd_task p (fun t => t <| on_rq := TASK_ON_RQ_QUEUED |>)) s in
    on_numa_k (check_preempt_curr cpu p 0) s
  else on_numa_k (upd_task p (fun t => t <| wake_cpu := cpu |>)) s.

(** Whether the two tasks are still where they were and may change places. *)
Definition may_swap (k : kernel) (src_task dst_task src_cpu dst_cpu : Z) : bool :=
  (task_cpu (tasks k dst_task) =? dst_cpu) && (task_cpu (tasks k src_task) =? src_cpu) &&
  bool_decide (dst_cpu ∈ cpus_allowed (tasks k src_task)) && bool_decide (src_cpu ∈ cpus_allowed (tasks k dst_task)).

Definition migrate_swap_stop (src_task dst_task src_cpu dst_cpu : Z) (s : numa_state) : numa_state * Z :=
  if negb (bool_decide (src_cpu ∈ cpu_active_mask (nu_k s))) || negb (bool_decide (dst_cpu ∈ cpu_active_mask (nu_k s)))
  then (s, - EAGAIN)
  else if negb (may_swap (nu_k s) src_task dst_task src_cpu dst_cpu) then (s, - EAGAIN)
  else (__migrate_swap_task dst_task src_cpu (__migrate_swap_task src_task dst_cpu s), 0).

Definition migrate_swap (cur p : Z) (s : numa_state) : numa_state * Z :=
  let src_cpu := task_cpu (tasks (nu_k s) cur) in
  let dst_cpu := task_cpu (tasks (nu_k s) p) in
  if src_cpu =? dst_cpu then (s, - EINVAL)
  else if negb (bool_decide (src_cpu ∈ cpu_active_mask (nu_k s))) || negb (bool_decide (dst_cpu ∈ cpu_active_mask (nu_k s)))
  then (s, - EINVAL)
  else if negb (bool_decide (dst_cpu ∈ cpus_allowed (tasks (nu_k s) cur))) then (s, - EINVAL)
  else if negb (bool_decide (src_cpu ∈ cpus_allowed (tasks (nu_k s) p))) then (s, - EINVAL)
  else match stop_two_cpus dst_cpu src_cpu s with
       | None => (s, - ENOENT)
       | Some s => migrate_swap_stop cur p src_cpu dst_cpu s
       end.

(** ** Capacity and load of nodes *)

Definition zero_numa_stats : numa_stats := mkNumaStats 0 0 0 0 false.

Definition update_numa_stats (k : kernel) (nid : Z) : numa_stats :=
  let l := for_each_cpu k (node_cpus nid) in
  let ns := foldl (fun ns cpu =>
    ns <| ns_nr_running ::= fun n => u64 (n + nr_running (rqs k cpu)) |>
       <| ns_load ::= fun n => u64 (n + weighted_cpuload k cpu) |>
       <| compute_capacity ::= fun n => u64 (n + capacity_of k cpu) |>) zero_numa_stats l in
  let cpus := Z.of_nat (length l) in
  if cpus =? 0 then ns
  else
    let smt := s32 (DIV_ROUND_UP (u64 (SCHED_CAPACITY_SCALE * cpus)) (compute_capacity ns)) in
    let capacity := Z.quot cpus smt in
    let tc := Z.min (u32 capacity) (u32 (DIV_ROUND_CLOSEST (compute_capacity ns) SCHED_CAPACITY_SCALE)) in
    ns <| task_capacity := tc |> <| has_free_capacity := ns_nr_running ns <? tc |>.

Definition task_numa_assign (p : option Z) (imp : Z) (env : task_numa_env) (s : numa_state) : task_numa_env * numa_state :=
  let s := match best_task env with Some q => s <| nu_refs ::= alter (fun n => n - 1) q |> | None => s end in
  let s := match p with Some q => s <| nu_refs ::= alter (fun n => n + 1) q |> | None => s end in
  (env <| best_task := p |> <| best_imp := imp |> <| best_cpu := ne_dst_cpu env |>, s).

Definition numa_imbalance (env : task_numa_env) (src_load dst_load : Z) : Z :=
  let src_capacity := s64 (compute_capacity (ne_src_stats env)) in
  let dst_capacity := s64 (compute_capacity (ne_dst_stats env)) in
  let '(src_load, dst_load) := if dst_load <? src_load then (dst_load, src_load) else (src_load, dst_load) in
  s64 (dst_load * src_capacity * 100 - src_load * dst_capacity * ne_imbalance_pct env).

Definition load_too_imbalanced (src_load dst_load : Z) (env : task_numa_env) : bool :=
  let imb := numa_imbalance env src_load dst_load in
  if imb <=? 0 then false
  else numa_imbalance env (s64 (ns_load (ne_src_stats env))) (s64 (ns_load (ne_dst_stats env))) <? imb.

Definition numa_has_capacity (env : task_numa_env) : bool :=
  let src := ne_src_stats env in let dst := ne_dst_stats env in
  if has_free_capacity src && negb (has_free_capacity dst) then false
  else u64 (ns_load dst * compute_capacity src * 100) <? u64 (ns_load src * compute_capacity dst * ne_imbalance_pct env).

(** ** The search for a CPU *)

(** How much better the nodes suit [env->p] and [cur] when they swap. *)
Definition swap_imp (env : task_numa_env) (taskimp imp cur : Z) (s : numa_state) : Z :=
  let dist := ne_dist env in
  if decide (nt_group (nt s cur) = nt_group (nt s (ne_p env))) then
    let imp := s64 (taskimp + task_weight s cur (ne_src_nid env) dist - task_weight s cur (ne_dst_nid env) dist) in
    match nt_group (nt s cur) with Some _ => s64 (imp - Z.quot imp 16) | None => imp end
  else match nt_group (nt s cur) with
       | Some _ => s64 (imp + (NumaStats.group_weight s cur (ne_src_nid env) dist - NumaStats.group_weight s cur (ne_dst_nid env) dist))
       | None => s64 (imp + (task_weight s cur (ne_src_nid env) dist - task_weight s cur (ne_dst_nid env) dist))
       end.

(** From the label [balance] on. *)
Definition compare_balance (env : task_numa_env) (cur : option Z) (imp moveimp : Z) (s : numa_state) : task_numa_env * numa_state :=
  let load := task_h_load (nu_k s) (ne_p env) in
  let dst_load := s64 (ns_load (ne_dst_stats env) + load) in
  let src_load := s64 (ns_load (ne_src_stats env) - load) in
  if (imp <? moveimp) && (best_imp env <? moveimp) && negb (load_too_imbalanced src_load dst_load env)
  then task_numa_assign None (s64 (moveimp - 1)) env s
  else if imp <=? best_imp env then (env, s)
  else
    let '(src_load, dst_load) :=
      match cur with
      | Some q => let load := task_h_load (nu_k s) q in (s64 (src_load + load), s64 (dst_load - load))
      | None => (src_load, dst_load)
      end in
    if load_too_imbalanced src_load dst_load env then (env, s)
    else match cur with
         | Some _ => task_numa_assign cur imp env s
         | None =>
             let '(k, cpu) := select_idle_sibling (ne_p env) (ne_src_cpu env) (ne_dst_cpu env) (nu_k s) in
             task_numa_assign None imp (env <| ne_dst_cpu := cpu |>) (s <| nu_k := k |>)
         end.

(** The task that runs on the destination is alive. *)
Definition task_numa_compare (taskimp groupimp : Z) (env : task_numa_env) (s : numa_state) : task_numa_env * numa_state :=
  let k := nu_k s in
  let cur := curr (rqs k (ne_dst_cpu env)) in
  let cur := if has_flag (flags (tasks k cur)) PF_EXITING || is_idle_task k cur then None else Some cur in
  let moveimp := match nt_group (nt s (ne_p env)) with Some _ => groupimp | None => taskimp end in
  if bool_decide (cur = Some (ne_p env)) then (env, s)
  else
    match cur with
    | Some q =>
        if negb (bool_decide (ne_src_cpu env ∈ cpus_allowed (tasks k q))) then (env, s)
        else
          let imp := swap_imp env taskimp moveimp q s in
          if (imp <=? best_imp env) && (moveimp <=? best_imp env) then (env, s)
          else if (best_imp env <? imp) && (nr_running (rqs k (ne_src_cpu env)) =? 1) && (nr_running (rqs k (ne_dst_cpu env)) =? 1)
          then task_numa_assign cur imp env s
          else compare_balance env cur imp moveimp s
    | None =>
        if moveimp <=? best_imp env then (env, s)
        else if (ns_nr_running (ne_src_stats env) <=? task_capacity (ne_src_stats env)) && negb (has_free_capacity (ne_dst_stats env))
        then (env, s)
        else compare_balance env None moveimp moveimp s
    end.

Definition find_cpu_step (taskimp groupimp : Z) (acc : task_numa_env * numa_state) (cpu : Z) : task_numa_env * numa_state :=
  let '(env, s) := acc in
  if negb (bool_decide (cpu ∈ cpus_allowed (tasks (nu_k s) (ne_p env)))) then (env, s)
  else task_numa_compare taskimp groupimp (env <| ne_dst_cpu := cpu |>) s.
Definition task_numa_find_cpu (taskimp groupimp : Z) (env : task_numa_env) (s : numa_state) : task_numa_env * numa_state :=
  foldl (find_cpu_step taskimp groupimp) (env, s) (for_each_cpu (nu_k s) (node_cpus (ne_dst_nid env))).

(** One round of the loop over the other nodes; the distance is that of the node
    looked at last. *)
Definition other_node_step (p : Z) (acc : task_numa_env * numa_state * (Z * Z)) (nid : Z) : task_numa_env * numa_state * (Z * Z) :=
  let '(env, s, (taskweight, groupweight)) := acc in
  if (nid =? ne_src_nid env) || (nid =? numa_preferred_nid (nt s p)) then acc
  else
    let dist := node_distance (ne_src_nid env) (ne_dst_nid env) in
    let '(taskweight, groupweight) :=
      if bool_decide (sched_numa_topology_type = NUMA_BACKPLANE) && negb (dist =? ne_dist env)
      then (task_weight s p (ne_src_nid env) dist, NumaStats.group_weight s p (ne_src_nid env) dist)
      else (taskweight, groupweight) in
    let taskimp := s64 (task_weight s p nid dist - taskweight) in
    let groupimp := s64 (NumaStats.group_weight s p nid dist - groupweight) in
    if (taskimp <? 0) && (groupimp <? 0) then (env, s, (taskweight, groupweight))
    else
      let env := env <| ne_dist := dist |> <| ne_dst_nid := nid |> <| ne_dst_stats := update_numa_stats (nu_k s) nid |> in
      let '(env, s) := if numa_has_capacity env then task_numa_find_cpu taskimp groupimp env s else (env, s) in
      (env, s, (taskweight, groupweight)).

(** The search up to the choice of [env.best_cpu]. *)
Definition numa_search (p pct : Z) (s : numa_state) : task_numa_env * numa_state :=
  let src_cpu := task_cpu (tasks (nu_k s) p) in
  let src_nid := task_node s p in
  let dst_nid := numa_preferred_nid (nt s p) in
  let dist := node_distance src_nid dst_nid in
  let taskweight := task_weight s p src_nid dist in
  let groupweight := NumaStats.group_weight s p src_nid dist in
  let taskimp := s64 (task_weight s p dst_nid dist - taskweight) in
  let groupimp := s64 (NumaStats.group_weight s p dst_nid dist - groupweight) in
  let env := mkNumaEnv p src_cpu src_nid 0 dst_nid (update_numa_stats (nu_k s) src_nid) (update_numa_stats (nu_k s) dst_nid)
    pct dist None 0 (-1) in
  let '(env, s) := if numa_has_capacity env then task_numa_find_cpu taskimp groupimp env s else (env, s) in
  let spread := match nt_group (nt s p) with Some g => 1 <? active_nodes (nu_group s g) | None => false end in
  if (best_cpu env =? -1) || spread
  then (foldl (other_node_step p) (env, s, (taskweight, groupweight)) online_nodes).1
  else (env, s).

Definition task_numa_migrate (p : Z) (s : numa_state) : option (numa_state * Z) :=
  match sd_numa (task_cpu (tasks (nu_k s) p)) with
  | None => Some (upd_nt p (fun t => t <| numa_preferred_nid := task_node s p |>) s, - EINVAL)
  | Some d =>
      let pct := s32 (100 + u32 (imbalance_pct (domains (nu_k s) d) - 100) / 2) in
      let '(env, s) := numa_search p pct s in
      let s := match nt_group (nt s p) with
               | Some g => if (1 <? active_nodes (nu_group s g)) && numa_is_active_node s (ne_dst_nid env) g
                           then sched_setnuma p (ne_dst_nid env) s else s
               | None => s
               end in
      if best_cpu env =? -1 then Some (s, - EAGAIN)
      else
        let s := upd_nt p (fun t => t <| numa_scan_period := task_scan_start s p |>) s in
        match best_task env with
        | None => migrate_task_to p (best_cpu env) s
        | Some q =>
            let '(s, ret) := migrate_swap p q s in
            Some (s <| nu_refs ::= alter (fun n => n - 1) q |>, ret)
        end
  end.

Definition numa_migrate_preferred (p : Z) (s : numa_state) : option numa_state :=
  if (numa_preferred_nid (nt s p) =? -1) || bool_decide (numa_faults (nt s p) = None) then Some s
  else
    let interval := Z.min HZ (msecs_to_jiffies (numa_scan_period (nt s p)) / 16) in
    let s := upd_nt p (fun t => t <| numa_migrate_retry := u64 (jiffies (nu_k s) + interval) |>) s in
    if task_node s p =? numa_preferred_nid (nt s p) then Some s
    else fst <$> task_numa_migrate p s.
End Migrate.
