(* ===== verification/NumaBooks.v ===== *)
(** * The books of NUMA placement (fair.c, core.c)

    The invariant [numa_inv]: the fair queues agree with their tasks, every
    queued fair task is on a CPU it may use, and each run queue counts those of
    its tasks that have a preferred node and those that are on it.  Setting the
    preferred node, moving a task and swapping two tasks keep it. *)

From S2P Require Import Prelude SchedTypes Core Frame Wrr CoreWake CorePolicy RtBandwidth FairMath FairPelt.
From S2P Require Import FairQueue FairInv FairOps FairFrame FairBusiest FairBalance FairMove FairSelect NumaStats NumaMigrate.

(** ** The counts *)

Section Counts.
Context `{NumaEnv}.

Definition prefers (s : numa_state) (p : Z) : Z := Z.b2z (negb (numa_preferred_nid (nt s p) =? -1)).
Definition at_home (s : numa_state) (c p : Z) : Z := Z.b2z (numa_preferred_nid (nt s p) =? cpu_to_node c).
Definition queued_on (s : numa_state) (c : Z) : list Z := fq_tasks (fq (nu_k s) c).

Definition counts_ok (s : numa_state) : Prop := forall c,
  nr_numa_running s c = u32 (sum_of (prefers s) (queued_on s c)) /\
  nr_preferred_running s c = u32 (sum_of (at_home s c) (queued_on s c)).

Lemma counts_same s s' :
  counts_ok s -> nr_numa_running s' = nr_numa_running s -> nr_preferred_running s' = nr_preferred_running s ->
  (forall c p, p ∈ queued_on s c -> numa_preferred_nid (nt s' p) = numa_preferred_nid (nt s p)) ->
  (forall c, queued_on s' c ≡ₚ queued_on s c) -> counts_ok s'.
Proof.
  intros C En Eh Ep Eq c. destruct (C c) as [C1 C2]. rewrite En, Eh, C1, C2, !(sum_of_Permutation _ _ _ (Eq c)).
  split; f_equal; apply sum_of_ext; intros p Hp; unfold prefers, at_home; by rewrite (Ep c p Hp).
Qed.

Lemma sum_of_cons_perm {A} (f : A -> Z) l l' x : l ≡ₚ x :: l' -> sum_of f l = f x + sum_of f l'.
Proof. intros E. by rewrite (sum_of_Permutation _ _ _ E). Qed.

(** Counting a task when it is queued and when it leaves. *)
Lemma counts_enqueue c p s s' :
  counts_ok s -> nr_numa_running s' = nr_numa_running s -> nr_preferred_running s' = nr_preferred_running s ->
  nu_task s' = nu_task s -> task_node s' p = cpu_to_node c ->
  (forall d, queued_on s' d ≡ₚ if decide (c = d) then p :: queued_on s d else queued_on s d) ->
  counts_ok (account_numa_enqueue c p s').
Proof.
  intros C En Eh Et Eno Eq d. destruct (C d) as [C1 C2]. specialize (Eq d).
  assert (Es : forall q, nt s' q = nt s q) by (intros q; unfold nt; by rewrite Et).
  assert (Ex : forall f : Z -> numa_task -> Z, sum_of (fun q => f d (nt (account_numa_enqueue c p s') q)) (queued_on s' d) =
                                       sum_of (fun q => f d (nt s q)) (queued_on s' d)).
  { intros f. apply sum_of_ext. intros q _. f_equal. exact (Es q). }
  pose proof (Ex (fun _ t => Z.b2z (negb (numa_preferred_nid t =? -1)))) as E1.
  pose proof (Ex (fun d t => Z.b2z (numa_preferred_nid t =? cpu_to_node d))) as E2. cbv beta in E1, E2. clear Ex.
  change (queued_on (account_numa_enqueue c p s') d) with (queued_on s' d). unfold prefers, at_home in *. rewrite E1, E2.
  unfold account_numa_enqueue. cbn -[sum_of]. rewrite En, Eh, Eno, Es.
  destruct (decide (c = d)) as [<-|Hne].
  - rewrite !fn_lookup_alter, C1, C2, !u32_add_l, !(sum_of_cons_perm _ _ _ _ Eq). split; f_equal; lia.
  - rewrite !fn_lookup_alter_ne, C1, C2, !(sum_of_Permutation _ _ _ Eq) by done. done.
Qed.

Lemma counts_dequeue c p s s' :
  counts_ok s -> nr_numa_running s' = nr_numa_running s -> nr_preferred_running s' = nr_preferred_running s ->
  nu_task s' = nu_task s -> task_node s' p = cpu_to_node c ->
  (forall d, queued_on s d ≡ₚ if decide (c = d) then p :: queued_on s' d else queued_on s' d) ->
  counts_ok (account_numa_dequeue c p s').
Proof.
  intros C En Eh Et Eno Eq d. destruct (C d) as [C1 C2]. specialize (Eq d).
  assert (Es : forall q, nt s' q = nt s q) by (intros q; unfold nt; by rewrite Et).
  assert (Ex : forall f : Z -> numa_task -> Z, sum_of (fun q => f d (nt (account_numa_dequeue c p s') q)) (queued_on s' d) =
                                       sum_of (fun q => f d (nt s q)) (queued_on s' d)).
  { intros f. apply sum_of_ext. intros q _. f_equal. exact (Es q). }
  pose proof (Ex (fun _ t => Z.b2z (negb (numa_preferred_nid t =? -1)))) as E1.
  pose proof (Ex (fun d t => Z.b2z (numa_preferred_nid t =? cpu_to_node d))) as E2. cbv beta in E1, E2. clear Ex.
  change (queued_on (account_numa_dequeue c p s') d) with (queued_on s' d). unfold prefers, at_home in *. rewrite E1, E2.
  unfold account_numa_dequeue. cbn -[sum_of]. rewrite En, Eh, Eno, Es.
  destruct (decide (c = d)) as [<-|Hne].
  - rewrite !fn_lookup_alter, C1, C2, !u32_sub_l, !(sum_of_cons_perm _ _ _ _ Eq). split; f_equal; lia.
  - rewrite !fn_lookup_alter_ne, C1, C2, !(sum_of_Permutation _ _ _ Eq) by done. done.
Qed.
End Counts.

(** ** Queues as their members *)

Lemma members_perm k k' c :
  fair_ok false k -> fair_ok false k' ->
  (forall p, fe_on (fe k' p) <> 0 /\ fe_cpu (fe k' p) = c <-> fe_on (fe k p) <> 0 /\ fe_cpu (fe k p) = c) ->
  fq_tasks (fq k' c) ≡ₚ fq_tasks (fq k c).
Proof.
  intros W W' Hm. apply NoDup_Permutation; [apply (wf_nodup _ _ (W' c))|apply (wf_nodup _ _ (W c))|].
  intros p. by rewrite (wf_members _ _ (W' c)), (wf_members _ _ (W c)).
Qed.

(** A queue with one task more. *)
Lemma members_cons k k' c p :
  fair_ok false k -> fair_ok false k' -> fe_on (fe k p) = 0 -> fe_on (fe k' p) <> 0 -> fe_cpu (fe k' p) = c ->
  (forall q, q <> p -> fe_on (fe k' q) = fe_on (fe k q) /\ fe_cpu (fe k' q) = fe_cpu (fe k q)) ->
  forall d, fq_tasks (fq k' d) ≡ₚ if decide (c = d) then p :: fq_tasks (fq k d) else fq_tasks (fq k d).
Proof.
  intros W W' Hoff Hon Hc Hq d. destruct (decide (c = d)) as [<-|Hne].
  - apply NoDup_Permutation; [apply (wf_nodup _ _ (W' c))| |].
    + apply NoDup_cons. split; [exact (wf_off k p W Hoff c)|apply (wf_nodup _ _ (W c))].
    + intros q. rewrite elem_of_cons, (wf_members _ _ (W' c)), (wf_members _ _ (W c)).
      destruct (decide (q = p)) as [->|Hn]; [tauto|]. destruct (Hq q Hn) as [-> ->]. tauto.
  - apply members_perm; [done..|]. intros q. destruct (decide (q = p)) as [->|Hn]; [split; intros []; congruence|].
    by destruct (Hq q Hn) as [-> ->].
Qed.

(** ** What the operations leave alone *)

Definition who (t : task_struct) := (class_of t, cpus_allowed t, on_rq t).
Definition same_who (k k' : kernel) : Prop :=
  (forall q, who (tasks k' q) = who (tasks k q)) /\ (forall c, curr (rqs k' c) = curr (rqs k c)) /\
  nr_cpu_ids k' = nr_cpu_ids k.

#[export] Instance same_who_preorder : PreOrder same_who.
Proof. split; [done|]. intros k1 k2 k3 (A & B & C) (A' & B' & C'). split_and!; intros; congruence. Qed.

Lemma who_equiv k k' : k' ≡c k -> same_who k k'.
Proof.
  intros E. split_and!; [intros q; exact (ce_task who k' k q E (fun _ => eq_refl))| |apply (ce_glob _ _ E)].
  intros c. exact (ce_rq curr k' k c E (fun _ => eq_refl)).
Qed.

Lemma who_fields k k' p : same_who k k' ->
  class_of (tasks k' p) = class_of (tasks k p) /\ cpus_allowed (tasks k' p) = cpus_allowed (tasks k p) /\
  on_rq (tasks k' p) = on_rq (tasks k p).
Proof. intros [A _]. specialize (A p). unfold who in A. by injection A. Qed.

Lemma who_upd_rq c f k : (forall r, curr (f r) = curr r) -> same_who k (upd_rq c f k).
Proof. intros Hf. split_and!; try done. intros d. rewrite rqs_upd_rq. by destruct (decide _) as [<-|]. Qed.

(** What core.c relies on: the other classes leave the fair queues alone. *)
Class OtherClasses `{FairEnv} `{PeltTable} `{QueueOps} : Prop := {
  oc_put_prev : op_put_prev_task fair_sched_class = put_prev_task_fair;
  oc_set_curr : op_set_curr_task fair_sched_class = set_curr_task_fair;
  oc_enqueue cls c p fl k : cls <> fair_sched_class -> op_enqueue_task cls c p fl k ≡f k;
  oc_dequeue cls c p fl k : cls <> fair_sched_class -> op_dequeue_task cls c p fl k ≡f k;
  oc_check cls c p fl k : cls <> fair_sched_class -> op_check_preempt_curr cls c p fl k ≡f k;
  oc_put cls c p k : cls <> fair_sched_class -> op_put_prev_task cls c p k ≡f k;
  oc_set cls c k : cls <> fair_sched_class -> op_set_curr_task cls c k ≡f k;
  oc_migrate cls f p k : cls <> fair_sched_class -> op_migrate_task_rq cls = Some f -> f p k ≡f k }.

#[export] Instance other_classes_none `{FairEnv} `{PeltTable} : @OtherClasses _ _ (fair_class_ops no_ops).
Proof.
  split; try done; intros cls; intros; cbn [op_enqueue_task op_dequeue_task op_check_preempt_curr op_put_prev_task op_set_curr_task
    op_migrate_task_rq fair_class_ops no_ops] in *.
  all: by destruct (decide (cls = fair_sched_class)).
Qed.

(** ** Queueing through the class table *)

Section Table.
Context `{FairEnv} `{PeltTable} `{QueueFrame} `{!FairDispatch} `{!OtherClasses}.

(** [op] takes the task [p] off the queue of [c] ([on] is 0) or puts it on, if it
    is fair. *)
Definition requeues (on : Z) (op : kernel -> kernel) (c p : Z) : Prop := forall k, same_who k (op k) /\
  (class_of (tasks k p) = fair_sched_class -> fair_ok false k -> (if on =? 0 then fe_on (fe k p) <> 0 else fe_on (fe k p) = 0) ->
   fe_cpu (fe k p) = c -> room k c -> fair_ok false (op k) /\ flips_view p on k (op k)) /\
  (class_of (tasks k p) <> fair_sched_class -> op k ≡f k).

Lemma room_equiv k k' c : k' ≡f k -> room k c -> room k' c.
Proof. intros E. unfold room. by rewrite (proj1 E). Qed.

Lemma dequeue_detaches c p fl : requeues 0 (dequeue_task c p fl) c p.
Proof.
  intros k. split; [apply who_equiv, core_dequeue|]. unfold dequeue_task. cbv zeta.
  set (k1 := if has_flag fl DEQUEUE_SAVE then _ else _).
  assert (Ef : k1 ≡f k) by (unfold k1; repeat case_match; try done; apply fair_clock).
  assert (Ec : k1 ≡c k) by (unfold k1; repeat case_match; try done; apply core_clock).
  clearbody k1. destruct (who_fields _ _ p (who_equiv _ _ Ec)) as (-> & _). split.
  - intros Hc W Hon Hcpu Hr. rewrite Hc, fd_dequeue. split.
    + apply dequeue_task_fair_wf; rewrite ?Ef, ?(proj2 Ef); [done..|by eapply room_equiv].
    + eapply flips_trans_l; [by apply view_equiv|]. apply view_dequeue. by rewrite (proj2 Ef).
  - intros Hc. by rewrite oc_dequeue.
Qed.

Lemma enqueue_attaches c p fl : requeues 1 (enqueue_task c p fl) c p.
Proof.
  intros k. split; [apply who_equiv, core_enqueue|]. unfold enqueue_task. cbv zeta.
  set (k1 := if has_flag fl ENQUEUE_RESTORE then _ else _).
  assert (Ef : k1 ≡f k) by (unfold k1; repeat case_match; try done; apply fair_clock).
  assert (Ec : k1 ≡c k) by (unfold k1; repeat case_match; try done; apply core_clock).
  clearbody k1. destruct (who_fields _ _ p (who_equiv _ _ Ec)) as (-> & _). split.
  - intros Hc W Hon Hcpu Hr. rewrite Hc, fd_enqueue. split.
    + apply enqueue_task_fair_wf; rewrite ?Ef, ?(proj2 Ef); [done..|by eapply room_equiv|done].
    + eapply flips_trans_l; [by apply view_equiv|]. apply view_enqueue; by rewrite (proj2 Ef).
  - intros Hc. by rewrite oc_enqueue.
Qed.

(** The accounting of uninterruptible tasks comes first. *)
Lemma requeues_after on f op c p :
  (forall k, f k ≡f k /\ same_who k (f k)) -> requeues on op c p -> requeues on (fun k => op (f k)) c p.
Proof.
  intros Hf Hop k. destruct (Hf k) as [Ef Ew]. destruct (Hop (f k)) as (S & D & N). rewrite (proj1 (who_fields _ _ p Ew)) in D, N.
  rewrite !(proj2 Ef p) in D. split_and!; [by etransitivity| |].
  - intros Hc W Hon Hcpu Hr. destruct D as [D1 D2]; [done|by rewrite Ef|done|done|by eapply room_equiv|]. split; [done|].
    eapply flips_trans_l; [by apply view_equiv|done].
  - intros Hc. by rewrite N.
Qed.

Lemma deactivate_detaches c p fl : requeues 0 (deactivate_task c p fl) c p.
Proof.
  apply (requeues_after _ (fun k => if task_contributes_to_load (tasks k p) then upd_rq c _ k else k)); [|apply dequeue_detaches].
  intros k. destruct (task_contributes_to_load _); [|done]. split; [by apply fair_upd_rq|by apply who_upd_rq].
Qed.
Lemma activate_attaches c p fl : requeues 1 (activate_task c p fl) c p.
Proof.
  apply (requeues_after _ (fun k => if task_contributes_to_load (tasks k p) then upd_rq c _ k else k)); [|apply enqueue_attaches].
  intros k. destruct (task_contributes_to_load _); [|done]. split; [by apply fair_upd_rq|by apply who_upd_rq].
Qed.

(** Another CPU for a task that is not queued and runs nowhere. *)
Lemma set_cpu_moves p cpu k :
  fe_on (fe k p) = 0 -> (forall c, fq_curr (fq k c) <> Some p) -> fair_ok false k ->
  let k' := set_task_cpu p cpu k in
  fair_ok false k' /\ same_who k k' /\ (forall c, fq_curr (fq k' c) = fq_curr (fq k c)) /\
  (forall q, fe_on (fe k' q) = fe_on (fe k q)) /\
  (forall q, fe_cpu (fe k' q) = if decide (p = q) then cpu else fe_cpu (fe k q)).
Proof.
  intros Hon Hcur W k'.
  assert (Ew : same_who k k').
  { transitivity (__set_task_cpu p cpu k); [|apply who_equiv, core_set_task_cpu].
    split_and!; try done. intros q. unfold __set_task_cpu. rewrite tasks_upd_task. by destruct (decide _) as [<-|]. }
  destruct (decide (class_of (tasks k p) = fair_sched_class)) as [Hc|Hc].
  { by destruct (set_task_cpu_view p cpu k Hc Hon Hcur W) as (A & B & C & D & _). }
  assert (E : exists k1, k1 ≡f k /\ k' = __set_task_cpu p cpu k1).
  { unfold k', set_task_cpu. cbv zeta. eexists. split; [|reflexivity]. destruct (negb _); [|done].
    destruct (op_migrate_task_rq _) as [f|] eqn:E.
    - transitivity (f p k); [fair_back|exact (oc_migrate _ f p k Hc E)].
    - fair_back. }
  destruct E as (k1 & Ef & Ek).
  assert (Efe : forall q, fe k' q = if decide (p = q) then fe k p <| fe_cpu := cpu |> else fe k q).
  { intros q. rewrite Ek. unfold __set_task_cpu. rewrite fe_upd_task. rewrite <- !(proj2 Ef). by destruct (decide (p = q)). }
  assert (Efq : forall c, fq k' c = fq k c) by (intros c; rewrite Ek; apply Ef).
  split_and!; [|done| | |].
  - apply (off_task_wf p k); [done| |done| | |done].
    + intros q Hq. by rewrite Efe, decide_False.
    + by rewrite Efe, decide_True.
    + by right.
  - intros c. by rewrite Efq.
  - intros q. rewrite Efe. by destruct (decide (p = q)) as [<-|].
  - intros q. rewrite Efe. by destruct (decide (p = q)) as [<-|].
Qed.

(** [check_preempt_curr] only marks tasks. *)
Lemma check_preempt_view c p fl k :
  (class_of (tasks k p) = fair_sched_class -> fe_on (fe k p) <> 0) -> fair_ok false k ->
  same_view k (check_preempt_curr c p fl k) /\ fair_ok false (check_preempt_curr c p fl k).
Proof.
  intros Hon W. unfold check_preempt_curr. cbv zeta. set (k1 := if decide _ then _ else _).
  assert (V1 : same_view k k1 /\ fair_ok false k1).
  { unfold k1. case_decide as E.
    - rewrite <- E. destruct (decide (class_of (tasks k p) = fair_sched_class)) as [Hc|Hc].
      + rewrite Hc, fd_check. split; [apply view_check_wakeup|]. apply check_preempt_wakeup_wf; [done|by apply Hon].
      + pose proof (oc_check _ c p fl k Hc) as Ef. split; [by apply view_equiv|by rewrite Ef].
    - destruct (class_above _ _); [|done]. split; [apply view_equiv, fair_resched|by rewrite fair_resched]. }
  clearbody k1. destruct V1 as [V1 W1]. destruct (_ && _); [|done].
  split; [etransitivity; [exact V1|apply view_equiv, fair_skip_update]|by rewrite fair_skip_update].
Qed.
End Table.

(** ** The invariant *)

(** A task in [x] is on its way to another queue or node. *)
Record numa_inv `{NumaEnv} (x : option Z) (s : numa_state) : Prop := {
  ni_ok : fair_ok false (nu_k s);
  ni_counts : counts_ok s;
  ni_class p : fe_on (fe (nu_k s) p) <> 0 -> class_of (tasks (nu_k s) p) = fair_sched_class;
  ni_placed p : fe_on (fe (nu_k s) p) <> 0 -> fe_cpu (fe (nu_k s) p) ∈ cpus_allowed (tasks (nu_k s) p);
  ni_ids p : fe_on (fe (nu_k s) p) <> 0 -> 0 <= p < PID_MAX_LIMIT;
  ni_queued p : x <> Some p -> class_of (tasks (nu_k s) p) = fair_sched_class ->
    (on_rq (tasks (nu_k s) p) = TASK_ON_RQ_QUEUED <-> fe_on (fe (nu_k s) p) <> 0);
  ni_cpus : 0 <= nr_cpu_ids (nu_k s) < 2 ^ 31;
  ni_run c : x = None -> class_of (tasks (nu_k s) (curr (rqs (nu_k s) c))) = fair_sched_class ->
    fq_curr (fq (nu_k s) c) = Some (curr (rqs (nu_k s) c)) }.

Lemma ids_room `{NumaEnv} x s c : numa_inv x s -> room (nu_k s) c.
Proof.
  intros I. unfold room. assert (Hlen : Z.of_nat (length (fq_tasks (fq (nu_k s) c))) <= PID_MAX_LIMIT).
  { apply small_list; [done|apply (wf_nodup _ _ (ni_ok _ _ I c))|]. intros p Hp.
    apply (wf_members _ _ (ni_ok _ _ I c)) in Hp as [Hon _]. by apply (ni_ids _ _ I). }
  unfold PID_MAX_LIMIT in *. lia.
Qed.

(** Only the task [p] may have been requeued: it is queued or not ([on]), on the
    CPU [cpu]. *)
Record requeued (p on cpu : Z) (s s' : numa_state) : Prop := {
  rq_on q : fe_on (fe (nu_k s') q) = if decide (p = q) then on else fe_on (fe (nu_k s) q);
  rq_cpu q : fe_cpu (fe (nu_k s') q) = if decide (p = q) then cpu else fe_cpu (fe (nu_k s) q);
  rq_curr c : fq_curr (fq (nu_k s') c) = fq_curr (fq (nu_k s) c);
  rq_who : same_who (nu_k s) (nu_k s');
  rq_task : nu_task s' = nu_task s;
  rq_refs : nu_refs s' = nu_refs s }.

Section Books.
Context `{NumaEnv} `{FairEnv} `{PeltTable} `{QueueFrame} `{!FairDispatch} `{!OtherClasses}.

Lemma off_of_class x s p : numa_inv x s -> class_of (tasks (nu_k s) p) <> fair_sched_class -> fe_on (fe (nu_k s) p) = 0.
Proof. intros I Hc. destruct (decide (fe_on (fe (nu_k s) p) = 0)) as [|Hn]; [done|]. by apply (ni_class _ _ I) in Hn. Qed.

Lemma requeued_inv p on cpu s s' :
  numa_inv (Some p) s -> requeued p on cpu s s' -> fair_ok false (nu_k s') -> counts_ok s' ->
  (on <> 0 -> class_of (tasks (nu_k s) p) = fair_sched_class /\ cpu ∈ cpus_allowed (tasks (nu_k s) p) /\ 0 <= p < PID_MAX_LIMIT) ->
  numa_inv (Some p) s'.
Proof.
  intros [W C Cl Pl Id Q Nc R] [Ron Rcpu Rcur Rw _ _] W' C' Hp. split; try done.
  - intros q. rewrite Ron, (proj1 (who_fields _ _ q Rw)). destruct (decide (p = q)) as [<-|]; [apply Hp|apply Cl].
  - intros q. destruct (who_fields _ _ q Rw) as (_ & -> & _). rewrite Ron, Rcpu. destruct (decide (p = q)) as [<-|]; [apply Hp|apply Pl].
  - intros q. rewrite Ron. destruct (decide (p = q)) as [<-|]; [apply Hp|apply Id].
  - intros q Hq. destruct (who_fields _ _ q Rw) as (-> & _ & ->). rewrite Ron. destruct (decide (p = q)) as [<-|]; [done|by apply Q].
  - by destruct Rw as (_ & _ & ->).
Qed.

(** Taking a task off its queue. *)
Lemma counted_dequeue_inv op c p s :
  requeues 0 op c p -> numa_inv (Some p) s -> fe_cpu (fe (nu_k s) p) = c ->
  (class_of (tasks (nu_k s) p) = fair_sched_class -> fe_on (fe (nu_k s) p) <> 0) ->
  let s' := counted_dequeue op c p s in numa_inv (Some p) s' /\ requeued p 0 c s s'.
Proof.
  intros Hop I Hc Hon s'. destruct (Hop (nu_k s)) as (Sw & D & N). pose proof (ids_room _ _ c I) as Hr.
  assert (Ek : nu_k s' = op (nu_k s)) by (unfold s', counted_dequeue; by destruct (is_fair s p)).
  assert (Et : nu_task s' = nu_task s /\ nu_refs s' = nu_refs s) by (unfold s', counted_dequeue; by destruct (is_fair s p)).
  destruct (decide (class_of (tasks (nu_k s) p) = fair_sched_class)) as [Hf|Hf].
  - destruct (D Hf (ni_ok _ _ I) (Hon Hf) Hc Hr) as [W' [V1 V2]]. clear D N. rewrite <- Ek in *.
    assert (R : requeued p 0 c s s').
    { split; try apply Et; [intros q; apply V1| |apply V2|done]. intros q. rewrite (proj2 (V1 q)). by destruct (decide (p = q)) as [<-|]. }
    split; [|done]. apply (requeued_inv p 0 c s); [done..| |done].
    unfold s', counted_dequeue, is_fair. rewrite bool_decide_true by done.
    apply (counts_dequeue c p s); try done; [apply I| |].
    + unfold task_node. change (task_cpu (tasks (nu_k (on_numa_k op s)) p)) with (fe_cpu (fe (op (nu_k s)) p)).
      rewrite <- Ek, (rq_cpu _ _ _ _ _ R), decide_True by done. done.
    + intros d. unfold queued_on. change (nu_k (on_numa_k op s)) with (op (nu_k s)). rewrite <- Ek.
      apply members_cons; [done|apply I| |by apply Hon|done|].
      * by rewrite (rq_on _ _ _ _ _ R), decide_True.
      * intros q Hq. rewrite (rq_on _ _ _ _ _ R), (rq_cpu _ _ _ _ _ R), !decide_False by done. done.
  - specialize (N Hf). rewrite <- Ek in *. pose proof (off_of_class _ _ _ I Hf) as Hoff.
    assert (R : requeued p 0 c s s').
    { split; try apply Et; [| |intros d; by rewrite (proj1 N)|done].
      all: intros q; rewrite (proj2 N); by destruct (decide (p = q)) as [<-|]. }
    split; [|done]. apply (requeued_inv p 0 c s); [done..|by rewrite N; apply I| |done].
    apply (counts_same s); [apply I|..]; try (unfold s', counted_dequeue, is_fair; by rewrite bool_decide_false).
    intros d. unfold queued_on. by rewrite (proj1 N).
Qed.

(** Putting it on the queue of a CPU it may use. *)
Lemma counted_enqueue_inv op c p s :
  requeues 1 op c p -> numa_inv (Some p) s -> fe_cpu (fe (nu_k s) p) = c -> fe_on (fe (nu_k s) p) = 0 ->
  (class_of (tasks (nu_k s) p) = fair_sched_class -> c ∈ cpus_allowed (tasks (nu_k s) p) /\ 0 <= p < PID_MAX_LIMIT) ->
  let s' := counted_enqueue op c p s in
  numa_inv (Some p) s' /\ requeued p (if is_fair s p then 1 else 0) c s s'.
Proof.
  intros Hop I Hc Hoff Hp s'. destruct (Hop (nu_k s)) as (Sw & D & N). pose proof (ids_room _ _ c I) as Hr.
  assert (Ez : (se_on_rq (sea (nu_k s) p) =? 0) = true) by (apply Z.eqb_eq; exact Hoff).
  assert (Es : s' = if is_fair s p then account_numa_enqueue c p (on_numa_k op s) else on_numa_k op s).
  { unfold s', counted_enqueue. by rewrite Ez, andb_true_r. }
  assert (Ek : nu_k s' = op (nu_k s)) by (rewrite Es; by destruct (is_fair s p)).
  assert (Et : nu_task s' = nu_task s /\ nu_refs s' = nu_refs s) by (rewrite Es; by destruct (is_fair s p)).
  destruct (decide (class_of (tasks (nu_k s) p) = fair_sched_class)) as [Hf|Hf].
  - assert (Eb : is_fair s p = true) by (by apply bool_decide_true). rewrite Eb in *.
    destruct (D Hf (ni_ok _ _ I) Hoff Hc Hr) as [W' [V1 V2]]. clear D N. rewrite <- Ek in *.
    assert (R : requeued p 1 c s s').
    { split; try apply Et; [intros q; apply V1| |apply V2|done]. intros q. rewrite (proj2 (V1 q)). by destruct (decide (p = q)) as [<-|]. }
    split; [|done]. apply (requeued_inv p 1 c s); [done..| |naive_solver]. rewrite Es.
    apply (counts_enqueue c p s); try done; [apply I| |].
    + unfold task_node. change (task_cpu (tasks (nu_k (on_numa_k op s)) p)) with (fe_cpu (fe (op (nu_k s)) p)).
      rewrite <- Ek, (rq_cpu _ _ _ _ _ R), decide_True by done. done.
    + intros d. unfold queued_on. change (nu_k (on_numa_k op s)) with (op (nu_k s)). rewrite <- Ek.
      apply members_cons; [apply I|done|done| | |].
      * by rewrite (rq_on _ _ _ _ _ R), decide_True.
      * by rewrite (rq_cpu _ _ _ _ _ R), decide_True.
      * intros q Hq. rewrite (rq_on _ _ _ _ _ R), (rq_cpu _ _ _ _ _ R), !decide_False by done. done.
  - assert (Eb : is_fair s p = false) by (by apply bool_decide_false). rewrite Eb in *. specialize (N Hf). rewrite <- Ek in *.
    assert (R : requeued p 0 c s s').
    { split; try apply Et; [| |intros d; by rewrite (proj1 N)|done].
      all: intros q; rewrite (proj2 N); by destruct (decide (p = q)) as [<-|]. }
    split; [|done]. apply (requeued_inv p 0 c s); [done..|by rewrite N; apply I| |done].
    apply (counts_same s); [apply I|by rewrite Es..| |].
    + intros d q _. unfold nt. by rewrite (proj1 Et).
    + intros d. unfold queued_on. by rewrite (proj1 N).
Qed.

(** Changes of the kernel that move no task. *)
Lemma kernel_inv_moving x f s :
  (forall q, fe_on (fe (f (nu_k s)) q) = fe_on (fe (nu_k s) q) /\ fe_cpu (fe (f (nu_k s)) q) = fe_cpu (fe (nu_k s) q)) ->
  (x = None -> forall c, fq_curr (fq (f (nu_k s)) c) = fq_curr (fq (nu_k s) c)) ->
  same_who (nu_k s) (f (nu_k s)) -> fair_ok false (f (nu_k s)) -> numa_inv x s -> numa_inv x (on_numa_k f s).
Proof.
  intros V Vc Sw W' [W C Cl Pl Id Q Nc R]. unfold on_numa_k. split; cbn [nu_k]; cbn -[fe fq]; try done.
  - apply (counts_same s); [done..|]. intros c. apply (members_perm (nu_k s) (f (nu_k s))); [done..|]. intros p. by destruct (V p) as [-> ->].
  - intros p. destruct (V p) as [-> _]. rewrite (proj1 (who_fields _ _ p Sw)). apply Cl.
  - intros p. destruct (V p) as [-> ->], (who_fields _ _ p Sw) as (_ & -> & _). apply Pl.
  - intros p. destruct (V p) as [-> _]. apply Id.
  - intros p. destruct (V p) as [-> _], (who_fields _ _ p Sw) as (-> & _ & ->). apply Q.
  - by destruct Sw as (_ & _ & ->).
  - intros c Hx. destruct Sw as (Sw & Sc & _). rewrite (Vc Hx), Sc. specialize (Sw (curr (rqs (nu_k s) c))). injection Sw as -> _ _. by apply R.
Qed.
Lemma kernel_inv x f s :
  same_view (nu_k s) (f (nu_k s)) -> same_who (nu_k s) (f (nu_k s)) -> fair_ok false (f (nu_k s)) ->
  numa_inv x s -> numa_inv x (on_numa_k f s).
Proof. intros [V Vc]. apply kernel_inv_moving; [done|]. by intros _. Qed.

(** Marking a task as on its way, and as arrived. *)
Definition mark_on_rq (p v : Z) : kernel -> kernel := upd_task p (fun t => t <| on_rq := v |>).
Lemma mark_fields p v k q :
  fe (mark_on_rq p v k) q = fe k q /\ class_of (tasks (mark_on_rq p v k) q) = class_of (tasks k q) /\
  cpus_allowed (tasks (mark_on_rq p v k) q) = cpus_allowed (tasks k q) /\
  on_rq (tasks (mark_on_rq p v k) q) = if decide (p = q) then v else on_rq (tasks k q).
Proof. unfold fe, mark_on_rq. rewrite tasks_upd_task. by destruct (decide (p = q)) as [<-|]. Qed.
Lemma mark_inv p v s : numa_inv None s -> numa_inv (Some p) (on_numa_k (mark_on_rq p v) s).
Proof.
  intros [W C Cl Pl Id Q Nc R]. pose proof (mark_fields p v (nu_k s)) as F. split; cbn [on_numa_k nu_k]; cbn -[fe fq mark_on_rq]; try done.
  - unfold mark_on_rq. by rewrite fair_upd_task.
  - intros q. destruct (F q) as (-> & -> & _). apply Cl.
  - intros q. destruct (F q) as (-> & _ & -> & _). apply Pl.
  - intros q. destruct (F q) as (-> & _). apply Id.
  - intros q Hq. destruct (F q) as (-> & -> & _ & ->). rewrite decide_False by congruence. by apply Q.
Qed.
Lemma unmark_inv p s :
  numa_inv (Some p) s -> (class_of (tasks (nu_k s) p) = fair_sched_class -> fe_on (fe (nu_k s) p) <> 0) ->
  (forall c, class_of (tasks (nu_k s) (curr (rqs (nu_k s) c))) = fair_sched_class ->
     fq_curr (fq (nu_k s) c) = Some (curr (rqs (nu_k s) c))) ->
  numa_inv None (on_numa_k (mark_on_rq p TASK_ON_RQ_QUEUED) s).
Proof.
  intros [W C Cl Pl Id Q Nc R] Hp Hr. pose proof (mark_fields p TASK_ON_RQ_QUEUED (nu_k s)) as F.
  split; cbn [on_numa_k nu_k]; cbn -[fe fq mark_on_rq]; try done.
  - unfold mark_on_rq. by rewrite fair_upd_task.
  - intros q. destruct (F q) as (-> & -> & _). apply Cl.
  - intros q. destruct (F q) as (-> & _ & -> & _). apply Pl.
  - intros q. destruct (F q) as (-> & _). apply Id.
  - intros q _. destruct (F q) as (-> & -> & _ & ->). destruct (decide (p = q)) as [<-|]; [naive_solver|apply Q; congruence].
  - intros c _. destruct (F (curr (rqs (nu_k s) c))) as (_ & E & _). intros Hc. apply Hr. by rewrite <- E.
Qed.

(** ** Moving a queued task *)

(** What moving [p] to [cpu] changes for other code. *)
Record relocated (p cpu : Z) (s s' : numa_state) : Prop := {
  rl_on q : fe_on (fe (nu_k s') q) <> 0 <-> fe_on (fe (nu_k s) q) <> 0;
  rl_cpu q : fe_cpu (fe (nu_k s') q) = if decide (p = q) then cpu else fe_cpu (fe (nu_k s) q);
  rl_curr c : fq_curr (fq (nu_k s') c) = fq_curr (fq (nu_k s) c);
  rl_who : same_who (nu_k s) (nu_k s');
  rl_task : nu_task s' = nu_task s;
  rl_refs : nu_refs s' = nu_refs s }.

(** The steps of [move_queued_task] and of [__migrate_swap_task] up to the queueing. *)
Definition carry (deq enq : kernel -> kernel) (src p cpu : Z) (s : numa_state) : numa_state :=
  counted_enqueue enq cpu p (on_numa_k (set_task_cpu p cpu) (counted_dequeue deq src p (on_numa_k (mark_on_rq p TASK_ON_RQ_MIGRATING) s))).
Definition settle (p cpu : Z) (s : numa_state) : numa_state :=
  on_numa_k (check_preempt_curr cpu p 0) (on_numa_k (mark_on_rq p TASK_ON_RQ_QUEUED) s).

Lemma requeued_trans p on on' cpu cpu' s1 s2 s3 :
  requeued p on cpu s1 s2 -> requeued p on' cpu' s2 s3 -> requeued p on' cpu' s1 s3.
Proof.
  intros [A1 B1 C1 D1 E1 F1] [A2 B2 C2 D2 E2 F2]. split.
  - intros q. rewrite A2, A1. by destruct (decide (p = q)).
  - intros q. rewrite B2, B1. by destruct (decide (p = q)).
  - intros c. by rewrite C2.
  - by etransitivity.
  - congruence.
  - congruence.
Qed.

Lemma set_cpu_inv p cpu s :
  numa_inv (Some p) s -> fe_on (fe (nu_k s) p) = 0 -> (forall c, fq_curr (fq (nu_k s) c) <> Some p) ->
  let s' := on_numa_k (set_task_cpu p cpu) s in numa_inv (Some p) s' /\ requeued p 0 cpu s s'.
Proof.
  intros I Hon Hcur s'. destruct (set_cpu_moves p cpu (nu_k s) Hon Hcur (ni_ok _ _ I)) as (W' & Sw & Vc & Von & Vcpu).
  assert (R : requeued p 0 cpu s s').
  { split; try done. intros q. change (nu_k s') with (set_task_cpu p cpu (nu_k s)). rewrite Von. by destruct (decide (p = q)) as [<-|]. }
  split; [|done]. apply (requeued_inv p 0 cpu s); [done..| |done].
  apply (counts_same s); [apply I|done..|]. intros c. apply (members_perm (nu_k s) (set_task_cpu p cpu (nu_k s))); [apply I|done|].
  intros q. rewrite Von, Vcpu. destruct (decide (p = q)) as [<-|]; [rewrite Hon; by split; intros []|done].
Qed.

Lemma carry_inv deq enq src p cpu s :
  requeues 0 deq src p -> requeues 1 enq cpu p -> numa_inv None s -> on_rq (tasks (nu_k s) p) = TASK_ON_RQ_QUEUED ->
  fe_cpu (fe (nu_k s) p) = src -> fq_curr (fq (nu_k s) src) = None -> cpu ∈ cpus_allowed (tasks (nu_k s) p) ->
  let s2 := on_numa_k (set_task_cpu p cpu) (counted_dequeue deq src p (on_numa_k (mark_on_rq p TASK_ON_RQ_MIGRATING) s)) in
  fe_cpu (fe (nu_k s2) p) = cpu /\ numa_inv (Some p) (carry deq enq src p cpu s) /\
  requeued p (if is_fair s p then 1 else 0) cpu (on_numa_k (mark_on_rq p TASK_ON_RQ_MIGRATING) s) (carry deq enq src p cpu s).
Proof.
  intros Hd He I Hq Hsrc Hcur Hal. pose proof (mark_fields p TASK_ON_RQ_MIGRATING (nu_k s)) as F.
  pose proof (mark_inv p TASK_ON_RQ_MIGRATING s I) as I0. unfold carry.
  assert (Hfair : class_of (tasks (nu_k s) p) = fair_sched_class -> fe_on (fe (nu_k s) p) <> 0) by (intros Hc; by apply (ni_queued _ _ I)).
  set (s0 := on_numa_k (mark_on_rq p TASK_ON_RQ_MIGRATING) s) in *.
  assert (E0 : nu_k s0 = mark_on_rq p TASK_ON_RQ_MIGRATING (nu_k s)) by done.
  assert (Ef : is_fair s p = is_fair s0 p) by (unfold is_fair; rewrite E0; by destruct (F p) as (_ & -> & _)).
  destruct (counted_dequeue_inv deq src p s0 Hd I0) as [I1 R1].
  { by rewrite E0, (proj1 (F p)). }
  { rewrite E0. destruct (F p) as (-> & -> & _). done. }
  set (s1 := counted_dequeue deq src p s0) in *. clearbody s1.
  assert (Hnc : forall c, fq_curr (fq (nu_k s1) c) <> Some p).
  { intros c. rewrite (rq_curr _ _ _ _ _ R1). change (fq (nu_k s0) c) with (fq (nu_k s) c). intros Hc.
    pose proof (wf_curr _ _ (ni_ok _ _ I c) _ Hc) as Hcc. rewrite Hsrc in Hcc. subst c. congruence. }
  destruct (set_cpu_inv p cpu s1 I1) as [I2 R2]; [by rewrite (rq_on _ _ _ _ _ R1), decide_True|done|].
  set (s2 := on_numa_k (set_task_cpu p cpu) s1) in *. clearbody s2. pose proof (requeued_trans _ _ _ _ _ _ _ _ R1 R2) as R02.
  destruct (who_fields _ _ p (rq_who _ _ _ _ _ R02)) as (Ecl & Eal & _). rewrite E0 in Ecl, Eal. destruct (F p) as (Efe & F1 & F2 & _).
  rewrite F1 in Ecl. rewrite F2 in Eal.
  assert (Hcpu : fe_cpu (fe (nu_k s2) p) = cpu) by (by rewrite (rq_cpu _ _ _ _ _ R02), decide_True).
  destruct (counted_enqueue_inv enq cpu p s2 He I2 Hcpu) as [I3 R3].
  { by rewrite (rq_on _ _ _ _ _ R02), decide_True. }
  { rewrite Ecl, Eal. intros Hc. split; [done|]. apply (ni_ids _ _ I), Hfair, Hc. }
  split_and!; [done|done|]. eapply requeued_trans; [exact R02|]. rewrite Ef. unfold is_fair in *. rewrite E0, F1, <- Ecl. exact R3.
Qed.

Lemma settle_inv p cpu s s0 :
  numa_inv None s -> on_rq (tasks (nu_k s) p) = TASK_ON_RQ_QUEUED -> numa_inv (Some p) s0 ->
  requeued p (if is_fair s p then 1 else 0) cpu (on_numa_k (mark_on_rq p TASK_ON_RQ_MIGRATING) s) s0 ->
  numa_inv None (settle p cpu s0) /\ relocated p cpu s (settle p cpu s0).
Proof.
  intros I Hq I0 R. pose proof (mark_fields p TASK_ON_RQ_MIGRATING (nu_k s)) as F.
  assert (Hon : forall q, fe_on (fe (nu_k s0) q) <> 0 <-> fe_on (fe (nu_k s) q) <> 0).
  { intros q. rewrite (rq_on _ _ _ _ _ R). cbn [nu_k on_numa_k]. cbn -[fe fq mark_on_rq]. rewrite (proj1 (F q)).
    destruct (decide (p = q)) as [<-|]; [|done]. unfold is_fair. case_bool_decide as Hc.
    - split; [intros _; by apply (ni_queued _ _ I)|done].
    - by rewrite (off_of_class _ _ _ I Hc). }
  assert (Hcl : forall q, class_of (tasks (nu_k s0) q) = class_of (tasks (nu_k s) q) /\ cpus_allowed (tasks (nu_k s0) q) = cpus_allowed (tasks (nu_k s) q) /\
    (q <> p -> on_rq (tasks (nu_k s0) q) = on_rq (tasks (nu_k s) q))).
  { intros q. destruct (who_fields _ _ q (rq_who _ _ _ _ _ R)) as (-> & -> & ->). cbn [nu_k on_numa_k]. cbn -[fe fq mark_on_rq].
    destruct (F q) as (_ & -> & -> & ->). split_and!; [done..|]. intros Hne. by rewrite decide_False. }
  assert (Hrun : forall c, class_of (tasks (nu_k s0) (curr (rqs (nu_k s0) c))) = fair_sched_class ->
     fq_curr (fq (nu_k s0) c) = Some (curr (rqs (nu_k s0) c))).
  { intros c. rewrite (rq_curr _ _ _ _ _ R). destruct (rq_who _ _ _ _ _ R) as (_ & Sc & _). rewrite Sc.
    change (curr (rqs (nu_k (on_numa_k (mark_on_rq p TASK_ON_RQ_MIGRATING) s)) c)) with (curr (rqs (nu_k s) c)).
    rewrite (proj1 (Hcl _)). by apply (ni_run _ _ I). }
  assert (I1 : numa_inv None (on_numa_k (mark_on_rq p TASK_ON_RQ_QUEUED) s0)).
  { apply unmark_inv; [done| |done]. intros Hc. apply Hon, (ni_queued _ _ I); [done| |done]. by rewrite <- (proj1 (Hcl p)). }
  assert (L1 : relocated p cpu s (on_numa_k (mark_on_rq p TASK_ON_RQ_QUEUED) s0)).
  { pose proof (mark_fields p TASK_ON_RQ_QUEUED (nu_k s0)) as F'. split; cbn [nu_k on_numa_k]; cbn -[fe fq mark_on_rq].
    - intros q. rewrite (proj1 (F' q)). apply Hon.
    - intros q. rewrite (proj1 (F' q)), (rq_cpu _ _ _ _ _ R). cbn [nu_k on_numa_k]. cbn -[fe fq mark_on_rq]. by rewrite (proj1 (F q)).
    - apply (rq_curr _ _ _ _ _ R).
    - split_and!; [|apply (rq_who _ _ _ _ _ R)..]. intros q. unfold who. destruct (F' q) as (_ & -> & -> & ->), (Hcl q) as (-> & -> & E).
      destruct (decide (p = q)) as [<-|]; [by rewrite Hq|by rewrite E].
    - apply (rq_task _ _ _ _ _ R).
    - apply (rq_refs _ _ _ _ _ R). }
  unfold settle. set (s2 := on_numa_k (mark_on_rq p TASK_ON_RQ_QUEUED) s0) in *. clearbody s2. clear I R F Hon Hcl Hrun.
  assert (Hp : class_of (tasks (nu_k s2) p) = fair_sched_class -> fe_on (fe (nu_k s2) p) <> 0).
  { intros Hc. apply (ni_queued _ _ I1); [done..|]. destruct (who_fields _ _ p (rl_who _ _ _ _ L1)) as (_ & _ & ->). done. }
  destruct (check_preempt_view cpu p 0 (nu_k s2) Hp (ni_ok _ _ I1)) as [V W']. pose proof (core_check_preempt cpu p 0 (nu_k s2)) as Ec.
  split; [apply kernel_inv; [done|by apply who_equiv|done|done]|]. destruct V as [V Vc], L1 as [A B C D E G].
  split; cbn [nu_k on_numa_k]; cbn -[fe fq]; try done.
  - intros q. destruct (V q) as [-> _]. apply A.
  - intros q. destruct (V q) as [_ ->]. apply B.
  - intros c. rewrite Vc. apply C.
  - etransitivity; [exact D|by apply who_equiv].
Qed.

(** ** Swapping two tasks *)

Lemma swap_task_inv p cpu s :
  numa_inv None s -> fq_curr (fq (nu_k s) (fe_cpu (fe (nu_k s) p))) = None -> cpu ∈ cpus_allowed (tasks (nu_k s) p) ->
  let s' := __migrate_swap_task p cpu s in
  numa_inv None s' /\ relocated p (if task_on_rq_queued (nu_k s) p then cpu else fe_cpu (fe (nu_k s) p)) s s'.
Proof.
  intros I Hcur Hal s'. unfold s', __migrate_swap_task. destruct (task_on_rq_queued (nu_k s) p) eqn:Eq.
  - apply Z.eqb_eq in Eq. cbv zeta.
    destruct (carry_inv (deactivate_task (fe_cpu (fe (nu_k s) p)) p 0) (activate_task cpu p 0) (fe_cpu (fe (nu_k s) p)) p cpu s)
      as (_ & I1 & R1); [apply deactivate_detaches|apply activate_attaches|done..|].
    apply (settle_inv p cpu s _ I Eq I1 R1).
  - set (f := upd_task p _). assert (Ef : f (nu_k s) ≡f nu_k s) by by apply fair_upd_task.
    assert (Ew : same_who (nu_k s) (f (nu_k s))).
    { split_and!; try done. intros q. unfold f. rewrite tasks_upd_task. by destruct (decide _) as [<-|]. }
    split; [apply kernel_inv; [by apply view_equiv|done|by rewrite Ef; apply I|done]|].
    split; cbn [nu_k on_numa_k]; cbn -[fe fq f]; try done; intros q; rewrite (proj2 Ef); [done|].
    by destruct (decide (p = q)) as [<-|].
Qed.

Lemma swap_stop_inv src_task dst_task src_cpu dst_cpu s :
  numa_inv None s -> src_cpu <> dst_cpu -> fq_curr (fq (nu_k s) src_cpu) = None -> fq_curr (fq (nu_k s) dst_cpu) = None ->
  let '(s', ret) := migrate_swap_stop src_task dst_task src_cpu dst_cpu s in
  numa_inv None s' /\ nu_task s' = nu_task s /\ nu_refs s' = nu_refs s /\
  (ret = 0 -> task_on_rq_queued (nu_k s) src_task = true -> task_on_rq_queued (nu_k s) dst_task = true ->
     task_cpu (tasks (nu_k s') src_task) = dst_cpu /\ task_cpu (tasks (nu_k s') dst_task) = src_cpu) /\
  (ret <> 0 -> s' = s).
Proof.
  intros I Hne Hc1 Hc2. unfold migrate_swap_stop. destruct (_ || _); [by split_and!|]. unfold may_swap.
  destruct (Z.eqb_spec (task_cpu (tasks (nu_k s) dst_task)) dst_cpu) as [Ed|]; [|by split_and!].
  destruct (Z.eqb_spec (task_cpu (tasks (nu_k s) src_task)) src_cpu) as [Es|]; [|by split_and!].
  case_bool_decide as Ha1; [|by split_and!]. case_bool_decide as Ha2; [|by split_and!]. cbn [negb andb].
  assert (Hd : src_task <> dst_task) by (intros ->; congruence).
  change (fe_cpu (fe (nu_k s) src_task) = src_cpu) in Es. change (fe_cpu (fe (nu_k s) dst_task) = dst_cpu) in Ed.
  destruct (swap_task_inv src_task dst_cpu s I) as [I1 L1]; [by rewrite Es|done|].
  set (s1 := __migrate_swap_task src_task dst_cpu s) in *. clearbody s1.
  destruct (who_fields _ _ dst_task (rl_who _ _ _ _ L1)) as (_ & Eal & Eon).
  assert (Ed1 : fe_cpu (fe (nu_k s1) dst_task) = dst_cpu) by (by rewrite (rl_cpu _ _ _ _ L1), decide_False).
  destruct (swap_task_inv dst_task src_cpu s1 I1) as [I2 L2].
  { by rewrite Ed1, (rl_curr _ _ _ _ L1). }
  { by rewrite Eal. }
  split_and!; [done|..].
  - by rewrite (rl_task _ _ _ _ L2), (rl_task _ _ _ _ L1).
  - by rewrite (rl_refs _ _ _ _ L2), (rl_refs _ _ _ _ L1).
  - intros _ Q1 Q2. assert (Q2' : task_on_rq_queued (nu_k s1) dst_task = true) by (unfold task_on_rq_queued in *; by rewrite Eon).
    rewrite Q2' in L2. rewrite Q1 in L1. split.
    + change (fe_cpu (fe (nu_k (__migrate_swap_task dst_task src_cpu s1)) src_task) = dst_cpu).
      by rewrite (rl_cpu _ _ _ _ L2), decide_False, (rl_cpu _ _ _ _ L1), decide_True.
    + change (fe_cpu (fe (nu_k (__migrate_swap_task dst_task src_cpu s1)) dst_task) = src_cpu).
      by rewrite (rl_cpu _ _ _ _ L2), decide_True.
  - done.
Qed.

(** ** Moving the task by itself *)

Lemma cpu_stop_inv c p dest s :
  numa_inv None s -> fq_curr (fq (nu_k s) c) = None ->
  exists s', numa_migration_cpu_stop c p dest s = Some s' /\ numa_inv None s' /\ nu_task s' = nu_task s /\ nu_refs s' = nu_refs s.
Proof.
  intros I Hc. unfold numa_migration_cpu_stop. destruct (Z.eqb_spec (task_cpu (tasks (nu_k s) p)) c) as [E|]; [|by exists s].
  destruct (task_on_rq_queued (nu_k s) p) eqn:Q.
  2:{ eexists. split; [reflexivity|]. split_and!; try done. set (f := upd_task p _). assert (Ef : f (nu_k s) ≡f nu_k s) by by apply fair_upd_task.
      apply kernel_inv; [by apply view_equiv| |by rewrite Ef; apply I|done].
      split_and!; try done. intros q. unfold f. rewrite tasks_upd_task. by destruct (decide _) as [<-|]. }
  unfold is_cpu_allowed. case_bool_decide as Ha; [|by exists s]. cbn [negb].
  destruct (negb _); [by exists s|]. set (s0 := on_numa_k (update_rq_clock c) s).
  pose proof (fair_clock c (nu_k s)) as Ef. pose proof (who_equiv _ _ (core_clock c (nu_k s))) as Ew.
  assert (I0 : numa_inv None s0) by (apply kernel_inv; [by apply view_equiv|done|rewrite Ef; apply I|done]).
  destruct (who_fields _ _ p Ew) as (_ & Eal & Eon). apply Z.eqb_eq in Q.
  assert (Q0 : on_rq (tasks (nu_k s0) p) = TASK_ON_RQ_QUEUED) by (etransitivity; [exact Eon|done]).
  destruct (carry_inv (dequeue_task c p DEQUEUE_NOCLOCK) (enqueue_task dest p 0) c p dest s0) as (E1 & I1 & R1).
  { apply dequeue_detaches. } { apply enqueue_attaches. } { done. } { done. }
  { change (nu_k s0) with (update_rq_clock c (nu_k s)). by rewrite (proj2 Ef). }
  { change (nu_k s0) with (update_rq_clock c (nu_k s)). by rewrite (proj1 Ef). }
  { change (nu_k s0) with (update_rq_clock c (nu_k s)). by rewrite Eal. }
  destruct (settle_inv p dest s0 _ I0 Q0 I1 R1) as [I2 L2].
  exists (settle p dest (carry (dequeue_task c p DEQUEUE_NOCLOCK) (enqueue_task dest p 0) c p dest s0)). split_and!.
  - unfold numa_move_queued_task. cbv zeta. change (fe_cpu (fe (nu_k (on_numa_k (set_task_cpu p dest) (numa_dequeue_task c p DEQUEUE_NOCLOCK
      (on_numa_k (mark_on_rq p TASK_ON_RQ_MIGRATING) s0)))) p) = dest) in E1. unfold fe, fe_of in E1. cbn [fe_cpu] in E1.
    unfold mark_on_rq in E1. rewrite E1, Z.eqb_refl. reflexivity.
  - done.
  - by rewrite (rl_task _ _ _ _ L2).
  - by rewrite (rl_refs _ _ _ _ L2).
Qed.

(** ** Setting the preferred node *)

Lemma weaken_inv p s : numa_inv None s -> numa_inv (Some p) s.
Proof. intros [W C Cl Pl Id Q Nc R]. split; try done. intros q _. by apply Q. Qed.

(** Parking the running entity of a CPU, and starting it again. *)
Definition parks (f : kernel -> kernel) (cur : option Z) (c : Z) (k : kernel) : Prop :=
  (forall q, fe_on (fe (f k) q) = fe_on (fe k q) /\ fe_cpu (fe (f k) q) = fe_cpu (fe k q)) /\
  (forall d, fq_curr (fq (f k) d) = if decide (c = d) then cur else fq_curr (fq k d)) /\
  same_who k (f k) /\ fair_ok false (f k).

Lemma put_prev_parks c p k :
  fair_ok false k -> fe_cpu (fe k p) = c -> (class_of (tasks k p) = fair_sched_class -> fq_curr (fq k c) = Some p) ->
  parks (put_prev_task c p) (if bool_decide (class_of (tasks k p) = fair_sched_class) then None else fq_curr (fq k c)) c k.
Proof.
  intros W Hc Hcur. pose proof (who_equiv _ _ (core_put_prev c p k)) as Ew. unfold parks, put_prev_task in *.
  case_bool_decide as Hf.
  - specialize (Hcur Hf). rewrite Hf, oc_put_prev in *. unfold put_prev_task_fair in *. rewrite cfs_rq_of_fe, Hc in *.
    destruct (put_prev_stops c p k) as (k1 & R1 & S1 & S2). split_and!; [| |done|by apply put_prev_entity_wf].
    + intros q. rewrite S2. by destruct (revalued_fields _ _ _ q R1) as (-> & _ & ->).
    + intros d. rewrite S1. destruct (decide (c = d)); [done|]. by rewrite (proj1 R1).
  - pose proof (oc_put _ c p k Hf) as Ef. split_and!; [intros q; by rewrite (proj2 Ef)| |done|by rewrite Ef].
    intros d. rewrite (proj1 Ef). by destruct (decide (c = d)) as [<-|].
Qed.

Lemma set_curr_parks c p k :
  fair_ok false k -> fe_cpu (fe k p) = c -> curr (rqs k c) = p ->
  (class_of (tasks k p) = fair_sched_class -> fq_curr (fq k c) = None) ->
  parks (set_curr_task c p) (if bool_decide (class_of (tasks k p) = fair_sched_class) then Some p else fq_curr (fq k c)) c k.
Proof.
  intros W Hc Hp Hcur. pose proof (who_equiv _ _ (core_set_curr c p k)) as Ew. unfold parks, set_curr_task in *.
  case_bool_decide as Hf.
  - specialize (Hcur Hf). rewrite Hf, oc_set_curr in *. unfold set_curr_task_fair in *. cbv zeta in *. rewrite Hp, cfs_rq_of_fe, Hc in *.
    destruct (set_next_starts c p k) as [S1 S2]. split_and!; [| |done|].
    + intros q. by rewrite S2.
    + intros d. rewrite S1. by destruct (decide (c = d)).
    + apply set_next_entity_wf; [done..|]. unfold running_of. by rewrite Hcur.
  - pose proof (oc_set _ c k Hf) as Ef. split_and!; [intros q; by rewrite (proj2 Ef)| |done|by rewrite Ef].
    intros d. rewrite (proj1 Ef). by destruct (decide (c = d)) as [<-|].
Qed.

Lemma parks_inv p f cur c s : parks f cur c (nu_k s) -> numa_inv (Some p) s -> numa_inv (Some p) (on_numa_k f s).
Proof. intros (V & _ & Ew & W') I. by apply kernel_inv_moving. Qed.

(** The node of a task that is not queued. *)
Lemma prefer_inv p nid s : numa_inv (Some p) s -> fe_on (fe (nu_k s) p) = 0 ->
  numa_inv (Some p) (upd_nt p (fun t => t <| numa_preferred_nid := nid |>) s).
Proof.
  intros [W C Cl Pl Id Q Nc R] Hoff. split; try done. apply (counts_same s); [done..| |done].
  intros c q Hq. assert (Hne : p <> q).
  { intros <-. by apply (wf_off (nu_k s) p W Hoff c). }
  unfold nt, upd_nt. cbn. by rewrite fn_lookup_alter_ne.
Qed.

Lemma close_inv p s :
  numa_inv (Some p) s ->
  (class_of (tasks (nu_k s) p) = fair_sched_class -> (on_rq (tasks (nu_k s) p) = TASK_ON_RQ_QUEUED <-> fe_on (fe (nu_k s) p) <> 0)) ->
  (forall c, class_of (tasks (nu_k s) (curr (rqs (nu_k s) c))) = fair_sched_class ->
     fq_curr (fq (nu_k s) c) = Some (curr (rqs (nu_k s) c))) -> numa_inv None s.
Proof.
  intros [W C Cl Pl Id Q Nc R] Hp Hr. split; try done; [|intros c _; apply Hr].
  intros q _. destruct (decide (q = p)) as [->|]; [done|]. apply Q. congruence.
Qed.

(** What [sched_setnuma] changes for other code. *)
Record setnuma_post (p nid : Z) (s s' : numa_state) : Prop := {
  sn_inv : numa_inv None s';
  sn_cpu q : fe_cpu (fe (nu_k s') q) = fe_cpu (fe (nu_k s) q);
  sn_who : same_who (nu_k s) (nu_k s');
  sn_nt q : nt s' q = if decide (p = q) then nt s p <| numa_preferred_nid := nid |> else nt s q;
  sn_refs : nu_refs s' = nu_refs s }.

(** The task [p] is off its queue and not running, as between the two halves of
    [sched_setnuma]. *)
Definition runs_fair (s : numa_state) (p : Z) : bool :=
  task_current (nu_k s) (fe_cpu (fe (nu_k s) p)) p && is_fair s p.
Record halted (p : Z) (s s' : numa_state) : Prop := {
  ha_inv : numa_inv (Some p) s';
  ha_off : fe_on (fe (nu_k s') p) = 0;
  ha_cpu q : fe_cpu (fe (nu_k s') q) = fe_cpu (fe (nu_k s) q);
  ha_curr d : fq_curr (fq (nu_k s') d) =
    if bool_decide (fe_cpu (fe (nu_k s) p) = d) && runs_fair s p then None else fq_curr (fq (nu_k s) d);
  ha_who : same_who (nu_k s) (nu_k s');
  ha_refs : nu_refs s' = nu_refs s }.

Lemma queued_is_on p s : numa_inv None s -> class_of (tasks (nu_k s) p) = fair_sched_class ->
  task_on_rq_queued (nu_k s) p = true <-> fe_on (fe (nu_k s) p) <> 0.
Proof. intros I Hf. rewrite <- (ni_queued _ _ I p) by done. apply Z.eqb_eq. Qed.

Lemma runs_is_curr p s : numa_inv None s -> task_current (nu_k s) (fe_cpu (fe (nu_k s) p)) p = true ->
  class_of (tasks (nu_k s) p) = fair_sched_class -> fq_curr (fq (nu_k s) (fe_cpu (fe (nu_k s) p))) = Some p.
Proof.
  intros I Hr Hf. apply Z.eqb_eq in Hr. pose proof (ni_run _ _ I (fe_cpu (fe (nu_k s) p)) eq_refl) as Hc. rewrite Hr in Hc. by apply Hc.
Qed.

Lemma halt_dequeue p s : numa_inv None s ->
  let s' := if task_on_rq_queued (nu_k s) p then numa_dequeue_task (fe_cpu (fe (nu_k s) p)) p DEQUEUE_SAVE s else s in
  numa_inv (Some p) s' /\ requeued p 0 (fe_cpu (fe (nu_k s) p)) s s'.
Proof.
  intros I. pose proof (queued_is_on p s I) as Hq. cbv zeta. destruct (task_on_rq_queued (nu_k s) p).
  - apply counted_dequeue_inv; [apply dequeue_detaches|by apply weaken_inv|done|]. intros Hf. by apply Hq.
  - assert (Hoff : fe_on (fe (nu_k s) p) = 0).
    { destruct (decide (fe_on (fe (nu_k s) p) = 0)) as [|Hn]; [done|]. pose proof (ni_class _ _ I p Hn) as Hf. by apply Hq in Hn. }
    split; [by apply weaken_inv|]. split; try done; intros q; by destruct (decide (p = q)) as [<-|].
Qed.

Lemma halt p s : numa_inv None s ->
  let c := fe_cpu (fe (nu_k s) p) in
  let s1 := if task_on_rq_queued (nu_k s) p then numa_dequeue_task c p DEQUEUE_SAVE s else s in
  let s2 := if task_current (nu_k s) c p then on_numa_k (put_prev_task c p) s1 else s1 in
  halted p s s2 /\ nu_task s2 = nu_task s.
Proof.
  intros I. destruct (halt_dequeue p s I) as [I1 R1]. cbv zeta in *. set (s1 := if task_on_rq_queued _ _ then _ else s) in *. clearbody s1.
  set (c := fe_cpu (fe (nu_k s) p)) in *. pose proof (runs_is_curr p s I) as Hr. fold c in Hr.
  assert (Hcpu : forall q, fe_cpu (fe (nu_k s1) q) = fe_cpu (fe (nu_k s) q)).
  { intros q. rewrite (rq_cpu _ _ _ _ _ R1). by destruct (decide (p = q)) as [<-|]. }
  assert (Hoff : fe_on (fe (nu_k s1) p) = 0) by (by rewrite (rq_on _ _ _ _ _ R1), decide_True).
  pose proof (rq_task _ _ _ _ _ R1) as T1. pose proof (rq_refs _ _ _ _ _ R1) as F1. pose proof (rq_who _ _ _ _ _ R1) as Sw1.
  unfold runs_fair, is_fair. destruct (task_current (nu_k s) c p) eqn:Er.
  2:{ split; [|done]. split; try done. intros d. unfold runs_fair. fold c. rewrite Er, andb_false_r. apply (rq_curr _ _ _ _ _ R1). }
  destruct (who_fields _ _ p Sw1) as (Ec1 & _).
  pose proof (put_prev_parks c p (nu_k s1) (ni_ok _ _ I1)) as P. rewrite Hcpu, Ec1, (rq_curr _ _ _ _ _ R1) in P.
  specialize (P eq_refl (Hr eq_refl)). pose proof (parks_inv p _ _ _ _ P I1) as I2. destruct P as (P1 & P2 & P3 & P4).
  split; [|done]. split; cbn [nu_k on_numa_k]; cbn -[fe fq put_prev_task]; try done.
  - by rewrite (proj1 (P1 p)).
  - intros q. by rewrite (proj2 (P1 q)).
  - intros d. rewrite P2. unfold runs_fair, is_fair. fold c. rewrite Er, (rq_curr _ _ _ _ _ R1).
    destruct (decide (c = d)) as [<-|]; [rewrite (bool_decide_true (c = c)) by done|by rewrite bool_decide_false]. cbn. by case_bool_decide.
  - by etransitivity.
Qed.

Lemma unhalt_enqueue p s s3 : numa_inv None s -> halted p s s3 ->
  let c := fe_cpu (fe (nu_k s) p) in
  let s4 := if task_on_rq_queued (nu_k s) p then numa_enqueue_task c p (Z.lor ENQUEUE_RESTORE ENQUEUE_NOCLOCK) s3 else s3 in
  numa_inv (Some p) s4 /\ requeued p (if task_on_rq_queued (nu_k s) p && is_fair s p then 1 else 0) c s3 s4.
Proof.
  intros I [I3 Off3 Cpu3 Cur3 Sw3 _]. cbv zeta. destruct (who_fields _ _ p Sw3) as (Ec3 & Ea3 & _). pose proof (queued_is_on p s I) as Hq.
  destruct (task_on_rq_queued (nu_k s) p); cbn [andb].
  - replace (is_fair s p) with (is_fair s3 p) by (unfold is_fair; by rewrite Ec3).
    apply counted_enqueue_inv; [apply enqueue_attaches|done|by rewrite Cpu3|done|]. rewrite Ec3, Ea3. intros Hf.
    assert (Hon : fe_on (fe (nu_k s) p) <> 0) by by apply Hq. split; [by apply (ni_placed _ _ I)|by apply (ni_ids _ _ I)].
  - split; [done|]. split; try done; intros q; destruct (decide (p = q)) as [<-|]; done.
Qed.

Lemma unhalt p s s3 : numa_inv None s -> halted p s s3 ->
  let c := fe_cpu (fe (nu_k s) p) in
  let s4 := if task_on_rq_queued (nu_k s) p then numa_enqueue_task c p (Z.lor ENQUEUE_RESTORE ENQUEUE_NOCLOCK) s3 else s3 in
  let s5 := if task_current (nu_k s) c p then on_numa_k (set_curr_task c p) s4 else s4 in
  numa_inv None s5 /\ (forall q, fe_cpu (fe (nu_k s5) q) = fe_cpu (fe (nu_k s) q)) /\ same_who (nu_k s) (nu_k s5) /\
  nu_task s5 = nu_task s3 /\ nu_refs s5 = nu_refs s.
Proof.
  intros I Hh. destruct (unhalt_enqueue p s s3 I Hh) as [I4 R4]. cbv zeta in *.
  set (s4 := if task_on_rq_queued _ _ then _ else s3) in *. clearbody s4. destruct Hh as [I3 Off3 Cpu3 Cur3 Sw3 Rf3].
  set (c := fe_cpu (fe (nu_k s) p)) in *. pose proof (runs_is_curr p s I) as Hr. fold c in Hr.
  assert (Sw4 : same_who (nu_k s) (nu_k s4)) by (etransitivity; [done|apply (rq_who _ _ _ _ _ R4)]).
  assert (Cpu4 : forall q, fe_cpu (fe (nu_k s4) q) = fe_cpu (fe (nu_k s) q)).
  { intros q. rewrite (rq_cpu _ _ _ _ _ R4). destruct (decide (p = q)) as [<-|]; [done|apply Cpu3]. }
  destruct (who_fields _ _ p Sw4) as (Ec4 & _ & Eo4).
  set (s5 := if task_current (nu_k s) c p then _ else s4).
  assert (S5 : numa_inv (Some p) s5 /\ parks (fun _ => nu_k s5) (fq_curr (fq (nu_k s) c)) c (nu_k s4) /\ nu_task s5 = nu_task s4 /\ nu_refs s5 = nu_refs s4).
  { unfold s5, runs_fair, is_fair in *. fold c in Cur3. destruct (task_current (nu_k s) c p) eqn:Er; cbn [andb] in Cur3.
    - pose proof (set_curr_parks c p (nu_k s4) (ni_ok _ _ I4)) as P. rewrite Cpu4, Ec4, (rq_curr _ _ _ _ _ R4), Cur3 in P.
      rewrite (proj1 (proj2 Sw4)) in P. rewrite (bool_decide_true (c = c)) in P by done. cbn [andb] in P.
      apply Z.eqb_eq in Er. specialize (P eq_refl Er ltac:(intros; by rewrite bool_decide_true)).
      pose proof (parks_inv p _ _ _ _ P I4) as I5. destruct P as (P1 & P2 & P3 & P4). split_and!; try done. split_and!; try done.
      intros d. cbn beta. etransitivity; [apply P2|]. destruct (decide (c = d)); [|done]. case_bool_decide as Hf; [|done]. symmetry. by apply Hr.
    - split_and!; try done. split_and!; try done; [|apply I4]. intros d. cbn beta. rewrite (rq_curr _ _ _ _ _ R4), Cur3, andb_false_r.
      by destruct (decide (c = d)) as [<-|]. }
  clearbody s5. destruct S5 as (I5 & (V5 & C5 & W5 & _) & T5 & F5). cbn beta in V5, C5, W5.
  assert (Sw5 : same_who (nu_k s) (nu_k s5)) by (by etransitivity).
  split_and!; [|intros q; by rewrite (proj2 (V5 q))|done|by rewrite T5, (rq_task _ _ _ _ _ R4)|by rewrite F5, (rq_refs _ _ _ _ _ R4)].
  apply (close_inv p); [done| |].
  - destruct (who_fields _ _ p Sw5) as (-> & _ & ->). intros Hf.
    rewrite (proj1 (V5 p)), (rq_on _ _ _ _ _ R4), decide_True by done. unfold is_fair. rewrite bool_decide_true, andb_true_r by done.
    unfold task_on_rq_queued. destruct (Z.eqb_spec (on_rq (tasks (nu_k s) p)) TASK_ON_RQ_QUEUED); by split.
  - intros d. pose proof Sw5 as (_ & Sc & _). rewrite C5, Sc, (proj1 (who_fields _ _ _ Sw5)).
    assert (Ed : (if decide (c = d) then fq_curr (fq (nu_k s) c) else fq_curr (fq (nu_k s4) d)) = fq_curr (fq (nu_k s) d)).
    { destruct (decide (c = d)) as [<-|Hd]; [done|]. rewrite (rq_curr _ _ _ _ _ R4), Cur3. by rewrite bool_decide_false. }
    rewrite Ed. by apply (ni_run _ _ I).
Qed.

Lemma sched_setnuma_inv p nid s : numa_inv None s -> setnuma_post p nid s (sched_setnuma p nid s).
Proof.
  intros I. unfold sched_setnuma. cbv zeta. change (task_cpu (tasks (nu_k s) p)) with (fe_cpu (fe (nu_k s) p)).
  destruct (halt p s I) as [Hh T2]. cbv zeta in *. match type of Hh with halted _ _ ?x => set (s2 := x) in * end. clearbody s2.
  assert (Hh3 : halted p s (upd_nt p (fun t => t <| numa_preferred_nid := nid |>) s2)).
  { destruct Hh as [I2 Off2 Cpu2 Cur2 Sw2 Rf2]. split; try done. by apply prefer_inv. }
  set (s3 := upd_nt p _ s2) in *. destruct (unhalt p s s3 I Hh3) as (I5 & Cpu5 & Sw5 & T5 & F5). cbv zeta in *. split; try done.
  intros q. unfold nt. rewrite T5. unfold s3, upd_nt. cbn. rewrite T2.
  destruct (decide (p = q)) as [<-|]; [by rewrite fn_lookup_alter|by rewrite fn_lookup_alter_ne].
Qed.
End Books.
