(* ===== verification/NumaPlace.v ===== *)
(** * Placing a task keeps the books (fair.c)

    The search of [task_numa_migrate] holds a reference to the task it would
    swap with and to no other; whatever it finds, afterwards the queues, the
    counts and the references are in order. *)

From S2P Require Import Prelude SchedTypes Core Frame Wrr CoreWake CorePolicy RtBandwidth FairMath FairPelt.
From S2P Require Import FairQueue FairInv FairOps FairFrame FairBusiest FairBalance FairMove FairSelect NumaStats NumaMigrate NumaBooks.

(** The other CPUs keep the invariant, and when the stopper of a CPU runs, no
    fair task does. *)
Class StopSpec `{NumaEnv} `{StopEnv} : Prop := {
  stop_one_spec c s s' : stop_one_cpu c s = Some s' -> numa_inv None s ->
    numa_inv None s' /\ fq_curr (fq (nu_k s') c) = None /\ nu_refs s' = nu_refs s;
  stop_two_spec c d s s' : stop_two_cpus c d s = Some s' -> numa_inv None s ->
    numa_inv None s' /\ fq_curr (fq (nu_k s') c) = None /\ fq_curr (fq (nu_k s') d) = None /\ nu_refs s' = nu_refs s }.

Section Place.
Context `{NumaEnv} `{BalanceEnv} `{FairEnv} `{PeltTable} `{QueueFrame} `{!FairDispatch} `{!OtherClasses}.
Context `{WakeEnv} `{WrrConfig} `{SelectEnv} `{StopEnv}.

(** ** Moving and swapping *)

Lemma migrate_task_to_inv `{!StopSpec} p cpu s : numa_inv None s ->
  exists s' ret, migrate_task_to p cpu s = Some (s', ret) /\ numa_inv None s' /\ nu_refs s' = nu_refs s.
Proof.
  intros I. unfold migrate_task_to. cbv zeta. destruct (_ =? cpu); [by exists s, 0|]. destruct (negb _); [by exists s, (- EINVAL)|].
  destruct (stop_one_cpu _ s) as [s1|] eqn:E; [|by exists s, (- ENOENT)].
  destruct (stop_one_spec _ _ _ E I) as (I1 & Hc & F1).
  destruct (cpu_stop_inv _ p cpu s1 I1 Hc) as (s2 & -> & I2 & _ & F2). exists s2, 0. split_and!; [done|done|congruence].
Qed.

Lemma migrate_swap_inv `{!StopSpec} cur p s : numa_inv None s ->
  let '(s', ret) := migrate_swap cur p s in numa_inv None s' /\ nu_refs s' = nu_refs s.
Proof.
  intros I. unfold migrate_swap. cbv zeta. destruct (Z.eqb_spec (task_cpu (tasks (nu_k s) cur)) (task_cpu (tasks (nu_k s) p))) as [|Hne]; [done|].
  destruct (_ || _); [done|]. destruct (negb _); [done|]. destruct (negb _); [done|].
  destruct (stop_two_cpus _ _ s) as [s1|] eqn:E; [|done]. destruct (stop_two_spec _ _ _ _ E I) as (I1 & C1 & C2 & F1).
  pose proof (swap_stop_inv cur p (task_cpu (tasks (nu_k s) cur)) (task_cpu (tasks (nu_k s) p)) s1 I1 Hne C2 C1) as S.
  destruct (migrate_swap_stop _ _ _ _ s1) as [s2 ret]. destruct S as (I2 & _ & F2 & _). split; [done|congruence].
Qed.

(** ** The search *)

Lemma fair_idle_sibling p prev t k : (select_idle_sibling p prev t k).1 ≡f k.
Proof.
  unfold select_idle_sibling, select_idle_core, select_idle_cpu, set_idle_cores. cbv zeta. repeat (case_match; simplify_eq/=; try done).
Qed.

(** What the search may have changed since the state [s0], and what it holds. *)
Record searching (p : Z) (s0 : numa_state) (env : task_numa_env) (s : numa_state) : Prop := {
  sr_inv : numa_inv None s;
  sr_p : ne_p env = p;
  sr_who : same_who (nu_k s0) (nu_k s);
  sr_nt : nu_task s = nu_task s0;
  sr_imp : 0 <= best_imp env;
  sr_cpu : best_cpu env <> -1 -> best_cpu env = ne_src_cpu env \/ best_cpu env ∈ cpus_allowed (tasks (nu_k s) p);
  sr_task q : best_task env = Some q -> best_cpu env <> -1 /\ q <> p /\ curr (rqs (nu_k s) (best_cpu env)) = q /\
    ne_src_cpu env ∈ cpus_allowed (tasks (nu_k s) q);
  sr_refs q : nu_refs s q = nu_refs s0 q + Z.b2z (bool_decide (best_task env = Some q)) }.

(** The fields of the search that choosing does not touch. *)
Definition same_env (e e' : task_numa_env) : Prop :=
  (ne_p e', ne_src_cpu e', ne_src_nid e', best_task e', best_imp e', best_cpu e') = (ne_p e, ne_src_cpu e, ne_src_nid e, best_task e, best_imp e, best_cpu e).
Lemma searching_env p s0 e e' s : same_env e e' -> searching p s0 e s -> searching p s0 e' s.
Proof. unfold same_env. intros [= E1 E2 E3 E4 E5 E6] [A B C D E F G K]. split; rewrite ?E1, ?E2, ?E4, ?E5, ?E6; done. Qed.

Lemma refs_swap (r : Z -> Z) (old new : option Z) q :
  match new with Some x => alter (fun n => n + 1) x (match old with Some y => alter (fun n => n - 1) y r | None => r end)
               | None => match old with Some y => alter (fun n => n - 1) y r | None => r end end q =
  r q - Z.b2z (bool_decide (old = Some q)) + Z.b2z (bool_decide (new = Some q)).
Proof.
  assert (Ha : forall (f : Z -> Z) d x, alter (fun n => n + d) x f q = f q + d * Z.b2z (bool_decide (Some x = Some q))).
  { intros f d x. destruct (decide (x = q)) as [->|Hne]; [rewrite fn_lookup_alter, bool_decide_true by done; cbn; lia|].
    rewrite fn_lookup_alter_ne, bool_decide_false by congruence. cbn. lia. }
  destruct new as [x|], old as [y|]; rewrite ?(bool_decide_false (None = Some q)) by done; rewrite ?Ha;
    rewrite ?(Ha r (-1) y : alter (fun n => n - 1) y r q = _); cbn; lia.
Qed.

Lemma assign_searching p s0 new imp env s :
  searching p s0 env s -> 0 <= imp ->
  ne_dst_cpu env = ne_src_cpu env \/ ne_dst_cpu env ∈ cpus_allowed (tasks (nu_k s) p) ->
  (forall q, new = Some q -> ne_dst_cpu env <> -1 /\ q <> p /\ curr (rqs (nu_k s) (ne_dst_cpu env)) = q /\
     ne_src_cpu env ∈ cpus_allowed (tasks (nu_k s) q)) ->
  let '(env', s') := task_numa_assign new imp env s in searching p s0 env' s'.
Proof.
  intros [I P W T Im C Tk R] Himp Hc Hn. unfold task_numa_assign. cbv zeta.
  set (s' := match new with Some _ => _ | None => _ end).
  assert (Es : nu_k s' = nu_k s /\ nu_task s' = nu_task s /\ nr_numa_running s' = nr_numa_running s /\ nr_preferred_running s' = nr_preferred_running s)
    by (unfold s'; by destruct new, (best_task env)).
  assert (Er : forall q, nu_refs s' q = nu_refs s q - Z.b2z (bool_decide (best_task env = Some q)) + Z.b2z (bool_decide (new = Some q))).
  { intros q. rewrite <- refs_swap. unfold s'. by destruct new, (best_task env). }
  clearbody s'. destruct Es as (Ek & Et & En & Eh). split; cbn; rewrite ?Ek, ?Et; try done.
  - destruct I as [A B Cl D E F G K]. split; rewrite ?Ek; try done. apply (counts_same s); [done|done|done| |].
    + intros c q _. unfold nt. by rewrite Et.
    + intros c. unfold queued_on. by rewrite Ek.
  - intros q. rewrite Er, R. destruct (bool_decide (best_task env = Some q)); cbn; lia.
Qed.

(** The destination is a CPU [p] may use. *)
Definition aims (p : Z) (env : task_numa_env) (s : numa_state) : Prop :=
  0 <= ne_dst_cpu env /\ ne_dst_cpu env ∈ cpus_allowed (tasks (nu_k s) p).

Lemma balance_searching p s0 cur imp moveimp env s :
  searching p s0 env s -> aims p env s -> moveimp < 2 ^ 63 ->
  (forall q, cur = Some q -> q <> p /\ curr (rqs (nu_k s) (ne_dst_cpu env)) = q /\ ne_src_cpu env ∈ cpus_allowed (tasks (nu_k s) q)) ->
  let '(env', s') := compare_balance env cur imp moveimp s in searching p s0 env' s' /\ ne_src_cpu env' = ne_src_cpu env.
Proof.
  intros Sr [Hd0 Hd] Hm Hcur. pose proof (sr_imp _ _ _ _ Sr) as Hi.
  assert (Has : forall new v e s1, searching p s0 e s1 -> 0 <= v -> ne_src_cpu e = ne_src_cpu env ->
    ne_dst_cpu e = ne_src_cpu e \/ ne_dst_cpu e ∈ cpus_allowed (tasks (nu_k s1) p) ->
    (forall q, new = Some q -> ne_dst_cpu e <> -1 /\ q <> p /\ curr (rqs (nu_k s1) (ne_dst_cpu e)) = q /\
       ne_src_cpu e ∈ cpus_allowed (tasks (nu_k s1) q)) ->
    let '(env', s') := task_numa_assign new v e s1 in searching p s0 env' s' /\ ne_src_cpu env' = ne_src_cpu env).
  { intros new v e s1 S1 Hv He Hc Hn. pose proof (assign_searching p s0 new v e s1 S1 Hv Hc Hn) as Ha. unfold task_numa_assign in *. done. }
  unfold compare_balance. cbv zeta. destruct (_ && _ && _) eqn:E1.
  { apply andb_true_iff in E1 as [[_ E1]%andb_true_iff _]. apply Z.ltb_lt in E1.
    refine (Has None _ env s Sr _ eq_refl (or_intror Hd) _); [rewrite s64_id by lia; lia|done]. }
  clear E1. destruct (Z.leb_spec imp (best_imp env)) as [|Hgt]; [done|].
  match goal with |- context [let '(_, _) := ?x in if load_too_imbalanced _ _ _ then _ else _] => destruct x as [sl dl] end.
  destruct (load_too_imbalanced sl dl env); [done|]. destruct cur as [q|].
  { refine (Has (Some q) imp env s Sr _ eq_refl (or_intror Hd) _); [lia|]. intros q' [= <-]. split; [lia|by apply Hcur]. }
  pose proof (fair_idle_sibling (ne_p env) (ne_src_cpu env) (ne_dst_cpu env) (nu_k s)) as Ef.
  pose proof (select_idle_sibling_spec (ne_p env) (ne_src_cpu env) (ne_dst_cpu env) (nu_k s) (ni_cpus _ _ (sr_inv _ _ _ _ Sr))) as Sp.
  destruct (select_idle_sibling _ _ _ _) as [k1 cpu]. cbn [fst] in Ef. destruct Sp as [Ec Hcpu]. rewrite (sr_p _ _ _ _ Sr) in Hcpu.
  pose proof (who_equiv _ _ Ec) as Ew. destruct (who_fields _ _ p Ew) as (_ & Eal & _).
  assert (S1 : searching p s0 (env <| ne_dst_cpu := cpu |>) (s <| nu_k := k1 |>)).
  { apply (searching_env _ _ env); [done|]. destruct Sr as [A B C D E F G K]. split; cbn; try done.
    - apply (kernel_inv None (fun _ => k1) s); [by apply view_equiv|done|by rewrite Ef; apply A|done].
    - by etransitivity.
    - by rewrite Eal.
    - intros q Hq. rewrite (proj1 (proj2 Ew)). destruct (who_fields _ _ q Ew) as (_ & -> & _). by apply G. }
  refine (Has None imp _ _ S1 _ eq_refl _ _); [lia| |done]. cbn. rewrite Eal. destruct Hcpu as [->|[->|]]; [by right|by left|by right].
Qed.

Lemma compare_searching p s0 taskimp groupimp env s :
  searching p s0 env s -> aims p env s -> taskimp < 2 ^ 63 -> groupimp < 2 ^ 63 ->
  let '(env', s') := task_numa_compare taskimp groupimp env s in searching p s0 env' s' /\ ne_src_cpu env' = ne_src_cpu env.
Proof.
  intros Sr Ha Ht Hg. unfold task_numa_compare. cbv zeta. set (cur := if _ || _ then None else Some _).
  assert (Hcur : forall q, cur = Some q -> curr (rqs (nu_k s) (ne_dst_cpu env)) = q) by (unfold cur; intros q; by destruct (_ || _); [|intros [= <-]]).
  clearbody cur. set (moveimp := match nt_group _ with Some _ => groupimp | None => taskimp end).
  assert (Hm : moveimp < 2 ^ 63) by (unfold moveimp; by destruct (nt_group _)). clearbody moveimp.
  case_bool_decide as Hp; [done|]. rewrite (sr_p _ _ _ _ Sr) in Hp. destruct cur as [q|].
  - case_bool_decide as Hal; [|done]. cbn [negb]. set (imp := swap_imp _ _ _ _ _). clearbody imp.
    destruct (_ && _); [done|].
    assert (Hq : forall q', Some q = Some q' -> q' <> p /\ curr (rqs (nu_k s) (ne_dst_cpu env)) = q' /\ ne_src_cpu env ∈ cpus_allowed (tasks (nu_k s) q')).
    { intros q' [= <-]. split_and!; [congruence|by apply Hcur|done]. }
    destruct (_ && _ && _) eqn:E; [|by apply balance_searching].
    apply andb_true_iff in E as [[E _]%andb_true_iff _]. apply Z.ltb_lt in E. pose proof (sr_imp _ _ _ _ Sr). destruct Ha as [Ha0 Ha].
    pose proof (assign_searching p s0 (Some q) imp env s Sr ltac:(lia) (or_intror Ha)) as As.
    unfold task_numa_assign in *. split; [|done]. apply As. intros q' Hq'. split; [lia|by apply Hq].
  - destruct (moveimp <=? _); [done|]. destruct (_ && _); [done|]. by apply balance_searching.
Qed.

Lemma find_cpus_searching p s0 taskimp groupimp src l env s :
  Forall (Z.le 0) l -> searching p s0 env s -> ne_src_cpu env = src -> taskimp < 2 ^ 63 -> groupimp < 2 ^ 63 ->
  let '(env', s') := foldl (find_cpu_step taskimp groupimp) (env, s) l in searching p s0 env' s' /\ ne_src_cpu env' = src.
Proof.
  revert env s. induction l as [|c l IH]; intros env s Hl Sr He Ht Hg; [done|]. apply Forall_cons in Hl as [Hc Hl]. cbn [foldl find_cpu_step].
  case_bool_decide as Hal; [|by apply IH]. cbn [negb]. rewrite (sr_p _ _ _ _ Sr) in Hal.
  pose proof (compare_searching p s0 taskimp groupimp (env <| ne_dst_cpu := c |>) s) as Cs.
  destruct (task_numa_compare _ _ _ s) as [env1 s1]. destruct Cs as [S1 E1]; [by apply (searching_env _ _ env)|done|done|done|].
  apply IH; [done|done| |done|done]. by rewrite E1.
Qed.

Lemma find_cpu_searching p s0 taskimp groupimp env s :
  searching p s0 env s -> taskimp < 2 ^ 63 -> groupimp < 2 ^ 63 ->
  let '(env', s') := task_numa_find_cpu taskimp groupimp env s in searching p s0 env' s' /\ ne_src_cpu env' = ne_src_cpu env.
Proof.
  intros Sr Ht Hg. apply find_cpus_searching; [|done..].
  apply Forall_forall. intros c Hc. unfold for_each_cpu in Hc. apply list_elem_of_filter in Hc as [_ Hc%elem_of_seqZ]. lia.
Qed.

Lemma numa_search_searching p pct s : numa_inv None s ->
  let '(env, s') := numa_search p pct s in searching p s env s' /\ ne_src_cpu env = task_cpu (tasks (nu_k s) p).
Proof.
  intros I. unfold numa_search. cbv zeta. set (env := mkNumaEnv _ _ _ _ _ _ _ _ _ _ _ _).
  assert (S0 : searching p s env s) by (split; try done; intros q; rewrite bool_decide_false by done; cbn; lia).
  assert (Ec : ne_src_cpu env = task_cpu (tasks (nu_k s) p)) by done. clearbody env. revert Ec. generalize (task_cpu (tasks (nu_k s) p)).
  intros src Ec. match goal with |- context [if numa_has_capacity env then ?x else _] => set (x0 := x) end.
  assert (S1 : let '(e, s1) := if numa_has_capacity env then x0 else (env, s) in searching p s e s1 /\ ne_src_cpu e = src).
  { destruct (numa_has_capacity env); [|done]. unfold x0. rewrite <- Ec. apply find_cpu_searching; [done|apply s64_range..]. }
  clearbody x0. destruct (if numa_has_capacity env then x0 else (env, s)) as [e1 s1]. destruct S1 as [S1 Ec1].
  destruct (_ || _); [|done]. match goal with |- context [foldl _ (e1, s1, ?w)] => generalize w end.
  revert e1 s1 S1 Ec1. induction online_nodes as [|nid l IH]; intros e1 s1 S1 Ec1 w; [done|]. cbn [foldl].
  assert (Hst : let '(e, s2, _) := other_node_step p (e1, s1, w) nid in searching p s e s2 /\ ne_src_cpu e = src).
  { unfold other_node_step. destruct w as [tw gw]. destruct (_ || _); [done|]. cbv zeta. destruct (if bool_decide _ && _ then _ else _) as [tw' gw'].
    destruct (_ && _); [done|]. set (e2 := e1 <| ne_dist := _ |> <| ne_dst_nid := _ |> <| ne_dst_stats := _ |>).
    assert (S2 : searching p s e2 s1) by (by apply (searching_env _ _ e1)). assert (Ec2 : ne_src_cpu e2 = src) by done. clearbody e2.
    destruct (numa_has_capacity e2); [|done]. rewrite <- Ec2.
    match goal with |- context [task_numa_find_cpu ?a ?b e2 s1] => pose proof (find_cpu_searching p s a b e2 s1 S2 (proj2 (s64_range _)) (proj2 (s64_range _))) as Fc;
      destruct (task_numa_find_cpu a b e2 s1) as [e3 s3] end. exact Fc. }
  destruct (other_node_step p (e1, s1, w) nid) as [[e2 s2] w2]. destruct Hst as [S2 Ec2]. by apply IH.
Qed.

(** ** The whole of it *)

Lemma nt_inv x p f s : (forall t, numa_preferred_nid (f t) = numa_preferred_nid t) -> numa_inv x s -> numa_inv x (upd_nt p f s).
Proof.
  intros Hf [W C Cl Pl Id Q Nc R]. split; try done. apply (counts_same s); [done..| |done].
  intros c q _. unfold nt, upd_nt. cbn. destruct (decide (p = q)) as [<-|]; [by rewrite fn_lookup_alter, Hf|by rewrite fn_lookup_alter_ne].
Qed.

Lemma refs_inv x q f s : numa_inv x s -> numa_inv x (s <| nu_refs ::= alter f q |>).
Proof. intros [W C Cl Pl Id Q Nc R]. by split. Qed.

(** C17: When [task_numa_migrate] has tried to move a task whose CPU has a NUMA
    domain ([sd_numa]) towards its preferred node, by a move or a swap or not at all, no [BUG_ON] has failed, every queued
    fair task is in the queue of one CPU that it may use, each run queue's counts
    of tasks with a preferred node and of tasks on it are exact, and all task
    references taken on the way have been dropped. *)
Theorem numa_migrate_keeps_books `{!StopSpec} p s :
  numa_inv None s -> sd_numa (task_cpu (tasks (nu_k s) p)) <> None ->
  exists s' ret, task_numa_migrate p s = Some (s', ret) /\ numa_inv None s' /\ forall q, nu_refs s' q = nu_refs s q.
Proof.
  intros I Hd. unfold task_numa_migrate. destruct (sd_numa _) as [d|]; [|done]. cbv zeta. set (pct := s32 _). clearbody pct.
  pose proof (numa_search_searching p pct s I) as Sr. destruct (numa_search p pct s) as [env s1]. destruct Sr as [Sr _].
  set (s2 := match nt_group (nt s1 p) with Some _ => _ | None => s1 end).
  assert (S2 : numa_inv None s2 /\ nu_refs s2 = nu_refs s1).
  { unfold s2. destruct (nt_group _) as [g|]; [|split; [apply Sr|done]]. destruct (_ && _); [|split; [apply Sr|done]].
    pose proof (sched_setnuma_inv p (ne_dst_nid env) s1 (sr_inv _ _ _ _ Sr)) as Sn. split; apply Sn. }
  clearbody s2. destruct S2 as [I2 F2]. pose proof (sr_refs _ _ _ _ Sr) as Rf.
  destruct (Z.eqb_spec (best_cpu env) (-1)) as [Eb|Hb].
  { exists s2, (- EAGAIN). split_and!; [done|done|]. intros q. rewrite F2, Rf. destruct (best_task env) as [r|] eqn:Er.
    - by destruct (sr_task _ _ _ _ Sr r Er) as [? _].
    - rewrite bool_decide_false by done. cbn. lia. }
  set (s3 := upd_nt p _ s2). assert (I3 : numa_inv None s3) by (by apply nt_inv). assert (F3 : nu_refs s3 = nu_refs s1) by exact F2. clearbody s3.
  destruct (best_task env) as [r|] eqn:Er.
  - pose proof (migrate_swap_inv p r s3 I3) as Sw. destruct (migrate_swap p r s3) as [s4 ret]. destruct Sw as [I4 F4].
    eexists _, ret. split_and!; [reflexivity|by apply refs_inv|]. intros q. cbn. rewrite F4, F3. destruct (decide (r = q)) as [<-|Hne].
    + rewrite fn_lookup_alter, Rf, bool_decide_true by done. cbn. lia.
    + rewrite fn_lookup_alter_ne, Rf, bool_decide_false by congruence. cbn. lia.
  - destruct (migrate_task_to_inv p (best_cpu env) s3 I3) as (s4 & ret & -> & I4 & F4). exists s4, ret. split_and!; [done|done|].
    intros q. rewrite F4, F3, Rf, bool_decide_false by done. cbn. lia.
Qed.

End Place.

(** ** Examples *)

(** Two nodes of one CPU each.  Task 5 is queued on CPU 0, its memory is on node
    1, and both CPUs are between tasks. *)
Section Demo.
#[local] Instance demo_fair_env : FairEnv :=
  {| tun := default_tunables; CONFIG_SCHED_DEBUG := true; feat_START_DEBIT := true; feat_GENTLE_FAIR_SLEEPERS := true;
     feat_NEXT_BUDDY := false; feat_LAST_BUDDY := true; feat_WAKEUP_PREEMPTION := true;
     feat_ATTACH_AGE_LOAD := true; newidle_balance := fun c k => (k, 0) |}.
#[local] Instance demo_ops : QueueOps := fair_class_ops no_ops.
#[local] Instance demo_config : WrrConfig := {| WRR_TIMESLICE := 10; MAX_CPUS := 8; HZ := 100 |}.
#[local] Instance demo_wake_env : WakeEnv :=
  {| cpumask_of_node _ := None; CONFIG_CPUSETS := false; cpuset_cpus_allowed_fallback _ k := k; sd_llc_id _ := 0;
     feat_TTWU_QUEUE := false; domain_spans _ := []; wq_worker_sleeping _ _ := None; signal_pending_state _ _ _ := false |}.
#[local] Instance demo_select_env : SelectEnv :=
  {| sd_llc c := Some c; sd_llc_size _ := 2; sd_llc_shared _ := Some 0; cpu_smt_mask c := {[c]}; sched_smt_present := false;
     idle_get_state _ := None; scan_time := 100; feat_WA_IDLE := true; feat_WA_WEIGHT := true; feat_WA_BIAS := true;
     feat_SIS_AVG_CPU := false; feat_SIS_PROP := true |}.
(** Only CPUs that run no fair task are stopped. *)
#[local] Instance demo_stop_env : StopEnv :=
  {| stop_one_cpu c s := match cfs_curr (cfs_of (nu_k s) c) with Some _ => None | None => Some s end;
     stop_two_cpus c d s := match cfs_curr (cfs_of (nu_k s) c), cfs_curr (cfs_of (nu_k s) d) with None, None => Some s | _, _ => None end |}.
#[local] Instance demo_stop_spec : StopSpec.
Proof.
  split.
  - intros c s s' E I. cbn in E. destruct (cfs_curr (cfs_of (nu_k s) c)) eqn:Ec; [done|]. injection E as <-. split_and!; [exact I|exact Ec|done].
  - intros c d s s' E I. cbn in E. destruct (cfs_curr (cfs_of (nu_k s) c)) eqn:Ec; [done|].
    destruct (cfs_curr (cfs_of (nu_k s) d)) eqn:Ed; [done|]. injection E as <-. split_and!; [exact I|exact Ec|exact Ed|done].
Qed.

Definition numa_demo_kernel : kernel :=
  (demo_kernel fair_sched_class SCHED_NORMAL 120)
    <| tasks := fun p => demo_task (if decide (p = 5) then fair_sched_class else idle_sched_class) SCHED_NORMAL 120 p
         <| on_rq := 0 |> <| flags := if decide (p = 5) then 0 else PF_IDLE |>
         <| se ::= fun s => s <| se_avg := mkAvg 0 (1024 * 47742) 0 0 1024 0 |> |> |>
    <| sched_clock := fun _ => 2 ^ 30 |>.
Definition numa_demo0 : numa_state :=
  (demo_numa 8192 1000)
    <| nu_k := numa_demo_kernel |>
    <| nu_task := fun p => demo_numa_task 1000 <| numa_preferred_nid := if decide (p = 5) then 1 else -1 |>
         <| numa_faults := Some (fun i => if i =? 2 then 100 else 0) |> <| total_numa_faults := 100 |> |>.
Definition numa_demo : numa_state :=
  on_numa_k (mark_on_rq 5 TASK_ON_RQ_QUEUED) (counted_enqueue (enqueue_task 0 5 0) 0 5 numa_demo0).

Lemma numa_demo0_inv : numa_inv None numa_demo0.
Proof.
  split; try done.
  - intros c. split; try done.
    + apply NoDup_nil_2.
    + intros p. split; [by intros Hp%not_elem_of_nil|by intros [Hp _]].
    + intros p Hp. cbn in Hp. set_solver.
Qed.
Lemma numa_demo_inv : numa_inv None numa_demo.
Proof.
  destruct (counted_enqueue_inv (enqueue_task 0 5 0) 0 5 numa_demo0) as [I R].
  { apply enqueue_attaches. } { apply weaken_inv, numa_demo0_inv. } { done. } { done. }
  { intros _. split; [set_solver|done]. }
  apply unmark_inv; [exact I| |].
  - intros _. rewrite (rq_on _ _ _ _ _ R), decide_True by done. done.
  - intros c. destruct (rq_who _ _ _ _ _ R) as (_ & Sc & _). rewrite Sc, (proj1 (who_fields _ _ _ (rq_who _ _ _ _ _ R))). done.
Qed.

Lemma numa_migrate_keeps_books_witness :
  exists s', task_numa_migrate 5 numa_demo = Some (s', 0) /\ task_cpu (tasks (nu_k s') 5) = 1 /\
    (nr_preferred_running s' 0, nr_preferred_running s' 1) = (0, 1) /\ numa_inv None s'.
Proof.
  destruct (numa_migrate_keeps_books 5 numa_demo numa_demo_inv) as (s' & ret & E & I & _); [done|].
  assert (R : (fun x => (task_cpu (tasks (nu_k x.1) 5), (nr_preferred_running x.1 0, nr_preferred_running x.1 1), x.2)) <$> task_numa_migrate 5 numa_demo =
    Some (1, (0, 1), 0)) by (vm_compute; reflexivity).
  rewrite E in R. injection R as R1 R2 R3 R4. exists s'. split_and!; [by rewrite E, R4|exact R1|by rewrite R2, R3|exact I].
Defined.

(** The same machine when cpusets leave no domain that crosses nodes. *)
Definition no_domains : NumaEnv :=
  {| nr_node_ids := 2; online_nodes := [0; 1]; cpu_to_node c := c; node_cpus n := {[n]};
     node_distance a b := if a =? b then 10 else 20; sched_numa_topology_type := NUMA_DIRECT;
     sched_max_numa_distance := 20; find_numa_distance d := (d =? 10) || (d =? 20); sd_numa _ := None;
     PAGE_SHIFT := 12; sysctl_numa_balancing_scan_period_min := 1000; sysctl_numa_balancing_scan_period_max := 60000;
     sysctl_numa_balancing_scan_size := 16; sysctl_numa_balancing_scan_delay := 1000; cpupid_to_cpu x := x; cpupid_to_nid x := x; cpupid_pid_unset x := x =? -1;
     cpupid_match_pid p x := p =? x |}.

(** There the preferred node of a queued task changes behind the back of the
    count, which wraps when the task leaves. *)
Example no_domain_count_wraps :
  (fun x => (nr_preferred_running x.1 0, nr_preferred_running (@numa_dequeue_task no_domains _ 0 5 0 x.1) 0)) <$>
    @task_numa_migrate no_domains _ _ _ _ 5 numa_demo = Some (0, 4294967295).
Proof. vm_compute. reflexivity. Qed.

(** A source of twice the capacity and twice the load: moving a quarter of the
    source's load leaves the destination with twice the load per capacity, and
    is not found too imbalanced. *)
Example unequal_nodes_drift :
  let src := mkNumaStats 4 2000 2048 2 false in let dst := mkNumaStats 2 1000 1024 1 false in
  let env := mkNumaEnv 5 0 0 1 1 src dst 112 20 None 0 (-1) in
  numa_has_capacity env = true /\ load_too_imbalanced 1500 1500 env = false.
Proof. by vm_compute. Qed.
End Demo.
