(* ===== verification/NumaFaults.v ===== *)
(** * Hinting faults and groups of tasks (fair.c)

    [task_numa_fault] counts a fault of the current task; when a scan of its
    memory is complete, [task_numa_placement] averages the counts, chooses the
    preferred node and moves the task there.  A task that faults on a page last
    used by another joins the group of that task. *)

From S2P Require Import Prelude SchedTypes Core Frame Wrr CoreWake CorePolicy RtBandwidth FairMath FairPelt.
From S2P Require Import FairQueue FairInv FairOps FairFrame FairBusiest FairBalance FairMove FairSelect NumaStats NumaMigrate.

Definition TNF_MIGRATED : Z := 1.
Definition TNF_NO_GROUP : Z := 2.
Definition TNF_SHARED : Z := 4.
Definition TNF_FAULT_LOCAL : Z := 8.
Definition TNF_MIGRATE_FAIL : Z := 16.

(** Allocation: the address of a new group, and whether the fault buffers of a
    task can be had. *)
Class FaultEnv := {
  kzalloc_group : numa_state -> option Z;
  kzalloc_faults : numa_state -> bool;
  sched_numa_balancing : bool;
  last_cpupid_unset : Z }.

Section Faults.
Context `{NumaEnv} `{BalanceEnv} `{QueueOps} `{WakeEnv} `{WrrConfig} `{SelectEnv} `{StopEnv} `{FaultEnv}.

Definition nf (t : numa_task) (i : Z) : Z := match numa_faults t with Some f => f i | None => 0 end.
Definition set_nf (i v : Z) (t : numa_task) : numa_task :=
  t <| numa_faults ::= fmap (fun f j => if decide (i = j) then v else f j) |>.
Definition set_gf (i v : Z) (g : numa_group) : numa_group := g <| ng_faults ::= fun f j => if decide (i = j) then v else f j |>.

(** ** Placement *)

Record placement := mkPlacement {
  pl_s : numa_state;
  fault_types : Z * Z;
  pl_faults : Z;
  pl_group_faults : Z;
  max_faults : Z;
  max_nid : Z;
  max_group_faults : Z;
  max_group_nid : Z }.
#[export] Instance eta_placement : Settable placement :=
  fun r => mkPlacement (pl_s r) (fault_types r) (pl_faults r) (pl_group_faults r) (max_faults r) (max_nid r) (max_group_faults r) (max_group_nid r).

(** The inner loop, for one kind of faults of one node. *)
Definition placement_priv (p runtime period total nid : Z) (a : placement) (priv : Z) : placement :=
  let mem_idx := task_faults_idx NUMA_MEM nid priv in
  let membuf_idx := task_faults_idx NUMA_MEMBUF nid priv in
  let cpu_idx := task_faults_idx NUMA_CPU nid priv in
  let cpubuf_idx := task_faults_idx NUMA_CPUBUF nid priv in
  let t := nt (pl_s a) p in
  let diff := s64 (nf t membuf_idx - nf t mem_idx / 2) in
  let types := if priv =? 0 then (u64 ((fault_types a).1 + nf t membuf_idx), (fault_types a).2)
               else ((fault_types a).1, u64 ((fault_types a).2 + nf t membuf_idx)) in
  let f_weight := s64 (u64 (Z.shiftl runtime 16) / u64 (period + 1)) in
  let f_weight := s64 (u64 (f_weight * nf t cpubuf_idx) / u64 (total + 1)) in
  let f_diff := s64 (f_weight - nf t cpu_idx / 2) in
  let t := set_nf cpu_idx (u64 (nf t cpu_idx + f_diff)) (set_nf mem_idx (u64 (nf t mem_idx + diff))
             (set_nf cpubuf_idx 0 (set_nf membuf_idx 0 t))) in
  let t := t <| total_numa_faults ::= fun n => u64 (n + diff) |> in
  let s := upd_nt p (fun _ => t) (pl_s a) in
  let a := a <| fault_types := types |> <| pl_faults ::= fun n => u64 (n + nf t mem_idx) |> in
  match nt_group t with
  | Some g =>
      let s := upd_ng g (fun x =>
        let x := set_gf mem_idx (u64 (ng_faults x mem_idx + diff)) x in
        let i := NR_NUMA_HINT_FAULT_TYPES * nr_node_ids + mem_idx in
        let x := set_gf i (u64 (ng_faults x i + f_diff)) x in
        x <| total_faults ::= fun n => u64 (n + diff) |>) s in
      a <| pl_s := s |> <| pl_group_faults ::= fun n => u64 (n + ng_faults (nu_group s g) mem_idx) |>
  | None => a <| pl_s := s |>
  end.

Definition placement_node (p runtime period total : Z) (a : placement) (nid : Z) : placement :=
  let a := foldl (placement_priv p runtime period total nid) (a <| pl_faults := 0 |> <| pl_group_faults := 0 |>) [0; 1] in
  let a := if max_faults a <? pl_faults a then a <| max_faults := pl_faults a |> <| max_nid := nid |> else a in
  if max_group_faults a <? pl_group_faults a then a <| max_group_faults := pl_group_faults a |> <| max_group_nid := nid |> else a.

(** [None]: a division by zero, here or in the scan period, or the [BUG_ON] of a
    move.  There is always an online node. *)
Definition task_numa_placement (p : Z) (s : numa_state) : option numa_state :=
  match nt_mm (nt s p) with
  | None => None
  | Some m =>
      let seq := mm_scan_seq (nu_mm s m) in
      if numa_scan_seq (nt s p) =? seq then Some s
      else
        let s := upd_nt p (fun t => t <| numa_scan_seq := seq |>) s in
        let s := upd_nt p (fun t => t <| numa_scan_period_max := task_scan_max s p |>) s in
        let total := u64 (faults_remote (nt s p) + faults_local (nt s p)) in
        let '(s, runtime, period) := numa_get_avg_runtime p s in
        if (u64 (period + 1) =? 0) || (u64 (total + 1) =? 0) then None
        else
          let a := foldl (placement_node p runtime period total) (mkPlacement s (0, 0) 0 0 0 (-1) 0 (-1)) online_nodes in
          s ← update_task_scan_period p (fault_types a).1 (fault_types a).2 (pl_s a);
          let '(s, max_nid) :=
            match nt_group (nt s p) with
            | Some g => let s := numa_group_count_active_nodes g s in (s, preferred_group_nid s p (max_group_nid a))
            | None => (s, max_nid a)
            end in
          if max_faults a =? 0 then Some s
          else
            let s := if negb (max_nid =? numa_preferred_nid (nt s p)) then sched_setnuma p max_nid s else s in
            if negb (task_node s p =? numa_preferred_nid (nt s p)) then numa_migrate_preferred p s else Some s
  end.

(** ** Groups *)

(** [atomic_inc_not_zero]. *)
Definition get_numa_group (g : Z) (s : numa_state) : option numa_state :=
  if ng_refcount (nu_group s g) =? 0 then None else Some (upd_ng g (fun x => x <| ng_refcount ::= Z.succ |>) s).
Definition put_numa_group (g : Z) (s : numa_state) : numa_state :=
  let s := upd_ng g (fun x => x <| ng_refcount ::= Z.pred |>) s in
  if ng_refcount (nu_group s g) =? 0 then s <| nu_freed ::= cons g |> else s.

(** The averaged statistics of a task, added to those of a group or taken from
    them ([sign] is 1 or -1). *)
Definition add_faults (sign : Z) (t : numa_task) (x : numa_group) : numa_group :=
  x <| ng_faults ::= fun f i => if decide (0 <= i < NR_NUMA_HINT_FAULT_STATS * nr_node_ids) then u64 (f i + sign * nf t i) else f i |>
    <| total_faults ::= fun n => u64 (n + sign * total_numa_faults t) |>
    <| ng_nr_tasks ::= fun n => n + sign |>.

(** A group of its own for [p], from memory that is zero and no longer on its
    way to be freed. *)
Definition new_numa_group (p g : Z) (s : numa_state) : numa_state :=
  let t := nt s p in
  let s := s <| nu_freed ::= filter (fun x => x <> g) |> in
  let faults i := if decide (0 <= i < NR_NUMA_HINT_FAULT_STATS * nr_node_ids) then nf t i else 0 in
  let s := upd_ng g (fun _ => mkNumaGroup 1 1 p 1 (total_numa_faults t) 0 faults) s in
  upd_nt p (fun t => t <| nt_group := Some g |>) s.

Definition join_numa_group (p my_grp grp : Z) (s : numa_state) : numa_state :=
  let t := nt s p in
  let s := upd_ng my_grp (add_faults (-1) t) s in
  let s := upd_ng grp (add_faults 1 t) s in
  let s := upd_nt p (fun t => t <| nt_group := Some grp |>) s in
  put_numa_group my_grp s.

Definition task_numa_group (p cpupid flags : Z) (priv : bool) (s : numa_state) : numa_state * bool :=
  let s := match nt_group (nt s p) with
           | Some _ => s
           | None => match kzalloc_group s with Some g => new_numa_group p g s | None => s end
           end in
  match nt_group (nt s p) with
  | None => (s, priv)
  | Some my_grp =>
      let tsk := curr (rqs (nu_k s) (cpupid_to_cpu cpupid)) in
      if negb (cpupid_match_pid tsk cpupid) then (s, priv)
      else match nt_group (nt s tsk) with
           | None => (s, priv)
           | Some grp =>
               let mine := ng_nr_tasks (nu_group s my_grp) in
               let theirs := ng_nr_tasks (nu_group s grp) in
               if (grp =? my_grp) || (theirs <? mine) || ((mine =? theirs) && (grp <? my_grp)) then (s, priv)
               else
                 let join := bool_decide (nt_mm (nt s tsk) = nt_mm (nt s p)) || has_flag flags TNF_SHARED in
                 let priv := negb join in
                 if negb join then (s, priv)
                 else match get_numa_group grp s with
                      | None => (s, priv)
                      | Some s => (join_numa_group p my_grp grp s, priv)
                      end
           end
  end.

Definition task_numa_free (p : Z) (s : numa_state) : numa_state :=
  let t := nt s p in
  let s := match nt_group t with
           | Some g =>
               let s := upd_ng g (add_faults (-1) t) s in
               let s := upd_nt p (fun t => t <| nt_group := None |>) s in
               put_numa_group g s
           | None => s
           end in
  upd_nt p (fun t => t <| numa_faults := None |>) s.

(** ** A fault *)

Definition count_fault (p mem_node cpu_node pages flags : Z) (priv local : bool) : numa_state -> numa_state :=
  upd_nt p (fun t =>
    let t := if has_flag flags TNF_MIGRATED then t <| numa_pages_migrated ::= fun n => u64 (n + pages) |> else t in
    let t := if has_flag flags TNF_MIGRATE_FAIL then t <| faults_failed ::= fun n => u64 (n + pages) |> else t in
    let membuf := task_faults_idx NUMA_MEMBUF mem_node (Z.b2z priv) in
    let t := set_nf membuf (u64 (nf t membuf + pages)) t in
    let cpubuf := task_faults_idx NUMA_CPUBUF cpu_node (Z.b2z priv) in
    let t := set_nf cpubuf (u64 (nf t cpubuf + pages)) t in
    if local then t <| faults_local ::= fun n => u64 (n + pages) |> else t <| faults_remote ::= fun n => u64 (n + pages) |>).

Definition task_numa_fault (last_cpupid mem_node pages flags : Z) (s : numa_state) : option numa_state :=
  let p := current (nu_k s) in
  let cpu_node := task_node s p in
  let local := has_flag flags TNF_FAULT_LOCAL in
  if negb sched_numa_balancing || bool_decide (nt_mm (nt s p) = None) then Some s
  else if bool_decide (numa_faults (nt s p) = None) && negb (kzalloc_faults s) then Some s
  else
    let s := if bool_decide (numa_faults (nt s p) = None)
             then upd_nt p (fun t => t <| numa_faults := Some (fun _ => 0) |> <| total_numa_faults := 0 |>
                                       <| faults_remote := 0 |> <| faults_local := 0 |> <| faults_failed := 0 |>) s
             else s in
    let '(s, priv) :=
      if last_cpupid =? last_cpupid_unset then (s, true)
      else
        let priv := cpupid_match_pid p last_cpupid in
        if negb priv && negb (has_flag flags TNF_NO_GROUP) then task_numa_group p last_cpupid flags priv s else (s, priv) in
    let local :=
      local || match nt_group (nt s p) with
               | Some g => negb priv && (1 <? active_nodes (nu_group s g)) && numa_is_active_node s cpu_node g && numa_is_active_node s mem_node g
               | None => false
               end in
    s ← task_numa_placement p s;
    s ← (if time_after (jiffies (nu_k s)) (numa_migrate_retry (nt s p)) then numa_migrate_preferred p s else Some s);
    Some (count_fault p mem_node cpu_node pages flags priv local s).

(** ** A new task *)

(** What [__sched_fork] does to the task [p], a copy of its parent so far;
    [mm_users] is that of the address space. *)
Definition sched_fork_numa (parent p mm_users : Z) (clone_vm : bool) (s : numa_state) : numa_state :=
  let t := nt s parent in
  let s := match nt_mm t with
           | Some m => if mm_users =? 1
                       then upd_mm m (fun x => x <| mm_next_scan := u64 (jiffies (nu_k s) + msecs_to_jiffies sysctl_numa_balancing_scan_delay) |>
                                                 <| mm_scan_seq := 0 |>) s
                       else s
           | None => s
           end in
  let seq := match nt_mm t with Some m => mm_scan_seq (nu_mm s m) | None => 0 end in
  upd_nt p (fun _ => t <| numa_preferred_nid := if clone_vm then numa_preferred_nid (nt s parent) else -1 |>
    <| node_stamp := 0 |> <| numa_scan_seq := seq |> <| numa_scan_period := sysctl_numa_balancing_scan_delay |>
    <| numa_work_queued := false |> <| numa_faults := None |> <| last_task_numa_placement := 0 |> <| last_sum_exec_runtime := 0 |>
    <| nt_group := None |>) s.

(** ** Load balancing between nodes *)

(** -1: locality does not matter, 0: the move improves it, 1: it degrades it. *)
Definition numa_migrate_degrades_locality (p : Z) (env : lb_env) (s : numa_state) : Z :=
  let t := nt s p in
  if negb sched_numa_balancing then -1
  else if bool_decide (numa_faults t = None) || negb (has_flag (sd_flags (domains (nu_k s) (env_sd env))) SD_NUMA) then -1
  else
    let src_nid := cpu_to_node (src_cpu env) in
    let dst_nid := cpu_to_node (dst_cpu env) in
    if src_nid =? dst_nid then -1
    else if src_nid =? numa_preferred_nid t then
      if nr_preferred_running s (src_cpu env) <? nr_running (rqs (nu_k s) (src_cpu env)) then 1 else -1
    else if dst_nid =? numa_preferred_nid t then 0
    else if negb (bool_decide (env_idle env = CPU_NOT_IDLE)) then -1
    else
      let faults := match nt_group t with Some _ => group_faults s p | None => task_faults s p end in
      Z.b2z (faults dst_nid <? faults src_nid).

Definition numa_fbq_classify (running numa preferred : Z) : fbq_type :=
  if numa <? running then fbq_regular else if preferred <? running then fbq_remote else fbq_all.
Definition numa_fbq_classify_rq (s : numa_state) (c : Z) : fbq_type :=
  numa_fbq_classify (nr_running (rqs (nu_k s) c)) (nr_numa_running s c) (nr_preferred_running s c).
(** For a group of CPUs, with the sums of [update_sg_lb_stats]. *)
Definition numa_fbq_classify_group (s : numa_state) (cpus : list Z) : fbq_type :=
  let sum f := foldl (fun n c => u32 (n + f c)) 0 cpus in
  numa_fbq_classify (sum (fun c => h_nr_running (cfs_of (nu_k s) c))) (sum (nr_numa_running s)) (sum (nr_preferred_running s)).

(** ** Scans *)

Definition reset_ptenuma_scan (p : Z) (s : numa_state) : numa_state :=
  match nt_mm (nt s p) with
  | Some m => upd_mm m (fun x => x <| mm_scan_seq ::= fun n => s32 (n + 1) |> <| mm_scan_offset := 0 |>) s
  | None => s
  end.

Definition task_tick_numa (p : Z) (s : numa_state) : numa_state :=
  match nt_mm (nt s p) with
  | None => s
  | Some m =>
      if has_flag (flags (tasks (nu_k s) p)) PF_EXITING || numa_work_queued (nt s p) then s
      else
        let now := sum_exec_runtime (se (tasks (nu_k s) p)) in
        let period := u64 (numa_scan_period (nt s p) * NSEC_PER_MSEC) in
        if now <=? u64 (node_stamp (nt s p) + period) then s
        else
          let s := if node_stamp (nt s p) =? 0 then upd_nt p (fun t => t <| numa_scan_period := task_scan_start s p |>) s else s in
          let s := upd_nt p (fun t => t <| node_stamp ::= fun n => u64 (n + period) |>) s in
          if negb (time_after (mm_next_scan (nu_mm s m)) (jiffies (nu_k s)))
          then upd_nt p (fun t => t <| numa_work_queued := true |>) s else s
  end.
End Faults.
