(* ===== verification/NumaGroups.v ===== *)
(** * What a group of tasks knows (fair.c)

    A group's statistics are the sums of those of its members, modulo 2^64; it has
    as many references as members, and it is not freed while it has members.
    Faults, placement, joining another group and exit keep this. *)

From S2P Require Import Prelude SchedTypes Core Frame Wrr CoreWake CorePolicy RtBandwidth FairMath FairPelt.
From S2P Require Import FairQueue FairInv FairOps FairFrame FairBusiest FairBalance FairMove FairSelect NumaStats NumaMigrate NumaBooks NumaFaults.

(** ** The invariant *)

Section Groups.
Context `{NumaEnv}.

Definition stat_idx (i : Z) : Prop := 0 <= i < NR_NUMA_HINT_FAULT_STATS * nr_node_ids.

(** What a group holds is what its members [M] have. *)
Record tallies (s : numa_state) (x : numa_group) (M : list Z) : Prop := {
  ta_ref : ng_refcount x = Z.of_nat (length M);
  ta_tasks : ng_nr_tasks x = Z.of_nat (length M);
  ta_total : total_faults x = u64 (sum_of (fun p => total_numa_faults (nt s p)) M);
  ta_faults i : stat_idx i -> ng_faults x i = u64 (sum_of (fun p => nf (nt s p) i) M) }.

Record group_ok (s : numa_state) (g : Z) (M : list Z) : Prop := {
  go_nodup : NoDup M;
  go_members p : p ∈ M <-> nt_group (nt s p) = Some g;
  go_faults p : p ∈ M -> numa_faults (nt s p) <> None;
  go_freed : M <> [] -> g ∉ nu_freed s;
  go_tally : M <> [] -> tallies s (nu_group s g) M }.

(** Counts are unsigned longs. *)
Definition ranged (t : numa_task) : Prop := (forall i, u64 (nf t i) = nf t i) /\ u64 (total_numa_faults t) = total_numa_faults t.

Record groups_ok (s : numa_state) : Prop := {
  gs_group g : exists M, group_ok s g M;
  gs_ranged p : ranged (nt s p) }.

(** What the invariant reads of a task and of a group. *)
Definition same_stats (t t' : numa_task) : Prop :=
  nt_group t' = nt_group t /\ (numa_faults t = None <-> numa_faults t' = None) /\
  total_numa_faults t' = total_numa_faults t /\ forall i, stat_idx i -> nf t' i = nf t i.
Definition same_group (x x' : numa_group) : Prop :=
  ng_refcount x' = ng_refcount x /\ ng_nr_tasks x' = ng_nr_tasks x /\ total_faults x' = total_faults x /\
  forall i, stat_idx i -> ng_faults x' i = ng_faults x i.

#[export] Instance same_stats_preorder : PreOrder same_stats.
Proof.
  split; [done|]. intros t1 t2 t3 (A & B & C & D) (A' & B' & C' & D'). split_and!; [congruence|tauto|congruence|].
  intros i Hi. by rewrite D', D.
Qed.
#[export] Instance same_group_preorder : PreOrder same_group.
Proof.
  split; [done|]. intros x1 x2 x3 (A & B & C & D) (A' & B' & C' & D'). split_and!; [congruence..|].
  intros i Hi. by rewrite D', D.
Qed.

Lemma tallies_same s s' x x' M :
  tallies s x M -> same_group x x' -> (forall p, p ∈ M -> same_stats (nt s p) (nt s' p)) -> tallies s' x' M.
Proof.
  intros [A B C D] (E1 & E2 & E3 & E4) Hp. split; [congruence|congruence|..].
  - rewrite E3, C. f_equal. apply sum_of_ext. intros p Hm. symmetry. apply Hp, Hm.
  - intros i Hi. rewrite E4, D by done. f_equal. apply sum_of_ext. intros p Hm. symmetry. by apply Hp.
Qed.

(** A group that no task enters or leaves. *)
Lemma group_keep s s' g M :
  group_ok s g M -> same_group (nu_group s g) (nu_group s' g) -> (forall p, p ∈ M -> same_stats (nt s p) (nt s' p)) ->
  (forall p, nt_group (nt s' p) = Some g -> nt_group (nt s p) = Some g) -> (g ∈ nu_freed s' -> g ∈ nu_freed s \/ M = []) -> group_ok s' g M.
Proof.
  intros [A B C D E] Hg Hp Hback Hf. split; [done|..].
  - intros p. split; [|intros Hq; by apply B, Hback]. intros Hm. destruct (Hp p Hm) as [-> _]. by apply B.
  - intros p Hm. destruct (Hp p Hm) as (_ & En & _). specialize (C p Hm). tauto.
  - intros Hne Hin. destruct (Hf Hin); [by apply D|done].
  - intros Hne. eapply tallies_same; [by apply E|done|done].
Qed.

(** Statistics of a task, added and taken away. *)
Definition entered (x x' : numa_group) (t : numa_task) : Prop :=
  ng_refcount x' = ng_refcount x + 1 /\ ng_nr_tasks x' = ng_nr_tasks x + 1 /\ total_faults x' = u64 (total_faults x + total_numa_faults t) /\
  forall i, stat_idx i -> ng_faults x' i = u64 (ng_faults x i + nf t i).
Definition left_group (x x' : numa_group) (t : numa_task) : Prop :=
  ng_refcount x' = ng_refcount x - 1 /\ ng_nr_tasks x' = ng_nr_tasks x - 1 /\ total_faults x' = u64 (total_faults x - total_numa_faults t) /\
  forall i, stat_idx i -> ng_faults x' i = u64 (ng_faults x i - nf t i).

Lemma group_enter s s' g M p :
  group_ok s g M -> M <> [] -> nt_group (nt s p) <> Some g -> nt_group (nt s' p) = Some g -> numa_faults (nt s' p) <> None ->
  (forall q, q <> p -> nt s' q = nt s q) -> entered (nu_group s g) (nu_group s' g) (nt s' p) -> g ∉ nu_freed s' ->
  group_ok s' g (p :: M).
Proof.
  intros [A B C D E] Hne Hout Hin Hnf Hq (E1 & E2 & E3 & E4) Hf. assert (HpM : p ∉ M) by (by rewrite B).
  assert (Hsum : forall f : numa_task -> Z, sum_of (fun q => f (nt s' q)) M = sum_of (fun q => f (nt s q)) M).
  { intros f. apply sum_of_ext. intros q Hm. rewrite Hq; [done|]. by intros ->. }
  destruct (E Hne) as [T1 T2 T3 T4]. split.
  - by apply NoDup_cons.
  - intros q. rewrite elem_of_cons. destruct (decide (q = p)) as [->|Hn]; [tauto|]. rewrite Hq, <- B by done. tauto.
  - intros q [->|Hm]%elem_of_cons; [done|]. rewrite Hq; [by apply C|]. by intros ->.
  - done.
  - intros _. split; [cbn; lia|cbn; lia|..].
    + rewrite E3, T3, u64_add_l. cbn. fold (sum_of (fun q => total_numa_faults (nt s' q)) M). rewrite (Hsum total_numa_faults). f_equal. lia.
    + intros i Hi. rewrite E4, T4, u64_add_l by done. cbn. fold (sum_of (fun q => nf (nt s' q) i) M). rewrite (Hsum (fun t => nf t i)). f_equal. lia.
Qed.

Lemma group_leave s s' g M p :
  group_ok s g M -> p ∈ M -> nt_group (nt s' p) <> Some g -> (forall q, q <> p -> nt s' q = nt s q) ->
  left_group (nu_group s g) (nu_group s' g) (nt s p) -> (g ∈ nu_freed s' -> g ∈ nu_freed s \/ ng_refcount (nu_group s' g) = 0) ->
  group_ok s' g (filter (fun q => q <> p) M).
Proof.
  intros [A B C D E] Hp Hout Hq (E1 & E2 & E3 & E4) Hf. assert (Hne : M <> []) by (intros ->; by apply not_elem_of_nil in Hp).
  destruct (E Hne) as [T1 T2 T3 T4].
  assert (Hperm : M ≡ₚ p :: filter (fun q => q <> p) M).
  { apply NoDup_Permutation; [done| |].
    - apply NoDup_cons. split; [rewrite list_elem_of_filter; tauto|by apply NoDup_filter].
    - intros q. rewrite elem_of_cons, list_elem_of_filter. destruct (decide (q = p)) as [->|]; tauto. }
  pose proof (Permutation_length Hperm) as Hlen. cbn in Hlen. set (M' := filter _ M) in *.
  assert (Hsum : forall f : numa_task -> Z, sum_of (fun q => f (nt s q)) M = f (nt s p) + sum_of (fun q => f (nt s' q)) M').
  { intros f. rewrite (sum_of_Permutation _ _ _ Hperm). cbn. f_equal. apply sum_of_ext. intros q Hm. apply list_elem_of_filter in Hm as [Hm _]. by rewrite Hq. }
  split.
  - by apply NoDup_filter.
  - intros q. unfold M'. rewrite list_elem_of_filter, B. destruct (decide (q = p)) as [->|Hn]; [tauto|]. rewrite Hq by done. tauto.
  - intros q [Hn Hm]%list_elem_of_filter. rewrite Hq by done. by apply C.
  - intros Hne' Hin. destruct (Hf Hin) as [|Hz]; [by apply D|]. destruct M'; [done|]. cbn in Hlen. lia.
  - intros _. split; [lia|lia|..].
    + rewrite E3, T3, u64_sub_l, (Hsum total_numa_faults). f_equal. lia.
    + intros i Hi. rewrite E4, T4, u64_sub_l, (Hsum (fun t => nf t i)) by done. f_equal. lia.
Qed.

(** The statistics of a member, and those of its group, change alike. *)
Lemma group_shift s s' g M p dt (d : Z -> Z) :
  group_ok s g M -> p ∈ M -> (forall q, q <> p -> nt s' q = nt s q) -> nt_group (nt s' p) = Some g -> numa_faults (nt s' p) <> None ->
  total_numa_faults (nt s' p) = u64 (total_numa_faults (nt s p) + dt) ->
  (forall i, stat_idx i -> nf (nt s' p) i = u64 (nf (nt s p) i + d i)) ->
  ng_refcount (nu_group s' g) = ng_refcount (nu_group s g) -> ng_nr_tasks (nu_group s' g) = ng_nr_tasks (nu_group s g) ->
  total_faults (nu_group s' g) = u64 (total_faults (nu_group s g) + dt) ->
  (forall i, stat_idx i -> ng_faults (nu_group s' g) i = u64 (ng_faults (nu_group s g) i + d i)) ->
  nu_freed s' = nu_freed s -> group_ok s' g M.
Proof.
  intros [A B C D E] Hp Hq Hg Hnf Ht Hi Hr Hn Hgt Hgi Hf. assert (Hne : M <> []) by (intros ->; by apply not_elem_of_nil in Hp).
  assert (Hsum : forall (f : numa_task -> Z) e, f (nt s' p) = u64 (f (nt s p) + e) ->
    u64 (sum_of (fun q => f (nt s' q)) M) = u64 (u64 (sum_of (fun q => f (nt s q)) M) + e)).
  { intros f e Hfe. rewrite (sum_of_upd (fun q => f (nt s q)) (fun q => f (nt s' q)) M p A Hp) by (intros q Hn'; by rewrite Hq).
    rewrite Hfe, u64_add_r, u64_add_l. f_equal. lia. }
  destruct (E Hne) as [T1 T2 T3 T4]. split; [done|..].
  - intros q. destruct (decide (q = p)) as [->|Hn']; [tauto|]. rewrite Hq by done. apply B.
  - intros q Hm. destruct (decide (q = p)) as [->|Hn']; [done|]. rewrite Hq by done. by apply C.
  - intros _. rewrite Hf. by apply D.
  - intros _. split; [congruence|congruence|..].
    + rewrite Hgt, T3. symmetry. by apply (Hsum total_numa_faults).
    + intros i Hs. rewrite Hgi, T4 by done. symmetry. apply (Hsum (fun t => nf t i)). by apply Hi.
Qed.
End Groups.

(** ** Changes that the statistics do not see *)

Section Frame.
Context `{NumaEnv}.

Definition same_books (s s' : numa_state) : Prop :=
  (forall p, same_stats (nt s p) (nt s' p) /\ (ranged (nt s p) -> ranged (nt s' p))) /\
  (forall g, same_group (nu_group s g) (nu_group s' g)) /\ nu_freed s' = nu_freed s.

#[export] Instance same_books_preorder : PreOrder same_books.
Proof.
  split.
  - intros s. split_and!; [by intros p|by intros g|done].
  - intros s1 s2 s3 (A & B & C) (A' & B' & C'). split_and!; [|intros g; etransitivity; [apply B|apply B']|congruence].
    intros p. destruct (A p) as [A1 A2], (A' p) as [A3 A4]. split; [by etransitivity|tauto].
Qed.

Lemma books_ok s s' : same_books s s' -> groups_ok s -> groups_ok s'.
Proof.
  intros (A & B & C) [G R]. split; [|intros p; apply A, R]. intros g. destruct (G g) as [M Gm]. exists M.
  apply (group_keep s); [done|apply B|intros p _; apply A| |rewrite C; by left]. intros p. by destruct (A p) as [[-> _] _].
Qed.

Lemma books_nt p f s : (forall t, same_stats t (f t) /\ (ranged t -> ranged (f t))) -> same_books s (upd_nt p f s).
Proof.
  intros Hf. split_and!; [|done|done]. intros q. unfold nt, upd_nt. cbn.
  destruct (decide (p = q)) as [<-|]; [by rewrite fn_lookup_alter|by rewrite fn_lookup_alter_ne].
Qed.
Lemma books_ng g f s : (forall x, same_group x (f x)) -> same_books s (upd_ng g f s).
Proof.
  intros Hf. split_and!; [by intros p| |done]. intros h. unfold upd_ng. cbn.
  destruct (decide (g = h)) as [<-|]; [by rewrite fn_lookup_alter|by rewrite fn_lookup_alter_ne].
Qed.

(** Everything but the tasks, the groups and the freed groups. *)
Definition same_store (s s' : numa_state) : Prop := nu_task s' = nu_task s /\ nu_group s' = nu_group s /\ nu_freed s' = nu_freed s.
Lemma store_books s s' : same_store s s' -> same_books s s'.
Proof. intros (A & B & C). split_and!; [intros p; unfold nt; by rewrite A|intros g; by rewrite B|done]. Qed.
#[export] Instance same_store_preorder : PreOrder same_store.
Proof. split; [done|]. intros s1 s2 s3 (A & B & C) (A' & B' & C'). split_and!; congruence. Qed.

Context `{BalanceEnv} `{QueueOps} `{WakeEnv} `{WrrConfig} `{SelectEnv} `{StopEnv}.

Lemma store_enqueue op c p s : same_store s (counted_enqueue op c p s).
Proof. unfold counted_enqueue. cbv zeta. by destruct (_ && _). Qed.
Lemma store_dequeue op c p s : same_store s (counted_dequeue op c p s).
Proof. unfold counted_dequeue. cbv zeta. by destruct (is_fair s p). Qed.

Lemma setnuma_books p nid s : same_books s (sched_setnuma p nid s).
Proof.
  unfold sched_setnuma. cbv zeta. set (s1 := if task_on_rq_queued _ _ then _ else s).
  assert (B1 : same_books s s1) by (unfold s1; destruct (task_on_rq_queued _ _); [apply store_books, store_dequeue|done]). clearbody s1.
  set (s2 := if task_current _ _ _ then on_numa_k _ s1 else s1).
  assert (B2 : same_books s s2) by (unfold s2; by destruct (task_current _ _ _)). clearbody s2. clear B1 s1.
  set (s3 := upd_nt p _ s2). assert (B3 : same_books s s3) by (etransitivity; [exact B2|by apply books_nt]). clearbody s3. clear B2 s2.
  set (s4 := if task_on_rq_queued _ _ then _ else s3).
  assert (B4 : same_books s s4) by (unfold s4; destruct (task_on_rq_queued _ _); [etransitivity; [exact B3|apply store_books, store_enqueue]|done]).
  clearbody s4. by destruct (task_current _ _ _).
Qed.

Lemma swap_task_store p cpu s : same_store s (__migrate_swap_task p cpu s).
Proof.
  unfold __migrate_swap_task. destruct (task_on_rq_queued _ _); [|done]. cbv zeta.
  set (s1 := numa_deactivate_task _ _ _ _). assert (B1 : same_store s s1) by (etransitivity; [|apply store_dequeue]; done). clearbody s1.
  set (s2 := numa_activate_task _ _ _ _). assert (B2 : same_store s s2) by (etransitivity; [exact B1|]; etransitivity; [|apply store_enqueue]; done).
  done.
Qed.

Lemma cpu_stop_store c p dest s s' : numa_migration_cpu_stop c p dest s = Some s' -> same_store s s'.
Proof.
  unfold numa_migration_cpu_stop. destruct (_ =? c); [|by intros [= <-]]. destruct (task_on_rq_queued _ _); [|by intros [= <-]].
  destruct (negb _); [by intros [= <-]|]. unfold numa_move_queued_task. cbv zeta. destruct (negb _); [done|]. intros [= <-].
  set (s1 := numa_dequeue_task _ _ _ _). assert (B1 : same_store s s1) by (etransitivity; [|apply store_dequeue]; done). clearbody s1.
  set (s2 := numa_enqueue_task _ _ _ _). assert (B2 : same_store s s2) by (etransitivity; [exact B1|]; etransitivity; [|apply store_enqueue]; done).
  done.
Qed.

(** ** The search *)

Lemma compare_store ti gi env s : same_store s (task_numa_compare ti gi env s).2.
Proof.
  assert (Ha : forall new imp e s0, same_store s0 (task_numa_assign new imp e s0).2).
  { intros new imp e s0. unfold task_numa_assign. cbv zeta. cbn [snd]. by destruct new, (best_task e). }
  assert (Hb : forall e cur imp mi s0, same_store s0 (compare_balance e cur imp mi s0).2).
  { intros e cur imp mi s0. unfold compare_balance. cbv zeta. destruct (_ && _ && _); [apply Ha|]. destruct (_ <=? _); [done|].
    match goal with |- context [let '(_, _) := ?x in if load_too_imbalanced _ _ _ then _ else _] => destruct x as [sl dl] end.
    destruct (load_too_imbalanced sl dl e); [done|]. destruct cur; [apply Ha|]. destruct (select_idle_sibling _ _ _ _) as [k1 cpu].
    etransitivity; [|apply Ha]. done. }
  unfold task_numa_compare. cbv zeta. case_bool_decide; [done|]. destruct (if _ || _ then None else Some _).
  - destruct (negb _); [done|]. destruct (_ && _); [done|]. destruct (_ && _ && _); [apply Ha|apply Hb].
  - destruct (_ <=? _); [done|]. destruct (_ && _); [done|apply Hb].
Qed.

Lemma find_cpu_store ti gi env s : same_store s (task_numa_find_cpu ti gi env s).2.
Proof.
  unfold task_numa_find_cpu. generalize (for_each_cpu (nu_k s) (node_cpus (ne_dst_nid env))). intros l.
  revert env s. induction l as [|c l IH]; intros env s; [done|]. cbn [foldl find_cpu_step]. destruct (negb _); [apply IH|].
  pose proof (compare_store ti gi (env <| ne_dst_cpu := c |>) s) as Cs. destruct (task_numa_compare _ _ _ _) as [e1 s1].
  etransitivity; [exact Cs|apply IH].
Qed.

Lemma search_store p pct s : same_store s (numa_search p pct s).2.
Proof.
  unfold numa_search. cbv zeta. set (env := mkNumaEnv _ _ _ _ _ _ _ _ _ _ _ _). clearbody env.
  match goal with |- context [if numa_has_capacity env then ?x else _] => set (x0 := x) end.
  assert (S1 : same_store s (if numa_has_capacity env then x0 else (env, s)).2) by (destruct (numa_has_capacity env); [apply find_cpu_store|done]).
  clearbody x0. destruct (if numa_has_capacity env then x0 else (env, s)) as [e1 s1]. cbn [snd] in S1. destruct (_ || _); [|done].
  match goal with |- context [foldl _ (e1, s1, ?w)] => generalize w end.
  revert e1 s1 S1. induction online_nodes as [|nid l IH]; intros e1 s1 S1 w; [done|]. cbn [foldl].
  assert (Hst : same_store s (other_node_step p (e1, s1, w) nid).1.2).
  { unfold other_node_step. destruct w as [tw gw]. destruct (_ || _); [done|]. cbv zeta. destruct (if bool_decide _ && _ then _ else _) as [tw' gw'].
    destruct (_ && _); [done|]. set (e2 := e1 <| ne_dist := _ |> <| ne_dst_nid := _ |> <| ne_dst_stats := _ |>). clearbody e2.
    destruct (numa_has_capacity e2); [|done]. match goal with |- context [task_numa_find_cpu ?a ?b e2 s1] =>
      pose proof (find_cpu_store a b e2 s1) as Fc; destruct (task_numa_find_cpu a b e2 s1) as [e3 s3] end. by etransitivity. }
  destruct (other_node_step p (e1, s1, w) nid) as [[e2 s2] w2]. by apply IH.
Qed.
End Frame.

(** ** Placement *)

Lemma nf_set i v t j : nf (set_nf i v t) j = if bool_decide (numa_faults t = None) then 0 else if decide (i = j) then v else nf t j.
Proof. unfold nf, set_nf. cbn. by destruct (numa_faults t). Qed.
Lemma set_nf_none i v t : numa_faults (set_nf i v t) = None <-> numa_faults t = None.
Proof. unfold set_nf. cbn. by destruct (numa_faults t). Qed.
Lemma ranged_set i v t : u64 v = v -> ranged t -> ranged (set_nf i v t).
Proof.
  intros Hv [A B]. split; [|done]. intros j. rewrite nf_set. case_bool_decide; [done|]. by destruct (decide (i = j)).
Qed.

(** The nodes are numbered below [nr_node_ids]. *)
Class NodesOk `{NumaEnv} : Prop := {
  online_in nid : nid ∈ online_nodes -> 0 <= nid < nr_node_ids;
  node_of_cpu c : 0 <= cpu_to_node c < nr_node_ids }.

(** Other CPUs keep the statistics of groups. *)
Class StopGroups `{NumaEnv} `{StopEnv} : Prop := {
  stop_one_groups c s s' : stop_one_cpu c s = Some s' -> groups_ok s -> groups_ok s';
  stop_two_groups c d s s' : stop_two_cpus c d s = Some s' -> groups_ok s -> groups_ok s' }.

Section Placement.
Context `{NumaEnv} `{BalanceEnv} `{QueueOps} `{WakeEnv} `{WrrConfig} `{SelectEnv} `{StopEnv} `{!NodesOk} `{!StopGroups}.

(** The task after one step of the inner loop. *)
Definition placed_task (nid priv diff f_diff : Z) (t : numa_task) : numa_task :=
  set_nf (task_faults_idx NUMA_CPU nid priv) (u64 (nf t (task_faults_idx NUMA_CPU nid priv) + f_diff))
    (set_nf (task_faults_idx NUMA_MEM nid priv) (u64 (nf t (task_faults_idx NUMA_MEM nid priv) + diff))
      (set_nf (task_faults_idx NUMA_CPUBUF nid priv) 0 (set_nf (task_faults_idx NUMA_MEMBUF nid priv) 0 t)))
    <| total_numa_faults ::= fun n => u64 (n + diff) |>.
Definition placed_delta (nid priv diff f_diff i : Z) : Z :=
  if decide (task_faults_idx NUMA_CPU nid priv = i) then f_diff else if decide (task_faults_idx NUMA_MEM nid priv = i) then diff else 0.

Lemma placed_ranged nid priv d fd t : ranged t -> ranged (placed_task nid priv d fd t).
Proof.
  intros R. unfold placed_task. split; [|cbn; apply u64_u64]. apply (ranged_set _ _ _ (u64_u64 _)), (ranged_set _ _ _ (u64_u64 _)).
  by apply ranged_set, ranged_set.
Qed.
Lemma placed_none nid priv d fd t : numa_faults (placed_task nid priv d fd t) = None <-> numa_faults t = None.
Proof. unfold placed_task. cbn -[set_nf]. by rewrite !set_nf_none. Qed.
Lemma placed_nf nid priv d fd t i :
  0 <= nid < nr_node_ids -> 0 <= priv <= 1 -> stat_idx i -> ranged t -> numa_faults t <> None ->
  nf (placed_task nid priv d fd t) i = u64 (nf t i + placed_delta nid priv d fd i).
Proof.
  intros Hn Hp Hi [R _] Hf.
  change (nf (placed_task nid priv d fd t) i) with (nf (set_nf (task_faults_idx NUMA_CPU nid priv) (u64 (nf t (task_faults_idx NUMA_CPU nid priv) + fd))
    (set_nf (task_faults_idx NUMA_MEM nid priv) (u64 (nf t (task_faults_idx NUMA_MEM nid priv) + d))
      (set_nf (task_faults_idx NUMA_CPUBUF nid priv) 0 (set_nf (task_faults_idx NUMA_MEMBUF nid priv) 0 t)))) i).
  rewrite !nf_set. rewrite !bool_decide_false by (by rewrite ?set_nf_none). unfold placed_delta.
  unfold stat_idx, NR_NUMA_HINT_FAULT_STATS, task_faults_idx, NR_NUMA_HINT_FAULT_TYPES, NUMA_CPU, NUMA_MEM, NUMA_MEMBUF, NUMA_CPUBUF in *.
  destruct (decide (2 * (1 * nr_node_ids + nid) + priv = i)) as [<-|]; [done|]. destruct (decide (2 * (0 * nr_node_ids + nid) + priv = i)) as [<-|]; [done|].
  rewrite !decide_False by lia. by rewrite Z.add_0_r, R.
Qed.

(** The group after it. *)
Definition placed_group (nid priv diff f_diff : Z) (x : numa_group) : numa_group :=
  let mem_idx := task_faults_idx NUMA_MEM nid priv in
  let x := set_gf mem_idx (u64 (ng_faults x mem_idx + diff)) x in
  let i := NR_NUMA_HINT_FAULT_TYPES * nr_node_ids + mem_idx in
  set_gf i (u64 (ng_faults x i + f_diff)) x <| total_faults ::= fun n => u64 (n + diff) |>.
Lemma placed_gf nid priv d fd x i :
  0 <= nid < nr_node_ids -> u64 (ng_faults x i) = ng_faults x i ->
  ng_faults (placed_group nid priv d fd x) i = u64 (ng_faults x i + placed_delta nid priv d fd i).
Proof.
  intros Hn Hi. unfold placed_group, placed_delta, set_gf. cbn.
  unfold task_faults_idx, NR_NUMA_HINT_FAULT_TYPES, NUMA_CPU, NUMA_MEM.
  destruct (decide (2 * (1 * nr_node_ids + nid) + priv = i)) as [<-|Hne].
  - rewrite decide_True by lia. rewrite decide_False by lia. do 3 f_equal. lia.
  - rewrite (decide_False (P := 2 * nr_node_ids + (2 * (0 * nr_node_ids + nid) + priv) = i)) by lia.
    destruct (decide _) as [<-|]; [done|]. by rewrite Z.add_0_r.
Qed.

Lemma placed_groups nid priv d fd p s s' :
  0 <= nid < nr_node_ids -> 0 <= priv <= 1 -> groups_ok s -> nt s' p = placed_task nid priv d fd (nt s p) ->
  (forall q, q <> p -> nt s' q = nt s q) -> nu_freed s' = nu_freed s ->
  (forall g, nu_group s' g = if decide (nt_group (nt s p) = Some g) then placed_group nid priv d fd (nu_group s g) else nu_group s g) ->
  groups_ok s'.
Proof.
  intros Hn Hpr [G R] Ep Eq Ef Eg. split.
  2:{ intros q. destruct (decide (q = p)) as [->|Hq]; [rewrite Ep; apply placed_ranged, R|rewrite Eq by done; apply R]. }
  intros g. destruct (G g) as [M Gm]. exists M. specialize (Eg g). destruct (decide (nt_group (nt s p) = Some g)) as [Hg|Hg].
  - pose proof (go_members _ _ _ Gm p) as Hm. assert (HpM : p ∈ M) by by apply Hm. pose proof (go_faults _ _ _ Gm p HpM) as Hnf.
    assert (Hne : M <> []) by (intros ->; by apply not_elem_of_nil in HpM). destruct (go_tally _ _ _ Gm Hne) as [_ _ _ T4].
    apply (group_shift s s' g M p d (placed_delta nid priv d fd)); try done; rewrite ?Ep, ?Eg; try done.
    + by rewrite placed_none.
    + intros i Hi. by apply placed_nf.
    + intros i Hi. apply placed_gf; [done|]. by rewrite T4, u64_u64.
  - apply (group_keep s); [done|by rewrite Eg| | |rewrite Ef; by left].
    + intros q Hq. apply (go_members _ _ _ Gm) in Hq. rewrite Eq; [done|]. by intros ->.
    + intros q. destruct (decide (q = p)) as [->|Hq]; [by rewrite Ep|by rewrite Eq].
Qed.

Lemma placement_priv_groups p rt pd tot nid a priv :
  0 <= nid < nr_node_ids -> 0 <= priv <= 1 -> groups_ok (pl_s a) -> groups_ok (pl_s (placement_priv p rt pd tot nid a priv)).
Proof.
  intros Hn Hpr G. unfold placement_priv. cbv zeta. set (diff := s64 (_ - nf (nt (pl_s a) p) (task_faults_idx NUMA_MEM nid priv) / 2)).
  set (fd := s64 (_ - nf (nt (pl_s a) p) (task_faults_idx NUMA_CPU nid priv) / 2)). clearbody diff fd.
  set (t := _ <| total_numa_faults ::= _ |>). change t with (placed_task nid priv diff fd (nt (pl_s a) p)).
  assert (Hg : nt_group (placed_task nid priv diff fd (nt (pl_s a) p)) = nt_group (nt (pl_s a) p)) by done.
  destruct (nt_group (placed_task nid priv diff fd (nt (pl_s a) p))) as [g|] eqn:Eg; cbn [pl_s].
  - cbn -[placed_task upd_nt upd_ng]. apply (placed_groups nid priv diff fd p (pl_s a)); try done.
    + unfold nt, upd_nt, upd_ng. cbn -[placed_task]. by rewrite fn_lookup_alter.
    + intros q Hq. unfold nt, upd_nt, upd_ng. cbn -[placed_task]. by rewrite fn_lookup_alter_ne.
    + intros h. unfold upd_nt, upd_ng. cbn -[placed_task]. rewrite <- Hg. destruct (decide (g = h)) as [<-|Hne].
      * by rewrite fn_lookup_alter, (decide_True (P := Some g = Some g)).
      * by rewrite fn_lookup_alter_ne, (decide_False (P := Some g = Some h)) by congruence.
  - cbn -[placed_task upd_nt upd_ng]. apply (placed_groups nid priv diff fd p (pl_s a)); try done.
    + unfold nt, upd_nt. cbn -[placed_task]. by rewrite fn_lookup_alter.
    + intros q Hq. unfold nt, upd_nt. cbn -[placed_task]. by rewrite fn_lookup_alter_ne.
    + intros h. by rewrite <- Hg.
Qed.

Lemma placement_kinds_groups p rt pd tot nid l a :
  0 <= nid < nr_node_ids -> Forall (fun priv => 0 <= priv <= 1) l -> groups_ok (pl_s a) ->
  groups_ok (pl_s (foldl (placement_priv p rt pd tot nid) a l)).
Proof.
  intros Hn Hl. revert a. induction Hl as [|priv l Hp Hl IH]; intros a G; [exact G|]. apply IH. by apply placement_priv_groups.
Qed.

Lemma placement_node_groups p rt pd tot nid a :
  0 <= nid < nr_node_ids -> groups_ok (pl_s a) -> groups_ok (pl_s (placement_node p rt pd tot a nid)).
Proof.
  intros Hn G. unfold placement_node. cbv zeta.
  pose proof (placement_kinds_groups p rt pd tot nid [0; 1] (a <| pl_faults := 0 |> <| pl_group_faults := 0 |>) Hn) as K.
  destruct (foldl _ _ [0; 1]) as [s ft pf gf mf mn mgf mgn]. cbn [pl_s] in K.
  assert (G2 : groups_ok s) by (apply K; [by repeat constructor|exact G]). clear K. cbn [max_faults pl_faults].
  destruct (mf <? pf); cbn; destruct (mgf <? gf); exact G2.
Qed.

Lemma placement_groups p rt pd tot l a :
  (forall nid, nid ∈ l -> 0 <= nid < nr_node_ids) -> groups_ok (pl_s a) -> groups_ok (pl_s (foldl (placement_node p rt pd tot) a l)).
Proof.
  revert a. induction l as [|nid l IH]; intros a Hl G; [exact G|]. cbn [foldl]. apply IH; [intros n Hn; apply Hl; by right|].
  apply placement_node_groups; [apply Hl; by left|exact G].
Qed.

Lemma scan_period_books p sh pr s s' : update_task_scan_period p sh pr s = Some s' -> same_books s s'.
Proof.
  unfold update_task_scan_period. cbv zeta. destruct (_ || _).
  - set (s1 := upd_nt p _ s). assert (B1 : same_books s s1) by (by apply books_nt). clearbody s1. intros [= <-].
    destruct (nt_mm (nt s p)); [|done]. etransitivity; [exact B1|]. by apply store_books.
  - destruct (period_diff _ _ _ _ _); [|done]. cbn [mbind option_bind]. intros [= <-]. by apply books_nt.
Qed.

Lemma migrate_swap_groups p q s : groups_ok s -> groups_ok (migrate_swap p q s).1.
Proof.
  intros G. unfold migrate_swap. cbv zeta. destruct (_ =? _); [done|]. destruct (_ || _); [done|]. destruct (negb _); [done|].
  destruct (negb _); [done|]. destruct (stop_two_cpus _ _ s) as [s1|] eqn:E; [|done]. pose proof (stop_two_groups _ _ _ _ E G) as G1.
  unfold migrate_swap_stop. destruct (_ || _); [done|]. destruct (negb _); [done|]. cbn [fst].
  eapply books_ok; [|exact G1]. apply store_books. etransitivity; apply swap_task_store.
Qed.

Lemma migrate_groups p s s' ret : task_numa_migrate p s = Some (s', ret) -> groups_ok s -> groups_ok s'.
Proof.
  intros E G. unfold task_numa_migrate in E. destruct (sd_numa _) as [d|].
  2:{ injection E as <- _. eapply books_ok; [|exact G]. by apply books_nt. }
  cbv zeta in E. set (pct := s32 _) in E. clearbody pct. pose proof (search_store p pct s) as Ss. destruct (numa_search p pct s) as [env s1].
  cbn [snd] in Ss. apply store_books in Ss. pose proof (books_ok _ _ Ss G) as G1.
  set (s2 := match nt_group (nt s1 p) with Some _ => _ | None => s1 end) in E.
  assert (G2 : groups_ok s2).
  { unfold s2. destruct (nt_group _); [|done]. destruct (_ && _); [|done]. eapply books_ok; [apply setnuma_books|done]. }
  clearbody s2. destruct (_ =? -1); [by injection E as <- _|]. set (s3 := upd_nt p _ s2) in E.
  assert (G3 : groups_ok s3) by (eapply books_ok; [|exact G2]; by apply books_nt). clearbody s3. destruct (best_task env) as [q|].
  - pose proof (migrate_swap_groups p q s3 G3) as G4. destruct (migrate_swap p q s3) as [s4 r]. injection E as <- _.
    eapply books_ok; [|exact G4]. by apply store_books.
  - unfold migrate_task_to in E. cbv zeta in E. destruct (_ =? _); [by injection E as <- _|]. destruct (negb _); [by injection E as <- _|].
    destruct (stop_one_cpu _ s3) as [s4|] eqn:E4; [|by injection E as <- _]. pose proof (stop_one_groups _ _ _ E4 G3) as G4.
    destruct (numa_migration_cpu_stop _ _ _ s4) as [s5|] eqn:E5; [|done]. injection E as <- _.
    eapply books_ok; [|exact G4]. apply store_books. by eapply cpu_stop_store.
Qed.

Lemma migrate_preferred_groups p s s' : numa_migrate_preferred p s = Some s' -> groups_ok s -> groups_ok s'.
Proof.
  unfold numa_migrate_preferred. destruct (_ || _); [by intros [= <-]|]. cbv zeta. set (s1 := upd_nt p _ s). intros E G.
  assert (G1 : groups_ok s1) by (eapply books_ok; [|exact G]; by apply books_nt). clearbody s1.
  destruct (_ =? _); [by injection E as <-|]. destruct (task_numa_migrate p s1) as [[s2 r]|] eqn:E2; [|done]. injection E as <-. by eapply migrate_groups.
Qed.

Lemma task_placement_groups p s s' : task_numa_placement p s = Some s' -> groups_ok s -> groups_ok s'.
Proof.
  unfold task_numa_placement. destruct (nt_mm (nt s p)) as [m|]; [|done]. cbv zeta. destruct (_ =? _); [by intros [= <-]|].
  set (s1 := upd_nt p (fun t => t <| numa_scan_period_max := _ |>) _). intros E G.
  assert (G1 : groups_ok s1) by (unfold s1; do 2 (eapply books_ok; [by apply books_nt|]); done). clearbody s1.
  set (s2 := (numa_get_avg_runtime p s1).1.1). assert (G2 : groups_ok s2).
  { unfold s2, numa_get_avg_runtime. cbv zeta. destruct (if negb _ then _ else _) as [de pe]. cbn [fst]. eapply books_ok; [by apply books_nt|done]. }
  unfold s2 in *. clear s2. destruct (numa_get_avg_runtime p s1) as [[s2 rt] pd]. cbn [fst] in G2. destruct (_ || _); [done|].
  set (a := foldl _ _ online_nodes) in E. assert (G3 : groups_ok (pl_s a)) by (apply placement_groups; [apply online_in|done]). clearbody a.
  destruct (update_task_scan_period _ _ _ (pl_s a)) as [s3|] eqn:E3; [|done]. cbn [mbind option_bind] in E.
  pose proof (books_ok _ _ (scan_period_books _ _ _ _ _ E3) G3) as G4.
  set (x := match nt_group (nt s3 p) with Some _ => _ | None => _ end) in E.
  assert (G5 : groups_ok x.1).
  { unfold x. destruct (nt_group (nt s3 p)); [|done]. cbn [fst]. eapply books_ok; [|exact G4]. by apply books_ng. }
  clearbody x. destruct x as [s4 nid]. cbn [fst] in G5. destruct (max_faults a =? 0); [by injection E as <-|].
  set (s5 := if negb (nid =? _) then _ else s4) in E. assert (G6 : groups_ok s5).
  { unfold s5. destruct (negb _); [|done]. eapply books_ok; [apply setnuma_books|done]. }
  clearbody s5. destruct (negb _); [by eapply migrate_preferred_groups|by injection E as <-].
Qed.
End Placement.

(** ** Joining and leaving *)

(** The memory of a new group is not that of a group in use. *)
Class AllocSpec `{NumaEnv} `{FaultEnv} : Prop :=
  alloc_fresh s g : groups_ok s -> kzalloc_group s = Some g -> forall p, nt_group (nt s p) <> Some g.

Section Membership.
Context `{NumaEnv} `{FaultEnv} `{!AllocSpec}.

Lemma put_spec g s :
  nu_task (put_numa_group g s) = nu_task s /\ nu_group (put_numa_group g s) = alter (fun x => x <| ng_refcount ::= Z.pred |>) g (nu_group s) /\
  nu_freed (put_numa_group g s) = (if ng_refcount (nu_group s g) - 1 =? 0 then [g] else []) ++ nu_freed s.
Proof.
  unfold put_numa_group. cbv zeta. assert (E : ng_refcount (nu_group (upd_ng g (fun x => x <| ng_refcount ::= Z.pred |>) s) g) = ng_refcount (nu_group s g) - 1).
  { unfold upd_ng. cbn. rewrite fn_lookup_alter. cbn. lia. }
  rewrite E. by destruct (_ =? 0).
Qed.

Lemma u64_minus_one_mul n t : u64 (n + -1 * t) = u64 (n - t).
Proof. by replace (n + -1 * t) with (n - t) by lia. Qed.

Lemma leave_group x t : left_group x (add_faults (-1) t x <| ng_refcount ::= Z.pred |>) t.
Proof.
  split_and!; cbn; [lia|lia|apply u64_minus_one_mul|]. intros i Hi. rewrite decide_True by done. apply u64_minus_one_mul.
Qed.
Lemma enter_group x t : entered x (add_faults 1 t (x <| ng_refcount ::= Z.succ |>)) t.
Proof.
  split_and!; cbn; [lia|lia|f_equal; lia|]. intros i Hi. rewrite decide_True by done. f_equal. lia.
Qed.

(** What the tasks look like when only the group of [p] has changed. *)
Definition regrouped (p : Z) (og : option Z) (s s' : numa_state) : Prop :=
  (forall q, q <> p -> nt s' q = nt s q) /\ nt s' p = nt s p <| nt_group := og |>.

Lemma regrouped_ranged p og s s' : regrouped p og s s' -> groups_ok s -> forall q, ranged (nt s' q).
Proof. intros [A B] G q. destruct (decide (q = p)) as [->|Hq]; [rewrite B; apply (gs_ranged _ G p)|rewrite A by done; apply (gs_ranged _ G)]. Qed.

(** A group that has nothing to do with it. *)
Lemma regroup_keep p og s s' g M :
  regrouped p og s s' -> group_ok s g M -> nt_group (nt s p) <> Some g -> og <> Some g ->
  nu_group s' g = nu_group s g -> (g ∈ nu_freed s' -> g ∈ nu_freed s) -> group_ok s' g M.
Proof.
  intros [A B] Gm Hp Ho Eg Ef. apply (group_keep s); [done|by rewrite Eg| | |intros Hf; left; by apply Ef].
  - intros q Hq. apply (go_members _ _ _ Gm) in Hq. rewrite A; [done|]. by intros ->.
  - intros q. destruct (decide (q = p)) as [->|Hq]; [rewrite B; cbn; congruence|by rewrite A].
Qed.

Lemma new_group_ok p g s : kzalloc_group s = Some g -> numa_faults (nt s p) <> None -> nt_group (nt s p) = None ->
  groups_ok s -> groups_ok (new_numa_group p g s).
Proof.
  intros Ea Hnf Hno G. pose proof (alloc_fresh s g G Ea) as Hfresh. set (s' := new_numa_group p g s).
  assert (Rg : regrouped p (Some g) s s').
  { split; [intros q Hq|]; unfold s', new_numa_group, upd_nt, upd_ng, nt; cbn; [by rewrite fn_lookup_alter_ne|by rewrite fn_lookup_alter]. }
  assert (Ef : nu_freed s' = filter (fun x => x <> g) (nu_freed s)) by done.
  assert (Eg : nu_group s' = alter (fun _ => mkNumaGroup 1 1 p 1 (total_numa_faults (nt s p)) 0
     (fun i => if decide (0 <= i < NR_NUMA_HINT_FAULT_STATS * nr_node_ids) then nf (nt s p) i else 0)) g (nu_group s)) by done.
  clearbody s'. split; [|by eapply regrouped_ranged]. intros h. destruct (gs_group _ G h) as [M Gm]. destruct (decide (h = g)) as [->|Hne].
  - destruct Rg as [A B]. destruct (gs_ranged _ G p) as [R1 R2]. exists [p]. split.
    + apply NoDup_singleton.
    + intros q. rewrite list_elem_of_singleton. destruct (decide (q = p)) as [->|Hq]; [by rewrite B|rewrite A by done]. split; [done|]. by intros ?%Hfresh.
    + intros q ->%list_elem_of_singleton. by rewrite B.
    + intros _. rewrite Ef, list_elem_of_filter. tauto.
    + intros _. rewrite Eg, fn_lookup_alter. split; cbn; [done|done| |].
      * rewrite B. cbn. by rewrite Z.add_0_r, R2.
      * intros i Hi. rewrite decide_True, B, Z.add_0_r by done. symmetry. apply R1.
  - exists M. eapply regroup_keep; [done|done|by rewrite Hno|congruence|by rewrite Eg, fn_lookup_alter_ne|]. rewrite Ef, list_elem_of_filter. tauto.
Qed.


Lemma join_group_ok p my grp q s s1 :
  groups_ok s -> nt_group (nt s p) = Some my -> nt_group (nt s q) = Some grp -> grp <> my -> get_numa_group grp s = Some s1 ->
  groups_ok (join_numa_group p my grp s1).
Proof.
  intros G Hp Hq Hne Hget. unfold get_numa_group in Hget. destruct (_ =? 0); [done|]. injection Hget as <-.
  unfold join_numa_group. cbv zeta. set (s1 := upd_ng grp _ s). set (s2 := upd_nt p _ _). destruct (put_spec my s2) as (Et & Eg & Ef).
  set (s' := put_numa_group my s2) in *. clearbody s'. change (nt s1 p) with (nt s p) in s2.
  assert (Rg : regrouped p (Some grp) s s').
  { split; [intros r Hr|]; unfold nt; rewrite Et; unfold s2, s1, upd_nt, upd_ng; cbn; [by rewrite fn_lookup_alter_ne|by rewrite fn_lookup_alter]. }
  assert (Emy : nu_group s' my = add_faults (-1) (nt s p) (nu_group s my) <| ng_refcount ::= Z.pred |>).
  { rewrite Eg, fn_lookup_alter. f_equal. unfold s2, s1, upd_nt, upd_ng. cbn -[add_faults]. by rewrite fn_lookup_alter_ne, fn_lookup_alter, fn_lookup_alter_ne by done. }
  assert (Egr : nu_group s' grp = add_faults 1 (nt s p) (nu_group s grp <| ng_refcount ::= Z.succ |>)).
  { rewrite Eg, fn_lookup_alter_ne by done. unfold s2, s1, upd_nt, upd_ng. cbn -[add_faults]. by rewrite fn_lookup_alter, fn_lookup_alter_ne, fn_lookup_alter by done. }
  assert (Eo : forall h, h <> my -> h <> grp -> nu_group s' h = nu_group s h).
  { intros h Hn1 Hn2. rewrite Eg, fn_lookup_alter_ne by done. unfold s2, s1, upd_nt, upd_ng. cbn -[add_faults]. by rewrite !fn_lookup_alter_ne. }
  assert (Er : ng_refcount (nu_group s2 my) - 1 = ng_refcount (nu_group s' my)).
  { rewrite Eg, fn_lookup_alter. cbn -[nu_group]. lia. }
  assert (Hf : forall h, h ∈ nu_freed s' -> h = my /\ ng_refcount (nu_group s' my) = 0 \/ h ∈ nu_freed s).
  { intros h. rewrite Ef, Er, elem_of_app. change (nu_freed s2) with (nu_freed s). destruct (Z.eqb_spec (ng_refcount (nu_group s' my)) 0); [|set_solver].
    rewrite list_elem_of_singleton. tauto. }
  clear Et Eg Ef Er s1 s2. pose proof Rg as [A B]. split; [|by eapply regrouped_ranged]. intros h.
  destruct (gs_group _ G h) as [M Gm]. destruct (decide (h = my)) as [->|Hn1]; [|destruct (decide (h = grp)) as [->|Hn2]].
  - exists (filter (fun r => r <> p) M). apply (group_leave s); [done| | |done| |].
    + by apply (go_members _ _ _ Gm).
    + rewrite B. cbn. congruence.
    + rewrite Emy. apply leave_group.
    + intros Hh%Hf. tauto.
  - assert (HM : M <> []) by (intros ->; apply (go_members _ _ _ Gm) in Hq; by apply not_elem_of_nil in Hq).
    exists (p :: M). apply (group_enter s); [done|done|congruence|by rewrite B| |done| |].
    + rewrite B. cbn. destruct (gs_group _ G my) as [M1 G1]. apply (go_faults _ _ _ G1). by apply (go_members _ _ _ G1).
    + rewrite Egr, B. exact (enter_group (nu_group s grp) (nt s p)).
    + intros Hh%Hf. destruct Hh as [[-> _]|Hh]; [done|]. by apply (go_freed _ _ _ Gm HM).
  - exists M. eapply regroup_keep; [done|done|congruence|congruence|by apply Eo|]. intros Hh%Hf. naive_solver.
Qed.

Lemma task_group_ok p cpupid fl priv s :
  numa_faults (nt s p) <> None -> groups_ok s -> groups_ok (task_numa_group p cpupid fl priv s).1.
Proof.
  intros Hnf G. unfold task_numa_group. cbv zeta. set (s1 := match nt_group (nt s p) with Some _ => s | None => _ end).
  assert (G1 : groups_ok s1).
  { unfold s1. destruct (nt_group (nt s p)) eqn:Eg; [done|]. destruct (kzalloc_group s) eqn:Ea; [|done]. by apply new_group_ok. }
  clearbody s1. destruct (nt_group (nt s1 p)) as [my|] eqn:Ep; [|done]. destruct (negb _); [done|].
  set (tsk := curr _). destruct (nt_group (nt s1 tsk)) as [grp|] eqn:Et; [|done].
  destruct (Z.eqb_spec grp my) as [|Hne]; [done|]. destruct (_ || _); [done|]. destruct (negb _); [done|].
  destruct (get_numa_group grp s1) as [s2|] eqn:E2; [|done]. by eapply (join_group_ok p my grp tsk s1).
Qed.

Lemma free_group_ok p s : groups_ok s -> groups_ok (task_numa_free p s).
Proof.
  intros G. unfold task_numa_free. cbv zeta. set (s1 := match nt_group (nt s p) with Some _ => _ | None => s end).
  assert (G1 : groups_ok s1 /\ nt_group (nt s1 p) = None).
  { unfold s1. destruct (nt_group (nt s p)) as [g|] eqn:Ep; [|done]. set (s2 := upd_nt p _ _). destruct (put_spec g s2) as (Et & Eg & Ef).
    set (s' := put_numa_group g s2) in *. clearbody s'.
    assert (Rg : regrouped p None s s').
    { split; [intros r Hr|]; unfold nt; rewrite Et; unfold s2, upd_nt, upd_ng; cbn; [by rewrite fn_lookup_alter_ne|by rewrite fn_lookup_alter]. }
    assert (Egg : nu_group s' g = add_faults (-1) (nt s p) (nu_group s g) <| ng_refcount ::= Z.pred |>).
    { rewrite Eg, fn_lookup_alter. f_equal. unfold s2, upd_nt, upd_ng. cbn -[add_faults]. by rewrite fn_lookup_alter. }
    assert (Eo : forall h, h <> g -> nu_group s' h = nu_group s h).
    { intros h Hh. rewrite Eg, fn_lookup_alter_ne by done. unfold s2, upd_nt, upd_ng. cbn -[add_faults]. by rewrite fn_lookup_alter_ne. }
    assert (Er : ng_refcount (nu_group s2 g) - 1 = ng_refcount (nu_group s' g)) by (rewrite Eg, fn_lookup_alter; cbn -[nu_group]; lia).
    assert (Hf : forall h, h ∈ nu_freed s' -> h = g /\ ng_refcount (nu_group s' g) = 0 \/ h ∈ nu_freed s).
    { intros h. rewrite Ef, Er, elem_of_app. change (nu_freed s2) with (nu_freed s). destruct (Z.eqb_spec (ng_refcount (nu_group s' g)) 0); [|set_solver].
      rewrite list_elem_of_singleton. tauto. }
    clear Et Eg Ef Er s2 s1. pose proof Rg as [A B]. split; [|by rewrite B]. split; [|by eapply regrouped_ranged]. intros h.
    destruct (gs_group _ G h) as [M Gm]. destruct (decide (h = g)) as [->|Hn1].
    - exists (filter (fun r => r <> p) M). apply (group_leave s); [done|by apply (go_members _ _ _ Gm)|by rewrite B|done|rewrite Egg; apply leave_group|].
      intros Hh%Hf. tauto.
    - exists M. eapply regroup_keep; [done|done|congruence|done|by apply Eo|]. intros Hh%Hf. naive_solver. }
  clearbody s1. destruct G1 as [G1 Hno]. set (s' := upd_nt p _ s1).
  assert (A : forall q, q <> p -> nt s' q = nt s1 q) by (intros q Hq; unfold s', nt, upd_nt; cbn; by rewrite fn_lookup_alter_ne).
  assert (B : nt s' p = nt s1 p <| numa_faults := None |>) by (unfold s', nt, upd_nt; cbn; by rewrite fn_lookup_alter).
  split.
  - intros h. destruct (gs_group _ G1 h) as [M Gm]. exists M. apply (group_keep s1); [done|done| | |by left].
    + intros q Hq. apply (go_members _ _ _ Gm) in Hq. rewrite A; [done|]. intros ->. congruence.
    + intros q. destruct (decide (q = p)) as [->|Hq]; [by rewrite B|by rewrite A].
  - intros q. destruct (decide (q = p)) as [->|Hq]; [|rewrite A by done; apply (gs_ranged _ G1)]. rewrite B.
    split; [done|]. apply (gs_ranged _ G1 p).
Qed.

(** The current counters are beyond the averaged ones. *)
Lemma buf_no_stat k nid priv : 2 <= k -> 0 <= nid < nr_node_ids -> ~ stat_idx (task_faults_idx k nid (Z.b2z priv)).
Proof.
  intros Hk Hn [_ Hi]. unfold task_faults_idx, NR_NUMA_HINT_FAULT_STATS, NR_NUMA_HINT_FAULT_TYPES in Hi.
  assert (0 <= Z.b2z priv) by (by destruct priv). nia.
Qed.

Lemma set_buf_stats i v t : ~ stat_idx i -> u64 v = v -> same_stats t (set_nf i v t) /\ (ranged t -> ranged (set_nf i v t)).
Proof.
  intros Hi Hv. split; [|by apply ranged_set]. split_and!; [done|by rewrite set_nf_none|done|]. intros j Hj. rewrite nf_set.
  case_bool_decide as E; [unfold nf; by rewrite E|]. rewrite decide_False; [done|]. by intros ->.
Qed.

Lemma count_fault_books p mem cpu pages fl priv local s :
  0 <= mem < nr_node_ids -> 0 <= cpu < nr_node_ids -> same_books s (count_fault p mem cpu pages fl priv local s).
Proof.
  intros Hm Hc. unfold count_fault. apply books_nt. intros t0. cbv zeta.
  set (t1 := if has_flag fl TNF_MIGRATED then _ else t0). set (t2 := if has_flag fl TNF_MIGRATE_FAIL then _ else t1).
  assert (S2 : same_stats t0 t2 /\ (ranged t0 -> ranged t2)) by (unfold t2, t1; by destruct (has_flag fl TNF_MIGRATED), (has_flag fl TNF_MIGRATE_FAIL)).
  clearbody t2. clear t1. pose proof (set_buf_stats _ (u64 (nf t2 (task_faults_idx NUMA_MEMBUF mem (Z.b2z priv)) + pages)) t2
    (buf_no_stat NUMA_MEMBUF mem priv ltac:(done) Hm) (u64_u64 _)) as S3. set (t3 := set_nf _ _ t2) in *. clearbody t3.
  pose proof (set_buf_stats _ (u64 (nf t3 (task_faults_idx NUMA_CPUBUF cpu (Z.b2z priv)) + pages)) t3
    (buf_no_stat NUMA_CPUBUF cpu priv ltac:(done) Hc) (u64_u64 _)) as S4. set (t4 := set_nf _ _ t3) in *. clearbody t4.
  assert (S : same_stats t0 t4 /\ (ranged t0 -> ranged t4)).
  { destruct S2 as [S2 R2], S3 as [S3 R3], S4 as [S4 R4]. split; [etransitivity; [exact S2|by etransitivity]|tauto]. }
  by destruct local.
Qed.
End Membership.

(** ** Faults and exits *)

Section Run.
Context `{NumaEnv} `{BalanceEnv} `{QueueOps} `{WakeEnv} `{WrrConfig} `{SelectEnv} `{StopEnv} `{FaultEnv}.
Context `{!NodesOk} `{!StopGroups} `{!AllocSpec}.

Lemma fresh_buffers_ok p s : numa_faults (nt s p) = None -> groups_ok s ->
  groups_ok (upd_nt p (fun t => t <| numa_faults := Some (fun _ => 0) |> <| total_numa_faults := 0 |>
                                <| faults_remote := 0 |> <| faults_local := 0 |> <| faults_failed := 0 |>) s).
Proof.
  intros Hno G. set (s' := upd_nt p _ s).
  assert (A : forall q, q <> p -> nt s' q = nt s q) by (intros q Hq; unfold s', nt, upd_nt; cbn; by rewrite fn_lookup_alter_ne).
  assert (B : numa_faults (nt s' p) = Some (fun _ => 0) /\ total_numa_faults (nt s' p) = 0 /\ nt_group (nt s' p) = nt_group (nt s p))
    by (unfold s', nt, upd_nt; cbn; by rewrite fn_lookup_alter).
  destruct B as (B1 & B2 & B3). split.
  - intros h. destruct (gs_group _ G h) as [M Gm]. exists M. apply (group_keep s); [done|done| | |by left].
    + intros q Hq. pose proof (go_faults _ _ _ Gm q Hq) as Hf. rewrite A; [done|]. by intros ->.
    + intros q. destruct (decide (q = p)) as [->|Hq]; [by rewrite B3|by rewrite A].
  - intros q. destruct (decide (q = p)) as [->|Hq]; [|rewrite A by done; apply (gs_ranged _ G)]. split; [intros i; unfold nf; by rewrite B1|by rewrite B2].
Qed.

Lemma fault_ok lc mem pages fl s s' :
  0 <= mem < nr_node_ids -> task_numa_fault lc mem pages fl s = Some s' -> groups_ok s -> groups_ok s'.
Proof.
  intros Hm E G. unfold task_numa_fault in E. cbv zeta in E. set (p := current (nu_k s)) in *. destruct (_ || _); [by injection E as <-|].
  destruct (_ && _); [by injection E as <-|]. set (s1 := if bool_decide (numa_faults (nt s p) = None) then _ else s) in E.
  assert (G1 : groups_ok s1 /\ numa_faults (nt s1 p) <> None).
  { unfold s1. case_bool_decide as Hno; [|done]. split; [by apply fresh_buffers_ok|]. unfold nt, upd_nt. cbn. by rewrite fn_lookup_alter. }
  clearbody s1. destruct G1 as [G1 Hnf].
  set (x := if lc =? last_cpupid_unset then (s1, true) else _) in E. assert (G2 : groups_ok x.1).
  { unfold x. destruct (_ =? _); [done|]. destruct (_ && _); [by apply task_group_ok|done]. }
  clearbody x. destruct x as [s2 priv]. cbn [fst] in G2. set (local := _ || _) in E. clearbody local.
  destruct (task_numa_placement p s2) as [s3|] eqn:E3; [|done]. cbn [mbind option_bind] in E.
  pose proof (task_placement_groups _ _ _ E3 G2) as G3.
  set (y := if time_after _ _ then _ else _) in E. destruct y as [s4|] eqn:E4; [|done]. cbn [mbind option_bind] in E. injection E as <-.
  assert (G4 : groups_ok s4).
  { unfold y in E4. destruct (time_after _ _); [by eapply migrate_preferred_groups|by injection E4 as <-]. }
  eapply books_ok; [|exact G4]. apply count_fault_books; [done|apply node_of_cpu].
Qed.

(** A new task starts without statistics. *)
Lemma fork_ok parent p users vm s : nt_group (nt s p) = None -> groups_ok s -> groups_ok (sched_fork_numa parent p users vm s).
Proof.
  intros Hno G. unfold sched_fork_numa. cbv zeta. set (s1 := match nt_mm (nt s parent) with Some _ => _ | None => s end).
  assert (B1 : same_store s s1) by (unfold s1; destruct (nt_mm _); [destruct (_ =? 1)|]; done). clearbody s1.
  assert (En : forall q, nt s1 q = nt s q) by (intros q; unfold nt; by rewrite (proj1 B1)).
  pose proof (books_ok _ _ (store_books _ _ B1) G) as G1. clear B1. rewrite <- En in Hno. set (f := fun _ : numa_task => _). set (s' := upd_nt p f s1).
  assert (A : forall q, q <> p -> nt s' q = nt s1 q) by (intros q Hq; unfold s', nt, upd_nt; cbn -[f]; by rewrite fn_lookup_alter_ne).
  assert (B : nt_group (nt s' p) = None /\ numa_faults (nt s' p) = None /\ total_numa_faults (nt s' p) = total_numa_faults (nt s parent))
    by (unfold s', nt, upd_nt; cbn -[f]; by rewrite fn_lookup_alter).
  destruct B as (B1 & B2 & B3). split.
  - intros h. destruct (gs_group _ G1 h) as [M Gm]. exists M. apply (group_keep s1); [done|done| | |by left].
    + intros q Hq. apply (go_members _ _ _ Gm) in Hq. rewrite A; [done|]. intros ->. congruence.
    + intros q. destruct (decide (q = p)) as [->|Hq]; [by rewrite B1|by rewrite A].
  - intros q. destruct (decide (q = p)) as [->|Hq]; [|rewrite A by done; apply (gs_ranged _ G1)].
    split; [intros i; unfold nf; by rewrite B2|]. rewrite B3. apply (gs_ranged _ G parent).
Qed.

(** What happens to tasks: faults, forks, exits, and anything that does not touch the
    averaged statistics, the groups and the freed groups. *)
Inductive numa_step : numa_state -> numa_state -> Prop :=
  | step_fault lc mem pages fl s s' : 0 <= mem < nr_node_ids -> task_numa_fault lc mem pages fl s = Some s' -> numa_step s s'
  | step_fork parent p users vm s : nt_group (nt s p) = None -> numa_step s (sched_fork_numa parent p users vm s)
  | step_exit p s : numa_step s (task_numa_free p s)
  | step_tick p s : numa_step s (task_tick_numa p s)
  | step_scanned p s : numa_step s (reset_ptenuma_scan p s)
  | step_elsewhere s s' : same_books s s' -> numa_step s s'.

Lemma tick_books p s : same_books s (task_tick_numa p s).
Proof.
  unfold task_tick_numa. destruct (nt_mm (nt s p)) as [m|]; [|done]. destruct (_ || _); [done|]. cbv zeta. destruct (_ <=? _); [done|].
  set (s1 := if node_stamp (nt s p) =? 0 then _ else s). assert (B1 : same_books s s1) by (unfold s1; destruct (_ =? 0); [by apply books_nt|done]).
  clearbody s1. set (s2 := upd_nt p (fun t => t <| node_stamp ::= _ |>) s1).
  assert (B2 : same_books s s2) by (etransitivity; [exact B1|by apply books_nt]). clearbody s2.
  destruct (negb _); [|done]. etransitivity; [exact B2|by apply books_nt].
Qed.

(** C18: Through any sequence of hinting faults, placements, moves, joins, forks
    and exits, every group's averaged faults and total are the sums of those of its
    members modulo 2^64, its task count and its reference count are the number of
    its members, and no member's group has been freed. *)
Theorem numa_groups_are_sums s s' g :
  rtc numa_step s s' -> groups_ok s ->
  exists M, NoDup M /\ (forall p, p ∈ M <-> nt_group (nt s' p) = Some g) /\
    (M <> [] -> (g ∉ nu_freed s') /\ ng_refcount (nu_group s' g) = Z.of_nat (length M) /\ ng_nr_tasks (nu_group s' g) = Z.of_nat (length M) /\
       total_faults (nu_group s' g) = u64 (sum_of (fun p => total_numa_faults (nt s' p)) M) /\
       forall i, stat_idx i -> ng_faults (nu_group s' g) i = u64 (sum_of (fun p => nf (nt s' p) i) M)).
Proof.
  intros Hs G. assert (G' : groups_ok s').
  { induction Hs as [|s s1 s2 Hst _ IH]; [done|]. apply IH. clear IH. destruct Hst.
    - by eapply fault_ok.
    - by apply fork_ok.
    - by apply free_group_ok.
    - eapply books_ok; [apply tick_books|done].
    - eapply books_ok; [|done]. apply store_books. unfold reset_ptenuma_scan. by destruct (nt_mm _).
    - by eapply books_ok. }
  destruct (gs_group _ G' g) as [M [A B C D E]]. exists M. split_and!; [done|done|]. intros Hne. destruct (E Hne) as [T1 T2 T3 T4]. split_and!; [by apply D|done..].
Qed.
End Run.

(** ** What balancing reads off the counts *)

Lemma count_all (f : Z -> bool) l : sum_of (fun p => Z.b2z (f p)) l <= Z.of_nat (length l) /\
  (sum_of (fun p => Z.b2z (f p)) l = Z.of_nat (length l) <-> forall p, p ∈ l -> f p = true).
Proof.
  induction l as [|a l [IH1 IH2]]; [split; [done|]; split; [by intros _ p ?%not_elem_of_nil|done]|].
  cbn [length]. change (sum_of (fun p => Z.b2z (f p)) (a :: l)) with (Z.b2z (f a) + sum_of (fun p => Z.b2z (f p)) l).
  setoid_rewrite elem_of_cons. destruct (f a) eqn:E; cbn [Z.b2z]; (split; [lia|]).
  - split; [|intros Hall; assert (sum_of (fun p => Z.b2z (f p)) l = Z.of_nat (length l)) by (apply IH2; auto); lia].
    intros Hs p [->|Hp]; [done|]. apply IH2; [lia|done].
  - split; [lia|]. intros Hall. specialize (Hall a (or_introl eq_refl)). congruence.
Qed.

(** With exact counts, on a CPU with fair tasks only, the class of a run queue
    says whether it has a task without a preferred node, or else one away from
    its node. *)
Lemma classify_rq_means `{NumaEnv} s c :
  counts_ok s -> Z.of_nat (length (queued_on s c)) < 2 ^ 32 -> nr_running (rqs (nu_k s) c) = Z.of_nat (length (queued_on s c)) ->
  (numa_fbq_classify_rq s c <> fbq_regular <-> forall p, p ∈ queued_on s c -> numa_preferred_nid (nt s p) <> -1) /\
  (numa_fbq_classify_rq s c = fbq_all -> forall p, p ∈ queued_on s c -> numa_preferred_nid (nt s p) = cpu_to_node c).
Proof.
  intros C Hl Hn. destruct (C c) as [C1 C2]. unfold numa_fbq_classify_rq, numa_fbq_classify. rewrite Hn, C1, C2. unfold prefers, at_home.
  destruct (count_all (fun p => negb (numa_preferred_nid (nt s p) =? -1)) (queued_on s c)) as [L1 A1].
  destruct (count_all (fun p => numa_preferred_nid (nt s p) =? cpu_to_node c) (queued_on s c)) as [L2 A2].
  assert (P1 : 0 <= sum_of (fun p => Z.b2z (negb (numa_preferred_nid (nt s p) =? -1))) (queued_on s c)) by (apply sum_of_nonneg; intros; by destruct (negb _)).
  assert (P2 : 0 <= sum_of (fun p => Z.b2z (numa_preferred_nid (nt s p) =? cpu_to_node c)) (queued_on s c)) by (apply sum_of_nonneg; intros; by destruct (_ =? _)).
  rewrite !u32_id by lia. setoid_rewrite negb_true_iff in A1. setoid_rewrite Z.eqb_neq in A1. setoid_rewrite Z.eqb_eq in A2.
  destruct (Z.ltb_spec (sum_of (fun p => Z.b2z (negb (numa_preferred_nid (nt s p) =? -1))) (queued_on s c)) (Z.of_nat (length (queued_on s c)))).
  - split; [|done]. split; [done|]. intros Hall%A1. lia.
  - destruct (Z.ltb_spec (sum_of (fun p => Z.b2z (numa_preferred_nid (nt s p) =? cpu_to_node c)) (queued_on s c)) (Z.of_nat (length (queued_on s c)))).
    + split; [|done]. split; [intros _; apply A1; lia|done].
    + split; [split; [intros _; apply A1; lia|done]|intros _; apply A2; lia].
Qed.

(** ** Examples *)

(** Tasks 0 and 1 run on CPUs 0 and 1.  Task 0 faults on a page that task 1 used
    last and gets a group; then task 1 faults on a page that task 0 used last. *)
Section Demo.
#[local] Instance demo_ops : QueueOps := no_ops.
#[local] Instance demo_config : WrrConfig := {| WRR_TIMESLICE := 10; MAX_CPUS := 8; HZ := 100 |}.
#[local] Instance demo_wake_env : WakeEnv :=
  {| cpumask_of_node _ := None; CONFIG_CPUSETS := false; cpuset_cpus_allowed_fallback _ k := k; sd_llc_id _ := 0;
     feat_TTWU_QUEUE := false; domain_spans _ := []; wq_worker_sleeping _ _ := None; signal_pending_state _ _ _ := false |}.
#[local] Instance demo_select_env : SelectEnv :=
  {| sd_llc c := Some c; sd_llc_size _ := 2; sd_llc_shared _ := Some 0; cpu_smt_mask c := {[c]}; sched_smt_present := false;
     idle_get_state _ := None; scan_time := 100; feat_WA_IDLE := true; feat_WA_WEIGHT := true; feat_WA_BIAS := true;
     feat_SIS_AVG_CPU := false; feat_SIS_PROP := true |}.
#[local] Instance demo_stop_env : StopEnv := {| stop_one_cpu _ s := Some s; stop_two_cpus _ _ s := Some s |}.
#[local] Instance demo_nodes : NumaEnv :=
  {| nr_node_ids := 2; online_nodes := [0; 1]; cpu_to_node c := c `mod` 2; node_cpus n := {[n]};
     node_distance a b := if a =? b then 10 else 20; sched_numa_topology_type := NUMA_DIRECT;
     sched_max_numa_distance := 20; find_numa_distance d := (d =? 10) || (d =? 20); sd_numa c := Some c;
     PAGE_SHIFT := 12; sysctl_numa_balancing_scan_period_min := 1000; sysctl_numa_balancing_scan_period_max := 60000;
     sysctl_numa_balancing_scan_size := 16; sysctl_numa_balancing_scan_delay := 1000; cpupid_to_cpu x := x; cpupid_to_nid x := x; cpupid_pid_unset x := x =? -1;
     cpupid_match_pid p x := p =? x |}.
#[local] Instance demo_stop_groups : StopGroups.
Proof. split; intros; cbn in *; by simplify_eq. Qed.
#[local] Instance demo_nodes_ok : NodesOk.
Proof. split; [intros nid Hn; cbn in *; set_solver by lia|intros c; cbn; apply Z.mod_pos_bound; lia]. Qed.
(** The first address of the pool whose group has no references. *)
#[local] Instance demo_fault_env : FaultEnv :=
  {| kzalloc_group s := snd <$> list_find (fun g => ng_refcount (nu_group s g) = 0) [100; 101; 102];
     kzalloc_faults _ := true; sched_numa_balancing := true; last_cpupid_unset := -1 |}.
#[local] Instance demo_alloc : AllocSpec.
Proof.
  intros s g G Ea p Hp. unfold kzalloc_group, demo_fault_env in Ea. destruct (list_find _ _) as [[i g']|] eqn:El; [|done]. injection Ea as <-.
  apply list_find_Some in El as (_ & Hz & _). destruct (gs_group _ G g') as [M Gm]. apply (go_members _ _ _ Gm) in Hp.
  assert (Hne : M <> []) by (intros ->; by apply not_elem_of_nil in Hp). rewrite (ta_ref _ _ _ (go_tally _ _ _ Gm Hne)) in Hz.
  destruct M; [done|]. cbn in Hz. lia.
Qed.

Definition faults_demo (c : Z) (s : numa_state) : numa_state := s <| nu_k ::= fun k => k <| this_cpu := c |> |>.
Definition faults_demo0 : numa_state :=
  (demo_numa 8192 1000)
    <| nu_k ::= fun k => k <| rqs := fun c => demo_rq c <| curr := c |> |> <| tasks := fun p => tasks k p <| task_cpu := p |> |> |>
    <| nu_task := fun p => demo_numa_task 1000 <| numa_faults := Some (fun i => if (i =? 2) && (u32 p =? p) then 40 + p else 0) |>
         <| total_numa_faults := if u32 p =? p then 40 + p else 0 |> |>.
Definition faults_demo1 : numa_state := faults_demo 1 (default faults_demo0 (task_numa_fault 1 1 3 0 faults_demo0)).
Definition faults_demo2 : numa_state := faults_demo 0 (default faults_demo0 (task_numa_fault 0 1 4 0 faults_demo1)).
Definition faults_demo3 : numa_state := default faults_demo0 (task_numa_fault 1 1 5 0 faults_demo2).

Lemma faults_demo0_ok : groups_ok faults_demo0.
Proof.
  split.
  - intros g. exists []. split; try done. apply NoDup_nil_2. intros p. split; [by intros ?%not_elem_of_nil|done].
  - intros p. unfold faults_demo0, ranged, nf, nt. cbn. pose proof (u32_range p) as Hr.
    destruct (Z.eqb_spec (u32 p) p) as [E|]; [|split; [intros i; rewrite andb_false_r|]; by rewrite u64_id].
    rewrite E in Hr. split; [intros i; rewrite andb_true_r; destruct (i =? 2)|]; rewrite u64_id by lia; done.
Qed.
Lemma elsewhere_demo c s : numa_step s (faults_demo c s).
Proof. apply step_elsewhere, store_books. done. Qed.
Lemma fault_demo lc pages s : bool_decide (is_Some (task_numa_fault lc 1 pages 0 s)) = true ->
  numa_step s (default faults_demo0 (task_numa_fault lc 1 pages 0 s)).
Proof.
  intros [s' Es]%bool_decide_eq_true. rewrite Es. apply (step_fault lc 1 pages 0); [cbn; lia|done].
Qed.

(** The first task ends up in the group of the second, and its own is freed. *)
Lemma numa_groups_are_sums_witness :
  exists M, NoDup M /\ 0 ∈ M /\ 1 ∈ M /\ nu_freed faults_demo3 = [100] /\ length M = 2%nat /\
    ng_faults (nu_group faults_demo3 101) 2 = u64 (sum_of (fun p => nf (nt faults_demo3 p) 2) M).
Proof.
  destruct (numa_groups_are_sums faults_demo0 faults_demo3 101) as (M & Hnd & Hm & Hne).
  - eapply rtc_l; [|eapply rtc_l; [|eapply rtc_l; [|eapply rtc_l; [|eapply rtc_l; [|apply rtc_refl]]]]].
    + apply (fault_demo 1 3). vm_compute. reflexivity.
    + apply (elsewhere_demo 1).
    + apply (fault_demo 0 4 faults_demo1). vm_compute. reflexivity.
    + apply (elsewhere_demo 0).
    + apply (fault_demo 1 5 faults_demo2). vm_compute. reflexivity.
  - exact faults_demo0_ok.
  - assert (H0 : 0 ∈ M) by (apply Hm; vm_compute; reflexivity). assert (H1 : 1 ∈ M) by (apply Hm; vm_compute; reflexivity).
    destruct Hne as (_ & Hr & _ & _ & Hf); [intros ->; by apply not_elem_of_nil in H0|].
    exists M. split_and!; [done|done|done|vm_compute; reflexivity| |].
    + assert (Er : ng_refcount (nu_group faults_demo3 101) = 2) by (vm_compute; reflexivity). rewrite Er in Hr. lia.
    + apply Hf. vm_compute. split; congruence.
Defined.

(** When the clock of the task is one nanosecond behind its last placement, the
    length of the period plus one is zero, by which placement divides. *)
Example clock_back_divides :
  let s := upd_mm 1 (fun x => x <| mm_scan_seq := 1 |>) (upd_nt 0 (fun t => t <| last_task_numa_placement := 1 |>) faults_demo0) in
  (numa_get_avg_runtime 0 s).2 = U64_MAX /\ task_numa_placement 0 s = None.
Proof. vm_compute. done. Qed.
End Demo.
