(* ===== verification/NumaScan.v ===== *)
(** * Scans of a task's memory (fair.c)

    [task_numa_work] unmaps the next part of the address space of the current
    task, so that its accesses fault and can be counted.  It goes on where the
    last scan of this memory ended and stops when it has dealt with enough pages.

    The theorem: a scan ends, and what it has unmapped is exactly what can be
    unmapped between the place where it began and the place where the next scan
    will begin. *)

From Stdlib Require Import Sorted.
From S2P Require Import Prelude SchedTypes Core Wrr CoreWake CorePolicy RtBandwidth FairMath FairPelt FairQueue FairBusiest.
From S2P Require Import FairSelect NumaStats NumaMigrate NumaFaults.

Definition VM_READ : Z := 1.
Definition VM_WRITE : Z := 2.
Definition VM_EXEC : Z := 4.
Definition VM_MIXEDMAP : Z := 268435456. (* 0x10000000 *)

Record vm_area_struct := mkVma { vm_start : Z; vm_end : Z; vm_flags : Z; vm_file : bool; vm_mm : bool }.

(** The memory manager: the areas of an address space in ascending order, the
    page tables, and what other threads and the scheduler do meanwhile. *)
Class ScanEnv := {
  mm_mmap : Z -> list vm_area_struct;
  vma_migratable : vm_area_struct -> bool;
  vma_policy_mof : vm_area_struct -> bool;
  is_vm_hugetlb_page : vm_area_struct -> bool;
  change_prot_numa : vm_area_struct -> Z -> Z -> Z;
  HPAGE_SHIFT : Z;
  TICK_NSEC : Z;
  mmap_read_trylock : numa_state -> bool;
  next_scan_found : numa_state -> Z;      (* what [cmpxchg] finds *)
  runtime_after_scan : numa_state -> Z }.

(** [ALIGN], for a power of two. *)
Definition ALIGN (x a : Z) : Z := Z.ldiff (u64 (x + (a - 1))) (a - 1).

Record scan_state := mkScan { sc_start : Z; sc_pages : Z; sc_virtpages : Z; sc_unmapped : list (Z * Z) }.

Section Scan.
Context `{NumaEnv} `{BalanceEnv} `{ScanEnv}.

Definition find_vma (m addr : Z) : list vm_area_struct :=
  match list_find (fun v => addr < vm_end v) (mm_mmap m) with
  | Some (i, _) => drop i (mm_mmap m)
  | None => []
  end.

(** The areas that are passed over. *)
Definition vma_skipped (v : vm_area_struct) : bool :=
  negb (vma_migratable v) || negb (vma_policy_mof v) || is_vm_hugetlb_page v || has_flag (vm_flags v) VM_MIXEDMAP ||
  negb (vm_mm v) || (vm_file v && (Z.land (vm_flags v) (Z.lor VM_READ VM_WRITE) =? VM_READ)) ||
  negb (has_flag (vm_flags v) (Z.lor (Z.lor VM_READ VM_EXEC) VM_WRITE)).

(** The [do] loop over one area; the flag is the jump to [out]. *)
Fixpoint scan_vma (fuel : nat) (v : vm_area_struct) (sc : scan_state) : option (scan_state * bool) :=
  match fuel with
  | O => None
  | S n =>
      let start := Z.max (sc_start sc) (vm_start v) in
      let stop := Z.min (ALIGN (u64 (start + Z.shiftl (sc_pages sc) PAGE_SHIFT)) (2 ^ HPAGE_SHIFT)) (vm_end v) in
      let nr_pte_updates := change_prot_numa v start stop in
      let size := Z.shiftr (u64 (stop - start)) PAGE_SHIFT in
      let pages := if negb (nr_pte_updates =? 0) then s64 (sc_pages sc - size) else sc_pages sc in
      let virtpages := s64 (sc_virtpages sc - size) in
      let sc := mkScan stop pages virtpages (sc_unmapped sc ++ [(start, stop)]) in
      if (pages <=? 0) || (virtpages <=? 0) then Some (sc, true)
      else if stop =? vm_end v then Some (sc, false)
      else scan_vma n v sc
  end.

Fixpoint scan_vmas (fuel : nat) (l : list vm_area_struct) (sc : scan_state) : option (scan_state * bool) :=
  match l with
  | [] => Some (sc, false)
  | v :: l =>
      if vma_skipped v then scan_vmas fuel l sc
      else match scan_vma fuel v sc with
           | None => None
           | Some (sc, true) => Some (sc, true)
           | Some (sc, false) => scan_vmas fuel l sc
           end
  end.

(** From the lock of the address space to its release; the result has what was
    unmapped. *)
Definition scan_mm (fuel : nat) (p m : Z) (s : numa_state) : option (numa_state * list (Z * Z)) :=
  let start := mm_scan_offset (nu_mm s m) in
  let pages := s64 (Z.shiftl sysctl_numa_balancing_scan_size (20 - PAGE_SHIFT)) in
  let virtpages := s64 (pages * 8) in
  let '(s, start, l) :=
    match find_vma m start with
    | [] => (reset_ptenuma_scan p s, 0, mm_mmap m)
    | l => (s, start, l)
    end in
  match scan_vmas fuel l (mkScan start pages virtpages []) with
  | None => None
  | Some (sc, true) => Some (upd_mm m (fun x => x <| mm_scan_offset := sc_start sc |>) s, sc_unmapped sc)
  | Some (sc, false) => Some (reset_ptenuma_scan p s, sc_unmapped sc)
  end.

(** [None]: out of fuel. *)
Definition task_numa_work (fuel : nat) (p : Z) (s : numa_state) : option (numa_state * list (Z * Z)) :=
  let now := jiffies (nu_k s) in
  let runtime := sum_exec_runtime (se (tasks (nu_k s) p)) in
  let s := upd_nt p (fun t => t <| numa_work_queued := false |>) s in
  match nt_mm (nt s p) with
  | None => Some (s, [])
  | Some m =>
      if has_flag (flags (tasks (nu_k s) p)) PF_EXITING then Some (s, [])
      else
        let s := if mm_next_scan (nu_mm s m) =? 0
                 then upd_mm m (fun x => x <| mm_next_scan := u64 (now + msecs_to_jiffies sysctl_numa_balancing_scan_delay) |>) s else s in
        let migrate := mm_next_scan (nu_mm s m) in
        if time_after migrate now then Some (s, [])
        else
          let s := if numa_scan_period (nt s p) =? 0
                   then upd_nt p (fun t => t <| numa_scan_period_max := task_scan_max s p |> <| numa_scan_period := task_scan_start s p |>) s else s in
          let next_scan := u64 (now + msecs_to_jiffies (numa_scan_period (nt s p))) in
          let found := next_scan_found s in
          if negb (found =? migrate) then Some (upd_mm m (fun x => x <| mm_next_scan := found |>) s, [])
          else
            let s := upd_mm m (fun x => x <| mm_next_scan := next_scan |>) s in
            let s := upd_nt p (fun t => t <| node_stamp ::= fun n => u64 (n + 2 * TICK_NSEC) |>) s in
            if (s64 (Z.shiftl sysctl_numa_balancing_scan_size (20 - PAGE_SHIFT)) =? 0) || negb (mmap_read_trylock s) then Some (s, [])
            else
              '(s, l) ← scan_mm fuel p m s;
              let spent := u64 (runtime_after_scan s - runtime) in
              Some (if spent =? 0 then s else upd_nt p (fun t => t <| node_stamp ::= fun n => u64 (n + 32 * spent) |>) s, l)
  end.
End Scan.

(** ** What a scan unmaps *)

Lemma ALIGN_bounds x h : 0 <= h <= 62 -> 0 <= x < 2 ^ 62 -> x <= ALIGN x (2 ^ h) < x + 2 ^ h.
Proof.
  intros Hh Hx. pose proof (Z.pow_pos_nonneg 2 h ltac:(lia) ltac:(lia)) as Hp. assert (2 ^ h <= 2 ^ 62) by (apply Z.pow_le_mono_r; lia).
  unfold ALIGN. rewrite u64_id by lia. replace (2 ^ h - 1) with (Z.ones h) by (rewrite Z.ones_equiv; lia).
  rewrite Z.ldiff_ones_r, Z.shiftr_div_pow2, Z.shiftl_mul_pow2, Z.ones_equiv by lia.
  pose proof (Z.div_mod (x + Z.pred (2 ^ h)) (2 ^ h) ltac:(lia)). pose proof (Z.mod_pos_bound (x + Z.pred (2 ^ h)) (2 ^ h) ltac:(lia)). lia.
Qed.

(** An address lies in one of the ranges. *)
Definition within (l : list (Z * Z)) (a : Z) : Prop := exists r, r ∈ l /\ r.1 <= a < r.2.

Lemma within_app l1 l2 a : within (l1 ++ l2) a <-> within l1 a \/ within l2 a.
Proof. unfold within. setoid_rewrite elem_of_app. naive_solver. Qed.
Lemma within_one x y a : within [(x, y)] a <-> x <= a < y.
Proof. unfold within. setoid_rewrite list_elem_of_singleton. split; [by intros (? & -> & ?)|]. by exists (x, y). Qed.

Record vma_ok (v : vm_area_struct) : Prop := { vo_start : 0 <= vm_start v; vo_size : vm_start v < vm_end v; vo_end : vm_end v <= 2 ^ 56 }.

Section Exact.
Context `{NumaEnv} `{BalanceEnv} `{ScanEnv} (Hshift : 0 <= PAGE_SHIFT <= 20) (Hhuge : 0 <= HPAGE_SHIFT <= 40).

(** The budget that is left. *)
Definition budget_ok (sc : scan_state) : Prop := 0 < sc_pages sc < 2 ^ 40 /\ 0 < sc_virtpages sc < 2 ^ 44.

Lemma step_end sc start hi : budget_ok sc -> 0 <= start -> start < hi -> hi <= 2 ^ 56 ->
  let stop := Z.min (ALIGN (u64 (start + Z.shiftl (sc_pages sc) PAGE_SHIFT)) (2 ^ HPAGE_SHIFT)) hi in
  start < stop <= hi /\ 0 <= Z.shiftr (u64 (stop - start)) PAGE_SHIFT < 2 ^ 57 /\ (stop <> hi -> 1 <= Z.shiftr (u64 (stop - start)) PAGE_SHIFT).
Proof.
  intros [Hp _] Hs0 Hlt Hhi stop. assert (Hpp : 0 < 2 ^ PAGE_SHIFT) by (apply Z.pow_pos_nonneg; lia).
  assert (2 ^ PAGE_SHIFT <= 2 ^ 20) by (apply Z.pow_le_mono_r; lia).
  assert (Ew : Z.shiftl (sc_pages sc) PAGE_SHIFT = sc_pages sc * 2 ^ PAGE_SHIFT) by (apply Z.shiftl_mul_pow2; lia).
  assert (Hw : 2 ^ PAGE_SHIFT <= sc_pages sc * 2 ^ PAGE_SHIFT <= 2 ^ 60) by nia.
  assert (Hal : start + sc_pages sc * 2 ^ PAGE_SHIFT <= ALIGN (start + sc_pages sc * 2 ^ PAGE_SHIFT) (2 ^ HPAGE_SHIFT)) by (apply ALIGN_bounds; lia).
  unfold stop. rewrite Ew, (u64_id (start + _)) by lia. set (e := ALIGN _ _) in *. clearbody e.
  rewrite u64_id by lia. rewrite Z.shiftr_div_pow2 by lia. split_and!; [lia|lia|apply Z.div_pos; lia| |].
  - apply Z.div_lt_upper_bound; [lia|]. nia.
  - intros Hne. apply Z.div_le_lower_bound; lia.
Qed.

Lemma scan_vma_exact fuel v sc :
  vma_ok v -> budget_ok sc -> sc_start sc < vm_end v -> sc_virtpages sc < Z.of_nat fuel ->
  exists sc' out l, scan_vma fuel v sc = Some (sc', out) /\ sc_unmapped sc' = sc_unmapped sc ++ l /\
    (forall a, within l a <-> Z.max (sc_start sc) (vm_start v) <= a < sc_start sc') /\
    Z.max (sc_start sc) (vm_start v) < sc_start sc' <= vm_end v /\
    (out = false -> sc_start sc' = vm_end v /\ budget_ok sc' /\ sc_virtpages sc' <= sc_virtpages sc).
Proof.
  intros Hv. revert sc. induction fuel as [|n IH]; intros sc Hb Hs Hf; [destruct Hb; lia|]. cbn [scan_vma]. cbv zeta.
  set (start := Z.max (sc_start sc) (vm_start v)). pose proof (vo_start _ Hv) as V0. pose proof (vo_size _ Hv) as V1. pose proof (vo_end _ Hv) as V2.
  destruct (step_end sc start (vm_end v) Hb ltac:(lia) ltac:(lia) V2) as (Hstop & Hsz & Hone). set (stop := Z.min _ (vm_end v)) in *. clearbody stop.
  set (size := Z.shiftr _ _) in *. clearbody size. pose proof Hb as [Hp Hvp].
  set (pages := if negb _ then _ else _). assert (Hpages : pages <= sc_pages sc) by (unfold pages; destruct (negb _); [rewrite s64_id|]; lia). clearbody pages.
  rewrite (s64_id (sc_virtpages sc - size)) by lia.
  destruct (Z.leb_spec pages 0) as [|Hp']; [|destruct (Z.leb_spec (sc_virtpages sc - size) 0) as [|Hv']]; cbn [orb].
  1,2: eexists _, true, [(start, stop)]; split_and!; [reflexivity|done|intros a; apply within_one|cbn; lia|cbn; lia|done].
  destruct (Z.eqb_spec stop (vm_end v)) as [->|Hne].
  - eexists _, false, [(start, vm_end v)]. split_and!; [reflexivity|done|intros a; apply within_one|cbn; lia|cbn; lia|]. intros _.
    unfold budget_ok. cbn. lia.
  - specialize (Hone Hne). set (sc1 := mkScan stop pages (sc_virtpages sc - size) (sc_unmapped sc ++ [(start, stop)])).
    destruct (IH sc1) as (sc' & out & l & -> & El & Hw & Hbd & Ho); [split; cbn; lia|cbn; lia|cbn; lia|].
    exists sc', out, ((start, stop) :: l). cbn in El, Hw, Hbd, Ho. split_and!; [done|by rewrite El, <- app_assoc| | | |].
    + intros a. change ((start, stop) :: l) with ([(start, stop)] ++ l). rewrite within_app, within_one, Hw. lia.
    + lia.
    + lia.
    + intros Hout. destruct (Ho Hout) as (A & B & C). split_and!; [done|done|lia].
Qed.

(** The areas of an address space are in ascending order. *)
Definition mmap_ok (l : list vm_area_struct) : Prop := Forall vma_ok l /\ StronglySorted (fun v w => vm_end v <= vm_start w) l.
Definition mapped (l : list vm_area_struct) (a : Z) : Prop := exists v, v ∈ l /\ vma_skipped v = false /\ vm_start v <= a < vm_end v.

Lemma scan_vmas_exact fuel l sc :
  mmap_ok l -> budget_ok sc -> Forall (fun v => sc_start sc < vm_end v) l -> sc_virtpages sc < Z.of_nat fuel ->
  exists sc' out r, scan_vmas fuel l sc = Some (sc', out) /\ sc_unmapped sc' = sc_unmapped sc ++ r /\
    (forall a, within r a <-> sc_start sc <= a /\ (out = true -> a < sc_start sc') /\ mapped l a) /\ (out = true -> sc_start sc < sc_start sc').
Proof.
  revert sc. induction l as [|v l IH]; intros sc [Hok Hso] Hb Hs Hf.
  { exists sc, false, []. split_and!; [done|by rewrite app_nil_r| |done]. intros a. split; [intros (r & Hr & _)|intros (_ & _ & w & Hw & _)]; by apply not_elem_of_nil in Hr || apply not_elem_of_nil in Hw. }
  apply Forall_cons in Hok as [Hv Hok]. apply Forall_cons in Hs as [Hsv Hs]. apply StronglySorted_inv in Hso as [Hso Hlater].
  rewrite Forall_forall in Hlater. cbn [scan_vmas]. destruct (vma_skipped v) eqn:Esk.
  - destruct (IH sc) as (sc' & out & r & E & Er & Hw & Ho); [done|done|done|done|]. exists sc', out, r. split_and!; [done|done| |done].
    intros a. rewrite Hw. unfold mapped. setoid_rewrite elem_of_cons. split; [naive_solver|]. intros (A & B & w & [->|Hin] & C & D); [congruence|naive_solver].
  - destruct (scan_vma_exact fuel v sc Hv Hb Hsv Hf) as (sc1 & out & r1 & -> & E1 & Hw1 & Hb1 & Ho1). destruct out.
    + exists sc1, true, r1. split_and!; [done|done| |lia]. intros a. rewrite Hw1. split.
      * intros Ha. split_and!; [lia|lia|]. exists v. split_and!; [by left|done|lia|lia].
      * intros (A & B & w & Hw & C & D). specialize (B eq_refl). apply elem_of_cons in Hw as [->|Hin]; [lia|]. specialize (Hlater w Hin). lia.
    + destruct (Ho1 eq_refl) as (Es1 & Hbud & Hvp). destruct (IH sc1) as (sc2 & out & r2 & E2 & Er2 & Hw2 & Ho2); [done|done| |lia|].
      { apply Forall_forall. intros w Hin. specialize (Hlater w Hin). rewrite Forall_forall in Hok. pose proof (vo_size _ (Hok w Hin)). lia. }
      exists sc2, out, (r1 ++ r2). split_and!; [done|by rewrite Er2, E1, app_assoc| |intros Hout; specialize (Ho2 Hout); lia].
      intros a. rewrite within_app, Hw1, Hw2, Es1. unfold mapped. setoid_rewrite elem_of_cons. split.
      * intros [Ha|(A & B & w & Hin & C & D)].
        -- split_and!; [lia|intros Hout; specialize (Ho2 Hout); lia|]. exists v. split_and!; [by left|done|lia|lia].
        -- split_and!; [lia|done|]. exists w. split_and!; [by right|done|lia|lia].
      * intros (A & B & w & [->|Hin] & C & D); [left; lia|]. right. specialize (Hlater w Hin). split_and!; [lia|done|]. exists w. split_and!; [done|done|lia|lia].
Qed.

Lemma find_vma_spec m addr : mmap_ok (mm_mmap m) ->
  mmap_ok (find_vma m addr) /\ Forall (fun v => addr < vm_end v) (find_vma m addr) /\
  forall a, addr <= a -> mapped (find_vma m addr) a <-> mapped (mm_mmap m) a.
Proof.
  intros [Hok Hso]. unfold find_vma. destruct (list_find _ _) as [[i v]|] eqn:E.
  - apply list_find_Some in E as (Hv & Hlt & Hbefore). set (l := mm_mmap m) in *. clearbody l.
    assert (El : l = take i l ++ drop i l) by (by rewrite take_drop). assert (Hd : drop i l = v :: drop (S i) l) by (by apply drop_S).
    assert (Hsd : StronglySorted (fun v w => vm_end v <= vm_start w) (drop i l)).
    { clear -Hso. revert i. induction Hso as [|w l Hs IH Hf]; intros [|i]; [constructor|constructor|by constructor|apply IH]. }
    split_and!.
    + split; [by apply Forall_drop|done].
    + rewrite Hd in Hsd |- *. apply StronglySorted_inv in Hsd as [_ Hf]. constructor; [done|]. rewrite Forall_forall in Hf |- *. intros w Hw.
      specialize (Hf w Hw). assert (Hwl : w ∈ l) by (rewrite El, Hd; apply elem_of_app; right; by right).
      rewrite Forall_forall in Hok. pose proof (vo_size _ (Hok w Hwl)). lia.
    + intros a Ha. split.
      * intros (w & Hw & C & D). exists w. split_and!; [rewrite El; apply elem_of_app; by right|done|lia|lia].
      * intros (w & Hw & C & D). exists w. split_and!; [|done|lia|lia]. rewrite El in Hw. apply elem_of_app in Hw as [Hw|Hw]; [|done].
        apply list_elem_of_lookup in Hw as [j Hj]. apply lookup_take_Some in Hj as [Hj Hji]. specialize (Hbefore j w Hj Hji). cbn in Hbefore. lia.
  - apply list_find_None in E. rewrite Forall_forall in E. split_and!; [split; constructor|constructor|]. intros a Ha. split.
    + intros (w & Hw & _). by apply not_elem_of_nil in Hw.
    + intros (w & Hw & C & D). specialize (E w Hw). cbn in E. lia.
Qed.

(** Where a scan begins: past the last area it begins anew. *)
Definition scan_wraps (m : Z) (s : numa_state) : bool := bool_decide (length (find_vma m (mm_scan_offset (nu_mm s m))) = 0%nat).
Definition scan_begin (m : Z) (s : numa_state) : Z := if scan_wraps m s then 0 else mm_scan_offset (nu_mm s m).

(** C19: A scan of an address space ends.  It has unmapped exactly the addresses of
    areas that are not skipped from the place where it began up to the place where
    the next scan will begin, or to the end of the address space, in which case
    the next scan begins at 0.  The sequence number grows by one for each time the
    end was met. *)
Theorem numa_scan_exact fuel p m s :
  let pages := Z.shiftl sysctl_numa_balancing_scan_size (20 - PAGE_SHIFT) in
  mmap_ok (mm_mmap m) -> nt_mm (nt s p) = Some m -> 0 <= mm_scan_offset (nu_mm s m) -> 0 < pages < 2 ^ 40 -> pages * 8 < Z.of_nat fuel ->
  exists s' l, scan_mm fuel p m s = Some (s', l) /\
    let next := mm_scan_offset (nu_mm s' m) in
    (forall a, within l a <-> scan_begin m s <= a /\ mapped (mm_mmap m) a /\ (next <> 0 -> a < next)) /\
    (next <> 0 -> scan_begin m s < next) /\
    mm_scan_seq (nu_mm s' m) = let seq := mm_scan_seq (nu_mm s m) in
      let seq := if scan_wraps m s then s32 (seq + 1) else seq in if next =? 0 then s32 (seq + 1) else seq.
Proof.
  intros pages Hok Hp H0' Hpg Hfuel. unfold scan_mm. cbv zeta. fold pages. rewrite (s64_id pages), (s64_id (pages * 8)) by lia.
  set (x := match find_vma m _ with [] => _ | _ => _ end).
  assert (Hx : exists s1 l1, x = (s1, scan_begin m s, l1) /\ nt_mm (nt s1 p) = Some m /\ mmap_ok l1 /\ Forall (fun v => scan_begin m s < vm_end v) l1 /\
    (forall a, scan_begin m s <= a -> mapped l1 a <-> mapped (mm_mmap m) a) /\
    mm_scan_seq (nu_mm s1 m) = if scan_wraps m s then s32 (mm_scan_seq (nu_mm s m) + 1) else mm_scan_seq (nu_mm s m)).
  { unfold x, scan_begin, scan_wraps. destruct (find_vma_spec m (mm_scan_offset (nu_mm s m)) Hok) as (F1 & F2 & F3).
    destruct (find_vma m (mm_scan_offset (nu_mm s m))) as [|v l].
    - rewrite bool_decide_true by done. eexists _, _. split_and!; [reflexivity| |done| |done|].
      + unfold reset_ptenuma_scan. rewrite Hp. exact Hp.
      + destruct Hok as [Hok _]. rewrite Forall_forall in Hok |- *. intros v Hv. destruct (Hok v Hv). lia.
      + unfold reset_ptenuma_scan. rewrite Hp. unfold upd_mm. cbn. by rewrite fn_lookup_alter.
    - rewrite bool_decide_false by done. eexists _, _. by split_and!. }
  clearbody x. destruct Hx as (s1 & l1 & -> & Hp1 & Ok1 & F1 & F3 & Eseq).
  assert (Hb0 : 0 <= scan_begin m s) by (unfold scan_begin; by destruct (scan_wraps m s)).
  destruct (scan_vmas_exact fuel l1 (mkScan (scan_begin m s) pages (pages * 8) [])) as (sc & out & r & -> & Er & Hw & Ho);
    [done|split; cbn; lia|done|done|]. cbn [sc_start sc_unmapped app] in Er, Hw, Ho. destruct out.
  - specialize (Ho eq_refl). eexists _, _. split; [reflexivity|]. unfold upd_mm. cbn -[scan_begin mapped within]. rewrite fn_lookup_alter. cbn -[scan_begin mapped within].
    split_and!; [|done|]. { intros a. rewrite Er, Hw. split; [intros (A & B & C); split_and!; [done|by apply F3|naive_solver]|intros (A & B & C); split_and!; [done|intros _; apply C; lia|by apply F3]]. }
    rewrite Eseq. destruct (Z.eqb_spec (sc_start sc) 0); [lia|done].
  - eexists _, _. split; [reflexivity|]. unfold reset_ptenuma_scan. rewrite Hp1. unfold upd_mm. cbn -[scan_begin mapped within]. rewrite fn_lookup_alter. cbn -[scan_begin mapped within].
    split_and!; [|done|by rewrite Eseq]. intros a. rewrite Er, Hw. split; [intros (A & B & C); split_and!; [done|by apply F3|done]|intros (A & B & C); split_and!; [done|done|by apply F3]].
Qed.
End Exact.

(** ** Examples *)

Section Demo.
(** Two areas, the second a read-only file mapping, and a third; scans of 16 MB
    with pages of 4 KB and huge pages of 2 MB. *)
Definition demo_vmas : list vm_area_struct :=
  [mkVma 0 (2 ^ 23) 3 false true; mkVma (2 ^ 23) (2 ^ 24) 1 true true; mkVma (2 ^ 25) (2 ^ 26) 3 false true].
#[local] Instance demo_scan_env : ScanEnv :=
  {| mm_mmap _ := demo_vmas; vma_migratable _ := true; vma_policy_mof _ := true; is_vm_hugetlb_page _ := false;
     change_prot_numa _ _ _ := 1; HPAGE_SHIFT := 21; TICK_NSEC := 10000000;
     mmap_read_trylock _ := true; next_scan_found s := mm_next_scan (nu_mm s 1); runtime_after_scan _ := 0 |}.

Lemma numa_scan_exact_witness :
  exists s' l, scan_mm (Z.to_nat 32769) 5 1 (demo_numa 8192 1000) = Some (s', l) /\ l = [(0, 8388608); (33554432, 41943040)] /\
    mm_scan_offset (nu_mm s' 1) = 41943040 /\ forall a, within l a -> mapped demo_vmas a.
Proof.
  destruct (numa_scan_exact ltac:(by vm_compute) ltac:(by vm_compute) (Z.to_nat 32769) 5 1 (demo_numa 8192 1000)) as (s' & l & E & Hw & _).
  - split; [repeat constructor; vm_compute; congruence|repeat constructor; vm_compute; congruence].
  - done.
  - done.
  - by vm_compute.
  - vm_compute. reflexivity.
  - exists s', l. assert (R : (fun x => (x.2, mm_scan_offset (nu_mm x.1 1))) <$> scan_mm (Z.to_nat 32769) 5 1 (demo_numa 8192 1000) =
      Some ([(0, 8388608); (33554432, 41943040)], 41943040)) by (vm_compute; reflexivity).
    split; [exact E|]. rewrite E in R. injection R as R1 R2. split_and!; [exact R1|exact R2|]. intros a Ha. apply Hw in Ha. apply Ha.
Defined.
End Demo.
