(* ===== verification/Rotation.v ===== *)
(** * The rotation system calls (synchronizer/rotation.c, rotation.h)

    A daemon feeds rotation samples to [set_rotation]; the last [windowSize] of
    them are kept in a kfifo, and every event whose threshold at least
    [sampleSize] of them exceed is triggered and its waiters woken.  Each
    critical section under [myLock] is one function on the state; a process
    inside [rotevt_wait] between two critical sections is an entry of
    [sleepers] (asleep) or [woken] (made runnable, about to retake the lock).

    Theorems: the window is always the most recent samples, an event triggers
    exactly when the window demands it and its sleepers are then woken, the
    sampling limits and the id map are an invariant of every interleaving of
    the calls, the queues agree with the waiting processes in every
    interleaving that frees no event under a woken waiter, and what goes wrong
    when an event is. *)

From S2P Require Import Prelude.
From stdpp Require Import sorting.

#[local] Open Scope Z_scope.

Definition MAX_WINDOW : Z := 512.
Definition INITIAL : Z := 0.
Definition EVT_TRIGGERED : Z := 1.
Definition DESTROYED : Z := 2.
Definition SIG_PENDING : Z := 3.

Record dev_rotation := mkRot { rx : Z; ry : Z; rz : Z }.
Record rotation_motion := mkMotion { mx : Z; my : Z; mz : Z; bidirection : bool }.

(** The wait queue of an event is the list of the processes on it. *)
Record rotation_event := mkEvent {
  motion : rotation_motion;
  wqueue : list Z;
  condition : Z;
  ctr : Z;
  evt_id : Z }.
#[export] Instance eta_rotation_event : Settable rotation_event :=
  fun r => mkEvent (motion r) (wqueue r) (condition r) (ctr r) (evt_id r).

(** [heap] maps the address of an allocated event to its contents, [eventIdr]
    an event id to its address.  [sleepers] and [woken] hold, for a process in
    [rotevt_wait], the [targetEvt] and [event_id] it has in its frame. *)
Record rot_state := mkRotState {
  sampleSize : Z;
  windowSize : Z;
  sampleQueue : list dev_rotation;
  eventIdr : gmap Z Z;
  heap : gmap Z rotation_event;
  sleepers : gmap Z (Z * Z);
  woken : gmap Z (Z * Z) }.
#[export] Instance eta_rot_state : Settable rot_state :=
  fun r => mkRotState (sampleSize r) (windowSize r) (sampleQueue r) (eventIdr r)
    (heap r) (sleepers r) (woken r).

Definition rot_init : rot_state := mkRotState 6 10 [] ∅ ∅ ∅ ∅.

(** ** kfifo of capacity [MAX_WINDOW] *)

Definition kfifo_len (q : list dev_rotation) : Z := Z.of_nat (length q).
Definition kfifo_get (q : list dev_rotation) : list dev_rotation * option dev_rotation :=
  match q with
  | [] => ([], None)
  | x :: q => (q, Some x)
  end.
Definition kfifo_put (q : list dev_rotation) (x : dev_rotation) : list dev_rotation :=
  if kfifo_len q <? MAX_WINDOW then q ++ [x] else q.

(** ** [threshCheck] *)

(** The kernel's [abs] of an [int]. *)
Definition kabs (x : Z) : Z := s32 (Z.abs x).

Definition exceeds (m : rotation_motion) (r : dev_rotation) : bool :=
  let f x := if bidirection m then kabs x else x in
  (mx m <=? f (rx r)) && (my m <=? f (ry r)) && (mz m <=? f (rz r)).

(** The loop of [threshCheck] with [n] iterations left: takes a sample off
    the queue, counts it and puts it back.  [dummy] is the variable the sample
    is read into. *)
Fixpoint thresh_loop (n : nat) (m : rotation_motion) (q : list dev_rotation)
    (dummy : dev_rotation) (exceedCtr : Z) : list dev_rotation * Z :=
  match n with
  | O => (q, exceedCtr)
  | S n =>
      let '(q, got) := kfifo_get q in
      let dummy := default dummy got in
      let exceedCtr := if exceeds m dummy then u16 (exceedCtr + 1) else exceedCtr in
      thresh_loop n m (kfifo_put q dummy) dummy exceedCtr
  end.

Definition threshCheck (m : rotation_motion) (st : rot_state) : rot_state * bool :=
  let qSize := u16 (kfifo_len (sampleQueue st)) in
  let '(q, exceedCtr) := thresh_loop (Z.to_nat qSize) m (sampleQueue st) (mkRot 0 0 0) 0 in
  (st <| sampleQueue := q |>, sampleSize st <=? exceedCtr).

(** ** Waking the waiters of an event

    [wake_up_all] makes every sleeping process on the queue runnable.  An entry
    made by DEFINE_WAIT is taken off the queue by the wakeup that makes its
    process runnable; the entry of a process that is already runnable, because
    a signal woke it, stays. *)
Definition made_runnable (tid : Z) (fr : Z * Z) (st : rot_state) : rot_state :=
  st <| sleepers ::= delete tid |> <| woken ::= <[tid := fr]> |>.

Definition wake_one (st : rot_state) (tid : Z) : rot_state :=
  match sleepers st !! tid with
  | Some fr => made_runnable tid fr st
  | None => st
  end.

(** The entries of a queue that a wakeup leaves on it. *)
Definition runnable_entries (st : rot_state) (q : list Z) : list Z :=
  filter (fun t => sleepers st !! t = None) q.

Definition wake_up_all (ptr : Z) (st : rot_state) : rot_state :=
  match heap st !! ptr with
  | None => st
  | Some e =>
      foldl wake_one st (wqueue e)
        <| heap ::= <[ptr := e <| wqueue ::= runnable_entries st |>]> |>
  end.

Definition upd_event (ptr : Z) (f : rotation_event -> rotation_event) (st : rot_state)
    : rot_state := st <| heap ::= alter f ptr |>.

(** ** The system calls *)

(** One entry of [idr_for_each_entry] in [set_rotation]. *)
Definition visit_event (st : rot_state) (id : Z) : rot_state :=
  match eventIdr st !! id ≫= fun ptr => pair ptr <$> heap st !! ptr with
  | None => st
  | Some (ptr, e) =>
      let '(st, hit) := threshCheck (motion e) st in
      if hit then wake_up_all ptr (upd_event ptr (fun e => e <| condition := EVT_TRIGGERED |>) st)
      else st
  end.

(** The ids of the idr in ascending order. *)
Definition idr_ids (st : rot_state) : list Z :=
  merge_sort Z.le (elements (dom (eventIdr st))).

(** [uid] is the caller's user id, [kRot] what [copy_from_user] delivers. *)
Definition set_rotation (uid : Z) (kRot : option dev_rotation) (st : rot_state)
    : rot_state * Z :=
  if negb (uid =? 0) then (st, - EPERM)
  else
    match kRot with
    | None => (st, - EFAULT)
    | Some kRot =>
        let st := if kfifo_len (sampleQueue st) =? windowSize st
                  then st <| sampleQueue ::= fun q => (kfifo_get q).1 |> else st in
        let st := st <| sampleQueue ::= fun q => kfifo_put q kRot |> in
        let st := if sampleSize st <=? kfifo_len (sampleQueue st)
                  then foldl visit_event st (idr_ids st) else st in
        (st, 0)
    end.

(** [idr_alloc (idr, ptr, 0, -1)] of lib/idr.c: an unused id, or an error. *)
Class IdrAlloc := idr_alloc : gmap Z Z -> Z.
Class IdrAllocLaw `{IdrAlloc} : Prop := idr_alloc_spec m :
  (0 <= idr_alloc m /\ m !! idr_alloc m = None) \/
  idr_alloc m = - ENOMEM \/ idr_alloc m = - ENOSPC.

(** [mem] is the address [kmalloc] returns, [mot] what [copy_from_user]
    delivers. *)
Definition rotevt_create `{IdrAlloc} (mem : option Z) (mot : option rotation_motion)
    (st : rot_state) : rot_state * Z :=
  match mem with
  | None => (st, - ENOMEM)
  | Some event =>
      match mot with
      | None => (st, - EFAULT)
      | Some m =>
          let id := idr_alloc (eventIdr st) in
          if 0 <=? id then
            (st <| eventIdr ::= <[id := event]> |>
                <| heap ::= <[event := mkEvent m [] INITIAL 0 id]> |>, id)
          else if (id =? - ENOMEM) || (id =? - ENOSPC) then (st, id)
          else (st <| heap ::= <[event := mkEvent m [] INITIAL 0 id]> |>, id)
      end
  end.

(** [kfree (idr_remove (&eventIdr, event_id))]. *)
Definition idr_remove_free (event_id : Z) (st : rot_state) : rot_state :=
  match eventIdr st !! event_id with
  | None => st
  | Some ptr => st <| eventIdr ::= delete event_id |> <| heap ::= delete ptr |>
  end.

(** [None] is an access to a freed event. *)
Definition rotevt_destroy (event_id : Z) (st : rot_state) : option (rot_state * Z) :=
  match eventIdr st !! event_id with
  | None => Some (st, - EINVAL)
  | Some targetEvt =>
      match heap st !! targetEvt with
      | None => None
      | Some e =>
          let st := upd_event targetEvt (fun e => e <| condition := DESTROYED |>) st in
          match wqueue e with
          | _ :: _ => Some (wake_up_all targetEvt st, 0)
          | [] => Some (idr_remove_free event_id st, 0)
          end
      end
  end.

(** The outcome of a critical section of [rotevt_wait]. *)
Inductive wait_result := wait_sleep | wait_return (ret : Z).

(** The part of [rotevt_wait] after its loop. *)
Definition wait_exit (tid targetEvt event_id : Z) (st : rot_state)
    : option (rot_state * wait_result) :=
  match heap st !! targetEvt with
  | None => None
  | Some e =>
      let e := e <| wqueue ::= filter (fun t => t <> tid) |> in
      let e := e <| ctr ::= fun n => s32 (n - 1) |> in
      let st := st <| heap ::= <[targetEvt := e]> |> in
      if (ctr e =? 0) && (condition e =? DESTROYED)
      then Some (idr_remove_free event_id st, wait_return 0)
      else Some (st, wait_return 0)
  end.

(** The loop of [rotevt_wait] from the test of its condition; [sig] is
    [signal_pending (current)].  [prepare_to_wait] enters the queue once. *)
Definition wait_loop (tid targetEvt event_id : Z) (sig : bool) (st : rot_state)
    : option (rot_state * wait_result) :=
  match heap st !! targetEvt with
  | None => None
  | Some e =>
      if negb (condition e =? INITIAL) then wait_exit tid targetEvt event_id st
      else
        let e := if bool_decide (tid ∈ wqueue e) then e
                 else e <| wqueue ::= cons tid |> in
        if sig then
          wait_exit tid targetEvt event_id
            (st <| heap ::= <[targetEvt := e <| condition := SIG_PENDING |>]> |>)
        else
          Some (st <| heap ::= <[targetEvt := e <| ctr ::= fun n => s32 (n + 1) |>]> |>
                   <| sleepers ::= <[tid := (targetEvt, event_id)]> |>, wait_sleep)
  end.

Definition rotevt_wait (tid event_id : Z) (sig : bool) (st : rot_state)
    : option (rot_state * wait_result) :=
  match eventIdr st !! event_id with
  | None => Some (st, wait_return (- EINVAL))
  | Some targetEvt => wait_loop tid targetEvt event_id sig st
  end.

(** A woken process retakes the lock and goes on in its loop. *)
Definition wait_resume (tid : Z) (sig : bool) (st : rot_state)
    : option (rot_state * wait_result) :=
  match woken st !! tid with
  | None => Some (st, wait_sleep)
  | Some (targetEvt, event_id) =>
      wait_loop tid targetEvt event_id sig (st <| woken ::= delete tid |>)
  end.

Definition set_rotation_sampling (uid nr_samples window : Z) (st : rot_state)
    : rot_state * Z :=
  if negb (uid =? 0) then (st, - EPERM)
  else if (nr_samples <? 0) || (window <? nr_samples) || (MAX_WINDOW <? window)
  then (st, - EINVAL)
  else (st <| sampleQueue := [] |> <| sampleSize := nr_samples |>
           <| windowSize := window |>, 0).

(** [ok1], [ok2]: whether the two [put_user] succeed; yields what is stored
    through the two user pointers. *)
Definition get_rotation_sampling (ok1 ok2 : bool) (st : rot_state)
    : Z * option Z * option Z :=
  if negb ok1 then (- EFAULT, None, None)
  else if negb ok2 then (- EFAULT, Some (sampleSize st), None)
  else (0, Some (sampleSize st), Some (windowSize st)).

(** ** All interleavings of the critical sections *)

Inductive rot_step `{IdrAlloc} : rot_state -> rot_state -> Prop :=
  | rs_set uid r st : rot_step st (set_rotation uid r st).1
  | rs_create mem mot st :
      (forall a, mem = Some a -> heap st !! a = None) ->
      rot_step st (rotevt_create mem mot st).1
  | rs_destroy id st st' ret : rotevt_destroy id st = Some (st', ret) -> rot_step st st'
  | rs_wait tid id sig st st' r :
      sleepers st !! tid = None -> woken st !! tid = None ->
      rotevt_wait tid id sig st = Some (st', r) -> rot_step st st'
  | rs_signal tid fr st :
      sleepers st !! tid = Some fr ->
      rot_step st (made_runnable tid fr st)
  | rs_resume tid sig st st' r :
      wait_resume tid sig st = Some (st', r) -> rot_step st st'
  | rs_sampling uid n w st : rot_step st (set_rotation_sampling uid n w st).1.

(** ** The window and the threshold *)

(** The samples of a window that exceed a threshold. *)
Definition exceeding (m : rotation_motion) (q : list dev_rotation) : Z :=
  Z.of_nat (length (filter (fun r => exceeds m r = true) q)).

Definition hit (st : rot_state) (m : rotation_motion) : bool :=
  sampleSize st <=? exceeding m (sampleQueue st).

(** The last [n] elements of a list. *)
Definition lastn {A} (n : nat) (l : list A) : list A := drop (length l - n) l.

Lemma lastn_id {A} n (l : list A) : (length l <= n)%nat -> lastn n l = l.
Proof. intros. unfold lastn. by replace (length l - n)%nat with 0%nat by lia. Qed.

Lemma lastn_snoc {A} n (l : list A) x :
  (0 < n)%nat -> lastn n (lastn n l ++ [x]) = lastn n (l ++ [x]).
Proof.
  intros Hn. unfold lastn. rewrite !length_app, length_drop. simpl.
  rewrite !drop_app, drop_drop, !length_drop. simpl. f_equal; f_equal; lia.
Qed.

Lemma lastn_app {A} n (l k : list A) :
  (0 < n)%nat -> lastn n (lastn n l ++ k) = lastn n (l ++ k).
Proof.
  intros Hn. revert l. induction k as [|x k IH]; intros l.
  - rewrite !app_nil_r. apply lastn_id. unfold lastn. rewrite length_drop. lia.
  - change (x :: k) with ([x] ++ k). rewrite !app_assoc, <- (IH (l ++ [x])).
    rewrite <- lastn_snoc by done. by rewrite IH.
Qed.

Lemma thresh_loop_spec m a b d c :
  Z.of_nat (length a + length b) <= MAX_WINDOW -> 0 <= c ->
  c + Z.of_nat (length a) < 2 ^ 16 ->
  thresh_loop (length a) m (a ++ b) d c = (b ++ a, c + exceeding m a).
Proof.
  unfold exceeding. revert b d c. induction a as [|x a IH]; intros b d c Hlen Hc Hlt.
  { simpl. rewrite app_nil_r. f_equal. lia. }
  simpl length in *. cbn [thresh_loop app kfifo_get].
  change (default d (Some x)) with x.
  assert (Hput : kfifo_put (a ++ b) x = a ++ (b ++ [x])).
  { unfold kfifo_put, kfifo_len. rewrite length_app.
    rewrite (proj2 (Z.ltb_lt _ _)) by lia. by rewrite app_assoc. }
  rewrite Hput, IH.
  - rewrite <- app_assoc. f_equal. rewrite filter_cons.
    destruct (exceeds m x); case_decide; try done; simpl length.
    + rewrite u16_id by lia. lia.
  - rewrite length_app. simpl. lia.
  - destruct (exceeds m x); [|done]. rewrite u16_id by lia. lia.
  - destruct (exceeds m x); [|lia]. rewrite u16_id by lia. lia.
Qed.

Lemma threshCheck_spec m st :
  kfifo_len (sampleQueue st) <= MAX_WINDOW -> threshCheck m st = (st, hit st m).
Proof.
  unfold kfifo_len, MAX_WINDOW. intros Hlen. unfold threshCheck, kfifo_len.
  rewrite u16_id by lia. rewrite Nat2Z.id.
  pose proof (thresh_loop_spec m (sampleQueue st) [] (mkRot 0 0 0) 0) as HL.
  rewrite app_nil_r in HL. rewrite HL; unfold MAX_WINDOW in *; simpl; try lia.
  by destruct st.
Qed.

(** ** Triggering *)

Lemma runnable_entries_ext st st' q :
  (forall t, t ∈ q -> sleepers st' !! t = sleepers st !! t) -> runnable_entries st' q = runnable_entries st q.
Proof.
  unfold runnable_entries. induction q as [|x q IH]; intros He; [done|]. rewrite !filter_cons, He by set_solver.
  destruct (decide _); [f_equal|]; apply IH; set_solver.
Qed.

(** What a trigger makes of an event. *)
Definition triggered (st : rot_state) (e : rotation_event) : rotation_event :=
  e <| condition := EVT_TRIGGERED |> <| wqueue ::= runnable_entries st |>.

(** The parts of the state that waking leaves alone. *)
Definition same_samples (st st' : rot_state) : Prop :=
  sampleQueue st' = sampleQueue st /\ sampleSize st' = sampleSize st /\
  windowSize st' = windowSize st /\ eventIdr st' = eventIdr st.

#[export] Instance same_samples_preorder : PreOrder same_samples.
Proof. split; [by intros st|]. intros ??? (?&?&?&?) (?&?&?&?). repeat split; congruence. Qed.

Lemma wake_list_spec l st :
  let st' := foldl wake_one st l in
  same_samples st st' /\ heap st' = heap st /\
  (forall t, sleepers st' !! t = if decide (t ∈ l) then None else sleepers st !! t) /\
  (forall t, woken st' !! t =
     if decide (t ∈ l) then match sleepers st !! t with Some fr => Some fr | None => woken st !! t end
     else woken st !! t).
Proof.
  revert st. induction l as [|x l IH]; intros st; cbn [foldl]; [by split_and!; intros; rewrite ?decide_False by set_solver|].
  destruct (IH (wake_one st x)) as (H1 & H2 & H3 & H4). rewrite H2. clear IH.
  assert (same_samples st (wake_one st x) /\ heap (wake_one st x) = heap st /\
    (forall t, sleepers (wake_one st x) !! t = if decide (t = x) then None else sleepers st !! t) /\
    (forall t, woken (wake_one st x) !! t =
       if decide (t = x) then match sleepers st !! t with Some fr => Some fr | None => woken st !! t end
       else woken st !! t)) as (G1 & G2 & G3 & G4).
  { unfold wake_one. destruct (sleepers st !! x) as [fr|] eqn:E; split_and!; try done; intros t; simpl.
    - destruct (decide (t = x)) as [->|Hne]; [by rewrite lookup_delete_eq|by rewrite lookup_delete_ne].
    - destruct (decide (t = x)) as [->|Hne]; [by rewrite lookup_insert_eq, E|by rewrite lookup_insert_ne].
    - by destruct (decide (t = x)) as [->|Hne].
    - destruct (decide (t = x)) as [->|Hne]; [by rewrite E|done]. }
  split_and!; [by etransitivity|done| |]; intros t.
  - rewrite H3, G3. destruct (decide (t = x)), (decide (t ∈ l)), (decide (t ∈ x :: l)); set_solver.
  - rewrite H4, G3, G4. destruct (decide (t = x)), (decide (t ∈ l)), (decide (t ∈ x :: l)); try set_solver. 
Qed.

Lemma wake_up_all_spec ptr st e :
  heap st !! ptr = Some e ->
  let st' := wake_up_all ptr st in
  same_samples st st' /\
  heap st' = <[ptr := e <| wqueue ::= runnable_entries st |>]> (heap st) /\
  (forall t, sleepers st' !! t = if decide (t ∈ wqueue e) then None else sleepers st !! t) /\
  (forall t, woken st' !! t =
     if decide (t ∈ wqueue e) then match sleepers st !! t with Some fr => Some fr | None => woken st !! t end
     else woken st !! t).
Proof.
  intros He. unfold wake_up_all. rewrite He.
  destruct (wake_list_spec (wqueue e) st) as (Hs & Hh & H3 & H4).
  split_and!; [done| |done|done]. simpl. by rewrite Hh.
Qed.

(** No id is dangling and no two ids share an event. *)
Definition idr_ok (st : rot_state) : Prop :=
  (forall id ptr, eventIdr st !! id = Some ptr -> is_Some (heap st !! ptr)) /\
  (forall i j ptr, eventIdr st !! i = Some ptr -> eventIdr st !! j = Some ptr -> i = j).

Lemma visit_event_spec st id ptr e :
  kfifo_len (sampleQueue st) <= MAX_WINDOW ->
  eventIdr st !! id = Some ptr -> heap st !! ptr = Some e ->
  visit_event st id =
    if hit st (motion e)
    then wake_up_all ptr (upd_event ptr (fun e => e <| condition := EVT_TRIGGERED |>) st) else st.
Proof.
  intros Hlen Hid Hptr. unfold visit_event. rewrite Hid. cbn [mbind option_bind].
  rewrite Hptr. cbn [fmap option_fmap option_map]. by rewrite threshCheck_spec.
Qed.

Lemma visit_event_none st id : eventIdr st !! id = None -> visit_event st id = st.
Proof. intros Hid. unfold visit_event. by rewrite Hid. Qed.

(** Setting the condition of an event and waking its queue. *)
Lemma set_and_wake ptr c st e :
  heap st !! ptr = Some e ->
  let st' := wake_up_all ptr (upd_event ptr (fun e => e <| condition := c |>) st) in
  same_samples st st' /\ dom (heap st') = dom (heap st) /\
  heap st' = <[ptr := e <| condition := c |> <| wqueue ::= runnable_entries st |>]> (heap st) /\
  (forall t, sleepers st' !! t = if decide (t ∈ wqueue e) then None else sleepers st !! t) /\
  (forall t, woken st' !! t =
     if decide (t ∈ wqueue e) then match sleepers st !! t with Some fr => Some fr | None => woken st !! t end
     else woken st !! t).
Proof.
  intros He. cbv zeta. set (st1 := upd_event ptr _ st).
  destruct (wake_up_all_spec ptr st1 (e <| condition := c |>)) as (Hs & Hh & H3 & H4).
  { unfold st1, upd_event. simpl. by rewrite lookup_alter_eq, He. }
  assert (Hh' : heap (wake_up_all ptr st1) =
    <[ptr := e <| condition := c |> <| wqueue ::= runnable_entries st |>]> (heap st)).
  { rewrite Hh. apply map_eq. intros q. simpl. rewrite !lookup_insert, lookup_alter. by repeat case_decide. }
  split_and!; [done| |done|done|done]. rewrite Hh', dom_insert_L. apply elem_of_dom_2 in He. set_solver.
Qed.

(** Visiting events changes neither the samples nor which events exist. *)
Lemma visit_all_frame ids st :
  kfifo_len (sampleQueue st) <= MAX_WINDOW ->
  (forall id ptr, eventIdr st !! id = Some ptr -> is_Some (heap st !! ptr)) ->
  same_samples st (foldl visit_event st ids) /\ dom (heap (foldl visit_event st ids)) = dom (heap st).
Proof.
  revert st. induction ids as [|i ids IH]; intros st Hlen Hlive; cbn [foldl]; [done|].
  assert (same_samples st (visit_event st i) /\ dom (heap (visit_event st i)) = dom (heap st)) as [Hs Hd].
  { destruct (eventIdr st !! i) as [p|] eqn:Hp; [|by rewrite visit_event_none].
    destruct (Hlive _ _ Hp) as [e He]. rewrite (visit_event_spec st i p e) by done.
    destruct (hit _ _); [|done]. destruct (set_and_wake p EVT_TRIGGERED st e He) as (? & ? & _). done. }
  pose proof Hs as (Hq & _ & _ & Hi). destruct (IH (visit_event st i)) as [H1 H2]; [by rewrite Hq| |].
  { rewrite Hi. intros id ptr Hid. rewrite <- elem_of_dom, Hd, elem_of_dom. eauto. }
  split; [by etransitivity|by rewrite H2].
Qed.

(** ** Waiting processes and queues

    A process is asleep or made runnable, not both.  One that sleeps is on the
    queue of its event, whose id is still in the idr and which is not being
    destroyed; one that was made runnable still has its event; and an entry of
    a queue belongs to a process that waits on that event. *)
Record waiters_agree (st : rot_state) : Prop := {
  wa_one : forall tid fr, sleepers st !! tid = Some fr -> woken st !! tid = None;
  wa_sleeper : forall tid ptr id, sleepers st !! tid = Some (ptr, id) ->
    eventIdr st !! id = Some ptr /\
    exists e, heap st !! ptr = Some e /\ tid ∈ wqueue e /\ condition e <> DESTROYED;
  wa_woken : forall tid ptr id, woken st !! tid = Some (ptr, id) -> eventIdr st !! id = Some ptr;
  wa_entry : forall ptr e tid, heap st !! ptr = Some e -> tid ∈ wqueue e ->
    exists id, sleepers st !! tid = Some (ptr, id) \/ woken st !! tid = Some (ptr, id) }.

(** A process is on the queue of one event only. *)
Lemma one_queue st p q e f tid :
  waiters_agree st -> heap st !! p = Some e -> heap st !! q = Some f ->
  tid ∈ wqueue e -> tid ∈ wqueue f -> p = q.
Proof.
  intros W He Hf Hte Htf.
  destruct (wa_entry _ W _ _ _ He Hte) as [i [Hi|Hi]], (wa_entry _ W _ _ _ Hf Htf) as [j [Hj|Hj]];
    try congruence; [apply (wa_one _ W) in Hi|apply (wa_one _ W) in Hj]; congruence.
Qed.

(** Setting the condition of an event and waking its queue keeps them so. *)
Lemma set_and_wake_waiters ptr c st e :
  heap st !! ptr = Some e -> waiters_agree st ->
  waiters_agree (wake_up_all ptr (upd_event ptr (fun e => e <| condition := c |>) st)).
Proof.
  intros He W. destruct (set_and_wake ptr c st e He) as ((_ & _ & _ & Hi) & _ & Hh & Hs & Hw).
  set (st' := wake_up_all _ _) in *. split.
  - intros t fr. rewrite Hs, Hw. destruct (decide (t ∈ wqueue e)); [done|]. apply W.
  - intros t p i. rewrite Hs, Hi, Hh. destruct (decide (t ∈ wqueue e)) as [|Hn]; [done|]. intros Hsl.
    destruct (wa_sleeper _ W _ _ _ Hsl) as (Hip & f & Hf & Hq & Hd). split; [done|]. exists f.
    rewrite lookup_insert_ne; [done|]. intros <-. congruence.
  - intros t p i. rewrite Hw, Hi. destruct (decide (t ∈ wqueue e)); [|apply W].
    destruct (sleepers st !! t) as [[q j]|] eqn:Hsl; [|apply W].
    intros [= -> ->]. by destruct (wa_sleeper _ W _ _ _ Hsl).
  - intros p f t. rewrite Hh, Hs, Hw. destruct (decide (p = ptr)) as [->|Hne].
    + rewrite lookup_insert_eq. intros [= <-]. simpl. unfold runnable_entries. rewrite list_elem_of_filter.
      intros [Hn Hin]. rewrite !decide_True by done. rewrite Hn.
      destruct (wa_entry _ W _ _ _ He Hin) as [i [Hx|Hx]]; [congruence|]. exists i. by right.
    + rewrite lookup_insert_ne by done. intros Hf Hin.
      assert (t ∉ wqueue e) by (intros Hin'; by destruct Hne; eapply one_queue).
      rewrite !decide_False by done. by apply (wa_entry _ W _ _ _ Hf).
Qed.

Lemma visit_event_waiters st id :
  kfifo_len (sampleQueue st) <= MAX_WINDOW -> waiters_agree st -> waiters_agree (visit_event st id).
Proof.
  intros Hlen W. unfold visit_event. destruct (eventIdr st !! id) as [p|]; [|done]. cbn [mbind option_bind].
  destruct (heap st !! p) as [e|] eqn:He; [|done]. cbn [fmap option_fmap option_map].
  rewrite threshCheck_spec by done. destruct (hit _ _); [|done]. by eapply set_and_wake_waiters.
Qed.

(** What visiting events does to an event, its queue and its sleepers, when
    [fires id] says which of the visited ids were hit. *)
Definition visited (fires : Z -> rotation_event -> bool) (st st' : rot_state) : Prop :=
  (forall tid fr, woken st !! tid = Some fr -> woken st' !! tid = Some fr) /\
  (forall id ptr e, eventIdr st !! id = Some ptr -> heap st !! ptr = Some e ->
     heap st' !! ptr = Some (if fires id e then triggered st e else e) /\
     (fires id e = false -> forall tid, tid ∈ wqueue e -> sleepers st' !! tid = sleepers st !! tid) /\
     (fires id e = true -> forall tid, sleepers st !! tid = Some (ptr, id) ->
        sleepers st' !! tid = None /\ woken st' !! tid = Some (ptr, id))).

Lemma visit_event_visited st i :
  kfifo_len (sampleQueue st) <= MAX_WINDOW -> idr_ok st -> waiters_agree st ->
  visited (fun id e => bool_decide (id = i) && hit st (motion e)) st (visit_event st i).
Proof.
  intros Hlen [Hlive Hinj] W. destruct (eventIdr st !! i) as [p|] eqn:Hp.
  2:{ rewrite visit_event_none by done. split; [done|]. intros id ptr e Hid He.
      rewrite bool_decide_eq_false_2 by congruence. done. }
  destruct (Hlive _ _ Hp) as [e1 He1]. rewrite (visit_event_spec st i p e1) by done.
  destruct (hit st (motion e1)) eqn:Eh.
  2:{ split; [done|]. intros id ptr e Hid He. destruct (decide (id = i)) as [->|Hne].
      - assert (ptr = p) as -> by congruence. assert (e = e1) as -> by congruence. by rewrite Eh, andb_false_r.
      - by rewrite bool_decide_eq_false_2. }
  destruct (set_and_wake p EVT_TRIGGERED st e1 He1) as (_ & _ & Hh & Hs & Hw). split.
  - intros t fr Ht. rewrite Hw, Ht. destruct (decide _); [|done].
    destruct (sleepers st !! t) eqn:E; [|done]. apply (wa_one _ W) in E. congruence.
  - intros id ptr e Hid He. rewrite Hh. destruct (decide (id = i)) as [->|Hne].
    + assert (ptr = p) as -> by congruence. assert (e = e1) as -> by congruence.
      rewrite bool_decide_eq_true_2, Eh, lookup_insert_eq by done. split_and!; [done|done|].
      intros _ t Ht. rewrite Hs, Hw, Ht.
      destruct (wa_sleeper _ W _ _ _ Ht) as (_ & f & Hf & Hq & _). assert (f = e1) as -> by congruence.
      by rewrite !decide_True.
    + assert (p <> ptr) by (intros ->; eauto). rewrite bool_decide_eq_false_2, lookup_insert_ne by done.
      split_and!; [done| |done]. intros _ t Ht. rewrite Hs, decide_False; [done|].
      intros Ht'. by assert (p = ptr) by by eapply one_queue.
Qed.

Lemma visit_all_visited ids st :
  kfifo_len (sampleQueue st) <= MAX_WINDOW -> idr_ok st -> waiters_agree st -> NoDup ids ->
  visited (fun id e => bool_decide (id ∈ ids) && hit st (motion e)) st (foldl visit_event st ids) /\
  waiters_agree (foldl visit_event st ids).
Proof.
  revert st. induction ids as [|i ids IH]; intros st Hlen Hok W Hnd; cbn [foldl].
  { split; [|done]. split; [done|]. intros id ptr e Hid He. by rewrite bool_decide_eq_false_2 by set_solver. }
  apply NoDup_cons in Hnd as [Hi Hnd]. pose proof Hok as [Hlive Hinj].
  destruct (visit_all_frame [i] st Hlen Hlive) as [(Hq & Hss & Hws & Hidr) Hdom]. cbn [foldl] in *.
  pose proof (visit_event_waiters st i Hlen W) as W1.
  assert (Hhit : forall m, hit (visit_event st i) m = hit st m) by (intros; unfold hit; by rewrite Hq, Hss).
  destruct (visit_event_visited st i Hlen Hok W) as [V1 V2].
  destruct (IH (visit_event st i)) as [[U1 U2] W2]; [by rewrite Hq| |done|done|].
  { split; rewrite Hidr; [|done]. intros id ptr Hid. rewrite <- elem_of_dom, Hdom, elem_of_dom. eauto. }
  split; [|done]. split; [by eauto|]. intros id ptr e Hid He. destruct (V2 id ptr e Hid He) as (A1 & A2 & A3).
  rewrite <- Hidr in Hid. destruct (U2 id ptr _ Hid A1) as (B1 & B2 & B3). rewrite Hhit in B1, B2, B3.
  destruct (decide (id = i)) as [->|Hne].
  - rewrite (bool_decide_eq_true_2 (i = i)) in * by done. rewrite (bool_decide_eq_true_2 (i ∈ i :: ids)) by set_solver.
    rewrite (bool_decide_eq_false_2 (i ∈ ids)) in * by done. cbn [andb] in *. destruct (hit st (motion e)) eqn:Eh.
    + split_and!; [done|done|]. intros _ t Ht. destruct (A3 eq_refl t Ht) as [Hn Hk]. split; [|by apply U1].
      destruct (sleepers (foldl _ _ _) !! t) eqn:E; [|done]. apply (wa_one _ W2) in E. apply U1 in Hk. congruence.
    + split_and!; [done| |done]. intros _ t Ht. rewrite B2 by done. by apply A2.
  - rewrite (bool_decide_eq_false_2 (id = i)) in * by done. cbn [andb] in *.
    assert (Hb : bool_decide (id ∈ i :: ids) = bool_decide (id ∈ ids)) by (apply bool_decide_ext; set_solver).
    rewrite Hb. split_and!.
    + rewrite B1. f_equal. destruct (_ && _); [|done]. unfold triggered. destruct e as [m q c n x]. cbn in *.
      f_equal. by apply runnable_entries_ext, A2.
    + intros Hf t Ht. rewrite B2 by done. by apply A2.
    + intros Hf t Ht. apply B3; [done|]. rewrite A2; [done..|].
      destruct (wa_sleeper _ W _ _ _ Ht) as (_ & f & Hf' & Hin & _). by simplify_eq.
Qed.

Lemma idr_ids_spec st : NoDup (idr_ids st) /\
  forall id, id ∈ idr_ids st <-> is_Some (eventIdr st !! id).
Proof.
  unfold idr_ids. pose proof (merge_sort_Permutation Z.le (elements (dom (eventIdr st)))) as Hp.
  split.
  - rewrite Hp. apply NoDup_elements.
  - intros id. rewrite Hp, elem_of_elements, elem_of_dom. done.
Qed.

(** The queue after a sample has been accepted, before the events are visited. *)
Definition pushed (r : dev_rotation) (st : rot_state) : rot_state :=
  (if kfifo_len (sampleQueue st) =? windowSize st
   then st <| sampleQueue ::= fun q => (kfifo_get q).1 |> else st)
  <| sampleQueue ::= fun q => kfifo_put q r |>.

(** ** The invariant *)

Definition window_ok (st : rot_state) : Prop :=
  0 <= sampleSize st <= windowSize st /\ windowSize st <= MAX_WINDOW /\
  kfifo_len (sampleQueue st) <= if decide (windowSize st = 0) then MAX_WINDOW else windowSize st.

Definition rot_wf (st : rot_state) : Prop := window_ok st /\ idr_ok st.

Lemma pushed_window r st :
  window_ok st ->
  window_ok (pushed r st) /\ sampleSize (pushed r st) = sampleSize st /\
  windowSize (pushed r st) = windowSize st /\ eventIdr (pushed r st) = eventIdr st /\
  heap (pushed r st) = heap st.
Proof.
  unfold window_ok, pushed, kfifo_len, MAX_WINDOW. intros (Hs & Hw & Hq).
  set (b := (_ =? _)). assert (Hb : b = (Z.of_nat (length (sampleQueue st)) =? windowSize st)) by done.
  destruct b; simpl; (split; [|done]); (split; [done|]; split; [done|]);
    unfold kfifo_put, kfifo_len, MAX_WINDOW; symmetry in Hb; zbool.
  - destruct (sampleQueue st) as [|x q]; simpl in *; [case_decide; simpl; lia|].
    cases; zbool; rewrite ?length_app; simpl; case_decide; lia.
  - cases; zbool; rewrite ?length_app; simpl; case_decide; lia.
Qed.

Lemma window_len st : window_ok st -> kfifo_len (sampleQueue st) <= MAX_WINDOW.
Proof. intros (_ & ? & ?). case_decide; unfold MAX_WINDOW in *; lia. Qed.

(** What an accepted [set_rotation] does. *)
Lemma set_rotation_frame r st :
  rot_wf st ->
  same_samples (pushed r st) (set_rotation 0 (Some r) st).1 /\
  dom (heap (set_rotation 0 (Some r) st).1) = dom (heap st).
Proof.
  intros [Hw [Hlive _]]. destruct (pushed_window r st Hw) as (Hw1 & Hss & Hws & Hid & Hh).
  unfold set_rotation. cbn [Z.eqb negb]. fold (pushed r st). rewrite <- Hh.
  destruct (sampleSize _ <=? _); cbn [fst]; [|done].
  apply visit_all_frame; [by apply window_len|]. by rewrite Hid, Hh.
Qed.

Lemma set_rotation_visited r st :
  rot_wf st -> waiters_agree st ->
  let st1 := pushed r st in
  visited (fun _ e => (sampleSize st <=? kfifo_len (sampleQueue st1)) && hit st1 (motion e))
    st (set_rotation 0 (Some r) st).1 /\
  waiters_agree (set_rotation 0 (Some r) st).1.
Proof.
  intros [Hw Hidr] W. destruct (pushed_window r st Hw) as (Hw1 & Hss & Hws & Hid & Hh).
  assert (Hsl : sleepers (pushed r st) = sleepers st /\ woken (pushed r st) = woken st)
    by (unfold pushed; by destruct (_ =? _)).
  destruct Hsl as [Hsl Hwo]. cbn zeta. unfold set_rotation. cbn [Z.eqb negb].
  fold (pushed r st). rewrite Hss.
  assert (W1 : waiters_agree (pushed r st)).
  { destruct W. split; rewrite ?Hsl, ?Hwo, ?Hid, ?Hh; done. }
  destruct (sampleSize st <=? kfifo_len (sampleQueue (pushed r st))); cbn [fst andb].
  - destruct (idr_ids_spec (pushed r st)) as [Hnd Hids].
    destruct (visit_all_visited (idr_ids (pushed r st)) (pushed r st)) as [[V1 V2] W2];
      [by apply window_len| |done|done|].
    { unfold idr_ok. by rewrite Hid, Hh. }
    split; [|done]. unfold triggered, runnable_entries in V2. rewrite Hwo in V1. rewrite Hid, Hh, Hsl in V2.
    split; [done|]. intros id ptr e Hip He. specialize (V2 id ptr e Hip He).
    rewrite bool_decide_eq_true_2 in V2; [done|]. apply Hids. rewrite Hid. eauto.
  - split; [|done]. split; rewrite ?Hwo, ?Hsl, ?Hh; [done|]. by intros.
Qed.

(** Changes of event contents keep the idr consistent; so does freeing the
    event of an id together with the id. *)
Lemma idr_ok_dom st st' :
  eventIdr st' = eventIdr st -> dom (heap st') = dom (heap st) -> idr_ok st -> idr_ok st'.
Proof.
  intros Hi Hd [H1 H2]. split; rewrite Hi; [|done].
  intros id ptr Hid. rewrite <- elem_of_dom, Hd, elem_of_dom. eauto.
Qed.

Lemma idr_remove_free_ok id st : idr_ok st -> idr_ok (idr_remove_free id st).
Proof.
  intros [H1 H2]. unfold idr_remove_free. destruct (eventIdr st !! id) as [p|] eqn:Hp; [|done].
  split; simpl.
  - intros i q [Hne Hi]%lookup_delete_Some.
    rewrite lookup_delete_ne; [eauto|]. intros ->. eauto.
  - intros i j q [_ ?]%lookup_delete_Some [_ ?]%lookup_delete_Some. eauto.
Qed.

(** The parts of a state that the invariant reads. *)
Definition rot_agree (st st' : rot_state) : Prop :=
  same_samples st st' /\ dom (heap st') = dom (heap st).

Lemma rot_wf_agree st st' : rot_agree st st' -> rot_wf st -> rot_wf st'.
Proof.
  intros [(Hq & Hs & Hw & Hi) Hd] [Hwin Hidr]. split; [|by eapply idr_ok_dom].
  unfold window_ok in *. by rewrite Hq, Hs, Hw.
Qed.

Lemma idr_remove_free_wf id st : rot_wf st -> rot_wf (idr_remove_free id st).
Proof.
  intros [Hw Hi]. split; [|by apply idr_remove_free_ok].
  unfold idr_remove_free. by case_match.
Qed.

Lemma insert_agree st ptr e e' :
  heap st !! ptr = Some e -> rot_agree st (st <| heap ::= <[ptr := e']> |>).
Proof.
  intros He. split; [done|]. simpl. rewrite dom_insert_L. apply elem_of_dom_2 in He. set_solver.
Qed.

Lemma wait_exit_wf tid ptr id st st' r :
  wait_exit tid ptr id st = Some (st', r) -> rot_wf st -> rot_wf st'.
Proof.
  unfold wait_exit. intros Heq Hwf. destruct (heap st !! ptr) as [e|] eqn:He; [|done].
  cbn zeta in Heq. cases; simplify_eq.
  - apply idr_remove_free_wf. by eapply rot_wf_agree; [eapply insert_agree|].
  - by eapply rot_wf_agree; [eapply insert_agree|].
Qed.

Lemma wait_loop_wf tid ptr id sig st st' r :
  wait_loop tid ptr id sig st = Some (st', r) -> rot_wf st -> rot_wf st'.
Proof.
  unfold wait_loop. intros Heq Hwf. destruct (heap st !! ptr) as [e|] eqn:He; [|done].
  destruct (negb _); [by eapply wait_exit_wf|].
  destruct sig.
  - eapply wait_exit_wf; [exact Heq|]. by eapply rot_wf_agree; [eapply insert_agree|].
  - simplify_eq. eapply (rot_wf_agree (st <| heap ::= _ |>)).
    + by split.
    + by eapply rot_wf_agree; [eapply insert_agree|].
Qed.

Lemma rotevt_destroy_wf id st st' r :
  rotevt_destroy id st = Some (st', r) -> rot_wf st -> rot_wf st'.
Proof.
  unfold rotevt_destroy. intros Heq Hwf.
  destruct (eventIdr st !! id) as [p|] eqn:Hid; [|by simplify_eq].
  destruct (heap st !! p) as [e|] eqn:He; [|done].
  set (st1 := upd_event p _ st) in *.
  assert (Hwf1 : rot_wf st1).
  { eapply rot_wf_agree; [|exact Hwf]. split; [done|]. unfold st1, upd_event. simpl.
    apply dom_alter_L. }
  destruct (wqueue e); simplify_eq; [by apply idr_remove_free_wf|].
  destruct (set_and_wake p DESTROYED st e He) as (Hs & Hd & _).
  by eapply rot_wf_agree; [|exact Hwf].
Qed.

Lemma set_rotation_wf uid r st : rot_wf st -> rot_wf (set_rotation uid r st).1.
Proof.
  intros Hwf. destruct (decide (uid = 0)) as [->|Hu].
  2:{ unfold set_rotation. by rewrite (proj2 (Z.eqb_neq _ _) Hu). }
  destruct r as [r|]; [|done].
  pose proof Hwf as [Hw Hi].
  destruct (pushed_window r st Hw) as (Hw1 & _ & _ & Hid & _).
  destruct (set_rotation_frame r st Hwf) as ((Hq & Hs & Hws & Hidr) & Hd).
  split.
  - unfold window_ok. by rewrite Hq, Hs, Hws.
  - eapply idr_ok_dom; [by rewrite Hidr|done|done].
Qed.

(** The queue after any sequence of accepted samples. *)
Lemma samples_window rs st :
  rot_wf st -> 1 <= windowSize st ->
  sampleQueue (foldl (fun st r => (set_rotation 0 (Some r) st).1) st rs) =
  lastn (Z.to_nat (windowSize st)) (sampleQueue st ++ rs).
Proof.
  revert st. induction rs as [|r rs IH]; intros st Hwf Hpos; cbn [foldl].
  { rewrite app_nil_r, lastn_id; [done|]. destruct Hwf as [(_ & _ & Hq) _].
    rewrite decide_False in Hq by lia. unfold kfifo_len in Hq. lia. }
  pose proof Hwf as [Hw _].
  destruct (pushed_window r st Hw) as (Hw1 & _ & Hws1 & _ & _).
  destruct (set_rotation_frame r st Hwf) as ((Hq & _ & Hws & _) & _).
  rewrite IH; [|by apply set_rotation_wf|by rewrite Hws, Hws1].
  rewrite Hws, Hws1, Hq.
  change (r :: rs) with ([r] ++ rs). rewrite (app_assoc (sampleQueue st)), <- (lastn_app _ (_ ++ [r])) by lia.
  f_equal. f_equal.
  destruct Hw as (_ & Hmax & Hlen). rewrite decide_False in Hlen by lia.
  unfold pushed, kfifo_put, kfifo_len, MAX_WINDOW, lastn in *.
  rewrite length_app. simpl length.
  destruct (Z.eqb_spec (Z.of_nat (length (sampleQueue st))) (windowSize st)) as [He|He]; simpl.
  - destruct (sampleQueue st) as [|x q]; simpl in *; [lia|].
    rewrite (proj2 (Z.ltb_lt _ _)) by lia.
    replace (S (length q + 1) - Z.to_nat (windowSize st))%nat with 1%nat by lia. done.
  - rewrite (proj2 (Z.ltb_lt _ _)) by lia.
    replace (length (sampleQueue st) + 1 - Z.to_nat (windowSize st))%nat with 0%nat by lia. done.
Qed.

Lemma rotevt_create_wf `{IdrAllocLaw} mem mot st :
  (forall a, mem = Some a -> heap st !! a = None) ->
  rot_wf st -> rot_wf (rotevt_create mem mot st).1.
Proof.
  intros Hfresh [Hw [Hlive Hinj]]. unfold rotevt_create.
  destruct mem as [a|]; [|done]. destruct mot as [m|]; [|done].
  specialize (Hfresh a eq_refl).
  assert (Hno : forall i, eventIdr st !! i <> Some a).
  { intros i Hi. apply Hlive in Hi as [? ?]. congruence. }
  destruct (idr_alloc_spec (eventIdr st)) as [[Hpos Hfree]|[Herr|Herr]].
  - rewrite (proj2 (Z.leb_le _ _) Hpos). split; [done|]. split; simpl.
    + intros i q. rewrite !lookup_insert. repeat case_decide; subst; eauto; try congruence.
    + intros i j q. rewrite !lookup_insert. repeat case_decide; subst; eauto;
        intros; simplify_eq; exfalso; eapply Hno; eauto.
  - rewrite Herr. simpl. done.
  - rewrite Herr. simpl. done.
Qed.

(** ** The waiters under the calls *)

(** No process that was made runnable has had its event freed. *)
Definition woken_alive (st : rot_state) : Prop :=
  forall tid fr, woken st !! tid = Some fr -> is_Some (heap st !! fr.1).

(** A step that frees no event under a woken waiter. *)
Definition careful_step `{IdrAlloc} (st st' : rot_state) : Prop := rot_step st st' /\ woken_alive st'.

Section Waiters.
Context (st : rot_state) (W : waiters_agree st).

Lemma set_event_waiters ptr e e' :
  heap st !! ptr = Some e ->
  (forall t, t ∈ wqueue e' -> t ∈ wqueue e \/ exists id, woken st !! t = Some (ptr, id)) ->
  (forall t id, sleepers st !! t = Some (ptr, id) -> t ∈ wqueue e' /\ condition e' <> DESTROYED) ->
  waiters_agree (st <| heap ::= <[ptr := e']> |>).
Proof.
  intros He Hin Hsl. split; simpl; [apply W| |apply W|].
  - intros t p i Ht. destruct (wa_sleeper _ W _ _ _ Ht) as (Hi & f & Hf & Hq). split; [done|].
    destruct (decide (p = ptr)) as [->|Hne]; [|exists f; by rewrite lookup_insert_ne].
    exists e'. rewrite lookup_insert_eq. split; [done|by eapply Hsl].
  - intros p f t. destruct (decide (p = ptr)) as [->|Hne]; [|rewrite lookup_insert_ne by done; apply W].
    rewrite lookup_insert_eq. intros [= <-] [Ht|[i Ht]]%Hin; [by apply (wa_entry _ W ptr e)|eauto].
Qed.

(** A woken process that is on no queue leaves. *)
Lemma leave_waiters tid :
  (forall p e, heap st !! p = Some e -> tid ∉ wqueue e) ->
  waiters_agree (st <| woken ::= delete tid |>).
Proof.
  intros Hno. split; simpl; [|apply W| |].
  - intros t fr Ht. rewrite lookup_delete_None. right. by eapply wa_one.
  - intros t p i [_ Ht]%lookup_delete_Some. by eapply wa_woken.
  - intros p e t He Ht. destruct (wa_entry _ W _ _ _ He Ht) as [i [Hi|Hi]]; exists i; [by left|right].
    rewrite lookup_delete_ne; [done|]. intros <-. by eapply Hno.
Qed.

(** A woken process on the queue of its event sleeps again. *)
Lemma sleep_waiters tid ptr id e :
  woken st !! tid = Some (ptr, id) -> heap st !! ptr = Some e -> tid ∈ wqueue e -> condition e <> DESTROYED ->
  waiters_agree (st <| woken ::= delete tid |> <| sleepers ::= <[tid := (ptr, id)]> |>).
Proof.
  intros Hw He Hin Hc. split; simpl.
  - intros t fr. destruct (decide (t = tid)) as [->|Hne]; [by rewrite lookup_delete_eq|].
    rewrite lookup_insert_ne, lookup_delete_ne by done. apply W.
  - intros t p i. destruct (decide (t = tid)) as [->|Hne]; [|rewrite lookup_insert_ne by done; apply W].
    rewrite lookup_insert_eq. intros [= <- <-]. split; [by eapply wa_woken|eauto].
  - intros t p i [_ Ht]%lookup_delete_Some. by eapply wa_woken.
  - intros p f t Hf Ht. destruct (wa_entry _ W _ _ _ Hf Ht) as [i Hi]. exists i.
    destruct (decide (t = tid)) as [->|Hne]; [|by rewrite lookup_insert_ne, lookup_delete_ne].
    left. rewrite lookup_insert_eq. destruct Hi as [Hi|Hi]; [apply (wa_one _ W) in Hi|]; congruence.
Qed.

(** An event without sleepers is freed together with its id. *)
Lemma free_waiters id ptr :
  idr_ok st -> eventIdr st !! id = Some ptr -> (forall t i, sleepers st !! t <> Some (ptr, i)) ->
  woken_alive (idr_remove_free id st) -> waiters_agree (idr_remove_free id st).
Proof.
  intros [_ Hinj] Hid Hno. unfold idr_remove_free. rewrite Hid. intros Ha. unfold woken_alive in Ha. simpl in Ha.
  split; simpl; [apply W| | |].
  - intros t p i Ht. assert (p <> ptr) by (intros ->; by eapply Hno).
    destruct (wa_sleeper _ W _ _ _ Ht) as (Hi & f & Hf & Hq). split; [rewrite lookup_delete_ne; [done|congruence]|].
    exists f. by rewrite lookup_delete_ne.
  - intros t p i Ht. pose proof (wa_woken _ W _ _ _ Ht) as Hi. apply Ha in Ht as [e [Hne _]%lookup_delete_Some].
    rewrite lookup_delete_ne; [done|]. simpl in Hne. congruence.
  - intros p e t [_ He]%lookup_delete_Some. by apply W.
Qed.

(** A process made runnable by something else than a wakeup of its queue. *)
Lemma runnable_waiters tid fr :
  sleepers st !! tid = Some fr -> waiters_agree (made_runnable tid fr st).
Proof.
  intros Hs. split; simpl.
  - intros t f [Hne Ht]%lookup_delete_Some. rewrite lookup_insert_ne by done. by eapply wa_one.
  - intros t p i [Hne Ht]%lookup_delete_Some. by apply (wa_sleeper _ W).
  - intros t p i. destruct (decide (t = tid)) as [->|Hne]; [|rewrite lookup_insert_ne by done; apply W].
    rewrite lookup_insert_eq. intros [= ->]. by apply (wa_sleeper _ W) in Hs as [? _].
  - intros p e t He Ht. destruct (wa_entry _ W _ _ _ He Ht) as [i Hi]. exists i.
    destruct (decide (t = tid)) as [->|Hne]; [|by rewrite lookup_delete_ne, lookup_insert_ne].
    right. rewrite lookup_insert_eq. destruct Hi as [Hi|Hi]; [congruence|]. apply (wa_one _ W) in Hs. congruence.
Qed.
End Waiters.

(** The end of [rotevt_wait]. *)
Lemma wait_exit_waiters tid ptr id g st' r :
  waiters_agree g -> idr_ok g -> woken g !! tid = Some (ptr, id) ->
  wait_exit tid ptr id (g <| woken ::= delete tid |>) = Some (st', r) -> woken_alive st' -> waiters_agree st'.
Proof.
  intros W Hok Hw. unfold wait_exit. simpl heap. destruct (heap g !! ptr) as [e|] eqn:He; [|done]. cbn zeta.
  set (e' := e <| wqueue ::= _ |> <| ctr ::= _ |>).
  assert (W1 : waiters_agree (g <| heap ::= <[ptr := e']> |> <| woken ::= delete tid |>)).
  { apply leave_waiters; [eapply set_event_waiters; [exact W|exact He|..]|].
    - simpl. intros t [_ Ht]%list_elem_of_filter. by left.
    - intros t i Ht. destruct (wa_sleeper _ W _ _ _ Ht) as (_ & f & Hf & Hin & Hc). assert (f = e) as -> by congruence.
      split; [|done]. simpl. apply list_elem_of_filter. split; [|done]. intros ->. apply (wa_one _ W) in Ht. congruence.
    - simpl. intros p f Hf Hin. destruct (decide (p = ptr)) as [->|Hne].
      + rewrite lookup_insert_eq in Hf. simplify_eq. simpl in Hin. by apply list_elem_of_filter in Hin as [? _].
      + rewrite lookup_insert_ne in Hf by done. destruct (wa_entry _ W _ _ _ Hf Hin) as [i [Hi|Hi]]; [|congruence].
        apply (wa_one _ W) in Hi. congruence. }
  destruct (_ && _) eqn:Ed; intros [= <- <-]; [|done]. intros Ha.
  apply andb_prop in Ed as [_ Ed%Z.eqb_eq]. eapply free_waiters; [exact W1| |simpl; by eapply wa_woken| |exact Ha].
  - eapply idr_ok_dom; [| |exact Hok]; [done|]. simpl. rewrite dom_insert_L. apply elem_of_dom_2 in He. set_solver.
  - simpl. intros t i Ht. destruct (wa_sleeper _ W _ _ _ Ht) as (_ & f & Hf & _ & Hc). assert (f = e) as -> by congruence. done.
Qed.

Lemma wait_loop_waiters tid ptr id sig g st' r :
  waiters_agree g -> idr_ok g -> woken g !! tid = Some (ptr, id) ->
  wait_loop tid ptr id sig (g <| woken ::= delete tid |>) = Some (st', r) -> woken_alive st' -> waiters_agree st'.
Proof.
  intros W Hok Hw. unfold wait_loop. simpl heap. destruct (heap g !! ptr) as [e|] eqn:He; [|done].
  destruct (Z.eqb_spec (condition e) INITIAL) as [Hc|]; cbn [negb]; [|by apply wait_exit_waiters].
  set (e1 := if bool_decide _ then e else _).
  assert (Hin : tid ∈ wqueue e1 /\ condition e1 = INITIAL /\ (forall t, t ∈ wqueue e1 -> t ∈ wqueue e \/ t = tid) /\
    (forall t, t ∈ wqueue e -> t ∈ wqueue e1)).
  { unfold e1. case_bool_decide; simpl; set_solver. }
  destruct Hin as (Hin & Hc1 & Hs1 & Hs2). clearbody e1.
  assert (Hset : forall c n, c <> DESTROYED ->
    waiters_agree (g <| heap ::= <[ptr := e1 <| condition := c |> <| ctr := n |>]> |>)).
  { intros c n Hn. eapply set_event_waiters; [exact W|exact He|..]; simpl.
    - intros t [?| ->]%Hs1; [by left|right; eauto].
    - intros t i Ht. destruct (wa_sleeper _ W _ _ _ Ht) as (_ & f & Hf & Hq & _). assert (f = e) as -> by congruence. eauto. }
  destruct sig.
  - intros Hx Ha. set (g1 := g <| heap ::= <[ptr := e1 <| condition := SIG_PENDING |>]> |>).
    eapply (wait_exit_waiters tid ptr id g1); [| |exact Hw|exact Hx|exact Ha].
    + specialize (Hset SIG_PENDING (ctr e1)). by destruct e1; apply Hset.
    + eapply idr_ok_dom; [| |exact Hok]; [done|]. simpl. rewrite dom_insert_L. apply elem_of_dom_2 in He. set_solver.
  - intros [= <- <-] _. specialize (Hset INITIAL (s32 (ctr e1 + 1))). destruct e1 as [m q c n x]. simpl in *. subst c.
    eapply (sleep_waiters _ (Hset ltac:(done))); [done|apply lookup_insert_eq|done|done].
Qed.

Lemma rotevt_destroy_waiters id st st' r :
  idr_ok st -> waiters_agree st -> rotevt_destroy id st = Some (st', r) -> woken_alive st' -> waiters_agree st'.
Proof.
  intros Hok W. unfold rotevt_destroy. destruct (eventIdr st !! id) as [p|] eqn:Hid; [|by intros [= <- <-]].
  destruct (heap st !! p) as [e|] eqn:He; [|done]. destruct (wqueue e) eqn:Hq; intros Heq.
  2:{ intros _. injection Heq as Heq _. rewrite <- Heq. by eapply set_and_wake_waiters. }
  assert (Hh : upd_event p (fun e => e <| condition := DESTROYED |>) st =
    st <| heap ::= <[p := e <| condition := DESTROYED |>]> |>).
  { unfold upd_event. destruct st. cbn in *. f_equal. apply map_eq. intros q. rewrite lookup_insert, lookup_alter. by case_decide; subst; rewrite ?He. }
  assert (Hno : forall t i, sleepers st !! t <> Some (p, i)).
  { intros t i Ht. destruct (wa_sleeper _ W _ _ _ Ht) as (_ & f & Hf & Hin & _). assert (f = e) as -> by congruence. rewrite Hq in Hin. set_solver. }
  rewrite Hh in Heq. injection Heq as Heq _. rewrite <- Heq. apply free_waiters with (ptr := p); [|eapply idr_ok_dom; [| |exact Hok]|done|done].
  - eapply set_event_waiters; [done|done| |]; simpl; [by left|]. intros t i Ht. by destruct (Hno t i).
  - done.
  - simpl. rewrite dom_insert_L. apply elem_of_dom_2 in He. set_solver.
Qed.

Lemma rotevt_create_waiters `{IdrAllocLaw} mem mot st :
  (forall a, mem = Some a -> heap st !! a = None) ->
  waiters_agree st -> waiters_agree (rotevt_create mem mot st).1.
Proof.
  intros Hfresh W. unfold rotevt_create. destruct mem as [a|]; [|done]. destruct mot as [m|]; [|done].
  specialize (Hfresh a eq_refl). destruct (idr_alloc_spec (eventIdr st)) as [[Hpos Hfree]|[Herr|Herr]]; [|by rewrite Herr..].
  rewrite (proj2 (Z.leb_le _ _) Hpos). split; simpl; [apply W| | |].
  - intros t p i Ht. destruct (wa_sleeper _ W _ _ _ Ht) as (Hi & f & Hf & Hq).
    split; [rewrite lookup_insert_ne by congruence; done|]. exists f. by rewrite lookup_insert_ne by congruence.
  - intros t p i Ht. apply (wa_woken _ W) in Ht. by rewrite lookup_insert_ne by congruence.
  - intros p e t. destruct (decide (p = a)) as [->|]; [|rewrite lookup_insert_ne by done; apply W].
    rewrite lookup_insert_eq. intros [= <-]. simpl. set_solver.
Qed.

(** Every step that frees no event under a woken waiter. *)
Lemma careful_step_waiters `{IdrAllocLaw} st st' :
  careful_step st st' -> rot_wf st -> waiters_agree st -> waiters_agree st'.
Proof.
  intros [Hstep Ha] Hwf W. pose proof Hwf as [_ Hok].
  destruct Hstep as [uid r st1|mem mot st1 Hf|id st1 st2 ret Hd|tid id sig st1 st2 r Hs Hw He
    |tid fr st1 Hs|tid sig st1 st2 r He|uid n w st1].
  - destruct (decide (uid = 0)) as [->|Hu]; [|unfold set_rotation; by rewrite (proj2 (Z.eqb_neq _ _) Hu)].
    destruct r as [r|]; [|done]. by apply set_rotation_visited.
  - by apply rotevt_create_waiters.
  - by eapply rotevt_destroy_waiters.
  - unfold rotevt_wait in He. destruct (eventIdr st1 !! id) as [p|] eqn:Hid; [|by simplify_eq].
    eapply (wait_loop_waiters tid p id sig (st1 <| woken ::= <[tid := (p, id)]> |>)); [| |by apply lookup_insert_eq| |done].
    + destruct W as [W1 W2 W3 W4]. split; simpl.
      * intros t fr Ht. rewrite lookup_insert_ne by congruence. by eapply W1.
      * done.
      * intros t q i. destruct (decide (t = tid)) as [->|]; [|rewrite lookup_insert_ne by done; apply W3].
        rewrite lookup_insert_eq. by intros [= <- <-].
      * intros q e t Hq Ht. destruct (W4 q e t Hq Ht) as [i Hi]. exists i. rewrite lookup_insert_ne; [done|].
        intros <-. destruct Hi; congruence.
    + done.
    + rewrite <- He. f_equal. destruct st1. cbn. f_equal. by rewrite delete_insert_id.
  - by apply runnable_waiters.
  - unfold wait_resume in He. destruct (woken st1 !! tid) as [[p i]|] eqn:Hw; [|by simplify_eq].
    by eapply wait_loop_waiters.
  - unfold set_rotation_sampling. cases; try done. by destruct W.
Qed.

(** ** An allocator that satisfies the law: one above the ids in use *)

Definition idr_above : IdrAlloc := fun m =>
  foldr (fun i acc => Z.max acc (i + 1)) 0 (elements (dom m)).

Lemma idr_above_bound l :
  0 <= foldr (fun i acc => Z.max acc (i + 1)) 0 l /\
  forall i, i ∈ l -> i < foldr (fun i acc => Z.max acc (i + 1)) 0 l.
Proof.
  induction l as [|x l [IH1 IH2]]; simpl; [split; [lia|set_solver]|]. split; [lia|].
  intros i [->|Hi]%elem_of_cons; [lia|]. specialize (IH2 i Hi). lia.
Qed.

Lemma idr_above_law : @IdrAllocLaw idr_above.
Proof.
  intros m. left. unfold idr_alloc, idr_above.
  destruct (idr_above_bound (elements (dom m))) as [H1 H2]. split; [done|].
  destruct (m !! _) eqn:E; [|done]. exfalso.
  apply elem_of_dom_2, elem_of_elements, H2 in E. lia.
Qed.

(** The state of a process that waits on event 0, whose threshold every sample
    exceeds, in a window of one sample. *)
Definition demo_motion : rotation_motion := mkMotion 0 0 0 true.
Definition demo_sample : dev_rotation := mkRot 5 5 5.
Definition demo_waiting : rot_state :=
  let st := (@rotevt_create idr_above (Some 100) (Some demo_motion) rot_init).1 in
  let st := (set_rotation_sampling 0 1 1 st).1 in
  (default (st, wait_sleep) (rotevt_wait 7 0 false st)).1.

Lemma demo_waiting_careful : rtc (@careful_step idr_above) rot_init demo_waiting.
Proof.
  eapply rtc_l; [split; [by apply (rs_create (Some 100) (Some demo_motion))|]; by intros tid fr|].
  eapply rtc_l; [split; [apply (rs_sampling 0 1 1)|]; by intros tid fr|].
  apply rtc_once. split; [by apply (rs_wait 7 0 false _ _ wait_sleep)|]. by intros tid fr.
Qed.

Lemma demo_waiting_reachable : rtc (@rot_step idr_above) rot_init demo_waiting.
Proof. eapply rtc_subrel; [|exact demo_waiting_careful]. by intros s s' [? _]. Qed.

(** The same process after a signal made it runnable. *)
Definition demo_signalled : rot_state := made_runnable 7 (100, 0) demo_waiting.

Lemma demo_waiting_waiters : waiters_agree demo_waiting.
Proof.
  assert (Hs : sleepers demo_waiting = {[7 := (100, 0)]}) by by vm_compute.
  assert (Hw : woken demo_waiting = ∅) by by vm_compute.
  assert (Hi : eventIdr demo_waiting = {[0 := 100]}) by by vm_compute.
  assert (Hh : heap demo_waiting = {[100 := mkEvent demo_motion [7] INITIAL 1 0]}) by by vm_compute.
  split; rewrite ?Hs, ?Hw, ?Hi, ?Hh.
  - by intros t fr _.
  - intros t p i [<- [= <- <-]]%lookup_singleton_Some. split; [done|]. eexists. split; [done|]. split; [by left|done].
  - by intros t p i.
  - intros p e t [<- <-]%lookup_singleton_Some ->%list_elem_of_singleton. exists 0. by left.
Qed.

Lemma demo_waiting_wf : rot_wf demo_waiting.
Proof.
  assert (Hi : eventIdr demo_waiting = {[0 := 100]}) by by vm_compute.
  assert (Hh : is_Some (heap demo_waiting !! 100)) by by vm_compute; eexists.
  split; [unfold window_ok; by vm_compute|].
  split; rewrite Hi.
  - by intros i q [_ <-]%lookup_singleton_Some.
  - intros i j q [-> _]%lookup_singleton_Some [-> _]%lookup_singleton_Some. done.
Qed.

(** ** Theorems *)

Lemma rot_step_wf `{IdrAllocLaw} st st' : rot_step st st' -> rot_wf st -> rot_wf st'.
Proof.
  intros Hstep Hinit.
  destruct Hstep as [uid r st1|mem mot st1 Hf|id st1 st2 ret Hd|tid id sig st1 st2 r Hs Hw He
    |tid fr st1 Hs|tid sig st1 st2 r He|uid n w st1].
  - by apply set_rotation_wf.
  - by apply rotevt_create_wf.
  - by eapply rotevt_destroy_wf.
  - unfold rotevt_wait in He. case_match; [|by simplify_eq]. by eapply wait_loop_wf.
  - by eapply rot_wf_agree; [|exact Hinit].
  - unfold wait_resume in He. destruct (woken st1 !! tid) as [[p i]|]; [|by simplify_eq].
    eapply wait_loop_wf; [exact He|]. by eapply rot_wf_agree; [|exact Hinit].
  - unfold set_rotation_sampling. cases; try done. simpl. destruct Hinit as [_ Hi].
    split; [|done]. unfold window_ok, MAX_WINDOW, kfifo_len in *. simpl. zbool.
    apply orb_false_iff in Heqb0 as [[? ?]%orb_false_iff ?]. zbool.
    split; [lia|]. split; [lia|]. case_decide; lia.
Qed.

Lemma rot_init_ok : rot_wf rot_init /\ waiters_agree rot_init.
Proof. split; [split; [unfold window_ok; by vm_compute|split]|split]; intros *; simpl; by rewrite lookup_empty. Qed.

(** C33: in every state reachable by any interleaving of the calls, the
    sampling limits are consistent ([0 <= sampleSize <= windowSize <= 512]),
    the queue holds at most [windowSize] samples (at most 512 when the window
    is 0), and every id of the idr refers to an allocated event of its own.
    If moreover no step of the run frees an event under a process that was
    made runnable and has not yet retaken the lock, the waiting processes and
    the queues agree: a process is asleep or runnable and not both, a sleeping
    process is on the queue of its event, which is allocated, still has its id
    and is not DESTROYED, a runnable one still has its event, and every entry
    of a queue is a process that waits on that event. *)
Theorem rotation_invariant `{IdrAllocLaw} st :
  (rtc rot_step rot_init st -> rot_wf st) /\
  (rtc careful_step rot_init st -> rot_wf st /\ waiters_agree st).
Proof.
  split.
  - pose proof (proj1 rot_init_ok) as Hinit. revert Hinit. generalize rot_init. intros st0 Hinit Hsteps.
    induction Hsteps as [|s1 s2 s3 Hstep _ IH]; [done|]. by apply IH, (rot_step_wf s1).
  - pose proof rot_init_ok as Hinit. revert Hinit. generalize rot_init. intros st0 Hinit Hsteps.
    induction Hsteps as [|s1 s2 s3 Hstep _ IH]; [done|]. apply IH. destruct Hinit as [Hwf W]. split.
    + by apply (rot_step_wf s1); [apply Hstep|].
    + by apply (careful_step_waiters s1).
Qed.

Lemma rotation_invariant_witness : rot_wf demo_waiting /\ waiters_agree demo_waiting.
Proof. exact (proj2 (@rotation_invariant idr_above idr_above_law demo_waiting) demo_waiting_careful). Defined.

(** [threshCheck] leaves the queue exactly as it found it, although it
    takes every sample off and puts it back, and answers whether at least
    [sampleSize] samples of the window exceed the threshold on all axes. *)
Theorem threshCheck_counts m st :
  kfifo_len (sampleQueue st) <= MAX_WINDOW ->
  threshCheck m st =
    (st, bool_decide (sampleSize st <=
           Z.of_nat (length (filter (fun r => exceeds m r = true) (sampleQueue st))))).
Proof.
  intros Hlen. rewrite threshCheck_spec by done. f_equal. unfold hit, exceeding.
  rewrite bool_decide_decide. case_decide; [by apply Z.leb_le|by apply Z.leb_gt; lia].
Qed.

Lemma threshCheck_counts_witness :
  (threshCheck demo_motion (rot_init <| sampleQueue := [demo_sample; demo_sample] |>)).2 = false.
Proof.
  rewrite (threshCheck_counts demo_motion (rot_init <| sampleQueue := [demo_sample; demo_sample] |>));
    [by vm_compute|vm_compute; discriminate].
Defined.

(** The queue is the sliding window of the samples: after any sequence of
    accepted samples it holds the last [windowSize] of all samples since the
    window was set, oldest first. *)
Theorem window_is_last_samples rs st :
  rot_wf st -> 1 <= windowSize st ->
  sampleQueue (foldl (fun st r => (set_rotation 0 (Some r) st).1) st rs) =
  lastn (Z.to_nat (windowSize st)) (sampleQueue st ++ rs).
Proof. apply samples_window. Qed.

Lemma window_is_last_samples_witness :
  sampleQueue (foldl (fun st r => (set_rotation 0 (Some r) st).1) demo_waiting
    [mkRot 1 1 1; mkRot 2 2 2]) = [mkRot 2 2 2].
Proof.
  rewrite (window_is_last_samples [mkRot 1 1 1; mkRot 2 2 2] demo_waiting).
  - by vm_compute.
  - exact demo_waiting_wf.
  - vm_compute. discriminate.
Defined.

(** C34: a sample triggers exactly the events it should.  When root sets a
    rotation, an event of the idr fires if and only if the updated window has
    at least [sampleSize] samples and at least [sampleSize] of them exceed its
    threshold.  An event that fires becomes EVT_TRIGGERED, every process that
    sleeps on it is made runnable and its queue keeps only the entries of
    processes that were runnable already; an event that does not fire keeps
    its contents and its sleepers.  The call keeps the queues and the waiting
    processes in agreement. *)
Theorem set_rotation_triggers r st id ptr e :
  rot_wf st -> waiters_agree st -> eventIdr st !! id = Some ptr -> heap st !! ptr = Some e ->
  let st' := (set_rotation 0 (Some r) st).1 in
  let fires := bool_decide (sampleSize st <= kfifo_len (sampleQueue st')) &&
               bool_decide (sampleSize st <= exceeding (motion e) (sampleQueue st')) in
  (set_rotation 0 (Some r) st).2 = 0 /\
  heap st' !! ptr =
    Some (if fires
          then e <| condition := EVT_TRIGGERED |>
                 <| wqueue := filter (fun t => sleepers st !! t = None) (wqueue e) |>
          else e) /\
  (forall tid, sleepers st !! tid = Some (ptr, id) ->
     if fires then sleepers st' !! tid = None /\ woken st' !! tid = Some (ptr, id)
     else sleepers st' !! tid = Some (ptr, id)) /\
  waiters_agree st'.
Proof.
  intros Hwf W Hid He. cbn zeta.
  pose proof Hwf as [Hw _].
  destruct (pushed_window r st Hw) as (_ & Hss & _).
  destruct (set_rotation_frame r st Hwf) as ((Hq & _) & _).
  destruct (set_rotation_visited r st Hwf W) as [[_ Hev] W'].
  destruct (Hev id ptr e Hid He) as (H1 & H2 & H3). rewrite Hq. unfold hit in *. rewrite Hss in *.
  assert (Hb : forall a b, bool_decide (a <= b) = (a <=? b)).
  { intros a b. rewrite bool_decide_decide. case_decide; symmetry; [by apply Z.leb_le|apply Z.leb_gt; lia]. }
  rewrite !Hb. split_and!; [done|exact H1| |done]. intros t Ht. destruct (_ && _); [by apply H3|].
  rewrite H2; [done..|]. destruct (wa_sleeper _ W _ _ _ Ht) as (_ & f & Hf & Hin & _). by simplify_eq.
Qed.

Lemma set_rotation_triggers_witness :
  condition <$> heap (set_rotation 0 (Some demo_sample) demo_waiting).1 !! 100 = Some EVT_TRIGGERED /\
  woken (set_rotation 0 (Some demo_sample) demo_waiting).1 !! 7 = Some (100, 0).
Proof.
  destruct (set_rotation_triggers demo_sample demo_waiting 0 100
    (mkEvent demo_motion [7] INITIAL 1 0)) as (_ & -> & Hw & _); [exact demo_waiting_wf|exact demo_waiting_waiters|done|done|].
  split; [by vm_compute|]. by apply (Hw 7).
Defined.

(** The entry of a process that a signal made runnable survives the trigger, so
    a destroy that comes next leaves the event to that process. *)
Example signalled_entry_stays :
  let st := (set_rotation 0 (Some demo_sample) demo_signalled).1 in
  wqueue <$> heap st !! 100 = Some [7] /\
  (forall st', rotevt_destroy 0 st = Some (st', 0) -> condition <$> heap st' !! 100 = Some DESTROYED).
Proof.
  cbv zeta. split; [by vm_compute|]. intros st'. destruct (rotevt_destroy 0 _) as [[st2 r]|] eqn:E; [|done].
  intros Heq. assert (st2 = st') as <- by congruence. vm_compute in E. injection E as <- _. by vm_compute.
Qed.

(** [set_rotation_sampling] is refused to everyone but root and for
    limits outside [0 <= nr_samples <= window <= MAX_WINDOW], without any
    effect; an accepted call discards the samples, and
    [get_rotation_sampling] then reports exactly the limits that were set. *)
Theorem sampling_roundtrip uid n w st :
  let '(st', ret) := set_rotation_sampling uid n w st in
  if decide (uid <> 0) then ret = - EPERM /\ st' = st
  else if decide (0 <= n <= w /\ w <= MAX_WINDOW) then
    ret = 0 /\ sampleQueue st' = [] /\ heap st' = heap st /\ eventIdr st' = eventIdr st /\
    get_rotation_sampling true true st' = (0, Some n, Some w)
  else ret = - EINVAL /\ st' = st.
Proof.
  unfold set_rotation_sampling.
  destruct (Z.eqb_spec uid 0) as [->|Hu]; cbn [negb].
  2:{ by rewrite decide_True. }
  destruct (Z.ltb_spec n 0), (Z.ltb_spec w n), (Z.ltb_spec MAX_WINDOW w); cbn [orb];
    repeat case_decide; try lia; done.
Qed.

(** A window of size 0, which [set_rotation_sampling] accepts, is not
    enforced: the queue keeps growing until the kfifo is full. *)
Theorem zero_window_unbounded r st :
  rot_wf st -> windowSize st = 0 -> kfifo_len (sampleQueue st) < MAX_WINDOW ->
  sampleQueue (set_rotation 0 (Some r) st).1 = sampleQueue st ++ [r].
Proof.
  intros Hwf Hw Hlen. destruct (set_rotation_frame r st Hwf) as ((-> & _) & _).
  unfold pushed. rewrite Hw.
  destruct (Z.eqb_spec (kfifo_len (sampleQueue st)) 0) as [Hz|Hz]; simpl.
  - unfold kfifo_len in Hz. destruct (sampleQueue st); [|simpl in Hz; lia]. done.
  - unfold kfifo_put. by rewrite (proj2 (Z.ltb_lt _ _) Hlen).
Qed.

Lemma zero_window_unbounded_witness :
  length (sampleQueue (set_rotation 0 (Some demo_sample)
    (rot_init <| sampleSize := 0 |> <| windowSize := 0 |>
              <| sampleQueue := [demo_sample] |>)).1) = 2%nat.
Proof.
  rewrite (zero_window_unbounded demo_sample
    (rot_init <| sampleSize := 0 |> <| windowSize := 0 |> <| sampleQueue := [demo_sample] |>));
    [done| |done|by vm_compute].
  split; [unfold window_ok; by vm_compute|]. split; intros *; simpl; by rewrite lookup_empty.
Defined.

(** The event after a process with a signal has left it. *)
Definition interrupted (tid : Z) (e : rotation_event) : rotation_event :=
  e <| condition := SIG_PENDING |> <| wqueue ::= filter (fun t => t <> tid) |>
    <| ctr ::= fun n => s32 (n - 1) |>.

Lemma wait_loop_interrupted tid ptr id e st :
  heap st !! ptr = Some e -> condition e = INITIAL ->
  wait_loop tid ptr id true st = Some (st <| heap ::= <[ptr := interrupted tid e]> |>, wait_return 0).
Proof.
  intros He Hc. unfold wait_loop. rewrite He, Hc. cbn [Z.eqb negb INITIAL].
  unfold wait_exit. simpl heap. rewrite lookup_insert_eq. cbn zeta. simpl. rewrite andb_false_r.
  do 2 f_equal. destruct st. unfold interrupted. cbn. f_equal. rewrite insert_insert_eq. f_equal.
  destruct e as [m q c n x]. cbn in *. case_bool_decide; cbn; [done|]. f_equal.
  by rewrite decide_False by (intros Hn; done).
Qed.

(** C35: an interrupted wait does not report the interruption.  A process that
    calls [rotevt_wait] on an untriggered event with a signal pending, or that
    sleeps in it and is made runnable by a signal, returns 0 instead of
    -ERESTARTSYS.  It leaves the event marked SIG_PENDING with its counter one
    lower (a process that never slept had not raised it) and its entry off the
    queue; the other waiters stay asleep, and every later wait on the event
    returns 0 at once although the event never triggered. *)
Theorem interrupted_wait_returns_zero tid id ptr e st :
  heap st !! ptr = Some e -> condition e = INITIAL -> eventIdr st !! id = Some ptr ->
  (exists st', rotevt_wait tid id true st = Some (st', wait_return 0) /\
     heap st' = <[ptr := interrupted tid e]> (heap st) /\ sleepers st' = sleepers st /\
     forall tid' sig', exists st'', rotevt_wait tid' id sig' st' = Some (st'', wait_return 0)) /\
  (sleepers st !! tid = Some (ptr, id) ->
   exists st', wait_resume tid true (made_runnable tid (ptr, id) st) = Some (st', wait_return 0) /\
     heap st' = <[ptr := interrupted tid e]> (heap st) /\ sleepers st' = delete tid (sleepers st) /\
     forall tid' sig', exists st'', rotevt_wait tid' id sig' st' = Some (st'', wait_return 0)).
Proof.
  intros He Hc Hid.
  assert (Hlater : forall st' tid' sig', eventIdr st' = eventIdr st -> heap st' = <[ptr := interrupted tid e]> (heap st) ->
    exists st'', rotevt_wait tid' id sig' st' = Some (st'', wait_return 0)).
  { intros st' tid' sig' Hi Hh. unfold rotevt_wait, wait_loop, wait_exit. rewrite Hi, Hid, Hh, lookup_insert_eq.
    cbn. case_match; eauto. }
  split.
  - unfold rotevt_wait at 1. rewrite Hid, (wait_loop_interrupted _ _ _ e) by done. eexists. split_and!; eauto.
  - intros Hs. unfold wait_resume. simpl woken. rewrite lookup_insert_eq, (wait_loop_interrupted _ _ _ e) by done.
    eexists. split_and!; eauto.
Qed.

Lemma interrupted_wait_returns_zero_witness :
  exists st', wait_resume 7 true demo_signalled = Some (st', wait_return 0) /\
    condition <$> heap st' !! 100 = Some SIG_PENDING.
Proof.
  destruct (interrupted_wait_returns_zero 7 0 100 (mkEvent demo_motion [7] INITIAL 1 0) demo_waiting)
    as [_ (st' & H & Hh & _)]; [by vm_compute..|].
  exists st'. split; [exact H|]. by rewrite Hh.
Defined.

(** An event can be freed under a process that waits on it.  Between the
    trigger and the moment a woken waiter retakes the lock, its wait queue is
    already empty, so [rotevt_destroy] frees the event and the waiter goes on
    with a dangling pointer. *)
Theorem destroy_under_woken_waiter_use_after_free :
  exists st, rtc (@rot_step idr_above) rot_init st /\ wait_resume 7 false st = None.
Proof.
  set (st1 := (set_rotation 0 (Some demo_sample) demo_waiting).1).
  destruct (rotevt_destroy 0 st1) as [[st2 r]|] eqn:E; [|by vm_compute in E].
  exists st2. split.
  - etransitivity; [exact demo_waiting_reachable|].
    apply (rtc_l _ _ st1); [apply (@rs_set idr_above)|].
    apply rtc_once. by apply (@rs_destroy idr_above 0 st1 st2 r).
  - vm_compute in E. simplify_eq. by vm_compute.
Qed.
