(* ===== verification/Ptree.v ===== *)
(** * The process-tree system call (ptree/ptree.c)

    [ptree] copies the processes below a root to the caller in breadth-first
    order, with the depth of each.  A [struct task_struct] is an entry of the
    task table, named by its pid (pids are those of the initial namespace);
    the result buffer [tree] is the list of the entries filled so far, so [i]
    is its length.

    The theorem: under the links the kernel keeps between a process and its
    children, the call always returns, with the breadth-first order cut to the
    size of the buffer and every level the distance from the root. *)

From S2P Require Import Prelude.

Record task_struct := mkPTask {
  comm : list Z;
  state : Z;
  uid : Z;
  real_parent : Z;
  group_leader : Z;
  children : list Z }.

Record prinfo := mkPrinfo {
  parent_pid : Z;
  pid : Z;
  pi_state : Z;
  pi_uid : Z;
  pi_comm : list Z;
  level : Z }.

Abbreviation task_table := (gmap Z task_struct).

(** [&init_task] for pid 0, [find_task_by_vpid] otherwise. *)
Definition get_root (tbl : task_table) (root_pid : Z) : option Z :=
  if root_pid =? 0 then Some 0
  else match tbl !! root_pid with Some _ => Some root_pid | None => None end.

(** [psCopy (dst, src, lvl)]; it returns 0 whenever [src] is a task. *)
Definition psCopy (tbl : task_table) (src lvl : Z) : option prinfo :=
  t ← tbl !! src;
  Some (mkPrinfo (real_parent t) src (state t) (uid t) (comm t) lvl).

(** The loop of [getLevel]; [None] is a dereference of a task that does not
    exist or more than [fuel] iterations. *)
Fixpoint level_loop (fuel : nat) (tbl : task_table) (root child res : Z) : option Z :=
  if root =? child then Some res
  else
    match fuel with
    | O => None
    | S n =>
        parent ← get_root tbl child;
        t ← tbl !! parent;
        level_loop n tbl root (real_parent t) (u16 (res + 1))
    end.

Definition getLevel (fuel : nat) (tbl : task_table) (root child : Z) : option Z :=
  res ← level_loop fuel tbl root child 0;
  Some (u16 (res + 1)).

(** The walk over the children of one task: [tree] grows while it is shorter
    than [knr]; threads are left out. *)
Fixpoint row_loop (tbl : task_table) (knr lvl : Z) (cursor : list Z) (tree : list prinfo)
    : option (list prinfo) :=
  match cursor with
  | [] => Some tree
  | task :: cursor =>
      if Z.of_nat (length tree) <? knr then
        t ← tbl !! task;
        if group_leader t =? task then
          e ← psCopy tbl task lvl;
          row_loop tbl knr lvl cursor (tree ++ [e])
        else row_loop tbl knr lvl cursor tree
      else Some tree
  end.

(** The breadth-first search; [next] is an [unsigned short]. *)
Fixpoint bfs_loop (fuel : nat) (tbl : task_table) (knr next : Z) (tree : list prinfo)
    : option (list prinfo) :=
  if (next <? Z.of_nat (length tree)) && (Z.of_nat (length tree) <? knr) then
    match fuel with
    | O => None
    | S n =>
        e ← tree !! Z.to_nat next;
        parent ← get_root tbl (pid e);
        t ← tbl !! parent;
        e0 ← head tree;
        lvl ← getLevel (Z.to_nat knr) tbl (pid e0) parent;
        tree ← row_loop tbl knr lvl (children t) tree;
        bfs_loop n tbl knr (u16 (next + 1)) tree
    end
  else Some tree.

(** What the caller gets: the return value and the writes to [*nr] and [buf]. *)
Record ptree_out := mkPtreeOut {
  ret : Z;
  nr_out : option Z;
  buf_out : option (list prinfo) }.

Definition fail (err : Z) : ptree_out := mkPtreeOut err None None.

(** [buf_ok], [nr_ok]: the pointers are not NULL; [knr] is what
    [copy_from_user] delivers; [mem_ok]: [kmalloc] succeeds; [copy_nr],
    [copy_buf]: the two [copy_to_user] succeed.  The loops get [knr]
    iterations. *)
Definition do_ptree (tbl : task_table) (buf_ok nr_ok : bool) (knr : option Z)
    (mem_ok copy_nr copy_buf : bool) (root_pid : Z) : option ptree_out :=
  if negb buf_ok || negb nr_ok then Some (fail (- EINVAL))
  else
    match knr with
    | None => Some (fail (- EFAULT))
    | Some knr =>
        if knr <? 1 then Some (fail (- EINVAL))
        else if negb mem_ok then Some (fail (-1))
        else
          match get_root tbl root_pid with
          | None => Some (fail (- ESRCH))
          | Some root =>
              t ← tbl !! root;
              tree ← (if group_leader t =? root
                      then e ← psCopy tbl root 0; Some [e] else Some []);
              tree ← bfs_loop (Z.to_nat knr) tbl knr 0 tree;
              let i := Z.of_nat (length tree) in
              if negb (i =? knr) && negb copy_nr then Some (fail (- EFAULT))
              else
                let nr := if i =? knr then None else Some i in
                if negb copy_buf then Some (mkPtreeOut (- EFAULT) nr None)
                else Some (mkPtreeOut 0 nr (Some tree))
          end
    end.

(** ** The process tree *)

(** The processes (not threads) among the children of a task. *)
Definition kids (tbl : task_table) (p : Z) : list Z :=
  filter (fun c => group_leader <$> tbl !! c = Some c)
    (default [] (children <$> tbl !! p)).

(** The links the kernel keeps: pid 0 is a task; every listed child is a task,
    listed once, whose real parent is the list's owner; and a process comes
    after its parent in the order of creation, so no process descends from
    itself. *)
Record linked (tbl : task_table) : Prop := {
  linked_init : is_Some (tbl !! 0);
  linked_child p t c : tbl !! p = Some t -> c ∈ children t ->
    exists tc, tbl !! c = Some tc /\ real_parent tc = p;
  linked_once p t : tbl !! p = Some t -> NoDup (children t);
  linked_order : exists rank : Z -> nat, forall p t c,
    tbl !! p = Some t -> c ∈ children t -> (rank p < rank c)%nat }.

(** [depth tbl root p d]: the root is [d] steps up from [p]. *)
Inductive depth (tbl : task_table) (root : Z) : Z -> nat -> Prop :=
  | depth_root : depth tbl root root 0
  | depth_step p t d :
      p <> root -> tbl !! p = Some t -> depth tbl root (real_parent t) d ->
      depth tbl root p (S d).

Lemma get_root_some tbl p : is_Some (tbl !! p) -> get_root tbl p = Some p.
Proof.
  intros [t Ht]. unfold get_root. rewrite Ht. destruct (Z.eqb_spec p 0); by subst.
Qed.

Lemma level_loop_depth tbl root p d fuel res :
  linked tbl -> depth tbl root p d -> (d <= fuel)%nat -> 0 <= res ->
  res + Z.of_nat d < 2 ^ 16 ->
  level_loop fuel tbl root p res = Some (res + Z.of_nat d).
Proof.
  intros Hl Hd. revert fuel res. induction Hd as [|p t d Hne Ht Hd IH]; intros fuel res Hf Hr Hlt.
  - destruct fuel; simpl; rewrite Z.eqb_refl; f_equal; lia.
  - destruct fuel as [|fuel]; [lia|]. simpl.
    destruct (Z.eqb_spec root p); [by subst|].
    rewrite (get_root_some tbl p) by eauto. simpl. rewrite Ht. simpl.
    rewrite u16_id, IH by lia. f_equal. lia.
Qed.

Lemma getLevel_depth tbl root p d fuel :
  linked tbl -> depth tbl root p d -> (d <= fuel)%nat -> Z.of_nat d + 1 < 2 ^ 16 ->
  getLevel fuel tbl root p = Some (Z.of_nat (S d)).
Proof.
  intros Hl Hd Hf Hlt. unfold getLevel.
  rewrite (level_loop_depth tbl root p d fuel 0) by (done || lia). simpl.
  rewrite u16_id by lia. f_equal. lia.
Qed.

(** ** One row *)

(** The entry [psCopy] fills for a task. *)
Definition entry (tbl : task_table) (lvl p : Z) : prinfo :=
  match tbl !! p with
  | Some t => mkPrinfo (real_parent t) p (state t) (uid t) (comm t) lvl
  | None => mkPrinfo 0 p 0 0 [] lvl
  end.

Definition pids (tree : list prinfo) : list Z := pid <$> tree.

Lemma psCopy_entry tbl p lvl : is_Some (tbl !! p) -> psCopy tbl p lvl = Some (entry tbl lvl p).
Proof. intros [t Ht]. unfold psCopy, entry. by rewrite Ht. Qed.

Lemma pid_entry tbl lvl p : pid (entry tbl lvl p) = p.
Proof. unfold entry. by case_match. Qed.

Lemma pids_entries tbl lvl l : pids (entry tbl lvl <$> l) = l.
Proof.
  unfold pids. rewrite <- list_fmap_compose. rewrite (list_fmap_ext _ id); [by rewrite list_fmap_id|].
  intros. apply pid_entry.
Qed.

Definition is_leader (tbl : task_table) (c : Z) : Prop := group_leader <$> tbl !! c = Some c.
#[export] Instance is_leader_dec tbl c : Decision (is_leader tbl c).
Proof. unfold is_leader. apply _. Defined.

Lemma row_loop_spec tbl knr lvl cursor tree :
  (forall c, c ∈ cursor -> is_Some (tbl !! c)) ->
  row_loop tbl knr lvl cursor tree =
  Some (tree ++ (entry tbl lvl <$>
    take (Z.to_nat knr - length tree) (filter (is_leader tbl) cursor))).
Proof.
  revert tree. induction cursor as [|c cursor IH]; intros tree Hin; simpl.
  { by rewrite filter_nil, take_nil, app_nil_r. }
  destruct (Z.ltb_spec (Z.of_nat (length tree)) knr) as [Hlt|Hge].
  2:{ replace (Z.to_nat knr - length tree)%nat with 0%nat by lia. by rewrite app_nil_r. }
  destruct (Hin c ltac:(set_solver)) as [t Ht]. rewrite Ht. simpl.
  assert (Hin' : forall x, x ∈ cursor -> is_Some (tbl !! x)) by set_solver.
  rewrite filter_cons.
  assert (Hlead : is_leader tbl c <-> group_leader t = c)
    by (unfold is_leader; rewrite Ht; simpl; split; congruence).
  destruct (Z.eqb_spec (group_leader t) c) as [Hg|Hg]; case_decide; try tauto.
  - rewrite psCopy_entry by eauto. simpl. rewrite IH by done. rewrite <- app_assoc.
    do 2 f_equal. rewrite length_app. simpl.
    replace (Z.to_nat knr - length tree)%nat with (S (Z.to_nat knr - (length tree + 1))) by lia.
    done.
  - by rewrite IH.
Qed.

Lemma kids_filter tbl p t : tbl !! p = Some t -> kids tbl p = filter (is_leader tbl) (children t).
Proof. intros Ht. unfold kids. by rewrite Ht. Qed.

(** ** The search *)

(** [l] is the order in which the first [n] tasks of [l] have been expanded. *)
Definition expanded (tbl : task_table) (knr root : Z) (n : nat) (l : list Z) : Prop :=
  l = take (Z.to_nat knr) (root :: mjoin (kids tbl <$> take n l)).

(** Every entry is the copy of its task with its distance from the root. *)
Definition levelled (tbl : task_table) (root : Z) (tree : list prinfo) : Prop :=
  forall e, e ∈ tree -> exists d, depth tbl root (pid e) d /\ is_Some (tbl !! pid e) /\
                          e = entry tbl (Z.of_nat d) (pid e).

Section Search.
Context (tbl : task_table) (Hl : linked tbl) (knr root : Z).

Lemma kids_in p c : c ∈ kids tbl p ->
  exists t tc, tbl !! p = Some t /\ c ∈ children t /\ tbl !! c = Some tc /\ real_parent tc = p.
Proof using Hl.
  unfold kids. rewrite list_elem_of_filter. intros [_ Hc].
  destruct (tbl !! p) as [t|] eqn:Ht; simpl in Hc; [|set_solver].
  destruct (linked_child tbl Hl p t c Ht Hc) as (tc & ? & ?). eauto 6.
Qed.

Lemma kids_NoDup p : NoDup (kids tbl p).
Proof using Hl.
  unfold kids. apply NoDup_filter. destruct (tbl !! p) eqn:Ht; simpl.
  - by eapply linked_once.
  - apply NoDup_nil_2.
Qed.

Context (rank : Z -> nat) (Hrank : forall p t c,
  tbl !! p = Some t -> c ∈ children t -> (rank p < rank c)%nat).

(** The tree below the root found so far, with the first [n] tasks expanded. *)
Record search_inv (n : nat) (tree : list prinfo) : Prop := {
  inv_expanded : expanded tbl knr root n (pids tree);
  inv_depth j e : tree !! j = Some e ->
    exists d, depth tbl root (pid e) d /\ (d <= j)%nat /\ is_Some (tbl !! pid e) /\
              e = entry tbl (Z.of_nat d) (pid e) /\ (rank root <= rank (pid e))%nat;
  inv_NoDup : NoDup (pids tree);
  inv_origin x : x ∈ pids tree -> x <> root -> exists q, q ∈ take n (pids tree) /\ x ∈ kids tbl q }.

Lemma depth_kid p c d :
  depth tbl root p d -> c ∈ kids tbl p -> (rank root <= rank p)%nat ->
  depth tbl root c (S d) /\ (rank root <= rank c)%nat /\ c <> root /\ is_Some (tbl !! c).
Proof using Hl Hrank.
  intros Hd Hc Hr. destruct (kids_in p c Hc) as (t & tc & Ht & Hct & Htc & <-).
  pose proof (Hrank _ _ _ Ht Hct) as Hlt.
  assert (c <> root) by (intros ->; lia).
  split_and!; [by eapply depth_step|lia|done|eauto].
Qed.

Lemma expanded_step n l p :
  expanded tbl knr root n l -> l !! n = Some p -> Z.of_nat (length l) < knr ->
  expanded tbl knr root (S n) (l ++ take (Z.to_nat knr - length l) (kids tbl p)).
Proof.
  unfold expanded. intros Hexp Hp Hlt. pose proof (lookup_lt_Some _ _ _ Hp) as Hn.
  assert (Hfull : l = root :: mjoin (kids tbl <$> take n l)).
  { rewrite Hexp at 1. apply take_ge. apply (f_equal length) in Hexp.
    rewrite length_take in Hexp. lia. }
  rewrite take_app_le, (take_S_r _ _ _ Hp), fmap_app, join_app by lia.
  cbn [fmap list_fmap mjoin list_join].
  rewrite app_nil_r, app_comm_cons, <- Hfull, take_app. f_equal.
  symmetry. apply take_ge. lia.
Qed.

Lemma search_step n tree e :
  search_inv n tree -> tree !! n = Some e -> Z.of_nat (length tree) < knr ->
  forall d, depth tbl root (pid e) d -> (d <= n)%nat -> (rank root <= rank (pid e))%nat ->
  search_inv (S n) (tree ++ (entry tbl (Z.of_nat (S d)) <$>
    take (Z.to_nat knr - length tree) (kids tbl (pid e)))).
Proof using Hl Hrank.
  intros [Hexp Hdep Hnd Hor] He Hlt d Hd Hdn Hre.
  set (p := pid e) in *. set (new := take _ (kids tbl p)).
  assert (Hp : pids tree !! n = Some p) by (unfold pids; by rewrite list_lookup_fmap, He).
  assert (Hpids : pids (tree ++ (entry tbl (Z.of_nat (S d)) <$> new)) = pids tree ++ new).
  { unfold pids at 1. rewrite fmap_app. f_equal. apply pids_entries. }
  assert (Hlen : length (pids tree) = length tree) by apply length_fmap.
  assert (Hn : (n < length (pids tree))%nat) by by eapply lookup_lt_Some.
  assert (Htake : take (S n) (pids tree ++ new) = take n (pids tree) ++ [p]).
  { rewrite take_app_le by lia. by apply take_S_r. }
  assert (Hnew : forall x, x ∈ new -> x ∈ kids tbl p).
  { intros x. unfold new. intros (i & Hi)%list_elem_of_lookup.
    apply lookup_take_Some in Hi as [Hi _]. by eapply list_elem_of_lookup_2. }
  split.
  - rewrite Hpids. unfold new. rewrite <- Hlen. apply expanded_step; [done|done|lia].
  - intros j x Hj. apply lookup_app_Some in Hj as [Hj|[Hge Hj]].
    { apply Hdep. done. }
    rewrite list_lookup_fmap in Hj. destruct (new !! (j - length tree)%nat) as [c|] eqn:Hc; [|done].
    simpl in Hj. simplify_eq. rewrite pid_entry.
    apply list_elem_of_lookup_2, Hnew in Hc.
    destruct (depth_kid p c d Hd Hc Hre) as (? & ? & _ & ?).
    exists (S d). split_and!; try done. lia.
  - rewrite Hpids. apply NoDup_app. split_and!; [done| |].
    + intros x Hx Hxn%Hnew. destruct (depth_kid p x d Hd Hxn Hre) as (_ & _ & Hxr & _).
      destruct (Hor x Hx Hxr) as (q & Hq & Hxq).
      destruct (kids_in p x Hxn) as (? & tx & _ & _ & Htx & Hp1).
      destruct (kids_in q x Hxq) as (? & tx' & _ & _ & Htx' & Hq1).
      assert (q = p) as -> by congruence.
      apply list_elem_of_lookup in Hq as (i & Hi).
      apply lookup_take_Some in Hi as [Hi Hin].
      pose proof (NoDup_lookup _ _ _ _ Hnd Hi Hp). lia.
    + unfold new. eapply sublist_NoDup; [apply kids_NoDup|apply sublist_take].
  - rewrite Hpids, Htake. intros x [Hx|Hx]%elem_of_app Hxr.
    + destruct (Hor x Hx Hxr) as (q & ? & ?). exists q. set_solver.
    + exists p. split; [set_solver|]. by apply Hnew.
Qed.

Lemma bfs_loop_spec fuel n tree :
  knr < 2 ^ 16 -> (n + fuel = Z.to_nat knr)%nat -> (n <= length tree)%nat ->
  (head tree = Some (entry tbl 0 root)) -> Z.of_nat (length tree) <= knr ->
  search_inv n tree ->
  exists tree' m, bfs_loop fuel tbl knr (Z.of_nat n) tree = Some tree' /\
    search_inv m tree' /\ Z.of_nat (length tree') <= knr /\
    (m = length tree' \/ (length tree' = Z.to_nat knr)).
Proof using Hl Hrank.
  intros Hk. revert n tree. induction fuel as [|fuel IH]; intros n tree Hn Hle Hhd Hlen Hinv;
    cbn [bfs_loop];
    destruct (Z.ltb_spec (Z.of_nat n) (Z.of_nat (length tree))) as [H1|H1];
    destruct (Z.ltb_spec (Z.of_nat (length tree)) knr) as [H2|H2]; cbn [andb];
    try (exists tree, n; split_and!; [done|done|lia|lia]); try lia.
  rewrite Nat2Z.id.
  destruct (lookup_lt_is_Some_2 tree n) as [e He]; [lia|]. rewrite He. cbn [mbind option_bind].
  destruct (inv_depth _ _ Hinv n e He) as (d & Hd & Hdn & Hsome & Hee & Hre).
  rewrite get_root_some by done. cbn [mbind option_bind].
  destruct Hsome as [t Ht]. rewrite Ht. cbn [mbind option_bind].
  rewrite Hhd. cbn [mbind option_bind]. rewrite pid_entry.
  rewrite (getLevel_depth tbl root (pid e) d) by (done || lia). cbn [mbind option_bind].
  rewrite row_loop_spec.
  2:{ intros c Hc. destruct (linked_child tbl Hl _ _ c Ht Hc) as (tc & ? & _). eauto. }
  cbn [mbind option_bind]. rewrite <- (kids_filter _ _ _ Ht).
  rewrite u16_id by lia. replace (Z.of_nat n + 1) with (Z.of_nat (S n)) by lia.
  apply IH.
  - lia.
  - rewrite length_app. lia.
  - destruct tree; [done|]. done.
  - rewrite length_app, length_fmap, length_take. lia.
  - by apply search_step.
Qed.
End Search.


(** ** The system call *)

(** [p] is the root or reached from it through children that are processes. *)
Definition below (tbl : task_table) : Z -> Z -> Prop := rtc (fun p c => c ∈ kids tbl p).

(** What the caller is promised: the entries are the breadth-first order of the
    process tree cut to [knr] (each process is followed, in turn, by the
    children of the processes before it), no process is listed twice, each
    entry is its process with its distance from the root, and a list shorter
    than the buffer holds every process below the root. *)
Record bfs_listing (tbl : task_table) (knr root : Z) (tree : list prinfo) : Prop := {
  listing_order : pids tree = take (Z.to_nat knr) (root :: mjoin (kids tbl <$> pids tree));
  listing_NoDup : NoDup (pids tree);
  listing_levels : levelled tbl root tree;
  listing_complete p : Z.of_nat (length tree) < knr -> below tbl root p -> p ∈ pids tree }.

Lemma order_complete tbl knr root l p q :
  l = take knr (root :: mjoin (kids tbl <$> l)) -> (length l < knr)%nat ->
  p ∈ l -> below tbl p q -> q ∈ l.
Proof.
  intros Hl Hlt Hp Hq.
  assert (Hfull : l = root :: mjoin (kids tbl <$> l)).
  { rewrite Hl at 1. apply take_ge. apply (f_equal length) in Hl.
    rewrite length_take in Hl. lia. }
  induction Hq as [|p c q Hc _ IH]; [done|]. apply IH.
  rewrite Hfull. right. apply list_elem_of_join. exists (kids tbl p).
  split; [done|]. by apply list_elem_of_fmap_2.
Qed.

Lemma expanded_order tbl knr root n l :
  expanded tbl knr root n l -> n = length l \/ length l = Z.to_nat knr ->
  l = take (Z.to_nat knr) (root :: mjoin (kids tbl <$> l)).
Proof.
  unfold expanded. intros Hexp [->|Hlen].
  - by rewrite firstn_all in Hexp.
  - assert (Hsplit : root :: mjoin (kids tbl <$> l) =
      (root :: mjoin (kids tbl <$> take n l)) ++ mjoin (kids tbl <$> drop n l)).
    { rewrite <- (take_drop n l) at 1. by rewrite fmap_app, join_app. }
    rewrite Hsplit, take_app_le; [done|].
    apply (f_equal length) in Hexp. rewrite length_take in Hexp. lia.
Qed.

Lemma search_root tbl knr root rank :
  1 <= knr -> is_leader tbl root -> search_inv tbl knr root rank 0 [entry tbl 0 root].
Proof.
  intros Hk Hr. assert (is_Some (tbl !! root)).
  { unfold is_leader in Hr. destruct (tbl !! root); eauto. done. }
  split.
  - unfold expanded, pids. simpl. rewrite pid_entry.
    destruct (Z.to_nat knr) eqn:?; [lia|]. simpl. by rewrite take_nil.
  - intros [|j] e He; simplify_eq/=. exists 0%nat. rewrite pid_entry.
    split_and!; [constructor|lia|done|done|lia].
  - apply NoDup_singleton.
  - unfold pids. simpl. rewrite pid_entry. set_solver.
Qed.

Lemma search_listing tbl knr root rank m tree :
  search_inv tbl knr root rank m tree ->
  m = length tree \/ length tree = Z.to_nat knr -> 1 <= knr -> bfs_listing tbl knr root tree.
Proof.
  intros [Hexp Hdep Hnd _] Hm Hk.
  assert (Hlen : length (pids tree) = length tree) by apply length_fmap.
  assert (Hord := expanded_order _ _ _ _ _ Hexp ltac:(lia)).
  split; [done|done| |].
  - intros e (j & Hj)%list_elem_of_lookup.
    destruct (Hdep j e Hj) as (d & ? & _ & ? & ? & _). eauto.
  - intros p Hlt Hp. eapply order_complete; [done|lia| |done].
    rewrite Hord. destruct (Z.to_nat knr) eqn:?; [lia|]. left.
Qed.

(** C36: for a process [root] and a buffer of [1 <= knr < 2^16] entries the
    system call returns 0 with the breadth-first listing of the tree below
    [root]; it writes [*nr] exactly when fewer than [knr] entries were found. *)
Theorem do_ptree_bfs tbl knr root :
  linked tbl -> 1 <= knr < 2 ^ 16 -> is_leader tbl root ->
  exists tree,
    do_ptree tbl true true (Some knr) true true true root =
      Some (mkPtreeOut 0 (if Z.of_nat (length tree) =? knr then None
                          else Some (Z.of_nat (length tree))) (Some tree)) /\
    Z.of_nat (length tree) <= knr /\ bfs_listing tbl knr root tree.
Proof.
  intros Hl Hk Hr. destruct (linked_order tbl Hl) as [rank Hrank].
  destruct (bfs_loop_spec tbl Hl knr root rank Hrank (Z.to_nat knr) 0 [entry tbl 0 root])
    as (tree & m & Hb & Hinv & Hlen & Hm);
    [lia|lia|simpl; lia|done|simpl; lia|by apply search_root; [lia|]|].
  exists tree. split_and!; [|done|by eapply search_listing; [done|lia|lia]].
  unfold do_ptree. cbn [negb orb]. rewrite (proj2 (Z.ltb_ge knr 1)) by lia.
  unfold is_leader in Hr. destruct (tbl !! root) as [t|] eqn:Ht; [|done].
  rewrite get_root_some by eauto. rewrite Ht. cbn [mbind option_bind].
  injection Hr as Hr. rewrite Hr, Z.eqb_refl.
  rewrite psCopy_entry by eauto. cbn [mbind option_bind].
  change (Z.of_nat 0) with 0 in Hb. rewrite Hb. cbn [mbind option_bind].
  by rewrite andb_false_r.
Qed.

(** The tree 1 -> {2, 3, 5}, 2 -> {4}, where 5 is a thread of 1. *)
Definition demo_tbl : task_table :=
  <[0 := mkPTask [] 0 0 0 0 [1]]> (<[1 := mkPTask [] 0 0 0 1 [2; 3; 5]]>
  (<[2 := mkPTask [] 1 0 1 2 [4]]> (<[3 := mkPTask [] 1 0 1 3 []]>
  (<[4 := mkPTask [] 1 0 2 4 []]> (<[5 := mkPTask [] 1 0 1 1 []]> ∅))))).

Lemma demo_tbl_linked : linked demo_tbl.
Proof.
  assert (Hall : map_Forall (fun p t =>
      Forall (fun c => real_parent <$> demo_tbl !! c = Some p /\ p < c) (children t) /\
      NoDup (children t) /\ 0 <= p) demo_tbl)
    by (apply (bool_decide_unpack _); vm_compute; exact I).
  split.
  - vm_compute. eauto.
  - intros p t c Hp Hc. destruct (Hall p t Hp) as (Hf & _).
    rewrite Forall_forall in Hf. destruct (Hf c Hc) as [He _].
    destruct (demo_tbl !! c) as [tc|]; [|done]. simpl in He. exists tc. split; congruence.
  - intros p t Hp. by destruct (Hall p t Hp) as (_ & ? & _).
  - exists Z.to_nat. intros p t c Hp Hc. destruct (Hall p t Hp) as (Hf & _ & ?).
    rewrite Forall_forall in Hf. destruct (Hf c Hc). lia.
Qed.

Lemma do_ptree_bfs_witness :
  exists tree, do_ptree demo_tbl true true (Some 3) true true true 1 =
      Some (mkPtreeOut 0 (if Z.of_nat (length tree) =? 3 then None
                          else Some (Z.of_nat (length tree))) (Some tree)) /\
    Z.of_nat (length tree) <= 3 /\ bfs_listing demo_tbl 3 1 tree.
Proof.
  apply (do_ptree_bfs demo_tbl 3 1); [apply demo_tbl_linked|lia|vm_compute; reflexivity].
Defined.

Example do_ptree_demo :
  (fun o => (ret o, nr_out o, option_map (map (fun e => (pid e, level e))) (buf_out o))) <$>
    do_ptree demo_tbl true true (Some 10) true true true 1 =
  Some (0, Some 4, Some [(1, 0); (2, 1); (3, 1); (4, 2)]).
Proof. vm_compute. reflexivity. Qed.

(** On an error nothing reaches the buffer: a null pointer or an entry
    count below 1 is [EINVAL], an unreadable [nr] [EFAULT], a failed
    allocation -1, an unknown root [ESRCH]; and a thread as the root gives an
    empty listing. *)
Theorem do_ptree_errors tbl mem_ok copy_nr copy_buf root :
  (forall b n k o, do_ptree tbl b n k mem_ok copy_nr copy_buf root = Some o ->
     ret o <> 0 -> buf_out o = None) /\
  (forall b n k, b && n = false ->
     do_ptree tbl b n k mem_ok copy_nr copy_buf root = Some (fail (- EINVAL))) /\
  do_ptree tbl true true None mem_ok copy_nr copy_buf root = Some (fail (- EFAULT)) /\
  (forall k, k < 1 ->
     do_ptree tbl true true (Some k) mem_ok copy_nr copy_buf root = Some (fail (- EINVAL))) /\
  (forall k, 1 <= k ->
     do_ptree tbl true true (Some k) false copy_nr copy_buf root = Some (fail (-1))) /\
  (forall k, 1 <= k -> root <> 0 -> tbl !! root = None ->
     do_ptree tbl true true (Some k) true copy_nr copy_buf root = Some (fail (- ESRCH))) /\
  (forall k, 1 <= k -> is_Some (tbl !! root) -> ~ is_leader tbl root ->
     do_ptree tbl true true (Some k) true true true root =
     Some (mkPtreeOut 0 (Some 0) (Some []))).
Proof.
  assert (Hk : forall k, 1 <= k -> (k <? 1) = false) by (intros; apply Z.ltb_ge; lia).
  split_and!; unfold do_ptree; cbn [negb orb].
  - intros b n k o. unfold fail. intros Ho Hr.
    repeat (case_match; simplify_option_eq; try done).
  - intros [] [] k ?; done.
  - done.
  - intros k ?. by rewrite (proj2 (Z.ltb_lt k 1)).
  - intros k ?. by rewrite Hk.
  - intros k ? Hr Hn. rewrite Hk by done. unfold get_root.
    rewrite (proj2 (Z.eqb_neq root 0)), Hn by done. done.
  - intros k ? Hs Hr. rewrite Hk, get_root_some by done.
    destruct Hs as [t Ht]. unfold is_leader in Hr. rewrite Ht in *. cbn [mbind option_bind fmap option_map] in *.
    destruct (Z.eqb_spec (group_leader t) root) as [He|_]; [by destruct Hr; simpl; rewrite He|].
    destruct k as [|k|k]; [lia| |lia]. by destruct (Z.to_nat (Z.pos k)).
Qed.
