(* ===== verification/CString.v ===== *)
(** * C strings and outcomes

    The functions of <string.h> that the shell and the web server use, on a
    character array held as the list of its bytes.  A [char *] into an array is
    an offset; the string it points to ends before the next 0.  [strtok] writes
    into the array it cuts, and both programs depend on that: the array is
    therefore a value that is passed on, not a sequence of tokens.

    [split] and [words] are the reference: [strtok_loop_spec] shows that a loop
    over [strtok] visits exactly the words of the string, where each of them
    lies in the array afterwards, and what the array's string then is. *)

From S2P Require Import Prelude.
From stdpp Require Import strings.
#[local] Open Scope Z_scope.

(** ** Outcomes of C code

    Code that may stop early: a failed [assert], an access the language leaves
    undefined, or [exit]. *)

Inductive stop := Aborted | Undefined | Exited (code : Z).

Abbreviation run A := (A + stop)%type.

Definition bind {A B : Type} (e : run A) (f : A -> run B) : run B :=
  match e with inl a => f a | inr s => inr s end.
Declare Scope run_scope.
#[global] Open Scope run_scope.
Notation "'let*' x := e 'in' k" := (bind e (fun x => k))
  (at level 10, x binder, k at level 200) : run_scope.

Definition get {A : Type} (o : option A) : run A :=
  match o with Some a => inl a | None => inr Undefined end.

(** ** Strings *)

(** The bytes of a string literal, without its terminator. *)
Definition bytes (s : string) : list Z :=
  (fun a => Z.of_nat (Ascii.nat_of_ascii a)) <$> String.list_ascii_of_string s.
Arguments bytes _%_string.

(** The string at the start of an array. *)
Fixpoint cstr (l : list Z) : list Z :=
  match l with
  | [] => []
  | c :: l => if c =? 0 then [] else c :: cstr l
  end.

(** The string at offset [p]. *)
Definition cstr_at (b : list Z) (p : nat) : list Z := cstr (drop p b).

Definition strlen (s : list Z) : Z := Z.of_nat (length s).

Fixpoint strspn (del l : list Z) : nat :=
  match l with
  | [] => 0
  | c :: l => if bool_decide (c ∈ del) then S (strspn del l) else 0
  end.

Fixpoint strcspn (del l : list Z) : nat :=
  match l with
  | [] => 0
  | c :: l => if bool_decide (c ∈ del) || (c =? 0) then 0 else S (strcspn del l)
  end.

(** [strstr]: the first occurrence of [t] in [s]. *)
Fixpoint strstr (s t : list Z) : option nat :=
  if bool_decide (take (length t) s = t) then Some 0%nat
  else match s with
       | [] => None
       | _ :: s => S <$> strstr s t
       end.

(** [strrchr]: the last occurrence of [c]. *)
Fixpoint strrchr (s : list Z) (c : Z) : option nat :=
  match s with
  | [] => None
  | d :: s => match strrchr s c with
              | Some n => Some (S n)
              | None => if d =? c then Some 0%nat else None
              end
  end.

(** [strtok (b + pos, del)], and [strtok (NULL, del)] with the saved offset as
    [pos]: the array, the saved offset and the offset of the token. *)
Definition strtok (del : list Z) (pos : nat) (b : list Z) : list Z * nat * option nat :=
  let p := (pos + strspn del (drop pos b))%nat in
  match b !! p with
  | Some 0 | None => (b, p, None)
  | Some _ =>
      let q := (p + strcspn del (drop p b))%nat in
      match b !! q with
      | Some 0 | None => (b, q, Some p)
      | Some _ => (<[q := 0]> b, S q, Some p)
      end
  end.

(** [for (t = strtok (b + pos, del); t != NULL; t = strtok (NULL, del)) body],
    where [body] may leave the function with a result ([inr]). *)
Fixpoint strtok_loop {S R : Type} (body : nat -> list Z -> S -> S + R) (del : list Z)
    (fuel : nat) (pos : nat) (b : list Z) (s : S) : (list Z * S) + (list Z * R) :=
  match strtok del pos b with
  | (b, _, None) => inl (b, s)
  | (b, save, Some p) =>
      match body p (cstr_at b p) s with
      | inr r => inr (b, r)
      | inl s => match fuel with
                 | O => inl (b, s)
                 | S n => strtok_loop body del n save b s
                 end
      end
  end.

(** [fgets (n)] on the remaining input: what it reads, the rest, and whether
    it met the end of the input. *)
Fixpoint fgets (n : nat) (input : list Z) : list Z * list Z * bool :=
  match n with
  | O => ([], input, false)
  | S n =>
      match input with
      | [] => ([], [], true)
      | c :: input =>
          if c =? 10 then ([c], input, false)
          else let '(r, rest, eof) := fgets n input in (c :: r, rest, eof)
      end
  end.

(** ** Reference: splitting a string *)

Fixpoint split (del s : list Z) : list (list Z) :=
  match s with
  | [] => [[]]
  | c :: s =>
      if bool_decide (c ∈ del) then [] :: split del s
      else match split del s with
           | w :: ws => (c :: w) :: ws
           | [] => [[c]]
           end
  end.

Definition words (del s : list Z) : list (list Z) := filter (fun w => w <> []) (split del s).

(** The same loop over a list of tokens with their offsets. *)
Fixpoint fold_until {S R : Type} (body : nat -> list Z -> S -> S + R)
    (l : list (nat * list Z)) (s : S) : S + R :=
  match l with
  | [] => inl s
  | (p, w) :: l => match body p w s with
                   | inl s => fold_until body l s
                   | inr r => inr r
                   end
  end.

(** The string [w] lies at offset [p] of [b]. *)
Definition str_at (b : list Z) (p : nat) (w : list Z) : Prop :=
  (0 ∉ w) /\ (exists post, drop p b = w ++ 0 :: post).

(** The strings [ws] lie at the increasing offsets [ps], each after the end of
    the one before. *)
Inductive laid (b : list Z) : list nat -> list (list Z) -> Prop :=
  | laid_nil : laid b [] []
  | laid_cons p w ps ws :
      str_at b p w -> Forall (fun q => p + length w < q)%nat ps ->
      laid b ps ws -> laid b (p :: ps) (w :: ws).

Lemma cstr_app w l : 0 ∉ w -> cstr (w ++ 0 :: l) = w.
Proof.
  induction w as [|c w IH]; intros Hw; [done|]. simpl.
  apply not_elem_of_cons in Hw as [? ?].
  destruct (Z.eqb_spec c 0); [congruence|]. by rewrite IH.
Qed.

Lemma cstr_at_str b p w : str_at b p w -> cstr_at b p = w.
Proof. intros [? [post Hd]]. unfold cstr_at. rewrite Hd. by apply cstr_app. Qed.

Lemma str_at_app pre w post : 0 ∉ w -> str_at (pre ++ w ++ 0 :: post) (length pre) w.
Proof. intros ?. split; [done|]. exists post. by rewrite drop_app_length. Qed.

Lemma str_at_drop b b' p w : drop p b = drop p b' -> str_at b p w -> str_at b' p w.
Proof. intros He [? [post Hd]]. split; [done|]. exists post. congruence. Qed.

Lemma laid_drop b b' ps ws :
  (forall p, p ∈ ps -> drop p b = drop p b') -> laid b ps ws -> laid b' ps ws.
Proof.
  intros He Hl. induction Hl as [|p w ps ws Hs Hf Hl IH]; constructor; auto.
  - eapply str_at_drop; [|done]. apply He. left.
  - apply IH. intros q Hq. apply He. by right.
Qed.

Lemma split_ne del s : split del s <> [].
Proof. induction s; simpl; [done|]. cases; [done|]. by destruct (split del s). Qed.

Lemma split_delim del d s : d ∈ del -> split del (d :: s) = [] :: split del s.
Proof. intros. simpl. by rewrite bool_decide_true. Qed.

Lemma split_word del t s :
  Forall (fun c => c ∉ del) t ->
  split del (t ++ s) = match split del s with w :: ws => (t ++ w) :: ws | [] => [] end.
Proof.
  induction 1 as [|c t Hc Ht IH]; simpl.
  - pose proof (split_ne del s). by destruct (split del s).
  - rewrite bool_decide_false by done. rewrite IH.
    pose proof (split_ne del s). by destruct (split del s).
Qed.

Lemma words_delims del ds s :
  Forall (fun c => c ∈ del) ds -> words del (ds ++ s) = words del s.
Proof.
  unfold words. induction 1 as [|d ds Hd Hds IH]; [done|].
  rewrite <- app_comm_cons, split_delim by done. by rewrite filter_cons_False by tauto.
Qed.

Lemma words_nil del ds : Forall (fun c => c ∈ del) ds -> words del ds = [].
Proof. intros H. rewrite <- (app_nil_r ds). rewrite words_delims by done. done. Qed.

Lemma words_last del t : t <> [] -> Forall (fun c => c ∉ del) t -> words del t = [t].
Proof.
  intros Hne Ht. unfold words. rewrite <- (app_nil_r t) at 1. rewrite split_word by done.
  simpl. rewrite app_nil_r, filter_cons_True by done. done.
Qed.

Lemma words_cons del t d s :
  t <> [] -> Forall (fun c => c ∉ del) t -> d ∈ del ->
  words del (t ++ d :: s) = t :: words del s.
Proof.
  intros Hne Ht Hd. unfold words. rewrite split_word by done. rewrite split_delim by done.
  rewrite app_nil_r, filter_cons_True by done. done.
Qed.

(** ** [strtok] cuts the first word *)

Lemma strspn_app del s c l :
  c ∉ del -> Forall (fun c => c ∈ del) s -> strspn del (s ++ c :: l) = length s.
Proof.
  intros Hc. induction 1; simpl.
  - by rewrite bool_decide_false.
  - rewrite bool_decide_true by done. by f_equal.
Qed.

Lemma strcspn_app del t c l :
  c ∈ del \/ c = 0 -> Forall (fun c => c ∉ del) t -> 0 ∉ t ->
  strcspn del (t ++ c :: l) = length t.
Proof.
  intros Hc. induction 1 as [|x t Hx Ht IH]; intros H0; simpl.
  - destruct Hc as [Hc| ->]; [by rewrite bool_decide_true|]. by rewrite orb_true_r.
  - apply not_elem_of_cons in H0 as [? ?]. rewrite bool_decide_false by done.
    destruct (Z.eqb_spec x 0); [congruence|]. simpl. by rewrite IH.
Qed.

(** A string is delimiters, or delimiters and one word at the end, or
    delimiters, a word, a delimiter and a rest. *)
Inductive cut_of (del : list Z) : list Z -> Prop :=
  | cut_none ds : Forall (fun c => c ∈ del) ds -> cut_of del ds
  | cut_last ds t : Forall (fun c => c ∈ del) ds -> t <> [] ->
      Forall (fun c => c ∉ del) t -> cut_of del (ds ++ t)
  | cut_more ds t d r : Forall (fun c => c ∈ del) ds -> t <> [] ->
      Forall (fun c => c ∉ del) t -> d ∈ del -> cut_of del (ds ++ t ++ d :: r).

Lemma cut_exists del s : cut_of del s.
Proof.
  induction s as [|c s IH]; [apply cut_none; constructor|].
  destruct (decide (c ∈ del)) as [Hc|Hc].
  - destruct IH as [ds Hds|ds t Hds Hne Ht|ds t d r Hds Hne Ht Hd].
    + apply cut_none. by constructor.
    + apply (cut_last del (c :: ds) t); [by constructor|done..].
    + apply (cut_more del (c :: ds) t d r); [by constructor|done..].
  - destruct IH as [ds Hds|ds t Hds Hne Ht|ds t d r Hds Hne Ht Hd].
    + destruct Hds as [|d ds Hd Hds].
      * apply (cut_last del [] [c]); [constructor|done|by constructor].
      * apply (cut_more del [] [c] d ds); [constructor|done|by constructor|done].
    + destruct Hds as [|d ds Hd Hds].
      * apply (cut_last del [] (c :: t)); [constructor|done|by constructor].
      * apply (cut_more del [] [c] d (ds ++ t)); [constructor|done|by constructor|done].
    + destruct Hds as [|d' ds Hd' Hds].
      * apply (cut_more del [] (c :: t) d r); [constructor|done|by constructor|done].
      * apply (cut_more del [] [c] d' (ds ++ t ++ d :: r)); [constructor|done|by constructor|done].
Qed.

Section Strtok.
Context (del pre post : list Z) (Hdel : 0 ∉ del).

Lemma lookup_mid (l1 l2 : list Z) c l3 n :
  n = (length l1 + length l2)%nat -> (l1 ++ l2 ++ c :: l3) !! n = Some c.
Proof. intros ->. rewrite app_assoc. apply list_lookup_middle. by rewrite length_app. Qed.

Lemma drop_mid (l1 l2 l3 : list Z) n :
  n = (length l1 + length l2)%nat -> drop n (l1 ++ l2 ++ l3) = l3.
Proof. intros ->. rewrite app_assoc. apply drop_app_length'. by rewrite length_app. Qed.

Lemma insert_mid (l1 l2 : list Z) c x l3 n :
  n = (length l1 + length l2)%nat -> <[n := x]> (l1 ++ l2 ++ c :: l3) = l1 ++ l2 ++ x :: l3.
Proof.
  intros ->. rewrite !(app_assoc l1). rewrite <- length_app, <- (Nat.add_0_r (length _)).
  by rewrite insert_app_r.
Qed.

Lemma strtok_none ds :
  Forall (fun c => c ∈ del) ds ->
  strtok del (length pre) (pre ++ ds ++ 0 :: post) =
  (pre ++ ds ++ 0 :: post, (length pre + length ds)%nat, None).
Proof using Hdel.
  intros Hds. unfold strtok. rewrite drop_app_length, strspn_app by done.
  by rewrite lookup_mid.
Qed.

Lemma strtok_last ds t :
  Forall (fun c => c ∈ del) ds -> t <> [] -> Forall (fun c => c ∉ del) t -> 0 ∉ t ->
  strtok del (length pre) (pre ++ (ds ++ t) ++ 0 :: post) =
  (pre ++ (ds ++ t) ++ 0 :: post, (length pre + length ds + length t)%nat,
   Some (length pre + length ds)%nat).
Proof using Hdel.
  intros Hds Hne Ht H0. destruct t as [|c t]; [done|].
  pose proof Ht as Ht'. inversion Ht' as [|? ? Hc _]; subst.
  assert (c <> 0) by (intros ->; apply H0; left).
  unfold strtok. rewrite <- app_assoc, <- app_comm_cons, drop_app_length, strspn_app by done.
  rewrite lookup_mid by done. destruct c eqn:Hcz; [done|rewrite <- Hcz in *..].
  all: rewrite drop_mid, app_comm_cons, strcspn_app by (done || auto).
  all: rewrite (app_assoc ds), lookup_mid by (rewrite length_app; lia); done.
Qed.

Lemma strtok_more ds t d r :
  Forall (fun c => c ∈ del) ds -> t <> [] -> Forall (fun c => c ∉ del) t -> 0 ∉ t -> d ∈ del ->
  strtok del (length pre) (pre ++ (ds ++ t ++ d :: r) ++ 0 :: post) =
  ((pre ++ ds ++ t ++ [0]) ++ r ++ 0 :: post, length (pre ++ ds ++ t ++ [0]),
   Some (length (pre ++ ds))).
Proof using Hdel.
  intros Hds Hne Ht H0 Hd. destruct t as [|c t]; [done|].
  pose proof Ht as Ht'. inversion Ht' as [|? ? Hc _]; subst.
  assert (c <> 0) by (intros ->; apply H0; left).
  assert (Hd0 : d <> 0) by (intros ->; done).
  unfold strtok. rewrite <- !app_assoc. cbn [app]. rewrite drop_app_length, strspn_app by done.
  rewrite lookup_mid by done. destruct c eqn:Hcz; [done|rewrite <- Hcz in *..].
  all: rewrite drop_mid, (app_comm_cons t _ c), strcspn_app by (done || auto).
  all: rewrite (app_assoc ds), lookup_mid by (rewrite length_app; lia).
  all: destruct d eqn:Hdz; [done|rewrite <- Hdz in *..].
  all: rewrite insert_mid by (rewrite length_app; lia).
  all: rewrite <- (app_assoc ds), !length_app; cbn [length app]; rewrite length_app;
    apply f_equal2, eq_refl; apply f_equal2; [done|]; simpl; lia.
Qed.
End Strtok.

(** ** The loop visits the words *)

(** What a loop leaves of the string [s] behind [pre]: an array part of the
    same length whose string keeps the first word only. *)
Definition first_word_left (del s s' post : list Z) : Prop :=
  length s' = length s /\
  (exists u rest, s' ++ 0 :: post = u ++ 0 :: rest /\ (0 ∉ u) /\
                  words del u = take 1 (words del s)).

Section Loop.
Context {S R : Type} (body : nat -> list Z -> S -> S + R) (del : list Z) (Hdel : 0 ∉ del).

(** The loop over the string [s] between [pre] and [post] is the fold of the
    body over its words, which lie at [ps] in the array that is left. *)
Definition loop_post (fuel : nat) (pre s post : list Z) (st : S) : Prop :=
  exists ps, length ps = length (words del s) /\
    Forall (fun p => length pre <= p <= length pre + length s)%nat ps /\
    match fold_until body (zip ps (words del s)) st with
    | inl st' => exists s',
        strtok_loop body del fuel (length pre) (pre ++ s ++ 0 :: post) st =
          inl (pre ++ s' ++ 0 :: post, st') /\
        first_word_left del s s' post /\ laid (pre ++ s' ++ 0 :: post) ps (words del s)
    | inr r => exists s',
        strtok_loop body del fuel (length pre) (pre ++ s ++ 0 :: post) st =
          inr (pre ++ s' ++ 0 :: post, r) /\ length s' = length s
    end.

Lemma loop_none fuel pre ds post st :
  0 ∉ ds -> Forall (fun c => c ∈ del) ds -> loop_post fuel pre ds post st.
Proof using Hdel.
  intros H0 Hds. exists []. rewrite words_nil by done.
  split_and!; [done|constructor|]. simpl.
  exists ds. split_and!; [|split; [done|]|constructor].
  - destruct fuel; simpl; by rewrite strtok_none.
  - exists ds, post. by rewrite words_nil.
Qed.

Lemma strtok_end pre s post :
  0 ∉ s -> strtok del (length pre + length s) (pre ++ s ++ 0 :: post) =
  (pre ++ s ++ 0 :: post, (length pre + length s)%nat, None).
Proof using Hdel.
  intros _. pose proof (strtok_none del (pre ++ s) post Hdel [] ltac:(constructor)) as He.
  rewrite !length_app in He. cbn [length app] in He.
  by rewrite Nat.add_0_r, <- !app_assoc in He.
Qed.

Lemma loop_last fuel pre ds t post st :
  0 ∉ ds ++ t -> Forall (fun c => c ∈ del) ds -> t <> [] -> Forall (fun c => c ∉ del) t ->
  loop_post (Datatypes.S fuel) pre (ds ++ t) post st.
Proof using Hdel.
  intros H0 Hds Hne Ht. assert (H0t : 0 ∉ t) by set_solver.
  assert (Hw : words del (ds ++ t) = [t]) by by rewrite words_delims, words_last.
  assert (Hs : str_at (pre ++ (ds ++ t) ++ 0 :: post) (length pre + length ds) t).
  { rewrite <- app_assoc, (app_assoc pre), <- length_app. by apply str_at_app. }
  exists [(length pre + length ds)%nat]. rewrite Hw.
  split_and!; [done|constructor; [rewrite length_app; lia|constructor]|].
  cbn [zip zip_with fold_until strtok_loop].
  rewrite strtok_last, (cstr_at_str _ _ t Hs) by done.
  destruct (body _ t st) as [st'|r]; [|by eauto].
  exists (ds ++ t). split_and!.
  - pose proof (strtok_end pre (ds ++ t) post H0) as He. rewrite length_app, Nat.add_assoc in He.
    destruct fuel; cbn [strtok_loop]; by rewrite He.
  - split; [done|]. exists (ds ++ t), post. by rewrite Hw.
  - by constructor; [|constructor|constructor].
Qed.

Lemma loop_more fuel pre ds t d r post st :
  0 ∉ ds ++ t -> Forall (fun c => c ∈ del) ds -> t <> [] -> Forall (fun c => c ∉ del) t ->
  d ∈ del -> (forall st', loop_post fuel (pre ++ ds ++ t ++ [0]) r post st') ->
  loop_post (Datatypes.S fuel) pre (ds ++ t ++ d :: r) post st.
Proof using Hdel.
  intros H0 Hds Hne Ht Hd IH. assert (H0t : 0 ∉ t) by set_solver.
  assert (Hw : words del (ds ++ t ++ d :: r) = t :: words del r)
    by by rewrite words_delims, words_cons.
  unfold loop_post. cbn [strtok_loop]. rewrite strtok_more, Hw by done.
  set (pre1 := pre ++ ds ++ t ++ [0]) in *.
  assert (Hl1 : length pre1 = (length pre + length ds + length t + 1)%nat)
    by (unfold pre1; rewrite !length_app; simpl; lia).
  assert (Hs : forall x, str_at (pre1 ++ x) (length (pre ++ ds)) t).
  { intros x. unfold pre1. rewrite <- !app_assoc, (app_assoc pre). by apply str_at_app. }
  rewrite (cstr_at_str _ _ t (Hs _)).
  assert (Happ : forall r', pre1 ++ r' ++ 0 :: post = pre ++ (ds ++ t ++ 0 :: r') ++ 0 :: post)
    by (intros; unfold pre1; rewrite <- !app_assoc; done).
  assert (Hlen : forall r', length r' = length r ->
            length (ds ++ t ++ 0 :: r') = length (ds ++ t ++ d :: r))
    by (intros r' ?; rewrite !length_app; simpl; lia).
  destruct (IH st) as (ps0 & Hps0 & Hf0 & _).
  assert (Hbound : forall ps, Forall (fun p => length pre1 <= p <= length pre1 + length r)%nat ps ->
            Forall (fun p => length pre <= p <= length pre + length (ds ++ t ++ d :: r))%nat
              (length (pre ++ ds) :: ps)).
  { intros ps Hf. constructor; [rewrite !length_app; lia|].
    eapply Forall_impl; [done|]. intros q. rewrite !length_app. simpl. lia. }
  destruct (body (length (pre ++ ds)) t st) as [st'|x] eqn:Hb.
  - destruct (IH st') as (ps & Hps & Hf & Hr). exists (length (pre ++ ds) :: ps).
    cbn [zip zip_with fold_until length]. rewrite Hb.
    split_and!; [by rewrite Hps|by apply Hbound|].
    change (zip_with pair ps (words del r)) with (zip ps (words del r)).
    destruct (fold_until body (zip ps (words del r)) st') as [st2|x].
    + destruct Hr as (r' & -> & [Hlr _] & Hlaid). exists (ds ++ t ++ 0 :: r').
      split_and!; [by rewrite Happ|split; [by apply Hlen|]|].
      * exists (ds ++ t), (r' ++ 0 :: post). rewrite Hw, words_delims, words_last by done.
        by rewrite <- !app_assoc.
      * rewrite <- Happ. constructor; [apply Hs| |done].
        eapply Forall_impl; [done|]. intros q. rewrite length_app. simpl. lia.
    + destruct Hr as (r' & -> & Hlr). exists (ds ++ t ++ 0 :: r').
      split; [by rewrite Happ|by apply Hlen].
  - exists (length (pre ++ ds) :: ps0). cbn [zip zip_with fold_until length]. rewrite Hb.
    split_and!; [by rewrite Hps0|by apply Hbound|].
    exists (ds ++ t ++ 0 :: r). split; [by rewrite Happ|by apply Hlen].
Qed.

Lemma strtok_loop_spec s : forall fuel pre post st,
  0 ∉ s -> (length s <= fuel)%nat -> loop_post fuel pre s post st.
Proof using Hdel.
  remember (length s) as n eqn:Hn. revert s Hn.
  induction n as [n IH] using lt_wf_ind. intros s Hn fuel pre post st H0 Hf. subst n.
  destruct (cut_exists del s) as [ds Hds|ds t Hds Hne Ht|ds t d r Hds Hne Ht Hd].
  - by apply loop_none.
  - destruct fuel; [destruct t; [done|rewrite length_app in Hf; simpl in Hf; lia]|].
    by apply loop_last.
  - rewrite !length_app in Hf. simpl in Hf.
    destruct fuel as [|fuel]; [lia|]. apply loop_more; [set_solver|done..|].
    intros st'. apply (IH (length r)); [rewrite !length_app; simpl; lia|done|set_solver|lia].
Qed.
End Loop.

(** ** A single call

    One [strtok] takes the first word off the string; the token stays where it
    is while the rest is cut further. *)
Lemma strtok_words del pre s post :
  0 ∉ del -> 0 ∉ s ->
  exists pre' s' o, strtok del (length pre) (pre ++ s ++ 0 :: post) =
      (pre' ++ s' ++ 0 :: post, length pre', o) /\ (0 ∉ s') /\
    match words del s with
    | [] => o = None /\ s' = []
    | w :: ws => words del s' = ws /\ exists p, o = Some p /\
        forall s'', length s'' = length s' -> str_at (pre' ++ s'' ++ 0 :: post) p w
    end /\ exists t, pre' = pre ++ t.
Proof.
  intros Hdel H0. destruct (cut_exists del s) as [ds Hds|ds t Hds Hne Ht|ds t d r Hds Hne Ht Hd].
  - exists (pre ++ ds), [], None. rewrite strtok_none, words_nil by done.
    rewrite length_app, <- app_assoc. split_and!; eauto. set_solver.
  - exists (pre ++ ds ++ t), [], (Some (length pre + length ds)%nat).
    rewrite strtok_last by (done || set_solver).
    rewrite words_delims, words_last, !length_app, Nat.add_assoc, <- !app_assoc by done.
    split_and!; eauto; [set_solver|].
    eexists; split; [done|]. intros [|] ?; [|done].
    replace (length pre + length ds)%nat with (length (pre ++ ds)) by (by rewrite length_app).
    replace ((pre ++ ds ++ t) ++ [] ++ 0 :: post) with ((pre ++ ds) ++ t ++ 0 :: post)
      by (by rewrite <- !app_assoc).
    apply str_at_app. set_solver.
  - exists (pre ++ ds ++ t ++ [0]), r, (Some (length (pre ++ ds))).
    rewrite strtok_more by (done || set_solver). rewrite words_delims, words_cons by done.
    split_and!; eauto; [set_solver|].
    eexists; split; [done|]. intros s'' _.
    replace ((pre ++ ds ++ t ++ [0]) ++ s'' ++ 0 :: post)
      with ((pre ++ ds) ++ t ++ 0 :: s'' ++ 0 :: post) by (by rewrite <- !app_assoc).
    apply str_at_app. set_solver.
Qed.

(** ** Searching *)

Lemma strstr_spec s t : is_Some (strstr s t) <-> exists p q, s = p ++ t ++ q.
Proof.
  split.
  - induction s as [|c s IH]; simpl; case_bool_decide as Ht; intros H.
    + exists [], []. rewrite <- Ht. by rewrite take_nil.
    + by destruct H.
    + exists [], (drop (length t) (c :: s)). simpl app. rewrite <- Ht at 1. by rewrite take_drop.
    + destruct IH as (p & q & ->); [by destruct (strstr s t)|]. by exists (c :: p), q.
  - intros (p & q & ->). induction p as [|c p IH].
    + simpl app. destruct (t ++ q) eqn:E; cbn [strstr]; rewrite <- E; rewrite take_app_length;
        rewrite bool_decide_true by done; eauto.
    + simpl. case_bool_decide; [eauto|]. destruct IH as [n ->]. simpl. eauto.
Qed.

Lemma strrchr_spec s c n :
  strrchr s c = Some n <-> exists p q, s = p ++ c :: q /\ length p = n /\ (c ∉ q).
Proof.
  revert n. induction s as [|d s IH]; intros n; simpl.
  - split; [done|]. intros (p & q & Hs & _). by destruct p.
  - split.
    + destruct (strrchr s c) as [m|] eqn:E.
      * intros [= <-]. destruct (proj1 (IH m) eq_refl) as (p & q & -> & <- & ?).
        by exists (d :: p), q.
      * destruct (Z.eqb_spec d c) as [->|]; [|done]. intros [= <-]. exists [], s.
        split_and!; [done|done|]. intros (l1 & l2 & ->)%list_elem_of_split.
        assert (Hex : exists p q, l1 ++ c :: l2 = p ++ c :: q /\ (c ∉ q)).
        { clear. induction l2 as [|x l2 IHl] using rev_ind; [by exists l1, []; split; [|set_solver]|].
          destruct (decide (x = c)) as [->|].
          - exists (l1 ++ c :: l2), []. split; [by rewrite <- app_assoc|set_solver].
          - destruct IHl as (p & q & E & ?). exists p, (q ++ [x]).
            rewrite app_comm_cons, app_assoc, E, <- app_assoc. split; [done|set_solver]. }
        destruct Hex as (p & q & E' & Hq).
        assert (None = Some (length p)) by (apply IH; eauto). done.
    + intros (p & q & Hs & <- & Hq). destruct p as [|x p]; simplify_eq/=.
      * assert (strrchr q c = None) as ->; [|by rewrite Z.eqb_refl].
        destruct (strrchr q c) as [m|] eqn:E; [|done].
        destruct (proj1 (IH m) eq_refl) as (p & q' & -> & _). set_solver.
      * by rewrite (proj2 (IH (length p))) by eauto.
Qed.

(** ** Pieces of a string *)

Lemma split_app_delim del p d q :
  d ∈ del -> split del (p ++ d :: q) = split del p ++ split del q.
Proof.
  intros Hd. induction p as [|c p IH]; [by rewrite app_nil_l, split_delim|].
  simpl. case_bool_decide; [by rewrite IH|]. rewrite IH.
  pose proof (split_ne del p). by destruct (split del p).
Qed.

Lemma split_one del w : Forall (fun c => c ∉ del) w -> split del w = [w].
Proof. intros Hw. rewrite <- (app_nil_r w) at 1. rewrite split_word by done. simpl. by rewrite app_nil_r. Qed.

(** The first piece, and the pieces behind it. *)
Lemma split_inv del s w ws :
  split del s = w :: ws ->
  (s = w \/ exists d q, d ∈ del /\ s = w ++ d :: q) /\
  (forall v, v ∈ ws -> exists p d, d ∈ del /\
     (s = p ++ d :: v \/ exists e q, e ∈ del /\ s = p ++ d :: v ++ e :: q)).
Proof.
  revert w ws. induction s as [|c s IH]; intros w ws; simpl.
  { intros [= <- <-]. split; [by left|set_solver]. }
  case_bool_decide as Hc.
  - intros [= <- <-]. split; [right; by exists c, s|]. intros v Hv.
    destruct (split del s) as [|w' ws'] eqn:E; [set_solver|].
    destruct (IH w' ws' eq_refl) as [Hw Hws]. apply elem_of_cons in Hv as [->|Hv].
    + exists [], c. split; [done|]. destruct Hw as [->|(d & q & ? & ->)]; [by left|right; eauto].
    + destruct (Hws v Hv) as (p & d & ? & [->|(e & q & ? & ->)]); exists (c :: p), d; eauto 8.
  - destruct (split del s) as [|w' ws'] eqn:E; [by destruct (split_ne del s)|].
    intros [= <- <-]. destruct (IH w' ws' eq_refl) as [Hw Hws]. split.
    + destruct Hw as [->|(d & q & ? & ->)]; [by left|right; eauto].
    + intros v Hv. destruct (Hws v Hv) as (p & d & ? & [->|(e & q & ? & ->)]);
        exists (c :: p), d; eauto 8.
Qed.
