(* ===== verification/Mybash.v ===== *)
(** * The shell (mybash/funcs.c, mybash/shell.c)

    The shell reads a line, splits it by '|' into commands and by ' ' into
    arguments, runs the commands one after the other with pipes between them,
    and remembers the last 100 commands of lines that succeeded, from which it
    suggests a name when a command is not found.

    The heap is explicit: a block is a character array or an array of
    pointers, [malloc] gives a new block while [mallocs] of them are left, and
    every access outside a live block, through NULL or to freed memory is
    [Undefined]; a failed [assert] is [Aborted]. *)

From S2P Require Import Prelude CString.
From stdpp Require Import strings.
#[local] Open Scope Z_scope.

Definition MEMORYSIZE : Z := 100.
Definition ARGSMAX : Z := 32.

(** ** Memory *)

Inductive mblock := Chars (s : list Z) | Ptrs (a : list Z).

Record mem := mkMem {
  blocks : gmap Z mblock;
  brk : Z;          (* the address of the next block *)
  mallocs : nat     (* the number of [malloc]s that will still succeed *) }.
#[export] Instance eta_mem : Settable mem := fun r => mkMem (blocks r) (brk r) (mallocs r).

Definition NULL : Z := 0.

Definition malloc (b : mblock) (m : mem) : Z * mem :=
  match mallocs m with
  | O => (NULL, m)
  | S n => (brk m, mkMem (<[brk m := b]> (blocks m)) (brk m + 1) n)
  end.

Definition free (p : Z) (m : mem) : run mem :=
  if p =? NULL then inl m
  else match blocks m !! p with
       | Some _ => inl (m <| blocks ::= delete p |>)
       | None => inr Undefined
       end.

Definition load_chars (m : mem) (p : Z) : run (list Z) :=
  match blocks m !! p with Some (Chars s) => inl s | _ => inr Undefined end.
Definition load_ptrs (m : mem) (p : Z) : run (list Z) :=
  match blocks m !! p with Some (Ptrs a) => inl a | _ => inr Undefined end.

(** [p[i] = q] *)
Definition store_ptr (p i q : Z) (m : mem) : run mem :=
  let* a := load_ptrs m p in
  if (0 <=? i) && (i <? Z.of_nat (length a))
  then inl (m <| blocks ::= <[p := Ptrs (<[Z.to_nat i := q]> a)]> |>)
  else inr Undefined.

(** The string at [p]. *)
Definition load_str (m : mem) (p : Z) : run (list Z) :=
  let* b := load_chars m p in inl (cstr b).

(** [strcpy]; the destination must hold the string and its terminator. *)
Definition strcpy (p : Z) (s : list Z) (m : mem) : run mem :=
  let* b := load_chars m p in
  if (length s <? length b)%nat
  then inl (m <| blocks ::= <[p := Chars (s ++ 0 :: drop (S (length s)) b)]> |>)
  else inr Undefined.

Definition blank (len : Z) : mblock := Chars (replicate (Z.to_nat len) 0).

(** ** The structures *)

Record history := mkHist { commands : Z; index : Z; size : Z }.
#[export] Instance eta_history : Settable history :=
  fun r => mkHist (commands r) (index r) (size r).

Record input := mkInput { segments : list Z; argsCtr : list Z; segCtr : Z }.
#[export] Instance eta_input : Settable input :=
  fun r => mkInput (segments r) (argsCtr r) (segCtr r).

(** ** Reading a line

    [BUFSIZ] is the buffer size of stdio. *)

Class StdioConfig := BUFSIZ : Z.

(** One more piece of the line at [buffer + last]; [buffer] holds the string
    read so far, [None] the uninitialised block of the first round. *)
Definition read_piece (buffSize last : Z) (buffer : option (list Z)) (stdin : list Z)
    : run (option (list Z) * list Z * bool) :=
  let '(r, rest, eof) := fgets (Z.to_nat (buffSize - 1)) stdin in
  match r with
  | [] => inl (buffer, rest, eof)
  | _ => let s := take (Z.to_nat last) (default [] buffer) ++ r in
         if Z.of_nat (length s) <? buffSize then inl (Some (cstr s), rest, eof) else inr Undefined
  end.

(** The loop of [prompt]: each round the buffer grows by [BUFSIZ]. *)
Fixpoint prompt_loop `{StdioConfig} (fuel : nat) (buffSize last : Z)
    (buffer : option (list Z)) (stdin : list Z) : run (option (list Z * list Z)) :=
  match fuel with
  | O => inl None
  | S n =>
      let buffSize := buffSize + BUFSIZ in
      let* x := read_piece buffSize last buffer stdin in
      let '(buffer, stdin, eof) := x in
      let* s := get buffer in
      let last := Z.of_nat (length s) - 1 in
      let* c := get (List.last (Some <$> s) None) in
      if negb eof && negb (c =? 10) then prompt_loop n buffSize last buffer stdin
      else inl (Some (if c =? 10 then take (Z.to_nat last) s else s, stdin))
  end.

(** [prompt]: the line and the rest of the input. *)
Definition prompt `{StdioConfig} (stdin : list Z) : run (option (list Z * list Z)) :=
  prompt_loop (S (length stdin)) 0 0 None stdin.

(** ** History *)

Definition remember (ht : history) (command : Z) (m : mem) : run (mem * history * Z) :=
  let* a := load_ptrs m (commands ht) in
  let* old := get (a !! Z.to_nat (index ht)) in
  let* m := (if negb (old =? NULL) then free old m else inl m) in
  let idx := index ht in
  let* s := load_str m command in
  let len := u16 (strlen s + 1) in
  let '(p, m) := malloc (blank len) m in
  let* m := store_ptr (commands ht) idx p m in
  if p =? NULL then inl (m, ht, -1)
  else
    let* m := strcpy p s m in
    inl (m, ht <| index := (idx + 1) mod MEMORYSIZE |>
               <| size := if size ht =? MEMORYSIZE then size ht else u16 (size ht + 1) |>, 0).

(** The test of one token of the target against one command of the history. *)
Definition suggest_token (cmd : Z) (text : list Z) (_ : nat) (temp : list Z) (_ : unit)
    : unit + Z :=
  match strstr text temp with Some _ => inr cmd | None => inl tt end.

Fixpoint suggest_loop (n : nat) (i : Z) (ht : history) (target : Z) (m : mem)
    : run (mem * Z) :=
  match n with
  | O => inl (m, NULL)
  | S n =>
      let idx := (index ht + MEMORYSIZE - i - 1) mod MEMORYSIZE in
      let* a := load_ptrs m (commands ht) in
      let* cmd := get (a !! Z.to_nat idx) in
      let* text := load_str m cmd in
      let* b := load_chars m target in
      match strtok_loop (suggest_token cmd text) (bytes "/") (length b) 0 b tt with
      | inr (b, r) => inl (m <| blocks ::= <[target := Chars b]> |>, r)
      | inl (b, _) => suggest_loop n (i + 1) ht target (m <| blocks ::= <[target := Chars b]> |>)
      end
  end.

Definition suggest (ht : history) (target : Z) (m : mem) : run (mem * Z) :=
  suggest_loop (Z.to_nat (size ht)) 0 ht target m.

(** ** Parsing *)

Definition getSegCtr (line : list Z) : Z :=
  u16 (foldl (fun res c => if c =? 124 then u16 (res + 1) else res) 0 line + 1).

(** [segment[in->segCtr] = temp; ++in->segCtr;] *)
Definition segment_token (n : Z) (temp : nat) (_ : list Z) (st : Z * list nat)
    : (Z * list nat) + stop :=
  let '(ctr, segment) := st in
  if ctr <? n then inl (u16 (ctr + 1), <[Z.to_nat ctr := temp]> segment) else inr Undefined.

(** One argument of segment [i] is copied to the heap. *)
Definition arg_token (i : nat) (_ : nat) (temp : list Z) (st : input * mem)
    : (input * mem) + stop :=
  let '(inp, m) := st in
  let* ctr := get (argsCtr inp !! i) in
  if negb (ctr <=? ARGSMAX) then inr Aborted
  else
    let* seg := get (segments inp !! i) in
    let len := u16 (strlen temp + 1) in
    let '(q, m) := malloc (blank len) m in
    let* m := store_ptr seg ctr q m in
    let* m := strcpy q temp m in
    inl (inp <| argsCtr ::= <[i := u16 (ctr + 1)]> |>, m).

(** The segments from number [i] on; the result is that of [parse]. *)
Fixpoint parse_segments (segment : list nat) (i : nat) (line : Z) (inp : input) (m : mem)
    : run (mem * input * Z) :=
  match segment with
  | [] => let* m := free line m in inl (m, inp, 0)
  | pos :: segment =>
      let '(a, m) := malloc (Ptrs (replicate (Z.to_nat ARGSMAX) NULL)) m in
      let* _ := get (segments inp !! i) in
      let inp := inp <| segments ::= <[i := a]> |> in
      if a =? NULL then let* m := free line m in inl (m, inp, -1)
      else
        let* b := load_chars m line in
        match strtok_loop (arg_token i) (bytes " ") (length b) pos b (inp, m) with
        | inr (_, e) => inr e
        | inl (b, (inp, m)) =>
            let m := m <| blocks ::= <[line := Chars b]> |> in
            let* ctr := get (argsCtr inp !! i) in
            let* m := store_ptr a ctr NULL m in
            parse_segments segment (S i) line inp m
        end
  end.

Definition parse (line : Z) (inp : input) (n : Z) (m : mem) : run (mem * input * Z) :=
  let* b := load_chars m line in
  match strtok_loop (segment_token n) (bytes "|") (length b) 0 b
          (segCtr inp, replicate (Z.to_nat n) 0%nat) with
  | inr (_, e) => inr e
  | inl (b, (ctr, segment)) =>
      let m := m <| blocks ::= <[line := Chars b]> |> in
      let inp := inp <| segCtr := ctr |> in
      if negb (n =? ctr) then inr Aborted
      else parse_segments (take (Z.to_nat ctr) segment) 0 line inp m
  end.

(** ** Deallocation *)

Fixpoint free_all (ps : list Z) (m : mem) : run mem :=
  match ps with
  | [] => inl m
  | p :: ps => let* m := free p m in free_all ps m
  end.

Definition deallocateHist (ht : history) (m : mem) : run mem :=
  let* a := load_ptrs m (commands ht) in
  let* m := free_all (take (Z.to_nat (size ht)) a) m in
  free (commands ht) m.

Fixpoint dealloc_segments (n i : nat) (inp : input) (m : mem) : run mem :=
  match n with
  | O => inl m
  | S n =>
      let* seg := get (segments inp !! i) in
      let* ctr := get (argsCtr inp !! i) in
      let* m := (if 0 <? ctr then
                   let* a := load_ptrs m seg in free_all (take (Z.to_nat ctr) a) m
                 else inl m) in
      let* m := free seg m in
      dealloc_segments n (S i) inp m
  end.

Definition deallocateInput (inp : input) (m : mem) : run mem :=
  dealloc_segments (Z.to_nat (segCtr inp)) 0 inp m.

(** [clear]; [None] is a NULL argument, and the array [in->segments] is never
    NULL. *)
Definition clear (ht : option history) (inp : option input) (m : mem) : run mem :=
  let* m := match ht with
            | Some ht => if negb (commands ht =? NULL) then deallocateHist ht m else inl m
            | None => inl m
            end in
  match inp with Some inp => deallocateInput inp m | None => inl m end.

(** [pErr] prints, frees and exits with failure. *)
Definition pErr {A : Type} (ht : history) (inp : option input) (m : mem) : run A :=
  let* _ := clear (Some ht) inp m in inr (Exited 1).

(** ** The main loop *)

Inductive child_event :=
  | Dup2 (oldfd newfd : Z) | CloseFd (fd : Z)
  | Execv (argv : list (list Z))
  | NotFound (command : list Z) (suggestion : option (list Z))
  | ChildExit (code : Z).

Inductive event :=
  | Message (text : list Z) | Chdir (dir : list Z) | Pipe (fd0 fd1 : Z)
  | Fork (child : list child_event) | Wait (status : Z) | Close (fd : Z).

(** What the shell keeps while it runs a line; [forks] are the results of the
    coming [fork]s with the exit status the child will have and whether its
    [execv] succeeds. *)
Record shell := mkShell {
  success : bool;
  oldFdIn : Z;
  nextFd : Z;
  forks : list (Z * Z * bool);
  trace : list event }.
#[export] Instance eta_shell : Settable shell :=
  fun r => mkShell (success r) (oldFdIn r) (nextFd r) (forks r) (trace r).

Definition emit (e : event) (sh : shell) : shell := sh <| trace ::= fun t => t ++ [e] |>.

(** [in.segments[i][j]] as a string. *)
Definition arg_str (inp : input) (i j : nat) (m : mem) : run (list Z) :=
  let* seg := get (segments inp !! i) in
  let* a := load_ptrs m seg in
  let* p := get (a !! j) in
  load_str m p.

Fixpoint load_strs (m : mem) (ps : list Z) : run (list (list Z)) :=
  match ps with
  | [] => inl []
  | p :: ps => let* s := load_str m p in let* ss := load_strs m ps in inl (s :: ss)
  end.

(** [cErr]: the message names the command as [suggest] has left it. *)
Definition cErr (ht : history) (command : Z) (m : mem) : run (mem * list child_event) :=
  let* x := suggest ht command m in
  let '(m, suggestion) := x in
  if negb (suggestion =? NULL) then
    let* c := load_str m command in
    let* s := load_str m suggestion in
    inl (m, [NotFound c (Some s)])
  else inl (m, []).

(** The child's side of the fork; its copy of the heap is its own. *)
Definition child (ht : history) (inp : input) (i : nat) (fd0 fd1 oldFdIn : Z) (exec_ok : bool)
    (m : mem) : run (list child_event) :=
  let* seg := get (segments inp !! i) in
  let* ctr := get (argsCtr inp !! i) in
  let* a := load_ptrs m seg in
  let* argv := load_strs m (take (Z.to_nat ctr) a) in
  let redirect := if negb (Z.of_nat i + 1 =? segCtr inp) then [Dup2 fd1 1] else [] in
  let setup := Dup2 oldFdIn 0 :: redirect ++ [CloseFd fd0; Execv argv] in
  if exec_ok then inl setup
  else
    let* p := get (a !! 0%nat) in
    let* x := cErr ht p m in
    let '(m, msg) := x in
    let* _ := clear (Some ht) (Some inp) m in
    inl (setup ++ msg ++ [ChildExit 1]).

Definition run_segment (ht : history) (inp : input) (i : nat) (m : mem) (sh : shell)
    : run shell :=
  let* name := arg_str inp i 0 m in
  let* ctr := get (argsCtr inp !! i) in
  if bool_decide (name = bytes "exit") then
    let* _ := clear (Some ht) (Some inp) m in inr (Exited 0)
  else if bool_decide (name = bytes "cd") then
    if ctr =? 2 then let* dir := arg_str inp i 1 m in inl (emit (Chdir dir) sh)
    else inl (emit (Message (bytes (if ctr <? 2 then "error: too few args"
                                    else "error: too many args"))) sh <| success := false |>)
  else
    let fd0 := nextFd sh in
    let fd1 := nextFd sh + 1 in
    let sh := emit (Pipe fd0 fd1) sh <| nextFd ::= fun n => n + 2 |> in
    let '(pid, status, exec_ok) := default (1, 0, true) (head (forks sh)) in
    let sh := sh <| forks ::= tail |> in
    if pid <? 0 then
      inl (emit (Close fd1) (emit (Close fd0) (emit (Message (bytes "error: fork failed")) sh))
             <| success := false |>)
    else
      let* c := child ht inp i fd0 fd1 (oldFdIn sh) exec_ok m in
      inl (emit (Close fd1) (emit (Wait status) (emit (Fork c) sh))
             <| oldFdIn := fd0 |> <| success ::= fun ok => ok && (status =? 0) |>).

Fixpoint run_segments (n i : nat) (ht : history) (inp : input) (m : mem) (sh : shell)
    : run shell :=
  match n with
  | O => inl sh
  | S n => let* sh := run_segment ht inp i m sh in run_segments n (S i) ht inp m sh
  end.

Fixpoint remember_all (n i : nat) (ht : history) (inp : input) (m : mem)
    : run (mem * history) :=
  match n with
  | O => inl (m, ht)
  | S n =>
      let* seg := get (segments inp !! i) in
      let* a := load_ptrs m seg in
      let* p := get (a !! 0%nat) in
      let* x := remember ht p m in
      let '(m, ht, r) := x in
      if r =? -1 then pErr ht (Some inp) m else remember_all n (S i) ht inp m
  end.

(** One round of [main] after [prompt]; the [memset]s of [in] are out of bounds
    for more than [ARGSMAX] segments. *)
Definition run_line (ht : history) (line : Z) (m : mem) (sh : shell)
    : run (mem * history * shell) :=
  let* text := load_str m line in
  let n := getSegCtr text in
  if ARGSMAX <? n then inr Undefined
  else
    let inp := mkInput (replicate 32 NULL) (replicate 32 0) 0 in
    let* x := parse line inp n m in
    let '(m, inp, r) := x in
    if r =? -1 then pErr ht (Some inp) m
    else
      let* sh := run_segments (Z.to_nat (segCtr inp)) 0 ht inp m
                   (sh <| success := true |> <| oldFdIn := 0 |>) in
      let* x := (if success sh then remember_all (Z.to_nat (segCtr inp)) 0 ht inp m
                 else inl (m, ht)) in
      let '(m, ht) := x in
      let* m := clear None (Some inp) m in
      inl (m, ht, sh).

(** [main]: the history, then a round per line; the line is the block [prompt]
    returns. *)
Definition start (m : mem) : run (mem * history) :=
  let '(p, m) := malloc (Ptrs (replicate (Z.to_nat MEMORYSIZE) NULL)) m in
  let ht := mkHist p 0 0 in
  if p =? NULL then pErr ht None m else inl (m, ht).

Fixpoint main_loop `{StdioConfig} (rounds : nat) (ht : history) (m : mem) (sh : shell)
    (stdin : list Z) : run (mem * history * shell * list Z) :=
  match rounds with
  | O => inl (m, ht, sh, stdin)
  | S n =>
      let* x := prompt stdin in
      let* x := get x in
      let '(text, stdin) := x in
      let '(line, m) := malloc (Chars (text ++ [0])) m in
      if line =? NULL then pErr ht None m
      else
        let* x := run_line ht line m sh in
        let '(m, ht, sh) := x in
        main_loop n ht m sh stdin
  end.
