(* ===== verification/ShellHistory.v ===== *)
(** * The history of the shell

    The array [commands] with [index] and [size] is a ring: [hist_rep] relates
    it to the list of the remembered commands, newest first, and owns exactly
    its blocks of the heap.  [remember] refines "put in front and keep 100",
    [suggest] is the search its comment describes, except that it looks for
    the first part of the name only after the newest command, and
    [deallocateHist] frees all the history has allocated. *)

From stdpp Require Import strings.
From S2P Require Import Prelude CString Mybash.
#[local] Open Scope Z_scope.
#[local] Ltac Zify.zify_post_hook ::= Z.to_euclidean_division_equations.

(** Blocks have positive addresses below the next one to be given out. *)
Definition heap_ok (m : mem) : Prop :=
  0 < brk m /\ forall p, is_Some (blocks m !! p) -> 0 < p < brk m.

(** Where the [i]-th newest command is kept. *)
Definition slot (ht : history) (i : nat) : nat :=
  Z.to_nat ((index ht + MEMORYSIZE - Z.of_nat i - 1) mod MEMORYSIZE).

Record hist_rep (ht : history) (a : list Z) (l : list (list Z)) (h : gmap Z mblock) : Prop := {
  rep_commands : h !! commands ht = Some (Ptrs a);
  rep_pos : 0 < commands ht;
  rep_len : length a = 100%nat;
  rep_size : size ht = Z.of_nat (length l) /\ (length l <= 100)%nat;
  rep_index : 0 <= index ht < 100 /\ (size ht < 100 -> index ht = size ht);
  rep_slot i s : l !! i = Some s -> (0 ∉ s) /\
    exists p, a !! slot ht i = Some p /\ 0 < p /\ h !! p = Some (Chars (s ++ [0]));
  rep_null j : (length l <= j < 100)%nat -> a !! j = Some 0;
  rep_inj i j p : (i < length l)%nat -> (j < length l)%nat ->
    a !! i = Some p -> a !! j = Some p -> i = j;
  rep_dom p : is_Some (h !! p) -> p = commands ht \/
    exists j, (j < length l)%nat /\ a !! j = Some p }.

(** ** Effects of the heap operations *)

Lemma heap_ok_null m : heap_ok m -> blocks m !! 0 = None.
Proof.
  intros [_ H]. destruct (blocks m !! 0) eqn:E; [|done].
  pose proof (H 0 ltac:(eauto)). lia.
Qed.

Lemma heap_ok_brk m : heap_ok m -> blocks m !! brk m = None.
Proof.
  intros [_ H]. destruct (blocks m !! brk m) eqn:E; [|done].
  pose proof (H (brk m) ltac:(eauto)). lia.
Qed.

Lemma malloc_some b m n :
  mallocs m = S n -> malloc b m = (brk m, mkMem (<[brk m := b]> (blocks m)) (brk m + 1) n).
Proof. intros H. unfold malloc. by rewrite H. Qed.

Lemma heap_ok_malloc b m n :
  heap_ok m -> heap_ok (mkMem (<[brk m := b]> (blocks m)) (brk m + 1) n).
Proof.
  intros [Hb H]. split; simpl; [lia|]. intros p [x Hx].
  destruct (decide (p = brk m)) as [->|]; [lia|].
  rewrite lookup_insert_ne in Hx by done. pose proof (H p ltac:(eauto)). lia.
Qed.

Lemma heap_ok_sub m bl :
  heap_ok m -> (forall p, is_Some (bl !! p) -> is_Some (blocks m !! p)) ->
  heap_ok (m <| blocks := bl |>).
Proof. intros [Hb H] Hs. split; [done|]. intros p Hp. apply H, Hs, Hp. Qed.

Lemma free_some p m b :
  0 < p -> blocks m !! p = Some b -> free p m = inl (m <| blocks ::= delete p |>).
Proof.
  intros Hp Hb. unfold free, NULL. destruct (Z.eqb_spec p 0); [lia|]. by rewrite Hb.
Qed.

Lemma strcpy_blank p s m :
  blocks m !! p = Some (blank (strlen s + 1)) ->
  strcpy p s m = inl (m <| blocks ::= <[p := Chars (s ++ [0])]> |>).
Proof.
  intros Hb. unfold strcpy, load_chars. rewrite Hb. unfold blank, strlen. cbn [bind].
  replace (Z.to_nat (Z.of_nat (length s) + 1)) with (S (length s)) by lia.
  rewrite length_replicate, (proj2 (Nat.ltb_lt _ _)) by lia.
  rewrite drop_replicate, Nat.sub_diag. done.
Qed.

Lemma store_ptr_some p i q m a :
  blocks m !! p = Some (Ptrs a) -> 0 <= i < Z.of_nat (length a) ->
  store_ptr p i q m = inl (m <| blocks ::= <[p := Ptrs (<[Z.to_nat i := q]> a)]> |>).
Proof.
  intros Hp Hi. unfold store_ptr, load_ptrs. rewrite Hp. cbn [bind].
  rewrite (proj2 (Z.leb_le 0 i)), (proj2 (Z.ltb_lt i _)) by lia. done.
Qed.

Lemma load_str_chars m p s post :
  blocks m !! p = Some (Chars (s ++ 0 :: post)) -> 0 ∉ s -> load_str m p = inl s.
Proof.
  intros Hp H0. unfold load_str, load_chars. rewrite Hp. simpl. by rewrite (cstr_app s post).
Qed.

(** ** Slots *)

Lemma slot_lt ht i : (slot ht i < 100)%nat.
Proof. unfold slot, MEMORYSIZE. lia. Qed.

Lemma slot_size ht a l h i :
  hist_rep ht a l h -> (i < length l)%nat -> (slot ht i < length l)%nat.
Proof. intros [] Hi. unfold slot, MEMORYSIZE. lia. Qed.

Lemma slot_surj ht a l h j :
  hist_rep ht a l h -> (j < length l)%nat ->
  exists i, (i < length l)%nat /\ slot ht i = j.
Proof.
  intros [] Hj. unfold slot, MEMORYSIZE.
  exists (Z.to_nat ((index ht + 99 - Z.of_nat j) mod 100)). lia.
Qed.

Lemma rep_live ht a l h j :
  hist_rep ht a l h -> (j < length l)%nat ->
  exists p s, a !! j = Some p /\ 0 < p /\ h !! p = Some (Chars (s ++ [0])).
Proof.
  intros Hr Hj. destruct (slot_surj _ _ _ _ _ Hr Hj) as (i & Hi & <-).
  destruct (lookup_lt_is_Some_2 l i Hi) as [s Hs].
  destruct (rep_slot _ _ _ _ Hr i s Hs) as (_ & p & ? & ? & ?). eauto.
Qed.

(** ** Remembering a command *)

(** The history after [remember]. *)
Definition advanced (ht : history) : history :=
  ht <| index := (index ht + 1) mod MEMORYSIZE |>
     <| size := if size ht =? MEMORYSIZE then size ht else u16 (size ht + 1) |>.

Definition oldest (ht : history) (a : list Z) : Z := default 0 (a !! Z.to_nat (index ht)).

Definition remembered (ht : history) (a s : list Z) (p : Z) (h : gmap Z mblock)
    : gmap Z mblock :=
  <[commands ht := Ptrs (<[Z.to_nat (index ht) := p]> a)]>
    (<[p := Chars (s ++ [0])]> (delete (oldest ht a) h)).

Section Remember.
Context (ht : history) (a : list Z) (l : list (list Z)) (h F : gmap Z mblock).
Context (Hr : hist_rep ht a l h).

Lemma oldest_cases :
  ((length l < 100)%nat /\ oldest ht a = 0) \/
  (length l = 100%nat /\ exists p s, oldest ht a = p /\ 0 < p /\
     a !! Z.to_nat (index ht) = Some p /\ h !! p = Some (Chars (s ++ [0]))).
Proof using Hr.
  destruct (decide (length l < 100)%nat) as [Hlt|Hge].
  - left. split; [done|]. unfold oldest.
    rewrite (rep_null _ _ _ _ Hr); [done|]. destruct Hr. lia.
  - right. assert (length l = 100)%nat by (destruct Hr; lia). split; [done|].
    destruct (rep_live _ _ _ _ (Z.to_nat (index ht)) Hr) as (p & s & Hp & ? & ?);
      [destruct Hr; lia|].
    exists p, s. unfold oldest. rewrite Hp. done.
Qed.

Lemma oldest_commands : oldest ht a <> commands ht.
Proof using Hr.
  destruct oldest_cases as [[_ ->]|(_ & p & s & -> & _ & _ & Hp)].
  - pose proof (rep_pos _ _ _ _ Hr). lia.
  - intros ->. pose proof (rep_commands _ _ _ _ Hr). congruence.
Qed.

Lemma remember_eff m command s post n :
  heap_ok m -> blocks m = h ∪ F -> h ##ₘ F ->
  F !! command = Some (Chars (s ++ 0 :: post)) -> 0 ∉ s -> strlen s + 1 < 2 ^ 16 ->
  mallocs m = S n ->
  remember ht command m =
  inl (mkMem (remembered ht a s (brk m) h ∪ F) (brk m + 1) n, advanced ht, 0).
Proof using Hr.
  intros Hok Hb Hd Hc H0 Hlen Hn.
  assert (Hlook : forall p x, h !! p = Some x -> blocks m !! p = Some x)
    by (intros; rewrite Hb; by apply lookup_union_Some_l).
  assert (HF : forall p x, F !! p = Some x -> h !! p = None)
    by (intros; by eapply map_disjoint_Some_r).
  assert (Hnone : forall p, blocks m !! p = None -> h !! p = None /\ F !! p = None)
    by (intros p E; rewrite Hb in E; by apply lookup_union_None in E).
  pose proof (Hnone _ (heap_ok_brk m Hok)) as Hbrk.
  assert (Hidx : 0 <= index ht < Z.of_nat (length a)) by (destruct Hr; lia).
  assert (Hbm : blocks m !! commands ht = Some (Ptrs a)) by apply Hlook, Hr.
  assert (Hold : a !! Z.to_nat (index ht) = Some (oldest ht a)).
  { unfold oldest. destruct (lookup_lt_is_Some_2 a (Z.to_nat (index ht))) as [x ->]; [lia|done]. }
  assert (Hdel : (if negb (oldest ht a =? NULL) then free (oldest ht a) m else inl m) =
            inl (m <| blocks := delete (oldest ht a) h ∪ F |>)).
  { destruct oldest_cases as [[_ ->]|(_ & p & t & -> & Hp & _ & Ht)].
    - simpl. rewrite delete_id by apply (Hnone _ (heap_ok_null m Hok)). rewrite <- Hb. by destruct m.
    - unfold NULL. rewrite (proj2 (Z.eqb_neq p 0)) by lia. cbn [negb].
      rewrite (free_some p m _ Hp (Hlook _ _ Ht)). simpl. rewrite Hb, delete_union.
      rewrite (delete_id F p) by (by eapply map_disjoint_Some_l). done. }
  unfold remember. unfold load_ptrs at 1. rewrite Hbm. cbn [bind].
  rewrite Hold. cbn [bind get]. rewrite Hdel. cbn [bind].
  rewrite (load_str_chars _ command s post); [|simpl; by apply lookup_union_Some_raw; right;
    split; [rewrite lookup_delete_None; right; by eapply HF|]|done].
  cbn [bind]. rewrite u16_id by (unfold strlen in *; lia).
  rewrite (malloc_some _ _ n) by done. cbn [blocks brk upd].
  assert (Hne : commands ht <> brk m) by (intros E; rewrite E in *; destruct Hbrk;
    pose proof (rep_commands _ _ _ _ Hr); congruence).
  rewrite (store_ptr_some _ _ _ _ a); [|simpl|done].
  2:{ rewrite lookup_insert_ne by done. apply lookup_union_Some_l.
      rewrite lookup_delete_ne by apply oldest_commands. apply Hr. }
  cbn [bind]. unfold NULL. destruct (Z.eqb_spec (brk m) 0) as [E|_];
    [destruct Hok; lia|].
  rewrite strcpy_blank; [|simpl; by rewrite lookup_insert_ne, lookup_insert_eq by done].
  cbn [bind]. unfold advanced, remembered. do 3 f_equal. cbn [upd blocks brk mallocs].
  rewrite <- !insert_union_l. rewrite (insert_insert_ne _ (brk m)) by done.
  by rewrite insert_insert_eq.
Qed.

Lemma slot_advanced i :
  slot (advanced ht) 0 = Z.to_nat (index ht) /\ slot (advanced ht) (S i) = slot ht i.
Proof using Hr.
  destruct (rep_index _ _ _ _ Hr). unfold slot, advanced, MEMORYSIZE. simpl. lia.
Qed.

Lemma remembered_lookup s p q x :
  h !! q = Some x -> q <> commands ht -> q <> oldest ht a -> q <> p ->
  remembered ht a s p h !! q = Some x.
Proof.
  intros. unfold remembered.
  by rewrite !lookup_insert_ne, lookup_delete_ne by congruence.
Qed.

(** A command other than the oldest of a full history is kept in another
    block. *)
Lemma kept_block i t q :
  (S i < 100)%nat -> l !! i = Some t -> a !! slot ht i = Some q ->
  h !! q = Some (Chars (t ++ [0])) ->
  slot ht i <> Z.to_nat (index ht) /\ q <> commands ht /\ q <> oldest ht a.
Proof using Hr.
  intros Hi Ht Hq Hb. pose proof (lookup_lt_Some _ _ _ Ht) as Hil.
  assert (Hne : slot ht i <> Z.to_nat (index ht)).
  { destruct (rep_index _ _ _ _ Hr). unfold slot, MEMORYSIZE. lia. }
  split_and!; [done| |].
  - intros ->. pose proof (rep_commands _ _ _ _ Hr). congruence.
  - destruct oldest_cases as [[_ ->]|(Hlen & p & u & -> & _ & Hp & _)].
    + destruct (rep_slot _ _ _ _ Hr i t Ht) as (_ & q' & Hq' & ? & _).
      assert (q' = q) by congruence. lia.
    + intros ->. apply Hne. eapply (rep_inj _ _ _ _ Hr); [..|done|done].
      * by eapply slot_size.
      * destruct (rep_index _ _ _ _ Hr). lia.
Qed.

Lemma remembered_rep s p :
  h !! p = None -> 0 < p -> 0 ∉ s ->
  hist_rep (advanced ht) (<[Z.to_nat (index ht) := p]> a) (take 100 (s :: l))
    (remembered ht a s p h).
Proof using Hr.
  intros Hp Hpos H0. pose proof Hr as [Hc Hcp Hla [Hsz Hl] [Hi Hisz] Hslot Hnull Hinj Hdom].
  assert (Hpc : p <> commands ht) by congruence.
  assert (Hlen : length (take 100 (s :: l)) = (S (length l) `min` 100)%nat)
    by (rewrite length_take; cbn [length]; lia).
  assert (Hpa : forall j, (j < length l)%nat -> a !! j <> Some p).
  { intros j Hj E. destruct (rep_live _ _ _ _ j Hr Hj) as (q & u & ? & _ & ?). congruence. }
  split.
  - by apply lookup_insert_eq.
  - done.
  - by rewrite length_insert.
  - rewrite Hlen. unfold advanced, MEMORYSIZE. simpl. rewrite Hsz.
    destruct (Z.eqb_spec (Z.of_nat (length l)) 100); [lia|]. rewrite u16_id; lia.
  - unfold advanced, MEMORYSIZE. simpl. rewrite Hsz.
    destruct (Z.eqb_spec (Z.of_nat (length l)) 100); [lia|]. rewrite u16_id; lia.
  - intros i t Ht. apply lookup_take_Some in Ht as [Ht Hi100].
    destruct i as [|i]; [injection Ht as <-|simpl in Ht].
    + split; [done|]. exists p. rewrite (proj1 (slot_advanced 0)).
      rewrite list_lookup_insert_eq by lia. split_and!; [done|done|].
      unfold remembered. by rewrite lookup_insert_ne, lookup_insert_eq by done.
    + destruct (Hslot i t Ht) as (H0t & q & Hq & Hqp & Hqb). split; [done|].
      destruct (kept_block i t q Hi100 Ht Hq Hqb) as (? & ? & ?).
      exists q. rewrite (proj2 (slot_advanced i)), list_lookup_insert_ne by done.
      split_and!; [done|done|]. apply remembered_lookup; congruence.
  - intros j Hj. rewrite Hlen in Hj. rewrite list_lookup_insert_ne by lia. apply Hnull. lia.
  - intros i j q. rewrite Hlen. intros Hil Hjl.
    rewrite !list_lookup_insert. repeat case_decide; try lia; intros; simplify_eq; try done.
    + exfalso. eapply Hpa; [|done]. lia.
    + exfalso. eapply Hpa; [|done]. lia.
    + eapply Hinj; [| |done|done]; lia.
  - intros q [x Hx]. rewrite Hlen. unfold remembered in Hx. simpl.
    destruct (decide (q = commands ht)) as [->|Hqc]; [by left|right].
    rewrite lookup_insert_ne in Hx by done.
    destruct (decide (q = p)) as [->|Hqp].
    { exists (Z.to_nat (index ht)). rewrite list_lookup_insert_eq by lia. split; [lia|done]. }
    rewrite lookup_insert_ne in Hx by done. apply lookup_delete_Some in Hx as [Hqo Hx].
    destruct (Hdom q ltac:(eauto)) as [|(j & Hj & Haj)]; [done|].
    exists j. split; [lia|]. rewrite list_lookup_insert_ne; [done|].
    intros <-. apply Hqo. unfold oldest. by rewrite Haj.
Qed.

Lemma remember_step m command s post n :
  heap_ok m -> blocks m = h ∪ F -> h ##ₘ F ->
  F !! command = Some (Chars (s ++ 0 :: post)) -> 0 ∉ s -> strlen s + 1 < 2 ^ 16 ->
  mallocs m = S n ->
  exists m' ht' a' h',
    remember ht command m = inl (m', ht', 0) /\
    hist_rep ht' a' (take 100 (s :: l)) h' /\
    heap_ok m' /\ blocks m' = h' ∪ F /\ h' ##ₘ F /\ mallocs m' = n.
Proof using Hr.
  intros Hok Hb Hd Hc H0 Hs Hn.
  pose proof (heap_ok_brk m Hok) as Hbrk. rewrite Hb in Hbrk.
  apply lookup_union_None in Hbrk as [Hbh HbF].
  eexists _, (advanced ht), _, (remembered ht a s (brk m) h).
  split_and!; [by eapply remember_eff|apply remembered_rep; [done|apply (proj1 Hok)|done]| |done| |done].
  - split; [destruct Hok; simpl; lia|]. intros p [x Hx]. simpl in *.
    destruct Hok as [Hpos Hok]. destruct (decide (p = brk m)) as [->|]; [lia|].
    assert (is_Some (blocks m !! p)) as Hp%Hok; [|lia].
    rewrite Hb. apply lookup_union_Some_raw in Hx as [Hx|[Hx1 Hx2]].
    + unfold remembered in Hx. destruct (decide (p = commands ht)) as [->|].
      { rewrite (lookup_union_Some_l _ _ _ _ (rep_commands _ _ _ _ Hr)). eauto. }
      rewrite !lookup_insert_ne in Hx by done. apply lookup_delete_Some in Hx as [_ Hx].
      rewrite (lookup_union_Some_l _ _ _ _ Hx). eauto.
    + rewrite lookup_union_is_Some. eauto.
  - unfold remembered. apply map_disjoint_insert_l_2.
    { eapply map_disjoint_Some_l; [done|apply Hr]. }
    apply map_disjoint_insert_l_2; [done|]. by apply map_disjoint_delete_l.
Qed.
End Remember.

(** ** Suggestions *)

(** Some word of the name occurs in the command. *)
Definition matches (ws : list (list Z)) (text : list Z) : bool :=
  existsb (fun w => bool_decide (is_Some (strstr text w))) ws.

(** The search [suggest] makes: all the words of the name against the newest
    command, the first word only against the older ones. *)
Definition suggestion (ws : list (list Z)) (l : list (list Z)) : option (list Z) :=
  match l with
  | [] => None
  | c :: l => if matches ws c then Some c else snd <$> list_find (matches (take 1 ws)) l
  end.

(** The same, one command at a time. *)
Fixpoint search (ws : list (list Z)) (l : list (list Z)) : option (list Z) :=
  match l with
  | [] => None
  | c :: l => if matches ws c then Some c else search (take 1 ws) l
  end.

Lemma search_first ws l :
  take 1 ws = ws -> search ws l = snd <$> list_find (matches ws) l.
Proof.
  intros Hw. induction l as [|c l IH]; [done|]. simpl. rewrite Hw.
  destruct (matches ws c) eqn:E; case_decide as Hd; try done;
    try (exfalso; simpl in Hd; tauto).
  rewrite IH. by destruct (list_find (matches ws) l) as [[]|].
Qed.

Lemma search_suggestion ws l : search ws l = suggestion ws l.
Proof.
  destruct l as [|c l]; [done|]. simpl. cases; [done|]. apply search_first.
  by destruct ws.
Qed.

Lemma suggest_tokens cmd text ps ws :
  length ps = length ws ->
  fold_until (suggest_token cmd text) (zip ps ws) tt =
  if matches ws text then inr cmd else inl tt.
Proof.
  revert ps. induction ws as [|w ws IH]; intros [|p ps] Hl; try done.
  cbn [zip zip_with fold_until]. unfold suggest_token at 1, matches. cbn [existsb].
  destruct (strstr text w).
  - by rewrite bool_decide_true.
  - rewrite bool_decide_false by (by intros []). apply IH. simpl in Hl. lia.
Qed.

(** One command of the history, on a target that holds the string [u]. *)
Lemma suggest_pass cmd text u post :
  0 ∉ u -> let b := u ++ 0 :: post in
  exists b', length b' = length b /\ (0 ∈ b') /\
  if matches (words (bytes "/") u) text
  then strtok_loop (suggest_token cmd text) (bytes "/") (length b) 0 b tt = inr (b', cmd)
  else strtok_loop (suggest_token cmd text) (bytes "/") (length b) 0 b tt = inl (b', tt) /\
       exists u' post', b' = u' ++ 0 :: post' /\ (0 ∉ u') /\
         words (bytes "/") u' = take 1 (words (bytes "/") u).
Proof.
  intros H0 b.
  assert (Hdel : 0 ∉ bytes "/") by (apply (bool_decide_unpack _); vm_compute; exact I).
  destruct (strtok_loop_spec (suggest_token cmd text) (bytes "/") Hdel u (length b) [] post tt)
    as (ps & Hps & _ & Hl); [done|unfold b; rewrite length_app; simpl; lia|].
  rewrite suggest_tokens in Hl by done. fold b in Hl. cbn [app length] in Hl.
  destruct (matches (words (bytes "/") u) text).
  - destruct Hl as (s' & -> & Hlen). exists (s' ++ 0 :: post).
    split_and!; [|set_solver|done]. unfold b. rewrite !length_app. simpl. lia.
  - destruct Hl as (s' & -> & [Hlen (u' & post' & He & Hu & Hw)] & _).
    exists (s' ++ 0 :: post).
    split_and!; [unfold b; rewrite !length_app; simpl; lia|set_solver|done|]. eauto.
Qed.

Section Suggest.
Context (ht : history) (a : list Z) (l : list (list Z)) (h : gmap Z mblock) (target : Z).
Context (Hr : hist_rep ht a l h) (Ht : h !! target = None).

(** [r] points to the suggestion, or is NULL. *)
Definition points_to (r : Z) (h : gmap Z mblock) (o : option (list Z)) : Prop :=
  match o with
  | None => r = NULL
  | Some s => r <> NULL /\ h !! r = Some (Chars (s ++ [0]))
  end.

Lemma suggest_loop_spec n : forall i F m u post,
  (n + i = length l)%nat -> blocks m = h ∪ F -> h ##ₘ F ->
  F !! target = Some (Chars (u ++ 0 :: post)) -> 0 ∉ u ->
  exists b' r, length b' = length (u ++ 0 :: post) /\ (0 ∈ b') /\
    suggest_loop n (Z.of_nat i) ht target m =
      inl (m <| blocks := h ∪ <[target := Chars b']> F |>, r) /\
    points_to r h (search (words (bytes "/") u) (drop i l)).
Proof using Hr Ht.
  induction n as [|n IH]; intros i F m u post Hn Hb Hd HF H0.
  { exists (u ++ 0 :: post), NULL. rewrite drop_ge by lia.
    split_and!; [done|set_solver| |done].
    simpl. rewrite insert_id, <- Hb by done. by destruct m. }
  destruct (lookup_lt_is_Some_2 l i) as [s Hs]; [lia|].
  destruct (rep_slot _ _ _ _ Hr i s Hs) as (H0s & p & Hp & Hpos & Hpb).
  assert (Hbm : forall q x, h !! q = Some x -> blocks m !! q = Some x)
    by (intros; rewrite Hb; by apply lookup_union_Some_l).
  cbn [suggest_loop]. unfold load_ptrs. rewrite (Hbm _ _ (rep_commands _ _ _ _ Hr)). cbn [bind].
  change (Z.to_nat _) with (slot ht i). rewrite Hp. cbn [bind get].
  rewrite (load_str_chars _ _ s [] (Hbm _ _ Hpb) H0s). cbn [bind]. unfold load_chars.
  rewrite Hb, lookup_union_r, HF by done. cbn [bind].
  rewrite (drop_S _ _ _ Hs). cbn [search].
  destruct (suggest_pass p s u post H0) as (b' & Hlen & H0b & Hpass).
  assert (Hupd : m <| blocks ::= <[target := Chars b']> |> =
                 m <| blocks := h ∪ <[target := Chars b']> F |>).
  { simpl. by rewrite Hb, insert_union_r by done. }
  destruct (matches _ s).
  - rewrite Hpass, Hupd. exists b', p. split_and!; [done|done|done|].
    split; [unfold NULL; lia|done].
  - destruct Hpass as (-> & u' & post' & -> & Hu & Hw). rewrite Hupd.
    destruct (IH (S i) (<[target := Chars (u' ++ 0 :: post')]> F)
      (m <| blocks := h ∪ <[target := Chars (u' ++ 0 :: post')]> F |>) u' post')
      as (b'' & r & Hl'' & H0'' & He & Hpt); [lia|done| |by apply lookup_insert_eq|done|].
    { by apply map_disjoint_insert_r_2. }
    exists b'', r. split_and!; [lia|done| |by rewrite <- Hw].
    replace (Z.of_nat i + 1) with (Z.of_nat (S i)) by lia. rewrite He. simpl.
    by rewrite insert_insert_eq.
Qed.

Lemma suggest_eff F m u post :
  blocks m = h ∪ F -> h ##ₘ F ->
  F !! target = Some (Chars (u ++ 0 :: post)) -> 0 ∉ u ->
  exists b' r, length b' = length (u ++ 0 :: post) /\ (0 ∈ b') /\
    suggest ht target m = inl (m <| blocks := h ∪ <[target := Chars b']> F |>, r) /\
    points_to r h (suggestion (words (bytes "/") u) l).
Proof using Hr Ht.
  intros Hb Hd HF H0.
  destruct (suggest_loop_spec (length l) 0 F m u post) as (b' & r & ? & ? & He & Hp);
    [lia|done..|].
  exists b', r. split_and!; [done|done| |by rewrite search_suggestion in Hp].
  unfold suggest. by rewrite (proj1 (rep_size _ _ _ _ Hr)), Nat2Z.id.
Qed.
End Suggest.

(** ** Deallocation *)

Lemma free_all_spec ps : forall m,
  NoDup ps -> Forall (fun p => 0 < p /\ is_Some (blocks m !! p)) ps ->
  free_all ps m = inl (m <| blocks := foldr delete (blocks m) (reverse ps) |>).
Proof.
  induction ps as [|p ps IH]; intros m Hnd Hf; [by destruct m|].
  apply NoDup_cons in Hnd as [Hp Hnd]. apply Forall_cons in Hf as [[Hpos [b Hb]] Hf].
  cbn [free_all]. rewrite (free_some _ _ _ Hpos Hb). cbn [bind]. rewrite IH; [|done|].
  - simpl. rewrite reverse_cons, foldr_app. done.
  - rewrite Forall_forall in *. intros q Hq. destruct (Hf q Hq) as [? [c Hc]].
    split; [done|]. exists c. simpl. rewrite lookup_delete_ne by (intros ->; done). done.
Qed.

Lemma foldr_delete_frame (h F : gmap Z mblock) ps c :
  h ##ₘ F -> (forall p, is_Some (h !! p) <-> p = c \/ p ∈ ps) ->
  delete c (foldr delete (h ∪ F) (reverse ps)) = F.
Proof.
  intros Hd Hdom. apply map_eq. intros p.
  destruct (decide (p = c \/ p ∈ ps)) as [Hin|Hout].
  - assert (F !! p = None) as ->.
    { apply Hdom in Hin as [x Hx]. by eapply map_disjoint_Some_l. }
    destruct (decide (p = c)) as [->|Hne]; [by rewrite lookup_delete_eq|].
    rewrite lookup_delete_ne by done. apply lookup_foldr_delete. rewrite elem_of_reverse. tauto.
  - rewrite lookup_delete_ne by (intros ->; tauto).
    rewrite lookup_foldr_delete_not_elem_of by (rewrite elem_of_reverse; tauto).
    rewrite lookup_union_r; [done|]. apply eq_None_not_Some. rewrite Hdom. done.
Qed.

Lemma take_hist ht a l h p :
  hist_rep ht a l h -> p ∈ take (length l) a <-> exists j, (j < length l)%nat /\ a !! j = Some p.
Proof.
  intros Hr. rewrite list_elem_of_lookup. split.
  - intros [j Hj]. apply lookup_take_Some in Hj as [? ?]. eauto.
  - intros (j & ? & ?). exists j. by apply lookup_take_Some.
Qed.

Lemma deallocateHist_eff ht a l h F m :
  hist_rep ht a l h -> blocks m = h ∪ F -> h ##ₘ F ->
  deallocateHist ht m = inl (m <| blocks := F |>).
Proof.
  intros Hr Hb Hd.
  assert (Hbm : forall q x, h !! q = Some x -> blocks m !! q = Some x)
    by (intros; rewrite Hb; by apply lookup_union_Some_l).
  pose proof (rep_commands _ _ _ _ Hr) as Hc. pose proof (rep_pos _ _ _ _ Hr) as Hcp.
  assert (Hcn : commands ht ∉ take (length l) a).
  { rewrite (take_hist _ _ _ _ _ Hr). intros (j & Hj & Haj).
    destruct (rep_live _ _ _ _ j Hr Hj) as (q & u & ? & _ & ?). congruence. }
  unfold deallocateHist, load_ptrs. rewrite (Hbm _ _ Hc). cbn [bind].
  rewrite (proj1 (rep_size _ _ _ _ Hr)), Nat2Z.id, free_all_spec.
  - cbn [bind]. rewrite (free_some _ _ (Ptrs a)); [|done|].
    + cbn [upd]. rewrite Hb. simpl. rewrite foldr_delete_frame; [done|done|].
      intros p. rewrite (take_hist _ _ _ _ _ Hr). split.
      * apply (rep_dom _ _ _ _ Hr).
      * intros [->|(j & Hj & Haj)]; [eauto|].
        destruct (rep_live _ _ _ _ j Hr Hj) as (q & u & ? & _ & ?). simplify_eq. eauto.
    + simpl. rewrite lookup_foldr_delete_not_elem_of by by rewrite elem_of_reverse.
      by apply Hbm.
  - apply NoDup_alt. intros i j x Hi Hj.
    apply lookup_take_Some in Hi as [? ?]. apply lookup_take_Some in Hj as [? ?].
    by eapply (rep_inj _ _ _ _ Hr).
  - apply Forall_forall. intros p (j & Hj & Haj)%(take_hist _ _ _ _ _ Hr).
    destruct (rep_live _ _ _ _ j Hr Hj) as (q & u & ? & ? & Hq). simplify_eq.
    split; [done|]. rewrite (Hbm _ _ Hq). eauto.
Qed.

Lemma start_rep p :
  0 < p -> hist_rep (mkHist p 0 0) (replicate 100 0) [] {[p := Ptrs (replicate 100 0)]}.
Proof.
  intros Hp. split; cbn [index size commands length].
  - by rewrite lookup_singleton_eq.
  - done.
  - done.
  - lia.
  - lia.
  - done.
  - intros j Hj. apply lookup_replicate_2. lia.
  - lia.
  - intros q [x Hx]. apply lookup_singleton_Some in Hx as [-> _]. by left.
Qed.

(** ** A history with one command *)

Definition demo_F : gmap Z mblock := {[2 := Chars (bytes "/bin/ls" ++ [0])]}.
Definition demo_h : gmap Z mblock := {[1 := Ptrs (replicate 100 0)]}.
Definition demo_m : mem := mkMem (demo_h ∪ demo_F) 3 10.
Definition demo_ht : history := mkHist 1 0 0.

Lemma bytes_ok s : bool_decide (0 ∉ bytes s) = true -> 0 ∉ bytes s.
Proof. apply bool_decide_eq_true. Qed.

Lemma demo_disjoint : demo_h ##ₘ demo_F.
Proof. apply (bool_decide_unpack _). vm_compute. exact I. Qed.

Lemma demo_heap_ok : heap_ok demo_m.
Proof.
  split; [done|]. intros p [x Hx]. simpl in *.
  apply lookup_union_Some_raw in Hx as [Hx|[_ Hx]];
    unfold demo_h, demo_F in Hx; apply lookup_singleton_Some in Hx as [<- _]; lia.
Qed.

(** [remember] on the strings of a list, through a block of their own. *)
Fixpoint remember_strings (ht : history) (m : mem) (l : list (list Z)) : run (mem * history) :=
  match l with
  | [] => inl (m, ht)
  | s :: l =>
      let '(p, m) := malloc (Chars (s ++ [0])) m in
      let* x := remember ht p m in
      let '(m, ht, _) := x in
      let* m := free p m in remember_strings ht m l
  end.

(** ** Properties *)

(** C38: [remember] refines "put the command in front and keep the last 100":
    it succeeds whenever memory is left, frees the oldest command when the ring
    is full, touches no other block, and the history it leaves represents the
    new list with exactly its own blocks. *)
Theorem remember_refines ht a l h F m command s post n :
  hist_rep ht a l h -> heap_ok m -> blocks m = h ∪ F -> h ##ₘ F ->
  F !! command = Some (Chars (s ++ 0 :: post)) -> 0 ∉ s -> strlen s + 1 < 2 ^ 16 ->
  mallocs m = S n ->
  exists m' ht' a' h',
    remember ht command m = inl (m', ht', 0) /\
    hist_rep ht' a' (take 100 (s :: l)) h' /\
    heap_ok m' /\ blocks m' = h' ∪ F /\ h' ##ₘ F.
Proof.
  intros Hr Hok Hb Hd Hc H0 Hs Hn.
  destruct (remember_step ht a l h F Hr m command s post n) as
    (m' & ht' & a' & h' & ? & ? & ? & ? & ? & _); [done..|].
  by exists m', ht', a', h'.
Qed.

(** [suggest] searches the history from the newest command to the oldest
    and returns the first one that some word of the name occurs in, or NULL;
    but [strtok] cuts the name after its first word during the first test, so
    the older commands are searched for the first word only.  The search
    changes nothing but the bytes of the name. *)
Theorem suggest_searches ht a l h F m target u post :
  hist_rep ht a l h -> blocks m = h ∪ F -> h ##ₘ F ->
  F !! target = Some (Chars (u ++ 0 :: post)) -> 0 ∉ u ->
  exists b' r, length b' = length (u ++ 0 :: post) /\
    suggest ht target m = inl (m <| blocks := h ∪ <[target := Chars b']> F |>, r) /\
    points_to r h (suggestion (words (bytes "/") u) l).
Proof.
  intros Hr Hb Hd HF H0.
  destruct (suggest_eff ht a l h target Hr ltac:(by eapply map_disjoint_Some_r) F m u post)
    as (b' & r & ? & _ & ? & ?); [done..|]. eauto.
Qed.

(** Freeing the history frees each of its blocks once and nothing else:
    of the heap only the blocks that are not the history's remain. *)
Theorem deallocateHist_frees_all ht a l h F m :
  hist_rep ht a l h -> blocks m = h ∪ F -> h ##ₘ F ->
  clear (Some ht) None m = inl (m <| blocks := F |>).
Proof.
  intros Hr Hb Hd. unfold clear, NULL. pose proof (rep_pos _ _ _ _ Hr).
  rewrite (proj2 (Z.eqb_neq (commands ht) 0)) by lia. cbn [negb].
  by rewrite (deallocateHist_eff _ _ _ _ _ _ Hr Hb Hd).
Qed.

Lemma remember_refines_witness :
  exists m' ht' a' h',
    remember demo_ht 2 demo_m = inl (m', ht', 0) /\
    hist_rep ht' a' (take 100 [bytes "/bin/ls"]) h' /\
    heap_ok m' /\ blocks m' = h' ∪ demo_F /\ h' ##ₘ demo_F.
Proof.
  apply (remember_refines demo_ht (replicate 100 0) [] demo_h demo_F demo_m 2 (bytes "/bin/ls") [] 9).
  - apply start_rep. lia.
  - apply demo_heap_ok.
  - reflexivity.
  - apply demo_disjoint.
  - reflexivity.
  - apply bytes_ok. reflexivity.
  - vm_compute. reflexivity.
  - reflexivity.
Defined.

Lemma suggest_searches_witness :
  let h := remembered demo_ht (replicate 100 0) (bytes "/bin/ls") 3 demo_h in
  exists b' r, length b' = 8%nat /\
    suggest (advanced demo_ht) 2 (mkMem (h ∪ demo_F) 4 9) =
      inl (mkMem (h ∪ <[2 := Chars b']> demo_F) 4 9, r) /\
    points_to r h (suggestion (words (bytes "/") (bytes "/bin/ls")) [bytes "/bin/ls"]).
Proof.
  apply (suggest_searches (advanced demo_ht) (<[0%nat := 3]> (replicate 100 0)) [bytes "/bin/ls"] _
    demo_F (mkMem (_ ∪ demo_F) 4 9) 2 (bytes "/bin/ls") []).
  - apply (remembered_rep demo_ht (replicate 100 0) [] demo_h).
    + apply start_rep. lia.
    + reflexivity.
    + lia.
    + apply bytes_ok. reflexivity.
  - reflexivity.
  - unfold remembered. apply map_disjoint_insert_l_2; [reflexivity|].
    apply map_disjoint_insert_l_2; [reflexivity|].
    apply map_disjoint_delete_l, demo_disjoint.
  - reflexivity.
  - apply bytes_ok. reflexivity.
Defined.

Lemma deallocateHist_frees_all_witness :
  clear (Some demo_ht) None demo_m = inl (mkMem demo_F 3 10).
Proof.
  apply (deallocateHist_frees_all demo_ht (replicate 100 0) [] demo_h demo_F demo_m).
  - apply start_rep. lia.
  - reflexivity.
  - apply demo_disjoint.
Defined.

(** A suggestion can be missed.  With "ls" remembered before "cat", the
    unknown command "/opt/ls" gets no suggestion although its second part names
    the remembered "ls"; remembered in the other order it gets one. *)
Theorem suggest_misses_older_command :
  let ask l := let* x := start (mkMem ∅ 1 100) in
               let '(m, ht) := x in
               let* x := remember_strings ht m l in
               let '(m, ht) := x in
               let '(p, m) := malloc (Chars (bytes "/opt/ls" ++ [0])) m in
               let* x := suggest ht p m in
               let '(m, r) := x in
               if r =? NULL then inl None else let* s := load_str m r in inl (Some s) in
  ask [bytes "ls"; bytes "cat"] = inl None /\
  ask [bytes "cat"; bytes "ls"] = inl (Some (bytes "ls")).
Proof. vm_compute. split; reflexivity. Qed.
