(* ===== verification/ShellParse.v ===== *)
(** * Parsing a line of the shell

    [parse] cuts the line in place with [strtok] and copies every argument to
    the heap; [segs_rep] owns exactly the blocks of a parsed line.  Shown here:
    which lines are parsed and to what (the rest aborts on the [assert]), and that
    [deallocateInput] gives back all of it. *)

From stdpp Require Import strings.
From S2P Require Import Prelude CString Mybash ShellHistory.
#[local] Open Scope Z_scope.

Abbreviation pipe := (bytes "|").
Abbreviation space := (bytes " ").

Lemma pipe_ok : 0 ∉ pipe.
Proof. by apply bytes_ok. Qed.
Lemma space_ok : 0 ∉ space.
Proof. by apply bytes_ok. Qed.

(** ** Who owns what *)

Inductive args_rep : list Z -> list (list Z) -> gmap Z mblock -> Prop :=
  | args_nil : args_rep [] [] ∅
  | args_cons q qs w post ws h :
      0 < q -> 0 ∉ w -> h !! q = None -> args_rep qs ws h ->
      args_rep (q :: qs) (w :: ws) (<[q := Chars (w ++ 0 :: post)]> h).

(** The array [a] with the arguments and the NULL behind them. *)
Definition seg_rep (a : Z) (args : list (list Z)) (h : gmap Z mblock) : Prop :=
  exists qs junk h', h = <[a := Ptrs (qs ++ 0 :: junk)]> h' /\ h' !! a = None /\
    args_rep qs args h' /\ 0 < a.

Inductive segs_rep : list Z -> list (list (list Z)) -> gmap Z mblock -> Prop :=
  | segs_nil : segs_rep [] [] ∅
  | segs_cons a al args argss h1 h2 :
      seg_rep a args h1 -> h1 ##ₘ h2 -> segs_rep al argss h2 ->
      segs_rep (a :: al) (args :: argss) (h1 ∪ h2).

Lemma args_rep_length qs ws h : args_rep qs ws h -> length qs = length ws.
Proof. induction 1; simpl; lia. Qed.

(** ** Copying the arguments of a segment *)

Definition short_word (w : list Z) : Prop := (0 ∉ w) /\ strlen w + 1 < 2 ^ 16.

Section Args.
Context (i : nat) (a : Z).

Lemma arg_step inp m qs x junk G w n p :
  heap_ok m -> blocks m = <[a := Ptrs (qs ++ x :: junk)]> G -> G !! a = None ->
  segments inp !! i = Some a -> argsCtr inp !! i = Some (Z.of_nat (length qs)) ->
  (length qs < 32)%nat -> short_word w -> mallocs m = S n ->
  let m' := mkMem (<[a := Ptrs ((qs ++ [brk m]) ++ junk)]>
                     (<[brk m := Chars (w ++ [0])]> G)) (brk m + 1) n in
  arg_token i p w (inp, m) =
    inl (inp <| argsCtr ::= <[i := Z.of_nat (S (length qs))]> |>, m') /\
  heap_ok m' /\ G !! brk m = None /\ brk m <> a.
Proof.
  intros Hok Hb HG Hseg Hctr Hlt [H0 Hw] Hn m'.
  pose proof (heap_ok_brk m Hok) as Hbrk. rewrite Hb in Hbrk.
  apply lookup_insert_None in Hbrk as [HGb Hne].
  assert (Hm' : forall y, heap_ok (mkMem (<[brk m := y]> (blocks m)) (brk m + 1) n))
    by (intros; by apply heap_ok_malloc).
  split_and!; [|destruct (Hm' (Chars (w ++ [0]))) as [H1 H2]; split; [exact H1|]|done|done].
  - unfold arg_token. rewrite Hctr. cbn [bind get]. unfold ARGSMAX.
    rewrite (proj2 (Z.leb_le (Z.of_nat (length qs)) 32)) by lia. cbn [negb].
    rewrite Hseg. cbn [bind get]. rewrite u16_id by (unfold strlen in *; lia).
    rewrite (malloc_some _ _ n Hn), Hb.
    rewrite (store_ptr_some _ _ _ _ (qs ++ x :: junk)).
    2:{ simpl. rewrite lookup_insert_ne, lookup_insert_eq by done. done. }
    2:{ rewrite length_app. simpl. lia. }
    cbn [bind]. rewrite strcpy_blank.
    2:{ simpl. by rewrite lookup_insert_ne, lookup_insert_eq by done. }
    cbn [bind]. rewrite u16_id by lia. unfold m'.
    replace (Z.of_nat (length qs) + 1) with (Z.of_nat (S (length qs))) by lia.
    do 3 f_equal. cbn [upd blocks]. rewrite Nat2Z.id. rewrite (insert_mid qs [] x (brk m) junk) by (simpl; lia). cbn [app].
    rewrite (insert_insert_ne _ (brk m) a) by done. rewrite insert_insert_eq.
    rewrite (insert_insert_ne _ (brk m) a) by done. rewrite insert_insert_eq.
    rewrite <- app_assoc. done.
  - intros q [y Hy]. apply H2. simpl in *. rewrite Hb.
    destruct (decide (q = brk m)) as [->|]; [rewrite lookup_insert_eq; eauto|].
    destruct (decide (q = a)) as [->|].
    { rewrite lookup_insert_ne, lookup_insert_eq by done. eauto. }
    rewrite !lookup_insert_ne in * by done. eauto.
Qed.

Lemma arg_fold ws : forall ps inp m qs junk G,
  length ps = length ws ->
  heap_ok m -> blocks m = <[a := Ptrs (qs ++ junk)]> G -> G !! a = None ->
  segments inp !! i = Some a -> argsCtr inp !! i = Some (Z.of_nat (length qs)) ->
  (length qs + length ws < 32)%nat -> length (qs ++ junk) = 32%nat ->
  Forall short_word ws -> (length ws <= mallocs m)%nat ->
  exists qs' h m', fold_until (arg_token i) (zip ps ws) (inp, m) =
      inl (inp <| argsCtr ::= <[i := Z.of_nat (length qs + length ws)]> |>, m') /\
    args_rep qs' ws h /\ h ##ₘ G /\ h !! a = None /\
    blocks m' = <[a := Ptrs (qs ++ qs' ++ drop (length ws) junk)]> (h ∪ G) /\
    heap_ok m' /\ mallocs m' = (mallocs m - length ws)%nat.
Proof.
  induction ws as [|w ws IH]; intros [|p ps] inp m qs junk G Hl Hok Hb HG Hs Hc Hlt H32 Hw Hm;
    try done.
  { exists [], ∅, m. simpl. rewrite Nat.add_0_r, (map_empty_union G), Nat.sub_0_r.
    rewrite (list_insert_id (argsCtr inp)) by done. split_and!; try done.
    - by destruct inp.
    - constructor.
    - apply map_disjoint_empty_l. }
  apply Forall_cons in Hw as [Hw Hws]. simpl in Hl, Hm, Hlt.
  destruct junk as [|x junk]; [rewrite app_nil_r in H32; lia|].
  destruct (mallocs m) as [|n] eqn:Hn; [lia|].
  destruct (arg_step inp m qs x junk G w n p) as (Hstep & Hok' & HGb & Hne); try done; [lia|].
  match type of Hok' with heap_ok ?m1 => set (m' := m1) in * end.
  cbn [zip zip_with fold_until]. rewrite Hstep.
  destruct (IH ps (inp <| argsCtr ::= <[i := Z.of_nat (S (length qs))]> |>) m' (qs ++ [brk m]) junk
    (<[brk m := Chars (w ++ [0])]> G)) as (qs' & h & m2 & Hf & Hr & Hd & Hha & Hb' & Hok2 & Hmm);
    [lia|exact Hok'|reflexivity|..|].
  - by rewrite lookup_insert_ne.
  - done.
  - simpl. rewrite list_lookup_insert_eq by by eapply lookup_lt_Some.
    rewrite length_app. simpl. f_equal. lia.
  - rewrite length_app. simpl. lia.
  - rewrite !length_app in *. simpl in *. lia.
  - done.
  - simpl. lia.
  - apply map_disjoint_insert_r in Hd as [Hhb Hd].
    exists (brk m :: qs'), (<[brk m := Chars (w ++ [0])]> h), m2. split_and!.
    + etrans; [exact Hf|]. simpl. rewrite list_insert_insert_eq, length_app.
      simpl. do 5 f_equal. lia.
    + destruct Hw. constructor; try done. destruct Hok; lia.
    + by apply map_disjoint_insert_l_2.
    + by rewrite lookup_insert_ne.
    + rewrite Hb'. simpl. rewrite <- app_assoc. simpl.
      by rewrite <- insert_union_r, insert_union_l by done.
    + done.
    + rewrite Hmm. simpl. lia.
Qed.
End Args.

(** ** One segment *)

(** Overwriting a live block keeps the heap well formed. *)
Lemma heap_ok_overwrite m p x :
  heap_ok m -> is_Some (blocks m !! p) -> heap_ok (m <| blocks ::= <[p := x]> |>).
Proof.
  intros Hok Hp. apply (heap_ok_sub m _ Hok). intros q [y Hy].
  destruct (decide (q = p)) as [->|]; [done|]. rewrite lookup_insert_ne in Hy by done. eauto.
Qed.

(** The loop over the words of the string at [pos] of the line. *)
Lemma seg_words {S R : Type} (body : nat -> list Z -> S -> S + R) del b pos w st :
  0 ∉ del -> str_at b pos w ->
  exists ps, length ps = length (words del w) /\
    forall st', fold_until body (zip ps (words del w)) st = inl st' ->
    exists b', strtok_loop body del (length b) pos b st = inl (b', st') /\
      forall q, (pos + length w < q)%nat -> drop q b' = drop q b.
Proof.
  intros Hdel [H0 [post Hd]].
  assert (Hpos : (pos + length w < length b)%nat).
  { apply (f_equal length) in Hd. rewrite length_drop, length_app in Hd. simpl in Hd. lia. }
  assert (Hpre : length (take pos b) = pos) by (rewrite length_take; lia).
  assert (Hb : b = take pos b ++ w ++ 0 :: post) by (by rewrite <- Hd, take_drop).
  destruct (strtok_loop_spec body del Hdel w (length b) (take pos b) post st)
    as (ps & Hps & _ & Hl); [done|lia|].
  exists ps. split; [done|]. intros st' Hf. rewrite Hf, Hpre, <- Hb in Hl.
  destruct Hl as (s' & -> & [Hs' _] & _). eexists. split; [done|].
  intros q Hq. rewrite Hb at 2. set (pre := take pos b) in *.
  rewrite !(app_assoc pre). rewrite !drop_app_ge by (rewrite length_app; lia).
  by rewrite !length_app, Hs'.
Qed.

Section Segment.
Context (line : Z) (Hline : 0 < line).

Lemma seg_step m b F pos w i inp x :
  heap_ok m -> blocks m = <[line := Chars b]> F -> F !! line = None -> str_at b pos w ->
  segments inp !! i = Some x -> argsCtr inp !! i = Some 0 ->
  (length (words space w) < 32)%nat -> Forall short_word (words space w) ->
  (length (words space w) < mallocs m)%nat ->
  exists a h b' m',
    (forall rest, parse_segments (pos :: rest) i line inp m =
       parse_segments rest (S i) line
         (inp <| segments ::= <[i := a]> |>
              <| argsCtr ::= <[i := Z.of_nat (length (words space w))]> |>) m') /\
    seg_rep a (words space w) h /\ h ##ₘ F /\ h !! line = None /\
    blocks m' = <[line := Chars b']> (h ∪ F) /\ heap_ok m' /\
    mallocs m' = (mallocs m - S (length (words space w)))%nat /\
    (forall q, (pos + length w < q)%nat -> drop q b' = drop q b).
Proof using Hline.
  intros Hok Hb HF Hs Hseg Hctr H32 Hw Hm. set (n := length (words space w)) in *.
  destruct (mallocs m) as [|k] eqn:Hk; [lia|].
  pose proof (heap_ok_brk m Hok) as Hbrk. rewrite Hb in Hbrk.
  pose proof Hbrk as [HFb Hlb]%lookup_insert_None.
  set (m1 := mkMem (<[brk m := Ptrs (replicate 32 0)]> (blocks m)) (brk m + 1) k).
  set (inp1 := inp <| segments ::= <[i := brk m]> |>).
  destruct (seg_words (arg_token i) space b pos w (inp1, m1) space_ok Hs) as (ps & Hps & Hloop).
  destruct (arg_fold i (brk m) (words space w) ps inp1 m1 [] (replicate 32 0)
    (<[line := Chars b]> F)) as (qs & h & m2 & Hf & Hr & Hd & Hha & Hb2 & Hok2 & Hm2);
    [done|by apply heap_ok_malloc|by unfold m1; rewrite <- Hb|done| |done|done|done|done|
     simpl; lia|].
  { simpl. apply list_lookup_insert_eq. by eapply lookup_lt_Some. }
  destruct (Hloop _ Hf) as (b' & Hb' & Hdrop).
  apply map_disjoint_insert_r in Hd as [Hhl Hd].
  pose proof (args_rep_length _ _ _ Hr) as Hlq. fold n in Hlq, Hb2, Hm2. cbn [app] in Hb2.
  rewrite drop_replicate in Hb2.
  set (h1 := <[brk m := Ptrs (qs ++ 0 :: replicate (31 - n) 0)]> h).
  exists (brk m), h1, b', (m2 <| blocks := <[line := Chars b']> (h1 ∪ F) |>).
  assert (Hrep : replicate (32 - n) 0 = 0 :: replicate (31 - n) 0)
    by by replace (32 - n)%nat with (S (31 - n)) by lia.
  assert (Hfin : <[line := Chars b']> (blocks m2) = <[line := Chars b']> (h1 ∪ F)).
  { rewrite Hb2, Hrep. unfold h1. rewrite <- insert_union_r, <- insert_union_l by done.
    rewrite (insert_insert_ne (h ∪ F) (brk m) line) by done.
    by rewrite insert_insert_eq. }
  split_and!.
  - intros rest. cbn [parse_segments]. unfold ARGSMAX.
    change (replicate (Z.to_nat 32) NULL) with (replicate 32 0).
    rewrite (malloc_some _ _ k Hk). fold m1. rewrite Hseg. cbn [bind get]. unfold NULL.
    destruct (Z.eqb_spec (brk m) 0); [destruct Hok; lia|]. unfold load_chars.
    unfold m1 at 1. cbn [blocks]. rewrite Hb, lookup_insert_ne, lookup_insert_eq by done.
    cbn [bind]. fold inp1. rewrite Hb'.
    cbn [argsCtr upd]. rewrite list_lookup_insert_eq by by eapply lookup_lt_Some.
    cbn [bind get]. rewrite (store_ptr_some _ _ _ _ (qs ++ replicate (32 - n) 0)).
    2:{ cbn [blocks upd]. rewrite lookup_insert_ne, Hb2, lookup_insert_eq by done. done. }
    2:{ rewrite length_app, length_replicate. cbn [length]. lia. }
    cbn [bind blocks upd]. do 2 f_equal. rewrite Hfin.
    cbn [length Nat.add]. fold n. rewrite Nat2Z.id, Hrep.
    rewrite list_insert_id by (apply list_lookup_middle; lia).
    unfold h1. cbn [app]. rewrite insert_insert_ne by done.
    by rewrite <- insert_union_l, insert_insert_eq.
  - exists qs, (replicate (31 - n) 0), h. split_and!; try done. destruct Hok; lia.
  - by apply map_disjoint_insert_l_2.
  - unfold h1. by rewrite lookup_insert_ne.
  - done.
  - rewrite <- Hfin. apply (heap_ok_overwrite m2); [done|].
    rewrite Hb2, lookup_insert_ne by done. rewrite lookup_union_r, lookup_insert_eq by done. eauto.
  - simpl. rewrite Hm2. simpl. lia.
  - done.
Qed.
End Segment.

(** ** All segments *)

Definition seg_ok (w : list Z) : Prop :=
  (length (words space w) < 32)%nat /\ Forall short_word (words space w).

(** The blocks a list of segments needs. *)
Definition need (strs : list (list Z)) : nat :=
  sum_list_with (fun w => S (length (words space w))) strs.

(** The entries of [in] from [i] on describe the segments [al] with [argss]. *)
Record entries (inp : input) (i : nat) (al : list Z) (argss : list (list (list Z))) : Prop := {
  entries_seg k a : al !! k = Some a -> segments inp !! (i + k)%nat = Some a;
  entries_ctr k args : argss !! k = Some args ->
    argsCtr inp !! (i + k)%nat = Some (Z.of_nat (length args)) }.

Lemma entries_cons inp i a al args argss :
  segments inp !! i = Some a -> argsCtr inp !! i = Some (Z.of_nat (length args)) ->
  entries inp (S i) al argss -> entries inp i (a :: al) (args :: argss).
Proof.
  intros Ha Hc [Hs Hcs]. split; intros [|k] x Hx; simplify_eq/=.
  - by rewrite Nat.add_0_r.
  - rewrite <- Nat.add_succ_comm. by apply Hs.
  - by rewrite Nat.add_0_r.
  - rewrite <- Nat.add_succ_comm. by apply Hcs.
Qed.

(** [inp'] differs from [inp] from entry [i] on only. *)
Definition same_below (i : nat) (inp inp' : input) : Prop :=
  segCtr inp' = segCtr inp /\
  forall k, (k < i)%nat -> segments inp' !! k = segments inp !! k /\
                     argsCtr inp' !! k = argsCtr inp !! k.

Section Segments.
Context (line : Z) (Hline : 0 < line).

Lemma parse_segments_spec strs : forall b ps i inp m F,
  laid b ps strs ->
  heap_ok m -> blocks m = <[line := Chars b]> F -> F !! line = None ->
  length (segments inp) = 32%nat -> length (argsCtr inp) = 32%nat ->
  (forall k, (i <= k < 32)%nat -> argsCtr inp !! k = Some 0) ->
  (i + length strs <= 32)%nat -> Forall seg_ok strs -> (need strs <= mallocs m)%nat ->
  exists al h m' inp',
    parse_segments ps i line inp m = inl (m', inp', 0) /\
    segs_rep al (words space <$> strs) h /\ h ##ₘ F /\ blocks m' = h ∪ F /\ heap_ok m' /\
    mallocs m' = (mallocs m - need strs)%nat /\
    entries inp' i al (words space <$> strs) /\ same_below i inp inp'.
Proof using Hline.
  induction strs as [|w ws IH]; intros b ps i inp m F Hl Hok Hb HF Hls Hlc Hz Hi Hseg Hm;
    inversion Hl as [|pos ? ps' ? Hs Hlt Hl']; subst.
  - exists [], ∅, (m <| blocks := F |>), inp. cbn [parse_segments].
    rewrite (free_some line m (Chars b) Hline) by (rewrite Hb; apply lookup_insert_eq).
    cbn [bind upd]. rewrite Hb, delete_insert_id by done. split_and!; try done.
    + constructor.
    + apply map_disjoint_empty_l.
    + simpl. by rewrite map_empty_union.
    + apply (heap_ok_sub m F Hok). intros q [y Hy]. rewrite Hb.
      rewrite lookup_insert_ne by congruence. eauto.
    + simpl. lia.
  - apply Forall_cons in Hseg as [[H32 Hw] Hseg]. simpl in Hi. unfold need in Hm.
    cbn [sum_list_with] in Hm. fold (need ws) in Hm.
    destruct (lookup_lt_is_Some_2 (segments inp) i) as [x Hx]; [lia|].
    destruct (seg_step line Hline m b F pos w i inp x) as
      (a & h1 & b' & m1 & Hstep & Hr1 & Hd1 & Hh1 & Hb1 & Hok1 & Hm1 & Hdrop); try done;
      [apply Hz; lia|lia|].
    set (inp1 := inp <| segments ::= <[i := a]> |> <| argsCtr ::= _ |>) in *.
    destruct (IH b' ps' (S i) inp1 m1 (h1 ∪ F)) as
      (al & h2 & m' & inp' & Hp & Hr2 & Hd2 & Hb2 & Hok2 & Hm2 & Hent & Hcnt & Hsame).
    + eapply laid_drop; [|exact Hl']. intros q Hq. rewrite Forall_forall in Hlt.
      symmetry. apply Hdrop, Hlt, Hq.
    + done.
    + done.
    + by apply lookup_union_None.
    + simpl. by rewrite length_insert.
    + simpl. by rewrite length_insert.
    + intros k Hk. simpl. rewrite list_lookup_insert_ne by lia. apply Hz. lia.
    + lia.
    + done.
    + lia.
    + apply map_disjoint_union_r in Hd2 as [Hd21 Hd2].
      exists (a :: al), (h1 ∪ h2), m', inp'. split_and!.
      * by rewrite Hstep.
      * by constructor.
      * by apply map_disjoint_union_l.
      * rewrite Hb2, map_union_assoc, (map_union_comm h2 h1) by done. done.
      * done.
      * rewrite Hm2, Hm1. unfold need. cbn [sum_list_with]. lia.
      * destruct (Hsame i ltac:(lia)) as [Hs1 Hs2]. apply entries_cons; [| |done].
        -- rewrite Hs1. simpl. apply list_lookup_insert_eq. lia.
        -- rewrite Hs2. simpl. apply list_lookup_insert_eq. lia.
      * split; [by rewrite Hcnt|]. intros k Hk.
        destruct (Hsame k ltac:(lia)) as [-> ->]. simpl. by rewrite !list_lookup_insert_ne by lia.
Qed.

End Segments.

(** ** Giving a parsed line back *)

Lemma args_rep_dom qs ws h p : args_rep qs ws h -> is_Some (h !! p) <-> p ∈ qs.
Proof.
  induction 1 as [|q qs w post ws h Hq H0 Hh Hr IH].
  - rewrite lookup_empty. split; [by intros []|set_solver].
  - rewrite elem_of_cons, <- IH. destruct (decide (p = q)) as [->|].
    + rewrite lookup_insert_eq. naive_solver.
    + rewrite lookup_insert_ne by done. naive_solver.
Qed.

Lemma args_rep_NoDup qs ws h : args_rep qs ws h -> NoDup qs /\ Forall (fun q => 0 < q) qs.
Proof.
  induction 1 as [|q qs w post ws h Hq H0 Hh Hr [IH1 IH2]]; [by repeat constructor|].
  split; constructor; try done. intros Hin. apply (args_rep_dom _ _ _ _ Hr) in Hin as [? ?].
  congruence.
Qed.

Lemma dealloc_segments_spec al argss h :
  segs_rep al argss h -> forall i inp m F,
  entries inp i al argss -> blocks m = h ∪ F -> h ##ₘ F ->
  dealloc_segments (length al) i inp m = inl (m <| blocks := F |>).
Proof.
  induction 1 as [|a al args argss h1 h2 Hr Hd Hrs IH]; intros i inp m F Hent Hb HdF.
  { simpl. rewrite map_empty_union in Hb. rewrite <- Hb. by destruct m. }
  apply map_disjoint_union_l in HdF as [Hd1 Hd2].
  assert (Hd1' : h1 ##ₘ h2 ∪ F) by by apply map_disjoint_union_r.
  pose proof (entries_seg _ _ _ _ Hent 0 a eq_refl) as Hs.
  pose proof (entries_ctr _ _ _ _ Hent 0 args eq_refl) as Hc. rewrite Nat.add_0_r in Hs, Hc.
  destruct Hr as (qs & junk & h' & -> & Hha & Hr & Ha).
  pose proof (args_rep_length _ _ _ Hr) as Hlq. destruct (args_rep_NoDup _ _ _ Hr) as [Hnd Hpos].
  rewrite <- map_union_assoc in Hb. set (h1 := <[a := _]> h') in *.
  assert (Hlook : forall p x, h1 !! p = Some x -> blocks m !! p = Some x)
    by (intros; rewrite Hb; by apply lookup_union_Some_l).
  assert (Hba : blocks m !! a = Some (Ptrs (qs ++ 0 :: junk))) by apply Hlook, lookup_insert_eq.
  cbn [length dealloc_segments]. rewrite Hs, Hc. cbn [bind get].
  assert (Hfree : (if 0 <? Z.of_nat (length args) then
             let* a0 := load_ptrs m a in free_all (take (Z.to_nat (Z.of_nat (length args))) a0) m
           else inl m) = free_all qs m).
  { destruct (Z.ltb_spec 0 (Z.of_nat (length args))) as [Hlt|Hge].
    - unfold load_ptrs. rewrite Hba. cbn [bind]. by rewrite Nat2Z.id, take_app_length'.
    - by destruct qs; [|simpl in Hlq; lia]. }
  rewrite Hfree, free_all_spec; [|done|].
  2:{ rewrite Forall_forall in *. intros q Hq. split; [by apply Hpos|].
      apply (args_rep_dom _ _ _ _ Hr) in Hq as [x Hx]. exists x. apply Hlook. unfold h1.
      rewrite lookup_insert_ne by congruence. done. }
  cbn [bind]. rewrite (free_some _ _ (Ptrs (qs ++ 0 :: junk))); [|done|].
  2:{ simpl. rewrite lookup_foldr_delete_not_elem_of; [done|].
      rewrite elem_of_reverse, <- (args_rep_dom _ _ _ a Hr), Hha. by intros []. }
  cbn [bind upd]. simpl. rewrite Hb, foldr_delete_frame; [|done|].
  2:{ intros p. unfold h1. destruct (decide (p = a)) as [->|].
      - rewrite lookup_insert_eq. naive_solver.
      - rewrite lookup_insert_ne, (args_rep_dom _ _ _ p Hr) by done. naive_solver. }
  rewrite (IH (S i) inp _ F); [done| |done|done].
  destruct Hent as [Hes Hec]. split; intros k x Hx; rewrite Nat.add_succ_comm;
    [by apply Hes|by apply Hec].
Qed.

(** ** Cutting the line *)

Lemma segment_fold n ws : forall ps k done junk,
  length ps = length ws -> length done = k -> (k + length ws <= n)%nat ->
  length (done ++ junk) = n -> Z.of_nat n < 2 ^ 16 ->
  fold_until (segment_token (Z.of_nat n)) (zip ps ws) (Z.of_nat k, done ++ junk) =
  inl (Z.of_nat (k + length ws), done ++ ps ++ drop (length ws) junk).
Proof.
  induction ws as [|w ws IH]; intros [|p ps] k dn junk Hl Hk Hn Hlen Hb; try done.
  { simpl. by rewrite Nat.add_0_r. }
  cbn [zip zip_with fold_until]. simpl in Hl, Hn. unfold segment_token at 1.
  rewrite (proj2 (Z.ltb_lt _ _)) by lia. rewrite u16_id by lia.
  destruct junk as [|x junk]; [rewrite app_nil_r in Hlen; lia|].
  replace (<[Z.to_nat (Z.of_nat k) := p]> (dn ++ x :: junk)) with ((dn ++ [p]) ++ junk).
  2:{ rewrite Nat2Z.id, <- Hk, <- (Nat.add_0_r (length dn)), insert_app_r, <- app_assoc. done. }
  replace (Z.of_nat k + 1) with (Z.of_nat (S k)) by lia.
  etrans; [apply (IH ps (S k) (dn ++ [p]) junk)|]; [lia|rewrite length_app; simpl; lia|lia| |done|].
  - rewrite !length_app in *. simpl in *. lia.
  - rewrite <- app_assoc. simpl. do 3 f_equal. lia.
Qed.

Lemma getSegCtr_split s :
  Z.of_nat (length (split pipe s)) < 2 ^ 16 -> getSegCtr s = Z.of_nat (length (split pipe s)).
Proof.
  unfold getSegCtr. intros Hlt.
  assert (Hf : forall s k, k + Z.of_nat (length (split pipe s)) < 2 ^ 16 + 1 -> 0 <= k ->
    foldl (fun res c => if c =? 124 then u16 (res + 1) else res) k s =
    k + Z.of_nat (length (split pipe s)) - 1).
  { clear. intros s. induction s as [|c s IH]; intros k Hk H0; simpl in *; [lia|].
    destruct (Z.eqb_spec c 124) as [->|Hc]; simpl in *.
    - pose proof (split_ne pipe s). destruct (split pipe s) eqn:E; [done|]. simpl in *.
      rewrite u16_id by lia. rewrite IH by lia. lia.
    - rewrite bool_decide_false in * by (unfold bytes; simpl; set_solver).
      pose proof (split_ne pipe s). destruct (split pipe s) eqn:E; [done|]. simpl in *. by apply IH. }
  rewrite Hf by lia. pose proof (split_ne pipe s). destruct (split pipe s); [done|]. simpl.
  rewrite u16_id; simpl in *; lia.
Qed.

Lemma words_all_ne del s :
  Forall (fun w => w <> []) (split del s) -> words del s = split del s.
Proof.
  intros Hf. unfold words. induction Hf as [|w l Hw Hf IH]; [done|].
  rewrite filter_cons_True by done. by f_equal.
Qed.

Lemma words_lt del s :
  ~ Forall (fun w => w <> []) (split del s) -> (length (words del s) < length (split del s))%nat.
Proof.
  unfold words. induction (split del s) as [|w l IH]; intros Hn; [by destruct Hn|].
  rewrite filter_cons. pose proof (length_filter (fun w => w <> []) l) as Hle.
  case_decide as Hw; simpl; [|lia].
  assert (~ Forall (fun w => w <> []) l) as ?%IH; [|lia]. intros Hf. apply Hn. by constructor.
Qed.

(** The first loop of [parse]: where the segments are, whether or not their
    number is the expected one. *)
Lemma cut_line s post n :
  0 ∉ s -> (length (words pipe s) <= n)%nat -> Z.of_nat n < 2 ^ 16 ->
  exists b ps, laid b ps (words pipe s) /\
    strtok_loop (segment_token (Z.of_nat n)) pipe (length (s ++ 0 :: post)) 0 (s ++ 0 :: post)
      (0, replicate n 0%nat) =
    inl (b, (Z.of_nat (length (words pipe s)), ps ++ replicate (n - length (words pipe s)) 0%nat)).
Proof.
  intros H0 Hle Hn.
  destruct (strtok_loop_spec (segment_token (Z.of_nat n)) pipe pipe_ok s (length (s ++ 0 :: post))
    [] post (0, replicate n 0%nat)) as (ps & Hps & _ & Hl);
    [done|rewrite length_app; simpl; lia|].
  assert (Hf := segment_fold n (words pipe s) ps 0 [] (replicate n 0%nat) Hps eq_refl Hle
    (length_replicate n 0%nat) Hn).
  cbn [app] in Hf. change (Z.of_nat 0) with 0 in Hf. rewrite drop_replicate in Hf.
  rewrite Hf in Hl. destruct Hl as (s' & Heq & _ & Hlaid).
  cbn [app length] in *. eauto.
Qed.

(** ** Properties of [parse] *)

(** A line the shell can parse: no empty piece between the pipes, at most 32
    pieces, and in each fewer than 32 words of bounded length. *)
Record parsable (s : list Z) : Prop := {
  parsable_ne : Forall (fun w => w <> []) (split pipe s);
  parsable_segs : (length (split pipe s) <= 32)%nat;
  parsable_args : Forall seg_ok (split pipe s) }.

Definition no_input : input := mkInput (replicate 32 NULL) (replicate 32 0) 0.

Lemma parse_eff s post line F m :
  parsable s -> 0 ∉ s -> 0 < line -> heap_ok m -> F !! line = None ->
  blocks m = <[line := Chars (s ++ 0 :: post)]> F -> (need (split pipe s) <= mallocs m)%nat ->
  exists al h m' inp,
    parse line no_input (getSegCtr s) m = inl (m', inp, 0) /\
    segCtr inp = Z.of_nat (length (split pipe s)) /\
    segs_rep al (words space <$> split pipe s) h /\
    entries inp 0 al (words space <$> split pipe s) /\
    blocks m' = h ∪ F /\ h ##ₘ F /\ heap_ok m' /\
    mallocs m' = (mallocs m - need (split pipe s))%nat.
Proof.
  intros [Hne H32 Hargs] H0 Hline Hok HF Hb Hm.
  pose proof (words_all_ne pipe s Hne) as Hw. rewrite getSegCtr_split by lia.
  destruct (cut_line s post (length (split pipe s))) as (b & ps & Hlaid & Hcut);
    [done|by rewrite Hw|lia|].
  rewrite Hw in *. rewrite Nat.sub_diag, app_nil_r in Hcut.
  assert (Hlen : length ps = length (split pipe s)) by (clear -Hlaid; induction Hlaid; simpl; lia).
  set (m1 := m <| blocks := <[line := Chars b]> F |>).
  destruct (parse_segments_spec line Hline (split pipe s) b ps 0
    (no_input <| segCtr := Z.of_nat (length (split pipe s)) |>) m1 F) as
    (al & h & m' & inp & Hp & Hr & Hd & Hb' & Hok' & Hm' & Hent & [Hc _]); try done.
  - unfold m1. replace (<[line := Chars b]> F)
      with (<[line := Chars b]> (<[line := Chars (s ++ 0 :: post)]> F)) by apply insert_insert_eq.
    rewrite <- Hb. apply heap_ok_overwrite; [done|]. rewrite Hb, lookup_insert_eq. eauto.
  - intros k Hk. apply lookup_replicate_2. lia.
  - exists al, h, m', inp. split_and!; try done.
    unfold parse, load_chars. rewrite Hb, lookup_insert_eq. cbn [bind].
    change (segCtr no_input) with 0. rewrite Nat2Z.id, Hcut, Z.eqb_refl. cbn [negb].
    rewrite <- Hlen, Nat2Z.id, firstn_all, Hlen. rewrite <- Hp. f_equal.
    unfold m1. simpl. by rewrite Hb, insert_insert_eq.
Qed.

(** a line whose pieces between the pipes are not empty is parsed into the
    words of each piece, every word in a block of its own with the NULL
    terminated array of pointers [execv] needs; the line itself is freed, no
    other block is touched, and [clear] then gives back everything [parse] has
    allocated. *)
Theorem parse_then_clear s post line F m :
  parsable s -> 0 ∉ s -> 0 < line -> heap_ok m -> F !! line = None ->
  blocks m = <[line := Chars (s ++ 0 :: post)]> F -> (need (split pipe s) <= mallocs m)%nat ->
  exists al h m' inp,
    parse line no_input (getSegCtr s) m = inl (m', inp, 0) /\
    segCtr inp = Z.of_nat (length (split pipe s)) /\
    segs_rep al (words space <$> split pipe s) h /\
    entries inp 0 al (words space <$> split pipe s) /\
    blocks m' = h ∪ F /\ h ##ₘ F /\
    clear None (Some inp) m' = inl (m' <| blocks := F |>).
Proof.
  intros Hp H0 Hline Hok HF Hb Hm.
  destruct (parse_eff s post line F m Hp H0 Hline Hok HF Hb Hm) as
    (al & h & m' & inp & ? & Hctr & Hr & He & Hb' & Hd & _).
  exists al, h, m', inp. split_and!; try done. unfold clear, deallocateInput. cbn [bind].
  rewrite Hctr, Nat2Z.id.
  replace (length (split pipe s)) with (length al)
    by (rewrite <- (length_fmap (words space)); clear -Hr; induction Hr; simpl; lia).
  by apply (dealloc_segments_spec al _ h Hr).
Qed.

(** A line with an empty piece, as the empty line, "|ls" or "a||b", fails
    the [assert] of [parse] and so aborts the shell: [getSegCtr] counts the
    pipes, [strtok] the pieces that are not empty. *)
Theorem empty_piece_aborts s post line F m inp :
  ~ Forall (fun w => w <> []) (split pipe s) -> 0 ∉ s ->
  Z.of_nat (length (split pipe s)) < 2 ^ 16 -> segCtr inp = 0 ->
  blocks m = <[line := Chars (s ++ 0 :: post)]> F ->
  parse line inp (getSegCtr s) m = inr Aborted.
Proof.
  intros Hne H0 Hlt Hc Hb. pose proof (words_lt pipe s Hne) as Hw.
  rewrite getSegCtr_split by done. unfold parse, load_chars.
  rewrite Hb, lookup_insert_eq. cbn [bind]. rewrite Hc, Nat2Z.id.
  destruct (cut_line s post (length (split pipe s))) as (b & ps & _ & ->); [done|lia|done|].
  rewrite (proj2 (Z.eqb_neq _ _)) by lia. done.
Qed.

(** ** Witnesses *)

#[export] Instance short_word_dec w : Decision (short_word w).
Proof. unfold short_word. apply _. Defined.
#[export] Instance seg_ok_dec w : Decision (seg_ok w).
Proof. unfold seg_ok. apply _. Defined.

Definition demo_line : list Z := bytes "ls -l|wc".
Definition demo_parse_m : mem := mkMem {[1 := Chars (demo_line ++ [0])]} 2 100.

Lemma demo_parsable : parsable demo_line.
Proof. split; apply (bool_decide_unpack _); vm_compute; exact I. Qed.

Lemma demo_parse_heap : heap_ok demo_parse_m.
Proof.
  split; [done|]. intros p [x Hx]. unfold demo_parse_m in *. simpl blocks in Hx.
  apply lookup_singleton_Some in Hx as [<- _]. simpl. lia.
Qed.

Lemma parse_then_clear_witness :
  exists al h m' inp,
    parse 1 no_input (getSegCtr demo_line) demo_parse_m = inl (m', inp, 0) /\
    segCtr inp = 2 /\
    segs_rep al (words space <$> split pipe demo_line) h /\
    entries inp 0 al (words space <$> split pipe demo_line) /\
    blocks m' = h ∪ ∅ /\ h ##ₘ ∅ /\
    clear None (Some inp) m' = inl (m' <| blocks := ∅ |>).
Proof.
  apply (parse_then_clear demo_line [] 1 ∅ demo_parse_m).
  - apply demo_parsable.
  - apply bytes_ok. reflexivity.
  - reflexivity.
  - apply demo_parse_heap.
  - reflexivity.
  - reflexivity.
  - vm_compute. lia.
Defined.

Lemma empty_piece_aborts_witness :
  parse 1 no_input (getSegCtr (bytes "a||b")) (mkMem {[1 := Chars (bytes "a||b" ++ [0])]} 2 100) =
  inr Aborted.
Proof.
  apply (empty_piece_aborts (bytes "a||b") [] 1 ∅).
  - apply (bool_decide_unpack _). vm_compute. exact I.
  - apply bytes_ok. reflexivity.
  - vm_compute. reflexivity.
  - reflexivity.
  - reflexivity.
Defined.
