(* ===== verification/ShellMain.v ===== *)
(** * The main loop of the shell

    A line is run on a heap that holds the history and the parsed line.  None
    of the accesses of the parent or of the children is undefined when every
    piece of the line names a command and has fewer than 32 words, and when the
    line is done its blocks are gone and the history has grown by its commands
    exactly if all of them succeeded: every child could be forked and exited
    with status 0, and every "cd" had one argument.  [prompt] reads a line that fits its first buffer exactly. *)

From stdpp Require Import strings.
From S2P Require Import Prelude CString Mybash ShellHistory ShellParse.
#[local] Open Scope Z_scope.

(** ** Reading a parsed line *)

(** The block of the array [a] and of the argument strings it points to. *)
Definition arg_blocks (h : gmap Z mblock) (a : Z) (args : list (list Z)) (qs junk : list Z)
    : Prop :=
  h !! a = Some (Ptrs (qs ++ 0 :: junk)) /\ 0 < a /\ length qs = length args /\
  forall j w, args !! j = Some w -> (0 ∉ w) /\
    exists q post, qs !! j = Some q /\ 0 < q /\ h !! q = Some (Chars (w ++ 0 :: post)).

Lemma args_rep_lookup qs ws h :
  args_rep qs ws h -> forall j w, ws !! j = Some w -> (0 ∉ w) /\
  exists q post, qs !! j = Some q /\ 0 < q /\ h !! q = Some (Chars (w ++ 0 :: post)).
Proof.
  induction 1 as [|q qs w post ws h Hq H0 Hh Hr IH]; intros [|j] x Hx; simplify_eq/=.
  - split; [done|]. exists q, post. by rewrite lookup_insert_eq.
  - destruct (IH j x Hx) as (? & q' & post' & ? & ? & Hb). split; [done|].
    exists q', post'. rewrite lookup_insert_ne by congruence. done.
Qed.

Lemma segs_rep_lookup al argss h k args :
  segs_rep al argss h -> argss !! k = Some args ->
  exists a qs junk, al !! k = Some a /\ arg_blocks h a args qs junk.
Proof.
  intros Hr. revert k. induction Hr as [|a al ar argss h1 h2 Hs Hd Hrs IH]; intros [|k] Hk;
    simplify_eq/=.
  - destruct Hs as (qs & junk & h' & -> & Hha & Hr & Ha). exists a, qs, junk. split; [done|].
    split_and!; [by apply lookup_union_Some_l, lookup_insert_eq|done|by eapply args_rep_length|].
    intros j w Hw. destruct (args_rep_lookup _ _ _ Hr j w Hw) as (? & q & post & ? & ? & Hb).
    split; [done|]. exists q, post. split_and!; [done|done|]. apply lookup_union_Some_l.
    rewrite lookup_insert_ne by congruence. done.
  - destruct (IH k Hk) as (b & qs & junk & ? & Hb & ? & ? & Hargs). exists b, qs, junk.
    split; [done|]. split_and!; [by apply lookup_union_Some_r|done|done|].
    intros j w Hw. destruct (Hargs j w Hw) as (? & q & post & ? & ? & ?).
    split; [done|]. exists q, post. split_and!; [done|done|by apply lookup_union_Some_r].
Qed.

(** The command name of a segment, and that overwriting it keeps the blocks of
    the line. *)
Lemma segs_rep_overwrite al argss h k w ws :
  segs_rep al argss h -> argss !! k = Some (w :: ws) ->
  exists a qs junk q post, al !! k = Some a /\ h !! a = Some (Ptrs (q :: qs ++ 0 :: junk)) /\
    0 < q /\ h !! q = Some (Chars (w ++ 0 :: post)) /\ (0 ∉ w) /\
    forall u post', 0 ∉ u -> exists argss',
      segs_rep al argss' (<[q := Chars (u ++ 0 :: post')]> h) /\
      forall i, length <$> argss' !! i = length <$> argss !! i.
Proof.
  intros Hr. revert k. induction Hr as [|a al ar argss h1 h2 Hs Hd Hrs IH]; intros [|k] Hk;
    simplify_eq/=.
  - destruct Hs as (qs' & junk & h' & -> & Hha & Hr & Hapos).
    inversion Hr as [|q qs ? post ? h'' Hq H0 Hh Hr' Hqs]; subst.
    apply lookup_insert_None in Hha as [Hha Hqa].
    exists a, qs, junk, q, post. split_and!; try done.
    + by apply lookup_union_Some_l, lookup_insert_eq.
    + apply lookup_union_Some_l. by rewrite lookup_insert_ne, lookup_insert_eq.
    + intros u post' Hu. exists ((u :: ws) :: argss). split; [|by intros []].
      rewrite insert_union_l. constructor; [| |done].
      * exists (q :: qs), junk, (<[q := Chars (u ++ 0 :: post')]> h'').
        split_and!; [|by rewrite lookup_insert_ne|by constructor|done].
        rewrite (insert_insert_ne _ q a) by done. by rewrite insert_insert_eq.
      * apply map_disjoint_insert_l_2; [|done].
        apply map_disjoint_insert_l in Hd as [_ Hd]. by apply map_disjoint_insert_l in Hd as [? _].
  - destruct (IH k Hk) as (b & qs & junk & q & post & ? & Hb & ? & Hq & ? & Hover).
    exists b, qs, junk, q, post. split_and!; try done; [by apply lookup_union_Some_r..|].
    intros u post' Hu. destruct (Hover u post' Hu) as (argss' & Hr' & Hlen).
    assert (h1 !! q = None) by (by eapply map_disjoint_Some_r).
    exists (ar :: argss'). rewrite insert_union_r by done. split; [|intros []; [done|apply Hlen]].
    constructor; [done| |done]. by apply map_disjoint_insert_r_2.
Qed.

Lemma str_split (b : list Z) : 0 ∈ b -> exists u post, b = u ++ 0 :: post /\ (0 ∉ u).
Proof.
  induction b as [|c b IH]; intros Hin; [set_solver|].
  destruct (decide (c = 0)) as [->|Hc]; [by exists [], b; split; [|set_solver]|].
  destruct IH as (u & post & -> & Hu); [set_solver|].
  exists (c :: u), post. split; [done|set_solver].
Qed.

Lemma load_strs_spec m args : forall qs,
  length qs = length args ->
  (forall j w, args !! j = Some w -> (0 ∉ w) /\
     exists q post, qs !! j = Some q /\ 0 < q /\ blocks m !! q = Some (Chars (w ++ 0 :: post))) ->
  load_strs m qs = inl args.
Proof.
  induction args as [|w args IH]; intros [|q qs] Hl Hargs; try done. cbn [load_strs].
  destruct (Hargs 0%nat w eq_refl) as (H0 & q' & post & Hq & _ & Hb). simplify_eq/=.
  rewrite (load_str_chars _ _ _ _ Hb H0). cbn [bind]. rewrite (IH qs); [done|lia|].
  intros j x Hx. apply (Hargs (S j) x Hx).
Qed.

Lemma segs_rep_length al argss h : segs_rep al argss h -> length al = length argss.
Proof. induction 1; simpl; lia. Qed.

(** ** Running the segments *)

Definition name_of (args : list (list Z)) : list Z := default [] (head args).

(** Whether all commands succeed, [outcomes] being the pid [fork] returns and
    the status of the child, for each child in turn: "cd" is run by the shell
    itself and wants one argument, every other command needs a child that could
    be forked and ends with status 0. *)
Fixpoint all_succeed (argss : list (list (list Z))) (outcomes : list (Z * Z * bool)) : bool :=
  match argss with
  | [] => true
  | args :: argss =>
      if bool_decide (name_of args = bytes "cd") then (Z.of_nat (length args) =? 2) && all_succeed argss outcomes
      else
        let '(pid, status, _) := default (1, 0, true) (head outcomes) in
        (0 <=? pid) && (status =? 0) && all_succeed argss (tail outcomes)
  end.

Section Line.
Context (ht : history) (a : list Z) (l : list (list Z)) (h : gmap Z mblock).
Context (inp : input) (al : list Z) (argss : list (list (list Z))) (hs : gmap Z mblock).
Context (Hh : hist_rep ht a l h) (Hs : segs_rep al argss hs) (He : entries inp 0 al argss).
Context (Hctr : segCtr inp = Z.of_nat (length argss)).
Context (Hne : Forall (fun args => args <> []) argss).
Context (m : mem) (Hb : blocks m = h ∪ hs) (Hd : h ##ₘ hs).

Lemma entries_lengths argss' :
  (forall i, length <$> argss' !! i = length <$> argss !! i) -> entries inp 0 al argss'.
Proof using He.
  intros Hl. destruct He as [H1 H2]. split; [done|]. intros k args Hk.
  specialize (Hl k). rewrite Hk in Hl. destruct (argss !! k) as [args'|] eqn:E; [|done].
  injection Hl as ->. by apply H2.
Qed.

Lemma clear_all m' hs' argss' :
  segs_rep al argss' hs' -> entries inp 0 al argss' -> blocks m' = h ∪ hs' -> h ##ₘ hs' ->
  clear (Some ht) (Some inp) m' = inl (m' <| blocks := ∅ |>).
Proof using Hh Hs Hctr.
  intros Hr Hent Hb' Hd'. unfold clear, NULL. pose proof (rep_pos _ _ _ _ Hh).
  rewrite (proj2 (Z.eqb_neq (commands ht) 0)) by lia. cbn [negb].
  rewrite (deallocateHist_eff _ _ _ _ _ _ Hh Hb' Hd'). cbn [bind]. unfold deallocateInput.
  rewrite Hctr, Nat2Z.id, <- (segs_rep_length _ _ _ Hs).
  rewrite (dealloc_segments_spec al argss' hs' Hr 0 inp _ ∅ Hent); [done| |].
  - simpl. by rewrite map_union_empty.
  - apply map_disjoint_empty_r.
Qed.

Lemma clear_line m' h' F :
  blocks m' = hs ∪ F -> hs ##ₘ F -> h' = F ->
  clear None (Some inp) m' = inl (m' <| blocks := h' |>).
Proof using Hs He Hctr.
  intros Hb' Hd' ->. unfold clear. cbn [bind]. unfold deallocateInput.
  rewrite Hctr, Nat2Z.id, <- (segs_rep_length _ _ _ Hs).
  by rewrite (dealloc_segments_spec al argss hs Hs 0 inp m' F He).
Qed.

Lemma entry_seg k b : al !! k = Some b -> segments inp !! k = Some b.
Proof using He. apply (entries_seg _ _ _ _ He k). Qed.
Lemma entry_ctr k args :
  argss !! k = Some args -> argsCtr inp !! k = Some (Z.of_nat (length args)).
Proof using He. apply (entries_ctr _ _ _ _ He k). Qed.

Lemma arg_str_spec k j args w :
  argss !! k = Some args -> args !! j = Some w -> arg_str inp k j m = inl w.
Proof using Hs He Hb Hd.
  intros Hk Hj. destruct (segs_rep_lookup _ _ _ _ _ Hs Hk) as (b & qs & junk & Hal & Ha & _ & Hlen & Hargs).
  destruct (Hargs j w Hj) as (H0 & q & post & Hq & _ & Hqb).
  unfold arg_str. rewrite (entry_seg k b Hal). cbn [bind get]. unfold load_ptrs.
  rewrite Hb, (lookup_union_Some_r _ _ _ _ Hd Ha). cbn [bind].
  rewrite lookup_app_l by (by eapply lookup_lt_Some). rewrite Hq. cbn [bind get].
  eapply load_str_chars; [|done]. rewrite Hb. by apply lookup_union_Some_r.
Qed.

Lemma child_defined k args fd0 fd1 old exec_ok :
  argss !! k = Some args -> args <> [] ->
  exists ev, child ht inp k fd0 fd1 old exec_ok m = inl ev.
Proof using Hh Hs He Hctr Hb Hd.
  intros Hk Hargs. destruct args as [|w ws]; [done|].
  destruct (segs_rep_lookup _ _ _ _ _ Hs Hk) as (b & qs & junk & Hal & Ha & _ & Hlen & Hlook).
  destruct (segs_rep_overwrite _ _ _ _ _ _ Hs Hk) as
    (b' & qs' & junk' & q & post & Hal' & Ha' & Hq & Hqb & H0 & Hover).
  assert (b' = b) as -> by congruence. rewrite Ha in Ha'. injection Ha' as Hqs.
  unfold child. rewrite (entry_seg k b Hal). cbn [bind get].
  rewrite (entry_ctr k _ Hk). cbn [bind get]. unfold load_ptrs.
  rewrite Hb, (lookup_union_Some_r _ _ _ _ Hd Ha). cbn [bind].
  rewrite Nat2Z.id, take_app_length' by done. rewrite (load_strs_spec m (w :: ws)); [|done|].
  2:{ intros j x Hx. destruct (Hlook j x Hx) as (? & p & pst & ? & ? & ?). split; [done|].
      exists p, pst. split_and!; [done|done|]. rewrite Hb. by apply lookup_union_Some_r. }
  cbn [bind]. destruct exec_ok; [eauto|]. rewrite Hqs. cbn [lookup list_lookup bind get].
  unfold cErr. assert (Hqh : h !! q = None) by (by eapply map_disjoint_Some_r).
  destruct (suggest_eff ht a l h q Hh Hqh hs m w post Hb Hd Hqb H0) as (t & r & _ & H0t & -> & Hr).
  destruct (str_split t H0t) as (u & pst & -> & Hu).
  destruct (Hover u pst Hu) as (argss' & Hsr & Hl). cbn [bind].
  set (m1 := m <| blocks := h ∪ <[q := Chars (u ++ 0 :: pst)]> hs |>).
  assert (Hclr : clear (Some ht) (Some inp) m1 = inl (m1 <| blocks := ∅ |>)).
  { eapply clear_all; [exact Hsr|by apply entries_lengths|done|by apply map_disjoint_insert_r_2]. }
  destruct (Z.eqb_spec r NULL) as [Hrn|Hrn]; cbn [negb bind].
  - rewrite Hclr. cbn [bind]. eauto.
  - rewrite (load_str_chars m1 q u pst); [|unfold m1; simpl; by rewrite lookup_union_r, lookup_insert_eq|done].
    cbn [bind]. destruct (suggestion _ _) as [s|] eqn:Esug; [|done]. destruct Hr as [_ Hrb].
    assert (Hls : exists s', load_str m1 r = inl s').
    { unfold load_str, load_chars, m1. simpl. rewrite (lookup_union_Some_l _ _ _ _ Hrb). simpl. eauto. }
    destruct Hls as [s' ->]. cbn [bind]. rewrite Hclr. cbn [bind]. eauto.
Qed.

Lemma run_segment_spec k args sh :
  argss !! k = Some args -> args <> [] ->
  (name_of args = bytes "exit" /\ run_segment ht inp k m sh = inr (Exited 0)) \/
  (name_of args <> bytes "exit" /\ exists sh', run_segment ht inp k m sh = inl sh' /\
     forall rest, success sh' && all_succeed rest (forks sh') = success sh && all_succeed (args :: rest) (forks sh)).
Proof using Hh Hs He Hctr Hb Hd.
  intros Hk Hargs. pose proof Hargs as Hargs'. destruct args as [|w ws]; [done|].
  change (name_of (w :: ws)) with w. unfold run_segment.
  rewrite (arg_str_spec k 0 _ w Hk eq_refl). cbn [bind].
  rewrite (entry_ctr k _ Hk). cbn [bind get].
  destruct (decide (w = bytes "exit")) as [->|Hw].
  { left. split; [done|]. rewrite bool_decide_true by done. by rewrite (clear_all m hs argss). }
  right. split; [done|]. rewrite bool_decide_false by done.
  assert (Hall : forall rest o, all_succeed ((w :: ws) :: rest) o =
    if bool_decide (w = bytes "cd") then (Z.of_nat (length (w :: ws)) =? 2) && all_succeed rest o
    else let '(pid, status, _) := default (1, 0, true) (head o) in
         (0 <=? pid) && (status =? 0) && all_succeed rest (tail o)) by done.
  destruct (bool_decide (w = bytes "cd")).
  - destruct (Z.eqb_spec (Z.of_nat (length (w :: ws))) 2) as [H2|H2].
    + destruct ws as [|dir ws]; [done|]. rewrite (arg_str_spec k 1 _ dir Hk eq_refl). cbn [bind].
      eexists. split; [reflexivity|]. intros rest. by rewrite Hall.
    + eexists. split; [reflexivity|]. intros rest. rewrite Hall. cbn. by rewrite andb_false_r.
  - cbn [upd forks]. set (o := default (1, 0, true) (head (forks sh))).
    change (default (1, 0, true) (head (forks (emit (Pipe (nextFd sh) (nextFd sh + 1)) sh)))) with o.
    destruct o as [[pid status] exec_ok] eqn:Eo.
    destruct (Z.ltb_spec pid 0) as [Hp|Hp].
    { eexists. split; [reflexivity|]. intros rest. rewrite Hall. fold o. rewrite Eo, (proj2 (Z.leb_gt 0 pid)) by done. cbn. by rewrite andb_false_r. }
    assert (Hgoal : forall r : run shell,
      (exists sh', r = inl sh' /\ success sh' = success sh && (status =? 0) /\ forks sh' = tail (forks sh)) ->
      exists sh', r = inl sh' /\
        forall rest, success sh' && all_succeed rest (forks sh') = success sh && all_succeed ((w :: ws) :: rest) (forks sh)).
    { intros r (sh' & -> & E1 & E2). exists sh'. split; [done|]. intros rest.
      rewrite Hall. fold o. rewrite Eo, (proj2 (Z.leb_le 0 pid)), E1, E2 by done. cbn. by rewrite andb_assoc. }
    apply Hgoal. clear Hgoal Hall. simpl oldFdIn.
    edestruct (child_defined k (w :: ws) (nextFd sh) (nextFd sh + 1) (oldFdIn sh) exec_ok Hk Hargs')
      as [ev Hev].
    cbn [bind]. simpl in *. rewrite Hev. simpl. by eexists.
Qed.

Lemma run_segments_spec n : forall k sh,
  (n + k = length argss)%nat ->
  (Exists (fun args => name_of args = bytes "exit") (drop k argss) /\
     run_segments n k ht inp m sh = inr (Exited 0)) \/
  (~ Exists (fun args => name_of args = bytes "exit") (drop k argss) /\
     exists sh', run_segments n k ht inp m sh = inl sh' /\
       success sh' = success sh && all_succeed (drop k argss) (forks sh)).
Proof using Hh Hs He Hctr Hne Hb Hd.
  induction n as [|n IH]; intros k sh Hn; cbn [run_segments].
  { right. rewrite drop_ge by lia. rewrite Exists_nil. split; [tauto|]. exists sh. cbn. by rewrite andb_true_r. }
  destruct (lookup_lt_is_Some_2 argss k) as [args Hk]; [lia|].
  rewrite (drop_S _ _ _ Hk), Exists_cons.
  assert (args <> []) as Hargs by (rewrite Forall_forall in Hne; by eapply Hne, list_elem_of_lookup_2).
  destruct (run_segment_spec k args sh Hk Hargs) as [[? ->]|[? (sh' & -> & Hsh)]]; [by left; auto|].
  cbn [bind]. destruct (IH (S k) sh' ltac:(lia)) as [[? ?]|[? (sh2 & E & Hs2)]]; [left; tauto|right].
  split; [tauto|]. exists sh2. split; [done|]. by rewrite Hs2, Hsh.
Qed.
End Line.

(** ** Remembering the commands of a line *)

Lemma take_app_take {A} n (x y : list A) : take n (x ++ take n y) = take n (x ++ y).
Proof. rewrite !take_app, take_take. do 2 f_equal. lia. Qed.

Lemma remember_all_spec inp al argss hs :
  segs_rep al argss hs -> entries inp 0 al argss ->
  Forall (fun args => args <> [] /\ short_word (name_of args)) argss ->
  forall n k ht a l h m,
  hist_rep ht a l h -> blocks m = h ∪ hs -> h ##ₘ hs -> heap_ok m ->
  (n + k = length argss)%nat -> (n <= mallocs m)%nat ->
  exists m' ht' a' h', remember_all n k ht inp m = inl (m', ht') /\
    hist_rep ht' a' (take 100 (reverse (name_of <$> drop k argss) ++ l)) h' /\
    blocks m' = h' ∪ hs /\ h' ##ₘ hs /\ heap_ok m'.
Proof.
  intros Hs He Hne. induction n as [|n IH]; intros k ht a l h m Hr Hb Hd Hok Hn Hm.
  { exists m, ht, a, h. rewrite drop_ge by lia. simpl. split_and!; try done.
    rewrite take_ge; [done|]. destruct Hr. simpl. lia. }
  destruct (lookup_lt_is_Some_2 argss k) as [args Hk]; [lia|].
  destruct (proj1 (Forall_forall _ _) Hne args) as [Hargs [H0n Hlen]];
    [by eapply list_elem_of_lookup_2|].
  destruct args as [|w ws]; [done|]. unfold name_of in H0n, Hlen. simpl in H0n, Hlen.
  destruct (segs_rep_overwrite _ _ _ _ _ _ Hs Hk) as
    (b & qs & junk & q & post & Hal & Ha & Hq & Hqb & H0 & _).
  destruct (mallocs m) as [|c] eqn:Hc; [lia|].
  destruct (remember_step ht a l h hs Hr m q w post c) as
    (m1 & ht1 & a1 & h1 & Hrem & Hr1 & Hok1 & Hb1 & Hd1 & Hm1); try done.
  destruct (IH (S k) ht1 a1 _ h1 m1 Hr1 Hb1 Hd1 Hok1 ltac:(lia) ltac:(lia)) as
    (m' & ht' & a' & h' & Hall & Hr' & Hb' & Hd' & Hok').
  exists m', ht', a', h'. split_and!; try done.
  - cbn [remember_all]. rewrite (entry_seg inp al argss He k b Hal). cbn [bind get].
    unfold load_ptrs. rewrite Hb, (lookup_union_Some_r _ _ _ _ Hd Ha). cbn [bind lookup list_lookup get].
    rewrite Hrem. cbn [bind]. done.
  - rewrite (drop_S _ _ _ Hk), fmap_cons, reverse_cons, <- app_assoc. simpl app.
    by rewrite take_app_take in Hr'.
Qed.

(** ** The invariant of the loop *)

(** The commands a line names. *)
Definition names (s : list Z) : list (list Z) := name_of <$> (words space <$> split pipe s).

(** Every piece of the line names a command. *)
Definition named (s : list Z) : Prop := Forall (fun w => words space w <> []) (split pipe s).

Lemma names_ok s :
  parsable s -> named s ->
  Forall (fun args => args <> [] /\ short_word (name_of args)) (words space <$> split pipe s).
Proof.
  intros [_ _ Hok] Hn. apply Forall_fmap. eapply Forall_impl; [by apply Forall_and; split; [exact Hn|exact Hok]|].
  intros w [Hw [_ Hs]]. simpl. split; [done|]. unfold name_of.
  destruct (words space w) as [|x xs]; [done|]. simpl. by apply Forall_cons in Hs as [? _].
Qed.

Lemma exists_names s :
  Exists (fun args => name_of args = bytes "exit") (words space <$> split pipe s) <->
  bytes "exit" ∈ names s.
Proof.
  unfold names. rewrite list_elem_of_fmap, Exists_exists. naive_solver.
Qed.

Lemma heap_ok_mono m bl :
  heap_ok m -> bl ⊆ blocks m -> heap_ok (m <| blocks := bl |>).
Proof. intros Hok Hsub. apply heap_ok_sub; [done|]. intros p [x Hx]. eauto using lookup_weaken. Qed.

(** C37: between two lines the heap of the shell holds the history and nothing
    else.  Take a line of at most 32 non-empty pieces, each of which names a
    command and has fewer than 32 words, whose words are shorter than 2^16, and
    enough memory for it.  The shell makes no undefined access on it, in the
    parent or in a child; it exits if a command is "exit", and otherwise frees
    the whole line and puts its commands into the history exactly when all of
    them succeeded: each "cd" had one argument, and every other command got a
    child that exited with status 0. *)
Theorem run_line_invariant ht a l h line s post m sh :
  hist_rep ht a l h -> heap_ok m -> blocks m = <[line := Chars (s ++ 0 :: post)]> h ->
  h !! line = None -> 0 < line -> 0 ∉ s -> parsable s -> named s ->
  (need (split pipe s) + length (split pipe s) <= mallocs m)%nat ->
  (bytes "exit" ∈ names s /\ run_line ht line m sh = inr (Exited 0)) \/
  ((bytes "exit" ∉ names s) /\ exists m' ht' a' sh',
     run_line ht line m sh = inl (m', ht', sh') /\
     hist_rep ht' a' (if all_succeed (words space <$> split pipe s) (forks sh)
                      then take 100 (reverse (names s) ++ l) else l) (blocks m') /\
     heap_ok m').
Proof.
  intros Hr Hok Hb Hhl Hline H0 Hp Hn Hm.
  destruct (parse_eff s post line h m Hp H0 Hline Hok Hhl Hb ltac:(lia)) as
    (al & hs & m1 & inp & Hparse & Hctr & Hs & He & Hb1 & Hd & Hok1 & Hm1).
  set (argss := words space <$> split pipe s) in *.
  assert (Hlen : length argss = length (split pipe s)) by apply length_fmap.
  rewrite <- Hlen in Hctr. rewrite (map_union_comm hs h Hd) in Hb1.
  symmetry in Hd. pose proof (names_ok s Hp Hn) as Hnames.
  assert (Hne : Forall (fun args => args <> []) argss)
    by (eapply Forall_impl; [exact Hnames|by intros ? []]).
  unfold run_line. rewrite (load_str_chars m line s post (eq_trans (f_equal (lookup line) Hb)
    (lookup_insert_eq _ _ _)) H0). cbn [bind].
  rewrite getSegCtr_split in * by (destruct Hp; lia). unfold ARGSMAX.
  rewrite (proj2 (Z.ltb_ge 32 _)) by (destruct Hp; lia).
  fold no_input. rewrite Hparse. cbn [bind]. rewrite Hctr, Nat2Z.id.
  set (sh0 := sh <| success := true |> <| oldFdIn := 0 |>).
  change (0 =? -1) with false. cbv iota.
  pose proof (run_segments_spec ht a l h inp al argss hs Hr Hs He Hctr Hne m1 Hb1 Hd
    (length argss) 0 sh0 ltac:(lia)) as Hrun.
  pose proof (exists_names s) as Hexit. fold argss in Hexit. rewrite drop_0, Hexit in Hrun.
  destruct Hrun as [[Hex ->]|[Hex (sh' & -> & Hsucc)]]; [by left|right]. split; [done|]. cbn [bind].
  change (success sh0) with true in Hsucc. change (forks sh0) with (forks sh) in Hsucc. cbn [andb] in Hsucc.
  rewrite Hsucc. destruct (all_succeed argss (forks sh)).
  - destruct (remember_all_spec inp al argss hs Hs He Hnames (length argss) 0 ht a l h m1) as
      (m2 & ht' & a' & h' & -> & Hr' & Hb' & Hd' & Hok'); [done..|lia|lia|].
    cbn [bind]. symmetry in Hd'. rewrite map_union_comm in Hb' by done.
    rewrite (clear_line inp al argss hs Hs He Hctr m2 h' h') by done. cbn [bind].
    eexists _, ht', a', sh'. split_and!; [done|done|].
    apply heap_ok_mono; [done|]. rewrite Hb'. by apply map_union_subseteq_r.
  - cbn [bind]. symmetry in Hd. rewrite map_union_comm in Hb1 by done.
    rewrite (clear_line inp al argss hs Hs He Hctr m1 h h) by done. cbn [bind].
    eexists _, ht, a, sh'. split_and!; [done|done|].
    apply heap_ok_mono; [done|]. rewrite Hb1. by apply map_union_subseteq_r.
Qed.

(** A line typed after the start. *)
Definition demo_shell_m : mem :=
  mkMem (<[2 := Chars (demo_line ++ [0])]> {[1 := Ptrs (replicate 100 0)]}) 3 100.
Definition demo_shell : shell := mkShell true 0 3 [] [].

Lemma demo_shell_heap : heap_ok demo_shell_m.
Proof.
  split; [done|]. intros p [x Hx]. unfold demo_shell_m in *. simpl blocks in Hx.
  apply lookup_insert_Some in Hx as [[<- _]|[_ Hx]]; [simpl; lia|].
  apply lookup_singleton_Some in Hx as [<- _]. simpl. lia.
Qed.

(** The first command succeeds; in the second run it fails. *)
Definition demo_failed : shell := demo_shell <| forks := [(7, 256, true)] |>.

Lemma run_line_invariant_witness :
  ((bytes "exit" ∉ names demo_line) /\ exists m' ht' a' sh',
     run_line (mkHist 1 0 0) 2 demo_shell_m demo_shell = inl (m', ht', sh') /\
     hist_rep ht' a' (take 100 (reverse (names demo_line) ++ [])) (blocks m') /\ heap_ok m') /\
  (exists m' ht' a' sh',
     run_line (mkHist 1 0 0) 2 demo_shell_m demo_failed = inl (m', ht', sh') /\
     hist_rep ht' a' [] (blocks m') /\ heap_ok m').
Proof.
  assert (Hx : bytes "exit" ∉ names demo_line) by (apply (bool_decide_unpack _); vm_compute; exact I).
  assert (Hrun : forall sh, exists m' ht' a' sh',
     run_line (mkHist 1 0 0) 2 demo_shell_m sh = inl (m', ht', sh') /\
     hist_rep ht' a' (if all_succeed (words space <$> split pipe demo_line) (forks sh)
                      then take 100 (reverse (names demo_line) ++ []) else []) (blocks m') /\
     heap_ok m').
  { intros sh.
    destruct (run_line_invariant (mkHist 1 0 0) (replicate 100 0) [] {[1 := Ptrs (replicate 100 0)]}
      2 demo_line [] demo_shell_m sh) as [[Hin _]|[_ Hr]].
    - apply start_rep. lia.
    - apply demo_shell_heap.
    - reflexivity.
    - reflexivity.
    - reflexivity.
    - apply bytes_ok. reflexivity.
    - apply demo_parsable.
    - apply (bool_decide_unpack _). vm_compute. exact I.
    - vm_compute. lia.
    - destruct (Hx Hin).
    - exact Hr. }
  split; [split; [exact Hx|exact (Hrun demo_shell)]|exact (Hrun demo_failed)].
Defined.

(** ** Reading a line *)

Lemma fgets_line n s rest :
  (length s < n)%nat -> 10 ∉ s -> fgets n (s ++ 10 :: rest) = (s ++ [10], rest, false).
Proof.
  revert n. induction s as [|c s IH]; intros [|n] Hn H10; simpl in *; try lia; [done|].
  apply not_elem_of_cons in H10 as [Hc H10].
  destruct (Z.eqb_spec c 10); [congruence|]. by rewrite IH by (done || lia).
Qed.

Lemma fgets_full s rest : 10 ∉ s -> fgets (length s) (s ++ rest) = (s, rest, false).
Proof.
  induction s as [|c s IH]; intros H10; [done|]. apply not_elem_of_cons in H10 as [Hc H10].
  simpl. destruct (Z.eqb_spec c 10); [congruence|]. by rewrite IH.
Qed.

Lemma cstr_id s : 0 ∉ s -> cstr s = s.
Proof.
  induction s as [|c s IH]; intros H0; [done|]. apply not_elem_of_cons in H0 as [? ?].
  simpl. destruct (Z.eqb_spec c 0); [congruence|]. by rewrite IH.
Qed.

Lemma last_snoc (s : list Z) c : List.last (Some <$> (s ++ [c])) None = Some c.
Proof. rewrite fmap_app. apply List.last_last. Qed.

Section Prompt.
Context `{StdioConfig}.

(** The round that reads [s] and the newline to offset [last] ends the loop. *)
Lemma prompt_last n size last b s rest :
  10 ∉ s -> 0 ∉ default [] b ++ s ->
  Z.of_nat (length s) + 1 < size + BUFSIZ -> 0 <= last ->
  last + Z.of_nat (length s) + 1 < size + BUFSIZ ->
  prompt_loop (S n) size last b (s ++ 10 :: rest) =
  inl (Some (take (Z.to_nat last) (default [] b) ++ s, rest)).
Proof.
  intros H10 H0 Hs Hlast Hfit. cbn [prompt_loop]. unfold read_piece.
  rewrite fgets_line by (done || lia).
  destruct (s ++ [10]) as [|c r] eqn:E; [by destruct s|]. rewrite <- E. clear c r E.
  rewrite app_assoc. set (t := take (Z.to_nat last) (default [] b) ++ s).
  assert (Ht : (length t <= Z.to_nat last + length s)%nat)
    by (unfold t; rewrite length_app, length_take; lia).
  rewrite (proj2 (Z.ltb_lt _ _)) by (rewrite length_app; simpl; lia).
  assert (H0t : 0 ∉ t ++ [10]).
  { unfold t. rewrite !not_elem_of_app in *. destruct H0. split_and!; [|done|set_solver].
    intros Hin. apply (subseteq_take (Z.to_nat last)) in Hin. done. }
  rewrite cstr_id by done. cbn [bind get]. rewrite last_snoc. cbn [bind get].
  rewrite Z.eqb_refl. cbn [negb andb]. rewrite length_app. simpl length.
  replace (Z.to_nat _) with (length t) by lia. by rewrite take_app_length.
Qed.

(** A round that fills the buffer without a newline goes on at the last
    character it has read. *)
Lemma prompt_more n x c z :
  10 ∉ x ++ [c] -> 0 ∉ x ++ [c] -> Z.of_nat (length x) + 2 = BUFSIZ ->
  prompt_loop (S n) 0 0 None ((x ++ [c]) ++ z) =
  prompt_loop n BUFSIZ (Z.of_nat (length x)) (Some (x ++ [c])) z.
Proof.
  intros H10 H0 Hx. cbn [prompt_loop]. unfold read_piece.
  replace (Z.to_nat (0 + BUFSIZ - 1)) with (length (x ++ [c])) by (rewrite length_app; simpl; lia).
  rewrite fgets_full by done.
  destruct (x ++ [c]) as [|d r] eqn:E; [by destruct x|]. rewrite <- E in *. clear d r E.
  cbn [default app]. change (take (Z.to_nat 0) []) with (@nil Z). cbn [app].
  rewrite (proj2 (Z.ltb_lt _ _)) by (rewrite length_app; simpl; lia).
  rewrite cstr_id by done. cbn [bind get]. rewrite last_snoc. cbn [bind get].
  rewrite (proj2 (Z.eqb_neq c 10)) by set_solver. cbn [negb andb].
  f_equal; [rewrite length_app; simpl; lia].
Qed.

(** A line that fits in the buffer of stdio with its newline is read
    exactly: [prompt] returns it without the newline and leaves the rest of the
    input. *)
Theorem prompt_reads_line s rest :
  10 ∉ s -> 0 ∉ s -> Z.of_nat (length s) + 1 < BUFSIZ ->
  prompt (s ++ 10 :: rest) = inl (Some (s, rest)).
Proof.
  intros H10 H0 Hs. unfold prompt.
  rewrite (prompt_last _ 0 0 None s rest) by (simpl; done || lia). done.
Qed.

(** A longer line loses a character where the buffer grows: the next piece
    is read over the last character read so far, not behind it. *)
Theorem prompt_drops_character x c y rest :
  10 ∉ x ++ c :: y -> 0 ∉ x ++ c :: y -> Z.of_nat (length x) + 2 = BUFSIZ ->
  Z.of_nat (length y) < BUFSIZ ->
  prompt ((x ++ c :: y) ++ 10 :: rest) = inl (Some (x ++ y, rest)).
Proof.
  intros H10 H0 Hx Hy. unfold prompt.
  assert (Hf : exists k, length ((x ++ c :: y) ++ 10 :: rest) = S k)
    by (rewrite length_app; simpl; rewrite Nat.add_succ_r; eauto).
  destruct Hf as [k ->].
  replace ((x ++ c :: y) ++ 10 :: rest) with ((x ++ [c]) ++ y ++ 10 :: rest)
    by (by rewrite <- !app_assoc).
  rewrite prompt_more by (done || set_solver).
  rewrite prompt_last; [|set_solver|simpl; set_solver|lia..].
  rewrite Nat2Z.id. simpl. by rewrite take_app_length.
Qed.
End Prompt.

#[local] Instance demo_stdio : StdioConfig := 8.

Lemma prompt_reads_line_witness :
  prompt (bytes "ls" ++ 10 :: bytes "wc") = inl (Some (bytes "ls", bytes "wc")).
Proof.
  apply (prompt_reads_line (bytes "ls") (bytes "wc")).
  - apply (bool_decide_unpack _). vm_compute. exact I.
  - apply bytes_ok. reflexivity.
  - vm_compute. reflexivity.
Defined.

Lemma prompt_drops_character_witness :
  prompt ((bytes "abcdef" ++ 103 :: bytes "hij") ++ 10 :: []) = inl (Some (bytes "abcdefhij", [])).
Proof.
  apply (prompt_drops_character (bytes "abcdef") 103 (bytes "hij") []).
  - apply (bool_decide_unpack _). vm_compute. exact I.
  - apply (bool_decide_unpack _). vm_compute. exact I.
  - reflexivity.
  - vm_compute. reflexivity.
Defined.
