(* ===== verification/HttpServer.v ===== *)
(** * The web server (tcp/http-server.c)

    The server answers one request per connection: errors, the form of
    /mdb-lookup, a lookup passed on to the mdb server, or a file below the web
    root.  What it does is the sequence of its [action]s; [sends] is the number
    of [send]s that will still succeed, after which [die] ends the process.
    The buffers have the sizes of the source, and writing past one of them or
    through NULL is [Undefined]. *)

From stdpp Require Import strings.
From S2P Require Import Prelude CString.
#[local] Open Scope Z_scope.

(** ** State and environment *)

Inductive action := ToClient (b : list Z) | ToMdb (b : list Z) | LogLine (b : list Z).

Record server := mkServer {
  out : list action;
  response : list Z;   (* what the mdb server has sent and is not read yet *)
  sends : nat }.
#[export] Instance eta_server : Settable server :=
  fun r => mkServer (out r) (response r) (sends r).

(** The web root, and the files behind it: [stat_isdir] is [None] when [stat]
    fails, and [st] then holds what the stack held, [junk_isdir]. *)
Class Files := {
  webRoot : list Z;
  stat_isdir : list Z -> option bool;
  junk_isdir : bool;
  fopen : list Z -> option (list Z) }.

Definition died : stop := Exited 1.

Definition emit (a : action) (sv : server) : server := sv <| out ::= fun o => o ++ [a] |>.

(** A [send] that must be complete. *)
Definition send (a : action) (sv : server) : run server :=
  match sends sv with
  | O => inr died
  | S n => inl (emit a sv <| sends := n |>)
  end.

(** What [snprintf] leaves in a buffer of [n] bytes. *)
Definition snprintf (n : nat) (s : list Z) : list Z := take (n - 1) s.

(** The string [s] in a buffer of [n] bytes. *)
Definition in_buffer (n : nat) (s : list Z) : run (list Z) :=
  if (length s <? n)%nat then inl s else inr Undefined.

Definition crlf : list Z := [13; 10].
Definition quote : list Z := [34].
Definition nl : list Z := [10].

(** ** Output *)

Definition logToStdOut (clientAddr method uri httpV s : list Z) (sv : server) : server :=
  emit (LogLine (clientAddr ++ bytes " " ++ quote ++ method ++ bytes " " ++ uri ++ bytes " " ++
                 httpV ++ quote ++ bytes " " ++ s ++ nl)) sv.

Definition sendHtml (s : list Z) (sv : server) : run server :=
  send (ToClient (snprintf 4096 s)) sv.

Definition form : list Z :=
  bytes "<h1>mdb-lookup</h1>" ++ nl ++ bytes "<p>" ++ nl ++
  bytes "<form method=GET action=/mdb-lookup>" ++ nl ++
  bytes "lookup: <input type=text name=key>" ++ nl ++
  bytes "<input type=submit>" ++ nl ++ bytes "</form>" ++ nl ++ bytes "<p>" ++ nl.

Definition sendForm (sv : server) : run server := sendHtml form sv.

Definition header (s : list Z) : list Z := bytes "HTTP/1.0 " ++ s ++ crlf ++ crlf.
Definition sendHttpHeader (s : list Z) (sv : server) : run server :=
  send (ToClient (snprintf 100 (header s))) sv.

Definition error_page (s : list Z) : list Z :=
  bytes "<html><body><h1>" ++ s ++ bytes "</h1></body></html>".
Definition sendErr (s : list Z) (sv : server) : run server :=
  send (ToClient (snprintf 100 (error_page s))) sv.

(** ** Start *)

(** The checks of [main] before the loop, in order: the message it ends with,
    if one fails.  [ok] are the results of gethostbyname, socket, connect,
    socket, bind and listen. *)
Definition startup (argc : Z) (ok : list bool) : option (list Z) :=
  if negb (argc =? 5) then
    Some (bytes "<server_port> <web_root> <mdb-lookup-host> <mdb-lookup-port>")
  else
    snd <$> head (filter (fun c => c.1 = false)
      (zip ok [bytes "gethostbyname failed"; bytes "mdbSocket failed"; bytes "connect failed";
               bytes "servSocket failed"; bytes "bind failed"; bytes "listen failed"])).

(** ** A request *)

(** [printf] of a null [%s], as the C library prints it. *)
Definition shown (s : option (list Z)) : list Z := default (bytes "(null)") s.

Definition token_separators : list Z := [9; 32; 13; 10].

(** The three [strtok]s on the request line. *)
Definition request_tokens (reqBuff : list Z)
    : option (list Z) * option (list Z) * option (list Z) :=
  let '(b, p, t1) := strtok token_separators 0 (reqBuff ++ [0]) in
  let '(b, p, t2) := strtok token_separators p b in
  let '(b, p, t3) := strtok token_separators p b in
  (cstr_at b <$> t1, cstr_at b <$> t2, cstr_at b <$> t3).

(** [strstr (uri, "/../") || strcmp (strrchr (uri, '/'), "/..") == 0] *)
Definition forbidden (uri : list Z) : run bool :=
  match strstr uri (bytes "/../") with
  | Some _ => inl true
  | None =>
      let* n := get (strrchr uri 47) in
      inl (bool_decide (drop n uri = bytes "/.."))
  end.

Definition mdb_key : list Z := bytes "/mdb-lookup?key=".

(** The comparison loop: [uri] does not start with the prefix. *)
Definition isInvalid (uri : list Z) : bool :=
  negb (bool_decide (take (length mdb_key) uri = mdb_key)).

(** The rows of the answer of the mdb server up to an empty line; at the end of
    its output [fgets] returns NULL to [strcmp]. *)
Fixpoint rows (fuel : nat) (sv : server) : run server :=
  match fuel with
  | O => inl sv
  | S n =>
      match fgets 999 (response sv) with
      | ([], _, _) => inr Undefined
      | (r, rest, _) =>
          let temp := cstr r in
          let sv := sv <| response := rest |> in
          if bool_decide (temp = nl) then inl sv
          else
            let* sv := sendHtml (bytes "<tr><td>") sv in
            let* sv := sendHtml temp sv in
            rows n sv
      end
  end.

Section Respond.
Context `{Files} (clientAddr : list Z).

Definition reply_error (s method uri httpV : list Z) (sv : server) : run server :=
  let* sv := sendHttpHeader s sv in
  let* sv := sendErr s sv in
  inl (logToStdOut clientAddr method uri httpV s sv).

Definition lookup_mdb (method uri httpV : list Z) (sv : server) : run server :=
  let* n := get (strrchr uri 61) in
  let query := drop (S n) uri in
  let* sv := send (ToMdb (query ++ nl)) sv in
  let* sv := sendHttpHeader (bytes "200 OK") sv in
  let* sv := sendHtml (bytes "<html><body>") sv in
  let* sv := sendForm sv in
  let* sv := sendHtml (bytes "<p><table border>" ++ nl) sv in
  let sv := emit (LogLine (bytes "looking up [" ++ query ++ bytes "]: " ++ clientAddr ++ bytes " " ++
              quote ++ method ++ bytes " " ++ uri ++ bytes " " ++ httpV ++ quote ++
              bytes " 200 OK" ++ nl)) sv in
  let* sv := rows (S (length (response sv))) sv in
  sendHtml (bytes "</table></body></html>") sv.

(** [fread] by 4096 bytes until it returns 0. *)
Fixpoint send_file (fuel : nat) (file : list Z) (sv : server) : run server :=
  match fuel with
  | O => inl sv
  | S n =>
      match take (Z.to_nat 4096) file with
      | [] => inl sv
      | buff => let* sv := send (ToClient buff) sv in
                send_file n (drop (Z.to_nat 4096) file) sv
      end
  end.

(** The path of the file, in its buffer of 100 bytes. *)
Definition file_path (uri : list Z) : run (list Z) :=
  let* path := in_buffer 100 webRoot in
  let* path := in_buffer 100 (path ++ uri) in
  if default junk_isdir (stat_isdir path) then
    in_buffer 100 (path ++ (if bool_decide (last path = Some 47) then bytes "index.html"
                            else bytes "/index.html"))
  else inl path.

Definition serve_file (method uri httpV : list Z) (sv : server) : run server :=
  let* path := file_path uri in
  match fopen path with
  | Some file =>
      let sv := logToStdOut clientAddr method uri httpV (bytes "200 OK") sv in
      let* sv := sendHttpHeader (bytes "200 OK") sv in
      send_file (S (length file)) file sv
  | None => reply_error (bytes "404 Not Found") method uri httpV sv
  end.

Definition respond (method uri httpV : list Z) (sv : server) : run server :=
  if negb (bool_decide (method = bytes "GET")) then
    reply_error (bytes "501 Not Implemented") method uri httpV sv
  else if negb (bool_decide (head uri = Some 47)) then
    reply_error (bytes "400 Bad Request") method uri httpV sv
  else
    let* f := forbidden uri in
    if f : bool then reply_error (bytes "403 Forbidden") method uri httpV sv
    else if bool_decide (uri = bytes "/mdb-lookup") then
      let sv := logToStdOut clientAddr method uri httpV (bytes " 200 OK") sv in
      let* sv := sendHttpHeader (bytes "200 OK") sv in
      sendForm sv
    else if bool_decide (is_Some (strstr uri mdb_key)) then
      if negb (isInvalid uri) then lookup_mdb method uri httpV sv else inl sv
    else serve_file method uri httpV sv.

(** One request line in [reqBuff]. *)
Definition handle (reqBuff : list Z) (sv : server) : run server :=
  let '(method, requestURI, httpVersion) := request_tokens reqBuff in
  let* uri := get requestURI in
  let* uri := in_buffer 300 uri in
  let* method := get method in
  respond method uri (shown httpVersion) sv.

(** The loop of [main] over the connections, each with the bytes its client
    sends; one that sends nothing is logged and the next one accepted. *)
Fixpoint serve (conns : list (list Z)) (sv : server) : run server :=
  match conns with
  | [] => inl sv
  | c :: conns =>
      match fgets 499 c with
      | ([], _, _) => serve conns (logToStdOut clientAddr [] [] [] (bytes "400 Bad Request") sv)
      | (reqBuff, _, _) => let* sv := handle reqBuff sv in serve conns sv
      end
  end.
End Respond.

(** ** The path check *)

Abbreviation slash := (bytes "/").

Lemma slash_in d : d ∈ slash <-> d = 47.
Proof. unfold bytes. simpl. set_solver. Qed.

Lemma dots_plain : Forall (fun c => c ∉ slash) (bytes "..").
Proof. apply (bool_decide_unpack _). vm_compute. exact I. Qed.

(** ".." is a component of a path that starts with '/' exactly when "/../"
    occurs in it or it ends in "/..". *)
Lemma dots_component uri :
  head uri = Some 47 ->
  bytes ".." ∈ split slash uri <->
  (exists p q, uri = p ++ bytes "/../" ++ q) \/ (exists p, uri = p ++ bytes "/..").
Proof.
  intros Hh. destruct uri as [|c rest]; [done|]. injection Hh as ->.
  rewrite split_delim by by apply slash_in. split.
  - intros Hin. apply elem_of_cons in Hin as [|Hin]; [done|].
    destruct (split_inv slash (47 :: rest) [] (split slash rest)) as [_ Hws].
    { by rewrite split_delim by by apply slash_in. }
    destruct (Hws _ Hin) as (p & d & ->%slash_in & [->|(e & q & ->%slash_in & ->)]);
      [right; eauto|left; by exists p, q].
  - intros Hor. right.
    assert (Hin : bytes ".." ∈ split slash (47 :: rest)).
    { destruct Hor as [(p & q & ->)|(p & ->)].
      - change (bytes "/../" ++ q) with (47 :: bytes ".." ++ 47 :: q).
        rewrite split_app_delim by by apply slash_in. apply elem_of_app. right.
        rewrite split_app_delim, (split_one slash) by (apply slash_in || apply dots_plain; done).
        by left.
      - change (bytes "/..") with (47 :: bytes "..").
        rewrite split_app_delim by by apply slash_in. apply elem_of_app. right.
        rewrite (split_one slash) by apply dots_plain. by left. }
    rewrite split_delim in Hin by by apply slash_in. by apply elem_of_cons in Hin as [|].
Qed.

Lemma last_slash uri n :
  strrchr uri 47 = Some n -> strstr uri (bytes "/../") = None ->
  drop n uri = bytes "/.." <-> exists p, uri = p ++ bytes "/..".
Proof.
  intros Hn _. apply strrchr_spec in Hn as (p & q & -> & <- & Hq).
  rewrite drop_app_length. split.
  - intros ->. eauto.
  - intros (p' & E). change (bytes "/..") with ([47] ++ bytes "..") in *.
    rewrite app_assoc in E.
    assert (Hdots : 47 ∉ bytes "..") by (apply (bool_decide_unpack _); vm_compute; exact I).
    rewrite <- app_assoc in E. cbn [app] in E. clear -E Hq Hdots.
    revert p' E. induction p as [|x p IH]; intros [|y p'] E; cbn [app] in E.
    + done.
    + injection E as _ E. destruct Hq. rewrite E. set_solver.
    + exfalso. injection E as _ E. apply Hdots. rewrite <- E. set_solver.
    + injection E as _ E. by eapply IH.
Qed.

Lemma strrchr_some s c : c ∈ s -> is_Some (strrchr s c).
Proof.
  induction s as [|d s IH]; intros Hin; [set_solver|]. simpl.
  destruct (strrchr s c) eqn:E; [eauto|]. apply elem_of_cons in Hin as [->|Hin].
  - rewrite Z.eqb_refl. eauto.
  - by destruct (IH Hin).
Qed.

Lemma forbidden_component uri :
  head uri = Some 47 -> forbidden uri = inl (bool_decide (bytes ".." ∈ split slash uri)).
Proof.
  intros Hh. unfold forbidden.
  destruct (strstr uri (bytes "/../")) as [k|] eqn:E.
  - rewrite bool_decide_true; [done|]. apply dots_component; [done|]. left.
    apply strstr_spec. rewrite E. eauto.
  - destruct (strrchr_some uri 47) as [n Hn]; [destruct uri; set_solver|].
    rewrite Hn. cbn [bind get]. f_equal. apply bool_decide_ext.
    rewrite (last_slash uri n Hn E), dots_component by done. split; [by right|].
    intros [Hl|Hr]; [|done]. apply strstr_spec in Hl as [? Hl]. congruence.
Qed.

(** ** What is sent *)

Definition to_client (l : list action) : list (list Z) :=
  omap (fun a => match a with ToClient b => Some b | _ => None end) l.

(** [sv'] has done more than [sv]: [acts]. *)
Definition did (sv sv' : server) (acts : list action) : Prop := out sv' = out sv ++ acts.
Definition extends (sv sv' : server) : Prop := exists acts, did sv sv' acts.

#[export] Instance extends_preorder : PreOrder extends.
Proof.
  split.
  - intros sv. exists []. unfold did. by rewrite app_nil_r.
  - intros s1 s2 s3 [a1 H1] [a2 H2]. exists (a1 ++ a2). unfold did in *. by rewrite H2, H1, app_assoc.
Qed.

Lemma send_did a sv sv' : send a sv = inl sv' -> did sv sv' [a] /\ sends sv = S (sends sv').
Proof. unfold send. destruct (sends sv); [done|]. intros [= <-]. split; reflexivity. Qed.

Lemma send_extends a sv sv' : send a sv = inl sv' -> extends sv sv'.
Proof. intros [H _]%send_did. by exists [a]. Qed.

Lemma emit_extends a sv : extends sv (emit a sv).
Proof. by exists [a]. Qed.

(** One more [send]. *)
Ltac hop := etransitivity; [eapply send_extends; eassumption|].
(** Takes a chain of [let*] apart. *)
Ltac steps :=
  repeat match goal with
  | H : bind ?e _ = inl _ |- _ => destruct e eqn:?; cbn [bind] in H; [|discriminate H]
  | H : inl _ = inl _ |- _ => injection H as H
  end.

Lemma rows_extends n sv sv' : rows n sv = inl sv' -> extends sv sv'.
Proof.
  revert sv. induction n as [|n IH]; intros sv; cbn [rows]; [by intros [= <-]|].
  destruct (fgets 999 (response sv)) as [[[|c r] rest] eof]; [done|].
  case_bool_decide; intros Hr; [injection Hr as <-; by exists []; unfold did; rewrite app_nil_r|].
  steps. transitivity (sv <| response := rest |>).
  { exists []. unfold did. by rewrite app_nil_r. }
  unfold sendHtml in *. hop. hop. eauto.
Qed.

Section Replies.
Context `{Files} (clientAddr : list Z).

Lemma send_file_extends n file sv sv' : send_file n file sv = inl sv' -> extends sv sv'.
Proof.
  revert file sv. induction n as [|n IH]; intros file sv; cbn [send_file]; [by intros [= <-]|].
  destruct (take (Z.to_nat 4096) file); [by intros [= <-]|]. intros Hr. steps.
  hop. eauto.
Qed.

(** The status the server is to answer with; [None] is no answer at all. *)
Definition status (method uri : list Z) : option (list Z) :=
  if negb (bool_decide (method = bytes "GET")) then Some (bytes "501 Not Implemented")
  else if negb (bool_decide (head uri = Some 47)) then Some (bytes "400 Bad Request")
  else if bool_decide (bytes ".." ∈ split slash uri) then Some (bytes "403 Forbidden")
  else if bool_decide (uri = bytes "/mdb-lookup") then Some (bytes "200 OK")
  else if bool_decide (take (length mdb_key) uri = mdb_key) then Some (bytes "200 OK")
  else if bool_decide (is_Some (strstr uri mdb_key)) then None
  else match file_path uri with
       | inl path => match fopen path with
                     | Some _ => Some (bytes "200 OK")
                     | None => Some (bytes "404 Not Found")
                     end
       | inr _ => None
       end.

(** A reply starts with the header of [s]. *)
Definition starts_with (sv sv' : server) (s : list Z) : Prop :=
  exists acts, did sv sv' acts /\ head (to_client acts) = Some (header s).

Lemma header_starts s sv0 sv sv1 sv' :
  (length (header s) < 100)%nat ->
  (exists a, did sv0 sv a /\ to_client a = []) ->
  sendHttpHeader s sv = inl sv1 -> extends sv1 sv' -> starts_with sv0 sv' s.
Proof.
  intros Hl (a & Ha & Hn) [Hs _]%send_did [acts He].
  exists (a ++ [ToClient (header s)] ++ acts). unfold did in *.
  unfold snprintf in Hs. rewrite take_ge in Hs by lia.
  split; [by rewrite He, Hs, Ha, <- !app_assoc|].
  unfold to_client in *. by rewrite !omap_app, Hn.
Qed.

Lemma no_actions sv : exists a, did sv sv a /\ to_client a = [].
Proof. exists []. unfold did. by rewrite app_nil_r. Qed.

Lemma logged m u v s sv : exists a, did sv (logToStdOut clientAddr m u v s sv) a /\ to_client a = [].
Proof. eexists [_]. by split. Qed.

Lemma reply_error_starts s m u v sv sv' :
  (length (header s) < 100)%nat ->
  reply_error clientAddr s m u v sv = inl sv' -> starts_with sv sv' s.
Proof.
  intros Hl Hr. unfold reply_error in Hr. steps. subst.
  eapply header_starts; [done|apply no_actions|done|]. unfold sendErr in *.
  hop. apply emit_extends.
Qed.

Lemma short_headers : Forall (fun s => length (header s) < 100)%nat
  [bytes "501 Not Implemented"; bytes "400 Bad Request"; bytes "403 Forbidden"; bytes "200 OK";
   bytes "404 Not Found"].
Proof. apply (bool_decide_unpack _). vm_compute. exact I. Qed.

Ltac short :=
  let Hs := fresh in pose proof short_headers as Hs;
  repeat (apply Forall_cons in Hs as [? Hs]); assumption.

Lemma lookup_mdb_starts m u v sv sv' :
  lookup_mdb clientAddr m u v sv = inl sv' -> starts_with sv sv' (bytes "200 OK").
Proof.
  intros Hr. unfold lookup_mdb in Hr. steps.
  match goal with H : send (ToMdb _) sv = inl ?s |- _ => apply send_did in H as [Hd _] end.
  eapply header_starts; [short|by eexists; split; [exact Hd|]|eassumption|].
  unfold sendHtml, sendForm in *. unfold sendHtml in *. hop. hop. hop.
  etransitivity; [apply emit_extends|].
  etransitivity; [eapply rows_extends; eassumption|]. by eapply send_extends.
Qed.

Lemma serve_file_starts m u v sv sv' :
  serve_file clientAddr m u v sv = inl sv' ->
  exists path, file_path u = inl path /\
    starts_with sv sv' (match fopen path with
                        | Some _ => bytes "200 OK" | None => bytes "404 Not Found" end).
Proof.
  intros Hr. unfold serve_file in Hr.
  destruct (file_path u) as [path|]; cbn [bind] in Hr; [|done]. exists path. split; [done|].
  destruct (fopen path) as [file|].
  - steps. eapply header_starts; [short|apply logged|eassumption|]. by eapply send_file_extends.
  - eapply reply_error_starts; [short|done].
Qed.

(** the answer of the server.  Whenever a request is handled, the first
    bytes the client gets are the status line of [status]: 501 for another
    method than GET, 400 for a relative URI, 403 when ".." is a component of
    it, 200 for the form and for a lookup, 200 or 404 for a file; and a URI
    with "/mdb-lookup?key=" in another place than its start gets no answer. *)
Theorem respond_status m uri v sv sv' :
  respond clientAddr m uri v sv = inl sv' ->
  match status m uri with
  | Some s => starts_with sv sv' s
  | None => out sv' = out sv
  end.
Proof.
  unfold respond, status.
  case_bool_decide; cbn [negb]; [|by apply reply_error_starts; short].
  case_bool_decide as Hh; cbn [negb]; [|by apply reply_error_starts; short].
  rewrite forbidden_component by done. cbn [bind].
  case_bool_decide; [by apply reply_error_starts; short|].
  case_bool_decide.
  { intros Hr. steps. eapply header_starts; [short|apply logged|eassumption|].
    by eapply send_extends. }
  unfold isInvalid. rewrite negb_involutive.
  destruct (bool_decide (take (length mdb_key) uri = mdb_key)) eqn:Hpre.
  { apply bool_decide_eq_true in Hpre. rewrite bool_decide_true; [apply lookup_mdb_starts|]. apply strstr_spec.
    exists [], (drop (length mdb_key) uri). rewrite app_nil_l. rewrite <- Hpre at 1. by rewrite take_drop. }
  destruct (bool_decide (is_Some (strstr uri mdb_key))); [intros Hr; by injection Hr as ->|].
  intros (path & -> & Hs)%serve_file_starts. by destruct (fopen path).
Qed.

(** ** Files *)

Lemma last_app_ne (x y : list Z) : y <> [] -> last (x ++ y) = last y.
Proof.
  intros Hy. destruct (exists_last Hy) as (y' & c & ->). by rewrite app_assoc, !last_snoc.
Qed.

(** A file name appended to a path brings no ".." into it. *)
Lemma index_component uri :
  uri <> [] -> bytes ".." ∉ split slash uri ->
  bytes ".." ∉ split slash (uri ++ (if bool_decide (last uri = Some 47) then bytes "index.html"
                                    else bytes "/index.html")).
Proof.
  intros Hne Hn.
  assert (Hi : Forall (fun c => c ∉ slash) (bytes "index.html"))
    by (apply (bool_decide_unpack _); vm_compute; exact I).
  case_bool_decide as Hl.
  - apply last_Some in Hl as [u ->]. rewrite <- app_assoc. cbn [app].
    rewrite split_app_delim in * by by apply slash_in.
    rewrite (split_one slash _ Hi). set_solver.
  - change (bytes "/index.html") with (47 :: bytes "index.html").
    rewrite split_app_delim, (split_one slash _ Hi) by by apply slash_in. set_solver.
Qed.

(** A path below the web root: the root, and behind it a part that starts with
    '/' and has no ".." as a component. *)
Definition below_root (root path : list Z) : Prop :=
  exists part, path = root ++ part /\ head part = Some 47 /\ (bytes ".." ∉ split slash part).

(** The paths that [file_path] looks at and answers with. *)
Lemma file_path_below uri path :
  head uri = Some 47 -> bytes ".." ∉ split slash uri ->
  below_root webRoot (webRoot ++ uri) /\ (file_path uri = inl path -> below_root webRoot path).
Proof.
  intros Hh Hn. assert (Hne : uri <> []) by by intros ->. split; [by exists uri|].
  unfold file_path, in_buffer.
  destruct (length webRoot <? 100)%nat; cbn [bind]; [|done].
  destruct (length (webRoot ++ uri) <? 100)%nat; cbn [bind]; [|done].
  destruct (default junk_isdir (stat_isdir (webRoot ++ uri))).
  - rewrite last_app_ne by done. destruct (_ <? 100)%nat; [|done]. intros Hp. injection Hp as <-.
    eexists. rewrite <- app_assoc. split_and!; [done|by destruct uri|by apply index_component].
  - intros Hp. injection Hp as <-. by exists uri.
Qed.

(** The number of [send]s a file takes. *)
Definition chunks (file : list Z) : nat := Z.to_nat ((Z.of_nat (length file) + 4095) / 4096).

Lemma chunks_step (file : list Z) :
  file <> [] -> chunks file = S (chunks (drop (Z.to_nat 4096) file)).
Proof.
  intros Hne. unfold chunks. rewrite length_drop.
  assert (0 < Z.of_nat (length file)) by (destruct file; [done|simpl; lia]).
  destruct (decide (Z.of_nat (length file) <= 4096)).
  - replace (length file - Z.to_nat 4096)%nat with 0%nat by lia. simpl (Z.of_nat 0).
    rewrite (Z.div_small (0 + 4095)) by lia.
    replace ((Z.of_nat (length file) + 4095) / 4096) with 1; [done|].
    apply (Z.div_unique _ _ _ (Z.of_nat (length file) - 1)); lia.
  - replace (Z.of_nat (length file) + 4095)
      with (Z.of_nat (length file - Z.to_nat 4096) + 4095 + 1 * 4096) by lia.
    rewrite Z.div_add by lia.
    assert (0 <= (Z.of_nat (length file - Z.to_nat 4096) + 4095) / 4096) by (apply Z.div_pos; lia).
    lia.
Qed.

Lemma send_file_spec n : forall file sv,
  (length file < n)%nat -> (chunks file <= sends sv)%nat ->
  exists sv' acts, send_file n file sv = inl sv' /\ did sv sv' acts /\
    concat (to_client acts) = file.
Proof.
  induction n as [|n IH]; intros file sv Hn Hc; [lia|]. cbn [send_file].
  destruct (decide (file = [])) as [->|Hne].
  { rewrite take_nil. exists sv, []. unfold did. by rewrite app_nil_r. }
  destruct (take (Z.to_nat 4096) file) as [|c buff] eqn:Ht.
  { apply (f_equal length) in Ht. rewrite length_take in Ht. destruct file; [done|]. simpl in Ht. lia. }
  rewrite <- Ht. rewrite (chunks_step file Hne) in Hc. unfold send.
  destruct (sends sv) as [|k]; [lia|]. cbn [bind].
  set (sv1 := emit _ sv <| sends := k |>).
  destruct (IH (drop (Z.to_nat 4096) file) sv1) as (sv' & acts & -> & Hd & Hcat).
  - rewrite length_drop. assert (0 < length file)%nat by (destruct file; [done|simpl; lia]). lia.
  - simpl. lia.
  - exists sv', (ToClient (take (Z.to_nat 4096) file) :: acts). split_and!; [done| |].
    + unfold did in *. rewrite Hd. simpl. by rewrite <- app_assoc.
    + cbn [to_client omap list_omap concat]. unfold to_client in Hcat. rewrite Hcat.
      apply take_drop.
Qed.

(** A file is served whole.  When the path fits its buffer, the file can be
    opened and the [send]s succeed, the client gets the header 200 and exactly
    the bytes of the file, whatever its length. *)
Theorem serve_file_complete m uri v sv path file :
  file_path uri = inl path -> fopen path = Some file -> (S (chunks file) <= sends sv)%nat ->
  exists sv' acts, serve_file clientAddr m uri v sv = inl sv' /\ did sv sv' acts /\
    concat (to_client acts) = header (bytes "200 OK") ++ file.
Proof.
  intros Hp Hf Hs. unfold serve_file. rewrite Hp. cbn [bind]. rewrite Hf.
  unfold sendHttpHeader, snprintf. rewrite take_ge by (vm_compute; lia). unfold send.
  set (sv1 := logToStdOut _ _ _ _ _ _). change (sends sv1) with (sends sv).
  destruct (sends sv) as [|k]; [lia|]. cbn [bind].
  set (sv2 := emit _ sv1 <| sends := k |>).
  destruct (send_file_spec (S (length file)) file sv2) as (sv' & acts & -> & Hd & Hcat);
    [lia|simpl; lia|].
  eexists sv', (LogLine _ :: ToClient _ :: acts). split_and!; [done| |].
  - unfold did in *. rewrite Hd. unfold sv2, sv1, logToStdOut. simpl. by rewrite <- !app_assoc.
  - cbn [to_client omap list_omap concat]. unfold to_client in Hcat. by rewrite Hcat.
Qed.
End Replies.


(** ** Requests *)

Lemma separators_ok : 0 ∉ token_separators.
Proof. apply (bool_decide_unpack _). vm_compute. exact I. Qed.

Lemma strtok_length del p b : length (strtok del p b).1.1 = length b.
Proof.
  unfold strtok. destruct (b !! _) as [[]|]; [done| | |done].
  all: destruct (b !! _) as [[]|]; simpl; rewrite ?length_insert; done.
Qed.

Lemma words_0 del : words del [] = [].
Proof. done. Qed.

(** The tokens the three calls find, read after the last of them. *)
Lemma request_tokens_words r :
  0 ∉ r -> let ws := words token_separators r in
  request_tokens r = (ws !! 0%nat, ws !! 1%nat, ws !! 2%nat).
Proof.
  intros H0 ws. unfold request_tokens.
  destruct (strtok_words token_separators [] r [] separators_ok H0)
    as (p1 & s1 & o1 & E1 & H1 & M1 & _). cbn [length app] in E1. rewrite E1.
  destruct (strtok_words token_separators p1 s1 [] separators_ok H1)
    as (p2 & s2 & o2 & E2 & H2 & M2 & (t2 & Ht2)). rewrite E2.
  destruct (strtok_words token_separators p2 s2 [] separators_ok H2)
    as (p3 & s3 & o3 & E3 & H3 & M3 & (t3 & Ht3)). rewrite E3.
  pose proof (f_equal (fun x => length x.1.1) E2) as L2. simpl in L2.
  pose proof (f_equal (fun x => length x.1.1) E3) as L3. simpl in L3.
  rewrite strtok_length in L2, L3. subst p2 p3.
  repeat rewrite length_app in L2. repeat rewrite length_app in L3. cbn [length] in L2, L3.
  assert (Hb2 : ((p1 ++ t2) ++ t3) ++ s3 ++ [0] = (p1 ++ t2) ++ (t3 ++ s3) ++ [0])
    by (by rewrite <- !app_assoc).
  assert (Hb1 : ((p1 ++ t2) ++ t3) ++ s3 ++ [0] = p1 ++ (t2 ++ t3 ++ s3) ++ [0])
    by (by rewrite <- !app_assoc).
  unfold ws. destruct (words token_separators r) as [|w1 ws1].
  { destruct M1 as [-> ->]. rewrite words_0 in M2. destruct M2 as [-> ->].
    rewrite words_0 in M3. by destruct M3 as [-> ->]. }
  destruct M1 as (<- & q1 & -> & Hs1).
  assert (C1 : cstr_at (((p1 ++ t2) ++ t3) ++ s3 ++ [0]) q1 = w1).
  { rewrite Hb1. apply cstr_at_str, Hs1. rewrite !length_app. simpl in *. lia. }
  cbn [fmap option_map option_fmap]. rewrite C1.
  destruct (words token_separators s1) as [|w2 ws2].
  { destruct M2 as [-> ->]. rewrite words_0 in M3. by destruct M3 as [-> ->]. }
  destruct M2 as (<- & q2 & -> & Hs2).
  assert (C2 : cstr_at (((p1 ++ t2) ++ t3) ++ s3 ++ [0]) q2 = w2).
  { rewrite Hb2. apply cstr_at_str, Hs2. rewrite !length_app. simpl in *. lia. }
  cbn [fmap option_map option_fmap]. rewrite C2.
  destruct (words token_separators s2) as [|w3 ws3]; [by destruct M3 as [-> _]|].
  destruct M3 as (_ & q3 & -> & Hs3). cbn [fmap option_map option_fmap].
  by rewrite (cstr_at_str _ _ _ (Hs3 s3 eq_refl)).
Qed.

(** A request line without a URI, with a URI of 300 bytes or more, or with
    a URI that does not fit behind the web root in the path buffer makes the
    server write outside its buffers or through NULL. *)
Theorem handle_overflows `{Files} clientAddr r m uri ver sv :
  0 ∉ r ->
  (words token_separators r = [m] -> handle clientAddr r sv = inr Undefined) /\
  (words token_separators r = [m; uri; ver] -> (300 <= length uri)%nat ->
   handle clientAddr r sv = inr Undefined) /\
  (words token_separators r = [bytes "GET"; uri; ver] -> (length uri < 300)%nat ->
   head uri = Some 47 -> bytes ".." ∉ split slash uri -> strstr uri mdb_key = None ->
   uri <> bytes "/mdb-lookup" -> (100 <= length (webRoot ++ uri))%nat ->
   handle clientAddr r sv = inr Undefined).
Proof.
  intros H0. unfold handle. rewrite request_tokens_words by done. split_and!.
  - by intros ->.
  - intros -> Hl. cbn [lookup list_lookup get bind]. unfold in_buffer.
    by rewrite (proj2 (Nat.ltb_ge (length uri) 300)).
  - intros -> Hl Hh Hn Hk Hm Hp. cbn [lookup list_lookup get bind]. unfold in_buffer.
    rewrite (proj2 (Nat.ltb_lt (length uri) 300)) by done. cbn [bind get]. unfold respond.
    rewrite !bool_decide_true by done. cbn [negb]. rewrite forbidden_component by done.
    cbn [bind]. rewrite !bool_decide_false by (done || rewrite Hk; by intros []).
    unfold serve_file, file_path, in_buffer.
    destruct (length webRoot <? 100)%nat; cbn [bind]; [|done].
    by rewrite (proj2 (Nat.ltb_ge _ 100)).
Qed.

(** ** Witnesses *)

#[local] Instance demo_files : Files := {|
  webRoot := bytes "/www";
  stat_isdir := fun p => if bool_decide (p = bytes "/www/a") then Some false else None;
  junk_isdir := false;
  fopen := fun p => if bool_decide (p = bytes "/www/a") then Some (bytes "hello") else None |}.

Definition demo_server : server := mkServer [] [] 10.
Definition demo_addr : list Z := bytes "127.0.0.1".
Definition demo_answer : server :=
  match respond demo_addr (bytes "GET") (bytes "/a") (bytes "HTTP/1.0") demo_server with
  | inl sv => sv | inr _ => demo_server
  end.

Lemma respond_status_witness : starts_with demo_server demo_answer (bytes "200 OK").
Proof.
  assert (H : match status (bytes "GET") (bytes "/a") with
              | Some s => starts_with demo_server demo_answer s
              | None => out demo_answer = out demo_server
              end).
  { apply (respond_status demo_addr (bytes "GET") (bytes "/a") (bytes "HTTP/1.0")).
    vm_compute. reflexivity. }
  exact H.
Defined.

(** The same files, and a password file next to the web root. *)
Definition secret_files : Files := {|
  webRoot := bytes "/www"; stat_isdir := @stat_isdir demo_files; junk_isdir := false;
  fopen := fun p => if bool_decide (p = bytes "/www../etc/passwd") then Some (bytes "secret") else @fopen demo_files p |}.


Lemma serve_file_complete_witness :
  exists sv' acts, serve_file demo_addr (bytes "GET") (bytes "/a") [] demo_server = inl sv' /\
    did demo_server sv' acts /\
    concat (to_client acts) = header (bytes "200 OK") ++ bytes "hello".
Proof.
  apply (serve_file_complete demo_addr (bytes "GET") (bytes "/a") [] demo_server
    (bytes "/www/a") (bytes "hello")).
  - vm_compute. reflexivity.
  - vm_compute. reflexivity.
  - vm_compute. lia.
Defined.

Lemma handle_overflows_witness :
  handle demo_addr (bytes "GET" ++ nl) demo_server = inr Undefined.
Proof.
  unshelve eapply (proj1 (handle_overflows demo_addr (bytes "GET" ++ nl) (bytes "GET") [] []
    demo_server _)).
  - apply (bool_decide_unpack _). vm_compute. exact I.
  - vm_compute. reflexivity.
Defined.
