(* ===== verification/Rotationd.v ===== *)
(** * The rotation daemon (synchronizer/rotationd/rotationd.c)

    The daemon opens the sensors, detaches from its terminal and then polls the
    device for ever, handing the first gyroscope event of every poll to the
    kernel with [set_rotation] (system call 333, rotation.c).  The sensor
    library is not part of the repository: its answers are arguments.  Readings
    are IEEE single-precision numbers; the product with 60 is rounded as C
    rounds it and the conversion to [int] is undefined out of range.

    The theorems tie the daemon to the kernel side: what a poll reports, when
    detaching succeeds, and that the kernel's window holds the last readings. *)

From Stdlib Require Import SpecFloat.
From S2P Require Import Prelude Rotation.
#[local] Open Scope Z_scope.

(** ** Readings *)

(** [float] is binary32. *)
Definition fmul (x y : spec_float) : spec_float := SFmul 24 128 x y.
Definition sixty : spec_float := S754_finite false 15728640 (-18).

(** [(int) x]: truncation; [None] where C leaves it undefined. *)
Definition trunc (x : spec_float) : option Z :=
  match x with
  | S754_zero _ => Some 0
  | S754_infinity _ | S754_nan => None
  | S754_finite s m e =>
      let a := if 0 <=? e then Z.pos m * 2 ^ e else Z.pos m / 2 ^ (- e) in
      let v := if s then - a else a in
      if (INT_MIN <=? v) && (v <=? INT_MAX) then Some v else None
  end.

(** [(int) (g * 60)] *)
Definition per_minute (g : spec_float) : option Z := trunc (fmul g sixty).

Definition SENSOR_TYPE_GYROSCOPE : Z := 4.

Record sensors_event := mkEv { type : Z; gx : spec_float; gy : spec_float; gz : spec_float }.

(** [poll_sensor_data]: the loop over the [count] events of the buffer, and
    what it leaves in [cur_rotation]; [None] is undefined. *)
Fixpoint poll_loop (n : nat) (buffer : list sensors_event) (cur : dev_rotation)
    : option (dev_rotation * Z) :=
  match n with
  | O => Some (cur, -1)
  | S n =>
      match buffer with
      | [] => None
      | e :: buffer =>
          if negb (type e =? SENSOR_TYPE_GYROSCOPE) then poll_loop n buffer cur
          else
            x ← per_minute (gx e);
            y ← per_minute (gy e);
            z ← per_minute (gz e);
            Some (mkRot x y z, 0)
      end
  end.

Definition poll_sensor_data (poll : Z * list sensors_event) (cur : dev_rotation)
    : option (dev_rotation * Z) :=
  let '(count, buffer) := poll in poll_loop (Z.to_nat count) buffer cur.

(** ** Opening the sensors *)

(** The answers of the sensor library: the error codes of [hw_get_module] and
    [sensors_open], whether a device came back, and the sensors listed. *)
Record sensors := mkSensors {
  module_err : Z;
  open_err : Z;
  device : bool;
  count : Z;
  handles : option (list Z) }.

(** [open_sensors]: its result and the handles it has activated. *)
Definition open_sensors (s : sensors) : Z * list Z :=
  if negb (module_err s =? 0) then (-1, [])
  else if negb (open_err s =? 0) then (-1, [])
  else if negb (device s) then (-1, [])
  else if (count s <? 1) || match handles s with Some _ => false | None => true end then (-1, [])
  else (0, take (Z.to_nat (count s)) (default [] (handles s))).

(** ** Becoming a daemon *)

Inductive syscall := Umask (m : Z) | Setsid | Chdir | Close (fd : Z).

(** [createDeamon]: [inl] the calls made by the process that goes on, [inr] the
    code it exits with. *)
Definition createDeamon (pid sid chdir : Z) : list syscall + Z :=
  if pid <? 0 then inr 1
  else if 0 <? pid then inr 0
  else if sid <? 0 then inr 1
  else if chdir <? 0 then inr 1
  else inl [Umask 0; Setsid; Chdir; Close 0; Close 1; Close 2].

(** ** The main loop *)

Inductive event := Printed | Slept.

(** One round: [uid] is the user the daemon runs as, [copy_ok] whether the
    kernel can read [rotation]. *)
Definition round (uid : Z) (poll : Z * list sensors_event)
    (s : dev_rotation * rot_state * list event) : option (dev_rotation * rot_state * list event) :=
  let '(rotation, st, evs) := s in
  '(rotation, r) ← poll_sensor_data poll rotation;
  if negb (r =? 0) then Some (rotation, st, evs ++ [Printed])
  else
    let '(st, ret) := set_rotation uid (Some rotation) st in
    Some (rotation, st, evs ++ (if negb (ret =? 0) then [Printed; Slept] else [Slept])).

Fixpoint rounds (uid : Z) (polls : list (Z * list sensors_event))
    (s : dev_rotation * rot_state * list event) : option (dev_rotation * rot_state * list event) :=
  match polls with
  | [] => Some s
  | p :: polls => s ← round uid p s; rounds uid polls s
  end.

(** ** What a poll reports *)

Definition is_gyro (e : sensors_event) : Prop := type e = SENSOR_TYPE_GYROSCOPE.
#[export] Instance is_gyro_dec e : Decision (is_gyro e).
Proof. unfold is_gyro. apply _. Defined.

Definition reading (e : sensors_event) : option dev_rotation :=
  x ← per_minute (gx e); y ← per_minute (gy e); z ← per_minute (gz e); Some (mkRot x y z).

Lemma poll_loop_spec n : forall buffer cur,
  (n <= length buffer)%nat ->
  poll_loop n buffer cur =
  match list_find is_gyro (take n buffer) with
  | Some (_, e) => (fun r => (r, 0)) <$> reading e
  | None => Some (cur, -1)
  end.
Proof.
  induction n as [|n IH]; intros [|e buffer] cur Hn; simpl in Hn; try lia; [done..|].
  cbn [poll_loop take list_find]. destruct (Z.eqb_spec (type e) SENSOR_TYPE_GYROSCOPE) as [He|He];
    case_decide as Hd; unfold is_gyro in Hd; try done; cbn [negb].
  - unfold reading. destruct (per_minute (gx e)); [|done]. simpl.
    destruct (per_minute (gy e)); [|done]. simpl. by destruct (per_minute (gz e)).
  - rewrite IH by lia. by destruct (list_find is_gyro (take n buffer)) as [[]|].
Qed.

(** The readings of a sequence of polls: the first gyroscope event of each. *)
Definition poll_reading (poll : Z * list sensors_event) : option dev_rotation :=
  '(_, e) ← list_find is_gyro (take (Z.to_nat poll.1) poll.2); reading e.

(** The device fills no more than it was given, and its readings are in range. *)
Definition poll_ok (poll : Z * list sensors_event) : Prop :=
  (Z.to_nat poll.1 <= length poll.2)%nat /\
  Forall (fun e => is_gyro e -> is_Some (reading e)) poll.2.

Lemma round_spec poll rotation st evs :
  poll_ok poll ->
  exists rotation' evs', round 0 poll (rotation, st, evs) =
    Some (rotation', match poll_reading poll with
                     | Some r => (set_rotation 0 (Some r) st).1
                     | None => st
                     end, evs').
Proof.
  intros [Hlen Hok]. unfold round, poll_sensor_data, poll_reading. destruct poll as [cnt buffer].
  simpl in *. rewrite poll_loop_spec by done.
  destruct (list_find is_gyro (take (Z.to_nat cnt) buffer)) as [[i e]|] eqn:Hf; simpl; [|eauto].
  apply list_find_Some in Hf as (Hi & Hg & _). apply lookup_take_Some in Hi as [Hi _].
  rewrite Forall_lookup in Hok. destruct (Hok i e Hi Hg) as [r Hr]. rewrite Hr. simpl.
  destruct (set_rotation 0 (Some r) st) as [st' ret]. simpl. eauto.
Qed.

(** ** Properties *)

(** A poll reports the first gyroscope event the device delivered, scaled
    by 60 and truncated, and 0; without one it reports -1 and leaves the
    rotation as it was.  Nothing is read behind the events delivered. *)
Theorem poll_reports_first_gyro poll cur :
  (Z.to_nat poll.1 <= length poll.2)%nat ->
  poll_sensor_data poll cur =
  match list_find is_gyro (take (Z.to_nat poll.1) poll.2) with
  | Some (_, e) => (fun r => (r, 0)) <$> reading e
  | None => Some (cur, -1)
  end.
Proof. destruct poll as [cnt buffer]. apply poll_loop_spec. Qed.

Definition demo_event (t : Z) : sensors_event :=
  (* 0.5 rad/s around x, -1.25 around y, 0 around z *)
  mkEv t (S754_finite false 8388608 (-24)) (S754_finite true 10485760 (-23)) (S754_zero false).

Lemma poll_reports_first_gyro_witness :
  poll_sensor_data (2, [demo_event 1; demo_event 4]) (mkRot 9 9 9) = Some (mkRot 30 (-75) 0, 0).
Proof.
  rewrite (poll_reports_first_gyro (2, [demo_event 1; demo_event 4]) (mkRot 9 9 9)).
  - vm_compute. reflexivity.
  - vm_compute. lia.
Defined.

(** C40: the daemon and the kernel module together: run as root, the daemon is
    never stopped by a poll, and after any sequence of polls the sample window
    of the kernel is the last [windowSize] of the samples it had and the
    readings of the polls that had one, oldest first. *)
Theorem daemon_feeds_window polls rotation st evs :
  Forall poll_ok polls -> rot_wf st -> 1 <= windowSize st ->
  exists rotation' st' evs',
    rounds 0 polls (rotation, st, evs) = Some (rotation', st', evs') /\
    sampleQueue st' =
      lastn (Z.to_nat (windowSize st)) (sampleQueue st ++ omap poll_reading polls).
Proof.
  intros Hok Hwf Hw.
  assert (Hrun : exists rotation' evs', rounds 0 polls (rotation, st, evs) =
    Some (rotation', foldl (fun st r => (set_rotation 0 (Some r) st).1) st (omap poll_reading polls),
          evs')).
  { clear Hwf Hw. revert rotation st evs. induction Hok as [|p polls Hp Hok IH];
      intros rotation st evs; [simpl; eauto|].
    destruct (round_spec p rotation st evs Hp) as (rotation1 & evs1 & Hr).
    cbn [rounds]. rewrite Hr. cbn [mbind option_bind]. cbn [omap list_omap].
    destruct (poll_reading p); apply IH. }
  destruct Hrun as (rotation' & evs' & ->). eexists _, _, _. split; [done|].
  by apply samples_window.
Qed.

Lemma daemon_feeds_window_witness :
  exists rotation' st' evs',
    rounds 0 [(1, [demo_event 4]); (0, [])] (mkRot 0 0 0, rot_init, []) =
      Some (rotation', st', evs') /\
    sampleQueue st' = lastn (Z.to_nat (windowSize rot_init))
      (sampleQueue rot_init ++ omap poll_reading [(1, [demo_event 4]); (0, [])]).
Proof.
  apply (daemon_feeds_window [(1, [demo_event 4]); (0, [])] (mkRot 0 0 0) rot_init []).
  - apply (bool_decide_unpack _). vm_compute. exact I.
  - split; [vm_compute; repeat split; discriminate|]. split; [done|]. done.
  - vm_compute. discriminate.
Defined.

(** The process that goes on after [createDeamon] is the child of a
    successful [fork], leader of its own session, in the root directory, with
    the three standard descriptors closed; every other outcome ends the
    process, the parent of a successful fork with success. *)
Theorem createDeamon_detaches pid sid chdir :
  (forall calls, createDeamon pid sid chdir = inl calls <->
     pid = 0 /\ 0 <= sid /\ 0 <= chdir /\
     calls = [Umask 0; Setsid; Chdir; Close 0; Close 1; Close 2]) /\
  (createDeamon pid sid chdir = inr 0 <-> 0 < pid).
Proof.
  unfold createDeamon. destruct (Z.ltb_spec pid 0), (Z.ltb_spec 0 pid), (Z.ltb_spec sid 0),
    (Z.ltb_spec chdir 0); split; try (intros calls); split; intros Hx; try naive_solver lia;
    try (injection Hx as <-); repeat split; lia.
Qed.
